(* ===== verification/_CoqProject ===== *)
-Q . S2P
Prelude.v
ObjectId.v
CellAttr.v
CellType.v
SubnetBase.v
Builder.v
Order.v
BuilderInv.v
Make.v
BuilderAdd.v
BuilderAlloc.v
BuilderSpec.v
BuilderEval.v
MakeSpec.v
SubnetEval.v
Adder.v
AdderSum.v
AdderArith.v
Synth.v
SynthArith.v
Strash.v
BuilderCorrect.v
MakeCorrect.v
AdderCorrect.v
SynthBits.v
Premapper.v
MapperLaws.v
PremapCell.v
PremapSpec.v
MakeWf.v
Stays.v
PremapCorrect.v
Sat.v
SatSpec.v
Cnf.v
CnfSpec.v
Checker.v
VerifierSpec.v
MiterSpec.v
CheckerCorrect.v
Simulator.v
SimOps.v
SimSpec.v
CopySpec.v
CopyCorrect.v
RndChecker.v
RndSpec.v
SimCorrect.v
RndCorrect.v
Comparison.v
ComparisonSpec.v
ComparisonCorrect.v
Shift.v
ShiftSpec.v
Multiplier.v
MultiplierSpec.v
MultiplierCorrect.v
MultiplierSynth.v
Synthesizer.v
BlockList.v
BlockListSpec.v
BlockListCorrect.v
Nets.v
NetSpec.v
Validator.v
ValidatorSpec.v
ValidatorCorrect.v
Bits.v
BoundedSet.v
BoundedSetSpec.v
Cuts.v
CutsSpec.v
CutsCorrect.v
Decomposer.v
ComposeSpec.v
DecomposerSpec.v
DecomposerCorrect.v
Design.v
DesignSpec.v
Defects.v
