(* ===== verification/Prelude.v ===== *)
(** * Verification of the logical model of Utopia EDA

    Utopia is a synthesis tool: designs are nets of cells, a cell's logic is a
    _subnet_ (a directed acyclic graph of gates), and the tool builds,
    transforms and checks subnets.  This development models the core under
    [src/src/gate]: identifiers, cell types and their attributes, subnets, the
    subnet builder and its clients: the synthesizer of arithmetic and logical
    operations, the premappers, the simulator, and the checkers: by simulation, and
    by a SAT solver with its encoder of subnets; above subnets, nets, their
    decomposition into subnets and back, and designs.  File names below are under
    [src/src/gate] (left) and in this directory (right).

    ** Parts and files

    - [model/object.h], [model/link.h]: [ObjectId] packs identifiers (a tag and a
      storage number) and link ends (cell, port, validity) into words.
    - [model/cellattr.h, .cpp]: [CellAttr], the ports of a cell type in the order
      the code keeps them, and the mapping from pins to ports.
    - [model/celltype.h, .cpp, celltype_gates.inc]: [CellType], symbols and their
      codes, properties, the table of the standard gates and [gate_fun], the
      function of a gate.
    - [model/subnet_base.h], class [Subnet] of [model/subnet.h]: [SubnetBase],
      cells, links and the immutable subnet with its link entries.
    - class [SubnetBuilder] of [model/subnet.h, .cpp]: [Builder] (the state and the
      operations), [Make] ([rearrangeEntries], [make], [addSubnet]).
      [Order] relates the doubly linked order to a list; [BuilderInv] states the
      invariant [WF]; [BuilderAdd] and [BuilderAlloc] show that adding a cell
      keeps it; [Strash] is about structural hashing; [BuilderEval] about the
      values of the cells; [MakeSpec] about [make].
    - [BuilderSpec] is the interface of the builder to its clients: [wp] and
      [adds] (a run that ends, keeps the invariant and the old cells), [denotes]
      (the meaning of a link as a function of the valuation).  The clients are
      proved against this interface only.
    - [BuilderCorrect] and [MakeCorrect] state the results for the builders that
      a client can reach, [Defects] the closed runs that fail.
    - [synthesizer/operation/addition.cpp]: [Adder] (the parallel prefix adder),
      [AdderSum] (its tree of carries and its sum), [AdderArith] (the numbers),
      [AdderCorrect]; [Synth] and [SynthArith] with [utils.cpp] and
      [negation.cpp].
    - [synthesizer/operation/bitwise.cpp, reduction.cpp, multiplexer.cpp]:
      [SynthBits].
    - [synthesizer/operation/comparison.cpp]: [Comparison]; [ComparisonSpec] relates
      its cascade of equal bits to numbers, [ComparisonCorrect] has the subnets.
    - [synthesizer/operation/shift.cpp]: [Shift], with its decoder of the amount and
      its subnets in [ShiftSpec].
    - [synthesizer/operation/multiplication.cpp]: [Multiplier]; [MultiplierSpec] is
      about the matrix multiplier (the rows done so far are a product with the low
      bits of the second operand) and about links as numbers modulo
      powers of two ([residue]), [MultiplierCorrect] about Karatsuba's recursion,
      [MultiplierSynth] about the subnets.
    - [synthesizer/synthesizer.cpp, operation/division.cpp]: [Synthesizer], the
      choice of the routine, with [binary_op] and [unary_op], the operations as
      functions of numbers.
    - [SubnetEval] evaluates a subnet cell by cell and says which subnets are
      well-formed ([sn_wf]); [MakeWf] shows that [make] returns such subnets.
    - [premapper/cell_*mapper.cpp]: [Premapper] (the base class and the mappers to
      AIG, XAG, MIG and XMG).  The class [MapperLaws] is the contract of the virtual
      methods and proves it for the four mappers, [PremapCell] and
      [PremapSpec] prove the base class against it; [Stays] says which
      cells a program adds.  [PremapCorrect] has the theorems.
    - [solver/solver.h]: [Sat], with the meaning of clauses in [SatSpec] ([imposes]
      says which condition a step adds) and a solver by enumeration, which has the
      laws asked of MiniSat, in [SatSpec].
    - [model/utils/subnet_cnf_encoder.h]: [Cnf]; [CnfSpec] relates the
      clauses of a cell and of a subnet to their evaluation.
    - [debugger/base_checker.cpp, sat_checker.h, verifier.cpp]: [Checker];
      [VerifierSpec] (the answers, and the states of a verifier), [MiterSpec] and the
      theorems in [CheckerCorrect].
    - [addSubnet] and the builder of a subnet: modelled in [Make], specified in
      [CopySpec] ([addSubnet_spec]), theorems in [CopyCorrect].
    - [simulator/simulator.h, .cpp]: [Simulator] (the word operations, the
      compilation of a builder and the execution of the program); [SimOps] shows
      that the operation of a gate computes it in every bit position, [SimSpec]
      the layout of the state and the execution; theorems in [SimCorrect].
    - [debugger/rnd_checker.h, .cpp]: [RndChecker], with [RndSpec] about its loops
      and the theorems in [RndCorrect].  [std::rand] is a parameter.
    - [model/list.h, storage.h]: [BlockList], the storage of blocks and the lists in
      blocks with their iterators; [BlockListSpec] relates a list in the storage to
      a chain of blocks ([rep]), [BlockListCorrect] has the refinement of lists and the defect of
      [erase].
    - [model/cell.h, cell.cpp, net.h, net.cpp, array.h]: [Nets] (cells with packed
      links, the builder of nets); [NetSpec] states the invariant of the builder and
      the requests of clients, and has the theorems.
    - [model/validator.cpp]: [Validator], checks that return a flag and add messages
      to a log; [ValidatorSpec] is about flags and logs and about silent
      checks, [ValidatorCorrect] has the theorems and the composition with the
      builders and the synthesizer.
    - [util/bits.h, bounded_set.h]: [Bits] and [BoundedSet]; [BoundedSetSpec]
      relates the increasing arrays with their signatures to finite sets.
    - [optimizer/cut.h, cut_extractor.h, .cpp]: [Cuts]; [CutsSpec] defines the cuts
      of a cell by those of its links ([cell_cuts], [net_cuts]) and shows that
      the extractor computes them, [CutsCorrect] has the theorems.
    - [model/decomposer/net_decomposer.h, .cpp]: [Decomposer] (the walk from the
      outputs that splits a net into subnets, and the composition of a net from
      subnets); [DecomposerSpec] defines the components of a net by the cones of its
      outputs ([decomposed]) and shows that the traversal finds them,
      [DecomposerCorrect] is about the subnets made from them; [ComposeSpec] has the valuations of nets and shows that a
      subnet between boundary cells is composed into a net of the same function.
    - [model/design.h, .cpp] and the soft blocks of [synthesizer/synthesizer.cpp]:
      [Design]; [DesignSpec] states what a design means (a function for every entry
      and every check point), the sessions of clients, and the theorems.

    ** How the code is modelled

    A stateful method is a function in the monad [st S A] (state [S] to an
    optional result and state): [None] stands for a failed assertion, an access
    out of range or a loop that does not end.  Structs are records with the
    fields of the code, enumerations inductive types, and the sentinels of
    [EntryID] are constructors.  Integers are [N] or [Z] with their width where
    overflow matters (identifiers, symbol codes, reference counts of 20 bits,
    16-bit sizes of the adder, ports and loop counters of 16 bits, storage numbers
    of 32 bits) and [nat] elsewhere.  The types that are allocated
    at run time are a parameter, the class [TypeStore].

    The assertions on the reference counts of cells are rendered by the class
    [Build]: a build either has them or, with [NDEBUG], does not, and then the 20
    bits of a count wrap around.  All other assertions are failures in either
    build.  A definition that counts takes the build as an argument; where a
    statement names none, it is [release_build], which has no assertions on the
    counts.  [addCell_total] is about both, and [addCell_build] says that they
    differ only in requests that fail at such an assertion.

    Loops over the order run with as much fuel as there are entries: the order
    holds an entry at most once.  The loops of the adder run 16 doubling steps
    and one batch per position, and [adder_unsigned], [adder_signed] show that
    this is enough for operands shorter than [2 ^ 15] bits, beyond which the
    16-bit step of the code overflows.  Karatsuba's recursion has the length of its
    first operand as fuel, which every step shortens ([karatsuba_fuel_spec]).  [addCellTree] shortens its queue in every
    step for [k >= 2].  In every theorem that states what a routine returns, that
    it returns is part of the statement.

    ** What the theorems show

    - The builder: a valid request fails only at the assertion on the reference
      counts ([addCell_total]); the order is
      topological ([builder_topological]), depths are longest paths
      ([builder_depth]), bounds and counters are right ([builder_depth_bounds],
      [builder_counts]); equal cells are shared ([addCell_shared]); valuations
      exist and are unique ([builder_values]); gates and trees compute
      ([addGate_computes], [addCellTree_computes]); the linked order refines a
      list ([placeAfter_refines_insert]).
    - Subnets: [make] returns the cells in order and the function that the
      outputs have in the builder ([make_orders_cells], [make_correct]).
    - Synthesis: the adder, two's complement, absolute value and the multiplier
      denote the numbers they should; for every supported symbol with one or two
      numeric operands the synthesizer makes a subnet that implements the operation
      ([synthImpl_unary], [synthImpl_binary]), and so do the multiplexers
      ([implements] says that every input vector has a valuation of the subnet, and
      that its outputs are the given function of the inputs).
    - Premapping: every premapper ends on every subnet of known gates (MAJ with one,
      three or five links), keeps its
      function and stays in its basis ([premap_preserves], [premap_correct],
      [premap_basis]); [make_wf], [implements_eval] connect relation and evaluation.
    - Checking: the clauses of a subnet are its evaluations ([encode_correct]);
      [areEquivalent] decides the equality of functions ([areEquivalent_correct]),
      [checkAlways] and [checkEventually] decide properties ([verifier_correct]), for
      every solver that answers right (the class [SolverLaws]).
    - Copying and simulation: [addSubnet] adds a subnet's function behind any links
      ([addSubnet_correct], [subnet_roundtrip]); the simulator computes 64
      evaluations of the subnet at once ([simulate_correct],
      [getFunction_correct]); the exhaustive check decides
      ([rnd_exhaustive_decides]), the random check finds only right vectors and
      finds one that its source brings ([rnd_random_sound], [rnd_random_finds]).
    - Lists and nets: lists in blocks are lists, whatever the order of the operations
      on several of them, while the storage has numbers left ([lists_refined]); the builder of nets sorts the cells into its lists and
      counts the links to each ([net_books]) and no valid request fails
      ([net_total]).
    - Validation: it says what it logs ([validation_reports]), passes the subnets
      that [make] returns ([made_validates]) and exactly the connected nets
      with fewer than [2 ^ 16] links per cell ([net_validates]), and what it asks of operations is what their synthesis
      needs ([validated_synthesized]).
    - Cuts: the extractor finds the cuts of the definition ([cuts_extracted]), which
      determine the values of their cells and subsume every cover of at most [k]
      cells ([cuts_correct], [builder_cuts_right]); bounded sets are finite sets
      ([bounded_sets_refined]), the counting of bits is right ([count_units_correct]).
    - Decomposition: the traversal ends on every connected net, and its components are
      the classes of outputs with overlapping cones ([components_right]); the subnet of
      a component computes what the component computes in the net ([decompose_right]).
    - Designs: every operation of a client on the design of a subnet acts on its
      meaning as specified ([design_refined]: replacing an entry or its builder,
      check points and rolling back), and the net of a design computes
      the function of its subnet ([design_net_right]).
    - Data: round trips of identifiers, link ends and ports, codes of symbols,
      flags of the gates against their functions.
    - Defects: [synthSubU_spec] (outputs added twice), [synthDemux_out_of_range],
      [make_after_deletion_fails], [getLink_out_of_range],
      [input_after_constant_fails], [isSat_correct] (the counterexample is negated),
      [builders_miter_wrong], [narrow_product_fails], [synthMulU_one_bit],
      [opMajN_wide], [erase_middle_cuts], [signed_rejected], [rnd_exhaustive_decides] (the
      counterexample is all zeros), [builder_cuts_right] (wide cells, empty builders),
      [combinations_overflow], [points_stay] (a second save under the same name is
      ignored), [wide_tag_not_cleared], [net_cell_endless], [newList_exhausted],
      [replaceCell_reads_other_port], [unconnected_reads_first_cell].

    ** Bounds and what is not modelled

    The invariant covers builders made by additions of cells whose links are all
    in place (at most three); deletion, replacement and merging are modelled and
    run, their effect on the invariant is not proved.  Left out of the builder:
    marks and sessions, simulation values and user data, weights other than as
    opaque numbers, and [replace] and [evaluateReplace] for whole cones.  The
    encoder and the simulator are modelled with nested subnets, their theorems
    are about subnets of gates, for the simulator with at most three links; the miter is proved for two subnets with cells of at most three links
    (what the builder's invariant covers) and at most [2 ^ 16] entries, beyond
    which its 16-bit indices overflow.  The subnets are proved for widths below
    [2 ^ 14], those of shifts for amounts of at most three bits (the cells of the
    decoder have a link per bit), those of multiplications for results that are not narrower
    than an operand (narrower ones may be wrong, see the defects).  The
    storage is a map from numbers to blocks, whose fresh memory is zero; its pages
    and the descriptors of objects are left out, and [release] does nothing in the code.  Its numbers have 32 bits: after
    [2 ^ 32 - 1] blocks comes the null number, through which nothing is accessed.
    [connect] takes the low 16 bits of a port, and the validation of a net does not
    end for cells with [2 ^ 16] links or more.

    The traversal of a net has the fuel [rounds]: every round passes a link or leaves a
    cell, and a cell is entered once; [components_right] shows that it is enough.  The subnets
    of components are proved for gates with at most three links, not for blocks to be expanded; the
    order in which the code visits unordered containers is a parameter ([HashOrder]).  The theorems about
    designs are for designs of one subnet of small gates without
    buffers ([tidy]); a builder leaves the heap of builders when its subnet is made.
    [make] with deletion is proved for builders without buffers ([unbuffered]).

    Not modelled:
    divisions (the code does not support them), the validation of builders and designs, truth tables and BDDs (wrappers of vendored libraries) and
    MiniSat itself, the checkers by BDDs and by FRAIGs, the optimization and
    mapping passes, estimators (floating point), generators, printers,
    translators, the shell and the RTL front end, and everything under
    [src/lib]. *)
From Stdlib Require Export ZArith Lia Bool.
From stdpp Require Export base option list numbers.

(** ** Tactics shared by the development *)

(** Splits conjunctions, existentials and options in the context. *)
Ltac dest :=
  repeat match goal with
  | H : _ ∧ _ |- _ => destruct H
  | H : ∃ _, _ |- _ => destruct H
  | H : is_Some _ |- _ => destruct H
  | H : (_, _) = (_, _) |- _ => injection H as H
  end.

(** Splits the goal into its conjuncts, whatever their nesting. *)
Ltac split_all := repeat match goal with |- _ ∧ _ => split end.

(** ** A state monad with failure

    Every stateful operation of the program is a function from a state to
    either a result and a new state, or [None]: a failed assertion, an
    out-of-range access or a loop that does not terminate. *)

Declare Scope state_scope.
Delimit Scope state_scope with state.

Definition st (S A : Type) : Type := S → option (A * S).

#[global] Instance st_ret {S} : MRet (st S) := λ A a s, Some (a, s).
#[global] Instance st_bind {S} : MBind (st S) := λ A B f m s,
  match m s with Some (a, s') => f a s' | None => None end.

Definition st_get {S} : st S S := λ s, Some (s, s).
Definition st_put {S} (s : S) : st S unit := λ _, Some ((), s).
Definition st_modify {S} (f : S → S) : st S unit := λ s, Some ((), f s).
Definition st_fail {S A} : st S A := λ _, None.
Definition st_gets {S A} (f : S → A) : st S A := λ s, Some (f s, s).

(** A read of the state that may be out of range. *)
Definition st_read {S A} (f : S → option A) : st S A := λ s,
  match f s with Some a => Some (a, s) | None => None end.

(** A pure update of the state that may fail. *)
Definition st_update {S} (f : S → option S) : st S unit := λ s,
  match f s with Some s' => Some ((), s') | None => None end.

(** [assert(b)] of the program. *)
Definition st_assert {S} (b : bool) : st S unit := λ s,
  if b then Some ((), s) else None.

(** Loops over a list of indices, the iterations in order. *)
Fixpoint st_for {S X} (xs : list X) (body : X → st S unit) : st S unit :=
  match xs with
  | [] => mret ()
  | x :: xs => body x ;; st_for xs body
  end.

Fixpoint st_map {S X A} (f : X → st S A) (xs : list X) : st S (list A) :=
  match xs with
  | [] => mret []
  | x :: xs => a ← f x; l ← st_map f xs; mret (a :: l)
  end.

Lemma bind_Some_iff {S A B} (m : st S A) (f : A → st S B) s r :
  (m ≫= f) s = Some r ↔ ∃ a s', m s = Some (a, s') ∧ f a s' = Some r.
Proof.
  unfold mbind, st_bind. destruct (m s) as [[a s']|] eqn:E; naive_solver.
Qed.

Lemma bind_eval {S A B} (m : st S A) (f : A → st S B) s a s' :
  m s = Some (a, s') → (m ≫= f) s = f a s'.
Proof. unfold mbind, st_bind. by intros ->. Qed.

Lemma bind_None {S A B} (m : st S A) (f : A → st S B) s :
  m s = None → (m ≫= f) s = None.
Proof. unfold mbind, st_bind. by intros ->. Qed.

Lemma bind_assoc {S A B C} (m : st S A) (f : A → st S B) (g : B → st S C) s :
  ((m ≫= f) ≫= g) s = (m ≫= λ a, f a ≫= g) s.
Proof. unfold mbind, st_bind. by destruct (m s) as [[a s']|]. Qed.

Lemma st_for_app {S X} (xs ys : list X) (body : X → st S unit) s :
  st_for (xs ++ ys) body s = (st_for xs body ;; st_for ys body) s.
Proof.
  revert s; induction xs as [|x xs IH]; intros s; [done|].
  cbn [st_for app]. unfold mbind at 1 2 3, st_bind.
  destruct (body x s) as [[[] s']|]; [|done]. by rewrite IH.
Qed.

(** Conversion to [uint16_t]. *)
Definition to_u16 (i : nat) : nat := N.to_nat (N.of_nat i mod 2 ^ 16).

Lemma to_u16_small i : (N.of_nat i < 2 ^ 16)%N → to_u16 i = i.
Proof. intros Hi. unfold to_u16. by rewrite N.mod_small, Nat2N.id. Qed.

(** ** Bit vectors, least significant bit first *)

Fixpoint Z_of_bits (l : list bool) : Z :=
  match l with
  | [] => 0
  | b :: l => Z.b2z b + 2 * Z_of_bits l
  end%Z.

Lemma Z_of_bits_bound l : (0 ≤ Z_of_bits l < 2 ^ Z.of_nat (length l))%Z.
Proof.
  induction l as [|b l IH]; cbn [Z_of_bits length]; [done|].
  rewrite Nat2Z.inj_succ, Z.pow_succ_r by lia. destruct b; cbn [Z.b2z]; lia.
Qed.

Lemma Z_of_bits_app l k :
  Z_of_bits (l ++ k) = (Z_of_bits l + 2 ^ Z.of_nat (length l) * Z_of_bits k)%Z.
Proof.
  induction l as [|b l IH]; cbn [Z_of_bits length app].
  - rewrite Z.pow_0_r. lia.
  - rewrite IH, Nat2Z.inj_succ, Z.pow_succ_r by lia. lia.
Qed.

Lemma Z_of_bits_replicate_false n : Z_of_bits (replicate n false) = 0%Z.
Proof. induction n as [|n IH]; cbn [replicate Z_of_bits Z.b2z]; lia. Qed.

Lemma Z_of_bits_take n l :
  (n ≤ length l)%nat →
  Z_of_bits (take n l) = (Z_of_bits l mod 2 ^ Z.of_nat n)%Z.
Proof.
  intros Hn. rewrite <- (take_drop n l) at 2.
  rewrite Z_of_bits_app, length_take_le by lia.
  pose proof (Z_of_bits_bound (take n l)) as Hb.
  rewrite length_take_le in Hb by lia.
  rewrite Z.mul_comm, Z_mod_plus_full, Z.mod_small; lia.
Qed.

Lemma Z_of_bits_inj l k :
  length l = length k → Z_of_bits l = Z_of_bits k → l = k.
Proof.
  revert k; induction l as [|b l IH]; intros [|c k]; try done.
  cbn [Z_of_bits length]. intros Hl He.
  assert (b = c ∧ Z_of_bits l = Z_of_bits k) as [-> Hk].
  { destruct b, c; cbn [Z.b2z] in He; (split; [done || lia | lia]). }
  f_equal. apply IH; [lia|done].
Qed.

(** ** Words: a disjoint [lor] is a sum *)

Lemma lor_shiftl_add a b n :
  (0 ≤ n → 0 ≤ b < 2 ^ n → Z.lor (Z.shiftl a n) b = a * 2 ^ n + b)%Z.
Proof.
  intros Hn Hb.
  assert (Z.land (Z.shiftl a n) b = 0)%Z as Hd.
  { apply Z.bits_inj'. intros i Hi. rewrite Z.land_spec, Z.shiftl_spec, Z.bits_0 by lia.
    destruct (decide (i < n)%Z).
    - by rewrite Z.testbit_neg_r by lia.
    - rewrite <- (Z.mod_small b (2 ^ n)) by lia.
      rewrite Z.mod_pow2_bits_high by lia. by rewrite andb_false_r. }
  rewrite <- Z.shiftl_mul_pow2 by lia.
  rewrite <- Z.lxor_lor by done. by rewrite Z.add_nocarry_lxor.
Qed.

(** ** Lists *)

Lemma elem_of_concat {A} (x : A) (ls : list (list A)) :
  x ∈ concat ls ↔ ∃ l, x ∈ l ∧ l ∈ ls.
Proof.
  rewrite list_elem_of_In, in_concat.
  setoid_rewrite list_elem_of_In. naive_solver.
Qed.

Lemma elem_of_head_concat {A} (x : A) (ls : list (list A)) :
  x ∈ default [] (head ls) → x ∈ concat ls.
Proof. destruct ls as [|l ls]; cbn; [done|]. rewrite elem_of_app. by left. Qed.

Lemma list_filter_ext_in {A} (P Q : A → Prop) `{!∀ x, Decision (P x), !∀ x, Decision (Q x)} (l : list A) :
  (∀ x, x ∈ l → P x ↔ Q x) → filter P l = filter Q l.
Proof.
  induction l as [|x l IH]; intros Hl; [done|]. rewrite !filter_cons.
  rewrite IH by (intros y Hy; apply Hl; by right).
  pose proof (Hl x (list_elem_of_here _ _)) as Hx. repeat case_decide; tauto.
Qed.

Lemma NoDup_mid_notin {A} (l1 : list A) x l2 : NoDup (l1 ++ x :: l2) → x ∉ l1 ∧ x ∉ l2.
Proof.
  intros Hnd. apply list.NoDup_app in Hnd as (_ & H1 & H2). apply list.NoDup_cons in H2 as [H2 _].
  split; [|done]. intros Hx. apply (H1 x Hx), list_elem_of_here.
Qed.

(** An element of a list without duplicates splits it in one way. *)
Lemma NoDup_split_eq {A} (l1 l2 k1 k2 : list A) x :
  NoDup (l1 ++ x :: l2) → l1 ++ x :: l2 = k1 ++ x :: k2 → l1 = k1 ∧ l2 = k2.
Proof.
  intros Hnd E. destruct (NoDup_mid_notin l1 x l2 Hnd) as [H1 _].
  rewrite E in Hnd. destruct (NoDup_mid_notin k1 x k2 Hnd) as [H2 _].
  destruct (not_elem_of_app_cons_inv_l x x l1 l2 k1 k2) as (-> & _ & ->); done.
Qed.
