(* ===== verification/ObjectId.v ===== *)
(** * Object identifiers and link ends ([gate/model/object.h], [gate/model/link.h])

    Full identifiers (FID) and short identifiers (SID) of the objects of the
    model, packed into 64-bit words, and the packed link end of a net.  A word
    is a [Z] in [0, 2^64); shifts to the left drop the bits above bit 63, as on
    [uint64_t]. *)

From S2P Require Import Prelude.

Local Open Scope Z_scope.

(** ** Operations *)

Definition u64 (x : Z) : Z := x mod 2 ^ 64.

(** The template parameters of [ObjectID<T, S, V, Z>]. *)
(* gate/model/object.h:33-47 [ObjectID template parameters] *)
Record ObjectParams := {
  Tag : Z;
  Size : Z;
  Bits : Z;
  Log2 : Z;
}.

(** The [static_assert]s of the template. *)
(* gate/model/object.h:33-47 [ObjectID static_asserts] *)
Definition params_ok (P : ObjectParams) : bool :=
  (0x01 <=? Tag P) && (Tag P <=? 0xff) &&
  (Size P =? 2 ^ Log2 P) && (0 <=? Log2 P) && (0 <? Bits P) &&
  (Bits P + Log2 P <=? 64 - 8).

(* gate/model/object.h:25-25 [OBJ_NULL_ID] *)
Definition OBJ_NULL_ID : Z := 0.
(* gate/model/object.h:50-50 [ObjectID::NullFID] *)
Definition NullFID : Z := OBJ_NULL_ID.
(* gate/model/object.h:51-52 [ObjectID::NullSID] *)
Definition NullSID (P : ObjectParams) : Z := 2 ^ Bits P - 1.

(* gate/model/object.h:54-57 [ObjectID::makeTaggedFID] *)
Definition makeTaggedFID (P : ObjectParams) (objectFID : Z) : Z :=
  Z.lor (u64 (Z.shiftl (Tag P) (64 - 8))) objectFID.

(** [objectFID & ~(0xfull << 56)]: the bits 56..59 are cleared. *)
(* gate/model/object.h:59-62 [ObjectID::makeUntaggedFID] *)
Definition makeUntaggedFID (objectFID : Z) : Z :=
  Z.land objectFID (2 ^ 64 - 1 - u64 (Z.shiftl 0xf (64 - 8))).

(* gate/model/object.h:64-68 [ObjectID::makeFID] *)
Definition makeFID (P : ObjectParams) (objectSID : Z) : Z :=
  if objectSID =? NullSID P then NullFID
  else makeTaggedFID P (u64 (Z.shiftl objectSID (Log2 P))).

(* gate/model/object.h:70-74 [ObjectID::makeSID] *)
Definition makeSID (P : ObjectParams) (objectFID : Z) : Z :=
  if objectFID =? NullFID then NullSID P
  else Z.shiftr (makeUntaggedFID objectFID) (Log2 P).

(* gate/model/object.h:76-79 [ObjectID::getTag] *)
Definition getTag (objectFID : Z) : Z :=
  Z.land (Z.shiftr objectFID (64 - 8)) 0xff.

(* gate/model/object.h:81-84 [ObjectID::checkTag] *)
Definition checkTag (P : ObjectParams) (objectFID : Z) : bool :=
  getTag objectFID =? Tag P.

(** [enum ObjectTag]. *)
(* gate/model/object.h:111-123 [ObjectTag] *)
Inductive ObjectTag :=
  | TAG_NULL | TAG_CELL | TAG_CELL_TYPE | TAG_CELL_TYPE_ATTR | TAG_LINK_END
  | TAG_LINK | TAG_NET | TAG_SUBNET | TAG_STRING | TAG_LIST_BLOCK.

(* gate/model/object.h:111-123 [ObjectTag] *)
Definition tag_value (t : ObjectTag) : Z :=
  match t with
  | TAG_NULL => 0 | TAG_CELL => 1 | TAG_CELL_TYPE => 2 | TAG_CELL_TYPE_ATTR => 3
  | TAG_LINK_END => 4 | TAG_LINK => 5 | TAG_NET => 6 | TAG_SUBNET => 7
  | TAG_STRING => 8 | TAG_LIST_BLOCK => 9
  end.

Definition ObjectID (t : ObjectTag) (size bits log2 : Z) : ObjectParams :=
  {| Tag := tag_value t; Size := size; Bits := bits; Log2 := log2 |}.

(** The identifier types of the model: tag, bytes, SID width, aligned zeros. *)
(* gate/model/object.h:126-126 [CellID] *)
Definition CellID := ObjectID TAG_CELL 32 40 5.
(* gate/model/object.h:127-127 [CellTypeID] *)
Definition CellTypeID := ObjectID TAG_CELL_TYPE 32 32 5.
(* gate/model/object.h:128-128 [CellTypeAttrID] *)
Definition CellTypeAttrID := ObjectID TAG_CELL_TYPE_ATTR 64 32 6.
(* gate/model/object.h:129-129 [LinkEndID] *)
Definition LinkEndID := ObjectID TAG_LINK_END 8 50 3.
(* gate/model/object.h:130-130 [LinkID] *)
Definition LinkID := ObjectID TAG_LINK 16 50 4.
(* gate/model/object.h:131-131 [NetID] *)
Definition NetID := ObjectID TAG_NET 64 32 6.
(* gate/model/object.h:132-132 [SubnetID] *)
Definition SubnetID := ObjectID TAG_SUBNET 64 32 6.
(* gate/model/object.h:133-133 [StringID] *)
Definition StringID := ObjectID TAG_STRING 32 32 5.
(* gate/model/object.h:134-134 [ListBlockID] *)
Definition ListBlockID := ObjectID TAG_LIST_BLOCK 64 32 6.

Definition all_ids : list ObjectParams :=
  [CellID; CellTypeID; CellTypeAttrID; LinkEndID; LinkID; NetID; SubnetID;
   StringID; ListBlockID].

(** *** Link ends: [cell SID:40 | port:23 | valid:1] *)

(* gate/model/link.h:28-28 [LinkEnd::PortBits] *)
Definition PortBits : Z := 23.
(* gate/model/link.h:29-29 [LinkEnd::PortMask] *)
Definition PortMask : Z := 2 ^ PortBits - 1.

(** [LinkEnd()]. *)
(* gate/model/link.h:43-43 [LinkEnd::LinkEnd()] *)
Definition LinkEnd_null : Z := 0.

(** [LinkEnd(cellID, port)]; the port is a [uint32_t]. *)
(* gate/model/link.h:45-47 [LinkEnd::LinkEnd(CellID, PortType)] *)
Definition LinkEnd (cellID port : Z) : Z :=
  Z.lor (Z.lor (u64 (Z.shiftl (makeSID CellID cellID) (PortBits + 1)))
               (u64 (Z.shiftl port 1))) 1.

(* gate/model/link.h:57-58 [LinkEnd::getCellID] *)
Definition getCellID (value : Z) : Z :=
  makeFID CellID (Z.shiftr value (PortBits + 1)).

(* gate/model/link.h:61-62 [LinkEnd::getPort] *)
Definition getPort (value : Z) : Z := Z.land (Z.shiftr value 1) PortMask.

(* gate/model/link.h:63-64 [LinkEnd::isValid] *)
Definition isValid (value : Z) : bool := negb (Z.land value 1 =? 0).

(* gate/model/link.h:31-37 [LinkEnd::unpack] *)
Definition unpack (value : Z) : Z :=
  let cellID := makeFID CellID (Z.shiftr value (PortBits + 1)) in
  let port := Z.land (Z.shiftr value 1) PortMask in
  let valid := negb (Z.land value 1 =? 0) in
  if valid then LinkEnd cellID port else LinkEnd_null.

(* gate/model/link.h:39-41 [LinkEnd::pack] *)
Definition pack (link : Z) : Z := link.

(** ** Arithmetic readings of the operations *)

Section Params.
Context (P : ObjectParams) (HP : params_ok P = true).

Lemma params_bounds :
  1 <= Tag P <= 255 /\ 0 <= Log2 P /\ 0 < Bits P /\ Bits P + Log2 P <= 56.
Proof. unfold params_ok in HP. lia. Qed.

Lemma sid_shift_bound sid :
  0 <= sid < 2 ^ Bits P -> 0 <= sid * 2 ^ Log2 P < 2 ^ 56.
Proof.
  intros Hs. destruct params_bounds as (_ & Hl & Hb & Hlb).
  assert (0 < 2 ^ Log2 P) by (apply Z.pow_pos_nonneg; lia).
  assert (2 ^ (Bits P + Log2 P) <= 2 ^ 56) as Hp by (apply Z.pow_le_mono_r; lia).
  rewrite Z.pow_add_r in Hp by lia. nia.
Qed.

Lemma makeTaggedFID_add x :
  0 <= x < 2 ^ 56 -> makeTaggedFID P x = Tag P * 2 ^ 56 + x.
Proof.
  intros Hx. destruct params_bounds as (Ht & _).
  unfold makeTaggedFID, u64. change (64 - 8) with 56.
  rewrite Z.mod_small.
  - by apply lor_shiftl_add.
  - rewrite Z.shiftl_mul_pow2 by lia. lia.
Qed.

Lemma makeFID_add sid :
  0 <= sid < NullSID P ->
  makeFID P sid = Tag P * 2 ^ 56 + sid * 2 ^ Log2 P.
Proof.
  intros Hs. unfold NullSID in Hs. pose proof (sid_shift_bound sid ltac:(lia)).
  destruct params_bounds as (_ & Hl & _).
  unfold makeFID. destruct (Z.eqb_spec sid (NullSID P)) as [->|_].
  - unfold NullSID in Hs; lia.
  - unfold u64. rewrite Z.shiftl_mul_pow2, Z.mod_small by lia.
    by rewrite makeTaggedFID_add by lia.
Qed.
End Params.

(** The mask clears four bits: it untags the identifiers with the tags below 16. *)
Lemma makeUntaggedFID_mod x : 0 <= x < 2 ^ 60 -> makeUntaggedFID x = x mod 2 ^ 56.
Proof.
  intros Hx. unfold makeUntaggedFID.
  change (2 ^ 64 - 1 - u64 (Z.shiftl 0xf (64 - 8))) with (Z.lor (Z.ones 56) (Z.shiftl 15 60)).
  rewrite Z.land_lor_distr_r, Z.land_ones by lia.
  enough (Z.land x (Z.shiftl 15 60) = 0) as -> by apply Z.lor_0_r.
  apply Z.bits_inj'. intros i Hi. rewrite Z.land_spec, Z.shiftl_spec, Z.bits_0 by lia.
  destruct (decide (i < 60)).
  - by rewrite (Z.testbit_neg_r 15), andb_false_r by lia.
  - rewrite <- (Z.mod_small x (2 ^ 60)) by lia. by rewrite Z.mod_pow2_bits_high by lia.
Qed.

Lemma getTag_div x : 0 <= x < 2 ^ 64 -> getTag x = x / 2 ^ 56.
Proof.
  intros Hx. unfold getTag. change 0xff with (Z.ones 8).
  rewrite Z.land_ones, Z.shiftr_div_pow2 by lia. change (64 - 8) with 56.
  rewrite Z.mod_small; [done|]. split; [apply Z.div_pos; lia|].
  apply Z.div_lt_upper_bound; lia.
Qed.

(** ** Auxiliary lemmas *)

Lemma all_ids_params_ok P : P ∈ all_ids -> params_ok P = true.
Proof.
  assert (Forall (fun P => params_ok P = true) all_ids) as Hall by (repeat constructor).
  rewrite list.Forall_forall in Hall. apply Hall.
Qed.

Lemma all_ids_tag P : P ∈ all_ids -> Tag P < 16.
Proof.
  assert (Forall (fun P => Tag P < 16) all_ids) as Hall by (repeat constructor).
  rewrite list.Forall_forall in Hall. apply Hall.
Qed.

Lemma makeSID_makeFID P sid :
  params_ok P = true -> Tag P < 16 -> 0 <= sid <= NullSID P ->
  makeSID P (makeFID P sid) = sid.
Proof.
  intros HP Htag Hs. destruct (params_bounds P HP) as (Ht & Hl & _).
  destruct (decide (sid = NullSID P)) as [->|Hn].
  - unfold makeFID. by rewrite Z.eqb_refl.
  - rewrite makeFID_add by (done || lia).
    assert (0 <= sid < 2 ^ Bits P) as Hb by (unfold NullSID in *; lia).
    pose proof (sid_shift_bound P HP sid Hb). unfold makeSID, NullFID, OBJ_NULL_ID.
    destruct (Z.eqb_spec (Tag P * 2 ^ 56 + sid * 2 ^ Log2 P) 0); [lia|].
    rewrite makeUntaggedFID_mod by lia. rewrite Z.add_comm, Z_mod_plus_full, Z.mod_small by lia.
    by rewrite Z.shiftr_div_pow2, Z.div_mul by lia.
Qed.

Lemma checkTag_makeFID P Q sid :
  params_ok P = true -> 1 <= Tag Q -> 0 <= sid <= NullSID P ->
  checkTag Q (makeFID P sid) = negb (sid =? NullSID P) && (Tag P =? Tag Q).
Proof.
  intros HP HQ Hs. destruct (params_bounds P HP) as (Ht & _).
  unfold checkTag. destruct (Z.eqb_spec sid (NullSID P)) as [->|Hn].
  - unfold makeFID. rewrite Z.eqb_refl. change (getTag NullFID) with 0. lia.
  - assert (0 <= sid < 2 ^ Bits P) as Hb by (unfold NullSID in *; lia).
    pose proof (sid_shift_bound P HP sid Hb).
    rewrite makeFID_add, getTag_div by (done || lia).
    rewrite Z.div_add_l, Z.div_small, Z.add_0_r by lia.
    done.
Qed.

Lemma LinkEnd_add sid port :
  0 <= sid <= NullSID CellID -> 0 <= port <= PortMask ->
  LinkEnd (makeFID CellID sid) port = (sid * 2 ^ 23 + port) * 2 + 1.
Proof.
  unfold NullSID, PortMask, PortBits. cbn [Bits CellID ObjectID]. intros Hs Hp.
  unfold LinkEnd, u64. rewrite makeSID_makeFID by (done || cbn; lia || unfold NullSID; cbn; lia).
  unfold PortBits. rewrite !Z.shiftl_mul_pow2 by lia.
  rewrite !Z.mod_small by lia. rewrite <- Z.shiftl_mul_pow2 by lia.
  rewrite lor_shiftl_add by lia.
  replace (sid * 2 ^ (23 + 1) + port * 2 ^ 1) with (Z.shiftl (sid * 2 ^ 23 + port) 1)
    by (rewrite Z.shiftl_mul_pow2 by lia; lia).
  by rewrite lor_shiftl_add by lia.
Qed.

Lemma LinkEnd_cell l sid port :
  0 <= port <= PortMask -> l = (sid * 2 ^ 23 + port) * 2 + 1 ->
  Z.shiftr l (PortBits + 1) = sid.
Proof.
  unfold PortMask, PortBits. intros Hp ->. rewrite Z.shiftr_div_pow2 by lia.
  symmetry. apply Z.div_unique with (port * 2 + 1); lia.
Qed.

Lemma LinkEnd_port l sid port :
  0 <= port <= PortMask -> l = (sid * 2 ^ 23 + port) * 2 + 1 ->
  Z.land (Z.shiftr l 1) PortMask = port.
Proof.
  unfold PortMask, PortBits. intros Hp ->.
  change (2 ^ 23 - 1) with (Z.ones 23). rewrite Z.land_ones by lia.
  rewrite Z.shiftr_div_pow2 by lia. change (2 ^ 1) with 2.
  rewrite Z.div_add_l, Z.div_small, Z.add_0_r by lia.
  by rewrite Z.add_comm, Z_mod_plus_full, Z.mod_small by lia.
Qed.

Lemma isValid_odd x : isValid (x * 2 + 1) = true.
Proof.
  unfold isValid. change 1 with (Z.ones 1) at 2. rewrite Z.land_ones by lia.
  change (2 ^ 1) with 2. by rewrite Z.add_comm, Z_mod_plus_full.
Qed.

(** ** Theorems *)

(** C39 The identifier types of the model satisfy the assertions of the
    [ObjectID] template, [makeSID] is a left inverse of [makeFID] on every
    short identifier (the null one included), and the tag of a non-null full
    identifier is the tag of its type and of no other type, so that
    [NetID::checkTag] and [SubnetID::checkTag] tell a net from a subnet. *)
Theorem object_id_roundtrip (P : ObjectParams) (sid : Z) :
  P ∈ all_ids -> 0 <= sid <= NullSID P ->
  makeSID P (makeFID P sid) = sid /\
  forall Q, Q ∈ all_ids ->
    checkTag Q (makeFID P sid) = negb (sid =? NullSID P) && (Tag P =? Tag Q).
Proof.
  intros HP Hs. pose proof (all_ids_params_ok P HP) as Hok.
  split; [by apply makeSID_makeFID; [|apply all_ids_tag|]|]. intros Q HQ.
  destruct (params_bounds Q (all_ids_params_ok Q HQ)) as (HtQ & _).
  apply checkTag_makeFID; [done|lia|done].
Qed.

Lemma object_id_roundtrip_witness :
  makeSID SubnetID (makeFID SubnetID 77) = 77 /\
  forall Q, Q ∈ all_ids ->
    checkTag Q (makeFID SubnetID 77)
    = negb (77 =? NullSID SubnetID) && (Tag SubnetID =? Tag Q).
Proof.
  apply (object_id_roundtrip SubnetID 77).
  - apply list_elem_of_In. cbn. tauto.
  - unfold NullSID. vm_compute. split; discriminate.
Defined.

(** The tags from 16 to 255, which the template allows, are not cleared. *)
Example wide_tag_not_cleared : let P := {| Tag := 0x10; Size := 32; Bits := 40; Log2 := 5 |} in
  params_ok P = true /\ makeSID P (makeFID P 0) = 0x10 * 2 ^ 51 /\ NullSID P < makeSID P (makeFID P 0).
Proof. vm_compute. repeat split; reflexivity. Qed.

(** A packed link end gives back its cell and its port, for every cell
    identifier (the null one included) and every port of 23 bits, it is valid,
    and unpacking its packed value gives the same link end. *)
Theorem link_end_roundtrip (sid port : Z) :
  0 <= sid <= NullSID CellID -> 0 <= port <= PortMask ->
  let l := LinkEnd (makeFID CellID sid) port in
  getCellID l = makeFID CellID sid /\ getPort l = port /\ isValid l = true /\
  unpack (pack l) = l /\ unpack (pack LinkEnd_null) = LinkEnd_null.
Proof.
  intros Hs Hp l.
  assert (l = (sid * 2 ^ 23 + port) * 2 + 1) as El by (by apply LinkEnd_add).
  assert (Z.shiftr l (PortBits + 1) = sid) as E1 by (by eapply LinkEnd_cell).
  assert (Z.land (Z.shiftr l 1) PortMask = port) as E2 by (by eapply LinkEnd_port).
  assert (isValid l = true) as E3 by (rewrite El; apply isValid_odd).
  unfold getCellID, getPort, unpack, pack. fold (isValid l). rewrite E1, E2, E3.
  by split_all.
Qed.

Lemma link_end_roundtrip_witness :
  let l := LinkEnd (makeFID CellID 5) 3 in
  getCellID l = makeFID CellID 5 /\ getPort l = 3 /\ isValid l = true /\
  unpack (pack l) = l /\ unpack (pack LinkEnd_null) = LinkEnd_null.
Proof. apply (link_end_roundtrip 5 3); vm_compute; split; discriminate. Defined.
