(* ===== verification/CellAttr.v ===== *)
(** * Cell type attributes ([gate/model/cellattr.h], [gate/model/cellattr.cpp])

    The ports of a cell type: a vector of multi-bit inputs and outputs given in
    any order is stored with the inputs before the outputs, each port keeping
    the index it had; a flat pin number is mapped to a port and an offset.

    Widths ([uint32_t]) and port indices ([uint16_t]) are numbers of type [N];
    a failed assertion or an out-of-range access is [None].  The name of a port
    is the identifier of a string ([None] for the null identifier). *)

From S2P Require Import Prelude.
From stdpp Require Import strings.

Local Open Scope N_scope.

(** ** Data *)

(* gate/model/cellattr.h:39-67 [Port] *)
Record Port := mkPort {
  p_name : option string;
  p_width : N;
  p_input : bool;
  p_index : N;
}.

(* gate/model/cellattr.h:57-57 [Port::Port()] *)
Definition Port_default : Port := mkPort None 0 false 0.

(* gate/model/cellattr.h:59-60 [Port::hasName, Port::getName] *)
Definition hasName (p : Port) : bool := bool_decide (is_Some (p_name p)).

(* gate/model/cellattr.h:83-83 [CellTypeAttr::Unknown] *)
Definition Unknown : N := 2 ^ 16 - 1.
(* gate/model/cellattr.h:84-84 [CellTypeAttr::MaxBitWidth] *)
Definition MaxBitWidth : N := 2 ^ 32 - 1.
(* gate/model/cellattr.h:85-85 [CellTypeAttr::MaxPortNum] *)
Definition MaxPortNum : N := 2 ^ 16 - 1.

Definition vlen {A} (l : list A) : N := N.of_nat (length l).

(** The physical properties (three floats) are stored and returned unchanged
    by the attributes and are left out of the record. *)
(* gate/model/cellattr.h:71-237 [CellTypeAttr] *)
Record CellTypeAttr := mkAttr {
  ports : list Port;
  nInPort : N;
  nOutPort : N;
}.

(** ** Operations *)

(* gate/model/cellattr.h:87-90 [CellTypeAttr::checkBitWidth] *)
Definition checkBitWidth (w : N) : option N :=
  if w <=? MaxBitWidth then Some w else None.

(* gate/model/cellattr.h:92-95 [CellTypeAttr::checkPortNum] *)
Definition checkPortNum (n : N) : option N :=
  if n <=? MaxPortNum then Some n else None.

(* gate/model/cellattr.h:97-103 [CellTypeAttr::getBitWidth] *)
Definition getBitWidth (widths : list N) : option N :=
  checkBitWidth (foldl N.add 0 widths).

Definition count_ports (f : Port → bool) (l : list Port) : N :=
  foldl (λ n port, if f port then n + 1 else n) 0 l.

Definition width_ports (f : Port → bool) (l : list Port) : N :=
  foldl (λ n port, if f port then n + p_width port else n) 0 l.

(* gate/model/cellattr.h:105-111 [CellTypeAttr::getInNum] *)
Definition getInNum (l : list Port) : option N := checkPortNum (count_ports p_input l).

(* gate/model/cellattr.h:113-119 [CellTypeAttr::getOutNum] *)
Definition getOutNum (l : list Port) : option N :=
  checkPortNum (count_ports (λ p, negb (p_input p)) l).

(* gate/model/cellattr.h:121-127 [CellTypeAttr::getInBitWidth] *)
Definition getInBitWidth (l : list Port) : option N :=
  checkBitWidth (width_ports p_input l).

(* gate/model/cellattr.h:129-135 [CellTypeAttr::getOutBitWidth] *)
Definition getOutBitWidth (l : list Port) : option N :=
  checkBitWidth (width_ports (λ p, negb (p_input p)) l).

Definition set_index (i : N) (p : Port) : Port :=
  mkPort (p_name p) (p_width p) (p_input p) i.

(** [v[i] = x] on a vector. *)
Definition vset {A} (v : list A) (i : N) (x : A) : option (list A) :=
  if i <? vlen v then Some (<[N.to_nat i := x]> v) else None.

Definition vget {A} (v : list A) (i : N) : option A := v !! N.to_nat i.

(** The loop of [convert]: the vector filled so far, the next index, and the
    next free places [i] of an input and [j] of an output. *)
(* gate/model/cellattr.cpp:22-31 [convert(const PortVector &)] *)
Fixpoint convert_loop (io : list Port) (v : list Port) (index i j : N)
    : option (list Port) :=
  match io with
  | [] => Some v
  | port :: io =>
    if p_width port =? 0 then None
    else
      v ← vset v (if p_input port then i else j) (set_index index port);
      convert_loop io v (index + 1)
        (if p_input port then i + 1 else i) (if p_input port then j else j + 1)
  end.

(** The assertion on the sum of the widths, a [uint32_t] compared with the
    maximum of that type, never fails and is not modelled. *)
(* gate/model/cellattr.cpp:13-35 [convert(const PortVector &)] *)
Definition convert (io : list Port) : option (list Port) :=
  if vlen io <=? MaxPortNum then
    j ← getInNum io;
    convert_loop io (replicate (length io) Port_default) 0 0 j
  else None.

(* gate/model/cellattr.cpp:47-52 [convert(const PortWidths &, const PortWidths &)] *)
Fixpoint convert_widths_loop (ws : list N) (input : bool) (index : N)
    : option (list Port) :=
  match ws with
  | [] => Some []
  | w :: ws =>
    if w =? 0 then None
    else
      l ← convert_widths_loop ws input (index + 1);
      Some (mkPort None w input index :: l)
  end.

(* gate/model/cellattr.cpp:37-63 [convert(const PortWidths &, const PortWidths &)] *)
Definition convert_widths (widthIn widthOut : list N) : option (list Port) :=
  if vlen widthIn + vlen widthOut <=? MaxPortNum then
    l ← convert_widths_loop widthIn true 0;
    k ← convert_widths_loop widthOut false (vlen widthIn);
    Some (l ++ k)
  else None.

(* gate/model/cellattr.cpp:68-70 [CellTypeAttr::CellTypeAttr(const PortVector &)] *)
Definition CellTypeAttr_ports (io : list Port) : option CellTypeAttr :=
  v ← convert io; n ← getInNum io; m ← getOutNum io; Some (mkAttr v n m).

(* gate/model/cellattr.cpp:78-81 [CellTypeAttr::CellTypeAttr(const PortWidths &, const PortWidths &)] *)
Definition CellTypeAttr_widths (widthIn widthOut : list N) : option CellTypeAttr :=
  v ← convert_widths widthIn widthOut;
  Some (mkAttr v (vlen widthIn) (vlen widthOut)).

(* gate/model/cellattr.h:137-139 [CellTypeAttr::hasPortInfo] *)
Definition hasPortInfo (a : CellTypeAttr) : bool :=
  negb (nInPort a =? Unknown) && negb (nOutPort a =? Unknown).

(* gate/model/cellattr.h:151-158 [CellTypeAttr::getPort, CellTypeAttr::getInPort] *)
Definition getPort (a : CellTypeAttr) (i : N) : option Port :=
  if hasPortInfo a then vget (ports a) i else None.

(* gate/model/cellattr.h:160-162 [CellTypeAttr::getOutPort] *)
Definition getOutPort (a : CellTypeAttr) (i : N) : option Port :=
  getPort a (nInPort a + i).

(* gate/model/cellattr.h:168-170 [CellTypeAttr::getInWidth(PortIndex)] *)
Definition getInWidth (a : CellTypeAttr) (i : N) : option N := p_width <$> getPort a i.

(* gate/model/cellattr.h:180-182 [CellTypeAttr::getOutWidth(PortIndex)] *)
Definition getOutWidth (a : CellTypeAttr) (i : N) : option N := p_width <$> getOutPort a i.

(** The loop of [mapPinToPort]: [width] is the sum of the widths of the ports
    before [index].  The [uint32_t] sum of the code wraps only when the total
    width of the ports exceeds [MaxBitWidth]; the theorem assumes it does not. *)
(* gate/model/cellattr.cpp:94-99 [CellTypeAttr::mapPinToPort] *)
Fixpoint mapPin_loop (l : list Port) (index width i : N) : option (N * N) :=
  match l with
  | [] => None
  | p :: l =>
    if i <? (width + p_width p) mod 2 ^ 32 then Some (index, i - width)
    else mapPin_loop l (index + 1) ((width + p_width p) mod 2 ^ 32) i
  end.

(* gate/model/cellattr.cpp:90-103 [CellTypeAttr::mapPinToPort] *)
Definition mapPinToPort (a : CellTypeAttr) (i : N) : option (N * N) :=
  if hasPortInfo a then
    mapPin_loop (take (N.to_nat (nInPort a + nOutPort a)) (ports a)) 0 0 i
  else None.

(* gate/model/cellattr.h:194-202 [CellTypeAttr::getOrderedPorts] *)
Definition getOrderedPorts (a : CellTypeAttr) : option (list Port) :=
  let n := N.to_nat (nInPort a + nOutPort a) in
  foldl (λ acc i,
    ordered ← acc; port ← ports a !! i; vset ordered (p_index port) port)
    (Some (replicate n Port_default)) (seq 0 n).

(** ** Specifications *)

(** The ports of [io] with the index each has there. *)
Definition indexed (io : list Port) : list Port :=
  imap (λ k p, set_index (N.of_nat k) p) io.

(** Inputs first, outputs last, each in the order given. *)
Definition partitioned (l : list Port) : list Port :=
  filter (λ p, p_input p = true) l ++ filter (λ p, p_input p = false) l.

Definition sum_widths (l : list Port) : N := foldr (λ p n, p_width p + n) 0 l.

(** ** Auxiliary lemmas *)

Lemma count_ports_filter (f : Port → bool) (io : list Port) n :
  foldl (λ n port, if f port then n + 1 else n) n io
  = n + vlen (filter (λ p, f p = true) io).
Proof.
  revert n; induction io as [|p io IH]; intros n; cbn [foldl]; [unfold vlen; cbn; lia|].
  rewrite IH, filter_cons. destruct (f p) eqn:E; cbn; case_decide; unfold vlen; cbn; lia || done.
Qed.

Lemma getInNum_filter (io : list Port) :
  vlen io <= MaxPortNum → getInNum io = Some (vlen (filter (λ p, p_input p = true) io)).
Proof.
  intros Hl. unfold getInNum, count_ports. rewrite count_ports_filter. unfold checkPortNum.
  pose proof (length_filter (λ p, p_input p = true) io). unfold vlen in *.
  rewrite N.add_0_l. destruct (N.leb_spec (N.of_nat (length (filter (λ p, p_input p = true) io))) MaxPortNum); [done|lia].
Qed.

Lemma filter_negb_input (io : list Port) :
  filter (λ p, negb (p_input p) = true) io = filter (λ p, p_input p = false) io.
Proof. apply list_filter_iff. intros p. destruct (p_input p); naive_solver. Qed.

Lemma getOutNum_filter (io : list Port) :
  vlen io <= MaxPortNum → getOutNum io = Some (vlen (filter (λ p, p_input p = false) io)).
Proof.
  intros Hl. unfold getOutNum, count_ports. rewrite count_ports_filter, filter_negb_input.
  unfold checkPortNum. pose proof (length_filter (λ p, p_input p = false) io). unfold vlen in *.
  rewrite N.add_0_l. destruct (N.leb_spec (N.of_nat (length (filter (λ p, p_input p = false) io))) MaxPortNum); [done|lia].
Qed.

(** A write at the first unused place of a block extends the block. *)
Lemma vset_block (A C : list Port) (a : nat) (D x : Port) (i : N) :
  i = vlen A → vset (A ++ replicate (S a) D ++ C) i x = Some ((A ++ [x]) ++ replicate a D ++ C).
Proof.
  intros ->. unfold vset, vlen. rewrite length_app, length_app, length_replicate.
  destruct (N.ltb_spec (N.of_nat (length A)) (N.of_nat (length A + (S a + length C)))); [|lia].
  rewrite Nat2N.id. f_equal. rewrite insert_app_r_alt by lia. rewrite Nat.sub_diag.
  cbn. by rewrite <- app_assoc.
Qed.

Lemma indexed_cons_at (k : nat) p (io : list Port) :
  imap (λ m p, set_index (N.of_nat (k + m)) p) (p :: io)
  = set_index (N.of_nat k) p :: imap (λ m p, set_index (N.of_nat (S k + m)) p) io.
Proof.
  cbn. rewrite Nat.add_0_r. f_equal. apply imap_ext. intros. cbn. do 2 f_equal. lia.
Qed.

(** The loop fills the two blocks of the vector. *)
Lemma convert_loop_spec (io : list Port) (A B : list Port) (k : nat) (D : Port) :
  Forall (λ p, p_width p ≠ 0) io →
  let l := imap (λ m p, set_index (N.of_nat (k + m)) p) io in
  let a := length (filter (λ p, p_input p = true) io) in
  let b := length (filter (λ p, p_input p = false) io) in
  convert_loop io (A ++ replicate a D ++ B ++ replicate b D)
    (N.of_nat k) (vlen A) (vlen A + N.of_nat a + vlen B)
  = Some (A ++ filter (λ p, p_input p = true) l ++ B ++ filter (λ p, p_input p = false) l).
Proof.
  revert A B k. induction io as [|p io IH]; intros A B k Hw.
  { cbn. by rewrite !app_nil_r. }
  apply Forall_cons in Hw as [Hp Hw]. rewrite indexed_cons_at.
  cbn zeta. rewrite !filter_cons. cbn [p_input set_index convert_loop].
  destruct (N.eqb_spec (p_width p) 0) as [|_]; [done|].
  replace (N.of_nat k + 1) with (N.of_nat (S k)) by lia.
  destruct (p_input p) eqn:E.
  - repeat (case_decide; [|try done]); try done.
    cbn [length]. rewrite vset_block by done. cbn [mbind option_bind].
    specialize (IH (A ++ [set_index (N.of_nat k) p]) B (S k) Hw). cbn zeta in IH.
    unfold vlen in *. rewrite length_app in IH. cbn [length] in IH.
    rewrite Nat2N.inj_add in IH. change (N.of_nat 1) with 1 in IH.
    replace (N.of_nat (length A) + N.of_nat (S (length (filter (λ p, p_input p = true) io)))
             + N.of_nat (length B)) with (N.of_nat (length A) + 1
             + N.of_nat (length (filter (λ p, p_input p = true) io)) + N.of_nat (length B)) by lia.
    rewrite IH. rewrite <- !app_assoc. done.
  - repeat (case_decide; [try done|]); try done. cbn [length].
    set (a := length (filter (λ p, p_input p = true) io)).
    rewrite (app_assoc (replicate a D)), (app_assoc A).
    replace (replicate (S (length (filter (λ p, p_input p = false) io))) D)
      with (replicate (S (length (filter (λ p, p_input p = false) io))) D ++ []) by apply app_nil_r.
    rewrite vset_block by (unfold vlen; rewrite !length_app, length_replicate; lia).
    cbn [mbind option_bind]. rewrite app_nil_r.
    specialize (IH A (B ++ [set_index (N.of_nat k) p]) (S k) Hw). cbn zeta in IH.
    fold a in IH. unfold vlen in *. rewrite length_app in IH. cbn [length] in IH.
    rewrite Nat2N.inj_add in IH. change (N.of_nat 1) with 1 in IH. rewrite <- !app_assoc in *.
    replace (N.of_nat (length A) + N.of_nat a + N.of_nat (length B) + 1) with
      (N.of_nat (length A) + N.of_nat a + (N.of_nat (length B) + 1)) by lia.
    exact IH.
Qed.

Lemma convert_loop_zero (io : list Port) v index i j :
  ¬ Forall (λ p, p_width p ≠ 0) io → convert_loop io v index i j = None.
Proof.
  revert v index i j; induction io as [|p io IH]; intros v index i j Hn.
  { by destruct Hn. }
  cbn [convert_loop]. destruct (N.eqb_spec (p_width p) 0); [done|].
  destruct (vset _ _ _); [|done]. cbn. apply IH. intros Hf. apply Hn. by constructor.
Qed.

Lemma filter_count_length (io : list Port) :
  (length (filter (λ p, p_input p = true) io) + length (filter (λ p, p_input p = false) io)
   = length io)%nat.
Proof.
  induction io as [|p io IH]; [done|]. rewrite !filter_cons.
  destruct (p_input p); repeat case_decide; try done; cbn [length]; lia.
Qed.

Lemma convert_Some (io : list Port) :
  Forall (λ p, p_width p ≠ 0) io → vlen io <= MaxPortNum →
  convert io = Some (partitioned (indexed io)).
Proof.
  intros Hw Hl. unfold convert. destruct (N.leb_spec (vlen io) MaxPortNum); [|lia].
  rewrite getInNum_filter by done. cbn [mbind option_bind].
  pose proof (convert_loop_spec io [] [] 0 Port_default Hw) as Hc. cbn zeta in Hc.
  rewrite !app_nil_l in Hc. rewrite <- filter_count_length, replicate_add.
  change (vlen (@nil Port)) with 0 in Hc. rewrite N.add_0_l, N.add_0_r in Hc. exact Hc.
Qed.

Lemma CellTypeAttr_ports_Some (io : list Port) :
  Forall (λ p, p_width p ≠ 0) io → vlen io <= MaxPortNum →
  CellTypeAttr_ports io = Some (mkAttr (partitioned (indexed io))
    (vlen (filter (λ p, p_input p = true) io)) (vlen (filter (λ p, p_input p = false) io))).
Proof.
  intros Hw Hl. unfold CellTypeAttr_ports.
  by rewrite convert_Some, getInNum_filter, getOutNum_filter.
Qed.

Lemma partitioned_perm l : partitioned l ≡ₚ l.
Proof.
  unfold partitioned. induction l as [|p l IH]; [done|]. rewrite !filter_cons.
  destruct (p_input p) eqn:E; repeat case_decide; try done.
  - cbn. by rewrite IH.
  - by rewrite <- Permutation_middle, IH.
Qed.

Lemma indexed_lookup io k p :
  indexed io !! k = Some p ↔ ∃ q, io !! k = Some q ∧ p = set_index (N.of_nat k) q.
Proof. unfold indexed. rewrite list_lookup_imap_Some. naive_solver. Qed.

Lemma length_indexed io : length (indexed io) = length io.
Proof. apply length_imap. Qed.

Lemma vset_Some {A} (v : list A) (i : nat) x :
  (i < length v)%nat → vset v (N.of_nat i) x = Some (<[i := x]> v).
Proof.
  intros Hi. unfold vset, vlen. destruct (N.ltb_spec (N.of_nat i) (N.of_nat (length v))); [|lia].
  by rewrite Nat2N.id.
Qed.

Lemma indexed_index io k p : indexed io !! k = Some p → p_index p = N.of_nat k.
Proof. rewrite indexed_lookup. by intros (q & _ & ->). Qed.

(** A permutation of the indexed ports holds each port once. *)
Lemma indexed_perm_elem io ps i p :
  ps ≡ₚ indexed io → ps !! i = Some p →
  ∃ k, indexed io !! k = Some p ∧ p_index p = N.of_nat k ∧ (k < length ps)%nat.
Proof.
  intros Hp Hi. assert (p ∈ indexed io) as Hin by (rewrite <- Hp; by eapply list_elem_of_lookup_2).
  apply list_elem_of_lookup_1 in Hin as [k Hk]. exists k. split_all; [done|by eapply indexed_index|].
  rewrite Hp. by eapply lookup_lt_Some.
Qed.

Lemma indexed_NoDup io : NoDup (indexed io).
Proof.
  apply NoDup_alt. intros x y z Hx%indexed_index Hy%indexed_index. lia.
Qed.

Lemma indexed_perm_inj io ps i j p q :
  ps ≡ₚ indexed io → ps !! i = Some p → ps !! j = Some q → p_index p = p_index q → i = j.
Proof.
  intros Hp Hi Hj Hpq.
  destruct (indexed_perm_elem io ps i p Hp Hi) as (k & Hk & Ek & _).
  destruct (indexed_perm_elem io ps j q Hp Hj) as (k' & Hk' & Ek' & _).
  assert (k = k') as <- by lia. rewrite Hk in Hk'. injection Hk' as <-.
  assert (NoDup ps) as Hnd by (rewrite Hp; apply indexed_NoDup).
  by apply (NoDup_lookup ps i j p).
Qed.

(** The loop of [getOrderedPorts] over the first [m] ports. *)
Lemma scatter_loop io ps m :
  ps ≡ₚ indexed io → (m ≤ length ps)%nat →
  ∃ l, foldl (λ acc i, ordered ← acc; port ← ps !! i; vset ordered (p_index port) port)
         (Some (replicate (length ps) Port_default)) (seq 0 m) = Some l ∧
    length l = length ps ∧
    ∀ i p, (i < m)%nat → ps !! i = Some p → l !! N.to_nat (p_index p) = Some p.
Proof.
  intros Hp. induction m as [|m IH]; intros Hm.
  { exists (replicate (length ps) Port_default).
    split_all; [done|by rewrite length_replicate|lia]. }
  destruct IH as (l & El & Hl & Hin); [lia|].
  rewrite seq_S, foldl_app, El. cbn [foldl Nat.add mbind option_bind].
  destruct (lookup_lt_is_Some_2 ps m) as [p Ep]; [lia|]. rewrite Ep. cbn [mbind option_bind].
  destruct (indexed_perm_elem io ps m p Hp Ep) as (k & Hk & Ek & Hlt).
  rewrite Ek, vset_Some by lia. eexists; split_all; [done|by rewrite length_insert|].
  intros i r Hi Hr. destruct (decide (i = m)) as [->|Hne].
  - rewrite Ep in Hr. injection Hr as <-. rewrite Ek, Nat2N.id.
    apply list_lookup_insert_eq. lia.
  - rewrite list_lookup_insert_ne; [apply (Hin i); [lia|done]|].
    intros Hkr. apply Hne. apply (indexed_perm_inj io ps i m r p Hp Hr Ep). lia.
Qed.

(** Scattering ports with distinct indices puts each at its index. *)
Lemma getOrderedPorts_scatter (io ps : list Port) a :
  ps ≡ₚ indexed io → ports a = ps → N.to_nat (nInPort a + nOutPort a) = length ps →
  getOrderedPorts a = Some (indexed io).
Proof.
  intros Hp Ha Hn. unfold getOrderedPorts. rewrite Ha, Hn.
  destruct (scatter_loop io ps (length ps) Hp ltac:(lia)) as (l & -> & Hl & Hin). f_equal.
  apply list_eq_same_length with (n := length ps); [by rewrite Hp|done|].
  intros i x y _ Hx Hy.
  assert (y ∈ ps) as Hy' by (rewrite Hp; by eapply list_elem_of_lookup_2).
  apply list_elem_of_lookup_1 in Hy' as [j Hj].
  specialize (Hin j y (lookup_lt_Some _ _ _ Hj) Hj).
  rewrite (indexed_index _ _ _ Hy), Nat2N.id in Hin. congruence.
Qed.

(** The loop of [mapPinToPort] finds the port that holds the pin. *)
Lemma mapPin_loop_spec l index width i :
  width + sum_widths l < 2 ^ 32 → width <= i →
  match mapPin_loop l index width i with
  | Some (k, off) => ∃ m p, k = index + N.of_nat m ∧ l !! m = Some p ∧ off < p_width p ∧
      i = width + sum_widths (take m l) + off
  | None => width + sum_widths l <= i
  end.
Proof.
  revert index width; induction l as [|p l IH]; intros index width; cbn [sum_widths foldr mapPin_loop].
  { intros. lia. }
  fold (sum_widths l). intros Hs Hw. rewrite N.mod_small by lia.
  destruct (N.ltb_spec i (width + p_width p)).
  - exists 0%nat, p. cbn. split_all; [lia|done|lia|lia].
  - specialize (IH (index + 1) (width + p_width p) ltac:(lia) ltac:(lia)).
    destruct (mapPin_loop l (index + 1) _ i) as [[k off]|].
    + destruct IH as (m & q & -> & Hq & Ho & ->). exists (S m), q.
      cbn [take sum_widths foldr]. fold (sum_widths (take m l)). split_all; [lia|done|done|lia].
    + lia.
Qed.

Lemma sum_widths_app l k : sum_widths (l ++ k) = sum_widths l + sum_widths k.
Proof. unfold sum_widths. induction l as [|p l IH]; cbn; [done|]. rewrite IH. lia. Qed.

Lemma sum_widths_lt l m p off :
  l !! m = Some p → off < p_width p → sum_widths (take m l) + off < sum_widths l.
Proof.
  intros Hm Ho. rewrite <- (take_drop_middle l m p Hm) at 2. rewrite sum_widths_app.
  cbn. lia.
Qed.

Lemma sum_widths_pos_unique l m m' p p' off off' :
  l !! m = Some p → off < p_width p → l !! m' = Some p' → off' < p_width p' →
  sum_widths (take m l) + off = sum_widths (take m' l) + off' → m = m' ∧ off = off'.
Proof.
  revert m m'; induction l as [|q l IH]; intros m m'; [done|].
  destruct m as [|m], m' as [|m']; cbn [take lookup sum_widths foldr list_lookup]; intros; simplify_eq.
  - done.
  - lia.
  - lia.
  - fold (sum_widths (take m l)) in *. fold (sum_widths (take m' l)) in *.
    destruct (IH m m') as [-> ->]; [done..|lia|done].
Qed.

Lemma hasPortInfo_true a :
  nInPort a < Unknown → nOutPort a < Unknown → hasPortInfo a = true.
Proof.
  unfold hasPortInfo. intros Hi Ho. rewrite (proj2 (N.eqb_neq _ _)) by lia.
  by rewrite (proj2 (N.eqb_neq _ _)) by lia.
Qed.

(** ** Theorems *)

(** The attributes of a cell type built from ports in any order hold the
    inputs first and the outputs last, both in the order given and each with
    the index it had, together with the numbers of inputs and outputs; the
    construction fails exactly when a port has width zero (for a number of
    ports that the index type can represent); and [getOrderedPorts] gives the
    ports back in the original order. *)
Theorem ports_convert_roundtrip (io : list Port) :
  vlen io <= MaxPortNum →
  (¬ Forall (λ p, p_width p ≠ 0) io → CellTypeAttr_ports io = None) ∧
  (Forall (λ p, p_width p ≠ 0) io → ∃ a, CellTypeAttr_ports io = Some a ∧
    ports a = partitioned (indexed io) ∧
    nInPort a = vlen (filter (λ p, p_input p = true) io) ∧
    nOutPort a = vlen (filter (λ p, p_input p = false) io) ∧
    getOrderedPorts a = Some (indexed io)).
Proof.
  intros Hl. split; intros Hw.
  - unfold CellTypeAttr_ports, convert. rewrite getInNum_filter by done.
    destruct (_ <=? _); [|done]. cbn [mbind option_bind]. by rewrite convert_loop_zero.
  - eexists. split; [by apply CellTypeAttr_ports_Some|]. cbn. split_all; [done..|].
    apply getOrderedPorts_scatter with (partitioned (indexed io)); cbn.
    + apply partitioned_perm.
    + done.
    + rewrite partitioned_perm, length_indexed. unfold vlen.
      pose proof (filter_count_length io). lia.
Qed.

Lemma ports_convert_roundtrip_witness :
  let io := [mkPort (Some "Q"%string) 2 false 0; mkPort None 3 true 0; mkPort None 1 true 0] in
  (¬ Forall (λ p, p_width p ≠ 0) io → CellTypeAttr_ports io = None) ∧
  (Forall (λ p, p_width p ≠ 0) io → ∃ a, CellTypeAttr_ports io = Some a ∧
    ports a = partitioned (indexed io) ∧
    nInPort a = vlen (filter (λ p, p_input p = true) io) ∧
    nOutPort a = vlen (filter (λ p, p_input p = false) io) ∧
    getOrderedPorts a = Some (indexed io)).
Proof. apply ports_convert_roundtrip. vm_compute. discriminate. Defined.

(** [mapPinToPort] maps pin [i] to the unique port that holds it: the widths
    of the ports before it and the offset add up to [i] and the offset is
    within the port; it fails exactly for the pins past the last port
    (attributes with port information whose total width is a [uint32_t]). *)
Theorem map_pin_to_port_correct (a : CellTypeAttr) (i : N) :
  nInPort a < Unknown → nOutPort a < Unknown →
  length (ports a) = N.to_nat (nInPort a + nOutPort a) →
  sum_widths (ports a) < 2 ^ 32 →
  (∀ index off, mapPinToPort a i = Some (index, off) ↔
    ∃ p, getPort a index = Some p ∧ off < p_width p ∧
      i = sum_widths (take (N.to_nat index) (ports a)) + off) ∧
  (mapPinToPort a i = None ↔ sum_widths (ports a) <= i).
Proof.
  intros Hi Ho Hlen Hs. unfold mapPinToPort, getPort, vget.
  rewrite hasPortInfo_true by done. rewrite take_ge by lia.
  pose proof (mapPin_loop_spec (ports a) 0 0 i Hs ltac:(lia)) as Hm.
  destruct (mapPin_loop (ports a) 0 0 i) as [[k o]|].
  - destruct Hm as (m & p & -> & Hp & Hop & ->). rewrite !N.add_0_l. split.
    + intros index off. split.
      * intros [= <- <-]. exists p. by rewrite Nat2N.id.
      * intros (p' & Hp' & Hop' & He).
        destruct (sum_widths_pos_unique _ _ _ _ _ _ _ Hp Hop Hp' Hop' He) as [-> ->].
        by rewrite N2Nat.id.
    + split; [done|]. pose proof (sum_widths_lt _ _ _ _ Hp Hop). lia.
  - split; [|naive_solver lia]. intros index off. split; [done|].
    intros (p & Hp & Hop & ->). pose proof (sum_widths_lt _ _ _ _ Hp Hop). lia.
Qed.

Lemma map_pin_to_port_correct_witness :
  let a := mkAttr [mkPort None 3 true 0; mkPort None 4 false 1] 1 1 in
  (∀ index off, mapPinToPort a 5 = Some (index, off) ↔
    ∃ p, getPort a index = Some p ∧ off < p_width p ∧
      5 = sum_widths (take (N.to_nat index) (ports a)) + off) ∧
  (mapPinToPort a 5 = None ↔ sum_widths (ports a) <= 5).
Proof. apply map_pin_to_port_correct; by vm_compute. Defined.
