(* ===== verification/CellType.v ===== *)
(** * Cell types ([gate/model/celltype.h], [gate/model/celltype.cpp], [celltype_gates.inc])

    The symbols of the cells with their 16-bit codes, the flags packed in the
    codes of the sequential cells, the table of the standard gates with their
    properties, and the implementation slot of a cell type.  [gate_fun] is the
    reference meaning of the combinational gates: the properties of the table
    are proved against it. *)

From S2P Require Import Prelude ObjectId CellAttr.
From stdpp Require Import strings countable.

Local Open Scope Z_scope.

(** ** Symbols and their flags *)

(* gate/model/celltype.h:24-30 [CellSymbolFlags] *)
Definition PNEDGE_BIT : Z := 15.
(* gate/model/celltype.h:24-30 [CellSymbolFlags] *)
Definition ENALVL_BIT : Z := 15.
(* gate/model/celltype.h:24-30 [CellSymbolFlags] *)
Definition RSTLVL_BIT : Z := 14.
(* gate/model/celltype.h:24-30 [CellSymbolFlags] *)
Definition SETLVL_BIT : Z := 13.
(* gate/model/celltype.h:24-30 [CellSymbolFlags] *)
Definition RSTVAL_BIT : Z := SETLVL_BIT.

(* gate/model/celltype.h:32-32 [PNEDGE_MASK] *)
Definition PNEDGE_MASK : Z := Z.shiftl 1 PNEDGE_BIT.
(* gate/model/celltype.h:33-33 [ENALVL_MASK] *)
Definition ENALVL_MASK : Z := Z.shiftl 1 ENALVL_BIT.
(* gate/model/celltype.h:34-34 [RSTLVL_MASK] *)
Definition RSTLVL_MASK : Z := Z.shiftl 1 RSTLVL_BIT.
(* gate/model/celltype.h:35-35 [SETLVL_MASK] *)
Definition SETLVL_MASK : Z := Z.shiftl 1 SETLVL_BIT.
(* gate/model/celltype.h:36-36 [RSTVAL_MASK] *)
Definition RSTVAL_MASK : Z := Z.shiftl 1 RSTVAL_BIT.
(* gate/model/celltype.h:38-42 [FLGMASK] *)
Definition FLGMASK : Z :=
  Z.lor PNEDGE_MASK (Z.lor ENALVL_MASK (Z.lor RSTLVL_MASK (Z.lor SETLVL_MASK RSTVAL_MASK))).

(* gate/model/celltype.h:44-44 [POSEDGE] *)
Definition POSEDGE : Z := Z.shiftl 0 PNEDGE_BIT.
(* gate/model/celltype.h:45-45 [NEGEDGE] *)
Definition NEGEDGE : Z := Z.shiftl 1 PNEDGE_BIT.
(* gate/model/celltype.h:46-46 [ENALVL1] *)
Definition ENALVL1 : Z := Z.shiftl 0 ENALVL_BIT.
(* gate/model/celltype.h:47-47 [ENALVL0] *)
Definition ENALVL0 : Z := Z.shiftl 1 ENALVL_BIT.
(* gate/model/celltype.h:48-48 [RSTLVL1] *)
Definition RSTLVL1 : Z := Z.shiftl 0 RSTLVL_BIT.
(* gate/model/celltype.h:49-49 [RSTLVL0] *)
Definition RSTLVL0 : Z := Z.shiftl 1 RSTLVL_BIT.
(* gate/model/celltype.h:50-50 [SETLVL1] *)
Definition SETLVL1 : Z := Z.shiftl 0 SETLVL_BIT.
(* gate/model/celltype.h:51-51 [SETLVL0] *)
Definition SETLVL0 : Z := Z.shiftl 1 SETLVL_BIT.
(* gate/model/celltype.h:52-52 [RSTVAL0] *)
Definition RSTVAL0 : Z := Z.shiftl 0 RSTVAL_BIT.
(* gate/model/celltype.h:53-53 [RSTVAL1] *)
Definition RSTVAL1 : Z := Z.shiftl 1 RSTVAL_BIT.

(* gate/model/celltype.h:55-57 [getClkEdge] *)
Definition getClkEdge (symbol : Z) : bool := Z.land symbol PNEDGE_MASK =? POSEDGE.
(* gate/model/celltype.h:59-61 [getEnaLevel] *)
Definition getEnaLevel (symbol : Z) : bool := Z.land symbol ENALVL_MASK =? ENALVL1.
(* gate/model/celltype.h:63-65 [getRstLevel] *)
Definition getRstLevel (symbol : Z) : bool := Z.land symbol RSTLVL_MASK =? RSTLVL1.
(* gate/model/celltype.h:67-69 [getSetLevel] *)
Definition getSetLevel (symbol : Z) : bool := Z.land symbol SETLVL_MASK =? SETLVL1.
(* gate/model/celltype.h:71-73 [getRstValue] *)
Definition getRstValue (symbol : Z) : bool := Z.land symbol RSTVAL_MASK =? RSTVAL1.

(** The enumerators that denote distinct symbols; the generic names of the
    sequential cells ([DFF], ...) are the codes below, and the aliases ([BNOT],
    ...) are the unsigned variants. *)
(* gate/model/celltype.h:75-224 [CellSymbol] *)
Inductive CellSymbol :=
  | IN | OUT | ZERO | ONE | BUF | NOT | AND | OR | XOR | NAND | NOR | XNOR
  | MAJ | DFF_p | DFF_n | sDFF_pp0 | sDFF_pp1 | sDFF_pn0 | sDFF_pn1
  | sDFF_np0 | sDFF_np1 | sDFF_nn0 | sDFF_nn1 | aDFF_pp0 | aDFF_pp1
  | aDFF_pn0 | aDFF_pn1 | aDFF_np0 | aDFF_np1 | aDFF_nn0 | aDFF_nn1
  | DFFrs_ppp | DFFrs_ppn | DFFrs_pnp | DFFrs_pnn | DFFrs_npp | DFFrs_npn
  | DFFrs_nnp | DFFrs_nnn | DLATCH_p | DLATCH_n | aDLATCH_pp0 | aDLATCH_pp1
  | aDLATCH_pn0 | aDLATCH_pn1 | aDLATCH_np0 | aDLATCH_np1 | aDLATCH_nn0
  | aDLATCH_nn1 | DLATCHrs_ppp | DLATCHrs_ppn | DLATCHrs_pnp | DLATCHrs_pnn
  | DLATCHrs_npp | DLATCHrs_npn | DLATCHrs_nnp | DLATCHrs_nnn | LATCHrs_pp
  | LATCHrs_pn | LATCHrs_np | LATCHrs_nn | BNOTs | BNOTu | BANDs | BANDu
  | BORs | BORu | BXORs | BXORu | BNANDs | BNANDu | BNORs | BNORu | BXNORs
  | BXNORu | RAND | ROR | RXOR | RNAND | RNOR | RXNOR | BMUX | MUX2 | MUX
  | BDEMUX | DEMUX2 | DEMUX | SHLs | SHLu | SHRs | SHRu | SHIFTs | SHIFTu
  | EQs | EQu | NEQs | NEQu | EQXs | EQXu | NEQXs | NEQXu | LTs | LTu | LTEs
  | LTEu | GTs | GTu | GTEs | GTEu | NEGs | NEGu | ADDs | ADDu | SUBs | SUBu
  | MULs | MULu | DIVs | DIVu | REMs | REMu | MODs | UNDEF.

(* gate/model/celltype.h:118-118 [DFF] *)
Definition DFF_code : Z := 13.
(* gate/model/celltype.h:121-121 [sDFF] *)
Definition sDFF_code : Z := 14.
(* gate/model/celltype.h:124-124 [aDFF] *)
Definition aDFF_code : Z := 15.
(* gate/model/celltype.h:127-127 [DFFrs] *)
Definition DFFrs_code : Z := 16.
(* gate/model/celltype.h:133-133 [DLATCH] *)
Definition DLATCH_code : Z := 17.
(* gate/model/celltype.h:136-136 [aDLATCH] *)
Definition aDLATCH_code : Z := 18.
(* gate/model/celltype.h:139-139 [DLATCHrs] *)
Definition DLATCHrs_code : Z := 19.
(* gate/model/celltype.h:142-142 [LATCHrs] *)
Definition LATCHrs_code : Z := 20.

(* gate/model/celltype.h:285-434 [CellSymbol values] *)
Definition code (s : CellSymbol) : Z :=
  match s with
  | IN => 0 | OUT => 1 | ZERO => 2 | ONE => 3 | BUF => 4 | NOT => 5
  | AND => 6 | OR => 7 | XOR => 8 | NAND => 9 | NOR => 10 | XNOR => 11
  | MAJ => 12 | DFF_p => Z.lor DFF_code POSEDGE
  | DFF_n => Z.lor DFF_code NEGEDGE
  | sDFF_pp0 => Z.lor (Z.lor (Z.lor sDFF_code POSEDGE) RSTLVL1) RSTVAL0
  | sDFF_pp1 => Z.lor (Z.lor (Z.lor sDFF_code POSEDGE) RSTLVL1) RSTVAL1
  | sDFF_pn0 => Z.lor (Z.lor (Z.lor sDFF_code POSEDGE) RSTLVL0) RSTVAL0
  | sDFF_pn1 => Z.lor (Z.lor (Z.lor sDFF_code POSEDGE) RSTLVL0) RSTVAL1
  | sDFF_np0 => Z.lor (Z.lor (Z.lor sDFF_code NEGEDGE) RSTLVL1) RSTVAL0
  | sDFF_np1 => Z.lor (Z.lor (Z.lor sDFF_code NEGEDGE) RSTLVL1) RSTVAL1
  | sDFF_nn0 => Z.lor (Z.lor (Z.lor sDFF_code NEGEDGE) RSTLVL0) RSTVAL0
  | sDFF_nn1 => Z.lor (Z.lor (Z.lor sDFF_code NEGEDGE) RSTLVL0) RSTVAL1
  | aDFF_pp0 => Z.lor (Z.lor (Z.lor aDFF_code POSEDGE) RSTLVL1) RSTVAL0
  | aDFF_pp1 => Z.lor (Z.lor (Z.lor aDFF_code POSEDGE) RSTLVL1) RSTVAL1
  | aDFF_pn0 => Z.lor (Z.lor (Z.lor aDFF_code POSEDGE) RSTLVL0) RSTVAL0
  | aDFF_pn1 => Z.lor (Z.lor (Z.lor aDFF_code POSEDGE) RSTLVL0) RSTVAL1
  | aDFF_np0 => Z.lor (Z.lor (Z.lor aDFF_code NEGEDGE) RSTLVL1) RSTVAL0
  | aDFF_np1 => Z.lor (Z.lor (Z.lor aDFF_code NEGEDGE) RSTLVL1) RSTVAL1
  | aDFF_nn0 => Z.lor (Z.lor (Z.lor aDFF_code NEGEDGE) RSTLVL0) RSTVAL0
  | aDFF_nn1 => Z.lor (Z.lor (Z.lor aDFF_code NEGEDGE) RSTLVL0) RSTVAL1
  | DFFrs_ppp => Z.lor (Z.lor (Z.lor DFFrs_code POSEDGE) RSTLVL1) SETLVL1
  | DFFrs_ppn => Z.lor (Z.lor (Z.lor DFFrs_code POSEDGE) RSTLVL1) SETLVL0
  | DFFrs_pnp => Z.lor (Z.lor (Z.lor DFFrs_code POSEDGE) RSTLVL0) SETLVL1
  | DFFrs_pnn => Z.lor (Z.lor (Z.lor DFFrs_code POSEDGE) RSTLVL0) SETLVL0
  | DFFrs_npp => Z.lor (Z.lor (Z.lor DFFrs_code NEGEDGE) RSTLVL1) SETLVL1
  | DFFrs_npn => Z.lor (Z.lor (Z.lor DFFrs_code NEGEDGE) RSTLVL1) SETLVL0
  | DFFrs_nnp => Z.lor (Z.lor (Z.lor DFFrs_code NEGEDGE) RSTLVL0) SETLVL1
  | DFFrs_nnn => Z.lor (Z.lor (Z.lor DFFrs_code NEGEDGE) RSTLVL0) SETLVL0
  | DLATCH_p => Z.lor DLATCH_code ENALVL1
  | DLATCH_n => Z.lor DLATCH_code ENALVL0
  | aDLATCH_pp0 => Z.lor (Z.lor (Z.lor aDLATCH_code ENALVL1) RSTLVL1) RSTVAL0
  | aDLATCH_pp1 => Z.lor (Z.lor (Z.lor aDLATCH_code ENALVL1) RSTLVL1) RSTVAL1
  | aDLATCH_pn0 => Z.lor (Z.lor (Z.lor aDLATCH_code ENALVL1) RSTLVL0) RSTVAL0
  | aDLATCH_pn1 => Z.lor (Z.lor (Z.lor aDLATCH_code ENALVL1) RSTLVL0) RSTVAL1
  | aDLATCH_np0 => Z.lor (Z.lor (Z.lor aDLATCH_code ENALVL0) RSTLVL1) RSTVAL0
  | aDLATCH_np1 => Z.lor (Z.lor (Z.lor aDLATCH_code ENALVL0) RSTLVL1) RSTVAL1
  | aDLATCH_nn0 => Z.lor (Z.lor (Z.lor aDLATCH_code ENALVL0) RSTLVL0) RSTVAL0
  | aDLATCH_nn1 => Z.lor (Z.lor (Z.lor aDLATCH_code ENALVL0) RSTLVL0) RSTVAL1
  | DLATCHrs_ppp => Z.lor (Z.lor (Z.lor DLATCHrs_code ENALVL1) RSTLVL1) SETLVL1
  | DLATCHrs_ppn => Z.lor (Z.lor (Z.lor DLATCHrs_code ENALVL1) RSTLVL1) SETLVL0
  | DLATCHrs_pnp => Z.lor (Z.lor (Z.lor DLATCHrs_code ENALVL1) RSTLVL0) SETLVL1
  | DLATCHrs_pnn => Z.lor (Z.lor (Z.lor DLATCHrs_code ENALVL1) RSTLVL0) SETLVL0
  | DLATCHrs_npp => Z.lor (Z.lor (Z.lor DLATCHrs_code ENALVL0) RSTLVL1) SETLVL1
  | DLATCHrs_npn => Z.lor (Z.lor (Z.lor DLATCHrs_code ENALVL0) RSTLVL1) SETLVL0
  | DLATCHrs_nnp => Z.lor (Z.lor (Z.lor DLATCHrs_code ENALVL0) RSTLVL0) SETLVL1
  | DLATCHrs_nnn => Z.lor (Z.lor (Z.lor DLATCHrs_code ENALVL0) RSTLVL0) SETLVL0
  | LATCHrs_pp => Z.lor (Z.lor LATCHrs_code RSTLVL1) SETLVL1
  | LATCHrs_pn => Z.lor (Z.lor LATCHrs_code RSTLVL1) SETLVL0
  | LATCHrs_np => Z.lor (Z.lor LATCHrs_code RSTLVL0) SETLVL1
  | LATCHrs_nn => Z.lor (Z.lor LATCHrs_code RSTLVL0) SETLVL0 | BNOTs => 21
  | BNOTu => 22 | BANDs => 23 | BANDu => 24 | BORs => 25 | BORu => 26
  | BXORs => 27 | BXORu => 28 | BNANDs => 29 | BNANDu => 30 | BNORs => 31
  | BNORu => 32 | BXNORs => 33 | BXNORu => 34 | RAND => 35 | ROR => 36
  | RXOR => 37 | RNAND => 38 | RNOR => 39 | RXNOR => 40 | BMUX => 41
  | MUX2 => 42 | MUX => 43 | BDEMUX => 44 | DEMUX2 => 45 | DEMUX => 46
  | SHLs => 47 | SHLu => 48 | SHRs => 49 | SHRu => 50 | SHIFTs => 51
  | SHIFTu => 52 | EQs => 53 | EQu => 54 | NEQs => 55 | NEQu => 56
  | EQXs => 57 | EQXu => 58 | NEQXs => 59 | NEQXu => 60 | LTs => 61
  | LTu => 62 | LTEs => 63 | LTEu => 64 | GTs => 65 | GTu => 66 | GTEs => 67
  | GTEu => 68 | NEGs => 69 | NEGu => 70 | ADDs => 71 | ADDu => 72
  | SUBs => 73 | SUBu => 74 | MULs => 75 | MULu => 76 | DIVs => 77
  | DIVu => 78 | REMs => 79 | REMu => 80 | MODs => 81
  | UNDEF => Z.ldiff 0xffff FLGMASK
  end.

Definition all_symbols : list CellSymbol :=
  [IN; OUT; ZERO; ONE; BUF; NOT; AND; OR; XOR; NAND; NOR; XNOR; MAJ; DFF_p;
   DFF_n; sDFF_pp0; sDFF_pp1; sDFF_pn0; sDFF_pn1; sDFF_np0; sDFF_np1;
   sDFF_nn0; sDFF_nn1; aDFF_pp0; aDFF_pp1; aDFF_pn0; aDFF_pn1; aDFF_np0;
   aDFF_np1; aDFF_nn0; aDFF_nn1; DFFrs_ppp; DFFrs_ppn; DFFrs_pnp; DFFrs_pnn;
   DFFrs_npp; DFFrs_npn; DFFrs_nnp; DFFrs_nnn; DLATCH_p; DLATCH_n;
   aDLATCH_pp0; aDLATCH_pp1; aDLATCH_pn0; aDLATCH_pn1; aDLATCH_np0;
   aDLATCH_np1; aDLATCH_nn0; aDLATCH_nn1; DLATCHrs_ppp; DLATCHrs_ppn;
   DLATCHrs_pnp; DLATCHrs_pnn; DLATCHrs_npp; DLATCHrs_npn; DLATCHrs_nnp;
   DLATCHrs_nnn; LATCHrs_pp; LATCHrs_pn; LATCHrs_np; LATCHrs_nn; BNOTs;
   BNOTu; BANDs; BANDu; BORs; BORu; BXORs; BXORu; BNANDs; BNANDu; BNORs;
   BNORu; BXNORs; BXNORu; RAND; ROR; RXOR; RNAND; RNOR; RXNOR; BMUX; MUX2;
   MUX; BDEMUX; DEMUX2; DEMUX; SHLs; SHLu; SHRs; SHRu; SHIFTs; SHIFTu; EQs;
   EQu; NEQs; NEQu; EQXs; EQXu; NEQXs; NEQXu; LTs; LTu; LTEs; LTEu; GTs; GTu;
   GTEs; GTEu; NEGs; NEGu; ADDs; ADDu; SUBs; SUBu; MULs; MULu; DIVs; DIVu;
   REMs; REMu; MODs; UNDEF].

(** The standard gates, in the order of [celltype_gates.inc]. *)
(* gate/model/celltype_gates.inc:19-79 [UTOPIA_FOREACH_GATE] *)
Definition gates : list CellSymbol :=
  [IN; OUT; ZERO; ONE; BUF; NOT; AND; OR; XOR; NAND; NOR; XNOR; MAJ; DFF_p;
   DFF_n; sDFF_pp0; sDFF_pp1; sDFF_pn0; sDFF_pn1; sDFF_np0; sDFF_np1;
   sDFF_nn0; sDFF_nn1; aDFF_pp0; aDFF_pp1; aDFF_pn0; aDFF_pn1; aDFF_np0;
   aDFF_np1; aDFF_nn0; aDFF_nn1; DFFrs_ppp; DFFrs_ppn; DFFrs_pnp; DFFrs_pnn;
   DFFrs_npp; DFFrs_npn; DFFrs_nnp; DFFrs_nnn; DLATCH_p; DLATCH_n;
   aDLATCH_pp0; aDLATCH_pp1; aDLATCH_pn0; aDLATCH_pn1; aDLATCH_np0;
   aDLATCH_np1; aDLATCH_nn0; aDLATCH_nn1; DLATCHrs_ppp; DLATCHrs_ppn;
   DLATCHrs_pnp; DLATCHrs_pnn; DLATCHrs_npp; DLATCHrs_npn; DLATCHrs_nnp;
   DLATCHrs_nnn; LATCHrs_pp; LATCHrs_pn; LATCHrs_np; LATCHrs_nn].

(** The symbol with a given code. *)
Definition decode (z : Z) : option CellSymbol :=
  list_find (λ s, code s = z) all_symbols ≫= λ r, Some r.2.

Lemma decode_code s : decode (code s) = Some s.
Proof. by destruct s; vm_compute. Qed.

#[export] Instance code_inj : Inj (=) (=) code.
Proof. intros s t E. pose proof (decode_code s) as H. rewrite E, decode_code in H. by injection H. Qed.

#[export] Instance CellSymbol_eq_dec : EqDecision CellSymbol.
Proof.
  intros s t. destruct (decide (code s = code t)) as [E|E].
  - left. by apply code_inj.
  - right. by intros ->.
Defined.

#[export] Instance CellSymbol_countable : Countable CellSymbol :=
  inj_countable code decode decode_code.

(* gate/model/celltype.h:461-476 [getNegSymbol] *)
Definition getNegSymbol (symbol : CellSymbol) : option CellSymbol :=
  match symbol with
  | ZERO => Some ONE
  | ONE => Some ZERO
  | BUF => Some NOT
  | NOT => Some BUF
  | AND => Some NAND
  | OR => Some NOR
  | XOR => Some XNOR
  | NAND => Some AND
  | NOR => Some OR
  | XNOR => Some XOR
  | _ => None
  end.

(** ** Cell types *)

(* gate/model/celltype.h:483-521 [CellProperties] *)
Record CellProperties := mkProps {
  cell : bool;
  soft : bool;
  combinational : bool;
  constant : bool;
  identity : bool;
  commutative : bool;
  associative : bool;
  regroupable : bool;
  negative : bool;
}.

(* gate/model/celltype.h:539-540 [CellType::AnyArity] *)
Definition AnyArity : N := 0xffff.

(** [implID] is a full object identifier (a word of [ObjectId]) or null. *)
(* gate/model/celltype.h:532-708 [CellType] *)
Record CellType := mkCellType {
  name : string;
  implID : Z;
  attr : option CellTypeAttr;
  symbol : CellSymbol;
  props : CellProperties;
  nIn : N;
  nOut : N;
}.

Definition b (n : N) : bool := negb (n =? 0)%N.

Definition row (name : string) (A B C D E F G H I nIn nOut : N) (s : CellSymbol) : CellType :=
  mkCellType name OBJ_NULL_ID None s
    (mkProps (b A) (b B) (b C) (b D) (b E) (b F) (b G) (b H) (b I)) nIn nOut.

(** [CellType::get(CELL_TYPE_ID(symbol))] for the standard gates. *)
(* gate/model/celltype.cpp:24-106 [CELL_TYPE] *)
Definition getCellType (symbol : CellSymbol) : option CellType :=
  let row name A B C D E F G H I nIn nOut :=
    Some (row name A B C D E F G H I nIn nOut symbol) in
  match symbol with
  | IN => row "in" 1 1 0 0 0 0 0 0 0 0 1
  | OUT => row "out" 1 1 0 0 0 0 0 0 0 1 0
  | ZERO => row "zero" 1 1 1 1 0 0 0 0 0 0 1
  | ONE => row "one" 1 1 1 1 0 0 0 0 0 0 1
  | BUF => row "buf" 1 1 1 0 1 0 0 0 0 1 1
  | NOT => row "not" 1 1 1 0 0 0 0 0 1 1 1
  | AND => row "and" 1 1 1 0 0 1 1 1 0 65535 1
  | OR => row "or" 1 1 1 0 0 1 1 1 0 65535 1
  | XOR => row "xor" 1 1 1 0 0 1 1 1 0 65535 1
  | NAND => row "nand" 1 1 1 0 0 1 0 0 1 65535 1
  | NOR => row "nor" 1 1 1 0 0 1 0 0 1 65535 1
  | XNOR => row "xnor" 1 1 1 0 0 1 1 0 1 65535 1
  | MAJ => row "maj" 1 1 1 0 0 1 0 0 0 65535 1
  | DFF_p => row "dff_p" 1 1 0 0 0 0 0 0 0 2 1
  | DFF_n => row "dff_n" 1 1 0 0 0 0 0 0 0 2 1
  | sDFF_pp0 => row "sdff_pp0" 1 1 0 0 0 0 0 0 0 3 1
  | sDFF_pp1 => row "sdff_pp1" 1 1 0 0 0 0 0 0 0 3 1
  | sDFF_pn0 => row "sdff_pn0" 1 1 0 0 0 0 0 0 0 3 1
  | sDFF_pn1 => row "sdff_pn1" 1 1 0 0 0 0 0 0 0 3 1
  | sDFF_np0 => row "sdff_np0" 1 1 0 0 0 0 0 0 0 3 1
  | sDFF_np1 => row "sdff_np1" 1 1 0 0 0 0 0 0 0 3 1
  | sDFF_nn0 => row "sdff_nn0" 1 1 0 0 0 0 0 0 0 3 1
  | sDFF_nn1 => row "sdff_nn1" 1 1 0 0 0 0 0 0 0 3 1
  | aDFF_pp0 => row "adff_pp0" 1 1 0 0 0 0 0 0 0 3 1
  | aDFF_pp1 => row "adff_pp1" 1 1 0 0 0 0 0 0 0 3 1
  | aDFF_pn0 => row "adff_pn0" 1 1 0 0 0 0 0 0 0 3 1
  | aDFF_pn1 => row "adff_pn1" 1 1 0 0 0 0 0 0 0 3 1
  | aDFF_np0 => row "adff_np0" 1 1 0 0 0 0 0 0 0 3 1
  | aDFF_np1 => row "adff_np1" 1 1 0 0 0 0 0 0 0 3 1
  | aDFF_nn0 => row "adff_nn0" 1 1 0 0 0 0 0 0 0 3 1
  | aDFF_nn1 => row "adff_nn1" 1 1 0 0 0 0 0 0 0 3 1
  | DFFrs_ppp => row "dffrs_ppp" 1 1 0 0 0 0 0 0 0 4 1
  | DFFrs_ppn => row "dffrs_ppn" 1 1 0 0 0 0 0 0 0 4 1
  | DFFrs_pnp => row "dffrs_pnp" 1 1 0 0 0 0 0 0 0 4 1
  | DFFrs_pnn => row "dffrs_pnn" 1 1 0 0 0 0 0 0 0 4 1
  | DFFrs_npp => row "dffrs_npp" 1 1 0 0 0 0 0 0 0 4 1
  | DFFrs_npn => row "dffrs_npn" 1 1 0 0 0 0 0 0 0 4 1
  | DFFrs_nnp => row "dffrs_nnp" 1 1 0 0 0 0 0 0 0 4 1
  | DFFrs_nnn => row "dffrs_nnn" 1 1 0 0 0 0 0 0 0 4 1
  | DLATCH_p => row "latch_p" 1 1 0 0 0 0 0 0 0 2 1
  | DLATCH_n => row "latch_n" 1 1 0 0 0 0 0 0 0 2 1
  | aDLATCH_pp0 => row "alatch_pp0" 1 1 0 0 0 0 0 0 0 3 1
  | aDLATCH_pp1 => row "alatch_pp1" 1 1 0 0 0 0 0 0 0 3 1
  | aDLATCH_pn0 => row "alatch_pn0" 1 1 0 0 0 0 0 0 0 3 1
  | aDLATCH_pn1 => row "alatch_pn1" 1 1 0 0 0 0 0 0 0 3 1
  | aDLATCH_np0 => row "alatch_np0" 1 1 0 0 0 0 0 0 0 3 1
  | aDLATCH_np1 => row "alatch_np1" 1 1 0 0 0 0 0 0 0 3 1
  | aDLATCH_nn0 => row "alatch_nn0" 1 1 0 0 0 0 0 0 0 3 1
  | aDLATCH_nn1 => row "alatch_nn1" 1 1 0 0 0 0 0 0 0 3 1
  | DLATCHrs_ppp => row "latchrs_ppp" 1 1 0 0 0 0 0 0 0 4 1
  | DLATCHrs_ppn => row "latchrs_ppn" 1 1 0 0 0 0 0 0 0 4 1
  | DLATCHrs_pnp => row "latchrs_pnp" 1 1 0 0 0 0 0 0 0 4 1
  | DLATCHrs_pnn => row "latchrs_pnn" 1 1 0 0 0 0 0 0 0 4 1
  | DLATCHrs_npp => row "latchrs_npp" 1 1 0 0 0 0 0 0 0 4 1
  | DLATCHrs_npn => row "latchrs_npn" 1 1 0 0 0 0 0 0 0 4 1
  | DLATCHrs_nnp => row "latchrs_nnp" 1 1 0 0 0 0 0 0 0 4 1
  | DLATCHrs_nnn => row "latchrs_nnn" 1 1 0 0 0 0 0 0 0 4 1
  | LATCHrs_pp => row "rs_pp" 1 1 0 0 0 0 0 0 0 2 1
  | LATCHrs_pn => row "rs_pn" 1 1 0 0 0 0 0 0 0 2 1
  | LATCHrs_np => row "rs_np" 1 1 0 0 0 0 0 0 0 2 1
  | LATCHrs_nn => row "rs_nn" 1 1 0 0 0 0 0 0 0 2 1
  | _ => None
  end%N.

(** The identifier of a cell type: null, of a standard gate, or of a type
    allocated at run time ([makeSoftType], [makeHardType]). *)
(* gate/model/celltype.h:864-880 [getCellTypeID, getCellTypeSID] *)
Inductive TypeID := NullTypeID | GateID (s : CellSymbol) | UserID (n : N).

#[export] Instance TypeID_eq_dec : EqDecision TypeID.
Proof. solve_decision. Defined.

#[export] Instance TypeID_countable : Countable TypeID.
Proof.
  refine (inj_countable'
    (λ t, match t with NullTypeID => inl () | GateID s => inr (inl s) | UserID n => inr (inr n) end)
    (λ c, match c with inl () => NullTypeID | inr (inl s) => GateID s | inr (inr n) => UserID n end) _).
  by intros [| |].
Defined.

(* gate/model/celltype.h:864-871 [getCellTypeID] *)
Definition getCellTypeID (symbol : CellSymbol) : TypeID :=
  match getCellType symbol with Some _ => GateID symbol | None => NullTypeID end.

(** The search of the standard gates by name, in the order of the list. *)
(* gate/model/celltype.h:886-892 [getSymbol] *)
Definition getSymbol (typeName : string) : option CellSymbol :=
  s ← list_find (λ s, name <$> getCellType s = Some typeName) gates; Some s.2.

(** *** Queries *)

(* gate/model/celltype.h:550-612 [CellType::isIn, ..., CellType::isUndef] *)
Definition isSym (s : CellSymbol) (t : CellType) : bool := code (symbol t) =? code s.

(** [isDff()], ..., [isLatchRs()]: the code without the flags. *)
(* gate/model/celltype.h:614-621 [CellType::isDff, ..., CellType::isLatchRs] *)
Definition is_base (base : Z) (t : CellType) : bool :=
  Z.ldiff (code (symbol t)) FLGMASK =? base.

(* gate/model/celltype.h:629-629 [CellType::isGate] *)
Definition isGate (t : CellType) : bool := cell (props t) && soft (props t).
(* gate/model/celltype.h:630-630 [CellType::isCell] *)
Definition isCell (t : CellType) : bool := cell (props t) && negb (soft (props t)).
(* gate/model/celltype.h:631-631 [CellType::isSoft] *)
Definition isSoft (t : CellType) : bool := negb (cell (props t)) && soft (props t).
(* gate/model/celltype.h:632-632 [CellType::isHard] *)
Definition isHard (t : CellType) : bool := negb (cell (props t)) && negb (soft (props t)).
(* gate/model/celltype.h:642-642 [CellType::isCmbGate] *)
Definition isCmbGate (t : CellType) : bool := isGate t && combinational (props t).
(* gate/model/celltype.h:643-643 [CellType::isSeqGate] *)
Definition isSeqGate (t : CellType) : bool := isGate t && negb (combinational (props t)).
(* gate/model/celltype.h:649-649 [CellType::isInNumFixed] *)
Definition isInNumFixed (t : CellType) : bool := negb (nIn t =? AnyArity)%N.
(* gate/model/celltype.h:651-651 [CellType::isOutNumFixed] *)
Definition isOutNumFixed (t : CellType) : bool := negb (nOut t =? AnyArity)%N.

(** *** Implementations *)

(* gate/model/celltype.h:654-654 [CellType::hasImpl] *)
Definition hasImpl (t : CellType) : bool := negb (implID t =? OBJ_NULL_ID).
(* gate/model/celltype.h:659-659 [CellType::isNet] *)
Definition isNet (t : CellType) : bool := checkTag NetID (implID t).
(* gate/model/celltype.h:668-668 [CellType::isSubnet] *)
Definition isSubnet (t : CellType) : bool := checkTag SubnetID (implID t).

Definition set_impl (t : CellType) (id : Z) : CellType :=
  mkCellType (name t) id (attr t) (symbol t) (props t) (nIn t) (nOut t).

(* gate/model/celltype.h:664-665 [CellType::setNet] *)
Definition setNet (t : CellType) (netID : Z) : CellType := set_impl t netID.
(* gate/model/celltype.h:673-674 [CellType::setSubnet] *)
Definition setSubnet (t : CellType) (subnetID : Z) : CellType := set_impl t subnetID.
(* gate/model/celltype.h:660-661 [CellType::getNetID] *)
Definition getNetID (t : CellType) : Z := implID t.
(* gate/model/celltype.h:669-670 [CellType::getSubnetID] *)
Definition getSubnetID (t : CellType) : Z := implID t.
(* gate/model/celltype.cpp:109-112 [CellType::getNet] *)
Definition getNet (t : CellType) : option Z := if isNet t then Some (implID t) else None.
(* gate/model/celltype.cpp:114-117 [CellType::getSubnet] *)
Definition getSubnet (t : CellType) : option Z := if isSubnet t then Some (implID t) else None.

(** *** Construction: the widths are truncated to [uint16_t] *)

(* gate/model/celltype.h:722-739 [makeCellType] *)
Definition makeCellType (symbol : CellSymbol) (name : string) (implID : Z)
    (attr : option CellTypeAttr) (props : CellProperties) (nIn nOut : N) : CellType :=
  mkCellType name implID attr symbol props (nIn mod 2 ^ 16)%N (nOut mod 2 ^ 16)%N.

(* gate/model/celltype.h:741-750 [makeSoftType(PortVector)] *)
Definition makeSoftType (symbol : CellSymbol) (name : string) (implID : Z)
    (ports : list Port) : option CellType :=
  attr ← CellTypeAttr_ports ports;
  nIn ← getInBitWidth ports;
  nOut ← getOutBitWidth ports;
  Some (makeCellType symbol name implID (Some attr)
          (mkProps false true false false false false false false false) nIn nOut).

(* gate/model/celltype.h:752-762 [makeSoftType(PortWidths, PortWidths)] *)
Definition makeSoftType_widths (symbol : CellSymbol) (name : string) (implID : Z)
    (widthIn widthOut : list N) : option CellType :=
  attr ← CellTypeAttr_widths widthIn widthOut;
  nIn ← getBitWidth widthIn;
  nOut ← getBitWidth widthOut;
  Some (makeCellType symbol name implID (Some attr)
          (mkProps false true false false false false false false false) nIn nOut).

(* gate/model/celltype.h:764-772 [makeSoftType(uint16_t, uint16_t)] *)
Definition makeSoftType_unary (symbol : CellSymbol) (name : string) (implID : Z)
    (widthArg widthRes : N) : option CellType :=
  makeSoftType_widths symbol name implID [widthArg] [widthRes].

(* gate/model/celltype.h:774-783 [makeSoftType(uint16_t, uint16_t, uint16_t)] *)
Definition makeSoftType_binary (symbol : CellSymbol) (name : string) (implID : Z)
    (widthLhs widthRhs widthRes : N) : option CellType :=
  makeSoftType_widths symbol name implID [widthLhs; widthRhs] [widthRes].

(* gate/model/celltype.h:785-795 [makeSoftType(uint16_t, uint16_t, uint16_t, uint16_t)] *)
Definition makeSoftType_ternary (symbol : CellSymbol) (name : string) (implID : Z)
    (widthArg1 widthArg2 widthArg3 widthRes : N) : option CellType :=
  makeSoftType_widths symbol name implID [widthArg1; widthArg2; widthArg3] [widthRes].

(* gate/model/celltype.h:797-805 [makeHardType(PortVector)] *)
Definition makeHardType (symbol : CellSymbol) (name : string)
    (ports : list Port) : option CellType :=
  attr ← CellTypeAttr_ports ports;
  nIn ← getInBitWidth ports;
  nOut ← getOutBitWidth ports;
  Some (makeCellType symbol name OBJ_NULL_ID (Some attr)
          (mkProps false false false false false false false false false) nIn nOut).

(* gate/model/celltype.h:807-816 [makeHardType(PortWidths, PortWidths)] *)
Definition makeHardType_widths (symbol : CellSymbol) (name : string)
    (widthIn widthOut : list N) : option CellType :=
  attr ← CellTypeAttr_widths widthIn widthOut;
  nIn ← getBitWidth widthIn;
  nOut ← getBitWidth widthOut;
  Some (makeCellType symbol name OBJ_NULL_ID (Some attr)
          (mkProps false false false false false false false false false) nIn nOut).

(* gate/model/celltype.h:818-825 [makeHardType(uint16_t, uint16_t)] *)
Definition makeHardType_unary (symbol : CellSymbol) (name : string)
    (widthArg widthRes : N) : option CellType :=
  makeHardType_widths symbol name [widthArg] [widthRes].

(* gate/model/celltype.h:827-835 [makeHardType(uint16_t, uint16_t, uint16_t)] *)
Definition makeHardType_binary (symbol : CellSymbol) (name : string)
    (widthLhs widthRhs widthRes : N) : option CellType :=
  makeHardType_widths symbol name [widthLhs; widthRhs] [widthRes].

(* gate/model/celltype.h:837-847 [makeHardType(uint16_t, uint16_t, uint16_t, uint16_t)] *)
Definition makeHardType_ternary (symbol : CellSymbol) (name : string)
    (widthArg1 widthArg2 widthArg3 widthRes : N) : option CellType :=
  makeHardType_widths symbol name [widthArg1; widthArg2; widthArg3] [widthRes].

(** ** Reference meaning of the combinational gates *)

Definition count_true (xs : list bool) : nat := length (filter (λ x, x = true) xs).

Definition xor_list (xs : list bool) : bool := foldr xorb false xs.

(** [None] for a symbol that is no combinational gate, or a wrong arity. *)
Definition gate_fun (s : CellSymbol) (xs : list bool) : option bool :=
  match s, xs with
  | ZERO, [] => Some false
  | ONE, [] => Some true
  | BUF, [x] => Some x
  | NOT, [x] => Some (negb x)
  | AND, _ :: _ => Some (forallb id xs)
  | OR, _ :: _ => Some (existsb id xs)
  | XOR, _ :: _ => Some (xor_list xs)
  | NAND, _ :: _ => Some (negb (forallb id xs))
  | NOR, _ :: _ => Some (negb (existsb id xs))
  | XNOR, _ :: _ => Some (negb (xor_list xs))
  | MAJ, _ :: _ => Some (length xs / 2 <? count_true xs)%nat
  | _, _ => None
  end.

(** The sequential symbols by polarity: [true] is the positive edge, the
    active level 1 or the reset value 1. *)
Definition dff (e : bool) := if e then DFF_p else DFF_n.
Definition sdff (e r v : bool) : CellSymbol :=
  match e, r, v with
  | true, true, false => sDFF_pp0 | true, true, true => sDFF_pp1
  | true, false, false => sDFF_pn0 | true, false, true => sDFF_pn1
  | false, true, false => sDFF_np0 | false, true, true => sDFF_np1
  | false, false, false => sDFF_nn0 | false, false, true => sDFF_nn1
  end.
Definition adff (e r v : bool) : CellSymbol :=
  match e, r, v with
  | true, true, false => aDFF_pp0 | true, true, true => aDFF_pp1
  | true, false, false => aDFF_pn0 | true, false, true => aDFF_pn1
  | false, true, false => aDFF_np0 | false, true, true => aDFF_np1
  | false, false, false => aDFF_nn0 | false, false, true => aDFF_nn1
  end.
Definition dffrs (e r s : bool) : CellSymbol :=
  match e, r, s with
  | true, true, true => DFFrs_ppp | true, true, false => DFFrs_ppn
  | true, false, true => DFFrs_pnp | true, false, false => DFFrs_pnn
  | false, true, true => DFFrs_npp | false, true, false => DFFrs_npn
  | false, false, true => DFFrs_nnp | false, false, false => DFFrs_nnn
  end.
Definition dlatch (e : bool) := if e then DLATCH_p else DLATCH_n.
Definition adlatch (e r v : bool) : CellSymbol :=
  match e, r, v with
  | true, true, false => aDLATCH_pp0 | true, true, true => aDLATCH_pp1
  | true, false, false => aDLATCH_pn0 | true, false, true => aDLATCH_pn1
  | false, true, false => aDLATCH_np0 | false, true, true => aDLATCH_np1
  | false, false, false => aDLATCH_nn0 | false, false, true => aDLATCH_nn1
  end.
Definition dlatchrs (e r s : bool) : CellSymbol :=
  match e, r, s with
  | true, true, true => DLATCHrs_ppp | true, true, false => DLATCHrs_ppn
  | true, false, true => DLATCHrs_pnp | true, false, false => DLATCHrs_pnn
  | false, true, true => DLATCHrs_npp | false, true, false => DLATCHrs_npn
  | false, false, true => DLATCHrs_nnp | false, false, false => DLATCHrs_nnn
  end.
Definition latchrs (r s : bool) : CellSymbol :=
  match r, s with
  | true, true => LATCHrs_pp | true, false => LATCHrs_pn
  | false, true => LATCHrs_np | false, false => LATCHrs_nn
  end.

(** ** Auxiliary lemmas *)

Lemma forallb_perm xs ys : xs ≡ₚ ys → forallb id xs = forallb id ys.
Proof. induction 1; cbn; try congruence. by rewrite !andb_assoc, (andb_comm (id x)). Qed.

Lemma existsb_perm xs ys : xs ≡ₚ ys → existsb id xs = existsb id ys.
Proof. induction 1; cbn; try congruence. by rewrite !orb_assoc, (orb_comm (id x)). Qed.

Lemma xor_list_perm xs ys : xs ≡ₚ ys → xor_list xs = xor_list ys.
Proof.
  unfold xor_list. induction 1; cbn; try congruence.
  by rewrite <- !xorb_assoc_reverse, (xorb_comm y).
Qed.

Lemma count_true_perm xs ys : xs ≡ₚ ys → count_true xs = count_true ys.
Proof. unfold count_true. by intros ->. Qed.

Lemma xor_list_app xs ys : xor_list (xs ++ ys) = xorb (xor_list xs) (xor_list ys).
Proof.
  unfold xor_list. induction xs as [|x xs IH]; cbn; [by destruct (foldr _ _ _)|].
  by rewrite IH, xorb_assoc.
Qed.

Lemma gate_fun_perm s xs ys : xs ≡ₚ ys → gate_fun s xs = gate_fun s ys.
Proof.
  intros Hp. destruct xs as [|x xs].
  { apply Permutation_nil_l in Hp. by subst. }
  destruct ys as [|y ys]; [by apply Permutation_nil_r in Hp|].
  pose proof (Permutation_length Hp) as Hl.
  pose proof (forallb_perm _ _ Hp) as Ha. pose proof (existsb_perm _ _ Hp) as Ho.
  pose proof (xor_list_perm _ _ Hp) as Hx. pose proof (count_true_perm _ _ Hp) as Hc.
  destruct s; cbn [gate_fun]; try congruence.
  - destruct xs, ys; cbn in Hl; try lia; try done. cbn in Ho. rewrite !orb_false_r in Ho.
    by f_equal.
  - destruct xs, ys; cbn in Hl; try lia; try done. cbn in Ho. rewrite !orb_false_r in Ho.
    unfold id in Ho. by subst.
Qed.

(** One case per row of the table of gates. *)
Ltac table_cases s Ht := destruct s; cbn in Ht; try done; injection Ht as <-; cbn.

Section Flags.
Context (s : CellSymbol) (t : CellType) (Ht : getCellType s = Some t).

Lemma combinational_exact :
  combinational (props t) = true ↔ ∃ xs y, gate_fun s xs = Some y.
Proof.
  table_cases s Ht; (split; [intros; try done|by intros (xs & y & Hy)]);
    first [exists []; by eexists|exists [true]; by eexists].
Qed.

Lemma constant_exact : constant (props t) = true ↔ is_Some (gate_fun s []).
Proof. table_cases s Ht; (split; [intros; by eauto|by intros []]). Qed.

Lemma identity_exact :
  identity (props t) = true ↔ ∀ x, gate_fun s [x] = Some x ∧ gate_fun s [x; x] = None.
Proof.
  table_cases s Ht; (split; [by intros|intros Hx; try done]);
    destruct (Hx true), (Hx false); done.
Qed.

Definition associates : Prop :=
  ∀ x y z, ∃ u v w, gate_fun s [x; y] = Some u ∧ gate_fun s [y; z] = Some v ∧
    gate_fun s [u; z] = Some w ∧ gate_fun s [x; v] = Some w.

Lemma associative_exact : s ≠ MAJ → associative (props t) = true ↔ associates.
Proof.
  unfold associates. intros Hm. table_cases s Ht; (split; [intros ?; try done|intros Ha; try done]).
  all: try (intros [] [] []; do 3 eexists; by split_all).
  all: destruct (Ha false true true) as (u & v & w & H1 & H2 & H3 & H4); cbn in *; try done.
  all: simplify_eq; try done.
  all: destruct (Ha false false true) as (u & v & w & H1 & H2 & H3 & H4); cbn in *; simplify_eq; done.
Qed.

(** Replacing a group of inputs by their own gate. *)
Definition regroups : Prop :=
  ∀ xs ys, xs ≠ [] → ys ≠ [] → ∃ u, gate_fun s xs = Some u ∧
    gate_fun s (u :: ys) = gate_fun s (xs ++ ys) ∧ is_Some (gate_fun s (xs ++ ys)).

Lemma regroupable_exact : regroupable (props t) = true ↔ regroups.
Proof.
  unfold regroups. table_cases s Ht; (split; [intros ?; try done|intros Hr; try done]).
  all: try by destruct (Hr [true; true] [true; true]) as (u & [= <-] & H2 & [z H3]).
  all: try by destruct (Hr [false; false] [true; true]) as (u & [= <-] & H2 & [z H3]).
  all: try by destruct (Hr [true; true; true] [false; false]) as (u & [= <-] & H2 & [z H3]).
  all: intros [|x xs] ys ? ?; [done|]; (eexists; split_all; [done| |by eexists]);
    cbn [gate_fun app]; do 2 f_equal; rewrite app_comm_cons.
  - rewrite forallb_app. done.
  - rewrite existsb_app. done.
  - rewrite xor_list_app. done.
Qed.
End Flags.

(** ** Theorems *)

(** The code of a symbol determines it and is a [uint16_t]; the generic
    codes of the sequential cells are their positive, active-high, reset-to-0
    specialisations; and the flag queries read back from the code of every
    specialisation its edge, its levels and its reset value, and its kind. *)
Theorem symbol_codes (e r v : bool) :
  Inj (=) (=) code ∧ (∀ s, 0 <= code s < 2 ^ 16) ∧
  [DFF_code; sDFF_code; aDFF_code; DFFrs_code; DLATCH_code; aDLATCH_code;
   DLATCHrs_code; LATCHrs_code]
  = code <$> [DFF_p; sDFF_pp0; aDFF_pp0; DFFrs_ppp; DLATCH_p; aDLATCH_pp0;
              DLATCHrs_ppp; LATCHrs_pp] ∧
  Forall (λ '(s, base), Z.ldiff (code s) FLGMASK = base)
    [(dff e, DFF_code); (sdff e r v, sDFF_code); (adff e r v, aDFF_code);
     (dffrs e r v, DFFrs_code); (dlatch e, DLATCH_code); (adlatch e r v, aDLATCH_code);
     (dlatchrs e r v, DLATCHrs_code); (latchrs r v, LATCHrs_code)] ∧
  Forall (λ s, getClkEdge (code s) = e) [dff e; sdff e r v; adff e r v; dffrs e r v] ∧
  Forall (λ s, getEnaLevel (code s) = e) [dlatch e; adlatch e r v; dlatchrs e r v] ∧
  Forall (λ s, getRstLevel (code s) = r)
    [sdff e r v; adff e r v; dffrs e r v; adlatch e r v; dlatchrs e r v; latchrs r v] ∧
  Forall (λ s, getRstValue (code s) = v) [sdff e r v; adff e r v; adlatch e r v] ∧
  Forall (λ s, getSetLevel (code s) = v) [dffrs e r v; dlatchrs e r v; latchrs r v].
Proof.
  split; [apply _|]. split; [intros s; destruct s; vm_compute; split; congruence|].
  destruct e, r, v; split_all; repeat constructor.
Qed.

(** [getNegSymbol] gives the gate with the negated output on every input,
    it is an involution, and it fails exactly for the symbols that are no
    constant and no AND/OR/XOR-like gate (MAJ included). *)
Theorem getNegSymbol_correct (s : CellSymbol) :
  (∀ s' xs, getNegSymbol s = Some s' →
     gate_fun s' xs = negb <$> gate_fun s xs ∧ getNegSymbol s' = Some s) ∧
  (getNegSymbol s = None ↔ s = MAJ ∨ ∀ xs, gate_fun s xs = None).
Proof.
  split.
  - intros s' xs Hs. destruct s; cbn in Hs; simplify_eq;
      (split; [|done]); destruct xs as [|x [|y xs]]; cbn; rewrite ?negb_involutive; done.
  - split.
    + destruct s; cbn; intros; try done; eauto.
    + intros [->|Hn]; [done|].
      destruct s; try done; (specialize (Hn []) as H0; specialize (Hn [true]) as H1; done).
Qed.

Lemma getNegSymbol_correct_witness :
  getNegSymbol XOR = Some XNOR ∧
  gate_fun XNOR [true; true; true] = negb <$> gate_fun XOR [true; true; true].
Proof. split; [done|]. by apply (proj1 (getNegSymbol_correct XOR) XNOR). Defined.

(** The property flags of the table of standard gates are exact for the
    meaning of the gates: a gate has the flag "combinational" iff it has a
    meaning, "constant" iff it has one without inputs, "identity" iff it is
    the identity; the flag "commutative" is set for every gate of unbounded arity
    and only for gates invariant under permutations of their inputs; the
    flag "associative" is set iff the binary AND-, OR- or XOR-like gate is
    associative; "regroupable" is set iff any group of inputs can be replaced
    by a gate of the same type over the group; and the flag "negative" is set iff the gate maps all-zero
    inputs to one (constants aside). *)
Theorem gate_flags_exact (s : CellSymbol) (t : CellType) :
  getCellType s = Some t →
  (combinational (props t) = true ↔ ∃ xs y, gate_fun s xs = Some y) ∧
  (constant (props t) = true ↔ is_Some (gate_fun s [])) ∧
  (identity (props t) = true ↔ ∀ x, gate_fun s [x] = Some x ∧ gate_fun s [x; x] = None) ∧
  (commutative (props t) = true ↔ nIn t = AnyArity) ∧
  (commutative (props t) = true → ∀ xs ys, xs ≡ₚ ys → gate_fun s xs = gate_fun s ys) ∧
  (s ≠ MAJ → (associative (props t) = true ↔
     associates s)) ∧
  (regroupable (props t) = true ↔ regroups s) ∧
  (negative (props t) = true ↔
     constant (props t) = false ∧ gate_fun s [false] = Some true).
Proof.
  intros Ht. split_all.
  - by apply combinational_exact.
  - by apply constant_exact.
  - by apply identity_exact.
  - table_cases s Ht; by split.
  - intros _ xs ys. apply gate_fun_perm.
  - by apply associative_exact.
  - by apply regroupable_exact.
  - table_cases s Ht; (split; [intros; by split|by intros []]).
Qed.

Lemma gate_flags_exact_witness :
  getCellType XNOR = Some (row "xnor" 1 1 1 0 0 1 1 0 1 65535 1 XNOR) ∧
  gate_fun XNOR [true; false; false] = gate_fun XNOR [false; true; false].
Proof.
  split; [done|].
  apply (gate_flags_exact XNOR (row "xnor" 1 1 1 0 0 1 1 0 1 65535 1 XNOR)); [done|done|].
  apply perm_swap.
Defined.

(** The names of the standard gates are distinct: [getSymbol] finds a gate by
    its name, finds no other, and fails for the other names; the type a symbol
    denotes has that symbol and is an elementary gate. *)
Theorem getSymbol_roundtrip (s : CellSymbol) (n : string) :
  (∀ t, getCellType s = Some t → getSymbol (name t) = Some s ∧ symbol t = s ∧ isGate t = true) ∧
  (getSymbol n = Some s ↔ ∃ t, getCellType s = Some t ∧ name t = n).
Proof.
  assert (∀ s t, getCellType s = Some t →
            getSymbol (name t) = Some s ∧ symbol t = s ∧ isGate t = true) as Hs.
  { intros r t Ht. table_cases r Ht; by vm_compute. }
  split; [apply Hs|]. split.
  - unfold getSymbol. intros ((i & r) & Hf & [= <-])%bind_Some.
    apply list_find_Some in Hf as (_ & Hr & _).
    cbn in Hr. apply fmap_Some in Hr as (t & Ht & ->). by exists t.
  - intros (t & Ht & <-). by apply Hs.
Qed.

(** The implementation slot of a cell type: after [setNet] with the
    identifier of a net the type is implemented by that net and by no subnet,
    and conversely for [setSubnet]; a null identifier is no implementation. *)
Theorem impl_slot (t : CellType) (sid : Z) :
  0 <= sid < 2 ^ 32 - 1 ->
  let net := makeFID NetID sid in
  let sub := makeFID SubnetID sid in
  getNet (setNet t net) = Some net ∧ getSubnet (setNet t net) = None ∧
  hasImpl (setNet t net) = true ∧
  getSubnet (setSubnet t sub) = Some sub ∧ getNet (setSubnet t sub) = None ∧
  hasImpl (setSubnet t sub) = true ∧
  getNet (setNet t NullFID) = None ∧ getSubnet (setSubnet t NullFID) = None ∧
  hasImpl (setNet t NullFID) = false.
Proof.
  intros Hs net sub.
  assert (∀ P Q, params_ok P = true → Bits P = 32 → 1 <= Tag Q →
            checkTag Q (makeFID P sid) = (Tag P =? Tag Q)) as Hc.
  { intros P Q HP HB HQ. unfold checkTag in *.
    pose proof (checkTag_makeFID P Q sid HP HQ) as H. unfold NullSID, checkTag in H.
    rewrite HB in H. rewrite H by lia. by rewrite (proj2 (Z.eqb_neq _ _)) by lia. }
  assert (∀ P, params_ok P = true → Bits P = 32 → makeFID P sid ≠ OBJ_NULL_ID) as Hn.
  { intros P HP HB. rewrite makeFID_add by (done || unfold NullSID; rewrite ?HB; lia).
    pose proof (params_bounds P HP). unfold OBJ_NULL_ID.
    assert (0 < 2 ^ Log2 P) by (apply Z.pow_pos_nonneg; lia). nia. }
  unfold getNet, getSubnet, isNet, isSubnet, hasImpl, setNet, setSubnet, set_impl, net, sub.
  cbn [implID]. rewrite !Hc by done. cbn.
  rewrite !(proj2 (Z.eqb_neq _ _)) by (apply Hn; done). by split_all.
Qed.

Lemma impl_slot_witness :
  let t := row "and" 1 1 1 0 0 1 1 1 0 65535 1 AND in
  let net := makeFID NetID 6 in
  let sub := makeFID SubnetID 6 in
  getNet (setNet t net) = Some net ∧ getSubnet (setNet t net) = None ∧
  hasImpl (setNet t net) = true ∧
  getSubnet (setSubnet t sub) = Some sub ∧ getNet (setSubnet t sub) = None ∧
  hasImpl (setSubnet t sub) = true ∧
  getNet (setNet t NullFID) = None ∧ getSubnet (setSubnet t NullFID) = None ∧
  hasImpl (setNet t NullFID) = false.
Proof. apply (impl_slot _ 6). lia. Defined.
