(* ===== verification/SubnetBase.v ===== *)
(** * Subnets ([gate/model/subnet_base.h], class [Subnet] of [gate/model/subnet.h])

    Links, cells and entries of a subnet, and the read-only subnet: an array of
    entries in topological order, the inputs first and the outputs last.  A cell
    keeps up to three links in place; further links are stored four per entry in
    the entries after the cell.

    Indices are [nat] (60 bits in the code, more than any array can hold), the
    output port is kept at its three bits, the reference count at its 20 bits.
    The assertions on the counts are there or not by the [Build]; where none is
    named, it is the one without them, in which the counts wrap around.
    Reading an entry as a cell
    when it holds links, or past the end, is [None]. *)

From S2P Require Import Prelude CellType.
From stdpp Require Import countable.

(** ** Links *)

(* gate/model/subnet_base.h:26-51 [SubnetLink] *)
Record Link := mkLink {
  idx : nat;
  out : nat;
  inv : bool;
}.

#[export] Instance Link_eq_dec : EqDecision Link.
Proof. solve_decision. Defined.

#[export] Instance Link_countable : Countable Link.
Proof.
  refine (inj_countable' (λ l, (idx l, out l, inv l)) (λ '(i, o, v), mkLink i o v) _).
  by intros [].
Defined.

(** [SubnetLink(idx, out, inv)]: the port is stored in a bit field of width 3. *)
(* gate/model/subnet_base.h:27-28 [SubnetLink::SubnetLink(EntryID, uint8_t, bool)] *)
Definition SubnetLink (i o : nat) (v : bool) : Link := mkLink i (o mod 8) v.

(* gate/model/subnet_base.h:29-31 [SubnetLink::SubnetLink(EntryID)] *)
Definition LinkTo (i : nat) : Link := SubnetLink i 0 false.

(* gate/model/subnet_base.h:33-35 [SubnetLink::operator~] *)
Definition link_not (l : Link) : Link := SubnetLink (idx l) (out l) (negb (inv l)).

Abbreviation LinkList := (list Link).

(** ** Cells and entries *)

(* gate/model/subnet_base.h:59-59 [SubnetCell::MaxArity] *)
Definition MaxArity : nat := 63.
(* gate/model/subnet_base.h:60-60 [SubnetCell::MaxRefCount] *)
Definition MaxRefCount : N := 2 ^ 20 - 1.
(* gate/model/subnet_base.h:62-62 [SubnetCell::InPlaceLinks] *)
Definition InPlaceLinks : nat := 3.
(* gate/model/subnet_base.h:63-63 [SubnetCell::InEntryLinks] *)
Definition InEntryLinks : nat := 4.

(* gate/model/subnet_base.h:55-130 [SubnetCell] *)
Record Cell := mkCell {
  arity : nat;
  more : nat;
  refcount : N;
  type : TypeID;
  links : LinkList;
}.

Definition pad3 (ls : LinkList) : LinkList :=
  take InPlaceLinks (ls ++ replicate InPlaceLinks (LinkTo 0)).

(* gate/model/subnet_base.h:66-82 [SubnetCell::SubnetCell] *)
Definition SubnetCell (typeID : TypeID) (ls : LinkList) : option Cell :=
  if bool_decide (length ls ≤ MaxArity ∧ (typeID ≠ GateID IN ∨ length ls = 0)) then
    Some (mkCell (length ls)
            ((length ls + (InEntryLinks - 1) - InPlaceLinks) / InEntryLinks)
            0 typeID (pad3 ls))
  else None.

(** [isIn()], [isOut()], ..., [isNull()]. *)
(* gate/model/subnet_base.h:84-93 [SubnetCell::isIn, ..., SubnetCell::isNull] *)
Definition cell_is (s : CellSymbol) (c : Cell) : bool := bool_decide (type c = GateID s).

(* gate/model/subnet_base.h:102-109 [SubnetCell::getInPlaceLinks] *)
Definition getInPlaceLinks (c : Cell) : LinkList := take (min (arity c) InPlaceLinks) (links c).

Definition set_refcount (n : N) (c : Cell) : Cell :=
  mkCell (arity c) (more c) n (type c) (links c).

(** [refcount++] and [refcount--] on the bit field. *)
Definition count_up (c : Cell) : Cell := set_refcount ((refcount c + 1) mod 2 ^ 20) c.
Definition count_down (c : Cell) : Cell := set_refcount ((refcount c + (2 ^ 20 - 1)) mod 2 ^ 20) c.

(** Whether the assertions on the reference counts are compiled in; a build with
    [NDEBUG] has none of them, and the counts wrap around. *)
Class Build := { count_asserts : bool }.

#[export] Instance release_build : Build := {| count_asserts := false |}.
Definition asserting_build : Build := {| count_asserts := true |}.

(* gate/model/subnet_base.h:111-114 [SubnetCell::incRefCount] *)
Definition incRefCount `{Build} (c : Cell) : option Cell :=
  if count_asserts && negb (refcount c <? MaxRefCount)%N then None else Some (count_up c).

(* gate/model/subnet_base.h:116-119 [SubnetCell::decRefCount] *)
Definition decRefCount `{Build} (c : Cell) : option Cell :=
  if count_asserts && (refcount c =? 0)%N then None else Some (count_down c).

(** An entry: a cell, the additional links of a cell, or not yet written. *)
(* gate/model/subnet_base.h:134-158 [SubnetEntry] *)
Inductive Entry := ECell (c : Cell) | ELinks (ls : LinkList) | EUninit.

(* gate/model/subnet_base.h:143-153 [SubnetEntry::SubnetEntry(links, startWith)] *)
Definition LinkEntry (ls : LinkList) (startWith : nat) : Entry :=
  ELinks (take InEntryLinks (drop startWith ls)).

Definition entry_cell (e : Entry) : option Cell :=
  match e with ECell c => Some c | _ => None end.

Definition entry_link (e : Entry) (j : nat) : option Link :=
  match e with
  | ELinks ls => ls !! j
  | _ => None
  end.

(** The types allocated at run time. *)
Class TypeStore := user_type : N → option CellType.

(** [CellType::get(typeID)]. *)
(* gate/model/subnet_base.h:95-96 [SubnetCell::getTypeID, SubnetCell::getType] *)
Definition getType `{TypeStore} (t : TypeID) : option CellType :=
  match t with
  | NullTypeID => None
  | GateID s => getCellType s
  | UserID n => user_type n
  end.

(** ** The read-only subnet *)

(* gate/model/subnet.h:36-158 [Subnet] *)
Record Subnet := mkSubnet {
  sn_nIn : nat;
  sn_nOut : nat;
  sn_nCell : nat;
  sn_nBuf : nat;
  sn_entries : list Entry;
}.

Module Net.

(* gate/model/subnet.h:41-47 [Subnet::getLinkIndices] *)
Definition getLinkIndices (i j : nat) : nat * nat :=
  if bool_decide (j < InPlaceLinks) then (i, j)
  else let k := j - InPlaceLinks in (i + 1 + k / InEntryLinks, k mod InEntryLinks).

(* gate/model/subnet.h:58-58 [Subnet::isTrivial] *)
Definition isTrivial (s : Subnet) : bool := sn_nCell s <=? sn_nIn s + sn_nOut s.

(* gate/model/subnet.h:61-61 [Subnet::size] *)
Definition size (s : Subnet) : nat := length (sn_entries s).

(* gate/model/subnet.h:73-73 [Subnet::getInIdx] *)
Definition getInIdx (s : Subnet) (i : nat) : nat := i.

(* gate/model/subnet.h:75-77 [Subnet::getOutIdx] *)
Definition getOutIdx (s : Subnet) (i : nat) : nat := size s - sn_nOut s + i.

(* gate/model/subnet.h:79-79 [Subnet::getMaxIdx] *)
Definition getMaxIdx (s : Subnet) : nat := size s - 1.

(* gate/model/subnet.h:82-82 [Subnet::getCell] *)
Definition getCell (s : Subnet) (i : nat) : option Cell := sn_entries s !! i ≫= entry_cell.

(* gate/model/subnet.cpp:24-33 [Subnet::getLink] *)
Definition getLink (s : Subnet) (i j : nat) : option Link :=
  c ← getCell s i;
  if bool_decide (j < InPlaceLinks) then links c !! j
  else let k := getLinkIndices i j in
       e ← sn_entries s !! k.1; entry_link e k.2.

(* gate/model/subnet.cpp:35-50 [Subnet::getLinks] *)
Definition getLinks (s : Subnet) (i : nat) : option LinkList :=
  c ← getCell s i; mapM (getLink s i) (seq 0 (arity c)).

(* gate/model/subnet.h:92-95 [Subnet::getIn] *)
Definition getIn (s : Subnet) (i : nat) : option Link :=
  if bool_decide (i < sn_nIn s) then Some (SubnetLink i 0 false) else None.

(* gate/model/subnet.h:98-101 [Subnet::getOut] *)
Definition getOut (s : Subnet) (i : nat) : option Link :=
  if bool_decide (i < sn_nOut s) then
    c ← getCell s (size s - sn_nOut s + i); links c !! 0
  else None.

(** The first cell after the inputs that is no constant decides. *)
(* gate/model/subnet.h:114-128 [Subnet::isTechMapped] *)
Fixpoint isTechMapped_loop `{TypeStore} (s : Subnet) (i n : nat) : option bool :=
  match n with
  | 0 => Some false
  | S n =>
    c ← getCell s i;
    if cell_is ZERO c || cell_is ONE c then isTechMapped_loop s (S i) n
    else t ← getType (type c); Some (negb (isGate t))
  end.

(* gate/model/subnet.h:110-129 [Subnet::isTechMapped] *)
Definition isTechMapped `{TypeStore} (s : Subnet) : option bool :=
  if isTrivial s then Some false
  else isTechMapped_loop s (sn_nIn s) (size s - sn_nOut s - sn_nIn s).

(** The minimum and maximum lengths of the paths from the cells without inputs
    to cell [i], with those of the cells before it in [mn] and [mx]. *)
(* gate/model/subnet.cpp:66-81 [Subnet::getPathLength] *)
Definition cell_length (s : Subnet) (mn mx : list nat) (i : nat) (c : Cell)
    : option (nat * nat) :=
  if arity c =? 0 then Some (0, 0)
  else
    r ← foldl (λ acc j,
          '(a, b) ← acc; l ← getLink s i j; x ← mn !! idx l; y ← mx !! idx l;
          Some (min a x, max b y))
        (Some (size s, 0)) (seq 0 (arity c));
    Some (if cell_is OUT c then r else (S r.1, S r.2)).

(** The loop over the entries; [skip] counts the link entries to pass over. *)
(* gate/model/subnet.cpp:63-89 [Subnet::getPathLength] *)
Fixpoint path_loop (s : Subnet) (es : list Entry) (i skip : nat) (mn mx : list nat)
    (lo hi : nat) : option (nat * nat) :=
  match es, skip with
  | [], _ => Some (lo, hi)
  | _ :: es, S skip => path_loop s es (S i) skip mn mx lo hi
  | ECell c :: es, 0 =>
    '(a, b) ← cell_length s mn mx i c;
    path_loop s es (S i) (more c) (<[i := a]> mn) (<[i := b]> mx)
      (if cell_is OUT c then min lo a else lo) (if cell_is OUT c then max hi b else hi)
  | _ :: _, 0 => None
  end.

(* gate/model/subnet.cpp:59-92 [Subnet::getPathLength] *)
Definition getPathLength (s : Subnet) : option (nat * nat) :=
  path_loop s (sn_entries s) 0 0 (replicate (size s) 0) (replicate (size s) 0) (size s) 0.

End Net.

(** ** Values *)

(** A valuation gives a value to every output of every entry. *)
Abbreviation valuation := (nat → nat → bool).

Definition lval (v : valuation) (l : Link) : bool := xorb (v (idx l) (out l)) (inv l).

Lemma lval_not v l : out l < 8 → lval v (link_not l) = negb (lval v l).
Proof.
  intros Ho. unfold lval, link_not, SubnetLink. rewrite Nat.mod_small by lia. cbn.
  by destruct (v _ _), (inv l).
Qed.

(** The function of a cell of a standard combinational gate; the outputs of the
    other cells (inputs, sequential and user-defined cells) are free. *)
Definition cell_fun (t : TypeID) (xs : list bool) : option bool :=
  match t with GateID s => gate_fun s xs | _ => None end.
