(* ===== verification/Builder.v ===== *)
(** * The subnet builder ([gate/model/subnet.h], [gate/model/subnet.cpp])

    The mutable form of a subnet: the array of entries with their descriptors
    (place in the topological order, depth, weight), the bounds of every depth in
    that order, the recycled entries, the fanouts and the map of structural
    hashing.  Every operation is a state transformer; a failed assertion or an
    out-of-range access is [None].

    [EntryID] is an index or one of the four sentinels at the top of the 64-bit
    range, which no array index reaches.  A depth is [None] for [invalidDepth].
    Weights (floats) are only moved around; they are numbers of type [N], 0 for
    0.0.  The data pointers, session marks and simulation signatures attached to
    an entry are read by no operation below and are not in the descriptor. *)

From S2P Require Import Prelude CellType SubnetBase.
From stdpp Require Import gmap countable.

(** ** Data *)

(* gate/model/subnet.h:1006-1010 [SubnetBuilder::invalidID, normalOrderID, lowerBoundID, upperBoundID] *)
Inductive EntryID := Idx (i : nat) | invalidID | normalOrderID | lowerBoundID | upperBoundID.

#[export] Instance EntryID_eq_dec : EqDecision EntryID.
Proof. solve_decision. Defined.

(** [entryID - 1] and [entryID + 1]. *)
Definition id_pred (i : nat) : EntryID := match i with 0 => invalidID | S i => Idx i end.
Definition id_succ (i : nat) : EntryID := Idx (S i).

Definition is_idx (e : EntryID) : bool := match e with Idx _ => true | _ => false end.

(** [d + 1] on [SubnetDepth]: [invalidDepth] is the maximum of the type. *)
Definition depth_succ (d : option nat) : nat := match d with Some n => S n | None => 0 end.

(* gate/model/subnet.h:1013-1088 [SubnetBuilder::EntryDescriptor] *)
Record EntryDescriptor := mkDesc {
  prev : EntryID;
  next : EntryID;
  depth : option nat;
  weight : N;
}.

(* gate/model/subnet.h:1014-1023 [EntryDescriptor::EntryDescriptor()] *)
Definition EntryDescriptor_default : EntryDescriptor := mkDesc normalOrderID normalOrderID None 0.

Definition set_prev (p : EntryID) (d : EntryDescriptor) := mkDesc p (next d) (depth d) (weight d).
Definition set_next (n : EntryID) (d : EntryDescriptor) := mkDesc (prev d) n (depth d) (weight d).
Definition set_depth (x : option nat) (d : EntryDescriptor) :=
  mkDesc (prev d) (next d) x (weight d).
Definition set_weight (w : N) (d : EntryDescriptor) := mkDesc (prev d) (next d) (depth d) w.

(** *** Structural hashing *)

(* gate/model/subnet.h:263-265 [StrashKey] *)
Record StrashKey := mkKey {
  key_type : TypeID;
  key_arity : nat;
  key_links : LinkList;
}.

#[export] Instance StrashKey_eq_dec : EqDecision StrashKey.
Proof. solve_decision. Defined.

#[export] Instance StrashKey_countable : Countable StrashKey.
Proof.
  refine (inj_countable' (λ k, (key_type k, key_arity k, key_links k))
            (λ '(t, a, l), mkKey t a l) _).
  by intros [].
Defined.

(* gate/model/subnet.h:220-224 [StrashKey::isEnabled(CellTypeID, LinkList)] *)
Definition isEnabled (t : TypeID) (ls : LinkList) : bool :=
  bool_decide (t ≠ GateID IN ∧ t ≠ GateID OUT ∧ length ls ≤ InPlaceLinks).

(* gate/model/subnet.h:226-230 [StrashKey::isEnabled(Cell)] *)
Definition isEnabled_cell (c : Cell) : bool :=
  negb (cell_is IN c) && negb (cell_is OUT c) && bool_decide (arity c ≤ InPlaceLinks).

(** The order of the links in a key: index, port, inversion. *)
(* gate/model/subnet.h:246-250 [StrashKey::StrashKey, comparison] *)
Definition link_lt (l r : Link) : bool :=
  if negb (idx l =? idx r) then idx l <? idx r
  else if negb (out l =? out r) then out l <? out r
  else negb (inv l) && inv r.

(** [std::sort]: the comparison is a total order on links, so that every
    sorting algorithm gives the list that insertion gives. *)
Fixpoint insert_link (x : Link) (ls : LinkList) : LinkList :=
  match ls with
  | [] => [x]
  | y :: ls => if link_lt y x then y :: insert_link x ls else x :: y :: ls
  end.

Definition sort_links (ls : LinkList) : LinkList := foldr insert_link [] ls.

Section Builder.
Context `{TypeStore}.

(* gate/model/subnet.h:236-252 [StrashKey::StrashKey(CellTypeID, LinkList)] *)
Definition makeKey (t : TypeID) (ls : LinkList) : option StrashKey :=
  if isEnabled t ls then
    ty ← getType t;
    Some (mkKey t (length ls) (pad3 (if commutative (props ty) then sort_links ls else ls)))
  else None.

(* gate/model/subnet.h:234-234 [StrashKey::StrashKey(Cell)] *)
Definition makeKey_cell (c : Cell) : option StrashKey := makeKey (type c) (getInPlaceLinks c).
End Builder.

(** *** The state *)

(** The session counter and flag concern the marks only. *)
(* gate/model/subnet.h:1090-1112 [SubnetBuilder] *)
Record SubnetBuilder := mkBuilder {
  b_nIn : nat;
  b_nOut : nat;
  nCell : nat;
  nBuf : nat;
  entries : list Entry;
  isDisassembled : bool;
  desc : list EntryDescriptor;
  fanouts : list (list nat);
  fanoutsEnabled : bool;
  depthBounds : list (EntryID * EntryID);
  emptyEntryIDs : list nat;
  subnetBegin : EntryID;
  subnetEnd : EntryID;
  strash : gmap StrashKey nat;
}.

Definition with_b_nIn (x : nat) (b : SubnetBuilder) : SubnetBuilder :=
    mkBuilder x (b_nOut b) (nCell b) (nBuf b) (entries b) (isDisassembled b) (desc b)
    (fanouts b) (fanoutsEnabled b) (depthBounds b) (emptyEntryIDs b) (subnetBegin b)
    (subnetEnd b) (strash b).
Definition with_b_nOut (x : nat) (b : SubnetBuilder) : SubnetBuilder :=
    mkBuilder (b_nIn b) x (nCell b) (nBuf b) (entries b) (isDisassembled b) (desc b)
    (fanouts b) (fanoutsEnabled b) (depthBounds b) (emptyEntryIDs b) (subnetBegin b)
    (subnetEnd b) (strash b).
Definition with_nCell (x : nat) (b : SubnetBuilder) : SubnetBuilder :=
    mkBuilder (b_nIn b) (b_nOut b) x (nBuf b) (entries b) (isDisassembled b) (desc b)
    (fanouts b) (fanoutsEnabled b) (depthBounds b) (emptyEntryIDs b) (subnetBegin b)
    (subnetEnd b) (strash b).
Definition with_nBuf (x : nat) (b : SubnetBuilder) : SubnetBuilder :=
    mkBuilder (b_nIn b) (b_nOut b) (nCell b) x (entries b) (isDisassembled b) (desc b)
    (fanouts b) (fanoutsEnabled b) (depthBounds b) (emptyEntryIDs b) (subnetBegin b)
    (subnetEnd b) (strash b).
Definition with_entries (x : list Entry) (b : SubnetBuilder) : SubnetBuilder :=
    mkBuilder (b_nIn b) (b_nOut b) (nCell b) (nBuf b) x (isDisassembled b) (desc b) (fanouts
    b) (fanoutsEnabled b) (depthBounds b) (emptyEntryIDs b) (subnetBegin b) (subnetEnd b)
    (strash b).
Definition with_isDisassembled (x : bool) (b : SubnetBuilder) : SubnetBuilder :=
    mkBuilder (b_nIn b) (b_nOut b) (nCell b) (nBuf b) (entries b) x (desc b) (fanouts b)
    (fanoutsEnabled b) (depthBounds b) (emptyEntryIDs b) (subnetBegin b) (subnetEnd b)
    (strash b).
Definition with_desc (x : list EntryDescriptor) (b : SubnetBuilder) : SubnetBuilder :=
    mkBuilder (b_nIn b) (b_nOut b) (nCell b) (nBuf b) (entries b) (isDisassembled b) x
    (fanouts b) (fanoutsEnabled b) (depthBounds b) (emptyEntryIDs b) (subnetBegin b)
    (subnetEnd b) (strash b).
Definition with_fanouts (x : list (list nat)) (b : SubnetBuilder) : SubnetBuilder :=
    mkBuilder (b_nIn b) (b_nOut b) (nCell b) (nBuf b) (entries b) (isDisassembled b) (desc
    b) x (fanoutsEnabled b) (depthBounds b) (emptyEntryIDs b) (subnetBegin b) (subnetEnd b)
    (strash b).
Definition with_fanoutsEnabled (x : bool) (b : SubnetBuilder) : SubnetBuilder :=
    mkBuilder (b_nIn b) (b_nOut b) (nCell b) (nBuf b) (entries b) (isDisassembled b) (desc
    b) (fanouts b) x (depthBounds b) (emptyEntryIDs b) (subnetBegin b) (subnetEnd b) (strash
    b).
Definition with_depthBounds (x : list (EntryID * EntryID)) (b : SubnetBuilder) : SubnetBuilder :=
    mkBuilder (b_nIn b) (b_nOut b) (nCell b) (nBuf b) (entries b) (isDisassembled b) (desc
    b) (fanouts b) (fanoutsEnabled b) x (emptyEntryIDs b) (subnetBegin b) (subnetEnd b)
    (strash b).
Definition with_emptyEntryIDs (x : list nat) (b : SubnetBuilder) : SubnetBuilder :=
    mkBuilder (b_nIn b) (b_nOut b) (nCell b) (nBuf b) (entries b) (isDisassembled b) (desc
    b) (fanouts b) (fanoutsEnabled b) (depthBounds b) x (subnetBegin b) (subnetEnd b)
    (strash b).
Definition with_subnetBegin (x : EntryID) (b : SubnetBuilder) : SubnetBuilder :=
    mkBuilder (b_nIn b) (b_nOut b) (nCell b) (nBuf b) (entries b) (isDisassembled b) (desc
    b) (fanouts b) (fanoutsEnabled b) (depthBounds b) (emptyEntryIDs b) x (subnetEnd b)
    (strash b).
Definition with_subnetEnd (x : EntryID) (b : SubnetBuilder) : SubnetBuilder :=
    mkBuilder (b_nIn b) (b_nOut b) (nCell b) (nBuf b) (entries b) (isDisassembled b) (desc
    b) (fanouts b) (fanoutsEnabled b) (depthBounds b) (emptyEntryIDs b) (subnetBegin b) x
    (strash b).
Definition with_strash (x : gmap StrashKey nat) (b : SubnetBuilder) : SubnetBuilder :=
    mkBuilder (b_nIn b) (b_nOut b) (nCell b) (nBuf b) (entries b) (isDisassembled b) (desc
    b) (fanouts b) (fanoutsEnabled b) (depthBounds b) (emptyEntryIDs b) (subnetBegin b)
    (subnetEnd b) x.

(** [SubnetBuilder()]. *)
(* gate/model/subnet.h:351-357 [SubnetBuilder::SubnetBuilder()] *)
Definition empty_builder : SubnetBuilder :=
  mkBuilder 0 0 0 0 [] false [] [] false [] [] invalidID invalidID ∅.

(** ** Access *)

(* gate/model/subnet.h:397-404 [SubnetBuilder::getCell] *)
Definition getCell (b : SubnetBuilder) (i : nat) : option Cell := entries b !! i ≫= entry_cell.

Definition getCellAt (b : SubnetBuilder) (e : EntryID) : option Cell :=
  match e with Idx i => getCell b i | _ => None end.

(* gate/model/subnet.h:407-409 [SubnetBuilder::getDepth] *)
Definition getDepth (b : SubnetBuilder) (i : nat) : option (option nat) := depth <$> desc b !! i.

(* gate/model/subnet.h:412-414 [SubnetBuilder::getFirstWithDepth] *)
Definition getFirstWithDepth (b : SubnetBuilder) (d : nat) : option EntryID :=
  fst <$> depthBounds b !! d.

(* gate/model/subnet.h:417-419 [SubnetBuilder::getLastWithDepth] *)
Definition getLastWithDepth (b : SubnetBuilder) (d : nat) : option EntryID :=
  snd <$> depthBounds b !! d.

(* gate/model/subnet.h:422-424 [SubnetBuilder::getWeight] *)
Definition getWeight (b : SubnetBuilder) (i : nat) : option N := weight <$> desc b !! i.

(** Updates of one element of a vector of the state. *)
Definition upd_desc (i : nat) (f : EntryDescriptor → EntryDescriptor) (b : SubnetBuilder)
    : option SubnetBuilder :=
  d ← desc b !! i; Some (with_desc (<[i := f d]> (desc b)) b).

Definition upd_cell (i : nat) (f : Cell → option Cell) (b : SubnetBuilder)
    : option SubnetBuilder :=
  c ← getCell b i; c' ← f c; Some (with_entries (<[i := ECell c']> (entries b)) b).

(* gate/model/subnet.h:427-429 [SubnetBuilder::setWeight] *)
Definition setWeight (i : nat) (w : N) : st SubnetBuilder unit := st_update (upd_desc i (set_weight w)).

(** *** The topological order *)

(* gate/model/subnet.h:938-940 [SubnetBuilder::getSubnetBegin] *)
Definition getSubnetBegin (b : SubnetBuilder) : EntryID :=
  if decide (subnetBegin b = normalOrderID) then Idx 0 else subnetBegin b.

(* gate/model/subnet.h:943-945 [SubnetBuilder::getSubnetEnd] *)
Definition getSubnetEnd (b : SubnetBuilder) : EntryID :=
  if decide (subnetEnd b = normalOrderID) then id_pred (length (entries b)) else subnetEnd b.

(* gate/model/subnet.cpp:1203-1214 [SubnetBuilder::getNext] *)
Definition getNext (b : SubnetBuilder) (e : EntryID) : option EntryID :=
  match e with
  | upperBoundID | invalidID | normalOrderID => None
  | lowerBoundID =>
    Some (if decide (getSubnetBegin b = invalidID) then upperBoundID else getSubnetBegin b)
  | Idx i =>
    if bool_decide (i < length (entries b)) then
      if decide (e = getSubnetEnd b) then Some upperBoundID
      else d ← desc b !! i; Some (if decide (next d = normalOrderID) then id_succ i else next d)
    else None
  end.

(* gate/model/subnet.cpp:1216-1227 [SubnetBuilder::getPrev] *)
Definition getPrev (b : SubnetBuilder) (e : EntryID) : option EntryID :=
  match e with
  | lowerBoundID | invalidID | normalOrderID => None
  | upperBoundID =>
    Some (if decide (getSubnetBegin b = invalidID) then lowerBoundID else getSubnetEnd b)
  | Idx i =>
    if bool_decide (i < length (entries b)) then
      if decide (e = getSubnetBegin b) then Some lowerBoundID
      else d ← desc b !! i; Some (if decide (prev d = normalOrderID) then id_pred i else prev d)
    else None
  end.

(** [n] times [getNext]. *)
(* gate/model/subnet.cpp:161-166 [EntryIterator::nextCell] *)
Fixpoint nextCell (b : SubnetBuilder) (n : nat) (e : EntryID) : option EntryID :=
  match n with
  | 0 => Some e
  | S n => e ← getNext b e; nextCell b n e
  end.

(* gate/model/subnet.cpp:1230-1232 [SubnetBuilder::setOrder] *)
Definition order_args_ok (first second : EntryID) : bool :=
  bool_decide (first ≠ upperBoundID ∧ second ≠ lowerBoundID ∧
    first ≠ invalidID ∧ first ≠ normalOrderID ∧ second ≠ invalidID ∧ second ≠ normalOrderID).

(* gate/model/subnet.cpp:1238-1242 [SubnetBuilder::setOrder] *)
Definition setOrder_begin (first second : EntryID) (b : SubnetBuilder) : SubnetBuilder :=
  if decide (second = getSubnetBegin b ∧ first ≠ lowerBoundID) then with_subnetBegin first b
  else if decide (first = lowerBoundID) then with_subnetBegin second b else b.

(* gate/model/subnet.cpp:1243-1247 [SubnetBuilder::setOrder] *)
Definition setOrder_end (first second : EntryID) (b : SubnetBuilder) : SubnetBuilder :=
  if decide (first = getSubnetEnd b ∧ second ≠ upperBoundID) then with_subnetEnd second b
  else if decide (second = upperBoundID) then with_subnetEnd first b else b.

(* gate/model/subnet.cpp:1248-1251 [SubnetBuilder::setOrder] *)
Definition setOrder_prev (first second : EntryID) (b : SubnetBuilder) : option SubnetBuilder :=
  match second with
  | upperBoundID => Some b
  | Idx j =>
    p ← getPrev b second;
    if decide (p = first) then Some b
    else upd_desc j (set_prev first) (with_isDisassembled true b)
  | _ => None
  end.

(* gate/model/subnet.cpp:1252-1255 [SubnetBuilder::setOrder] *)
Definition setOrder_next (first second : EntryID) (b : SubnetBuilder) : option SubnetBuilder :=
  match first with
  | lowerBoundID => Some b
  | Idx i =>
    n ← getNext b first;
    if decide (n = second) then Some b
    else upd_desc i (set_next second) (with_isDisassembled true b)
  | _ => None
  end.

(* gate/model/subnet.cpp:1229-1256 [SubnetBuilder::setOrder] *)
Definition setOrder (first second : EntryID) (b : SubnetBuilder) : option SubnetBuilder :=
  if order_args_ok first second then
    if decide (first = lowerBoundID ∧ second = upperBoundID) then
      Some (with_subnetBegin invalidID (with_subnetEnd invalidID b))
    else
      let b := setOrder_begin first second b in
      let b := setOrder_end first second b in
      b ← setOrder_prev first second b;
      setOrder_next first second b
  else None.

(* gate/model/subnet.cpp:1258-1262 [SubnetBuilder::placeAfter] *)
Definition placeAfter (e pivot : EntryID) (b : SubnetBuilder) : option SubnetBuilder :=
  if decide (pivot = upperBoundID) then None
  else
    n ← getNext b pivot;
    b ← setOrder e n b;
    setOrder pivot e b.

(* gate/model/subnet.cpp:1264-1268 [SubnetBuilder::placeBefore] *)
Definition placeBefore (e pivot : EntryID) (b : SubnetBuilder) : option SubnetBuilder :=
  if decide (pivot = lowerBoundID) then None
  else
    p ← getPrev b pivot;
    b ← setOrder p e b;
    setOrder e pivot b.

(** *** Links of a cell *)

(* gate/model/subnet.h:473-479 [SubnetBuilder::getLinkIndices] *)
Fixpoint getLinkIndices_loop (fuel : nat) (b : SubnetBuilder) (n : EntryID) (k : nat)
    : option (EntryID * nat) :=
  if bool_decide (InEntryLinks < k) then
    match fuel with
    | 0 => None
    | S fuel => n ← getNext b n; getLinkIndices_loop fuel b n (k - InEntryLinks)
    end
  else Some (n, k).

(** Every iteration decreases [k], so that [j] iterations are enough. *)
(* gate/model/subnet.h:467-481 [SubnetBuilder::getLinkIndices] *)
Definition getLinkIndices (b : SubnetBuilder) (i j : nat) : option (EntryID * nat) :=
  if bool_decide (j < InPlaceLinks) then Some (Idx i, j)
  else n ← getNext b (Idx i); getLinkIndices_loop j b n (j - InPlaceLinks).

Definition getEntry (b : SubnetBuilder) (e : EntryID) : option Entry :=
  match e with Idx i => entries b !! i | _ => None end.

(* gate/model/subnet.cpp:197-204 [SubnetBuilder::getLink] *)
Definition getLink (b : SubnetBuilder) (i j : nat) : option Link :=
  c ← getCell b i;
  if bool_decide (j < InPlaceLinks) then links c !! j
  else '(n, k) ← getLinkIndices b i j; e ← getEntry b n; entry_link e k.

(** The loop over the link entries: [m] links are left, [k] is the place in
    the entry [n]. *)
(* gate/model/subnet.cpp:215-226 [SubnetBuilder::getLinks] *)
Fixpoint getLinks_loop (b : SubnetBuilder) (n : EntryID) (k m : nat) : option LinkList :=
  match m with
  | 0 => Some []
  | S m =>
    e ← getEntry b n; l ← entry_link e k;
    if bool_decide (k + 1 = InEntryLinks) then
      n ← getNext b n; ls ← getLinks_loop b n 0 m; Some (l :: ls)
    else ls ← getLinks_loop b n (k + 1) m; Some (l :: ls)
  end.

(* gate/model/subnet.cpp:206-228 [SubnetBuilder::getLinks] *)
Definition getLinks (b : SubnetBuilder) (i : nat) : option LinkList :=
  c ← getCell b i;
  n ← getNext b (Idx i);
  ls ← getLinks_loop b n 0 (arity c - InPlaceLinks);
  Some (getInPlaceLinks c ++ ls).

(** ** Depth bounds *)

Definition upd_bounds (d : nat) (p : EntryID * EntryID) (b : SubnetBuilder) : option SubnetBuilder :=
  if bool_decide (d < length (depthBounds b)) then
    Some (with_depthBounds (<[d := p]> (depthBounds b)) b)
  else None.

(* gate/model/subnet.cpp:982-994 [SubnetBuilder::deleteDepthBounds] *)
Definition deleteDepthBounds (i : nat) (b : SubnetBuilder) : option SubnetBuilder :=
  d ← getDepth b i; d ← d;
  '(f, l) ← depthBounds b !! d;
  b ← (if decide (f = l) then upd_bounds d (invalidID, invalidID) b
       else if decide (f = Idx i) then n ← getNext b (Idx i); upd_bounds d (n, l) b
       else if decide (l = Idx i) then p ← getPrev b (Idx i); upd_bounds d (f, p) b
       else Some b);
  p ← getPrev b (Idx i);
  n ← getNext b (Idx i);
  setOrder p n b.

(** The loop passes the constants back to the first cell that is none.  Past
    the beginning of the order it reads the entry [lowerBoundID], which is out
    of range.  The loop visits an entry at most once. *)
(* gate/model/subnet.cpp:1015-1022 [SubnetBuilder::addDepthBounds] *)
Fixpoint skip_constants (fuel : nat) (b : SubnetBuilder) (e : EntryID) : option EntryID :=
  c ← getCellAt b e;
  if cell_is ZERO c || cell_is ONE c then
    match fuel with
    | 0 => None
    | S fuel => p ← getPrev b e; skip_constants fuel b p
    end
  else Some e.

Definition resize_bounds (d : nat) (b : SubnetBuilder) : SubnetBuilder :=
  with_depthBounds
    (depthBounds b ++ replicate (S d - length (depthBounds b)) (invalidID, invalidID)) b.

(** The place before the first cell of depth [d]. *)
(* gate/model/subnet.cpp:1007-1011 [SubnetBuilder::addDepthBounds] *)
Definition last_below (d : nat) (b : SubnetBuilder) : option EntryID :=
  match d with 0 => Some lowerBoundID | S d' => getLastWithDepth b d' end.

(* gate/model/subnet.cpp:996-1029 [SubnetBuilder::addDepthBounds] *)
Definition addDepthBounds (i : nat) (b : SubnetBuilder) : option SubnetBuilder :=
  c ← getCell b i;
  d ← getDepth b i; d ← d;
  let b := resize_bounds d b in
  if cell_is OUT c then placeAfter (Idx i) (getSubnetEnd b) b
  else
    '(f, l) ← depthBounds b !! d;
    if decide (f = invalidID) then
      b ← upd_bounds d (Idx i, Idx i) b;
      p ← last_below d b;
      placeAfter (Idx i) p b
    else
      pivot ← (if (d =? 0) && cell_is IN c then skip_constants (length (entries b)) b l else Some l);
      b ← placeAfter (Idx i) pivot b;
      if decide (l = pivot) then upd_bounds d (f, Idx i) b else Some b.

(** ** Fanouts *)

(* gate/model/subnet.cpp:1031-1041 [SubnetBuilder::addFanout] *)
Definition addFanout (source fanout : nat) (b : SubnetBuilder) : option SubnetBuilder :=
  if bool_decide (source < length (entries b) ∧ fanout < length (entries b)) then
    if fanoutsEnabled b then
      let fs := fanouts b ++ replicate (S source - length (fanouts b)) [] in
      l ← fs !! source;
      Some (with_fanouts (<[source := l ++ [fanout]]> fs) b)
    else Some b
  else None.

Fixpoint erase_first (x : nat) (l : list nat) : list nat :=
  match l with
  | [] => []
  | y :: l => if decide (y = x) then l else y :: erase_first x l
  end.

(* gate/model/subnet.cpp:1043-1056 [SubnetBuilder::delFanout] *)
Definition delFanout (source fanout : nat) (b : SubnetBuilder) : option SubnetBuilder :=
  if bool_decide (source < length (entries b) ∧ fanout < length (entries b)) then
    if fanoutsEnabled b then
      l ← fanouts b !! source;
      Some (with_fanouts (<[source := erase_first fanout l]> (fanouts b)) b)
    else Some b
  else None.

(* gate/model/subnet.h:457-463 [SubnetBuilder::getFanouts] *)
Definition getFanouts (b : SubnetBuilder) (i : nat) : option (list nat) :=
  if fanoutsEnabled b && bool_decide (i < length (entries b)) then
    Some (default [] (fanouts b !! i))
  else None.

(* gate/model/subnet.cpp:731-737 [SubnetBuilder::enableFanouts] *)
Fixpoint enableFanouts_loop (fuel : nat) (e : EntryID) (b : SubnetBuilder) : option SubnetBuilder :=
  match e with
  | upperBoundID | invalidID => Some b
  | Idx i =>
    match fuel with
    | 0 => None
    | S fuel =>
      ls ← getLinks b i;
      b ← foldl (λ b l, b ← b; addFanout (idx l) i b) (Some b) ls;
      n ← getNext b e;
      enableFanouts_loop fuel n b
    end
  | _ => None
  end.

(** The order holds an entry at most once: as many iterations as entries. *)
(* gate/model/subnet.cpp:728-738 [SubnetBuilder::enableFanouts] *)
Definition enableFanouts (b : SubnetBuilder) : option SubnetBuilder :=
  enableFanouts_loop (length (entries b)) (getSubnetBegin b) (with_fanoutsEnabled true b).

(* gate/model/subnet.cpp:740-743 [SubnetBuilder::disableFanouts] *)
Definition disableFanouts (b : SubnetBuilder) : SubnetBuilder :=
  with_fanoutsEnabled false (with_fanouts [] b).

(** ** Allocation *)

(* gate/model/subnet.cpp:1058-1072 [SubnetBuilder::allocEntry(bool)] *)
Definition allocEntry_buf (isBuf : bool) : st SubnetBuilder nat := λ b,
  let b := with_nCell (S (nCell b)) b in
  let b := if isBuf then with_nBuf (S (nBuf b)) b else b in
  match list.last (emptyEntryIDs b) with
  | Some i => Some (i, with_emptyEntryIDs (removelast (emptyEntryIDs b)) b)
  | None =>
    let b := with_entries (entries b ++ [EUninit]) b in
    let b := with_desc (desc b ++ [EntryDescriptor_default]) b in
    Some (length (entries b) - 1, b)
  end.

Section Operations.
Context `{TypeStore, Build}.

Definition is_buf (t : TypeID) : bool := bool_decide (t = GateID BUF).

(** The index found or allocated ([None] for [invalidID]), and whether it is
    new. *)
(* gate/model/subnet.cpp:1570-1587 [SubnetBuilder::strashEntry] *)
Definition strashEntry (t : TypeID) (ls : LinkList) : st SubnetBuilder (option nat * bool) :=
  if isEnabled t ls then
    key ← st_read (λ _, makeKey t ls);
    i ← st_gets (λ b, strash b !! key);
    match i with
    | Some i => mret (Some i, false)
    | None =>
      i ← allocEntry_buf (is_buf t);
      st_modify (λ b, with_strash (<[key := i]> (strash b)) b) ;;
      mret (Some i, true)
    end
  else mret (None, false).

(* gate/model/subnet.cpp:1589-1600 [SubnetBuilder::destrashEntry] *)
Definition destrashEntry (i : nat) (b : SubnetBuilder) : option SubnetBuilder :=
  c ← getCell b i;
  if isEnabled_cell c then
    key ← makeKey_cell c;
    if decide (strash b !! key = Some i) then Some (with_strash (delete key (strash b)) b)
    else Some b
  else Some b.

(** [std::max(d, n)] on depths. *)
Definition depth_max (d : option nat) (n : nat) : option nat := (λ m, max m n) <$> d.

(** One input link of a new cell: its depth, the fanout and the count. *)
(* gate/model/subnet.cpp:1099-1105 [SubnetBuilder::allocEntry] *)
Definition alloc_link (i : nat) (l : Link) (b : SubnetBuilder) : option SubnetBuilder :=
  d ← getDepth b i;
  dl ← getDepth b (idx l);
  b ← upd_desc i (set_depth (depth_max d (depth_succ dl))) b;
  c ← getCell b (idx l);
  if cell_is OUT c then None
  else
    b ← addFanout (idx l) i b;
    upd_cell (idx l) incRefCount b.

(** One more entry for the links from [j] on; [p] is the entry before it. *)
(* gate/model/subnet.cpp:1120-1128 [SubnetBuilder::allocEntry] *)
Fixpoint alloc_more (ls : LinkList) (d : nat) (js : list nat) (p : nat) (b : SubnetBuilder)
    : option SubnetBuilder :=
  match js with
  | [] => Some b
  | j :: js =>
    let n := length (entries b) in
    '(f, l) ← depthBounds b !! d;
    b ← (if decide (l = Idx (n - 1)) then upd_bounds d (f, Idx n) b else Some b);
    let b := with_entries (entries b ++ [LinkEntry ls j]) b in
    let b := with_desc (desc b ++ [EntryDescriptor_default]) b in
    b ← setOrder (Idx p) (Idx n) b;
    alloc_more ls d js n b
  end.

(** [InPlaceLinks], [InPlaceLinks + InEntryLinks], ... below [n]. *)
Definition more_starts (n : nat) : list nat :=
  (λ k, InPlaceLinks + k * InEntryLinks) <$>
    seq 0 ((n + (InEntryLinks - 1) - InPlaceLinks) / InEntryLinks).

(** The new entry [i] gets its depth, its links and its place. *)
(* gate/model/subnet.cpp:1088-1131 [SubnetBuilder::allocEntry] *)
Definition alloc_fill (t : TypeID) (ls : LinkList) (i : nat) (b : SubnetBuilder)
    : option SubnetBuilder :=
  b ← upd_desc i (set_depth (Some 0)) b;
  b ← foldl (λ b l, b ← b; alloc_link i l b) (Some b) ls;
  c ← SubnetCell t ls;
  let b := with_entries (<[i := ECell c]> (entries b)) b in
  b ← addDepthBounds i b;
  d ← getDepth b i; d ← d;
  if bool_decide (length ls ≤ InPlaceLinks) then Some b
  else
    n ← getNext b (Idx i);
    b ← alloc_more ls d (more_starts (length ls)) i b;
    setOrder (Idx (length (entries b) - 1)) n b.

(* gate/model/subnet.cpp:1075-1081 [SubnetBuilder::allocEntry] *)
Definition fixate (b : SubnetBuilder) : SubnetBuilder :=
  let b := if decide (subnetBegin b = normalOrderID) then with_subnetBegin (getSubnetBegin b) b
           else b in
  if decide (subnetEnd b = normalOrderID) then with_subnetEnd (getSubnetEnd b) b else b.

(* gate/model/subnet.cpp:1074-1132 [SubnetBuilder::allocEntry(CellTypeID, LinkList)] *)
Definition allocEntry (t : TypeID) (ls : LinkList) : st SubnetBuilder nat :=
  st_modify fixate ;;
  status ← strashEntry t ls;
  match status with
  | (Some i, false) => mret i
  | (status, _) =>
    i ← (match status with Some i => mret i | None => allocEntry_buf (is_buf t) end);
    st_update (alloc_fill t ls i) ;;
    mret i
  end.

(* gate/model/subnet.cpp:294-308 [SubnetBuilder::addCell] *)
Definition addCell (t : TypeID) (ls : LinkList) : st SubnetBuilder Link :=
  ty ← st_read (λ _, getType t);
  st_assert (negb (negative (props ty))) ;;
  i ← allocEntry t ls;
  st_modify (λ b, if decide (t = GateID IN) then with_b_nIn (S (b_nIn b)) b else b) ;;
  st_modify (λ b, if decide (t = GateID OUT) then with_b_nOut (S (b_nOut b)) b else b) ;;
  mret (LinkTo i).

(* gate/model/subnet.h:535-568 [SubnetBuilder::addCell(CellSymbol, ...)] *)
Definition addGate (s : CellSymbol) (ls : LinkList) : st SubnetBuilder Link :=
  addCell (getCellTypeID s) ls.

(* gate/model/subnet.h:514-516 [SubnetBuilder::addInput] *)
Definition addInput : st SubnetBuilder Link := addGate IN [].

(* gate/model/subnet.h:519-521 [SubnetBuilder::addOutput] *)
Definition addOutput (l : Link) : st SubnetBuilder Link := addGate OUT [l].

(* gate/model/subnet.h:571-577 [SubnetBuilder::addInputs] *)
Definition addInputs (n : nat) : st SubnetBuilder LinkList :=
  st_map (λ _, addInput) (seq 0 n).

(* gate/model/subnet.h:580-584 [SubnetBuilder::addOutputs] *)
Definition addOutputs (ls : LinkList) : st SubnetBuilder unit :=
  st_for ls (λ l, addOutput l ;; mret ()).

(* gate/model/subnet.cpp:262-275 [SubnetBuilder::addMultiOutputCell] *)
Definition addMultiOutputCell (t : TypeID) (ls : LinkList) : st SubnetBuilder LinkList :=
  ty ← st_read (λ _, getType t);
  l ← addCell t ls;
  mret (l :: ((λ i, SubnetLink (idx l) i false) <$> seq 1 (N.to_nat (nOut ty) - 1))).

(** The queue of the k-ary tree: the front of [linkList] from position [i] on. *)
(* gate/model/subnet.cpp:324-336 [SubnetBuilder::addCellTree] *)
Fixpoint addCellTree_loop (fuel : nat) (s : CellSymbol) (k : nat) (rest : LinkList)
    : st SubnetBuilder Link :=
  match rest, fuel with
  | [], _ => st_fail
  | [l], _ => mret l
  | _, 0 => st_fail
  | _, S fuel =>
    l ← addGate s (take k rest);
    addCellTree_loop fuel s k (drop k rest ++ [l])
  end.

(** With [k >= 2] an iteration shortens the queue, and the code's loop does not
    end for [k <= 1]. *)
(* gate/model/subnet.cpp:310-337 [SubnetBuilder::addCellTree] *)
Definition addCellTree (s : CellSymbol) (ls : LinkList) (k : nat) : st SubnetBuilder Link :=
  let maxTreeArity := if MaxArity <? k then MaxArity else k in
  if length ls <=? maxTreeArity then addGate s ls
  else
    ty ← st_read (λ _, getType (getCellTypeID s));
    st_assert (regroupable (props ty)) ;;
    addCellTree_loop (length ls) s maxTreeArity ls.

(** ** Deletion *)

(* gate/model/subnet.cpp:1134-1148 [SubnetBuilder::deallocEntry] *)
Definition deallocEntry (i : nat) (b : SubnetBuilder) : option SubnetBuilder :=
  c ← getCell b i;
  if (refcount c =? 0)%N then
    b ← destrashEntry i b;
    b ← deleteDepthBounds i b;
    b ← upd_desc i (set_depth None) b;
    let b := with_emptyEntryIDs (emptyEntryIDs b ++ [i]) b in
    let b := with_nCell (nCell b - 1) b in
    Some (if cell_is BUF c then with_nBuf (nBuf b - 1) b else b)
  else None.

(** One input of a deleted cell: the cells that are left without fanouts are
    put in the queue. *)
(* gate/model/subnet.cpp:1341-1350 [SubnetBuilder::deleteCell] *)
Definition delete_link (current : nat) (l : Link) (s : SubnetBuilder * list nat)
    : option (SubnetBuilder * list nat) :=
  b ← delFanout (idx l) current s.1;
  b ← upd_cell (idx l) decRefCount b;
  c ← getCell b (idx l);
  Some (b, if (refcount c =? 0)%N && negb (cell_is IN c) then s.2 ++ [idx l] else s.2).

(* gate/model/subnet.cpp:1332-1351 [SubnetBuilder::deleteCell] *)
Fixpoint deleteCell_loop (fuel : nat) (queue : list nat) (b : SubnetBuilder)
    : option SubnetBuilder :=
  match queue, fuel with
  | [], _ => Some b
  | _, 0 => None
  | i :: queue, S fuel =>
    c ← getCell b i;
    if bool_decide (arity c ≤ InPlaceLinks) then
      b ← deallocEntry i b;
      '(b, queue) ← foldl (λ s l, s ← s; delete_link i l s) (Some (b, queue)) (getInPlaceLinks c);
      deleteCell_loop fuel queue b
    else None
  end.

(** An entry enters the queue when its reference count becomes zero, which
    happens once: as many iterations as entries. *)
(* gate/model/subnet.cpp:1328-1352 [SubnetBuilder::deleteCell] *)
Definition deleteCell (i : nat) (b : SubnetBuilder) : option SubnetBuilder :=
  deleteCell_loop (length (entries b)) [i] b.

(** ** Relinking *)

(** An assignment through [getLinkRef]. *)
(* gate/model/subnet.cpp:978-980 [SubnetBuilder::getLinkRef] *)
Definition setLink (i j : nat) (l : Link) (b : SubnetBuilder) : option SubnetBuilder :=
  if bool_decide (j < InPlaceLinks) then
    upd_cell i (λ c, Some (mkCell (arity c) (more c) (refcount c) (type c) (<[j := l]> (links c)))) b
  else
    '(n, k) ← getLinkIndices b i j;
    match n with
    | Idx n =>
      e ← entries b !! n;
      match e with
      | ELinks ls =>
        if bool_decide (k < length ls) then
          Some (with_entries (<[n := ELinks (<[k := l]> ls)]> (entries b)) b)
        else None
      | _ => None
      end
    | _ => None
    end.

(* gate/model/subnet.cpp:1320-1325 [SubnetBuilder::relinkCell] *)
Definition relink_one (i : nat) (b : SubnetBuilder) (j : nat) (new : Link) : option SubnetBuilder :=
  l ← getLink b i j;
  b ← delFanout (idx l) i b;
  b ← setLink i j new b;
  addFanout (idx new) i b.

(* gate/model/subnet.cpp:1316-1326 [SubnetBuilder::relinkCell] *)
Definition relinkCell (i : nat) (newLinks : LinkList) (b : SubnetBuilder) : option SubnetBuilder :=
  c ← getCell b i;
  if bool_decide (arity c = length newLinks) then
    foldl (λ b '(j, l), b ← b; relink_one i b j l) (Some b) (imap pair newLinks)
  else None.

(** ** Depths of the fanouts *)

(** [toRecomputeN--] on [uint64_t]. *)
Definition dec64 (n : Z) : Z := ((n - 1) mod 2 ^ 64)%Z.

(* gate/model/subnet.cpp:1285-1297 [SubnetBuilder::recomputeFanoutDepths] *)
Definition new_depth (b : SubnetBuilder) (ls : LinkList) : option nat :=
  foldl (λ d l, d ← d; dl ← getDepth b (idx l); Some (max d (depth_succ dl))) (Some 0) ls.

Definition count_in (s : gset nat) (ls : LinkList) : nat :=
  length (filter (λ l, idx l ∈ s) ls).

(** [todo] is [toRecompute], [n] is [toRecomputeN]. *)
(* gate/model/subnet.cpp:1283-1313 [SubnetBuilder::recomputeFanoutDepths] *)
Fixpoint recompute_loop (fuel : nat) (todo : gset nat) (n : Z) (cur : EntryID) (b : SubnetBuilder)
    : option SubnetBuilder :=
  if (n =? 0)%Z then Some b
  else
    match fuel, cur with
    | S fuel, Idx i =>
      if decide (i ∈ todo) then x ← getNext b cur; recompute_loop fuel todo n x b
      else
        c ← getCell b i;
        d ← getDepth b i;
        ls ← getLinks b i;
        d' ← new_depth b ls;
        let n := Nat.iter (count_in todo ls) dec64 n in
        if decide (Some d' = d ∨ type c = GateID OUT) then
          b ← upd_desc i (set_depth (Some d')) b;
          x ← getNext b cur;
          recompute_loop fuel todo n x b
        else
          x ← getNext b cur;
          b ← deleteDepthBounds i b;
          b ← upd_desc i (set_depth (Some d')) b;
          b ← addDepthBounds i b;
          recompute_loop fuel ({[ i ]} ∪ todo) ((n + Z.of_N (refcount c)) mod 2 ^ 64)%Z x b
    | _, _ => None
    end.

(** The walk meets an entry at most twice: at its place, and at its new place
    after it has been moved further in the order. *)
(* gate/model/subnet.cpp:1270-1314 [SubnetBuilder::recomputeFanoutDepths] *)
Definition recomputeFanoutDepths (root : nat) (oldNext : EntryID) (b : SubnetBuilder)
    : option SubnetBuilder :=
  c ← getCell b root;
  if (refcount c =? 0)%N then Some b
  else recompute_loop (2 * length (entries b)) {[ root ]} (Z.of_N (refcount c)) oldNext b.

(** ** Replacement and merging of cells *)

(* gate/model/subnet.cpp:1376-1380 [SubnetBuilder::replaceCell] *)
Definition replace_new_link (i : nat) (l : Link) (s : SubnetBuilder * nat)
    : option (SubnetBuilder * nat) :=
  b ← addFanout (idx l) i s.1;
  b ← upd_cell (idx l) incRefCount b;
  d ← getDepth b (idx l);
  Some (b, max s.2 (depth_succ d)).

(* gate/model/subnet.cpp:1381-1388 [SubnetBuilder::replaceCell] *)
Definition replace_old_link (i : nat) (delZero : bool) (l : Link) (b : SubnetBuilder)
    : option SubnetBuilder :=
  _ ← getCell b (idx l);
  b ← delFanout (idx l) i b;
  b ← upd_cell (idx l) decRefCount b;
  c ← getCell b (idx l);
  if (refcount c =? 0)%N && negb (cell_is IN c) && delZero then deleteCell (idx l) b else Some b.

(** The new key is entered unless the map has it already. *)
(* gate/model/subnet.cpp:1393-1404 [SubnetBuilder::replaceCell] *)
Definition replace_strash (i : nat) (t oldType : TypeID) (ls oldLinks : LinkList)
    (b : SubnetBuilder) : option SubnetBuilder :=
  if isEnabled t ls then
    key ← makeKey t ls;
    _ ← makeKey oldType oldLinks;
    if decide (strash b !! key = None) then
      c ← getCell b i;
      key ← makeKey_cell c;
      Some (with_strash (<[key := i]> (strash b)) b)
    else Some b
  else _ ← ls !! 0; _ ← oldLinks !! 0; Some b.

(** The callbacks are called for their effect outside the builder only. *)
(* gate/model/subnet.cpp:1354-1428 [SubnetBuilder::replaceCell] *)
Definition replaceCell (i : nat) (t : TypeID) (ls : LinkList) (delZero : bool)
    : st SubnetBuilder Link := λ b,
  c ← getCell b i;
  if isEnabled t ls || bool_decide (t = GateID OUT ∧ type c = GateID OUT) then
    b ← destrashEntry i b;
    let b := if cell_is BUF c then with_nBuf (nBuf b - 1) b else b in
    let b := if is_buf t then with_nBuf (S (nBuf b)) b else b in
    oldNext ← getNext b (Idx i);
    oldLinks ← getLinks b i;
    oldDepth ← getDepth b i;
    '(b, d) ← foldl (λ s l, s ← s; replace_new_link i l s) (Some (b, 0)) ls;
    b ← foldl (λ b l, b ← b; replace_old_link i delZero l b) (Some b) oldLinks;
    c' ← SubnetCell t ls;
    let b := with_entries (<[i := ECell (set_refcount (refcount c) c')]> (entries b)) b in
    b ← replace_strash i t (type c) ls oldLinks b;
    if decide (oldDepth = Some d) then Some (LinkTo i, b)
    else
      b ← deleteDepthBounds i b;
      b ← upd_desc i (set_depth (Some d)) b;
      b ← addDepthBounds i b;
      b ← recomputeFanoutDepths i oldNext b;
      Some (LinkTo i, b)
  else None.

(** The map of the cells to merge: a removed cell to the one that remains. *)
(* gate/model/subnet.cpp:1153-1163 [SubnetBuilder::mergeCells] *)
Definition merge_map (m : list (nat * list nat)) (b : SubnetBuilder)
    : option (gmap nat nat * N) :=
  let single i := c ← getCell b i; ty ← getType (type c);
                  if (nOut ty =? 1)%N then Some (refcount c) else None in
  foldl (λ s '(remain, others),
    s ← s; _ ← single remain;
    if decide (remain ∈ others) then None
    else foldl (λ s other,
           '(mergeTo, n) ← s; rc ← single other;
           Some (if decide (is_Some (mergeTo !! other)) then mergeTo else <[other := remain]> mergeTo,
                 (n + rc) mod 2 ^ 32)%N)
           (Some s) others)
    (Some (∅, 0%N)) m.

(** The first entry of the order from [e] on that is to be removed. *)
(* gate/model/subnet.cpp:1166-1168 [SubnetBuilder::mergeCells] *)
Fixpoint merge_skip (fuel : nat) (mergeTo : gmap nat nat) (e : EntryID) (b : SubnetBuilder)
    : option EntryID :=
  match e, fuel with
  | upperBoundID, _ => Some e
  | Idx i, S fuel =>
    if decide (is_Some (mergeTo !! i)) then Some e
    else n ← getNext b e; merge_skip fuel mergeTo n b
  | _, _ => None
  end.

(** One link of a cell; the fanouts are updated after the link. *)
(* gate/model/subnet.cpp:1172-1193 [SubnetBuilder::mergeCells] *)
Definition merge_link (mergeTo : gmap nat nat) (i j : nat) (s : SubnetBuilder * N)
    : option (SubnetBuilder * N) :=
  let (b, n) := s in
  if (n =? 0)%N then Some s
  else
    l ← getLink b i j;
    match mergeTo !! idx l with
    | Some r =>
      _ ← getCell b r;
      b ← setLink i j (mkLink r (out l) (inv l)) b;
      b ← delFanout r i b;
      b ← upd_cell (idx l) decRefCount b;
      b ← addFanout r i b;
      b ← upd_cell r incRefCount b;
      Some (b, n - 1)%N
    | None => Some s
    end.

(* gate/model/subnet.cpp:1170-1194 [SubnetBuilder::mergeCells] *)
Fixpoint merge_loop (fuel : nat) (mergeTo : gmap nat nat) (e : EntryID) (s : SubnetBuilder * N)
    : option SubnetBuilder :=
  if (s.2 =? 0)%N then Some s.1
  else
    match e, fuel with
    | upperBoundID, _ => Some s.1
    | Idx i, S fuel =>
      c ← getCell s.1 i;
      s ← foldl (λ s j, s ← s; merge_link mergeTo i j s) (Some s) (seq 0 (arity c));
      n ← getNext s.1 e;
      merge_loop fuel mergeTo n s
    | _, _ => None
    end.

(** The argument lists the remaining cells with the cells merged into them; the
    code's unordered containers fix no order for either. *)
(* gate/model/subnet.cpp:1150-1201 [SubnetBuilder::mergeCells] *)
Definition mergeCells (m : list (nat * list nat)) (b : SubnetBuilder) : option SubnetBuilder :=
  '(mergeTo, n) ← merge_map m b;
  if (n =? 0)%N then None
  else
    let fuel := length (entries b) in
    e ← merge_skip fuel mergeTo (getSubnetBegin b) b;
    e ← (if decide (e = upperBoundID) then Some e else getNext b e);
    b ← merge_loop fuel mergeTo e (b, n);
    foldl (λ b other,
      b ← b; c ← getCell b other;
      if (refcount c =? 0)%N then deleteCell other b else None)
      (Some b) (fst <$> map_to_list mergeTo).

(* gate/model/subnet.cpp:718-721 [SubnetBuilder::replaceWithZero] *)
Definition replaceWithZero (ids : list nat) : st SubnetBuilder unit :=
  l ← addGate ZERO [];
  st_update (mergeCells [(idx l, ids)]).

(* gate/model/subnet.cpp:723-726 [SubnetBuilder::replaceWithOne] *)
Definition replaceWithOne (ids : list nat) : st SubnetBuilder unit :=
  l ← addGate ONE [];
  st_update (mergeCells [(idx l, ids)]).
End Operations.
