(* ===== verification/Order.v ===== *)
(** * The topological order of a builder as a list

    The order is kept in the descriptors as a doubly linked list whose default
    links ([normalOrderID]) mean the neighbouring indices.  [Linked b o] says
    that the links of [b] represent the list [o]; the theorems show that
    [getNext], [getPrev], [placeAfter] and the removal by [setOrder] are the
    operations of a list, and that they change nothing but the order. *)

From S2P Require Import Prelude CellType SubnetBase Builder.
From stdpp Require Import gmap.

(** ** Representation *)

Definition nextOf (b : SubnetBuilder) (i : nat) : option EntryID :=
  d ← desc b !! i; Some (if decide (next d = normalOrderID) then id_succ i else next d).

Definition prevOf (b : SubnetBuilder) (i : nat) : option EntryID :=
  d ← desc b !! i; Some (if decide (prev d = normalOrderID) then id_pred i else prev d).

Definition linked (b : SubnetBuilder) (x y : nat) : Prop :=
  nextOf b x = Some (Idx y) ∧ prevOf b y = Some (Idx x).

Fixpoint chain (b : SubnetBuilder) (x : nat) (o : list nat) : Prop :=
  match o with
  | [] => True
  | y :: o => linked b x y ∧ chain b y o
  end.

Definition chained (b : SubnetBuilder) (o : list nat) : Prop :=
  match o with [] => True | x :: o => chain b x o end.

Definition head_id (o : list nat) : EntryID :=
  match o with [] => invalidID | x :: _ => Idx x end.

Definition last_id (o : list nat) : EntryID :=
  match list.last o with None => invalidID | Some x => Idx x end.

Definition in_range (b : SubnetBuilder) : Prop := length (desc b) = length (entries b).

Record Linked (b : SubnetBuilder) (o : list nat) : Prop := {
  linked_desc : in_range b;
  linked_begin : subnetBegin b = head_id o;
  linked_end : subnetEnd b = last_id o;
  linked_chain : chained b o;
  linked_nodup : NoDup o;
  linked_range : ∀ x, x ∈ o → x < length (entries b);
}.

(** Everything but the order. *)
Definition core (b : SubnetBuilder) :=
  ((b_nIn b, b_nOut b, nCell b, nBuf b), (entries b, (λ d, (depth d, weight d)) <$> desc b),
   (fanouts b, fanoutsEnabled b, depthBounds b, emptyEntryIDs b, strash b)).

(** A link is changed only together with the flag [isDisassembled]. *)
Definition keeps (b b' : SubnetBuilder) : Prop :=
  core b' = core b ∧ (isDisassembled b' = false → isDisassembled b = false ∧ desc b' = desc b).

(** ** Auxiliary lemmas *)

#[export] Instance keeps_refl : Reflexive keeps.
Proof. by intros b. Qed.

#[export] Instance keeps_trans : Transitive keeps.
Proof.
  intros b1 b2 b3 [E1 H1] [E2 H2]. split; [congruence|]. intros Hd.
  destruct (H2 Hd) as [Hd2 ->]. by apply H1.
Qed.

Lemma core_entries b b' : core b' = core b → entries b' = entries b.
Proof. by intros [=]. Qed.

Lemma core_desc_length b b' : core b' = core b → length (desc b') = length (desc b).
Proof.
  intros [=]. erewrite <- (length_fmap _ (desc b')), <- (length_fmap _ (desc b)). by f_equal.
Qed.

Lemma core_in_range b b' : core b' = core b → in_range b → in_range b'.
Proof.
  intros Hc. unfold in_range. by rewrite (core_desc_length _ _ Hc), (core_entries _ _ Hc).
Qed.

Lemma core_depthBounds b b' : core b' = core b → depthBounds b' = depthBounds b.
Proof. by intros [=]. Qed.

Lemma core_with_depthBounds x b b' :
  core b' = core b → core (with_depthBounds x b') = core (with_depthBounds x b).
Proof. unfold core. cbn. intros [=]. congruence. Qed.

Lemma chain_app b x o1 y o2 :
  chain b x (o1 ++ y :: o2) ↔
  chain b x o1 ∧ linked b (default x (list.last o1)) y ∧ chain b y o2.
Proof.
  revert x; induction o1 as [|z o1 IH]; intros x; cbn [app chain]; [cbn; tauto|].
  rewrite IH. destruct o1 as [|w o1]; [cbn; tauto|].
  change (list.last (z :: w :: o1)) with (list.last (w :: o1)).
  destruct (list.last (w :: o1)) eqn:E; [cbn; tauto|].
  by apply last_None in E.
Qed.

Lemma chain_ext b b' x o :
  (∀ y z, linked b y z → y ∈ x :: o → z ∈ o → linked b' y z) → chain b x o → chain b' x o.
Proof.
  revert x; induction o as [|y o IH]; intros x Hl; [done|]. intros [Hxy Hc]. split.
  - apply Hl; [done|set_solver..].
  - apply IH; [|done]. intros u w Huw Hu Hw. apply Hl; [done|set_solver..].
Qed.

Lemma last_id_snoc o x : last_id (o ++ [x]) = Idx x.
Proof. unfold last_id. by rewrite last_snoc. Qed.

Lemma last_id_app o x l : last_id (o ++ x :: l) = last_id (x :: l).
Proof. unfold last_id. by rewrite last_app_cons. Qed.

Lemma last_id_in o : o ≠ [] → ∃ x, last_id o = Idx x ∧ x ∈ o.
Proof.
  intros Ho. unfold last_id. destruct (list.last o) as [x|] eqn:E.
  - exists x. split; [done|]. by apply last_Some_elem_of.
  - by apply last_None in E.
Qed.

Lemma last_id_not_normal o : last_id o ≠ normalOrderID.
Proof. unfold last_id. by destruct (list.last o). Qed.

Lemma head_id_not_normal o : head_id o ≠ normalOrderID.
Proof. by destruct o. Qed.

Section Queries.
Context (b : SubnetBuilder) (o : list nat) (HL : Linked b o).

Lemma getSubnetBegin_linked : getSubnetBegin b = head_id o.
Proof.
  unfold getSubnetBegin. rewrite (linked_begin _ _ HL).
  by rewrite decide_False by apply head_id_not_normal.
Qed.

Lemma getSubnetEnd_linked : getSubnetEnd b = last_id o.
Proof.
  unfold getSubnetEnd. rewrite (linked_end _ _ HL).
  by rewrite decide_False by apply last_id_not_normal.
Qed.

Lemma linked_at o1 x y o2 : o = o1 ++ x :: y :: o2 → linked b x y.
Proof.
  intros ->. pose proof (linked_chain _ _ HL) as Hc. destruct o1 as [|z o1]; cbn in Hc; [tauto|].
  apply chain_app in Hc as (_ & _ & Hc). cbn in Hc. tauto.
Qed.
End Queries.

(** *** The successor and the predecessor *)

Lemma getNext_linked b o1 x o2 :
  Linked b (o1 ++ x :: o2) →
  getNext b (Idx x) = Some (match o2 with [] => upperBoundID | y :: _ => Idx y end).
Proof.
  intros HL. unfold getNext.
  rewrite bool_decide_eq_true_2 by (apply (linked_range _ _ HL); set_solver).
  rewrite (getSubnetEnd_linked _ _ HL), last_id_app.
  pose proof (linked_nodup _ _ HL) as Hnd. apply NoDup_app in Hnd as (_ & _ & Hnd).
  apply NoDup_cons in Hnd as [Hx Hnd].
  destruct o2 as [|y o2]; [by rewrite decide_True by done|].
  rewrite decide_False; [by apply (linked_at _ _ HL o1 x y o2)|].
  intros E. destruct (last_id_in (y :: o2)) as (z & Ez & Hz); [done|].
  change (x :: y :: o2) with ([x] ++ y :: o2) in E. rewrite last_id_app, Ez in E.
  injection E as ->. done.
Qed.

Lemma getPrev_linked b o1 x o2 :
  Linked b (o1 ++ x :: o2) →
  getPrev b (Idx x) = Some (match list.last o1 with None => lowerBoundID | Some y => Idx y end).
Proof.
  intros HL. unfold getPrev.
  rewrite bool_decide_eq_true_2 by (apply (linked_range _ _ HL); set_solver).
  rewrite (getSubnetBegin_linked _ _ HL).
  pose proof (linked_nodup _ _ HL) as Hnd.
  destruct o1 as [|y o1 _] using rev_ind; [by rewrite decide_True by done|].
  rewrite last_snoc. rewrite <- app_assoc in HL, Hnd |- *. cbn [app] in HL, Hnd |- *.
  rewrite decide_False; [by apply (linked_at _ _ HL o1 y x o2)|].
  intros E. apply NoDup_app in Hnd as (_ & Hd & Hnd). apply NoDup_cons in Hnd as [Hy _].
  destruct o1 as [|z o1]; injection E as ->; [apply Hy; set_solver|].
  apply (Hd z); set_solver.
Qed.

Lemma getNext_lower b o :
  Linked b o → getNext b lowerBoundID = Some (match o with [] => upperBoundID | y :: _ => Idx y end).
Proof. intros HL. unfold getNext. rewrite (getSubnetBegin_linked _ _ HL). by destruct o. Qed.

(** *** Writing one link *)

Lemma getPrev_idx b j :
  j < length (entries b) → subnetBegin b ≠ normalOrderID → subnetBegin b ≠ Idx j →
  getPrev b (Idx j) = prevOf b j.
Proof.
  intros Hj Hn Hb. unfold getPrev, getSubnetBegin.
  rewrite bool_decide_eq_true_2 by done.
  rewrite (decide_False (P := subnetBegin b = normalOrderID)) by done.
  by rewrite decide_False by congruence.
Qed.

Lemma getNext_idx b j :
  j < length (entries b) → subnetEnd b ≠ normalOrderID → subnetEnd b ≠ Idx j →
  getNext b (Idx j) = nextOf b j.
Proof.
  intros Hj Hn Hb. unfold getNext, getSubnetEnd.
  rewrite bool_decide_eq_true_2 by done.
  rewrite (decide_False (P := subnetEnd b = normalOrderID)) by done.
  by rewrite decide_False by congruence.
Qed.

(** What writing the link before [j] leaves and changes. *)
Definition prev_written (p : nat) (j : nat) (b b' : SubnetBuilder) : Prop :=
  keeps b b' ∧ subnetBegin b' = subnetBegin b ∧ subnetEnd b' = subnetEnd b ∧
  prevOf b' j = Some (Idx p) ∧ (∀ k, k ≠ j → prevOf b' k = prevOf b k) ∧
  (∀ k, nextOf b' k = nextOf b k).

Definition next_written (i : nat) (n : nat) (b b' : SubnetBuilder) : Prop :=
  keeps b b' ∧ subnetBegin b' = subnetBegin b ∧ subnetEnd b' = subnetEnd b ∧
  nextOf b' i = Some (Idx n) ∧ (∀ k, k ≠ i → nextOf b' k = nextOf b k) ∧
  (∀ k, prevOf b' k = prevOf b k).

Lemma upd_desc_core i f b :
  i < length (desc b) → (∀ d, depth (f d) = depth d ∧ weight (f d) = weight d) →
  ∃ b', upd_desc i f (with_isDisassembled true b) = Some b' ∧ keeps b b' ∧
    subnetBegin b' = subnetBegin b ∧ subnetEnd b' = subnetEnd b ∧
    ∃ d, desc b !! i = Some d ∧ desc b' = <[i := f d]> (desc b).
Proof.
  intros Hi Hf. destruct (lookup_lt_is_Some_2 (desc b) i Hi) as [d Hd].
  unfold upd_desc. cbn [desc with_isDisassembled]. rewrite Hd. cbn [mbind option_bind].
  eexists; split; [done|]. split; [split; [|done]|by eauto].
  unfold core; cbn. do 2 f_equal. rewrite list_fmap_insert.
  destruct (Hf d) as [-> ->]. f_equal.
  apply list_insert_id. rewrite list_lookup_fmap, Hd. done.
Qed.

Lemma setOrder_prev_spec p j b :
  in_range b → j < length (entries b) → subnetBegin b ≠ normalOrderID → subnetBegin b ≠ Idx j →
  ∃ b', setOrder_prev (Idx p) (Idx j) b = Some b' ∧ prev_written p j b b'.
Proof.
  intros Hr Hj Hn Hb. unfold setOrder_prev. rewrite getPrev_idx by done.
  destruct (lookup_lt_is_Some_2 (desc b) j) as [d Hd]; [by rewrite Hr|].
  destruct (prevOf b j) as [q|] eqn:Eq; [|by unfold prevOf in Eq; rewrite Hd in Eq].
  cbn [mbind option_bind]. case_decide as Hq.
  { subst q. exists b. by split_all. }
  destruct (upd_desc_core j (set_prev (Idx p)) b) as (b' & -> & Hk & E1 & E2 & d' & Hd' & Ed);
    [by rewrite Hr|done|].
  exists b'. split; [done|]. unfold prev_written, next_written. split_all; [done..| | |].
  - unfold prevOf. rewrite Ed, list_lookup_insert_eq by (rewrite Hr; done). done.
  - intros k Hk'. unfold prevOf. by rewrite Ed, list_lookup_insert_ne by done.
  - intros k. unfold nextOf. rewrite Ed. destruct (decide (k = j)) as [->|].
    + rewrite list_lookup_insert_eq by (rewrite Hr; done). by rewrite Hd'.
    + by rewrite list_lookup_insert_ne by done.
Qed.

Lemma setOrder_next_spec i n b :
  in_range b → i < length (entries b) → subnetEnd b ≠ normalOrderID → subnetEnd b ≠ Idx i →
  ∃ b', setOrder_next (Idx i) (Idx n) b = Some b' ∧ next_written i n b b'.
Proof.
  intros Hr Hi Hn He. unfold setOrder_next. rewrite getNext_idx by done.
  destruct (lookup_lt_is_Some_2 (desc b) i) as [d Hd]; [by rewrite Hr|].
  destruct (nextOf b i) as [q|] eqn:Eq; [|by unfold nextOf in Eq; rewrite Hd in Eq].
  cbn [mbind option_bind]. case_decide as Hq.
  { subst q. exists b. by split_all. }
  destruct (upd_desc_core i (set_next (Idx n)) b) as (b' & -> & Hk & E1 & E2 & d' & Hd' & Ed);
    [by rewrite Hr|done|].
  exists b'. split; [done|]. unfold prev_written, next_written. split_all; [done..| | |].
  - unfold nextOf. rewrite Ed, list_lookup_insert_eq by (rewrite Hr; done). done.
  - intros k Hk'. unfold nextOf. by rewrite Ed, list_lookup_insert_ne by done.
  - intros k. unfold prevOf. rewrite Ed. destruct (decide (k = i)) as [->|].
    + rewrite list_lookup_insert_eq by (rewrite Hr; done). by rewrite Hd'.
    + by rewrite list_lookup_insert_ne by done.
Qed.

(** *** Insertion *)

Lemma chain_ext_at b b' x o :
  (∀ l1 y z l2, x :: o = l1 ++ y :: z :: l2 → linked b y z → linked b' y z) →
  chain b x o → chain b' x o.
Proof.
  revert x; induction o as [|y o IH]; intros x Hl; [done|]. intros [Hxy Hc]. split.
  - by apply (Hl []  x y o).
  - apply IH; [|done]. intros l1 u w l2 E. apply (Hl (x :: l1) u w l2). cbn. by rewrite E.
Qed.

Lemma chained_ext_at b b' o :
  (∀ l1 y z l2, o = l1 ++ y :: z :: l2 → linked b y z → linked b' y z) →
  chained b o → chained b' o.
Proof. destruct o as [|x o]; [done|]. apply chain_ext_at. Qed.

Lemma chained_split b l1 x l2 :
  chained b (l1 ++ x :: l2) ↔ chained b (l1 ++ [x]) ∧ chain b x l2.
Proof.
  destruct l1 as [|z l1]; cbn [chained app chain]; [tauto|].
  rewrite (chain_app b z l1 x l2), (chain_app b z l1 x []). cbn [chain]. tauto.
Qed.

Lemma NoDup_not_last (l1 l2 l : list nat) y z p :
  NoDup (l ++ [p]) → l ++ [p] = l1 ++ y :: z :: l2 → y ≠ p.
Proof.
  intros Hnd E ->. rewrite E in Hnd. apply NoDup_app in Hnd as (_ & _ & Hnd).
  apply NoDup_cons in Hnd as [Hp _]. apply Hp.
  assert (list.last (l ++ [p]) = Some p) as Hl by apply last_snoc.
  rewrite E, last_app_cons in Hl. change (list.last (z :: l2) = Some p) in Hl.
  by apply last_Some_elem_of.
Qed.

Lemma in_middle (o1 o2 l1 l2 : list nat) y z :
  o1 = l1 ++ y :: z :: l2 → y ∈ o1 ∧ z ∈ o1.
Proof. intros ->. split; set_solver. Qed.

(** The links written by an insertion of [e] between [o1 ++ [p]] and [o2]. *)
Lemma chained_insert b b' o1 p e o2 :
  NoDup (o1 ++ p :: o2) → e ∉ o1 ++ p :: o2 → chained b (o1 ++ p :: o2) →
  nextOf b' p = Some (Idx e) → prevOf b' e = Some (Idx p) →
  (∀ y o, o2 = y :: o → nextOf b' e = Some (Idx y) ∧ prevOf b' y = Some (Idx e)) →
  (∀ k, k ≠ p → k ≠ e → nextOf b' k = nextOf b k) →
  (∀ k, k ≠ e → head o2 ≠ Some k → prevOf b' k = prevOf b k) →
  chained b' (o1 ++ p :: e :: o2).
Proof.
  intros Hnd He Hc Hnp Hpe Hy Hn Hp. apply chained_split in Hc as [Hc1 Hc2].
  apply chained_split. assert (NoDup (o1 ++ [p])) as Hnd1.
  { change (p :: o2) with ([p] ++ o2) in Hnd. rewrite app_assoc in Hnd.
    by apply NoDup_app in Hnd as [? _]. }
  assert (∀ k, k ∈ o1 ++ [p] → head o2 ≠ Some k) as Hd.
  { intros k Hk Hh. destruct o2 as [|y o2]; [done|]. injection Hh as ->.
    change (p :: k :: o2) with ([p] ++ k :: o2) in Hnd. rewrite app_assoc in Hnd.
    apply NoDup_app in Hnd as (_ & Hd & _). apply (Hd k); [done|set_solver]. }
  split; [|split].
  - revert Hc1. apply chained_ext_at. intros l1 y z l2 E [H1 H2].
    pose proof (NoDup_not_last _ _ _ _ _ _ Hnd1 E) as Hyp.
    assert (y ∈ o1 ++ [p] ∧ z ∈ o1 ++ [p]) as [Hyi Hzi] by (rewrite E; split; set_solver).
    split; [rewrite Hn; [done..|set_solver]|rewrite Hp; [done|set_solver|by apply Hd]].
  - done.
  - destruct o2 as [|y o2]; [done|]. split; [by eapply Hy|].
    cbn [chain] in Hc2. destruct Hc2 as [_ Hc2]. revert Hc2. apply chain_ext_at.
    intros l1 u w l2 E [H1 H2].
    assert (u ∈ y :: o2 ∧ w ∈ y :: o2) as [Hu Hw] by (rewrite E; split; set_solver).
    assert (y ≠ w).
    { intros <-. change (p :: y :: o2) with ([p] ++ y :: o2) in Hnd.
      rewrite app_assoc in Hnd. apply NoDup_app in Hnd as (_ & _ & Hnd).
      destruct l1 as [|v l1]; injection E as E1 E2; subst.
      - apply NoDup_cons in Hnd as [Hnd _]. set_solver.
      - apply NoDup_cons in Hnd as [Hnd _]. set_solver. }
    assert (p ∉ y :: o2).
    { apply NoDup_app in Hnd as (_ & _ & Hnd). by apply NoDup_cons in Hnd as [? _]. }
    split; [rewrite Hn; [done|set_solver|set_solver]|rewrite Hp; [done|set_solver|cbn; congruence]].
Qed.

Lemma NoDup_insert_mid (o1 o2 : list nat) p e :
  NoDup (o1 ++ p :: o2) → e ∉ o1 ++ p :: o2 → NoDup (o1 ++ p :: e :: o2).
Proof.
  intros Hnd He.
  assert (o1 ++ p :: e :: o2 ≡ₚ e :: o1 ++ p :: o2) as ->.
  { change (p :: e :: o2) with ([p] ++ e :: o2). change (p :: o2) with ([p] ++ o2).
    rewrite !app_assoc. by rewrite Permutation_middle. }
  by apply NoDup_cons.
Qed.

Lemma order_args_idx (x y : nat) : order_args_ok (Idx x) (Idx y) = true.
Proof. done. Qed.

(** [setOrder x y] for two entries when [x] is not the last and [y] not the
    first: only the links are written. *)
Lemma setOrder_idx x y b :
  in_range b → x < length (entries b) → y < length (entries b) →
  subnetBegin b ≠ normalOrderID → subnetEnd b ≠ normalOrderID →
  subnetBegin b ≠ Idx y → subnetEnd b ≠ Idx x →
  ∃ b', setOrder (Idx x) (Idx y) b = Some b' ∧ keeps b b' ∧
    subnetBegin b' = subnetBegin b ∧ subnetEnd b' = subnetEnd b ∧
    nextOf b' x = Some (Idx y) ∧ prevOf b' y = Some (Idx x) ∧
    (∀ k, k ≠ x → nextOf b' k = nextOf b k) ∧ (∀ k, k ≠ y → prevOf b' k = prevOf b k).
Proof.
  intros Hr Hx Hy Hn1 Hn2 Hb He. unfold setOrder. rewrite order_args_idx.
  rewrite decide_False by by intros [? ?].
  unfold setOrder_begin, setOrder_end, getSubnetBegin, getSubnetEnd.
  rewrite (decide_False (P := subnetBegin b = normalOrderID)) by done.
  rewrite (decide_False (P := Idx y = _ ∧ _)) by (intros [? ?]; congruence).
  rewrite (decide_False (P := Idx x = lowerBoundID)) by done.
  rewrite (decide_False (P := subnetEnd b = normalOrderID)) by done.
  rewrite (decide_False (P := Idx x = _ ∧ _)) by (intros [? ?]; congruence).
  rewrite (decide_False (P := Idx y = upperBoundID)) by done.
  destruct (setOrder_prev_spec x y b) as (b1 & -> & Hk1 & B1 & E1 & P1 & Q1 & N1); [done..|].
  cbn [mbind option_bind].
  destruct (setOrder_next_spec x y b1) as (b2 & -> & Hk2 & B2 & E2 & N2 & M2 & P2).
  { by eapply core_in_range; [apply Hk1|]. }
  { by rewrite (core_entries b b1) by apply Hk1. }
  { congruence. } { congruence. }
  exists b2. split_all; [done|by etransitivity|congruence|congruence|done| | |].
  - by rewrite P2.
  - intros k Hk. by rewrite M2, N1.
  - intros k Hk. by rewrite P2, Q1.
Qed.

Lemma setOrder_upper x b :
  in_range b → x < length (entries b) → subnetBegin b ≠ normalOrderID →
  subnetBegin b ≠ upperBoundID → subnetEnd b ≠ normalOrderID →
  setOrder (Idx x) upperBoundID b = Some (with_subnetEnd (Idx x) b).
Proof.
  intros Hr Hx Hn1 Hb Hn2. unfold setOrder. change (order_args_ok _ _) with true. cbn iota.
  rewrite decide_False by by intros [? ?].
  unfold setOrder_begin, setOrder_end, getSubnetBegin, getSubnetEnd.
  rewrite (decide_False (P := subnetBegin b = normalOrderID)) by done.
  rewrite (decide_False (P := upperBoundID = _ ∧ _)) by (intros [? ?]; congruence).
  rewrite (decide_False (P := Idx x = lowerBoundID)) by done.
  rewrite (decide_False (P := subnetEnd b = normalOrderID)) by done.
  rewrite (decide_False (P := Idx x = _ ∧ _)) by by intros [? []].
  rewrite (decide_True (P := upperBoundID = upperBoundID)) by done.
  unfold setOrder_prev, setOrder_next, getNext, getSubnetEnd. cbn [mbind option_bind entries with_subnetEnd].
  rewrite bool_decide_eq_true_2 by done. cbn [subnetEnd with_subnetEnd].
  rewrite (decide_False (P := Idx x = normalOrderID)) by done.
  by rewrite !decide_True by done.
Qed.

(** [setOrder lowerBoundID x] for the first entry [x]. *)
Lemma setOrder_lower x b :
  x < length (entries b) → subnetBegin b ≠ normalOrderID → subnetEnd b ≠ normalOrderID →
  subnetEnd b ≠ lowerBoundID →
  setOrder lowerBoundID (Idx x) b = Some (with_subnetBegin (Idx x) b).
Proof.
  intros Hx Hn1 Hn2 He. unfold setOrder. change (order_args_ok _ _) with true. cbn iota.
  rewrite decide_False by by intros [? ?].
  unfold setOrder_begin, setOrder_end, getSubnetBegin, getSubnetEnd.
  rewrite (decide_False (P := subnetBegin b = normalOrderID)) by done.
  rewrite (decide_False (P := Idx x = _ ∧ _)) by by intros [? []].
  rewrite (decide_True (P := lowerBoundID = lowerBoundID)) by done.
  cbn [subnetEnd with_subnetBegin].
  rewrite (decide_False (P := subnetEnd b = normalOrderID)) by done.
  rewrite (decide_False (P := lowerBoundID = _ ∧ _)) by (intros [? ?]; congruence).
  rewrite (decide_False (P := Idx x = upperBoundID)) by done.
  unfold setOrder_prev, setOrder_next, getPrev, getSubnetBegin. cbn [entries with_subnetBegin].
  rewrite bool_decide_eq_true_2 by done. cbn [subnetBegin with_subnetBegin].
  rewrite (decide_False (P := Idx x = normalOrderID)) by done.
  by rewrite !decide_True by done.
Qed.

(** [setOrder x y] for an entry [x] outside of the order and the first [y]. *)
Lemma setOrder_first x y b :
  in_range b → x < length (entries b) → y < length (entries b) → x ≠ y →
  subnetBegin b = Idx y → subnetEnd b ≠ normalOrderID → subnetEnd b ≠ Idx x →
  ∃ b', setOrder (Idx x) (Idx y) b = Some b' ∧ keeps b b' ∧
    subnetBegin b' = Idx x ∧ subnetEnd b' = subnetEnd b ∧
    nextOf b' x = Some (Idx y) ∧ prevOf b' y = Some (Idx x) ∧
    (∀ k, k ≠ x → nextOf b' k = nextOf b k) ∧ (∀ k, k ≠ y → prevOf b' k = prevOf b k).
Proof.
  intros Hr Hx Hy Hxy Hb Hn2 He. unfold setOrder. rewrite order_args_idx.
  rewrite decide_False by by intros [? ?].
  unfold setOrder_begin, setOrder_end, getSubnetBegin, getSubnetEnd. rewrite Hb.
  rewrite (decide_False (P := Idx y = normalOrderID)) by done.
  rewrite (decide_True (P := Idx y = Idx y ∧ _)) by done.
  cbn [subnetEnd with_subnetBegin].
  rewrite (decide_False (P := subnetEnd b = normalOrderID)) by done.
  rewrite (decide_False (P := Idx x = _ ∧ _)) by (intros [? ?]; congruence).
  rewrite (decide_False (P := Idx y = upperBoundID)) by done.
  destruct (setOrder_prev_spec x y (with_subnetBegin (Idx x) b))
    as (b1 & -> & Hk1 & B1 & E1 & P1 & Q1 & N1); [done|done|done|cbn; congruence|].
  cbn [mbind option_bind].
  destruct (setOrder_next_spec x y b1) as (b2 & -> & Hk2 & B2 & E2 & N2 & M2 & P2).
  { by eapply core_in_range; [apply Hk1|]. }
  { by rewrite (core_entries _ b1 (proj1 Hk1)). }
  { cbn in E1; congruence. } { cbn in E1; congruence. }
  exists b2. split_all; [done|etransitivity; [exact Hk1|done]|cbn in *; congruence
    |cbn in *; congruence|done| | |].
  - by rewrite P2.
  - intros k Hk. by rewrite M2, N1.
  - intros k Hk. by rewrite P2, Q1.
Qed.

Lemma Linked_not_normal b o :
  Linked b o → subnetBegin b ≠ normalOrderID ∧ subnetEnd b ≠ normalOrderID ∧
    subnetBegin b ≠ upperBoundID ∧ subnetEnd b ≠ lowerBoundID.
Proof.
  intros HL. rewrite (linked_begin _ _ HL), (linked_end _ _ HL).
  split_all; [apply head_id_not_normal|apply last_id_not_normal|by destruct o|].
  unfold last_id. by destruct (list.last o).
Qed.

Lemma last_id_neq o e : e ∉ o → last_id o ≠ Idx e.
Proof.
  intros He E. destruct o as [|x o]; [done|].
  destruct (last_id_in (x :: o)) as (y & Ey & Hy); [done|]. congruence.
Qed.

Lemma head_id_neq o e : e ∉ o → head_id o ≠ Idx e.
Proof. intros He E. destruct o as [|x o]; [done|]. injection E as ->. set_solver. Qed.

(** The parts of [Linked] that an insertion keeps. *)
Lemma Linked_core b b' o e :
  Linked b o → core b' = core b → e < length (entries b) →
  in_range b' ∧ ∀ x, x = e ∨ x ∈ o → x < length (entries b').
Proof.
  intros HL Hc He. split; [by eapply core_in_range; [exact Hc|apply HL]|].
  intros x [->|Hx]; rewrite (core_entries _ _ Hc); [done|]. by apply (linked_range _ _ HL).
Qed.

(** [placeAfter] is the insertion of a list. *)
Lemma placeAfter_last b o1 p e :
  Linked b (o1 ++ [p]) → e ∉ o1 ++ [p] → e < length (entries b) →
  ∃ b', placeAfter (Idx e) (Idx p) b = Some b' ∧ Linked b' (o1 ++ [p; e]) ∧ keeps b b'.
Proof.
  intros HL He Hlt. destruct (Linked_not_normal _ _ HL) as (Hn1 & Hn2 & Hn3 & _).
  pose proof (linked_desc _ _ HL) as Hr. pose proof (linked_nodup _ _ HL) as Hnd.
  assert (subnetBegin b ≠ Idx e) as Hbe by (rewrite (linked_begin _ _ HL); by apply head_id_neq).
  assert (p < length (entries b)) as Hp by (apply (linked_range _ _ HL); set_solver).
  assert (p ≠ e) as Hpe by set_solver.
  unfold placeAfter. rewrite decide_False by done.
  rewrite (getNext_linked _ _ _ _ HL). cbn [mbind option_bind].
  rewrite setOrder_upper by done. cbn [mbind option_bind].
  destruct (setOrder_idx p e (with_subnetEnd (Idx e) b))
    as (b' & -> & Hk & B & E & N & P & NF & PF); [done..|cbn; congruence|].
  exists b'. split; [done|]. split; [|exact Hk].
  destruct (Linked_core b b' _ e HL (proj1 Hk) Hlt) as [Hr' Hin']. split.
  - done.
  - cbn in B. rewrite B, (linked_begin _ _ HL). by destruct o1.
  - cbn in E. rewrite E. change (o1 ++ [p; e]) with (o1 ++ [p] ++ [e]).
    by rewrite app_assoc, last_id_snoc.
  - eapply (chained_insert b); [done|done|apply HL|done|done|done| |].
    + intros k H1 H2. by rewrite NF.
    + intros k H1 H2. by rewrite PF.
  - by apply NoDup_insert_mid.
  - intros x Hx. apply Hin'. set_solver.
Qed.

Lemma placeAfter_mid b o1 p y o2 e :
  Linked b (o1 ++ p :: y :: o2) → e ∉ o1 ++ p :: y :: o2 → e < length (entries b) →
  ∃ b', placeAfter (Idx e) (Idx p) b = Some b' ∧ Linked b' (o1 ++ p :: e :: y :: o2) ∧ keeps b b'.
Proof.
  intros HL He Hlt. destruct (Linked_not_normal _ _ HL) as (Hn1 & Hn2 & Hn3 & _).
  pose proof (linked_desc _ _ HL) as Hr. pose proof (linked_nodup _ _ HL) as Hnd.
  assert (subnetBegin b ≠ Idx e) as Hbe by (rewrite (linked_begin _ _ HL); by apply head_id_neq).
  assert (subnetEnd b ≠ Idx e) as Hee by (rewrite (linked_end _ _ HL); by apply last_id_neq).
  assert (p < length (entries b)) as Hp by (apply (linked_range _ _ HL); set_solver).
  assert (y < length (entries b)) as Hy by (apply (linked_range _ _ HL); set_solver).
  assert (p ≠ e ∧ e ≠ y) as [Hpe Hey] by set_solver.
  assert (subnetBegin b ≠ Idx y) as Hby.
  { rewrite (linked_begin _ _ HL). destruct o1 as [|z o1]; cbn; intros [= ->];
      apply NoDup_cons in Hnd as [Hnd _]; set_solver. }
  assert (subnetEnd b ≠ Idx p) as Hep.
  { rewrite (linked_end _ _ HL). change (p :: y :: o2) with ([p] ++ y :: o2).
    rewrite app_assoc, last_id_app. apply last_id_neq.
    apply NoDup_app in Hnd as (_ & _ & Hnd). by apply NoDup_cons in Hnd as [? _]. }
  unfold placeAfter. rewrite decide_False by done.
  rewrite (getNext_linked _ _ _ _ HL). cbn [mbind option_bind].
  destruct (setOrder_idx e y b) as (b1 & -> & Hk1 & B1 & E1 & N1 & P1 & NF1 & PF1); [done..|].
  cbn [mbind option_bind].
  destruct (setOrder_idx p e b1) as (b2 & -> & Hk2 & B2 & E2 & N2 & P2 & NF2 & PF2);
    rewrite ?(core_entries _ _ (proj1 Hk1)), ?B1, ?E1; try done.
  { by eapply core_in_range; [apply Hk1|]. }
  assert (keeps b b2) as Hk by by etransitivity.
  exists b2. split; [done|]. split; [|done].
  destruct (Linked_core b b2 _ e HL (proj1 Hk) Hlt) as [Hr' Hin']. split.
  - done.
  - rewrite B2, B1, (linked_begin _ _ HL). by destruct o1.
  - rewrite E2, E1, (linked_end _ _ HL). change (p :: e :: y :: o2) with ([p; e] ++ y :: o2).
    change (p :: y :: o2) with ([p] ++ y :: o2). by rewrite !app_assoc, !last_id_app.
  - eapply (chained_insert b); [done|done|apply HL|done|done| | |].
    + intros z o [= <- <-]. rewrite NF2, PF2 by done. done.
    + intros k H1 H2. by rewrite NF2, NF1.
    + intros k H1 H2. rewrite PF2, PF1; [done|cbn in H2; congruence|done].
  - by apply NoDup_insert_mid.
  - intros x Hx. apply Hin'. set_solver.
Qed.

Lemma placeAfter_linked b o1 p o2 e :
  Linked b (o1 ++ p :: o2) → e ∉ o1 ++ p :: o2 → e < length (entries b) →
  ∃ b', placeAfter (Idx e) (Idx p) b = Some b' ∧ Linked b' (o1 ++ p :: e :: o2) ∧ keeps b b'.
Proof. destruct o2 as [|y o2]; [apply placeAfter_last|apply placeAfter_mid]. Qed.

(** [placeAfter] at the beginning of the order. *)
Lemma placeAfter_lower b o e :
  Linked b o → e ∉ o → e < length (entries b) →
  ∃ b', placeAfter (Idx e) lowerBoundID b = Some b' ∧ Linked b' (e :: o) ∧ keeps b b'.
Proof.
  intros HL He Hlt. destruct (Linked_not_normal _ _ HL) as (Hn1 & Hn2 & Hn3 & Hn4).
  pose proof (linked_desc _ _ HL) as Hr. pose proof (linked_nodup _ _ HL) as Hnd.
  unfold placeAfter. rewrite decide_False by done.
  rewrite (getNext_lower _ _ HL). cbn [mbind option_bind]. destruct o as [|y o].
  - rewrite setOrder_upper by done. cbn [mbind option_bind]. rewrite setOrder_lower by done.
    eexists; split; [done|]. split; [|done].
    split; [done..|apply NoDup_singleton|]. by intros x ->%list_elem_of_singleton.
  - assert (y < length (entries b)) as Hy by (apply (linked_range _ _ HL); set_solver).
    assert (subnetEnd b ≠ Idx e) as Hee by (rewrite (linked_end _ _ HL); by apply last_id_neq).
    assert (e ≠ y) as Hey by set_solver.
    destruct (setOrder_first e y b) as (b1 & -> & Hk1 & B1 & E1 & N1 & P1 & NF1 & PF1);
      [done..|apply HL|done|done|].
    cbn [mbind option_bind].
    rewrite setOrder_lower; [|by rewrite (core_entries _ _ (proj1 Hk1))|by rewrite B1|by rewrite E1..].
    eexists; split; [done|]. split; [|exact Hk1].
    destruct (Linked_core b b1 _ e HL (proj1 Hk1) Hlt) as [Hr' Hin']. split.
    + done.
    + done.
    + cbn. rewrite E1, (linked_end _ _ HL). change (e :: y :: o) with ([e] ++ y :: o).
      by rewrite last_id_app.
    + split; [done|]. pose proof (linked_chain _ _ HL) as Hc. cbn in Hc. revert Hc.
      apply chain_ext_at. intros l1 u w l2 E [H1 H2].
      assert (u ∈ y :: o ∧ w ∈ y :: o) as [Hu Hw] by (rewrite E; split; set_solver).
      assert (y ≠ w) by (destruct l1; injection E as E1' E2'; subst;
        apply NoDup_cons in Hnd as [Hnd _]; set_solver).
      split; [change (nextOf b1 u = Some (Idx w)); rewrite NF1; [done|set_solver]
             |change (prevOf b1 w = Some (Idx u)); rewrite PF1; done].
    + by apply NoDup_cons.
    + intros x Hx. apply Hin'. set_solver.
Qed.
