(* ===== verification/BuilderInv.v ===== *)
(** * The invariant of the subnet builder

    [WF b ins outs segs]: the order of [b] is the concatenation of the segments
    [segs] (the cells of each depth) followed by the output cells [outs]; the
    first segment starts with the input cells [ins], followed by constants; the
    bounds of the depths are the ends of the segments; the inputs of every cell
    lie in the segments, the depth of a cell is one more than the greatest depth
    of its inputs; the map of structural hashing leads to cells with the key;
    the reference counts are the numbers of links that lead to a cell (modulo
    the width of the field); and the entries are exactly the cells of the order
    and the recycled ones.  The invariant covers the cells whose links are all
    in place (at most three inputs). *)

From S2P Require Import Prelude CellType SubnetBase Builder Order.
From stdpp Require Import gmap.

(** ** Definitions *)

Section Inv.
Context `{TypeStore}.

(** Whether a cell of type [t] may have [n] inputs. *)
Definition valid_type (t : TypeID) (n : nat) : bool :=
  match t with
  | NullTypeID => false
  | GateID IN => n =? 0
  | GateID OUT => n =? 1
  | GateID s =>
    match getCellType s with
    | Some ty => if combinational (props ty)
                 then bool_decide (is_Some (gate_fun s (replicate n false))) else 0 <? n
    | None => false
    end
  | UserID u => bool_decide (is_Some (user_type u)) && (0 <? n)
  end.

Definition cell_ok (c : Cell) : Prop :=
  more c = 0 ∧ arity c ≤ InPlaceLinks ∧ length (links c) = InPlaceLinks ∧
  valid_type (type c) (arity c) = true ∧ Forall (λ l, out l < 8) (links c).

(** Number of links of the cells of [o] that lead to entry [i]. *)
Definition links_to (i : nat) (ls : LinkList) : nat := length (filter (λ l, idx l = i) ls).

Definition refs (b : SubnetBuilder) (o : list nat) (i : nat) : nat :=
  sum_list_with (λ j, match getCell b j with
                      | Some c => links_to i (getInPlaceLinks c) | None => 0 end) o.

Definition cell_type (b : SubnetBuilder) (i : nat) : option TypeID := type <$> getCell b i.

Definition count_bufs (b : SubnetBuilder) (o : list nat) : nat :=
  length (filter (λ i, cell_type b i = Some (GateID BUF)) o).

Definition order_of (segs : list (list nat)) (outs : list nat) : list nat := concat segs ++ outs.

(** The cell of an entry with the inputs in the segments. *)
Definition inputs_ok (segs : list (list nat)) (c : Cell) : Prop :=
  ∀ l, l ∈ getInPlaceLinks c → idx l ∈ concat segs.

Record WF (b : SubnetBuilder) (ins outs : list nat) (segs : list (list nat)) : Prop := {
  wf_linked : Linked b (order_of segs outs);
  wf_perm : order_of segs outs ++ emptyEntryIDs b ≡ₚ seq 0 (length (entries b));
  wf_bounds : depthBounds b = (λ seg, (head_id seg, last_id seg)) <$> segs;
  wf_seg : ∀ d seg i, segs !! d = Some seg → i ∈ seg →
    ∃ c, getCell b i = Some c ∧ cell_ok c ∧ type c ≠ GateID OUT ∧ inputs_ok segs c ∧
      getDepth b i = Some (Some d) ∧ new_depth b (getInPlaceLinks c) = Some d;
  wf_outs : ∀ i, i ∈ outs →
    ∃ c, getCell b i = Some c ∧ cell_ok c ∧ type c = GateID OUT ∧ inputs_ok segs c ∧
      ∃ d, getDepth b i = Some (Some d) ∧ new_depth b (getInPlaceLinks c) = Some d ∧
        d < length segs;
  wf_ins : ∃ consts, default [] (head segs) = ins ++ consts ∧
    (∀ i, i ∈ ins → cell_type b i = Some (GateID IN)) ∧
    (∀ i, i ∈ consts → cell_type b i = Some (GateID ZERO) ∨
                       cell_type b i = Some (GateID ONE));
  wf_strash : ∀ key i, strash b !! key = Some i →
    i ∈ concat segs ∧ (getCell b i ≫= makeKey_cell) = Some key;
  wf_refs : ∀ i c, i ∈ order_of segs outs → getCell b i = Some c →
    refcount c = (N.of_nat (refs b (order_of segs outs) i) mod 2 ^ 20)%N;
  wf_nums : b_nIn b = length ins ∧ b_nOut b = length outs ∧
    nCell b = length (order_of segs outs) ∧ nBuf b = count_bufs b (order_of segs outs);
  wf_normal : isDisassembled b = false →
    ∀ d, d ∈ desc b → prev d = normalOrderID ∧ next d = normalOrderID;
}.

Definition wf (b : SubnetBuilder) (ins outs : list nat) : Prop := ∃ segs, WF b ins outs segs.

(** An entry that can be the source of a link. *)
Definition is_live (b : SubnetBuilder) (i : nat) : Prop :=
  i < length (entries b) ∧ i ∉ emptyEntryIDs b.

Definition src (b : SubnetBuilder) (l : Link) : Prop :=
  is_live b (idx l) ∧ out l < 8 ∧
  ∃ c, getCell b (idx l) = Some c ∧ type c ≠ GateID OUT.

Definition srcs (b : SubnetBuilder) (ls : LinkList) : Prop := Forall (src b) ls.

(** A later state: the cells keep their types and links, no entry is recycled. *)
Definition same_cell (c c' : Cell) : Prop :=
  type c' = type c ∧ arity c' = arity c ∧ links c' = links c.

Definition grows (b b' : SubnetBuilder) : Prop :=
  length (entries b) ≤ length (entries b') ∧
  (emptyEntryIDs b = [] → emptyEntryIDs b' = []) ∧ fanoutsEnabled b' = fanoutsEnabled b.

Definition ext (b b' : SubnetBuilder) : Prop :=
  (∀ i c, is_live b i → getCell b i = Some c →
    is_live b' i ∧ ∃ c', getCell b' i = Some c' ∧ same_cell c c') ∧ grows b b'.

(** A valuation that satisfies every cell of a combinational gate. *)
Definition consistent (v : valuation) (b : SubnetBuilder) : Prop :=
  ∀ i c y, is_live b i → getCell b i = Some c →
    cell_fun (type c) (lval v <$> getInPlaceLinks c) = Some y → v i 0 = y.
End Inv.

(** ** Auxiliary lemmas *)

#[export] Instance ext_refl : Reflexive ext.
Proof. intros b. split; [|by split_all]. intros i c Hl Hc. split; [done|]. by exists c. Qed.

#[export] Instance ext_trans : Transitive ext.
Proof.
  intros b1 b2 b3 [H1 (G1 & G2 & G3)] [H2 (G4 & G5 & G6)].
  split; [|unfold grows; split_all; [lia|auto|congruence]]. intros i c Hl Hc.
  destruct (H1 i c Hl Hc) as (Hl2 & c2 & Hc2 & E1 & E2 & E3).
  destruct (H2 i c2 Hl2 Hc2) as (Hl3 & c3 & Hc3 & F1 & F2 & F3).
  split; [done|]. exists c3. unfold same_cell. split_all; congruence.
Qed.

Lemma src_ext b b' l : ext b b' → src b l → src b' l.
Proof.
  intros [He _] (Hl & Ho & c & Hc & Ht). destruct (He (idx l) c Hl Hc) as (Hl' & c' & Hc' & E & _).
  unfold src. split_all; [done..|]. exists c'. split; [done|congruence].
Qed.

Lemma srcs_ext b b' ls : ext b b' → srcs b ls → srcs b' ls.
Proof. intros He Hs. eapply Forall_impl; [exact Hs|]. intros l. by apply src_ext. Qed.

Lemma same_cell_links c c' : same_cell c c' → getInPlaceLinks c' = getInPlaceLinks c.
Proof. intros (_ & E1 & E2). unfold getInPlaceLinks. congruence. Qed.

Lemma consistent_ext v b b' : ext b b' → consistent v b' → consistent v b.
Proof.
  intros [He _] Hv i c y Hl Hc Hf. destruct (He i c Hl Hc) as (Hl' & c' & Hc' & Hs).
  apply (Hv i c' y Hl' Hc'). rewrite (same_cell_links _ _ Hs). by destruct Hs as [-> _].
Qed.

Lemma gate_fun_defined s xs ys :
  length xs = length ys → is_Some (gate_fun s xs) → is_Some (gate_fun s ys).
Proof.
  intros Hl. destruct xs as [|x [|x' xs]], ys as [|y [|y' ys]]; try done;
    destruct s; cbn; intros [z Hz]; by try eexists.
Qed.
