(* ===== verification/Make.v ===== *)
(** * From builders to subnets and back ([gate/model/subnet.cpp])

    [make] puts the entries in the topological order, without holes, and gives
    the read-only subnet; [addSubnet] copies a subnet into a builder. *)

From S2P Require Import Prelude CellType SubnetBase Builder.
From stdpp Require Import gmap.

(** ** Rearrangement *)

(** The variables of the loop of [rearrangeEntries]. *)
(* gate/model/subnet.cpp:1459-1473 [SubnetBuilder::rearrangeEntries] *)
Record Rearrange := mkRearrange {
  r_builder : SubnetBuilder;
  newEntries : list Entry;
  newDesc : list EntryDescriptor;
  entryMapping : list EntryID;
  saveMapping : list EntryID;
  relinkMapping : gmap nat (nat * bool);
  outVisited : bool;
  lastCellDepth : option nat;
  isLink : nat;
}.

Definition set_map (i : nat) (p : nat * bool) (r : Rearrange) : Rearrange :=
  mkRearrange (r_builder r) (newEntries r) (newDesc r) (entryMapping r) (saveMapping r)
    (<[i := p]> (relinkMapping r)) (outVisited r) (lastCellDepth r) (isLink r).

(** A deleted buffer is mapped to its source. *)
(* gate/model/subnet.cpp:1477-1489 [SubnetBuilder::rearrangeEntries] *)
Definition rearrange_buf (i : nat) (r : Rearrange) : option Rearrange :=
  ls ← getLinks (r_builder r) i;
  l ← ls !! 0;
  '(j, v) ← relinkMapping r !! idx l;
  let b := r_builder r in
  let b := with_nBuf (nBuf b - 1) (with_nCell (nCell b - 1) b) in
  Some (mkRearrange b (newEntries r) (newDesc r) (entryMapping r) (saveMapping r)
    (<[i := (j, xorb v (inv l))]> (relinkMapping r)) (outVisited r) (lastCellDepth r) (isLink r)).

(* gate/model/subnet.cpp:1494-1499 [SubnetBuilder::rearrangeEntries] *)
Definition rearrange_link (i : nat) (r : Rearrange) : option Rearrange :=
  e ← entries (r_builder r) !! i;
  Some (mkRearrange (r_builder r) (newEntries r ++ [e]) (newDesc r ++ [EntryDescriptor_default])
    (entryMapping r) (saveMapping r) (relinkMapping r) (outVisited r) (lastCellDepth r)
    (isLink r - min InEntryLinks (isLink r))).

Definition upd_entry_cell (i : nat) (f : Cell → option Cell) (es : list Entry) : option (list Entry) :=
  c ← es !! i ≫= entry_cell; c ← f c; Some (<[i := ECell c]> es).

Section Rearrange.
Context `{Build}.

(** One input link: the new link, the depth so far and the counts. *)
(* gate/model/subnet.cpp:1509-1523 [SubnetBuilder::rearrangeEntries] *)
Definition rearrange_in (nd : list EntryDescriptor)
    (s : LinkList * nat * list Entry * gmap nat (nat * bool)) (l : Link)
    : option (LinkList * nat * list Entry * gmap nat (nat * bool)) :=
  let '(newLinks, d, es, m) := s in
  let '(j, v) := default (idx l, false) (m !! idx l) in
  let newLinks := newLinks ++ [SubnetLink j (out l) (xorb v (inv l))] in
  let m := if decide (m !! idx l = None) then <[idx l := (0, false)]> m else m in
  '(k, _) ← m !! idx l;
  dk ← depth <$> nd !! k;
  es ← upd_entry_cell k incRefCount es;
  Some (newLinks, max d (depth_succ dk), es, m).

(** The bounds of the depths; the descriptor read is the old one at the new
    index. *)
(* gate/model/subnet.cpp:1525-1536 [SubnetBuilder::rearrangeEntries] *)
Definition rearrange_bounds (c : Cell) (d : nat) (r : Rearrange) : option (SubnetBuilder * bool) :=
  let b := r_builder r in
  let n := length (newEntries r) in
  match lastCellDepth r with
  | Some last =>
    if outVisited r then Some (b, true)
    else
      dn ← getDepth b n;
      if decide (dn = Some last) then Some (b, false)
      else
        '(f, _) ← depthBounds b !! last;
        b ← upd_bounds last (f, id_pred n) b;
        if cell_is OUT c then Some (b, true)
        else '(_, l) ← depthBounds b !! d; b ← upd_bounds d (Idx n, l) b; Some (b, false)
  | None => Some (b, outVisited r)
  end.

(* gate/model/subnet.cpp:1546-1554 [SubnetBuilder::rearrangeEntries] *)
Definition rearrange_mapping (i n : nat) (em sm : list EntryID) : option (list EntryID * list EntryID) :=
  match em with
  | [] => Some (em, sm)
  | _ =>
    x ← em !! n;
    if bool_decide (n < length sm) then
      let sm := <[n := x]> sm in
      y ← sm !! i;
      z ← em !! i;
      Some (<[n := if decide (y = invalidID) then z else y]> em, sm)
    else None
  end.

(* gate/model/subnet.cpp:1501-1555 [SubnetBuilder::rearrangeEntries] *)
Definition rearrange_cell (i : nat) (r : Rearrange) : option Rearrange :=
  let b := r_builder r in
  let n := length (newEntries r) in
  c ← getCell b i;
  w ← getWeight b i;
  oldLinks ← getLinks b i;
  '(newLinks, d, es, m) ←
    foldl (λ s l, s ← s; rearrange_in (newDesc r) s l)
      (Some ([], 0, newEntries r, relinkMapping r)) oldLinks;
  '(b, ov) ← rearrange_bounds c d r;
  b ← relinkCell i newLinks b;
  c ← getCell b i;
  '(em, sm) ← rearrange_mapping i n (entryMapping r) (saveMapping r);
  Some (mkRearrange b (es ++ [ECell (set_refcount 0 c)])
    (newDesc r ++ [mkDesc normalOrderID normalOrderID (Some d) w]) em sm m ov (Some d)
    (isLink r + (max (arity c) InPlaceLinks - InPlaceLinks))).

Definition is_buf_at (b : SubnetBuilder) (i : nat) : option bool := cell_is BUF <$> getCell b i.

(** One entry of the order. *)
(* gate/model/subnet.cpp:1474-1556 [SubnetBuilder::rearrangeEntries] *)
Definition rearrange_entry (deleteBufs : bool) (i : nat) (r : Rearrange) : option Rearrange :=
  buf ← (if deleteBufs && (isLink r =? 0) then is_buf_at (r_builder r) i
         else Some false : option bool);
  if buf : bool then rearrange_buf i r
  else
    let r := set_map i (length (newEntries r), false) r in
    if isLink r =? 0 then rearrange_cell i r else rearrange_link i r.

(* gate/model/subnet.cpp:1474-1556 [SubnetBuilder::rearrangeEntries] *)
Fixpoint rearrange_loop (fuel : nat) (deleteBufs : bool) (e : EntryID) (r : Rearrange)
    : option Rearrange :=
  match e, fuel with
  | upperBoundID, _ => Some r
  | Idx i, S fuel =>
    r ← rearrange_entry deleteBufs i r;
    n ← getNext (r_builder r) e;
    rearrange_loop fuel deleteBufs n r
  | _, _ => None
  end.

(* gate/model/subnet.cpp:1559-1568 [SubnetBuilder::clearContext] *)
Definition clearContext (b : SubnetBuilder) : SubnetBuilder :=
  disableFanouts (with_isDisassembled false (with_strash ∅
    (with_subnetEnd normalOrderID (with_subnetBegin normalOrderID (with_emptyEntryIDs [] b))))).

(** The order holds an entry at most once: as many iterations as entries. *)
(* gate/model/subnet.cpp:1456-1557 [SubnetBuilder::rearrangeEntries] *)
Definition rearrangeEntries (mapping : list EntryID) (deleteBufs : bool) (b : SubnetBuilder)
    : option (SubnetBuilder * list EntryID) :=
  r ← rearrange_loop (length (entries b)) deleteBufs (getSubnetBegin b)
        (mkRearrange b [] [] mapping (replicate (length mapping) invalidID) ∅ false None 0);
  Some (clearContext (with_desc (newDesc r) (with_entries (newEntries r) (r_builder r))),
        entryMapping r).

(** The cells [i], [i + 1 + more], ... below [n] all have the symbol [s]. *)
Fixpoint check_cells (fuel : nat) (s : CellSymbol) (b : SubnetBuilder) (i n : nat) : option bool :=
  if bool_decide (n ≤ i) then Some true
  else
    match fuel with
    | 0 => None
    | S fuel =>
      c ← getCell b i;
      if cell_is s c then check_cells fuel s b (S i + more c) n else Some false
    end.

(* gate/model/subnet.cpp:1430-1441 [SubnetBuilder::checkInputsOrder] *)
Definition checkInputsOrder (b : SubnetBuilder) : option bool :=
  check_cells (b_nIn b) IN b 0 (b_nIn b).

(** An underflow of [entries.size() - nOut] makes the loop empty. *)
(* gate/model/subnet.cpp:1443-1454 [SubnetBuilder::checkOutputsOrder] *)
Definition checkOutputsOrder (b : SubnetBuilder) : option bool :=
  if bool_decide (length (entries b) < b_nOut b) then Some true
  else check_cells (b_nOut b) OUT b (length (entries b) - b_nOut b) (length (entries b)).

(* gate/model/subnet.h:806-818 [SubnetBuilder::make] *)
Definition make_mapping (mapping : list EntryID) (deleteBufs : bool) (b : SubnetBuilder)
    : option (Subnet * list EntryID) :=
  if bool_decide (0 < b_nOut b ∧ entries b ≠ []) then
    '(b, mapping) ←
      (if isDisassembled b || deleteBufs then rearrangeEntries mapping deleteBufs b
       else Some (b, mapping));
    i ← checkInputsOrder b;
    o ← checkOutputsOrder b;
    if i && o then
      Some (mkSubnet (b_nIn b) (b_nOut b) (nCell b) (nBuf b) (entries b), mapping)
    else None
  else None.

(* gate/model/subnet.h:821-825 [SubnetBuilder::make] *)
Definition make (deleteBufs : bool) (b : SubnetBuilder) : option Subnet :=
  fst <$> make_mapping [] deleteBufs b.

End Rearrange.

(** ** Copying a subnet into a builder *)

Section AddSubnet.
Context `{TypeStore, Build}.

(** The subnets allocated at run time. *)
Variable subnet_get : Z → option Subnet.

(** An input of the subnet is replaced with the link it is connected to, another
    entry is shifted. *)
(* gate/model/subnet.cpp:353-364 [SubnetBuilder::addSubnet] *)
Definition map_link (nIn offset : nat) (ls : LinkList) (l : Link) : option Link :=
  if bool_decide (idx l < nIn) then
    x ← ls !! idx l; Some (mkLink (idx x) (out x) (xorb (inv x) (inv l)))
  else Some (mkLink (idx l + offset - nIn) (out l) (inv l)).

(* gate/model/subnet.cpp:373-380 [SubnetBuilder::addSubnet] *)
Definition destrash_key (t : TypeID) (ls : LinkList) (b : SubnetBuilder) : option SubnetBuilder :=
  if isEnabled t ls then
    key ← makeKey t ls;
    match strash b !! key with
    | Some i => destrashEntry i b
    | None => Some b
    end
  else Some b.

(** The loop over the entries from [i] on; [n] bounds the cells left, [size] is
    the number of entries of the builder at the start. *)
(* gate/model/subnet.cpp:350-388 [SubnetBuilder::addSubnet] *)
Fixpoint addSubnet_loop (addCells : TypeID → LinkList → st SubnetBuilder LinkList)
    (weightOf : nat → N) (sn : Subnet) (ls : LinkList) (size : nat) (n i : nat) (outs : LinkList)
    : st SubnetBuilder LinkList :=
  if bool_decide (Net.size sn ≤ i) then mret outs
  else
    match n with
    | 0 => st_fail
    | S n =>
      old ← st_read (λ _, Net.getLinks sn i);
      new ← st_read (λ _, mapM (map_link (sn_nIn sn) size ls) old);
      c ← st_read (λ _, Net.getCell sn i);
      if cell_is OUT c then
        o ← st_read (λ _, new !! 0);
        addSubnet_loop addCells weightOf sn ls size n (S (i + more c)) (outs ++ [o])
      else
        st_update (destrash_key (type c) new) ;;
        cs ← addCells (type c) new;
        l ← st_read (λ _, cs !! 0);
        setWeight (idx l) (weightOf (i + more c)) ;;
        addSubnet_loop addCells weightOf sn ls size n (S (i + more c)) outs
    end.

(* gate/model/subnet.cpp:340-390 [SubnetBuilder::addSubnet] *)
Definition addSubnet_with (addCells : TypeID → LinkList → st SubnetBuilder LinkList)
    (weightOf : nat → N) (sn : Subnet) (ls : LinkList) : st SubnetBuilder LinkList :=
  size ← st_gets (λ b, length (entries b));
  addSubnet_loop addCells weightOf sn ls size (Net.size sn) (sn_nIn sn) [].

(** [addSubnet] without an inlining predicate. *)
(* gate/model/subnet.cpp:340-390 [SubnetBuilder::addSubnet] *)
Definition addSubnet (weightOf : nat → N) (sn : Subnet) (ls : LinkList) : st SubnetBuilder LinkList :=
  addSubnet_with addMultiOutputCell weightOf sn ls.

(** The recursion through the implementations of the cell types; [fuel] bounds
    the nesting of the implementations. *)
(* gate/model/subnet.cpp:277-292 [SubnetBuilder::addCellRecursively] *)
Fixpoint addCellRecursively (fuel : nat) (inline : TypeID → bool) (t : TypeID) (ls : LinkList)
    : st SubnetBuilder LinkList :=
  ty ← st_read (λ _, getType t);
  if hasImpl ty && isSubnet ty && inline t then
    match fuel with
    | 0 => st_fail
    | S fuel =>
      sn ← st_read (λ _, CellType.getSubnet ty ≫= subnet_get);
      addSubnet_with (addCellRecursively fuel inline) (λ _, 0%N) sn ls
    end
  else addMultiOutputCell t ls.

(* gate/model/subnet.cpp:392-396 [SubnetBuilder::addSingleOutputSubnet] *)
Definition addSingleOutputSubnet (sn : Subnet) (ls : LinkList) : st SubnetBuilder Link :=
  st_assert (sn_nOut sn =? 1) ;;
  outs ← addSubnet (λ _, 0%N) sn ls;
  st_read (λ _, outs !! 0).

(* gate/model/subnet.h:355-362 [SubnetBuilder::SubnetBuilder(Subnet)] *)
Definition builder_of_subnet (weightOf : nat → N) (sn : Subnet) : st SubnetBuilder unit :=
  inputs ← addInputs (sn_nIn sn);
  outputs ← addSubnet weightOf sn inputs;
  addOutputs outputs.
End AddSubnet.

(** [makeConstSubnet<symbol>(nIn)]; the cache keeps the subnets made. *)
(* gate/model/subnet.cpp:169-183 [makeConstSubnet] *)
Definition makeConstSubnet `{TypeStore} (s : CellSymbol) (n : nat) : option Subnet :=
  '(_, b) ← (addInputs n ;; l ← addGate s []; addOutput l) empty_builder;
  make false b.

(* gate/model/subnet.cpp:185-187 [SubnetBuilder::makeZero] *)
Definition makeZero `{TypeStore} (n : nat) : option Subnet := makeConstSubnet ZERO n.
(* gate/model/subnet.cpp:189-191 [SubnetBuilder::makeOne] *)
Definition makeOne `{TypeStore} (n : nat) : option Subnet := makeConstSubnet ONE n.
(* gate/model/subnet.cpp:193-195 [SubnetBuilder::makeConst] *)
Definition makeConst `{TypeStore} (n : nat) (value : bool) : option Subnet :=
  if value then makeOne n else makeZero n.
