(* ===== verification/BuilderAdd.v ===== *)
(** * Adding cells to a builder

    [addCell] on a builder that satisfies the invariant returns a link to a cell
    of the given type and links, keeps the invariant and changes no other cell;
    the new cell takes its place in the topological order. *)

From S2P Require Import Prelude CellType SubnetBase Builder Order BuilderInv.
From stdpp Require Import gmap.

(** ** The inputs of a new cell *)

Definition depth_from (b : SubnetBuilder) (d0 : nat) (ls : LinkList) : option nat :=
  foldl (λ d l, d ← d; dl ← getDepth b (idx l); Some (max d (depth_succ dl))) (Some d0) ls.

Lemma depth_from_None b (ls : LinkList) :
  foldl (λ d l, d ← d; dl ← getDepth b (idx l); Some (max d (depth_succ dl))) None ls = None.
Proof. by induction ls. Qed.

Lemma depth_from_cons b d0 l ls d :
  depth_from b d0 (l :: ls) = Some d →
  ∃ dl, getDepth b (idx l) = Some dl ∧ depth_from b (max d0 (depth_succ dl)) ls = Some d.
Proof.
  unfold depth_from. cbn [foldl mbind option_bind].
  destruct (getDepth b (idx l)) as [dl|]; cbn [mbind option_bind].
  - intros Hd. by exists dl.
  - by rewrite depth_from_None.
Qed.

Lemma depth_from_ext b b' d0 ls :
  (∀ l, l ∈ ls → getDepth b' (idx l) = getDepth b (idx l)) →
  depth_from b' d0 ls = depth_from b d0 ls.
Proof.
  revert d0; induction ls as [|l ls IH]; intros d0 Hl; [done|]. unfold depth_from in *.
  cbn [foldl mbind option_bind]. rewrite Hl by set_solver.
  destruct (getDepth b (idx l)) as [dl|]; cbn [mbind option_bind].
  - apply IH. set_solver.
  - by rewrite !depth_from_None.
Qed.

(** The entries after the reference counts of the inputs [ls] have grown. *)
Definition bumped (ls : LinkList) (es es' : list Entry) : Prop :=
  ∀ j, es' !! j = match es !! j with
                  | Some (ECell c) => Some (ECell (Nat.iter (links_to j ls) count_up c))
                  | e => e
                  end.

Lemma links_to_cons i l ls :
  links_to i (l :: ls) = (if decide (idx l = i) then 1 else 0) + links_to i ls.
Proof. unfold links_to. rewrite filter_cons. by case_decide. Qed.

Lemma getCell_lookup b i c : getCell b i = Some c ↔ entries b !! i = Some (ECell c).
Proof.
  unfold getCell. destruct (entries b !! i) as [[c'| |]|]; cbn; naive_solver.
Qed.

Lemma getCell_lt b i c : getCell b i = Some c → i < length (entries b).
Proof. rewrite getCell_lookup. apply lookup_lt_Some. Qed.

Definition set_inputs (es : list Entry) (ds : list EntryDescriptor) (fs : list (list nat))
    (b : SubnetBuilder) : SubnetBuilder :=
  with_fanouts fs (with_entries es (with_desc ds b)).

Lemma addFanout_Some i j b :
  i < length (entries b) → j < length (entries b) →
  ∃ fs, addFanout i j b = Some (with_fanouts fs b).
Proof.
  intros Hi Hj. unfold addFanout. rewrite bool_decide_eq_true_2 by done.
  destruct (fanoutsEnabled b); [|exists (fanouts b); by destruct b].
  destruct (lookup_lt_is_Some_2 (fanouts b ++ replicate (S i - length (fanouts b)) []) i)
    as [x Hx].
  { rewrite length_app, length_replicate. lia. }
  cbn zeta. rewrite Hx. cbn [mbind option_bind]. by eexists.
Qed.

Lemma alloc_link_spec b i l di d0 dl c :
  in_range b → desc b !! i = Some di → depth di = Some d0 → idx l ≠ i →
  getCell b (idx l) = Some c → type c ≠ GateID OUT → getDepth b (idx l) = Some dl →
  ∃ fs, alloc_link i l b =
    Some (set_inputs (<[idx l := ECell (count_up c)]> (entries b))
            (<[i := set_depth (Some (max d0 (depth_succ dl))) di]> (desc b)) fs b).
Proof.
  intros Hr Hi Hd0 Hne Hc Ht Hdl. unfold alloc_link.
  assert (getDepth b i = Some (Some d0)) as -> by (unfold getDepth; by rewrite Hi, <- Hd0).
  cbn [mbind option_bind]. rewrite Hdl. cbn [mbind option_bind].
  unfold upd_desc. rewrite Hi. cbn [mbind option_bind].
  unfold getCell in *. cbn [entries with_desc]. rewrite Hc. cbn [mbind option_bind].
  unfold cell_is. rewrite bool_decide_eq_false_2 by done.
  assert (idx l < length (entries b)) as Hlt.
  { apply (getCell_lt b (idx l) c). exact Hc. }
  assert (i < length (entries b)) as Hlti.
  { rewrite <- Hr. by eapply lookup_lt_Some. }
  edestruct (addFanout_Some (idx l) i) as [fs ->]; [cbn; done..|].
  cbn [mbind option_bind]. unfold upd_cell, getCell. cbn [entries with_fanouts with_desc].
  rewrite Hc. cbn [mbind option_bind]. exists fs. done.
Qed.

(** *** The assertions on the counts *)

(** Whether the cells that [ls] leads to have room for the links in the field of
    their counts. *)
Definition count_room (b : SubnetBuilder) (ls : LinkList) : bool :=
  forallb (λ l, match getCell b (idx l) with
                | Some c => (refcount c + N.of_nat (links_to (idx l) ls) <=? MaxRefCount)%N
                | None => false
                end) ls.

Lemma links_to_elem l ls : l ∈ ls → 0 < links_to (idx l) ls.
Proof.
  intros [i Hi]%list_elem_of_lookup. unfold links_to. rewrite <- (take_drop_middle _ _ _ Hi).
  rewrite filter_app, length_app, filter_cons_True by done. cbn. lia.
Qed.

Lemma elem_links_to j ls : 0 < links_to j ls → ∃ l, l ∈ ls ∧ idx l = j.
Proof.
  unfold links_to. destruct (filter _ ls) as [|l fs] eqn:E; cbn; [lia|]. intros _. exists l.
  assert (l ∈ l :: fs) as Hl by constructor. rewrite <- E in Hl. apply list_elem_of_filter in Hl. tauto.
Qed.

Lemma count_room_iff b ls : (∀ l, l ∈ ls → is_Some (getCell b (idx l))) →
  count_room b ls = true ↔
    ∀ j c, 0 < links_to j ls → getCell b j = Some c → (refcount c + N.of_nat (links_to j ls) ≤ MaxRefCount)%N.
Proof.
  intros Hc. unfold count_room. rewrite forallb_forall. split.
  - intros Hr j c Hj Hg. destruct (elem_links_to _ _ Hj) as (l & Hl & <-).
    specialize (Hr l). rewrite Hg in Hr. apply N.leb_le, Hr. by apply list_elem_of_In.
  - intros Hr l Hl%list_elem_of_In. destruct (Hc l Hl) as [c Eg]. rewrite Eg. apply N.leb_le.
    by apply Hr; [apply links_to_elem|].
Qed.

Lemma count_room_ext b b' ls : (∀ l, l ∈ ls → getCell b' (idx l) = getCell b (idx l)) → count_room b' ls = count_room b ls.
Proof.
  intros He. apply eq_true_iff_eq. unfold count_room. rewrite !forallb_forall.
  split; intros Hr l Hl; specialize (Hr l Hl); apply list_elem_of_In, He in Hl; by rewrite Hl in *.
Qed.

Lemma addFanout_entries i j b b' : addFanout i j b = Some b' → entries b' = entries b.
Proof.
  unfold addFanout. case_bool_decide; [|done]. destruct (fanoutsEnabled b); [|by intros [= <-]].
  cbn zeta. destruct (_ !! i); [|done]. cbn. by intros [= <-].
Qed.

(** A link in a build with assertions and in one without. *)
Lemma alloc_link_build (B : Build) i l b c : getCell b (idx l) = Some c →
  @alloc_link B i l b =
    if count_asserts && negb (refcount c <? MaxRefCount)%N then None else @alloc_link release_build i l b.
Proof.
  intros Hc. unfold alloc_link. set (fail := _ && _). destruct (getDepth b i) as [d|]; [|by destruct fail].
  cbn [mbind option_bind]. destruct (getDepth b (idx l)) as [dl|]; [|by destruct fail]. cbn [mbind option_bind].
  unfold upd_desc. destruct (desc b !! i) as [di|]; [|by destruct fail]. cbn [mbind option_bind]. set (b1 := with_desc _ _).
  assert (getCell b1 (idx l) = Some c) as Hc1 by done. rewrite Hc1. cbn [mbind option_bind].
  destruct (cell_is OUT c); [by destruct fail|]. destruct (addFanout (idx l) i b1) as [b2|] eqn:E; [|by destruct fail].
  cbn [mbind option_bind]. apply addFanout_entries in E. assert (getCell b2 (idx l) = Some c) as Hc2.
  { unfold getCell in *. by rewrite E. }
  unfold upd_cell. rewrite Hc2. cbn [mbind option_bind]. unfold incRefCount. fold fail. by destruct fail.
Qed.

Lemma alloc_link_entries i l b b' c : getCell b (idx l) = Some c → alloc_link i l b = Some b' →
  entries b' = <[idx l := ECell (count_up c)]> (entries b).
Proof.
  intros Hc. unfold alloc_link. destruct (getDepth b i) as [d|]; [|done]. cbn [mbind option_bind].
  destruct (getDepth b (idx l)) as [dl|]; [|done]. cbn [mbind option_bind].
  unfold upd_desc. destruct (desc b !! i) as [di|]; [|done]. cbn [mbind option_bind]. set (b1 := with_desc _ _).
  assert (getCell b1 (idx l) = Some c) as -> by done. cbn [mbind option_bind].
  destruct (cell_is OUT c); [done|]. destruct (addFanout (idx l) i b1) as [b2|] eqn:E; [|done].
  cbn [mbind option_bind]. apply addFanout_entries in E. assert (getCell b2 (idx l) = Some c) as Hc2.
  { unfold getCell in *. by rewrite E. }
  unfold upd_cell. rewrite Hc2. cbn [mbind option_bind incRefCount count_asserts release_build andb]. intros [= <-].
  cbn. by rewrite E.
Qed.

Lemma alloc_links_None `{Build} i (ls : LinkList) :
  foldl (λ b l, b ← b; alloc_link i l b) None ls = None.
Proof. by induction ls. Qed.

Lemma alloc_link_cells i l b b1 c j : getCell b (idx l) = Some c → alloc_link i l b = Some b1 →
  getCell b1 j = if decide (idx l = j) then Some (count_up c) else getCell b j.
Proof.
  intros Hl E. unfold getCell. rewrite (alloc_link_entries _ _ _ _ _ Hl E).
  case_decide as Hj; [|by rewrite list_lookup_insert_ne]. subst j.
  rewrite list_lookup_insert_eq; [done|]. by eapply getCell_lt.
Qed.

Lemma count_room_cons i l ls b b1 c : getCell b (idx l) = Some c → alloc_link i l b = Some b1 →
  (∀ k, k ∈ l :: ls → is_Some (getCell b (idx k))) →
  count_room b (l :: ls) = (refcount c <? MaxRefCount)%N && count_room b1 ls.
Proof.
  intros Hl E Hc. pose proof (alloc_link_cells i l b b1 c) as Hb. specialize (λ j, Hb j Hl E). clear E.
  assert (∀ k, k ∈ ls → is_Some (getCell b1 (idx k))) as Hc1.
  { intros k Hk. rewrite Hb. case_decide; [by eexists|]. apply Hc. by constructor. }
  apply eq_true_iff_eq. rewrite andb_true_iff, !count_room_iff, N.ltb_lt by done. unfold MaxRefCount in *.
  assert (∀ n : N, (n + 1 ≤ 2 ^ 20 - 1)%N → ((n + 1) mod 2 ^ 20 = n + 1)%N) as Hm by (intros n Hn; apply N.mod_small; lia).
  split; [intros Hr; split|intros [Hlt Hr] j c' Hj Hg].
  - specialize (Hr (idx l) c). rewrite links_to_cons, decide_True in Hr by done. specialize (Hr ltac:(lia) Hl). lia.
  - intros j c' Hj Hg. rewrite Hb in Hg. specialize (Hr j). rewrite links_to_cons in Hr. destruct (decide (idx l = j)) as [<-|Ej].
    + injection Hg as <-. specialize (Hr c ltac:(lia) Hl). cbn [count_up refcount set_refcount]. rewrite Hm; lia.
    + by apply Hr.
  - rewrite links_to_cons in *. specialize (Hr j). rewrite Hb in Hr. destruct (decide (idx l = j)) as [<-|Ej].
    + assert (c' = c) as -> by congruence. destruct (decide (0 < links_to (idx l) ls)) as [Hp|Hp].
      * specialize (Hr _ Hp eq_refl). cbn [count_up refcount set_refcount] in Hr. rewrite Hm in Hr by lia. lia.
      * lia.
    + by apply Hr.
Qed.

(** The links of a cell: an assertion fails exactly if there is no room. *)
Lemma alloc_links_build (B : Build) i ls : ∀ b, (∀ l, l ∈ ls → is_Some (getCell b (idx l))) →
  foldl (λ b l, b ← b; @alloc_link B i l b) (Some b) ls =
    if negb count_asserts || count_room b ls then foldl (λ b l, b ← b; @alloc_link release_build i l b) (Some b) ls else None.
Proof.
  induction ls as [|l ls IH]; intros b Hc; [by rewrite orb_true_r|]. destruct (Hc l) as [c Hl]; [constructor|].
  cbn [foldl mbind option_bind]. rewrite (alloc_link_build B i l b c Hl).
  destruct (alloc_link i l b) as [b1|] eqn:E.
  2:{ destruct (count_asserts && _), (negb _ || _); by rewrite !alloc_links_None. }
  rewrite (count_room_cons i l ls b b1 c) by done. destruct (refcount c <? MaxRefCount)%N; cbn [negb andb].
  - rewrite andb_false_r. apply IH. intros k Hk. rewrite (alloc_link_cells i l b b1 c) by done.
    case_decide; [by eexists|]. apply Hc. by constructor.
  - destruct (count_asserts (Build := B)); cbn [andb negb orb]; [by rewrite alloc_links_None|]. rewrite IH; [done|].
    intros k Hk. rewrite (alloc_link_cells i l b b1 c) by done. case_decide; [by eexists|]. apply Hc. by constructor.
Qed.

Lemma alloc_links_spec i ls : ∀ b di d0 d,
  in_range b → desc b !! i = Some di → depth di = Some d0 →
  (∀ l, l ∈ ls → idx l ≠ i ∧ ∃ c, getCell b (idx l) = Some c ∧ type c ≠ GateID OUT) →
  depth_from b d0 ls = Some d →
  ∃ es fs, foldl (λ b l, b ← b; alloc_link i l b) (Some b) ls =
      Some (set_inputs es (<[i := set_depth (Some d) di]> (desc b)) fs b) ∧
    length es = length (entries b) ∧ bumped ls (entries b) es.
Proof.
  induction ls as [|l ls IH]; intros b di d0 d Hr Hi Hd0 Hls Hd.
  { exists (entries b), (fanouts b). cbn. unfold depth_from in Hd. cbn in Hd. injection Hd as <-.
    assert (set_depth (Some d0) di = di) as -> by (destruct di; cbn in Hd0; by subst).
    rewrite (list_insert_id (desc b) i) by done.
    split_all; [by destruct b|done|]. intros j. by destruct (entries b !! j) as [[]|]. }
  destruct (Hls l) as (Hne & c & Hc & Ht); [set_solver|].
  apply depth_from_cons in Hd as (dl & Hdl & Hd).
  destruct (alloc_link_spec b i l di d0 dl c) as [fs E]; [done..|].
  cbn [foldl mbind option_bind]. rewrite E. set (b1 := set_inputs _ _ fs b) in *.
  assert (i < length (desc b)) as Hlt by (by eapply lookup_lt_Some).
  destruct (IH b1 (set_depth (Some (max d0 (depth_succ dl))) di) (max d0 (depth_succ dl)) d)
    as (es & fs' & -> & Hlen & Hb).
  - unfold in_range, b1. cbn. by rewrite !length_insert.
  - unfold b1. cbn. by rewrite list_lookup_insert_eq.
  - done.
  - intros l' Hl'. destruct (Hls l') as (Hne' & c' & Hc' & Ht'); [set_solver|]. split; [done|].
    rewrite getCell_lookup in Hc'. destruct (decide (idx l' = idx l)) as [El|Hll].
    + exists (count_up c). rewrite getCell_lookup. unfold b1; cbn. rewrite El.
      split; [|done]. apply list_lookup_insert_eq. by apply (getCell_lt b (idx l) c).
    + exists c'. rewrite getCell_lookup. unfold b1; cbn. by rewrite list_lookup_insert_ne.
  - rewrite (depth_from_ext b); [done|]. intros l' Hl'. destruct (Hls l') as (Hne' & _); [set_solver|].
    unfold getDepth, b1. cbn. by rewrite list_lookup_insert_ne.
  - exists es, fs'. split_all.
    + f_equal. unfold b1, set_inputs. cbn. rewrite list_insert_insert_eq. by destruct di.
    + rewrite Hlen. unfold b1. cbn. by rewrite length_insert.
    + intros j. rewrite Hb. unfold b1.
      cbn [entries set_inputs with_fanouts with_entries with_desc].
      rewrite links_to_cons. case_decide as Ej.
      * subst j. rewrite list_lookup_insert_eq by (by apply (getCell_lt b (idx l) c)).
        rewrite getCell_lookup in Hc. rewrite Hc. do 2 f_equal.
        change (1 + links_to (idx l) ls) with (S (links_to (idx l) ls)).
        by rewrite Nat.iter_succ_r.
      * by rewrite list_lookup_insert_ne.
Qed.

(** ** The place of a new cell *)

Definition bounds (segs : list (list nat)) : list (EntryID * EntryID) :=
  (λ seg, (head_id seg, last_id seg)) <$> segs.

Definition pad (n : nat) (segs : list (list nat)) : list (list nat) :=
  segs ++ replicate (n - length segs) [].

Lemma concat_pad n segs : concat (pad n segs) = concat segs.
Proof.
  unfold pad. rewrite concat_app.
  assert (concat (replicate (n - length segs) (@nil nat)) = []) as ->.
  { induction (n - length segs); [done|]. cbn. done. }
  by rewrite app_nil_r.
Qed.

Lemma lookup_pad n segs d :
  d < n → pad n segs !! d = Some (default [] (segs !! d)).
Proof.
  intros Hd. unfold pad. destruct (decide (d < length segs)) as [Hl|Hl].
  - rewrite lookup_app_l by done. by destruct (lookup_lt_is_Some_2 segs d Hl) as [s ->].
  - rewrite lookup_app_r by lia. rewrite lookup_replicate_2 by lia.
    by rewrite lookup_ge_None_2 by lia.
Qed.

Lemma lookup_pad_inv n segs d s :
  pad n segs !! d = Some s → s ≠ [] → segs !! d = Some s.
Proof.
  unfold pad. intros Hs Hn. apply lookup_app_Some in Hs as [Hs|[_ Hs]]; [done|].
  by apply lookup_replicate in Hs as [-> _].
Qed.

Lemma bounds_pad n segs :
  bounds (pad n segs) = bounds segs ++ replicate (n - length segs) (invalidID, invalidID).
Proof. unfold bounds, pad. by rewrite fmap_app, fmap_replicate. Qed.

Lemma resize_bounds_pad d b segs :
  depthBounds b = bounds segs → resize_bounds d b = with_depthBounds (bounds (pad (S d) segs)) b.
Proof.
  intros Hb. unfold resize_bounds. rewrite Hb, bounds_pad. unfold bounds. by rewrite length_fmap.
Qed.

(** The segments around depth [d]. *)
Lemma segs_split (segs : list (list nat)) d s :
  segs !! d = Some s → segs = take d segs ++ s :: drop (S d) segs.
Proof. intros Hs. symmetry. by apply take_drop_middle. Qed.

Lemma order_split segs outs d s :
  segs !! d = Some s →
  order_of segs outs = concat (take d segs) ++ s ++ concat (drop (S d) segs) ++ outs.
Proof.
  intros Hs. unfold order_of. rewrite (segs_split segs d s Hs) at 1.
  rewrite concat_app. cbn. by rewrite <- !app_assoc.
Qed.

Lemma concat_insert (segs : list (list nat)) d s s' :
  segs !! d = Some s →
  concat (<[d := s']> segs) = concat (take d segs) ++ s' ++ concat (drop (S d) segs).
Proof.
  intros Hs. rewrite (insert_take_drop segs d s') by (by eapply lookup_lt_Some).
  rewrite concat_app. done.
Qed.

Lemma order_insert segs outs d s s' :
  segs !! d = Some s →
  order_of (<[d := s']> segs) outs
  = concat (take d segs) ++ s' ++ concat (drop (S d) segs) ++ outs.
Proof. intros Hs. unfold order_of. rewrite (concat_insert _ _ _ _ Hs). by rewrite <- !app_assoc. Qed.

Lemma Linked_fields b b' o :
  entries b' = entries b → desc b' = desc b → subnetBegin b' = subnetBegin b →
  subnetEnd b' = subnetEnd b → Linked b o → Linked b' o.
Proof.
  intros E1 E2 E3 E4 [H1 H2 H3 H4 H5 H6].
  split; unfold in_range in *; rewrite ?E1, ?E2, ?E3, ?E4; try done.
  revert H4. apply chained_ext_at. intros l1 y z l2 _. unfold linked, nextOf, prevOf. by rewrite E2.
Qed.

Lemma bounds_lookup segs d s :
  segs !! d = Some s → bounds segs !! d = Some (head_id s, last_id s).
Proof. intros Hs. unfold bounds. by rewrite list_lookup_fmap, Hs. Qed.

Lemma upd_bounds_Some d p segs b s :
  depthBounds b = bounds segs → segs !! d = Some s →
  upd_bounds d p b = Some (with_depthBounds (<[d := p]> (bounds segs)) b).
Proof.
  intros Hb Hs. unfold upd_bounds. rewrite Hb. unfold bounds.
  rewrite length_fmap, bool_decide_eq_true_2; [done|]. by eapply lookup_lt_Some.
Qed.

Lemma bounds_insert segs d s' :
  bounds (<[d := s']> segs) = <[d := (head_id s', last_id s')]> (bounds segs).
Proof. unfold bounds. by rewrite list_fmap_insert. Qed.

(** The walk over the constants ends at the last cell before them. *)
Lemma skip_constants_spec b o1 p cs o2 fuel cp :
  Linked b (o1 ++ p :: cs ++ o2) → length cs ≤ fuel →
  getCell b p = Some cp → cell_is ZERO cp || cell_is ONE cp = false →
  (∀ x, x ∈ cs → cell_type b x = Some (GateID ZERO) ∨ cell_type b x = Some (GateID ONE)) →
  skip_constants fuel b (last_id (p :: cs)) = Some (Idx p).
Proof.
  intros HL Hf Hp Hcp Hcs. revert o2 fuel HL Hf Hcs.
  induction cs as [|x cs IH] using rev_ind; intros o2 fuel HL Hf Hcs.
  - destruct fuel; cbn; rewrite Hp; cbn; by rewrite Hcp.
  - rewrite length_app in Hf. cbn in Hf. destruct fuel as [|fuel]; [lia|].
    change (p :: cs ++ [x]) with ((p :: cs) ++ [x]). rewrite last_id_snoc.
    cbn [skip_constants getCellAt].
    assert (∃ c, getCell b x = Some c ∧ cell_is ZERO c || cell_is ONE c = true) as (c & -> & E).
    { destruct (Hcs x) as [Hx|Hx]; [set_solver| |];
        apply fmap_Some in Hx as (c & Hc & Et); exists c; (split; [done|]);
        unfold cell_is; rewrite <- Et; [done|by rewrite orb_true_r]. }
    cbn [mbind option_bind]. rewrite E.
    assert (o1 ++ p :: (cs ++ [x]) ++ o2 = (o1 ++ p :: cs) ++ x :: o2) as Eo.
    { by rewrite <- !app_assoc. }
    rewrite Eo in HL. rewrite (getPrev_linked _ _ _ _ HL). cbn [mbind option_bind].
    rewrite last_app_cons. destruct (list.last (p :: cs)) as [y|] eqn:El.
    + specialize (IH (x :: o2) fuel). unfold last_id in IH. rewrite El in IH. apply IH.
      * rewrite <- app_assoc in HL. done.
      * lia.
      * intros z Hz. apply Hcs. set_solver.
    + by apply last_None in El.
Qed.

(** The segments with [s] at depth [d]. *)
Definition placed (segs : list (list nat)) (d : nat) (s : list nat) : list (list nat) :=
  <[d := s]> (pad (S d) segs).

Lemma order_pad n segs outs : order_of (pad n segs) outs = order_of segs outs.
Proof. unfold order_of. by rewrite concat_pad. Qed.

Section Place.
Context (b : SubnetBuilder) (segs : list (list nat)) (outs : list nat) (i d : nat) (c : Cell).
Context (HL : Linked b (order_of segs outs)) (Hb : depthBounds b = bounds segs).
Context (Hc : getCell b i = Some c) (Hd : getDepth b i = Some (Some d)).
Context (Hi : i ∉ order_of segs outs).

Let b1 := with_depthBounds (bounds (pad (S d) segs)) b.

Lemma place_lt : i < length (entries b).
Proof. by eapply getCell_lt. Qed.

Lemma place_linked o db :
  Linked b o → Linked (with_depthBounds db b) o.
Proof. by apply Linked_fields. Qed.

Lemma addDepthBounds_unfold :
  addDepthBounds i b =
    (if cell_is OUT c then placeAfter (Idx i) (getSubnetEnd b1) b1
     else '(f, l) ← depthBounds b1 !! d;
       if decide (f = invalidID) then
         b ← upd_bounds d (Idx i, Idx i) b1; p ← last_below d b; placeAfter (Idx i) p b
       else
         pivot ← (if (d =? 0) && cell_is IN c
                  then skip_constants (length (entries b1)) b1 l else Some l);
         b ← placeAfter (Idx i) pivot b1;
         if decide (l = pivot) then upd_bounds d (f, Idx i) b else Some b).
Proof.
  unfold addDepthBounds. rewrite Hc, Hd. cbn [mbind option_bind].
  by rewrite (resize_bounds_pad d b segs Hb).
Qed.

Lemma addDepthBounds_out :
  type c = GateID OUT → order_of segs outs ≠ [] →
  ∃ b', addDepthBounds i b = Some b' ∧
    Linked b' (order_of (pad (S d) segs) (outs ++ [i])) ∧ keeps b1 b'.
Proof.
  intros Ht Ho. rewrite addDepthBounds_unfold. unfold cell_is.
  rewrite bool_decide_eq_true_2 by done.
  assert (Linked b1 (order_of segs outs)) as HL1 by by apply place_linked.
  destruct (order_of segs outs) as [|p o _] eqn:Eo using rev_ind; [done|].
  rewrite (getSubnetEnd_linked _ _ HL1), last_id_snoc.
  destruct (placeAfter_last b1 o p i) as (b' & E & HL' & Hk); [done|done|apply place_lt|].
  exists b'. split; [done|]. split; [|done]. rewrite order_pad. unfold order_of in *.
  rewrite app_assoc, Eo, <- app_assoc. done.
Qed.

Lemma addDepthBounds_pivot s p s2 :
  type c ≠ GateID OUT → segs !! d = Some (s ++ p :: s2) →
  (if (d =? 0) && cell_is IN c then skip_constants (length (entries b1)) b1 (last_id (p :: s2))
   else Some (last_id (p :: s2))) = Some (Idx p) →
  ∃ b', addDepthBounds i b = Some b' ∧
    Linked b' (order_of (placed segs d (s ++ p :: i :: s2)) outs) ∧
    keeps (with_depthBounds (bounds (placed segs d (s ++ p :: i :: s2))) b) b'.
Proof.
  intros Ht Hs Hpiv. rewrite addDepthBounds_unfold. unfold cell_is at 1.
  rewrite bool_decide_eq_false_2 by done.
  assert (pad (S d) segs !! d = Some (s ++ p :: s2)) as Hsp by (rewrite lookup_pad by lia; by rewrite Hs).
  cbn [depthBounds b1 with_depthBounds]. rewrite (bounds_lookup _ _ _ Hsp). cbn [mbind option_bind].
  rewrite decide_False by by destruct s. rewrite last_id_app, Hpiv. cbn [mbind option_bind].
  rewrite (order_split _ outs _ _ Hs), <- app_assoc in HL, Hi.
  rewrite app_assoc in HL, Hi. cbn [app] in HL, Hi.
  destruct (placeAfter_linked b1 _ p _ i (place_linked _ _ HL) Hi place_lt) as (b' & -> & HL' & Hk).
  cbn [mbind option_bind].
  assert (order_of (placed segs d (s ++ p :: i :: s2)) outs =
    (concat (take d segs) ++ s) ++ p :: i :: s2 ++ concat (drop (S d) segs) ++ outs) as Eo.
  { unfold placed. rewrite (order_insert _ _ _ _ _ Hsp).
    assert (pad (S d) segs = segs) as ->.
    { unfold pad. apply lookup_lt_Some in Hs. replace (S d - length segs) with 0 by lia.
      cbn. apply app_nil_r. }
    by rewrite <- !app_assoc. }
  assert (s2 = [] ↔ last_id (p :: s2) = Idx p) as Hlast.
  { split; [by intros ->|]. intros E. destruct s2 as [|y s2 _] using rev_ind; [done|].
    change (p :: s2 ++ [y]) with ((p :: s2) ++ [y]) in E. rewrite last_id_snoc in E.
    injection E as ->. pose proof (linked_nodup _ _ HL) as Hnd.
    apply NoDup_app in Hnd as (_ & _ & Hnd). apply NoDup_cons in Hnd as [Hnd _]. set_solver. }
  destruct s2 as [|y s2 _] using rev_ind.
  - rewrite decide_True by done.
    assert (depthBounds b' = bounds (pad (S d) segs)) as Edb by (by rewrite (core_depthBounds _ _ (proj1 Hk))).
    rewrite (upd_bounds_Some _ _ _ _ _ Edb Hsp).
    eexists; split; [done|]. split.
    + rewrite Eo. by apply (Linked_fields b').
    + unfold placed. rewrite bounds_insert. change (s ++ [p; i]) with (s ++ [p] ++ [i]).
      rewrite app_assoc, last_id_snoc.
      assert (head_id (s ++ [p]) = head_id ((s ++ [p]) ++ [i])) as -> by by destruct s.
      destruct Hk as [Hk1 Hk2]. split; [|done].
      exact (core_with_depthBounds _ _ _ Hk1).
  - rewrite decide_False by (intros E; apply Hlast in E; by destruct s2).
    exists b'. split; [done|]. split; [by rewrite Eo|].
    assert (bounds (placed segs d (s ++ p :: i :: s2 ++ [y])) = bounds (pad (S d) segs)) as ->; [|done].
    unfold placed. rewrite bounds_insert. apply list_insert_id. rewrite (bounds_lookup _ _ _ Hsp).
    change (s ++ p :: i :: s2 ++ [y]) with (s ++ (p :: i :: s2) ++ [y]).
    change (s ++ p :: s2 ++ [y]) with (s ++ (p :: s2) ++ [y]).
    rewrite !app_assoc, !last_id_snoc. by destruct s.
Qed.

Lemma place_empty_lower :
  type c ≠ GateID OUT → d = 0 → default [] (segs !! d) = [] →
  ∃ b', addDepthBounds i b = Some b' ∧
    Linked b' (order_of (placed segs d [i]) outs) ∧
    keeps (with_depthBounds (bounds (placed segs d [i])) b) b'.
Proof.
  intros Ht E0 Hs. rewrite addDepthBounds_unfold. unfold cell_is.
  rewrite bool_decide_eq_false_2 by done.
  assert (pad (S d) segs !! d = Some []) as Hsp by (rewrite lookup_pad by lia; by rewrite Hs).
  cbn [depthBounds b1 with_depthBounds]. rewrite (bounds_lookup _ _ _ Hsp). cbn [mbind option_bind].
  rewrite decide_True by done. rewrite (upd_bounds_Some _ _ _ b1 _ eq_refl Hsp).
  cbn [mbind option_bind]. rewrite E0 in *. cbn [last_below mbind option_bind].
  change (<[0:=(Idx i, Idx i)]> (bounds (pad 1 segs)))
    with (<[0:=(head_id [i], last_id [i])]> (bounds (pad 1 segs))).
  rewrite <- bounds_insert.
  assert (order_of (placed segs 0 [i]) outs = i :: order_of segs outs) as Eo.
  { unfold placed. rewrite (order_insert _ _ _ _ _ Hsp).
    rewrite <- (order_pad 1), (order_split _ outs _ _ Hsp). done. }
  rewrite Eo. by apply placeAfter_lower; [apply place_linked| |apply place_lt].
Qed.

Lemma place_empty_mid d' s p :
  type c ≠ GateID OUT → d = S d' → default [] (segs !! d) = [] → segs !! d' = Some (s ++ [p]) →
  ∃ b', addDepthBounds i b = Some b' ∧
    Linked b' (order_of (placed segs d [i]) outs) ∧
    keeps (with_depthBounds (bounds (placed segs d [i])) b) b'.
Proof.
  intros Ht Ed Hs Hp. rewrite addDepthBounds_unfold. unfold cell_is.
  rewrite bool_decide_eq_false_2 by done.
  assert (pad (S d) segs !! d = Some []) as Hsp by (rewrite lookup_pad by lia; by rewrite Hs).
  cbn [depthBounds b1 with_depthBounds]. rewrite (bounds_lookup _ _ _ Hsp). cbn [mbind option_bind].
  rewrite decide_True by done. rewrite (upd_bounds_Some _ _ _ b1 _ eq_refl Hsp).
  cbn [mbind option_bind].
  change (<[d:=(Idx i, Idx i)]> (bounds (pad (S d) segs)))
    with (<[d:=(head_id [i], last_id [i])]> (bounds (pad (S d) segs))).
  rewrite <- bounds_insert.
  assert (pad (S d) segs !! d' = Some (s ++ [p])) as Hpp by (rewrite lookup_pad by lia; by rewrite Hp).
  assert (order_of segs outs = (concat (take d' (pad (S d) segs)) ++ s) ++ p ::
            concat (drop (S d) (pad (S d) segs)) ++ outs) as Eo.
  { rewrite <- (order_pad (S d)), (order_split _ outs _ _ Hpp). rewrite <- !app_assoc. cbn.
    rewrite <- Ed. by rewrite (drop_S _ _ _ Hsp). }
  assert (order_of (placed segs d [i]) outs = (concat (take d' (pad (S d) segs)) ++ s) ++ p :: i ::
            concat (drop (S d) (pad (S d) segs)) ++ outs) as Eo'.
  { assert (take d (pad (S d) segs) = take d' (pad (S d) segs) ++ [s ++ [p]]) as Et
      by (rewrite Ed at 1; by apply take_S_r).
    unfold placed. rewrite (order_insert _ _ _ _ _ Hsp), Et, concat_app.
    cbn [concat]. rewrite app_nil_r. by rewrite <- !app_assoc. }
  fold (placed segs d [i]).
  assert (last_below d (with_depthBounds (bounds (placed segs d [i])) b1) = Some (Idx p)) as ->.
  { rewrite Ed at 1. cbn [last_below]. unfold getLastWithDepth. cbn [depthBounds with_depthBounds].
    rewrite (bounds_lookup (placed segs d [i]) d' (s ++ [p]))
      by (unfold placed; rewrite list_lookup_insert_ne by lia; done).
    cbn. by rewrite last_id_snoc. }
  cbn [mbind option_bind]. rewrite Eo'.
  apply placeAfter_linked; [by apply place_linked; rewrite <- Eo|by rewrite <- Eo|apply place_lt].
Qed.
End Place.

(** ** The state after an addition *)

Definition bump (n : nat) (c : Cell) : Cell := Nat.iter n count_up c.

Lemma bump_same n c : same_cell c (bump n c) ∧ more (bump n c) = more c.
Proof.
  unfold same_cell, bump. induction n as [|n IH]; [done|]. cbn. tauto.
Qed.

Lemma bump_refcount n c x :
  refcount c = (x mod 2 ^ 20)%N → refcount (bump n c) = ((x + N.of_nat n) mod 2 ^ 20)%N.
Proof.
  intros Hc. induction n as [|n IH]; [by rewrite N.add_0_r|].
  change (bump (S n) c) with (count_up (bump n c)). cbn [refcount count_up set_refcount].
  rewrite IH, N.Div0.add_mod_idemp_l. f_equal. lia.
Qed.

Lemma bump_ok `{TypeStore} n c : cell_ok c → cell_ok (bump n c).
Proof.
  destruct (bump_same n c) as [(E1 & E2 & E3) E4]. unfold cell_ok. by rewrite E1, E2, E3, E4.
Qed.

Lemma bump_inputs n c : getInPlaceLinks (bump n c) = getInPlaceLinks c.
Proof. apply same_cell_links, bump_same. Qed.

Definition new_cell (t : TypeID) (ls : LinkList) : Cell := mkCell (length ls) 0 0 t (pad3 ls).

Lemma pad3_length ls : length (pad3 ls) = InPlaceLinks.
Proof.
  unfold pad3. rewrite length_take, length_app, length_replicate. unfold InPlaceLinks. lia.
Qed.

Lemma new_cell_inputs t ls : length ls ≤ InPlaceLinks → getInPlaceLinks (new_cell t ls) = ls.
Proof.
  intros Hl. unfold getInPlaceLinks, new_cell, pad3. cbn [arity links].
  rewrite Nat.min_l by done. rewrite take_take, Nat.min_l by done.
  rewrite take_app_le by done. by apply take_ge.
Qed.

Lemma SubnetCell_new t ls :
  length ls ≤ InPlaceLinks → (t = GateID IN → ls = []) →
  SubnetCell t ls = Some (new_cell t ls).
Proof.
  intros Hl Ht. unfold SubnetCell, InPlaceLinks, InEntryLinks, MaxArity in *.
  rewrite bool_decide_eq_true_2.
  - unfold new_cell. do 2 f_equal. apply Nat.div_small. lia.
  - split; [lia|]. destruct (decide (t = GateID IN)) as [E|E]; [right; by rewrite Ht|by left].
Qed.

Lemma new_cell_ok `{TypeStore} t ls :
  length ls ≤ InPlaceLinks → valid_type t (length ls) = true → Forall (λ l, out l < 8) ls →
  cell_ok (new_cell t ls).
Proof.
  intros Hl Hv Ho. unfold cell_ok, new_cell. cbn [more arity links type]. split_all; try done.
  - apply pad3_length.
  - unfold pad3. apply Forall_take, Forall_app. split; [done|]. apply Forall_replicate. cbn. lia.
Qed.

Section Added.
Context `{TypeStore}.
Context (b b' : SubnetBuilder) (ins outs ins' outs' : list nat) (segs segs' : list (list nat)).
Context (i d : nat) (t : TypeID) (ls : LinkList).

(** The new cell is the entry [i]; the other cells keep their place. *)
Record added : Prop := {
  ad_cell : getCell b' i = Some (new_cell t ls);
  ad_cells : ∀ j, j ≠ i → getCell b' j = bump (links_to j ls) <$> getCell b j;
  ad_depth : getDepth b' i = Some (Some d);
  ad_depths : ∀ j, j ≠ i → getDepth b' j = getDepth b j;
  ad_linked : Linked b' (order_of segs' outs');
  ad_perm : order_of segs' outs' ≡ₚ i :: order_of segs outs;
  ad_bounds : depthBounds b' = bounds segs';
  ad_empties : ∀ o, o ++ emptyEntryIDs b ≡ₚ seq 0 (length (entries b)) →
    i :: o ++ emptyEntryIDs b' ≡ₚ seq 0 (length (entries b'));
  ad_segs : ∀ d' s j, segs' !! d' = Some s → j ∈ s →
    (j = i ∧ d' = d ∧ t ≠ GateID OUT) ∨ ∃ s0, segs !! d' = Some s0 ∧ j ∈ s0;
  ad_outs : outs' = if decide (t = GateID OUT) then outs ++ [i] else outs;
  ad_ins : ins' = if decide (t = GateID IN) then ins ++ [i] else ins;
  ad_ins_ok : ∃ consts consts', default [] (head segs) = ins ++ consts ∧
    default [] (head segs') = ins' ++ consts' ∧
    (∀ j, j ∈ consts' → j ∈ consts ∨ (j = i ∧ (t = GateID ZERO ∨ t = GateID ONE)));
  ad_strash : ∀ key j, strash b' !! key = Some j →
    strash b !! key = Some j ∨
    (j = i ∧ t ≠ GateID OUT ∧ makeKey_cell (new_cell t ls) = Some key);
  ad_nums : b_nIn b' = length ins' ∧ b_nOut b' = length outs' ∧ nCell b' = S (nCell b) ∧
    nBuf b' = nBuf b + (if decide (t = GateID BUF) then 1 else 0);
  ad_normal : isDisassembled b' = false → isDisassembled b = false ∧
    ((∀ x, x ∈ desc b → prev x = normalOrderID ∧ next x = normalOrderID) →
     ∀ x, x ∈ desc b' → prev x = normalOrderID ∧ next x = normalOrderID);
  ad_grow : length (entries b) ≤ length (entries b') ∧ fanoutsEnabled b' = fanoutsEnabled b;
  ad_depths_len : length segs ≤ length segs' ∧ d < length segs';
  ad_fresh : emptyEntryIDs b = [] →
    i = length (entries b) ∧ emptyEntryIDs b' = [] ∧ length (entries b') = S (length (entries b));
}.

Context (HW : WF b ins outs segs) (HA : added).
Context (Hlen : length ls ≤ InPlaceLinks) (Hv : valid_type t (length ls) = true).
Context (Hls : ∀ l, l ∈ ls → idx l ∈ concat segs) (Hout : Forall (λ l, out l < 8) ls).
Context (Hd : depth_from b 0 ls = Some d).

Let o := order_of segs outs.
Let o' := order_of segs' outs'.

Lemma added_fresh : i ∉ o.
Proof.
  pose proof (linked_nodup _ _ (ad_linked HA)) as Hnd. fold o' in Hnd.
  unfold o' in Hnd. rewrite (ad_perm HA) in Hnd. by apply NoDup_cons in Hnd as [? _].
Qed.

Lemma concat_fresh j : j ∈ concat segs → j ≠ i.
Proof. intros Hj ->. apply added_fresh. unfold o, order_of. set_solver. Qed.

Lemma concat_placed j : j ∈ concat segs' ↔ (j = i ∧ t ≠ GateID OUT) ∨ j ∈ concat segs.
Proof.
  assert (∀ x, x ∈ concat segs' → (x = i ∧ t ≠ GateID OUT) ∨ x ∈ concat segs) as H1.
  { intros x (s & Hx & (d' & Hs)%list_elem_of_lookup_1)%elem_of_concat.
    destruct (ad_segs HA d' s x Hs Hx) as [(-> & _ & Ht)|(s0 & Hs0 & Hx0)]; [by left|].
    right. apply elem_of_concat. exists s0. split; [done|]. by eapply list_elem_of_lookup_2. }
  assert (NoDup o') as Hnd by apply (ad_linked HA).
  pose proof (ad_perm HA) as Hp. fold o o' in Hp.
  assert (∀ x, x ∈ o' ↔ x = i ∨ x ∈ o) as Hx by (intros x; rewrite Hp; set_solver).
  split; [apply H1|]. unfold o, o', order_of in *. intros Hj.
  destruct (decide (t = GateID OUT)) as [Ht|Ht].
  - destruct Hj as [[_ ?]|Hj]; [done|].
    assert (j ∈ concat segs' ++ outs') as Hj' by (apply Hx; set_solver).
    apply elem_of_app in Hj' as [?|Hj']; [done|]. rewrite (ad_outs HA), decide_True in Hj' by done.
    apply elem_of_app in Hj' as [Hj'|Hj'].
    + pose proof (linked_nodup _ _ (wf_linked _ _ _ _ HW)) as Hn.
      apply NoDup_app in Hn as (_ & Hn & _). by destruct (Hn j).
    + apply list_elem_of_singleton in Hj' as ->. by destruct (concat_fresh i).
  - assert (j ∈ concat segs' ++ outs') as Hj' by (apply Hx; set_solver).
    apply elem_of_app in Hj' as [?|Hj']; [done|]. rewrite (ad_outs HA), decide_False in Hj' by done.
    exfalso. destruct Hj as [[-> _]|Hj].
    + apply added_fresh. unfold o, order_of. set_solver.
    + pose proof (linked_nodup _ _ (wf_linked _ _ _ _ HW)) as Hn.
      apply NoDup_app in Hn as (_ & Hn & _). by destruct (Hn j).
Qed.

Lemma inputs_ok_placed c : inputs_ok segs c → inputs_ok segs' c.
Proof. intros Hc l Hl. apply concat_placed. right. by apply Hc. Qed.

Lemma added_old j c : j ≠ i → getCell b j = Some c → getCell b' j = Some (bump (links_to j ls) c).
Proof. intros Hj Hc. by rewrite (ad_cells HA), Hc. Qed.

Lemma added_type j : j ≠ i → cell_type b' j = cell_type b j.
Proof.
  intros Hj. unfold cell_type. rewrite (ad_cells HA) by done.
  destruct (getCell b j) as [c|]; [|done]. cbn. f_equal.
  by destruct (bump_same (links_to j ls) c) as [(-> & _) _].
Qed.

Lemma depth_from_placed d0 ls0 :
  (∀ l, l ∈ ls0 → idx l ∈ concat segs) → depth_from b' d0 ls0 = depth_from b d0 ls0.
Proof.
  intros Hl. apply depth_from_ext. intros l Hin. apply (ad_depths HA).
  by apply concat_fresh, Hl.
Qed.

Lemma added_seg_cell d' s j : segs' !! d' = Some s → j ∈ s →
  ∃ c, getCell b' j = Some c ∧ cell_ok c ∧ type c ≠ GateID OUT ∧ inputs_ok segs' c ∧
    getDepth b' j = Some (Some d') ∧ new_depth b' (getInPlaceLinks c) = Some d'.
Proof.
  intros Hs Hj. destruct (ad_segs HA d' s j Hs Hj) as [(-> & -> & Ht)|(s0 & Hs0 & Hj0)].
  - exists (new_cell t ls). rewrite new_cell_inputs by done.
    split_all; [apply HA|by apply new_cell_ok|done| |apply HA|].
    + intros l. rewrite new_cell_inputs by done. intros Hl. apply concat_placed. right. by apply Hls.
    + change (new_depth b' ls) with (depth_from b' 0 ls). by rewrite depth_from_placed.
  - destruct (wf_seg _ _ _ _ HW d' s0 j Hs0 Hj0) as (c & Hc & Hok & Ht & Hi & Hdep & Hnd).
    assert (j ≠ i) as Hji.
    { apply concat_fresh. apply elem_of_concat. exists s0. split; [done|].
      by eapply list_elem_of_lookup_2. }
    exists (bump (links_to j ls) c). rewrite bump_inputs.
    destruct (bump_same (links_to j ls) c) as [(E1 & E2 & E3) E4].
    split_all; [by apply added_old|by apply bump_ok|by rewrite E1| | |].
    + intros l. rewrite bump_inputs. apply inputs_ok_placed, Hi.
    + by rewrite (ad_depths HA).
    + change (depth_from b' 0 (getInPlaceLinks c) = Some d'). by rewrite depth_from_placed.
Qed.

Lemma added_out_cell j : j ∈ outs' →
  ∃ c, getCell b' j = Some c ∧ cell_ok c ∧ type c = GateID OUT ∧ inputs_ok segs' c ∧
    ∃ d', getDepth b' j = Some (Some d') ∧ new_depth b' (getInPlaceLinks c) = Some d' ∧
      d' < length segs'.
Proof.
  rewrite (ad_outs HA). intros Hj. assert ((t = GateID OUT ∧ j = i) ∨ j ∈ outs) as [[Ht ->]|Hj'].
  { case_decide; [|by right]. apply elem_of_app in Hj as [?|Hj]; [by right|].
    left. by apply list_elem_of_singleton in Hj. }
  - exists (new_cell t ls). split_all; [apply HA|by apply new_cell_ok|done| |].
    { intros l. rewrite new_cell_inputs by done. intros Hl. apply concat_placed. right. by apply Hls. }
    exists d. rewrite new_cell_inputs by done. split_all; [apply HA| |apply (ad_depths_len HA)].
    change (depth_from b' 0 ls = Some d). by rewrite depth_from_placed.
  - destruct (wf_outs _ _ _ _ HW j Hj') as (c & Hc & Hok & Ht & Hi & d' & Hd1 & Hd2 & Hd3).
    assert (j ≠ i) as Hji by (intros ->; apply added_fresh; unfold o, order_of; set_solver).
    exists (bump (links_to j ls) c).
    destruct (bump_same (links_to j ls) c) as [(E1 & E2 & E3) E4].
    split_all; [by apply added_old|by apply bump_ok|by rewrite E1| |].
    { intros l. rewrite bump_inputs. apply inputs_ok_placed, Hi. }
    exists d'. rewrite bump_inputs. split_all; [by rewrite (ad_depths HA)| |].
    + change (depth_from b' 0 (getInPlaceLinks c) = Some d'). by rewrite depth_from_placed.
    + destruct (ad_depths_len HA) as [Hle _]. lia.
Qed.

Lemma links_to_notin j (ks : LinkList) : (∀ l, l ∈ ks → idx l ≠ j) → links_to j ks = 0.
Proof.
  intros Hk. unfold links_to. induction ks as [|k ks IH]; [done|].
  rewrite filter_cons_False by (apply Hk; set_solver). apply IH. set_solver.
Qed.

(** The links of a live cell of [b] lead into the segments. *)
Lemma old_inputs j c : j ∈ o → getCell b j = Some c → inputs_ok segs c.
Proof.
  intros Hj Hc. unfold o, order_of in Hj. apply elem_of_app in Hj as [Hj|Hj].
  - apply elem_of_concat in Hj as (s & Hj & Hs). apply list_elem_of_lookup_1 in Hs as [k Hk].
    destruct (wf_seg _ _ _ _ HW k s j Hk Hj) as (c' & Hc' & _ & _ & Hi & _).
    rewrite Hc in Hc'. by injection Hc' as ->.
  - destruct (wf_outs _ _ _ _ HW j Hj) as (c' & Hc' & _ & _ & Hi & _).
    rewrite Hc in Hc'. by injection Hc' as ->.
Qed.

Lemma added_refs j : refs b' o' j = links_to j ls + refs b o j.
Proof.
  unfold refs, o'. rewrite (ad_perm HA). cbn. rewrite (ad_cell HA), new_cell_inputs by done.
  f_equal. fold o. assert (∀ x, x ∈ o → x ∈ o) as Hsub by done. revert Hsub.
  generalize o at 1 3 4. intros l Hsub. induction l as [|x l IH]; [done|]. cbn.
  rewrite IH by set_solver. f_equal. rewrite (ad_cells HA).
  - destruct (getCell b x) as [c|]; [|done]. cbn. by rewrite bump_inputs.
  - intros ->. apply added_fresh. set_solver.
Qed.

Lemma refs_fresh : refs b o i = 0.
Proof.
  unfold refs. assert (∀ x, x ∈ o → x ∈ o) as Hsub by done. revert Hsub.
  generalize o at 1 3. intros l Hsub. induction l as [|x l IH]; [done|]. cbn.
  rewrite IH by set_solver. destruct (getCell b x) as [c|] eqn:Ec; [|done].
  rewrite links_to_notin; [done|]. intros k Hk. apply concat_fresh.
  apply (old_inputs x c); [set_solver|done|done].
Qed.

Lemma added_refcount j c : j ∈ o' → getCell b' j = Some c →
  refcount c = (N.of_nat (refs b' o' j) mod 2 ^ 20)%N.
Proof.
  intros Hj Hc. rewrite added_refs. destruct (decide (j = i)) as [->|Hji].
  - rewrite (ad_cell HA) in Hc. injection Hc as <-. rewrite refs_fresh, links_to_notin; [done|].
    intros l Hl. by apply concat_fresh, Hls.
  - assert (j ∈ o) as Hjo by (unfold o' in Hj; rewrite (ad_perm HA) in Hj; set_solver).
    rewrite (ad_cells HA) in Hc by done. destruct (getCell b j) as [c0|] eqn:Ec0; [|done].
    injection Hc as <-. rewrite (bump_refcount _ _ _ (wf_refs _ _ _ _ HW j c0 Hjo Ec0)).
    f_equal. unfold o. lia.
Qed.

Lemma added_ins : ∃ consts, default [] (head segs') = ins' ++ consts ∧
  (∀ j, j ∈ ins' → cell_type b' j = Some (GateID IN)) ∧
  (∀ j, j ∈ consts → cell_type b' j = Some (GateID ZERO) ∨ cell_type b' j = Some (GateID ONE)).
Proof.
  destruct (ad_ins_ok HA) as (consts & consts' & E & E' & Hcs).
  destruct (wf_ins _ _ _ _ HW) as (consts0 & E0 & Hi & Hc).
  assert (consts0 = consts) as -> by (rewrite E in E0; by apply app_inv_head in E0).
  assert (∀ j, j ∈ ins ++ consts → j ≠ i) as Hne.
  { intros j Hj. rewrite <- E in Hj. by apply concat_fresh, elem_of_head_concat. }
  assert (cell_type b' i = Some t) as Eti by (unfold cell_type; by rewrite (ad_cell HA)).
  exists consts'. split; [done|]. split.
  - rewrite (ad_ins HA). intros j Hj.
    assert ((t = GateID IN ∧ j = i) ∨ j ∈ ins) as [[Ht ->]|Hj'].
    { case_decide; [|by right]. apply elem_of_app in Hj as [?|Hj]; [by right|].
      left. by apply list_elem_of_singleton in Hj. }
    + by rewrite Eti, Ht.
    + rewrite added_type; [by apply Hi|]. apply Hne. set_solver.
  - intros j Hj. destruct (Hcs j Hj) as [Hj'|[-> [Ht|Ht]]].
    + rewrite added_type; [by apply Hc|]. apply Hne. set_solver.
    + left. by rewrite Eti, Ht.
    + right. by rewrite Eti, Ht.
Qed.

Lemma added_strash key j : strash b' !! key = Some j →
  j ∈ concat segs' ∧ (getCell b' j ≫= makeKey_cell) = Some key.
Proof.
  intros Hk. destruct (ad_strash HA key j Hk) as [Hold|(-> & Ht & Hkey)].
  - destruct (wf_strash _ _ _ _ HW key j Hold) as [Hj Hkey].
    split; [apply concat_placed; by right|]. rewrite (ad_cells HA) by by apply concat_fresh.
    destruct (getCell b j) as [c|]; [|done]. cbn in *. unfold makeKey_cell in *.
    rewrite bump_inputs. by destruct (bump_same (links_to j ls) c) as [(-> & _) _].
  - split; [apply concat_placed; by left|]. by rewrite (ad_cell HA).
Qed.

Lemma added_bufs : count_bufs b' o' = count_bufs b o + (if decide (t = GateID BUF) then 1 else 0).
Proof.
  unfold count_bufs, o'. rewrite (ad_perm HA), filter_cons. fold o.
  assert (cell_type b' i = Some t) as -> by (unfold cell_type; by rewrite (ad_cell HA)).
  assert (filter (λ j, cell_type b' j = Some (GateID BUF)) o
          = filter (λ j, cell_type b j = Some (GateID BUF)) o) as ->.
  { apply list_filter_ext_in. intros j Hj. rewrite added_type; [done|].
    intros ->. by apply added_fresh. }
  repeat case_decide; cbn; try lia; congruence.
Qed.

Lemma WF_added : WF b' ins' outs' segs'.
Proof.
  destruct (wf_nums _ _ _ _ HW) as (_ & _ & Hn & Hb).
  destruct (ad_nums HA) as (E1 & E2 & E3 & E4).
  split.
  - apply HA.
  - rewrite (ad_perm HA). apply (ad_empties HA), HW.
  - apply HA.
  - apply added_seg_cell.
  - apply added_out_cell.
  - apply added_ins.
  - apply added_strash.
  - apply added_refcount.
  - split_all; [done..| |].
    + rewrite E3, Hn. rewrite (ad_perm HA). done.
    + rewrite E4, Hb. symmetry. apply added_bufs.
  - intros Hdis. destruct (ad_normal HA Hdis) as [Hd0 Hn0]. apply Hn0, (wf_normal _ _ _ _ HW), Hd0.
Qed.

End Added.

Lemma live_order `{TypeStore} b ins outs segs j :
  WF b ins outs segs → is_live b j ↔ j ∈ order_of segs outs.
Proof.
  intros HW. pose proof (wf_perm _ _ _ _ HW) as Hp. revert Hp. generalize (order_of segs outs).
  intros o Hp. unfold is_live.
  assert (NoDup (o ++ emptyEntryIDs b)) as Hnd by (rewrite Hp; apply NoDup_seq).
  apply NoDup_app in Hnd as (_ & Hd0 & _).
  assert (j ∈ o ++ emptyEntryIDs b ↔ j < length (entries b)) as Hj.
  { rewrite Hp, elem_of_seq. lia. }
  rewrite elem_of_app in Hj. split; [intros [H1 H2]; tauto|]. intros Ho. split; [tauto|auto].
Qed.
