(* ===== verification/BuilderAlloc.v ===== *)
(** * Allocation of cells: [addCell] keeps the invariant

    The steps of [allocEntry] (a new or a recycled entry, the entry in the map of
    structural hashing, the links, the place in the order) lead from a builder
    that satisfies the invariant to one that does. *)

From S2P Require Import Prelude CellType SubnetBase Builder Order BuilderInv BuilderAdd.
From stdpp Require Import gmap.

(** ** Consequences of equal cores *)

Lemma core_getCell b b' j : core b' = core b → getCell b' j = getCell b j.
Proof. intros Hc. unfold getCell. by rewrite (core_entries _ _ Hc). Qed.

Lemma core_getDepth b b' j : core b' = core b → getDepth b' j = getDepth b j.
Proof.
  intros Hc. unfold getDepth.
  assert ((λ d, (depth d, weight d)) <$> desc b' = (λ d, (depth d, weight d)) <$> desc b) as Hd
    by by injection Hc.
  pose proof (f_equal (lookup j) Hd) as Hj. rewrite !list_lookup_fmap in Hj.
  destruct (desc b' !! j) as [x|], (desc b !! j) as [y|]; cbn in *; try done.
  by injection Hj as -> _.
Qed.

Lemma core_rest b b' : core b' = core b →
  b_nIn b' = b_nIn b ∧ b_nOut b' = b_nOut b ∧ nCell b' = nCell b ∧ nBuf b' = nBuf b ∧
  depthBounds b' = depthBounds b ∧ emptyEntryIDs b' = emptyEntryIDs b ∧ strash b' = strash b ∧
  fanoutsEnabled b' = fanoutsEnabled b.
Proof. unfold core. intros [=]. by split_all. Qed.

(** ** A free entry *)

Definition all_normal (ds : list EntryDescriptor) : Prop :=
  ∀ x, x ∈ ds → prev x = normalOrderID ∧ next x = normalOrderID.

(** [b1] is [b] with the entry [i] taken for a new cell. *)
Record hole (b b1 : SubnetBuilder) (i : nat) (buf : bool) : Prop := {
  ho_lt : i < length (entries b1);
  ho_range : in_range b1;
  ho_entries : ∀ j, j ≠ i → entries b1 !! j = entries b !! j;
  ho_desc : ∀ j, j ≠ i → desc b1 !! j = desc b !! j;
  ho_grow : length (entries b) ≤ length (entries b1);
  ho_order : subnetBegin b1 = subnetBegin b ∧ subnetEnd b1 = subnetEnd b ∧
    isDisassembled b1 = isDisassembled b;
  ho_same : depthBounds b1 = depthBounds b ∧ strash b1 = strash b;
  ho_nums : b_nIn b1 = b_nIn b ∧ b_nOut b1 = b_nOut b ∧ nCell b1 = S (nCell b) ∧
    nBuf b1 = nBuf b + (if buf then 1 else 0);
  ho_empties : ∀ o, o ++ emptyEntryIDs b ≡ₚ seq 0 (length (entries b)) →
    i :: o ++ emptyEntryIDs b1 ≡ₚ seq 0 (length (entries b1));
  ho_normal : all_normal (desc b) → all_normal (desc b1);
  ho_fan : fanoutsEnabled b1 = fanoutsEnabled b;
  ho_fresh : emptyEntryIDs b = [] →
    i = length (entries b) ∧ emptyEntryIDs b1 = [] ∧ length (entries b1) = S (length (entries b));
}.

Lemma removelast_last (l : list nat) x : list.last l = Some x → l = removelast l ++ [x].
Proof.
  destruct l as [|y l _] using rev_ind; [done|]. rewrite last_snoc. intros [= ->].
  by rewrite removelast_last.
Qed.

Lemma allocEntry_buf_hole b o buf :
  in_range b → o ++ emptyEntryIDs b ≡ₚ seq 0 (length (entries b)) →
  ∃ i b1, allocEntry_buf buf b = Some (i, b1) ∧ hole b b1 i buf.
Proof.
  intros Hr Ho. unfold allocEntry_buf.
  set (b0 := if buf then _ else _).
  assert (entries b0 = entries b ∧ desc b0 = desc b ∧ emptyEntryIDs b0 = emptyEntryIDs b ∧
    subnetBegin b0 = subnetBegin b ∧ subnetEnd b0 = subnetEnd b ∧
    isDisassembled b0 = isDisassembled b ∧ depthBounds b0 = depthBounds b ∧ strash b0 = strash b ∧
    b_nIn b0 = b_nIn b ∧ b_nOut b0 = b_nOut b ∧ nCell b0 = S (nCell b) ∧
    nBuf b0 = nBuf b + (if buf then 1 else 0) ∧ fanoutsEnabled b0 = fanoutsEnabled b) as
    (E1 & E2 & E3 & E4 & E5 & E6 & E7 & E8 & E9 & E10 & E11 & E12 & E13).
  { unfold b0. destruct buf; cbn; split_all; done || lia. }
  clearbody b0. destruct (list.last (emptyEntryIDs b0)) as [i|] eqn:El.
  - exists i. eexists. split; [done|]. rewrite E3 in El.
    pose proof (removelast_last _ _ El) as Hl.
    assert (i < length (entries b)) as Hi.
    { assert (i ∈ seq 0 (length (entries b))) as Hs by (rewrite <- Ho, Hl; set_solver).
      apply elem_of_seq in Hs. lia. }
    split; unfold in_range; cbn [entries desc emptyEntryIDs subnetBegin subnetEnd isDisassembled
      depthBounds strash b_nIn b_nOut nCell nBuf with_emptyEntryIDs]; rewrite ?E1, ?E2, ?E3; try done.
    + intros o' Ho'. rewrite <- Ho'. rewrite Hl at 2. rewrite app_assoc, (Permutation_app_comm _ [i]).
      done.
    + intros He. by rewrite He in El.
  - apply last_None in El. exists (length (entries b)). eexists. split.
    { f_equal. f_equal. cbn. rewrite E1, length_app. cbn. lia. }
    split; unfold in_range; cbn [entries desc emptyEntryIDs subnetBegin subnetEnd isDisassembled
      depthBounds strash b_nIn b_nOut nCell nBuf with_entries with_desc];
      rewrite ?E1, ?E2, ?E3, ?length_app; cbn [length]; try done; try lia.
    + by rewrite Hr.
    + intros j Hj. destruct (decide (j < length (entries b))); [by rewrite lookup_app_l|].
      rewrite !lookup_ge_None_2; [done|lia|rewrite length_app; cbn; lia].
    + intros j Hj. rewrite <- Hr in Hj. destruct (decide (j < length (desc b))); [by rewrite lookup_app_l|].
      rewrite !lookup_ge_None_2; [done|lia|rewrite length_app; cbn; lia].
    + intros o' Ho'. rewrite E3 in El. rewrite El in *.
      rewrite app_nil_r in *. rewrite seq_app, <- Ho'. cbn. by rewrite Permutation_app_comm.
    + intros Hn x Hx. apply elem_of_app in Hx as [Hx|Hx]; [by apply Hn|].
      by apply list_elem_of_singleton in Hx as ->.
    + intros He. split_all; [done|done|lia].
Qed.

(** ** A filled entry *)

Section Fill.
Context `{TypeStore}.

(** [b2] is [b] with the cell of type [t] and inputs [ls] in the entry [i],
    before it is placed in the order. *)
Record filled (b b2 : SubnetBuilder) (i d : nat) (t : TypeID) (ls : LinkList) : Prop := {
  fi_range : in_range b2;
  fi_cell : getCell b2 i = Some (new_cell t ls);
  fi_cells : ∀ j, j ≠ i → getCell b2 j = bump (links_to j ls) <$> getCell b j;
  fi_depth : getDepth b2 i = Some (Some d);
  fi_desc : ∀ j, j ≠ i → desc b2 !! j = desc b !! j;
  fi_grow : length (entries b) ≤ length (entries b2);
  fi_order : subnetBegin b2 = subnetBegin b ∧ subnetEnd b2 = subnetEnd b ∧
    isDisassembled b2 = isDisassembled b;
  fi_bounds : depthBounds b2 = depthBounds b;
  fi_strash : ∀ key j, strash b2 !! key = Some j →
    strash b !! key = Some j ∨ (j = i ∧ makeKey t ls = Some key);
  fi_nums : b_nIn b2 = b_nIn b ∧ b_nOut b2 = b_nOut b ∧ nCell b2 = S (nCell b) ∧
    nBuf b2 = nBuf b + (if decide (t = GateID BUF) then 1 else 0);
  fi_empties : ∀ o, o ++ emptyEntryIDs b ≡ₚ seq 0 (length (entries b)) →
    i :: o ++ emptyEntryIDs b2 ≡ₚ seq 0 (length (entries b2));
  fi_normal : all_normal (desc b) → all_normal (desc b2);
  fi_fan : fanoutsEnabled b2 = fanoutsEnabled b;
  fi_fresh : emptyEntryIDs b = [] →
    i = length (entries b) ∧ emptyEntryIDs b2 = [] ∧ length (entries b2) = S (length (entries b));
}.

Lemma links_to_self i ls : (∀ l, l ∈ ls → idx l ≠ i) → links_to i ls = 0.
Proof.
  unfold links_to. induction ls as [|l ls IH]; [done|]. intros Hl.
  rewrite filter_cons_False by (apply Hl; set_solver). apply IH. set_solver.
Qed.

(** The computation of [alloc_fill] up to the placement. *)
Lemma alloc_fill_filled b b1 i d t ls st0 :
  hole b b1 i (bool_decide (t = GateID BUF)) →
  length ls ≤ InPlaceLinks → (t = GateID IN → ls = []) →
  (∀ l, l ∈ ls → idx l ≠ i ∧ ∃ c, getCell b (idx l) = Some c ∧ type c ≠ GateID OUT) →
  depth_from b 0 ls = Some d →
  (∀ key j, st0 !! key = Some j → strash b !! key = Some j ∨ (j = i ∧ makeKey t ls = Some key)) →
  ∃ b2, filled b b2 i d t ls ∧
    alloc_fill t ls i (with_strash st0 b1) = (b3 ← addDepthBounds i b2; d ← getDepth b3 i; d ← d; Some b3).
Proof.
  intros Hh Hl Hin Hls Hd Hst.
  destruct (lookup_lt_is_Some_2 (desc b1) i) as [di Hdi]; [by rewrite (ho_range _ _ _ _ Hh); apply Hh|].
  unfold alloc_fill, upd_desc. cbn [desc with_strash]. rewrite Hdi. cbn [mbind option_bind].
  set (bx := with_desc _ _).
  assert (i < length (desc b1)) as Hlt by by eapply lookup_lt_Some.
  destruct (alloc_links_spec i ls bx (set_depth (Some 0) di) 0 d) as (es & fs & -> & Hlen & Hb).
  { unfold in_range, bx. cbn. rewrite length_insert. apply Hh. }
  { unfold bx. cbn. by apply list_lookup_insert_eq. }
  { done. }
  { intros l Hlin. destruct (Hls l Hlin) as (Hne & c & Hc & Ht). split; [done|]. exists c.
    split; [|done]. rewrite getCell_lookup in Hc |- *. unfold bx; cbn.
    by rewrite (ho_entries _ _ _ _ Hh). }
  { rewrite <- Hd. apply depth_from_ext. intros l Hlin. destruct (Hls l Hlin) as (Hne & _).
    unfold getDepth, bx. cbn. rewrite list_lookup_insert_ne by done.
    by rewrite (ho_desc _ _ _ _ Hh). }
  cbn [mbind option_bind]. rewrite (SubnetCell_new t ls) by done. cbn [mbind option_bind].
  rewrite bool_decide_eq_true_2 by done.
  assert (i < length es) as Hies by (rewrite Hlen; apply Hh).
  eexists. split; [|done].
  destruct (ho_order _ _ _ _ Hh) as (B & E & D). destruct (ho_same _ _ _ _ Hh) as (S1 & S2).
  unfold set_inputs, bx. split; cbn [entries desc emptyEntryIDs subnetBegin subnetEnd isDisassembled
      depthBounds strash b_nIn b_nOut nCell nBuf with_entries with_desc with_strash with_fanouts].
  - unfold in_range. cbn. rewrite !length_insert, Hlen. apply Hh.
  - rewrite getCell_lookup. cbn. by apply list_lookup_insert_eq.
  - intros j Hj. unfold getCell. cbn. rewrite list_lookup_insert_ne by done.
    rewrite Hb. unfold bx. cbn. rewrite (ho_entries _ _ _ _ Hh) by done.
    by destruct (entries b !! j) as [[c| |]|].
  - unfold getDepth. cbn. rewrite list_lookup_insert_eq; [done|]. by rewrite length_insert.
  - intros j Hj. rewrite !list_lookup_insert_ne by done. by apply Hh.
  - rewrite length_insert, Hlen. apply Hh.
  - done.
  - done.
  - done.
  - destruct (ho_nums _ _ _ _ Hh) as (N1 & N2 & N3 & N4). split_all; [done..|].
    rewrite N4. by repeat case_decide; repeat case_bool_decide.
  - intros o Ho. rewrite length_insert, Hlen. by apply Hh.
  - intros Hn x Hx. pose proof (ho_normal _ _ _ _ Hh Hn) as Hn1.
    assert (prev di = normalOrderID ∧ next di = normalOrderID) as Hn2.
    { apply Hn1. by eapply list_elem_of_lookup_2. }
    apply list_elem_of_lookup_1 in Hx as [k Hx]. destruct (decide (k = i)) as [->|Hki].
    + rewrite list_lookup_insert_eq in Hx by by rewrite length_insert. by injection Hx as <-.
    + rewrite !list_lookup_insert_ne in Hx by done. apply Hn1. by eapply list_elem_of_lookup_2.
  - apply Hh.
  - rewrite length_insert, Hlen. apply Hh.
Qed.
End Fill.

(** ** The place of the filled entry *)

Section Place.
Context `{TypeStore}.
Context (b b2 : SubnetBuilder) (ins outs : list nat) (segs : list (list nat)).
Context (i d : nat) (t : TypeID) (ls : LinkList).
Context (HW : WF b ins outs segs) (HF : filled b b2 i d t ls).
Context (Hlen : length ls ≤ InPlaceLinks) (Hv : valid_type t (length ls) = true).
Context (Hls : ∀ l, l ∈ ls → idx l ∈ concat segs) (Hd : depth_from b 0 ls = Some d).

Let o := order_of segs outs.

Lemma filled_fresh : i ∉ o.
Proof.
  pose proof (fi_empties _ _ _ _ _ _ HF o (wf_perm _ _ _ _ HW)) as Hp.
  assert (NoDup (i :: o ++ emptyEntryIDs b2)) as Hnd by (rewrite Hp; apply NoDup_seq).
  apply NoDup_cons in Hnd as [Hn _]. set_solver.
Qed.

Lemma filled_linked : Linked b2 o.
Proof.
  pose proof (wf_linked _ _ _ _ HW) as HL. fold o in HL.
  destruct (fi_order _ _ _ _ _ _ HF) as (B & E & D).
  split; [apply HF|rewrite B; apply HL|rewrite E; apply HL| |apply HL|].
  - eapply chained_ext_at; [|apply (linked_chain _ _ HL)]. intros l1 y z l2 Eo [Hn Hp].
    assert (y ∈ o ∧ z ∈ o) as [Hy Hz] by (rewrite Eo; split; set_solver).
    assert (y ≠ i ∧ z ≠ i) as [Hyi Hzi] by (split; intros ->; by apply filled_fresh).
    unfold linked, nextOf, prevOf. by rewrite !(fi_desc _ _ _ _ _ _ HF) by done.
  - intros x Hx. pose proof (linked_range _ _ HL x Hx). pose proof (fi_grow _ _ _ _ _ _ HF). lia.
Qed.

Lemma filled_depth j : j ≠ i → getDepth b2 j = getDepth b j.
Proof. intros Hj. unfold getDepth. by rewrite (fi_desc _ _ _ _ _ _ HF). Qed.

(** The facts shared by the placements: [b3] is [b2] with the entry in the
    order and with the bounds of the new segments. *)
Lemma filled_added b3 ins' outs' segs' :
  Linked b3 (order_of segs' outs') → keeps (with_depthBounds (bounds segs') b2) b3 →
  order_of segs' outs' ≡ₚ i :: o → length segs ≤ length segs' ∧ d < length segs' →
  (∀ d' s j, segs' !! d' = Some s → j ∈ s →
    (j = i ∧ d' = d ∧ t ≠ GateID OUT) ∨ ∃ s0, segs !! d' = Some s0 ∧ j ∈ s0) →
  outs' = (if decide (t = GateID OUT) then outs ++ [i] else outs) →
  ins' = (if decide (t = GateID IN) then ins ++ [i] else ins) →
  (∃ consts consts', default [] (head segs) = ins ++ consts ∧
    default [] (head segs') = ins' ++ consts' ∧
    (∀ j, j ∈ consts' → j ∈ consts ∨ (j = i ∧ (t = GateID ZERO ∨ t = GateID ONE)))) →
  ∀ b4, (∃ n m, b4 = with_b_nOut m (with_b_nIn n b3)) →
    b_nIn b4 = length ins' → b_nOut b4 = length outs' →
    added b b4 ins outs ins' outs' segs segs' i d t ls.
Proof.
  intros HL [Hc Hk] Hp Hlseg Hs Ho Hi Hio b4 (n & m & ->) Hn Hm.
  destruct (core_rest _ _ Hc) as (R1 & R2 & R3 & R4 & R5 & R6 & R7 & R9). cbn in R1, R2, R3, R4, R5, R6, R7, R9.
  assert (∀ j, getCell b3 j = getCell b2 j) as Ec by (intros j; apply (core_getCell _ _ j Hc)).
  assert (∀ j, getDepth b3 j = getDepth b2 j) as Ed by (intros j; apply (core_getDepth _ _ j Hc)).
  pose proof (core_entries _ _ Hc) as Ee. cbn in Ee.
  split; try done.
  - change (getCell b3 i = Some (new_cell t ls)). rewrite Ec. apply HF.
  - intros j Hj. change (getCell b3 j = bump (links_to j ls) <$> getCell b j). rewrite Ec. by apply HF.
  - change (getDepth b3 i = Some (Some d)). rewrite Ed. apply HF.
  - intros j Hj. change (getDepth b3 j = getDepth b j). rewrite Ed. by apply filled_depth.
  - by apply (Linked_fields b3).
  - intros o' Ho'. cbn. rewrite Ee, R6. by apply HF.
  - intros key j Hkey. cbn in Hkey. rewrite R7 in Hkey.
    destruct (fi_strash _ _ _ _ _ _ HF key j Hkey) as [?|[-> Hmk]]; [by left|]. right.
    assert (isEnabled t ls = true) as He.
    { unfold makeKey in Hmk. by destruct (isEnabled t ls). }
    split; [done|]. split.
    + unfold isEnabled in He. apply bool_decide_eq_true in He. tauto.
    + unfold makeKey_cell. by rewrite new_cell_inputs.
  - cbn in Hn, Hm. destruct (fi_nums _ _ _ _ _ _ HF) as (N1 & N2 & N3 & N4).
    cbn. split_all; [done|done|by rewrite R3|by rewrite R4].
  - cbn. intros Hdis. destruct (Hk Hdis) as [Hd2 Ed2]. cbn in Hd2, Ed2.
    destruct (fi_order _ _ _ _ _ _ HF) as (_ & _ & D). rewrite D in Hd2. split; [done|].
    rewrite Ed2. apply (fi_normal _ _ _ _ _ _ HF).
  - cbn. rewrite Ee, R9. split; [apply (fi_grow _ _ _ _ _ _ HF)|apply (fi_fan _ _ _ _ _ _ HF)].
  - cbn. rewrite Ee, R6. apply (fi_fresh _ _ _ _ _ _ HF).
Qed.

Lemma placed_lookup d' s0 s x :
  placed segs d s0 !! d' = Some s → x ∈ s →
  (d' = d ∧ s = s0) ∨ (d' ≠ d ∧ segs !! d' = Some s).
Proof.
  unfold placed. intros Hs Hx. destruct (decide (d' = d)) as [->|Hne].
  - left. rewrite list_lookup_insert_eq in Hs.
    + by injection Hs as ->.
    + unfold pad. rewrite length_app, length_replicate. lia.
  - right. split; [done|]. rewrite list_lookup_insert_ne in Hs by done.
    apply lookup_pad_inv in Hs; [done|]. intros ->. set_solver.
Qed.

Lemma order_placed s1 s2 :
  default [] (segs !! d) = s1 ++ s2 → order_of (placed segs d (s1 ++ i :: s2)) outs ≡ₚ i :: o.
Proof.
  intros Hs. unfold o, placed. rewrite <- (order_pad (S d) segs).
  assert (pad (S d) segs !! d = Some (s1 ++ s2)) as Hp by (rewrite lookup_pad by lia; by rewrite Hs).
  rewrite (order_insert _ _ _ _ _ Hp), (order_split _ outs _ _ Hp).
  rewrite <- (Permutation_middle s1). cbn [app]. by rewrite <- Permutation_middle.
Qed.

(** A valid cell of depth 0 is an input or a constant. *)
Lemma valid_zero : ls = [] → t ≠ GateID IN → t = GateID ZERO ∨ t = GateID ONE.
Proof.
  intros -> Ht. revert Hv. unfold valid_type. cbn [length replicate].
  destruct t as [|s|u]; [done| |by rewrite andb_false_r].
  destruct s; try done; auto.
Qed.

Lemma depth_zero : d = 0 → ls = [].
Proof.
  intros E. destruct ls as [|l ls0]; [done|]. exfalso. rewrite E in Hd.
  apply depth_from_cons in Hd as (dl & Hdl & Hd0).
  assert (idx l ∈ concat segs) as Hin by (apply Hls; set_solver).
  apply elem_of_concat in Hin as (s & Hx & Hs). apply list_elem_of_lookup_1 in Hs as [k Hk].
  destruct (wf_seg _ _ _ _ HW k s _ Hk Hx) as (c & _ & _ & _ & _ & Hdk & _).
  rewrite Hdl in Hdk. injection Hdk as ->. cbn in Hd0.
  assert (∀ ks m, depth_from b (S m) ks ≠ Some 0) as Hpos.
  { clear. intros ks; induction ks as [|x ks IH]; intros m Hm; [done|].
    apply depth_from_cons in Hm as (dx & _ & Hm). revert Hm.
    replace (max (S m) (depth_succ dx)) with (S (max (S m) (depth_succ dx) - 1)) by lia. apply IH. }
  by apply (Hpos _ _ Hd0).
Qed.

Lemma segs_zero_const x : x ∈ default [] (head segs) →
  cell_type b x = Some (GateID IN) ∨ cell_type b x = Some (GateID ZERO) ∨ cell_type b x = Some (GateID ONE).
Proof.
  destruct (wf_ins _ _ _ _ HW) as (consts & -> & Hi & Hc). intros [Hx|Hx]%elem_of_app.
  - left. by apply Hi.
  - right. by apply Hc.
Qed.

Lemma head_placed s :
  default [] (head (placed segs d s)) = if decide (d = 0) then s else default [] (head segs).
Proof.
  rewrite !head_lookup. unfold placed. case_decide as E.
  - rewrite E. rewrite list_lookup_insert_eq; [done|].
    unfold pad. rewrite length_app, length_replicate. lia.
  - rewrite list_lookup_insert_ne by done. by rewrite lookup_pad by lia.
Qed.

Lemma depth_from_attained (ks : LinkList) d0 d1 :
  depth_from b d0 ks = Some d1 →
  d1 = d0 ∨ ∃ l dl, l ∈ ks ∧ getDepth b (idx l) = Some dl ∧ depth_succ dl = d1.
Proof.
  clear. revert d0; induction ks as [|k ks IH]; intros d0 Hk.
  { left. unfold depth_from in Hk. cbn in Hk. by injection Hk. }
  apply depth_from_cons in Hk as (dl & Hdl & Hk).
  destruct (IH _ Hk) as [E|(l & dl' & Hl & Hdl' & E)].
  - destruct (decide (d1 = d0)); [by left|]. right. exists k, dl. split_all; [set_solver|done|lia].
  - right. exists l, dl'. split_all; [set_solver|done|done].
Qed.

(** Below a cell of positive depth there is a cell. *)
Lemma below_nonempty d' : d = S d' → ∃ s p, segs !! d' = Some (s ++ [p]).
Proof.
  intros E. destruct (depth_from_attained _ _ _ Hd) as [E0|(l & dl & Hl & Hdl & Es)]; [lia|].
  pose proof (Hls l Hl) as Hin. apply elem_of_concat in Hin as (s & Hx & Hs).
  apply list_elem_of_lookup_1 in Hs as [k Hk].
  destruct (wf_seg _ _ _ _ HW k s _ Hk Hx) as (c & _ & _ & _ & _ & Hdk & _).
  rewrite Hdl in Hdk. injection Hdk as ->. cbn in Es. assert (k = d') as -> by lia.
  destruct s as [|p s _] using rev_ind; [set_solver|]. by exists s, p.
Qed.

Definition ins_after : list nat := if decide (t = GateID IN) then ins ++ [i] else ins.
Definition outs_after : list nat := if decide (t = GateID OUT) then outs ++ [i] else outs.

(** What a placement gives: the builder up to its numbers of inputs and outputs. *)
Definition placement (b3 : SubnetBuilder) (segs' : list (list nat)) : Prop :=
  addDepthBounds i b2 = Some b3 ∧ (b_nIn b3 = b_nIn b ∧ b_nOut b3 = b_nOut b) ∧
  ∀ n m, n = length ins_after → m = length outs_after →
    added b (with_b_nOut m (with_b_nIn n b3)) ins outs ins_after outs_after segs segs' i d t ls.

Lemma keeps_nums db b3 :
  keeps (with_depthBounds db b2) b3 → b_nIn b3 = b_nIn b ∧ b_nOut b3 = b_nOut b.
Proof.
  intros [Hc _]. destruct (core_rest _ _ Hc) as (R1 & R2 & _).
  destruct (fi_nums _ _ _ _ _ _ HF) as (N1 & N2 & _). cbn in R1, R2. split; congruence.
Qed.

Lemma place_out : t = GateID OUT → ∃ b3 segs', placement b3 segs'.
Proof.
  intros Ht. pose proof filled_linked as HL.
  assert (depthBounds b2 = bounds segs) as Hb by (rewrite (fi_bounds _ _ _ _ _ _ HF); apply HW).
  destruct (addDepthBounds_out b2 segs outs i d _ HL Hb (fi_cell _ _ _ _ _ _ HF)
              (fi_depth _ _ _ _ _ _ HF) filled_fresh) as (b3 & E3 & HL3 & Hk3); [done| |].
  { intros Eo. destruct ls as [|l ls0]; [by rewrite Ht in Hv|].
    assert (idx l ∈ concat segs) as Hin by (apply Hls; set_solver).
    unfold order_of in Eo. apply app_eq_nil in Eo as [Eo _]. rewrite Eo in Hin. set_solver. }
  exists b3, (pad (S d) segs). split; [done|]. split; [by eapply keeps_nums|]. intros n m -> ->.
  assert (outs_after = outs ++ [i]) as Eo by (unfold outs_after; by rewrite decide_True).
  assert (ins_after = ins) as Ei by (unfold ins_after; by rewrite decide_False by by rewrite Ht).
  eapply (filled_added b3); [by rewrite Eo|done| | | |done|done| | by eexists _, _|done|done].
  - rewrite order_pad, Eo. unfold o, order_of. rewrite app_assoc. by rewrite Permutation_app_comm.
  - unfold pad. rewrite length_app, length_replicate. lia.
  - intros d' s j Hs Hj. right. exists s. split; [|done]. apply lookup_pad_inv in Hs; [done|].
    intros ->. set_solver.
  - destruct (wf_ins _ _ _ _ HW) as (consts & E & _). exists consts, consts.
    rewrite Ei. split_all; [done| |auto]. rewrite <- E, !head_lookup. by rewrite lookup_pad by lia.
Qed.

(** A placement at depth [d] between the parts [s1] and [s2] of its segment. *)
Lemma place_segment b3 s1 s2 :
  t ≠ GateID OUT → default [] (segs !! d) = s1 ++ s2 →
  addDepthBounds i b2 = Some b3 → Linked b3 (order_of (placed segs d (s1 ++ i :: s2)) outs) →
  keeps (with_depthBounds (bounds (placed segs d (s1 ++ i :: s2))) b2) b3 →
  (d = 0 → ∃ consts, s1 ++ s2 = ins ++ consts ∧
     ((t = GateID IN ∧ s1 = ins) ∨ (t ≠ GateID IN ∧ s2 = []))) →
  placement b3 (placed segs d (s1 ++ i :: s2)).
Proof.
  intros Ht Hs E3 HL3 Hk3 H0. split; [done|]. split; [by eapply keeps_nums|]. intros n m -> ->.
  assert (outs_after = outs) as Eo by (unfold outs_after; by rewrite decide_False).
  eapply (filled_added b3); [by rewrite Eo|done| | | |done|done| | by eexists _, _|done|done].
  - rewrite Eo. by apply order_placed.
  - unfold placed, pad. rewrite length_insert, length_app, length_replicate. lia.
  - intros d' s j Hd' Hj. destruct (placed_lookup _ _ _ _ Hd' Hj) as [[-> ->]|[Hne Hs']].
    + apply elem_of_app in Hj as [Hj|Hj]; [|apply elem_of_cons in Hj as [->|Hj]];
        [right|by left|right]; (destruct (segs !! d) as [s0|] eqn:E0; cbn in Hs;
        [exists s0; split; [done|]; rewrite Hs; set_solver
        |symmetry in Hs; apply app_eq_nil in Hs as [-> ->]; set_solver]).
    + right. by exists s.
  - destruct (wf_ins _ _ _ _ HW) as (consts & Ec & _).
    rewrite head_placed. case_decide as E0.
    + rewrite E0 in Hs. rewrite <- head_lookup, Ec in Hs.
      destruct (H0 E0) as (consts0 & Es & Hcase). rewrite Es in Hs. apply app_inv_head in Hs as <-.
      destruct Hcase as [[Hin ->]|[Hin ->]].
      * apply app_inv_head in Es as ->. exists consts, consts.
        unfold ins_after. rewrite decide_True by done. rewrite <- app_assoc. split_all; [done..|auto].
      * rewrite app_nil_r in Es. exists consts, (consts ++ [i]). unfold ins_after.
        rewrite decide_False by done. rewrite Es, <- app_assoc. split_all; [done..|].
        intros j [Hj|Hj]%elem_of_app; [by left|]. right. apply list_elem_of_singleton in Hj as ->.
        split; [done|]. apply valid_zero; [by apply depth_zero|done].
    + exists consts, consts. unfold ins_after. rewrite decide_False; [split_all; [done..|auto]|].
      intros Hin. destruct ls as [|l ls0]; [|by rewrite Hin in Hv].
      unfold depth_from in Hd. cbn in Hd. by injection Hd as <-.
Qed.

Definition ready : Prop := t = GateID IN → ins ≠ [] ∨ default [] (list.head segs) = [].

Lemma zero_segment s1 : d = 0 → t ≠ GateID IN → default [] (segs !! d) = s1 →
  ∃ consts, s1 ++ [] = ins ++ consts ∧ ((t = GateID IN ∧ s1 = ins) ∨ (t ≠ GateID IN ∧ [] = @nil nat)).
Proof.
  intros E0 Ht <-. destruct (wf_ins _ _ _ _ HW) as (consts & Ec & _).
  exists consts. rewrite app_nil_r, E0, <- head_lookup. auto.
Qed.

Lemma place_empty : t ≠ GateID OUT → default [] (segs !! d) = [] → ∃ b3 segs', placement b3 segs'.
Proof.
  intros Ht Hs. pose proof filled_linked as HL.
  assert (depthBounds b2 = bounds segs) as Hb by (rewrite (fi_bounds _ _ _ _ _ _ HF); apply HW).
  destruct (decide (d = 0)) as [E0|Hne].
  - destruct (place_empty_lower b2 segs outs i d _ HL Hb (fi_cell _ _ _ _ _ _ HF)
      (fi_depth _ _ _ _ _ _ HF) filled_fresh) as (b3 & E3 & HL3 & Hk3); [done..|].
    exists b3, (placed segs d ([] ++ i :: [])). apply place_segment; try done.
    intros _. destruct (wf_ins _ _ _ _ HW) as (consts & Ec & _).
    rewrite head_lookup, <- E0, Hs in Ec. symmetry in Ec.
    pose proof (app_eq_nil _ _ Ec) as [Ei _]. exists consts. rewrite Ec. split; [done|].
    destruct (decide (t = GateID IN)); [left|right]; by rewrite ?Ei.
  - assert (∃ d', d = S d') as [d' E] by (exists (d - 1); lia).
    destruct (below_nonempty d' E) as (s & p & Hp).
    destruct (place_empty_mid b2 segs outs i d _ HL Hb (fi_cell _ _ _ _ _ _ HF)
      (fi_depth _ _ _ _ _ _ HF) filled_fresh d' s p) as (b3 & E3 & HL3 & Hk3); [done..|].
    exists b3, (placed segs d ([] ++ i :: [])). by apply place_segment.
Qed.

(** The pivot of an input is the last input, of another cell the last cell of
    its depth. *)
Lemma place_pivot s p s2 :
  t ≠ GateID OUT → segs !! d = Some (s ++ p :: s2) →
  (t = GateID IN ∧ d = 0 ∧ ins = s ++ [p]) ∨ (t ≠ GateID IN ∧ s2 = []) →
  ∃ b3 segs', placement b3 segs'.
Proof.
  intros Ht Hs Hcase. pose proof filled_linked as HL.
  assert (depthBounds b2 = bounds segs) as Hb by (rewrite (fi_bounds _ _ _ _ _ _ HF); apply HW).
  destruct (addDepthBounds_pivot b2 segs outs i d _ HL Hb (fi_cell _ _ _ _ _ _ HF)
    (fi_depth _ _ _ _ _ _ HF) filled_fresh s p s2) as (b3 & E3 & HL3 & Hk3); [done|done| |].
  - destruct Hcase as [(Hin & E0 & Ei)|[Hin ->]].
    + assert ((d =? 0) && cell_is IN (new_cell t ls) = true) as ->.
      { rewrite E0. unfold cell_is. cbn [type new_cell]. by rewrite bool_decide_eq_true_2. }
      assert (default [] (list.head segs) = s ++ p :: s2) as Eh by (rewrite head_lookup, <- E0; by rewrite Hs).
      destruct (wf_ins _ _ _ _ HW) as (consts & Ec & Hi & Hc).
      assert (consts = s2) as ->.
      { rewrite Eh, Ei, <- app_assoc in Ec. apply app_inv_head in Ec. by injection Ec. }
      assert (∀ x, x ∈ s ++ p :: s2 → x ≠ i) as Hxi.
      { intros x Hx ->. apply filled_fresh. unfold o, order_of. apply elem_of_app. left.
        apply elem_of_head_concat. by rewrite Eh. }
      assert (∀ x, x ≠ i → cell_type b2 x = cell_type b x) as Htx.
      { intros x Hx. unfold cell_type. rewrite (fi_cells _ _ _ _ _ _ HF) by done.
        destruct (getCell b x) as [cx|]; [|done]. cbn. f_equal.
        by destruct (bump_same (links_to x ls) cx) as [(-> & _) _]. }
      assert (cell_type b2 p = Some (GateID IN)) as Htp.
      { rewrite Htx by (apply Hxi; set_solver). apply Hi. rewrite Ei. set_solver. }
      apply fmap_Some in Htp as (cp & Hcp & Ecp).
      unfold o in HL.
      rewrite (order_split segs outs d _ Hs), <- app_assoc in HL. rewrite app_assoc in HL.
      cbn [app] in HL.
      eapply (skip_constants_spec _ _ p s2 _ _ cp).
      * apply (place_linked b2). exact HL.
      * cbn. pose proof (linked_range _ _ HL) as Hr. pose proof (linked_nodup _ _ HL) as Hnd.
        assert (p :: s2 ++ concat (drop (S d) segs) ++ outs ⊆+ seq 0 (length (entries b2))) as Hsub.
        { apply NoDup_submseteq; [by apply NoDup_app in Hnd as (_ & _ & Hnd)|].
          intros x Hx. apply elem_of_seq. split; [lia|]. apply Hr. set_solver. }
        apply submseteq_length in Hsub. rewrite length_seq in Hsub. cbn in Hsub.
        rewrite length_app in Hsub. lia.
      * exact Hcp.
      * unfold cell_is. by rewrite <- Ecp.
      * intros x Hx. change (cell_type b2 x = Some (GateID ZERO) ∨ cell_type b2 x = Some (GateID ONE)).
        rewrite Htx by (apply Hxi; set_solver). by apply Hc.
    + assert ((d =? 0) && cell_is IN (new_cell t ls) = false) as ->; [|done].
      unfold cell_is. cbn [type new_cell]. rewrite bool_decide_eq_false_2 by done. apply andb_false_r.
  - exists b3, (placed segs d ((s ++ [p]) ++ i :: s2)).
    apply place_segment; rewrite <- ?app_assoc; try done; [by rewrite Hs|].
    intros E0. destruct (wf_ins _ _ _ _ HW) as (consts & Ec & _).
    exists consts. rewrite <- Ec, head_lookup, <- E0, Hs. split; [done|].
    destruct Hcase as [(Hin & _ & Ei)|[Hin E2]]; [by left|by right].
Qed.

Lemma place_cell : ready → ∃ b3 segs', placement b3 segs'.
Proof.
  intros Hready. destruct (decide (t = GateID OUT)) as [Ht|Ht]; [by apply place_out|].
  destruct (decide (default [] (segs !! d) = [])) as [Hs|Hs]; [by apply place_empty|].
  destruct (segs !! d) as [s|] eqn:Es; [cbn in Hs|done].
  destruct (decide (t = GateID IN)) as [Hin|Hin].
  - assert (d = 0) as E0.
    { destruct ls as [|l ls0]; [|by rewrite Hin in Hv].
      unfold depth_from in Hd. cbn in Hd. by injection Hd as <-. }
    destruct (wf_ins _ _ _ _ HW) as (consts & Ec & _).
    rewrite head_lookup, <- E0, Es in Ec. cbn in Ec.
    destruct (Hready Hin) as [Hne|Hn]; [|by rewrite head_lookup, <- E0, Es in Hn].
    destruct (exists_last Hne) as (s1 & p & Ei).
    rewrite Ei, <- app_assoc in Ec. rewrite Ec in Es.
    apply (place_pivot s1 p consts Ht Es). left. by split_all.
  - destruct s as [|p s1 _] using rev_ind; [done|].
    apply (place_pivot s1 p [] Ht Es). by right.
Qed.
End Place.

(** ** [addCell] *)

Section AddCell.
Context `{TypeStore}.

(** What [addCell t ls] returns: a link to a cell of the type with the links,
    reordered at most when the operation is commutative. *)
Definition is_cell (b : SubnetBuilder) (t : TypeID) (ls : LinkList) (l : Link) : Prop :=
  out l = 0 ∧ inv l = false ∧ is_live b (idx l) ∧
  ∃ c ty, getCell b (idx l) = Some c ∧ type c = t ∧ getType t = Some ty ∧
    (getInPlaceLinks c = ls ∨ (commutative (props ty) = true ∧ getInPlaceLinks c ≡ₚ ls)).

(** An input can be added: there is an input already, or no cell of depth 0. *)
Definition input_ready (b : SubnetBuilder) (ins : list nat) : Prop :=
  ins ≠ [] ∨ ∀ i, is_live b i → cell_type b i ≠ Some (GateID ZERO) ∧ cell_type b i ≠ Some (GateID ONE).

Lemma fixate_id b o : Linked b o → fixate b = b.
Proof.
  intros HL. destruct (Linked_not_normal _ _ HL) as (H1 & H2 & _).
  unfold fixate. cbn zeta. rewrite (decide_False (P := subnetBegin b = normalOrderID)) by done.
  by rewrite decide_False.
Qed.

Lemma insert_link_perm x ls : insert_link x ls ≡ₚ x :: ls.
Proof.
  induction ls as [|y ls IH]; [done|]. cbn. destruct (link_lt y x); [|done].
  rewrite IH. apply perm_swap.
Qed.

Lemma sort_links_perm ls : sort_links ls ≡ₚ ls.
Proof. induction ls as [|x ls IH]; [done|]. cbn. by rewrite insert_link_perm, IH. Qed.

Lemma pad3_inj ls ks :
  length ls = length ks → length ls ≤ InPlaceLinks → pad3 ls = pad3 ks → ls = ks.
Proof.
  intros Hl Hb E. apply (f_equal (take (length ls))) in E. unfold pad3 in E.
  rewrite !take_take, !Nat.min_l in E by lia.
  rewrite !take_app_le in E by lia. rewrite !take_ge in E by lia. done.
Qed.

(** Equal keys: the same type, and the same links up to the order if the type
    is commutative. *)
Lemma makeKey_inj t ls t' ls' key ty :
  getType t = Some ty → makeKey t ls = Some key → makeKey t' ls' = Some key →
  t' = t ∧ (ls' = ls ∨ (commutative (props ty) = true ∧ ls' ≡ₚ ls)).
Proof.
  unfold makeKey. intros Hty. destruct (isEnabled t ls) eqn:E1; [|done]. rewrite Hty.
  cbn [mbind option_bind]. intros [= <-]. destruct (isEnabled t' ls') eqn:E2; [|done].
  destruct (getType t') as [ty'|] eqn:Hty'; [|done]. cbn [mbind option_bind].
  intros [= -> El Ep]. split; [done|]. rewrite Hty in Hty'. injection Hty' as <-.
  unfold isEnabled in E1, E2. apply bool_decide_eq_true in E1 as (_ & _ & E1).
  apply bool_decide_eq_true in E2 as (_ & _ & E2).
  destruct (commutative (props ty)).
  - right. split; [done|]. apply pad3_inj in Ep.
    + by rewrite <- (sort_links_perm ls'), <- (sort_links_perm ls), Ep.
    + rewrite !sort_links_perm. lia.
    + rewrite sort_links_perm. lia.
  - left. by apply pad3_inj.
Qed.

Lemma seg_elem (segs : list (list nat)) j : j ∈ concat segs → ∃ d s, segs !! d = Some s ∧ j ∈ s.
Proof.
  intros (s & Hj & (d & Hd)%list_elem_of_lookup_1)%elem_of_concat. by exists d, s.
Qed.

Lemma WF_live b ins outs segs j : WF b ins outs segs → is_live b j ↔ j ∈ order_of segs outs.
Proof. apply live_order. Qed.

(** The source of a link lies in the segments, and has a depth. *)
Lemma src_concat b ins outs segs l :
  WF b ins outs segs → src b l → idx l ∈ concat segs ∧ ∃ d, getDepth b (idx l) = Some (Some d).
Proof.
  intros HW (Hl & _ & c & Hc & Ht). apply (WF_live _ _ _ _ _ HW) in Hl.
  unfold order_of in Hl. apply elem_of_app in Hl as [Hl|Hl].
  - split; [done|]. destruct (seg_elem _ _ Hl) as (d & s & Hs & Hj).
    destruct (wf_seg _ _ _ _ HW d s _ Hs Hj) as (_ & _ & _ & _ & _ & Hd & _). by exists d.
  - destruct (wf_outs _ _ _ _ HW _ Hl) as (c' & Hc' & _ & Ht' & _). congruence.
Qed.

Lemma concat_src b ins outs segs i :
  WF b ins outs segs → i ∈ concat segs →
  is_live b i ∧ ∃ c, getCell b i = Some c ∧ type c ≠ GateID OUT.
Proof.
  intros HW Hi. split.
  - apply (WF_live _ _ _ _ _ HW). unfold order_of. set_solver.
  - destruct (seg_elem _ _ Hi) as (d & s & Hs & Hj).
    destruct (wf_seg _ _ _ _ HW d s _ Hs Hj) as (c & Hc & _ & Ht & _). by exists c.
Qed.

Lemma srcs_depth b ins outs segs ls d0 :
  WF b ins outs segs → srcs b ls → ∃ d, depth_from b d0 ls = Some d.
Proof.
  intros HW Hs. revert d0. induction Hs as [|l ls Hl Hs IH]; intros d0; [by eexists|].
  destruct (src_concat _ _ _ _ _ HW Hl) as (_ & dl & Hdl).
  destruct (IH (max d0 (depth_succ (Some dl)))) as [d Hd]. exists d.
  unfold depth_from in *. cbn [foldl mbind option_bind]. rewrite Hdl. exact Hd.
Qed.

Lemma added_ext b b' ins outs ins' outs' segs segs' i d t ls :
  WF b ins outs segs → WF b' ins' outs' segs' →
  added b b' ins outs ins' outs' segs segs' i d t ls → ext b b'.
Proof.
  intros HW HW' HA. destruct (ad_grow _ _ _ _ _ _ _ _ _ _ _ _ HA) as [G1 G2].
  split; [|unfold grows; split_all; [done| |done]; intros He; by apply (ad_fresh _ _ _ _ _ _ _ _ _ _ _ _ HA)].
  intros j c Hl Hc. apply (WF_live _ _ _ _ _ HW) in Hl. split.
  - apply (WF_live _ _ _ _ _ HW'). rewrite (ad_perm _ _ _ _ _ _ _ _ _ _ _ _ HA). set_solver.
  - assert (j ≠ i) as Hji.
    { intros ->. by apply (added_fresh _ _ _ _ _ _ _ _ _ _ _ _ HA). }
    exists (bump (links_to j ls) c). split; [|apply bump_same].
    by rewrite (ad_cells _ _ _ _ _ _ _ _ _ _ _ _ HA), Hc.
Qed.

Section New.
Context (b : SubnetBuilder) (ins outs : list nat) (segs : list (list nat)).
Context (t : TypeID) (ls : LinkList) (ty : CellType).
Context (HW : WF b ins outs segs) (Hty : getType t = Some ty).
Context (Hlen : length ls ≤ InPlaceLinks) (Hv : valid_type t (length ls) = true).
Context (Hs : srcs b ls) (Hready : t = GateID IN → input_ready b ins).

Definition after_ins (i : nat) : list nat := if decide (t = GateID IN) then ins ++ [i] else ins.
Definition after_outs (i : nat) : list nat := if decide (t = GateID OUT) then outs ++ [i] else outs.

Lemma srcs_concat l : l ∈ ls → idx l ∈ concat segs.
Proof.
  intros Hl. unfold srcs in Hs. rewrite list.Forall_forall in Hs.
  by destruct (src_concat _ _ _ _ _ HW (Hs l Hl)).
Qed.

Lemma segs_ready : ready ins segs t.
Proof.
  intros Ht. destruct (Hready Ht) as [?|Hn]; [by left|].
  destruct (decide (ins = [])) as [Ei|]; [right|by left].
  destruct (wf_ins _ _ _ _ HW) as (consts & Ec & _ & Hc). rewrite Ec, Ei. cbn.
  destruct consts as [|x consts]; [done|]. exfalso.
  assert (x ∈ concat segs) as Hx by (apply elem_of_head_concat; rewrite Ec; set_solver).
  destruct (concat_src _ _ _ _ _ HW Hx) as [Hl _]. destruct (Hn x Hl) as [H1 H2].
  destruct (Hc x); [set_solver|done|done].
Qed.

(** The new cell, from the entry taken for it. *)
Lemma alloc_new i b1 st0 :
  hole b b1 i (bool_decide (t = GateID BUF)) →
  (∀ key j, st0 !! key = Some j → strash b !! key = Some j ∨ (j = i ∧ makeKey t ls = Some key)) →
  ∃ b3, alloc_fill t ls i (with_strash st0 b1) = Some b3 ∧
    (b_nIn b3 = length ins ∧ b_nOut b3 = length outs) ∧
    ∀ n m, n = length (after_ins i) → m = length (after_outs i) →
      let b4 := with_b_nOut m (with_b_nIn n b3) in
      (wf b4 (after_ins i) (after_outs i) ∧ ext b b4 ∧ is_live b4 i ∧
      getCell b4 i = Some (new_cell t ls)) ∧
      (∀ o, o ++ emptyEntryIDs b ≡ₚ seq 0 (length (entries b)) →
        i :: o ++ emptyEntryIDs b4 ≡ₚ seq 0 (length (entries b4))).
Proof.
  intros Hh Hst. destruct (srcs_depth _ _ _ _ ls 0 HW Hs) as [d Hd].
  assert (t = GateID IN → ls = []) as Hin.
  { intros ->. destruct ls; [done|]. by cbn in Hv. }
  assert (i ∉ order_of segs outs) as Hi.
  { pose proof (ho_empties _ _ _ _ Hh _ (wf_perm _ _ _ _ HW)) as Hp.
    assert (NoDup (i :: order_of segs outs ++ emptyEntryIDs b1)) as Hnd by (rewrite Hp; apply NoDup_seq).
    apply NoDup_cons in Hnd as [Hnd _]. set_solver. }
  destruct (alloc_fill_filled b b1 i d t ls st0 Hh Hlen Hin) as (b2 & HF & ->); [|done|done|].
  { intros l Hl. pose proof (srcs_concat l Hl) as Hc. split.
    - intros E. apply Hi. rewrite <- E. unfold order_of. set_solver.
    - by destruct (concat_src _ _ _ _ _ HW Hc) as [_ ?]. }
  destruct (place_cell b b2 ins outs segs i d t ls HW HF Hlen Hv srcs_concat Hd segs_ready)
    as (b3 & segs' & -> & [N1 N2] & HA).
  destruct (wf_nums _ _ _ _ HW) as (M1 & M2 & _). cbn [mbind option_bind].
  pose proof (HA _ _ eq_refl eq_refl) as HA0.
  assert (getDepth b3 i = Some (Some d)) as -> by apply (ad_depth _ _ _ _ _ _ _ _ _ _ _ _ HA0).
  cbn [mbind option_bind]. exists b3. split; [done|]. split; [split; congruence|].
  intros n m Hn Hm. set (b4 := with_b_nOut m (with_b_nIn n b3)). specialize (HA n m Hn Hm). fold b4 in HA.
  assert (WF b4 (after_ins i) (after_outs i) segs') as HW4.
  { eapply WF_added; [exact HW|exact HA|done|done|exact srcs_concat| |exact Hd].
    eapply Forall_impl; [exact Hs|]. by intros l (_ & Ho & _). }
  split; [|exact (ad_empties _ _ _ _ _ _ _ _ _ _ _ _ HA)].
  split; [by exists segs'|]. split; [by eapply added_ext|]. split.
  - apply (WF_live _ _ _ _ _ HW4). rewrite (ad_perm _ _ _ _ _ _ _ _ _ _ _ _ HA). set_solver.
  - apply (ad_cell _ _ _ _ _ _ _ _ _ _ _ _ HA).
Qed.
End New.

(** The counts of inputs and outputs after [allocEntry]. *)
Definition count_io (t : TypeID) (b : SubnetBuilder) : SubnetBuilder :=
  let b := if decide (t = GateID IN) then with_b_nIn (S (b_nIn b)) b else b in
  if decide (t = GateID OUT) then with_b_nOut (S (b_nOut b)) b else b.

Lemma addCell_unfold `{Build} t ls b ty :
  getType t = Some ty → negative (props ty) = false →
  addCell t ls b = ('(i, b) ← allocEntry t ls b; Some (LinkTo i, count_io t b)).
Proof.
  intros Hty Hn. unfold addCell, st_read, st_assert, st_modify. unfold mbind at 1 2, st_bind.
  rewrite Hty, Hn. cbn [negb]. unfold mbind, st_bind.
  by destruct (allocEntry t ls b) as [[i b']|].
Qed.

Lemma count_io_with t b ins outs i :
  b_nIn b = length ins → b_nOut b = length outs →
  count_io t b = with_b_nOut (length (after_outs outs t i)) (with_b_nIn (length (after_ins ins t i)) b).
Proof.
  intros E1 E2. unfold count_io, after_ins, after_outs. destruct b; cbn in *. subst.
  repeat case_decide; rewrite ?length_app; cbn [length]; by rewrite ?Nat.add_1_r.
Qed.

(** An entry with the same key is reused. *)
Lemma allocEntry_found `{Build} b ins outs segs t ls key i :
  WF b ins outs segs → isEnabled t ls = true → makeKey t ls = Some key →
  strash b !! key = Some i → allocEntry t ls b = Some (i, b).
Proof.
  intros HW He Hk Hi. unfold allocEntry, strashEntry, st_modify, st_gets, st_read.
  unfold mbind, st_bind, mret, st_ret. rewrite (fixate_id _ _ (wf_linked _ _ _ _ HW)), He, Hk.
  by rewrite Hi.
Qed.

(** Otherwise an entry is taken and filled. *)
Lemma allocEntry_new b ins outs segs t ls i b1 :
  WF b ins outs segs → allocEntry_buf (is_buf t) b = Some (i, b1) →
  strash b1 = strash b → (isEnabled t ls = true → is_Some (makeKey t ls)) →
  (∀ key, isEnabled t ls = true → makeKey t ls = Some key → strash b !! key = None) →
  ∃ st0, (∀ B : Build, allocEntry t ls b = (b3 ← alloc_fill t ls i (with_strash st0 b1); Some (i, b3))) ∧
    ∀ key j, st0 !! key = Some j → strash b !! key = Some j ∨ (j = i ∧ makeKey t ls = Some key).
Proof.
  intros HW Ha Hst Hkey Hnone.
  exists (if isEnabled t ls then match makeKey t ls with Some key => <[key:=i]> (strash b1) | None => strash b1 end else strash b1). split.
  - intros B. unfold allocEntry, strashEntry, st_modify, st_gets, st_read, st_update, mbind, st_bind, mret, st_ret.
    rewrite (fixate_id _ _ (wf_linked _ _ _ _ HW)). destruct (isEnabled t ls) eqn:He.
    + destruct (Hkey eq_refl) as [key Hk]. rewrite Hk, (Hnone key), Ha by done. cbn. by destruct (alloc_fill _ _ _ _).
    + rewrite Ha. assert (with_strash (strash b1) b1 = b1) as -> by by destruct b1. by destruct (alloc_fill _ _ _ _).
  - intros key' j. destruct (isEnabled t ls); [|rewrite Hst; by left].
    destruct (makeKey t ls) as [key|]; [|rewrite Hst; by left].
    rewrite lookup_insert_Some, Hst. intros [[<- <-]|[_ ?]]; [by right|by left].
Qed.

(** *** The assertions on the counts *)

Lemma alloc_fill_build (B : Build) t ls i b : (∀ l, l ∈ ls → is_Some (getCell b (idx l))) →
  @alloc_fill B t ls i b =
    if negb count_asserts || count_room b ls then @alloc_fill release_build t ls i b else None.
Proof.
  intros Hc. unfold alloc_fill. destruct (upd_desc i _ b) as [b1|] eqn:E; cbn [mbind option_bind]; [|by destruct (_ || _)].
  assert (entries b1 = entries b) as Ee.
  { unfold upd_desc in E. destruct (desc b !! i); [|done]. cbn in E. by injection E as <-. }
  assert (∀ j, getCell b1 j = getCell b j) as Eg by (intros j; unfold getCell; by rewrite Ee).
  rewrite (alloc_links_build B) by (intros l Hl; rewrite Eg; by apply Hc). rewrite (count_room_ext b b1) by (intros; apply Eg).
  by destruct (_ || _).
Qed.

(** Whether structural hashing finds an equal cell. *)
Definition finds_equal (b : SubnetBuilder) (t : TypeID) (ls : LinkList) : bool :=
  isEnabled t ls && match makeKey t ls with Some key => bool_decide (is_Some (strash b !! key)) | None => false end.

(** Whether a request passes the assertions on the counts. *)
Definition passes_counts `{Build} (b : SubnetBuilder) (t : TypeID) (ls : LinkList) : bool :=
  negb count_asserts || finds_equal b t ls || count_room b ls.

Lemma addCell_build (B : Build) b ins outs t ls ty :
  wf b ins outs → getType t = Some ty → negative (props ty) = false → srcs b ls →
  addCell t ls b = if passes_counts b t ls then @addCell _ release_build t ls b else None.
Proof.
  intros [segs HW] Hty Hn Hs. unfold passes_counts. rewrite !(addCell_unfold t ls b ty) by done.
  destruct (finds_equal b t ls) eqn:Hf.
  { rewrite orb_true_r. cbn [orb]. unfold finds_equal in Hf. apply andb_true_iff in Hf as [He Hf].
    destruct (makeKey t ls) as [key|] eqn:Hk; [|done]. apply bool_decide_eq_true in Hf as [i Hi].
    by rewrite !(allocEntry_found b ins outs segs t ls key i). }
  rewrite orb_false_r.
  destruct (allocEntry_buf_hole b _ (is_buf t) (linked_desc _ _ (wf_linked _ _ _ _ HW))
              (wf_perm _ _ _ _ HW)) as (i & b1 & Ha & Hh).
  destruct (allocEntry_new b ins outs segs t ls i b1 HW Ha) as (st0 & Hal & _).
  { by destruct (ho_same _ _ _ _ Hh). }
  { by intros He; unfold makeKey; rewrite He, Hty. }
  { intros key He Hk. unfold finds_equal in Hf. rewrite He, Hk in Hf. apply bool_decide_eq_false in Hf.
    destruct (strash b !! key); [|done]. by destruct Hf. }
  rewrite !Hal. assert (∀ l, l ∈ ls → getCell b1 (idx l) = getCell b (idx l) ∧ is_Some (getCell b (idx l))) as Hg.
  { intros l Hl. unfold srcs in Hs. rewrite list.Forall_forall in Hs. destruct (src_concat _ _ _ _ _ HW (Hs l Hl)) as [Hc _].
    destruct (concat_src _ _ _ _ _ HW Hc) as [_ (c & Hcell & _)]. rewrite Hcell. split; [|by eexists]. rewrite <- Hcell.
    unfold getCell. rewrite (ho_entries _ _ _ _ Hh); [done|]. intros E.
    pose proof (ho_empties _ _ _ _ Hh _ (wf_perm _ _ _ _ HW)) as Hp.
    assert (NoDup (i :: order_of segs outs ++ emptyEntryIDs b1)) as Hnd by (rewrite Hp; apply NoDup_seq).
    apply NoDup_cons in Hnd as [Hnd _]. apply Hnd. rewrite <- E. unfold order_of. rewrite !elem_of_app. by left; left. }
  rewrite (alloc_fill_build B) by (intros l Hl; change (is_Some (getCell b1 (idx l))); by destruct (Hg l Hl) as [-> ?]).
  rewrite (count_room_ext b (with_strash st0 b1)) by (intros l Hl; by apply Hg).
  by destruct (_ || _).
Qed.

Lemma is_cell_new b t ls ty i :
  getType t = Some ty → length ls ≤ InPlaceLinks → is_live b i →
  getCell b i = Some (new_cell t ls) → is_cell b t ls (LinkTo i).
Proof.
  intros Hty Hlen Hl Hc. unfold is_cell. split_all; try done. exists (new_cell t ls), ty.
  rewrite new_cell_inputs by done. by split_all; [..|left].
Qed.

(** An entry found in the map is a cell of the type with the links. *)
Lemma is_cell_found b ins outs segs t ls ty key i :
  WF b ins outs segs → getType t = Some ty → makeKey t ls = Some key →
  strash b !! key = Some i → is_cell b t ls (LinkTo i).
Proof.
  intros HW Hty Hk Hi. destruct (wf_strash _ _ _ _ HW _ _ Hi) as [Hin Hcell].
  destruct (concat_src _ _ _ _ _ HW Hin) as [Hl _].
  destruct (getCell b i) as [c|] eqn:Ec; [|done]. cbn in Hcell.
  destruct (makeKey_inj _ _ _ _ _ _ Hty Hk Hcell) as [Ht Hls].
  unfold is_cell. split_all; try done. by exists c, ty.
Qed.

(** A cell without an equal one gets an entry of its own. *)
Lemma addCell_new b ins outs t ls ty :
  wf b ins outs → getType t = Some ty → negative (props ty) = false →
  length ls ≤ InPlaceLinks → valid_type t (length ls) = true → srcs b ls →
  (t = GateID IN → input_ready b ins) →
  (∀ key, isEnabled t ls = true → makeKey t ls = Some key → strash b !! key = None) →
  ∃ i b', addCell t ls b = Some (LinkTo i, b') ∧
    wf b' (after_ins ins t i) (after_outs outs t i) ∧ ext b b' ∧ is_live b' i ∧
    getCell b' i = Some (new_cell t ls) ∧
    (emptyEntryIDs b = [] → i = length (entries b) ∧ length (entries b') = S (length (entries b))).
Proof.
  intros [segs HW] Hty Hn Hlen Hv Hs Hready Hnone. rewrite (addCell_unfold t ls b ty) by done.
  destruct (allocEntry_buf_hole b _ (is_buf t) (linked_desc _ _ (wf_linked _ _ _ _ HW))
              (wf_perm _ _ _ _ HW)) as (i & b1 & Ha & Hh).
  destruct (allocEntry_new b ins outs segs t ls i b1 HW Ha) as (st0 & Hal & Hst); [|by intros He; unfold makeKey; rewrite He, Hty|done|].
  { by destruct (ho_same _ _ _ _ Hh). }
  rewrite Hal. destruct (alloc_new b ins outs segs t ls ty HW Hty Hlen Hv Hs Hready i b1 st0 Hh Hst)
    as (b3 & -> & [N1 N2] & Hb4).
  cbn [mbind option_bind]. exists i. eexists. split; [done|].
  rewrite (count_io_with t b3 ins outs i) by done.
  destruct (Hb4 _ _ eq_refl eq_refl) as ((Hwf & He & Hl & Hc) & Hp). split_all; [done..|].
  intros Hempty. destruct (ho_fresh _ _ _ _ Hh Hempty) as (-> & _). split; [done|].
  pose proof (wf_perm _ _ _ _ HW) as Hp0. specialize (Hp _ Hp0).
  destruct He as (_ & _ & Hem & _). rewrite (Hem Hempty), app_nil_r in Hp. rewrite Hempty, app_nil_r in Hp0.
  apply Permutation_length in Hp, Hp0. cbn [length] in Hp. rewrite length_seq in Hp, Hp0. lia.
Qed.

Lemma addCell_spec b ins outs t ls ty :
  wf b ins outs → getType t = Some ty → negative (props ty) = false →
  length ls ≤ InPlaceLinks → valid_type t (length ls) = true → srcs b ls →
  (t = GateID IN → input_ready b ins) →
  ∃ l b', addCell t ls b = Some (l, b') ∧
    wf b' (after_ins ins t (idx l)) (after_outs outs t (idx l)) ∧ ext b b' ∧ is_cell b' t ls l.
Proof.
  intros [segs HW] Hty Hn Hlen Hv Hs Hready.
  destruct (if isEnabled t ls then makeKey t ls ≫= λ key, strash b !! key else None)
    as [i|] eqn:Efound.
  2: {
    destruct (addCell_new b ins outs t ls ty) as (i & b' & -> & Hwf & He & Hl & Hc & _); try done; [by exists segs| |].
    { intros key He Hk. by rewrite He, Hk in Efound. }
    do 2 eexists. split; [done|]. split; [done|]. split; [done|]. by eapply is_cell_new. }
  rewrite (addCell_unfold t ls b ty) by done.
  destruct (isEnabled t ls) eqn:He; [|done].
  destruct (makeKey t ls) as [key|] eqn:Hk; [cbn in Efound|done].
  rewrite (allocEntry_found b ins outs segs t ls key i) by done. cbn [mbind option_bind].
  assert (t ≠ GateID IN ∧ t ≠ GateID OUT) as [Hni Hno].
  { unfold isEnabled in He. apply bool_decide_eq_true in He. tauto. }
  exists (LinkTo i), b. unfold count_io, after_ins, after_outs. rewrite !decide_False by done.
  split; [done|]. split; [by exists segs|]. split; [done|]. by eapply is_cell_found.
Qed.
End AddCell.
