(* ===== verification/BuilderSpec.v ===== *)
(** * The interface of the builder to its clients

    Every operation that only adds cells is specified by [adds]: from a builder
    that satisfies the invariant it returns a result and a builder that
    satisfies the invariant, in which the cells of before are unchanged, and the
    values of the returned links follow from the values of the given ones in
    every valuation that satisfies the cells. *)

From S2P Require Import Prelude CellType SubnetBase Builder Order BuilderInv BuilderAdd BuilderAlloc.
From stdpp Require Import gmap strings.

(** ** Total runs *)

Definition wp {A} (m : st SubnetBuilder A) (b : SubnetBuilder) (Q : A → SubnetBuilder → Prop) : Prop :=
  ∃ a b', m b = Some (a, b') ∧ Q a b'.

Lemma wp_ret {A} (a : A) b (Q : A → SubnetBuilder → Prop) : Q a b → wp (mret a) b Q.
Proof. intros HQ. by exists a, b. Qed.

Lemma wp_bind {A B} (m : st SubnetBuilder A) (f : A → st SubnetBuilder B) b Q :
  wp m b (λ a b', wp (f a) b' Q) → wp (m ≫= f) b Q.
Proof.
  intros (a & b1 & Hm & c & b2 & Hf & HQ). exists c, b2.
  by rewrite (bind_eval _ _ _ _ _ Hm).
Qed.

Lemma wp_mono {A} (m : st SubnetBuilder A) b (P Q : A → SubnetBuilder → Prop) :
  wp m b P → (∀ a b', P a b' → Q a b') → wp m b Q.
Proof. intros (a & b' & Hm & HP) HPQ. exists a, b'. auto. Qed.

Section Spec.
Context `{TypeStore}.

(** A run from [b] that adds no input and no output, with a result in [R]. *)
Definition adds {A} (ins outs : list nat) (b : SubnetBuilder) (m : st SubnetBuilder A)
    (R : SubnetBuilder → A → Prop) : Prop :=
  wp m b (λ a b', wf b' ins outs ∧ ext b b' ∧ R b' a).

(** A link whose value is [f v] in every consistent valuation [v]. *)
Definition denotes (b : SubnetBuilder) (l : Link) (f : valuation → bool) : Prop :=
  src b l ∧ ∀ v, consistent v b → lval v l = f v.

(** A vector of links that denotes a vector of bits. *)
Definition denotes_all (b : SubnetBuilder) (ls : LinkList) (f : valuation → list bool) : Prop :=
  srcs b ls ∧ ∀ v, consistent v b → lval v <$> ls = f v.

Lemma adds_ret {A} ins outs b (a : A) (R : SubnetBuilder → A → Prop) :
  wf b ins outs → R b a → adds ins outs b (mret a) R.
Proof. intros Hw HR. by apply wp_ret. Qed.

Lemma adds_bind {A B} ins outs b (m : st SubnetBuilder A) (f : A → st SubnetBuilder B) P Q :
  adds ins outs b m P →
  (∀ a b', wf b' ins outs → ext b b' → P b' a → adds ins outs b' (f a) Q) →
  adds ins outs b (m ≫= f) Q.
Proof.
  intros Hm Hf. apply wp_bind. eapply wp_mono; [exact Hm|]. intros a b1 (Hw & He & HP).
  eapply wp_mono; [by apply Hf|]. intros c b2 (Hw2 & He2 & HQ). split_all; [done| |done].
  by etransitivity.
Qed.

Lemma adds_mono {A} ins outs b (m : st SubnetBuilder A) (P Q : SubnetBuilder → A → Prop) :
  adds ins outs b m P → (∀ a b', ext b b' → P b' a → Q b' a) → adds ins outs b m Q.
Proof.
  intros Hm HPQ. eapply wp_mono; [exact Hm|]. intros a b' (Hw & He & HP). auto.
Qed.

Lemma adds_ret_bind {A B} ins outs b (a : A) (f : A → st SubnetBuilder B) Q :
  adds ins outs b (f a) Q → adds ins outs b (mret a ≫= f) Q.
Proof. done. Qed.

Lemma adds_read_bind {A B} ins outs b (r : SubnetBuilder → option A) a (f : A → st SubnetBuilder B) Q :
  r b = Some a → adds ins outs b (f a) Q → adds ins outs b (st_read r ≫= f) Q.
Proof.
  intros Ha (c & b' & E & HQ). exists c, b'. split; [|done].
  unfold mbind, st_bind, st_read. by rewrite Ha.
Qed.

Lemma adds_assert_bind {B} ins outs b (x : bool) (f : () → st SubnetBuilder B) Q :
  x = true → adds ins outs b (f ()) Q → adds ins outs b (st_assert x ≫= f) Q.
Proof. by intros ->. Qed.

(** The meaning of a link may be written in another way. *)
Lemma denotes_eq b l f g : (∀ v, f v = g v) → denotes b l f → denotes b l g.
Proof. intros E [Hs Hf]. split; [done|]. intros v Hv. by rewrite <- E, Hf. Qed.

Lemma denotes_all_eq b ls f g : (∀ v, f v = g v) → denotes_all b ls f → denotes_all b ls g.
Proof. intros E [Hs Hf]. split; [done|]. intros v Hv. by rewrite <- E, Hf. Qed.

Lemma denotes_ext b b' l f : ext b b' → denotes b l f → denotes b' l f.
Proof.
  intros He [Hs Hv]. split; [by eapply src_ext|]. intros v Hc. apply Hv.
  by eapply consistent_ext.
Qed.

Lemma denotes_all_ext b b' ls f : ext b b' → denotes_all b ls f → denotes_all b' ls f.
Proof.
  intros He [Hs Hv]. split; [by eapply srcs_ext|]. intros v Hc. apply Hv.
  by eapply consistent_ext.
Qed.

Lemma denotes_all_self b ls : srcs b ls → denotes_all b ls (λ v, lval v <$> ls).
Proof. by split. Qed.

Lemma denotes_self b l : src b l → denotes b l (λ v, lval v l).
Proof. by split. Qed.

Lemma denotes_all_nil b : denotes_all b [] (λ _, []).
Proof. by split; [constructor|]. Qed.

Lemma denotes_all_cons b l ls f g :
  denotes b l f → denotes_all b ls g → denotes_all b (l :: ls) (λ v, f v :: g v).
Proof.
  intros [Hl Hf] [Hls Hg]. split; [by constructor|]. intros v Hv. cbn. by rewrite Hf, Hg.
Qed.

Lemma denotes_all_app b ls ks f g :
  denotes_all b ls f → denotes_all b ks g → denotes_all b (ls ++ ks) (λ v, f v ++ g v).
Proof.
  intros [Hl Hf] [Hls Hg]. split; [by apply Forall_app|]. intros v Hv.
  by rewrite fmap_app, Hf, Hg.
Qed.

Lemma denotes_not b l f : denotes b l f → denotes b (link_not l) (λ v, negb (f v)).
Proof.
  intros [(Hl & Ho & c & Hc & Ht) Hf]. split.
  - unfold src. split_all; [done| |by exists c]. unfold link_not, SubnetLink. cbn [out]. apply Nat.mod_upper_bound. lia.
  - intros v Hv. by rewrite lval_not, Hf.
Qed.

Lemma adds_assoc {A B C} ins outs b (m : st SubnetBuilder A) (f : A → st SubnetBuilder B)
    (g : B → st SubnetBuilder C) Q :
  adds ins outs b ((m ≫= f) ≫= g) Q → adds ins outs b (m ≫= λ a, f a ≫= g) Q.
Proof. intros (c & b' & E & HQ). exists c, b'. split; [|done]. by rewrite <- bind_assoc. Qed.

(** A loop that adds cells for every element of a list. *)
Lemma adds_map {X A} ins outs (f : X → st SubnetBuilder A) (R : SubnetBuilder → X → A → Prop) xs :
  (∀ b b' x a, ext b b' → R b x a → R b' x a) → ∀ b, wf b ins outs →
  (∀ x b', x ∈ xs → wf b' ins outs → ext b b' → adds ins outs b' (f x) (λ b'' a, R b'' x a)) →
  adds ins outs b (st_map f xs) (λ b' l, Forall2 (R b') xs l).
Proof.
  intros Hmono. induction xs as [|x xs IH]; intros b Hw Hf; cbn [st_map].
  - apply adds_ret; [done|constructor].
  - eapply adds_bind; [apply Hf; [set_solver|done|done]|]. intros a b1 Hw1 He1 Ha.
    eapply adds_bind.
    + apply IH; [done|]. intros y b2 Hy Hw2 He2. apply Hf; [set_solver|done|]. by etransitivity.
    + intros l b2 Hw2 He2 Hl. apply adds_ret; [done|]. constructor; [by eapply Hmono|done].
Qed.

(** *** Gates *)

(** The gates that may be added with [n] inputs. *)
Definition gate_ok (s : CellSymbol) (n : nat) : bool :=
  match getCellType s with
  | Some ty => combinational (props ty) && negb (negative (props ty)) &&
               bool_decide (is_Some (gate_fun s (replicate n false)))
  | None => false
  end.

Lemma gate_ok_valid s n : gate_ok s n = true →
  ∃ ty, getCellType s = Some ty ∧ negative (props ty) = false ∧ valid_type (GateID s) n = true ∧
    s ≠ IN ∧ s ≠ OUT ∧ getCellTypeID s = GateID s.
Proof.
  unfold gate_ok, valid_type, getCellTypeID. destruct (getCellType s) as [ty|] eqn:Ety; [|done].
  rewrite !andb_true_iff, negb_true_iff. intros [[Hc Hn] Hf]. exists ty. rewrite Hc.
  destruct s; cbn in Ety; try done; injection Ety as <-; done.
Qed.

Lemma gate_fun_comm s ty xs ys :
  getCellType s = Some ty → xs ≡ₚ ys → gate_fun s xs = gate_fun s ys.
Proof. intros _. apply gate_fun_perm. Qed.

Lemma addGate_spec s ls b ins outs :
  wf b ins outs → srcs b ls → length ls ≤ InPlaceLinks → gate_ok s (length ls) = true →
  adds ins outs b (addGate s ls) (λ b' l, src b' l ∧
    ∀ v, consistent v b' → gate_fun s (lval v <$> ls) = Some (lval v l)).
Proof.
  intros Hw Hs Hlen Hok. destruct (gate_ok_valid _ _ Hok) as (ty & Hty & Hn & Hv & Hi & Ho & Hid).
  unfold addGate. rewrite Hid.
  destruct (addCell_spec b ins outs (GateID s) ls ty) as (l & b' & E & Hw' & He & Hc); try done.
  { by intros [=]. }
  exists l, b'. split; [done|]. unfold after_ins, after_outs in Hw'.
  rewrite !decide_False in Hw' by congruence. split; [done|]. split; [done|].
  destruct Hc as (Hl0 & Hinv & Hlive & c & ty' & Hcell & Ht & Hty' & Hls).
  split; [unfold src; split_all; [done|lia|]; exists c; split; [done|by rewrite Ht; intros [=]]|].
  intros v Hv'.
  assert (is_Some (gate_fun s (lval v <$> ls))) as [y Hy].
  { unfold gate_ok in Hok. rewrite Hty, !andb_true_iff in Hok. destruct Hok as [_ Hf].
    apply bool_decide_eq_true in Hf. eapply gate_fun_defined; [|exact Hf].
    by rewrite length_replicate, length_fmap. }
  rewrite Hy. f_equal. unfold lval. rewrite Hl0, Hinv, xorb_false_r. symmetry.
  apply (Hv' _ _ _ Hlive Hcell). rewrite Ht. cbn. rewrite <- Hy.
  destruct Hls as [->|[_ Hp]]; [done|]. apply gate_fun_perm. by rewrite Hp.
Qed.

Lemma denotes_fmap b ls f : denotes_all b ls f → ∀ v, consistent v b → lval v <$> ls = f v.
Proof. by intros [_ ?]. Qed.

(** A gate over links with known meanings. *)
Lemma addGate_denotes s ls f g b ins outs :
  wf b ins outs → denotes_all b ls f → length ls ≤ InPlaceLinks → gate_ok s (length ls) = true →
  (∀ v, gate_fun s (f v) = Some (g v) ∨ length (f v) ≠ length ls) →
  adds ins outs b (addGate s ls) (λ b' l, denotes b' l g).
Proof.
  intros Hw [Hs Hf] Hlen Hok Hg. eapply adds_mono; [by apply addGate_spec|].
  intros l b' He [Hl Hv]. split; [done|]. intros v Hc. specialize (Hv v Hc).
  rewrite Hf in Hv by by eapply consistent_ext. destruct (Hg v) as [E|E].
  - rewrite E in Hv. by injection Hv.
  - exfalso. apply E. rewrite <- (Hf v) by by eapply consistent_ext. apply length_fmap.
Qed.

Lemma add_gate2 s (op : bool → bool → bool) b ins outs l k f g :
  gate_ok s 2 = true → (∀ x y, gate_fun s [x; y] = Some (op x y)) →
  wf b ins outs → denotes b l f → denotes b k g →
  adds ins outs b (addGate s [l; k]) (λ b' r, denotes b' r (λ v, op (f v) (g v))).
Proof.
  intros Hok Hop Hw Hl Hk.
  apply (addGate_denotes s [l; k] (λ v, [f v; g v])); [done| |cbn; unfold InPlaceLinks; lia|done|auto].
  apply denotes_all_cons; [done|]. apply denotes_all_cons; [done|]. apply denotes_all_nil.
Qed.

Lemma add_gate3 s (op : bool → bool → bool → bool) b ins outs l k m f g h :
  gate_ok s 3 = true → (∀ x y z, gate_fun s [x; y; z] = Some (op x y z)) →
  wf b ins outs → denotes b l f → denotes b k g → denotes b m h →
  adds ins outs b (addGate s [l; k; m]) (λ b' r, denotes b' r (λ v, op (f v) (g v) (h v))).
Proof.
  intros Hok Hop Hw Hl Hk Hm.
  apply (addGate_denotes s [l; k; m] (λ v, [f v; g v; h v])); [done| |cbn; unfold InPlaceLinks; lia|done|auto].
  apply denotes_all_cons; [done|]. apply denotes_all_cons; [done|].
  apply denotes_all_cons; [done|]. apply denotes_all_nil.
Qed.

Lemma add_gate1 s (op : bool → bool) b ins outs l f :
  gate_ok s 1 = true → (∀ x, gate_fun s [x] = Some (op x)) →
  wf b ins outs → denotes b l f →
  adds ins outs b (addGate s [l]) (λ b' r, denotes b' r (λ v, op (f v))).
Proof.
  intros Hok Hop Hw Hl.
  apply (addGate_denotes s [l] (λ v, [f v])); [done| |cbn; unfold InPlaceLinks; lia|done|auto].
  apply denotes_all_cons; [done|]. apply denotes_all_nil.
Qed.

Lemma add_const s x b ins outs :
  gate_ok s 0 = true → gate_fun s [] = Some x →
  wf b ins outs → adds ins outs b (addGate s []) (λ b' r, denotes b' r (λ _, x)).
Proof.
  intros Hok Hop Hw.
  apply (addGate_denotes s [] (λ _, [])); [done|apply denotes_all_nil|cbn; lia|done|auto].
Qed.

Lemma add_and b ins outs l k f g :
  wf b ins outs → denotes b l f → denotes b k g →
  adds ins outs b (addGate AND [l; k]) (λ b' r, denotes b' r (λ v, f v && g v)).
Proof. by apply (add_gate2 AND andb); [|intros [] []]. Qed.

Lemma add_or b ins outs l k f g :
  wf b ins outs → denotes b l f → denotes b k g →
  adds ins outs b (addGate OR [l; k]) (λ b' r, denotes b' r (λ v, f v || g v)).
Proof. by apply (add_gate2 OR orb); [|intros [] []]. Qed.

Lemma add_xor b ins outs l k f g :
  wf b ins outs → denotes b l f → denotes b k g →
  adds ins outs b (addGate XOR [l; k]) (λ b' r, denotes b' r (λ v, xorb (f v) (g v))).
Proof. by apply (add_gate2 XOR xorb); [|intros [] []]. Qed.

Lemma add_buf b ins outs l f :
  wf b ins outs → denotes b l f →
  adds ins outs b (addGate BUF [l]) (λ b' r, denotes b' r f).
Proof. by apply (add_gate1 BUF id). Qed.

Lemma add_zero b ins outs :
  wf b ins outs → adds ins outs b (addGate ZERO []) (λ b' r, denotes b' r (λ _, false)).
Proof. by apply add_const. Qed.

Lemma add_one b ins outs :
  wf b ins outs → adds ins outs b (addGate ONE []) (λ b' r, denotes b' r (λ _, true)).
Proof. by apply add_const. Qed.

(** *** Trees of cells *)

Section Tree.
Context (s : CellSymbol) (ty : CellType).
Context (Hty : getCellType s = Some ty) (Hr : regroupable (props ty) = true).

Lemma regroupable_cases : s = AND ∨ s = OR ∨ s = XOR.
Proof. revert Hr. table_cases s Hty; intros ?; try done; auto. Qed.

Lemma regroupable_ok n : 0 < n → gate_ok s n = true.
Proof. intros Hn. destruct n; [lia|]. by destruct regroupable_cases as [->|[->| ->]]. Qed.

Lemma regroupable_single x : gate_fun s [x] = Some x.
Proof. by destruct regroupable_cases as [->|[->| ->]]; destruct x. Qed.

Lemma regroup xs ys u : xs ≠ [] →
  gate_fun s xs = Some u → gate_fun s (ys ++ [u]) = gate_fun s (xs ++ ys).
Proof.
  intros Hxs Hu. destruct ys as [|y ys].
  - rewrite app_nil_r. cbn [app]. by rewrite Hu, regroupable_single.
  - destruct (proj1 (regroupable_exact s ty Hty) Hr xs (y :: ys)) as (u' & Hu' & E & _); [done..|].
    rewrite Hu in Hu'. injection Hu' as <-. rewrite <- E. apply gate_fun_perm.
    by rewrite Permutation_app_comm.
Qed.

Lemma addCellTree_loop_spec k ins outs : 2 ≤ k ≤ InPlaceLinks → ∀ fuel rest b,
  wf b ins outs → srcs b rest → rest ≠ [] → length rest ≤ S fuel →
  adds ins outs b (addCellTree_loop fuel s k rest) (λ b' l, src b' l ∧
    ∀ v, consistent v b' → gate_fun s (lval v <$> rest) = Some (lval v l)).
Proof.
  intros Hk. induction fuel as [|fuel IH]; intros rest b Hw Hs Hne Hlen.
  - destruct rest as [|l [|l' rest]]; [done| |cbn in Hlen; lia].
    apply adds_ret; [done|]. inversion Hs; subst. split; [done|]. intros v _. apply regroupable_single.
  - destruct rest as [|l [|l' rest]]; [done| |].
    { apply adds_ret; [done|]. inversion Hs; subst. split; [done|]. intros v _. apply regroupable_single. }
    set (ls := l :: l' :: rest) in *. cbn [addCellTree_loop].
    change (l :: l' :: rest) with ls. eapply adds_bind.
    + apply (addGate_spec s (take k ls)); [done|by apply Forall_take|rewrite length_take; lia|].
      apply regroupable_ok. rewrite length_take. cbn. lia.
    + intros r b1 Hw1 He1 [Hsr Hvr]. eapply adds_mono.
      * apply IH; [done| |by destruct (drop k ls)|].
        -- apply Forall_app. split; [|by constructor].
           apply Forall_drop. by eapply srcs_ext.
        -- rewrite length_app, length_drop. cbn in Hlen |- *. lia.
      * intros r' b2 He2 [Hs2 Hv2]. split; [done|]. intros v Hv.
        specialize (Hv2 v Hv). specialize (Hvr v (consistent_ext _ _ _ He2 Hv)).
        rewrite fmap_app in Hv2. cbn in Hv2. rewrite <- (take_drop k ls), fmap_app.
        rewrite <- (regroup _ (lval v <$> drop k ls) (lval v r)); [done| |done].
        intros E. apply fmap_nil_inv in E. destruct k as [|k]; [lia|done].
Qed.

Lemma addCellTree_spec k ls b ins outs :
  2 ≤ k ≤ InPlaceLinks → wf b ins outs → srcs b ls → ls ≠ [] →
  adds ins outs b (addCellTree s ls k) (λ b' l, src b' l ∧
    ∀ v, consistent v b' → gate_fun s (lval v <$> ls) = Some (lval v l)).
Proof.
  intros Hk Hw Hs Hne. unfold addCellTree. unfold InPlaceLinks, MaxArity in *.
  rewrite (proj2 (Nat.ltb_ge 63 k)) by lia. destruct (Nat.leb_spec (length ls) k) as [Hl|Hl].
  - apply addGate_spec; [done|done|unfold InPlaceLinks; lia|]. apply regroupable_ok.
    destruct ls; [done|cbn; lia].
  - assert (getType (getCellTypeID s) = Some ty) as Ht.
    { unfold getCellTypeID. by rewrite Hty. }
    apply wp_bind. exists ty, b. unfold st_read. rewrite Ht. split; [done|].
    apply wp_bind. exists (), b. unfold st_assert. rewrite Hr. split; [done|].
    apply addCellTree_loop_spec; [done|done|done|done|lia].
Qed.
End Tree.

(** *** Inputs and outputs *)

Definition is_input (b : SubnetBuilder) (l : Link) : Prop := src b l ∧ l = LinkTo (idx l).

Lemma addInput_spec b ins outs :
  wf b ins outs → input_ready b ins →
  wp addInput b (λ l b', wf b' (ins ++ [idx l]) outs ∧ ext b b' ∧ is_input b' l).
Proof.
  intros Hw Hr. unfold addInput, addGate. cbn [getCellTypeID getCellType].
  destruct (addCell_spec b ins outs (GateID IN) [] (row "in" 1 1 0 0 0 0 0 0 0 0 1 IN))
    as (l & b' & E & Hw' & He & Hc); try done.
  { cbn. lia. } { by constructor. }
  exists l, b'. split; [done|]. split; [done|]. split; [done|].
  destruct Hc as (Ho & Hi & Hl & c & ty & Hcell & Ht & _). split.
  - unfold src. split_all; [done|lia|]. exists c. split; [done|]. rewrite Ht. by intros [=].
  - destruct l as [i o v]. cbn in *. by subst.
Qed.

Lemma addInputs_loop {X} (xs : list X) : ∀ b ins outs,
  wf b ins outs → (xs = [] ∨ input_ready b ins) →
  wp (st_map (λ _, addInput) xs) b (λ ls b', wf b' (ins ++ (idx <$> ls)) outs ∧ ext b b' ∧
    Forall (is_input b') ls ∧ length ls = length xs).
Proof.
  induction xs as [|x xs IH]; intros b ins outs Hw Hr; cbn [st_map].
  - apply wp_ret. cbn. rewrite app_nil_r. split_all; [done|done|constructor|done].
  - destruct Hr as [|Hr]; [done|]. apply wp_bind.
    eapply wp_mono; [by apply addInput_spec|]. intros l b1 (Hw1 & He1 & Hl).
    apply wp_bind. eapply wp_mono; [apply (IH b1); [exact Hw1|]|].
    { right. left. by destruct ins. }
    intros ls b2 (Hw2 & He2 & Hls & Hlen). apply wp_ret. split_all.
    + rewrite <- app_assoc in Hw2. done.
    + by etransitivity.
    + constructor; [|done]. destruct Hl as [Hl1 Hl2]. split; [by eapply src_ext|done].
    + cbn. lia.
Qed.

Lemma addInputs_spec n b ins outs :
  wf b ins outs → (n = 0 ∨ input_ready b ins) →
  wp (addInputs n) b (λ ls b', wf b' (ins ++ (idx <$> ls)) outs ∧ ext b b' ∧
    Forall (is_input b') ls ∧ length ls = n).
Proof.
  intros Hw Hn. unfold addInputs. eapply wp_mono; [apply addInputs_loop; [done|]|].
  - destruct Hn as [->|]; [by left|by right].
  - intros ls b'. by rewrite length_seq.
Qed.

(** The output cell [o] carries the link [l]. *)
Definition out_link (b : SubnetBuilder) (o : nat) (l : Link) : Prop :=
  is_live b o ∧ src b l ∧
  ∃ c, getCell b o = Some c ∧ type c = GateID OUT ∧ getInPlaceLinks c = [l].

Lemma out_link_ext b b' o l : ext b b' → out_link b o l → out_link b' o l.
Proof.
  intros He (Hl & Hs & c & Hc & Ht & Hls). destruct (proj1 He o c Hl Hc) as (Hl' & c' & Hc' & Hsame).
  unfold out_link. split_all; [done|by eapply src_ext|]. exists c'.
  rewrite (same_cell_links _ _ Hsame). destruct Hsame as (-> & _). by split_all.
Qed.

Lemma addOutput_spec l b ins outs :
  wf b ins outs → src b l →
  wp (addOutput l) b (λ r b', wf b' ins (outs ++ [idx r]) ∧ ext b b' ∧ out_link b' (idx r) l).
Proof.
  intros Hw Hl. unfold addOutput, addGate. cbn [getCellTypeID getCellType].
  destruct (addCell_spec b ins outs (GateID OUT) [l] (row "out" 1 1 0 0 0 0 0 0 0 1 0 OUT))
    as (r & b' & E & Hw' & He & Hc); try done.
  { cbn. unfold InPlaceLinks. lia. } { by constructor. }
  exists r, b'. split; [done|]. split; [done|]. split; [done|].
  destruct Hc as (Ho & Hi & Hlive & c & ty & Hcell & Ht & Hty & Hls).
  unfold out_link. split_all; [done|by eapply src_ext|]. exists c. split_all; [done|done|].
  destruct Hls as [->|[_ Hp]]; [done|]. by apply Permutation_singleton_r.
Qed.

Lemma addOutputs_spec ls : ∀ b ins outs,
  wf b ins outs → srcs b ls →
  wp (addOutputs ls) b (λ _ b', ∃ os, wf b' ins (outs ++ os) ∧ ext b b' ∧ Forall2 (out_link b') os ls).
Proof.
  unfold addOutputs. induction ls as [|l ls IH]; intros b ins outs Hw Hs; cbn [st_for].
  - apply wp_ret. exists []. rewrite app_nil_r. split_all; [done|done|constructor].
  - inversion Hs as [|? ? Hl Hls]; subst. apply wp_bind, wp_bind.
    eapply wp_mono; [by apply addOutput_spec|]. intros r b1 (Hw1 & He1 & Ho). apply wp_ret.
    eapply wp_mono; [apply (IH b1); [exact Hw1|by eapply srcs_ext]|].
    intros [] b2 (os & Hw2 & He2 & Hos). exists (idx r :: os). rewrite <- app_assoc in Hw2.
    split_all; [done|by etransitivity|by constructor; [eapply out_link_ext|]].
Qed.

(** *** The empty builder *)

Lemma wf_empty : wf empty_builder [] [].
Proof.
  exists []. split; cbn; try done.
  - split; try done; [constructor|]. set_solver.
  - set_solver.
  - exists []. split_all; [done|set_solver|set_solver].
  - intros _ d Hd. by apply not_elem_of_nil in Hd.
Qed.

Lemma ready_empty : input_ready empty_builder [].
Proof. right. intros i [Hi _]. cbn in Hi. lia. Qed.
End Spec.
