(* ===== verification/BuilderEval.v ===== *)
(** * The values of the cells of a builder

    The order of a builder is topological, so that any values of the free
    outputs (inputs, sequential and user-defined cells) extend to exactly one
    valuation of the cells. *)

From S2P Require Import Prelude CellType SubnetBase Builder Order BuilderInv BuilderAdd BuilderAlloc.
From S2P Require Import BuilderSpec.
From stdpp Require Import gmap.

Section Eval.
Context `{TypeStore}.

(** ** Definitions *)

Definition upd_val (v : valuation) (i : nat) (y : bool) : valuation :=
  λ j o, if (j =? i) && (o =? 0) then y else v j o.

Definition eval_step (b : SubnetBuilder) (v : valuation) (i : nat) : valuation :=
  match getCell b i with
  | Some c => match cell_fun (type c) (lval v <$> getInPlaceLinks c) with
              | Some y => upd_val v i y
              | None => v
              end
  | None => v
  end.

(** The values computed in the order [o] from the values [w]. *)
Definition eval (b : SubnetBuilder) (o : list nat) (w : valuation) : valuation :=
  foldl (eval_step b) w o.

(** An output of an entry that no gate determines. *)
Definition free_output (b : SubnetBuilder) (i p : nat) : Prop :=
  p ≠ 0 ∨ ∀ c, getCell b i = Some c → cell_fun (type c) (replicate (arity c) false) = None.

(** ** The order is topological *)

Lemma depth_from_mono b (ks : LinkList) m e : depth_from b m ks = Some e → m ≤ e.
Proof.
  revert m; induction ks as [|x ks IH]; intros m Hm.
  - unfold depth_from in Hm. cbn in Hm. injection Hm as <-. lia.
  - apply depth_from_cons in Hm as (dx & _ & Hm). apply IH in Hm. lia.
Qed.

(** A cell lies deeper than its inputs. *)
Lemma depth_from_above b ks d0 d l dl :
  depth_from b d0 ks = Some d → l ∈ ks → getDepth b (idx l) = Some (Some dl) → dl < d.
Proof.
  revert d0; induction ks as [|k ks IH]; intros d0 Hk Hl Hdl; [set_solver|].
  apply depth_from_cons in Hk as (dk & Hdk & Hk). apply elem_of_cons in Hl as [->|Hl].
  - rewrite Hdl in Hdk. injection Hdk as <-. apply depth_from_mono in Hk. cbn in Hk. lia.
  - by eapply IH.
Qed.

Lemma segs_before b ins outs segs l1 i l2 c l :
  WF b ins outs segs → order_of segs outs = l1 ++ i :: l2 →
  getCell b i = Some c → l ∈ getInPlaceLinks c → idx l ∈ l1.
Proof.
  intros HW Eo Hc Hl. pose proof (linked_nodup _ _ (wf_linked _ _ _ _ HW)) as Hnd.
  assert (i ∈ order_of segs outs) as Hi by (rewrite Eo; set_solver).
  unfold order_of in Hi. apply elem_of_app in Hi as [Hi|Hi].
  - destruct (seg_elem _ _ Hi) as (d & s & Hs & His).
    destruct (wf_seg _ _ _ _ HW d s i Hs His) as (c' & Hc' & _ & _ & Hin & _ & Hnew).
    rewrite Hc in Hc'. injection Hc' as <-.
    destruct (seg_elem _ _ (Hin l Hl)) as (dl & sl & Hsl & Hil).
    destruct (wf_seg _ _ _ _ HW dl sl _ Hsl Hil) as (_ & _ & _ & _ & _ & Hdl & _).
    assert (dl < d) as Hlt by by eapply (depth_from_above b (getInPlaceLinks c) 0).
    rewrite (order_split segs outs d s Hs) in Eo, Hnd.
    apply list_elem_of_split in His as (s1 & s2 & ->).
    rewrite <- app_assoc, app_assoc in Eo, Hnd. cbn [app] in Eo, Hnd.
    destruct (NoDup_split_eq _ _ _ _ _ Hnd Eo) as [<- _].
    apply elem_of_app. left. apply elem_of_concat. exists sl. split; [done|].
    apply list_elem_of_lookup. exists dl. by rewrite lookup_take_lt.
  - destruct (wf_outs _ _ _ _ HW i Hi) as (c' & Hc' & _ & _ & Hin & _).
    rewrite Hc in Hc'. injection Hc' as <-. specialize (Hin l Hl).
    apply list_elem_of_split in Hi as (o1 & o2 & ->). unfold order_of in Eo, Hnd.
    rewrite app_assoc in Eo, Hnd.
    destruct (NoDup_split_eq _ _ _ _ _ Hnd Eo) as [<- _]. set_solver.
Qed.

Lemma segs_inputs b ins outs segs i c :
  WF b ins outs segs → i ∈ order_of segs outs → getCell b i = Some c → inputs_ok segs c.
Proof.
  intros HW Hi Hc. unfold order_of in Hi. apply elem_of_app in Hi as [Hi|Hi].
  - destruct (seg_elem _ _ Hi) as (d & s & Hs & His).
    destruct (wf_seg _ _ _ _ HW d s i Hs His) as (c' & Hc' & _ & _ & Hok & _). by assert (c' = c) as <- by congruence.
  - destruct (wf_outs _ _ _ _ HW i Hi) as (c' & Hc' & _ & _ & Hok & _). by assert (c' = c) as <- by congruence.
Qed.

(** The source of a link is no output cell. *)
Lemma source_no_output b ins outs segs i c l d :
  WF b ins outs segs → i ∈ order_of segs outs → getCell b i = Some c → l ∈ getInPlaceLinks c →
  getCell b (idx l) = Some d → type d ≠ GateID OUT.
Proof.
  intros HW Hi Hc Hl Hd. pose proof (segs_inputs b ins outs segs i c HW Hi Hc l Hl) as Hin.
  destruct (seg_elem _ _ Hin) as (k & s & Hs & His).
  destruct (wf_seg _ _ _ _ HW k s (idx l) Hs His) as (c' & Hc' & _ & Ht & _). congruence.
Qed.

(** ** Existence *)

Lemma lval_ext v w (ls : LinkList) :
  (∀ l, l ∈ ls → v (idx l) (out l) = w (idx l) (out l)) → lval v <$> ls = lval w <$> ls.
Proof.
  intros Hl. apply list_fmap_ext. intros k l Hk. unfold lval. rewrite Hl; [done|].
  by eapply list_elem_of_lookup_2.
Qed.

Lemma eval_step_other b v i j p : j ≠ i ∨ p ≠ 0 → eval_step b v i j p = v j p.
Proof.
  intros Hjp. unfold eval_step. destruct (getCell b i) as [c|]; [|done].
  destruct (cell_fun _ _) as [y|]; [|done]. unfold upd_val.
  destruct (Nat.eqb_spec j i), (Nat.eqb_spec p 0); cbn; try done. naive_solver.
Qed.

Lemma eval_cons b i o w : eval b (i :: o) w = eval b o (eval_step b w i).
Proof. done. Qed.

Lemma eval_other b o w j p : j ∉ o ∨ p ≠ 0 → eval b o w j p = w j p.
Proof.
  revert w; induction o as [|i o IH]; intros w Hj; [done|].
  rewrite eval_cons, IH by set_solver. apply eval_step_other. set_solver.
Qed.

Lemma cell_fun_defined t xs ys :
  length xs = length ys → is_Some (cell_fun t xs) → is_Some (cell_fun t ys).
Proof. destruct t; [done|apply gate_fun_defined|done]. Qed.

Lemma inputs_length c : cell_ok c → length (getInPlaceLinks c) = arity c.
Proof.
  intros (_ & Ha & Hl & _). unfold getInPlaceLinks. rewrite length_take, Hl. lia.
Qed.

Lemma live_cell b ins outs segs i :
  WF b ins outs segs → i ∈ order_of segs outs → ∃ c, getCell b i = Some c ∧ cell_ok c.
Proof.
  intros HW Hi. unfold order_of in Hi. apply elem_of_app in Hi as [Hi|Hi].
  - destruct (seg_elem _ _ Hi) as (d & s & Hs & His).
    destruct (wf_seg _ _ _ _ HW d s i Hs His) as (c & Hc & Hok & _). by exists c.
  - destruct (wf_outs _ _ _ _ HW i Hi) as (c & Hc & Hok & _). by exists c.
Qed.

Lemma inputs_fun_free c v : cell_ok c →
  cell_fun (type c) (replicate (arity c) false) = None →
  cell_fun (type c) (lval v <$> getInPlaceLinks c) = None.
Proof.
  intros Hok Hf. apply eq_None_not_Some. intros Hs.
  apply (cell_fun_defined _ _ (replicate (arity c) false)) in Hs; [by rewrite Hf in Hs; destruct Hs|].
  by rewrite length_fmap, length_replicate, inputs_length.
Qed.

Lemma eval_free b ins outs segs o w i p :
  WF b ins outs segs → o ⊆ order_of segs outs → free_output b i p → eval b o w i p = w i p.
Proof.
  intros HW Ho [Hp|Hf]; [apply eval_other; by right|].
  revert w Ho; induction o as [|j o IH]; intros w Ho; [done|]. rewrite eval_cons, IH by set_solver.
  destruct (decide (i = j)) as [->|Hij]; [|apply eval_step_other; by left].
  destruct (live_cell b ins outs segs j HW) as (c & Ec & Hok); [set_solver|].
  unfold eval_step. rewrite Ec. by rewrite inputs_fun_free by auto.
Qed.

Lemma eval_app b o1 o2 w : eval b (o1 ++ o2) w = eval b o2 (eval b o1 w).
Proof. apply foldl_app. Qed.

(** The values computed along the order satisfy every cell. *)
Lemma eval_consistent b ins outs segs w :
  WF b ins outs segs → consistent (eval b (order_of segs outs) w) b.
Proof.
  intros HW i c y Hl Hc Hf.
  apply (live_order _ _ _ _ _ HW) in Hl as Hi.
  pose proof (linked_nodup _ _ (wf_linked _ _ _ _ HW)) as Hnd.
  apply list_elem_of_split in Hi as (l1 & l2 & Eo). rewrite Eo in Hnd, Hf |- *.
  destruct (NoDup_mid_notin _ _ _ Hnd) as [H1 H2].
  rewrite eval_app, eval_cons in Hf |- *.
  rewrite eval_other by (by left).
  rewrite (lval_ext _ (eval b l1 w)) in Hf.
  - unfold eval_step. rewrite Hc, Hf. unfold upd_val. by rewrite !Nat.eqb_refl.
  - intros l Hin. pose proof (segs_before _ _ _ _ _ _ _ _ _ HW Eo Hc Hin) as Hb.
    apply list.NoDup_app in Hnd as (_ & Hd & _). specialize (Hd _ Hb).
    rewrite eval_other by (left; set_solver). apply eval_step_other. left. set_solver.
Qed.

(** ** Uniqueness *)

Lemma free_dec b i c p : getCell b i = Some c → cell_ok c →
  free_output b i p ∨
  p = 0 ∧ ∀ v, ∃ y, cell_fun (type c) (lval v <$> getInPlaceLinks c) = Some y.
Proof.
  intros Hc Hok. destruct (decide (p = 0)) as [->|Hp]; [|left; by left].
  destruct (cell_fun (type c) (replicate (arity c) false)) as [x|] eqn:Ef.
  - right. split; [done|]. intros v. apply (cell_fun_defined _ (replicate (arity c) false)).
    + by rewrite length_fmap, length_replicate, inputs_length.
    + by rewrite Ef.
  - left. right. intros c' Hc'. congruence.
Qed.

Lemma consistent_unique b ins outs segs v v' :
  WF b ins outs segs → consistent v b → consistent v' b →
  (∀ i p, is_live b i → free_output b i p → v i p = v' i p) →
  ∀ i p, is_live b i → v i p = v' i p.
Proof.
  intros HW Hv Hv' Hfree.
  assert (∀ l1 l2, order_of segs outs = l1 ++ l2 → ∀ i p, i ∈ l1 → v i p = v' i p) as Hall.
  { induction l1 as [|j l1 IH] using rev_ind; intros l2 Eo i p Hi; [set_solver|].
    rewrite <- app_assoc in Eo. specialize (IH _ Eo).
    apply elem_of_app in Hi as [Hi|Hi]; [by apply IH|]. apply list_elem_of_singleton in Hi as ->.
    assert (j ∈ order_of segs outs) as Hj by (rewrite Eo; set_solver).
    destruct (live_cell b ins outs segs j HW Hj) as (c & Hc & Hok).
    apply (live_order _ _ _ _ _ HW) in Hj.
    destruct (free_dec b j c p Hc Hok) as [Hf|[-> Hy]]; [by apply Hfree|].
    destruct (Hy v) as [y Ey]. rewrite (Hv j c y Hj Hc Ey). symmetry.
    apply (Hv' j c y Hj Hc). rewrite <- Ey. f_equal. apply lval_ext. intros l Hl. symmetry.
    eapply IH, segs_before; eauto. }
  intros i p Hl. apply (live_order _ _ _ _ _ HW) in Hl.
  apply (Hall (order_of segs outs) []); [by rewrite app_nil_r|done].
Qed.
End Eval.

(** The number of links that denote a vector of bits. *)
Lemma denotes_all_length `{TypeStore} b ins outs ls f n :
  wf b ins outs → denotes_all b ls f → (∀ v, length (f v) = n) → length ls = n.
Proof.
  intros [segs HW] [_ Hf] Hn.
  rewrite <- (Hn (eval b (order_of segs outs) (λ _ _, false))), <- Hf; [by rewrite length_fmap|].
  by eapply eval_consistent.
Qed.
