(* ===== verification/MakeSpec.v ===== *)
(** * The subnet made from a builder ([gate/model/subnet.cpp])

    [make] gives a subnet whose entries are the cells of the builder in the
    topological order, with the links renamed to the places of their sources, so
    that the valuations of the subnet are those of the builder.  The theorems
    cover the builders that clients fill by additions only, the outputs last. *)

From S2P Require Import Prelude CellType SubnetBase Builder Order BuilderInv Make BuilderAdd.
From S2P Require Import BuilderAlloc BuilderSpec BuilderEval.
From stdpp Require Import gmap.

(** ** Definitions *)

(** The link [l'] leads to the place of the source of [l] in the order [o]. *)
Definition renamed (o : list nat) (l l' : Link) : Prop :=
  o !! idx l' = Some (idx l) ∧ out l' = out l ∧ inv l' = inv l.

Definition same_renamed (o : list nat) (c c' : Cell) : Prop :=
  type c' = type c ∧ arity c' = arity c ∧ more c' = more c ∧
  length (links c') = length (links c) ∧
  Forall2 (renamed o) (getInPlaceLinks c) (getInPlaceLinks c').

(** The subnet [s] holds the cells of [b] in the order [o]. *)
Record made (b : SubnetBuilder) (o : list nat) (s : Subnet) : Prop := {
  md_nums : sn_nIn s = b_nIn b ∧ sn_nOut s = b_nOut b ∧ sn_nCell s = nCell b ∧ sn_nBuf s = nBuf b;
  md_size : Net.size s = length o;
  md_cells : ∀ k i, o !! k = Some i → ∃ c c', getCell b i = Some c ∧
    Net.getCell s k = Some c' ∧ same_renamed o c c' ∧ refcount c' = refcount c;
}.

(** The valuations of a subnet, with the values of its inputs and outputs. *)
Definition sn_consistent (v : valuation) (s : Subnet) : Prop :=
  ∀ k c ls y, Net.getCell s k = Some c → Net.getLinks s k = Some ls →
    cell_fun (type c) (lval v <$> ls) = Some y → v k 0 = y.

Definition in_values (v : valuation) (s : Subnet) : list bool :=
  (λ i, v (Net.getInIdx s i) 0) <$> seq 0 (sn_nIn s).

Definition out_values (v : valuation) (s : Subnet) : option (list bool) :=
  mapM (λ i, lval v <$> Net.getOut s i) (seq 0 (sn_nOut s)).

(** [s] has [n] inputs, and its outputs are the function [f] of its inputs. *)
Definition implements (s : Subnet) (n : nat) (f : list bool → list bool) : Prop :=
  sn_nIn s = n ∧
  (∀ v, sn_consistent v s → out_values v s = Some (f (in_values v s))) ∧
  ∀ xs, length xs = n → ∃ v, sn_consistent v s ∧ in_values v s = xs.

(** ** Relinking a cell in place *)

Lemma delFanout_off i j b :
  fanoutsEnabled b = false → i < length (entries b) → j < length (entries b) → delFanout i j b = Some b.
Proof. intros Hf Hi Hj. unfold delFanout. by rewrite bool_decide_eq_true_2, Hf. Qed.

Lemma addFanout_off i j b :
  fanoutsEnabled b = false → i < length (entries b) → j < length (entries b) → addFanout i j b = Some b.
Proof. intros Hf Hi Hj. unfold addFanout. by rewrite bool_decide_eq_true_2, Hf. Qed.

(** There is no buffer to delete. *)
Definition unbuffered (del : bool) (b : SubnetBuilder) : Prop :=
  del = true → ∀ i c, getCell b i = Some c → type c ≠ GateID BUF.

Definition put_link (j : nat) (l : Link) (c : Cell) : Cell :=
  mkCell (arity c) (more c) (refcount c) (type c) (<[j := l]> (links c)).

Definition put_cell (i : nat) (c : Cell) (b : SubnetBuilder) : SubnetBuilder :=
  with_entries (<[i := ECell c]> (entries b)) b.

Lemma relink_one_in b i j c l new :
  fanoutsEnabled b = false → getCell b i = Some c → j < InPlaceLinks → links c !! j = Some l →
  idx l < length (entries b) → idx new < length (entries b) →
  relink_one i b j new = Some (put_cell i (put_link j new c) b).
Proof.
  intros Hf Hc Hj Hl H1 H2. pose proof (getCell_lt _ _ _ Hc) as Hi.
  unfold relink_one, getLink, setLink, upd_cell. rewrite Hc. cbn [mbind option_bind].
  rewrite bool_decide_eq_true_2 by done. rewrite Hl. cbn [mbind option_bind].
  rewrite delFanout_off by done. cbn [mbind option_bind].
  rewrite Hc. cbn [mbind option_bind]. rewrite addFanout_off; [done|done|..];
    cbn; by rewrite length_insert.
Qed.

Lemma put_cell_get i c b : i < length (entries b) → getCell (put_cell i c b) i = Some c.
Proof. intros Hi. apply getCell_lookup. by apply list_lookup_insert_eq. Qed.

Lemma put_cell_put i c c' b : put_cell i c (put_cell i c' b) = put_cell i c b.
Proof. unfold put_cell. cbn. by rewrite list_insert_insert_eq. Qed.

(** The loop of [relinkCell] from the place [j] on. *)
Lemma relink_loop i b : fanoutsEnabled b = false → i < length (entries b) →
  ∀ new j c, j + length new ≤ InPlaceLinks → length (links c) = InPlaceLinks →
  (∀ l, l ∈ drop j (take (j + length new) (links c)) → idx l < length (entries b)) →
  (∀ l, l ∈ new → idx l < length (entries b)) →
  ∃ ls, foldl (λ b '(j, l), b ← b; relink_one i b j l) (Some (put_cell i c b)) (imap (λ k l, (j + k, l)) new)
      = Some (put_cell i (mkCell (arity c) (more c) (refcount c) (type c) ls) b) ∧
    ls = take j (links c) ++ new ++ drop (j + length new) (links c).
Proof.
  intros Hf Hi. induction new as [|n new IH]; intros j c Hj Hlen Hold Hnew.
  - exists (links c). cbn. rewrite Nat.add_0_r, take_drop. by destruct c.
  - cbn [imap foldl mbind option_bind]. cbn [length] in *. rewrite Nat.add_0_r.
    destruct (lookup_lt_is_Some_2 (links c) j) as [l Hl]; [lia|].
    rewrite (relink_one_in _ i j c l n); [| done|by apply put_cell_get|lia|done| |].
    2: { cbn. rewrite length_insert. apply Hold. apply list_elem_of_lookup. exists 0.
         rewrite lookup_drop, Nat.add_0_r, lookup_take_lt by lia. done. }
    2: { cbn. rewrite length_insert. apply Hnew. set_solver. }
    rewrite put_cell_put.
    replace (imap ((λ k l, (j + k, l)) ∘ S) new) with (imap (λ k l, (S j + k, l)) new)
      by (apply imap_ext; intros k x _; cbn; f_equal; lia).
    destruct (IH (S j) (put_link j n c)) as (ls & E & Els).
    + lia.
    + cbn. by rewrite length_insert.
    + intros x Hx. apply Hold. apply list_elem_of_lookup in Hx as [k Hk].
      rewrite lookup_drop in Hk. apply lookup_take_Some in Hk as [Hk Hlt]. cbn in Hk.
      rewrite list_lookup_insert_ne in Hk by lia. apply list_elem_of_lookup. exists (S k).
      rewrite lookup_drop, lookup_take_lt by lia. rewrite <- Hk. f_equal. lia.
    + intros x Hx. apply Hnew. set_solver.
    + exists ls. cbn [option_bind mbind] in E |- *. rewrite E. split; [done|].
      rewrite Els. cbn [links put_link].
      rewrite (insert_take_drop (links c) j n) by lia.
      assert (length (take j (links c)) = j) as Htj by (rewrite length_take; lia).
      rewrite take_app_ge, Htj by lia. replace (S j - j) with 1 by lia. cbn [take].
      rewrite drop_app_ge by (rewrite Htj; lia). rewrite Htj.
      replace (S j + length new - j) with (S (length new)) by lia. cbn [drop].
      rewrite drop_drop, <- app_assoc. cbn [app].
      by replace (S j + length new) with (j + S (length new)) by lia.
Qed.

Lemma relinkCell_in b i c new :
  fanoutsEnabled b = false → getCell b i = Some c → arity c = length new →
  arity c ≤ InPlaceLinks → length (links c) = InPlaceLinks →
  (∀ l, l ∈ getInPlaceLinks c → idx l < length (entries b)) →
  (∀ l, l ∈ new → idx l < length (entries b)) →
  ∃ c', relinkCell i new b = Some (put_cell i c' b) ∧ getInPlaceLinks c' = new ∧
    type c' = type c ∧ arity c' = arity c ∧ more c' = more c ∧ length (links c') = length (links c).
Proof.
  intros Hf Hc Ha Hl Hlen Hold Hnew. unfold relinkCell. rewrite Hc. cbn [mbind option_bind].
  rewrite bool_decide_eq_true_2 by done.
  assert (b = put_cell i c b) as E.
  { unfold put_cell. rewrite list_insert_id; [by destruct b|by apply getCell_lookup]. }
  pose proof (getCell_lt _ _ _ Hc) as Hi.
  destruct (relink_loop i b Hf Hi new 0 c) as (ls & E1 & Els); [cbn; lia|done| |done|].
  { intros l Hin. apply Hold. unfold getInPlaceLinks. rewrite Nat.min_l by done.
    rewrite drop_0 in Hin. cbn [plus] in Hin. by rewrite Ha. }
  cbn [plus] in E1. rewrite <- E in E1. change (imap (λ k l, (k, l)) new) with (imap pair new) in E1. rewrite E1.
  eexists. split; [done|]. cbn [getInPlaceLinks type arity more links plus take app] in *.
  unfold getInPlaceLinks. cbn [arity links]. subst ls. cbn [take app plus].
  split; [|split_all; try done].
  - rewrite Nat.min_l, Ha by done. rewrite take_0. exact (take_app_length new _).
  - cbn [links]. rewrite take_0. rewrite app_nil_l, length_app, length_drop. lia.
Qed.

(** ** One entry of the order *)

Lemma getNext_frame b b' e :
  length (entries b') = length (entries b) → desc b' = desc b →
  subnetBegin b' = subnetBegin b → subnetEnd b' = subnetEnd b → getNext b' e = getNext b e.
Proof.
  intros E1 E2 E3 E4. unfold getNext, getSubnetBegin, getSubnetEnd.
  by rewrite E1, E2, E3, E4.
Qed.

Lemma upd_entry_cell_count i es c :
  es !! i = Some (ECell c) → upd_entry_cell i incRefCount es = Some (<[i := ECell (count_up c)]> es).
Proof. intros Hc. unfold upd_entry_cell. by rewrite Hc. Qed.

Lemma bump_succ n c : bump n (count_up c) = bump (S n) c.
Proof. unfold bump. by rewrite Nat.iter_succ_r. Qed.

Section Ins.
Context (b : SubnetBuilder) (o : list nat) (nd : list EntryDescriptor) (m : gmap nat (nat * bool)).
Context (Hnd : NoDup o).
Context (Hm : ∀ k i, o !! k = Some i → m !! i = Some (k, false)).
Context (Hd : ∀ k i, o !! k = Some i → depth <$> nd !! k = getDepth b i).

(** The links of one cell: the sources are in [o] already. *)
Lemma rearrange_ins ls : ∀ es acc d0 d,
  length es = length o → (∀ k, k < length o → ∃ c, es !! k = Some (ECell c)) →
  (∀ l, l ∈ ls → idx l ∈ o ∧ out l < 8) → depth_from b d0 ls = Some d →
  ∃ ls' es', foldl (λ s l, s ← s; rearrange_in nd s l) (Some (acc, d0, es, m)) ls
      = Some (acc ++ ls', d, es', m) ∧
    Forall2 (renamed o) ls ls' ∧ length es' = length es ∧
    ∀ k i c, o !! k = Some i → es !! k = Some (ECell c) →
      es' !! k = Some (ECell (bump (links_to i ls) c)).
Proof.
  induction ls as [|l ls IH]; intros es acc d0 d Hlen Hes Hls Hdep.
  - exists [], es. cbn. rewrite app_nil_r. injection Hdep as <-. by split_all.
  - destruct (Hls l) as [Hin Ho]; [set_solver|]. apply list_elem_of_lookup_1 in Hin as [k Hk].
    apply depth_from_cons in Hdep as (dl & Hdl & Hdep).
    pose proof (Hd k _ Hk) as Hdk. rewrite Hdl in Hdk.
    destruct (nd !! k) as [dk|] eqn:Edk; [|done]. cbn in Hdk. injection Hdk as Hdk.
    destruct (Hes k) as [c Hc]; [by eapply lookup_lt_Some|].
    set (es1 := <[k := ECell (count_up c)]> es).
    destruct (IH es1 (acc ++ [SubnetLink k (out l) (xorb false (inv l))]) (max d0 (depth_succ dl)) d)
      as (ls' & es' & E & HF & Hlen' & Hb).
    + unfold es1. by rewrite length_insert.
    + intros k' Hk'. unfold es1. destruct (decide (k' = k)) as [->|Hne].
      * eexists. apply list_lookup_insert_eq. lia.
      * rewrite list_lookup_insert_ne by done. by apply Hes.
    + intros l' Hl'. apply Hls. set_solver.
    + done.
    + exists (SubnetLink k (out l) (xorb false (inv l)) :: ls'), es'. split_all.
      * assert (rearrange_in nd (acc, d0, es, m) l =
          Some (acc ++ [SubnetLink k (out l) (xorb false (inv l))], d0 `max` depth_succ dl, es1, m)) as Es.
        { unfold rearrange_in. rewrite (Hm _ _ Hk). cbn [default from_option id mbind option_bind].
          rewrite decide_False by done. rewrite (Hm _ _ Hk). cbn [mbind option_bind].
          rewrite Edk. cbn [mbind option_bind fmap option_fmap option_map].
          rewrite (upd_entry_cell_count _ _ c) by done. cbn [mbind option_bind]. by rewrite Hdk. }
        cbn [foldl mbind option_bind] in E |- *. rewrite Es, E, <- app_assoc. done.
      * constructor; [|done]. unfold renamed, SubnetLink. cbn [idx out inv].
        split_all; [done|by apply Nat.mod_small|by destruct (inv l)].
      * rewrite Hlen'. unfold es1. by rewrite length_insert.
      * intros k' i' c' Hk' Hc'. rewrite links_to_cons.
        destruct (decide (k' = k)) as [->|Hne].
        -- rewrite Hk in Hk'. injection Hk' as <-. rewrite decide_True by done.
           rewrite Hc in Hc'. injection Hc' as <-.
           rewrite (Hb k (idx l) (count_up c)); [by rewrite bump_succ|done|].
           unfold es1. apply list_lookup_insert_eq. by eapply lookup_lt_Some.
        -- rewrite decide_False by (intros <-; apply Hne; by eapply NoDup_lookup).
           apply Hb; [done|]. unfold es1. by rewrite list_lookup_insert_ne.
Qed.
End Ins.

(** ** The loop over the order *)

Lemma head_concat {A} (ls : list (list A)) : ∃ r, concat ls = default [] (head ls) ++ r.
Proof. destruct ls as [|l ls]; [by exists []|by exists (concat ls)]. Qed.

Section Loop.
Context `{TypeStore}.
Context (b : SubnetBuilder) (ins outs : list nat) (segs : list (list nat)).
Context (HW : WF b ins outs segs) (Hfan : fanoutsEnabled b = false).
Context (Hempty : emptyEntryIDs b = []).

Let o := order_of segs outs.

(** What the loop keeps of the builder. *)
Record frame (b' : SubnetBuilder) : Prop := {
  fr_entries : length (entries b') = length (entries b);
  fr_desc : desc b' = desc b;
  fr_order : subnetBegin b' = subnetBegin b ∧ subnetEnd b' = subnetEnd b;
  fr_fan : fanoutsEnabled b' = false;
  fr_nums : b_nIn b' = b_nIn b ∧ b_nOut b' = b_nOut b ∧ nCell b' = nCell b ∧ nBuf b' = nBuf b;
  fr_bounds : length (depthBounds b') = length (depthBounds b);
}.

(** The state of the loop after the entries [l1] of the order. *)
Record loop_inv (l1 : list nat) (r : Rearrange) : Prop := {
  li_len : length (newEntries r) = length l1 ∧ length (newDesc r) = length l1;
  li_cells : ∀ k i, l1 !! k = Some i → ∃ c c', getCell b i = Some c ∧
    newEntries r !! k = Some (ECell c') ∧ same_renamed o c c' ∧
    refcount c' = (N.of_nat (refs b l1 i) mod 2 ^ 20)%N;
  li_map : ∀ k i, l1 !! k = Some i → relinkMapping r !! i = Some (k, false);
  li_depth : ∀ k i, l1 !! k = Some i → depth <$> newDesc r !! k = getDepth b i;
  li_frame : frame (r_builder r);
  li_rest : ∀ j, j ∉ l1 → entries (r_builder r) !! j = entries b !! j;
  li_maps : entryMapping r = [] ∧ saveMapping r = [] ∧ isLink r = 0;
  li_last : ∀ d, lastCellDepth r = Some d → d < length (depthBounds b);
}.

Lemma order_length : length o = length (entries b).
Proof using HW Hempty.
  pose proof (wf_perm _ _ _ _ HW) as Hp. rewrite Hempty, app_nil_r in Hp.
  apply Permutation_length in Hp. by rewrite length_seq in Hp.
Qed.

Lemma order_nodup : NoDup o.
Proof using HW. apply (linked_nodup _ _ (wf_linked _ _ _ _ HW)). Qed.

Lemma order_bounds : length (depthBounds b) = length segs.
Proof. rewrite (wf_bounds _ _ _ _ HW). apply length_fmap. Qed.

(** A cell of the order, with its depth. *)
Lemma order_cell i : i ∈ o → ∃ c d, getCell b i = Some c ∧ cell_ok c ∧
  getDepth b i = Some (Some d) ∧ depth_from b 0 (getInPlaceLinks c) = Some d ∧
  d < length segs ∧ (i ∈ outs → type c = GateID OUT).
Proof using HW.
  intros Hi. unfold o, order_of in Hi. pose proof order_nodup as Hnd. unfold o, order_of in Hnd.
  apply list.NoDup_app in Hnd as (_ & Hd & _). apply elem_of_app in Hi as [Hi|Hi].
  - pose proof (Hd _ Hi) as Hno. destruct (seg_elem _ _ Hi) as (d & s & Hs & His).
    destruct (wf_seg _ _ _ _ HW d s i Hs His) as (c & Hc & Hok & Ht & _ & Hdi & Hnew).
    exists c, d. split_all; try done. by eapply lookup_lt_Some.
  - destruct (wf_outs _ _ _ _ HW i Hi) as (c & Hc & Hok & Ht & _ & d & Hdi & Hnew & Hlt).
    exists c, d. by split_all.
Qed.

(** The bounds of the depths stay in range. *)
Lemma bounds_step l1 i l2 r c d :
  loop_inv l1 r → o = l1 ++ i :: l2 → getCell b i = Some c → d < length segs →
  ∃ db ov, rearrange_bounds c d r = Some (with_depthBounds db (r_builder r), ov) ∧
    length db = length (depthBounds b).
Proof.
  intros HI Eo Hc Hd. destruct (li_len _ _ HI) as [Hlen _].
  pose proof (fr_bounds _ (li_frame _ _ HI)) as Hb. pose proof (li_last _ _ HI) as Hl.
  rewrite order_bounds in *.
  assert (∀ x : SubnetBuilder, with_depthBounds (depthBounds x) x = x) as Hwith by by intros [].
  unfold rearrange_bounds. rewrite Hlen. destruct (lastCellDepth r) as [last|].
  2: { exists (depthBounds (r_builder r)), (outVisited r). by rewrite Hwith. }
  specialize (Hl last eq_refl). destruct (outVisited r).
  { exists (depthBounds (r_builder r)), true. by rewrite Hwith. }
  assert (length l1 < length (desc b)) as Hlt.
  { rewrite (linked_desc _ _ (wf_linked _ _ _ _ HW)), <- order_length, Eo, length_app. cbn. lia. }
  unfold getDepth. rewrite (fr_desc _ (li_frame _ _ HI)).
  apply lookup_lt_is_Some_2 in Hlt as [x Hx]. rewrite Hx. cbn [fmap option_fmap option_map mbind option_bind].
  case_decide; [exists (depthBounds (r_builder r)), false; by rewrite Hwith|].
  destruct (lookup_lt_is_Some_2 (depthBounds (r_builder r)) last) as [[f l] Hf]; [lia|].
  rewrite Hf. cbn [mbind option_bind]. unfold upd_bounds. rewrite bool_decide_eq_true_2 by lia.
  cbn [mbind option_bind]. destruct (cell_is OUT c).
  { eexists _, true. split; [done|]. by rewrite length_insert. }
  cbn [depthBounds with_depthBounds].
  destruct (lookup_lt_is_Some_2 (<[last := (f, id_pred (length l1))]> (depthBounds (r_builder r))) d)
    as [[f' l'] Hf']; [rewrite length_insert; lia|].
  rewrite Hf'. cbn [mbind option_bind]. rewrite bool_decide_eq_true_2 by (rewrite length_insert; lia).
  cbn [mbind option_bind]. eexists _, false. split; [done|]. by rewrite !length_insert.
Qed.

(** The cell [i] of the order, with its inputs before it. *)
Lemma order_at l1 i l2 : o = l1 ++ i :: l2 →
  i ∉ l1 ∧ i < length (entries b) ∧ length l1 < length (entries b) ∧ NoDup l1 ∧
  getNext b (Idx i) = Some (match l2 with [] => upperBoundID | y :: _ => Idx y end).
Proof.
  intros Eo. pose proof order_nodup as Hnd. pose proof order_length as Hlen.
  pose proof (wf_linked _ _ _ _ HW) as HL. fold o in HL. rewrite Eo in Hnd, Hlen, HL.
  split; [by apply (NoDup_mid_notin l1 i l2)|]. split; [apply (linked_range _ _ HL); set_solver|].
  split; [rewrite length_app in Hlen; cbn in Hlen; lia|].
  split; [by apply list.NoDup_app in Hnd as (? & _)|]. by apply getNext_linked with l1.
Qed.

Lemma refs_snoc l1 i x c : getCell b i = Some c →
  refs b (l1 ++ [i]) x = refs b l1 x + links_to x (getInPlaceLinks c).
Proof. intros Hc. unfold refs. rewrite sum_list_with_app. cbn. rewrite Hc. lia. Qed.

(** No cell before [i] refers to it. *)
Lemma refs_before l1 i l2 : o = l1 ++ i :: l2 → refs b l1 i = 0.
Proof.
  intros Eo. destruct (order_at _ _ _ Eo) as (Hi & _). revert Hi.
  assert (∀ l0 l3, l1 = l0 ++ l3 → i ∉ l1 → refs b l0 i = 0) as Hall.
  { induction l0 as [|j l0 IH] using rev_ind; [done|]. intros l3 E1 Hi.
    assert (j ∈ o) as Hj by (rewrite Eo, E1; set_solver).
    destruct (order_cell j Hj) as (c & _ & Hc & _). rewrite (refs_snoc _ _ _ c) by done.
    rewrite <- app_assoc in E1. rewrite (IH _ E1 Hi), links_to_self; [done|].
    intros l Hl El. apply Hi. rewrite E1, <- El. apply elem_of_app. left.
    eapply (segs_before b ins outs segs l0 j (l3 ++ i :: l2)); eauto.
    fold o. by rewrite Eo, E1, <- app_assoc. }
  intros Hi. apply (Hall l1 []); [by rewrite app_nil_r|done].
Qed.

Lemma getLinks_in b' i c : getCell b' i = Some c → arity c ≤ InPlaceLinks →
  is_Some (getNext b' (Idx i)) → getLinks b' i = Some (getInPlaceLinks c).
Proof.
  intros Hc Ha [n Hn]. unfold getLinks. rewrite Hc. cbn [mbind option_bind]. rewrite Hn.
  cbn [mbind option_bind]. replace (arity c - InPlaceLinks) with 0 by lia.
  cbn. by rewrite app_nil_r.
Qed.

Lemma renamed_app l1 l2 l l' : renamed l1 l l' → renamed (l1 ++ l2) l l'.
Proof. intros (E & ? & ?). unfold renamed. split_all; [by apply lookup_app_l_Some|done|done]. Qed.

Lemma in_links_out c : cell_ok c → ∀ l, l ∈ getInPlaceLinks c → out l < 8.
Proof.
  intros (_ & _ & _ & _ & Hf) l Hl. rewrite list.Forall_forall in Hf. apply Hf.
  unfold getInPlaceLinks in Hl. by apply elem_of_take in Hl as (k & Hk%list_elem_of_lookup_2 & _).
Qed.

Lemma frame_put b' i c db : frame b' → length db = length (depthBounds b) →
  frame (put_cell i c (with_depthBounds db b')).
Proof.
  intros [F1 F2 F3 F4 F5 F6] Hdb. split; cbn; try done. by rewrite length_insert.
Qed.

(** The invariant after the cell [i]: [ls'] are its new links, [es] the new
    entries with the counts of its inputs. *)
Lemma step_inv l1 i l2 r c c' d ls' es b' ov w lk :
  loop_inv l1 r → o = l1 ++ i :: l2 → getCell b i = Some c → getDepth b i = Some (Some d) →
  Forall2 (renamed l1) (getInPlaceLinks c) ls' → length es = length (newEntries r) →
  (∀ k j x, l1 !! k = Some j → newEntries r !! k = Some (ECell x) →
     es !! k = Some (ECell (bump (links_to j (getInPlaceLinks c)) x))) →
  getInPlaceLinks c' = ls' → type c' = type c → arity c' = arity c → more c' = more c →
  length (links c') = length (links c) →
  frame b' → (∀ j, j ≠ i → entries b' !! j = entries (r_builder r) !! j) →
  d < length segs → lk = 0 →
  loop_inv (l1 ++ [i]) (mkRearrange b' (es ++ [ECell (set_refcount 0 c')])
    (newDesc r ++ [mkDesc normalOrderID normalOrderID (Some d) w]) [] []
    (<[i := (length l1, false)]> (relinkMapping r)) ov (Some d) lk).
Proof.
  intros HI Eo Hc Hd HF Hes Hb Hl Ht Ha Hm Hk Hfr Hrest Hov ->.
  destruct (order_at _ _ _ Eo) as (Hi1 & _). destruct (li_len _ _ HI) as [L1 L2].
  assert (∀ ks ks', Forall2 (renamed l1) ks ks' → Forall2 (renamed o) ks ks') as Hren.
  { intros ks ks' Hks. eapply Forall2_impl; [exact Hks|]. intros x y Hxy. rewrite Eo.
    by apply renamed_app. }
  assert (∀ (P : nat → nat → Prop), (∀ k j, l1 !! k = Some j → P k j) → P (length l1) i →
    ∀ k j, (l1 ++ [i]) !! k = Some j → P k j) as Hsnoc.
  { intros P Hold Hnew k j Hkj. apply lookup_snoc_Some in Hkj as [[_ ?]|[-> ->]]; auto. }
  split; cbn [newEntries newDesc r_builder relinkMapping outVisited lastCellDepth entryMapping saveMapping isLink].
  - rewrite !length_app. cbn. lia.
  - apply (Hsnoc (λ k j, ∃ c c', _ ∧ _ ∧ _ ∧ refcount c' = (N.of_nat (refs b _ j) mod 2 ^ 20)%N)).
    + intros k j Hkj. destruct (li_cells _ _ HI k j Hkj) as (x & x' & Hx & Hx' & Hs & Hr).
      exists x, (bump (links_to j (getInPlaceLinks c)) x'). split_all; [done| | |].
      * apply lookup_app_l_Some. by apply Hb.
      * destruct Hs as (S1 & S2 & S3 & S4 & S5).
        destruct (bump_same (links_to j (getInPlaceLinks c)) x') as [(E1 & E2 & E3) E4].
        unfold same_renamed. rewrite bump_inputs, E1, E2, E3, E4. by split_all.
      * rewrite (bump_refcount _ _ _ Hr), (refs_snoc _ _ _ c) by done. f_equal. lia.
    + exists c, (set_refcount 0 c'). split_all; [done| | |].
      * rewrite lookup_app_r by lia. replace (_ - _) with 0 by lia. done.
      * unfold same_renamed, set_refcount. cbn [type arity more links].
        split_all; [done..|]. change (getInPlaceLinks (mkCell _ _ _ _ _)) with (getInPlaceLinks c').
        rewrite Hl. by apply Hren.
      * cbn. rewrite (refs_snoc _ _ _ c), (refs_before _ _ _ Eo), links_to_self; [done| |done].
        intros l Hlin E. apply Hi1. rewrite <- E. eapply (segs_before b ins outs segs); eauto.
  - apply Hsnoc; [|by apply lookup_insert_eq]. intros k j Hkj.
    rewrite lookup_insert_ne; [by apply (li_map _ _ HI)|]. intros ->.
    apply Hi1. by eapply list_elem_of_lookup_2.
  - apply Hsnoc.
    + intros k j Hkj. rewrite <- (li_depth _ _ HI k j Hkj). f_equal. apply lookup_app_l.
      rewrite L2. by eapply lookup_lt_Some.
    + rewrite lookup_app_r, L2, Nat.sub_diag by lia. by rewrite Hd.
  - done.
  - intros j Hj. rewrite Hrest by set_solver. apply (li_rest _ _ HI). set_solver.
  - done.
  - intros d' [= <-]. by rewrite order_bounds.
Qed.

(** Either buffers are kept, or there are none. *)
Context (del : bool) (Hdel : unbuffered del b).

(** The loop puts the cell [i] at the end of the new entries. *)
Lemma rearrange_step l1 i l2 r :
  loop_inv l1 r → o = l1 ++ i :: l2 →
  ∃ r', rearrange_entry del i r = Some r' ∧ loop_inv (l1 ++ [i]) r'.
Proof.
  intros HI Eo. destruct (order_at _ _ _ Eo) as (Hi1 & HiN & Hl1 & Hnd1 & Hnext).
  assert (i ∈ o) as Hio by (rewrite Eo; set_solver).
  destruct (order_cell i Hio) as (c & d & Hc & Hok & Hd & Hdep & Hseg & Hout).
  pose proof (λ l, segs_before b ins outs segs l1 i l2 c l HW Eo Hc) as Hin.
  destruct (li_frame _ _ HI) as [F1 F2 [F3 F4] F5 F6 F7]. destruct (li_maps _ _ HI) as (M1 & M2 & M3).
  destruct (li_len _ _ HI) as [L1 L2].
  assert (getCell (r_builder r) i = Some c) as Hc'.
  { rewrite getCell_lookup, (li_rest _ _ HI) by done. by apply getCell_lookup. }
  assert (∀ l, l ∈ getInPlaceLinks c → idx l < length (entries b)) as Hrange.
  { intros l Hl. apply (linked_range _ _ (wf_linked _ _ _ _ HW)). fold o. rewrite Eo.
    specialize (Hin l Hl). set_solver. }
  set (m := <[i := (length l1, false)]> (relinkMapping r)).
  assert (∀ k j, l1 !! k = Some j → m !! j = Some (k, false)) as Hm.
  { intros k j Hk. unfold m. rewrite lookup_insert_ne; [by apply (li_map _ _ HI)|].
    intros ->. apply Hi1. by eapply list_elem_of_lookup_2. }
  destruct (rearrange_ins b l1 (newDesc r) m Hnd1 Hm (li_depth _ _ HI) (getInPlaceLinks c)
              (newEntries r) [] 0 d) as (ls' & es & Efold & HF & Hes & Hbump); [done| | |done|].
  { intros k Hk. apply lookup_lt_is_Some_2 in Hk as [j Hj].
    destruct (li_cells _ _ HI k j Hj) as (_ & c' & _ & Hc1 & _). by exists c'. }
  { intros l Hl. split; [by apply Hin|by eapply in_links_out]. }
  destruct (bounds_step l1 i l2 r c d HI Eo Hc Hseg) as (db & ov & Hb & Hdb).
  destruct (relinkCell_in (with_depthBounds db (r_builder r)) i c ls') as (c' & Hrel & C1 & C2 & C3 & C4 & C5).
  { done. } { done. }
  { apply Forall2_length in HF. rewrite <- HF. by rewrite inputs_length. }
  { apply Hok. } { apply Hok. }
  { cbn. rewrite F1. done. }
  { cbn. rewrite F1. intros l Hl. apply list_elem_of_lookup in Hl as [k Hk].
    destruct (Forall2_lookup_r _ _ _ _ _ HF Hk) as (l0 & _ & (E & _)).
    apply lookup_lt_Some in E. lia. }
  assert (getLinks (r_builder r) i = Some (getInPlaceLinks c)) as Hlinks.
  { apply getLinks_in; [done|apply Hok|].
    rewrite (getNext_frame b) by done. rewrite Hnext. by eexists. }
  destruct (lookup_lt_is_Some_2 (desc b) i) as [di Hdi].
  { by rewrite (linked_desc _ _ (wf_linked _ _ _ _ HW)). }
  assert (is_Some (getWeight (r_builder r) i)) as [w Hw].
  { unfold getWeight. rewrite F2, Hdi. by eexists. }
  eexists. split.
  { unfold rearrange_entry.
    assert ((if del && (isLink r =? 0) then is_buf_at (r_builder r) i else Some false) = Some false) as ->.
    { rewrite M3. unfold is_buf_at. destruct del eqn:Edel; [|done]. cbn. rewrite Hc'. cbn. f_equal.
      apply bool_decide_eq_false_2. by apply (Hdel eq_refl i). }
    cbn [mbind option_bind]. unfold Make.set_map. cbn [isLink]. rewrite M3.
    cbn [Nat.eqb]. unfold rearrange_cell.
    cbn [r_builder newEntries newDesc entryMapping saveMapping relinkMapping outVisited lastCellDepth isLink].
    rewrite Hc'. cbn [mbind option_bind]. rewrite Hw. cbn [mbind option_bind].
    rewrite Hlinks. cbn [mbind option_bind]. rewrite L1. fold m.
    cbn [mbind option_bind] in Efold. rewrite Efold. cbn [mbind option_bind].
    unfold rearrange_bounds in Hb |- *.
    cbn [r_builder newEntries newDesc entryMapping saveMapping relinkMapping outVisited lastCellDepth isLink].
    rewrite Hb. cbn [mbind option_bind app]. rewrite Hrel. cbn [mbind option_bind].
    rewrite put_cell_get by (cbn; by rewrite F1). cbn [mbind option_bind].
    rewrite M1, M2. cbn [rearrange_mapping mbind option_bind]. done. }
  apply (step_inv l1 i l2 r c c' d ls' es); try done.
  - by apply frame_put.
  - intros j Hj. cbn. by rewrite list_lookup_insert_ne.
  - destruct Hok as (_ & Ha & _). rewrite C3. lia.
Qed.


(** The whole order. *)
Lemma rearrange_all l2 : ∀ l1 fuel r, o = l1 ++ l2 → loop_inv l1 r → length l2 ≤ fuel →
  ∃ r', rearrange_loop fuel del (match l2 with [] => upperBoundID | y :: _ => Idx y end) r = Some r' ∧
    loop_inv o r'.
Proof.
  induction l2 as [|i l2 IH]; intros l1 fuel r Eo HI Hf.
  - exists r. rewrite app_nil_r in Eo. rewrite Eo. by destruct fuel.
  - destruct fuel as [|fuel]; [cbn in Hf; lia|]. cbn [rearrange_loop].
    destruct (rearrange_step _ _ _ _ HI Eo) as (r1 & -> & HI1). cbn [mbind option_bind].
    destruct (order_at _ _ _ Eo) as (_ & _ & _ & _ & Hn).
    destruct (li_frame _ _ HI1) as [F1 F2 [F3 F4] _ _ _].
    rewrite (getNext_frame b), Hn by done. cbn [mbind option_bind].
    apply (IH (l1 ++ [i])); [by rewrite Eo, <- app_assoc|done|cbn in Hf; lia].
Qed.

Lemma loop_start m : loop_inv [] (mkRearrange b [] [] [] m ∅ false None 0) ↔ m = [].
Proof.
  split; [by intros HI; destruct (li_maps _ _ HI) as (_ & ? & _)|intros ->].
  split; cbn; try done.
Qed.

(** The entries of a builder whose order was never changed. *)
Lemma normal_order : isDisassembled b = false → o = seq 0 (length (entries b)).
Proof.
  intros Hd. pose proof (wf_normal _ _ _ _ HW Hd) as Hn.
  pose proof (linked_chain _ _ (wf_linked _ _ _ _ HW)) as Hc. fold o in Hc.
  assert (∀ x y, linked b x y → y = S x) as Hlink.
  { intros x y [Hx _]. unfold nextOf in Hx. destruct (desc b !! x) as [dx|] eqn:Ex; [|done].
    apply list_elem_of_lookup_2 in Ex. destruct (Hn _ Ex) as [_ En].
    cbn [mbind option_bind] in Hx. rewrite En, decide_True in Hx by done. by injection Hx as <-. }
  assert (∀ l x, chain b x l → l = seq (S x) (length l)) as Hchain.
  { induction l as [|y l IH]; [done|]. intros x [Hxy Hl]. rewrite (Hlink _ _ Hxy) in Hl |- *.
    cbn. f_equal. by apply IH. }
  assert (∀ l, l ≡ₚ seq 0 (length l) → chained b l → l = seq 0 (length l)) as Hall.
  { intros [|x l] Hp Hl; [done|]. cbn in Hl. pose proof (Hchain _ _ Hl) as El.
    assert (0 ∈ x :: l) as H0 by (rewrite Hp; apply elem_of_seq; cbn; lia).
    destruct x as [|x]; [cbn; by f_equal|]. exfalso. rewrite El in H0.
    apply elem_of_cons in H0 as [?|H0]; [done|]. apply elem_of_seq in H0. lia. }
  pose proof (wf_perm _ _ _ _ HW) as Hp. rewrite Hempty, app_nil_r in Hp. fold o in Hp.
  rewrite <- order_length in Hp |- *. by apply Hall.
Qed.

Lemma check_cells_true s b' fuel : ∀ i n, n - i ≤ fuel →
  (∀ k, i ≤ k < n → ∃ c, getCell b' k = Some c ∧ type c = GateID s ∧ more c = 0) →
  check_cells fuel s b' i n = Some true.
Proof.
  induction fuel as [|fuel IH]; intros i n Hf Hk; cbn [check_cells].
  - by rewrite bool_decide_eq_true_2 by lia.
  - case_bool_decide as Hi; [done|]. destruct (Hk i) as (c & -> & Ht & Hm); [lia|].
    cbn [mbind option_bind]. unfold cell_is. rewrite bool_decide_eq_true_2, Hm, Nat.add_0_r by done.
    apply IH; [lia|]. intros k Hki. apply Hk. lia.
Qed.

(** The places of the inputs and the outputs in the order. *)
Lemma ins_first k : k < length ins → ∃ i c, o !! k = Some i ∧ getCell b i = Some c ∧
  type c = GateID IN ∧ more c = 0 ∧ ins !! k = Some i.
Proof using HW.
  intros Hk. apply lookup_lt_is_Some_2 in Hk as [i Hi]. exists i.
  destruct (wf_ins _ _ _ _ HW) as (consts & Es & Hin & _).
  assert (o !! k = Some i) as Ho.
  { unfold o, order_of. destruct (head_concat segs) as [rest ->].
    rewrite Es, <- !app_assoc. by apply lookup_app_l_Some. }
  pose proof (list_elem_of_lookup_2 _ _ _ Hi) as Hii. specialize (Hin _ Hii).
  destruct (order_cell i) as (c & d & Hc & Hok & _); [by eapply list_elem_of_lookup_2|].
  exists c. split_all; try done; [|apply Hok]. unfold cell_type in Hin. rewrite Hc in Hin. by injection Hin.
Qed.

Lemma outs_last k : k < length outs → ∃ i c, o !! (length (entries b) - length outs + k) = Some i ∧
  getCell b i = Some c ∧ type c = GateID OUT ∧ more c = 0 ∧ outs !! k = Some i.
Proof using HW Hempty.
  intros Hk. pose proof order_length as Hlen. apply lookup_lt_is_Some_2 in Hk as [i Hi]. exists i.
  pose proof (list_elem_of_lookup_2 _ _ _ Hi) as Hii.
  assert (o !! (length (entries b) - length outs + k) = Some i) as Ho.
  { unfold o, order_of in Hlen |- *. rewrite length_app in Hlen.
    rewrite lookup_app_r by lia. rewrite <- Hi. f_equal. lia. }
  destruct (order_cell i) as (c & d & Hc & Hok & _ & _ & _ & Hout); [by eapply list_elem_of_lookup_2|].
  exists c. split_all; try done; [by apply Hout|apply Hok].
Qed.

(** The entries [es] hold the cells of the order. *)
Definition laid_out (es : list Entry) : Prop :=
  length es = length o ∧ ∀ k i, o !! k = Some i → ∃ c c', getCell b i = Some c ∧
    es !! k = Some (ECell c') ∧ same_renamed o c c' ∧ refcount c' = refcount c.

Lemma loop_laid r : loop_inv o r → laid_out (newEntries r).
Proof.
  intros HI. split; [apply HI|]. intros k i Hk.
  destruct (li_cells _ _ HI k i Hk) as (c & c' & Hc & Hc' & Hs & Hr). exists c, c'.
  split_all; [done..|]. rewrite Hr. symmetry. apply (wf_refs _ _ _ _ HW); [|done].
  by eapply list_elem_of_lookup_2.
Qed.

Lemma normal_laid : isDisassembled b = false → laid_out (entries b).
Proof.
  intros Hd. pose proof (normal_order Hd) as Eo. split; [by rewrite order_length|].
  intros k i Hk. destruct (order_cell i) as (c & d & Hc & Hok & _); [by eapply list_elem_of_lookup_2|].
  exists c, c. rewrite Eo in Hk. apply lookup_seq in Hk as [Hk _]. cbn in Hk. subst k.
  split_all; [done|by apply getCell_lookup| |done]. unfold same_renamed. split_all; [done..|].
  apply Forall_Forall2_diag, list.Forall_forall. intros l Hl. unfold renamed. split_all; [|done..].
  assert (i ∈ o) as Hi by (rewrite Eo; apply elem_of_seq; apply getCell_lt in Hc; lia).
  apply list_elem_of_split in Hi as (l1 & l2 & Es).
  pose proof (segs_before _ _ _ _ _ _ _ _ _ HW Es Hc Hl) as Hb.
  assert (idx l ∈ o) as Ho by (rewrite Es; set_solver).
  rewrite Eo in Ho |- *. apply elem_of_seq in Ho. apply lookup_seq. lia.
Qed.

Lemma checks_laid b' : laid_out (entries b') → b_nIn b' = b_nIn b → b_nOut b' = b_nOut b →
  checkInputsOrder b' = Some true ∧ checkOutputsOrder b' = Some true.
Proof.
  intros [Hlen Hes] N1 N2. destruct (wf_nums _ _ _ _ HW) as (M1 & M2 & _).
  assert (∀ k i c, o !! k = Some i → getCell b i = Some c → ∃ c', getCell b' k = Some c' ∧
    type c' = type c ∧ more c' = more c) as Hk.
  { intros k i c Ho Hc. destruct (Hes k i Ho) as (c0 & c' & Hc0 & Hc' & (S1 & _ & S3 & _) & _).
    rewrite Hc in Hc0. injection Hc0 as <-. exists c'. split; [by apply getCell_lookup|done]. }
  unfold checkInputsOrder, checkOutputsOrder. rewrite N1, N2, M1, M2. split.
  - apply check_cells_true; [lia|]. intros k Hlt.
    destruct (ins_first k) as (i & c & Ho & Hc & Ht & Hm & _); [lia|].
    destruct (Hk k i c Ho Hc) as (c' & Hc' & E1 & E2). exists c'. by rewrite E1, E2.
  - rewrite Hlen. case_bool_decide; [done|]. rewrite order_length in *.
    apply check_cells_true; [lia|]. intros k Hlt.
    destruct (outs_last (k - (length (entries b) - length outs))) as (i & c & Ho & Hc & Ht & Hm & _); [lia|].
    replace (_ - _ + _) with k in Ho by lia.
    destruct (Hk k i c Ho Hc) as (c' & Hc' & E1 & E2). exists c'. by rewrite E1, E2.
Qed.

Definition same_nums (b' : SubnetBuilder) : Prop :=
  b_nIn b' = b_nIn b ∧ b_nOut b' = b_nOut b ∧ nCell b' = nCell b ∧ nBuf b' = nBuf b.

Lemma rearranged : outs ≠ [] → ∃ b' em, rearrangeEntries [] del b = Some (b', em) ∧
  laid_out (entries b') ∧ same_nums b'.
Proof.
  intros Hne. unfold rearrangeEntries. cbn [length replicate].
  rewrite (getSubnetBegin_linked _ _ (wf_linked _ _ _ _ HW)). fold o.
  destruct (rearrange_all o [] (length (entries b)) (mkRearrange b [] [] [] [] ∅ false None 0))
    as (r & Hr & HI); [done|by apply loop_start|by rewrite order_length|].
  assert (head_id o = match o with [] => upperBoundID | y :: _ => Idx y end) as ->.
  { destruct o eqn:Eo; [|done]. unfold o, order_of in Eo. apply app_nil in Eo as [_ ?]. done. }
  rewrite Hr. cbn [mbind option_bind]. eexists _, _. split; [reflexivity|].
  split; [exact (loop_laid _ HI)|]. exact (fr_nums _ (li_frame _ _ HI)).
Qed.

Lemma laid_made b' : laid_out (entries b') → same_nums b' →
  made b o (mkSubnet (b_nIn b') (b_nOut b') (nCell b') (nBuf b') (entries b')).
Proof.
  intros [L1 L2] Hn. split; [exact Hn|exact L1|]. intros k i Hk.
  destruct (L2 k i Hk) as (c & c' & Hc & Hc' & Hs). exists c, c'. split_all; [done| |apply Hs..].
  unfold Net.getCell. cbn [sn_entries]. by rewrite Hc'.
Qed.

(** [make] succeeds and gives the cells in the order. *)
Lemma make_made_del : outs ≠ [] → ∃ s, make del b = Some s ∧ made b o s.
Proof.
  intros Hne. destruct (wf_nums _ _ _ _ HW) as (M1 & M2 & _).
  assert (0 < length outs) as Hpos by (destruct outs; [done|cbn; lia]).
  assert (entries b ≠ []) as HN.
  { intros E. pose proof order_length as Hlen. rewrite E in Hlen. unfold o, order_of in Hlen.
    rewrite length_app in Hlen. cbn in Hlen. lia. }
  unfold make, make_mapping. rewrite bool_decide_eq_true_2 by (split; [lia|done]).
  assert (∃ b' em, (if isDisassembled b || del then rearrangeEntries [] del b else Some (b, [])) = Some (b', em) ∧
    laid_out (entries b') ∧ same_nums b') as (b' & em & -> & Hl & Hn).
  { destruct (isDisassembled b || del) eqn:Ed; [by apply rearranged|]. apply orb_false_iff in Ed as [Ed _]. exists b, [].
    split; [done|]. split; [by apply normal_laid|by split_all]. }
  cbn [mbind option_bind]. destruct (checks_laid b') as [-> ->]; [done|apply Hn|apply Hn|].
  cbn [mbind option_bind andb fmap option_fmap option_map fst]. eexists. split; [reflexivity|].
  by apply laid_made.
Qed.
End Loop.

Lemma make_made `{TypeStore} b ins outs segs : WF b ins outs segs → fanoutsEnabled b = false → emptyEntryIDs b = [] →
  outs ≠ [] → ∃ s, make false b = Some s ∧ made b (order_of segs outs) s.
Proof. intros HW Hf He. by apply (make_made_del b ins outs segs HW Hf He false). Qed.

(** ** The function of the subnet *)

Lemma net_links s k c : Net.getCell s k = Some c → arity c ≤ InPlaceLinks →
  length (links c) = InPlaceLinks → Net.getLinks s k = Some (getInPlaceLinks c).
Proof.
  intros Hc Ha Hl. unfold Net.getLinks. rewrite Hc. cbn [mbind option_bind].
  apply mapM_Some_2. unfold getInPlaceLinks. rewrite Nat.min_l by done.
  apply Forall2_lookup. intros j. destruct (decide (j < arity c)) as [Hj|Hj].
  - rewrite lookup_seq_lt by done. rewrite lookup_take_lt by done.
    destruct (lookup_lt_is_Some_2 (links c) j) as [l Hlj]; [lia|]. rewrite Hlj. constructor.
    unfold Net.getLink. rewrite Hc. cbn [mbind option_bind plus].
    by rewrite bool_decide_eq_true_2 by lia.
  - rewrite lookup_seq_ge by lia. rewrite lookup_ge_None_2; [constructor|rewrite length_take; lia].
Qed.

(** The place of an entry in the order. *)
Definition place (o : list nat) (i : nat) : nat :=
  match list_find (λ j, j = i) o with Some (k, _) => k | None => 0 end.

Lemma place_at o k i : NoDup o → o !! k = Some i → place o i = k.
Proof.
  intros Hnd Hk. unfold place. destruct (list_find (λ j, j = i) o) as [[k' j]|] eqn:E.
  - apply list_find_Some in E as (Hk' & -> & _). by eapply NoDup_lookup.
  - apply list_find_None in E. rewrite list.Forall_forall in E.
    by destruct (E i (list_elem_of_lookup_2 _ _ _ Hk)).
Qed.

Section Implements.
Context `{TypeStore}.
Context (b : SubnetBuilder) (ins outs : list nat) (segs : list (list nat)) (s : Subnet).
Context (HW : WF b ins outs segs) (Hempty : emptyEntryIDs b = []).
Context (Hm : made b (order_of segs outs) s).

Let o := order_of segs outs.

Lemma made_cell k i : o !! k = Some i → ∃ c c', getCell b i = Some c ∧ Net.getCell s k = Some c' ∧
  type c' = type c ∧ Net.getLinks s k = Some (getInPlaceLinks c') ∧
  Forall2 (renamed o) (getInPlaceLinks c) (getInPlaceLinks c').
Proof.
  intros Hk. destruct (md_cells _ _ _ Hm k i Hk) as (c & c' & Hc & Hc' & (S1 & S2 & _ & S4 & S5) & _).
  assert (i ∈ order_of segs outs) as Hi by by eapply list_elem_of_lookup_2.
  destruct (live_cell b ins outs segs i HW Hi) as (c0 & Hc0 & (_ & Ha & Hl & _)).
  rewrite Hc in Hc0. injection Hc0 as <-. exists c, c'. split_all; [done..| |done].
  apply net_links; [done|by rewrite S2|by rewrite S4].
Qed.

Lemma lval_renamed v w (ls ls' : LinkList) :
  (∀ k i p, o !! k = Some i → v k p = w i p) →
  Forall2 (renamed o) ls ls' → lval v <$> ls' = lval w <$> ls.
Proof.
  intros Hv HF. induction HF as [|l l' ls ls' (E1 & E2 & E3) HF IH]; [done|].
  cbn. rewrite IH. f_equal. unfold lval. rewrite E2, E3. by rewrite (Hv _ _ _ E1).
Qed.

(** Valuations of the subnet and of the builder that agree along the order. *)
Lemma consistent_made v w : (∀ k i p, o !! k = Some i → v k p = w i p) →
  sn_consistent v s ↔ consistent w b.
Proof.
  intros Hv. split.
  - intros Hs i c y Hl Hc Hf. apply (live_order _ _ _ _ _ HW) in Hl. apply list_elem_of_lookup_1 in Hl as [k Hk].
    destruct (made_cell k i Hk) as (c0 & c' & Hc0 & Hc' & Ht & Hls & HF).
    rewrite Hc in Hc0. injection Hc0 as <-. rewrite <- (Hv k i 0 Hk).
    apply (Hs k c' _ y Hc' Hls). by rewrite Ht, (lval_renamed v w _ _ Hv HF).
  - intros Hb k c' ls y Hc' Hls Hf.
    assert (k < length o) as Hlt.
    { unfold o. rewrite <- (md_size _ _ _ Hm). unfold Net.size, Net.getCell in *.
      destruct (sn_entries s !! k) eqn:E; [by eapply lookup_lt_Some|done]. }
    apply lookup_lt_is_Some_2 in Hlt as [i Hk].
    destruct (made_cell k i Hk) as (c & c0 & Hc & Hc0 & Ht & Hls' & HF).
    rewrite Hc' in Hc0. injection Hc0 as <-. rewrite Hls in Hls'. injection Hls' as ->.
    rewrite (Hv k i 0 Hk). apply (Hb i c y); [|done|].
    + apply (live_order _ _ _ _ _ HW). by eapply list_elem_of_lookup_2.
    + by rewrite <- Ht, <- (lval_renamed v w _ _ Hv HF).
Qed.

Lemma made_ins v w : (∀ k i p, o !! k = Some i → v k p = w i p) →
  in_values v s = (λ i, w i 0) <$> ins.
Proof.
  intros Hv. unfold in_values. destruct (md_nums _ _ _ Hm) as (-> & _).
  destruct (wf_nums _ _ _ _ HW) as (-> & _).
  apply list_eq. intros k. rewrite !list_lookup_fmap. destruct (decide (k < length ins)) as [Hk|Hk].
  - rewrite lookup_seq_lt by done. destruct (ins_first _ _ _ _ HW k Hk) as (i & c & Ho & _ & _ & _ & ->).
    cbn. f_equal. by apply Hv.
  - rewrite lookup_seq_ge by lia. by rewrite lookup_ge_None_2 by lia.
Qed.

Lemma made_outs v w ls : (∀ k i p, o !! k = Some i → v k p = w i p) →
  Forall2 (out_link b) outs ls → out_values v s = Some (lval w <$> ls).
Proof.
  intros Hv HF. unfold out_values. destruct (md_nums _ _ _ Hm) as (_ & En & _).
  destruct (wf_nums _ _ _ _ HW) as (_ & En' & _). rewrite En, En'.
  apply mapM_Some_2. apply Forall2_fmap_r, Forall2_same_length_lookup_2.
  { rewrite length_seq. by apply Forall2_length in HF. }
  intros k k' l Hk Hl. apply lookup_seq in Hk as [-> Hk]. cbn [plus].
  destruct (outs_last _ _ _ _ HW Hempty k Hk) as (i & c & Ho & Hc & _ & _ & Hi).
  destruct (Forall2_lookup_lr _ _ _ _ _ _ HF Hi Hl) as (_ & _ & c0 & Hc0 & _ & Hin).
  rewrite Hc in Hc0. injection Hc0 as <-.
  destruct (made_cell _ i Ho) as (c1 & c' & Hc1 & Hc' & _ & _ & HFl).
  rewrite Hc in Hc1. injection Hc1 as <-. rewrite Hin in HFl.
  apply Forall2_cons_inv_l in HFl as (l' & ls' & (E1 & E2 & E3) & Hnil & Els).
  apply Forall2_nil_inv_l in Hnil as ->. unfold Net.getOut. rewrite En, En', bool_decide_eq_true_2 by done.
  rewrite (md_size _ _ _ Hm), (order_length _ _ _ _ HW Hempty), Hc'. cbn [mbind option_bind].
  assert (links c' !! 0 = Some l') as ->.
  { unfold getInPlaceLinks in Els. destruct (links c') as [|x xs]; destruct (min _ _); cbn in Els |- *; congruence. }
  cbn. f_equal. unfold lval. rewrite E2, E3. by rewrite (Hv _ _ _ E1).
Qed.
End Implements.

Lemma ins_nodup `{TypeStore} b ins outs segs : WF b ins outs segs → NoDup ins.
Proof.
  intros HW. apply NoDup_alt. intros j k i Hj Hk.
  destruct (ins_first b ins outs segs HW j) as (i1 & _ & H1 & _ & _ & _ & E1); [by eapply lookup_lt_Some|].
  destruct (ins_first b ins outs segs HW k) as (i2 & _ & H2 & _ & _ & _ & E2); [by eapply lookup_lt_Some|].
  assert (i1 = i ∧ i2 = i) as [-> ->] by (split; congruence).
  eapply NoDup_lookup; [by apply (order_nodup b ins outs segs)|done..].
Qed.

(** The subnet made from a builder implements the function that the outputs
    have in the builder. *)
Lemma make_implements_del `{TypeStore} del b ins outs segs ls f :
  WF b ins outs segs → emptyEntryIDs b = [] → fanoutsEnabled b = false → unbuffered del b → outs ≠ [] →
  Forall2 (out_link b) outs ls →
  (∀ v, consistent v b → lval v <$> ls = f ((λ i, v i 0) <$> ins)) →
  ∃ s, make del b = Some s ∧ made b (order_of segs outs) s ∧ implements s (length ins) f ∧ sn_nOut s = length ls.
Proof.
  intros HW Hempty Hfan Hdel Hne HF Hf.
  pose proof (order_length _ _ _ _ HW Hempty) as Hlen.
  pose proof (order_nodup _ _ _ _ HW) as Hnd.
  destruct (make_made_del b ins outs segs HW Hfan Hempty del Hdel Hne) as (s & Hs & Hm).
  exists s. split; [done|]. split; [done|]. destruct (md_nums _ _ _ Hm) as (E1 & E2 & _).
  destruct (wf_nums _ _ _ _ HW) as (N1 & N2 & _). split; [split; [congruence|split]|].
  - intros v Hv. set (w := λ i p, v (place (order_of segs outs) i) p).
    assert (∀ k i p, order_of segs outs !! k = Some i → v k p = w i p) as Hvw.
    { intros k i p Hk. unfold w. by rewrite (place_at _ _ _ Hnd Hk). }
    rewrite (made_outs b ins outs segs s HW Hempty Hm v w ls Hvw HF). f_equal.
    rewrite (made_ins b ins outs segs s HW Hm v w Hvw). apply Hf.
    by apply (consistent_made b ins outs segs s HW Hm v w Hvw).
  - intros xs Hxs. set (w0 := λ i (p : nat), nth (place ins i) xs false).
    set (w := eval b (order_of segs outs) w0). set (v := λ k p, w (nth k (order_of segs outs) 0) p).
    assert (∀ k i p, order_of segs outs !! k = Some i → v k p = w i p) as Hvw.
    { intros k i p Hk. unfold v. by rewrite (nth_lookup_Some _ _ _ _ Hk). }
    exists v. split; [by apply (consistent_made b ins outs segs s HW Hm v w Hvw), eval_consistent with ins|].
    rewrite (made_ins b ins outs segs s HW Hm v w Hvw).
    apply list_eq. intros k. rewrite list_lookup_fmap. destruct (decide (k < length ins)) as [Hk|Hk].
    2: { by rewrite !lookup_ge_None_2 by lia. }
    destruct (ins_first _ _ _ _ HW k Hk) as (i & c & Ho & Hc & Ht & _ & Hi). rewrite Hi. cbn.
    unfold w. rewrite (eval_free b ins outs segs) by (done || (right; intros c'; rewrite Hc; intros [= <-]; by rewrite Ht)).
    unfold w0. rewrite (place_at ins k i); [|by eapply ins_nodup|done].
    destruct (lookup_lt_is_Some_2 xs k) as [x Hx]; [lia|]. by rewrite Hx, (nth_lookup_Some _ _ _ _ Hx).
  - rewrite E2, N2. by apply Forall2_length in HF.
Qed.

Lemma make_implements `{TypeStore} b ins outs ls f :
  wf b ins outs → emptyEntryIDs b = [] → fanoutsEnabled b = false → outs ≠ [] →
  Forall2 (out_link b) outs ls →
  (∀ v, consistent v b → lval v <$> ls = f ((λ i, v i 0) <$> ins)) →
  ∃ s, make false b = Some s ∧ implements s (length ins) f ∧ sn_nOut s = length ls.
Proof.
  intros [segs HW] Hempty Hfan Hne HF Hf.
  destruct (make_implements_del false b ins outs segs ls f HW Hempty Hfan) as (s & Hs & _ & Hr); [done..|]. by exists s.
Qed.
