(* ===== verification/SubnetEval.v ===== *)
(** * Evaluation of subnets

    [sn_wf] checks that a subnet is well-formed: inputs first, outputs last, the
    links lead to cells before, the cells between are combinational gates.
    [sn_function] evaluates a well-formed subnet cell by cell.  The theorem
    [implements_eval] says that the evaluation is the meaning of the subnet: the
    relation [implements], which speaks of all valuations, holds exactly for the
    function that is computed. *)

From S2P Require Import Prelude CellType SubnetBase BuilderInv BuilderEval MakeSpec.
From stdpp Require Import gmap strings.

(** ** Definitions *)

(** The value of a cell with the links [ls] among the values [v]. *)
Definition cell_value (xs : list bool) (v : valuation) (i : nat) (c : Cell) (ls : LinkList) : bool :=
  match type c with
  | GateID IN => default false (xs !! i)
  | GateID OUT => default false (lval v <$> head ls)
  | t => default false (cell_fun t (lval v <$> ls))
  end.

Fixpoint sn_eval (fuel : nat) (s : Subnet) (xs : list bool) (v : valuation) (i : nat) : valuation :=
  match fuel with
  | 0 => v
  | S fuel =>
    match Net.getCell s i, Net.getLinks s i with
    | Some c, Some ls => sn_eval fuel s xs (upd_val v i (cell_value xs v i c ls)) (S i + more c)
    | _, _ => v
    end
  end.

(** The values of all the cells for the inputs [xs]. *)
Definition sn_val (s : Subnet) (xs : list bool) : valuation :=
  sn_eval (Net.size s) s xs (λ _ _, false) 0.

Definition sn_function (s : Subnet) (xs : list bool) : option (list bool) := out_values (sn_val s xs) s.

(** The cell [i] with its links, when the cells [known] precede it. *)
Definition cell_check (s : Subnet) (known : list nat) (i : nat) (c : Cell) (ls : LinkList) : bool :=
  forallb (λ l, (out l =? 0) && bool_decide (idx l ∈ known)) ls &&
  forallb (λ j, bool_decide (Net.getCell s j = None)) (seq (S i) (more c)) &&
  match type c with
  | GateID IN => (i <? sn_nIn s) && (length ls =? 0) && (more c =? 0)
  | GateID OUT => (Net.size s - sn_nOut s <=? i) && (length ls =? 1) && (more c =? 0)
  | t => (sn_nIn s <=? i) && (S i + more c <=? Net.size s - sn_nOut s) &&
         bool_decide (is_Some (cell_fun t (replicate (length ls) false)))
  end.

Fixpoint sn_check (fuel : nat) (s : Subnet) (known : list nat) (i : nat) : bool :=
  if Net.size s <=? i then true
  else
    match fuel with
    | 0 => false
    | S fuel =>
      match Net.getCell s i, Net.getLinks s i with
      | Some c, Some ls =>
        cell_check s known i c ls &&
        sn_check fuel s (if cell_is OUT c then known else i :: known) (S i + more c)
      | _, _ => false
      end
    end.

Definition sn_wf (s : Subnet) : bool :=
  (sn_nIn s + sn_nOut s <=? Net.size s) && sn_check (Net.size s) s [] 0.

(** ** The cells of a well-formed subnet *)

Lemma is_out_spec c : cell_is OUT c = true ↔ type c = GateID OUT.
Proof. unfold cell_is. apply bool_decide_eq_true. Qed.

Lemma getCell_size s i c : Net.getCell s i = Some c → i < Net.size s.
Proof.
  unfold Net.getCell. destruct (sn_entries s !! i) as [e|] eqn:E; [|done]. intros _.
  by apply lookup_lt_Some in E.
Qed.

Lemma wf_sizes s : sn_wf s = true → sn_nIn s + sn_nOut s ≤ Net.size s.
Proof. unfold sn_wf. rewrite andb_true_iff, Nat.leb_le. by intros [? _]. Qed.

Record links_known (s : Subnet) (known : list nat) (i : nat) (ls : LinkList) : Prop := {
  lk_out : ∀ l, l ∈ ls → out l = 0;
  lk_in : ∀ l, l ∈ ls → idx l ∈ known;
}.

Lemma cell_check_links s known i c ls : cell_check s known i c ls = true → links_known s known i ls.
Proof.
  unfold cell_check. rewrite !andb_true_iff. intros [[Hf _] _]. rewrite forallb_forall in Hf.
  split; intros l Hl; apply list_elem_of_In in Hl; specialize (Hf l Hl); rewrite andb_true_iff in Hf;
    destruct Hf as [Ho Hi]; [by apply Nat.eqb_eq|by apply bool_decide_eq_true in Hi].
Qed.

Lemma cell_check_skip s known i c ls j : cell_check s known i c ls = true → i < j ≤ i + more c →
  Net.getCell s j = None.
Proof.
  unfold cell_check. rewrite !andb_true_iff. intros [[_ Hf] _] Hj. rewrite forallb_forall in Hf.
  specialize (Hf j). rewrite in_seq in Hf. specialize (Hf ltac:(lia)). by apply bool_decide_eq_true in Hf.
Qed.

(** Every cell is checked against the cells before it that are no outputs. *)
Lemma sn_check_cell s : ∀ fuel known i k c, sn_check fuel s known i = true → (∀ j, j ∈ known → j < i) →
  i ≤ k → Net.getCell s k = Some c →
  ∃ ls known', Net.getLinks s k = Some ls ∧ cell_check s known' k c ls = true ∧ ∀ j, j ∈ known' →
    j < k ∧ (j ∈ known ∨ i ≤ j ∧ ∃ d, Net.getCell s j = Some d ∧ type d ≠ GateID OUT).
Proof.
  induction fuel as [|fuel IH]; intros known i k c Hc Hk Hik Hck; pose proof (getCell_size _ _ _ Hck) as Hs;
    cbn [sn_check] in Hc; rewrite (proj2 (Nat.leb_gt _ _)) in Hc by lia; [done|].
  destruct (Net.getCell s i) as [d|] eqn:Ed; [|done]. destruct (Net.getLinks s i) as [ls|] eqn:El; [|done].
  apply andb_true_iff in Hc as [Hc Hrest]. destruct (decide (k = i)) as [->|Hne].
  { rewrite Hck in Ed. injection Ed as <-. exists ls, known. split_all; [done..|]. intros j Hj. split; [auto|by left]. }
  destruct (decide (k ≤ i + more d)) as [Hle|Hgt].
  { rewrite (cell_check_skip _ _ _ _ _ k Hc) in Hck by lia. done. }
  edestruct IH as (ls' & known' & H1 & H2 & H3); [exact Hrest| | |exact Hck|].
  - intros j Hj. destruct (cell_is OUT d); [specialize (Hk j Hj); lia|].
    apply elem_of_cons in Hj as [->|Hj]; [lia|specialize (Hk j Hj); lia].
  - lia.
  - exists ls', known'. split_all; [done..|]. intros j Hj. destruct (H3 j Hj) as [Hlt [Hin|[Hge Hd]]]; (split; [done|]).
    + destruct (cell_is OUT d) eqn:Eo; [by left|]. apply elem_of_cons in Hin as [->|Hin]; [|by left].
      right. split; [done|]. exists d. split; [done|]. intros E. apply is_out_spec in E. congruence.
    + right. split; [lia|done].
Qed.

(** What the check says of a cell. *)
Record cell_fine (s : Subnet) (i : nat) (c : Cell) (ls : LinkList) : Prop := {
  cf_links : Net.getLinks s i = Some ls;
  cf_out : ∀ l, l ∈ ls → out l = 0;
  cf_before : ∀ l, l ∈ ls → idx l < i ∧ ∃ d, Net.getCell s (idx l) = Some d ∧ type d ≠ GateID OUT;
  cf_type : match type c with
    | GateID IN => i < sn_nIn s ∧ ls = [] ∧ more c = 0
    | GateID OUT => Net.size s - sn_nOut s ≤ i ∧ (∃ l, ls = [l]) ∧ more c = 0
    | t => (sn_nIn s ≤ i ∧ S i + more c ≤ Net.size s - sn_nOut s) ∧ is_Some (cell_fun t (replicate (length ls) false))
    end;
}.

Lemma cell_check_type s known i c ls : cell_check s known i c ls = true →
  match type c with
  | GateID IN => i < sn_nIn s ∧ ls = [] ∧ more c = 0
  | GateID OUT => Net.size s - sn_nOut s ≤ i ∧ (∃ l, ls = [l]) ∧ more c = 0
  | t => (sn_nIn s ≤ i ∧ S i + more c ≤ Net.size s - sn_nOut s) ∧ is_Some (cell_fun t (replicate (length ls) false))
  end.
Proof.
  unfold cell_check. rewrite !andb_true_iff. intros [_ Ht].
  assert (∀ t, t = type c → (sn_nIn s <=? i) && (S i + more c <=? Net.size s - sn_nOut s) &&
    bool_decide (is_Some (cell_fun t (replicate (length ls) false))) = true →
    (sn_nIn s ≤ i ∧ S i + more c ≤ Net.size s - sn_nOut s) ∧ is_Some (cell_fun t (replicate (length ls) false))) as Hg.
  { intros t _ Hg. rewrite !andb_true_iff in Hg. destruct Hg as [[H1 H2] H3].
    apply Nat.leb_le in H1, H2. by apply bool_decide_eq_true in H3. }
  destruct (type c) as [|sym|u]; [by apply Hg| |by apply Hg].
  destruct sym; try (by apply Hg); rewrite !andb_true_iff in Ht; destruct Ht as [[H1 H2] H3];
    apply Nat.eqb_eq in H2, H3.
  - apply Nat.ltb_lt in H1. split_all; [done|by apply nil_length_inv|done].
  - apply Nat.leb_le in H1. split_all; [done| |done]. destruct ls as [|l [|]]; try done. by exists l.
Qed.

Lemma wf_cell s i c : sn_wf s = true → Net.getCell s i = Some c → ∃ ls, cell_fine s i c ls.
Proof.
  unfold sn_wf. rewrite andb_true_iff. intros [_ Hc] Hi.
  destruct (sn_check_cell s _ _ 0 i c Hc) as (ls & known & Hl & Hk & Hkn); [set_solver|lia|done|].
  exists ls. pose proof (cell_check_links _ _ _ _ _ Hk) as [Ho Hin]. split; [done|done| |by eapply cell_check_type].
  intros l Hlk. destruct (Hkn _ (Hin l Hlk)) as [? [?|[_ ?]]]; [set_solver|done].
Qed.

(** ** Evaluation *)

Lemma upd_val_same v i y : upd_val v i y i 0 = y.
Proof. unfold upd_val. by rewrite !Nat.eqb_refl. Qed.

Lemma upd_val_other v i y j o : j ≠ i → upd_val v i y j o = v j o.
Proof. intros Hj. unfold upd_val. by rewrite (proj2 (Nat.eqb_neq j i)). Qed.

Lemma sn_eval_before s xs : ∀ fuel v i j o, j < i → sn_eval fuel s xs v i j o = v j o.
Proof.
  induction fuel as [|fuel IH]; intros v i j o Hj; [done|]. cbn [sn_eval].
  destruct (Net.getCell s i) as [c|]; [|done]. destruct (Net.getLinks s i) as [ls|]; [|done].
  rewrite IH by lia. apply upd_val_other. lia.
Qed.

Lemma cell_value_ext xs v w i c ls : (∀ l, l ∈ ls → lval v l = lval w l) →
  cell_value xs v i c ls = cell_value xs w i c ls.
Proof.
  intros E. assert (lval v <$> ls = lval w <$> ls) as El.
  { apply list_fmap_ext. intros j l Hl. apply E. by eapply list_elem_of_lookup_2. }
  unfold cell_value. rewrite El. destruct (type c) as [|[]|]; try done.
  destruct ls as [|l ls]; [done|]. cbn. rewrite E; [done|set_solver].
Qed.

Lemma lval_below v w l i : out l = 0 → idx l < i → (∀ j, j < i → v j 0 = w j 0) → lval v l = lval w l.
Proof. intros Ho Hi E. unfold lval. by rewrite Ho, E. Qed.

(** The evaluation gives every cell its value among the final values. *)
Lemma sn_eval_cell s xs : ∀ fuel known i v k c, sn_check fuel s known i = true → (∀ j, j ∈ known → j < i) →
  i ≤ k → Net.getCell s k = Some c →
  ∃ ls, Net.getLinks s k = Some ls ∧
    sn_eval fuel s xs v i k 0 = cell_value xs (sn_eval fuel s xs v i) k c ls.
Proof.
  induction fuel as [|fuel IH]; intros known i v k c Hc Hk Hik Hck; pose proof (getCell_size _ _ _ Hck) as Hs;
    cbn [sn_check] in Hc; rewrite (proj2 (Nat.leb_gt _ _)) in Hc by lia; [done|]. cbn [sn_eval].
  destruct (Net.getCell s i) as [d|] eqn:Ed; [|done]. destruct (Net.getLinks s i) as [ls|] eqn:El; [|done].
  apply andb_true_iff in Hc as [Hc Hrest]. destruct (decide (k = i)) as [->|Hne].
  { rewrite Hck in Ed. injection Ed as <-. exists ls. split; [done|].
    rewrite sn_eval_before, upd_val_same by lia. apply cell_value_ext. intros l Hl.
    destruct (cell_check_links _ _ _ _ _ Hc) as [Ho Hin]. specialize (Hk _ (Hin l Hl)).
    apply (lval_below _ _ _ i); [auto|done|]. intros j Hj. rewrite sn_eval_before by lia.
    by rewrite upd_val_other by lia. }
  destruct (decide (k ≤ i + more d)) as [Hle|Hgt].
  { rewrite (cell_check_skip _ _ _ _ _ k Hc) in Hck by lia. done. }
  eapply IH; [exact Hrest| |lia|exact Hck].
  intros j Hj. destruct (cell_is OUT d); [specialize (Hk j Hj); lia|].
  apply elem_of_cons in Hj as [->|Hj]; [lia|specialize (Hk j Hj); lia].
Qed.

Lemma sn_val_cell s xs i c : sn_wf s = true → Net.getCell s i = Some c →
  ∃ ls, cell_fine s i c ls ∧ sn_val s xs i 0 = cell_value xs (sn_val s xs) i c ls.
Proof.
  intros Hw Hc. destruct (wf_cell s i c Hw Hc) as [ls Hf]. exists ls. split; [done|].
  unfold sn_wf in Hw. apply andb_true_iff in Hw as [_ Hw].
  destruct (sn_eval_cell s xs _ _ 0 (λ _ _, false) i c Hw) as (ls' & El & E); [set_solver|lia|done|].
  rewrite (cf_links _ _ _ _ Hf) in El. by injection El as <-.
Qed.

(** The places of the inputs and of the outputs hold cells. *)
Lemma sn_check_io s : sn_nIn s + sn_nOut s ≤ Net.size s → ∀ fuel known i k, sn_check fuel s known i = true →
  i ≤ k < Net.size s → k < sn_nIn s ∨ Net.size s - sn_nOut s ≤ k → is_Some (Net.getCell s k).
Proof.
  intros Hs. induction fuel as [|fuel IH]; intros known i k Hc Hik Hk;
    cbn [sn_check] in Hc; rewrite (proj2 (Nat.leb_gt _ _)) in Hc by lia; [done|].
  destruct (Net.getCell s i) as [d|] eqn:Ed; [|done]. destruct (Net.getLinks s i) as [ls|] eqn:El; [|done].
  apply andb_true_iff in Hc as [Hc Hrest]. destruct (decide (k = i)) as [->|Hne]; [by rewrite Ed|].
  eapply IH; [exact Hrest| |done]. pose proof (cell_check_type _ _ _ _ _ Hc) as Ht.
  destruct (type d) as [|[]|]; cbn in Ht; destruct Ht as (Ht1 & Ht2); try lia; destruct Ht2; lia.
Qed.

Lemma wf_input s i : sn_wf s = true → i < sn_nIn s → ∃ c, Net.getCell s i = Some c ∧ type c = GateID IN.
Proof.
  intros Hw Hi. pose proof Hw as Hw'. unfold sn_wf in Hw'. apply andb_true_iff in Hw' as [Hs Hc].
  apply Nat.leb_le in Hs. destruct (sn_check_io s Hs _ _ 0 i Hc) as [c Ec]; [lia|by left|]. exists c. split; [done|].
  destruct (wf_cell s i c Hw Ec) as [ls Hf]. pose proof (cf_type _ _ _ _ Hf) as Ht.
  destruct (type c) as [|[]|]; try done; cbn in Ht; destruct Ht as (Ht1 & Ht2); lia.
Qed.

Lemma wf_output s i : sn_wf s = true → i < sn_nOut s →
  ∃ c l, Net.getCell s (Net.size s - sn_nOut s + i) = Some c ∧ type c = GateID OUT ∧
    Net.getLinks s (Net.size s - sn_nOut s + i) = Some [l] ∧ Net.getOut s i = Some l ∧
    cell_fine s (Net.size s - sn_nOut s + i) c [l].
Proof.
  intros Hw Hi. pose proof Hw as Hw'. unfold sn_wf in Hw'. apply andb_true_iff in Hw' as [Hs Hc].
  apply Nat.leb_le in Hs. set (k := Net.size s - sn_nOut s + i).
  destruct (sn_check_io s Hs _ _ 0 k Hc) as [c Ec]; [lia|right; lia|]. exists c.
  destruct (wf_cell s k c Hw Ec) as [ls Hf]. pose proof (cf_type _ _ _ _ Hf) as Ht.
  assert (type c = GateID OUT) as E.
  { destruct (type c) as [|[]|]; try done; cbn in Ht; destruct Ht as (Ht1 & Ht2); lia. }
  rewrite E in Ht. destruct Ht as (_ & [l ->] & _). exists l. split_all; [done|done|by apply Hf| |done].
  pose proof (cf_links _ _ _ _ Hf) as Hl. unfold Net.getLinks in Hl. rewrite Ec in Hl. cbn in Hl.
  unfold Net.getOut. rewrite bool_decide_eq_true_2 by done. fold k. rewrite Ec. cbn.
  assert (arity c = 1) as Ha by (apply length_mapM in Hl; by rewrite length_seq in Hl).
  rewrite Ha in Hl. cbn [seq mapM] in Hl. apply bind_Some in Hl as (x & Hx & Hl).
  unfold Net.getLink in Hx. rewrite Ec in Hx. cbn [mbind option_bind] in Hx.
  rewrite bool_decide_eq_true_2 in Hx by (unfold InPlaceLinks; lia). cbn in Hl. injection Hl as ->. exact Hx.
Qed.

(** ** The valuations of a well-formed subnet *)

Lemma cell_value_gate xs v i c ls y : cell_fun (type c) (lval v <$> ls) = Some y → cell_value xs v i c ls = y.
Proof. unfold cell_value. destruct (type c) as [|[]|]; cbn; try done; try (intros E; by rewrite E). Qed.

Lemma sn_val_consistent s xs : sn_wf s = true → sn_consistent (sn_val s xs) s.
Proof.
  intros Hw k c ls y Hc Hl Hy. destruct (sn_val_cell s xs k c Hw Hc) as (ls' & Hf & E).
  rewrite (cf_links _ _ _ _ Hf) in Hl. injection Hl as ->. rewrite E. by eapply cell_value_gate.
Qed.

Lemma sn_val_inputs s xs : sn_wf s = true → length xs = sn_nIn s → in_values (sn_val s xs) s = xs.
Proof.
  intros Hw Hxs. unfold in_values, Net.getInIdx. rewrite <- Hxs. apply list_eq. intros i.
  rewrite list_lookup_fmap. destruct (decide (i < length xs)) as [Hi|Hi].
  - rewrite lookup_seq_lt by done. cbn. destruct (wf_input s i Hw) as (c & Hc & Ht); [lia|].
    destruct (sn_val_cell s xs i c Hw Hc) as (ls & _ & E). rewrite E. unfold cell_value. rewrite Ht.
    destruct (lookup_lt_is_Some_2 xs i Hi) as [x Hx]. by rewrite Hx.
  - rewrite lookup_seq_ge by lia. symmetry. apply lookup_ge_None. lia.
Qed.

Lemma in_values_lookup v s i : i < sn_nIn s → in_values v s !! i = Some (v i 0).
Proof. intros Hi. unfold in_values. rewrite list_lookup_fmap, lookup_seq_lt by done. done. Qed.

(** The inputs determine the values of all the cells but the outputs. *)
Lemma sn_val_unique s v : sn_wf s = true → sn_consistent v s → ∀ k c, Net.getCell s k = Some c →
  type c ≠ GateID OUT → v k 0 = sn_val s (in_values v s) k 0.
Proof.
  intros Hw Hv k. induction (lt_wf k) as [k _ IH]. intros c Hc Ht.
  destruct (sn_val_cell s (in_values v s) k c Hw Hc) as (ls & Hf & E). rewrite E.
  assert (lval v <$> ls = lval (sn_val s (in_values v s)) <$> ls) as El.
  { apply list_fmap_ext. intros j l Hl. apply list_elem_of_lookup_2 in Hl.
    destruct (cf_before _ _ _ _ Hf l Hl) as (Hlt & d & Hd & Htd). unfold lval.
    rewrite (cf_out _ _ _ _ Hf l Hl). by rewrite (IH _ Hlt d). }
  pose proof (cf_type _ _ _ _ Hf) as Hty.
  assert (∀ y, cell_fun (type c) (lval v <$> ls) = Some y → v k 0 = y) as Hg.
  { intros y Hy. exact (Hv k c ls y Hc (cf_links _ _ _ _ Hf) Hy). }
  destruct (decide (type c = GateID IN)) as [Ei|Ei].
  { rewrite Ei in Hty. unfold cell_value. by rewrite Ei, in_values_lookup by apply Hty. }
  assert (is_Some (cell_fun (type c) (replicate (length ls) false))) as Hd.
  { destruct (type c) as [|[]|]; try done; apply Hty. }
  assert (is_Some (cell_fun (type c) (lval v <$> ls))) as [y Hy].
  { destruct (type c) as [|sym|]; [done| |done]. eapply gate_fun_defined; [|exact Hd].
    by rewrite length_replicate, length_fmap. }
  rewrite (Hg y Hy). symmetry. apply cell_value_gate. by rewrite <- El.
Qed.

Lemma out_values_unique s v : sn_wf s = true → sn_consistent v s →
  out_values v s = out_values (sn_val s (in_values v s)) s.
Proof.
  intros Hw Hv. unfold out_values. apply Forall_mapM_ext. apply list.Forall_forall. intros i Hi.
  apply elem_of_seq in Hi. destruct (wf_output s i Hw) as (c & l & Hc & Ht & Hl & Ho & Hf); [lia|].
  rewrite Ho. cbn. f_equal. unfold lval. f_equal. assert (l ∈ [l]) as Hin by set_solver.
  destruct (cf_before _ _ _ _ Hf l Hin) as (_ & d & Hd & Htd). rewrite (cf_out _ _ _ _ Hf l Hin).
  by eapply sn_val_unique.
Qed.

(** The evaluation of a well-formed subnet is its meaning: a subnet
    implements [f] exactly if it has [n] inputs and evaluates to [f xs] on every
    input vector [xs]. *)
Theorem implements_eval s n f : sn_wf s = true →
  (implements s n f ↔ sn_nIn s = n ∧ ∀ xs, length xs = n → sn_function s xs = Some (f xs)).
Proof.
  intros Hw. unfold sn_function. split.
  - intros (Hn & Hf & _). split; [done|]. intros xs Hxs.
    rewrite (Hf (sn_val s xs)) by by apply sn_val_consistent. by rewrite sn_val_inputs by congruence.
  - intros [Hn Hf]. unfold implements. split_all; [done| |].
    + intros v Hv. rewrite (out_values_unique s v Hw Hv). apply Hf.
      unfold in_values. by rewrite length_fmap, length_seq.
    + intros xs Hxs. exists (sn_val s xs). split; [by apply sn_val_consistent|].
      apply sn_val_inputs; [done|congruence].
Qed.

(** A subnet of a conjunction whose output is inverted. *)
Definition nand_subnet : Subnet :=
  mkSubnet 2 1 4 0
    [ECell (mkCell 0 0 1 (GateID IN) (pad3 [])); ECell (mkCell 0 0 1 (GateID IN) (pad3 []));
     ECell (mkCell 2 0 1 (GateID AND) (pad3 [LinkTo 0; LinkTo 1]));
     ECell (mkCell 1 0 0 (GateID OUT) (pad3 [link_not (LinkTo 2)]))].

Lemma implements_eval_witness : implements nand_subnet 2 (λ xs, [negb (forallb id xs)]).
Proof.
  apply (implements_eval nand_subnet 2 (λ xs, [negb (forallb id xs)])); [reflexivity|].
  split; [reflexivity|]. intros [|x [|y [|z xs]]] [=]. destruct x, y; reflexivity.
Defined.
