(* ===== verification/Adder.v ===== *)
(** * The Ladner-Fischer adder ([gate/synthesizer/operation/addition.cpp])

    [synthLadnerFisherAdd] as the code has it: the arrays of the propagate and
    generate links with the flags of the generate links in use, the tree of
    carries with its 16-bit counters, the sums, and the bits above the operands.
    A loop that does not end (a counter that wraps around to 0) runs out of
    fuel and fails.  The arguments of a call are evaluated from left to right. *)

From S2P Require Import Prelude CellType SubnetBase Builder.

Definition u16 (n : nat) : nat := n mod 2 ^ 16.

(** The arrays [pOutputs], [gOutputs] and [isNotZero]. *)
(* gate/synthesizer/operation/addition.cpp:134-140 [synthLadnerFisherAdd] *)
Record Prefix := mkPrefix {
  pOutputs : LinkList;
  gOutputs : LinkList;
  isNotZero : list bool;
}.

(** The operands, the longer one first. *)
(* gate/synthesizer/operation/addition.cpp:121-127 [synthLadnerFisherAdd] *)
Definition order_operands (inputsForA inputsForB : LinkList) : LinkList * LinkList :=
  if u16 (length inputsForA) <? u16 (length inputsForB) then (inputsForB, inputsForA)
  else (inputsForA, inputsForB).

Section Adder.
Context `{TypeStore}.

(** A read of an array of links or flags. *)
Definition rd {A} (l : list A) (i : nat) : st SubnetBuilder A := st_read (λ _, l !! i).

(** The bits that both operands have. *)
(* gate/synthesizer/operation/addition.cpp:144-150 [synthLadnerFisherAdd] *)
Definition start_bit (a b : LinkList) (i : nat) : st SubnetBuilder (Link * Link) :=
  x ← rd a i; y ← rd b i;
  p ← addGate XOR [x; y];
  g ← addGate AND [x; y];
  mret (p, g).

(* gate/synthesizer/operation/addition.cpp:134-161 [synthLadnerFisherAdd] *)
Definition start_arrays (a b : LinkList) (sizeA outSizeA outSizeB : nat) : st SubnetBuilder Prefix :=
  pg ← st_map (start_bit a b) (seq 0 outSizeB);
  high ← st_map (rd a) (seq outSizeB (outSizeA - outSizeB));
  mret (mkPrefix (pg.*1 ++ high ++ replicate (sizeA - outSizeA) (LinkTo 0))
                 (pg.*2 ++ replicate (sizeA - outSizeB) (LinkTo 0))
                 (replicate outSizeB true ++ replicate (sizeA - outSizeB) false)).

(** A node of the tree: [child] takes in the range of the parent. *)
(* gate/synthesizer/operation/addition.cpp:191-216 [synthLadnerFisherAdd] *)
Definition prefix_child (batch basicStep child : nat) (parentP parentG : Link) (s : Prefix)
    : st SubnetBuilder Prefix :=
  childP ← rd (pOutputs s) child;
  childG ← rd (gOutputs s) child;
  pO ← (if batch + 1 =? basicStep then mret (pOutputs s)
        else l ← addGate AND [childP; parentP]; mret (<[child := l]> (pOutputs s)));
  nzParent ← rd (isNotZero s) (batch - 1);
  if nzParent : bool then
    g ← addGate AND [childP; parentG];
    nzChild ← rd (isNotZero s) child;
    g ← (if nzChild : bool then addGate OR [childG; g] else mret g);
    mret (mkPrefix pO (<[child := g]> (gOutputs s)) (<[child := true]> (isNotZero s)))
  else mret (mkPrefix pO (gOutputs s) (isNotZero s)).

(** [child] goes down in steps of two, as a signed number. *)
(* gate/synthesizer/operation/addition.cpp:191-216 [synthLadnerFisherAdd] *)
Fixpoint prefix_children (fuel batch basicStep child : nat) (parentP parentG : Link) (s : Prefix)
    : st SubnetBuilder Prefix :=
  if child <? batch then mret s
  else
    match fuel with
    | 0 => st_fail
    | S fuel =>
      s ← prefix_child batch basicStep child parentP parentG s;
      if child <? 2 then mret s
      else prefix_children fuel batch basicStep (child - 2) parentP parentG s
    end.

(* gate/synthesizer/operation/addition.cpp:171-185 [synthLadnerFisherAdd] *)
Definition prefix_batch (outSizeA basicStep batch : nat) (s : Prefix) : st SubnetBuilder Prefix :=
  if batch =? 0 then mret s
  else
    parentP ← rd (pOutputs s) (batch - 1);
    parentG ← rd (gOutputs s) (batch - 1);
    let pos := u16 (min (basicStep - 1 + batch)
                        (outSizeA - 1 - (if Nat.odd outSizeA then 0 else 1))) in
    prefix_children (S pos) batch basicStep pos parentP parentG s.

(* gate/synthesizer/operation/addition.cpp:169-217 [synthLadnerFisherAdd] *)
Fixpoint prefix_batches (fuel outSizeA basicStep delta batch : nat) (s : Prefix)
    : st SubnetBuilder Prefix :=
  if outSizeA <? batch then mret s
  else
    match fuel with
    | 0 => st_fail
    | S fuel =>
      s ← prefix_batch outSizeA basicStep batch s;
      prefix_batches fuel outSizeA basicStep delta (u16 (batch + delta)) s
    end.

(** The steps double: 16 of them before the counter wraps around. *)
(* gate/synthesizer/operation/addition.cpp:163-218 [synthLadnerFisherAdd] *)
Fixpoint prefix_steps (fuel outSizeA basicStep : nat) (s : Prefix) : st SubnetBuilder Prefix :=
  if outSizeA <=? basicStep then mret s
  else
    match fuel with
    | 0 => st_fail
    | S fuel =>
      s ← prefix_batches (S outSizeA) outSizeA basicStep (u16 (2 * basicStep)) (basicStep - 1) s;
      prefix_steps fuel outSizeA (u16 (2 * basicStep)) s
    end.

(** The carries out of the odd positions. *)
(* gate/synthesizer/operation/addition.cpp:220-238 [synthLadnerFisherAdd] *)
Definition odd_carry (outSize pos : nat) (s : Prefix) : st SubnetBuilder Prefix :=
  childG ← rd (gOutputs s) pos;
  nzPrev ← rd (isNotZero s) (pos - 1);
  if nzPrev && negb (pos =? outSize - 1) then
    p ← rd (pOutputs s) pos;
    gPrev ← rd (gOutputs s) (pos - 1);
    g ← addGate AND [p; gPrev];
    nz ← rd (isNotZero s) pos;
    g ← (if nz : bool then addGate OR [childG; g] else mret g);
    mret (mkPrefix (pOutputs s) (<[pos := g]> (gOutputs s)) (<[pos := true]> (isNotZero s)))
  else mret s.

(** The positions 1, 3, ... below [outSizeA]. *)
(* gate/synthesizer/operation/addition.cpp:220-238 [synthLadnerFisherAdd] *)
Fixpoint odd_carries (ps : list nat) (outSize : nat) (s : Prefix) : st SubnetBuilder Prefix :=
  match ps with
  | [] => mret s
  | pos :: ps => s ← odd_carry outSize pos s; odd_carries ps outSize s
  end.

Definition odd_positions (n : nat) : list nat := (λ k, 2 * k + 1) <$> seq 0 (n / 2).

(* gate/synthesizer/operation/addition.cpp:247-253 [synthLadnerFisherAdd] *)
Definition sum_bit (startP : LinkList) (s : Prefix) (i : nat) : st SubnetBuilder Link :=
  p ← rd startP i;
  nz ← rd (isNotZero s) (i - 1);
  if nz : bool then g ← rd (gOutputs s) (i - 1); addGate XOR [g; p] else mret p.

(** The link for the bits above the operands. *)
(* gate/synthesizer/operation/addition.cpp:258-285 [synthLadnerFisherAdd] *)
Definition zero_cell (a b : LinkList) (outSize sizeA : nat) (useSign isUnsignedSub : bool)
    (s : Prefix) (top : Link) : st SubnetBuilder Link :=
  nz ← rd (isNotZero s) (length (gOutputs s) - 1);
  if (negb nz || (sizeA + 1 <? outSize)) && negb useSign then addGate ZERO []
  else
    gBack ← st_read (λ _, list.last (gOutputs s));
    if isUnsignedSub then
      l ← addGate AND [top; gBack];
      addGate OR [top; l]
    else if useSign then
      aBack ← st_read (λ _, list.last a);
      bBack ← st_read (λ _, list.last b);
      l1 ← addGate AND [top; aBack];
      l2 ← addGate AND [top; bBack];
      l3 ← addGate AND [top; gBack];
      l4 ← addGate AND [gBack; aBack; bBack];
      addCellTree OR [l1; l2; l3; l4] 2
    else mret (LinkTo 0).

(* gate/synthesizer/operation/addition.cpp:255-297 [synthLadnerFisherAdd] *)
Definition high_bits (a b : LinkList) (outSize sizeA : nat) (useSign isUnsignedSub : bool)
    (s : Prefix) (outputs : LinkList) : st SubnetBuilder LinkList :=
  if sizeA <? outSize then
    top ← st_read (λ _, list.last outputs);
    zeroCell ← zero_cell a b outSize sizeA useSign isUnsignedSub s top;
    nz ← rd (isNotZero s) (length (gOutputs s) - 1);
    gBack ← st_read (λ _, list.last (gOutputs s));
    mret (outputs ++ (if nz && negb useSign then gBack else zeroCell)
                  :: replicate (outSize - (sizeA + 1)) zeroCell)
  else mret outputs.

(* gate/synthesizer/operation/addition.cpp:115-300 [synthLadnerFisherAdd] *)
Definition synthLadnerFisherAdd (inputsForA inputsForB : LinkList) (outSize : nat)
    (useSign isUnsignedSub : bool) : st SubnetBuilder LinkList :=
  let outSize := u16 outSize in
  let useSign := useSign || isUnsignedSub in
  let '(a, b) := order_operands inputsForA inputsForB in
  let sizeA := u16 (length a) in
  let sizeB := u16 (length b) in
  let outSizeA := min outSize sizeA in
  st_assert (0 <? outSizeA) ;;
  let outSizeB := min outSizeA sizeB in
  s0 ← start_arrays a b sizeA outSizeA outSizeB;
  s ← prefix_steps 16 outSizeA 1 s0;
  s ← odd_carries (odd_positions outSizeA) outSize s;
  out0 ← rd (pOutputs s0) 0;
  sums ← st_map (sum_bit (pOutputs s0) s) (seq 1 (outSizeA - 1));
  high_bits a b outSize sizeA useSign isUnsignedSub s (out0 :: sums).
End Adder.
