(* ===== verification/AdderSum.v ===== *)
(** * The Ladner-Fischer adder adds

    The tree computes the carries: after the steps up to [m / 2] the node of an
    even position [i] covers the positions from [level m i] to [i], after all
    steps from 0.  With widths up to 2^15 every loop ends. *)

From S2P Require Import Prelude CellType SubnetBase Builder BuilderInv BuilderSpec Adder.
From stdpp Require Import gmap.

(** ** Definitions *)

(** Generation and propagation over [n] positions from [lo] on. *)
Fixpoint carry (p g : nat → bool) (lo n : nat) : bool :=
  match n with
  | 0 => false
  | S n => g (lo + n) || p (lo + n) && carry p g lo n
  end.

Fixpoint propagate (p : nat → bool) (lo n : nat) : bool :=
  match n with
  | 0 => true
  | S n => p (lo + n) && propagate p lo n
  end.

(** The lowest position that the node of [i] covers after the step [m / 2]. *)
Definition level (m i : nat) : nat := if Nat.even i then (i + 1) / m * m - 1 else i.

Section Nodes.
Context `{TypeStore}.
Context (P G : nat → valuation → bool) (B : nat).

(** The node of position [i] covers the positions from [lo] to [i]; only the
    positions below [B] generate. *)
Definition node (b : SubnetBuilder) (s : Prefix) (lo i : nat) : Prop :=
  lo ≤ i ∧ ∃ pl gl z,
    pOutputs s !! i = Some pl ∧ gOutputs s !! i = Some gl ∧ isNotZero s !! i = Some z ∧
    z = (lo <? B) ∧
    (0 < lo → denotes b pl (λ v, propagate (λ k, P k v) lo (i + 1 - lo))) ∧
    (if z : bool then denotes b gl (λ v, carry (λ k, P k v) (λ k, G k v) lo (i + 1 - lo))
     else ∀ v, carry (λ k, P k v) (λ k, G k v) lo (i + 1 - lo) = false).

Record nodes (b : SubnetBuilder) (sizeA n : nat) (lv : nat → nat) (s : Prefix) : Prop := {
  nd_size : n ≤ sizeA;
  nd_lens : length (pOutputs s) = sizeA ∧ length (gOutputs s) = sizeA ∧ length (isNotZero s) = sizeA;
  nd_node : ∀ i, i < n → node b s (lv i) i;
  nd_high : ∀ i, n ≤ i < sizeA → isNotZero s !! i = Some false;
}.
End Nodes.

(** ** Arithmetic of carries *)

Lemma carry_app p g lo m n :
  carry p g lo (m + n) = carry p g (lo + m) n || propagate p (lo + m) n && carry p g lo m.
Proof.
  induction n as [|n IH]; [by rewrite Nat.add_0_r|]. rewrite Nat.add_succ_r. cbn [carry propagate].
  rewrite IH, Nat.add_assoc. by destruct (g _), (p _), (carry _ _ (lo + m) n), (propagate _ _ _).
Qed.

Lemma propagate_app p lo m n : propagate p lo (m + n) = propagate p (lo + m) n && propagate p lo m.
Proof.
  induction n as [|n IH]; [by rewrite Nat.add_0_r|]. rewrite Nat.add_succ_r. cbn [propagate].
  rewrite IH, Nat.add_assoc. apply andb_assoc.
Qed.

(** The node of [i] from [k] on and that of [k - 1] from [lo] on. *)
Lemma carry_join p g lo k i : lo < k ≤ i →
  carry p g lo (i + 1 - lo) =
    carry p g k (i + 1 - k) || propagate p k (i + 1 - k) && carry p g lo (k - 1 + 1 - lo).
Proof.
  intros Hk. replace (i + 1 - lo) with ((k - lo) + (i + 1 - k)) by lia. rewrite carry_app.
  replace (lo + (k - lo)) with k by lia. by replace (k - 1 + 1 - lo) with (k - lo) by lia.
Qed.

Lemma propagate_join p lo k i : lo < k ≤ i →
  propagate p lo (i + 1 - lo) = propagate p k (i + 1 - k) && propagate p lo (k - 1 + 1 - lo).
Proof.
  intros Hk. replace (i + 1 - lo) with ((k - lo) + (i + 1 - k)) by lia. rewrite propagate_app.
  replace (lo + (k - lo)) with k by lia. by replace (k - 1 + 1 - lo) with (k - lo) by lia.
Qed.

(** *** Levels *)

Lemma level_le m i : 0 < m → level m i ≤ i.
Proof.
  intros Hm. unfold level. destruct (Nat.even i); [|done].
  pose proof (Nat.Div0.mul_div_le (i + 1) m). lia.
Qed.

Lemma level_block m q i : 0 < m → Nat.even i = true → q * m ≤ i + 1 < (q + 1) * m → level m i = q * m - 1.
Proof.
  intros Hm He Hq. unfold level. rewrite He.
  assert ((i + 1) / m = q) as ->; [|done].
  symmetry. apply (Nat.div_unique _ _ _ (i + 1 - q * m)); lia.
Qed.

Lemma level_done m i : 0 < m → Nat.even i = true → i + 1 < m → level m i = 0.
Proof. intros Hm He Hi. rewrite (level_block m 0 i); [done|done|done|lia]. Qed.

Definition step_ok (s : nat) : Prop := s = 1 ∨ Nat.even s = true ∧ 0 < s.

(** The levels while the batches of the step [s] are processed. *)
Definition levels_at (s t i : nat) : nat := if i <? t then level (2 * s) i else level s i.

Lemma even_spec' n : Nat.even n = true ↔ ∃ k, n = 2 * k.
Proof. apply Nat.even_spec. Qed.

(** The first position of a batch that is a child, and its parent. *)
Lemma batch_child s q i : step_ok s → let batch := s - 1 + 2 * s * q in
  Nat.even i = true → batch ≤ i < batch + s → level s i = batch ∧ level (2 * s) i = 2 * q * s - 1.
Proof.
  intros Hs batch He Hi. assert (0 < s) as Hpos by (destruct Hs; lia).
  assert (batch = (2 * q + 1) * s - 1) as Eb by (unfold batch; nia). 
  assert (i + 1 < (2 * q + 2) * s) as Hlt.
  { destruct Hs as [->|[Es _]]; [unfold batch in *; lia|].
    assert (i + 1 ≤ (2 * q + 2) * s) as Hle by nia.
    apply even_spec' in He as [k ->]. apply even_spec' in Es as [h ->].
    assert (2 * k + 1 ≠ (2 * q + 2) * (2 * h)) by lia. lia. }
  split.
  - rewrite (level_block s (2 * q + 1)); [lia|done|done|nia].
  - rewrite (level_block (2 * s) q); [nia|nia|done|nia].
Qed.

Lemma batch_parent s q : step_ok s → let batch := s - 1 + 2 * s * q in
  0 < batch → level (2 * s) (batch - 1) = 2 * q * s - 1.
Proof.
  intros Hs batch Hb. destruct Hs as [->|[Es Hpos]].
  - unfold batch, level in *. replace (Nat.even _) with false; [lia|]. symmetry.
    replace (1 - 1 + 2 * 1 * q - 1) with (S (2 * (q - 1))) by lia.
    rewrite Nat.even_succ, <- Nat.negb_even, Nat.even_mul. done.
  - rewrite (level_block (2 * s) q); [nia|lia| |unfold batch in *; nia].
    apply even_spec' in Es as [h ->]. apply even_spec'. exists (h + 2 * h * q - 1). unfold batch in *. lia.
Qed.

(** Between the batches the two levels agree. *)
Lemma batch_gap s q i : step_ok s → let batch := s - 1 + 2 * s * q in
  batch + s ≤ i < batch + 2 * s → level s i = level (2 * s) i.
Proof.
  intros Hs batch Hi. assert (0 < s) as Hpos by (destruct Hs; lia).
  destruct (Nat.even i) eqn:He; [|unfold level; by rewrite He].
  rewrite (level_block s (2 * q + 2)); [|done|done|unfold batch in *; nia].
  rewrite (level_block (2 * s) (q + 1)); [nia|lia|done|unfold batch in *; nia].
Qed.

(** ** Running the tree *)

Section Runs.
Context `{TypeStore}.
Context (P G : nat → valuation → bool) (B : nat) (ins outs : list nat).

Lemma node_ext b b' s lo i : ext b b' → node P G B b s lo i → node P G B b' s lo i.
Proof.
  intros He (Hlo & pl & gl & z & H1 & H2 & H3 & -> & H4 & H5). split; [done|].
  exists pl, gl, (lo <? B). split_all; [done..| |].
  - intros Hpos. by eapply denotes_ext; [|apply H4].
  - destruct (lo <? B); [by eapply denotes_ext|done].
Qed.

Lemma nodes_ext b b' sizeA n lv s : ext b b' → nodes P G B b sizeA n lv s → nodes P G B b' sizeA n lv s.
Proof. intros He [H1 H2 H3 H4]. split; try done. intros i Hi. by eapply node_ext; [|apply H3]. Qed.

Lemma nodes_lv b sizeA n lv lv' s :
  (∀ i, i < n → lv i = lv' i) → nodes P G B b sizeA n lv s → nodes P G B b sizeA n lv' s.
Proof. intros Hl [H1 H2 H3 H4]. split; try done. intros i Hi. rewrite <- Hl by done. auto. Qed.

Lemma adds_rd {X Y} (l : list X) i x b (f : X → st SubnetBuilder Y) Q :
  l !! i = Some x → adds ins outs b (f x) Q → adds ins outs b (rd l i ≫= f) Q.
Proof. apply (adds_read_bind ins outs b (λ _, l !! i)). Qed.

(** A node of the tree. *)
Definition join_ok (b : SubnetBuilder) (lo child : nat) (pl : Link) : Prop :=
  0 < lo → denotes b pl (λ v, propagate (λ k, P k v) lo (child + 1 - lo)).

Lemma child_propagate b s sizeA n lv batch step child pP childP :
  wf b ins outs → nodes P G B b sizeA n lv s → child < n → 0 < batch ≤ child → lv child = batch →
  lv (batch - 1) ≤ batch - 1 → pOutputs s !! (batch - 1) = Some pP →
  pOutputs s !! child = Some childP → (batch + 1 = step ↔ lv (batch - 1) = 0) →
  adds ins outs b (if batch + 1 =? step then mret (pOutputs s)
                   else l ← addGate AND [childP; pP]; mret (<[child := l]> (pOutputs s)))
    (λ b' pO, ∃ pl, pO = <[child := pl]> (pOutputs s) ∧ join_ok b' (lv (batch - 1)) child pl).
Proof.
  intros Hw HN Hc Hb Hlv Hle HpP HcP Hstep.
  destruct (Nat.eqb_spec (batch + 1) step) as [E|E].
  { apply adds_ret; [done|]. exists childP. rewrite list_insert_id by done. split; [done|].
    intros Hpos. apply Hstep in E. lia. }
  destruct (nd_node _ _ _ _ _ _ _ _ HN child Hc) as (_ & cP & _ & _ & H1 & _ & _ & _ & H4 & _).
  destruct (nd_node _ _ _ _ _ _ _ _ HN (batch - 1)) as (_ & pP' & _ & _ & K1 & _ & _ & _ & K4 & _); [lia|].
  rewrite HcP in H1. injection H1 as <-. rewrite HpP in K1. injection K1 as <-.
  rewrite Hlv in H4. specialize (H4 ltac:(lia)).
  assert (0 < lv (batch - 1)) as Hpos by (destruct (decide (lv (batch - 1) = 0)); [tauto|lia]).
  eapply adds_bind; [apply add_and; [done|exact H4|by apply K4]|].
  intros l b1 Hw1 He1 [Hs Hv]. apply adds_ret; [done|]. exists l. split; [done|]. intros _.
  split; [done|]. intros v Hcv. rewrite Hv by done. symmetry. apply propagate_join. lia.
Qed.

(** The generate link of [child] after it takes in the range of [par]. *)
Definition join_generate (childP childG gP : Link) (pO : LinkList) (child : nat) (zp : bool) (s : Prefix)
    : st SubnetBuilder Prefix :=
  if zp then
    g ← addGate AND [childP; gP];
    nzChild ← rd (isNotZero s) child;
    g ← (if nzChild : bool then addGate OR [childG; g] else mret g);
    mret (mkPrefix pO (<[child := g]> (gOutputs s)) (<[child := true]> (isNotZero s)))
  else mret (mkPrefix pO (gOutputs s) (isNotZero s)).

Definition set_lv (lv : nat → nat) (child lo i : nat) : nat := if decide (i = child) then lo else lv i.

(** The arrays with the node of [child] replaced. *)
Lemma nodes_set b b' sizeA n lv s child lo pl g z :
  nodes P G B b sizeA n lv s → ext b b' → child < n → lo ≤ child → join_ok b' lo child pl →
  z = (lo <? B) →
  (if z : bool then denotes b' g (λ v, carry (λ k, P k v) (λ k, G k v) lo (child + 1 - lo))
   else ∀ v, carry (λ k, P k v) (λ k, G k v) lo (child + 1 - lo) = false) →
  nodes P G B b' sizeA n (set_lv lv child lo)
    (mkPrefix (<[child := pl]> (pOutputs s)) (<[child := g]> (gOutputs s)) (<[child := z]> (isNotZero s))).
Proof.
  intros HN He Hc Hlo Hp Hz Hg. destruct (nd_lens _ _ _ _ _ _ _ _ HN) as (L1 & L2 & L3).
  pose proof (nd_size _ _ _ _ _ _ _ _ HN) as Hn. split; cbn; [done|by rewrite !length_insert| |].
  - intros i Hi. unfold set_lv. case_decide as E.
    + subst i. split; [done|]. exists pl, g, z. cbn. rewrite !list_lookup_insert_eq by lia. by split_all.
    + eapply node_ext in He; [|by apply (nd_node _ _ _ _ _ _ _ _ HN)].
      destruct He as (Hl & pi & gi & zi & E1 & E2 & E3 & E4). split; [done|].
      exists pi, gi, zi. cbn. by rewrite !list_lookup_insert_ne by done.
  - intros i Hi. rewrite list_lookup_insert_ne by lia. by apply (nd_high _ _ _ _ _ _ _ _ HN).
Qed.

Lemma join_generate_spec b b0 sizeA n lv s child batch pl cP cG gP zp :
  wf b ins outs → nodes P G B b0 sizeA n lv s → ext b0 b → child < n → 0 < batch ≤ child → lv child = batch →
  lv (batch - 1) ≤ batch - 1 →
  pOutputs s !! child = Some cP → gOutputs s !! child = Some cG →
  gOutputs s !! (batch - 1) = Some gP → isNotZero s !! (batch - 1) = Some zp →
  join_ok b (lv (batch - 1)) child pl →
  adds ins outs b (join_generate cP cG gP (<[child := pl]> (pOutputs s)) child zp s) (λ b' s',
    nodes P G B b' sizeA n (set_lv lv child (lv (batch - 1))) s' ∧
    (∀ i, i ≠ child → pOutputs s' !! i = pOutputs s !! i ∧ gOutputs s' !! i = gOutputs s !! i)).
Proof.
  intros Hw HN He0 Hc Hb Hlv Hle HcP HcG HgP Hzp Hpl. set (lo := lv (batch - 1)) in *.
  destruct (nd_node _ _ _ _ _ _ _ _ HN child Hc) as (_ & cP' & cG' & zc & H1 & H2 & H3 & Hzc & H4 & H5).
  destruct (nd_node _ _ _ _ _ _ _ _ HN (batch - 1)) as (_ & _ & gP' & zp' & _ & K2 & K3 & Hzp' & _ & K5); [lia|].
  fold lo in K5, Hzp'. rewrite HcP in H1. injection H1 as <-. rewrite HcG in H2. injection H2 as <-.
  rewrite HgP in K2. injection K2 as <-. rewrite Hzp in K3. injection K3 as <-. rewrite Hlv in *.
  assert (lo < batch ≤ child) as Hj by (unfold lo in *; lia).
  assert (∀ (g : Link) i, i ≠ child →
    <[child := pl]> (pOutputs s) !! i = pOutputs s !! i ∧ <[child := g]> (gOutputs s) !! i = gOutputs s !! i) as Hother
    by (intros; by rewrite !list_lookup_insert_ne by done).
  unfold join_generate. destruct zp.
  - eapply adds_bind.
    { apply add_and; [done| |eapply denotes_ext; [exact He0|exact K5]].
      eapply denotes_ext; [exact He0|apply H4; lia]. }
    intros g b2 Hw2 He2 Hg. eapply adds_rd; [exact H3|]. destruct zc.
    + eapply adds_bind.
      { apply add_or; [done| |exact Hg]. eapply denotes_ext; [|exact H5]. by etransitivity. }
      intros g' b3 Hw3 He3 Hg'. apply adds_ret; [done|]. split; [|by apply Hother].
      eapply nodes_set; [exact HN|by do 2 (etransitivity; [done|])|done|lia| |done|].
      * intros Hpos. eapply denotes_ext; [|by apply Hpl]. by etransitivity.
      * eapply denotes_eq; [|exact Hg']. intros v. symmetry. by apply carry_join.
    + apply adds_ret_bind, adds_ret; [done|]. split; [|by apply Hother].
      eapply nodes_set; [exact HN|by etransitivity|done|lia| |done|].
      * intros Hpos. eapply denotes_ext; [exact He2|by apply Hpl].
      * eapply denotes_eq; [|exact Hg]. intros v. cbn. by rewrite (carry_join _ _ lo batch child), H5.
  - apply adds_ret; [done|].
    assert (gOutputs s = <[child := cG]> (gOutputs s) ∧ isNotZero s = <[child := zc]> (isNotZero s)) as [Eg Ez]
      by by rewrite !list_insert_id.
    split; [rewrite Eg, Ez|intros i Hi; cbn; by rewrite list_lookup_insert_ne].
    assert (zc = (lo <? B)) as Hz.
    { rewrite Hzc, <- Hzp'. symmetry in Hzp'. apply Nat.ltb_ge in Hzp'. apply Nat.ltb_ge. lia. }
    eapply nodes_set; [exact HN|exact He0|exact Hc|lia|exact Hpl|exact Hz|]. destruct zc.
    + eapply denotes_eq; [|eapply denotes_ext; [exact He0|exact H5]]. intros v. cbn.
      by rewrite (carry_join _ _ lo batch child), K5, andb_false_r, orb_false_r.
    + intros v. by rewrite (carry_join _ _ lo batch child), K5, H5, andb_false_r.
Qed.

(** A node of the tree. *)
Lemma prefix_child_spec b sizeA n lv s batch step child pP gP :
  wf b ins outs → nodes P G B b sizeA n lv s → child < n → 0 < batch ≤ child → lv child = batch →
  lv (batch - 1) ≤ batch - 1 →
  pOutputs s !! (batch - 1) = Some pP → gOutputs s !! (batch - 1) = Some gP →
  (batch + 1 = step ↔ lv (batch - 1) = 0) →
  adds ins outs b (prefix_child batch step child pP gP s) (λ b' s',
    nodes P G B b' sizeA n (set_lv lv child (lv (batch - 1))) s' ∧
    pOutputs s' !! (batch - 1) = Some pP ∧ gOutputs s' !! (batch - 1) = Some gP).
Proof.
  intros Hw HN Hc Hb Hlv Hle HpP HgP Hstep.
  destruct (nd_node _ _ _ _ _ _ _ _ HN child Hc) as (_ & cP & cG & zc & H1 & H2 & _).
  destruct (nd_node _ _ _ _ _ _ _ _ HN (batch - 1)) as (_ & _ & _ & zp & _ & _ & K3 & _); [lia|].
  unfold prefix_child. eapply adds_rd; [exact H1|]. eapply adds_rd; [exact H2|].
  eapply adds_bind; [by eapply child_propagate|]. intros pO b1 Hw1 He1 (pl & -> & Hpl).
  eapply adds_rd; [exact K3|]. eapply adds_mono.
  - apply (join_generate_spec b1 b sizeA n lv s child batch pl cP cG gP zp); done.
  - intros s' b2 He2 [HN' Hs']. split; [done|]. destruct (Hs' (batch - 1)) as [-> ->]; [lia|done].
Qed.

(** *** The children of a batch *)

(** The levels after the children from [child] down to [batch]. *)
Definition joined (lv : nat → nat) (batch child i : nat) : nat :=
  if (batch <=? i) && (i <=? child) && eqb (Nat.even i) (Nat.even child) then lv (batch - 1) else lv i.

Lemma joined_step lv batch child i : 2 ≤ child → batch ≤ child → 0 < batch →
  joined (set_lv lv child (lv (batch - 1))) batch (child - 2) i = joined lv batch child i.
Proof.
  intros H2 Hb H0. unfold joined, set_lv. rewrite (decide_False (P := batch - 1 = child)) by lia.
  assert (Nat.even (child - 2) = Nat.even child) as ->.
  { replace child with (S (S (child - 2))) at 2 by lia. done. }
  destruct (decide (i = child)) as [->|Hi].
  - rewrite (proj2 (Nat.leb_gt child (child - 2))) by lia. rewrite andb_false_r. cbn.
    by rewrite (proj2 (Nat.leb_le batch child)), (proj2 (Nat.leb_le child child)), eqb_reflx by lia.
  - destruct (batch <=? i); [cbn|done].
    destruct (Nat.leb_spec i (child - 2)), (Nat.leb_spec i child); try lia; try done. cbn.
    destruct (eqb_spec (Nat.even i) (Nat.even child)) as [E|]; [|done].
    assert (i = child - 1) as -> by lia. exfalso.
    replace child with (S (child - 1)) in E at 2 by lia. rewrite Nat.even_succ in E.
    rewrite <- Nat.negb_even in E. by destruct (Nat.even (child - 1)).
Qed.

Lemma prefix_children_spec sizeA n batch step pP gP : 0 < batch → ∀ fuel child lv s b,
  wf b ins outs → nodes P G B b sizeA n lv s → child < n → child < fuel →
  (∀ i, batch ≤ i ≤ child → Nat.even i = Nat.even child → lv i = batch) → lv (batch - 1) ≤ batch - 1 →
  pOutputs s !! (batch - 1) = Some pP → gOutputs s !! (batch - 1) = Some gP →
  (batch + 1 = step ↔ lv (batch - 1) = 0) →
  adds ins outs b (prefix_children fuel batch step child pP gP s) (λ b' s',
    nodes P G B b' sizeA n (joined lv batch child) s').
Proof.
  intros Hb. induction fuel as [|fuel IH]; intros child lv s b Hw HN Hc Hf Hlv Hle HpP HgP Hstep; [lia|].
  cbn [prefix_children]. destruct (Nat.ltb_spec child batch) as [Hlt|Hge].
  { apply adds_ret; [done|]. eapply nodes_lv; [|exact HN]. intros i Hi. unfold joined.
    destruct (Nat.leb_spec batch i), (Nat.leb_spec i child); try done; lia. }
  eapply adds_bind.
  { apply (prefix_child_spec b sizeA n lv s batch step child pP gP); try done; try lia. apply Hlv; [lia|done]. }
  intros s1 b1 Hw1 He1 (HN1 & HpP1 & HgP1). destruct (Nat.ltb_spec child 2) as [Hc2|Hc2].
  - apply adds_ret; [done|]. eapply nodes_lv; [|exact HN1]. intros i Hi. unfold joined, set_lv.
    case_decide as E.
    + subst i. by rewrite (proj2 (Nat.leb_le batch child)), (proj2 (Nat.leb_le child child)), eqb_reflx by lia.
    + destruct (Nat.leb_spec batch i), (Nat.leb_spec i child); try done; lia.
  - eapply adds_mono.
    + apply (IH (child - 2) (set_lv lv child (lv (batch - 1)))); try done; try lia.
      * intros i Hi Ei. unfold set_lv. rewrite decide_False by lia. apply Hlv; [lia|].
        rewrite Ei. replace child with (S (S (child - 2))) at 2 by lia. done.
      * unfold set_lv. by rewrite decide_False by lia.
      * unfold set_lv. by rewrite decide_False by lia.
    + intros s2 b2 He2 HN2. eapply nodes_lv; [|exact HN2]. intros i Hi. by apply joined_step.
Qed.

(** *** The batches of a step *)

Lemma nodes_at b sizeA n lv s i : nodes P G B b sizeA n lv s → i < n →
  ∃ p g, pOutputs s !! i = Some p ∧ gOutputs s !! i = Some g.
Proof.
  intros HN Hi. destruct (nd_node _ _ _ _ _ _ _ _ HN i Hi) as (_ & p & g & _ & ? & ? & _). by exists p, g.
Qed.

Definition last_even (n : nat) : nat := n - 1 - (if Nat.odd n then 0 else 1).

Lemma last_even_spec n : 0 < n → Nat.even (last_even n) = true ∧ last_even n < n ∧
  ∀ i, Nat.even i = true → i < n → i ≤ last_even n.
Proof.
  intros Hn. unfold last_even. destruct (Nat.odd n) eqn:E.
  - apply Nat.odd_spec in E as [k ->]. split; [apply even_spec'; exists k; lia|]. split; [lia|]. intros; lia.
  - assert (Nat.even n = true) as He by (rewrite <- Nat.negb_odd, E; done).
    apply even_spec' in He as [k ->]. split; [apply even_spec'; exists (k - 1); lia|]. split; [lia|].
    intros i Hi Hlt. apply even_spec' in Hi as [h ->]. lia.
Qed.

Lemma prefix_batch_spec b sizeA n s step q :
  let batch := step - 1 + 2 * step * q in
  step_ok step → wf b ins outs → nodes P G B b sizeA n (levels_at step batch) s →
  0 < n < 2 ^ 15 → batch ≤ n →
  adds ins outs b (prefix_batch n step batch s) (λ b' s',
    nodes P G B b' sizeA n (levels_at step (batch + 2 * step)) s').
Proof.
  intros batch Hstep Hw HN Hn Hb. unfold prefix_batch.
  assert (0 < step) as Hs0 by (destruct Hstep; lia).
  destruct (Nat.eqb_spec batch 0) as [E0|E0].
  { apply adds_ret; [done|]. eapply nodes_lv; [|exact HN]. intros i Hi. rewrite E0 in *.
    assert (step = 1 ∧ q = 0) as [-> ->] by (unfold batch in E0; nia). unfold levels_at. cbn [plus].
    destruct (Nat.ltb_spec i 0), (Nat.ltb_spec i (2 * 1)); try lia; try done.
    by destruct i as [|[|i]]; [..|lia]. }
  destruct (nodes_at _ _ _ _ _ (batch - 1) HN) as (pP & gP & HpP & HgP); [lia|].
  eapply adds_rd; [exact HpP|]. eapply adds_rd; [exact HgP|].
  destruct (last_even_spec n) as (Le & Ll & Lm); [lia|]. fold (last_even n).
  assert (Nat.even (step - 1 + batch) = true) as Hpe.
  { apply even_spec'. destruct Hstep as [->|[Es _]]; [exists q; unfold batch; lia|].
    apply even_spec' in Es as [h ->]. exists (2 * h + 2 * h * q - 1). unfold batch in *. lia. }
  assert (min (step - 1 + batch) (last_even n) < 2 ^ 16) as Hu by (change (2 ^ 16) with (2 * 2 ^ 15); lia).
  unfold u16. rewrite (Nat.mod_small _ _ Hu). clear Hu. set (pos := min _ _).
  assert (Nat.even pos = true) as Hpos by (unfold pos; destruct (Nat.min_dec (step - 1 + batch) (last_even n)) as [-> | ->]; done).
  assert (levels_at step batch (batch - 1) = 2 * q * step - 1) as Epar.
  { unfold levels_at. rewrite (proj2 (Nat.ltb_lt _ _)) by lia. apply batch_parent; [done|lia]. }
  eapply adds_mono.
  - apply (prefix_children_spec sizeA n batch step pP gP) with (lv := levels_at step batch); try done; try lia.
    + intros i Hi Ei. unfold levels_at. rewrite (proj2 (Nat.ltb_ge _ _)) by lia.
      apply batch_child; [done|by rewrite Ei|fold batch; lia].
  - intros s' b' He HN'. eapply nodes_lv; [|exact HN']. intros i Hi. unfold joined. rewrite Epar.
    unfold levels_at at 1 2.
    destruct (Nat.leb_spec batch i) as [H1|H1]; cbn [andb].
    2: { by rewrite !(proj2 (Nat.ltb_lt _ _)) by lia. }
    rewrite (proj2 (Nat.ltb_ge i batch)) by lia.
    destruct (Nat.even i) eqn:Ei.
    2: { rewrite Hpos. cbn [eqb]. rewrite andb_false_r. unfold level. rewrite Ei. by destruct (i <? _). }
    rewrite Hpos. cbn [eqb]. rewrite andb_true_r. specialize (Lm i Ei Hi).
    destruct (Nat.leb_spec i pos) as [H2|H2].
    + rewrite (proj2 (Nat.ltb_lt i (batch + 2 * step))) by lia. symmetry.
      apply batch_child; [done|done|fold batch; lia].
    + destruct (Nat.ltb_spec i (batch + 2 * step)) as [H3|H3]; [|done].
      apply (batch_gap _ q); [done|fold batch; lia].
Qed.

Lemma prefix_batches_spec sizeA n step : step_ok step → 0 < n < 2 ^ 15 → 2 * step ≤ 2 ^ 15 →
  ∀ fuel q b s, let batch := step - 1 + 2 * step * q in
  wf b ins outs → nodes P G B b sizeA n (levels_at step batch) s → n + 1 - batch ≤ fuel →
  adds ins outs b (prefix_batches fuel n step (2 * step) batch s) (λ b' s',
    nodes P G B b' sizeA n (level (2 * step)) s').
Proof.
  intros Hstep Hn Hs2. assert (0 < step) as Hs0 by (destruct Hstep; lia).
  induction fuel as [|fuel IH]; intros q b s batch Hw HN Hf; cbn [prefix_batches];
    (destruct (Nat.ltb_spec n batch) as [Hlt|Hge];
     [apply adds_ret; [done|]; eapply nodes_lv; [|exact HN]; intros i Hi; unfold levels_at;
      by rewrite (proj2 (Nat.ltb_lt i batch)) by lia|]); [lia|].
  eapply adds_bind; [by apply prefix_batch_spec|]. fold batch. intros s1 b1 Hw1 He1 HN1.
  assert (batch + 2 * step < 2 ^ 16) as Hu by (change (2 ^ 16) with (2 * 2 ^ 15); lia).
  unfold u16. rewrite (Nat.mod_small _ _ Hu). clear Hu.
  assert (batch + 2 * step = step - 1 + 2 * step * (q + 1)) as E by (unfold batch; lia).
  rewrite E in HN1 |- *. apply (IH (q + 1) b1 s1 Hw1 HN1). lia.
Qed.

Lemma pow2_step k : step_ok (2 ^ k).
Proof.
  destruct k as [|k]; [by left|right]. rewrite Nat.pow_succ_r'. split; [apply even_spec'; by eexists|].
  pose proof (Nat.pow_nonzero 2 k). lia.
Qed.

(** All steps. *)
Lemma prefix_steps_spec sizeA n : 0 < n < 2 ^ 15 → ∀ fuel k b s,
  wf b ins outs → nodes P G B b sizeA n (level (2 ^ k)) s → 16 ≤ fuel + k →
  adds ins outs b (prefix_steps fuel n (2 ^ k) s) (λ b' s',
    nodes P G B b' sizeA n (λ i, if Nat.even i then 0 else i) s').
Proof.
  intros Hn. induction fuel as [|fuel IH]; intros k b s Hw HN Hf; cbn [prefix_steps];
    (destruct (Nat.leb_spec n (2 ^ k)) as [Hle|Hgt];
     [apply adds_ret; [done|]; eapply nodes_lv; [|exact HN]; intros i Hi;
      destruct (Nat.even i) eqn:Ei; [|unfold level; by rewrite Ei];
      pose proof (pow2_step k) as [E|[E E0]];
      [rewrite E in *; by (destruct i; [|lia])
      |apply level_done; [done|done|]; apply even_spec' in Ei as [h ->], E as [h' E]; lia]|]).
  - exfalso. assert (2 ^ 15 ≤ 2 ^ k) by (apply Nat.pow_le_mono_r; lia). lia.
  - assert (k < 15) as Hk.
    { apply (Nat.pow_lt_mono_r_iff 2); lia. }
    assert (2 * 2 ^ k ≤ 2 ^ 15) as H2 by (rewrite <- Nat.pow_succ_r'; apply Nat.pow_le_mono_r; lia).
    assert (2 * 2 ^ k < 2 ^ 16) as Hu by (change (2 ^ 16) with (2 * 2 ^ 15); lia).
    unfold u16. rewrite (Nat.mod_small _ _ Hu). clear Hu. pose proof (pow2_step k) as Hst.
    assert (0 < 2 ^ k) as Hpos by (destruct Hst; lia).
    eapply adds_bind.
    + replace (2 ^ k - 1) with (2 ^ k - 1 + 2 * 2 ^ k * 0) by lia.
      apply prefix_batches_spec; [done|done|done|done| |lia].
      eapply nodes_lv; [|exact HN]. intros i Hi. unfold levels_at.
      destruct (Nat.ltb_spec i (2 ^ k - 1 + 2 * 2 ^ k * 0)) as [Hlt|]; [|done].
      destruct (Nat.even i) eqn:Ei; [|unfold level; by rewrite Ei].
      rewrite !level_done; done || lia.
    + intros s1 b1 Hw1 He1 HN1. rewrite <- Nat.pow_succ_r' in HN1 |- *. apply IH; [done|done|lia].
Qed.

(** *** The carries of the odd positions *)

(** The levels when the odd positions below [t] are done; the last one may stay
    as it is. *)
Definition odd_level (outSize t i : nat) : nat :=
  if Nat.even i || ((i <? t) && negb (i =? outSize - 1)) then 0 else i.

Lemma odd_carry_spec b sizeA n outSize s k :
  wf b ins outs → nodes P G B b sizeA n (odd_level outSize (2 * k + 1)) s → 2 * k + 1 < n →
  adds ins outs b (odd_carry outSize (2 * k + 1) s) (λ b' s',
    nodes P G B b' sizeA n (odd_level outSize (2 * (k + 1) + 1)) s').
Proof.
  intros Hw HN Hk. set (pos := 2 * k + 1) in *. set (lv := odd_level outSize pos).
  assert (Nat.even pos = false) as Hodd.
  { unfold pos. rewrite Nat.add_1_r, Nat.even_succ, <- Nat.negb_even, Nat.even_mul. done. }
  assert (lv pos = pos) as Elv.
  { unfold lv, odd_level. rewrite Hodd, (proj2 (Nat.ltb_ge pos pos)) by lia. done. }
  assert (lv (pos - 1) = 0) as Epar.
  { unfold lv, odd_level, pos. replace (2 * k + 1 - 1) with (2 * k) by lia. by rewrite Nat.even_mul. }
  destruct (nd_node _ _ _ _ _ _ _ _ HN pos Hk) as (_ & cP & cG & zc & H1 & H2 & H3 & _ & H4 & H5).
  destruct (nd_node _ _ _ _ _ _ _ _ HN (pos - 1)) as (_ & pP & gP & zp & K1 & K2 & K3 & _); [lia|].
  fold lv in HN, H4, H5. rewrite Elv in H4, H5.
  assert (∀ i, i < n → pos ≠ outSize - 1 →
    set_lv lv pos (lv (pos - 1)) i = odd_level outSize (2 * (k + 1) + 1) i) as Hlv.
  { intros i Hi Hne. unfold set_lv. rewrite Epar. unfold lv, odd_level. case_decide as E.
    - subst i. rewrite (proj2 (Nat.ltb_lt _ _)), (proj2 (Nat.eqb_neq _ _)) by (unfold pos in *; lia).
      by rewrite orb_true_r.
    - destruct (Nat.even i) eqn:Ei; [done|]. cbn [orb].
      destruct (Nat.ltb_spec i pos), (Nat.ltb_spec i (2 * (k + 1) + 1)); try done; try lia.
      assert (i = pos + 1) as -> by lia. by rewrite Nat.add_1_r, Nat.even_succ, <- Nat.negb_even, Hodd in Ei. }
  unfold odd_carry. eapply adds_rd; [exact H2|]. eapply adds_rd; [exact K3|].
  destruct (Nat.eqb_spec pos (outSize - 1)) as [E|E]; cbn [negb].
  { rewrite andb_false_r. apply adds_ret; [done|]. eapply nodes_lv; [|exact HN]. intros i Hi.
    unfold lv, odd_level. destruct (Nat.even i) eqn:Ei; [done|]. cbn [orb].
    destruct (Nat.ltb_spec i pos), (Nat.ltb_spec i (2 * (k + 1) + 1)); try done; try lia. cbn [andb].
    destruct (Nat.eqb_spec i (outSize - 1)) as [|Hne]; [done|].
    assert (i = pos + 1) as -> by lia. by rewrite Nat.add_1_r, Nat.even_succ, <- Nat.negb_even, Hodd in Ei. }
  rewrite andb_true_r.
  assert (adds ins outs b (join_generate cP cG gP (pOutputs s) pos zp s)
    (λ b' s', nodes P G B b' sizeA n (odd_level outSize (2 * (k + 1) + 1)) s')) as Hj.
  { eapply adds_mono.
    - rewrite <- (list_insert_id (pOutputs s) pos cP) by done.
      apply (join_generate_spec b b sizeA n lv s pos pos cP cP cG gP zp); try done; try lia.
      + rewrite Epar. intros ?. lia.
    - intros s' b' He [HN' _]. eapply nodes_lv; [|exact HN']. intros i Hi. by apply Hlv. }
  destruct zp; unfold join_generate in Hj; [|by destruct s].
  eapply adds_rd; [exact H1|]. eapply adds_rd; [exact K2|]. exact Hj.
Qed.

Lemma odd_carries_spec sizeA n outSize : ∀ m k b s,
  wf b ins outs → nodes P G B b sizeA n (odd_level outSize (2 * k + 1)) s → 2 * (k + m) ≤ n →
  adds ins outs b (odd_carries ((λ k, 2 * k + 1) <$> seq k m) outSize s) (λ b' s',
    nodes P G B b' sizeA n (odd_level outSize (2 * (k + m) + 1)) s').
Proof.
  induction m as [|m IH]; intros k b s Hw HN Hm; cbn [seq fmap list_fmap odd_carries].
  - apply adds_ret; [done|]. by rewrite Nat.add_0_r.
  - eapply adds_bind; [apply (odd_carry_spec b sizeA n outSize s k); [done|done|lia]|].
    intros s1 b1 Hw1 He1 HN1. replace (S k) with (k + 1) by lia.
    eapply adds_mono; [apply IH; [done|done|lia]|]. intros s2 b2 _.
    by replace (k + 1 + m) with (k + S m) by lia.
Qed.

(** All carries: the nodes cover everything below, but for the carry out of
    the last position, which is not computed when it is not needed. *)
Definition final_level (outSize i : nat) : nat :=
  if Nat.even i || negb (i =? outSize - 1) then 0 else i.

Lemma carries_spec sizeA n outSize s b :
  wf b ins outs → nodes P G B b sizeA n (λ i, i) s → 0 < n < 2 ^ 15 →
  adds ins outs b (s ← prefix_steps 16 n 1 s; odd_carries (odd_positions n) outSize s) (λ b' s',
    nodes P G B b' sizeA n (final_level outSize) s').
Proof.
  intros Hw HN Hn. change (prefix_steps 16 n 1 s) with (prefix_steps 16 n (2 ^ 0) s). eapply adds_bind.
  - apply prefix_steps_spec; [done|done| |lia]. eapply nodes_lv; [|exact HN]. intros i _.
    unfold level. cbn [Nat.pow]. rewrite Nat.div_1_r. destruct (Nat.even i); lia.
  - intros s1 b1 Hw1 He1 HN1. unfold odd_positions. pose proof (Nat.Div0.mul_div_le n 2).
    eapply adds_mono; [apply (odd_carries_spec sizeA n outSize (n / 2) 0); [done| |lia]|].
    + eapply nodes_lv; [|exact HN1]. intros i Hi. unfold odd_level.
      destruct (Nat.even i) eqn:Ei; [done|]. destruct i as [|i]; [done|]. by destruct i.
    + intros s2 b2 _ HN2. eapply nodes_lv; [|exact HN2]. intros i Hi. unfold odd_level, final_level.
      destruct (Nat.even i) eqn:Ei; [done|]. cbn [orb].
      rewrite (proj2 (Nat.ltb_lt i _)); [done|].
      pose proof (Nat.div_mod_eq n 2). pose proof (Nat.mod_upper_bound n 2). lia.
Qed.
End Runs.

(** * The sum of the Ladner-Fischer adder

    What [synthLadnerFisherAdd] returns, as bits and as numbers, for operands
    and results of every width below 2^15. *)

(** ** Definitions *)

Definition bit (l : list bool) (i : nat) : bool := default false (l !! i).

(** The propagate and generate bits of two words. *)
Definition pbit (x y : list bool) (i : nat) : bool := xorb (bit x i) (bit y i).
Definition gbit (x y : list bool) (i : nat) : bool := bit x i && bit y i.
Definition carry_at (x y : list bool) (i : nat) : bool := carry (pbit x y) (gbit x y) 0 i.
Definition sum_at (x y : list bool) (i : nat) : bool := xorb (carry_at x y i) (pbit x y i).

Definition low_sum (x y : list bool) (n : nat) : list bool := sum_at x y <$> seq 0 n.

(** The bit above the words: the carry, or an extension of the sum. *)
Definition ext_bit (x y : list bool) (useSign isUnsignedSub : bool) : bool :=
  let n := length x in
  let top := sum_at x y (n - 1) in
  let c := carry_at x y n in
  let a := bit x (n - 1) in
  let b := bit y (length y - 1) in
  if isUnsignedSub then top
  else if useSign then (top && a) || ((top && b) || ((top && c) || (c && (a && b))))
  else false.

(** The bits of the result for words [x], [y] with [x] not the shorter one. *)
Definition adder_bits (x y : list bool) (outSize : nat) (useSign isUnsignedSub : bool) : list bool :=
  let n := length x in
  low_sum x y (min outSize n) ++
    (if n <? outSize then
       (if useSign || isUnsignedSub then ext_bit x y useSign isUnsignedSub else carry_at x y n)
         :: replicate (outSize - (n + 1)) (ext_bit x y useSign isUnsignedSub)
     else []).

Definition longer_first (x y : list bool) : list bool * list bool :=
  if length x <? length y then (y, x) else (x, y).

Definition word (v : valuation) (ls : LinkList) : list bool := lval v <$> ls.

(** ** The arrays at the start *)

Section Sum.
Context `{TypeStore}.
Context (a b : LinkList) (ins outs : list nat).

Let P (i : nat) (v : valuation) : bool := pbit (word v a) (word v b) i.
Let G (i : nat) (v : valuation) : bool := gbit (word v a) (word v b) i.

Lemma word_length v (ls : LinkList) : length (word v ls) = length ls.
Proof. apply length_fmap. Qed.

Lemma bit_word v (ls : LinkList) i l : ls !! i = Some l → bit (word v ls) i = lval v l.
Proof. intros Hl. unfold bit, word. by rewrite list_lookup_fmap, Hl. Qed.

Lemma bit_high v (ls : LinkList) i : length ls ≤ i → bit (word v ls) i = false.
Proof. intros Hl. unfold bit, word. by rewrite lookup_ge_None_2 by by rewrite length_fmap. Qed.

Lemma src_at b0 (ls : LinkList) i l : srcs b0 ls → ls !! i = Some l → src b0 l.
Proof. intros Hs Hl. unfold srcs in Hs. rewrite list.Forall_forall in Hs. by eapply Hs, list_elem_of_lookup_2. Qed.

Lemma start_bit_spec b0 i : wf b0 ins outs → srcs b0 a → srcs b0 b → i < length a → i < length b →
  adds ins outs b0 (start_bit a b i) (λ b' pg, denotes b' pg.1 (P i) ∧ denotes b' pg.2 (G i)).
Proof.
  intros Hw Ha Hb Hia Hib.
  apply lookup_lt_is_Some_2 in Hia as [x Hx]. apply lookup_lt_is_Some_2 in Hib as [y Hy].
  pose proof (denotes_self _ _ (src_at _ _ _ _ Ha Hx)) as Dx.
  pose proof (denotes_self _ _ (src_at _ _ _ _ Hb Hy)) as Dy.
  unfold start_bit. eapply adds_rd; [exact Hx|]. eapply adds_rd; [exact Hy|].
  eapply adds_bind; [by apply add_xor|]. intros p b1 Hw1 He1 Hp.
  eapply adds_bind; [apply add_and; [done|eapply denotes_ext; [exact He1|exact Dx]|eapply denotes_ext; [exact He1|exact Dy]]|].
  intros g b2 Hw2 He2 Hg. apply adds_ret; [done|]. split.
  - eapply denotes_eq; [|eapply denotes_ext; [exact He2|exact Hp]]. intros v. unfold P, pbit.
    by rewrite (bit_word v a i x), (bit_word v b i y).
  - eapply denotes_eq; [|exact Hg]. intros v. unfold G, gbit.
    by rewrite (bit_word v a i x), (bit_word v b i y).
Qed.

(** The arrays of the propagate and generate links at the start. *)
Definition started (b0 : SubnetBuilder) (sizeA n B : nat) (s : Prefix) : Prop :=
  nodes P G B b0 sizeA n (λ i, i) s ∧
  ∀ i, i < n → ∃ p, pOutputs s !! i = Some p ∧ denotes b0 p (P i).

Lemma started_intro b0 sizeA n B (pg : list (Link * Link)) high :
  n ≤ sizeA → B ≤ n → (∀ i, B ≤ i < n → length b ≤ i) →
  length pg = B → length high = n - B →
  (∀ i x, pg !! i = Some x → denotes b0 x.1 (P i) ∧ denotes b0 x.2 (G i)) →
  (∀ i l, high !! i = Some l → denotes b0 l (P (B + i))) →
  started b0 sizeA n B
    (mkPrefix (pg.*1 ++ high ++ replicate (sizeA - n) (LinkTo 0))
       (pg.*2 ++ replicate (sizeA - B) (LinkTo 0)) (replicate B true ++ replicate (sizeA - B) false)).
Proof.
  intros Hn HB Hb Lp Lh Hpg Hh.
  assert (∀ i, i < n → ∃ p, (pg.*1 ++ high ++ replicate (sizeA - n) (LinkTo 0)) !! i = Some p ∧
    denotes b0 p (P i)) as HP.
  { intros i Hi. destruct (decide (i < B)) as [Hlt|Hge].
    - destruct (lookup_lt_is_Some_2 pg i) as [x Hx]; [lia|]. exists x.1.
      rewrite lookup_app_l by (rewrite length_fmap; lia). rewrite list_lookup_fmap, Hx.
      split; [done|]. by apply Hpg.
    - destruct (lookup_lt_is_Some_2 high (i - B)) as [l Hl]; [lia|]. exists l.
      rewrite lookup_app_r, length_fmap, Lp by (rewrite length_fmap; lia).
      rewrite lookup_app_l by lia. split; [done|]. replace i with (B + (i - B)) by lia. by apply Hh. }
  split; [|exact HP]. split; cbn [pOutputs gOutputs isNotZero]; [done| | |].
  - rewrite !length_app, !length_replicate, !length_fmap. lia.
  - intros i Hi. split; [done|]. destruct (HP i Hi) as (p & Hp & Dp). cbn [pOutputs gOutputs isNotZero].
    exists p. replace (i + 1 - i) with 1 by lia. cbn [carry propagate]. rewrite Nat.add_0_r.
    destruct (Nat.ltb_spec i B) as [Hlt|Hge].
    + destruct (lookup_lt_is_Some_2 pg i) as [x Hx]; [lia|]. exists x.2, true.
      split; [done|]. split; [by rewrite lookup_app_l, list_lookup_fmap, Hx by (rewrite length_fmap; lia)|].
      split; [rewrite lookup_app_l by (rewrite length_replicate; lia); by apply lookup_replicate_2|].
      split_all; [done| |].
      * intros _. eapply denotes_eq; [|exact Dp]. intros v. by rewrite andb_true_r.
      * eapply denotes_eq; [|by apply Hpg]. intros v. by rewrite andb_false_r, orb_false_r.
    + exists (LinkTo 0), false.
      assert (∀ {X} (l : list X) m x, length l ≤ i → i - length l < m → (l ++ replicate m x) !! i = Some x)
        as Hrep by (intros; by rewrite lookup_app_r, lookup_replicate_2).
      split_all; [done|apply Hrep; rewrite length_fmap; lia|apply Hrep; rewrite length_replicate; lia|done| |].
      * intros _. eapply denotes_eq; [|exact Dp]. intros v. by rewrite andb_true_r.
      * intros v. rewrite andb_false_r, orb_false_r. unfold G, gbit.
        rewrite (bit_high v b) by (apply Hb; lia). apply andb_false_r.
  - intros i Hi. rewrite lookup_app_r, length_replicate by (rewrite length_replicate; lia).
    apply lookup_replicate_2. lia.
Qed.

Lemma start_arrays_spec b0 n : wf b0 ins outs → srcs b0 a → srcs b0 b → n ≤ length a →
  adds ins outs b0 (start_arrays a b (length a) n (min n (length b))) (λ b' s,
    started b' (length a) n (min n (length b)) s).
Proof.
  intros Hw Ha Hb Hn. unfold start_arrays. set (B := min n (length b)). eapply adds_bind.
  { apply (adds_map ins outs (start_bit a b) (λ b' i pg, denotes b' pg.1 (P i) ∧ denotes b' pg.2 (G i))).
    - intros b1 b2 i pg He [H1 H2]. split; (eapply denotes_ext; [exact He|done]).
    - done.
    - intros i b1 Hi Hw1 He1. apply elem_of_seq in Hi.
      apply start_bit_spec; [done|by eapply srcs_ext|by eapply srcs_ext|lia|lia]. }
  intros pg b1 Hw1 He1 Hpg. eapply adds_bind.
  { apply (adds_map ins outs (rd a) (λ b' i l, denotes b' l (P i))).
    - intros b2 b3 i l He Hl. eapply denotes_ext; [exact He|exact Hl].
    - done.
    - intros i b2 Hi Hw2 He2. apply elem_of_seq in Hi.
      destruct (lookup_lt_is_Some_2 a i) as [l Hl]; [lia|].
      apply (adds_mono ins outs b2 (rd a i) (λ _ x, x = l)).
      + exists l, b2. split; [unfold rd, st_read; by rewrite Hl|]. by split_all.
      + intros x b3 He3 ->. assert (src b3 l) as Hs.
        { eapply src_ext; [exact He3|]. eapply src_ext; [exact He2|]. eapply src_ext; [exact He1|].
          exact (src_at b0 a i l Ha Hl). }
        eapply denotes_eq; [|by apply denotes_self]. intros v. unfold P, pbit.
        by rewrite (bit_word v a i l), (bit_high v b i), xorb_false_r by (done || lia). }
  intros high b2 Hw2 He2 Hh. apply adds_ret; [done|]. apply started_intro; [done|lia|lia| | | |].
  - apply Forall2_length in Hpg. by rewrite length_seq in Hpg.
  - apply Forall2_length in Hh. by rewrite length_seq in Hh.
  - intros i x Hx. destruct (Forall2_lookup_r _ _ _ _ _ Hpg Hx) as (k & Hk & D1 & D2).
    apply lookup_seq in Hk as [-> _]. split; (eapply denotes_ext; [exact He2|done]).
  - intros i l Hl. destruct (Forall2_lookup_r _ _ _ _ _ Hh Hl) as (k & Hk & D).
    by apply lookup_seq in Hk as [-> _].
Qed.

(** ** The bits of the sum *)

Lemma final_node b0 sizeA n B outSize s i :
  nodes P G B b0 sizeA n (final_level outSize) s → 0 < B → i < n → i + 1 < outSize →
  isNotZero s !! i = Some true ∧ ∃ g, gOutputs s !! i = Some g ∧
    denotes b0 g (λ v, carry_at (word v a) (word v b) (i + 1)).
Proof.
  intros HN HB Hi Ho. destruct (nd_node _ _ _ _ _ _ _ _ HN i Hi) as (_ & p & g & z & _ & Hg & Hz & Ez & _ & D).
  assert (final_level outSize i = 0) as El.
  { unfold final_level. rewrite (proj2 (Nat.eqb_neq i (outSize - 1))) by lia. by rewrite orb_true_r. }
  rewrite El in Ez, D. rewrite (proj2 (Nat.ltb_lt 0 B)) in Ez by done. subst z. split; [done|].
  exists g. split; [done|]. by rewrite Nat.sub_0_r in D.
Qed.

Lemma sum_bit_spec b0 sizeA n B outSize s startP i :
  wf b0 ins outs → nodes P G B b0 sizeA n (final_level outSize) s → 0 < B → n ≤ outSize →
  (∃ p, startP !! i = Some p ∧ denotes b0 p (P i)) → 0 < i < n →
  adds ins outs b0 (sum_bit startP s i) (λ b' l, denotes b' l (λ v, sum_at (word v a) (word v b) i)).
Proof.
  intros Hw HN HB Hn (p & Hp & Dp) Hi. unfold sum_bit. eapply adds_rd; [exact Hp|].
  destruct (final_node b0 sizeA n B outSize s (i - 1) HN) as (Hz & g & Hg & Dg); [done|lia|lia|].
  eapply adds_rd; [exact Hz|]. eapply adds_rd; [exact Hg|].
  eapply adds_mono; [by apply add_xor|]. intros l b1 He1 Hl. eapply denotes_eq; [|exact Hl].
  intros v. cbn. unfold sum_at. by replace (i - 1 + 1) with i by lia.
Qed.

(** The low bits of the result, all below the longer operand. *)
Lemma low_bits_spec b0 sizeA n B outSize s s0 p0 :
  wf b0 ins outs → nodes P G B b0 sizeA n (final_level outSize) s → 0 < B → 0 < n ≤ outSize →
  (∀ i, i < n → ∃ p, pOutputs s0 !! i = Some p ∧ denotes b0 p (P i)) →
  pOutputs s0 !! 0 = Some p0 →
  adds ins outs b0 (sums ← st_map (sum_bit (pOutputs s0) s) (seq 1 (n - 1)); mret (p0 :: sums))
    (λ b' ls, denotes_all b' ls (λ v, low_sum (word v a) (word v b) n) ∧ length ls = n).
Proof.
  intros Hw HN HB Hn HP Hp0. eapply adds_bind.
  { apply (adds_map ins outs _ (λ b' i l, denotes b' l (λ v, sum_at (word v a) (word v b) i))).
    - intros b1 b2 i l He Hl. eapply denotes_ext; [exact He|exact Hl].
    - done.
    - intros i b1 Hi Hw1 He1. apply elem_of_seq in Hi.
      eapply (sum_bit_spec b1 sizeA n B outSize); [done|by eapply nodes_ext|done|lia| |lia].
      destruct (HP i) as (p & Hp & Dp); [lia|]. exists p. split; [done|]. eapply denotes_ext; [exact He1|exact Dp]. }
  intros sums b1 Hw1 He1 HF. apply adds_ret; [done|].
  assert (Forall2 (λ i l, denotes b1 l (λ v, sum_at (word v a) (word v b) i)) (seq 0 n) (p0 :: sums)) as HF0.
  { destruct n as [|n]; [lia|]. cbn [seq]. replace (S n - 1) with n in HF by lia. constructor; [|done].
    destruct (HP 0) as (p & Hp & Dp); [lia|]. rewrite Hp0 in Hp. injection Hp as <-.
    eapply denotes_eq; [|eapply denotes_ext; [exact He1|exact Dp]]. intros v.
    unfold sum_at, carry_at, P. cbn [carry]. by rewrite xorb_false_l. }
  split; [|apply Forall2_length in HF0; by rewrite length_seq in HF0].
  split.
  - apply list.Forall_forall. intros l Hl. apply list_elem_of_lookup in Hl as [k Hl].
    destruct (Forall2_lookup_r _ _ _ _ _ HF0 Hl) as (i & _ & [Hs _]). done.
  - intros v Hv. unfold low_sum. symmetry. clear - HF0 Hv.
    induction HF0 as [|i l ks ls [_ D] HF IH]; [done|]. cbn. by rewrite IH, D.
Qed.

(** ** The bits above *)

Lemma last_at {A} (l : list A) x : list.last l = Some x ↔ l !! (length l - 1) = Some x.
Proof. rewrite last_lookup. by replace (pred (length l)) with (length l - 1) by lia. Qed.

Lemma denotes_last b0 ls f l n :
  denotes_all b0 ls f → list.last ls = Some l → length ls = S n → denotes b0 l (λ v, bit (f v) n).
Proof.
  intros [Hs Hf] Hl Hn. apply last_at in Hl. rewrite Hn in Hl. replace (S n - 1) with n in Hl by lia. split.
  - by eapply src_at.
  - intros v Hv. rewrite <- (Hf v Hv). unfold bit. by rewrite list_lookup_fmap, Hl.
Qed.

Definition or4 (x1 x2 x3 x4 : bool) : bool := x1 || (x2 || (x3 || x4)).

Lemma add_or4 b0 l1 l2 l3 l4 f1 f2 f3 f4 :
  wf b0 ins outs → denotes b0 l1 f1 → denotes b0 l2 f2 → denotes b0 l3 f3 → denotes b0 l4 f4 →
  adds ins outs b0 (addCellTree OR [l1; l2; l3; l4] 2)
    (λ b' l, denotes b' l (λ v, or4 (f1 v) (f2 v) (f3 v) (f4 v))).
Proof.
  intros Hw D1 D2 D3 D4.
  assert (srcs b0 [l1; l2; l3; l4]) as Hs.
  { constructor; [apply D1|constructor; [apply D2|constructor; [apply D3|constructor; [apply D4|constructor]]]]. }
  destruct (getCellType OR) as [ty|] eqn:Ety; [|done].
  eapply adds_mono; [apply (addCellTree_spec OR ty)|]; try done.
  { by injection Ety as <-. } { unfold InPlaceLinks. lia. }
  intros l b1 He [Hl Hv]. split; [done|]. intros v Hc. specialize (Hv v Hc).
  pose proof (consistent_ext _ _ _ He Hc) as Hc0. cbn in Hv. injection Hv as Hv. rewrite <- Hv.
  unfold id, or4. rewrite (proj2 D1), (proj2 D2), (proj2 D3), (proj2 D4) by done. by rewrite orb_false_r.
Qed.

Lemma add_and3 b0 l1 l2 l3 f1 f2 f3 :
  wf b0 ins outs → denotes b0 l1 f1 → denotes b0 l2 f2 → denotes b0 l3 f3 →
  adds ins outs b0 (addGate AND [l1; l2; l3]) (λ b' l, denotes b' l (λ v, f1 v && (f2 v && f3 v))).
Proof. apply (add_gate3 AND (λ x y z, x && (y && z))); [done|by intros [] [] []]. Qed.

Section High.
Context (b0 : SubnetBuilder) (B outSize : nat) (s : Prefix) (top : Link) (useSign isSub : bool).
Context (Hw : wf b0 ins outs) (Ha : srcs b0 a) (Hb : srcs b0 b).
Context (HN : nodes P G B b0 (length a) (length a) (final_level outSize) s).
Context (HB : 0 < B) (Hla : 0 < length a) (Hlb : 0 < length b) (Ho : length a < outSize).
Context (Htop : denotes b0 top (λ v, sum_at (word v a) (word v b) (length a - 1))).

Lemma back_node : isNotZero s !! (length (gOutputs s) - 1) = Some true ∧ ∃ g, list.last (gOutputs s) = Some g ∧
  denotes b0 g (λ v, carry_at (word v a) (word v b) (length a)).
Proof.
  destruct (nd_lens _ _ _ _ _ _ _ _ HN) as (_ & L & _).
  destruct (final_node b0 _ _ B outSize s (length a - 1) HN) as (Hz & g & Hg & D); [done|lia|lia|].
  rewrite L. split; [done|]. exists g. split; [by rewrite last_at, L|].
  by replace (length a - 1 + 1) with (length a) in D by lia.
Qed.

Lemma back_operand ls : srcs b0 ls → 0 < length ls →
  ∃ l, list.last ls = Some l ∧ denotes b0 l (λ v, bit (word v ls) (length ls - 1)).
Proof.
  intros Hs Hl. destruct (lookup_lt_is_Some_2 ls (length ls - 1)) as [l E]; [lia|]. exists l.
  split; [by apply last_at|]. split; [by eapply src_at|]. intros v _. by rewrite (bit_word v ls _ l).
Qed.

Lemma zero_cell_spec :
  adds ins outs b0 (zero_cell a b outSize (length a) (useSign || isSub) isSub s top) (λ b' l,
    denotes b' l (λ v, ext_bit (word v a) (word v b) useSign isSub) ∨
    (useSign || isSub = false ∧ outSize = length a + 1)).
Proof.
  destruct back_node as (Hz & g & Hg & Dg).
  destruct (back_operand a Ha Hla) as (la & Ea & Da). destruct (back_operand b Hb Hlb) as (lb & Eb & Db).
  unfold zero_cell. eapply adds_rd; [exact Hz|]. cbn [negb orb].
  destruct (useSign || isSub) eqn:Es; cbn [negb]; [rewrite andb_false_r|rewrite andb_true_r].
  - eapply adds_read_bind; [exact Hg|]. destruct isSub.
    + eapply adds_bind; [by apply add_and|]. intros l b1 Hw1 He1 Hl.
      eapply adds_mono; [apply add_or; [done|eapply denotes_ext; [exact He1|exact Htop]|exact Hl]|].
      intros l' b2 He2 Hl'. left. eapply denotes_eq; [|exact Hl']. intros v. cbn. unfold ext_bit.
      rewrite !word_length.
      by destruct (sum_at _ _ _).
    + rewrite orb_false_r in Es. rewrite Es.
      eapply adds_read_bind; [exact Ea|]. eapply adds_read_bind; [exact Eb|].
      eapply adds_bind; [by apply add_and|]. intros l1 b1 Hw1 He1 D1.
      eapply adds_bind; [apply add_and; [done|eapply denotes_ext; [exact He1|exact Htop]|
                                         eapply denotes_ext; [exact He1|exact Db]]|].
      intros l2 b2 Hw2 He2 D2. assert (ext b0 b2) as H02 by by etransitivity.
      eapply adds_bind; [apply add_and; [done|eapply denotes_ext; [exact H02|exact Htop]|
                                         eapply denotes_ext; [exact H02|exact Dg]]|].
      intros l3 b3 Hw3 He3 D3. assert (ext b0 b3) as H03 by by etransitivity.
      eapply adds_bind; [apply add_and3; [done|eapply denotes_ext; [exact H03|exact Dg]|
        eapply denotes_ext; [exact H03|exact Da]|eapply denotes_ext; [exact H03|exact Db]]|].
      intros l4 b4 Hw4 He4 D4. assert (ext b1 b4) as H14 by (etransitivity; [|exact He4]; by etransitivity).
      assert (ext b2 b4) as H24 by by etransitivity.
      eapply adds_mono; [apply add_or4; [done|eapply denotes_ext; [exact H14|exact D1]|
        eapply denotes_ext; [exact H24|exact D2]|eapply denotes_ext; [exact He4|exact D3]|exact D4]|].
      intros l b5 He5 Hl. left. eapply denotes_eq; [|exact Hl]. intros v. cbn. unfold ext_bit, or4.
      by rewrite !word_length.
  - apply orb_false_iff in Es as [-> ->]. destruct (Nat.ltb_spec (length a + 1) outSize).
    + eapply adds_mono; [by apply add_zero|]. intros l b1 He1 Hl. by left.
    + eapply adds_read_bind; [exact Hg|]. apply adds_ret; [done|]. right. split; [done|lia].
Qed.

Lemma high_bits_spec outputs f :
  denotes_all b0 outputs f → (∀ v, f v = low_sum (word v a) (word v b) (length a)) → length outputs = length a →
  list.last outputs = Some top →
  adds ins outs b0 (high_bits a b outSize (length a) (useSign || isSub) isSub s outputs) (λ b' ls,
    denotes_all b' ls (λ v, adder_bits (word v a) (word v b) outSize useSign isSub)).
Proof.
  intros Df Ef Lf Et. destruct back_node as (Hz & g & Hg & Dg). unfold high_bits.
  rewrite (proj2 (Nat.ltb_lt (length a) outSize)) by done.
  eapply adds_read_bind; [exact Et|]. eapply adds_bind; [apply zero_cell_spec|].
  intros z b1 Hw1 He1 Dz. eapply adds_rd; [exact Hz|]. eapply adds_read_bind; [exact Hg|].
  apply adds_ret; [done|].
  apply (denotes_all_eq _ _ (λ v, f v ++
    ((if useSign || isSub then ext_bit (word v a) (word v b) useSign isSub
      else carry_at (word v a) (word v b) (length a)) ::
     replicate (outSize - (length a + 1)) (ext_bit (word v a) (word v b) useSign isSub)))).
  { intros v. unfold adder_bits. rewrite !word_length.
    by rewrite Nat.min_r, Ef, (proj2 (Nat.ltb_lt _ _)) by lia. }
  apply denotes_all_app; [by eapply denotes_all_ext|]. cbn [andb].
  apply denotes_all_cons.
  - destruct (useSign || isSub) eqn:Es; cbn [negb].
    + by destruct Dz as [?|[? _]].
    + eapply denotes_ext; [exact He1|exact Dg].
  - destruct Dz as [Dz|[_ E]].
    + induction (outSize - (length a + 1)) as [|m IH]; [apply denotes_all_nil|]. by apply denotes_all_cons.
    + rewrite E, Nat.sub_diag. apply denotes_all_nil.
Qed.
End High.

(** ** The adder *)

(** The adder for operands in the order of their lengths. *)
Lemma adder_ordered b0 outSize useSign isSub :
  wf b0 ins outs → srcs b0 a → srcs b0 b → length b ≤ length a → 0 < length b → 0 < outSize →
  length a < 2 ^ 15 →
  let n := min outSize (length a) in
  adds ins outs b0 (s0 ← start_arrays a b (length a) n (min n (length b));
    s ← prefix_steps 16 n 1 s0; s ← odd_carries (odd_positions n) outSize s;
    out0 ← rd (pOutputs s0) 0; sums ← st_map (sum_bit (pOutputs s0) s) (seq 1 (n - 1));
    high_bits a b outSize (length a) (useSign || isSub) isSub s (out0 :: sums)) (λ b' ls,
    denotes_all b' ls (λ v, adder_bits (word v a) (word v b) outSize useSign isSub)).
Proof.
  intros Hw Ha Hb Hba Hlb Ho Hla n. set (B := min n (length b)).
  eapply adds_bind; [apply start_arrays_spec; [done..|lia]|]. fold B. intros s0 b1 Hw1 He1 [HN0 HP].
  apply (adds_assoc ins outs b1 _ (λ s, odd_carries (odd_positions n) outSize s)).
  eapply adds_bind; [apply (carries_spec P G B ins outs (length a)); [done|done|lia]|].
  intros s b2 Hw2 He2 HN.
  destruct (HP 0) as (p0 & Hp0 & _); [lia|]. eapply adds_rd; [exact Hp0|].
  assert (adds ins outs b2 (sums ← st_map (sum_bit (pOutputs s0) s) (seq 1 (n - 1)); mret (p0 :: sums))
    (λ b' ls, denotes_all b' ls (λ v, low_sum (word v a) (word v b) n) ∧ length ls = n)) as Hlow.
  { eapply (low_bits_spec b2 (length a) n B outSize); [done|done|lia|lia| |done].
    intros i Hi. destruct (HP i Hi) as (p & Hp & D). exists p. split; [done|].
    eapply denotes_ext; [exact He2|exact D]. }
  cut (adds ins outs b2 (ls ← (sums ← st_map (sum_bit (pOutputs s0) s) (seq 1 (n - 1)); mret (p0 :: sums));
    high_bits a b outSize (length a) (useSign || isSub) isSub s ls) (λ b' ls,
    denotes_all b' ls (λ v, adder_bits (word v a) (word v b) outSize useSign isSub))).
  { intros H1. apply (adds_assoc ins outs b2 _ (λ sums, mret (p0 :: sums))) in H1. exact H1. }
  eapply adds_bind; [exact Hlow|]. intros ls b3 Hw3 He3 [Dls Lls].
  destruct (decide (length a < outSize)) as [Hlt|Hge].
  - assert (n = length a) as En by lia. rewrite En in *.
    destruct (lookup_lt_is_Some_2 ls (length a - 1)) as [top Et]; [lia|].
    assert (ext b0 b3) as H03 by (etransitivity; [exact He1|]; by etransitivity).
    eapply (high_bits_spec b3 B outSize s top); try done; try lia.
    + by eapply srcs_ext.
    + by eapply srcs_ext.
    + eapply nodes_ext; [exact He3|exact HN].
    + eapply denotes_eq; [|eapply (denotes_last b3 ls _ top (length a - 1)); [exact Dls|by rewrite last_at, Lls|lia]].
      intros v. cbn. unfold bit, low_sum. rewrite list_lookup_fmap, lookup_seq_lt by lia. done.
    + by rewrite last_at, Lls.
  - unfold high_bits. rewrite (proj2 (Nat.ltb_ge (length a) outSize)) by lia. apply adds_ret; [done|].
    eapply denotes_all_eq; [|exact Dls]. intros v. unfold adder_bits. rewrite !word_length.
    rewrite (proj2 (Nat.ltb_ge (length a) outSize)) by lia. by rewrite app_nil_r.
Qed.
End Sum.
