(* ===== verification/AdderArith.v ===== *)
(** * The adder as an operation on numbers

    The bits computed by [synthLadnerFisherAdd] are those of the sum, unsigned or
    in two's complement, modulo the width of the result. *)

From S2P Require Import Prelude CellType SubnetBase Builder BuilderInv BuilderSpec Adder AdderSum.
From stdpp Require Import gmap.
Open Scope Z_scope.

(** ** Definitions *)

Abbreviation zlen := (λ l, Z.of_nat (length l)).

(** The most significant bit, and the number in two's complement. *)
Definition msb (l : list bool) : bool := bit l (length l - 1)%nat.

Definition Z_of_sbits (l : list bool) : Z := Z_of_bits l - 2 ^ Z.of_nat (length l) * Z.b2z (msb l).

(** ** Numbers of bits *)

Lemma Z_of_bits_snoc l x : Z_of_bits (l ++ [x]) = Z_of_bits l + 2 ^ Z.of_nat (length l) * Z.b2z x.
Proof. rewrite Z_of_bits_app. cbn [Z_of_bits]. by rewrite Z.mul_0_r, Z.add_0_r. Qed.

Lemma Z_of_bits_replicate n x : Z_of_bits (replicate n x) = Z.b2z x * (2 ^ Z.of_nat n - 1).
Proof.
  induction n as [|n IH]; [destruct x; done|]. cbn [replicate Z_of_bits].
  rewrite IH, Nat2Z.inj_succ, Z.pow_succ_r by lia. destruct x; cbn [Z.b2z]; lia.
Qed.

(** The bits below [n]. *)
Lemma Z_of_low_bits x n : Z_of_bits (bit x <$> seq 0 n) = Z_of_bits x mod 2 ^ Z.of_nat n.
Proof.
  destruct (decide (n ≤ length x)%nat) as [Hn|Hn].
  - rewrite <- Z_of_bits_take by done. f_equal. apply list_eq. intros i. rewrite list_lookup_fmap.
    destruct (decide (i < n)%nat) as [Hi|Hi].
    + rewrite lookup_seq_lt, lookup_take_lt by done. cbn.
      destruct (lookup_lt_is_Some_2 x i) as [b Hb]; [lia|]. by rewrite Hb; unfold bit; rewrite Hb.
    + rewrite lookup_seq_ge, lookup_take_ge by lia. done.
  - assert (bit x <$> seq 0 n = x ++ replicate (n - length x) false) as ->.
    { apply list_eq. intros i. rewrite list_lookup_fmap. destruct (decide (i < length x)%nat) as [Hi|Hi].
      - rewrite lookup_seq_lt, lookup_app_l by lia. cbn.
        destruct (lookup_lt_is_Some_2 x i) as [b Hb]; [lia|]. by rewrite Hb; unfold bit; rewrite Hb.
      - rewrite lookup_app_r by lia. destruct (decide (i < n)%nat).
        + rewrite lookup_seq_lt, lookup_replicate_2 by lia. cbn. unfold bit.
          by rewrite lookup_ge_None_2 by lia.
        + rewrite lookup_seq_ge by lia. symmetry. apply lookup_ge_None. rewrite length_replicate. lia. }
    rewrite Z_of_bits_app, Z_of_bits_replicate_false, Z.mul_0_r, Z.add_0_r.
    rewrite Z.mod_small; [done|]. pose proof (Z_of_bits_bound x) as Hb.
    assert (2 ^ Z.of_nat (length x) ≤ 2 ^ Z.of_nat n) by (apply Z.pow_le_mono_r; lia). lia.
Qed.

Lemma low_sum_length x y n : length (low_sum x y n) = n.
Proof. unfold low_sum. by rewrite length_fmap, length_seq. Qed.

(** The sum and the carry of the low bits. *)
Lemma low_sum_carry x y n :
  Z_of_bits (low_sum x y n) + 2 ^ Z.of_nat n * Z.b2z (carry_at x y n) =
  Z_of_bits (bit x <$> seq 0 n) + Z_of_bits (bit y <$> seq 0 n).
Proof.
  unfold low_sum. induction n as [|n IH]; [done|].
  rewrite seq_S, !fmap_app. cbn [fmap list_fmap plus]. rewrite !Z_of_bits_snoc, !length_fmap, !length_seq.
  rewrite Nat2Z.inj_succ, Z.pow_succ_r by lia. unfold sum_at, carry_at in *. cbn [carry plus].
  set (c := carry _ _ 0 n) in *.
  assert (Z.b2z (xorb c (pbit x y n)) + 2 * Z.b2z (gbit x y n || pbit x y n && c) =
    Z.b2z c + Z.b2z (bit x n) + Z.b2z (bit y n)) as E
    by by unfold pbit, gbit; destruct c, (bit x n), (bit y n).
  apply (f_equal (Z.mul (2 ^ Z.of_nat n))) in E. lia.
Qed.

Lemma low_sum_value x y n : Z_of_bits (low_sum x y n) = (Z_of_bits x + Z_of_bits y) mod 2 ^ Z.of_nat n.
Proof.
  pose proof (low_sum_carry x y n) as E. rewrite !Z_of_low_bits in E.
  pose proof (Z_of_bits_bound (low_sum x y n)) as Hb.
  rewrite low_sum_length in Hb.
  rewrite Z.add_mod, <- E by lia. rewrite Z.mul_comm, Z_mod_plus_full. symmetry. by apply Z.mod_small.
Qed.

Lemma low_bits_all x n : (length x ≤ n)%nat → Z_of_bits (bit x <$> seq 0 n) = Z_of_bits x.
Proof.
  intros Hn. rewrite Z_of_low_bits. apply Z.mod_small. pose proof (Z_of_bits_bound x).
  assert (2 ^ Z.of_nat (length x) ≤ 2 ^ Z.of_nat n) by (apply Z.pow_le_mono_r; lia). lia.
Qed.

(** ** The result of the adder *)

Lemma adder_bits_length x y out us sub : length (adder_bits x y out us sub) = out.
Proof.
  unfold adder_bits. rewrite length_app, low_sum_length.
  destruct (Nat.ltb_spec (length x) out); cbn [length]; rewrite ?length_replicate; lia.
Qed.

Lemma adder_bits_low x y out us sub : (out ≤ length x)%nat →
  Z_of_bits (adder_bits x y out us sub) = (Z_of_bits x + Z_of_bits y) mod 2 ^ Z.of_nat out.
Proof.
  intros Ho. unfold adder_bits. rewrite Nat.min_l, (proj2 (Nat.ltb_ge _ _)), app_nil_r by done.
  apply low_sum_value.
Qed.

Lemma adder_bits_unsigned x y out : (length y ≤ length x)%nat →
  Z_of_bits (adder_bits x y out false false) = (Z_of_bits x + Z_of_bits y) mod 2 ^ Z.of_nat out.
Proof.
  intros Hl. destruct (decide (out ≤ length x)%nat) as [Ho|Ho]; [by apply adder_bits_low|].
  unfold adder_bits. rewrite Nat.min_r, (proj2 (Nat.ltb_lt _ _)) by lia. cbn [orb ext_bit].
  unfold ext_bit. rewrite Z_of_bits_app. cbn [Z_of_bits]. rewrite Z_of_bits_replicate_false.
  rewrite low_sum_length.
  pose proof (low_sum_carry x y (length x)) as E. rewrite !low_bits_all in E by lia.
  rewrite Z.mul_0_r, Z.add_0_r, E. symmetry. apply Z.mod_small.
  pose proof (Z_of_bits_bound x). pose proof (Z_of_bits_bound y).
  assert (2 ^ Z.of_nat (length y) ≤ 2 ^ Z.of_nat (length x)) by (apply Z.pow_le_mono_r; lia).
  assert (2 ^ Z.of_nat (S (length x)) ≤ 2 ^ Z.of_nat out) as Hp by (apply Z.pow_le_mono_r; lia).
  rewrite Nat2Z.inj_succ, Z.pow_succ_r in Hp by lia. lia.
Qed.

(** Above the words, the result is filled with one bit. *)
Lemma adder_bits_ext x y out us sub : us || sub = true → (length x < out)%nat →
  Z_of_bits (adder_bits x y out us sub) =
    (Z_of_bits (low_sum x y (length x)) - 2 ^ Z.of_nat (length x) * Z.b2z (ext_bit x y us sub)) mod 2 ^ Z.of_nat out.
Proof.
  intros Hs Ho. pose proof (Z_of_bits_bound (adder_bits x y out us sub)) as Hb.
  rewrite adder_bits_length in Hb. rewrite <- (Z.mod_small _ _ Hb) at 1.
  unfold adder_bits. rewrite Nat.min_r, (proj2 (Nat.ltb_lt _ _)), Hs by lia.
  set (e := ext_bit _ _ _ _). change (e :: replicate ?k e) with (replicate (S k) e).
  rewrite Z_of_bits_app, Z_of_bits_replicate. rewrite low_sum_length.
  replace (S (out - (length x + 1))) with (out - length x)%nat by lia.
  rewrite Nat2Z.inj_sub by lia. set (n := Z.of_nat (length x)).
  assert (2 ^ n * 2 ^ (Z.of_nat out - n) = 2 ^ Z.of_nat out) as E.
  { rewrite <- Z.pow_add_r by lia. f_equal. lia. }
  rewrite <- (Z_mod_plus_full (_ - _) (Z.b2z e)). f_equal. rewrite <- E. ring.
Qed.

Lemma carry_succ x y n : carry_at x y (S n) = gbit x y n || pbit x y n && carry_at x y n.
Proof. done. Qed.

(** Sums of words of the same width in two's complement. *)
Lemma adder_bits_signed x y out : length y = length x → (0 < length x)%nat →
  Z_of_bits (adder_bits x y out true false) = (Z_of_sbits x + Z_of_sbits y) mod 2 ^ Z.of_nat out.
Proof.
  intros Hl Hx. unfold Z_of_sbits. rewrite Hl. set (p := 2 ^ Z.of_nat (length x)).
  destruct (decide (out ≤ length x)%nat) as [Ho|Ho].
  - rewrite adder_bits_low by done.
    assert (p = 2 ^ Z.of_nat out * 2 ^ (Z.of_nat (length x) - Z.of_nat out)) as E.
    { unfold p. rewrite <- Z.pow_add_r by lia. f_equal. lia. }
    set (q := 2 ^ (Z.of_nat (length x) - Z.of_nat out)) in E.
    rewrite <- (Z_mod_plus_full (_ + _) (- q * (Z.b2z (msb x) + Z.b2z (msb y)))). f_equal. rewrite E. ring.
  - rewrite adder_bits_ext by (done || lia). f_equal.
    pose proof (low_sum_carry x y (length x)) as E. rewrite !low_bits_all in E by lia. fold p in E |- *.
    assert (Z.b2z (ext_bit x y true false) =
      Z.b2z (msb x) + Z.b2z (msb y) - Z.b2z (carry_at x y (length x))) as Ee; [|nia].
    unfold ext_bit, msb. rewrite Hl. destruct (length x) as [|n] eqn:En; [lia|].
    replace (S n - 1)%nat with n by lia. rewrite carry_succ. unfold sum_at, pbit, gbit.
    by destruct (bit x n), (bit y n), (carry_at x y n).
Qed.

(** The result of a subtraction is the sum of the words, sign-extended. *)
Lemma adder_bits_sub x y out us : (0 < length x)%nat →
  Z_of_bits (adder_bits x y out us true) = Z_of_sbits (low_sum x y (length x)) mod 2 ^ Z.of_nat out.
Proof.
  intros Hx. unfold Z_of_sbits, msb. rewrite low_sum_length. destruct (decide (out ≤ length x)%nat) as [Ho|Ho].
  - rewrite adder_bits_low by done. rewrite low_sum_value.
    set (p := 2 ^ Z.of_nat (length x)).
    assert (p = 2 ^ (Z.of_nat (length x) - Z.of_nat out) * 2 ^ Z.of_nat out) as E.
    { unfold p. rewrite <- Z.pow_add_r by lia. f_equal. lia. }
    assert (0 < 2 ^ Z.of_nat out ∧ 0 < 2 ^ (Z.of_nat (length x) - Z.of_nat out)) as [? ?] by lia.
    rewrite (Z.div_mod (Z_of_bits x + Z_of_bits y) p) at 1 by lia.
    set (w := (_ + _) mod p). set (k := (_ + _) / p). rewrite E.
    replace (2 ^ (Z.of_nat (length x) - Z.of_nat out) * 2 ^ Z.of_nat out * k + w)
      with (w + (2 ^ (Z.of_nat (length x) - Z.of_nat out) * k) * 2 ^ Z.of_nat out) by ring.
    rewrite Z_mod_plus_full. set (t := Z.b2z _).
    replace (w - 2 ^ (Z.of_nat (length x) - Z.of_nat out) * 2 ^ Z.of_nat out * t)
      with (w + (- (2 ^ (Z.of_nat (length x) - Z.of_nat out) * t)) * 2 ^ Z.of_nat out) by ring.
    by rewrite Z_mod_plus_full.
  - rewrite adder_bits_ext by (by rewrite ?orb_true_r || lia). f_equal. f_equal. f_equal. f_equal.
    unfold ext_bit, bit, low_sum. rewrite list_lookup_fmap, lookup_seq_lt by lia. done.
Qed.

(** ** The adder *)

Definition add_words (x y : list bool) (out : nat) (useSign isUnsignedSub : bool) : list bool :=
  let '(x, y) := longer_first x y in adder_bits x y out useSign isUnsignedSub.

Lemma u16_small n : (n < 2 ^ 16)%nat → u16 n = n.
Proof. apply Nat.mod_small. Qed.

Section Adder.
Context `{TypeStore}.

Lemma adder_spec a b out useSign isSub b0 ins outs :
  wf b0 ins outs → srcs b0 a → srcs b0 b → (0 < length a < 2 ^ 15)%nat → (0 < length b < 2 ^ 15)%nat →
  (0 < out < 2 ^ 16)%nat →
  adds ins outs b0 (synthLadnerFisherAdd a b out useSign isSub) (λ b' ls,
    denotes_all b' ls (λ v, add_words (word v a) (word v b) out useSign isSub)).
Proof.
  intros Hw Ha Hb Hla Hlb Ho. unfold synthLadnerFisherAdd, order_operands.
  assert (2 ^ 15 < 2 ^ 16)%nat as H16 by (apply Nat.pow_lt_mono_r; lia).
  rewrite (u16_small out), (u16_small (length a)), (u16_small (length b)) by lia.
  destruct (Nat.ltb_spec (length a) (length b)) as [Hab|Hab];
    rewrite ?(u16_small (length a)), ?(u16_small (length b)) by lia;
    (eapply adds_assert_bind; [apply Nat.ltb_lt; lia|]);
    (eapply adds_mono; [apply adder_ordered; try done; lia|]); intros ls b1 _ D;
    (eapply denotes_all_eq; [|exact D]); intros v; unfold add_words, longer_first; rewrite !word_length.
  - by rewrite (proj2 (Nat.ltb_lt (length a) (length b))).
  - by rewrite (proj2 (Nat.ltb_ge (length a) (length b))).
Qed.
End Adder.

Lemma add_words_length x y out us sub : length (add_words x y out us sub) = out.
Proof. unfold add_words. destruct (longer_first x y). apply adder_bits_length. Qed.

Lemma add_words_unsigned x y out :
  Z_of_bits (add_words x y out false false) = (Z_of_bits x + Z_of_bits y) mod 2 ^ Z.of_nat out.
Proof.
  unfold add_words, longer_first. destruct (Nat.ltb_spec (length x) (length y)).
  - rewrite adder_bits_unsigned by lia. f_equal. lia.
  - by rewrite adder_bits_unsigned by lia.
Qed.

Lemma add_words_signed x y out : length x = length y → (0 < length x)%nat →
  Z_of_bits (add_words x y out true false) = (Z_of_sbits x + Z_of_sbits y) mod 2 ^ Z.of_nat out.
Proof.
  intros Hl Hx. unfold add_words, longer_first. rewrite (proj2 (Nat.ltb_ge _ _)) by lia.
  by rewrite adder_bits_signed.
Qed.

(** Results that are not wider than the longer word do not depend on the signs. *)
Lemma add_words_low x y out us sub : (length y ≤ length x)%nat → (out ≤ length x)%nat →
  Z_of_bits (add_words x y out us sub) = (Z_of_bits x + Z_of_bits y) mod 2 ^ Z.of_nat out.
Proof.
  intros Hl Ho. unfold add_words, longer_first. rewrite (proj2 (Nat.ltb_ge _ _)) by lia.
  by rewrite adder_bits_low.
Qed.
