(* ===== verification/Synth.v ===== *)
(** * Synthesis of operations: common parts ([gate/synthesizer/operation/utils.cpp])

    A synthesis routine fills an empty builder with the inputs, the cells and the
    outputs of an operation and makes a subnet.  [run_implements] reduces its
    correctness to what its links denote in the builder. *)

From S2P Require Import Prelude CellType SubnetBase Builder Order BuilderInv BuilderAlloc BuilderSpec.
From S2P Require Import BuilderEval Make MakeSpec CellAttr Adder AdderSum AdderArith.
From stdpp Require Import gmap strings.

(** ** Definitions *)

(** [return builder.make();] after the statements [m]. *)
Definition run_make (m : st SubnetBuilder unit) : option Subnet :=
  '(_, b) ← m empty_builder; make false b.

Section Utils.
Context `{TypeStore}.

Definition in_width (a : CellTypeAttr) (i : N) : st SubnetBuilder nat :=
  w ← st_read (λ _, getInWidth a i); mret (N.to_nat w).
Definition out_width (a : CellTypeAttr) (i : N) : st SubnetBuilder nat :=
  w ← st_read (λ _, getOutWidth a i); mret (N.to_nat w).

Definition back (l : LinkList) : st SubnetBuilder Link := st_read (λ _, list.last l).

(** [l.resize(n, x)]. *)
Definition resize_links (n : nat) (x : Link) (l : LinkList) : LinkList :=
  take n l ++ replicate (n - length l) x.

(* gate/synthesizer/operation/utils.cpp:17-32 [extend] *)
Definition extend (word : LinkList) (width : nat) (signExtend : bool) : st SubnetBuilder LinkList :=
  if width <=? length word then mret word
  else
    bit ← (if signExtend && negb (length word =? 0) then back word else addGate ZERO []);
    mret (word ++ replicate (width - length word) bit).

(** The outputs grow by one with every output added. *)
(* gate/synthesizer/operation/utils.cpp:34-47 [extendOutput] *)
Definition extendOutput (width : nat) (signExtend : bool) : st SubnetBuilder unit :=
  n ← st_gets b_nOut;
  if width <=? n then mret ()
  else
    bit ← (if signExtend && (0 <? n)
           then st_read (λ b, match getSubnetEnd b with Idx i => getLink b i 0 | _ => None end)
           else addGate ZERO []);
    st_for (seq 0 (width - n)) (λ _, addOutput bit ;; mret ()).

(* gate/synthesizer/operation/utils.cpp:49-73 [twosComplement] *)
Definition twosComplement (word : LinkList) (width : nat) (signExtend : bool)
    : st SubnetBuilder LinkList :=
  let size := min (length word) width in
  st_assert (negb (size =? 0)) ;;
  let inverted := link_not <$> take size word in
  one ← addGate ONE [];
  bit ← (if signExtend then back inverted else mret one);
  synthLadnerFisherAdd (inverted ++ replicate (width - size) bit) [one] width true false.

(* gate/synthesizer/operation/utils.cpp:75-88 [absoluteValue] *)
Definition absoluteValue (word : LinkList) : st SubnetBuilder LinkList :=
  sign ← back word;
  temp ← st_map (λ l, addGate XOR [l; sign]) word;
  synthLadnerFisherAdd temp [sign] (length word) true false.
End Utils.

(** ** From the builder to the subnet *)

Section Steps.
Context `{TypeStore}.

(** The builder at the end of a routine that implements [f] on [n] inputs. *)
Definition finished (n : nat) (f : list bool → list bool) (_ : ()) (b : SubnetBuilder) : Prop :=
  ∃ ins outs ls, wf b ins outs ∧ ext empty_builder b ∧ length ins = n ∧
    outs ≠ [] ∧ Forall2 (out_link b) outs ls ∧
    ∀ v, consistent v b → word v ls = f ((λ i, v i 0) <$> ins).

Lemma run_implements (m : st SubnetBuilder unit) n f :
  wp m empty_builder (finished n f) → ∃ s, run_make m = Some s ∧ implements s n f.
Proof.
  intros ([] & b & E & ins & outs & ls & Hw & [_ (_ & He & Hf)] & <- & Hne & HF & Hv).
  unfold run_make. rewrite E. cbn [mbind option_bind].
  destruct (make_implements b ins outs ls f) as (s & Hs & Hi & _); [done|by apply He|by apply Hf|done|done|done|].
  by exists s.
Qed.

(** The builder [b] has the inputs [ins] and no output yet. *)
Record open_builder (b : SubnetBuilder) (ins : list nat) : Prop := {
  ob_wf : wf b ins [];
  ob_ext : ext empty_builder b;
  ob_ready : input_ready b ins;
}.

Lemma open_empty : open_builder empty_builder [].
Proof. split; [apply wf_empty|done|apply ready_empty]. Qed.

Lemma wp_read {A B} (r : SubnetBuilder → option A) a (k : A → st SubnetBuilder B) b Q :
  r b = Some a → wp (k a) b Q → wp (st_read r ≫= k) b Q.
Proof.
  intros Ha (c & b' & E & HQ). exists c, b'. split; [|done].
  unfold mbind, st_bind, st_read. by rewrite Ha.
Qed.

Lemma wp_assert {B} (x : bool) (k : () → st SubnetBuilder B) b Q :
  x = true → wp (k ()) b Q → wp (st_assert x ≫= k) b Q.
Proof. by intros ->. Qed.

Lemma wp_in_width {B} a i w (k : nat → st SubnetBuilder B) b Q :
  getInWidth a i = Some w → wp (k (N.to_nat w)) b Q → wp (in_width a i ≫= k) b Q.
Proof.
  intros Hw (c & b' & E & HQ). exists c, b'. split; [|done]. rewrite <- E.
  unfold in_width, st_read. unfold mbind, st_bind. by rewrite Hw.
Qed.

Lemma wp_out_width {B} a i w (k : nat → st SubnetBuilder B) b Q :
  getOutWidth a i = Some w → wp (k (N.to_nat w)) b Q → wp (out_width a i ≫= k) b Q.
Proof.
  intros Hw (c & b' & E & HQ). exists c, b'. split; [|done]. rewrite <- E.
  unfold out_width, st_read. unfold mbind, st_bind. by rewrite Hw.
Qed.

(** Inputs: their values are those of the new input cells. *)
Lemma wp_inputs_any {B} n (k : LinkList → st SubnetBuilder B) b ins Q :
  open_builder b ins →
  (∀ x b', open_builder b' (ins ++ (idx <$> x)) → ext b b' → srcs b' x → length x = n →
     (∀ v, word v x = (λ i, v i 0) <$> (idx <$> x)) → wp (k x) b' Q) →
  wp (addInputs n ≫= k) b Q.
Proof.
  intros [Hw He Hr] Hk. destruct n as [|n].
  { apply wp_bind. exists [], b. split; [done|]. apply Hk; [cbn; by rewrite app_nil_r|done|by constructor|done|done]. }
  apply wp_bind. eapply wp_mono; [apply addInputs_spec; [done|by right]|].
  intros x b' (Hw' & He' & Hx & Hlen). apply Hk; [|done| |done|].
  - split; [done|by etransitivity|]. left. destruct x as [|l x]; [cbn in Hlen; lia|].
    intros E. by apply app_eq_nil in E as [_ ?].
  - eapply Forall_impl; [exact Hx|]. by intros l [? _].
  - intros v. unfold word. rewrite <- list_fmap_compose. apply Forall_fmap_ext_1.
    eapply Forall_impl; [exact Hx|]. intros l [_ E]. cbn. rewrite E. unfold lval. cbn. by rewrite xorb_false_r.
Qed.

Lemma wp_inputs {B} n (k : LinkList → st SubnetBuilder B) b ins Q :
  open_builder b ins → 0 < n →
  (∀ x b', open_builder b' (ins ++ (idx <$> x)) → ext b b' → srcs b' x → length x = n →
     (∀ v, word v x = (λ i, v i 0) <$> (idx <$> x)) → wp (k x) b' Q) →
  wp (addInputs n ≫= k) b Q.
Proof. intros Ho _. by apply wp_inputs_any. Qed.

Lemma wp_input {B} (k : Link → st SubnetBuilder B) b ins Q :
  open_builder b ins →
  (∀ l b', open_builder b' (ins ++ [idx l]) → ext b b' → src b' l → (∀ v, lval v l = v (idx l) 0) → wp (k l) b' Q) →
  wp (addInput ≫= k) b Q.
Proof.
  intros [Hw He Hr] Hk. apply wp_bind. eapply wp_mono; [by apply addInput_spec|].
  intros l b' (Hw' & He' & Hs & El). apply Hk; [|done|done|].
  - split; [done|by etransitivity|]. left. by destruct ins.
  - intros v. rewrite El. unfold lval. cbn. by rewrite xorb_false_r.
Qed.

Lemma wp_adds {A B} (m : st SubnetBuilder A) (k : A → st SubnetBuilder B) b ins P Q :
  ext empty_builder b → adds ins [] b m P →
  (∀ a b', wf b' ins [] → ext empty_builder b' → ext b b' → P b' a → wp (k a) b' Q) → wp (m ≫= k) b Q.
Proof.
  intros He Hm Hk. apply wp_bind. eapply wp_mono; [exact Hm|]. intros a b' (Hw' & He' & HP).
  apply Hk; [done|by etransitivity|done|done].
Qed.

(** The builder [b] has the inputs [ins] and outputs that carry [g]. *)
Definition emits (b : SubnetBuilder) (ins outs : list nat) (g : valuation → list bool) : Prop :=
  wf b ins outs ∧ ext empty_builder b ∧ ∃ ls, Forall2 (out_link b) outs ls ∧ denotes_all b ls g.

Lemma emits_nil b ins : wf b ins [] → ext empty_builder b → emits b ins [] (λ _, []).
Proof. intros Hw He. unfold emits; split_all; [done..|]. exists []. split; [done|]. apply denotes_all_nil. Qed.

Lemma emits_eq b ins outs g h : (∀ v, g v = h v) → emits b ins outs g → emits b ins outs h.
Proof.
  intros E (Hw & He & ls & HF & D). unfold emits. split_all; [done..|]. exists ls. split; [done|].
  by eapply denotes_all_eq.
Qed.

Lemma emits_length b ins outs g v : emits b ins outs g → consistent v b → length outs = length (g v).
Proof.
  intros (_ & _ & ls & HF & [_ D]) Hv. rewrite <- D by done. rewrite length_fmap. by eapply Forall2_length.
Qed.

Lemma emits_adds {A} (m : st SubnetBuilder A) b ins outs g P :
  emits b ins outs g → adds ins outs b m P → wp m b (λ a b', emits b' ins outs g ∧ ext b b' ∧ P b' a).
Proof.
  intros (Hw & He & ls & HF & D) Hm. eapply wp_mono; [exact Hm|]. intros a b' (Hw' & He' & HP).
  unfold emits; split_all; [done|by etransitivity| |done|done]. exists ls. split; [|by eapply denotes_all_ext].
  eapply Forall2_impl; [exact HF|]. intros o l. by apply out_link_ext.
Qed.

Lemma emits_output l f b ins outs g : emits b ins outs g → denotes b l f →
  wp (addOutput l) b (λ r b', emits b' ins (outs ++ [idx r]) (λ v, g v ++ [f v]) ∧ ext b b').
Proof.
  intros (Hw & He & ls & HF & D) Dl. eapply wp_mono; [apply addOutput_spec; [done|apply Dl]|].
  intros r b' (Hw' & He' & Ho). unfold emits; split_all; [done|by etransitivity| |done]. exists (ls ++ [l]). split.
  - apply Forall2_app; [|by constructor]. eapply Forall2_impl; [exact HF|]. intros o k. by apply out_link_ext.
  - eapply denotes_all_eq; [|apply denotes_all_app; [eapply denotes_all_ext; [exact He'|exact D]|]].
    2: apply denotes_all_cons; [eapply denotes_ext; [exact He'|exact Dl]|apply denotes_all_nil]. done.
Qed.

Lemma emits_for {X} (xs : list X) (f : X → st SubnetBuilder unit) h ins : ∀ b outs g,
  emits b ins outs g →
  (∀ x b' outs' g', x ∈ xs → ext b b' → emits b' ins outs' g' →
     wp (f x) b' (λ _ b'', ∃ o, emits b'' ins (outs' ++ [o]) (λ v, g' v ++ [h v x]) ∧ ext b' b'')) →
  wp (st_for xs f) b (λ _ b', ∃ os, emits b' ins (outs ++ os) (λ v, g v ++ (h v <$> xs)) ∧ ext b b' ∧
    length os = length xs).
Proof.
  induction xs as [|x xs IH]; intros b outs g Hg Hf; cbn [st_for].
  - apply wp_ret. exists []. rewrite app_nil_r. split_all; [|done|done].
    eapply emits_eq; [|exact Hg]. intros v. by rewrite app_nil_r.
  - apply wp_bind. eapply wp_mono; [apply Hf; [set_solver|done|done]|]. intros [] b1 (o & Hg1 & He1).
    eapply wp_mono; [apply (IH b1 _ _ Hg1)|].
    { intros y b' outs' g' Hy He' Hg'. apply Hf; [set_solver|by etransitivity|done]. }
    intros [] b2 (os & Hg2 & He2 & Hos). exists (o :: os). rewrite <- app_assoc in Hg2.
    split_all; [|by etransitivity|cbn; lia]. eapply emits_eq; [|exact Hg2]. intros v. cbn. by rewrite <- app_assoc.
Qed.

Lemma emits_outputs r f b ins outs g : emits b ins outs g → denotes_all b r f →
  wp (addOutputs r) b (λ _ b', ∃ os, emits b' ins (outs ++ os) (λ v, g v ++ f v) ∧ ext b b').
Proof.
  intros (Hw & He & ls & HF & D) Dr. eapply wp_mono; [apply addOutputs_spec; [done|apply Dr]|].
  intros [] b' (os & Hw' & He' & HF'). exists os. unfold emits; split_all; [done|by etransitivity| |done]. exists (ls ++ r). split.
  - apply Forall2_app; [|done]. eapply Forall2_impl; [exact HF|]. intros o k. by apply out_link_ext.
  - apply denotes_all_app; eapply denotes_all_ext; eassumption.
Qed.

Lemma emits_finish b ins outs n m f g : emits b ins outs g → length ins = n → 0 < m →
  (∀ v, length (g v) = m) → (∀ v, consistent v b → g v = f ((λ i, v i 0) <$> ins)) → finished n f () b.
Proof.
  intros (Hw & He & ls & HF & D) Hn Hm Lg Hg.
  pose proof (denotes_all_length b ins outs ls g m Hw D Lg) as Ll. destruct D as [Hs D].
  exists ins, outs, ls. split_all; [done..| |done|].
  - intros ->. apply Forall2_length in HF. cbn in HF. lia.
  - intros v Hv. unfold word. rewrite D; auto.
Qed.

Lemma wp_finish b ins r n m f g :
  wf b ins [] → ext empty_builder b → length ins = n → denotes_all b r g → 0 < m →
  (∀ v, length (g v) = m) → (∀ v, g v = f ((λ i, v i 0) <$> ins)) → wp (addOutputs r) b (finished n f).
Proof.
  intros Hw He Hn D Hm Lg Hg.
  eapply wp_mono; [apply emits_outputs; [by apply emits_nil|exact D]|].
  intros [] b' (os & Ho & _). by apply (emits_finish b' ins os n m f g).
Qed.
End Steps.

(** Routines with one and with two operands. *)

Section Operands.
Context `{TypeStore}.

Lemma wp_one_input {B} n (k : LinkList → st SubnetBuilder B) Q : 0 < n →
  (∀ x b ins, wf b ins [] → ext empty_builder b → length ins = n → srcs b x → length x = n →
     (∀ v, word v x = (λ i, v i 0) <$> ins) → wp (k x) b Q) →
  wp (addInputs n ≫= k) empty_builder Q.
Proof.
  intros Hn Hk. eapply wp_inputs; [apply open_empty|done|]. intros x b [Hw He _] _ Hx Hl Hv.
  apply (Hk x b (idx <$> x)); try done. by rewrite length_fmap.
Qed.

Lemma wp_two_inputs {B} n m (k : LinkList → LinkList → st SubnetBuilder B) Q : 0 < n → 0 < m →
  (∀ x y b ins, wf b ins [] → ext empty_builder b → length ins = n + m → srcs b x → srcs b y →
     length x = n → length y = m → (∀ v, word v x = take n ((λ i, v i 0) <$> ins)) →
     (∀ v, word v y = drop n ((λ i, v i 0) <$> ins)) → wp (k x y) b Q) →
  wp (x ← addInputs n; y ← addInputs m; k x y) empty_builder Q.
Proof.
  intros Hn Hm Hk. eapply wp_inputs; [apply open_empty|done|]. intros x b Ho He Hx Lx Vx.
  eapply wp_inputs; [exact Ho|done|]. intros y b' [Hw He' _] He'' Hy Ly Vy.
  apply (Hk x y b' ((idx <$> x) ++ (idx <$> y))); try done.
  - by rewrite length_app, !length_fmap, Lx, Ly.
  - by eapply srcs_ext.
  - intros v. rewrite fmap_app, take_app_le, take_ge; [apply Vx|rewrite !length_fmap; lia..].
  - intros v. rewrite fmap_app, drop_app_ge by (rewrite !length_fmap; lia).
    rewrite !length_fmap, Lx, Nat.sub_diag, drop_0. apply Vy.
Qed.
End Operands.

(** ** Words that denote numbers *)

Definition bits_of (n : nat) (z : Z) : list bool := (λ i, Z.testbit z (Z.of_nat i)) <$> seq 0 n.

Lemma bits_of_length n z : length (bits_of n z) = n.
Proof. unfold bits_of. by rewrite length_fmap, length_seq. Qed.

Lemma Z_of_bits_of n z : Z_of_bits (bits_of n z) = (z mod 2 ^ Z.of_nat n)%Z.
Proof.
  unfold bits_of. induction n as [|n IH]; [by rewrite Z.mod_1_r|].
  rewrite seq_S, fmap_app. cbn [fmap list_fmap plus]. rewrite Z_of_bits_snoc, IH, length_fmap, length_seq.
  set (p := (2 ^ Z.of_nat n)%Z). assert (0 < p)%Z by (unfold p; lia).
  rewrite Nat2Z.inj_succ, Z.pow_succ_r by lia. fold p.
  rewrite Z.testbit_spec' by lia. fold p. rewrite (Z.mul_comm 2 p).
  by rewrite Z.rem_mul_r by lia.
Qed.

Lemma bits_of_eq l n z : length l = n → Z_of_bits l = (z mod 2 ^ Z.of_nat n)%Z → l = bits_of n z.
Proof.
  intros Hl Hz. apply Z_of_bits_inj; [by rewrite bits_of_length|]. by rewrite Z_of_bits_of.
Qed.

Lemma bits_of_mod n z : bits_of n (z mod 2 ^ Z.of_nat n) = bits_of n z.
Proof. apply bits_of_eq; [apply bits_of_length|]. rewrite Z_of_bits_of. apply Z.mod_mod. lia. Qed.

Section Words.
Context `{TypeStore}.

Lemma denotes_all_nots b ls f : denotes_all b ls f → denotes_all b (link_not <$> ls) (λ v, negb <$> f v).
Proof.
  intros [Hs Hf]. split.
  - apply Forall_fmap. eapply Forall_impl; [exact Hs|]. intros l Hl.
    apply (denotes_not b l _ (denotes_self b l Hl)).
  - intros v Hv. rewrite <- (Hf v Hv), <- !list_fmap_compose. apply Forall_fmap_ext_1.
    eapply Forall_impl; [exact Hs|]. intros l (_ & Ho & _). by apply lval_not.
Qed.

Lemma denotes_all_take b ls f n : denotes_all b ls f → denotes_all b (take n ls) (λ v, take n (f v)).
Proof.
  intros [Hs Hf]. split; [by apply Forall_take|]. intros v Hv. by rewrite fmap_take, Hf.
Qed.

Lemma denotes_all_replicate b l f n : denotes b l f → denotes_all b (replicate n l) (λ v, replicate n (f v)).
Proof.
  intros [Hs Hf]. split; [by apply Forall_replicate|]. intros v Hv. by rewrite fmap_replicate, Hf.
Qed.

Lemma denotes_all_word b ls : srcs b ls → denotes_all b ls (λ v, word v ls).
Proof. apply denotes_all_self. Qed.

(** Links made one by one. *)
Lemma denotes_all_map {X} b (xs : list X) ls (g : valuation → X → bool) :
  Forall2 (λ x l, denotes b l (λ v, g v x)) xs ls → denotes_all b ls (λ v, g v <$> xs).
Proof.
  induction 1 as [|x l xs ls D _ IH]; [apply denotes_all_nil|].
  exact (denotes_all_cons b l ls (λ v, g v x) (λ v, g v <$> xs) D IH).
Qed.

(** The last link of a word. *)
Lemma denotes_back b ls f : denotes_all b ls f → 0 < length ls → (∀ v, length (f v) = length ls) →
  ∃ l, list.last ls = Some l ∧ denotes b l (λ v, msb (f v)).
Proof.
  intros D Hl Hf. destruct (lookup_lt_is_Some_2 ls (length ls - 1)) as [l E]; [lia|]. exists l.
  apply last_at in E. split; [done|]. eapply denotes_eq; [|eapply (denotes_last b ls f l (length ls - 1)); [done|done|lia]].
  intros v. unfold msb. by rewrite Hf.
Qed.
End Words.
