(* ===== verification/SynthArith.v ===== *)
(** * Addition, subtraction and negation
    ([gate/synthesizer/operation/addition.cpp, negation.cpp, utils.cpp])

    The routines of the arithmetic operations over [synthLadnerFisherAdd], with
    the numbers that the subnets they make compute. *)

From S2P Require Import Prelude CellType SubnetBase Builder BuilderInv BuilderSpec BuilderEval MakeSpec.
From S2P Require Import CellAttr Adder AdderSum AdderArith Synth.
From stdpp Require Import gmap strings.

(** ** Definitions *)

Section Routines.
Context `{TypeStore}.

(* gate/synthesizer/operation/addition.cpp:16-37 [synthAddS] *)
Definition synthAddS (attr : CellTypeAttr) : option Subnet := run_make (
  sizeA ← in_width attr 0; sizeB ← in_width attr 1; outSize ← out_width attr 0;
  inputsForA ← addInputs sizeA;
  inputsForB ← addInputs sizeB;
  inputsForA' ← (if sizeA <? sizeB then s ← back inputsForA; mret (resize_links sizeB s inputsForA)
                 else mret inputsForA);
  inputsForB' ← (if sizeB <? sizeA then s ← back inputsForB; mret (resize_links sizeA s inputsForB)
                 else mret inputsForB);
  r ← synthLadnerFisherAdd inputsForA' inputsForB' outSize true false;
  addOutputs r).

(* gate/synthesizer/operation/addition.cpp:39-52 [synthAddU] *)
Definition synthAddU (attr : CellTypeAttr) : option Subnet := run_make (
  sizeA ← in_width attr 0; sizeB ← in_width attr 1; outSize ← out_width attr 0;
  inputsForA ← addInputs sizeA;
  inputsForB ← addInputs sizeB;
  r ← synthLadnerFisherAdd inputsForA inputsForB outSize false false;
  addOutputs r).

(* gate/synthesizer/operation/addition.cpp:54-79 [synthSubS] *)
Definition synthSubS (attr : CellTypeAttr) : option Subnet := run_make (
  sizeA ← in_width attr 0; sizeB ← in_width attr 1; outSize ← out_width attr 0;
  inputsForA ← addInputs sizeA;
  inputsForB ← addInputs sizeB;
  let maxSize := max sizeA sizeB in
  sizes ← (if maxSize <? outSize then
             a ← back inputsForA; b ← back inputsForB;
             mret ((u16 (sizeA + 1), u16 (sizeB + 1), u16 (maxSize + 1)), (inputsForA ++ [a], inputsForB ++ [b]))
           else mret ((sizeA, sizeB, maxSize), (inputsForA, inputsForB)));
  let '((sizeA, sizeB, maxSize), (inputsForA, inputsForB)) := sizes in
  inputsForA ← (if sizeA <? sizeB then s ← back inputsForA; mret (resize_links sizeB s inputsForA)
                else mret inputsForA);
  inputsForB ← twosComplement inputsForB maxSize true;
  r ← synthLadnerFisherAdd inputsForA inputsForB outSize true false;
  addOutputs r).

(** The code adds the outputs twice. *)
(* gate/synthesizer/operation/addition.cpp:81-107 [synthSubU] *)
Definition synthSubU (attr : CellTypeAttr) : option Subnet := run_make (
  sizeA ← in_width attr 0; sizeB ← in_width attr 1; outSize ← out_width attr 0;
  inputsForA ← addInputs sizeA;
  inputsForB ← addInputs sizeB;
  let maxSize := max sizeA sizeB in
  let maxSize := if maxSize <? outSize then u16 (maxSize + 1) else maxSize in
  inputsForB ← twosComplement inputsForB maxSize false;
  r ← synthLadnerFisherAdd inputsForB inputsForA outSize true true;
  addOutputs r ;;
  r' ← synthLadnerFisherAdd inputsForB inputsForA outSize true true;
  addOutputs r').

(* gate/synthesizer/operation/negation.cpp:14-25 [synthNeg] *)
Definition synthNeg (attr : CellTypeAttr) (signExtend : bool) : option Subnet := run_make (
  wIn ← in_width attr 0; wOut ← out_width attr 0;
  inputs ← addInputs wIn;
  r ← twosComplement inputs wOut signExtend;
  addOutputs r).

(* gate/synthesizer/operation/negation.cpp:27-29 [synthNegS] *)
Definition synthNegS (attr : CellTypeAttr) : option Subnet := synthNeg attr true.
(* gate/synthesizer/operation/negation.cpp:31-33 [synthNegU] *)
Definition synthNegU (attr : CellTypeAttr) : option Subnet := synthNeg attr false.
End Routines.

(** A number of a word, read with or without sign. *)
Definition Z_of_word (signed : bool) (l : list bool) : Z :=
  if signed then Z_of_sbits l else Z_of_bits l.

(** ** Extended and inverted words *)

Lemma msb_app_replicate l x n : (0 < n)%nat → msb (l ++ replicate n x) = x.
Proof.
  intros Hn. unfold msb, bit. rewrite length_app, length_replicate, lookup_app_r by lia.
  by rewrite lookup_replicate_2 by lia.
Qed.

Open Scope Z_scope.

Lemma Z_of_bits_app_replicate l n x :
  Z_of_bits (l ++ replicate n x) =
    Z_of_bits l + Z.b2z x * (2 ^ Z.of_nat (length l + n) - 2 ^ Z.of_nat (length l)).
Proof.
  rewrite Z_of_bits_app, Z_of_bits_replicate, Nat2Z.inj_add, Z.pow_add_r by lia. ring.
Qed.

(** Sign extension keeps the number. *)
Lemma sign_extend_value l n : (0 < length l)%nat → Z_of_sbits (l ++ replicate n (msb l)) = Z_of_sbits l.
Proof.
  intros Hl. unfold Z_of_sbits. rewrite Z_of_bits_app_replicate, length_app, length_replicate.
  destruct n as [|n]; [rewrite app_nil_r, Nat.add_0_r; ring|]. rewrite msb_app_replicate by lia. ring.
Qed.

Lemma Z_of_nots l : Z_of_bits (negb <$> l) = 2 ^ Z.of_nat (length l) - 1 - Z_of_bits l.
Proof.
  induction l as [|x l IH]; [done|]. cbn [fmap list_fmap Z_of_bits length].
  rewrite IH, Nat2Z.inj_succ, Z.pow_succ_r by lia. destruct x; cbn [negb Z.b2z]; lia.
Qed.

(** The inverted and extended word of [twosComplement]. *)
Definition inverted_bits (x : list bool) (width : nat) (signExtend : bool) : list bool :=
  (negb <$> x) ++ replicate (width - length x) (if signExtend then msb (negb <$> x) else true).

Lemma msb_nots x : (0 < length x)%nat → msb (negb <$> x) = negb (msb x).
Proof.
  intros Hx. unfold msb, bit. rewrite length_fmap, list_lookup_fmap.
  by destruct (lookup_lt_is_Some_2 x (length x - 1)) as [b ->]; [lia|].
Qed.

Lemma inverted_value x width se : (0 < length x ≤ width)%nat →
  (Z_of_bits (inverted_bits x width se) + 1) mod 2 ^ Z.of_nat width = (- Z_of_word se x) mod 2 ^ Z.of_nat width.
Proof.
  intros Hx. unfold inverted_bits. rewrite Z_of_bits_app_replicate, Z_of_nots, length_fmap.
  replace (length x + (width - length x))%nat with width by lia. destruct se.
  - rewrite msb_nots by lia. unfold Z_of_word, Z_of_sbits.
    set (p := 2 ^ Z.of_nat (length x)). set (q := 2 ^ Z.of_nat width).
    destruct (msb x); cbn [negb Z.b2z].
    + f_equal. ring.
    + rewrite <- (Z_mod_plus_full (- _) 1). f_equal. ring.
  - cbn [Z.b2z Z_of_word]. rewrite <- (Z_mod_plus_full (- _) 1). f_equal. ring.
Qed.

Lemma Z_of_word_mod se x : Z_of_word se x mod 2 ^ Z.of_nat (length x) = Z_of_bits x.
Proof.
  pose proof (Z_of_bits_bound x). destruct se; cbn [Z_of_word]; [|by apply Z.mod_small].
  unfold Z_of_sbits. rewrite Z.mul_comm. rewrite <- Z.add_opp_r, <- Z.mul_opp_l, Z_mod_plus_full.
  by apply Z.mod_small.
Qed.

Lemma abs_value x : (0 < length x)%nat →
  (Z_of_bits ((λ y, xorb y (msb x)) <$> x) + Z_of_bits [msb x]) mod 2 ^ Z.of_nat (length x) =
  Z.abs (Z_of_sbits x) mod 2 ^ Z.of_nat (length x).
Proof.
  intros Hx. pose proof (Z_of_bits_bound x) as Hb. unfold Z_of_sbits. destruct (msb x) eqn:Em; cbn [Z_of_bits Z.b2z].
  - assert ((λ y, xorb y true) <$> x = negb <$> x) as -> by (apply list_fmap_ext; intros; apply xorb_true_r).
    rewrite Z_of_nots. f_equal. lia.
  - assert ((λ y, xorb y false) <$> x = x) as ->.
    { rewrite <- (list_fmap_id x) at 2. apply list_fmap_ext. intros. apply xorb_false_r. }
    f_equal. lia.
Qed.

Close Scope Z_scope.

(** ** The routines on words *)

Section Specs.
Context `{TypeStore}.

Lemma twosComplement_spec word width se b ins outs :
  wf b ins outs → srcs b word → 0 < length word → 0 < width < 2 ^ 15 →
  adds ins outs b (twosComplement word width se) (λ b' r,
    denotes_all b' r (λ v, bits_of width (- Z_of_word se (take width (AdderSum.word v word))))).
Proof.
  intros Hw Hs Hl Hwd. unfold twosComplement. set (size := min (length word) width).
  assert (0 < size) as Hsz by lia.
  eapply adds_assert_bind; [by destruct size; [lia|]|].
  eapply adds_bind; [by apply add_one|]. intros one b1 Hw1 He1 D1.
  pose proof (denotes_all_word b1 word (srcs_ext _ _ _ He1 Hs)) as Dw.
  pose proof (denotes_all_nots _ _ _ (denotes_all_take _ _ _ size Dw)) as Di.
  set (inverted := link_not <$> take size word) in *.
  assert (length inverted = size) as Li by (unfold inverted; rewrite length_fmap, length_take; lia).
  assert (∀ v, length (negb <$> take size (AdderSum.word v word)) = size) as Lb.
  { intros v. rewrite length_fmap, length_take, word_length. lia. }
  destruct (denotes_back b1 inverted _ Di) as (l & El & Dl); [lia|by intros v; rewrite Lb, Li|].
  assert (adds ins outs b1 (if se then back inverted else mret one)
    (λ b' l, b' = b1 ∧ denotes b1 l (λ v, if se then msb (negb <$> take size (AdderSum.word v word)) else true))) as Hbit.
  { destruct se; [|by apply adds_ret]. exists l, b1. split; [unfold back, st_read; by rewrite El|by split]. }
  eapply adds_bind; [exact Hbit|]. intros bit b2 _ _ [-> Db].
  pose proof (denotes_all_app _ _ _ _ _ Di (denotes_all_replicate _ _ _ (width - size) Db)) as Dx.
  set (x := inverted ++ _) in *.
  assert (2 ^ 15 < 2 ^ 16) by (apply Nat.pow_lt_mono_r; lia).
  assert (length x = width) as Lx by (unfold x; rewrite length_app, length_replicate; lia).
  eapply adds_mono; [apply adder_spec; [done|apply Dx| |rewrite Lx; lia|cbn [length]; lia|lia]|].
  { constructor; [apply D1|constructor]. }
  intros r b3 He3 [Hsr Dr]. split; [done|]. intros v Hv. rewrite Dr by done.
  pose proof (consistent_ext _ _ _ He3 Hv) as Hv1.
  apply bits_of_eq; [apply add_words_length|].
  rewrite add_words_low by (rewrite !word_length; cbn [length]; lia).
  unfold AdderSum.word at 1 2. rewrite (proj2 Dx v Hv1). cbn [fmap list_fmap]. rewrite (proj2 D1 v Hv1).
  set (y := take size (AdderSum.word v word)).
  assert (length y = size) as Ly by (unfold y; rewrite length_take, word_length; lia).
  assert (take width (AdderSum.word v word) = y) as ->.
  { unfold y, size. destruct (decide (length word ≤ width)).
    - rewrite !take_ge; [done|rewrite word_length; lia..].
    - f_equal. lia. }
  rewrite <- inverted_value by lia. unfold inverted_bits. by rewrite Ly.
Qed.

Lemma absoluteValue_spec word b ins outs :
  wf b ins outs → srcs b word → 0 < length word < 2 ^ 15 →
  adds ins outs b (absoluteValue word) (λ b' r,
    denotes_all b' r (λ v, bits_of (length word) (Z.abs (Z_of_sbits (AdderSum.word v word))))).
Proof.
  intros Hw Hs Hl. unfold absoluteValue. pose proof (denotes_all_word b word Hs) as Dw.
  destruct (denotes_back b word _ Dw) as (sg & Es & Ds); [lia|intros v; apply word_length|].
  eapply adds_read_bind; [exact Es|].
  eapply adds_bind.
  { apply (adds_map ins outs _ (λ b' l k, denotes b' k (λ v, xorb (lval v l) (msb (AdderSum.word v word))))).
    - intros b1 b2 l k He Hk. eapply denotes_ext; [exact He|exact Hk].
    - done.
    - intros l b1 Hin Hw1 He1. unfold srcs in Hs. rewrite list.Forall_forall in Hs.
      apply add_xor; [done|apply denotes_self; eapply src_ext; [exact He1|by apply Hs]|].
      eapply denotes_ext; [exact He1|exact Ds]. }
  intros temp b1 Hw1 He1 HF.
  assert (denotes_all b1 temp (λ v, (λ x, xorb x (msb (AdderSum.word v word))) <$> AdderSum.word v word)) as Dt.
  { eapply denotes_all_eq; [|apply (denotes_all_map b1 word temp
      (λ v l, xorb (lval v l) (msb (AdderSum.word v word)))); exact HF].
    intros v. unfold AdderSum.word at 3. by rewrite <- list_fmap_compose. }
  assert (length temp = length word) as Lt by by apply Forall2_length in HF.
  assert (2 ^ 15 < 2 ^ 16) by (apply Nat.pow_lt_mono_r; lia).
  pose proof (denotes_ext _ _ _ _ He1 Ds) as Ds1.
  eapply adds_mono; [apply adder_spec; [done|apply Dt| |rewrite Lt; lia|cbn [length]; lia|lia]|].
  { constructor; [apply Ds1|constructor]. }
  intros r b2 He2 [Hsr Dr]. split; [done|]. intros v Hv. rewrite Dr by done.
  pose proof (consistent_ext _ _ _ He2 Hv) as Hv1.
  apply bits_of_eq; [apply add_words_length|].
  rewrite add_words_low by (rewrite !word_length; cbn [length]; lia).
  unfold AdderSum.word at 1 2. rewrite (proj2 Dt v Hv1). cbn [fmap list_fmap]. rewrite (proj2 Ds1 v Hv1).
  rewrite <- (word_length v word). apply abs_value. rewrite word_length. lia.
Qed.

(** Sign extension of an operand to [n] links. *)
Definition sext (x : list bool) (n : nat) : list bool := x ++ replicate (n - length x) (msb x).

Lemma sext_spec x n b ins outs : wf b ins outs → srcs b x → 0 < length x →
  ∃ r, (if length x <? n then s ← back x; mret (resize_links n s x) else mret x) b = Some (r, b) ∧
    srcs b r ∧ length r = max n (length x) ∧ ∀ v, AdderSum.word v r = sext (AdderSum.word v x) n.
Proof.
  intros Hw Hs Hl. destruct (Nat.ltb_spec (length x) n) as [Hlt|Hge].
  - destruct (lookup_lt_is_Some_2 x (length x - 1)) as [l E]; [lia|]. apply last_at in E as El.
    exists (resize_links n l x). unfold back, st_read. unfold mbind, st_bind. rewrite El.
    split; [done|]. unfold resize_links. rewrite take_ge by lia. split_all.
    + apply Forall_app. split; [done|]. apply Forall_replicate. by eapply src_at.
    + rewrite length_app, length_replicate. lia.
    + intros v. unfold sext, AdderSum.word. rewrite fmap_app, fmap_replicate, length_fmap. f_equal. f_equal.
      unfold msb. rewrite length_fmap. symmetry. by apply (bit_word v x _ l).
  - exists x. split_all; [done|done|lia|]. intros v. unfold sext. rewrite word_length.
    replace (n - length x) with 0 by lia. by rewrite app_nil_r.
Qed.

Lemma sext_value x n : 0 < length x → Z_of_sbits (sext x n) = Z_of_sbits x.
Proof. apply sign_extend_value. Qed.

Lemma sext_length x n : length (sext x n) = max n (length x).
Proof. unfold sext. rewrite length_app, length_replicate. lia. Qed.

Lemma wp_run {A B} (m : st SubnetBuilder A) (k : A → st SubnetBuilder B) b a Q :
  m b = Some (a, b) → wp (k a) b Q → wp (m ≫= k) b Q.
Proof. intros Hm HQ. apply wp_bind. by exists a, b. Qed.
End Specs.

(** ** Numbers in two's complement *)

Lemma Z_of_sbits_bound x : 0 < length x →
  (- 2 ^ (Z.of_nat (length x) - 1) ≤ Z_of_sbits x < 2 ^ (Z.of_nat (length x) - 1))%Z.
Proof.
  intros Hx. unfold Z_of_sbits, msb, bit. destruct x as [|y x _] using rev_ind; [cbn in Hx; lia|].
  rewrite length_app, lookup_app_r, Z_of_bits_snoc by (cbn; lia). cbn [length].
  replace (length x + 1 - 1 - length x) with 0 by lia. cbn [lookup list_lookup default from_option id].
  pose proof (Z_of_bits_bound x) as Hb. rewrite Nat2Z.inj_add. 
  replace (Z.of_nat (length x) + Z.of_nat 1 - 1)%Z with (Z.of_nat (length x)) by lia.
  rewrite Z.pow_add_r by lia. change (2 ^ Z.of_nat 1)%Z with 2%Z. destruct y; cbn [Z.b2z]; lia.
Qed.

Lemma Z_of_sbits_small x z : 0 < length x → Z_of_bits x = (z mod 2 ^ Z.of_nat (length x))%Z →
  (- 2 ^ (Z.of_nat (length x) - 1) ≤ z < 2 ^ (Z.of_nat (length x) - 1))%Z → Z_of_sbits x = z.
Proof.
  intros Hx Hz Hr. pose proof (Z_of_sbits_bound x Hx) as Hb. unfold Z_of_sbits in *.
  assert (2 ^ Z.of_nat (length x) = 2 * 2 ^ (Z.of_nat (length x) - 1))%Z as E.
  { rewrite <- Z.pow_succ_r by lia. f_equal. lia. }
  set (p := (2 ^ Z.of_nat (length x))%Z) in *. set (q := (2 ^ (Z.of_nat (length x) - 1))%Z) in *.
  assert (0 < p)%Z by (unfold p; lia). rewrite Hz in *.
  pose proof (Z.div_mod z p ltac:(lia)) as Ez. set (m := (z mod p)%Z) in *. set (k := (z / p)%Z) in *.
  assert (m - p * Z.b2z (msb x) - z = p * (- k - Z.b2z (msb x)))%Z as Ed by lia.
  assert (- k - Z.b2z (msb x) = 0)%Z as E0 by nia. rewrite E0 in Ed. lia.
Qed.

(** Reduction modulo a larger power of two. *)
Lemma bits_of_small n m z z' : n ≤ m → (z' = z mod 2 ^ Z.of_nat m)%Z → bits_of n z' = bits_of n z.
Proof.
  intros Hn ->. symmetry. apply bits_of_eq; [apply bits_of_length|]. rewrite Z_of_bits_of.
  symmetry. apply Z.mod_mod_divide. exists (2 ^ (Z.of_nat m - Z.of_nat n))%Z.
  rewrite <- Z.pow_add_r by lia. f_equal. lia.
Qed.

Lemma sbits_congr l z k : k ≤ length l → Z_of_bits l = (z mod 2 ^ Z.of_nat (length l))%Z →
  (Z_of_sbits l mod 2 ^ Z.of_nat k = z mod 2 ^ Z.of_nat k)%Z.
Proof.
  intros Hk Hz. assert ((2 ^ Z.of_nat k | 2 ^ Z.of_nat (length l)))%Z as Hd.
  { exists (2 ^ (Z.of_nat (length l) - Z.of_nat k))%Z. rewrite <- Z.pow_add_r by lia. f_equal. lia. }
  rewrite <- (Z.mod_mod_divide z _ _ Hd), <- Hz, <- (Z.mod_mod_divide (Z_of_sbits l) _ _ Hd).
  f_equal. apply (Z_of_word_mod true).
Qed.

(** The sum with a negated word is the difference, when the negated word has
    one bit more than needed or the result is not wider. *)
Lemma sub_value x y m out : length x = m → 0 < length y ≤ m → 0 < m →
  (length y < m ∨ out ≤ m) →
  Z_of_bits (add_words x (bits_of m (- Z_of_sbits y)) out true false) =
    ((Z_of_sbits x - Z_of_sbits y) mod 2 ^ Z.of_nat out)%Z.
Proof.
  intros Hx Hy Hm Hc. rewrite add_words_signed by (rewrite ?bits_of_length; lia).
  set (w := bits_of m (- Z_of_sbits y)).
  assert (length w = m) as Lw by apply bits_of_length.
  assert (Z_of_bits w = (- Z_of_sbits y) mod 2 ^ Z.of_nat (length w))%Z as Hw by (rewrite Lw; apply Z_of_bits_of).
  destruct Hc as [Hc|Hc].
  - rewrite (Z_of_sbits_small w (- Z_of_sbits y)); [done|lia|done|].
    rewrite Lw. pose proof (Z_of_sbits_bound y ltac:(lia)) as Hb.
    assert (2 * 2 ^ (Z.of_nat (length y) - 1) ≤ 2 ^ (Z.of_nat m - 1))%Z.
    { rewrite <- Z.pow_succ_r by lia. apply Z.pow_le_mono_r; lia. }
    assert (0 < 2 ^ (Z.of_nat (length y) - 1))%Z by lia. lia.
  - rewrite Z.add_mod, (sbits_congr w _ out) by (lia || done). by rewrite <- Z.add_mod by lia.
Qed.

(** The difference of unsigned numbers: the sum with the complement, extended
    with its sign. *)
Lemma usub_value x y m out : length y < m ∨ (out ≤ m ∧ length y ≤ m) → length x ≤ m → length x < m ∨ out ≤ m → 0 < m →
  Z_of_bits (add_words (bits_of m (- Z_of_bits y)) x out true true) =
    ((Z_of_bits x - Z_of_bits y) mod 2 ^ Z.of_nat out)%Z.
Proof.
  intros Hy Hx Hc Hm. set (w := bits_of m (- Z_of_bits y)).
  assert (length w = m) as Lw by apply bits_of_length.
  unfold add_words, longer_first. rewrite (proj2 (Nat.ltb_ge _ _)) by lia.
  rewrite adder_bits_sub by lia. set (l := low_sum w x (length w)).
  assert (length l = m) as Ll by (unfold l; by rewrite low_sum_length).
  assert (Z_of_bits l = (Z_of_bits x - Z_of_bits y) mod 2 ^ Z.of_nat (length l))%Z as El.
  { unfold l at 1. rewrite low_sum_value, Lw, Ll. unfold w. rewrite Z_of_bits_of.
    rewrite Z.add_mod_idemp_l by lia. f_equal. lia. }
  destruct (decide (out ≤ m)) as [Ho|Ho]; [apply sbits_congr; [lia|done]|].
  rewrite (Z_of_sbits_small l (Z_of_bits x - Z_of_bits y)); [done|lia|done|].
  pose proof (Z_of_bits_bound x). pose proof (Z_of_bits_bound y). rewrite Ll.
  assert (2 ^ Z.of_nat (length x) ≤ 2 ^ (Z.of_nat m - 1))%Z by (apply Z.pow_le_mono_r; lia).
  assert (2 ^ Z.of_nat (length y) ≤ 2 ^ (Z.of_nat m - 1))%Z by (apply Z.pow_le_mono_r; lia).
  lia.
Qed.

(** ** The subnets *)

Section Subnets.
Context `{TypeStore}.
Context (attr : CellTypeAttr) (wA wB wO : N).
Context (HA : getInWidth attr 0 = Some wA) (HB : getInWidth attr 1 = Some wB).
Context (HO : getOutWidth attr 0 = Some wO).
Context (RA : 0 < N.to_nat wA < 2 ^ 14) (RB : 0 < N.to_nat wB < 2 ^ 14) (RO : 0 < N.to_nat wO < 2 ^ 14).

Let nA := N.to_nat wA.
Let nB := N.to_nat wB.
Let nO := N.to_nat wO.

Lemma range_adder n : n < 2 ^ 14 → n + 1 < 2 ^ 15 ∧ n + 1 < 2 ^ 16.
Proof.
  change (2 ^ 16) with (4 * 2 ^ 14). change (2 ^ 15) with (2 * 2 ^ 14).
  assert (1 < 2 ^ 14) by (apply Nat.pow_gt_1; lia). lia.
Qed.

(** The subnet of the unsigned addition exists and computes the sum of the two
    unsigned operands modulo two to the width of the result (widths below [2 ^ 14]). *)
Theorem synthAddU_spec : ∃ s, synthAddU attr = Some s ∧
  implements s (nA + nB) (λ xs, bits_of nO (Z_of_bits (take nA xs) + Z_of_bits (drop nA xs))).
Proof.
  destruct (range_adder _ (proj2 RA)), (range_adder _ (proj2 RB)), (range_adder _ (proj2 RO)).
  apply run_implements. eapply wp_in_width; [exact HA|]. eapply wp_in_width; [exact HB|].
  eapply wp_out_width; [exact HO|]. fold nA nB nO. eapply wp_two_inputs; [apply RA|apply RB|].
  intros x y b ins Hw He Hn Hx Hy Lx Ly Vx Vy. eapply wp_adds; [done|apply adder_spec; [done|done|done|lia..]|].
  intros r b' Hw' He' _ D. eapply (wp_finish b' ins r _ nO); [done|done|done|exact D|lia| |].
  - intros v. apply add_words_length.
  - intros v. rewrite <- Vx, <- Vy. apply bits_of_eq; [apply add_words_length|]. apply add_words_unsigned.
Qed.

Ltac start_two :=
  destruct (range_adder _ (proj2 RA)), (range_adder _ (proj2 RB)), (range_adder _ (proj2 RO));
  apply run_implements; (eapply wp_in_width; [exact HA|]); (eapply wp_in_width; [exact HB|]);
  (eapply wp_out_width; [exact HO|]); fold nA nB nO; (eapply wp_two_inputs; [apply RA|apply RB|]);
  intros x y b ins Hw He Hn Hx Hy Lx Ly Vx Vy.

(** The subnet of the signed addition computes the sum of the operands in
    two's complement, of any widths, modulo two to the width of the result. *)
Theorem synthAddS_spec : ∃ s, synthAddS attr = Some s ∧
  implements s (nA + nB) (λ xs, bits_of nO (Z_of_sbits (take nA xs) + Z_of_sbits (drop nA xs))).
Proof.
  start_two.
  destruct (sext_spec x nB b ins [] Hw Hx) as (x' & Ex & Hx' & Lx' & Vx'); [lia|].
  destruct (sext_spec y nA b ins [] Hw Hy) as (y' & Ey & Hy' & Ly' & Vy'); [lia|].
  rewrite Lx in Ex, Lx'. rewrite Ly in Ey, Ly'. eapply wp_run; [exact Ex|]. eapply wp_run; [exact Ey|].
  eapply wp_adds; [done|apply adder_spec; [done|done|done|lia..]|].
  intros r b' Hw' He' _ D. eapply (wp_finish b' ins r _ nO); [done|done|done|exact D|lia| |].
  - intros v. apply add_words_length.
  - intros v. rewrite <- Vx, <- Vy. apply bits_of_eq; [apply add_words_length|]. rewrite Vx', Vy'.
    rewrite add_words_signed by (rewrite !sext_length, !word_length; lia).
    rewrite !sext_value by (rewrite word_length; lia). done.
Qed.


Lemma widen_one (x : LinkList) b0 : srcs b0 x → 0 < length x → ∃ l, list.last x = Some l ∧
  srcs b0 (x ++ [l]) ∧ length (x ++ [l]) = length x + 1 ∧
  ∀ v, word v (x ++ [l]) = sext (word v x) (length x + 1).
Proof.
  intros Hx Hl. destruct (lookup_lt_is_Some_2 x (length x - 1)) as [l E]; [lia|]. exists l.
  split_all; [by apply last_at| |by rewrite length_app|].
  - apply Forall_app. split; [done|]. constructor; [by eapply src_at|constructor].
  - intros v. unfold sext, word. rewrite fmap_app, length_fmap. cbn. replace (length x + 1 - length x) with 1 by lia.
    cbn. f_equal. f_equal. unfold msb. rewrite length_fmap. symmetry. by apply (bit_word v x _ l).
Qed.

Lemma sext_id (l : list bool) n : n ≤ length l → sext l n = l.
Proof. intros Hn. unfold sext. replace (n - length l) with 0 by lia. by rewrite app_nil_r. Qed.

(** The subnet of the signed subtraction computes the difference of the
    operands in two's complement modulo two to the width of the result. *)
Theorem synthSubS_spec : ∃ s, synthSubS attr = Some s ∧
  implements s (nA + nB) (λ xs, bits_of nO (Z_of_sbits (take nA xs) - Z_of_sbits (drop nA xs))).
Proof.
  start_two.
  set (m0 := max nA nB). set (d := if m0 <? nO then 1 else 0).
  assert (∃ x1 y1, (if m0 <? nO then a ← back x; b ← back y;
      mret ((u16 (nA + 1), u16 (nB + 1), u16 (m0 + 1)), (x ++ [a], y ++ [b]))
    else mret ((nA, nB, m0), (x, y))) b = Some ((nA + d, nB + d, m0 + d, (x1, y1)), b) ∧
    srcs b x1 ∧ srcs b y1 ∧ length x1 = nA + d ∧ length y1 = nB + d ∧
    (∀ v, word v x1 = sext (word v x) (nA + d)) ∧ ∀ v, word v y1 = sext (word v y) (nB + d)) as
    (x1 & y1 & E1 & Hx1 & Hy1 & Lx1 & Ly1 & Vx1 & Vy1).
  { unfold d. destruct (Nat.ltb_spec m0 nO) as [Hlt|Hge].
    - destruct (widen_one x b Hx) as (l & El & S1 & S2 & S3); [lia|].
      destruct (widen_one y b Hy) as (k & Ek & T1 & T2 & T3); [lia|].
      exists (x ++ [l]), (y ++ [k]). unfold back, st_read. unfold mbind, st_bind. rewrite El, Ek.
      rewrite !u16_small by lia. split_all; try done; try (rewrite S2 || rewrite T2; lia); intros v; rewrite ?S3, ?T3; by rewrite ?Lx, ?Ly.
    - exists x, y. rewrite !Nat.add_0_r. split_all; try done; intros v; symmetry; apply sext_id; rewrite word_length; lia. }
  eapply wp_run; [exact E1|]. cbn beta iota.
  destruct (sext_spec x1 (nB + d) b ins [] Hw Hx1) as (x2 & Ex & Hx2 & Lx2 & Vx2); [lia|].
  rewrite Lx1 in Ex, Lx2. eapply wp_run; [exact Ex|].
  assert (d ≤ 1) by (unfold d; destruct (m0 <? nO); lia).
  eapply wp_adds; [done|apply twosComplement_spec; [done|done|lia|lia]|].
  intros y2 b' Hw' He' He'' Dy.
  assert (length y2 = m0 + d) as Ly2.
  { eapply (denotes_all_length b' ins []); [done|exact Dy|]. intros v. apply bits_of_length. }
  eapply wp_adds; [done|apply adder_spec; [done|by eapply srcs_ext|apply Dy|lia..]|].
  intros r b2 Hw2 He2 He3 D.
  assert (denotes_all b2 r (λ v, bits_of nO (Z_of_sbits (word v x) - Z_of_sbits (word v y)))) as D'.
  { destruct D as [Hs D]. split; [done|]. intros v Hv. rewrite D by done.
    apply bits_of_eq; [apply add_words_length|].
    unfold word at 2. rewrite (proj2 Dy v) by by eapply consistent_ext.
    rewrite take_ge by (rewrite word_length; lia). cbn [Z_of_word].
    assert (Z_of_sbits (word v y1) = Z_of_sbits (word v y)) as ->.
    { rewrite Vy1. apply sext_value. rewrite word_length. lia. }
    rewrite sub_value; rewrite ?word_length; [|lia..|].
    - rewrite Vx2, Vx1, !sext_value; [done|rewrite ?sext_length, word_length; lia..].
    - rewrite Ly. unfold d. destruct (Nat.ltb_spec m0 nO); [left|right]; lia. }
  eapply (wp_finish b2 ins r _ nO); [done|done|done|exact D'|lia| |].
  - intros v. apply bits_of_length.
  - intros v. by rewrite <- Vx, <- Vy.
Qed.

(** The outputs of an unsigned subtraction are added twice. *)
Lemma usub_outputs x y k b ins f : wf b ins [] → ext empty_builder b → srcs b x → srcs b y →
  0 < length x < 2 ^ 15 → 0 < length y < 2 ^ 15 → 0 < nO → length ins = k →
  (∀ v, consistent v b → add_words (word v x) (word v y) nO true true = f ((λ i, v i 0) <$> ins)) →
  wp (r ← synthLadnerFisherAdd x y nO true true; addOutputs r ;;
      r' ← synthLadnerFisherAdd x y nO true true; addOutputs r') b (finished k (λ l, f l ++ f l)).
Proof.
  destruct (range_adder _ (proj2 RO)) as [_ R]. fold nO in R. intros Hw He Hx Hy Lx Ly Ho Hk Hf.
  eapply wp_adds; [exact He|apply adder_spec; [done|done|done|lia..]|]. intros r b1 Hw1 He1 E1 D1.
  apply wp_bind. eapply wp_mono; [apply emits_outputs; [by apply emits_nil|exact D1]|].
  intros [] b2 (os & M2 & E2). cbn [app] in M2.
  assert (ext b b2) as E12 by by etransitivity.
  apply wp_bind. eapply wp_mono.
  { eapply emits_adds; [exact M2|].
    apply (adder_spec x y nO true true b2 ins os); [apply M2|by eapply srcs_ext|by eapply srcs_ext|lia..]. }
  intros r' b3 (M3 & E3 & D3).
  eapply wp_mono; [apply emits_outputs; [exact M3|exact D3]|]. intros [] b4 (os' & M4 & E4).
  eapply (emits_finish b4 ins _ k (nO + nO)); [exact M4|done|lia| |].
  - intros v. cbn. by rewrite length_app, !add_words_length.
  - intros v Hv. cbn. rewrite !Hf; [done|].
    do 2 (eapply consistent_ext; [eassumption|]). by eapply consistent_ext.
Qed.

(** The subnet of the unsigned subtraction computes the difference modulo two
    to the width of the result, but twice: it has two copies of the outputs. *)
Theorem synthSubU_spec : ∃ s, synthSubU attr = Some s ∧
  implements s (nA + nB) (λ xs,
    let d := bits_of nO (Z_of_bits (take nA xs) - Z_of_bits (drop nA xs)) in d ++ d).
Proof.
  start_two. set (m0 := max nA nB).
  set (m := if m0 <? nO then u16 (m0 + 1) else m0).
  assert (m = if m0 <? nO then m0 + 1 else m0) as Em.
  { unfold m. destruct (m0 <? nO); [apply u16_small; lia|done]. }
  assert (m0 ≤ m < 2 ^ 15) as Hm by (rewrite Em; destruct (m0 <? nO); lia).
  eapply wp_adds; [done|apply twosComplement_spec; [done|done|lia|lia]|].
  intros y2 b' Hw' He' He'' Dy.
  assert (length y2 = m) as Ly2.
  { eapply (denotes_all_length b' ins []); [done|exact Dy|]. intros v. apply bits_of_length. }
  apply (usub_outputs y2 x (nA + nB) b' ins
    (λ xs, bits_of nO (Z_of_bits (take nA xs) - Z_of_bits (drop nA xs)))); [done|done|apply Dy|by eapply srcs_ext|lia|lia|lia|done|].
  intros v Hv. unfold word at 1. rewrite (proj2 Dy v Hv).
  rewrite take_ge by (rewrite word_length; lia). cbn [Z_of_word].
  apply bits_of_eq; [apply add_words_length|]. rewrite <- Vx, <- Vy.
  apply usub_value; rewrite ?word_length; rewrite Em; destruct (Nat.ltb_spec m0 nO); lia.
Qed.
End Subnets.

Section Negation.
Context `{TypeStore}.
Context (attr : CellTypeAttr) (wA wO : N) (signed : bool).
Context (HA : getInWidth attr 0 = Some wA) (HO : getOutWidth attr 0 = Some wO).
Context (RA : 0 < N.to_nat wA) (RO : 0 < N.to_nat wO < 2 ^ 15).

(** The subnet of the negation computes minus the operand, read with or
    without sign and cut to the width of the result. *)
Theorem synthNeg_spec : ∃ s, synthNeg attr signed = Some s ∧
  implements s (N.to_nat wA) (λ xs, bits_of (N.to_nat wO) (- Z_of_word signed (take (N.to_nat wO) xs))).
Proof.
  apply run_implements. eapply wp_in_width; [exact HA|]. eapply wp_out_width; [exact HO|].
  eapply wp_one_input; [apply RA|]. intros x b ins Hw He Hn Hx Lx Vx.
  eapply wp_adds; [done|apply twosComplement_spec; [done|done|lia|lia]|]. intros r b' Hw' He' _ D.
  eapply (wp_finish b' ins r _ (N.to_nat wO)); [done|done|done|exact D|lia| |].
  - intros v. apply bits_of_length.
  - intros v. by rewrite <- Vx.
Qed.
End Negation.

(** ** Witnesses *)

Definition attr_of (ins outs : list nat) : CellTypeAttr :=
  default (mkAttr [] 0 0) (CellTypeAttr_widths (N.of_nat <$> ins) (N.of_nat <$> outs)).

Lemma width_lt n k : 0 < n → n ≤ k → 0 < n < 2 ^ k.
Proof. intros Hn Hk. pose proof (Nat.pow_gt_lin_r 2 k). lia. Qed.

Section Witnesses.
#[local] Instance witness_types : TypeStore := λ _, None.

Lemma synthAddU_spec_witness : ∃ s, synthAddU (attr_of [3; 2] [4]) = Some s ∧
  implements s 5 (λ xs, bits_of 4 (Z_of_bits (take 3 xs) + Z_of_bits (drop 3 xs))).
Proof. apply (synthAddU_spec (attr_of [3; 2] [4]) 3%N 2%N 4%N eq_refl eq_refl eq_refl); apply width_lt; lia. Defined.

Lemma synthAddS_spec_witness : ∃ s, synthAddS (attr_of [2; 3] [4]) = Some s ∧
  implements s 5 (λ xs, bits_of 4 (Z_of_sbits (take 2 xs) + Z_of_sbits (drop 2 xs))).
Proof. apply (synthAddS_spec (attr_of [2; 3] [4]) 2%N 3%N 4%N eq_refl eq_refl eq_refl); apply width_lt; lia. Defined.

Lemma synthSubS_spec_witness : ∃ s, synthSubS (attr_of [2; 3] [5]) = Some s ∧
  implements s 5 (λ xs, bits_of 5 (Z_of_sbits (take 2 xs) - Z_of_sbits (drop 2 xs))).
Proof. apply (synthSubS_spec (attr_of [2; 3] [5]) 2%N 3%N 5%N eq_refl eq_refl eq_refl); apply width_lt; lia. Defined.

Lemma synthSubU_spec_witness : ∃ s, synthSubU (attr_of [2; 2] [2]) = Some s ∧
  implements s 4 (λ xs, let d := bits_of 2 (Z_of_bits (take 2 xs) - Z_of_bits (drop 2 xs)) in d ++ d).
Proof. apply (synthSubU_spec (attr_of [2; 2] [2]) 2%N 2%N 2%N eq_refl eq_refl eq_refl); apply width_lt; lia. Defined.

Lemma synthNeg_spec_witness : ∃ s, synthNeg (attr_of [3] [5]) true = Some s ∧
  implements s 3 (λ xs, bits_of 5 (- Z_of_word true (take 5 xs))).
Proof.
  apply (synthNeg_spec (attr_of [3] [5]) 3%N 5%N true eq_refl eq_refl); [lia|apply width_lt; lia].
Defined.
End Witnesses.
