(* ===== verification/Strash.v ===== *)
(** * Structural hashing ([gate/model/subnet.h] StrashKey, [gate/model/subnet.cpp] strashEntry)

    A cell that has been added is found again: the key does not depend on the
    order of the links of a commutative cell, the map keeps its entries while
    cells are added, and an entry that is found leaves the builder unchanged. *)

From S2P Require Import Prelude CellType SubnetBase Builder Order BuilderInv BuilderAdd BuilderAlloc.
From stdpp Require Import gmap sorting.

(** ** The sorted links of a key *)

Definition link_le (x y : Link) : Prop := link_lt y x = false.

Lemma link_lt_spec x y : link_lt x y = true ↔
  idx x < idx y ∨ idx x = idx y ∧ (out x < out y ∨ out x = out y ∧ inv x = false ∧ inv y = true).
Proof.
  unfold link_lt. destruct (Nat.eqb_spec (idx x) (idx y)) as [E|E]; cbn [negb].
  2: { rewrite Nat.ltb_lt. lia. }
  destruct (Nat.eqb_spec (out x) (out y)) as [E'|E']; cbn [negb].
  2: { rewrite Nat.ltb_lt. lia. }
  rewrite andb_true_iff, negb_true_iff. intuition lia.
Qed.

#[local] Instance link_le_trans : Transitive link_le.
Proof.
  intros x y z Hxy Hyz. unfold link_le in *. apply not_true_iff_false. apply not_true_iff_false in Hxy, Hyz.
  rewrite link_lt_spec in *. destruct (inv x), (inv y), (inv z); intuition (try congruence; lia).
Qed.

#[local] Instance link_le_antisymm : AntiSymm (=) link_le.
Proof.
  intros [i o v] [i' o' v'] Hxy Hyx. unfold link_le in *. apply not_true_iff_false in Hxy, Hyx.
  rewrite link_lt_spec in *. cbn in *.
  assert (i = i') as <- by lia. assert (o = o') as <- by lia. f_equal.
  destruct v, v'; try done; exfalso; intuition lia.
Qed.

Lemma link_le_total x y : link_lt x y = true → link_le x y.
Proof.
  unfold link_le. intros H. apply not_true_iff_false. rewrite link_lt_spec in *.
  destruct (inv x), (inv y); intuition (try congruence; lia).
Qed.

Lemma insert_link_sorted x ls : Sorted link_le ls → Sorted link_le (insert_link x ls).
Proof.
  induction ls as [|y ls IH]; intros Hs; cbn; [repeat constructor|].
  destruct (link_lt y x) eqn:E.
  - inversion Hs as [|? ? Hs' Hd]; subst. constructor; [auto|].
    destruct ls as [|z ls]; cbn; [constructor; by apply link_le_total|].
    destruct (link_lt z x); constructor; [by inversion Hd|by apply link_le_total].
  - constructor; [done|]. constructor. exact E.
Qed.

Lemma sort_links_sorted ls : Sorted link_le (sort_links ls).
Proof. induction ls; cbn; [constructor|]. by apply insert_link_sorted. Qed.

(** Sorting forgets the order of the links. *)
Lemma sort_links_unique ls ls' : ls ≡ₚ ls' → sort_links ls = sort_links ls'.
Proof.
  intros Hp. apply (Sorted_unique link_le); [apply sort_links_sorted..|].
  by rewrite !sort_links_perm.
Qed.

(** ** The map of the builder *)

(** Updates of the builder that leave the map of structural hashing alone. *)
Definition keeps_strash (f : SubnetBuilder → option SubnetBuilder) : Prop :=
  ∀ b b', f b = Some b' → strash b' = strash b.

Ltac unbind H :=
  repeat match type of H with
  | (?m ≫= _) = Some _ => let E := fresh "E" in destruct m eqn:E; cbn [mbind option_bind] in H; [|done]
  | (match ?m with _ => _ end) = Some _ => let E := fresh "E" in destruct m eqn:E; try done
  end.

Lemma upd_desc_strash i f : keeps_strash (upd_desc i f).
Proof. intros b b' H. unfold upd_desc in H. unbind H. by injection H as <-. Qed.

Lemma upd_cell_strash i f : keeps_strash (upd_cell i f).
Proof. intros b b' H. unfold upd_cell in H. unbind H. by injection H as <-. Qed.

Lemma addFanout_strash i j : keeps_strash (addFanout i j).
Proof. intros b b' H. unfold addFanout in H. cbn zeta in H. unbind H; by injection H as <-. Qed.

Lemma setOrder_prev_strash x y : keeps_strash (setOrder_prev x y).
Proof.
  intros b b' H. unfold setOrder_prev in H. unbind H; try by injection H as <-.
  by rewrite (upd_desc_strash _ _ _ _ H).
Qed.

Lemma setOrder_next_strash x y : keeps_strash (setOrder_next x y).
Proof.
  intros b b' H. unfold setOrder_next in H. unbind H; try by injection H as <-.
  by rewrite (upd_desc_strash _ _ _ _ H).
Qed.

Lemma setOrder_strash x y : keeps_strash (setOrder x y).
Proof.
  intros b b' H. unfold setOrder in H. cbn zeta in H. destruct (order_args_ok x y); [|done].
  destruct (decide _); [by injection H as <-|].
  destruct (setOrder_prev _ _ _) as [b1|] eqn:E; cbn [mbind option_bind] in H; [|done].
  rewrite (setOrder_next_strash _ _ _ _ H), (setOrder_prev_strash _ _ _ _ E).
  unfold setOrder_end, setOrder_begin. by repeat case_decide.
Qed.

Lemma placeAfter_strash x y : keeps_strash (placeAfter x y).
Proof.
  intros b b' H. unfold placeAfter in H. destruct (decide _); [done|].
  destruct (getNext b y) as [k|]; cbn [mbind option_bind] in H; [|done].
  destruct (setOrder x k b) as [b1|] eqn:E; cbn [mbind option_bind] in H; [|done].
  by rewrite (setOrder_strash _ _ _ _ H), (setOrder_strash _ _ _ _ E).
Qed.

Lemma upd_bounds_strash d p : keeps_strash (upd_bounds d p).
Proof. intros b b' H. unfold upd_bounds in H. unbind H. by injection H as <-. Qed.

Lemma addDepthBounds_strash i : keeps_strash (addDepthBounds i).
Proof.
  intros b b' H. unfold addDepthBounds in H. cbn zeta in H.
  destruct (getCell b i) as [c|]; cbn [mbind option_bind] in H; [|done].
  destruct (getDepth b i) as [[d|]|]; cbn [mbind option_bind] in H; try done.
  destruct (cell_is OUT c); [by rewrite (placeAfter_strash _ _ _ _ H)|].
  destruct (depthBounds _ !! d) as [[f l]|]; cbn [mbind option_bind] in H; [|done].
  destruct (decide _).
  - destruct (upd_bounds _ _ _) as [b1|] eqn:E; cbn [mbind option_bind] in H; [|done].
    destruct (last_below d b1); cbn [mbind option_bind] in H; [|done].
    by rewrite (placeAfter_strash _ _ _ _ H), (upd_bounds_strash _ _ _ _ E).
  - destruct (if _ && _ then _ else _) as [p|]; cbn [mbind option_bind] in H; [|done].
    destruct (placeAfter _ _ _) as [b1|] eqn:E; cbn [mbind option_bind] in H; [|done].
    destruct (decide _); [rewrite (upd_bounds_strash _ _ _ _ H)|injection H as <-];
      by rewrite (placeAfter_strash _ _ _ _ E).
Qed.

Lemma alloc_link_strash i l : keeps_strash (alloc_link i l).
Proof.
  intros b b' H. unfold alloc_link in H.
  destruct (getDepth b i); cbn [mbind option_bind] in H; [|done].
  destruct (getDepth b (idx l)); cbn [mbind option_bind] in H; [|done].
  destruct (upd_desc _ _ b) as [b1|] eqn:E1; cbn [mbind option_bind] in H; [|done].
  destruct (getCell b1 _) as [c|]; cbn [mbind option_bind] in H; [|done].
  destruct (cell_is OUT c); [done|].
  destruct (addFanout _ _ _) as [b2|] eqn:E2; cbn [mbind option_bind] in H; [|done].
  by rewrite (upd_cell_strash _ _ _ _ H), (addFanout_strash _ _ _ _ E2), (upd_desc_strash _ _ _ _ E1).
Qed.

Lemma alloc_links_strash i ls : keeps_strash (λ b, foldl (λ b l, b ← b; alloc_link i l b) (Some b) ls).
Proof.
  induction ls as [|l ls IH]; intros b b' H; cbn in H; [by injection H as <-|].
  destruct (alloc_link i l b) as [b1|] eqn:E; [|by rewrite alloc_links_None in H].
  by rewrite (IH _ _ H), (alloc_link_strash _ _ _ _ E).
Qed.

Section Key.
Context `{TypeStore}.

Lemma alloc_fill_strash t ls i : length ls ≤ InPlaceLinks → keeps_strash (alloc_fill t ls i).
Proof.
  intros Hl b b' H1. unfold alloc_fill in H1. rewrite bool_decide_eq_true_2 in H1 by done.
  destruct (upd_desc _ _ b) as [b1|] eqn:E1; cbn [mbind option_bind] in H1; [|done].
  destruct (foldl _ _ _) as [b2|] eqn:E2; cbn [mbind option_bind] in H1; [|done].
  destruct (SubnetCell _ _) as [c|]; cbn [mbind option_bind] in H1; [|done].
  destruct (addDepthBounds _ _) as [b3|] eqn:E3; cbn [mbind option_bind] in H1; [|done].
  destruct (getDepth b3 i) as [[d|]|]; cbn [mbind option_bind] in H1; try done. injection H1 as <-.
  rewrite (addDepthBounds_strash _ _ _ E3). change (strash (with_entries ?e b2)) with (strash b2).
  by rewrite (alloc_links_strash _ _ _ _ E2), (upd_desc_strash _ _ _ _ E1).
Qed.

(** The key of a commutative cell does not depend on the order of its links. *)
Lemma makeKey_perm t ty ls ls' : getType t = Some ty → commutative (props ty) = true → ls ≡ₚ ls' →
  makeKey t ls = makeKey t ls'.
Proof.
  intros Hty Hc Hp. unfold makeKey, isEnabled. rewrite Hty, (Permutation_length Hp). cbn [mbind option_bind].
  by rewrite Hc, (sort_links_unique ls ls' Hp).
Qed.

Lemma count_io_strash t b : strash (count_io t b) = strash b.
Proof. unfold count_io. by repeat case_decide. Qed.

(** Adding a cell keeps the map and enters the key of the cell. *)
Lemma addCell_strash t ls b ty l b' ins outs :
  wf b ins outs → getType t = Some ty → negative (props ty) = false → length ls ≤ InPlaceLinks →
  addCell t ls b = Some (l, b') →
  (∀ key i, strash b !! key = Some i → strash b' !! key = Some i) ∧
  (∀ key, makeKey t ls = Some key → strash b' !! key = Some (idx l) ∧ l = LinkTo (idx l)).
Proof.
  intros [segs HW] Hty Hn Hlen. rewrite (addCell_unfold t ls b ty) by done. intros H1.
  unfold allocEntry, strashEntry, st_modify, st_gets, st_read, st_update in H1.
  unfold mbind, st_bind, option_bind, mret, st_ret in H1. rewrite (fixate_id _ _ (wf_linked _ _ _ _ HW)) in H1.
  destruct (isEnabled t ls) eqn:He.
  2: { unfold makeKey. rewrite He. split; [|done].
    destruct (allocEntry_buf _ b) as [[i b1]|] eqn:E1; [|done]. cbn in H1.
    destruct (alloc_fill t ls i b1) as [b2|] eqn:E2; [|done]. cbn in H1. injection H1 as <- <-.
    rewrite count_io_strash, (alloc_fill_strash _ _ _ Hlen _ _ E2).
    destruct (allocEntry_buf_hole b _ (is_buf t) (linked_desc _ _ (wf_linked _ _ _ _ HW))
                (wf_perm _ _ _ _ HW)) as (i' & b1' & Ha & Hh). rewrite E1 in Ha. injection Ha as <- <-.
    by destruct (ho_same _ _ _ _ Hh) as [_ ->]. }
  destruct (makeKey t ls) as [key|] eqn:Hk; [|done].
  destruct (strash b !! key) as [i|] eqn:Ei.
  - cbn in H1. injection H1 as <- <-. rewrite count_io_strash. split; [done|]. by intros ? [= <-].
  - destruct (allocEntry_buf _ b) as [[i b1]|] eqn:E1; [|done]. cbn in H1.
    destruct (alloc_fill t ls i _) as [b2|] eqn:E2; [|done]. cbn in H1. injection H1 as <- <-.
    rewrite count_io_strash, (alloc_fill_strash _ _ _ Hlen _ _ E2). cbn [strash with_strash].
    destruct (allocEntry_buf_hole b _ (is_buf t) (linked_desc _ _ (wf_linked _ _ _ _ HW))
                (wf_perm _ _ _ _ HW)) as (i' & b1' & Ha & Hh). rewrite E1 in Ha. injection Ha as <- <-.
    destruct (ho_same _ _ _ _ Hh) as [_ ->]. split.
    + intros key' j Hj. rewrite lookup_insert_ne by congruence. done.
    + intros ? [= <-]. by rewrite lookup_insert_eq.
Qed.

(** A cell whose key is in the map is found, and nothing changes. *)
Lemma addCell_reuse t ls key i b ty ins outs :
  wf b ins outs → getType t = Some ty → negative (props ty) = false →
  makeKey t ls = Some key → strash b !! key = Some i → addCell t ls b = Some (LinkTo i, b).
Proof.
  intros [segs HW] Hty Hn Hk Hi. rewrite (addCell_unfold t ls b ty) by done.
  assert (isEnabled t ls = true) as He by (unfold makeKey in Hk; by destruct (isEnabled t ls)).
  rewrite (allocEntry_found b ins outs segs t ls key i) by done. cbn [mbind option_bind].
  unfold isEnabled in He. apply bool_decide_eq_true in He as (Hni & Hno & _).
  unfold count_io. by rewrite !decide_False by done.
Qed.
End Key.
