(* ===== verification/BuilderCorrect.v ===== *)
(** * The builder is correct

    The states that a client of the subnet builder reaches by adding cells, and
    what holds in all of them: no request fails, the order is topological, the
    depth of a cell is the length of its longest path, the counters count, equal
    cells are shared, and the values of the inputs determine those of all cells. *)

From S2P Require Import Prelude CellType SubnetBase Builder Order BuilderInv BuilderAdd BuilderAlloc.
From S2P Require Import BuilderSpec BuilderEval Strash.
From stdpp Require Import gmap strings.

(** ** Definitions *)

Section Reach.
Context `{TypeStore, Build}.

(** A request [addCell t ls] that a client may make: the type exists and is not
    a negated one (these are made of the positive one and an inverted link), the
    links lead to cells of the builder, at most three; the input cells are the
    first to be added. *)
Record request (b : SubnetBuilder) (ins : list nat) (t : TypeID) (ls : LinkList) : Prop := {
  rq_type : ∃ ty, getType t = Some ty ∧ negative (props ty) = false;
  rq_arity : length ls ≤ InPlaceLinks;
  rq_valid : valid_type t (length ls) = true;
  rq_srcs : srcs b ls;
  rq_input : t = GateID IN → input_ready b ins;
}.

(** A builder with the lists of its input and output cells. *)
Definition state : Type := SubnetBuilder * list nat * list nat.

Inductive step : state → state → Prop :=
  | step_add b ins outs t ls l b' :
      request b ins t ls → addCell t ls b = Some (l, b') →
      step (b, ins, outs) (b', after_ins ins t (idx l), after_outs outs t (idx l)).

Definition reachable (s : state) : Prop := rtc step (empty_builder, [], []) s.

(** A path of [n] links that ends in entry [i]. *)
Inductive path (b : SubnetBuilder) : nat → nat → Prop :=
  | path_here i : path b i 0
  | path_link i c l n : getCell b i = Some c → l ∈ getInPlaceLinks c →
      path b (idx l) n → path b i (S n).
End Reach.

(** ** The invariant *)

Section Invariant.
Context `{TypeStore}.

Lemma step_wf b ins outs t ls : wf b ins outs → request b ins t ls →
  ∃ l b', addCell t ls b = Some (l, b') ∧
    wf b' (after_ins ins t (idx l)) (after_outs outs t (idx l)) ∧ ext b b' ∧ is_cell b' t ls l.
Proof.
  intros Hw [(ty & Hty & Hn) Ha Hv Hs Hi]. by eapply addCell_spec.
Qed.

Lemma steps_wf s s' : rtc step s s' → wf s.1.1 s.1.2 s.2 → wf s'.1.1 s'.1.2 s'.2 ∧ ext s.1.1 s'.1.1.
Proof.
  induction 1 as [|s1 s2 s3 Hs _ IH]; [done|]. intros Hw. destruct Hs as [b ins outs t ls l b' Hr E].
  destruct (step_wf b ins outs t ls Hw Hr) as (l' & b1 & E' & Hw' & He & _).
  rewrite E in E'. injection E' as <- <-. destruct (IH Hw') as [? ?]. split; [done|]. by etransitivity.
Qed.

Lemma reachable_wf b ins outs : reachable (b, ins, outs) → wf b ins outs.
Proof. intros Hr. apply (steps_wf _ _ Hr). apply wf_empty. Qed.

(** What clients reach in a build with assertions they reach without them. *)
Lemma steps_release (B : Build) s s' : rtc (@step _ B) s s' → wf s.1.1 s.1.2 s.2 → rtc (@step _ release_build) s s'.
Proof.
  induction 1 as [|s1 s2 s3 Hs _ IH]; [done|]. intros Hw. destruct Hs as [b ins outs t ls l b' Hr E].
  pose proof Hr as [(ty & Hty & Hn) _ _ Hs _]. cbn in Hw. rewrite (addCell_build B b ins outs t ls ty Hw Hty Hn Hs) in E.
  destruct (passes_counts b t ls); [|done]. destruct (step_wf b ins outs t ls Hw Hr) as (l' & b1 & E' & Hw' & _).
  rewrite E in E'. injection E' as <- <-. eapply rtc_l; [by econstructor|]. by apply IH.
Qed.

Lemma reachable_release (B : Build) s : @reachable _ B s → @reachable _ release_build s.
Proof. intros Hs. apply (steps_release B _ _ Hs), wf_empty. Qed.

Lemma steps_strash s s' key i : rtc step s s' → wf s.1.1 s.1.2 s.2 →
  strash s.1.1 !! key = Some i → strash s'.1.1 !! key = Some i.
Proof.
  induction 1 as [|s1 s2 s3 Hs _ IH]; [done|]. intros Hw Hk. destruct Hs as [b ins outs t ls l b' Hr E].
  destruct (step_wf b ins outs t ls Hw Hr) as (l' & b1 & E' & Hw' & _).
  rewrite E in E'. injection E' as <- <-. destruct Hr as [(ty & Hty & Hn) Ha _ _ _].
  apply IH; [done|]. by apply (addCell_strash t ls b ty l b' ins outs Hw Hty Hn Ha E).
Qed.

(** *** Depths *)

Lemma live_depth b ins outs segs i : WF b ins outs segs → is_live b i →
  ∃ c d, getCell b i = Some c ∧ getDepth b i = Some (Some d) ∧ new_depth b (getInPlaceLinks c) = Some d ∧
    ∀ l, l ∈ getInPlaceLinks c → is_live b (idx l) ∧ ∃ e, getDepth b (idx l) = Some (Some e).
Proof.
  intros HW Hi. apply (live_order _ _ _ _ _ HW) in Hi. unfold order_of in Hi.
  assert (∀ j, j ∈ concat segs → is_live b j ∧ ∃ e, getDepth b j = Some (Some e)) as Hseg.
  { intros j Hj. split; [apply (live_order _ _ _ _ _ HW); unfold order_of; set_solver|].
    destruct (seg_elem _ _ Hj) as (d & s & Hs & His).
    destruct (wf_seg _ _ _ _ HW d s j Hs His) as (? & _ & _ & _ & _ & Hd & _). by exists d. }
  apply elem_of_app in Hi as [Hi|Hi].
  - destruct (seg_elem _ _ Hi) as (d & s & Hs & His).
    destruct (wf_seg _ _ _ _ HW d s i Hs His) as (c & Hc & _ & _ & Hin & Hd & Hn).
    exists c, d. split_all; [done..|]. intros l Hl. by apply Hseg, Hin.
  - destruct (wf_outs _ _ _ _ HW i Hi) as (c & Hc & _ & _ & Hin & d & Hd & Hn & _).
    exists c, d. split_all; [done..|]. intros l Hl. by apply Hseg, Hin.
Qed.

Lemma path_depth b ins outs segs i n d : WF b ins outs segs → is_live b i → path b i n →
  getDepth b i = Some (Some d) → n ≤ d.
Proof.
  intros HW Hi Hp. revert d Hi. induction Hp as [|i c l n Hc Hl _ IH]; intros d Hi Hd; [lia|].
  destruct (live_depth b ins outs segs i HW Hi) as (c' & d' & Hc' & Hd' & Hn & Hls).
  assert (c' = c ∧ d' = d) as [-> ->] by (split; congruence).
  destruct (Hls l Hl) as [Hil (e & He)]. specialize (IH e Hil He).
  pose proof (depth_from_above b _ 0 d l e Hn Hl He). lia.
Qed.

Lemma depth_path b ins outs segs : WF b ins outs segs → ∀ d i, is_live b i →
  getDepth b i = Some (Some d) → path b i d.
Proof.
  intros HW. induction d as [|d IH]; intros i Hi Hd; [constructor|].
  destruct (live_depth b ins outs segs i HW Hi) as (c & d' & Hc & Hd' & Hn & Hls).
  assert (d' = S d) as -> by congruence.
  destruct (depth_from_attained b _ 0 (S d) Hn) as [|(l & dl & Hl & Hdl & E)]; [lia|].
  destruct (Hls l Hl) as [Hil (e & He)]. rewrite Hdl in He. injection He as ->. injection E as ->.
  econstructor; [done|done|]. by apply IH.
Qed.
End Invariant.

(** ** An example: two inputs, their conjunction and an output *)

Definition no_types : TypeStore := λ _, None.

Definition demo_ops : list (TypeID * LinkList) :=
  [(GateID IN, []); (GateID IN, []); (GateID AND, [LinkTo 0; LinkTo 1]); (GateID OUT, [LinkTo 2])].

(** The builder after the first [n] operations. *)
Fixpoint demo (n : nat) : SubnetBuilder :=
  match n with
  | 0 => empty_builder
  | S n => match demo_ops !! n with
           | Some (t, ls) => match @addCell no_types _ t ls (demo n) with Some (_, b) => b | None => demo n end
           | None => demo n
           end
  end.

Section Demo.
#[local] Existing Instance no_types.

#[local] Opaque demo.

Lemma demo_live n i : i < length (entries (demo n)) → emptyEntryIDs (demo n) = [] → is_live (demo n) i.
Proof. intros Hi E. split; [done|]. rewrite E. set_solver. Qed.

Lemma demo_src n i t :
  bool_decide (i < length (entries (demo n)) ∧ emptyEntryIDs (demo n) = [] ∧ cell_type (demo n) i = Some t) = true →
  t ≠ GateID OUT → src (demo n) (LinkTo i).
Proof.
  intros Hb Ht. apply bool_decide_eq_true in Hb as (Hi & He & Hc). split; [by apply demo_live|]. split; [cbn; lia|].
  cbn [idx LinkTo SubnetLink]. unfold cell_type in Hc. destruct (getCell (demo n) i) as [c|]; [|done].
  exists c. split; [done|]. by injection Hc as ->.
Qed.

Lemma demo_srcs : srcs (demo 2) [LinkTo 0; LinkTo 1] ∧ srcs (demo 3) [LinkTo 2].
Proof.
  split; repeat apply Forall_cons_2; try apply Forall_nil_2.
  - by apply (demo_src 2 0 (GateID IN)); [vm_compute; reflexivity|].
  - by apply (demo_src 2 1 (GateID IN)); [vm_compute; reflexivity|].
  - by apply (demo_src 3 2 (GateID AND)); [vm_compute; reflexivity|].
Qed.

Lemma demo_request n ins t ls : demo_ops !! n = Some (t, ls) → ins = take n [0; 1] →
  request (demo n) ins t ls.
Proof.
  destruct demo_srcs as [S2 S3]. unfold InPlaceLinks.
  intros E ->. destruct n as [|[|[|[|n]]]]; [..|done]; injection E as <- <-;
    (split; [by eexists|cbn; unfold InPlaceLinks; lia|done|first [done|apply Forall_nil_2]|]).
  - intros _. exact ready_empty.
  - intros _. by left.
  - by intros [=].
  - by intros [=].
Qed.

Lemma demo_adds n t ls l : demo_ops !! n = Some (t, ls) → fst <$> addCell t ls (demo n) = Some l →
  addCell t ls (demo n) = Some (l, demo (S n)).
Proof.
  intros E Hl. assert (demo (S n) = match addCell t ls (demo n) with Some (_, b) => b | None => demo n end) as ->.
  { with_strategy transparent [demo] (cbn [demo]). by rewrite E. }
  destruct (addCell t ls (demo n)) as [[l' b]|]; [|done]. by injection Hl as ->.
Qed.

Lemma demo_steps : rtc step (demo 0, [], []) (demo 2, [0; 1], []) ∧
  rtc step (demo 2, [0; 1], []) (demo 3, [0; 1], []) ∧ rtc step (demo 3, [0; 1], []) (demo 4, [0; 1], [3]).
Proof.
  pose proof (demo_adds 0 _ _ (LinkTo 0) eq_refl ltac:(vm_compute; reflexivity)) as A0.
  pose proof (demo_adds 1 _ _ (LinkTo 1) eq_refl ltac:(vm_compute; reflexivity)) as A1.
  pose proof (demo_adds 2 _ _ (LinkTo 2) eq_refl ltac:(vm_compute; reflexivity)) as A2.
  pose proof (demo_adds 3 _ _ (LinkTo 3) eq_refl ltac:(vm_compute; reflexivity)) as A3.
  split_all.
  - eapply rtc_l; [exact (step_add _ [] [] _ _ _ _ (demo_request 0 [] _ _ eq_refl eq_refl) A0)|].
    apply rtc_once. exact (step_add _ [0] [] _ _ _ _ (demo_request 1 [0] _ _ eq_refl eq_refl) A1).
  - apply rtc_once. exact (step_add _ [0; 1] [] _ _ _ _ (demo_request 2 [0; 1] _ _ eq_refl eq_refl) A2).
  - apply rtc_once. exact (step_add _ [0; 1] [] _ _ _ _ (demo_request 3 [0; 1] _ _ eq_refl eq_refl) A3).
Qed.

Lemma demo2_reachable : reachable (demo 2, [0; 1], []).
Proof. apply demo_steps. Qed.
Lemma demo3_reachable : reachable (demo 3, [0; 1], []).
Proof. destruct demo_steps as (? & ? & _). unfold reachable. by etransitivity. Qed.
Lemma demo4_reachable : reachable (demo 4, [0; 1], [3]).
Proof. destruct demo_steps as (? & ? & ?). unfold reachable. etransitivity; [|done]. by etransitivity. Qed.

Lemma demo_and_live : is_live (demo 3) 2.
Proof. apply (demo_src 3 2 (GateID AND)); [vm_compute; reflexivity|done]. Qed.
End Demo.

(** ** Theorems *)

Section Theorems.
Context `{TypeStore}.

(** C23 A request fails only at the assertion on the reference counts.  In a
    builder that clients have reached, [addCell] returns a link to a cell of the
    requested type with the requested links (up to their order, if the cell is
    commutative), the cells that were there keep their types and links, and the
    new builder is reachable, if the assertions are not compiled in, or if an
    equal cell is found, or if each cell that is linked has room for the links in
    the 20 bits of its count.  Otherwise the assertion fails. *)
Theorem addCell_total (B : Build) b ins outs t ls :
  @reachable _ B (b, ins, outs) → request b ins t ls →
  (@passes_counts _ B b t ls = true → ∃ l b', @addCell _ B t ls b = Some (l, b') ∧ is_cell b' t ls l ∧ ext b b' ∧
    @reachable _ B (b', after_ins ins t (idx l), after_outs outs t (idx l))) ∧
  (@passes_counts _ B b t ls = false → @addCell _ B t ls b = None).
Proof.
  intros Hr Hq. pose proof (reachable_wf _ _ _ (reachable_release _ _ Hr)) as Hw. pose proof Hq as [(ty & Hty & Hn) _ _ Hs _].
  pose proof (addCell_build B b ins outs t ls ty Hw Hty Hn Hs) as E. split; intros Hp; rewrite Hp in E; [|done].
  destruct (step_wf b ins outs t ls Hw Hq) as (l & b' & E' & _ & He & Hc). rewrite E' in E. exists l, b'.
  split_all; [done..|]. eapply rtc_r; [exact Hr|]. by econstructor.
Qed.

(** C22 The order of a reachable builder is topological: it is a doubly
    linked list of exactly the live entries, each once, which starts with the
    inputs, ends with the outputs and has the sources of a cell before it. *)
Theorem builder_topological b ins outs : reachable (b, ins, outs) →
  ∃ cells, let o := ins ++ cells ++ outs in
    Linked b o ∧ NoDup o ∧ (∀ i, is_live b i ↔ i ∈ o) ∧
    ∀ o1 i o2 c l, o = o1 ++ i :: o2 → getCell b i = Some c → l ∈ getInPlaceLinks c → idx l ∈ o1.
Proof.
  intros Hr. destruct (reachable_wf _ _ _ Hr) as [segs HW].
  assert (∃ cells, concat segs = ins ++ cells) as [cells E].
  { destruct (wf_ins _ _ _ _ HW) as (cs & Ei & _). destruct segs as [|s segs]; cbn in Ei |- *.
    - symmetry in Ei. apply app_eq_nil in Ei as [-> _]. by exists [].
    - rewrite Ei. exists (cs ++ concat segs). by rewrite app_assoc. }
  exists cells. cbn. rewrite app_assoc, <- E. change (concat segs ++ outs) with (order_of segs outs).
  split_all; [apply (wf_linked _ _ _ _ HW)|apply (linked_nodup _ _ (wf_linked _ _ _ _ HW))|..].
  - intros i. by apply (live_order b ins outs segs).
  - intros o1 i o2 c l Eo Hc Hl. by eapply segs_before.
Qed.

(** C24 The depth of a cell of a reachable builder is the length of the
    longest path that ends in it. *)
Theorem builder_depth b ins outs i : reachable (b, ins, outs) → is_live b i →
  ∃ d, getDepth b i = Some (Some d) ∧ path b i d ∧ ∀ n, path b i n → n ≤ d.
Proof.
  intros Hr Hi. destruct (reachable_wf _ _ _ Hr) as [segs HW].
  destruct (live_depth b ins outs segs i HW Hi) as (c & d & _ & Hd & _). exists d.
  split_all; [done|by eapply depth_path|]. intros n Hp. by eapply path_depth.
Qed.

(** The bounds of a depth: in a reachable builder the cells of depth [d]
    (but the outputs) are a segment of the order, and the bounds of [d] are the
    ends of that segment. *)
Theorem builder_depth_bounds b ins outs d f l : reachable (b, ins, outs) →
  depthBounds b !! d = Some (f, l) →
  ∃ seg o1 o2, Linked b (o1 ++ seg ++ o2) ∧ f = head_id seg ∧ l = last_id seg ∧
    ∀ i, is_live b i → i ∉ outs → (i ∈ seg ↔ getDepth b i = Some (Some d)).
Proof.
  intros Hr Hb. destruct (reachable_wf _ _ _ Hr) as [segs HW].
  rewrite (wf_bounds _ _ _ _ HW), list_lookup_fmap in Hb.
  destruct (segs !! d) as [seg|] eqn:Es; cbn in Hb; [|done]. injection Hb as <- <-.
  exists seg, (concat (take d segs)), (concat (drop (S d) segs) ++ outs). split_all; [|done|done|].
  - pose proof (wf_linked _ _ _ _ HW) as HL. unfold order_of in HL.
    rewrite <- (take_drop_middle segs d seg Es) in HL at 1. rewrite concat_app in HL. cbn in HL.
    by rewrite <- !app_assoc in HL.
  - intros i Hi Ho. split.
    + intros His. by destruct (wf_seg _ _ _ _ HW d seg i Es His) as (? & _ & _ & _ & _ & ? & _).
    + intros Hd. apply (live_order _ _ _ _ _ HW) in Hi. unfold order_of in Hi.
      apply elem_of_app in Hi as [Hi|Hi]; [|done]. destruct (seg_elem _ _ Hi) as (d' & s & Hs & His).
      destruct (wf_seg _ _ _ _ HW d' s i Hs His) as (? & _ & _ & _ & _ & Hd' & _). congruence.
Qed.

(** The counters of a reachable builder: the numbers of inputs, of
    outputs and of cells, and the reference count of every cell, which is the
    number of links that lead to it modulo the 20 bits of the field. *)
Theorem builder_counts b ins outs : reachable (b, ins, outs) →
  b_nIn b = length ins ∧ b_nOut b = length outs ∧
  ∃ o, Linked b o ∧ nCell b = length o ∧
    ∀ i c, i ∈ o → getCell b i = Some c → refcount c = (N.of_nat (refs b o i) mod 2 ^ 20)%N.
Proof.
  intros Hr. destruct (reachable_wf _ _ _ Hr) as [segs HW]. destruct (wf_nums _ _ _ _ HW) as (E1 & E2 & E3 & _).
  split_all; [done..|]. exists (order_of segs outs). split_all; [apply (wf_linked _ _ _ _ HW)|done|].
  intros i c Hi Hc. by eapply wf_refs.
Qed.


(** The values of the cells: every choice of values for the outputs of the
    inputs and of the cells that are no standard gates extends to a valuation
    that satisfies all the gates, and to one only. *)
Theorem builder_values b ins outs w : reachable (b, ins, outs) →
  ∃ v, consistent v b ∧ (∀ i p, is_live b i → free_output b i p → v i p = w i p) ∧
    ∀ v', consistent v' b → (∀ i p, is_live b i → free_output b i p → v' i p = w i p) →
      ∀ i p, is_live b i → v' i p = v i p.
Proof.
  intros Hr. destruct (reachable_wf _ _ _ Hr) as [segs HW].
  exists (eval b (order_of segs outs) w).
  assert (∀ i p, free_output b i p → eval b (order_of segs outs) w i p = w i p) as Hf.
  { intros i p. by eapply eval_free. }
  split_all; [by eapply eval_consistent|intros; by apply Hf|].
  intros v' Hv' Hw' i p Hi. symmetry.
  eapply (consistent_unique b ins outs segs); [done|by eapply eval_consistent|done| |done].
  intros j q Hj Hq. by rewrite Hf, Hw'.
Qed.

(** The gates compute: the link that [addGate] returns has, in every
    valuation that satisfies the gates, the value of the gate's function on the
    values of its links. *)
Theorem addGate_computes s ls b ins outs :
  reachable (b, ins, outs) → srcs b ls → length ls ≤ InPlaceLinks → gate_ok s (length ls) = true →
  ∃ l b', addGate s ls b = Some (l, b') ∧ src b' l ∧
    ∀ v, consistent v b' → gate_fun s (lval v <$> ls) = Some (lval v l).
Proof.
  intros Hr Hs Hl Hok. destruct (addGate_spec s ls b ins outs (reachable_wf _ _ _ Hr) Hs Hl Hok)
    as (l & b' & E & _ & _ & ? & ?). by exists l, b'.
Qed.

(** C26 A tree of cells of [k] links each, [k] = 2 or 3, of a gate that may be
    regrouped (AND, OR or XOR), over at least one link, in a reachable builder:
    [addCellTree] ends and the link it returns has the value of the gate over all
    the links.  (For [k <= 1] and more links than one the loop of the code does
    not end.) *)
Theorem addCellTree_computes s ty k ls b ins outs :
  reachable (b, ins, outs) → getCellType s = Some ty → regroupable (props ty) = true →
  2 ≤ k ≤ InPlaceLinks → srcs b ls → ls ≠ [] →
  ∃ l b', addCellTree s ls k b = Some (l, b') ∧ src b' l ∧
    ∀ v, consistent v b' → gate_fun s (lval v <$> ls) = Some (lval v l).
Proof.
  intros Hr Hty Hrg Hk Hs Hne.
  destruct (addCellTree_spec s ty Hty Hrg k ls b ins outs Hk (reachable_wf _ _ _ Hr) Hs Hne)
    as (l & b' & E & _ & _ & ? & ?). by exists l, b'.
Qed.
End Theorems.

(** ** Witnesses *)

Section Witnesses.
#[local] Existing Instance no_types.

Lemma demo2_asserting : @reachable _ asserting_build (demo 2, [0; 1], []).
Proof.
  eapply rtc_l; [exact (@step_add _ asserting_build _ [] [] (GateID IN) [] (LinkTo 0) (demo 1) (demo_request 0 [] _ _ eq_refl eq_refl) ltac:(vm_compute; reflexivity))|].
  apply rtc_once. exact (@step_add _ asserting_build _ [0] [] (GateID IN) [] (LinkTo 1) (demo 2) (demo_request 1 [0] _ _ eq_refl eq_refl) ltac:(vm_compute; reflexivity)).
Qed.

Lemma addCell_total_witness : @passes_counts _ asserting_build (demo 2) (GateID AND) [LinkTo 0; LinkTo 1] = true ∧ ∃ l b',
  @addCell _ asserting_build (GateID AND) [LinkTo 0; LinkTo 1] (demo 2) = Some (l, b') ∧
  is_cell b' (GateID AND) [LinkTo 0; LinkTo 1] l ∧ ext (demo 2) b' ∧
  @reachable _ asserting_build (b', after_ins [0; 1] (GateID AND) (idx l), after_outs [] (GateID AND) (idx l)).
Proof.
  split; [vm_compute; reflexivity|].
  apply (addCell_total asserting_build _ _ _ _ _ demo2_asserting (demo_request 2 _ _ _ eq_refl eq_refl)). vm_compute. reflexivity.
Defined.

Lemma builder_topological_witness : ∃ cells, let o := [0; 1] ++ cells ++ [3] in
  Linked (demo 4) o ∧ NoDup o ∧ (∀ i, is_live (demo 4) i ↔ i ∈ o) ∧
  ∀ o1 i o2 c l, o = o1 ++ i :: o2 → getCell (demo 4) i = Some c → l ∈ getInPlaceLinks c → idx l ∈ o1.
Proof. exact (builder_topological _ _ _ demo4_reachable). Defined.

Lemma builder_depth_witness : ∃ d, getDepth (demo 3) 2 = Some (Some d) ∧ path (demo 3) 2 d ∧
  ∀ n, path (demo 3) 2 n → n ≤ d.
Proof. exact (builder_depth _ _ _ 2 demo3_reachable demo_and_live). Defined.

Lemma builder_depth_bounds_witness : ∃ seg o1 o2, Linked (demo 4) (o1 ++ seg ++ o2) ∧
  Idx 0 = head_id seg ∧ Idx 1 = last_id seg ∧
  ∀ i, is_live (demo 4) i → i ∉ [3] → (i ∈ seg ↔ getDepth (demo 4) i = Some (Some 0)).
Proof. apply (builder_depth_bounds _ _ _ 0 _ _ demo4_reachable). vm_compute. reflexivity. Defined.

Lemma builder_counts_witness : b_nIn (demo 4) = 2 ∧ b_nOut (demo 4) = 1 ∧
  ∃ o, Linked (demo 4) o ∧ nCell (demo 4) = length o ∧
    ∀ i c, i ∈ o → getCell (demo 4) i = Some c → refcount c = (N.of_nat (refs (demo 4) o i) mod 2 ^ 20)%N.
Proof. exact (builder_counts _ _ _ demo4_reachable). Defined.


Lemma builder_values_witness : ∃ v, consistent v (demo 4) ∧
  (∀ i p, is_live (demo 4) i → free_output (demo 4) i p → v i p = true) ∧
  ∀ v', consistent v' (demo 4) → (∀ i p, is_live (demo 4) i → free_output (demo 4) i p → v' i p = true) →
    ∀ i p, is_live (demo 4) i → v' i p = v i p.
Proof. exact (builder_values _ _ _ (λ _ _, true) demo4_reachable). Defined.

Lemma addGate_computes_witness : ∃ l b', addGate AND [LinkTo 0; LinkTo 1] (demo 2) = Some (l, b') ∧ src b' l ∧
  ∀ v, consistent v b' → gate_fun AND (lval v <$> [LinkTo 0; LinkTo 1]) = Some (lval v l).
Proof.
  apply (addGate_computes AND _ (demo 2) [0; 1] [] demo2_reachable); [apply demo_srcs|cbn; unfold InPlaceLinks; lia|done].
Defined.

Lemma addCellTree_computes_witness : ∃ l b',
  addCellTree XOR [LinkTo 0; LinkTo 1; LinkTo 0; LinkTo 0] 2 (demo 2) = Some (l, b') ∧ src b' l ∧
  ∀ v, consistent v b' → gate_fun XOR (lval v <$> [LinkTo 0; LinkTo 1; LinkTo 0; LinkTo 0]) = Some (lval v l).
Proof.
  destruct demo_srcs as [S2 _]. pose proof S2 as S2'. unfold srcs in S2'.
  apply Forall_cons_1 in S2' as [S0 _].
  apply (addCellTree_computes XOR (row "xor" 1 1 1 0 0 1 1 1 0 65535 1 XOR) 2 _ (demo 2) [0; 1] []
    demo2_reachable); [done|done|unfold InPlaceLinks; lia| |done].
  apply (Forall_app_2 _ [LinkTo 0; LinkTo 1] [LinkTo 0; LinkTo 0] S2).
  by repeat apply Forall_cons_2; [..|apply Forall_nil_2].
Defined.
End Witnesses.

(** ** The order refines a list *)

(** The doubly linked list refines the list of entries: [placeAfter]
    succeeds and inserts the new entry after the pivot, the iteration by
    [getNext] and [getPrev] passes it there, and nothing but the order changes. *)
Theorem placeAfter_refines_insert b o1 p o2 e :
  Linked b (o1 ++ p :: o2) → e ∉ o1 ++ p :: o2 → e < length (entries b) →
  ∃ b', placeAfter (Idx e) (Idx p) b = Some b' ∧ Linked b' (o1 ++ p :: e :: o2) ∧ core b' = core b ∧
    getNext b' (Idx p) = Some (Idx e) ∧ getPrev b' (Idx e) = Some (Idx p) ∧
    getNext b' (Idx e) = getNext b (Idx p).
Proof.
  intros HL He Hlt. destruct (placeAfter_linked b o1 p o2 e HL He Hlt) as (b' & E & HL' & Hk).
  exists b'. split_all; [done|done|apply Hk|by rewrite (getNext_linked _ _ _ _ HL')|..].
  - change (o1 ++ p :: e :: o2) with (o1 ++ [p] ++ e :: o2) in HL'. rewrite app_assoc in HL'.
    by rewrite (getPrev_linked _ _ _ _ HL'), last_snoc.
  - rewrite (getNext_linked _ _ _ _ HL).
    change (o1 ++ p :: e :: o2) with (o1 ++ [p] ++ e :: o2) in HL'. rewrite app_assoc in HL'.
    by rewrite (getNext_linked _ _ _ _ HL').
Qed.

Lemma placeAfter_refines_insert_witness :
  let d := EntryDescriptor_default in
  let b := mkBuilder 0 0 0 0 [EUninit; EUninit; EUninit] false [d; d; d] [] false [] [] (Idx 0) (Idx 1) ∅ in
  ∃ b', placeAfter (Idx 2) (Idx 0) b = Some b' ∧ Linked b' [0; 2; 1] ∧ core b' = core b ∧
    getNext b' (Idx 0) = Some (Idx 2) ∧ getPrev b' (Idx 2) = Some (Idx 0) ∧
    getNext b' (Idx 2) = getNext b (Idx 0).
Proof.
  intros d b. apply (placeAfter_refines_insert b [] 0 [1] 2); [|set_solver|cbn; lia]. split; try done.
  - apply NoDup_cons. split; [set_solver|apply NoDup_singleton].
  - cbn. intros x Hx. assert (x = 0 ∨ x = 1) as [->| ->] by set_solver; lia.
Defined.
