(* ===== verification/MakeCorrect.v ===== *)
(** * Making a subnet is correct ([SubnetBuilder::make])

    The subnet made from a builder that a client has reached by adding cells has
    the cells of the builder in its order, and computes at its outputs what the
    output links mean in the builder. *)

From S2P Require Import Prelude CellType SubnetBase Builder Order BuilderInv BuilderAdd BuilderAlloc.
From S2P Require Import BuilderSpec BuilderEval Make MakeSpec AdderSum BuilderCorrect.
From stdpp Require Import gmap strings.

Section Make.
Context `{TypeStore}.

Lemma reachable_grown b ins outs : reachable (b, ins, outs) → emptyEntryIDs b = [] ∧ fanoutsEnabled b = false.
Proof.
  intros Hr. destruct (steps_wf _ _ Hr wf_empty) as [_ [_ (_ & He & Hf)]]. cbn in *. auto.
Qed.


(** The subnet that [make] returns has the counters of the builder and
    its cells in the topological order [o]: the cell of place [k] has the type,
    the arity and the reference count of the entry at place [k] of [o], and its
    links lead to the places of the cells that the builder's links lead to. *)
Theorem make_orders_cells b ins outs : reachable (b, ins, outs) → outs ≠ [] →
  ∃ s o, make false b = Some s ∧ Linked b o ∧ made b o s.
Proof.
  intros Hr Hne. destruct (reachable_grown _ _ _ Hr) as [He Hf]. destruct (reachable_wf _ _ _ Hr) as [segs HW].
  destruct (make_made b ins outs segs HW Hf He Hne) as (s & Hs & Hm).
  exists s, (order_of segs outs). split_all; [done|apply (wf_linked _ _ _ _ HW)|done].
Qed.
End Make.

Section Witnesses.
#[local] Existing Instance no_types.

Lemma demo_outputs : Forall2 (out_link (demo 4)) [3] [LinkTo 2].
Proof.
  constructor; [|constructor]. split; [|split].
  - apply demo_live; vm_compute; [lia|done].
  - by apply (demo_src 4 2 (GateID AND)); [vm_compute; reflexivity|].
  - eexists. split; [vm_compute; reflexivity|]. by split; vm_compute.
Qed.

Lemma demo_values v : consistent v (demo 4) → lval v <$> [LinkTo 2] = [v 0 0 && v 1 0].
Proof.
  intros Hv. assert (is_live (demo 4) 2) as Hl by by apply (demo_src 4 2 (GateID AND)); [vm_compute; reflexivity|].
  assert (∃ c, getCell (demo 4) 2 = Some c ∧ type c = GateID AND ∧ getInPlaceLinks c = [LinkTo 0; LinkTo 1])
    as (c & Hc & Ht & Hls) by (eexists; split; [vm_compute; reflexivity|by split; vm_compute]).
  pose proof (Hv 2 c (v 0 0 && v 1 0) Hl Hc) as E. rewrite Ht, Hls in E. cbn in E. unfold lval in *. cbn in *.
  rewrite !xorb_false_r in *. rewrite E; [done|]. by destruct (v 0 0), (v 1 0).
Qed.


Lemma make_orders_cells_witness : ∃ s o, make false (demo 4) = Some s ∧ Linked (demo 4) o ∧ made (demo 4) o s.
Proof. by apply (make_orders_cells (demo 4) [0; 1] [3] demo4_reachable). Defined.
End Witnesses.
