(* ===== verification/AdderCorrect.v ===== *)
(** * The adder and the complement are correct

    The parallel prefix adder and the routines of two's complement, for a client
    of a reachable builder: they end, and the links they return denote the
    numbers. *)

From S2P Require Import Prelude CellType SubnetBase Builder BuilderInv BuilderAdd BuilderAlloc BuilderSpec BuilderEval.
From S2P Require Import BuilderCorrect Adder AdderSum AdderArith Synth SynthArith.
From stdpp Require Import gmap strings.

Section Words.
Context `{TypeStore}.
Context (b : SubnetBuilder) (ins outs : list nat) (Hr : reachable (b, ins, outs)).

(** A vector of links whose bits are the number [z], modulo the width. *)
Definition denotes_number (b' : SubnetBuilder) (r : LinkList) (n : nat) (z : valuation → Z) : Prop :=
  length r = n ∧ srcs b' r ∧ ∀ v, consistent v b' → word v r = bits_of n (z v).

Lemma denotes_all_number b' ins' outs' r n z : wf b' ins' outs' → denotes_all b' r (λ v, bits_of n (z v)) →
  denotes_number b' r n z.
Proof.
  intros Hw D. split; [|exact D]. eapply (denotes_all_length b' ins' outs'); [done|exact D|].
  intros v. apply bits_of_length.
Qed.

Lemma adder_number x y out us sub z : srcs b x → srcs b y →
  0 < length x < 2 ^ 15 → 0 < length y < 2 ^ 15 → 0 < out < 2 ^ 16 →
  (∀ v, Z_of_bits (add_words (word v x) (word v y) out us sub) = (z v mod 2 ^ Z.of_nat out)%Z) →
  ∃ r b', synthLadnerFisherAdd x y out us sub b = Some (r, b') ∧ ext b b' ∧ denotes_number b' r out z.
Proof using Hr.
  intros Hx Hy Lx Ly Ho Hz.
  destruct (adder_spec x y out us sub b ins outs (reachable_wf _ _ _ Hr) Hx Hy Lx Ly Ho) as (r & b' & E & Hw & He & D).
  exists r, b'. split_all; [done..|]. apply (denotes_all_number b' ins outs); [done|].
  eapply denotes_all_eq; [|exact D]. intros v. apply bits_of_eq; [apply add_words_length|done].
Qed.
End Words.

Section Theorems.
Context `{TypeStore}.

(** The Ladner-Fischer adder without sign ends and returns [out] links
    that denote the sum of the unsigned operands modulo [2 ^ out] (operands
    shorter than [2 ^ 15] bits: the step of the code's loops is a 16-bit
    integer). *)
Theorem adder_unsigned b ins outs x y out : reachable (b, ins, outs) → srcs b x → srcs b y →
  0 < length x < 2 ^ 15 → 0 < length y < 2 ^ 15 → 0 < out < 2 ^ 16 →
  ∃ r b', synthLadnerFisherAdd x y out false false b = Some (r, b') ∧ ext b b' ∧
    denotes_number b' r out (λ v, (Z_of_bits (word v x) + Z_of_bits (word v y))%Z).
Proof.
  intros Hr Hx Hy Lx Ly Ho. apply (adder_number b ins outs Hr); try done. intros v. apply add_words_unsigned.
Qed.

(** The Ladner-Fischer adder with sign ends and returns [out] links that
    denote the sum of the operands in two's complement modulo [2 ^ out], when the
    operands have the same number of bits. *)
Theorem adder_signed b ins outs x y out : reachable (b, ins, outs) → srcs b x → srcs b y →
  0 < length x < 2 ^ 15 → length y = length x → 0 < out < 2 ^ 16 →
  ∃ r b', synthLadnerFisherAdd x y out true false b = Some (r, b') ∧ ext b b' ∧
    denotes_number b' r out (λ v, (Z_of_sbits (word v x) + Z_of_sbits (word v y))%Z).
Proof.
  intros Hr Hx Hy Lx Ly Ho. apply (adder_number b ins outs Hr); try done; [lia|]. intros v.
  apply add_words_signed; rewrite !word_length; lia.
Qed.

(** [twosComplement] ends and returns [width] links that denote minus the
    number of the first [width] links, read with or without sign. *)
Theorem twosComplement_negates b ins outs x width se : reachable (b, ins, outs) → srcs b x →
  0 < length x → 0 < width < 2 ^ 15 →
  ∃ r b', twosComplement x width se b = Some (r, b') ∧ ext b b' ∧
    denotes_number b' r width (λ v, (- Z_of_word se (take width (word v x)))%Z).
Proof.
  intros Hr Hx Lx Hw.
  destruct (twosComplement_spec x width se b ins outs (reachable_wf _ _ _ Hr) Hx Lx Hw) as (r & b' & E & Hw' & He & D).
  exists r, b'. split_all; [done..|]. by apply (denotes_all_number b' ins outs).
Qed.

(** [absoluteValue] ends and returns as many links as the word has, which
    denote the absolute value of its number in two's complement (the least number
    has none of that width and stays the same). *)
Theorem absoluteValue_correct b ins outs x : reachable (b, ins, outs) → srcs b x → 0 < length x < 2 ^ 15 →
  ∃ r b', absoluteValue x b = Some (r, b') ∧ ext b b' ∧
    denotes_number b' r (length x) (λ v, Z.abs (Z_of_sbits (word v x))).
Proof.
  intros Hr Hx Lx.
  destruct (absoluteValue_spec x b ins outs (reachable_wf _ _ _ Hr) Hx Lx) as (r & b' & E & Hw' & He & D).
  exists r, b'. split_all; [done..|]. by apply (denotes_all_number b' ins outs).
Qed.
End Theorems.

Section Witnesses.
#[local] Existing Instance no_types.

Lemma small_width n k : 0 < n → n ≤ k → 0 < n < 2 ^ k.
Proof. intros Hn Hk. pose proof (Nat.pow_gt_lin_r 2 k). lia. Qed.

Lemma demo_word : srcs (demo 2) [LinkTo 0; LinkTo 1] ∧ 0 < length [LinkTo 0; LinkTo 1] < 2 ^ 15.
Proof. split; [apply demo_srcs|cbn [length]; apply small_width; lia]. Qed.

Lemma adder_unsigned_witness : ∃ r b',
  synthLadnerFisherAdd [LinkTo 0; LinkTo 1] [LinkTo 0; LinkTo 1] 3 false false (demo 2) = Some (r, b') ∧
  ext (demo 2) b' ∧ denotes_number b' r 3
    (λ v, (Z_of_bits (word v [LinkTo 0; LinkTo 1]) + Z_of_bits (word v [LinkTo 0; LinkTo 1]))%Z).
Proof.
  destruct demo_word as [S L]. apply (adder_unsigned _ _ _ _ _ 3 demo2_reachable S S L L). apply small_width; lia.
Defined.

Lemma adder_signed_witness : ∃ r b',
  synthLadnerFisherAdd [LinkTo 0; LinkTo 1] [LinkTo 1; LinkTo 0] 5 true false (demo 2) = Some (r, b') ∧
  ext (demo 2) b' ∧ denotes_number b' r 5
    (λ v, (Z_of_sbits (word v [LinkTo 0; LinkTo 1]) + Z_of_sbits (word v [LinkTo 1; LinkTo 0]))%Z).
Proof.
  destruct demo_word as [S L]. apply (adder_signed _ _ _ _ _ 5 demo2_reachable S); [|exact L|done|apply small_width; lia].
  apply Forall_cons_1 in S as [S0 S1]. apply Forall_cons_1 in S1 as [S1 _].
  exact (Forall_cons_2 _ _ _ S1 (Forall_cons_2 _ _ _ S0 (Forall_nil_2 _))).
Defined.

Lemma twosComplement_negates_witness : ∃ r b',
  twosComplement [LinkTo 0; LinkTo 1] 4 true (demo 2) = Some (r, b') ∧ ext (demo 2) b' ∧
  denotes_number b' r 4 (λ v, (- Z_of_word true (take 4 (word v [LinkTo 0; LinkTo 1])))%Z).
Proof.
  destruct demo_word as [S L].
  apply (twosComplement_negates _ _ _ _ 4 true demo2_reachable S); [cbn; lia|apply small_width; lia].
Defined.

Lemma absoluteValue_correct_witness : ∃ r b',
  absoluteValue [LinkTo 0; LinkTo 1] (demo 2) = Some (r, b') ∧ ext (demo 2) b' ∧
  denotes_number b' r 2 (λ v, Z.abs (Z_of_sbits (word v [LinkTo 0; LinkTo 1]))).
Proof. destruct demo_word as [S L]. exact (absoluteValue_correct _ _ _ _ demo2_reachable S L). Defined.
End Witnesses.
