(* ===== verification/SynthBits.v ===== *)
(** * Bitwise operations, reductions and multiplexers
    ([gate/synthesizer/operation/bitwise.cpp, reduction.cpp, multiplexer.cpp]) *)

From S2P Require Import Prelude CellType SubnetBase Builder BuilderInv BuilderSpec BuilderEval MakeSpec.
From S2P Require Import CellAttr Adder AdderSum AdderArith Synth SynthArith.
From stdpp Require Import gmap strings.

(** ** Definitions *)

Section Routines.
Context `{TypeStore}.

(** [links[i]]: the vector is not checked, an index past its end is undefined. *)
Definition link_at (l : LinkList) (i : nat) : st SubnetBuilder Link := st_read (λ _, l !! i).

(** [links[i] = x] *)
Definition set_link (l : LinkList) (i : nat) (x : Link) : st SubnetBuilder LinkList :=
  st_assert (i <? length l) ;; mret (<[i := x]> l).

Definition positive_link (positive : bool) (l : Link) : Link := if positive then l else link_not l.

(* gate/synthesizer/operation/bitwise.cpp:14-39 [synthBOp2] *)
Definition synthBOp2 (symbol : CellSymbol) (attr : CellTypeAttr) (signExtend positive : bool)
    : option Subnet := run_make (
  wIn0 ← in_width attr 0; wIn1 ← in_width attr 1; wOut ← out_width attr 0;
  lhs ← addInputs wIn0;
  rhs ← addInputs wIn1;
  lhs ← extend lhs wOut signExtend;
  rhs ← extend rhs wOut signExtend;
  st_for (seq 0 wOut) (λ i,
    l ← link_at lhs i; r ← link_at rhs i;
    res ← addGate symbol [l; r];
    addOutput (positive_link positive res) ;; mret ())).

(* gate/synthesizer/operation/bitwise.cpp:41-60 [synthBNot] *)
Definition synthBNot (attr : CellTypeAttr) (signExtend : bool) : option Subnet := run_make (
  wIn ← in_width attr 0; wOut ← out_width attr 0;
  arg ← addInputs wIn;
  arg ← extend arg wOut signExtend;
  st_for (seq 0 wOut) (λ i, l ← link_at arg i; addOutput (link_not l) ;; mret ())).

(* gate/synthesizer/operation/bitwise.cpp:62-64 [synthBNotS] *)
Definition synthBNotS (attr : CellTypeAttr) := synthBNot attr true.
(* gate/synthesizer/operation/bitwise.cpp:66-68 [synthBNotU] *)
Definition synthBNotU (attr : CellTypeAttr) := synthBNot attr false.
(* gate/synthesizer/operation/bitwise.cpp:70-72 [synthBAndS] *)
Definition synthBAndS (attr : CellTypeAttr) := synthBOp2 AND attr true true.
(* gate/synthesizer/operation/bitwise.cpp:74-76 [synthBAndU] *)
Definition synthBAndU (attr : CellTypeAttr) := synthBOp2 AND attr false true.
(* gate/synthesizer/operation/bitwise.cpp:78-80 [synthBOrS] *)
Definition synthBOrS (attr : CellTypeAttr) := synthBOp2 OR attr true true.
(* gate/synthesizer/operation/bitwise.cpp:82-84 [synthBOrU] *)
Definition synthBOrU (attr : CellTypeAttr) := synthBOp2 OR attr false true.
(* gate/synthesizer/operation/bitwise.cpp:86-88 [synthBXorS] *)
Definition synthBXorS (attr : CellTypeAttr) := synthBOp2 XOR attr true true.
(* gate/synthesizer/operation/bitwise.cpp:90-92 [synthBXorU] *)
Definition synthBXorU (attr : CellTypeAttr) := synthBOp2 XOR attr false true.
(* gate/synthesizer/operation/bitwise.cpp:94-96 [synthBNandS] *)
Definition synthBNandS (attr : CellTypeAttr) := synthBOp2 AND attr true false.
(* gate/synthesizer/operation/bitwise.cpp:98-100 [synthBNandU] *)
Definition synthBNandU (attr : CellTypeAttr) := synthBOp2 AND attr false false.
(* gate/synthesizer/operation/bitwise.cpp:102-104 [synthBNorS] *)
Definition synthBNorS (attr : CellTypeAttr) := synthBOp2 OR attr true false.
(* gate/synthesizer/operation/bitwise.cpp:106-108 [synthBNorU] *)
Definition synthBNorU (attr : CellTypeAttr) := synthBOp2 OR attr false false.
(* gate/synthesizer/operation/bitwise.cpp:110-112 [synthBXnorS] *)
Definition synthBXnorS (attr : CellTypeAttr) := synthBOp2 XOR attr true false.
(* gate/synthesizer/operation/bitwise.cpp:114-116 [synthBXnorU] *)
Definition synthBXnorU (attr : CellTypeAttr) := synthBOp2 XOR attr false false.

(* gate/synthesizer/operation/reduction.cpp:14-28 [synthROp] *)
Definition synthROp (symbol : CellSymbol) (attr : CellTypeAttr) (positive : bool) : option Subnet := run_make (
  wIn ← in_width attr 0;
  arg ← addInputs wIn;
  res ← addCellTree symbol arg 2;
  addOutput (positive_link positive res) ;;
  wOut ← out_width attr 0;
  extendOutput wOut false).

(* gate/synthesizer/operation/reduction.cpp:30-32 [synthRAnd] *)
Definition synthRAnd (attr : CellTypeAttr) := synthROp AND attr true.
(* gate/synthesizer/operation/reduction.cpp:34-36 [synthROr] *)
Definition synthROr (attr : CellTypeAttr) := synthROp OR attr true.
(* gate/synthesizer/operation/reduction.cpp:38-40 [synthRXor] *)
Definition synthRXor (attr : CellTypeAttr) := synthROp XOR attr true.
(* gate/synthesizer/operation/reduction.cpp:42-44 [synthRNand] *)
Definition synthRNand (attr : CellTypeAttr) := synthROp AND attr false.
(* gate/synthesizer/operation/reduction.cpp:46-48 [synthRNor] *)
Definition synthRNor (attr : CellTypeAttr) := synthROp OR attr false.
(* gate/synthesizer/operation/reduction.cpp:50-52 [synthRXnor] *)
Definition synthRXnor (attr : CellTypeAttr) := synthROp XOR attr false.

(** The two AND cells are the arguments of one call: C++ does not fix which is
    added first, here it is the first one. *)
(* gate/synthesizer/operation/multiplexer.cpp:17-25 [addMux2] *)
Definition addMux2 (s x y : Link) : st SubnetBuilder Link :=
  a ← addGate AND [link_not s; x];
  b ← addGate AND [s; y];
  addGate OR [a; b].

(* gate/synthesizer/operation/multiplexer.cpp:29-39 [addMux2 (S, X)] *)
Definition addMux2_half (s : Link) (x : LinkList) : st SubnetBuilder LinkList :=
  st_assert ((0 <? length x) && Nat.even (length x)) ;;
  let n := length x / 2 in
  st_map (λ i, a ← link_at x i; b ← link_at x (n + i); addMux2 s a b) (seq 0 n).

(* gate/synthesizer/operation/multiplexer.cpp:43-54 [addMux2 (S, X, Y)] *)
Definition addMux2_words (s : Link) (x y : LinkList) : st SubnetBuilder LinkList :=
  st_assert (length x =? length y) ;;
  st_map (λ i, a ← link_at x i; b ← link_at y i; addMux2 s a b) (seq 0 (length x)).

(* gate/synthesizer/operation/multiplexer.cpp:58-66 [addDemux2] *)
Definition addDemux2 (s x : Link) : st SubnetBuilder (Link * Link) :=
  a ← addGate AND [link_not s; x];
  b ← addGate AND [s; x];
  mret (a, b).

(** The loop of the multibit demultiplexer: the second link of every step goes
    to the entry [x.size() + 1]. *)
Fixpoint addDemux2_loop (s : Link) (x : LinkList) (i : nat) (rest links : LinkList) : st SubnetBuilder LinkList :=
  match rest with
  | [] => mret links
  | l :: rest =>
      '(a, b) ← addDemux2 s l;
      links ← set_link links i a;
      links ← set_link links (length x + 1) b;
      addDemux2_loop s x (i + 1) rest links
  end.

(* gate/synthesizer/operation/multiplexer.cpp:70-79 [addDemux2 (S, X)] *)
Definition addDemux2_word (s : Link) (x : LinkList) : st SubnetBuilder LinkList :=
  addDemux2_loop s x 0 x (replicate (2 * length x) (LinkTo 0)).

(* gate/synthesizer/operation/multiplexer.cpp:83-98 [synthBMux] *)
Definition synthBMux (attr : CellTypeAttr) : option Subnet := run_make (
  wS ← in_width attr 0; s ← addInputs wS;
  wX ← in_width attr 1; x ← addInputs wX;
  wY ← in_width attr 2; y ← addInputs wY;
  st_assert ((length s =? length x) && (length x =? length y)) ;;
  out ← st_map (λ i, c ← link_at s i; a ← link_at x i; b ← link_at y i; addMux2 c a b) (seq 0 (length x));
  addOutputs out).

(* gate/synthesizer/operation/multiplexer.cpp:102-116 [synthMux2] *)
Definition synthMux2 (attr : CellTypeAttr) : option Subnet := run_make (
  s ← addInput;
  wX ← in_width attr 1; x ← addInputs wX;
  wY ← in_width attr 2; y ← addInputs wY;
  st_assert (length x =? length y) ;;
  out ← st_map (λ i, a ← link_at x i; b ← link_at y i; addMux2 s a b) (seq 0 (length x));
  addOutputs out).

(** The loop over the selectors. *)
Fixpoint mux_loop (s x : LinkList) : st SubnetBuilder LinkList :=
  match s with
  | [] => mret x
  | c :: s => x ← addMux2_half c x; mux_loop s x
  end.

(* gate/synthesizer/operation/multiplexer.cpp:120-132 [synthMux] *)
Definition synthMux (attr : CellTypeAttr) : option Subnet := run_make (
  wS ← in_width attr 0; s ← addInputs wS;
  wX ← in_width attr 1; x ← addInputs wX;
  x ← mux_loop s x;
  wOut ← out_width attr 0;
  st_assert (length x =? wOut) ;;
  addOutputs x).

(* gate/synthesizer/operation/multiplexer.cpp:136-151 [synthBDemux] *)
Definition synthBDemux (attr : CellTypeAttr) : option Subnet := run_make (
  wS ← in_width attr 0; s ← addInputs wS;
  wX ← in_width attr 1; x ← addInputs wX;
  st_assert (length s =? length x) ;;
  out ← st_map (λ i, c ← link_at s i; a ← link_at x i; addDemux2 c a) (seq 0 (length s));
  addOutputs (fst <$> out) ;;
  addOutputs (snd <$> out)).

(* gate/synthesizer/operation/multiplexer.cpp:155-167 [synthDemux2] *)
Definition synthDemux2 (attr : CellTypeAttr) : option Subnet := run_make (
  s ← addInput;
  wX ← in_width attr 1; x ← addInputs wX;
  out ← st_map (addDemux2 s) x;
  addOutputs ((fst <$> out) ++ (snd <$> out))).

Fixpoint demux_loop (s x : LinkList) : st SubnetBuilder LinkList :=
  match s with
  | [] => mret x
  | c :: s => x ← addDemux2_word c x; demux_loop s x
  end.

(* gate/synthesizer/operation/multiplexer.cpp:171-182 [synthDemux] *)
Definition synthDemux (attr : CellTypeAttr) : option Subnet := run_make (
  wS ← in_width attr 0; s ← addInputs wS;
  wX ← in_width attr 1; x ← addInputs wX;
  x ← demux_loop s x;
  addOutputs x).
End Routines.

(** ** Bits of numbers *)

Lemma ext_word_bits se m x : 0 < length x → length x ≤ m →
  x ++ replicate (m - length x) (se && msb x) = bits_of m (Z_of_word se x).
Proof.
  intros Hx Hm. apply bits_of_eq; [rewrite length_app, length_replicate; lia|].
  rewrite Z_of_bits_app_replicate. replace (length x + (m - length x)) with m by lia.
  pose proof (Z_of_bits_bound x) as Hb.
  assert (2 ^ Z.of_nat (length x) ≤ 2 ^ Z.of_nat m)%Z by (apply Z.pow_le_mono_r; lia).
  destruct se; cbn [andb Z_of_word]; [|by rewrite Z.mul_0_l, Z.add_0_r, Z.mod_small by lia].
  unfold Z_of_sbits. rewrite <- (Z_mod_plus_full (Z_of_bits x - _) (Z.b2z (msb x))).
  rewrite Z.mod_small; [ring|]. destruct (msb x); cbn [Z.b2z]; lia.
Qed.

Lemma bits_of_lookup n z i : i < n → bits_of n z !! i = Some (Z.testbit z (Z.of_nat i)).
Proof. intros Hi. unfold bits_of. by rewrite list_lookup_fmap, lookup_seq_lt by lia. Qed.

(** The bits of a number: those of its word, then its sign. *)
Lemma testbit_word se x i : 0 < length x →
  Z.testbit (Z_of_word se x) (Z.of_nat i) = if i <? length x then bit x i else se && msb x.
Proof.
  intros Hx. set (m := max (S i) (length x)).
  pose proof (bits_of_lookup m (Z_of_word se x) i ltac:(lia)) as Hi.
  rewrite <- ext_word_bits in Hi by lia. unfold bit. destruct (Nat.ltb_spec i (length x)).
  - rewrite lookup_app_l in Hi by lia. by rewrite Hi.
  - rewrite lookup_app_r, lookup_replicate_2 in Hi by lia. congruence.
Qed.

Lemma bits_of_fmap n z : bits_of n z = (λ i, Z.testbit z (Z.of_nat i)) <$> seq 0 n.
Proof. done. Qed.

(** The result of a routine with a complement. *)
Definition Z_positive (positive : bool) (z : Z) : Z := if positive then z else Z.lnot z.

Lemma testbit_positive p z i : Z.testbit (Z_positive p z) (Z.of_nat i) = xorb (negb p) (Z.testbit z (Z.of_nat i)).
Proof. destruct p; cbn [Z_positive negb xorb]; [by destruct (Z.testbit _ _)|]. by rewrite Z.lnot_spec by lia. Qed.

Section Specs.
Context `{TypeStore}.

Lemma denotes_positive b p l f : denotes b l f → denotes b (positive_link p l) (λ v, xorb (negb p) (f v)).
Proof.
  intros D. destruct p; cbn [positive_link negb xorb].
  - eapply denotes_eq; [|exact D]. intros v. by destruct (f v).
  - eapply denotes_eq; [|exact (denotes_not _ _ _ D)]. intros v. cbn. by destruct (f v).
Qed.

(** A word of links whose entries below [n] denote the bits of a number. *)
Definition word_bits (b : SubnetBuilder) (ls : LinkList) (n : nat) (z : valuation → Z) : Prop :=
  ∀ i, i < n → ∃ l, ls !! i = Some l ∧ denotes b l (λ v, Z.testbit (z v) (Z.of_nat i)).

Lemma word_bits_ext b b' ls n z : ext b b' → word_bits b ls n z → word_bits b' ls n z.
Proof.
  intros He Hz i Hi. destruct (Hz i Hi) as (l & Hl & D). exists l. split; [done|].
  eapply denotes_ext; [exact He|exact D].
Qed.

Lemma denotes_at b ls l i : srcs b ls → ls !! i = Some l → denotes b l (λ v, bit (word v ls) i).
Proof.
  intros Hs Hl. eapply denotes_eq; [|apply denotes_self; by eapply src_at].
  intros v. cbn. symmetry. by apply (bit_word v ls i l).
Qed.

Lemma extend_spec w width se b ins outs : wf b ins outs → srcs b w → 0 < length w →
  adds ins outs b (extend w width se) (λ b' r, word_bits b' r width (λ v, Z_of_word se (word v w))).
Proof.
  intros Hw Hs Hl. unfold extend.
  assert (∀ b' i l, ext b b' → w !! i = Some l →
    denotes b' l (λ v, Z.testbit (Z_of_word se (word v w)) (Z.of_nat i))) as Hlow.
  { intros b' i l He Hi. pose proof (lookup_lt_Some _ _ _ Hi).
    eapply denotes_ext; [exact He|]. eapply denotes_eq; [|by apply denotes_at].
    intros v. rewrite testbit_word by (rewrite word_length; lia).
    by rewrite word_length, (proj2 (Nat.ltb_lt _ _)). }
  destruct (Nat.leb_spec width (length w)) as [Hwd|Hwd].
  { apply adds_ret; [done|]. intros i Hi. destruct (lookup_lt_is_Some_2 w i) as [l E]; [lia|].
    exists l. split; [done|]. by apply (Hlow b). }
  destruct (Nat.eqb_spec (length w) 0) as [|_]; [lia|]. rewrite andb_true_r.
  assert (adds ins outs b (if se then back w else addGate ZERO [])
    (λ b' l, denotes b' l (λ v, se && msb (word v w)))) as Hbit.
  { destruct se; cbn [andb]; [|by apply add_zero].
    destruct (denotes_back b w _ (denotes_all_word b w Hs)) as (l & El & Dl); [lia|intros v; apply word_length|].
    exists l, b. split; [unfold back, st_read; by rewrite El|by split]. }
  eapply adds_bind; [exact Hbit|]. intros l b1 Hw1 He1 Dl. apply adds_ret; [done|]. intros i Hi.
  destruct (decide (i < length w)) as [Hi'|Hi'].
  - destruct (lookup_lt_is_Some_2 w i Hi') as [k E]. exists k. split; [by rewrite lookup_app_l|]. by apply Hlow.
  - exists l. split; [rewrite lookup_app_r, lookup_replicate_2 by lia; done|].
    eapply denotes_eq; [|exact Dl]. intros v. rewrite testbit_word by (rewrite word_length; lia).
    by rewrite word_length, (proj2 (Nat.ltb_ge _ _)) by lia.
Qed.

(** A loop that adds the output of every bit of a word. *)
Lemma emits_bits (f : nat → st SubnetBuilder unit) n k F b ins z : wf b ins [] → ext empty_builder b → length ins = k →
  0 < n →
  (∀ i b' outs' g', i < n → ext b b' → emits b' ins outs' g' →
     wp (f i) b' (λ _ b'', ∃ o, emits b'' ins (outs' ++ [o]) (λ v, g' v ++ [Z.testbit (z v) (Z.of_nat i)]) ∧ ext b' b'')) →
  (∀ v, z v = F ((λ i, v i 0) <$> ins)) →
  wp (st_for (seq 0 n) f) b (finished k (λ xs, bits_of n (F xs))).
Proof.
  intros Hw He Hk Hn Hf HF. eapply wp_mono.
  { apply (emits_for (seq 0 n) f (λ v i, Z.testbit (z v) (Z.of_nat i)) ins b [] (λ _, [])); [by apply emits_nil|].
    intros i b' outs' g' Hi. apply elem_of_seq in Hi. apply Hf. lia. }
  intros [] b' (os & Ho & _ & _). eapply (emits_finish b' ins _ k n); [exact Ho|done|done| |].
  - intros v. cbn. by rewrite length_fmap, length_seq.
  - intros v _. cbn. by rewrite <- HF.
Qed.
End Specs.

(** ** Bitwise operations *)

Section Bitwise.
Context `{TypeStore}.
Context (symbol : CellSymbol) (bop : bool → bool → bool) (zop : Z → Z → Z).
Context (Hok : gate_ok symbol 2 = true) (Hg : ∀ x y, gate_fun symbol [x; y] = Some (bop x y)).
Context (Hz : ∀ a b i, Z.testbit (zop a b) (Z.of_nat i) = bop (Z.testbit a (Z.of_nat i)) (Z.testbit b (Z.of_nat i))).
Context (attr : CellTypeAttr) (wA wB wO : N) (signed positive : bool).
Context (HA : getInWidth attr 0 = Some wA) (HB : getInWidth attr 1 = Some wB) (HO : getOutWidth attr 0 = Some wO).
Context (RA : 0 < N.to_nat wA) (RB : 0 < N.to_nat wB) (RO : 0 < N.to_nat wO).

(** The subnet of a bitwise operation of two operands computes the operation
    on the (extended) numbers, complemented for the negative operations. *)
Theorem synthBOp2_spec : ∃ s, synthBOp2 symbol attr signed positive = Some s ∧
  implements s (N.to_nat wA + N.to_nat wB) (λ xs, bits_of (N.to_nat wO) (Z_positive positive
    (zop (Z_of_word signed (take (N.to_nat wA) xs)) (Z_of_word signed (drop (N.to_nat wA) xs))))).
Proof.
  apply run_implements. eapply wp_in_width; [exact HA|]. eapply wp_in_width; [exact HB|].
  eapply wp_out_width; [exact HO|]. eapply wp_two_inputs; [apply RA|apply RB|].
  intros x y b ins Hw He Hn Hx Hy Lx Ly Vx Vy.
  eapply wp_adds; [done|apply extend_spec; [done|exact Hx|lia]|]. intros x' b1 Hw1 E1 E1' Dx.
  eapply wp_adds; [done|apply extend_spec; [done|eapply srcs_ext; [exact E1'|exact Hy]|lia]|].
  intros y' b2 Hw2 E2 E2' Dy. apply (word_bits_ext _ _ _ _ _ E2') in Dx.
  apply (emits_bits _ _ _ _ b2 ins (λ v, Z_positive positive (zop (Z_of_word signed (word v x)) (Z_of_word signed (word v y)))));
    [done|done|done|done| |intros v; by rewrite <- Vx, <- Vy].
  intros i b' outs' g' Hi He' Hg'. destruct (Dx i Hi) as (l & El & Dl). destruct (Dy i Hi) as (k & Ek & Dk).
  eapply wp_read; [exact El|]. eapply wp_read; [exact Ek|].
  apply (denotes_ext _ _ _ _ He') in Dl, Dk.
  apply wp_bind. eapply wp_mono.
  { eapply emits_adds; [exact Hg'|]. by apply (add_gate2 symbol bop); [| |apply Hg'| |]. }
  intros r b3 (Hg3 & E3 & Dr). apply wp_bind. eapply wp_mono.
  { eapply emits_output; [exact Hg3|]. apply (denotes_positive _ positive _ _ Dr). }
  intros o b4 (Hg4 & E4). apply wp_ret. exists (idx o). split; [|by etransitivity].
  eapply emits_eq; [|exact Hg4]. intros v. cbn. by rewrite testbit_positive, Hz.
Qed.
End Bitwise.

Section Not.
Context `{TypeStore}.
Context (attr : CellTypeAttr) (wA wO : N) (signed : bool).
Context (HA : getInWidth attr 0 = Some wA) (HO : getOutWidth attr 0 = Some wO).
Context (RA : 0 < N.to_nat wA) (RO : 0 < N.to_nat wO).

Lemma synthBNot_spec : ∃ s, synthBNot attr signed = Some s ∧
  implements s (N.to_nat wA) (λ xs, bits_of (N.to_nat wO) (Z.lnot (Z_of_word signed xs))).
Proof.
  apply run_implements. eapply wp_in_width; [exact HA|]. eapply wp_out_width; [exact HO|].
  eapply wp_one_input; [apply RA|]. intros x b ins Hw He Hn Hx Lx Vx.
  eapply wp_adds; [done|apply extend_spec; [done|exact Hx|lia]|]. intros x' b1 Hw1 E1 E1' Dx.
  apply (emits_bits _ _ _ _ b1 ins (λ v, Z.lnot (Z_of_word signed (word v x))));
    [done|done|done|done| |intros v; by rewrite <- Vx].
  intros i b' outs' g' Hi He' Hg'. destruct (Dx i Hi) as (l & El & Dl).
  eapply wp_read; [exact El|]. apply (denotes_ext _ _ _ _ He') in Dl.
  apply wp_bind. eapply wp_mono; [eapply emits_output; [exact Hg'|exact (denotes_not _ _ _ Dl)]|].
  intros o b4 (Hg4 & E4). apply wp_ret. exists (idx o). split; [|done].
  eapply emits_eq; [|exact Hg4]. intros v. cbn. by rewrite Z.lnot_spec by lia.
Qed.
End Not.

(** ** Reductions *)

Section Reduction.
Context `{TypeStore}.

(** The value of a gate over all the bits of a word. *)
Definition reduce (s : CellSymbol) (xs : list bool) : bool := default false (gate_fun s xs).

Lemma extendOutput_zero width b ins outs g : emits b ins outs g → (∀ v, length (g v) = length outs) →
  wp (extendOutput width false) b (λ _ b', ∃ os, emits b' ins os (λ v, g v ++ replicate (width - length outs) false)).
Proof.
  intros Hg Lg. unfold extendOutput. assert (b_nOut b = length outs) as En.
  { destruct Hg as ([segs [? ? ? ? ? ? ? ? (_ & -> & _) ?]] & _). done. }
  apply wp_bind. exists (b_nOut b), b. split; [done|]. rewrite En.
  destruct (Nat.leb_spec width (length outs)) as [Hle|Hlt].
  { apply wp_ret. exists outs. replace (width - length outs) with 0 by lia.
    eapply emits_eq; [|exact Hg]. intros v. by rewrite app_nil_r. }
  cbn [andb]. apply wp_bind. eapply wp_mono; [eapply emits_adds; [exact Hg|apply add_zero, Hg]|].
  intros z b1 (Hg1 & E1 & Dz). eapply wp_mono.
  { apply (emits_for (seq 0 (width - length outs)) _ (λ _ _, false) ins _ _ _ Hg1).
    intros x b' outs' g' _ He' Hg'. apply wp_bind. eapply wp_mono.
    - eapply emits_output; [exact Hg'|]. eapply denotes_ext; [exact He'|exact Dz].
    - intros o b3 (Hg3 & E3). apply wp_ret. exists (idx o). by split. }
  intros [] b2 (os & Hg2 & _ & _). eexists. eapply emits_eq; [|exact Hg2]. intros v. cbn.
  f_equal. rewrite <- (length_seq (width - length outs) 0) at 2. generalize (seq 0 (width - length outs)).
  intros l. induction l as [|y l IH]; [done|]. cbn. by rewrite IH.
Qed.

(** The end of a routine with a result of one bit. *)
Lemma wp_finish_bit attr wO n f l g b ins : wf b ins [] → ext empty_builder b → length ins = n →
  getOutWidth attr 0 = Some wO → 0 < N.to_nat wO → denotes b l g → (∀ v, g v = f ((λ i, v i 0) <$> ins)) →
  wp (addOutput l ;; w ← out_width attr 0; extendOutput w false) b
    (finished n (λ xs, bits_of (N.to_nat wO) (Z.b2z (f xs)))).
Proof.
  intros Hw He Hn HO RO D Hf. apply wp_bind. eapply wp_mono; [eapply emits_output; [by apply emits_nil|exact D]|].
  intros o b2 (Hg2 & E2). eapply wp_out_width; [exact HO|].
  eapply wp_mono; [eapply extendOutput_zero; [exact Hg2|done]|]. intros [] b3 (os & Hg3).
  eapply (emits_finish b3 ins _ _ (N.to_nat wO)); [exact Hg3|done|done| |].
  - intros v. cbn. rewrite length_replicate. lia.
  - intros v Hv3. cbn [app length]. rewrite <- Hf. set (c := g v).
    apply bits_of_eq; [cbn; rewrite length_replicate; lia|].
    change (c :: ?l) with ([c] ++ l). rewrite Z_of_bits_app_replicate. cbn.
    rewrite Z.mod_small; [destruct c; cbn; lia|].
    assert (2 ^ 1 ≤ 2 ^ Z.of_nat (N.to_nat wO))%Z by (apply Z.pow_le_mono_r; lia). destruct c; cbn; lia.
Qed.

Context (symbol : CellSymbol) (ty : CellType).
Context (Hty : getCellType symbol = Some ty) (Hr : regroupable (props ty) = true).
Context (attr : CellTypeAttr) (wA wO : N) (positive : bool).
Context (HA : getInWidth attr 0 = Some wA) (HO : getOutWidth attr 0 = Some wO).
Context (RA : 0 < N.to_nat wA) (RO : 0 < N.to_nat wO).

(** The subnet of a reduction computes the gate over all the bits of the
    operand, complemented for the negative operations, with zeros above it. *)
Theorem synthROp_spec : ∃ s, synthROp symbol attr positive = Some s ∧
  implements s (N.to_nat wA) (λ xs, bits_of (N.to_nat wO) (Z.b2z (xorb (negb positive) (reduce symbol xs)))).
Proof.
  apply run_implements. eapply wp_in_width; [exact HA|]. eapply wp_one_input; [apply RA|].
  intros x b ins Hw He Hn Hx Lx Vx.
  eapply wp_adds; [done|apply (addCellTree_spec symbol ty); [done|done|unfold InPlaceLinks; lia|done|exact Hx|]|].
  { intros ->. cbn in Lx. lia. }
  intros r b1 Hw1 E1 E1' [Hs Hv].
  assert (denotes b1 r (λ v, reduce symbol (word v x))) as Dr.
  { split; [done|]. intros v Hc. unfold reduce, word. by rewrite (Hv v Hc). }
  apply (wp_finish_bit attr wO _ (λ xs, xorb (negb positive) (reduce symbol xs)) _ _ b1 ins Hw1 E1 Hn HO RO
    (denotes_positive _ positive _ _ Dr)).
  intros v. by rewrite <- Vx.
Qed.
End Reduction.

(** ** Multiplexers *)

Section Mux.
Context `{TypeStore}.

Lemma addMux2_spec s x y fs fx fy b ins outs :
  wf b ins outs → denotes b s fs → denotes b x fx → denotes b y fy →
  adds ins outs b (addMux2 s x y) (λ b' r, denotes b' r (λ v, if fs v then fy v else fx v)).
Proof.
  intros Hw Ds Dx Dy. unfold addMux2.
  eapply adds_bind; [apply add_and; [done|exact (denotes_not _ _ _ Ds)|exact Dx]|]. intros l b1 Hw1 E1 D1.
  eapply adds_bind; [apply add_and; [done|eapply denotes_ext; [exact E1|exact Ds]|eapply denotes_ext; [exact E1|exact Dy]]|].
  intros k b2 Hw2 E2 D2. eapply adds_mono; [apply add_or; [done|eapply denotes_ext; [exact E2|exact D1]|exact D2]|].
  intros r b3 _ Dr. eapply denotes_eq; [|exact Dr]. intros v. cbn. by destruct (fs v), (fx v), (fy v).
Qed.

Lemma addDemux2_spec s x fs fx b ins outs :
  wf b ins outs → denotes b s fs → denotes b x fx →
  adds ins outs b (addDemux2 s x) (λ b' r, denotes b' r.1 (λ v, negb (fs v) && fx v) ∧
    denotes b' r.2 (λ v, fs v && fx v)).
Proof.
  intros Hw Ds Dx. unfold addDemux2.
  eapply adds_bind; [apply add_and; [done|exact (denotes_not _ _ _ Ds)|exact Dx]|]. intros l b1 Hw1 E1 D1.
  eapply adds_bind; [apply add_and; [done|eapply denotes_ext; [exact E1|exact Ds]|eapply denotes_ext; [exact E1|exact Dx]]|].
  intros k b2 Hw2 E2 D2. apply adds_ret; [done|]. split; [eapply denotes_ext; [exact E2|exact D1]|exact D2].
Qed.

(** Choices between the words [x] and [y], bit by bit. *)
Definition select (c : nat → bool) (x y : list bool) : list bool :=
  (λ i, if c i then bit y i else bit x i) <$> seq 0 (length x).

Lemma select_const c x y : length x = length y → select (λ _, c) x y = if c then y else x.
Proof.
  intros Hl. apply list_eq. intros i. unfold select, bit. rewrite list_lookup_fmap.
  destruct (decide (i < length x)) as [Hi|Hi].
  - rewrite lookup_seq_lt by done. cbn. destruct (lookup_lt_is_Some_2 x i Hi) as [? E].
    destruct (lookup_lt_is_Some_2 y i) as [? E']; [lia|]. rewrite E, E'. by destruct c.
  - rewrite (lookup_ge_None_2 (seq _ _)) by (rewrite length_seq; lia). cbn. symmetry.
    destruct c; apply lookup_ge_None_2; lia.
Qed.

(** A loop of multiplexers over the entries of words. *)
Lemma mux_words (f : nat → st SubnetBuilder Link) (c : valuation → nat → bool) x y b ins outs :
  wf b ins outs → srcs b x → srcs b y → length x = length y →
  (∀ i a d b', x !! i = Some a → y !! i = Some d → ext b b' →
     ∃ s, f i b' = addMux2 s a d b' ∧ denotes b' s (λ v, c v i)) →
  adds ins outs b (st_map f (seq 0 (length x)))
    (λ b' r, length r = length x ∧ denotes_all b' r (λ v, select (c v) (word v x) (word v y))).
Proof.
  intros Hw Hx Hy Hl Hc. eapply adds_mono.
  - apply (adds_map ins outs _ (λ b' i l, denotes b' l (λ v, if c v i then bit (word v y) i else bit (word v x) i))).
    + intros b1 b2 i l He D. eapply denotes_ext; [exact He|exact D].
    + done.
    + intros i b1 Hi Hw1 E1. apply elem_of_seq in Hi.
      destruct (lookup_lt_is_Some_2 x i) as [l El]; [lia|]. destruct (lookup_lt_is_Some_2 y i) as [k Ek]; [lia|].
      destruct (Hc i l k b1 El Ek E1) as (s & Ef & Ds). unfold adds, wp. rewrite Ef.
      apply addMux2_spec; [done|done|eapply denotes_ext; [exact E1|by apply denotes_at]..].
  - intros r b1 _ HF. split; [by rewrite <- (Forall2_length _ _ _ HF), length_seq|].
    eapply denotes_all_eq; [|exact (denotes_all_map _ _ _ _ HF)].
    intros v. unfold select. by rewrite word_length.
Qed.

(** One selector for the whole word. *)
Lemma addMux2_words_spec s fs x y b ins outs :
  wf b ins outs → denotes b s fs → srcs b x → srcs b y → length x = length y →
  adds ins outs b (addMux2_words s x y) (λ b' r, length r = length x ∧
    denotes_all b' r (λ v, if fs v then word v y else word v x)).
Proof.
  intros Hw Ds Hx Hy Hl. unfold addMux2_words. eapply adds_assert_bind; [by apply Nat.eqb_eq|].
  eapply adds_mono; [apply (mux_words _ (λ v _, fs v) x y); [done..|]|].
  - intros i l k b' El Ek He. exists s. split; [|eapply denotes_ext; [exact He|exact Ds]].
    unfold link_at, st_read. unfold mbind, st_bind. by rewrite El, Ek.
  - intros r b' _ [Lr D]. split; [done|]. eapply denotes_all_eq; [|exact D]. intros v. cbn.
    apply select_const. by rewrite !word_length.
Qed.

Lemma addMux2_half_spec s fs x n b ins outs :
  wf b ins outs → denotes b s fs → srcs b x → length x = 2 * n → 0 < n →
  adds ins outs b (addMux2_half s x) (λ b' r, length r = n ∧
    denotes_all b' r (λ v, if fs v then drop n (word v x) else take n (word v x))).
Proof.
  intros Hw Ds Hx Hl Hn. unfold addMux2_half.
  eapply adds_assert_bind; [rewrite Hl, Nat.even_mul; apply andb_true_iff; split; [apply Nat.ltb_lt; lia|done]|].
  replace (length x / 2) with n by (rewrite Hl, Nat.mul_comm; symmetry; by apply Nat.div_mul).
  assert (length (take n x) = n) as Lt by (rewrite length_take; lia).
  assert (length (drop n x) = n) as Ld by (rewrite length_drop; lia).
  replace (seq 0 n) with (seq 0 (length (take n x))) by (by rewrite Lt).
  eapply adds_mono; [apply (mux_words _ (λ v _, fs v) (take n x) (drop n x));
    [done|by apply Forall_take|by apply Forall_drop|lia|]|].
  - intros i l k b' El Ek He. exists s. split; [|eapply denotes_ext; [exact He|exact Ds]].
    rewrite lookup_drop in Ek. pose proof (lookup_lt_Some _ _ _ El). rewrite lookup_take_lt in El by lia.
    unfold link_at, st_read. unfold mbind, st_bind. by rewrite El, Ek.
  - intros r b' _ [Lr D]. split; [lia|]. eapply denotes_all_eq; [|exact D]. intros v. cbn.
    rewrite select_const by (rewrite !word_length; lia). unfold word. by rewrite fmap_drop, fmap_take.
Qed.

(** The choice of the selectors, the first one halving the whole word. *)
Fixpoint mux_select (s x : list bool) : list bool :=
  match s with
  | [] => x
  | c :: s => mux_select s (if c then drop (length x / 2) x else take (length x / 2) x)
  end.

(** The number of the selectors, the most significant one first. *)
Fixpoint big_endian (s : list bool) : nat :=
  match s with [] => 0 | c :: s => Nat.b2n c * 2 ^ length s + big_endian s end.

Lemma big_endian_bound s : big_endian s < 2 ^ length s.
Proof.
  induction s as [|c s IH]; cbn [big_endian length]; [cbn; lia|].
  rewrite Nat.pow_succ_r'. destruct c; cbn [Nat.b2n]; lia.
Qed.

Lemma mux_select_slice m s : ∀ x, length x = m * 2 ^ length s →
  mux_select s x = take m (drop (m * big_endian s) x).
Proof.
  induction s as [|c s IH]; intros x Hx; cbn [mux_select big_endian length] in *.
  - rewrite Nat.mul_0_r, drop_0, take_ge; [done|]. cbn in Hx. lia.
  - rewrite Nat.pow_succ_r' in Hx. replace (length x / 2) with (m * 2 ^ length s).
    2: { rewrite Hx. replace (m * (2 * 2 ^ length s)) with (m * 2 ^ length s * 2) by lia. by rewrite Nat.div_mul. }
    assert (m * big_endian s + m ≤ m * 2 ^ length s) as Hb by (pose proof (big_endian_bound s); nia).
    rewrite IH by (destruct c; [rewrite length_drop|rewrite length_take]; lia). destruct c; cbn [Nat.b2n].
    + rewrite drop_drop. f_equal. f_equal. lia.
    + rewrite Nat.mul_0_l, Nat.add_0_l, skipn_firstn_comm, take_take. f_equal. lia.
Qed.

Lemma mux_loop_spec s : ∀ fx x m b ins outs,
  wf b ins outs → srcs b s → denotes_all b x fx → length x = m * 2 ^ length s → 0 < m →
  adds ins outs b (mux_loop s x) (λ b' r, length r = m ∧
    denotes_all b' r (λ v, mux_select (word v s) (fx v))).
Proof.
  induction s as [|c s IH]; intros fx x m b ins outs Hw Hs Dx Hl Hm; cbn [mux_loop].
  - cbn in Hl. apply adds_ret; [done|]. split; [lia|done].
  - cbn [length] in Hl. rewrite Nat.pow_succ_r' in Hl. inversion Hs as [|? ? Hc Hs']; subst.
    assert (0 < 2 ^ length s) by (apply Nat.neq_0_lt_0, Nat.pow_nonzero; lia).
    eapply adds_bind; [apply (addMux2_half_spec c (λ v, lval v c) x (m * 2 ^ length s));
      [done|by apply denotes_self|apply Dx|lia|nia]|].
    intros y b1 Hw1 E1 [Ly Dy]. eapply adds_mono.
    { apply (IH (λ v, mux_select [lval v c] (fx v)) y m b1); [done|by eapply srcs_ext| |done|done].
      destruct Dy as [Hsy Dy]. split; [done|]. intros v Hv. rewrite Dy by done. cbn [mux_select].
      assert (fx v = word v x) as Ex by (symmetry; apply Dx; eapply consistent_ext; [exact E1|exact Hv]).
      rewrite Ex, word_length. replace (length x / 2) with (m * 2 ^ length s); [done|].
      replace (length x) with (m * 2 ^ length s * 2) by lia. by rewrite Nat.div_mul. }
    intros r b2 _ [Lr Dr]. split; [done|]. eapply denotes_all_eq; [|exact Dr]. done.
Qed.
End Mux.

Section Subnets.
Context `{TypeStore}.
Context (attr : CellTypeAttr).

(** The values of the inputs of several words. *)
Lemma input_words (v : valuation) (x y z : LinkList) :
  (λ i, v i 0) <$> (((idx <$> x) ++ (idx <$> y)) ++ (idx <$> z)) =
  ((λ i, v i 0) <$> (idx <$> x)) ++ ((λ i, v i 0) <$> (idx <$> y)) ++ ((λ i, v i 0) <$> (idx <$> z)).
Proof. by rewrite !fmap_app, app_assoc. Qed.

(** The subnet of the bitwise multiplexer chooses every bit by its selector. *)
Theorem synthBMux_spec w : getInWidth attr 0 = Some w → getInWidth attr 1 = Some w → getInWidth attr 2 = Some w →
  0 < N.to_nat w → ∃ s, synthBMux attr = Some s ∧
  implements s (N.to_nat w + N.to_nat w + N.to_nat w) (λ xs,
    select (bit (take (N.to_nat w) xs)) (take (N.to_nat w) (drop (N.to_nat w) xs)) (drop (N.to_nat w + N.to_nat w) xs)).
Proof.
  intros H0 H1 H2 Hw. set (n := N.to_nat w) in *. apply run_implements.
  eapply wp_in_width; [exact H0|]. eapply wp_inputs; [apply open_empty|exact Hw|]. intros s b1 O1 E1 S1 L1 V1.
  eapply wp_in_width; [exact H1|]. eapply wp_inputs; [exact O1|exact Hw|]. intros x b2 O2 E2 S2 L2 V2.
  eapply wp_in_width; [exact H2|]. eapply wp_inputs; [exact O2|exact Hw|]. intros y b3 [Hw3 He3 _] E3 S3 L3 V3.
  fold n in L1, L2, L3. eapply wp_assert; [by rewrite L1, L2, L3, Nat.eqb_refl|].
  apply (srcs_ext _ _ _ E3) in S2. apply (srcs_ext _ _ _ E2), (srcs_ext _ _ _ E3) in S1.
  eapply wp_adds; [exact He3|apply (mux_words _ (λ v, bit (word v s)) x y); [done|done|done|lia|]|].
  { intros i l k b El Ek He. pose proof (lookup_lt_Some _ _ _ El).
    destruct (lookup_lt_is_Some_2 s i) as [c Ec]; [lia|]. exists c.
    split; [unfold link_at, st_read; unfold mbind, st_bind; by rewrite El, Ek, Ec|].
    apply denotes_at; [by eapply srcs_ext|done]. }
  intros r b4 Hw4 He4 _ [Lr D].
  eapply (wp_finish b4 _ r _ n); [done|done| |exact D|done| |].
  - rewrite !length_app, !length_fmap. cbn. lia.
  - intros v. unfold select. by rewrite length_fmap, length_seq, word_length.
  - intros v. cbn [app]. rewrite input_words, <- V1, <- V2, <- V3.
    rewrite take_app_length' by (rewrite word_length; lia).
    rewrite drop_app_length' by (rewrite word_length; lia).
    rewrite take_app_length' by (rewrite word_length; lia). f_equal.
    rewrite app_assoc, drop_app_length'; [done|]. rewrite length_app, !word_length. lia.
Qed.

Lemma synthMux2_spec w : getInWidth attr 1 = Some w → getInWidth attr 2 = Some w →
  0 < N.to_nat w → ∃ s, synthMux2 attr = Some s ∧
  implements s (1 + N.to_nat w + N.to_nat w) (λ xs,
    if bit xs 0 then drop (1 + N.to_nat w) xs else take (N.to_nat w) (drop 1 xs)).
Proof.
  intros H1 H2 Hw. set (n := N.to_nat w) in *. apply run_implements.
  eapply wp_input; [apply open_empty|]. intros s b1 O1 E1 S1 V1.
  eapply wp_in_width; [exact H1|]. eapply wp_inputs; [exact O1|exact Hw|]. intros x b2 O2 E2 S2 L2 V2.
  eapply wp_in_width; [exact H2|]. eapply wp_inputs; [exact O2|exact Hw|]. intros y b3 [Hw3 He3 _] E3 S3 L3 V3.
  fold n in L2, L3. apply (srcs_ext _ _ _ E3) in S2. apply (src_ext _ _ _ E2), (src_ext _ _ _ E3) in S1.
  pose proof (addMux2_words_spec s _ x y b3 _ [] Hw3 (denotes_self _ _ S1) S2 S3 ltac:(lia)) as Hm.
  unfold addMux2_words in Hm. assert ((length x =? length y) = true) as El by (apply Nat.eqb_eq; lia).
  rewrite El in Hm |- *. eapply wp_assert; [done|].
  eapply wp_adds; [exact He3|exact Hm|]. intros r b4 Hw4 He4 _ [Lr D].
  eapply (wp_finish b4 _ r _ n); [done|done| |exact D|done| |].
  - rewrite !length_app, !length_fmap. cbn. lia.
  - intros v. cbn. destruct (lval v s); rewrite word_length; lia.
  - intros v. cbn [app]. rewrite V1, fmap_cons, fmap_app, <- V2, <- V3.
    change (bit (v (idx s) 0 :: _) 0) with (v (idx s) 0). cbn [Nat.add drop].
    rewrite drop_0, drop_app_length', take_app_length' by (rewrite word_length; lia). done.
Qed.

(** C38 The subnet of the multiplexer returns the word that the selectors number,
    the first selector being the most significant bit of the number. *)
Theorem synthMux_spec k m wx : getInWidth attr 0 = Some k → getInWidth attr 1 = Some wx → getOutWidth attr 0 = Some m →
  0 < N.to_nat k → 0 < N.to_nat m → N.to_nat wx = N.to_nat m * 2 ^ N.to_nat k → ∃ s, synthMux attr = Some s ∧
  implements s (N.to_nat k + N.to_nat wx) (λ xs,
    take (N.to_nat m) (drop (N.to_nat m * big_endian (take (N.to_nat k) xs)) (drop (N.to_nat k) xs))).
Proof.
  intros H0 H1 Ho Hk Hm Hx. apply run_implements.
  assert (0 < 2 ^ N.to_nat k) by (apply Nat.neq_0_lt_0, Nat.pow_nonzero; lia).
  eapply wp_in_width; [exact H0|]. eapply wp_inputs; [apply open_empty|exact Hk|]. intros s b1 O1 E1 S1 L1 V1.
  eapply wp_in_width; [exact H1|]. eapply wp_inputs; [exact O1|nia|]. intros x b2 [Hw2 He2 _] E2 S2 L2 V2.
  apply (srcs_ext _ _ _ E2) in S1.
  eapply wp_adds; [exact He2|apply (mux_loop_spec s (λ v, word v x) x (N.to_nat m));
    [done|done|by apply denotes_all_word|by rewrite L1, L2|done]|].
  intros r b3 Hw3 He3 _ [Lr D]. eapply wp_out_width; [exact Ho|].
  eapply wp_assert; [by apply Nat.eqb_eq|].
  assert (∀ v, length (word v x) = N.to_nat m * 2 ^ length (word v s)) as Hlen by (intros v; rewrite !word_length; congruence).
  eapply (wp_finish b3 _ r _ (N.to_nat m)); [done|done| |exact D|done| |].
  - rewrite !length_app, !length_fmap. cbn. lia.
  - intros v. cbn beta. rewrite (mux_select_slice (N.to_nat m)) by done. rewrite length_take, length_drop, !word_length, L2, Hx.
    pose proof (big_endian_bound (word v s)) as Hb. rewrite word_length, L1 in Hb. nia.
  - intros v. cbn beta. rewrite (mux_select_slice (N.to_nat m)) by done. cbn [app]. rewrite fmap_app, <- V1, <- V2.
    rewrite take_app_length', drop_app_length' by (rewrite word_length; lia). done.
Qed.
End Subnets.

(** ** Demultiplexers *)

Section Demux.
Context `{TypeStore}.

(** Pairs of links made one by one. *)
Lemma denotes_all_pairs {X} b (xs : list X) (r : list (Link * Link)) (f g : valuation → X → bool) :
  Forall2 (λ x p, denotes b p.1 (λ v, f v x) ∧ denotes b p.2 (λ v, g v x)) xs r →
  denotes_all b (fst <$> r) (λ v, f v <$> xs) ∧ denotes_all b (snd <$> r) (λ v, g v <$> xs).
Proof.
  intros HF. split; apply denotes_all_map; apply Forall2_fmap_r; (eapply Forall2_impl; [exact HF|]); by intros ? ? [].
Qed.

Lemma demux_words {X} (xs : list X) (f : X → st SubnetBuilder (Link * Link)) (c x : valuation → X → bool) b ins outs :
  wf b ins outs →
  (∀ i b', i ∈ xs → ext b b' → ∃ s a, f i b' = addDemux2 s a b' ∧
     denotes b' s (λ v, c v i) ∧ denotes b' a (λ v, x v i)) →
  adds ins outs b (st_map f xs) (λ b' r,
    denotes_all b' (fst <$> r) (λ v, (λ i, negb (c v i) && x v i) <$> xs) ∧
    denotes_all b' (snd <$> r) (λ v, (λ i, c v i && x v i) <$> xs)).
Proof.
  intros Hw Hc. eapply adds_mono.
  - apply (adds_map ins outs f (λ b' i p, denotes b' p.1 (λ v, negb (c v i) && x v i) ∧
      denotes b' p.2 (λ v, c v i && x v i))); [|exact Hw|].
    + intros b1 b2 i p He [D1 D2]. split; (eapply denotes_ext; [exact He|done]).
    + intros i b1 Hi Hw1 E1. destruct (Hc i b1 Hi E1) as (s & a & Ef & Ds & Da).
      unfold adds, wp. rewrite Ef. by apply addDemux2_spec.
  - intros r b1 _ HF. exact (denotes_all_pairs b1 xs r (λ v i, negb (c v i) && x v i) (λ v i, c v i && x v i) HF).
Qed.

Context (attr : CellTypeAttr) (w : N).
Context (H1 : getInWidth attr 1 = Some w) (Hw : 0 < N.to_nat w).

(** The subnet of the bitwise demultiplexer passes every bit to the output
    that its selector chooses. *)
Theorem synthBDemux_spec : getInWidth attr 0 = Some w → ∃ s, synthBDemux attr = Some s ∧
  implements s (N.to_nat w + N.to_nat w) (λ xs,
    ((λ i, negb (bit (take (N.to_nat w) xs) i) && bit (drop (N.to_nat w) xs) i) <$> seq 0 (N.to_nat w)) ++
    ((λ i, bit (take (N.to_nat w) xs) i && bit (drop (N.to_nat w) xs) i) <$> seq 0 (N.to_nat w))).
Proof.
  intros H0. set (n := N.to_nat w) in *. apply run_implements.
  eapply wp_in_width; [exact H0|]. eapply wp_inputs; [apply open_empty|exact Hw|]. intros s b1 O1 E1 S1 L1 V1.
  eapply wp_in_width; [exact H1|]. eapply wp_inputs; [exact O1|exact Hw|]. intros x b2 [Hw2 He2 _] E2 S2 L2 V2.
  fold n in L1, L2. apply (srcs_ext _ _ _ E2) in S1.
  eapply wp_assert; [by apply Nat.eqb_eq; lia|]. rewrite L1.
  eapply wp_adds; [exact He2|apply (demux_words (seq 0 n) _ (λ v, bit (word v s)) (λ v, bit (word v x))); [exact Hw2|]|].
  { intros i b' Hi He. apply elem_of_seq in Hi. destruct (lookup_lt_is_Some_2 s i) as [c Ec]; [lia|].
    destruct (lookup_lt_is_Some_2 x i) as [a Ea]; [lia|]. exists c, a.
    split; [unfold link_at, st_read; unfold mbind, st_bind; by rewrite Ec, Ea|].
    split; (apply denotes_at; [by eapply srcs_ext|done]). }
  intros r b3 Hw3 He3 _ [D1 D2].
  apply wp_bind. eapply wp_mono; [apply emits_outputs; [by apply emits_nil|exact D1]|].
  intros [] b4 (os & M4 & E4). eapply wp_mono; [apply emits_outputs; [exact M4|eapply denotes_all_ext; [exact E4|exact D2]]|].
  intros [] b5 (os' & M5 & E5). eapply (emits_finish b5 _ _ _ (n + n)); [exact M5| |lia| |].
  - rewrite !length_app, !length_fmap. cbn. lia.
  - intros v. cbn. by rewrite length_app, !length_fmap, !length_seq.
  - intros v _. cbn [app]. rewrite fmap_app, <- V1, <- V2.
    by rewrite take_app_length', drop_app_length' by (rewrite word_length; lia).
Qed.

Lemma synthDemux2_spec : ∃ s, synthDemux2 attr = Some s ∧
  implements s (1 + N.to_nat w) (λ xs,
    (andb (negb (bit xs 0)) <$> drop 1 xs) ++ (andb (bit xs 0) <$> drop 1 xs)).
Proof.
  set (n := N.to_nat w) in *. apply run_implements.
  eapply wp_input; [apply open_empty|]. intros s b1 O1 E1 S1 V1.
  eapply wp_in_width; [exact H1|]. eapply wp_inputs; [exact O1|exact Hw|]. intros x b2 [Hw2 He2 _] E2 S2 L2 V2.
  fold n in L2. apply (src_ext _ _ _ E2) in S1.
  eapply wp_adds; [exact He2|apply (demux_words x _ (λ v _, lval v s) (λ v l, lval v l)); [exact Hw2|]|].
  { intros l b' Hl He. exists s, l. split; [done|]. split; (eapply denotes_ext; [exact He|apply denotes_self; try done]).
    unfold srcs in S2. rewrite list.Forall_forall in S2. auto. }
  intros r b3 Hw3 He3 _ [D1 D2]. pose proof (denotes_all_app _ _ _ _ _ D1 D2) as D.
  eapply (wp_finish b3 _ _ _ (n + n)); [done|done| |exact D|lia| |].
  - rewrite !length_app, !length_fmap. cbn. lia.
  - intros v. cbn beta. rewrite length_app, !length_fmap. lia.
  - intros v. cbn [app]. rewrite fmap_cons, <- V2. change (bit (v (idx s) 0 :: _) 0) with (v (idx s) 0).
    cbn [drop]. rewrite drop_0. unfold word. rewrite <- !list_fmap_compose, V1. done.
Qed.
End Demux.

Section DemuxLoop.
Context `{TypeStore}.

(** The second link of a one-bit demultiplexer is stored past the end. *)
Lemma addDemux2_word_one s x b : addDemux2_word s [x] b = None.
Proof.
  unfold addDemux2_word. cbn [addDemux2_loop]. unfold mbind, st_bind.
  destruct (addDemux2 s x b) as [[[l k] b']|]; done.
Qed.
End DemuxLoop.

(** ** Witnesses *)

Section Witnesses.
#[local] Instance witness_types : TypeStore := λ _, None.

Lemma synthBOp2_spec_witness : ∃ s, synthBNandS (attr_of [2; 3] [4]) = Some s ∧
  implements s 5 (λ xs, bits_of 4 (Z_positive false
    (Z.land (Z_of_word true (take 2 xs)) (Z_of_word true (drop 2 xs))))).
Proof.
  apply (synthBOp2_spec AND andb Z.land eq_refl (λ x y, ltac:(by destruct x, y))
    (λ a b i, Z.land_spec a b (Z.of_nat i)) (attr_of [2; 3] [4]) 2%N 3%N 4%N true false eq_refl eq_refl eq_refl); lia.
Defined.

Lemma synthROp_spec_witness : ∃ s, synthROp XOR (attr_of [4] [3]) true = Some s ∧
  implements s 4 (λ xs, bits_of 3 (Z.b2z (xorb (negb true) (reduce XOR xs)))).
Proof.
  apply (synthROp_spec XOR (row "xor" 1 1 1 0 0 1 1 1 0 65535 1 XOR) eq_refl eq_refl
    (attr_of [4] [3]) 4%N 3%N true eq_refl eq_refl); lia.
Defined.

Lemma synthBMux_spec_witness : ∃ s, synthBMux (attr_of [2; 2; 2] [2]) = Some s ∧
  implements s 6 (λ xs, select (bit (take 2 xs)) (take 2 (drop 2 xs)) (drop 4 xs)).
Proof. apply (synthBMux_spec (attr_of [2; 2; 2] [2]) 2%N eq_refl eq_refl eq_refl). lia. Defined.

Lemma synthMux_spec_witness : ∃ s, synthMux (attr_of [2; 12] [3]) = Some s ∧
  implements s 14 (λ xs, take 3 (drop (3 * big_endian (take 2 xs)) (drop 2 xs))).
Proof. apply (synthMux_spec (attr_of [2; 12] [3]) 2%N 3%N 12%N eq_refl eq_refl eq_refl); done || lia. Defined.

Lemma synthBDemux_spec_witness : ∃ s, synthBDemux (attr_of [2; 2] [2; 2]) = Some s ∧
  implements s 4 (λ xs, ((λ i, negb (bit (take 2 xs) i) && bit (drop 2 xs) i) <$> seq 0 2) ++
    ((λ i, bit (take 2 xs) i && bit (drop 2 xs) i) <$> seq 0 2)).
Proof. apply (synthBDemux_spec (attr_of [2; 2] [2; 2]) 2%N eq_refl); [lia|done]. Defined.

(** The demultiplexer with several selectors stores the second link of every
    step in one entry, the one after the first of the second half: with a one-bit
    operand that entry is past the end of the vector. *)
Theorem synthDemux_out_of_range : synthDemux (attr_of [2; 1] [4]) = None.
Proof. vm_compute. reflexivity. Qed.

(** With a two-bit operand the third output is the default link, to the cell 0
    (the selector), and not the selected bit. *)
Lemma synthDemux_default_link :
  ∃ s, synthDemux (attr_of [1; 2] [4]) = Some s ∧ Net.getOut s 2 = Some (LinkTo 0).
Proof.
  destruct (synthDemux (attr_of [1; 2] [4])) as [s|] eqn:E; [|by vm_compute in E].
  exists s. split; [done|]. enough (synthDemux (attr_of [1; 2] [4]) ≫= (λ s, Net.getOut s 2) = Some (LinkTo 0)) as H1.
  { by rewrite E in H1. } vm_compute. reflexivity.
Qed.
End Witnesses.
