(* ===== verification/Premapper.v ===== *)
(** * Premappers ([gate/premapper/cell_premapper.cpp] and its subclasses)

    A premapper rebuilds a subnet cell by cell in the basis of its subclass
    (AIG, XAG, MIG or XMG).  The base class [CellPremapper] treats the constant
    and the equal inputs of a cell and leaves the rest to four virtual methods;
    [CellMapper] is the record of these.  A method takes the flag [inv] that the
    caller passes by reference and returns it with the link. *)

From S2P Require Import Prelude CellType SubnetBase Builder Make.
From stdpp Require Import gmap.

(** ** The interface of the subclasses *)

(** [mapAnd], [mapOr], [mapXor] and [mapMaj] without the counts. *)
(* gate/premapper/cell_premapper.h:49-72 [CellPremapper] *)
Record CellMapper := mkMapper {
  map_and : LinkList → bool → st SubnetBuilder (Link * bool);
  map_or : LinkList → bool → st SubnetBuilder (Link * bool);
  map_xor : LinkList → bool → st SubnetBuilder (Link * bool);
  map_maj : LinkList → bool → st SubnetBuilder (Link * bool);
}.

(** ** The base class *)

(* gate/premapper/cell_premapper.cpp:83-86 [CellPremapper::getNewLinks] *)
Definition link_const (b : SubnetBuilder) (l : Link) : option (bool * bool) :=
  c ← getCell b (idx l);
  Some ((cell_is ZERO c && negb (inv l)) || (cell_is ONE c && inv l),
        (cell_is ZERO c && inv l) || (cell_is ONE c && negb (inv l))).

(** One link of the old cell, renamed, with the counts of the constants. *)
(* gate/premapper/cell_premapper.cpp:72-90 [CellPremapper::getNewLinks] *)
Definition getNewLink (oldToNew : gmap nat Link) (b : SubnetBuilder)
    (s : LinkList * nat * nat) (l : Link) : option (LinkList * nat * nat) :=
  let '(ls, n0, n1) := s in
  cl ← oldToNew !! idx l;
  let l := mkLink (idx cl) (out l) (xorb (inv cl) (inv l)) in
  '(isZero, isOne) ← link_const b l;
  Some (ls ++ [l], if isZero : bool then S n0 else n0, if isOne : bool then S n1 else n1).

(* gate/premapper/cell_premapper.cpp:66-92 [CellPremapper::getNewLinks] *)
Definition getNewLinks (oldToNew : gmap nat Link) (i : nat) (s : Subnet)
    : st SubnetBuilder (LinkList * nat * nat) :=
  links ← st_read (λ _, Net.getLinks s i);
  st_read (λ b, foldl (λ r l, r ← r; getNewLink oldToNew b r l) (Some ([], 0, 0)) links).

(** The loop that erases the links to constants, from the link before [i] down;
    the loop is entered with at least one link. *)
(* gate/premapper/cell_premapper.cpp:140-149 [CellPremapper::mapAnd] *)
Fixpoint erase_constants (i : nat) (b : SubnetBuilder) (ls : LinkList) : option LinkList :=
  match i with
  | 0 => Some ls
  | S i =>
    l ← ls !! i;
    c ← getCell b (idx l);
    erase_constants i b (if cell_is ONE c || cell_is ZERO c then delete i ls else ls)
  end.

(** The same loop for XOR, where a constant one inverts the result. *)
(* gate/premapper/cell_premapper.cpp:226-240 [CellPremapper::mapXor] *)
Fixpoint erase_constants_xor (i : nat) (b : SubnetBuilder) (ls : LinkList) (inv0 : bool)
    : option (LinkList * bool) :=
  match i with
  | 0 => Some (ls, inv0)
  | S i =>
    l ← ls !! i;
    c ← getCell b (idx l);
    if cell_is ONE c || cell_is ZERO c then
      let one := (cell_is ONE c && negb (inv l)) || (cell_is ZERO c && inv l) in
      erase_constants_xor i b (delete i ls) (xorb inv0 one)
    else erase_constants_xor i b ls inv0
  end.

(** The loop of MAJ that erases pairs of opposite constants: all the constants
    of the value that is rarer and as many of the other. *)
(* gate/premapper/cell_premapper.cpp:278-301 [CellPremapper::mapMaj] *)
Fixpoint erase_redundant (i : nat) (n0More : bool) (nRemained : nat) (b : SubnetBuilder)
    (ls : LinkList) (n0 n1 : nat) : option (LinkList * nat * nat) :=
  match i with
  | 0 => Some (ls, n0, n1)
  | S i =>
    l ← ls !! i;
    '(zero, one) ← link_const b l;
    if (zero && negb n0More) || (zero && n0More && negb (n0 =? nRemained)) then
      if n0 =? 0 then None else erase_redundant i n0More nRemained b (delete i ls) (n0 - 1) n1
    else if (one && n0More) || (one && negb n0More && negb (n1 =? nRemained)) then
      if n1 =? 0 then None else erase_redundant i n0More nRemained b (delete i ls) n0 (n1 - 1)
    else erase_redundant i n0More nRemained b ls n0 n1
  end.

Section Base.
Context `{TypeStore} (M : CellMapper).

(* gate/premapper/cell_premapper.cpp:94-96 [CellPremapper::mapIn] *)
Definition mapIn : st SubnetBuilder Link := addInput.

(* gate/premapper/cell_premapper.cpp:98-109 [CellPremapper::mapOut] *)
Definition mapOut (links : LinkList) : st SubnetBuilder Link :=
  st_assert (length links =? 1) ;;
  link ← st_read (λ _, links !! 0);
  link ← (if inv link then addGate BUF links else mret link);
  addOutput link.

(* gate/premapper/cell_premapper.cpp:111-116 [CellPremapper::mapVal] *)
Definition mapVal (val : bool) : st SubnetBuilder Link :=
  if val then addGate ONE [] else addGate ZERO [].

(* gate/premapper/cell_premapper.cpp:118-123 [CellPremapper::mapBuf] *)
Definition mapBuf (links : LinkList) : st SubnetBuilder Link :=
  st_assert (length links =? 1) ;;
  addGate BUF links.

(** A link that leaves [inv] as it is. *)
Definition plain (inv0 : bool) (m : st SubnetBuilder Link) : st SubnetBuilder (Link * bool) :=
  l ← m; mret (l, inv0).

(** The end of [mapAnd] and [mapOr]: one link, or two equal or opposite links in
    front; [clash] is the value of a cell with opposite inputs. *)
(* gate/premapper/cell_premapper.cpp:151-166 [CellPremapper::mapAnd] *)
Definition map_front (clash : bool) (rest : LinkList → bool → st SubnetBuilder (Link * bool))
    (links : LinkList) (inv0 : bool) : st SubnetBuilder (Link * bool) :=
  if length links =? 1 then plain inv0 (mapBuf links)
  else
    l0 ← st_read (λ _, links !! 0);
    l1 ← st_read (λ _, links !! 1);
    if idx l0 =? idx l1 then
      if (length links =? 2) && eqb (inv l0) (inv l1) then plain inv0 (mapBuf [l0])
      else if negb (eqb (inv l0) (inv l1)) then plain inv0 (mapVal clash)
      else rest (delete 1 links) inv0
    else rest links inv0.

(* gate/premapper/cell_premapper.cpp:125-166 [CellPremapper::mapAnd] *)
Definition mapAnd (links : LinkList) (inv0 : bool) (n0 n1 : nat) : st SubnetBuilder (Link * bool) :=
  if 0 <? n0 then plain inv0 (mapVal false)
  else if n1 =? length links then plain inv0 (mapVal true)
  else if length links =? 1 then plain inv0 (mapBuf links)
  else
    linkList ← st_read (λ b, erase_constants (length links) b links);
    map_front false (map_and M) linkList inv0.

(* gate/premapper/cell_premapper.cpp:168-209 [CellPremapper::mapOr] *)
Definition mapOr (links : LinkList) (inv0 : bool) (n0 n1 : nat) : st SubnetBuilder (Link * bool) :=
  if 0 <? n1 then plain inv0 (mapVal true)
  else if n0 =? length links then plain inv0 (mapVal false)
  else if length links =? 1 then plain inv0 (mapBuf links)
  else
    linkList ← st_read (λ b, erase_constants (length links) b links);
    map_front true (map_or M) linkList inv0.

(* gate/premapper/cell_premapper.cpp:211-254 [CellPremapper::mapXor] *)
Definition mapXor (links : LinkList) (inv0 : bool) (n0 n1 : nat) : st SubnetBuilder (Link * bool) :=
  if n0 =? length links then plain inv0 (mapVal false)
  else if n1 + n0 =? length links then plain inv0 (mapVal (Nat.odd n1))
  else if length links =? 1 then plain inv0 (mapBuf links)
  else
    '(linkList, inv0) ← st_read (λ b, erase_constants_xor (length links) b links inv0);
    if length linkList =? 1 then plain inv0 (mapBuf linkList)
    else
      l0 ← st_read (λ _, linkList !! 0);
      l1 ← st_read (λ _, linkList !! 1);
      if (length linkList =? 2) && (idx l0 =? idx l1) then
        plain inv0 (mapVal (negb (eqb (inv l0) (inv l1))))
      else map_xor M linkList inv0.

(* gate/premapper/cell_premapper.cpp:256-323 [CellPremapper::mapMaj] *)
Definition mapMaj (links : LinkList) (inv0 : bool) (n0 n1 : nat) : st SubnetBuilder (Link * bool) :=
  let linksSize := length links in
  if linksSize =? 1 then plain inv0 (mapBuf links)
  else
    st_assert (Nat.odd linksSize && (3 <=? linksSize)) ;;
    if linksSize / 2 <? n0 then plain inv0 (mapVal false)
    else if linksSize / 2 <? n1 then plain inv0 (mapVal true)
    else if (n0 =? 0) && (n1 =? 0) then map_maj M links inv0
    else
      let n0More := n1 <? n0 in
      let nRemained := if n0More then n0 - n1 else n1 - n0 in
      '(linkList, n0, n1) ← st_read (λ b, erase_redundant linksSize n0More nRemained b links n0 n1);
      let size := length linkList in
      if size =? 1 then plain inv0 (mapBuf linkList)
      else if (size / 2 =? n0) || (size / 2 =? n1) then
        linkList ← st_read (λ b, erase_constants size b linkList);
        if 0 <? n0 then map_and M linkList inv0
        else if 0 <? n1 then map_or M linkList inv0
        else map_maj M linkList inv0
      else map_maj M linkList inv0.

(* gate/premapper/cell_premapper.cpp:48-64 [CellPremapper::mapCell] *)
Definition mapCell (symbol : CellSymbol) (links : LinkList) (inv0 : bool) (n0 n1 : nat)
    : st SubnetBuilder (Link * bool) :=
  match symbol with
  | IN => plain inv0 mapIn
  | OUT => plain inv0 (mapOut links)
  | ZERO => plain inv0 (mapVal false)
  | ONE => plain inv0 (mapVal true)
  | BUF => plain inv0 (mapBuf links)
  | AND => mapAnd links inv0 n0 n1
  | OR => mapOr links inv0 n0 n1
  | XOR => mapXor links inv0 n0 n1
  | MAJ => mapMaj links inv0 n0 n1
  | _ => st_fail
  end.

(** The loop over the entries from [i] on; [fuel] bounds the cells left. *)
(* gate/premapper/cell_premapper.cpp:19-46 [CellPremapper::map] *)
Fixpoint map_loop (fuel : nat) (s : Subnet) (i : nat) (oldToNew : gmap nat Link) : st SubnetBuilder unit :=
  if Net.size s <=? i then mret ()
  else
    match fuel with
    | 0 => st_fail
    | S fuel =>
      cell ← st_read (λ _, Net.getCell s i);
      ty ← st_read (λ _, getType (type cell));
      '(links, n0, n1) ← getNewLinks oldToNew i s;
      '(link, inv0) ← mapCell (symbol ty) links false n0 n1;
      let link := mkLink (idx link) (out link) (xorb (inv link) inv0) in
      map_loop fuel s (S i + more cell) (<[i := link]> oldToNew)
    end.

(** [map] on the subnet that the given builder makes; every iteration passes an
    entry, so that the number of entries is enough fuel. *)
(* gate/premapper/cell_premapper.cpp:19-46 [CellPremapper::map] *)
Definition map_subnet (s : Subnet) : option SubnetBuilder :=
  snd <$> map_loop (Net.size s) s 0 ∅ empty_builder.

(* gate/premapper/cell_premapper.cpp:19-46 [CellPremapper::map] *)
Definition premap (b : SubnetBuilder) : option SubnetBuilder := s ← make false b; map_subnet s.
End Base.

(** ** AIG and XAG *)

Section Aig.
Context `{TypeStore}.

(* gate/premapper/cell_aigmapper.cpp:17-21 [CellAigMapper::mapAnd] *)
Definition aig_and (links : LinkList) (inv0 : bool) : st SubnetBuilder (Link * bool) :=
  plain inv0 (addCellTree AND links 2).

(* gate/premapper/cell_aigmapper.cpp:23-33 [CellAigMapper::mapOr] *)
Definition aig_or (links : LinkList) (inv0 : bool) : st SubnetBuilder (Link * bool) :=
  let inv0 := negb inv0 in
  aig_and ((λ l, mkLink (idx l) (out l) (negb (inv l))) <$> links) inv0.

(** The list grows at its end and is read from [l] on: [rest]. *)
(* gate/premapper/cell_aigmapper.cpp:41-63 [CellAigMapper::mapXor] *)
Fixpoint aig_xor_loop (fuel : nat) (rest : LinkList) : st SubnetBuilder Link :=
  match rest, fuel with
  | [], _ => st_fail
  | [l], _ => mret l
  | _, 0 => st_fail
  | x :: y :: rest, S fuel =>
    let nx := SubnetLink (idx x) 0 (negb (inv x)) in
    let ny := SubnetLink (idx y) 0 (negb (inv y)) in
    l1 ← addGate AND [x; y];
    l2 ← addGate AND [nx; ny];
    let l1 := mkLink (idx l1) (out l1) true in
    let l2 := mkLink (idx l2) (out l2) true in
    l ← addGate AND [l1; l2];
    aig_xor_loop fuel (rest ++ [l])
  end.

(** Every iteration shortens the rest by one. *)
(* gate/premapper/cell_aigmapper.cpp:35-64 [CellAigMapper::mapXor] *)
Definition aig_xor (links : LinkList) (inv0 : bool) : st SubnetBuilder (Link * bool) :=
  plain inv0 (aig_xor_loop (length links) links).

(* gate/premapper/cell_aigmapper.cpp:82-92 [CellAigMapper::addMaj3] *)
Definition addMaj3 (links : LinkList) (inv0 : bool) : st SubnetBuilder (Link * bool) :=
  x ← st_read (λ _, links !! 0);
  y ← st_read (λ _, links !! 1);
  z ← st_read (λ _, links !! 2);
  l0 ← addGate AND [x; y];
  l1 ← addGate AND [y; z];
  l2 ← addGate AND [z; x];
  aig_or (l0 :: l1 :: l2 :: drop 3 links) inv0.

(** The flag passes through the calls and is reset before the last. *)
(* gate/premapper/cell_aigmapper.cpp:94-117 [CellAigMapper::addMaj5] *)
Definition aig_maj5 (links : LinkList) (inv0 : bool) : st SubnetBuilder (Link * bool) :=
  match links with
  | [x; y; z; t; u] =>
    '(xyz, inv0) ← addMaj3 [x; y; z] inv0;
    '(xyu, inv0) ← addMaj3 [x; y; u] inv0;
    '(muz, inv0) ← addMaj3 [z; link_not xyu; u] inv0;
    addMaj3 [link_not xyz; t; link_not muz] false
  | _ => st_fail
  end.

(* gate/premapper/cell_aigmapper.cpp:66-80 [CellAigMapper::mapMaj] *)
Definition aig_maj (links : LinkList) (inv0 : bool) : st SubnetBuilder (Link * bool) :=
  if length links =? 3 then addMaj3 links inv0
  else if length links =? 5 then aig_maj5 links inv0
  else st_fail.

(* gate/premapper/cell_aigmapper.h:16-36 [CellAigMapper] *)
Definition CellAigMapper : CellMapper := mkMapper aig_and aig_or aig_xor aig_maj.

(* gate/premapper/cell_xagmapper.cpp:17-21 [CellXagMapper::mapXor] *)
Definition xag_xor (links : LinkList) (inv0 : bool) : st SubnetBuilder (Link * bool) :=
  plain inv0 (addCellTree XOR links 2).

(* gate/premapper/cell_xagmapper.h:16-24 [CellXagMapper] *)
Definition CellXagMapper : CellMapper := mkMapper aig_and aig_or xag_xor aig_maj.
End Aig.

(** ** MIG and XMG *)

Section Mig.
Context `{TypeStore}.

(** [addMaj] for AND and OR: a majority with a constant. *)
(* gate/premapper/cell_migmapper.cpp:70-82 [CellMigMapper::addMaj] *)
Definition addMaj_const (val : CellSymbol) (links : LinkList) : st SubnetBuilder Link :=
  v ← addGate val [];
  st_assert (length links =? 2) ;;
  x ← st_read (λ _, links !! 0);
  y ← st_read (λ _, links !! 1);
  addGate MAJ [x; y; v].

(* gate/premapper/cell_migmapper.cpp:85-106 [CellMigMapper::addXor] *)
Definition addXor (links : LinkList) : st SubnetBuilder Link :=
  match links with
  | [x; y; z] =>
    m1 ← addGate MAJ [x; y; z];
    m2 ← addGate MAJ [x; y; link_not z];
    addGate MAJ [link_not m1; m2; z]
  | [x; y] =>
    or1 ← addMaj_const ONE [x; y];
    or2 ← addMaj_const ONE [link_not x; link_not y];
    addMaj_const ZERO [or1; or2]
  | _ => st_fail
  end.

(* gate/premapper/cell_migmapper.cpp:62-83 [CellMigMapper::addMaj] *)
Definition addMaj (symbol : CellSymbol) (links : LinkList) : st SubnetBuilder Link :=
  match symbol with
  | XOR => addXor links
  | AND => addMaj_const ZERO links
  | OR => addMaj_const ONE links
  | MAJ => st_assert (length links =? 3) ;; addGate MAJ links
  | _ => st_fail
  end.

(** The list grows at its end and is read from [i] on: [rest]. *)
(* gate/premapper/cell_migmapper.cpp:47-59 [CellMigMapper::addMajTree] *)
Fixpoint addMajTree_loop (fuel : nat) (symbol : CellSymbol) (arity : nat) (rest : LinkList)
    : st SubnetBuilder Link :=
  match rest, fuel with
  | [], _ => st_fail
  | [l], _ => mret l
  | _, 0 => st_fail
  | _, S fuel =>
    let nArgs := if arity <? length rest then arity else length rest in
    l ← addMaj symbol (take nArgs rest);
    addMajTree_loop fuel symbol arity (drop nArgs rest ++ [l])
  end.

(* gate/premapper/cell_migmapper.cpp:35-60 [CellMigMapper::addMajTree] *)
Definition addMajTree (symbol : CellSymbol) (links : LinkList) : st SubnetBuilder Link :=
  let arity := if bool_decide (symbol = XOR) then 3 else 2 in
  if length links <=? arity then addMaj symbol links
  else addMajTree_loop (length links) symbol arity links.

(* gate/premapper/cell_migmapper.cpp:17-21 [CellMigMapper::mapAnd] *)
Definition mig_and (links : LinkList) (inv0 : bool) : st SubnetBuilder (Link * bool) :=
  plain inv0 (addMajTree AND links).

(* gate/premapper/cell_migmapper.cpp:23-27 [CellMigMapper::mapOr] *)
Definition mig_or (links : LinkList) (inv0 : bool) : st SubnetBuilder (Link * bool) :=
  plain inv0 (addMajTree OR links).

(* gate/premapper/cell_migmapper.cpp:29-33 [CellMigMapper::mapXor] *)
Definition mig_xor (links : LinkList) (inv0 : bool) : st SubnetBuilder (Link * bool) :=
  plain inv0 (addMajTree XOR links).

(* gate/premapper/cell_migmapper.cpp:124-146 [CellMigMapper::addMaj5] *)
Definition mig_maj5 (links : LinkList) : st SubnetBuilder Link :=
  match links with
  | [x; y; z; t; u] =>
    xyz ← addMaj MAJ [x; y; z];
    xyu ← addMaj MAJ [x; y; u];
    muz ← addMaj MAJ [z; xyu; u];
    addMaj MAJ [xyz; t; muz]
  | _ => st_fail
  end.

(* gate/premapper/cell_migmapper.cpp:108-122 [CellMigMapper::mapMaj] *)
Definition mig_maj (links : LinkList) (inv0 : bool) : st SubnetBuilder (Link * bool) :=
  if length links =? 3 then plain inv0 (addMaj MAJ links)
  else if length links =? 5 then plain inv0 (mig_maj5 links)
  else st_fail.

(* gate/premapper/cell_migmapper.h:16-43 [CellMigMapper] *)
Definition CellMigMapper : CellMapper := mkMapper mig_and mig_or mig_xor mig_maj.

(* gate/premapper/cell_xmgmapper.cpp:17-21 [CellXmgMapper::mapXor] *)
Definition xmg_xor (links : LinkList) (inv0 : bool) : st SubnetBuilder (Link * bool) :=
  plain inv0 (addCellTree XOR links 2).

(* gate/premapper/cell_xmgmapper.h:16-24 [CellXmgMapper] *)
Definition CellXmgMapper : CellMapper := mkMapper mig_and mig_or xmg_xor mig_maj.
End Mig.
