(* ===== verification/MapperLaws.v ===== *)
(** * What the base class of the premappers asks of its subclasses

    [MapperLaws] is the contract of the virtual methods of [CellPremapper]; the
    four premappers satisfy it.  A method gets at least two links and the flag
    [inv], and returns a link and a flag that together have the value of the
    gate, inverted if [inv] was set. *)

From S2P Require Import Prelude CellType SubnetBase Builder BuilderInv BuilderAdd BuilderAlloc BuilderSpec Premapper.
From stdpp Require Import gmap strings.

(** ** Definitions *)

Section Laws.
Context `{TypeStore}.

(** A link to the first port of a cell. *)
Definition port (b : SubnetBuilder) (l : Link) : Prop := src b l ∧ out l = 0.
Definition ports (b : SubnetBuilder) (ls : LinkList) : Prop := Forall (port b) ls.

(** The link [l] has the value of the gate [s] over the links [ls]. *)
Definition gate_of (s : CellSymbol) (ls : LinkList) (b : SubnetBuilder) (l : Link) : Prop :=
  port b l ∧ ∀ v, consistent v b → gate_fun s (lval v <$> ls) = Some (lval v l).

(** The same for a link with a flag, when the flag was [i] before. *)
Definition yields (s : CellSymbol) (ls : LinkList) (i : bool) (b : SubnetBuilder) (r : Link * bool) : Prop :=
  port b r.1 ∧ ∀ v, consistent v b → gate_fun s (lval v <$> ls) = Some (xorb i (xorb (lval v r.1) r.2)).

Definition method_law (s : CellSymbol) (m : LinkList → bool → st SubnetBuilder (Link * bool)) : Prop :=
  ∀ b ins outs ls i, wf b ins outs → ports b ls → 2 ≤ length ls →
    adds ins outs b (m ls i) (yields s ls i).

(** The majority is asked for three or five links and with the flag unset. *)
Definition maj_law (m : LinkList → bool → st SubnetBuilder (Link * bool)) : Prop :=
  ∀ b ins outs ls, wf b ins outs → ports b ls → length ls = 3 ∨ length ls = 5 →
    adds ins outs b (m ls false) (yields MAJ ls false).

Class MapperLaws (M : CellMapper) := {
  law_and : method_law AND (map_and M);
  law_or : method_law OR (map_or M);
  law_xor : method_law XOR (map_xor M);
  law_maj : maj_law (map_maj M);
}.

(** ** Ports and gates *)

Lemma ports_srcs b ls : ports b ls → srcs b ls.
Proof. intros Hp. eapply Forall_impl; [exact Hp|]. by intros l [? _]. Qed.

Lemma port_ext b b' l : ext b b' → port b l → port b' l.
Proof. intros He [Hs Ho]. split; [by eapply src_ext|done]. Qed.

Lemma ports_ext b b' ls : ext b b' → ports b ls → ports b' ls.
Proof. intros He Hp. eapply Forall_impl; [exact Hp|]. intros l. by apply port_ext. Qed.

Lemma port_not b l : port b l → port b (link_not l).
Proof.
  intros [Hs Ho]. split; [apply (denotes_not b l _ (denotes_self b l Hs))|].
  unfold link_not, SubnetLink. cbn. by rewrite Ho.
Qed.

Lemma gate_of_ext s ls b b' l : ext b b' → gate_of s ls b l → gate_of s ls b' l.
Proof.
  intros He [Hp Hv]. split; [by eapply port_ext|]. intros v Hc. apply Hv. by eapply consistent_ext.
Qed.

Lemma lval_not_port b v l : port b l → lval v (link_not l) = negb (lval v l).
Proof. intros [_ Ho]. apply lval_not. rewrite Ho. lia. Qed.

Lemma adds_and {A} ins outs b (m : st SubnetBuilder A) P Q :
  adds ins outs b m P → adds ins outs b m Q → adds ins outs b m (λ b' a, P b' a ∧ Q b' a).
Proof.
  intros (a & b' & E & Hw & He & HP) (a' & b'' & E' & _ & _ & HQ). rewrite E in E'. injection E' as <- <-.
  by exists a, b'.
Qed.

Lemma addCell_link t ls b l b' : addCell t ls b = Some (l, b') → out l = 0 ∧ inv l = false.
Proof.
  unfold addCell. intros E. apply bind_Some_iff in E as (ty & b1 & _ & E).
  apply bind_Some_iff in E as ([] & b2 & _ & E). apply bind_Some_iff in E as (i & b3 & _ & E).
  apply bind_Some_iff in E as ([] & b4 & _ & E). apply bind_Some_iff in E as ([] & b5 & _ & E).
  injection E as <- <-. done.
Qed.

Lemma add_gate s ls b ins outs :
  wf b ins outs → ports b ls → length ls ≤ InPlaceLinks → gate_ok s (length ls) = true →
  adds ins outs b (addGate s ls) (λ b' l, gate_of s ls b' l ∧ inv l = false).
Proof.
  intros Hw Hp Hl Hok. destruct (addGate_spec s ls b ins outs Hw (ports_srcs _ _ Hp) Hl Hok)
    as (l & b' & E & Hw' & He & Hs & Hv).
  destruct (addCell_link _ _ _ _ _ E) as [Ho Hi]. exists l, b'. unfold gate_of, port. by split_all.
Qed.

Lemma add_constant (x : bool) b ins outs : wf b ins outs →
  adds ins outs b (mapVal x) (λ b' l, port b' l ∧ ∀ v, consistent v b' → lval v l = x).
Proof.
  intros Hw. unfold mapVal. destruct x; (eapply adds_mono; [apply add_gate; [done|constructor|cbn; lia|done]|]);
    intros l b' _ [[Hp Hv] _]; (split; [done|]); intros v Hc; specialize (Hv v Hc); cbn in Hv; by injection Hv.
Qed.

Lemma add_buffer l b ins outs : wf b ins outs → port b l →
  adds ins outs b (mapBuf [l]) (λ b' r, port b' r ∧ inv r = false ∧ ∀ v, consistent v b' → lval v r = lval v l).
Proof.
  intros Hw Hp. unfold mapBuf. cbn [length Nat.eqb]. apply adds_assert_bind; [done|].
  eapply adds_mono; [apply add_gate; [done|by constructor|cbn; unfold InPlaceLinks; lia|done]|].
  intros r b' _ [[Hr Hv] Hi]. split_all; [done|done|]. intros v Hc. specialize (Hv v Hc). cbn in Hv.
  by injection Hv.
Qed.

Lemma addCellTree_loop_out s k : ∀ fuel rest b l b', Forall (λ l, out l = 0) rest →
  addCellTree_loop fuel s k rest b = Some (l, b') → out l = 0.
Proof.
  induction fuel as [|fuel IH]; intros [|x [|y rest]] b l b' Hf E; try done;
    try (injection E as <- <-; by inversion Hf).
  cbn [addCellTree_loop] in E. apply bind_Some_iff in E as (r & b1 & E1 & E).
  apply IH in E; [done|]. apply Forall_app. split; [by apply Forall_drop|].
  constructor; [|constructor]. by apply addCell_link in E1 as [? _].
Qed.

Lemma add_tree s ty b ins outs ls : getCellType s = Some ty → regroupable (props ty) = true →
  wf b ins outs → ports b ls → 2 ≤ length ls →
  adds ins outs b (addCellTree s ls 2) (gate_of s ls).
Proof.
  intros Hty Hr Hw Hp Hl.
  destruct (addCellTree_spec s ty Hty Hr 2 ls b ins outs) as (l & b' & E & Hw' & He & Hs & Hv).
  { unfold InPlaceLinks. lia. } { done. } { by apply ports_srcs. } { by intros ->; cbn in Hl; lia. }
  exists l, b'. unfold gate_of, port. split_all; try done.
  unfold addCellTree in E. change (MaxArity <? 2) with false in E. cbv iota beta in E.
  destruct (length ls <=? 2); [by apply addCell_link in E as [? _]|].
  apply bind_Some_iff in E as (t & b1 & _ & E). apply bind_Some_iff in E as ([] & b2 & _ & E).
  eapply addCellTree_loop_out; [|exact E]. eapply Forall_impl; [exact Hp|]. by intros x [_ ?].
Qed.

(** A method that leaves the flag alone. *)
Lemma plain_yields s ls i (m : st SubnetBuilder Link) b ins outs :
  adds ins outs b m (gate_of s ls) → adds ins outs b (plain i m) (λ b' r, yields s ls i b' r ∧ r.2 = i).
Proof.
  intros Hm. unfold plain. eapply adds_bind; [exact Hm|]. intros l b' Hw _ [Hp Hv].
  apply adds_ret; [done|]. split; [|done]. split; [done|]. intros v Hc. rewrite (Hv v Hc). cbn.
  by destruct (lval v l), i.
Qed.

Lemma plain_law s (m : LinkList → st SubnetBuilder Link) :
  (∀ b ins outs ls, wf b ins outs → ports b ls → 2 ≤ length ls → adds ins outs b (m ls) (gate_of s ls)) →
  method_law s (λ ls i, plain i (m ls)).
Proof.
  intros Hm b ins outs ls i Hw Hp Hl. eapply adds_mono; [by apply plain_yields, Hm|]. by intros r b' _ [? _].
Qed.
End Laws.

(** * The AIG, XAG, MIG and XMG premappers satisfy the contract *)

(** ** Boolean identities *)

Lemma or_and xs : existsb id xs = negb (forallb id (negb <$> xs)).
Proof. induction xs as [|x xs IH]; [done|]. cbn. rewrite IH. by destruct x, (forallb _ _). Qed.

Lemma xor_and x y : negb (x && y) && negb (negb x && negb y) = xorb x y.
Proof. by destruct x, y. Qed.

Definition maj3 (x y z : bool) : bool := x && y || y && z || z && x.

Lemma maj3_value x y z : gate_fun MAJ [x; y; z] = Some (maj3 x y z).
Proof. by destruct x, y, z. Qed.

(** <xyztu> = <<xyz>t<z<xyu>u>>. *)
Lemma maj5_value x y z t u :
  gate_fun MAJ [x; y; z; t; u] = Some (maj3 (maj3 x y z) t (maj3 z (maj3 x y u) u)).
Proof. by destruct x, y, z, t, u. Qed.

Lemma gate_fun_or xs y : gate_fun AND (negb <$> xs) = Some y → gate_fun OR xs = Some (negb y).
Proof.
  destruct xs as [|x xs]; [done|]. intros E. change (Some (forallb id (negb <$> (x :: xs))) = Some y) in E.
  injection E as <-. change (Some (existsb id (x :: xs)) = Some (negb (forallb id (negb <$> (x :: xs))))).
  by rewrite or_and.
Qed.

Section Rules.
Context `{TypeStore}.

(** A gate over two or three links, and what the next step may use. *)
Lemma bind_gate {A} s ls b ins outs (k : Link → st SubnetBuilder A) Q :
  wf b ins outs → ports b ls → length ls ≤ InPlaceLinks → gate_ok s (length ls) = true →
  (∀ l b', wf b' ins outs → ext b b' → gate_of s ls b' l → inv l = false → adds ins outs b' (k l) Q) →
  adds ins outs b (addGate s ls ≫= k) Q.
Proof.
  intros Hw Hp Hl Hok Hk. eapply adds_bind; [by apply add_gate|]. intros l b' Hw' He [Hg Hi]. by apply Hk.
Qed.

(** The same result for another gate with the same values. *)
Lemma gate_of_eq s t ls ks b b' l : ext b b' → gate_of s ls b' l →
  (∀ v, consistent v b' → gate_fun s (lval v <$> ls) = Some (lval v l) → gate_fun t (lval v <$> ks) = Some (lval v l)) →
  gate_of t ks b' l.
Proof. intros _ [Hp Hv] E. split; [done|]. intros v Hc. by apply E, Hv. Qed.
End Rules.

(** Ports are kept by extensions and inversions. *)
Ltac port_now :=
  lazymatch goal with
  | |- ports _ _ => repeat first [apply Forall_nil_2 | apply Forall_cons_2]; port_now
  | |- port _ (link_not _) => apply port_not; port_now
  | |- port ?b ?l =>
    first [assumption | multimatch goal with He : ext ?b0 b |- _ => apply (port_ext b0 b l He); port_now end]
  end.

(** The sizes of lists of two or three links. *)
Ltac arity_now := cbn; unfold InPlaceLinks; lia.

(** ** AIG *)

Section Aig.
Context `{TypeStore}.

Lemma aig_and_law : method_law AND aig_and.
Proof.
  apply (plain_law AND (λ ls, addCellTree AND ls 2)). intros b ins outs ls Hw Hp Hl.
  by eapply (add_tree AND).
Qed.

Lemma lval_flip v l : lval v (mkLink (idx l) (out l) (negb (inv l))) = negb (lval v l).
Proof. unfold lval. cbn. by destruct (v _ _), (inv l). Qed.

Lemma ports_flip b ls : ports b ls → ports b ((λ l, mkLink (idx l) (out l) (negb (inv l))) <$> ls).
Proof.
  intros Hp. apply Forall_fmap. eapply Forall_impl; [exact Hp|]. intros l [(Hl & Ho & Hc) E].
  split; [|done]. by unfold src.
Qed.

Lemma aig_or_law : method_law OR aig_or.
Proof.
  intros b ins outs ls i Hw Hp Hl. unfold aig_or.
  eapply adds_mono; [apply aig_and_law; [done|by apply ports_flip|by rewrite length_fmap]|].
  intros [l j] b' _ [Hpl Hv]. split; [done|]. intros v Hc. specialize (Hv v Hc). cbn [fst snd] in *.
  rewrite <- list_fmap_compose in Hv.
  rewrite (list_fmap_ext _ (negb ∘ lval v)) in Hv by (intros; apply lval_flip).
  rewrite list_fmap_compose in Hv. apply gate_fun_or in Hv. rewrite Hv. by destruct i, (lval v l), j.
Qed.

Lemma xor_regroup xs ys u : xs ≠ [] → gate_fun XOR xs = Some u → gate_fun XOR (ys ++ [u]) = gate_fun XOR (xs ++ ys).
Proof. by apply (regroup XOR (row "xor" 1 1 1 0 0 1 1 1 0 65535 1 XOR) eq_refl eq_refl). Qed.

Lemma aig_xor_loop_law ins outs : ∀ fuel rest b, wf b ins outs → ports b rest → rest ≠ [] →
  length rest ≤ S fuel → adds ins outs b (aig_xor_loop fuel rest) (gate_of XOR rest).
Proof.
  induction fuel as [|fuel IH]; intros [|x [|y rest]] b Hw Hp Hne Hl; try done; try (cbn in Hl; lia).
  1, 2: apply adds_ret; [done|]; apply Forall_cons_1 in Hp as [Hp _]; split; [done|];
    intros v Hc; cbn; by rewrite xorb_false_r.
  apply Forall_cons_1 in Hp as [Hx Hp]. apply Forall_cons_1 in Hp as [Hy Hp]. cbn [aig_xor_loop].
  set (nx := SubnetLink (idx x) 0 (negb (inv x))). set (ny := SubnetLink (idx y) 0 (negb (inv y))).
  assert (∀ l, port b l → SubnetLink (idx l) 0 (negb (inv l)) = link_not l) as En.
  { intros l [_ Ho]. unfold link_not. by rewrite Ho. }
  assert (nx = link_not x ∧ ny = link_not y) as [-> ->] by (split; by apply En).
  apply bind_gate; [done|port_now|arity_now|done|].
  intros l1 b1 Hw1 He1 [P1 V1] I1.
  apply bind_gate; [done|port_now|arity_now|done|].
  intros l2 b2 Hw2 He2 [P2 V2] I2.
  assert (∀ l, port b2 l → inv l = false → mkLink (idx l) (out l) true = link_not l) as Ei.
  { intros l [_ Ho] Hi. unfold link_not, SubnetLink. by rewrite Ho, Hi. }
  rewrite !Ei by (done || port_now).
  apply bind_gate; [done|port_now|arity_now|done|].
  intros r b3 Hw3 He3 [P3 V3] _.
  assert (ext b b3) as He by (by do 2 (etransitivity; [eassumption|])).
  eapply adds_mono; [apply IH; [done| |by destruct rest|rewrite length_app; cbn in *; lia]|].
  { apply Forall_app. split; [by eapply ports_ext|by constructor]. }
  intros r' b4 He4 [P4 V4]. split; [done|]. intros v Hc.
  pose proof (consistent_ext _ _ _ He4 Hc) as Hc3. pose proof (consistent_ext _ _ _ He3 Hc3) as Hc2.
  pose proof (consistent_ext _ _ _ He2 Hc2) as Hc1.
  specialize (V1 v Hc1). specialize (V2 v Hc2). specialize (V3 v Hc3). specialize (V4 v Hc).
  rewrite fmap_app in V4. cbn [fmap list_fmap] in *.
  rewrite (xor_regroup [lval v x; lval v y]) in V4; [exact V4|done|].
  rewrite (lval_not_port b2 v l1), (lval_not_port b2 v l2) in V3 by (done || port_now).
  rewrite !(lval_not_port b v) in V2 by done. cbn in V1, V2, V3 |- *.
  injection V1 as V1. injection V2 as V2. injection V3 as V3. rewrite <- V3, <- V1, <- V2. f_equal.
  unfold id. by destruct (lval v x), (lval v y).
Qed.

Lemma aig_xor_law : method_law XOR aig_xor.
Proof.
  apply (plain_law XOR (λ ls, aig_xor_loop (length ls) ls)). intros b ins outs ls Hw Hp Hl.
  apply aig_xor_loop_law; [done|done|by intros ->; cbn in Hl; lia|lia].
Qed.

(** The result of [addMaj3] is the inverse of a majority, the flag says so. *)
Lemma addMaj3_law b ins outs x y z i : wf b ins outs → port b x → port b y → port b z →
  adds ins outs b (addMaj3 [x; y; z] i) (λ b' r, yields MAJ [x; y; z] i b' r ∧ r.2 = negb i).
Proof.
  intros Hw Hx Hy Hz. unfold addMaj3. cbn [length drop].
  do 3 (eapply adds_read_bind; [done|]).
  apply bind_gate; [done|port_now|arity_now|done|].
  intros l0 b1 Hw1 He1 [P1 V1] _.
  apply bind_gate; [done|port_now|arity_now|done|].
  intros l1 b2 Hw2 He2 [P2 V2] _.
  apply bind_gate; [done|port_now|arity_now|done|].
  intros l2 b3 Hw3 He3 [P3 V3] _.
  assert (ports b3 [l0; l1; l2]) as Hp3 by port_now.
  apply adds_and.
  - eapply adds_mono; [by apply aig_or_law; [..|cbn; lia]|]. intros r b4 He4 [P4 V4]. split; [done|].
    intros v Hc. pose proof (consistent_ext _ _ _ He4 Hc) as Hc3. pose proof (consistent_ext _ _ _ He3 Hc3) as Hc2.
    pose proof (consistent_ext _ _ _ He2 Hc2) as Hc1. rewrite <- (V4 v Hc).
    specialize (V1 v Hc1). specialize (V2 v Hc2). specialize (V3 v Hc3). cbn in V1, V2, V3 |- *.
    injection V1 as V1. injection V2 as V2. injection V3 as V3. rewrite <- V3, <- V1, <- V2. unfold id.
    by destruct (lval v x), (lval v y), (lval v z).
  - unfold aig_or, aig_and. eapply adds_mono; [apply (plain_yields AND); eapply add_tree; [done|done|done| |]|].
    { by apply ports_flip. } { cbn. lia. } by intros r b4 _ [_ ?].
Qed.

Lemma aig_maj5_law b ins outs x y z t u : wf b ins outs → ports b [x; y; z; t; u] →
  adds ins outs b (aig_maj5 [x; y; z; t; u] false) (yields MAJ [x; y; z; t; u] false).
Proof.
  intros Hw Hp. unfold ports in Hp. rewrite !Forall_cons in Hp. destruct Hp as (Hx & Hy & Hz & Ht & Hu & _).
  unfold aig_maj5.
  eapply adds_bind; [by apply addMaj3_law|]. intros [xyz i1] b1 Hw1 He1 [[P1 V1] I1]. cbn in I1. subst i1.
  eapply adds_bind; [apply addMaj3_law; [done|port_now..]|]. intros [xyu i2] b2 Hw2 He2 [[P2 V2] I2]. cbn in I2. subst i2.
  eapply adds_bind; [apply addMaj3_law; [done|port_now..]|]. intros [muz i3] b3 Hw3 He3 [[P3 V3] I3]. cbn in I3. subst i3.
  cbn [fst snd negb] in *.
  eapply adds_mono; [apply addMaj3_law; [done|port_now..]|]. intros [r i4] b4 He4 [[P4 V4] I4]. cbn in I4. subst i4.
  cbn [fst snd negb] in *. split; [done|]. intros v Hc. cbn [fst snd].
  pose proof (consistent_ext _ _ _ He4 Hc) as Hc3. pose proof (consistent_ext _ _ _ He3 Hc3) as Hc2.
  pose proof (consistent_ext _ _ _ He2 Hc2) as Hc1.
  specialize (V1 v Hc1). specialize (V2 v Hc2). specialize (V3 v Hc3). specialize (V4 v Hc).
  cbn [fmap list_fmap] in *. rewrite (lval_not_port b1 v), (lval_not_port b3 v) in V4 by done.
  rewrite (lval_not_port b2 v) in V3 by done. rewrite maj3_value in V1, V2, V3, V4.
  injection V1 as E1. injection V2 as E2. injection V3 as E3. injection V4 as E4.
  assert (negb (lval v xyz) = maj3 (lval v x) (lval v y) (lval v z)) as F1 by (rewrite E1; by destruct (lval v xyz)).
  assert (negb (lval v xyu) = maj3 (lval v x) (lval v y) (lval v u)) as F2 by (rewrite E2; by destruct (lval v xyu)).
  rewrite F2 in E3. assert (negb (lval v muz) = maj3 (lval v z) (maj3 (lval v x) (lval v y) (lval v u)) (lval v u))
    as F3 by (rewrite E3; by destruct (lval v muz)).
  rewrite F1, F3 in E4. by rewrite maj5_value, E4.
Qed.

Lemma aig_maj_law : maj_law aig_maj.
Proof.
  intros b ins outs ls Hw Hp Hl. unfold aig_maj. destruct ls as [|x [|y [|z [|t [|u [|? ls]]]]]]; cbn in Hl; try lia.
  - cbn [length Nat.eqb]. unfold ports in Hp. rewrite !Forall_cons in Hp. destruct Hp as (Hx & Hy & Hz & _).
    eapply adds_mono; [by apply addMaj3_law|]. by intros r b' _ [? _].
  - by apply aig_maj5_law.
Qed.

#[export] Instance aig_laws : MapperLaws CellAigMapper.
Proof. split; [apply aig_and_law|apply aig_or_law|apply aig_xor_law|apply aig_maj_law]. Defined.

Lemma tree_xor_law : method_law XOR (λ ls i, plain i (addCellTree XOR ls 2)).
Proof.
  apply (plain_law XOR (λ ls, addCellTree XOR ls 2)). intros b ins outs ls Hw Hp Hl.
  by eapply (add_tree XOR).
Qed.

#[export] Instance xag_laws : MapperLaws CellXagMapper.
Proof. split; [apply aig_and_law|apply aig_or_law|apply tree_xor_law|apply aig_maj_law]. Defined.
End Aig.

(** ** MIG *)

Section Mig.
Context `{TypeStore}.

(** AND and OR are majorities with a constant. *)
Lemma addMaj_const_law (x : bool) b ins outs l k : wf b ins outs → port b l → port b k →
  adds ins outs b (addMaj_const (if x then ONE else ZERO) [l; k]) (gate_of (if x then OR else AND) [l; k]).
Proof.
  intros Hw Hl Hk. unfold addMaj_const.
  apply bind_gate; [done|constructor|arity_now|by destruct x|]. intros c b1 Hw1 He1 [Pc Vc] _.
  apply adds_assert_bind; [done|]. do 2 (eapply adds_read_bind; [done|]).
  eapply adds_mono; [apply add_gate; [done|port_now|arity_now|done]|].
  intros r b2 He2 [[Pr Vr] _]. split; [done|]. intros v Hc. specialize (Vr v Hc).
  specialize (Vc v (consistent_ext _ _ _ He2 Hc)). rewrite <- Vr. cbn [fmap list_fmap] in *.
  assert (lval v c = x) as -> by (destruct x; cbn in Vc; by injection Vc).
  by destruct x, (lval v l), (lval v k).
Qed.

Lemma addXor_law b ins outs ls : wf b ins outs → ports b ls → length ls = 2 ∨ length ls = 3 →
  adds ins outs b (addXor ls) (gate_of XOR ls).
Proof.
  intros Hw Hp Hl. destruct ls as [|x [|y [|z [|? ls]]]]; cbn in Hl; try lia;
    unfold ports in Hp; rewrite !Forall_cons in Hp.
  - destruct Hp as (Hx & Hy & _). unfold addXor.
    eapply adds_bind; [by apply (addMaj_const_law true)|]. intros l1 b1 Hw1 He1 [P1 V1].
    eapply adds_bind; [apply (addMaj_const_law true); [done|port_now..]|]. intros l2 b2 Hw2 He2 [P2 V2].
    eapply adds_mono; [apply (addMaj_const_law false); [done|port_now|done]|].
    intros r b3 He3 [P3 V3]. split; [done|]. intros v Hc. pose proof (consistent_ext _ _ _ He3 Hc) as Hc2.
    specialize (V1 v (consistent_ext _ _ _ He2 Hc2)). specialize (V2 v Hc2). specialize (V3 v Hc).
    cbn [fmap list_fmap] in *. rewrite !(lval_not_port b v) in V2 by done. rewrite <- V3.
    cbn in V1, V2 |- *. injection V1 as <-. injection V2 as <-. unfold id. by destruct (lval v x), (lval v y).
  - destruct Hp as (Hx & Hy & Hz & _). unfold addXor.
    apply bind_gate; [done|port_now|arity_now|done|]. intros m1 b1 Hw1 He1 [P1 V1] _.
    apply bind_gate; [done|port_now|arity_now|done|]. intros m2 b2 Hw2 He2 [P2 V2] _.
    eapply adds_mono; [apply add_gate; [done|port_now|arity_now|done]|].
    intros r b3 He3 [[P3 V3] _]. split; [done|]. intros v Hc. pose proof (consistent_ext _ _ _ He3 Hc) as Hc2.
    specialize (V1 v (consistent_ext _ _ _ He2 Hc2)). specialize (V2 v Hc2). specialize (V3 v Hc).
    cbn [fmap list_fmap] in *. rewrite (lval_not_port b v) in V2 by done.
    rewrite (lval_not_port b1 v) in V3 by done. rewrite <- V3. rewrite maj3_value in V1, V2 |- *.
    injection V1 as <-. injection V2 as <-. by destruct (lval v x), (lval v y), (lval v z).
Qed.

(** The node of a tree of [s] with up to [k] links. *)
Definition tree_arity (s : CellSymbol) (k : nat) : Prop := (s = XOR ∧ k = 3) ∨ ((s = AND ∨ s = OR) ∧ k = 2).

Lemma addMaj_law s k b ins outs ls : tree_arity s k → wf b ins outs → ports b ls → 2 ≤ length ls ≤ k →
  adds ins outs b (addMaj s ls) (gate_of s ls).
Proof.
  intros Hs Hw Hp Hl. destruct Hs as [[-> ->]|[Hs ->]].
  - apply addXor_law; [done|done|lia].
  - destruct ls as [|x [|y [|z ls]]]; cbn in Hl; try lia. unfold ports in Hp. rewrite !Forall_cons in Hp.
    destruct Hp as (Hx & Hy & _), Hs as [-> | ->]; [by apply (addMaj_const_law false)|by apply (addMaj_const_law true)].
Qed.

Lemma tree_regroup s k xs ys u : tree_arity s k → xs ≠ [] → gate_fun s xs = Some u →
  gate_fun s (ys ++ [u]) = gate_fun s (xs ++ ys).
Proof.
  intros Hs. destruct Hs as [[-> ->]|[[-> | ->] ->]];
    [by apply xor_regroup|eapply (regroup AND); done|eapply (regroup OR); done].
Qed.

Lemma tree_single s k x : tree_arity s k → gate_fun s [x] = Some x.
Proof. intros [[-> ->]|[[-> | ->] ->]]; by destruct x. Qed.

Lemma addMajTree_loop_law s k ins outs : tree_arity s k → ∀ fuel rest b, wf b ins outs → ports b rest →
  rest ≠ [] → length rest ≤ S fuel → adds ins outs b (addMajTree_loop fuel s k rest) (gate_of s rest).
Proof.
  intros Hs. induction fuel as [|fuel IH]; intros [|x [|y rest]] b Hw Hp Hne Hl; try done; try (cbn in Hl; lia).
  1, 2: apply adds_ret; [done|]; apply Forall_cons_1 in Hp as [Hp _]; split; [done|];
    intros v Hc; by apply (tree_single s k).
  cbn [addMajTree_loop]. set (ls := x :: y :: rest) in *.
  set (n := if k <? length ls then k else length ls).
  assert (2 ≤ n ≤ k ∧ n ≤ length ls) as [Hn1 Hn2].
  { unfold n. assert (2 ≤ k) by (destruct Hs as [[_ ->]|[_ ->]]; lia). cbn in Hl.
    destruct (Nat.ltb_spec k (length ls)); subst ls; cbn in *; lia. }
  eapply adds_bind; [apply (addMaj_law s k); [done|done|by apply Forall_take|rewrite length_take; lia]|].
  intros l b1 Hw1 He1 [P1 V1].
  eapply adds_mono; [apply IH; [done| |by destruct (drop n ls)|rewrite length_app, length_drop; cbn in *; lia]|].
  { apply Forall_app. split; [apply Forall_drop; by eapply ports_ext|by constructor]. }
  intros r b2 He2 [P2 V2]. split; [done|]. intros v Hc. rewrite <- (V2 v Hc).
  rewrite fmap_app. cbn [fmap list_fmap].
  rewrite (tree_regroup s k (lval v <$> take n ls)); [by rewrite <- fmap_app, take_drop|done| |].
  - intros E. apply (f_equal length) in E. rewrite length_fmap, length_take in E. cbn in E. lia.
  - apply V1. by eapply consistent_ext.
Qed.

Lemma addMajTree_law s k : tree_arity s k → (if bool_decide (s = XOR) then 3 else 2) = k →
  method_law s (λ ls i, plain i (addMajTree s ls)).
Proof.
  intros Hs Hk. apply (plain_law s (addMajTree s)). intros b ins outs ls Hw Hp Hl. unfold addMajTree. rewrite Hk.
  destruct (Nat.leb_spec (length ls) k) as [Hle|Hgt].
  - by apply (addMaj_law s k).
  - apply addMajTree_loop_law; [done|done|done|by intros ->; cbn in Hl; lia|lia].
Qed.

Lemma mig_maj5_law b ins outs x y z t u : wf b ins outs → ports b [x; y; z; t; u] →
  adds ins outs b (mig_maj5 [x; y; z; t; u]) (gate_of MAJ [x; y; z; t; u]).
Proof.
  intros Hw Hp. unfold ports in Hp. rewrite !Forall_cons in Hp. destruct Hp as (Hx & Hy & Hz & Ht & Hu & _).
  unfold mig_maj5, addMaj. cbn [length Nat.eqb].
  apply bind_gate; [done|port_now|arity_now|done|]. intros xyz b1 Hw1 He1 [P1 V1] _.
  apply bind_gate; [done|port_now|arity_now|done|]. intros xyu b2 Hw2 He2 [P2 V2] _.
  apply bind_gate; [done|port_now|arity_now|done|]. intros muz b3 Hw3 He3 [P3 V3] _.
  eapply adds_mono; [apply add_gate; [done|port_now|arity_now|done]|].
  intros r b4 He4 [[P4 V4] _]. split; [done|]. intros v Hc.
  pose proof (consistent_ext _ _ _ He4 Hc) as Hc3. pose proof (consistent_ext _ _ _ He3 Hc3) as Hc2.
  pose proof (consistent_ext _ _ _ He2 Hc2) as Hc1. rewrite <- (V4 v Hc).
  specialize (V1 v Hc1). specialize (V2 v Hc2). specialize (V3 v Hc3). cbn [fmap list_fmap] in *.
  rewrite maj3_value in V1, V2, V3 |- *. injection V1 as <-. injection V2 as E2. injection V3 as <-.
  by rewrite maj5_value, E2.
Qed.

Lemma mig_maj_law : maj_law mig_maj.
Proof.
  intros b ins outs ls Hw Hp Hl. unfold mig_maj. destruct ls as [|x [|y [|z [|t [|u [|? ls]]]]]]; cbn in Hl; try lia;
    cbn [length Nat.eqb]; (eapply adds_mono; [apply (plain_yields MAJ)|by intros r b' _ [? _]]).
  - unfold addMaj. cbn [length Nat.eqb]. apply adds_assert_bind; [done|].
    eapply adds_mono; [apply add_gate; [done|done|arity_now|done]|]. by intros r b' _ [? _].
  - by apply mig_maj5_law.
Qed.

#[export] Instance mig_laws : MapperLaws CellMigMapper.
Proof.
  split; [apply (addMajTree_law AND 2)|apply (addMajTree_law OR 2)|apply (addMajTree_law XOR 3)|apply mig_maj_law];
    try done; unfold tree_arity; auto.
Defined.

#[export] Instance xmg_laws : MapperLaws CellXmgMapper.
Proof.
  split; [apply (addMajTree_law AND 2)|apply (addMajTree_law OR 2)|apply tree_xor_law|apply mig_maj_law];
    try done; unfold tree_arity; auto.
Defined.
End Mig.
