(* ===== verification/PremapCell.v ===== *)
(** * One cell of a premapper

    The base class counts the constant links of a cell, erases those that do not
    matter and hands the rest to the subclass: the result has the value of the
    cell, whatever the subclass, if it keeps the contract [MapperLaws]. *)

From S2P Require Import Prelude CellType SubnetBase Builder BuilderInv BuilderAdd BuilderAlloc BuilderSpec Premapper.
From S2P Require Import BuilderEval MapperLaws.
From stdpp Require Import gmap strings.

(** ** Definitions *)

(** The value of a link to a constant cell. *)
Definition const_of (b : SubnetBuilder) (l : Link) : option bool :=
  c ← getCell b (idx l);
  if cell_is ZERO c then Some (inv l) else if cell_is ONE c then Some (negb (inv l)) else None.

(** The number of the links to the constant [x]. *)
Definition consts (b : SubnetBuilder) (x : bool) (ls : LinkList) : nat :=
  length (filter (λ l, const_of b l = Some x) ls).

Definition variables (b : SubnetBuilder) (ls : LinkList) : LinkList := filter (λ l, const_of b l = None) ls.

(** The majority of a list with the constants apart. *)
Definition majority (b : SubnetBuilder) (ls : LinkList) (k : nat) : bool :=
  length ls / 2 <? k + consts b true ls.

(** ** Constants *)

Section Consts.
Context (b : SubnetBuilder).

Lemma const_spec l c : getCell b (idx l) = Some c →
  cell_is ONE c || cell_is ZERO c = bool_decide (const_of b l ≠ None) ∧
  (cell_is ZERO c && negb (inv l)) || (cell_is ONE c && inv l) = bool_decide (const_of b l = Some false) ∧
  (cell_is ONE c && negb (inv l)) || (cell_is ZERO c && inv l) = bool_decide (const_of b l = Some true).
Proof.
  intros Hc. unfold const_of. rewrite Hc. cbn.
  assert (cell_is ZERO c = true → cell_is ONE c = false) as Hex.
  { unfold cell_is. rewrite bool_decide_eq_true, bool_decide_eq_false. by intros ->. }
  destruct (cell_is ZERO c), (cell_is ONE c); [by specialize (Hex eq_refl)|..]; by destruct (inv l).
Qed.

Lemma link_const_spec l c : getCell b (idx l) = Some c →
  link_const b l = Some (bool_decide (const_of b l = Some false), bool_decide (const_of b l = Some true)).
Proof.
  intros Hc. destruct (const_spec l c Hc) as (_ & E0 & E1). unfold link_const. rewrite Hc. cbn.
  rewrite E0. rewrite orb_comm in E1. by rewrite E1.
Qed.

Lemma port_cell l : port b l → ∃ c, getCell b (idx l) = Some c.
Proof. intros [(_ & _ & c & Hc & _) _]. by exists c. Qed.

(** Counts and filters of a list with a link in the middle. *)
Lemma filter_snoc {A} (P : A → Prop) `{!∀ x, Decision (P x)} (pre : list A) l post :
  filter P ((pre ++ [l]) ++ post) = filter P pre ++ (if decide (P l) then [l] else []) ++ filter P post.
Proof. by rewrite !filter_app, filter_cons, filter_nil, <- app_assoc. Qed.

Lemma delete_mid {A} (pre : list A) l post : delete (length pre) ((pre ++ [l]) ++ post) = pre ++ post.
Proof. rewrite <- app_assoc. apply delete_middle. Qed.

Lemma lookup_mid {A} (pre : list A) l post : ((pre ++ [l]) ++ post) !! length pre = Some l.
Proof. rewrite <- app_assoc. apply list_lookup_middle. done. Qed.

Lemma consts_app x ls ks : consts b x (ls ++ ks) = consts b x ls + consts b x ks.
Proof. unfold consts. by rewrite filter_app, length_app. Qed.

Lemma consts_one x l : consts b x [l] = if decide (const_of b l = Some x) then 1 else 0.
Proof. unfold consts. rewrite filter_cons, filter_nil. by case_decide. Qed.

Lemma variables_app ls ks : variables b (ls ++ ks) = variables b ls ++ variables b ks.
Proof. apply filter_app. Qed.

Lemma variables_one l : variables b [l] = if decide (const_of b l = None) then [l] else [].
Proof. unfold variables. rewrite filter_cons, filter_nil. by case_decide. Qed.

Lemma consts_total ls : length ls = length (variables b ls) + consts b false ls + consts b true ls.
Proof.
  induction ls as [|l ls IH]; [done|]. change (l :: ls) with ([l] ++ ls).
  rewrite variables_app, !consts_app, !consts_one, variables_one, !length_app, IH. cbn [length].
  destruct (const_of b l) as [[]|]; repeat case_decide; simplify_eq; cbn [length]; lia.
Qed.

Lemma ports_variables ls : ports b ls → ports b (variables b ls).
Proof.
  unfold ports, variables. rewrite !list.Forall_forall. intros Hp l Hl. apply Hp.
  by apply list_elem_of_filter in Hl as [_ ?].
Qed.

(** ** The loops *)

Lemma erase_constants_loop : ∀ pre post, ports b pre →
  erase_constants (length pre) b (pre ++ post) = Some (variables b pre ++ post).
Proof.
  induction pre as [|l pre IH] using rev_ind; intros post Hp; [done|].
  apply Forall_app in Hp as [Hp Hl]. apply Forall_cons_1 in Hl as [Hl _]. destruct (port_cell l Hl) as [c Hc].
  rewrite length_app, Nat.add_1_r. cbn [erase_constants]. rewrite lookup_mid. cbn [mbind option_bind].
  rewrite Hc. cbn [mbind option_bind]. destruct (const_spec l c Hc) as [-> _].
  rewrite variables_app, variables_one. destruct (const_of b l) as [x|]; cbn [bool_decide decide].
  - rewrite bool_decide_true, delete_mid, IH by done. by rewrite app_nil_r.
  - rewrite bool_decide_false, <- !app_assoc, IH by (done || tauto). done.
Qed.

Lemma erase_constants_spec ls : ports b ls → erase_constants (length ls) b ls = Some (variables b ls).
Proof. intros Hp. pose proof (erase_constants_loop ls [] Hp) as E. by rewrite !app_nil_r in E. Qed.

Lemma erase_constants_xor_loop : ∀ pre post i, ports b pre →
  erase_constants_xor (length pre) b (pre ++ post) i =
    Some (variables b pre ++ post, xorb i (Nat.odd (consts b true pre))).
Proof.
  induction pre as [|l pre IH] using rev_ind; intros post i Hp; [cbn; by rewrite xorb_false_r|].
  apply Forall_app in Hp as [Hp Hl]. apply Forall_cons_1 in Hl as [Hl _]. destruct (port_cell l Hl) as [c Hc].
  rewrite length_app, Nat.add_1_r. cbn [erase_constants_xor]. rewrite lookup_mid. cbn [mbind option_bind].
  rewrite Hc. cbn [mbind option_bind]. destruct (const_spec l c Hc) as (-> & _ & E). rewrite E.
  rewrite variables_app, variables_one, consts_app, consts_one.
  destruct (const_of b l) as [x|]; cbn [bool_decide decide].
  - rewrite bool_decide_true, delete_mid, IH, app_nil_r by done. f_equal. f_equal.
    rewrite Nat.odd_add. destruct x; cbn; rewrite ?xorb_false_r, ?xorb_true_r;
      by destruct i, (Nat.odd (consts b true pre)).
  - rewrite bool_decide_false, <- !app_assoc, IH by (done || tauto).
    repeat case_decide; try done. by rewrite Nat.add_0_r.
Qed.

Lemma erase_constants_xor_spec ls i : ports b ls →
  erase_constants_xor (length ls) b ls i = Some (variables b ls, xorb i (Nat.odd (consts b true ls))).
Proof. intros Hp. pose proof (erase_constants_xor_loop ls [] i Hp) as E. by rewrite !app_nil_r in E. Qed.

(** The state of the loop of MAJ that erases pairs of constants: the links
    before [i] are still to be looked at, of those after it the rarer constants
    are gone and as many of the other as could be. *)
Record redundant (more0 : bool) (n : nat) (pre post : LinkList) (n0 n1 : nat) : Prop := {
  rd_zeros : n0 = consts b false pre + consts b false post;
  rd_ones : n1 = consts b true pre + consts b true post;
  rd_left : if more0 then n ≤ n0 ∧ n0 - n ≤ consts b false pre ∧ consts b true post = 0
            else n ≤ n1 ∧ n1 - n ≤ consts b true pre ∧ consts b false post = 0;
}.

Lemma consts_const x y l : const_of b l = Some x → consts b y [l] = if eqb x y then 1 else 0.
Proof. intros El. rewrite consts_one, El. case_decide as E; [injection E as ->; by destruct y|]. by destruct x, y. Qed.

Lemma consts_variable y l : const_of b l = None → consts b y [l] = 0.
Proof. intros El. rewrite consts_one, El. by case_decide. Qed.

(** Whether the constant [x] is erased when the counts are [n0] and [n1]. *)
Definition erased (more0 : bool) (n : nat) (x : bool) (n0 n1 : nat) : bool :=
  if x then more0 || negb (n1 =? n) else negb more0 || negb (n0 =? n).

Lemma erase_redundant_step more0 n pre post l n0 n1 : port b l → redundant more0 n (pre ++ [l]) post n0 n1 →
  ∃ keep n0' n1',
    erase_redundant (S (length pre)) more0 n b ((pre ++ [l]) ++ post) n0 n1 =
      erase_redundant (length pre) more0 n b (pre ++ keep ++ post) n0' n1' ∧
    redundant more0 n pre (keep ++ post) n0' n1' ∧ keep ⊆ [l] ∧ variables b keep = variables b [l].
Proof.
  intros Hl [H0 H1 HL]. destruct (port_cell l Hl) as [c Hc].
  cbn [erase_redundant]. rewrite lookup_mid. cbn [mbind option_bind].
  rewrite (link_const_spec l c Hc). cbn [mbind option_bind]. rewrite !consts_app in H0, H1. rewrite !consts_app in HL.
  destruct (const_of b l) as [x|] eqn:El.
  - rewrite !(consts_const x) in H0, H1 by done. rewrite !(consts_const x) in HL by done.
    assert (variables b [] = variables b [l]) as Ev by (rewrite variables_one, El; by case_decide).
    destruct (erased more0 n x n0 n1) eqn:Ed.
    + exists [], (if x then n0 else n0 - 1), (if x then n1 - 1 else n1). rewrite delete_mid, app_nil_l.
      split_all; [|split|set_solver|done]; unfold erased in Ed; destruct x, more0; cbn in *; try lia;
        rewrite ?Ed; try done; rewrite ?(proj2 (Nat.eqb_neq n0 0)), ?(proj2 (Nat.eqb_neq n1 0)) by lia; try done;
        apply negb_true_iff, Nat.eqb_neq in Ed; lia.
    + exists [l], n0, n1. rewrite <- app_assoc.
      split_all; [|split; rewrite ?consts_app, ?(consts_const x) by done|set_solver|done];
        unfold erased in Ed; destruct x, more0; cbn in *; try done; rewrite ?Ed; try done; try lia;
        apply negb_false_iff, Nat.eqb_eq in Ed; lia.
  - rewrite !consts_variable in H0, H1 by done. rewrite !consts_variable in HL by done.
    exists [l], n0, n1. rewrite <- app_assoc. split_all; [|split|set_solver|done].
    + rewrite !bool_decide_false by done. by destruct more0.
    + rewrite consts_app, consts_variable by done. lia.
    + rewrite consts_app, consts_variable by done. lia.
    + rewrite !consts_app, !consts_variable by done. destruct more0; lia.
Qed.

Lemma erase_redundant_loop more0 n : ∀ pre post n0 n1, ports b pre → redundant more0 n pre post n0 n1 →
  ∃ ls, erase_redundant (length pre) more0 n b (pre ++ post) n0 n1 =
      Some (ls, if more0 then n else 0, if more0 then 0 else n) ∧
    ls ⊆ pre ++ post ∧ variables b ls = variables b pre ++ variables b post ∧
    consts b false ls = (if more0 then n else 0) ∧ consts b true ls = (if more0 then 0 else n).
Proof.
  induction pre as [|l pre IH] using rev_ind; intros post n0 n1 Hp HR.
  { destruct HR as [H0 H1 HL]. exists post. assert (∀ x, consts b x [] = 0) as E by done. rewrite !E in *. cbn.
    destruct more0; (split_all; [|done|done|..]; try lia); repeat f_equal; lia. }
  apply Forall_app in Hp as [Hp Hl]. apply Forall_cons_1 in Hl as [Hl _].
  destruct (erase_redundant_step more0 n pre post l n0 n1 Hl HR) as (keep & m0 & m1 & E & HR' & Hk & Hv).
  destruct (IH _ _ _ Hp HR') as (ls & E' & Hin & Hvar & Hz & Ho). exists ls.
  rewrite length_app, Nat.add_1_r, E, E'. split_all; [done| | |done|done].
  - intros x Hx. apply Hin in Hx. set_solver.
  - by rewrite Hvar, !variables_app, Hv, app_assoc.
Qed.

Lemma erase_redundant_spec ls n0 n1 : ports b ls → n0 = consts b false ls → n1 = consts b true ls →
  let more0 := n1 <? n0 in let n := if more0 then n0 - n1 else n1 - n0 in
  ∃ ks, erase_redundant (length ls) more0 n b ls n0 n1 =
      Some (ks, if more0 then n else 0, if more0 then 0 else n) ∧
    ks ⊆ ls ∧ variables b ks = variables b ls ∧
    consts b false ks = (if more0 then n else 0) ∧ consts b true ks = (if more0 then 0 else n).
Proof.
  intros Hp -> -> more0 n.
  destruct (erase_redundant_loop more0 n ls [] (consts b false ls) (consts b true ls) Hp) as (ks & E & Hin & Hv & H).
  - assert (∀ x, consts b x [] = 0) as E0 by done. split; rewrite ?E0; [lia|lia|].
    subst n more0. destruct (Nat.ltb_spec (consts b true ls) (consts b false ls)); lia.
  - rewrite !app_nil_r in *. by exists ks.
Qed.
End Consts.

(** ** The values of the links *)

Lemma and_consts xs n0 n1 :
  forallb id (xs ++ replicate n0 false ++ replicate n1 true) = forallb id xs && (n0 =? 0).
Proof.
  assert (forallb id (replicate n1 true) = true) as E1 by (by induction n1).
  rewrite !forallb_app, E1, andb_true_r. f_equal. by destruct n0.
Qed.

Lemma or_consts xs n0 n1 :
  existsb id (xs ++ replicate n0 false ++ replicate n1 true) = existsb id xs || (0 <? n1).
Proof.
  assert (existsb id (replicate n0 false) = false) as E0 by (by induction n0).
  rewrite !existsb_app, E0. f_equal. by destruct n1.
Qed.

Lemma xor_consts xs n0 n1 :
  xor_list (xs ++ replicate n0 false ++ replicate n1 true) = xorb (xor_list xs) (Nat.odd n1).
Proof.
  assert (xor_list (replicate n0 false) = false) as E0.
  { induction n0 as [|n0 IH]; [done|]. change (xorb false (xor_list (replicate n0 false)) = false). by rewrite IH. }
  rewrite !xor_list_app, E0, xorb_false_l. f_equal. induction n1 as [|n IH]; [done|].
  rewrite Nat.odd_succ, <- Nat.negb_odd, <- IH. done.
Qed.

Lemma count_true_app xs ys : count_true (xs ++ ys) = count_true xs + count_true ys.
Proof. unfold count_true. by rewrite filter_app, length_app. Qed.

Lemma count_consts xs n0 n1 :
  count_true (xs ++ replicate n0 false ++ replicate n1 true) = count_true xs + n1.
Proof.
  assert (count_true (replicate n0 false) = 0) as E0 by (by induction n0).
  assert (count_true (replicate n1 true) = n1) as E1.
  { induction n1 as [|n IH]; [done|]. change (S (count_true (replicate n true)) = S n). by rewrite IH. }
  rewrite !count_true_app. lia.
Qed.

Section Values.
Context `{TypeStore}.
Context (b : SubnetBuilder) (ins outs : list nat) (Hw : wf b ins outs) (v : valuation) (Hv : consistent v b).

Lemma const_value l x : port b l → const_of b l = Some x → lval v l = x.
Proof.
  intros [(Hl & _ & c & Hc & _) Ho] Hx. destruct Hw as [segs HW].
  destruct (live_cell b ins outs segs (idx l) HW) as (c' & Hc' & Hok); [by apply (live_order _ _ _ _ _ HW)|].
  rewrite Hc in Hc'. injection Hc' as <-. destruct Hok as (_ & _ & _ & Hty & _).
  unfold const_of in Hx. rewrite Hc in Hx. cbn in Hx. unfold cell_is in Hx.
  assert (∀ s y, type c = GateID s → gate_fun s [] = Some y → s = ZERO ∨ s = ONE → v (idx l) 0 = y) as Hgate.
  { intros s y Es Hy Hs. apply (Hv (idx l) c y Hl Hc). rewrite Es. cbn. 
    assert (arity c = 0) as Ha.
    { rewrite Es in Hty. destruct (arity c) as [|n]; [done|]. by destruct Hs as [-> | ->]. }
    unfold getInPlaceLinks. by rewrite Ha. }
  unfold lval. rewrite Ho. case_bool_decide as Ez; [|case_bool_decide as Eo; [|done]]; injection Hx as <-.
  - rewrite (Hgate ZERO false); auto.
  - rewrite (Hgate ONE true); auto.
Qed.

Definition vals (ls : LinkList) : list bool := lval v <$> ls.

Lemma vals_perm ls : ports b ls →
  vals ls ≡ₚ vals (variables b ls) ++ replicate (consts b false ls) false ++ replicate (consts b true ls) true.
Proof.
  induction ls as [|l ls IH]; intros Hp; [done|]. apply Forall_cons_1 in Hp as [Hl Hp]. specialize (IH Hp).
  change (l :: ls) with ([l] ++ ls). rewrite variables_app, !consts_app. unfold vals in *. rewrite !fmap_app, IH.
  rewrite <- !app_assoc. destruct (const_of b l) as [x|] eqn:El.
  - rewrite !(consts_const b x) by done. rewrite variables_one, El. cbn [fmap list_fmap].
    rewrite (const_value l x Hl El). destruct x; cbn; [|apply Permutation_middle].
    by rewrite <- !Permutation_middle.
  - rewrite !(consts_variable b) by done. rewrite variables_one, El. cbn. done.
Qed.
End Values.

(** ** The methods of the base class *)

Section Cells.
Context `{TypeStore} (M : CellMapper) `{!MapperLaws M}.
Context (b : SubnetBuilder) (ins outs : list nat) (Hw : wf b ins outs).

Lemma plain_val s ls i x :
  (∀ v, consistent v b → gate_fun s (lval v <$> ls) = Some x) →
  adds ins outs b (plain i (mapVal x)) (yields s ls i).
Proof.
  intros Hx. unfold plain. eapply adds_bind; [by apply add_constant|]. intros l b' Hw' He [Hp Hl].
  apply adds_ret; [done|]. split; [done|]. intros v Hv. rewrite (Hx v), <- (Hl v Hv) by by eapply consistent_ext.
  cbn. by destruct (lval v l), i.
Qed.

Lemma plain_buf s ls i l : port b l →
  (∀ v, consistent v b → gate_fun s (lval v <$> ls) = Some (lval v l)) →
  adds ins outs b (plain i (mapBuf [l])) (yields s ls i).
Proof.
  intros Hp Hx. unfold plain. eapply adds_bind; [by apply add_buffer|]. intros r b' Hw' He (Hr & _ & Hl).
  apply adds_ret; [done|]. split; [done|]. intros v Hv. rewrite (Hx v), <- (Hl v Hv) by by eapply consistent_ext.
  cbn. by destruct (lval v r), i.
Qed.

Lemma plain_single s ls i : (∀ x, gate_fun s [x] = Some x) → ports b ls → length ls = 1 →
  adds ins outs b (plain i (mapBuf ls)) (yields s ls i).
Proof.
  intros Hs Hp Hl. destruct ls as [|l [|]]; try done. apply Forall_cons_1 in Hp as [Hp _].
  apply plain_buf; [done|]. intros v _. apply Hs.
Qed.

(** A method on other links with the same value. *)
Lemma yields_change s ls i t ks j (m : st SubnetBuilder (Link * bool)) :
  adds ins outs b m (yields t ks j) →
  (∀ v, consistent v b → ∀ y, gate_fun t (lval v <$> ks) = Some (xorb j y) →
     gate_fun s (lval v <$> ls) = Some (xorb i y)) →
  adds ins outs b m (yields s ls i).
Proof.
  intros Hm E. eapply adds_mono; [exact Hm|]. intros r b' He [Hp Hv]. split; [done|]. intros v Hc.
  by apply (E v (consistent_ext _ _ _ He Hc)), Hv.
Qed.

(** Links with the same cell. *)
Lemma same_cell_value v l k : port b l → port b k → idx l = idx k →
  lval v k = if eqb (inv l) (inv k) then lval v l else negb (lval v l).
Proof.
  intros [_ Hl] [_ Hk] E. unfold lval. rewrite Hl, Hk, E. by destruct (v _ _), (inv l), (inv k).
Qed.

(** AND and OR, with the value that a false or a true input forces. *)
Definition forcing (s : CellSymbol) (x : bool) : Prop := (s = AND ∧ x = false) ∨ (s = OR ∧ x = true).

Lemma forcing_single s x y : forcing s x → gate_fun s [y] = Some y.
Proof. intros [[-> _]|[-> _]]; by destruct y. Qed.

Lemma forcing_clash s x y ys : forcing s x → gate_fun s (y :: negb y :: ys) = Some x.
Proof. intros [[-> ->]|[-> ->]]; cbn; by destruct y. Qed.

Lemma forcing_twice s x y ys : forcing s x → gate_fun s (y :: y :: ys) = gate_fun s (y :: ys).
Proof. intros [[-> ->]|[-> ->]]; cbn; by destruct y. Qed.

Lemma map_front_law s x m ls i : forcing s x → method_law s m → ports b ls → ls ≠ [] →
  adds ins outs b (map_front x m ls i) (yields s ls i).
Proof.
  intros Hs Hm Hp Hne. unfold map_front. destruct (Nat.eqb_spec (length ls) 1) as [Hl|Hl].
  { apply plain_single; [intros; by eapply forcing_single|done|done]. }
  destruct ls as [|l [|k ls]]; [done|done|]. do 2 (eapply adds_read_bind; [done|]).
  pose proof Hp as Hp'. apply Forall_cons_1 in Hp' as [Pl Hp']. apply Forall_cons_1 in Hp' as [Pk Pls].
  destruct (Nat.eqb_spec (idx l) (idx k)) as [E|_]; [|by apply Hm; [..|cbn; lia]].
  pose proof (λ v, same_cell_value v l k Pl Pk E) as Ev.
  destruct ((length (l :: k :: ls) =? 2) && eqb (inv l) (inv k)) eqn:E2.
  { apply andb_true_iff in E2 as [El Ei]. destruct ls; [|done]. apply plain_buf; [done|].
    intros v _. cbn [fmap list_fmap]. rewrite Ev, Ei, (forcing_twice s x) by done. by eapply forcing_single. }
  destruct (eqb (inv l) (inv k)) eqn:Ei; cbn [negb].
  - rewrite andb_true_r in E2. apply Nat.eqb_neq in E2. cbn in E2.
    eapply yields_change; [apply (Hm b ins outs (l :: ls)); [done|by constructor|cbn; lia]|].
    intros v _ y Hy. cbn [fmap list_fmap] in *. by rewrite Ev, (forcing_twice s x) by done.
  - apply plain_val. intros v _. cbn [fmap list_fmap]. rewrite Ev. by apply forcing_clash.
Qed.

(** The values of the links, with the constants apart. *)
Lemma values_perm v ls : consistent v b → ports b ls →
  lval v <$> ls ≡ₚ (lval v <$> variables b ls) ++ replicate (consts b false ls) false ++ replicate (consts b true ls) true.
Proof. intros Hv Hp. by eapply vals_perm. Qed.

Lemma forced s x v ls : forcing s x → consistent v b → ports b ls → 0 < consts b x ls →
  gate_fun s (lval v <$> ls) = Some x.
Proof.
  intros Hs Hv Hp Hx. rewrite (gate_fun_perm s _ _ (values_perm v ls Hv Hp)).
  set (xs := _ ++ _). assert (gate_fun s xs = Some (if x then existsb id xs else forallb id xs)) as ->.
  { assert (xs ≠ []) as Hne.
    { unfold xs. intros E. apply (f_equal length) in E. rewrite !length_app, !length_replicate in E. cbn in E.
      destruct x; lia. }
    destruct Hs as [[-> ->]|[-> ->]]; by destruct xs. }
  unfold xs. f_equal. destruct Hs as [[-> ->]|[-> ->]].
  - rewrite and_consts. destruct (Nat.eqb_spec (consts b false ls) 0); [lia|]. apply andb_false_r.
  - rewrite or_consts. destruct (Nat.ltb_spec 0 (consts b true ls)); [|lia]. apply orb_true_r.
Qed.

(** Without the forcing constant the others do not matter. *)
Lemma unforced s x v ls : forcing s x → consistent v b → ports b ls → consts b x ls = 0 → ls ≠ [] →
  gate_fun s (lval v <$> ls) =
    if decide (variables b ls = []) then Some (negb x) else gate_fun s (lval v <$> variables b ls).
Proof.
  intros Hs Hv Hp Hx Hne. rewrite (gate_fun_perm s _ _ (values_perm v ls Hv Hp)).
  pose proof (consts_total b ls) as Ht.
  assert (length ls ≠ 0) as Hl by (by destruct ls).
  destruct Hs as [[-> ->]|[-> ->]]; rewrite Hx in *; case_decide as Ev.
  - rewrite Ev in *. cbn in Ht. destruct (consts b true ls) as [|n] eqn:En; [lia|].
    pose proof (and_consts [] 0 (S n)) as E. cbn in E. cbn. by rewrite E.
  - pose proof (and_consts (lval v <$> variables b ls) 0 (consts b true ls)) as E. cbn in E.
    rewrite andb_true_r in E. destruct (variables b ls) as [|k ks]; [done|]. cbn in E |- *. by rewrite E.
  - rewrite Ev in *. cbn in Ht. destruct (consts b false ls) as [|n] eqn:En; [lia|].
    pose proof (or_consts [] (S n) 0) as E. cbn in E. cbn. by rewrite E.
  - pose proof (or_consts (lval v <$> variables b ls) (consts b false ls) 0) as E.
    rewrite orb_false_r in E. destruct (variables b ls) as [|k ks]; [done|]. cbn in E |- *. by rewrite E.
Qed.

(** [mapAnd] and [mapOr] at once. *)
Definition map_forcing (x : bool) (m : LinkList → bool → st SubnetBuilder (Link * bool))
    (links : LinkList) (inv0 : bool) (nx nother : nat) : st SubnetBuilder (Link * bool) :=
  if 0 <? nx then plain inv0 (mapVal x)
  else if nother =? length links then plain inv0 (mapVal (negb x))
  else if length links =? 1 then plain inv0 (mapBuf links)
  else
    linkList ← st_read (λ b, erase_constants (length links) b links);
    map_front x m linkList inv0.

Lemma map_forcing_law s x m ls i : forcing s x → method_law s m → ports b ls → ls ≠ [] →
  adds ins outs b (map_forcing x m ls i (consts b x ls) (consts b (negb x) ls)) (yields s ls i).
Proof.
  intros Hs Hm Hp Hne. unfold map_forcing.
  destruct (Nat.ltb_spec 0 (consts b x ls)) as [Hx|Hx]; [apply plain_val; intros v Hv; by apply forced|].
  assert (consts b x ls = 0) as Hx0 by lia. pose proof (consts_total b ls) as Ht.
  destruct (Nat.eqb_spec (consts b (negb x) ls) (length ls)) as [Hn|Hn].
  { apply plain_val. intros v Hv. rewrite (unforced s x) by done. rewrite decide_True; [done|].
    apply nil_length_inv. destruct x; cbn in Hn; lia. }
  destruct (Nat.eqb_spec (length ls) 1) as [Hl|Hl].
  { apply plain_single; [intros; by eapply forcing_single|done|done]. }
  eapply adds_read_bind; [by apply erase_constants_spec|].
  assert (variables b ls ≠ []) as Hvar.
  { intros E. rewrite E in Ht. cbn in Ht. destruct x; cbn in Hn; lia. }
  eapply yields_change; [apply (map_front_law s x); [done|done|by apply ports_variables|done]|].
  intros v Hv y. by rewrite (unforced s x v ls), decide_False by done.
Qed.

Lemma mapXor_law ls i : ports b ls → ls ≠ [] →
  adds ins outs b (mapXor M ls i (consts b false ls) (consts b true ls)) (yields XOR ls i).
Proof.
  intros Hp Hne. unfold mapXor. pose proof (consts_total b ls) as Ht.
  assert (∀ v, consistent v b → gate_fun XOR (lval v <$> ls) =
    Some (xorb (xor_list (lval v <$> variables b ls)) (Nat.odd (consts b true ls)))) as Hx.
  { intros v Hv. rewrite <- (xor_consts _ (consts b false ls)), <- (xor_list_perm _ _ (values_perm v ls Hv Hp)).
    by destruct ls. }
  assert (variables b ls = [] → ∀ v, consistent v b → gate_fun XOR (lval v <$> ls) = Some (Nat.odd (consts b true ls))) as Hc.
  { intros E v Hv. rewrite (Hx v Hv), E. cbn. by destruct (Nat.odd _). }
  destruct (Nat.eqb_spec (consts b false ls) (length ls)) as [H0|H0].
  { apply plain_val. intros v Hv. rewrite Hc by (done || (apply nil_length_inv; lia)).
    by replace (consts b true ls) with 0 by lia. }
  destruct (Nat.eqb_spec (consts b true ls + consts b false ls) (length ls)) as [H1|H1].
  { apply plain_val. intros v Hv. apply Hc; [apply nil_length_inv; lia|done]. }
  destruct (Nat.eqb_spec (length ls) 1) as [Hl|Hl].
  { apply plain_single; [intros x; by destruct x|done|done]. }
  eapply adds_read_bind; [by apply erase_constants_xor_spec|]. cbv iota beta.
  set (ks := variables b ls) in *. set (o := Nat.odd (consts b true ls)) in *.
  assert (ports b ks) as Hk by by apply ports_variables.
  assert (∀ m, adds ins outs b m (yields XOR ks (xorb i o)) → adds ins outs b m (yields XOR ls i)) as Hchange.
  { intros m Hm. eapply yields_change; [exact Hm|]. intros v Hv y Hy. rewrite (Hx v Hv).
    assert (gate_fun XOR (lval v <$> ks) = Some (xor_list (lval v <$> ks))) as E.
    { destruct ks; [cbn in Ht; lia|done]. }
    rewrite Hy in E. injection E as <-. by destruct i, o, y. }
  apply Hchange. destruct (Nat.eqb_spec (length ks) 1) as [Hk1|Hk1].
  { apply plain_single; [intros x; by destruct x|done|done]. }
  assert (2 ≤ length ks) as Hk2 by lia. clearbody ks. destruct ks as [|l [|k ks]]; cbn in Hk2; try lia.
  do 2 (eapply adds_read_bind; [done|]). destruct (Nat.eqb_spec (length (l :: k :: ks)) 2) as [E2|_]; cbn [andb].
  2: { by apply law_xor. }
  destruct (Nat.eqb_spec (idx l) (idx k)) as [E|_]; [|by apply law_xor]. destruct ks; [|done].
  apply Forall_cons_1 in Hk as [Pl Hk]. apply Forall_cons_1 in Hk as [Pk _].
  apply plain_val. intros v _. cbn [fmap list_fmap]. rewrite (same_cell_value v l k Pl Pk E).
  by destruct (lval v l), (inv l), (inv k).
Qed.

(** The majority of links of which the constants are of one value only. *)
Lemma maj_value v ls : consistent v b → ports b ls → ls ≠ [] →
  gate_fun MAJ (lval v <$> ls) = Some (length ls / 2 <? count_true (lval v <$> variables b ls) + consts b true ls).
Proof.
  intros Hv Hp Hne. rewrite <- (count_consts _ (consts b false ls)), <- (count_true_perm _ _ (values_perm v ls Hv Hp)).
  rewrite <- (length_fmap (lval v) ls). by destruct ls.
Qed.

Lemma count_true_le xs : count_true xs ≤ length xs.
Proof. apply length_filter. Qed.

Lemma count_true_all xs n : length xs = S n → (n <? count_true xs) = forallb id xs.
Proof.
  revert n; induction xs as [|x xs IH]; intros n Hl; [done|]. cbn in Hl. injection Hl as Hl.
  destruct n as [|n]; [apply nil_length_inv in Hl as ->; by destruct x|].
  change (count_true (x :: xs)) with (count_true ([x] ++ xs)). rewrite count_true_app. destruct x.
  - change (count_true [true]) with 1. cbn [forallb]. rewrite <- (IH n) by done. done.
  - change (count_true [false]) with 0. apply Nat.ltb_ge. pose proof (count_true_le xs). lia.
Qed.

Lemma count_true_any xs : (0 <? count_true xs) = existsb id xs.
Proof.
  induction xs as [|x xs IH]; [done|]. change (count_true (x :: xs)) with (count_true ([x] ++ xs)).
  rewrite count_true_app. by destruct x.
Qed.

(** Pairs of opposite constants do not matter. *)
Lemma maj_reduce v ls ks m : consistent v b → ports b ls → ports b ks → ls ≠ [] → ks ≠ [] →
  variables b ks = variables b ls → consts b false ls = consts b false ks + m → consts b true ls = consts b true ks + m →
  gate_fun MAJ (lval v <$> ls) = gate_fun MAJ (lval v <$> ks).
Proof.
  intros Hv Hp Hk Hne Hnk E H0 H1. rewrite !maj_value by done. rewrite E, H1. f_equal.
  pose proof (consts_total b ls) as L1. pose proof (consts_total b ks) as L2.
  replace (length ls) with (length ks + m * 2) by (rewrite L1, L2, E; lia).
  rewrite Nat.div_add by lia. apply Bool.eq_iff_eq_true. rewrite !Nat.ltb_lt. lia.
Qed.

(** A majority in which half of the links are the same constant. *)
Lemma maj_half v ls x : consistent v b → ports b ls → 0 < consts b x ls → consts b (negb x) ls = 0 →
  length ls = 2 * consts b x ls + 1 →
  gate_fun MAJ (lval v <$> ls) = gate_fun (if x then OR else AND) (lval v <$> variables b ls).
Proof.
  intros Hv Hp Hx Hn Hl. pose proof (consts_total b ls) as Ht.
  assert (ls ≠ []) as Hne by (by intros ->).
  assert (length (variables b ls) = S (consts b x ls)) as Hvar by (destruct x; cbn in Hn; lia).
  rewrite maj_value by done. set (n := consts b x ls) in *.
  replace (length ls / 2) with n by (rewrite Hl; apply (Nat.div_unique _ _ _ 1); lia).
  destruct x; cbn in Hn; fold n.
  - transitivity (Some (existsb id (lval v <$> variables b ls))); [|by destruct (variables b ls)].
    f_equal. rewrite <- count_true_any. apply Bool.eq_iff_eq_true. rewrite !Nat.ltb_lt. lia.
  - transitivity (Some (forallb id (lval v <$> variables b ls))); [|by destruct (variables b ls)].
    f_equal. rewrite Hn, Nat.add_0_r. apply count_true_all. by rewrite length_fmap.
Qed.

(** The last steps of [mapMaj], when all the constants left have the same value. *)
Lemma maj_rest_law ks n0 n1 : ports b ks → n0 = consts b false ks → n1 = consts b true ks → n0 = 0 ∨ n1 = 0 →
  length ks = 1 ∨ length ks = 3 ∨ length ks = 5 →
  adds ins outs b
    (let size := length ks in
     if size =? 1 then plain false (mapBuf ks)
     else if (size / 2 =? n0) || (size / 2 =? n1) then
       linkList ← st_read (λ b, erase_constants size b ks);
       if 0 <? n0 then map_and M linkList false
       else if 0 <? n1 then map_or M linkList false
       else map_maj M linkList false
     else map_maj M ks false) (yields MAJ ks false).
Proof.
  intros Hp H0 H1 Hz Hl. cbv zeta. destruct (Nat.eqb_spec (length ks) 1) as [H1l|H1l].
  { apply plain_single; [intros x; by destruct x|done|done]. }
  destruct ((length ks / 2 =? n0) || (length ks / 2 =? n1)) eqn:Eh.
  2: { apply law_maj; [done|done|lia]. }
  apply orb_true_iff in Eh. rewrite !Nat.eqb_eq in Eh.
  assert (length ks / 2 = 1 ∧ length ks = 3 ∨ length ks / 2 = 2 ∧ length ks = 5) as Hh.
  { destruct Hl as [?|[E|E]]; [done|left|right]; by rewrite E. }
  assert (∃ x, 0 < consts b x ks ∧ consts b (negb x) ks = 0 ∧ length ks = 2 * consts b x ks + 1 ∧
    (0 <? n0) = negb x ∧ (0 <? n1) = x) as (x & Hx & Hn & Hlen & E0 & E1).
  { destruct (decide (n0 = 0)) as [E|E]; [exists true|exists false]; cbn [negb]; rewrite <- H0, <- H1;
      (split_all; [lia|lia|lia|first [apply Nat.ltb_ge; lia|apply Nat.ltb_lt; lia]..]). }
  eapply adds_read_bind; [by apply erase_constants_spec|]. rewrite E0, E1.
  pose proof (consts_total b ks) as Ht. pose proof (ports_variables b ks Hp) as Hv.
  assert (2 ≤ length (variables b ks)) as H2 by (destruct x; cbn in Hn; lia).
  destruct x; cbn [negb].
  - eapply yields_change; [by apply law_or|]. intros v Hc y Hy. by rewrite (maj_half v ks true).
  - eapply yields_change; [by apply law_and|]. intros v Hc y Hy. by rewrite (maj_half v ks false).
Qed.

Lemma mapMaj_law ls : ports b ls → length ls = 1 ∨ length ls = 3 ∨ length ls = 5 →
  adds ins outs b (mapMaj M ls false (consts b false ls) (consts b true ls)) (yields MAJ ls false).
Proof.
  intros Hp Hl. unfold mapMaj. cbv zeta. destruct (Nat.eqb_spec (length ls) 1) as [H1l|H1l].
  { apply plain_single; [intros x; by destruct x|done|done]. }
  pose proof (consts_total b ls) as Ht. assert (ls ≠ []) as Hne by (by intros ->; cbn in Hl; lia).
  assert (length ls / 2 = 1 ∧ length ls = 3 ∨ length ls / 2 = 2 ∧ length ls = 5) as Hh.
  { destruct Hl as [?|[E|E]]; [done|left|right]; by rewrite E. }
  apply adds_assert_bind; [destruct Hl as [?|[-> | ->]]; done|].
  destruct (Nat.ltb_spec (length ls / 2) (consts b false ls)) as [H0|H0].
  { apply plain_val. intros v Hv. rewrite maj_value by done. f_equal. apply Nat.ltb_ge.
    pose proof (count_true_le (lval v <$> variables b ls)) as Hc. rewrite length_fmap in Hc. lia. }
  destruct (Nat.ltb_spec (length ls / 2) (consts b true ls)) as [H1|H1].
  { apply plain_val. intros v Hv. rewrite maj_value by done. f_equal. apply Nat.ltb_lt. lia. }
  destruct ((consts b false ls =? 0) && (consts b true ls =? 0)) eqn:Ez; [apply law_maj; [done|done|lia]|].
  set (more0 := consts b true ls <? consts b false ls) in *.
  destruct (erase_redundant_spec b ls _ _ Hp eq_refl eq_refl) as (ks & E & Hin & Hvar & Kz & Ko).
  fold more0 in E, Kz, Ko. eapply adds_read_bind; [exact E|]. cbv iota beta.
  pose proof (consts_total b ks) as Hk. rewrite Hvar in Hk.
  assert (ports b ks) as Hpk.
  { unfold ports in *. rewrite list.Forall_forall in Hp |- *. intros l Hlk. by apply Hp, Hin. }
  assert (∃ m, consts b false ls = consts b false ks + m ∧ consts b true ls = consts b true ks + m ∧
    (consts b false ks = 0 ∨ consts b true ks = 0)) as (m & M0 & M1 & Mz).
  { rewrite Kz, Ko. unfold more0. destruct (Nat.ltb_spec (consts b true ls) (consts b false ls));
      [exists (consts b true ls)|exists (consts b false ls)]; lia. }
  assert (ks ≠ []) as Hnk by (intros ->; cbn in Hk; lia).
  eapply yields_change; [apply maj_rest_law; [done|done|done|by rewrite <- Kz, <- Ko|lia]|].
  intros v Hv y Hy. by rewrite (maj_reduce v ls ks m).
Qed.
End Cells.
