(* ===== verification/PremapSpec.v ===== *)
(** * Premapping a subnet

    The loop of [map] keeps, for the cells of the old subnet that it has passed,
    links of the new builder with their values ([premapped]), so that the new
    subnet implements the same function. *)

From S2P Require Import Prelude CellType SubnetBase Builder BuilderInv BuilderAdd BuilderAlloc BuilderSpec BuilderEval.
From S2P Require Import Make MakeSpec SubnetEval AdderSum Synth Premapper MapperLaws PremapCell.
From stdpp Require Import gmap strings.

(** ** Definitions *)

(** The link of the new cell of an old link. *)
Definition rename (m : gmap nat Link) (l : Link) : Link :=
  match m !! idx l with
  | Some cl => mkLink (idx cl) (out l) (xorb (inv cl) (inv l))
  | None => l
  end.

(** The values of the old cells in a valuation of the new ones. *)
Definition old_val (m : gmap nat Link) (v : valuation) : valuation :=
  λ k _, match m !! k with Some l => lval v l | None => false end.

(** The gates that the premappers treat. *)
Definition gate_known (c : Cell) : bool :=
  match type c with
  | GateID MAJ => (arity c =? 1) || (arity c =? 3) || (arity c =? 5)
  | GateID s => bool_decide (s ∈ [IN; OUT; ZERO; ONE; BUF; AND; OR; XOR])
  | _ => false
  end.

Definition premappable (s : Subnet) : bool :=
  forallb (λ i, match Net.getCell s i with Some c => gate_known c | None => true end) (seq 0 (Net.size s)).

(** ** The new links *)

Section Links.
Context (m : gmap nat Link) (b : SubnetBuilder).

Definition known (l : Link) : Prop := out l = 0 ∧ ∃ cl, m !! idx l = Some cl ∧ port b cl.

Lemma rename_port l : known l → port b (rename m l).
Proof.
  intros (Ho & cl & Hm & (Hl & _ & Hc) & _). unfold rename. rewrite Hm. split; [|done].
  unfold src. cbn. split_all; [done|lia|done].
Qed.

Lemma rename_value l v : known l → lval v (rename m l) = lval (old_val m v) l.
Proof.
  intros (Ho & cl & Hm & _ & E). unfold rename, old_val, lval. rewrite Hm. cbn. rewrite Ho, E.
  by destruct (v _ _), (inv cl), (inv l).
Qed.

Lemma getNewLink_spec acc n0 n1 l : known l →
  getNewLink m b (acc, n0, n1) l =
    Some (acc ++ [rename m l], n0 + consts b false [rename m l], n1 + consts b true [rename m l]).
Proof.
  intros Hl. pose proof (rename_port l Hl) as Hp. destruct (port_cell b _ Hp) as [c Hc].
  unfold getNewLink. destruct Hl as (_ & cl & Hm & _).
  assert (mkLink (idx cl) (out l) (xorb (inv cl) (inv l)) = rename m l) as E by (unfold rename; by rewrite Hm).
  rewrite Hm. cbn [mbind option_bind]. rewrite E, (link_const_spec b _ c Hc). cbn [mbind option_bind].
  destruct (const_of b (rename m l)) as [x|] eqn:Ex.
  - rewrite !(consts_const b x) by done. destruct x; repeat case_bool_decide; simplify_eq; cbn [eqb]; repeat f_equal; lia.
  - rewrite !(consts_variable b) by done. repeat case_bool_decide; simplify_eq; repeat f_equal; lia.
Qed.

Lemma getNewLinks_loop ls : ∀ acc n0 n1, Forall known ls →
  foldl (λ r l, r ← r; getNewLink m b r l) (Some (acc, n0, n1)) ls =
    let ks := rename m <$> ls in Some (acc ++ ks, n0 + consts b false ks, n1 + consts b true ks).
Proof.
  induction ls as [|l ls IH]; intros acc n0 n1 Hk; cbn [foldl].
  { cbn. by rewrite app_nil_r, !Nat.add_0_r. }
  apply Forall_cons_1 in Hk as [Hl Hk]. cbn [mbind option_bind] in IH |- *.
  rewrite getNewLink_spec, IH by done. cbv zeta. cbn [fmap list_fmap].
  change (rename m l :: (rename m <$> ls)) with ([rename m l] ++ (rename m <$> ls)).
  rewrite !consts_app, <- app_assoc, !Nat.add_assoc. done.
Qed.

Lemma renamed_ports ls : Forall known ls → ports b (rename m <$> ls).
Proof. intros Hk. apply Forall_fmap. eapply Forall_impl; [exact Hk|]. apply rename_port. Qed.

Lemma renamed_values ls v : Forall known ls → lval v <$> (rename m <$> ls) = lval (old_val m v) <$> ls.
Proof.
  intros Hk. rewrite <- list_fmap_compose. apply Forall_fmap_ext_1. eapply Forall_impl; [exact Hk|].
  intros l Hl. by apply rename_value.
Qed.
End Links.

Lemma old_val_insert m i l v k : k ≠ i → old_val (<[i := l]> m) v k = old_val m v k.
Proof. intros Hk. unfold old_val. by rewrite lookup_insert_ne. Qed.

Lemma old_val_here m i l v : old_val (<[i := l]> m) v i 0 = lval v l.
Proof. unfold old_val. by rewrite lookup_insert_eq. Qed.

(** ** One cell *)

Section Cells.
Context `{TypeStore} (M : CellMapper) `{!MapperLaws M}.

Lemma mapCell_gate sym ls b ins outs : wf b ins outs → ports b ls →
  sym ∈ [ZERO; ONE; BUF; AND; OR; XOR] ∨ sym = MAJ ∧ (length ls = 1 ∨ length ls = 3 ∨ length ls = 5) →
  is_Some (gate_fun sym (replicate (length ls) false)) →
  adds ins outs b (mapCell M sym ls false (consts b false ls) (consts b true ls)) (yields sym ls false).
Proof.
  intros Hw Hp Hs Hf. destruct Hs as [Hs|[-> Hl]]; [|by apply mapMaj_law].
  assert (sym = ZERO ∨ sym = ONE ∨ sym = BUF ∨ sym = AND ∨ sym = OR ∨ sym = XOR) as Hsym by set_solver.
  assert (∀ n, length ls = n → is_Some (gate_fun sym (replicate n false))) as Hn by by intros n <-.
  destruct Hsym as [-> |[-> |[-> |[-> |[-> | ->]]]]]; cbn [mapCell].
  - apply plain_val; [done|]. destruct ls; [done|]. by destruct Hf.
  - apply plain_val; [done|]. destruct ls; [done|]. by destruct Hf.
  - apply plain_single; [done|by intros x; destruct x|done|]. destruct ls as [|l [|]]; [|done|]; by destruct Hf.
  - apply (map_forcing_law b ins outs Hw AND false); [by left|apply law_and|done|]. intros ->. by destruct Hf.
  - apply (map_forcing_law b ins outs Hw OR true); [by right|apply law_or|done|]. intros ->. by destruct Hf.
  - apply mapXor_law; [done|done|done|]. intros ->. by destruct Hf.
Qed.

(** An output carries the link, or a buffer of it when the link is inverted. *)
Lemma mapOut_law l b ins outs : wf b ins outs → port b l →
  wp (mapOut [l]) b (λ r b', wf b' ins (outs ++ [idx r]) ∧ ext b b' ∧
    ∃ k, out_link b' (idx r) k ∧ ∀ v, consistent v b' → lval v k = lval v l).
Proof.
  intros Hw Hp. unfold mapOut. cbn [length Nat.eqb]. unfold st_assert at 1.
  apply wp_bind. exists (), b. split; [done|]. apply wp_bind. exists l, b. split; [done|].
  apply wp_bind.
  assert (adds ins outs b (if inv l then addGate BUF [l] else mret l)
    (λ b' k, port b' k ∧ ∀ v, consistent v b' → lval v k = lval v l)) as Hk.
  { destruct (inv l); [|by apply adds_ret].
    pose proof (add_buffer l b ins outs Hw Hp) as Hb. unfold mapBuf in Hb.
    eapply adds_mono; [exact Hb|]. by intros k b' _ (? & _ & ?). }
  eapply wp_mono; [exact Hk|]. intros k b1 (Hw1 & He1 & Pk & Vk).
  eapply wp_mono; [apply addOutput_spec; [exact Hw1|apply Pk]|]. intros r b2 (Hw2 & He2 & Ho).
  split_all; [done|by etransitivity|]. exists k. split; [done|]. intros v Hv. apply Vk. by eapply consistent_ext.
Qed.
End Cells.

(** ** The loop *)

Section Loop.
Context `{TypeStore} (M : CellMapper) `{!MapperLaws M}.
Context (s : Subnet) (Hs : sn_wf s = true) (Hk : premappable s = true).

(** What holds when the cells before [i] have been mapped. *)
Record premapped (i : nat) (m : gmap nat Link) (b : SubnetBuilder) (ins outs : list nat) : Prop := {
  pm_wf : wf b ins outs;
  pm_ext : ext empty_builder b;
  pm_start : i = 0 → b = empty_builder ∧ ins = [];
  pm_nin : length ins = min i (sn_nIn s);
  pm_nout : length outs = i - (Net.size s - sn_nOut s);
  pm_ins : ∀ k j, ins !! k = Some j → m !! k = Some (LinkTo j);
  pm_cells : ∀ k c, k < i → Net.getCell s k = Some c → type c ≠ GateID OUT → ∃ l, m !! k = Some l ∧ port b l;
  pm_vals : ∀ k c ls y v, k < i → Net.getCell s k = Some c → type c ≠ GateID OUT → Net.getLinks s k = Some ls →
    consistent v b → cell_fun (type c) (lval (old_val m v) <$> ls) = Some y → old_val m v k 0 = y;
  pm_outs : ∃ ks, Forall2 (out_link b) outs ks ∧ ∀ j k l v, ks !! j = Some k → Net.getOut s j = Some l →
    consistent v b → lval v k = lval (old_val m v) l;
}.

Lemma premapped_start : premapped 0 ∅ empty_builder [] [].
Proof.
  split; try done; try (intros; lia); try apply wf_empty.
  exists []. split; [done|]. by intros j k l v Hj.
Qed.

Lemma fine_known i c ls m b ins outs : premapped i m b ins outs → cell_fine s i c ls → Forall (known m b) ls.
Proof.
  intros Hm Hf. apply list.Forall_forall. intros l Hl. split; [by eapply cf_out|].
  destruct (cf_before _ _ _ _ Hf l Hl) as (Hlt & d & Hd & Ht). by eapply pm_cells.
Qed.

Lemma old_links_insert i c ls m l v : cell_fine s i c ls →
  lval (old_val (<[i := l]> m) v) <$> ls = lval (old_val m v) <$> ls.
Proof.
  intros Hf. apply list_fmap_ext. intros j k Hj. apply list_elem_of_lookup_2 in Hj.
  destruct (cf_before _ _ _ _ Hf k Hj) as [Hlt _]. unfold lval. rewrite old_val_insert by lia. done.
Qed.

Lemma out_links_insert i j m l k v : i < Net.size s → sn_nOut s ≤ Net.size s → Net.getOut s j = Some k → 
  Net.size s - sn_nOut s + j ≤ i → lval (old_val (<[i := l]> m) v) k = lval (old_val m v) k.
Proof.
  intros Hi Hn Ho Hj. assert (j < sn_nOut s) as Hlt.
  { unfold Net.getOut in Ho. by case_bool_decide. }
  destruct (wf_output s j Hs Hlt) as (c & k' & Hc & _ & _ & Ho' & Hf). assert (k' = k) as -> by congruence.
  destruct (cf_before _ _ _ _ Hf k) as [Hkl _]; [set_solver|]. unfold lval. by rewrite old_val_insert by lia.
Qed.

(** The values of the cells before [i] are kept. *)
Lemma kept_vals i n m b ins outs b' l : premapped i m b ins outs → ext b b' →
  (∀ k, i < k < n → Net.getCell s k = None) →
  (∀ c ls y v, Net.getCell s i = Some c → type c ≠ GateID OUT → Net.getLinks s i = Some ls → consistent v b' →
     cell_fun (type c) (lval (old_val m v) <$> ls) = Some y → lval v l = y) →
  ∀ k c ls y v, k < n → Net.getCell s k = Some c → type c ≠ GateID OUT → Net.getLinks s k = Some ls →
    consistent v b' → cell_fun (type c) (lval (old_val (<[i := l]> m) v) <$> ls) = Some y →
    old_val (<[i := l]> m) v k 0 = y.
Proof.
  intros Hm He Hnone Hi k c ls y v Hlt Hc Ht Hl Hv Hy.
  destruct (wf_cell s k c Hs Hc) as [ls' Hf]. assert (ls' = ls) as -> by (pose proof (cf_links _ _ _ _ Hf); congruence).
  destruct (decide (i < k)) as [Hik|Hik]; [by rewrite Hnone in Hc by lia|].
  destruct (decide (k = i)) as [->|Hki].
  - rewrite old_val_here. rewrite (old_links_insert i c) in Hy by done. by eapply Hi.
  - rewrite old_val_insert by done. eapply (pm_vals _ _ _ _ _ Hm k c ls); [lia|done|done|done| |].
    + by eapply consistent_ext.
    + rewrite <- Hy. f_equal. apply list_fmap_ext. intros j x Hj. apply list_elem_of_lookup_2 in Hj.
      destruct (cf_before _ _ _ _ Hf x Hj) as [Hx _]. unfold lval. by rewrite old_val_insert by lia.
Qed.

Lemma kept_cells i n m b ins outs b' l : premapped i m b ins outs → ext b b' →
  (∀ k, i < k < n → Net.getCell s k = None) →
  (∀ c, Net.getCell s i = Some c → type c ≠ GateID OUT → port b' l) →
  ∀ k c, k < n → Net.getCell s k = Some c → type c ≠ GateID OUT →
    ∃ l', <[i := l]> m !! k = Some l' ∧ port b' l'.
Proof.
  intros Hm He Hnone Hi k c Hlt Hc Ht. destruct (decide (i < k)) as [Hik|Hik]; [by rewrite Hnone in Hc by lia|].
  destruct (decide (k = i)) as [->|Hki].
  - exists l. split; [apply lookup_insert_eq|by eapply Hi].
  - rewrite lookup_insert_ne by done.
    destruct (pm_cells _ _ _ _ _ Hm k c) as (l' & E & Hp); [lia|done|done|]. exists l'. split; [done|by eapply port_ext].
Qed.

Lemma fine_arity i c ls : Net.getCell s i = Some c → cell_fine s i c ls → length ls = arity c.
Proof.
  intros Hc Hf. pose proof (cf_links _ _ _ _ Hf) as Hl. unfold Net.getLinks in Hl. rewrite Hc in Hl. cbn in Hl.
  apply length_mapM in Hl. by rewrite length_seq in Hl.
Qed.

Lemma cell_known i c : Net.getCell s i = Some c → gate_known c = true.
Proof.
  intros Hc. pose proof (getCell_size _ _ _ Hc) as Hi. pose proof Hk as Hk'. unfold premappable in Hk'.
  rewrite forallb_forall in Hk'. specialize (Hk' i). rewrite Hc in Hk'. apply Hk', in_seq. lia.
Qed.

Lemma gate_cases i c ls : Net.getCell s i = Some c → cell_fine s i c ls →
  type c = GateID IN ∨ type c = GateID OUT ∨ ∃ sym, type c = GateID sym ∧
    (sym ∈ [ZERO; ONE; BUF; AND; OR; XOR] ∨ sym = MAJ ∧ (length ls = 1 ∨ length ls = 3 ∨ length ls = 5)) ∧
    is_Some (gate_fun sym (replicate (length ls) false)) ∧ sn_nIn s ≤ i ∧ S i + more c ≤ Net.size s - sn_nOut s.
Proof.
  intros Hc Hf. pose proof (cell_known i c Hc) as Hg. pose proof (cf_type _ _ _ _ Hf) as Ht.
  rewrite (fine_arity i c ls Hc Hf) in *. unfold gate_known in Hg.
  destruct (type c) as [|sym|]; try done.
  destruct (decide (sym = IN)) as [->|Hin]; [by left|]. destruct (decide (sym = OUT)) as [->|Hout]; [by right; left|].
  right; right. exists sym. split; [done|].
  assert ((sn_nIn s ≤ i ∧ S i + more c ≤ Net.size s - sn_nOut s) ∧ is_Some (gate_fun sym (replicate (arity c) false)))
    as [[? ?] ?] by (destruct sym; done).
  split_all; [|done..]. destruct (decide (sym = MAJ)) as [->|Hm].
  - right. split; [done|]. rewrite !orb_true_iff, !Nat.eqb_eq in Hg. tauto.
  - left. assert (bool_decide (sym ∈ [IN; OUT; ZERO; ONE; BUF; AND; OR; XOR]) = true) as Hb by (by destruct sym).
    apply bool_decide_eq_true in Hb. set_solver.
Qed.

(** The link that [map] keeps for a cell. *)
Definition kept (r : Link * bool) : Link := mkLink (idx r.1) (out r.1) (xorb (inv r.1) r.2).

Lemma kept_value v r : lval v (kept r) = xorb (lval v r.1) r.2.
Proof. unfold lval, kept. cbn. by destruct (v _ _), (inv r.1), r.2. Qed.

Lemma kept_port b r : port b r.1 → port b (kept r).
Proof. intros [(Hl & _ & Hc) Ho]. split; [|done]. unfold src. cbn. rewrite Ho. split_all; [done|lia|done]. Qed.

Lemma step_gate i m b ins outs c ls sym : premapped i m b ins outs → Net.getCell s i = Some c → cell_fine s i c ls →
  (∀ k, i < k < S i + more c → Net.getCell s k = None) → type c = GateID sym →
  sym ∈ [ZERO; ONE; BUF; AND; OR; XOR] ∨ sym = MAJ ∧ (length ls = 1 ∨ length ls = 3 ∨ length ls = 5) →
  is_Some (gate_fun sym (replicate (length ls) false)) → sn_nIn s ≤ i → S i + more c ≤ Net.size s - sn_nOut s →
  let ks := rename m <$> ls in
  wp (mapCell M sym ks false (consts b false ks) (consts b true ks)) b
    (λ r b', premapped (S i + more c) (<[i := kept r]> m) b' ins outs).
Proof.
  intros Hm Hc Hf Hnone Ht Hsym Hd Hin Hout ks. pose proof (fine_known i c ls m b ins outs Hm Hf) as Hkn.
  eapply wp_mono; [apply (mapCell_gate M); [by apply (pm_wf _ _ _ _ _ Hm)|by apply renamed_ports| | ]|].
  { subst ks. by rewrite length_fmap. } { subst ks. by rewrite length_fmap. }
  intros r b' (Hw' & He & Hp & Hv).
  assert (outs = []) as ->.
  { apply nil_length_inv. rewrite (pm_nout _ _ _ _ _ Hm). lia. }
  split; [done|by etransitivity; [apply Hm|]|lia|rewrite (pm_nin _ _ _ _ _ Hm); lia|cbn [length]; lia| | | |].
  - intros k j Hj. rewrite lookup_insert_ne; [by apply Hm|]. apply lookup_lt_Some in Hj.
    rewrite (pm_nin _ _ _ _ _ Hm) in Hj. lia.
  - eapply kept_cells; [done|done|done|]. intros c' _ _. by apply kept_port.
  - eapply kept_vals; [done|done|done|]. intros c' ls' y v Hc' _ Hl' Hv' Hy.
    rewrite (cf_links _ _ _ _ Hf) in Hl'. injection Hl' as <-. assert (c' = c) as -> by congruence.
    rewrite Ht in Hy. cbn in Hy. rewrite kept_value. specialize (Hv v Hv').
    unfold ks in Hv. rewrite (renamed_values m b) in Hv by done. rewrite Hy in Hv. injection Hv as ->.
    by destruct (lval v r.1), r.2.
  - exists []. split; [done|]. by intros j k l v Hj.
Qed.

Lemma step_input i m b ins outs c ls : premapped i m b ins outs → Net.getCell s i = Some c → cell_fine s i c ls →
  type c = GateID IN →
  wp (mapCell M IN ls false 0 0) b (λ r b', ∃ ins', premapped (S i) (<[i := kept r]> m) b' ins' outs).
Proof.
  intros Hm Hc Hf Ht. pose proof (cf_type _ _ _ _ Hf) as Hty. rewrite Ht in Hty. destruct Hty as (Hi & -> & Hmore).
  pose proof (wf_sizes s Hs) as Hsz. assert (outs = []) as ->.
  { apply nil_length_inv. rewrite (pm_nout _ _ _ _ _ Hm). lia. }
  cbn [mapCell]. unfold plain, mapIn. apply wp_bind. eapply wp_mono; [apply addInput_spec; [apply Hm|]|].
  { destruct (decide (i = 0)) as [E|E].
    - destruct (pm_start _ _ _ _ _ Hm E) as [-> ->]. exact ready_empty.
    - left. intros ->. pose proof (pm_nin _ _ _ _ _ Hm) as Hn. cbn in Hn. lia. }
  intros l b' (Hw' & He & [Hsrc Hl]). apply wp_ret. exists (ins ++ [idx l]).
  assert (kept (l, false) = LinkTo (idx l)) as Ek by (rewrite Hl; done). rewrite Ek.
  assert (port b' (LinkTo (idx l))) as Hp by (rewrite <- Hl; split; [done|by rewrite Hl]).
  split; [done|by etransitivity; [apply Hm|]|lia| | | | | |].
  - rewrite length_app, (pm_nin _ _ _ _ _ Hm). cbn [length]. lia.
  - cbn [length]. lia.
  - intros k j Hj. apply lookup_snoc_Some in Hj as [[Hj1 Hj]|[Hj1 <-]].
    + rewrite lookup_insert_ne; [by apply Hm|]. rewrite (pm_nin _ _ _ _ _ Hm) in Hj1. lia.
    + rewrite (pm_nin _ _ _ _ _ Hm) in Hj1. replace k with i by lia. apply lookup_insert_eq.
  - eapply (kept_cells i (S i)); [done|done|intros; lia|done].
  - eapply (kept_vals i (S i)); [done|done|intros; lia|]. intros c' ls' y v Hc' _ _ _ Hy.
    assert (c' = c) as -> by congruence. by rewrite Ht in Hy.
  - exists []. split; [done|]. by intros j k x v Hj.
Qed.

Lemma step_output i m b ins outs c ls : premapped i m b ins outs → Net.getCell s i = Some c → cell_fine s i c ls →
  type c = GateID OUT →
  wp (mapCell M OUT (rename m <$> ls) false 0 0) b (λ r b', ∃ outs', premapped (S i) (<[i := kept r]> m) b' ins outs').
Proof.
  intros Hm Hc Hf Ht. pose proof (cf_type _ _ _ _ Hf) as Hty. rewrite Ht in Hty. destruct Hty as (Hi & [l0 ->] & Hmore).
  pose proof (wf_sizes s Hs) as Hsz. pose proof (getCell_size _ _ _ Hc) as Hlt.
  pose proof (fine_known i c _ m b ins outs Hm Hf) as Hkn. apply Forall_cons_1 in Hkn as [Hkn _].
  cbn [mapCell fmap list_fmap]. unfold plain. apply wp_bind.
  eapply wp_mono; [apply mapOut_law; [apply Hm|by apply rename_port]|].
  intros r b' (Hw' & He & k & Ho & Hv). apply wp_ret. exists (outs ++ [idx r]).
  pose proof (pm_nout _ _ _ _ _ Hm) as Hno.
  split; [done|by etransitivity; [apply Hm|]|lia| | | | | |].
  - rewrite (pm_nin _ _ _ _ _ Hm). lia.
  - rewrite length_app, Hno. cbn [length]. lia.
  - intros x j Hj. rewrite lookup_insert_ne; [by apply Hm|]. apply lookup_lt_Some in Hj.
    rewrite (pm_nin _ _ _ _ _ Hm) in Hj. lia.
  - eapply (kept_cells i (S i)); [done|done|intros; lia|]. intros c' Hc' Ht'. congruence.
  - eapply (kept_vals i (S i)); [done|done|intros; lia|]. intros c' ls' y v Hc' Ht' _ _ _. congruence.
  - destruct (pm_outs _ _ _ _ _ Hm) as (ks & HF & HV). exists (ks ++ [k]). split.
    + apply Forall2_app; [|by constructor]. eapply Forall2_impl; [exact HF|]. intros o x. by apply out_link_ext.
    + pose proof (Forall2_length _ _ _ HF) as Hks.
      intros j x l v Hj Hgo Hc'. rewrite (out_links_insert i j) by (done || lia || (apply lookup_lt_Some in Hj; rewrite length_app in Hj; cbn in Hj; lia)).
      apply lookup_snoc_Some in Hj as [[Hj1 Hj]|[Hj1 <-]].
      * eapply HV; [done|done|]. by eapply consistent_ext.
      * rewrite (Hv v Hc'), (rename_value m b) by done. f_equal.
        destruct (wf_output s j Hs) as (c' & l' & Hc1 & _ & Hl1 & Hgo1 & _); [lia|].
        replace (Net.size s - sn_nOut s + j) with i in Hl1 by lia. rewrite (cf_links _ _ _ _ Hf) in Hl1. congruence.
Qed.

Lemma known_symbol sym : sym ∈ [IN; OUT; ZERO; ONE; BUF; AND; OR; XOR; MAJ] →
  ∃ ty, getCellType sym = Some ty ∧ symbol ty = sym.
Proof.
  intros Hsym. repeat (apply elem_of_cons in Hsym as [->|Hsym]; [by eexists|]). by apply elem_of_nil in Hsym.
Qed.

(** One cell, whatever its type. *)
Lemma step_cell i m b ins outs c ls : premapped i m b ins outs → Net.getCell s i = Some c → cell_fine s i c ls →
  (∀ k, i < k < S i + more c → Net.getCell s k = None) →
  let ks := rename m <$> ls in
  ∃ ty, getType (type c) = Some ty ∧
    wp (mapCell M (symbol ty) ks false (consts b false ks) (consts b true ks)) b
      (λ r b', ∃ ins' outs', premapped (S i + more c) (<[i := kept r]> m) b' ins' outs').
Proof.
  intros Hm Hc Hf Hnone ks. pose proof (cf_type _ _ _ _ Hf) as Hty.
  destruct (gate_cases i c ls Hc Hf) as [E|[E|(sym & E & Hsym & Hd & Hin & Hout)]].
  - destruct (known_symbol IN) as (ty & Ety & Es); [set_solver|]. exists ty. rewrite E. split; [done|]. rewrite Es.
    rewrite E in Hty. destruct Hty as (_ & El & Em). rewrite Em, Nat.add_0_r.
    eapply wp_mono; [apply (step_input i m b ins outs c ls); done|]. intros r b' [ins' Hm']. by exists ins', outs.
  - destruct (known_symbol OUT) as (ty & Ety & Es); [set_solver|]. exists ty. rewrite E. split; [done|]. rewrite Es.
    rewrite E in Hty. destruct Hty as (_ & El & Em). rewrite Em, Nat.add_0_r.
    eapply wp_mono; [apply (step_output i m b ins outs c ls); done|]. intros r b' [outs' Hm']. by exists ins, outs'.
  - destruct (known_symbol sym) as (ty & Ety & Es); [set_solver|]. exists ty. rewrite E. split; [done|]. rewrite Es.
    eapply wp_mono; [apply (step_gate i m b ins outs c ls sym); done|]. intros r b' Hm'. by exists ins, outs.
Qed.

Lemma next_le i c ls : Net.getCell s i = Some c → cell_fine s i c ls → S i + more c ≤ Net.size s.
Proof.
  intros Hc Hf. pose proof (cf_type _ _ _ _ Hf) as Hty. pose proof (getCell_size _ _ _ Hc) as Hlt.
  destruct (type c) as [|[]|]; cbn in Hty; destruct Hty as (? & Hty); try lia; destruct Hty; lia.
Qed.

Lemma map_loop_spec : ∀ fuel known i m b ins outs, sn_check fuel s known i = true → i ≤ Net.size s →
  premapped i m b ins outs →
  wp (map_loop M fuel s i m) b (λ _ b', ∃ m' ins' outs', premapped (Net.size s) m' b' ins' outs').
Proof.
  induction fuel as [|fuel IH]; intros known i m b ins outs Hc Hle Hm; cbn [map_loop]; cbn [sn_check] in Hc;
    (destruct (Nat.leb_spec (Net.size s) i) as [Hi|Hi];
      [apply wp_ret; exists m, ins, outs; by replace (Net.size s) with i by lia|]); [done|].
  destruct (Net.getCell s i) as [c|] eqn:Ec; [|done]. destruct (Net.getLinks s i) as [ls|] eqn:El; [|done].
  apply andb_true_iff in Hc as [Hc Hrest]. destruct (wf_cell s i c Hs Ec) as [ls' Hf].
  assert (ls' = ls) as -> by (pose proof (cf_links _ _ _ _ Hf); congruence).
  pose proof (λ k Hk, cell_check_skip s known i c ls k Hc Hk) as Hnone.
  destruct (step_cell i m b ins outs c ls Hm Ec Hf) as (ty & Ety & Hstep); [intros; apply Hnone; lia|].
  eapply wp_read; [done|]. eapply wp_read; [exact Ety|]. unfold getNewLinks.
  pose proof (fine_known i c ls m b ins outs Hm Hf) as Hkn.
  apply wp_bind. exists (rename m <$> ls, consts b false (rename m <$> ls), consts b true (rename m <$> ls)), b. split.
  { unfold mbind, st_bind, st_read. rewrite El. by rewrite getNewLinks_loop. }
  cbv iota beta. apply wp_bind. eapply wp_mono; [exact Hstep|]. intros [r i0] b' (ins' & outs' & Hm').
  eapply IH; [exact Hrest|by eapply next_le|exact Hm'].
Qed.
End Loop.

(** ** The new subnet *)

Section Premap.
Context `{TypeStore} (M : CellMapper) `{!MapperLaws M}.

Lemma old_val_consistent s m b ins outs v : sn_wf s = true → premapped s (Net.size s) m b ins outs →
  consistent v b → sn_consistent (old_val m v) s.
Proof.
  intros Hs Hm Hv k c ls y Hc Hl Hy. pose proof (getCell_size _ _ _ Hc) as Hk.
  assert (type c ≠ GateID OUT) as Ht.
  { intros E. rewrite E in Hy. by destruct (lval (old_val m v) <$> ls). }
  eapply pm_vals; [done|lia|done|done|done|done|done].
Qed.

Lemma old_val_inputs s m b ins outs v : sn_wf s = true → premapped s (Net.size s) m b ins outs →
  in_values (old_val m v) s = (λ j, v j 0) <$> ins.
Proof.
  intros Hs Hm. pose proof (wf_sizes s Hs) as Hsz. pose proof (pm_nin _ _ _ _ _ _ Hm) as Hn.
  unfold in_values, Net.getInIdx. apply list_eq. intros k. rewrite !list_lookup_fmap.
  destruct (ins !! k) as [j|] eqn:Ej; cbn.
  - pose proof (lookup_lt_Some _ _ _ Ej). rewrite lookup_seq_lt by lia. cbn. unfold old_val.
    rewrite (pm_ins _ _ _ _ _ _ Hm k j Ej). unfold lval. cbn. by rewrite xorb_false_r.
  - apply lookup_ge_None in Ej. by rewrite lookup_seq_ge by lia.
Qed.

Lemma old_val_outputs s m b ins outs v ks res : sn_wf s = true → premapped s (Net.size s) m b ins outs →
  consistent v b → Forall2 (out_link b) outs ks →
  (∀ j k l v, ks !! j = Some k → Net.getOut s j = Some l → consistent v b → lval v k = lval (old_val m v) l) →
  out_values (old_val m v) s = Some res → lval v <$> ks = res.
Proof.
  intros Hs Hm Hv HF HV Ho. pose proof (wf_sizes s Hs) as Hsz. pose proof (pm_nout _ _ _ _ _ _ Hm) as Hn.
  pose proof (Forall2_length _ _ _ HF) as Hl. unfold out_values in Ho. apply mapM_Some_1 in Ho.
  pose proof (Forall2_length _ _ _ Ho) as Hr. rewrite length_seq in Hr.
  apply list_eq_same_length with (length ks); [lia|by rewrite length_fmap|].
  intros j x y Hj Hx Hy. rewrite list_lookup_fmap in Hx. destruct (ks !! j) as [k|] eqn:Ek; [|done]. cbn in Hx.
  injection Hx as <-. destruct (Forall2_lookup_r _ _ _ j y Ho Hy) as (j' & Hj' & Ej).
  rewrite lookup_seq_lt in Hj' by lia. injection Hj' as <-. cbn in Ej.
  destruct (Net.getOut s j) as [l|] eqn:El; [|done]. cbn in Ej. injection Ej as <-. by eapply HV.
Qed.

Lemma map_subnet_finished s n f : sn_wf s = true → premappable s = true → 0 < sn_nOut s → implements s n f →
  wp (map_loop M (Net.size s) s 0 ∅) empty_builder (finished n f).
Proof.
  intros Hs Hk Ho (Hn & Hf & _). pose proof Hs as Hc. unfold sn_wf in Hc. apply andb_true_iff in Hc as [_ Hc].
  eapply wp_mono; [eapply (map_loop_spec M s Hs Hk); [exact Hc|lia|apply premapped_start]|].
  intros [] b (m & ins & outs & Hm). pose proof (wf_sizes s Hs) as Hsz.
  destruct (pm_outs _ _ _ _ _ _ Hm) as (ks & HF & HV).
  exists ins, outs, ks. split_all; [apply Hm|apply Hm|rewrite (pm_nin _ _ _ _ _ _ Hm); lia| |done|].
  - intros ->. pose proof (pm_nout _ _ _ _ _ _ Hm) as Hno. cbn [length] in Hno. lia.
  - intros v Hv. rewrite <- (old_val_inputs s m b ins outs v Hs Hm).
    eapply old_val_outputs; [exact Hs|exact Hm|done|exact HF|exact HV|].
    apply Hf. by eapply old_val_consistent.
Qed.
End Premap.
