(* ===== verification/MakeWf.v ===== *)
(** * The subnets made are well-formed

    A builder whose cells are combinational gates with links to first ports
    ([combinational_builder]) makes subnets that satisfy [sn_wf], so that what is
    proved for well-formed subnets applies to them. *)

From S2P Require Import Prelude CellType SubnetBase Builder Order BuilderInv BuilderAdd BuilderAlloc.
From S2P Require Import BuilderSpec BuilderEval Make MakeSpec SubnetEval.
From stdpp Require Import gmap.

(** ** Definitions *)

(** A combinational gate, an input or an output, with links to first ports. *)
Definition gate_cell (c : Cell) : Prop :=
  (∀ l, l ∈ getInPlaceLinks c → out l = 0) ∧
  (type c = GateID IN ∨ type c = GateID OUT ∨ is_Some (cell_fun (type c) (replicate (arity c) false))).

Definition combinational_builder (b : SubnetBuilder) : Prop :=
  ∀ i c, is_live b i → getCell b i = Some c → gate_cell c.

(** ** From a declarative description to the check *)

Lemma cell_check_intro s known k c ls : cell_fine s k c ls → more c = 0 →
  (∀ j d, j < k → Net.getCell s j = Some d → type d ≠ GateID OUT → j ∈ known) →
  cell_check s known k c ls = true.
Proof.
  intros Hf Hm Hkn. unfold cell_check. rewrite !andb_true_iff. split_all.
  - rewrite forallb_forall. intros l Hl. apply list_elem_of_In in Hl.
    rewrite (cf_out _ _ _ _ Hf l Hl). cbn. apply bool_decide_eq_true_2.
    destruct (cf_before _ _ _ _ Hf l Hl) as (Hlt & d & Hd & Ht). by eapply Hkn.
  - by rewrite Hm.
  - pose proof (cf_type _ _ _ _ Hf) as Ht.
    assert (∀ t, t = type c → (sn_nIn s ≤ k ∧ S k + more c ≤ Net.size s - sn_nOut s) ∧
      is_Some (cell_fun t (replicate (length ls) false)) →
      (sn_nIn s <=? k) && (S k + more c <=? Net.size s - sn_nOut s) &&
      bool_decide (is_Some (cell_fun t (replicate (length ls) false))) = true) as Hg.
    { intros t _ [[H1 H2] H3]. rewrite !andb_true_iff, !Nat.leb_le. by rewrite bool_decide_eq_true. }
    destruct (type c) as [|sym|u]; [by apply Hg| |by apply Hg].
    destruct sym; try (by apply Hg); destruct Ht as (H1 & H2 & H3); rewrite H3, !andb_true_iff.
    + subst ls. rewrite Nat.ltb_lt. done.
    + destruct H2 as [l ->]. rewrite Nat.leb_le. done.
Qed.

Lemma sn_check_intro s :
  (∀ k, k < Net.size s → ∃ c ls, Net.getCell s k = Some c ∧ more c = 0 ∧ cell_fine s k c ls) →
  ∀ fuel known i, Net.size s - i ≤ fuel →
  (∀ j d, j < i → Net.getCell s j = Some d → type d ≠ GateID OUT → j ∈ known) →
  sn_check fuel s known i = true.
Proof.
  intros Hs. induction fuel as [|fuel IH]; intros known i Hi Hkn; cbn [sn_check];
    (destruct (Nat.leb_spec (Net.size s) i) as [Hle|Hlt]; [done|]); [lia|].
  destruct (Hs i Hlt) as (c & ls & Hc & Hm & Hf). rewrite Hc, (cf_links _ _ _ _ Hf).
  rewrite (cell_check_intro s known i c ls Hf Hm Hkn). cbn [andb]. apply IH; [lia|].
  intros j d Hj Hd Ht. rewrite Hm, Nat.add_0_r in Hj. destruct (decide (j = i)) as [->|Hne].
  - assert (d = c) as -> by congruence. destruct (cell_is OUT c) eqn:Eo; [by apply is_out_spec in Eo|set_solver].
  - assert (j ∈ known) as Hin by (eapply Hkn; [lia|done|done]). destruct (cell_is OUT c); set_solver.
Qed.

Section Places.
Context `{TypeStore}.
Context (b : SubnetBuilder) (ins outs : list nat) (segs : list (list nat)) (HW : WF b ins outs segs).

Let o := order_of segs outs.

(** Where the inputs and the outputs are in the order. *)
Lemma input_place k i c : o !! k = Some i → getCell b i = Some c → type c = GateID IN → k < length ins.
Proof.
  intros Hk Hci Ht. pose proof (list_elem_of_lookup_2 _ _ _ Hk) as Hin. unfold o, order_of in Hin.
  apply elem_of_app in Hin as [Hin|Hin].
  2: { destruct (wf_outs _ _ _ _ HW i Hin) as (c' & Hc' & _ & Ht' & _). congruence. }
  destruct (seg_elem _ _ Hin) as (d & sg & Hs & His).
  destruct (wf_seg _ _ _ _ HW d sg i Hs His) as (c' & Hc' & Hok & _ & _ & Hd & Hn).
  assert (c' = c) as -> by congruence. destruct Hok as (_ & _ & _ & Hv & _). rewrite Ht in Hv. cbn in Hv.
  apply Nat.eqb_eq in Hv. unfold getInPlaceLinks in Hn. rewrite Hv in Hn. cbn in Hn. injection Hn as <-.
  destruct (wf_ins _ _ _ _ HW) as (cs & Ei & _ & Hcs).
  assert (i ∈ default [] (head segs)) as Hh by (destruct segs as [|sg0 segs']; [done|]; cbn in Hs |- *; by injection Hs as ->).
  rewrite Ei in Hh. apply elem_of_app in Hh as [Hh|Hh].
  - apply list_elem_of_lookup in Hh as [k' Hk']. pose proof (lookup_lt_Some _ _ _ Hk').
    assert (o !! k' = Some i) as Ho.
    { unfold o, order_of. destruct (head_concat segs) as [r ->]. rewrite Ei, <- !app_assoc. by apply lookup_app_l_Some. }
    by rewrite (NoDup_lookup o k k' i (order_nodup b ins outs segs HW)).
  - exfalso. destruct (Hcs i Hh) as [E|E]; unfold cell_type in E; rewrite Hci in E; cbn in E; congruence.
Qed.

Lemma output_place k i c : o !! k = Some i → getCell b i = Some c →
  (type c = GateID OUT ↔ length o - length outs ≤ k).
Proof.
  intros Hk Hci. unfold o, order_of in *. rewrite length_app. destruct (decide (k < length (concat segs))) as [Hlt|Hge].
  - rewrite lookup_app_l in Hk by done. apply list_elem_of_lookup_2 in Hk. destruct (seg_elem _ _ Hk) as (d & sg & Hs & His).
    destruct (wf_seg _ _ _ _ HW d sg i Hs His) as (c' & Hc' & _ & Ht & _). split; [intros ?; congruence|lia].
  - rewrite lookup_app_r in Hk by lia. apply list_elem_of_lookup_2 in Hk.
    destruct (wf_outs _ _ _ _ HW i Hk) as (c' & Hc' & _ & Ht & _). split; [intros _; lia|intros _; congruence].
Qed.
End Places.

Section MakeWf.
Context `{TypeStore}.
Context (b : SubnetBuilder) (ins outs : list nat) (segs : list (list nat)) (s : Subnet).
Context (HW : WF b ins outs segs) (Hempty : emptyEntryIDs b = []) (Hc : combinational_builder b).
Context (Hm : made b (order_of segs outs) s).

Let o := order_of segs outs.

Lemma made_sizes : Net.size s = length o ∧ sn_nIn s = length ins ∧ sn_nOut s = length outs ∧
  length ins + length outs ≤ length o.
Proof.
  destruct (wf_nums _ _ _ _ HW) as (N1 & N2 & _). destruct (md_nums _ _ _ Hm) as (M1 & M2 & _).
  split_all; [apply (md_size _ _ _ Hm)|congruence|congruence|].
  destruct (wf_ins _ _ _ _ HW) as (cs & Ei & _). unfold o, order_of. rewrite length_app.
  destruct (head_concat segs) as [r Er]. rewrite Er, Ei, !length_app. lia.
Qed.

Lemma made_links k i c c' l' : o !! k = Some i → getCell b i = Some c →
  Forall2 (renamed o) (getInPlaceLinks c) (getInPlaceLinks c') → l' ∈ getInPlaceLinks c' →
  out l' = 0 ∧ idx l' < k ∧ ∃ d, Net.getCell s (idx l') = Some d ∧ type d ≠ GateID OUT.
Proof.
  intros Hk Hci HF Hl. apply list_elem_of_lookup in Hl as [j Hj].
  destruct (Forall2_lookup_r _ _ _ j l' HF Hj) as (l & Hl & E1 & E2 & E3). apply list_elem_of_lookup_2 in Hl.
  assert (i ∈ o) as Hio by by eapply list_elem_of_lookup_2.
  assert (is_live b i) as Hlive by by apply (live_order _ _ _ _ _ HW).
  split; [rewrite E2; by apply (Hc i c Hlive Hci)|].
  apply list_elem_of_split_length in Hk as (l1 & l2 & Eo & Ek).
  pose proof (segs_before b ins outs segs l1 i l2 c l HW Eo Hci Hl) as Hb.
  apply list_elem_of_lookup in Hb as [j' Hj']. pose proof (lookup_lt_Some _ _ _ Hj') as Hlt.
  assert (o !! j' = Some (idx l)) as Hj'' by (rewrite Eo; by apply lookup_app_l_Some).
  assert (j' = idx l') as -> by (eapply NoDup_lookup; [exact (order_nodup b ins outs segs HW)|exact Hj''|done]).
  split; [lia|]. destruct (made_cell b ins outs segs s HW Hm (idx l') (idx l) E1) as (d & d' & Hd & Hd' & Ht & _).
  exists d'. split; [done|]. rewrite Ht. by apply (source_no_output b ins outs segs i c l d HW Hio Hci Hl).
Qed.

Lemma made_fine k : k < Net.size s → ∃ c ls, Net.getCell s k = Some c ∧ more c = 0 ∧ cell_fine s k c ls.
Proof.
  intros Hk. destruct made_sizes as (Es & Ei & Eo & Hle). rewrite Es in Hk.
  destruct (lookup_lt_is_Some_2 o k Hk) as [i Hi].
  destruct (md_cells _ _ _ Hm k i Hi) as (c & c' & Hci & Hc' & (S1 & S2 & S3 & S4 & S5) & _).
  assert (i ∈ o) as Hio by by eapply list_elem_of_lookup_2.
  destruct (live_cell b ins outs segs i HW Hio) as (c0 & Hc0 & Hok). assert (c0 = c) as -> by congruence.
  pose proof (inputs_length c Hok) as Hlen. destruct Hok as (Hmore & Ha & Hll & Hv & _).
  assert (is_live b i) as Hlive by by apply (live_order _ _ _ _ _ HW).
  exists c', (getInPlaceLinks c'). split; [done|]. split; [congruence|]. split.
  - apply net_links; [done|by rewrite S2|by rewrite S4].
  - intros l Hl. by apply (made_links k i c c' l).
  - intros l Hl. by apply (made_links k i c c' l).
  - rewrite S1, S3, Hmore, Nat.add_0_r. pose proof (Forall2_length _ _ _ S5) as HL. rewrite <- HL, Hlen, Es, Ei, Eo.
    pose proof (output_place b ins outs segs HW k i c Hi Hci) as Hout. fold o in Hout.
    destruct (decide (type c = GateID IN)) as [Ein|Ein].
    { rewrite Ein in Hv |- *. cbn in Hv. apply Nat.eqb_eq in Hv. split_all; [by eapply input_place| |done].
      apply nil_length_inv. by rewrite <- HL, Hlen. }
    destruct (decide (type c = GateID OUT)) as [Eout|Eout].
    { rewrite Eout in Hv |- *. cbn in Hv. apply Nat.eqb_eq in Hv. split_all; [by apply Hout| |done].
      assert (length (getInPlaceLinks c') = 1) as Hl1 by lia. destruct (getInPlaceLinks c') as [|l [|]]; try done.
      by exists l. }
    assert ((length ins ≤ k ∧ S k ≤ length o - length outs) ∧ is_Some (cell_fun (type c) (replicate (arity c) false))) as Hg.
    { split.
      - split; [|apply Nat.nle_gt in Hout || (assert (¬ length o - length outs ≤ k) by (by rewrite <- Hout); lia)].
        destruct (decide (k < length ins)) as [Hlt|]; [|lia]. exfalso.
        destruct (ins_first b ins outs segs HW k Hlt) as (i' & c1 & Hi' & Hc1 & Ht1 & _).
        unfold o in Hi. congruence.
      - destruct (proj2 (Hc i c Hlive Hci)) as [?|[?|?]]; done. }
    destruct (type c) as [|[]|]; done.
Qed.

Lemma made_wf : sn_wf s = true.
Proof.
  destruct made_sizes as (Es & Ei & Eo & Hle). unfold sn_wf. apply andb_true_iff. split; [apply Nat.leb_le; lia|].
  apply sn_check_intro; [apply made_fine|lia|]. intros j d Hj. lia.
Qed.
End MakeWf.
