(* ===== verification/Stays.v ===== *)
(** * The cells that additions put into a builder

    Adding cells puts cells of the requested types and links into a builder and
    no others: a property of cells that does not depend on the reference count
    and holds for the requested cells holds for all of them ([stays]). *)

From S2P Require Import Prelude CellType SubnetBase Builder Order BuilderAdd Premapper.
From stdpp Require Import gmap strings.

(** ** Definitions *)

(** A property of cells that does not depend on the reference count. *)
Class CellProperty (P : Cell → bool) := refcount_free : ∀ n c, P (set_refcount n c) = P c.

(** All the cells of [b] have the property [P]. *)
Definition only (P : Cell → bool) (b : SubnetBuilder) : Prop :=
  ∀ i c, getCell b i = Some c → P c = true.

(** The cells of type [t] with links [ls] have it. *)
Definition allowed (P : Cell → bool) (t : TypeID) (ls : LinkList) : Prop :=
  ∀ c, SubnetCell t ls = Some c → P c = true.

Definition stays (P : Cell → bool) {A} (m : st SubnetBuilder A) : Prop :=
  ∀ b a b', m b = Some (a, b') → only P b → only P b'.

(** A partial function that leaves the entries as they are. *)
Definition same_entries (f : SubnetBuilder → option SubnetBuilder) : Prop :=
  ∀ b b', f b = Some b' → entries b' = entries b.

(** ** Frames *)

Lemma only_entries P b b' : entries b' = entries b → only P b → only P b'.
Proof. intros E Ho i c Hc. apply (Ho i c). unfold getCell in *. by rewrite <- E. Qed.

Lemma only_insert P b i c : only P b → P c = true → only P (with_entries (<[i := ECell c]> (entries b)) b).
Proof.
  intros Ho Hp j d Hd. apply getCell_lookup in Hd. cbn in Hd. apply list_lookup_insert_Some in Hd as [(_ & E & _)|[_ Hd]].
  - by injection E as <-.
  - apply (Ho j). by apply getCell_lookup.
Qed.

Lemma only_snoc P b e : only P b → entry_cell e = None → only P (with_entries (entries b ++ [e]) b).
Proof.
  intros Ho He j d Hd. apply getCell_lookup in Hd. cbn in Hd. apply lookup_snoc_Some in Hd as [[_ Hd]|[_ ->]].
  - apply (Ho j). by apply getCell_lookup.
  - done.
Qed.

Lemma upd_desc_same i f : same_entries (upd_desc i f).
Proof. intros b b' E. unfold upd_desc in E. apply bind_Some in E as (d & _ & E). by injection E as <-. Qed.

Lemma upd_bounds_same d p : same_entries (upd_bounds d p).
Proof. intros b b' E. unfold upd_bounds in E. case_bool_decide; [|done]. by injection E as <-. Qed.

Lemma addFanout_same i j : same_entries (addFanout i j).
Proof.
  intros b b' E. unfold addFanout in E. case_bool_decide; [|done].
  destruct (fanoutsEnabled b); [|by injection E as <-]. apply bind_Some in E as (l & _ & E). by injection E as <-.
Qed.

Lemma setOrder_begin_same x y b : entries (setOrder_begin x y b) = entries b.
Proof. unfold setOrder_begin. by repeat case_decide. Qed.

Lemma setOrder_end_same x y b : entries (setOrder_end x y b) = entries b.
Proof. unfold setOrder_end. by repeat case_decide. Qed.

Lemma setOrder_prev_same x y : same_entries (setOrder_prev x y).
Proof.
  intros b b' E. unfold setOrder_prev in E. destruct y; try done; [|by injection E as <-].
  apply bind_Some in E as (p & _ & E). case_decide; [by injection E as <-|]. by apply upd_desc_same in E.
Qed.

Lemma setOrder_next_same x y : same_entries (setOrder_next x y).
Proof.
  intros b b' E. unfold setOrder_next in E. destruct x; try done; [|by injection E as <-].
  apply bind_Some in E as (p & _ & E). case_decide; [by injection E as <-|]. by apply upd_desc_same in E.
Qed.

Lemma setOrder_same x y : same_entries (setOrder x y).
Proof.
  intros b b' E. unfold setOrder in E. destruct (order_args_ok x y); [|done].
  case_decide; [by injection E as <-|]. apply bind_Some in E as (b1 & E1 & E).
  apply setOrder_prev_same in E1. apply setOrder_next_same in E.
  by rewrite E, E1, setOrder_end_same, setOrder_begin_same.
Qed.

Lemma placeAfter_same x y : same_entries (placeAfter x y).
Proof.
  intros b b' E. unfold placeAfter in E. case_decide; [done|]. apply bind_Some in E as (n & _ & E).
  apply bind_Some in E as (b1 & E1 & E). apply setOrder_same in E1, E. congruence.
Qed.

Lemma addDepthBounds_same i : same_entries (addDepthBounds i).
Proof.
  intros b b' E. unfold addDepthBounds in E. apply bind_Some in E as (c & _ & E). apply bind_Some in E as (d0 & _ & E).
  apply bind_Some in E as (d & _ & E). destruct (cell_is OUT c); [by apply placeAfter_same in E|].
  apply bind_Some in E as ([f l] & _ & E). case_decide.
  - apply bind_Some in E as (b1 & E1 & E). apply bind_Some in E as (p & _ & E).
    apply upd_bounds_same in E1. apply placeAfter_same in E. by rewrite E, E1.
  - apply bind_Some in E as (p & _ & E). apply bind_Some in E as (b1 & E1 & E). apply placeAfter_same in E1.
    case_decide; [apply upd_bounds_same in E; by rewrite E, E1|]. injection E as <-. by rewrite E1.
Qed.

(** ** Programs *)

Section Stays.
Context (P : Cell → bool) `{!CellProperty P}.

Lemma stays_ret {A} (a : A) : stays P (mret a).
Proof. intros b x b' E. by injection E as _ <-. Qed.

Lemma stays_fail {A} : stays P (st_fail : st SubnetBuilder A).
Proof. by intros b x b' E. Qed.

Lemma stays_bind {A B} (m : st SubnetBuilder A) (f : A → st SubnetBuilder B) :
  stays P m → (∀ a, stays P (f a)) → stays P (m ≫= f).
Proof. intros Hm Hf b x b' E Ho. apply bind_Some_iff in E as (a & b1 & E1 & E). eapply Hf; [exact E|]. by eapply Hm. Qed.

Lemma stays_read {A} (r : SubnetBuilder → option A) : stays P (st_read r).
Proof. intros b x b' E. unfold st_read in E. destruct (r b); [|done]. by injection E as _ <-. Qed.

Lemma stays_assert x : stays P (st_assert x).
Proof. intros b y b' E. unfold st_assert in E. destruct x; [|done]. by injection E as _ <-. Qed.

Lemma stays_gets {A} (f : SubnetBuilder → A) : stays P (st_gets f).
Proof. intros b x b' E. by injection E as _ <-. Qed.

Lemma stays_modify f : (∀ b, entries (f b) = entries b) → stays P (st_modify f).
Proof. intros Hf b x b' E Ho. injection E as _ <-. exact (only_entries P b _ (Hf b) Ho). Qed.

Lemma stays_update f : (∀ b b', f b = Some b' → only P b → only P b') → stays P (st_update f).
Proof. intros Hf b x b' E. unfold st_update in E. destruct (f b) eqn:Ef; [|done]. injection E as _ <-. by apply Hf. Qed.

Lemma allocEntry_buf_stays isBuf : stays P (allocEntry_buf isBuf).
Proof.
  intros b i b' E Ho. unfold allocEntry_buf in E. cbn in E.
  set (b1 := if isBuf then _ else _) in E. assert (entries b1 = entries b) as E1 by (subst b1; by destruct isBuf).
  apply (only_entries P b b1 E1) in Ho. clearbody b1. clear E1.
  destruct (list.last (emptyEntryIDs b1)) as [k|]; injection E as _ <-.
  - exact (only_entries P b1 _ eq_refl Ho).
  - exact (only_entries P _ _ eq_refl (only_snoc P b1 EUninit Ho eq_refl)).
Qed.

Lemma alloc_link_stays i l b b' : alloc_link i l b = Some b' → only P b → only P b'.
Proof.
  unfold alloc_link. intros E Ho. apply bind_Some in E as (d & _ & E). apply bind_Some in E as (dl & _ & E).
  apply bind_Some in E as (b1 & E1 & E). apply upd_desc_same in E1. apply bind_Some in E as (c & Hc & E).
  destruct (cell_is OUT c); [done|]. apply bind_Some in E as (b2 & E2 & E). apply addFanout_same in E2.
  unfold upd_cell in E. apply bind_Some in E as (c2 & Hc2 & E). cbn in E. injection E as <-.
  assert (only P b2) as Ho2 by (eapply only_entries; [|exact Ho]; congruence).
  apply only_insert; [done|]. unfold count_up. rewrite refcount_free. by apply (Ho2 (idx l)).
Qed.

Lemma alloc_links_stays i ls : ∀ b b', foldl (λ b l, b ← b; alloc_link i l b) (Some b) ls = Some b' → only P b → only P b'.
Proof.
  induction ls as [|l ls IH]; intros b b' E Ho; [by injection E as <-|]. cbn in E.
  destruct (alloc_link i l b) as [b1|] eqn:E1; [|by rewrite alloc_links_None in E].
  eapply IH; [exact E|]. by eapply alloc_link_stays.
Qed.

Lemma alloc_more_stays ls d js : ∀ p b b', alloc_more ls d js p b = Some b' → only P b → only P b'.
Proof.
  induction js as [|j js IH]; intros p b b' E Ho; [by injection E as <-|]. cbn [alloc_more] in E.
  apply bind_Some in E as ([f l] & _ & E). apply bind_Some in E as (b1 & E1 & E). apply bind_Some in E as (b2 & E2 & E).
  eapply IH; [exact E|]. apply setOrder_same in E2. eapply only_entries; [exact E2|].
  assert (entries b1 = entries b) as Eb by (case_decide; [by apply upd_bounds_same in E1|by injection E1 as <-]).
  exact (only_entries P _ _ eq_refl (only_snoc P b1 (LinkEntry ls j) (only_entries P b _ Eb Ho) eq_refl)).
Qed.

Lemma alloc_fill_stays t ls i b b' : allowed P t ls → alloc_fill t ls i b = Some b' → only P b → only P b'.
Proof.
  intros Ht E Ho. unfold alloc_fill in E. apply bind_Some in E as (b1 & E1 & E). apply upd_desc_same in E1.
  apply bind_Some in E as (b2 & E2 & E). apply alloc_links_stays in E2; [|exact (only_entries P b _ E1 Ho)].
  apply bind_Some in E as (c & Hc & E). apply bind_Some in E as (b3 & E3 & E). apply addDepthBounds_same in E3.
  assert (only P b3) as Ho3 by (eapply only_entries; [exact E3|]; apply only_insert; [done|by apply Ht]).
  apply bind_Some in E as (d & _ & E). apply bind_Some in E as (d' & _ & E). case_bool_decide; [by injection E as <-|].
  apply bind_Some in E as (n & _ & E). apply bind_Some in E as (b4 & E4 & E). apply setOrder_same in E.
  eapply only_entries; [exact E|]. by eapply alloc_more_stays.
Qed.
End Stays.

(** Programs whose parts stay within the types. *)
Create HintDb stays discriminated.
#[export] Hint Resolve stays_ret stays_fail stays_read stays_assert stays_gets allocEntry_buf_stays : stays.

Ltac stays_step :=
  lazymatch goal with
  | |- stays _ (_ ≫= _) => apply stays_bind; [|intros]
  | |- stays _ (let '(_, _) := ?x in _) => destruct x
  | |- stays _ (match ?x with _ => _ end) => destruct x
  | |- stays _ _ => solve [auto with stays]
  end.

Ltac stays_tac := repeat stays_step.

Section AddCell.
Context `{TypeStore} (P : Cell → bool) `{!CellProperty P}.

Lemma allocEntry_stays t ls : allowed P t ls → stays P (allocEntry t ls).
Proof.
  intros Ht. unfold allocEntry, strashEntry. apply stays_bind; [apply stays_modify|intros []].
  { intros b. unfold fixate. by repeat case_decide. }
  apply stays_bind; [stays_tac; by apply stays_modify|intros [[i|] new]]; stays_tac;
    apply stays_update; intros b b' E; by eapply alloc_fill_stays.
Qed.

Lemma addCell_stays t ls : allowed P t ls → stays P (addCell t ls).
Proof.
  intros Ht. unfold addCell. pose proof (allocEntry_stays t ls Ht) as Ha. stays_tac;
    apply stays_modify; intros b; by case_decide.
Qed.

Lemma addGate_stays s ls : allowed P (GateID s) ls → getCellTypeID s = GateID s → stays P (addGate s ls).
Proof. intros Hp E. unfold addGate. rewrite E. by apply addCell_stays. Qed.

Lemma addCellTree_loop_stays s k : (∀ ls, allowed P (GateID s) ls) → getCellTypeID s = GateID s →
  ∀ fuel rest, stays P (addCellTree_loop fuel s k rest).
Proof.
  intros Hp E. induction fuel as [|fuel IH]; intros [|x [|y rest]]; cbn [addCellTree_loop]; stays_tac.
  by apply addGate_stays.
Qed.

Lemma addCellTree_stays s ls k : (∀ ls, allowed P (GateID s) ls) → getCellTypeID s = GateID s → stays P (addCellTree s ls k).
Proof.
  intros Hp E. unfold addCellTree. set (n := if MaxArity <? k then _ else _). clearbody n.
  destruct (length ls <=? n); [by apply addGate_stays|]. stays_tac. by apply addCellTree_loop_stays.
Qed.
End AddCell.

(** * The basis of a premapped subnet

    A premapper adds gates of its basis only, so that its builder has, besides
    inputs, outputs, constants and buffers, only such cells. *)

(** ** Definitions *)

(** The gates of a basis, besides the inputs, outputs, constants and buffers. *)
Definition in_basis (gates : list CellSymbol) (t : TypeID) : bool :=
  match t with
  | GateID s => bool_decide (s ∈ [IN; OUT; ZERO; ONE; BUF] ++ gates)
  | _ => false
  end.

Definition basis_cell (gates : list CellSymbol) (c : Cell) : bool := in_basis gates (type c).

#[export] Instance basis_property gates : CellProperty (basis_cell gates).
Proof. done. Defined.

Lemma SubnetCell_type t ls c : SubnetCell t ls = Some c → type c = t.
Proof. unfold SubnetCell. destruct (bool_decide _); [|done]. by intros [= <-]. Qed.

Lemma basis_allowed gates s ls : s ∈ [IN; OUT; ZERO; ONE; BUF] ++ gates → allowed (basis_cell gates) (GateID s) ls.
Proof.
  intros Hs c Hc. unfold basis_cell. rewrite (SubnetCell_type _ _ _ Hc). by apply bool_decide_eq_true_2.
Qed.

(** ** The premappers *)

(** The subclass adds cells of the the property [P] only. *)
Class WithinBasis `{TypeStore} (P : Cell → bool) (M : CellMapper) := {
  within_and : ∀ ls i, stays P (map_and M ls i);
  within_or : ∀ ls i, stays P (map_or M ls i);
  within_xor : ∀ ls i, stays P (map_xor M ls i);
  within_maj : ∀ ls i, stays P (map_maj M ls i);
}.

Section Base.
Context `{TypeStore} (gates : list CellSymbol) (M : CellMapper).

Let P := basis_cell gates.

#[local] Instance P_property : CellProperty P := basis_property gates.

Lemma basis_gate s ls : s ∈ [IN; OUT; ZERO; ONE; BUF] ++ gates → getCellTypeID s = GateID s → stays P (addGate s ls).
Proof. intros Hs E. apply (addGate_stays P); [by apply basis_allowed|done]. Qed.

Lemma basis_tree s ls k : s ∈ [IN; OUT; ZERO; ONE; BUF] ++ gates → getCellTypeID s = GateID s → stays P (addCellTree s ls k).
Proof. intros Hs E. apply (addCellTree_stays P); [intros k'; by apply basis_allowed|done]. Qed.

Lemma plain_stays i (m : st SubnetBuilder Link) : stays P m → stays P (plain i m).
Proof. intros Hm. unfold plain. by stays_tac. Qed.

Lemma mapVal_stays x : stays P (mapVal x).
Proof. unfold mapVal. destruct x; apply basis_gate; set_solver. Qed.

Lemma mapBuf_stays ls : stays P (mapBuf ls).
Proof. unfold mapBuf. stays_tac. apply basis_gate; set_solver. Qed.

#[local] Hint Resolve plain_stays mapVal_stays mapBuf_stays : stays.

Context `{!WithinBasis P M}.

Lemma map_front_stays x m ls i : (∀ ls i, stays P (m ls i)) → stays P (map_front x m ls i).
Proof. intros Hm. unfold map_front. by stays_tac. Qed.

#[local] Hint Resolve map_front_stays : stays.

Lemma mapOut_stays ls : stays P (mapOut ls).
Proof. unfold mapOut, addOutput. stays_tac; apply basis_gate; set_solver. Qed.

Lemma mapCell_stays s ls i n0 n1 : stays P (mapCell M s ls i n0 n1).
Proof.
  assert (stays P mapIn) as Hin by (unfold mapIn, addInput; apply basis_gate; set_solver).
  pose proof (mapOut_stays ls) as Hout. pose proof within_and as Hand. pose proof within_or as Hor.
  pose proof within_xor as Hxor. pose proof within_maj as Hmaj.
  destruct s; cbn [mapCell]; try apply stays_fail; unfold mapAnd, mapOr, mapXor, mapMaj; cbv zeta; by stays_tac.
Qed.

Lemma map_loop_stays s : ∀ fuel i m, stays P (map_loop M fuel s i m).
Proof.
  induction fuel as [|fuel IH]; intros i m; cbn [map_loop]; unfold getNewLinks; stays_tac. apply mapCell_stays.
Qed.

Lemma only_empty : only P empty_builder.
Proof. by intros i c Hc. Qed.

Lemma map_subnet_only s b : map_subnet M s = Some b → only P b.
Proof.
  unfold map_subnet. destruct (map_loop M (Net.size s) s 0 ∅ empty_builder) as [[[] b']|] eqn:E; [|done].
  intros [= <-]. eapply map_loop_stays; [exact E|apply only_empty].
Qed.
End Base.

(** *** The four bases *)

Section Bases.
Context `{TypeStore}.

Ltac gate_tac := first [apply basis_gate | apply basis_tree]; first [done | set_solver].

Lemma aig_and_stays gates ls i : AND ∈ gates → stays (basis_cell gates) (aig_and ls i).
Proof. intros Hg. unfold aig_and. apply plain_stays. gate_tac. Qed.

Lemma aig_or_stays gates ls i : AND ∈ gates → stays (basis_cell gates) (aig_or ls i).
Proof. intros Hg. by apply aig_and_stays. Qed.

Lemma aig_xor_loop_stays gates : AND ∈ gates → ∀ fuel rest, stays (basis_cell gates) (aig_xor_loop fuel rest).
Proof.
  intros Hg. induction fuel as [|fuel IH]; intros [|x [|y rest]]; cbn [aig_xor_loop]; stays_tac; gate_tac.
Qed.

Lemma addMaj3_stays gates ls i : AND ∈ gates → stays (basis_cell gates) (addMaj3 ls i).
Proof. intros Hg. unfold addMaj3. stays_tac; first [by apply aig_or_stays | gate_tac]. Qed.

Lemma aig_maj_stays gates ls i : AND ∈ gates → stays (basis_cell gates) (aig_maj ls i).
Proof. intros Hg. unfold aig_maj, aig_maj5. stays_tac; by apply addMaj3_stays. Qed.

#[export] Instance aig_within : WithinBasis (basis_cell [AND]) CellAigMapper.
Proof.
  split; intros ls i; [apply aig_and_stays|apply aig_or_stays| |apply aig_maj_stays]; try set_solver.
  apply plain_stays, aig_xor_loop_stays. set_solver.
Defined.

#[export] Instance xag_within : WithinBasis (basis_cell [AND; XOR]) CellXagMapper.
Proof.
  split; intros ls i; [apply aig_and_stays|apply aig_or_stays| |apply aig_maj_stays]; try set_solver.
  apply plain_stays. gate_tac.
Defined.

Lemma addMaj_const_stays gates s ls : MAJ ∈ gates → s = ZERO ∨ s = ONE → stays (basis_cell gates) (addMaj_const s ls).
Proof. intros Hg [-> | ->]; unfold addMaj_const; stays_tac; gate_tac. Qed.

Lemma addMaj_stays gates s ls : MAJ ∈ gates → stays (basis_cell gates) (addMaj s ls).
Proof.
  intros Hg. pose proof (λ ls, addMaj_const_stays gates ZERO ls Hg (or_introl eq_refl)) as H0.
  pose proof (λ ls, addMaj_const_stays gates ONE ls Hg (or_intror eq_refl)) as H1.
  destruct s; cbn [addMaj]; try apply stays_fail; unfold addXor; stays_tac; gate_tac.
Qed.

Lemma addMajTree_stays gates s ls : MAJ ∈ gates → stays (basis_cell gates) (addMajTree s ls).
Proof.
  intros Hg. pose proof (λ s ls, addMaj_stays gates s ls Hg) as Hm. unfold addMajTree. destruct (_ <=? _); [done|].
  generalize (if bool_decide (s = XOR) then 3 else 2). intros k. generalize (length ls). intros fuel.
  revert ls. induction fuel as [|fuel IH]; intros [|x [|y ls]]; cbn [addMajTree_loop]; by stays_tac.
Qed.

Lemma mig_maj_stays gates ls i : MAJ ∈ gates → stays (basis_cell gates) (mig_maj ls i).
Proof.
  intros Hg. pose proof (λ s ls, addMaj_stays gates s ls Hg) as Hm. unfold mig_maj, mig_maj5.
  stays_tac; apply plain_stays; by stays_tac.
Qed.

#[export] Instance mig_within : WithinBasis (basis_cell [MAJ]) CellMigMapper.
Proof.
  split; intros ls i; [apply plain_stays, addMajTree_stays..|apply mig_maj_stays]; set_solver.
Defined.

#[export] Instance xmg_within : WithinBasis (basis_cell [MAJ; XOR]) CellXmgMapper.
Proof.
  split; intros ls i; [apply plain_stays, addMajTree_stays; set_solver..| |apply mig_maj_stays; set_solver].
  apply plain_stays. gate_tac.
Defined.
End Bases.
