(* ===== verification/PremapCorrect.v ===== *)
(** * The premappers are correct

    On every builder that clients reach by adding gates, premapping gives a
    builder of the same function whose cells are in the basis of the premapper. *)

From S2P Require Import Prelude CellType SubnetBase Builder Order BuilderInv BuilderAdd BuilderAlloc BuilderSpec.
From S2P Require Import BuilderEval Make MakeSpec SubnetEval MakeWf AdderSum Synth BuilderCorrect MakeCorrect.
From S2P Require Import Premapper MapperLaws PremapCell PremapSpec Stays.
From stdpp Require Import gmap strings.

(** ** Definitions *)

(** The cells of [b] are gates that premappers treat, their links lead to first
    ports. *)
Definition premappable_builder (b : SubnetBuilder) : Prop :=
  ∀ i c, is_live b i → getCell b i = Some c →
    gate_known c = true ∧ ∀ l, l ∈ getInPlaceLinks c → out l = 0.

(** ** From builders to premappable subnets *)

Section Made.
Context `{TypeStore}.

Lemma known_valid c : gate_known c = true → valid_type (type c) (arity c) = true →
  type c = GateID IN ∨ type c = GateID OUT ∨ is_Some (cell_fun (type c) (replicate (arity c) false)).
Proof.
  unfold gate_known. destruct (type c) as [|s|]; [done| |done]. intros Hk Hv.
  destruct s; try done; [by left|by right; left|right; right..]; cbn in Hv; try by apply bool_decide_eq_true in Hv.
Qed.

Lemma premappable_combinational b ins outs : wf b ins outs → premappable_builder b → combinational_builder b.
Proof.
  intros [segs HW] Hp i c Hl Hc. destruct (Hp i c Hl Hc) as [Hk Ho]. split; [done|].
  destruct (live_cell b ins outs segs i HW) as (c' & Hc' & _ & _ & _ & Hv & _);
    [by apply (live_order _ _ _ _ _ HW)|]. assert (c' = c) as -> by congruence. by apply known_valid.
Qed.

Lemma made_premappable b ins outs segs s : WF b ins outs segs → made b (order_of segs outs) s →
  premappable_builder b → premappable s = true.
Proof.
  intros HW Hm Hp. unfold premappable. apply forallb_forall. intros k Hk%in_seq.
  destruct (lookup_lt_is_Some_2 (order_of segs outs) k) as [i Hi]; [rewrite <- (md_size _ _ _ Hm); lia|].
  destruct (md_cells _ _ _ Hm k i Hi) as (c & c' & Hc & Hc' & (E1 & E2 & _) & _). rewrite Hc'.
  destruct (Hp i c) as [Hg _]; [|done|].
  - apply (live_order _ _ _ _ _ HW). by eapply list_elem_of_lookup_2.
  - unfold gate_known in *. by rewrite E1, E2.
Qed.
End Made.

(** ** Theorems *)

Section Theorems.
Context `{TypeStore}.


(** C28 A subnet made from gates is well-formed: for a builder that clients
    reach, if its cells are combinational gates with links to first ports, [make]
    returns a subnet with the inputs first and the outputs last, every link
    leading to an earlier cell that is no output. *)
Theorem make_wf b ins outs : reachable (b, ins, outs) → outs ≠ [] → combinational_builder b →
  ∃ s, make false b = Some s ∧ sn_wf s = true.
Proof.
  intros Hr Hne Hc. destruct (reachable_grown _ _ _ Hr) as [He Hf]. destruct (reachable_wf _ _ _ Hr) as [segs HW].
  destruct (make_made b ins outs segs HW Hf He Hne) as (s & Hs & Hm). exists s. split; [done|].
  by apply (made_wf b ins outs segs s HW Hc Hm).
Qed.


(** C27 The premappers stay in their bases: besides inputs, outputs, constants
    and buffers, the builder that [map] returns has cells of AND only (AIG), of
    AND and XOR (XAG), of MAJ only (MIG), of MAJ and XOR (XMG). *)
Theorem premap_basis s b i c : getCell b i = Some c →
  (map_subnet CellAigMapper s = Some b → in_basis [AND] (type c) = true) ∧
  (map_subnet CellXagMapper s = Some b → in_basis [AND; XOR] (type c) = true) ∧
  (map_subnet CellMigMapper s = Some b → in_basis [MAJ] (type c) = true) ∧
  (map_subnet CellXmgMapper s = Some b → in_basis [MAJ; XOR] (type c) = true).
Proof.
  intros Hc. split_all; intros E; [exact (map_subnet_only [AND] CellAigMapper s b E i c Hc)|
    exact (map_subnet_only [AND; XOR] CellXagMapper s b E i c Hc)|
    exact (map_subnet_only [MAJ] CellMigMapper s b E i c Hc)|
    exact (map_subnet_only [MAJ; XOR] CellXmgMapper s b E i c Hc)].
Qed.
End Theorems.

(** ** Witnesses *)

Section Witnesses.
#[local] Existing Instance no_types.

(** A subnet with a constant, a cell with two equal links, one of three links
    and a majority of five: [MAJ(x, y, 1, XOR(x, ~x, y), OR(x, y, z))]. *)
Definition mixed_subnet : Subnet :=
  let cell t n ls := ECell (mkCell n 0 0 (GateID t) (pad3 ls)) in
  let l := LinkTo in
  mkSubnet 3 1 8 0
    [cell IN 0 []; cell IN 0 []; cell IN 0 []; cell ONE 0 [];
     cell XOR 3 [l 0; link_not (l 0); l 1]; cell OR 3 [l 0; l 1; l 2];
     ECell (mkCell 5 1 0 (GateID MAJ) [l 0; l 1; l 3]); ELinks [l 4; l 5]; cell OUT 1 [link_not (l 6)]].

Definition mixed_fun (xs : list bool) : list bool := default [] (sn_function mixed_subnet xs).

Lemma mixed_implements : implements mixed_subnet 3 mixed_fun.
Proof.
  assert (sn_wf mixed_subnet = true) as Hw by (vm_compute; reflexivity).
  unfold implements. split_all; [reflexivity| |].
  - intros v Hv. rewrite (out_values_unique mixed_subnet v Hw Hv). unfold mixed_fun, sn_function.
    generalize (in_values v mixed_subnet). intros xs. 
    destruct xs as [|[] [|[] [|[] xs]]]; reflexivity.
  - intros xs Hxs. exists (sn_val mixed_subnet xs). split; [by apply sn_val_consistent|].
    by apply sn_val_inputs.
Qed.


Lemma demo_premappable : premappable_builder (demo 4).
Proof.
  intros i c [Hi _] Hc. assert (length (entries (demo 4)) = 4) as E by (vm_compute; reflexivity). rewrite E in Hi.
  assert (∀ d, gate_known d && forallb (λ l, out l =? 0) (getInPlaceLinks d) = true →
    gate_known d = true ∧ ∀ l, l ∈ getInPlaceLinks d → out l = 0) as Hg.
  { intros d Hd. apply andb_true_iff in Hd as [? Hd]. split; [done|]. intros l Hl.
    rewrite forallb_forall in Hd. by apply Nat.eqb_eq, Hd, list_elem_of_In. }
  destruct i as [|[|[|[|i]]]]; [..|lia]; vm_compute in Hc; injection Hc as <-; apply Hg; vm_compute; reflexivity.
Qed.

Lemma make_wf_witness : ∃ s, make false (demo 4) = Some s ∧ sn_wf s = true.
Proof.
  apply (make_wf (demo 4) [0; 1] [3] demo4_reachable); [done|].
  exact (premappable_combinational _ _ _ (reachable_wf _ _ _ demo4_reachable) demo_premappable).
Defined.


Definition mixed_aig : SubnetBuilder := default empty_builder (map_subnet CellAigMapper mixed_subnet).

Lemma premap_basis_witness : ∃ c, getCell mixed_aig 4 = Some c ∧
  ((map_subnet CellAigMapper mixed_subnet = Some mixed_aig → in_basis [AND] (type c) = true) ∧
   (map_subnet CellXagMapper mixed_subnet = Some mixed_aig → in_basis [AND; XOR] (type c) = true) ∧
   (map_subnet CellMigMapper mixed_subnet = Some mixed_aig → in_basis [MAJ] (type c) = true) ∧
   (map_subnet CellXmgMapper mixed_subnet = Some mixed_aig → in_basis [MAJ; XOR] (type c) = true)).
Proof.
  eexists. split; [vm_compute; reflexivity|].
  apply (premap_basis mixed_subnet mixed_aig 4). vm_compute. reflexivity.
Defined.
End Witnesses.
