(* ===== verification/Sat.v ===== *)
(** * The solver ([solver/solver.h])

    [Solver] wraps MiniSat: its state is the number of variables and the list of
    clauses in the order of their addition.  MiniSat itself (vendored under
    [lib/minisat]) is the parameter [SatSolver]: a function from a formula to a
    model, or [None] if there is none.

    [makeLit(var, sign)] passes [sign] to [mkLit], for which a set sign is a
    _negative_ literal, while the clients use a set sign for positive literals.
    The encoding is symmetric, so that the variables stand for the negated values
    of the cells throughout: [lit_val] is the value that a client means. *)

From S2P Require Import Prelude.

(** ** Literals ([lib/minisat], [SolverTypes.h]) *)

Abbreviation Var := nat.
Abbreviation Literal := nat.
Abbreviation Clause := (list Literal).

(* lib/minisat/minisat/core/SolverTypes.h:63-63 [mkLit] *)
Definition mkLit (var : Var) (sign : bool) : Literal := var + var + Nat.b2n sign.
(* lib/minisat/minisat/core/SolverTypes.h:64-64 [operator~] *)
Definition lit_not (p : Literal) : Literal := Nat.lxor p 1.
(* lib/minisat/minisat/core/SolverTypes.h:66-66 [sign] *)
Definition lit_sign (p : Literal) : bool := Nat.odd p.
(* lib/minisat/minisat/core/SolverTypes.h:67-67 [var] *)
Definition lit_var (p : Literal) : Var := Nat.div2 p.

(** ** The solver *)

(* gate/solver/solver.h:29-137 [Solver] *)
Record Solver := mkSolver {
  nVars : nat;
  formula : list Clause;
}.

(** What MiniSat returns: a model, or [None] if there is none. *)
Class SatSolver := minisat : Solver → option (Var → bool).

Definition empty_solver : Solver := mkSolver 0 [].

(* gate/solver/solver.h:25-27 [makeLit] *)
Definition makeLit (var : Var) (sign : bool) : Literal := mkLit var sign.

Module Solve.

(* gate/solver/solver.h:31-33 [Solver::newVar] *)
Definition newVar : st Solver Var := λ s, Some (nVars s, mkSolver (S (nVars s)) (formula s)).

(* gate/solver/solver.h:35-37 [Solver::newLit] *)
Definition newLit : st Solver Literal := v ← newVar; mret (makeLit v true).

(** The overloads for one to five literals build the same clause. *)
(* gate/solver/solver.h:39-72 [Solver::addClause] *)
Definition addClause (c : Clause) : st Solver unit :=
  st_modify (λ s, mkSolver (nVars s) (formula s ++ [c])).

(* gate/solver/solver.h:74-77 [Solver::encodeBuf] *)
Definition encodeBuf (rhs lhs : Literal) : st Solver unit :=
  addClause [lit_not rhs; lhs] ;;
  addClause [rhs; lit_not lhs].

(* gate/solver/solver.h:79-83 [Solver::encodeAnd] *)
Definition encodeAnd (rhs lhs1 lhs2 : Literal) : st Solver unit :=
  addClause [rhs; lit_not lhs1; lit_not lhs2] ;;
  addClause [lit_not rhs; lhs1] ;;
  addClause [lit_not rhs; lhs2].

(* gate/solver/solver.h:85-89 [Solver::encodeOr] *)
Definition encodeOr (rhs lhs1 lhs2 : Literal) : st Solver unit :=
  addClause [lit_not rhs; lhs1; lhs2] ;;
  addClause [rhs; lit_not lhs1] ;;
  addClause [rhs; lit_not lhs2].

(* gate/solver/solver.h:91-96 [Solver::encodeXor] *)
Definition encodeXor (rhs lhs1 lhs2 : Literal) : st Solver unit :=
  addClause [lit_not rhs; lit_not lhs1; lit_not lhs2] ;;
  addClause [lit_not rhs; lhs1; lhs2] ;;
  addClause [rhs; lit_not lhs1; lhs2] ;;
  addClause [rhs; lhs1; lit_not lhs2].

(* gate/solver/solver.h:98-113 [Solver::encodeMaj] *)
Definition encodeMaj (rhs lhs1 lhs2 lhs3 : Literal) : st Solver unit :=
  tmp1 ← newLit;
  tmp2 ← newLit;
  tmp3 ← newLit;
  encodeAnd tmp1 lhs1 lhs2 ;;
  encodeAnd tmp2 lhs1 lhs3 ;;
  encodeAnd tmp3 lhs2 lhs3 ;;
  addClause [lit_not rhs; tmp1; tmp2; tmp3] ;;
  addClause [rhs; lit_not tmp1] ;;
  addClause [rhs; lit_not tmp2] ;;
  addClause [rhs; lit_not tmp3].

(** [solve] and [value] together: the answer, and the model to read values from. *)
(* gate/solver/solver.h:115-128 [Solver::solve, Solver::value] *)
Definition solve `{SatSolver} (s : Solver) : option (Var → bool) := minisat s.

End Solve.
