(* ===== verification/SatSpec.v ===== *)
(** * What clauses say

    [satisfies] is the truth of a formula under an assignment.  [imposes g g' P]
    says that the solver has gone from [g] to [g'] by adding the condition [P]:
    the models of [g'] are models of [g] in which [P] holds, and a model of [g]
    with [P] extends to a model of [g'] by values for the new variables.  The
    lemmas give the conditions that the operations of the solver impose. *)

From stdpp Require Import gmap.
From S2P Require Import Prelude Sat.

(** ** Definitions *)

Abbreviation assignment := (Var → bool).

(** The truth of a literal in MiniSat's sense. *)
Definition lit_true (α : assignment) (p : Literal) : bool := xorb (α (lit_var p)) (lit_sign p).

Definition clause_true (α : assignment) (c : Clause) : bool := existsb (lit_true α) c.

Definition satisfies (α : assignment) (g : Solver) : Prop := ∀ c, c ∈ formula g → clause_true α c = true.

Definition agree (n : nat) (α β : assignment) : Prop := ∀ v, v < n → α v = β v.

Definition set_value (α : assignment) (v : Var) (b : bool) : assignment :=
  λ w, if w =? v then b else α w.

Definition lits_below (n : nat) (ps : list Literal) : Prop := Forall (λ p, lit_var p < n) ps.

Definition bounded (g : Solver) : Prop := Forall (lits_below (nVars g)) (formula g).

Definition more_vars (n : nat) (g : Solver) : Solver := mkSolver (n + nVars g) (formula g).
Definition add_clauses (cs : list Clause) (g : Solver) : Solver := mkSolver (nVars g) (formula g ++ cs).

Record imposes (g g' : Solver) (P : assignment → Prop) : Prop := {
  im_vars : nVars g ≤ nVars g';
  im_bounded : bounded g';
  im_sound : ∀ α, satisfies α g' → satisfies α g ∧ P α;
  im_complete : ∀ α, satisfies α g → P α → ∃ α', agree (nVars g) α α' ∧ satisfies α' g';
}.

(** The solver answers right: a model, or none if there is none. *)
Class SolverLaws `{SatSolver} := {
  solve_model : ∀ g α, Solve.solve g = Some α → satisfies α g;
  solve_none : ∀ g α, Solve.solve g = None → ¬ satisfies α g;
}.

(** ** Literals *)

Lemma mkLit_var v b : lit_var (mkLit v b) = v.
Proof.
  unfold lit_var, mkLit. replace (v + v) with (2 * v) by lia.
  destruct b; cbn [Nat.b2n]; [by rewrite Nat.add_1_r, Nat.div2_succ_double|].
  by rewrite Nat.add_0_r, Nat.div2_double.
Qed.

Lemma mkLit_sign v b : lit_sign (mkLit v b) = b.
Proof.
  unfold lit_sign, mkLit. rewrite !Nat.odd_add. destruct (Nat.odd v), b; done.
Qed.

Lemma lit_not_var p : lit_var (lit_not p) = lit_var p.
Proof.
  unfold lit_var, lit_not. rewrite !Nat.div2_spec. apply Nat.bits_inj. intros i.
  rewrite !Nat.shiftr_spec by lia. rewrite Nat.lxor_spec. replace (Nat.testbit 1 (i + 1)) with false.
  - by destruct (Nat.testbit p (i + 1)).
  - rewrite Nat.add_1_r. cbn. symmetry. apply Nat.bits_0.
Qed.

Lemma lit_not_sign p : lit_sign (lit_not p) = negb (lit_sign p).
Proof.
  unfold lit_sign, lit_not. rewrite <- !Nat.bit0_odd, Nat.lxor_spec. cbn. by destruct (Nat.odd p).
Qed.

Lemma lit_true_mk α v b : lit_true α (makeLit v b) = xorb (α v) b.
Proof. unfold lit_true, makeLit. by rewrite mkLit_var, mkLit_sign. Qed.

Lemma lit_true_not α p : lit_true α (lit_not p) = negb (lit_true α p).
Proof. unfold lit_true. rewrite lit_not_var, lit_not_sign. by destruct (α _), (lit_sign p). Qed.

Lemma lit_true_agree n α β p : agree n α β → lit_var p < n → lit_true α p = lit_true β p.
Proof. intros E Hp. unfold lit_true. by rewrite E. Qed.

Lemma lits_true_agree n α β ps : agree n α β → lits_below n ps → lit_true α <$> ps = lit_true β <$> ps.
Proof.
  intros E Hp. apply list_fmap_ext. intros i p Hi. eapply lit_true_agree; [done|].
  by eapply Forall_lookup_1 in Hp.
Qed.

Lemma agree_sym n α β : agree n α β → agree n β α.
Proof. intros E v Hv. symmetry. by apply E. Qed.

Lemma agree_trans n α β γ : agree n α β → agree n β γ → agree n α γ.
Proof. intros E F v Hv. rewrite E by done. by apply F. Qed.

Lemma agree_le n m α β : n ≤ m → agree m α β → agree n α β.
Proof. intros Hn E v Hv. apply E. lia. Qed.

Lemma agree_set n α v b : n ≤ v → agree n α (set_value α v b).
Proof. intros Hn w Hw. unfold set_value. by rewrite (proj2 (Nat.eqb_neq w v)) by lia. Qed.

Lemma set_value_same α v b : set_value α v b v = b.
Proof. unfold set_value. by rewrite Nat.eqb_refl. Qed.

Lemma clause_agree n α β c : agree n α β → lits_below n c → clause_true α c = clause_true β c.
Proof.
  intros E. unfold clause_true. induction 1 as [|p c Hp _ IH]; [done|]. cbn.
  by rewrite IH, (lit_true_agree n α β p).
Qed.

Lemma satisfies_agree g α β : bounded g → agree (nVars g) α β → satisfies α g → satisfies β g.
Proof.
  intros Hb E Hs c Hc. rewrite <- (Hs c Hc). symmetry. eapply clause_agree; [done|].
  unfold bounded in Hb. rewrite list.Forall_forall in Hb. by apply Hb.
Qed.

(** ** Conditions imposed *)

Lemma imposes_refl g : bounded g → imposes g g (λ _, True).
Proof. intros Hb. split; [done|done|done|]. intros α Hs _. by exists α. Qed.

Lemma imposes_iff g g' P Q : (∀ α, P α ↔ Q α) → imposes g g' P → imposes g g' Q.
Proof.
  intros E [H1 H2 H3 H4]. split; [done|done| |].
  - intros α Hs. destruct (H3 α Hs). split; [done|by apply E].
  - intros α Hs HQ. apply H4; [done|by apply E].
Qed.

Lemma imposes_trans g g' g'' P Q :
  (∀ α β, agree (nVars g) α β → Q α → Q β) →
  imposes g g' P → imposes g' g'' Q → imposes g g'' (λ α, P α ∧ Q α).
Proof.
  intros HQ [H1 H2 H3 H4] [K1 K2 K3 K4]. split; [lia|done| |].
  - intros α Hs. destruct (K3 α Hs) as [Hs' Hq]. by destruct (H3 α Hs').
  - intros α Hs [Hp Hq]. destruct (H4 α Hs Hp) as (β & E & Hs').
    destruct (K4 β Hs') as (γ & E' & Hs''); [by apply (HQ α)|].
    exists γ. split; [|done]. eapply agree_trans; [exact E|]. by eapply agree_le.
Qed.

Lemma bounded_vars n g : bounded g → bounded (more_vars n g).
Proof.
  unfold bounded. apply Forall_impl. intros c. cbn. apply Forall_impl. intros p. lia.
Qed.

(** A new variable takes the value that the condition on it asks for. *)
Lemma imposes_fresh g g' P Q :
  bounded g → imposes (more_vars 1 g) g' Q →
  (∀ α, Q α → P α) → (∀ α, P α → ∃ b, Q (set_value α (nVars g) b)) → imposes g g' P.
Proof.
  intros Hb [H1 H2 H3 H4] HQP HPQ. cbn in H1. split; [lia|done| |].
  - intros α Hs. destruct (H3 α Hs). auto.
  - intros α Hs Hp. destruct (HPQ α Hp) as [b Hq].
    assert (agree (nVars g) α (set_value α (nVars g) b)) as E by by apply agree_set.
    destruct (H4 _ (satisfies_agree _ _ _ Hb E Hs) Hq) as (β & E' & Hs'). exists β. split; [|done].
    eapply agree_trans; [exact E|]. eapply agree_le; [|exact E']. cbn. lia.
Qed.

Lemma imposes_clauses cs g : bounded g → Forall (lits_below (nVars g)) cs →
  imposes g (add_clauses cs g) (λ α, forallb (clause_true α) cs = true).
Proof.
  intros Hb Hc. split; [done| | |].
  - unfold bounded in *. cbn. by apply Forall_app.
  - intros α Hs. split; [intros c Hi; apply Hs; cbn; apply elem_of_app; by left|].
    apply forallb_forall. intros c Hi. apply Hs. cbn. apply elem_of_app. right. by apply list_elem_of_In.
  - intros α Hs Hp. exists α. split; [done|]. intros c Hi. cbn in Hi. apply elem_of_app in Hi as [Hi|Hi]; [by apply Hs|].
    rewrite forallb_forall in Hp. apply Hp. by apply list_elem_of_In.
Qed.

Lemma add_clauses_app cs ds g : add_clauses ds (add_clauses cs g) = add_clauses (cs ++ ds) g.
Proof. unfold add_clauses. cbn. by rewrite <- app_assoc. Qed.

(** *** The operations of the solver *)

(** The literals of the clauses are below the number of variables. *)
Ltac lits_tac :=
  unfold lits_below; repeat (apply list.Forall_cons; split); try apply list.Forall_nil; rewrite ?lit_not_var; auto with lia.

Ltac lits_split := unfold lits_below; repeat (apply list.Forall_cons; split); try (apply list.Forall_nil; exact I).

(** A condition on finitely many literals, by their truth values. *)
Ltac lit_cases :=
  intros α; unfold clause_true; cbn [forallb existsb]; rewrite ?lit_true_not;
  repeat match goal with |- context [lit_true α ?p] => destruct (lit_true α p) end; cbn; intuition congruence.

Lemma addClause_run c g : Solve.addClause c g = Some ((), add_clauses [c] g).
Proof. done. Qed.

Lemma addClause_imposes c g : bounded g → lits_below (nVars g) c →
  imposes g (add_clauses [c] g) (λ α, clause_true α c = true).
Proof.
  intros Hb Hc. eapply imposes_iff; [|apply imposes_clauses; [done|by constructor]].
  intros α. cbn. rewrite andb_true_r. done.
Qed.

Lemma encodeBuf_imposes y x g : bounded g → lits_below (nVars g) [y; x] →
  ∃ g', Solve.encodeBuf y x g = Some ((), g') ∧ imposes g g' (λ α, lit_true α y = lit_true α x).
Proof.
  intros Hb Hl. unfold lits_below in Hl; rewrite !list.Forall_cons in Hl; destruct Hl as (Hy & Hx & _). eexists. split; [reflexivity|].
  cbn [formula nVars]. rewrite <- app_assoc.
  eapply imposes_iff; [|apply (imposes_clauses [_; _]); [done|lits_tac]]. lit_cases.
Qed.

Lemma encodeAnd_imposes y a b g : bounded g → lits_below (nVars g) [y; a; b] →
  ∃ g', Solve.encodeAnd y a b g = Some ((), g') ∧
    imposes g g' (λ α, lit_true α y = lit_true α a && lit_true α b).
Proof.
  intros Hb Hl. unfold lits_below in Hl; rewrite !list.Forall_cons in Hl; destruct Hl as (Hy & Ha & Hbb & _). eexists. split; [reflexivity|].
  cbn [formula nVars]. rewrite <- !app_assoc.
  eapply imposes_iff; [|apply (imposes_clauses [_; _; _]); [done|lits_tac]]. lit_cases.
Qed.

Lemma encodeOr_imposes y a b g : bounded g → lits_below (nVars g) [y; a; b] →
  ∃ g', Solve.encodeOr y a b g = Some ((), g') ∧
    imposes g g' (λ α, lit_true α y = lit_true α a || lit_true α b).
Proof.
  intros Hb Hl. unfold lits_below in Hl; rewrite !list.Forall_cons in Hl; destruct Hl as (Hy & Ha & Hbb & _). eexists. split; [reflexivity|].
  cbn [formula nVars]. rewrite <- !app_assoc.
  eapply imposes_iff; [|apply (imposes_clauses [_; _; _]); [done|lits_tac]]. lit_cases.
Qed.

Lemma encodeXor_imposes y a b g : bounded g → lits_below (nVars g) [y; a; b] →
  ∃ g', Solve.encodeXor y a b g = Some ((), g') ∧ nVars g' = nVars g ∧
    imposes g g' (λ α, lit_true α y = xorb (lit_true α a) (lit_true α b)).
Proof.
  intros Hb Hl. unfold lits_below in Hl; rewrite !list.Forall_cons in Hl; destruct Hl as (Hy & Ha & Hbb & _). eexists. split; [reflexivity|].
  split; [done|]. cbn [formula nVars]. rewrite <- !app_assoc.
  eapply imposes_iff; [|apply (imposes_clauses [_; _; _; _]); [done|lits_tac]]. lit_cases.
Qed.

(** Conditions and values that depend on the variables below [n] only. *)
Definition local {X} (n : nat) (f : assignment → X) : Prop := ∀ α β, agree n α β → f α = f β.

Ltac local_tac :=
  let α := fresh "α" in let β := fresh "β" in let E := fresh "E" in
  intros α β E; repeat match goal with
  | |- context [lit_true α ?p] => rewrite (lit_true_agree _ α β p E) by (unfold makeLit; rewrite ?mkLit_var; cbn [nVars more_vars]; lia)
  end; done.

(** A new variable that is equal to a value of the others. *)
Lemma imposes_define g g' P f : bounded g → local (nVars g) P → local (nVars g) f →
  imposes (more_vars 1 g) g' (λ α, P α ∧ lit_true α (makeLit (nVars g) true) = f α) → imposes g g' P.
Proof.
  intros Hb HP Hf Hi. eapply imposes_fresh; [done|exact Hi|by intros α []|].
  intros α Hp. exists (negb (f α)).
  assert (agree (nVars g) α (set_value α (nVars g) (negb (f α)))) as E by by apply agree_set.
  rewrite <- (HP _ _ E), <- (Hf _ _ E), lit_true_mk, set_value_same. split; [done|]. by destruct (f α).
Qed.

(** The majority of three: every pair has a variable for its conjunction. *)
Definition maj3 (a b c : bool) : bool := (a && b) || (a && c) || (b && c).

Lemma encodeMaj_imposes y a b c g : bounded g → lits_below (nVars g) [y; a; b; c] →
  ∃ g', Solve.encodeMaj y a b c g = Some ((), g') ∧
    imposes g g' (λ α, lit_true α y = maj3 (lit_true α a) (lit_true α b) (lit_true α c)).
Proof.
  intros Hb Hl. unfold lits_below in Hl; rewrite !list.Forall_cons in Hl; destruct Hl as (Hy & Ha & Hbb & Hc & _). eexists. split; [reflexivity|].
  cbn [formula nVars]. rewrite <- !app_assoc. cbn [app].
  apply (imposes_define g _ _ (λ α, lit_true α a && lit_true α b)); [done|local_tac|local_tac|].
  apply (imposes_define _ _ _ (λ α, lit_true α a && lit_true α c)); [by apply bounded_vars|local_tac|local_tac|].
  apply (imposes_define _ _ _ (λ α, lit_true α b && lit_true α c)); [by do 2 apply bounded_vars|local_tac|local_tac|].
  set (g3 := more_vars 1 (more_vars 1 (more_vars 1 g))).
  eapply imposes_iff; [|apply (imposes_clauses [_; _; _; _; _; _; _; _; _; _; _; _; _] g3); [by do 3 apply bounded_vars|]].
  - subst g3. unfold maj3. cbn [more_vars nVars Nat.add]. lit_cases.
  - subst g3. cbn [nVars more_vars Nat.add]. unfold makeLit. lits_tac; rewrite ?mkLit_var; lia.
Qed.

(** ** A solver by enumeration

    The laws of a solver hold for the function that tries all the assignments of
    the variables of the formula, so that the theorems about the encoder, the
    checker and the verifier speak of something. *)


Fixpoint all_vectors (n : nat) : list (list bool) :=
  match n with
  | 0 => [[]]
  | S n => (cons false <$> all_vectors n) ++ (cons true <$> all_vectors n)
  end.

Definition var_bound (cs : list Clause) : nat :=
  foldr (λ c n, foldr (λ p n, max (S (lit_var p)) n) n c) 0 cs.

Definition vector_assignment (xs : list bool) : assignment := λ v, nth v xs false.

Definition brute_solver : SatSolver := λ g,
  vector_assignment <$>
    List.find (λ xs, forallb (clause_true (vector_assignment xs)) (formula g)) (all_vectors (var_bound (formula g))).

(** ** The laws *)

Lemma all_vectors_elem n : ∀ xs, length xs = n → xs ∈ all_vectors n.
Proof.
  induction n as [|n IH]; intros [|x xs] E; try done; cbn [all_vectors]; [set_solver|].
  apply elem_of_app. cbn in E. destruct x; [right|left]; apply list_elem_of_fmap; exists xs; (split; [done|apply IH; lia]).
Qed.

Lemma var_bound_clause c n : n ≤ foldr (λ p n, max (S (lit_var p)) n) n c ∧
  ∀ p, p ∈ c → lit_var p < foldr (λ p n, max (S (lit_var p)) n) n c.
Proof.
  induction c as [|q c [IH1 IH2]]; cbn [foldr]; [split; [done|set_solver]|]. split; [lia|].
  intros p Hp. apply elem_of_cons in Hp as [->|Hp]; [lia|]. specialize (IH2 p Hp). lia.
Qed.

Lemma var_bound_lits cs c p : c ∈ cs → p ∈ c → lit_var p < var_bound cs.
Proof.
  induction cs as [|d cs IH]; intros Hc Hp; [set_solver|]. unfold var_bound. cbn [foldr]. fold (var_bound cs).
  destruct (var_bound_clause d (var_bound cs)) as [B1 B2].
  apply elem_of_cons in Hc as [->|Hc]; [by apply B2|]. specialize (IH Hc Hp). lia.
Qed.

Lemma brute_laws : @SolverLaws brute_solver.
Proof.
  split; intros g α; unfold Solve.solve, minisat, brute_solver; intros E.
  - apply fmap_Some in E as (xs & E & ->). apply find_some in E as [_ E]. rewrite forallb_forall in E.
    intros c Hc. apply E. by apply list_elem_of_In.
  - apply fmap_None in E. intros Hs. set (n := var_bound (formula g)) in *. set (xs := α <$> seq 0 n).
    assert (length xs = n) as Hl by (unfold xs; by rewrite length_fmap, length_seq).
    pose proof (find_none _ _ E xs) as Hn. cbn beta in Hn.
    rewrite <- list_elem_of_In in Hn. specialize (Hn (all_vectors_elem n xs Hl)).
    assert (forallb (clause_true (vector_assignment xs)) (formula g) = true) as Ht; [|congruence].
    apply forallb_forall. intros c Hc. apply list_elem_of_In in Hc. rewrite <- (Hs c Hc).
    apply (clause_agree n); [|apply list.Forall_forall; intros p Hp; by eapply var_bound_lits].
    intros v Hv. unfold vector_assignment, xs. apply nth_lookup_Some. by rewrite list_lookup_fmap, lookup_seq_lt.
Qed.
