(* ===== verification/Cnf.v ===== *)
(** * The encoder of subnets ([model/utils/subnet_cnf_encoder.h])

    [SubnetEncoder] translates a subnet to clauses: every output of every cell
    gets a variable, and the clauses relate it to the variables of the links.
    [SubnetEncoderContext] holds the variables and the clauses of the properties
    to check. *)

From stdpp Require Import gmap.
From S2P Require Import Prelude CellType SubnetBase Sat.

(** ** The context of the encoder *)

(** [next] holds for an encoded cell the number of variables up to its last
    output; the fresh elements of [vars] are [-1u], here [None].  The reference
    to the solver is the field [solver]. *)
(* gate/model/utils/subnet_cnf_encoder.h:25-122 [Property, SubnetEncoderContext] *)
Record Context := mkContext {
  solver : Solver;
  backupSolver : Solver;
  next : list nat;
  vars : list (option Var);
  varToProp : gmap Var (list Clause);
}.

Definition set_solver_state (g : Solver) (c : Context) : Context :=
  mkContext g (backupSolver c) (next c) (vars c) (varToProp c).
Definition set_next (n : list nat) (c : Context) : Context :=
  mkContext (solver c) (backupSolver c) n (vars c) (varToProp c).
Definition set_vars (vs : list (option Var)) (c : Context) : Context :=
  mkContext (solver c) (backupSolver c) (next c) vs (varToProp c).

(** An operation on the solver that the context refers to. *)
Definition on_solver {A} (m : st Solver A) : st Context A := λ c,
  match m (solver c) with
  | Some (a, g) => Some (a, set_solver_state g c)
  | None => None
  end.

Module Ctx.

(* gate/model/utils/subnet_cnf_encoder.h:41-44 [SubnetEncoderContext::SubnetEncoderContext] *)
Definition make (s : Subnet) (g : Solver) : Context :=
  mkContext g empty_solver (replicate (Net.size s) 0) [] ∅.

(* gate/model/utils/subnet_cnf_encoder.h:46-49 [SubnetEncoderContext::createNewProp] *)
Definition createNewProp (p : Var) (f : list Clause) : st Context unit :=
  st_modify (λ c, mkContext (solver c) (backupSolver c) (next c) (vars c) (<[p := f]> (varToProp c))).

(* gate/model/utils/subnet_cnf_encoder.h:51-53 [SubnetEncoderContext::getProp] *)
Definition getProp (c : Context) (p : Var) : option (list Clause) := varToProp c !! p.

(* gate/model/utils/subnet_cnf_encoder.h:55-57 [SubnetEncoderContext::createBackup] *)
Definition createBackup : st Context unit :=
  st_modify (λ c, mkContext (solver c) (solver c) (next c) (vars c) (varToProp c)).

(* gate/model/utils/subnet_cnf_encoder.h:59-61 [SubnetEncoderContext::backup] *)
Definition backup : st Context unit := st_modify (λ c, set_solver_state (backupSolver c) c).

(* gate/model/utils/subnet_cnf_encoder.h:108-112 [SubnetEncoderContext::pos] *)
Definition pos (c : Context) (i o : nat) : option nat :=
  if bool_decide (i < length (next c)) then
    match i with
    | 0 => Some o
    | S j => n ← next c !! j; if n =? 0 then None else Some (n + o)
    end
  else None.

(* gate/model/utils/subnet_cnf_encoder.h:63-65 [SubnetEncoderContext::var] *)
Definition var (c : Context) (i o : nat) : option Var :=
  p ← pos c i o; v ← vars c !! p; v.

(* gate/model/utils/subnet_cnf_encoder.h:67-69 [SubnetEncoderContext::lit(size_t, uint16_t, bool)] *)
Definition lit (c : Context) (i o : nat) (sign : bool) : option Literal :=
  v ← var c i o; Some (makeLit v sign).

(* gate/model/utils/subnet_cnf_encoder.h:71-73 [SubnetEncoderContext::lit(Link, bool)] *)
Definition link_lit (c : Context) (l : Link) (sign : bool) : option Literal :=
  lit c (idx l) (out l) (xorb (inv l) sign).

(* gate/model/utils/subnet_cnf_encoder.h:75-77 [SubnetEncoderContext::newVar] *)
Definition newVar : st Context Var := on_solver Solve.newVar.

(* gate/model/utils/subnet_cnf_encoder.h:79-81 [SubnetEncoderContext::newLit] *)
Definition newLit : st Context Literal := v ← newVar; mret (makeLit v true).

(* gate/model/utils/subnet_cnf_encoder.h:87-89 [SubnetEncoderContext::setVars] *)
Definition grow (n : nat) (vs : list (option Var)) : list (option Var) :=
  vs ++ replicate (n - length vs) None.

(* gate/model/utils/subnet_cnf_encoder.h:83-94 [SubnetEncoderContext::setVars] *)
Definition setVars (i nOut : nat) : st Context unit :=
  n ← st_read (λ c, pos c i nOut);
  st_modify (λ c, set_vars (grow n (vars c)) (set_next (<[i := n]> (next c)) c)) ;;
  p0 ← st_read (λ c, pos c i 0);
  st_for (seq p0 (n - p0)) (λ p, v ← newVar; st_modify (λ c, set_vars (<[p := Some v]> (vars c)) c)).

(* gate/model/utils/subnet_cnf_encoder.h:96-98 [SubnetEncoderContext::setVar] *)
Definition setVar (i : nat) : st Context unit := setVars i 1.

(** The indices are in range: the vector is as long as the subnet. *)
(* gate/model/utils/subnet_cnf_encoder.h:100-105 [SubnetEncoderContext::skipNextVars] *)
Definition skipNextVars (i num : nat) : st Context unit :=
  if 0 <? num then
    n ← st_read (λ c, next c !! i);
    c ← st_get;
    st_assert (i + num <? length (next c)) ;;
    st_put (set_next (<[i := 0]> (<[i + num := n]> (next c))) c)
  else mret ().

End Ctx.

(** ** The encoder *)

(** The subnets stored at run time, by their identifiers. *)
Class SubnetStore := stored_subnet : Z → option Subnet.

Section Encoder.
Context `{TypeStore, SubnetStore}.

Definition lit_of (i o : nat) (sign : bool) : st Context Literal := st_read (λ c, Ctx.lit c i o sign).
Definition lit_link (l : Link) (sign : bool) : st Context Literal := st_read (λ c, Ctx.link_lit c l sign).
Definition the_link (s : Subnet) (i j : nat) : st Context Link := st_read (λ _, Net.getLink s i j).

(* gate/model/utils/subnet_cnf_encoder.h:236-243 [SubnetEncoder::encodeIn] *)
Definition encodeIn (s : Subnet) (c : Cell) (i : nat) : st Context unit :=
  st_assert (arity c =? 0) ;;
  Ctx.setVar i.

(* gate/model/utils/subnet_cnf_encoder.h:245-252 [SubnetEncoder::encodeZero] *)
Definition encodeZero (s : Subnet) (c : Cell) (i : nat) : st Context unit :=
  st_assert (arity c =? 0) ;;
  Ctx.setVar i ;;
  y ← lit_of i 0 false; on_solver (Solve.addClause [y]).

(* gate/model/utils/subnet_cnf_encoder.h:254-261 [SubnetEncoder::encodeOne] *)
Definition encodeOne (s : Subnet) (c : Cell) (i : nat) : st Context unit :=
  st_assert (arity c =? 0) ;;
  Ctx.setVar i ;;
  y ← lit_of i 0 true; on_solver (Solve.addClause [y]).

(* gate/model/utils/subnet_cnf_encoder.h:263-271 [SubnetEncoder::encodeBuf] *)
Definition encodeBuf (s : Subnet) (c : Cell) (i : nat) : st Context unit :=
  st_assert (arity c =? 1) ;;
  Ctx.setVar i ;;
  y ← lit_of i 0 true;
  l ← st_read (λ _, links c !! 0);
  x ← lit_link l true;
  on_solver (Solve.encodeBuf y x).

(* gate/model/utils/subnet_cnf_encoder.h:273-279 [SubnetEncoder::encodeOut] *)
Definition encodeOut (s : Subnet) (c : Cell) (i : nat) : st Context unit := encodeBuf s c i.

(** The loop of AND and OR: [sign] is the sign of the result in the long clause
    and of the links in the short ones. *)
(* gate/model/utils/subnet_cnf_encoder.h:299-303 [SubnetEncoder::encodeAnd] *)
Fixpoint encode_links (s : Subnet) (i : nat) (sign : bool) (js : list nat) (clause : Clause)
    : st Context Clause :=
  match js with
  | [] => mret clause
  | j :: js =>
    l ← the_link s i j;
    x ← lit_link l (negb sign);
    y ← lit_of i 0 (negb sign);
    x' ← lit_link l sign;
    on_solver (Solve.addClause [y; x']) ;;
    encode_links s i sign js (clause ++ [x])
  end.

(* gate/model/utils/subnet_cnf_encoder.h:281-306 [SubnetEncoder::encodeAnd] *)
Definition encodeAnd (s : Subnet) (c : Cell) (i : nat) : st Context unit :=
  if arity c =? 1 then encodeBuf s c i
  else
    st_assert (1 <? arity c) ;;
    Ctx.setVar i ;;
    y ← lit_of i 0 true;
    clause ← encode_links s i true (seq 0 (arity c)) [y];
    on_solver (Solve.addClause clause).

(* gate/model/utils/subnet_cnf_encoder.h:308-331 [SubnetEncoder::encodeOr] *)
Definition encodeOr (s : Subnet) (c : Cell) (i : nat) : st Context unit :=
  if arity c =? 1 then encodeBuf s c i
  else
    st_assert (1 <? arity c) ;;
    Ctx.setVar i ;;
    y ← lit_of i 0 false;
    clause ← encode_links s i false (seq 0 (arity c)) [y];
    on_solver (Solve.addClause clause).

(** The chain of XOR: [rhs] is the exclusive or of the links from [j] on. *)
(* gate/model/utils/subnet_cnf_encoder.h:349-358 [SubnetEncoder::encodeXor] *)
Fixpoint encode_chain (s : Subnet) (i k : nat) (rhs : Literal) (js : list nat) : st Context unit :=
  match js with
  | [] => mret ()
  | j :: js =>
    link1 ← the_link s i j;
    link2 ← the_link s i (j + 1);
    lhs1 ← lit_link link1 true;
    lhs2 ← (if j =? k - 2 then lit_link link2 true else Ctx.newLit);
    on_solver (Solve.encodeXor rhs lhs1 lhs2) ;;
    encode_chain s i k lhs2 js
  end.

(* gate/model/utils/subnet_cnf_encoder.h:333-359 [SubnetEncoder::encodeXor] *)
Definition encodeXor (s : Subnet) (c : Cell) (i : nat) : st Context unit :=
  if arity c =? 1 then encodeBuf s c i
  else
    st_assert (1 <? arity c) ;;
    Ctx.setVar i ;;
    rhs ← lit_of i 0 true;
    encode_chain s i (arity c) rhs (seq 0 (arity c - 1)).

(* gate/model/utils/subnet_cnf_encoder.h:361-379 [SubnetEncoder::encodeMaj] *)
Definition encodeMaj (s : Subnet) (c : Cell) (i : nat) : st Context unit :=
  if arity c =? 1 then encodeBuf s c i
  else
    st_assert (arity c =? 3) ;;
    Ctx.setVar i ;;
    l1 ← the_link s i 0; lhs1 ← lit_link l1 true;
    l2 ← the_link s i 1; lhs2 ← lit_link l2 true;
    l3 ← the_link s i 2; lhs3 ← lit_link l3 true;
    y ← lit_of i 0 true;
    on_solver (Solve.encodeMaj y lhs1 lhs2 lhs3).

(** A cell whose type is a subnet: [encode_inner] encodes the subnet in a new
    context with the same solver. *)
(* gate/model/utils/subnet_cnf_encoder.h:157-186 [SubnetEncoder::encode] *)
Definition encode_nested (encode_inner : Subnet → st Context unit) (s : Subnet) (c : Cell) (i : nat)
    : st Context unit :=
  ty ← st_read (λ _, getType (type c));
  inner ← st_read (λ _, id ← getSubnet ty; stored_subnet id);
  st_assert ((sn_nIn inner =? N.to_nat (nIn ty)) && (sn_nOut inner =? N.to_nat (nOut ty))) ;;
  g ← st_gets solver;
  ctx ← st_read (λ _, snd <$> encode_inner inner (Ctx.make inner g));
  st_modify (set_solver_state (solver ctx)) ;;
  Ctx.setVars i (N.to_nat (nOut ty)) ;;
  st_for (seq 0 (N.to_nat (nIn ty))) (λ j,
    l ← the_link s i j;
    y ← st_read (λ _, Ctx.lit ctx j 0 true);
    x ← lit_link l true;
    on_solver (Solve.encodeBuf y x)) ;;
  st_for (seq 0 (N.to_nat (nOut ty))) (λ j,
    y ← lit_of i j true;
    x ← st_read (λ _, Ctx.lit ctx (Net.size inner - sn_nOut inner + j) 0 true);
    on_solver (Solve.encodeBuf y x)).

(* gate/model/utils/subnet_cnf_encoder.h:145-186 [SubnetEncoder::encode] *)
Definition encode_cell (encode_inner : Subnet → st Context unit) (s : Subnet) (c : Cell) (i : nat)
    : st Context unit :=
  match type c with
  | NullTypeID => st_fail
  | GateID IN => encodeIn s c i
  | GateID OUT => encodeOut s c i
  | GateID ZERO => encodeZero s c i
  | GateID ONE => encodeOne s c i
  | GateID BUF => encodeBuf s c i
  | GateID AND => encodeAnd s c i
  | GateID OR => encodeOr s c i
  | GateID XOR => encodeXor s c i
  | GateID MAJ => encodeMaj s c i
  | _ => encode_nested encode_inner s c i
  end.

(** The loop over the entries from [i] on; [fuel] bounds the cells left. *)
(* gate/model/utils/subnet_cnf_encoder.h:143-190 [SubnetEncoder::encode] *)
Fixpoint encode_loop (encode_inner : Subnet → st Context unit) (fuel : nat) (s : Subnet) (i : nat)
    : st Context unit :=
  if Net.size s <=? i then mret ()
  else
    match fuel with
    | 0 => st_fail
    | S fuel =>
      c ← st_read (λ _, Net.getCell s i);
      encode_cell encode_inner s c i ;;
      Ctx.skipNextVars i (more c) ;;
      encode_loop encode_inner fuel s (S i + more c)
    end.

(** [depth] bounds the nesting of the subnets. *)
(* gate/model/utils/subnet_cnf_encoder.h:140-191 [SubnetEncoder::encode] *)
Fixpoint encode (depth : nat) (s : Subnet) : st Context unit :=
  encode_loop (match depth with 0 => λ _, st_fail | S d => encode d end) (Net.size s) s 0.

(** A new variable that is equal to the link having the value [rhs]; the clauses
    of the property are kept in the context. *)
(* gate/model/utils/subnet_cnf_encoder.h:193-210 [SubnetEncoder::encodeEqual(context, Link, bool)] *)
Definition encodeEqual_value (lhs : Link) (rhs : bool) : st Context Var :=
  p ← Ctx.newVar;
  lit1 ← lit_link lhs rhs;
  let lit2 := makeLit p true in
  Ctx.createNewProp p [[lit1; lit_not lit2]; [lit_not lit1; lit2]] ;;
  mret p.

(* gate/model/utils/subnet_cnf_encoder.h:212-232 [SubnetEncoder::encodeEqual(context, Link, Link)] *)
Definition encodeEqual_links (lhs rhs : Link) : st Context Var :=
  p ← Ctx.newVar;
  lit1 ← lit_link lhs true;
  lit2 ← lit_link rhs true;
  let lit3 := makeLit p true in
  Ctx.createNewProp p
    [[lit1; lit2; lit3]; [lit1; lit_not lit2; lit_not lit3];
     [lit_not lit1; lit2; lit_not lit3]; [lit_not lit1; lit_not lit2; lit3]] ;;
  mret p.

End Encoder.
