(* ===== verification/CnfSpec.v ===== *)
(** * The clauses of a cell

    Every operation of the encoder on a cell makes a variable for the cell and
    imposes that its value is the function of the values of the links. *)

From stdpp Require Import gmap.
From S2P Require Import Prelude CellType SubnetBase BuilderEval MakeSpec SubnetEval Sat SatSpec Cnf.

(** ** Definitions *)

(** The values of the cells under an assignment: the negations of the variables. *)
Definition c_val (c : Context) (α : assignment) : valuation :=
  λ k o, default false ((λ v, negb (α v)) <$> Ctx.var c k o).

Definition known (c : Context) (l : Link) : Prop :=
  ∃ v, Ctx.var c (idx l) (out l) = Some v ∧ v < nVars (solver c).

(** [m] changes the solver only, and imposes [P]. *)
Definition runs {A} (m : st Context A) (c : Context) (a : A) (P : assignment → Prop) : Prop :=
  ∃ g', m c = Some (a, set_solver_state g' c) ∧ imposes (solver c) g' P.

(** The context before cell [i]. *)
Record ready (s : Subnet) (i : nat) (c : Context) : Prop := {
  rd_next : length (next c) = Net.size s;
  rd_pos : i < Net.size s → Ctx.pos c i 0 = Some (length (vars c));
  rd_vars : Forall (λ o, ∃ v, o = Some v ∧ v < nVars (solver c)) (vars c);
  rd_bounded : bounded (solver c);
  rd_known : ∀ k d, k < i → Net.getCell s k = Some d → is_Some (Ctx.var c k 0);
}.

(** The context after [setVar i]. *)
Definition with_var (i : nat) (c : Context) : Context :=
  mkContext (more_vars 1 (solver c)) (backupSolver c) (<[i := S (length (vars c))]> (next c))
    (vars c ++ [Some (nVars (solver c))]) (varToProp c).

(** The gates that the encoder supports. *)
Definition cnf_cell (c : Cell) : bool :=
  match type c with
  | GateID IN | GateID ZERO | GateID ONE => arity c =? 0
  | GateID OUT | GateID BUF => arity c =? 1
  | GateID AND | GateID OR | GateID XOR => 0 <? arity c
  | GateID MAJ => (arity c =? 1) || (arity c =? 3)
  | _ => false
  end.

Definition cnf_subnet (s : Subnet) : bool :=
  forallb (λ e, match e with ECell c => cnf_cell c | _ => true end) (sn_entries s).

(** The value of a cell that is no input is that of its function. *)
Definition cell_holds (v : valuation) (k : nat) (d : Cell) (ls : LinkList) : Prop :=
  type d = GateID IN ∨ v k 0 = cell_value [] v k d ls.

(** ** Variables of cells *)

Lemma pos_out c i o : Ctx.pos c i o = (λ n, n + o) <$> Ctx.pos c i 0.
Proof.
  unfold Ctx.pos. case_bool_decide; [|done]. destruct i as [|j]; [done|].
  destruct (next c !! j) as [n|]; [|done]. cbn. destruct n; [done|]. cbn. f_equal. lia.
Qed.

Lemma pos_insert c c' i n k o : next c' = <[i := n]> (next c) → k ≤ i → Ctx.pos c' k o = Ctx.pos c k o.
Proof.
  intros E Hk. unfold Ctx.pos. rewrite E, length_insert. case_bool_decide; [|done].
  destruct k as [|j]; [done|]. by rewrite list_lookup_insert_ne by lia.
Qed.

Lemma setVar_ready s i c : ready s i c → i < Net.size s → Ctx.setVar i c = Some ((), with_var i c).
Proof.
  intros [Hn Hp _ _ _] Hi. specialize (Hp Hi). unfold Ctx.setVar, Ctx.setVars.
  erewrite bind_eval. 2: { unfold st_read. rewrite pos_out, Hp. reflexivity. }
  erewrite bind_eval by reflexivity.
  erewrite bind_eval. 2: { unfold st_read. erewrite (pos_insert c); [rewrite Hp; reflexivity|reflexivity|lia]. }
  cbn beta. replace (length (vars c) + 1 - length (vars c)) with 1 by lia. cbn [seq st_for].
  unfold Ctx.grow. replace (length (vars c) + 1 - length (vars c)) with 1 by lia. cbn [replicate].
  unfold mbind, st_bind, Ctx.newVar, on_solver, Solve.newVar, st_modify, mret, st_ret, set_vars, set_next, set_solver_state.
  cbn. unfold with_var. rewrite Nat.add_1_r, insert_app_r_alt, Nat.sub_diag by lia. done.
Qed.

Lemma with_var_new s i c : ready s i c → i < Net.size s → Ctx.var (with_var i c) i 0 = Some (nVars (solver c)).
Proof.
  intros Hr Hi. unfold Ctx.var. rewrite (pos_insert c (with_var i c) i (S (length (vars c)))) by (reflexivity || lia).
  rewrite (rd_pos _ _ _ Hr Hi). cbn. by rewrite lookup_app_r, Nat.sub_diag by lia.
Qed.

Lemma with_var_old s i c k o v : ready s i c → k < i → Ctx.var c k o = Some v → Ctx.var (with_var i c) k o = Some v.
Proof.
  intros Hr Hk. unfold Ctx.var. rewrite (pos_insert c (with_var i c) i (S (length (vars c)))) by (reflexivity || lia).
  destruct (Ctx.pos c k o) as [p|]; [|done]. cbn. intros E.
  destruct (vars c !! p) as [x|] eqn:Ep; [|done]. by erewrite lookup_app_l_Some.
Qed.

Lemma ready_var s i c k o v : ready s i c → Ctx.var c k o = Some v → v < nVars (solver c).
Proof.
  intros Hr E. unfold Ctx.var in E. destruct (Ctx.pos c k o) as [p|]; [|done]. cbn in E.
  destruct (vars c !! p) as [x|] eqn:Ep; [|done]. cbn in E. subst x.
  destruct (Forall_lookup_1 _ _ _ _ (rd_vars _ _ _ Hr) Ep) as (w & [= <-] & Hv). done.
Qed.

Lemma known_old s i c k d : ready s i c → k < i → Net.getCell s k = Some d →
  ∃ v, Ctx.var c k 0 = Some v ∧ Ctx.var (with_var i c) k 0 = Some v ∧ v < nVars (solver c).
Proof.
  intros Hr Hk Hd. destruct (rd_known _ _ _ Hr k d Hk Hd) as [v Hv]. exists v.
  split_all; [done|by eapply with_var_old|by eapply ready_var].
Qed.

(** ** Literals of links *)

Definition the_lit (c : Context) (l : Link) (sign : bool) : Literal := default 0 (Ctx.link_lit c l sign).

Lemma the_lit_some c l sign : known c l → Ctx.link_lit c l sign = Some (the_lit c l sign).
Proof. intros (v & Hv & _). unfold the_lit, Ctx.link_lit, Ctx.lit. by rewrite Hv. Qed.

Lemma the_lit_var c l sign : known c l → lit_var (the_lit c l sign) < nVars (solver c).
Proof.
  intros (v & Hv & Hlt). unfold the_lit, Ctx.link_lit, Ctx.lit. rewrite Hv. cbn.
  unfold makeLit. by rewrite mkLit_var.
Qed.

Lemma the_lit_true c l sign α : known c l → lit_true α (the_lit c l sign) = xorb (lval (c_val c α) l) (negb sign).
Proof.
  intros (v & Hv & _). unfold the_lit, Ctx.link_lit, Ctx.lit, lval, c_val. rewrite Hv. cbn.
  rewrite lit_true_mk. by destruct (α v), (inv l), sign.
Qed.

(** A cell's own literal is that of a link to it. *)
Lemma lit_of_link c i sign : Ctx.lit c i 0 sign = Ctx.link_lit c (LinkTo i) sign.
Proof. done. Qed.

Lemma lval_link v i : lval v (LinkTo i) = v i 0.
Proof. unfold lval. cbn. by destruct (v i 0). Qed.

Lemma known_solver c g l : nVars (solver c) ≤ nVars g → known c l → known (set_solver_state g c) l.
Proof. intros Hg (v & Hv & Hlt). exists v. split; [done|]. cbn. lia. Qed.

Lemma lval_local c l : known c l → local (nVars (solver c)) (λ α, lval (c_val c α) l).
Proof.
  intros (v & Hv & Hlt) α β E. unfold lval, c_val. rewrite Hv. cbn. by rewrite E.
Qed.

Lemma lvals_local c ls : Forall (known c) ls → local (nVars (solver c)) (λ α, lval (c_val c α) <$> ls).
Proof.
  intros Hk α β E. apply list_fmap_ext. intros i l Hl.
  apply (lval_local c l); [by eapply Forall_lookup_1 in Hk|done].
Qed.

(** ** Runs *)

Lemma solver_same c : set_solver_state (solver c) c = c.
Proof. by destruct c. Qed.

Lemma runs_ret {A} (a : A) c : bounded (solver c) → runs (mret a) c a (λ _, True).
Proof. intros Hb. exists (solver c). rewrite solver_same. split; [done|by apply imposes_refl]. Qed.

Lemma runs_iff {A} (m : st Context A) c a P Q : (∀ α, P α ↔ Q α) → runs m c a P → runs m c a Q.
Proof. intros E (g' & H1 & H2). exists g'. split; [done|]. by eapply imposes_iff. Qed.

(** A read of the context. *)
Lemma runs_read {A B} (f : Context → option A) (m : A → st Context B) c a b P :
  f c = Some a → runs (m a) c b P → runs (a ← st_read f; m a) c b P.
Proof.
  intros Hf (g' & H1 & H2). exists g'. split; [|done]. erewrite bind_eval; [exact H1|].
  unfold st_read. by rewrite Hf.
Qed.

Lemma runs_assert {A} (b : bool) (m : st Context A) c a P :
  b = true → runs m c a P → runs (st_assert b ;; m) c a P.
Proof. intros ->. done. Qed.

Lemma runs_bind {A B} (m : st Context A) (f : A → st Context B) c a b P Q :
  runs m c a P → local (nVars (solver c)) Q →
  (∀ g', bounded g' → nVars (solver c) ≤ nVars g' → runs (f a) (set_solver_state g' c) b Q) →
  runs (m ≫= f) c b (λ α, P α ∧ Q α).
Proof.
  intros (g' & H1 & H2) HQ Hf. destruct (Hf g') as (g'' & K1 & K2); [apply H2|apply H2|].
  exists g''. split; [by erewrite bind_eval|]. eapply imposes_trans; [|exact H2|exact K2].
  intros α β E. by rewrite (HQ α β E).
Qed.

Lemma runs_last {A} (m : st Context A) c a P : bounded (solver c) →
  runs m c a P → runs (m ≫= mret) c a P.
Proof. intros _ (g' & H1 & H2). exists g'. split; [by erewrite bind_eval|done]. Qed.

Lemma runs_solver (m : st Solver unit) c g' P : m (solver c) = Some ((), g') → imposes (solver c) g' P →
  runs (on_solver m) c () P.
Proof. intros E Hi. exists g'. split; [|done]. unfold on_solver. by rewrite E. Qed.

Lemma runs_lit {B} l sign (m : Literal → st Context B) c b P : known c l →
  runs (m (the_lit c l sign)) c b P → runs (p ← lit_link l sign; m p) c b P.
Proof.
  intros Hk. apply (runs_read (λ c, Ctx.link_lit c l sign)). by apply the_lit_some.
Qed.

Lemma runs_lit_of {B} i sign (m : Literal → st Context B) c b P : known c (LinkTo i) →
  runs (m (the_lit c (LinkTo i) sign)) c b P → runs (p ← lit_of i 0 sign; m p) c b P.
Proof. apply (runs_lit (LinkTo i)). Qed.

Lemma runs_link {B} s i j l (m : Link → st Context B) c b P : Net.getLink s i j = Some l →
  runs (m l) c b P → runs (p ← the_link s i j; m p) c b P.
Proof. intros Hl. by apply (runs_read (λ _, Net.getLink s i j)). Qed.

(** ** The gates *)

Lemma known_more g c ls : nVars (solver c) ≤ nVars g → Forall (known c) ls → Forall (known (set_solver_state g c)) ls.
Proof. intros Hg. apply Forall_impl. intros l. by apply known_solver. Qed.

Lemma runs_clause c cl : bounded (solver c) → lits_below (nVars (solver c)) cl →
  runs (on_solver (Solve.addClause cl)) c () (λ α, clause_true α cl = true).
Proof. intros Hb Hl. eapply runs_solver; [reflexivity|by apply addClause_imposes]. Qed.

(** The literals of the links in the long clause of AND and OR. *)
Definition the_lits (c : Context) (ls : LinkList) (sign : bool) : list Literal :=
  (λ l, the_lit c l sign) <$> ls.

Lemma the_lits_below c ls sign : Forall (known c) ls → lits_below (nVars (solver c)) (the_lits c ls sign).
Proof.
  unfold lits_below, the_lits. rewrite Forall_fmap. apply Forall_impl. intros l. apply the_lit_var.
Qed.

Lemma the_lits_true c ls sign α : Forall (known c) ls →
  existsb (lit_true α) (the_lits c ls sign) = existsb (λ x, xorb x (negb sign)) (lval (c_val c α) <$> ls).
Proof.
  induction 1 as [|l ls Hl _ IH]; [done|]. cbn. by rewrite the_lit_true, <- IH by done.
Qed.

(** The value of cell [i] and those of the links. *)
Abbreviation y_val c i α := (lval (c_val c α) (LinkTo i)).
Abbreviation x_vals c ls α := (lval (c_val c α) <$> ls).

(** Conditions on the values of known links are local. *)
Lemma local_vals {X} c i ls (F : bool → list bool → X) : known c (LinkTo i) → Forall (known c) ls →
  local (nVars (solver c)) (λ α, F (y_val c i α) (x_vals c ls α)).
Proof.
  intros Hi Hk α β E. pose proof (lval_local c _ Hi α β E) as E1.
  pose proof (lvals_local c _ Hk α β E) as E2. cbn beta in *. by rewrite E1, E2.
Qed.

Lemma encode_links_runs s i sign y : ∀ js ls c acc, bounded (solver c) → known c (LinkTo i) → Forall (known c) ls →
  mapM (Net.getLink s i) js = Some ls →
  runs (encode_links s i sign js (y :: acc)) c (y :: acc ++ the_lits c ls (negb sign))
    (λ α, forallb (λ x, xorb (y_val c i α) sign || xorb x (negb sign)) (x_vals c ls α) = true).
Proof.
  induction js as [|j js IH]; intros ls c acc Hb Hi Hk Hm; cbn [mapM] in Hm.
  { injection Hm as <-. cbn. rewrite app_nil_r. eapply runs_iff; [|by apply runs_ret]. done. }
  apply bind_Some in Hm as (l & Hl & Hm). apply bind_Some in Hm as (ls' & Hls & [= <-]).
  apply list.Forall_cons in Hk as [Hkl Hk]. cbn [encode_links].
  apply (runs_link _ _ _ l); [done|]. apply runs_lit; [done|]. apply runs_lit_of; [done|]. apply runs_lit; [done|].
  eapply runs_iff; [|eapply runs_bind; [apply runs_clause; [done|]| |]].
  2: { lits_split; by apply the_lit_var. }
  2: exact (local_vals c i ls' (λ y xs, forallb (λ x, xorb y sign || xorb x (negb sign)) xs = true) Hi Hk).
  - intros α. unfold clause_true. cbn [existsb forallb fmap list_fmap]. rewrite !the_lit_true, orb_false_r by done.
    rewrite negb_involutive, andb_true_iff. done.
  - intros g' Hb' Hg. cbn [app].
    replace (y :: acc ++ the_lits c (l :: ls') (negb sign))
      with (y :: (acc ++ [the_lit c l (negb sign)]) ++ the_lits (set_solver_state g' c) ls' (negb sign)).
    + apply (IH ls' (set_solver_state g' c)); [done|by apply known_solver|by apply known_more|done].
    + rewrite <- app_assoc. done.
Qed.

(** The condition on a cell: its value is that of the function [F]. *)
Definition computes (c : Context) (i : nat) (ls : LinkList) (F : list bool → bool) (α : assignment) : Prop :=
  y_val c i α = F (x_vals c ls α).

Lemma forallb_true (f : bool → bool) xs : (∀ x, f x = true) → forallb f xs = true.
Proof. intros Hf. apply forallb_forall. intros x _. apply Hf. Qed.

Lemma and_clauses y xs : forallb (λ x, xorb y true || xorb x false) xs = true ∧
  y || existsb (λ x, xorb x true) xs = true ↔ y = forallb id xs.
Proof.
  destruct y; induction xs as [|[] xs IH]; cbn [forallb existsb xorb orb andb negb id] in *;
    try exact IH; split; try done; try (by intros []); try (by intros [[=] _]).
  intros _. split; [by apply forallb_true|done].
Qed.

Lemma or_clauses y xs : forallb (λ x, xorb y false || xorb x true) xs = true ∧
  negb y || existsb (λ x, xorb x false) xs = true ↔ y = existsb id xs.
Proof.
  destruct y; induction xs as [|[] xs IH]; cbn [forallb existsb xorb orb andb negb id] in *;
    try exact IH; split; try done; try (by intros []); try (by intros [[=] _]).
  intros _. split; [by apply forallb_true|done].
Qed.

(** The long clause of AND and OR. *)
Lemma long_clause_runs s i c sign ls k : bounded (solver c) → known c (LinkTo i) → Forall (known c) ls →
  mapM (Net.getLink s i) (seq 0 k) = Some ls →
  runs (y ← lit_of i 0 sign; clause ← encode_links s i sign (seq 0 k) [y]; on_solver (Solve.addClause clause)) c ()
    (λ α, forallb (λ x, xorb (y_val c i α) sign || xorb x (negb sign)) (x_vals c ls α) = true ∧
      xorb (y_val c i α) (negb sign) || existsb (λ x, xorb x sign) (x_vals c ls α) = true).
Proof.
  intros Hb Hi Hk Hl. apply runs_lit_of; [done|]. eapply runs_bind.
  - by apply (encode_links_runs s i sign _ (seq 0 k) ls c []).
  - exact (local_vals c i ls (λ y xs, xorb y (negb sign) || existsb (λ x, xorb x sign) xs = true) Hi Hk).
  - intros g' Hb' Hg. cbn [app].
    eapply runs_iff; [|apply (runs_clause (set_solver_state g' c)); [done|]].
    + intros α. unfold clause_true. cbn [existsb].
      change (the_lits c ls (negb sign)) with (the_lits (set_solver_state g' c) ls (negb sign)).
      rewrite the_lits_true by by apply known_more.
      change (the_lit c (LinkTo i) sign) with (the_lit (set_solver_state g' c) (LinkTo i) sign).
      rewrite the_lit_true by by apply known_solver. by rewrite negb_involutive.
    + constructor; [eapply Nat.lt_le_trans; [by apply the_lit_var|done]|].
      eapply Forall_impl; [|by apply the_lits_below]. cbn. intros p Hp. lia.
Qed.

(** *** The chain of XOR *)

Lemma encode_chain_runs s i k : ∀ n j ls rhs c, bounded (solver c) → Forall (known c) ls →
  lit_var rhs < nVars (solver c) → k = j + n + 2 → mapM (Net.getLink s i) (seq j (S (S n))) = Some ls →
  runs (encode_chain s i k rhs (seq j (S n))) c () (λ α, lit_true α rhs = xor_list (x_vals c ls α)).
Proof.
  induction n as [|n IH]; intros j ls rhs c Hb Hk Hr Ek Hl.
  - cbn [seq mapM] in Hl. destruct (Net.getLink s i j) as [x|] eqn:Ex; [|done].
    destruct (Net.getLink s i (S j)) as [y|] eqn:Ey; [|done]. injection Hl as <-.
    rewrite !list.Forall_cons in Hk. destruct Hk as (Hx & Hy & _). cbn [seq encode_chain].
    apply (runs_link _ _ _ x); [done|]. rewrite Nat.add_1_r. apply (runs_link _ _ _ y); [done|].
    apply runs_lit; [done|]. rewrite (proj2 (Nat.eqb_eq j (k - 2))) by lia. apply runs_lit; [done|].
    destruct (encodeXor_imposes rhs (the_lit c x true) (the_lit c y true) (solver c) Hb) as (g' & E & _ & Hi).
    { lits_split; [done|by apply the_lit_var..]. }
    exists g'. split; [by unfold mbind, st_bind, on_solver; rewrite E|]. eapply imposes_iff; [|exact Hi].
    intros α. cbn beta. rewrite !the_lit_true by done. cbn. by rewrite !xorb_false_r.
  - cbn [seq mapM] in Hl. destruct (Net.getLink s i j) as [x|] eqn:Ex; [|done].
    apply bind_Some in Hl as (x' & [= <-] & Hl). apply bind_Some in Hl as (ls' & Hls & [= <-]).
    assert (is_Some (Net.getLink s i (S j))) as [y Ey].
    { apply bind_Some in Hls as (y & Hy & _). by exists y. }
    apply list.Forall_cons in Hk as [Hx Hk].
    change (seq j (S (S n))) with (j :: seq (S j) (S n)). cbn [encode_chain].
    apply (runs_link _ _ _ x); [done|]. rewrite Nat.add_1_r. apply (runs_link _ _ _ y); [done|].
    apply runs_lit; [done|]. rewrite (proj2 (Nat.eqb_neq j (k - 2))) by lia.
    set (t := makeLit (nVars (solver c)) true). set (g1 := more_vars 1 (solver c)).
    assert (bounded g1) as Hb1 by by apply bounded_vars. assert (nVars g1 = S (nVars (solver c))) as En by done.
    assert (lit_var t = nVars (solver c)) as Et by apply mkLit_var.
    destruct (encodeXor_imposes rhs (the_lit c x true) t g1 Hb1) as (g2 & E & _ & Hi).
    { pose proof (the_lit_var c x true Hx). unfold lits_below.
      rewrite !list.Forall_cons, En, Et. split_all; (lia || by apply list.Forall_nil). }
    pose proof (im_vars _ _ _ Hi) as Hv. rewrite En in Hv.
    assert (nVars (solver c) ≤ nVars g2) as Hg2 by lia.
    edestruct (IH (S j) ls' t (set_solver_state g2 c)) as (g3 & E3 & Hi3).
    { apply Hi. } { by apply known_more. }
    { rewrite Et. exact Hv. } { lia. } { done. }
    exists g3. split.
    { rewrite (bind_eval _ _ c t (set_solver_state g1 c)) by done.
      rewrite (bind_eval _ _ _ () (set_solver_state g2 c)); [exact E3|].
      unfold on_solver. cbn [solver set_solver_state]. by rewrite E. }
    eapply (imposes_define _ _ _ (λ α, xor_list (x_vals c ls' α))); [done| | |].
    { intros α β Eα. cbn beta. rewrite (lit_true_agree _ α β rhs Eα Hr).
      pose proof (lvals_local c _ (list.Forall_cons_2 _ _ _ Hx Hk) α β Eα) as E2. cbn beta in E2. by rewrite E2. }
    { intros α β Eα. pose proof (lvals_local c _ Hk α β Eα) as E2. cbn beta in E2. by rewrite E2. }
    eapply imposes_iff; [|eapply imposes_trans; [|exact Hi|exact Hi3]].
    + intros α. cbn beta. rewrite the_lit_true by done. cbn. rewrite xorb_false_r. fold t. split; intros [E1 E2]; (split; [|exact E2]); rewrite E1, E2; done.
    + intros α β Eα. cbn beta. rewrite (lit_true_agree _ α β t Eα) by (rewrite Et; apply Nat.lt_succ_diag_r).
      assert (x_vals (set_solver_state g2 c) ls' α = x_vals (set_solver_state g2 c) ls' β) as E2; [|by rewrite E2].
      exact (lvals_local c _ Hk α β (agree_le (nVars (solver c)) (nVars g1) α β ltac:(lia) Eα)).
Qed.

(** * The encoding of a subnet is right

    The clauses that [encode] adds for a well-formed subnet of supported gates
    are satisfied exactly by the assignments that give the cells the values of an
    evaluation of the subnet, and every input vector has such an assignment. *)

(** ** Cells *)

Section Cells.
Context (s : Subnet) (i : nat) (c : Context) (d : Cell) (ls : LinkList).
Context (Hr : ready s i c) (Hi : i < Net.size s) (Hd : Net.getCell s i = Some d) (Hf : cell_fine s i d ls).

Let c1 := with_var i c.

Lemma cell_links : mapM (Net.getLink s i) (seq 0 (arity d)) = Some ls.
Proof. pose proof (cf_links _ _ _ _ Hf) as E. unfold Net.getLinks in E. by rewrite Hd in E. Qed.

Lemma cell_arity : length ls = arity d.
Proof. pose proof cell_links as E. apply length_mapM in E. by rewrite length_seq in E. Qed.

Lemma cell_single : arity d = 1 → ∃ l, ls = [l].
Proof. intros Ha. pose proof cell_arity as Hl. rewrite Ha in Hl. destruct ls as [|l [|]]; try done. by exists l. Qed.

Lemma cell_link j : j < 3 → links d !! j = Net.getLink s i j.
Proof. intros Hj. unfold Net.getLink. rewrite Hd. cbn. by rewrite bool_decide_eq_true_2. Qed.

Lemma cell_link_nth j l : ls !! j = Some l → Net.getLink s i j = Some l.
Proof.
  intros Hl. pose proof (mapM_Some_1 _ _ _ cell_links) as HF.
  destruct (Forall2_lookup_r _ _ _ _ _ HF Hl) as (k & Hk & E). apply lookup_seq in Hk as [-> _]. done.
Qed.

Lemma known_self : known c1 (LinkTo i).
Proof. exists (nVars (solver c)). split; [by eapply with_var_new|]. cbn. lia. Qed.

Lemma known_links : Forall (known c1) ls.
Proof.
  apply list.Forall_forall. intros l Hl. destruct (cf_before _ _ _ _ Hf l Hl) as (Hlt & e & He & _).
  destruct (known_old s i c (idx l) e Hr Hlt He) as (v & _ & Hv & Hlv). exists v.
  rewrite (cf_out _ _ _ _ Hf l Hl). split; [done|]. cbn. lia.
Qed.

Lemma bounded_new : bounded (solver c1).
Proof. apply (bounded_vars 1), (rd_bounded _ _ _ Hr). Qed.

(** The operation [m] encodes the cell, whose value is then that of [F]. *)
Definition encodes (m : st Context unit) (P : assignment → Prop) : Prop :=
  ∃ g', m c = Some ((), set_solver_state g' c1) ∧ imposes (solver c1) g' P.

Lemma encodes_setVar m P : runs m c1 () P → encodes (Ctx.setVar i ;; m) P.
Proof.
  intros (g' & E & H). exists g'. split; [|done].
  by rewrite (bind_eval _ _ _ _ _ (setVar_ready s i c Hr Hi)).
Qed.

Lemma encodes_iff m P Q : (∀ α, P α ↔ Q α) → encodes m P → encodes m Q.
Proof. intros E (g' & H1 & H2). exists g'. split; [done|]. by eapply imposes_iff. Qed.

Lemma encodes_assert (b : bool) m P : b = true → encodes m P → encodes (st_assert b ;; m) P.
Proof. intros ->. done. Qed.

Lemma encode_buf_runs : arity d = 1 → encodes (encodeBuf s d i) (computes c1 i ls (λ xs, default false (head xs))).
Proof.
  intros Ha. destruct (cell_single Ha) as [l El].
  pose proof known_links as Hk. rewrite El in Hk. apply list.Forall_cons in Hk as [Hl _].
  apply encodes_assert; [by rewrite Ha|]. apply encodes_setVar. apply runs_lit_of; [apply known_self|].
  apply (runs_read (λ _, links d !! 0) _ c1 l).
  { rewrite cell_link by lia. apply cell_link_nth. by rewrite El. }
  apply runs_lit; [done|].
  destruct (encodeBuf_imposes (the_lit c1 (LinkTo i) true) (the_lit c1 l true) (solver c1) bounded_new) as (g' & E & H).
  { lits_split; apply the_lit_var; [apply known_self|done]. }
  eapply runs_iff; [|by eapply runs_solver]. intros α. cbn beta.
  rewrite !the_lit_true by (done || apply known_self). rewrite !xorb_false_r. unfold computes. by rewrite El.
Qed.

(** A gate with one link is a buffer. *)
Lemma encode_single F : arity d = 1 → (∀ x, F [x] = x) → encodes (encodeBuf s d i) (computes c1 i ls F).
Proof.
  intros Ha HF. eapply encodes_iff; [|by apply encode_buf_runs]. intros α. unfold computes.
  destruct (cell_single Ha) as [l ->]. cbn. by rewrite HF.
Qed.

Lemma encode_const_runs (v : bool) : arity d = 0 →
  encodes (st_assert (arity d =? 0) ;; Ctx.setVar i ;; (y ← lit_of i 0 v; on_solver (Solve.addClause [y])))
    (computes c1 i ls (λ _, v)).
Proof.
  intros Ha. apply encodes_assert; [by rewrite Ha|]. apply encodes_setVar. apply runs_lit_of; [apply known_self|].
  eapply runs_iff; [|apply runs_clause; [apply bounded_new|]].
  - intros α. unfold clause_true, computes. cbn [existsb]. rewrite the_lit_true by apply known_self.
    rewrite orb_false_r. destruct (lval _ _), v; done.
  - lits_split. apply the_lit_var, known_self.
Qed.

Lemma encode_in_runs : arity d = 0 → encodes (encodeIn s d i) (λ _, True).
Proof.
  intros Ha. apply encodes_assert; [by rewrite Ha|]. exists (solver c1). split.
  - rewrite (setVar_ready s i c Hr Hi). unfold c1. by rewrite solver_same.
  - apply imposes_refl, bounded_new.
Qed.

Lemma encode_and_runs : 0 < arity d → encodes (encodeAnd s d i) (computes c1 i ls (forallb id)).
Proof.
  intros Ha. unfold encodeAnd. destruct (Nat.eqb_spec (arity d) 1) as [E|E].
  - apply encode_single; [done|]. intros []; done.
  - apply encodes_assert; [apply Nat.ltb_lt; lia|]. apply encodes_setVar.
    eapply runs_iff; [|apply long_clause_runs; [apply bounded_new|apply known_self|apply known_links|apply cell_links]].
    intros α. cbn beta. cbn [negb]. rewrite xorb_false_r. apply (and_clauses (y_val c1 i α) (x_vals c1 ls α)).
Qed.

Lemma encode_or_runs : 0 < arity d → encodes (encodeOr s d i) (computes c1 i ls (existsb id)).
Proof.
  intros Ha. unfold encodeOr. destruct (Nat.eqb_spec (arity d) 1) as [E|E].
  - apply encode_single; [done|]. intros []; done.
  - apply encodes_assert; [apply Nat.ltb_lt; lia|]. apply encodes_setVar.
    eapply runs_iff; [|apply long_clause_runs; [apply bounded_new|apply known_self|apply known_links|apply cell_links]].
    intros α. cbn beta. cbn [negb]. rewrite xorb_true_r. apply (or_clauses (y_val c1 i α) (x_vals c1 ls α)).
Qed.

Lemma encode_xor_runs : 0 < arity d → encodes (encodeXor s d i) (computes c1 i ls xor_list).
Proof.
  intros Ha. unfold encodeXor. destruct (Nat.eqb_spec (arity d) 1) as [E|E].
  - apply encode_single; [done|]. intros []; done.
  - apply encodes_assert; [apply Nat.ltb_lt; lia|]. apply encodes_setVar. apply runs_lit_of; [apply known_self|].
    pose proof cell_links as Hl. destruct (arity d) as [|[|n]]; [lia|done|].
    eapply runs_iff; [|apply (encode_chain_runs s i _ n 0 ls); [apply bounded_new|apply known_links| |lia|exact Hl]].
    + intros α. cbn beta. rewrite the_lit_true by apply known_self. by rewrite xorb_false_r.
    + apply the_lit_var, known_self.
Qed.

Lemma encode_maj_runs : arity d = 1 ∨ arity d = 3 →
  encodes (encodeMaj s d i) (computes c1 i ls (λ xs, length xs / 2 <? count_true xs)).
Proof.
  intros [Ha|Ha]; unfold encodeMaj; rewrite Ha.
  { apply encode_single; [done|]. intros []; done. }
  change (encodes (Ctx.setVar i ;; (l1 ← the_link s i 0; lhs1 ← lit_link l1 true;
    l2 ← the_link s i 1; lhs2 ← lit_link l2 true; l3 ← the_link s i 2; lhs3 ← lit_link l3 true;
    y ← lit_of i 0 true; on_solver (Solve.encodeMaj y lhs1 lhs2 lhs3)))
    (computes c1 i ls (λ xs, length xs / 2 <? count_true xs))).
  apply encodes_setVar. pose proof cell_arity as Hlen. rewrite Ha in Hlen.
  assert (∃ x y z, ls = [x; y; z]) as (x & y & z & El).
  { destruct ls as [|x [|y [|z [|]]]]; try done. by exists x, y, z. }
  pose proof known_links as Hk. rewrite El, !list.Forall_cons in Hk. destruct Hk as (Hx & Hy & Hz & _).
  apply (runs_link _ _ _ x); [apply cell_link_nth; by rewrite El|]. apply runs_lit; [done|].
  apply (runs_link _ _ _ y); [apply cell_link_nth; by rewrite El|]. apply runs_lit; [done|].
  apply (runs_link _ _ _ z); [apply cell_link_nth; by rewrite El|]. apply runs_lit; [done|].
  apply runs_lit_of; [apply known_self|].
  edestruct (encodeMaj_imposes (the_lit c1 (LinkTo i) true) (the_lit c1 x true) (the_lit c1 y true)
    (the_lit c1 z true) (solver c1) bounded_new) as (g' & E & H).
  { lits_split; apply the_lit_var; (done || apply known_self). }
  eapply runs_iff; [|by eapply runs_solver]. intros α. cbn beta.
  rewrite !the_lit_true by (done || apply known_self). unfold computes. rewrite El. cbn. rewrite !xorb_false_r.
  destruct (lval (c_val c1 α) x), (lval (c_val c1 α) y), (lval (c_val c1 α) z); done.
Qed.

Context `{TypeStore, SubnetStore}.

Lemma encodes_cell F m : type d ≠ GateID IN → (∀ v, cell_value [] v i d ls = F (lval v <$> ls)) →
  encodes m (computes c1 i ls F) → encodes m (λ α, cell_holds (c_val c1 α) i d ls).
Proof.
  intros Hn HF. apply encodes_iff. intros α. unfold computes, cell_holds. rewrite HF, lval_link.
  split; [by right|by intros [?|?]].
Qed.

Lemma encode_cell_runs inner : cnf_cell d = true →
  encodes (encode_cell inner s d i) (λ α, cell_holds (c_val c1 α) i d ls).
Proof.
  intros Hc. pose proof cell_arity as Hlen. unfold cnf_cell, encode_cell in *.
  assert (∀ F m, type d ≠ GateID IN → (∀ v, cell_value [] v i d ls = F (lval v <$> ls)) →
    encodes m (computes c1 i ls F) → encodes m (λ α, cell_holds (c_val c1 α) i d ls)) as Hg by exact encodes_cell.
  destruct (type d) as [|sym|] eqn:Et; try done. destruct sym; try done.
  - apply Nat.eqb_eq in Hc. eapply encodes_iff; [|by apply encode_in_runs]. intros α. split; [by left|done].
  - apply Nat.eqb_eq in Hc. eapply Hg; [done| |by apply encode_buf_runs]. intros v.
    destruct (cell_single Hc) as [l ->]. unfold cell_value. by rewrite Et.
  - apply Nat.eqb_eq in Hc. eapply Hg; [done| |by apply (encode_const_runs false)]. intros v.
    rewrite Hc in Hlen. apply nil_length_inv in Hlen as ->. unfold cell_value. by rewrite Et.
  - apply Nat.eqb_eq in Hc. eapply Hg; [done| |by apply (encode_const_runs true)]. intros v.
    rewrite Hc in Hlen. apply nil_length_inv in Hlen as ->. unfold cell_value. by rewrite Et.
  - apply Nat.eqb_eq in Hc. eapply Hg; [done| |by apply encode_buf_runs]. intros v.
    destruct (cell_single Hc) as [l ->]. unfold cell_value. by rewrite Et.
  - apply Nat.ltb_lt in Hc. eapply Hg; [done| |by apply encode_and_runs]. intros v.
    unfold cell_value. rewrite Et. destruct ls; [cbn in Hlen; lia|done].
  - apply Nat.ltb_lt in Hc. eapply Hg; [done| |by apply encode_or_runs]. intros v.
    unfold cell_value. rewrite Et. destruct ls; [cbn in Hlen; lia|done].
  - apply Nat.ltb_lt in Hc. eapply Hg; [done| |by apply encode_xor_runs]. intros v.
    unfold cell_value. rewrite Et. destruct ls; [cbn in Hlen; lia|done].
  - rewrite orb_true_iff, !Nat.eqb_eq in Hc. eapply Hg; [done| |by apply encode_maj_runs]. intros v.
    unfold cell_value. rewrite Et. destruct ls; [cbn in Hlen; lia|done].
Qed.
End Cells.

(** ** The loop over the cells *)

Lemma skip_ready s i n c g c1 : ready s i c → c1 = set_solver_state g (with_var i c) → S i + n ≤ Net.size s →
  ∃ nx, Ctx.skipNextVars i n c1 = Some ((), set_next nx c1) ∧ length nx = Net.size s ∧
    (∀ k o, k ≤ i → Ctx.pos (set_next nx c1) k o = Ctx.pos c k o) ∧
    (S i + n < Net.size s → Ctx.pos (set_next nx c1) (S i + n) 0 = Some (length (vars c1))).
Proof.
  intros Hr -> Hn. pose proof (rd_next _ _ _ Hr) as Hl. unfold Ctx.skipNextVars.
  assert (next (set_solver_state g (with_var i c)) !! i = Some (S (length (vars c)))) as Hi.
  { cbn. by rewrite list_lookup_insert_eq by lia. }
  destruct (Nat.ltb_spec 0 n) as [Hpos|Hz].
  - exists (<[i := 0]> (<[i + n := S (length (vars c))]> (next (set_solver_state g (with_var i c))))). split_all.
    + erewrite bind_eval. 2: { unfold st_read. rewrite Hi. reflexivity. }
      erewrite bind_eval by reflexivity. unfold st_assert. cbn [next set_solver_state with_var]. rewrite length_insert, Hl.
      rewrite (proj2 (Nat.ltb_lt (i + n) (Net.size s))) by lia. done.
    + cbn. by rewrite !length_insert.
    + intros k o Hk. unfold Ctx.pos. cbn. rewrite !length_insert. case_bool_decide; [|done].
      destruct k as [|j]; [done|]. by rewrite !list_lookup_insert_ne by lia.
    + intros Hlt. unfold Ctx.pos. cbn. rewrite !length_insert, bool_decide_eq_true_2 by lia.
      rewrite list_lookup_insert_ne, list_lookup_insert_eq by (rewrite ?length_insert; lia). cbn.
      rewrite length_app. cbn. f_equal. lia.
  - exists (next (set_solver_state g (with_var i c))). replace n with 0 in * by lia. split_all.
    + reflexivity.
    + cbn. by rewrite length_insert.
    + intros k o Hk. unfold Ctx.pos. cbn. rewrite !length_insert. case_bool_decide; [|done].
      destruct k as [|j]; [done|]. by rewrite !list_lookup_insert_ne by lia.
    + intros Hlt. rewrite Nat.add_0_r in *. unfold Ctx.pos. cbn [next set_next].
      replace (length (next (set_solver_state g (with_var i c)))) with (Net.size s) by (cbn; by rewrite length_insert).
      rewrite bool_decide_eq_true_2 by lia. rewrite Hi. cbn. rewrite length_app. cbn. f_equal. lia.
Qed.

(** The loop from cell [i] on has gone from [c] to [c']. *)
Record encoded (s : Subnet) (i : nat) (c c' : Context) : Prop := {
  en_vars : nVars (solver c) ≤ nVars (solver c');
  en_bounded : bounded (solver c');
  en_old : ∀ k v, k < i → Ctx.var c k 0 = Some v → Ctx.var c' k 0 = Some v;
  en_known : ∀ k d, Net.getCell s k = Some d → ∃ v, Ctx.var c' k 0 = Some v ∧ v < nVars (solver c');
  en_sound : ∀ α, satisfies α (solver c') → satisfies α (solver c) ∧
    ∀ k d ls, i ≤ k → Net.getCell s k = Some d → Net.getLinks s k = Some ls → cell_holds (c_val c' α) k d ls;
  en_complete : ∀ α xs, satisfies α (solver c) → length xs = sn_nIn s →
    (∀ k d, k < i → Net.getCell s k = Some d → c_val c α k 0 = sn_val s xs k 0) →
    ∃ α', agree (nVars (solver c)) α α' ∧ satisfies α' (solver c') ∧
      ∀ k d, Net.getCell s k = Some d → c_val c' α' k 0 = sn_val s xs k 0;
}.

Lemma c_val_var c α k v : Ctx.var c k 0 = Some v → c_val c α k 0 = negb (α v).
Proof. intros E. unfold c_val. by rewrite E. Qed.

Lemma cell_value_inputs xs v k d ls : type d ≠ GateID IN → cell_value xs v k d ls = cell_value [] v k d ls.
Proof. unfold cell_value. by destruct (type d) as [|[]|]. Qed.

(** One cell: the context after it, with what the clauses say of it. *)
Lemma encode_one s i c d ls inner `{TypeStore, SubnetStore} :
  ready s i c → Net.getCell s i = Some d → cell_fine s i d ls → cnf_cell d = true →
  S i + more d ≤ Net.size s → (∀ j, i < j ≤ i + more d → Net.getCell s j = None) →
  ∃ c', (encode_cell inner s d i ;; Ctx.skipNextVars i (more d)) c = Some ((), c') ∧
    ready s (S i + more d) c' ∧ Ctx.var c' i 0 = Some (nVars (solver c)) ∧
    (∀ k v, k < i → Ctx.var c k 0 = Some v → Ctx.var c' k 0 = Some v) ∧
    imposes (more_vars 1 (solver c)) (solver c') (λ α, cell_holds (c_val c' α) i d ls).
Proof.
  intros Hr Hd Hf Hc Hs Hgap. pose proof (getCell_size _ _ _ Hd) as Hi.
  destruct (encode_cell_runs s i c d ls Hr Hi Hd Hf inner Hc) as (g' & E & Him).
  set (c1 := with_var i c) in *.
  destruct (skip_ready s i (more d) c g' (set_solver_state g' c1) Hr eq_refl Hs) as (nx & Es & Hl & Hp & Hp').
  set (c' := set_next nx (set_solver_state g' c1)) in *.
  assert (∀ k v, k < i → Ctx.var c k 0 = Some v → Ctx.var c' k 0 = Some v) as Hold.
  { intros k v Hk Hv. unfold Ctx.var. replace (Ctx.pos c' k 0) with (Ctx.pos c k 0) by (symmetry; apply Hp; lia).
    unfold Ctx.var in Hv. destruct (Ctx.pos c k 0) as [p|]; [|done]. cbn in *.
    destruct (vars c !! p) as [x|] eqn:Ep; [|done]. by erewrite lookup_app_l_Some. }
  assert (Ctx.var c' i 0 = Some (nVars (solver c))) as Hnew.
  { unfold Ctx.var. replace (Ctx.pos c' i 0) with (Ctx.pos c i 0) by (symmetry; apply Hp; lia).
    rewrite (rd_pos _ _ _ Hr Hi). cbn. by rewrite lookup_app_r, Nat.sub_diag by lia. }
  pose proof (im_vars _ _ _ Him) as Hv. change (nVars (more_vars 1 (solver c)) ≤ nVars g') in Hv. cbn in Hv.
  exists c'. split_all; [by rewrite (bind_eval _ _ _ _ _ E)| |done|done|].
  - split.
    + done.
    + intros Hlt. exact (Hp' Hlt).
    + cbn. apply Forall_app. split; [|repeat constructor; exists (nVars (solver c)); split; [done|lia]].
      eapply Forall_impl; [|exact (rd_vars _ _ _ Hr)]. intros o (w & -> & Hw). exists w. split; [done|]. lia.
    + apply Him.
    + intros k e Hk He. destruct (decide (k < i)) as [Hlt|Hge].
      { destruct (rd_known _ _ _ Hr k e Hlt He) as [w Hw]. rewrite (Hold k w Hlt Hw). by eexists. }
      destruct (decide (k = i)) as [->|Hne]; [rewrite Hnew; by eexists|]. rewrite Hgap in He by lia. done.
  - change (solver c') with g'. eapply imposes_iff; [|exact Him]. intros α. unfold cell_holds.
    assert (∀ k e, k ≤ i → Net.getCell s k = Some e → c_val c' α k 0 = c_val c1 α k 0) as Heq.
    { intros k e Hk He. destruct (decide (k = i)) as [->|Hne].
      - rewrite (c_val_var _ _ _ _ Hnew). symmetry. apply c_val_var. by eapply with_var_new.
      - destruct (known_old s i c k e Hr ltac:(lia) He) as (w & Hw & Hw1 & _).
        rewrite (c_val_var _ _ _ _ (Hold k w ltac:(lia) Hw)). symmetry. by apply c_val_var. }
    rewrite (Heq i d) by done. rewrite (cell_value_ext _ (c_val c' α) (c_val c1 α)); [done|].
    intros l Hl'. destruct (cf_before _ _ _ _ Hf l Hl') as (Hlt & e & He & _).
    unfold lval. rewrite (cf_out _ _ _ _ Hf l Hl'). by rewrite (Heq (idx l) e) by (done || lia).
Qed.

Lemma encoded_refl s i c : ready s i c → Net.size s ≤ i → encoded s i c c.
Proof.
  intros Hr Hi. split; [done|by apply Hr|done| | |].
  - intros k d Hd. pose proof (getCell_size _ _ _ Hd). destruct (rd_known _ _ _ Hr k d ltac:(lia) Hd) as [v Hv].
    exists v. split; [done|]. by eapply ready_var.
  - intros α Hs. split; [done|]. intros k d ls Hk Hd. pose proof (getCell_size _ _ _ Hd). lia.
  - intros α xs Hs _ Hv. exists α. split_all; [done|done|]. intros k d Hd. apply (Hv k d); [|done].
    pose proof (getCell_size _ _ _ Hd). lia.
Qed.

(** One cell and the rest of the loop. *)
Lemma encoded_step s i c c' c'' d ls : sn_wf s = true → ready s i c → Net.getCell s i = Some d → cell_fine s i d ls →
  (∀ j, i < j ≤ i + more d → Net.getCell s j = None) →
  Ctx.var c' i 0 = Some (nVars (solver c)) → (∀ k v, k < i → Ctx.var c k 0 = Some v → Ctx.var c' k 0 = Some v) →
  imposes (more_vars 1 (solver c)) (solver c') (λ α, cell_holds (c_val c' α) i d ls) →
  encoded s (S i + more d) c' c'' → encoded s i c c''.
Proof.
  intros Hw Hr Hd Hf Hgap Hnew Hold Him He. pose proof (im_vars _ _ _ Him) as Hv. cbn in Hv.
  pose proof (getCell_size _ _ _ Hd) as Hi.
  assert (∀ k e, k ≤ i → Net.getCell s k = Some e → ∃ v, Ctx.var c' k 0 = Some v ∧ Ctx.var c'' k 0 = Some v ∧
    v < S (nVars (solver c)) ∧ (k < i → Ctx.var c k 0 = Some v ∧ v < nVars (solver c))) as Hvars.
  { intros k e Hk He'. destruct (decide (k = i)) as [->|Hne].
    - exists (nVars (solver c)). split_all; [done|apply (en_old _ _ _ _ He); [lia|done]|lia|lia].
    - destruct (rd_known _ _ _ Hr k e ltac:(lia) He') as [v Hkv]. pose proof (ready_var _ _ _ _ _ _ Hr Hkv).
      exists v. split_all; [by apply Hold; [lia|]|apply (en_old _ _ _ _ He); [lia|by apply Hold; [lia|]]|lia|done]. }
  assert (∀ α, cell_holds (c_val c' α) i d ls ↔ cell_holds (c_val c'' α) i d ls) as Hsame.
  { intros α. unfold cell_holds.
    assert (∀ k e, k ≤ i → Net.getCell s k = Some e → c_val c' α k 0 = c_val c'' α k 0) as Heq.
    { intros k e Hk He'. destruct (Hvars k e Hk He') as (v & H1 & H2 & _). by rewrite !(c_val_var _ _ _ v). }
    rewrite (Heq i d) by done. rewrite (cell_value_ext _ (c_val c' α) (c_val c'' α)); [done|].
    intros l Hl. destruct (cf_before _ _ _ _ Hf l Hl) as (Hlt & e & He' & _).
    unfold lval. rewrite (cf_out _ _ _ _ Hf l Hl). by rewrite (Heq (idx l) e) by (done || lia). }
  split.
  - pose proof (en_vars _ _ _ _ He). lia.
  - apply He.
  - intros k v Hk Hkv. apply (en_old _ _ _ _ He); [lia|by apply Hold].
  - apply He.
  - intros α Hs. destruct (en_sound _ _ _ _ He α Hs) as [Hs' Hrest]. destruct (im_sound _ _ _ Him α Hs') as [Hs1 Hc].
    split; [exact Hs1|]. intros k e es Hk He' Hes. destruct (decide (k = i)) as [->|Hne].
    { assert (e = d) as -> by congruence. rewrite (cf_links _ _ _ _ Hf) in Hes. injection Hes as <-. by apply Hsame. }
    destruct (decide (k ≤ i + more d)); [rewrite Hgap in He' by lia; done|]. by apply Hrest; [lia| |].
  - intros α xs Hs Hxs Hval. set (y := sn_val s xs i 0). set (α1 := set_value α (nVars (solver c)) (negb y)).
    assert (agree (nVars (solver c)) α α1) as E1 by by apply agree_set.
    assert (satisfies α1 (solver c)) as Hs1 by (eapply satisfies_agree; [apply Hr|exact E1|done]).
    assert (∀ k e, k ≤ i → Net.getCell s k = Some e → c_val c' α1 k 0 = sn_val s xs k 0) as Hv1.
    { intros k e Hk He'. destruct (Hvars k e Hk He') as (v & H1 & _ & _ & H4). rewrite (c_val_var _ _ _ _ H1).
      destruct (decide (k = i)) as [->|Hne].
      - assert (v = nVars (solver c)) as -> by congruence. unfold α1. rewrite set_value_same. apply negb_involutive.
      - destruct (H4 ltac:(lia)) as [H5 H6]. rewrite <- (Hval k e), (c_val_var _ _ _ _ H5) by (done || lia).
        by rewrite (E1 v). }
    destruct (im_complete _ _ _ Him α1 Hs1) as (α2 & E2 & Hs2).
    { unfold cell_holds. destruct (decide (type d = GateID IN)) as [?|Hn]; [by left|right].
      rewrite (Hv1 i d) by done. destruct (sn_val_cell s xs i d Hw Hd) as (ls' & Hf' & ->).
      assert (ls' = ls) as -> by (pose proof (cf_links _ _ _ _ Hf'); pose proof (cf_links _ _ _ _ Hf); congruence).
      rewrite (cell_value_inputs xs) by done. apply cell_value_ext. intros l Hl.
      destruct (cf_before _ _ _ _ Hf l Hl) as (Hlt & e & He' & _).
      unfold lval. rewrite (cf_out _ _ _ _ Hf l Hl). by rewrite (Hv1 (idx l) e) by (done || lia). }
    destruct (en_complete _ _ _ _ He α2 xs Hs2 Hxs) as (α3 & E3 & Hs3 & Hv3).
    { intros k e Hk He'. destruct (decide (k ≤ i)); [|rewrite Hgap in He' by lia; done].
      rewrite <- (Hv1 k e) by done. destruct (Hvars k e ltac:(done) He') as (v & H1 & _ & H3 & _).
      rewrite !(c_val_var _ _ _ _ H1). f_equal. symmetry. apply E2. exact H3. }
    exists α3. split_all; [|done|done]. eapply agree_trans; [exact E1|].
    eapply agree_trans; (eapply agree_le; [|eassumption]); cbn; lia.
Qed.

Lemma cnf_subnet_cell s i d : cnf_subnet s = true → Net.getCell s i = Some d → cnf_cell d = true.
Proof.
  unfold cnf_subnet, Net.getCell. rewrite forallb_forall. intros Hc Hd.
  destruct (sn_entries s !! i) as [e|] eqn:Ee; [|done]. cbn in Hd. destruct e; try done. injection Hd as ->.
  apply list_elem_of_lookup_2, list_elem_of_In in Ee. by apply Hc in Ee.
Qed.

Lemma cell_check_end s known i d ls : sn_nIn s + sn_nOut s ≤ Net.size s → cell_check s known i d ls = true →
  i < Net.size s → S i + more d ≤ Net.size s.
Proof.
  intros Hs Hc Hi. pose proof (cell_check_type _ _ _ _ _ Hc) as Ht.
  destruct (type d) as [|[]|]; cbn in Ht; destruct Ht as (Ht1 & Ht2); try lia; destruct Ht2; lia.
Qed.

Lemma encode_loop_spec inner s `{TypeStore, SubnetStore} : sn_wf s = true → cnf_subnet s = true →
  ∀ fuel known i c, sn_check fuel s known i = true → ready s i c →
  ∃ c', encode_loop inner fuel s i c = Some ((), c') ∧ encoded s i c c'.
Proof.
  intros Hw Hc. pose proof Hw as Hw'. unfold sn_wf in Hw'. apply andb_true_iff in Hw' as [Hs _]. apply Nat.leb_le in Hs.
  induction fuel as [|fuel IH]; intros known i c Hk Hr; cbn [sn_check encode_loop] in *;
    (destruct (Nat.leb_spec (Net.size s) i) as [Hle|Hlt]; [exists c; split; [done|by apply encoded_refl]|]); [done|].
  destruct (Net.getCell s i) as [d|] eqn:Hd; [|done]. destruct (Net.getLinks s i) as [ls|] eqn:Hls; [|done].
  apply andb_true_iff in Hk as [Hk Hrest]. destruct (wf_cell s i d Hw Hd) as [ls' Hf].
  pose proof (cell_check_end _ _ _ _ _ Hs Hk Hlt) as Hend.
  assert (∀ j, i < j ≤ i + more d → Net.getCell s j = None) as Hgap by (intros j Hj; by eapply cell_check_skip).
  destruct (encode_one s i c d ls' inner Hr Hd Hf (cnf_subnet_cell _ _ _ Hc Hd) Hend Hgap)
    as (c1 & E & Hr1 & Hnew & Hold & Him).
  destruct (IH _ (S i + more d) c1 Hrest Hr1) as (c' & E' & He). exists c'. split; [|by eapply encoded_step].
  rewrite (bind_eval _ _ c d c) by done.
  apply bind_Some_iff in E as ([] & c0 & E1 & E2). rewrite (bind_eval _ _ _ _ _ E1).
  by rewrite (bind_eval _ _ _ _ _ E2).
Qed.

Lemma ready_make s g : bounded g → ready s 0 (Ctx.make s g).
Proof.
  intros Hb. split; [by cbn; rewrite length_replicate| |by constructor|done|lia].
  intros Hs. unfold Ctx.pos. cbn. by rewrite length_replicate, bool_decide_eq_true_2.
Qed.

(** The context [c] encodes the subnet in addition to the solver [g]. *)
Record encodes_subnet (s : Subnet) (g : Solver) (c : Context) : Prop := {
  es_vars : nVars g ≤ nVars (solver c);
  es_bounded : bounded (solver c);
  es_known : ∀ k d, Net.getCell s k = Some d → known c (LinkTo k);
  es_sound : ∀ α, satisfies α (solver c) → satisfies α g ∧
    ∀ k d, Net.getCell s k = Some d → c_val c α k 0 = sn_val s (in_values (c_val c α) s) k 0;
  es_complete : ∀ α xs, satisfies α g → length xs = sn_nIn s →
    ∃ α', agree (nVars g) α α' ∧ satisfies α' (solver c) ∧
      ∀ k d, Net.getCell s k = Some d → c_val c α' k 0 = sn_val s xs k 0;
}.

Lemma cells_valued s v : sn_wf s = true →
  (∀ k d ls, Net.getCell s k = Some d → Net.getLinks s k = Some ls → cell_holds v k d ls) →
  ∀ k d, Net.getCell s k = Some d → v k 0 = sn_val s (in_values v s) k 0.
Proof.
  intros Hw Hv k. induction (lt_wf k) as [k _ IH]. intros d Hd.
  destruct (sn_val_cell s (in_values v s) k d Hw Hd) as (ls & Hf & E). rewrite E.
  destruct (Hv k d ls Hd (cf_links _ _ _ _ Hf)) as [Ht|Hval].
  - pose proof (cf_type _ _ _ _ Hf) as Hty. rewrite Ht in Hty. unfold cell_value. rewrite Ht.
    by rewrite in_values_lookup by apply Hty.
  - destruct (decide (type d = GateID IN)) as [Ht|Hn].
    { pose proof (cf_type _ _ _ _ Hf) as Hty. rewrite Ht in Hty. unfold cell_value. rewrite Ht.
      by rewrite in_values_lookup by apply Hty. }
    rewrite Hval, (cell_value_inputs (in_values v s)) by done. apply cell_value_ext. intros l Hl.
    destruct (cf_before _ _ _ _ Hf l Hl) as (Hlt & e & He & _). unfold lval. rewrite (cf_out _ _ _ _ Hf l Hl).
    f_equal. by apply (IH _ Hlt e).
Qed.

Lemma encode_spec `{TypeStore, SubnetStore} depth s g : sn_wf s = true → cnf_subnet s = true → bounded g →
  ∃ c, encode depth s (Ctx.make s g) = Some ((), c) ∧ encodes_subnet s g c.
Proof.
  intros Hw Hc Hb. pose proof Hw as Hw'. unfold sn_wf in Hw'. apply andb_true_iff in Hw' as [_ Hk].
  destruct (encode_loop_spec (match depth with 0 => λ _, st_fail | S d => encode d end) s Hw Hc _ _ 0 _ Hk (ready_make s g Hb))
    as (c & E & He). exists c. split; [by destruct depth|]. split.
  - apply He.
  - apply He.
  - intros k d Hd. destruct (en_known _ _ _ _ He k d Hd) as (v & H1 & H2). by exists v.
  - intros α Hs. destruct (en_sound _ _ _ _ He α Hs) as [Hg Hh]. split; [done|].
    intros k d. apply cells_valued; [done|]. intros j e es. apply Hh. lia.
  - intros α xs Hs Hxs. apply (en_complete _ _ _ _ He α xs Hs Hxs). lia.
Qed.
