(* ===== verification/Checker.v ===== *)
(** * The equivalence checker and the verifier
      ([debugger/base_checker.cpp, sat_checker.h, verifier.cpp])

    [makeMiter] builds a subnet whose output tells whether two subnets differ,
    [isSat] asks the solver about it.  [Verifier] checks that links are equal to
    values or to other links, always or eventually.  The maps of the code are
    [gmap]s: [operator[]] gives a link to entry 0 where nothing is stored, [find]
    fails. *)

From stdpp Require Import gmap.
From S2P Require Import Prelude CellType SubnetBase Builder Make Sat Cnf.

(** ** Results *)

(* gate/debugger/base_checker.h:41-46 [CheckerResult::CheckerStatus] *)
Inductive CheckerStatus := ERROR | UNKNOWN | EQUAL | NOTEQUAL.

(* gate/debugger/base_checker.h:33-95 [CheckerResult] *)
Record CheckerResult := mkResult {
  status : CheckerStatus;
  counterEx : list bool;
}.

(* gate/debugger/base_checker.h:55-55 [CheckerResult::CheckerResult(CheckerStatus)] *)
Definition result (s : CheckerStatus) : CheckerResult := mkResult s [].

(* gate/debugger/base_checker.h:77-80 [CheckerResult::equal] *)
Definition equal (r : CheckerResult) : bool := match status r with EQUAL => true | _ => false end.

(** ** The miter *)

Section Miter.
Context `{TypeStore}.

Abbreviation IdxToLink := (gmap nat Link).
Abbreviation CellToCell := (gmap nat nat).

(** [map[i]]. *)
Definition map_at (m : IdxToLink) (i : nat) : Link := default (LinkTo 0) (m !! i).

(** The parameter [idx] has 16 bits: [getLink] and the map see the cut index. *)
(* gate/debugger/base_checker.cpp:37-59 [buildCell] *)
Definition buildCell (getLink : nat → nat → option Link) (c : Cell) (i : nat) (m : IdxToLink)
    : st SubnetBuilder IdxToLink :=
  let i := to_u16 i in
  newLinks ← st_read (λ _, mapM (λ j, l ← getLink i j;
    Some (SubnetLink (idx (map_at m (idx l))) (out l) (inv l))) (seq 0 (arity c)));
  if cell_is OUT c then l ← st_read (λ _, head newLinks); mret (<[i := l]> m)
  else l ← addCell (type c) newLinks; mret (<[i := l]> m).

(** The loop over the entries from [i] on; [fuel] bounds the cells left. *)
(* gate/debugger/base_checker.cpp:61-69 [buildCells] *)
Fixpoint buildCells (fuel : nat) (s : Subnet) (i : nat) (m : IdxToLink) : st SubnetBuilder IdxToLink :=
  if Net.size s <=? i then mret m
  else
    match fuel with
    | 0 => st_fail
    | S fuel =>
      c ← st_read (λ _, Net.getCell s i);
      m ← buildCell (Net.getLink s) c i m;
      buildCells fuel s (S i + more c) m
    end.

(** The overload for builders iterates in the order of the builder. *)
(* gate/debugger/base_checker.cpp:71-81 [buildCells(SubnetBuilder)] *)
Fixpoint buildCells_order (fuel : nat) (src : SubnetBuilder) (e : EntryID) (m : IdxToLink)
    : st SubnetBuilder IdxToLink :=
  if decide (e = upperBoundID) then mret m
  else
    match fuel, e with
    | S fuel, Idx i =>
      c ← st_read (λ _, getCell src i);
      m ← (if cell_is IN c then mret m else buildCell (Builder.getLink src) c i m);
      e ← st_read (λ _, nextCell src (S (more c)) e);
      buildCells_order fuel src e m
    | _, _ => st_fail
    end.

(** The inputs are mapped in order, as are the last [nOut] places, [nOut] being
    cut to 16 bits. *)
(* gate/debugger/base_checker.cpp:83-108 [mapInputs, makeDefaultMapping] *)
Definition default_mapping (nIn nOut size1 size2 : nat) : CellToCell :=
  let nOut := to_u16 nOut in
  list_to_map ((λ i, (size1 + i - nOut, size2 + i - nOut)) <$> seq 0 nOut) ∪
  list_to_map ((λ i, (i, i)) <$> seq 0 nIn).

(* gate/debugger/base_checker.cpp:99-108 [makeDefaultMapping] *)
Definition makeDefaultMapping (s1 s2 : Subnet) : option CellToCell :=
  if bool_decide (sn_nIn s2 = sn_nIn s1 ∧ sn_nOut s2 = sn_nOut s1) then
    Some (default_mapping (sn_nIn s1) (sn_nOut s1) (Net.size s1) (Net.size s2))
  else None.

(* gate/debugger/base_checker.cpp:110-119 [makeDefaultMapping(SubnetBuilder)] *)
Definition makeDefaultMapping_builders (b1 b2 : SubnetBuilder) : option CellToCell :=
  if bool_decide (b_nIn b2 = b_nIn b1 ∧ b_nOut b2 = b_nOut b1) then
    Some (default_mapping (b_nIn b1) (b_nOut b1) (nCell b1) (nCell b2))
  else None.

(** The inputs of the miter are those of both sources. *)
(* gate/debugger/base_checker.cpp:134-138 [makeNoOutMiter] *)
Fixpoint miter_inputs (mapping : CellToCell) (js : list nat) (maps : IdxToLink * IdxToLink)
    : st SubnetBuilder (IdxToLink * IdxToLink) :=
  match js with
  | [] => mret maps
  | i :: js =>
    i2 ← st_read (λ _, mapping !! i);
    l ← addInput;
    miter_inputs mapping js (<[i := l]> maps.1, <[i2 := l]> maps.2)
  end.

(* gate/debugger/base_checker.cpp:121-143 [makeNoOutMiter] *)
Definition makeNoOutMiter (s1 s2 : Subnet) (mapping : CellToCell) : st SubnetBuilder (IdxToLink * IdxToLink) :=
  st_assert (bool_decide (sn_nIn s2 = sn_nIn s1 ∧ sn_nOut s2 = sn_nOut s1)) ;;
  '(map1, map2) ← miter_inputs mapping (seq 0 (sn_nIn s1)) (∅, ∅);
  map1 ← buildCells (Net.size s1) s1 (sn_nIn s1) map1;
  map2 ← buildCells (Net.size s2) s2 (sn_nIn s2) map2;
  mret (map1, map2).

(** Every entry is visited at most once. *)
(* gate/debugger/base_checker.cpp:121-143 [makeNoOutMiter] *)
Definition makeNoOutMiter_builders (b1 b2 : SubnetBuilder) (mapping : CellToCell)
    : st SubnetBuilder (IdxToLink * IdxToLink) :=
  st_assert (bool_decide (b_nIn b2 = b_nIn b1 ∧ b_nOut b2 = b_nOut b1)) ;;
  '(map1, map2) ← miter_inputs mapping (seq 0 (b_nIn b1)) (∅, ∅);
  map1 ← buildCells_order (S (length (entries b1))) b1 (getSubnetBegin b1) map1;
  map2 ← buildCells_order (S (length (entries b2))) b2 (getSubnetBegin b2) map2;
  mret (map1, map2).

(* gate/debugger/base_checker.cpp:145-151 [makeMiterOutputs] *)
Definition makeMiterOutputs (xors : LinkList) : st SubnetBuilder unit :=
  if length xors =? 1 then l ← st_read (λ _, head xors); addOutput l ;; mret ()
  else l ← addCellTree OR xors 2; addOutput l ;; mret ().

(** The number of outputs is returned in 16 bits. *)
(* gate/debugger/base_checker.cpp:160-165 [BaseChecker::makeMiter] *)
Definition miter_xors (size nOut : nat) (mapping : CellToCell) (maps : IdxToLink * IdxToLink)
    : st SubnetBuilder LinkList :=
  let nOut := to_u16 nOut in
  st_map (λ i,
    let idx1 := size + i - nOut in
    idx2 ← st_read (λ _, mapping !! idx1);
    addGate XOR [map_at maps.1 idx1; map_at maps.2 idx2]) (seq 0 nOut).

(* gate/debugger/base_checker.cpp:153-167 [BaseChecker::makeMiter] *)
Definition makeMiter (s1 s2 : Subnet) (mapping : CellToCell) : st SubnetBuilder unit :=
  maps ← makeNoOutMiter s1 s2 mapping;
  xors ← miter_xors (Net.size s1) (sn_nOut s1) mapping maps;
  makeMiterOutputs xors.

(* gate/debugger/base_checker.cpp:177-191 [BaseChecker::makeMiter(SubnetBuilder)] *)
Definition makeMiter_builders (b1 b2 : SubnetBuilder) (mapping : CellToCell) : st SubnetBuilder unit :=
  maps ← makeNoOutMiter_builders b1 b2 mapping;
  xors ← miter_xors (nCell b1) (b_nOut b1) mapping maps;
  makeMiterOutputs xors.
End Miter.

(** ** The checker with a solver *)

Section SatChecker.
Context `{TypeStore, SubnetStore, SatSolver}.

(** [depth] bounds the nesting of subnets in the types of the cells. *)
Context (depth : nat).

(* gate/debugger/sat_checker.h:25-44 [SatChecker::isSat] *)
Definition isSat (s : Subnet) : option CheckerResult :=
  if sn_nOut s =? 1 then
    '(_, c) ← encode depth s (Ctx.make s empty_solver);
    l ← Net.getOut s 0;
    y ← Ctx.link_lit c l true;
    '(_, g) ← Solve.addClause [y] (solver c);
    match Solve.solve g with
    | Some value =>
      counterExample ← mapM (λ i, v ← Ctx.var c i 0; Some (value v)) (seq 0 (sn_nIn s));
      Some (mkResult NOTEQUAL counterExample)
    | None => Some (result EQUAL)
    end
  else None.

(* gate/debugger/base_checker.cpp:201-207 [BaseChecker::areEquivalent(Subnet, Subnet, CellToCell)] *)
Definition areEquivalent_mapping (s1 s2 : Subnet) (mapping : gmap nat nat) : option CheckerResult :=
  '(_, b) ← makeMiter s1 s2 mapping empty_builder;
  s ← make false b;
  isSat s.

(* gate/debugger/base_checker.cpp:209-214 [BaseChecker::areEquivalent(Subnet, Subnet)] *)
Definition areEquivalent (s1 s2 : Subnet) : option CheckerResult :=
  mapping ← makeDefaultMapping s1 s2;
  areEquivalent_mapping s1 s2 mapping.

(** The loop over the subnets of a design; [subnets] are those of the two points. *)
(* gate/debugger/base_checker.cpp:216-230 [BaseChecker::areEquivalent(DesignBuilder, ...)] *)
Fixpoint areEquivalent_points (subnets : list (Subnet * Subnet)) : option CheckerResult :=
  match subnets with
  | [] => Some (result EQUAL)
  | (s1, s2) :: subnets =>
    r ← areEquivalent s1 s2;
    if equal r then areEquivalent_points subnets else Some r
  end.

(* gate/debugger/base_checker.cpp:238-244 [BaseChecker::areEquivalent(SubnetBuilder, ...)] *)
Definition areEquivalent_builders (b1 b2 : SubnetBuilder) (mapping : gmap nat nat) : option CheckerResult :=
  '(_, b) ← makeMiter_builders b1 b2 mapping empty_builder;
  s ← make false b;
  isSat s.
End SatChecker.

(** ** The verifier *)

Module Verifier.
Section Verifier.
Context `{TypeStore, SubnetStore, SatSolver}.

(* gate/debugger/verifier.cpp:13-18 [Verifier::Verifier] *)
Definition make (depth : nat) (s : Subnet) (g : Solver) : option Context :=
  snd <$> encode depth s (Ctx.make s g).

(* gate/debugger/verifier.cpp:20-22 [Verifier::makeEqualty(Link, bool)] *)
Definition makeEqualty_value (lhs : Link) (rhs : bool) : st Context Var := encodeEqual_value lhs rhs.

(* gate/debugger/verifier.cpp:24-26 [Verifier::makeEqualty(Link, Link)] *)
Definition makeEqualty_links (lhs rhs : Link) : st Context Var := encodeEqual_links lhs rhs.

(* gate/debugger/verifier.cpp:44-56 [Verifier::addProperty] *)
Definition addProperty (prop : Var) (inv : bool) : st Context unit :=
  formula ← st_read (λ c, Ctx.getProp c prop);
  st_for formula (λ clause, on_solver (Solve.addClause clause)) ;;
  on_solver (Solve.addClause [makeLit prop (negb inv)]).

(** [solver.solve()]. *)
Definition solve_now : st Context bool := st_gets (λ c, bool_decide (is_Some (Solve.solve (solver c)))).

(* gate/debugger/verifier.cpp:28-34 [Verifier::checkAlways] *)
Definition checkAlways (prop : Var) (invProp : bool) : st Context bool :=
  Ctx.createBackup ;;
  addProperty prop (negb invProp) ;;
  r ← solve_now;
  Ctx.backup ;;
  mret (negb r).

(* gate/debugger/verifier.cpp:36-42 [Verifier::checkEventually] *)
Definition checkEventually (prop : Var) (invProp : bool) : st Context bool :=
  Ctx.createBackup ;;
  addProperty prop invProp ;;
  r ← solve_now;
  Ctx.backup ;;
  mret r.

End Verifier.
End Verifier.
