(* ===== verification/VerifierSpec.v ===== *)
(** * The verifier ([debugger/verifier.cpp])

    The states that a client of the verifier reaches, as a step relation with
    the properties made so far, and the invariant of these states; before it, what the
    checker answers: [isSat] decides whether the output of a subnet can be true. *)

From stdpp Require Import gmap.
From S2P Require Import Prelude CellType SubnetBase BuilderEval MakeSpec SubnetEval.
From S2P Require Import Sat SatSpec Cnf CnfSpec Checker.

(** ** Outputs of a subnet *)

Lemma out_values_single s v l : sn_nOut s = 1 → Net.getOut s 0 = Some l → out_values v s = Some [lval v l].
Proof. intros Ho Hl. unfold out_values. rewrite Ho. cbn. by rewrite Hl. Qed.

Lemma in_values_length v s : length (in_values v s) = sn_nIn s.
Proof. unfold in_values. by rewrite length_fmap, length_seq. Qed.

Section Sat.
Context `{TypeStore, SubnetStore} `{SolverLaws}.
Context (depth : nat) (s : Subnet) (Hw : sn_wf s = true) (Hc : cnf_subnet s = true).

(** Links to cells of an encoded subnet. *)
Definition inner_link (l : Link) : Prop :=
  out l = 0 ∧ ∃ d, Net.getCell s (idx l) = Some d.

Lemma inner_known g c l : encodes_subnet s g c → inner_link l → known c l.
Proof. intros He (Ho & d & Hd). destruct (es_known _ _ _ He _ d Hd) as (v & Hv). exists v. by rewrite Ho. Qed.

Lemma inner_value g c l α : encodes_subnet s g c → inner_link l → satisfies α (solver c) →
  lval (c_val c α) l = lval (sn_val s (in_values (c_val c α) s)) l.
Proof.
  intros He (Ho & d & Hd) Hs. unfold lval. rewrite Ho. destruct (es_sound _ _ _ He α Hs) as [_ E]. by rewrite (E _ d Hd).
Qed.

Lemma inner_extend g c l α xs : encodes_subnet s g c → inner_link l → 
  (∀ k d, Net.getCell s k = Some d → c_val c α k 0 = sn_val s xs k 0) → lval (c_val c α) l = lval (sn_val s xs) l.
Proof. intros He (Ho & d & Hd) E. unfold lval. by rewrite Ho, (E _ d Hd). Qed.

(** The inputs in the model are the negations of the values of the inputs. *)
Lemma model_inputs g c (α : assignment) : encodes_subnet s g c →
  mapM (λ i, v ← Ctx.var c i 0; Some (α v)) (seq 0 (sn_nIn s)) = Some (negb <$> in_values (c_val c α) s).
Proof.
  intros He. unfold in_values, Net.getInIdx. apply mapM_Some_2. rewrite <- list_fmap_compose. apply Forall2_fmap_r.
  apply Forall_Forall2_diag. apply list.Forall_forall. intros i Hi. apply elem_of_seq in Hi.
  destruct (wf_input s i Hw) as (d & Hd & _); [lia|]. destruct (es_known _ _ _ He i d Hd) as (v & Hv & _).
  change (Ctx.var c i 0 = Some v) in Hv. rewrite Hv. cbn. unfold c_val. rewrite Hv. cbn. by rewrite negb_involutive.
Qed.

Lemma empty_bounded : bounded empty_solver.
Proof. constructor. Qed.

Lemma empty_satisfied α : satisfies α empty_solver.
Proof. intros c Hi. by apply elem_of_nil in Hi. Qed.

Lemma isSat_spec : sn_nOut s = 1 →
  ∃ r, isSat depth s = Some r ∧
    ((status r = EQUAL ∧ ∀ xs, length xs = sn_nIn s → sn_function s xs = Some [false]) ∨
     (status r = NOTEQUAL ∧ ∃ xs, length xs = sn_nIn s ∧ sn_function s xs = Some [true] ∧ counterEx r = negb <$> xs)).
Proof.
  intros Ho. destruct (encode_spec depth s empty_solver Hw Hc empty_bounded) as (c & E & He).
  destruct (wf_output s 0 Hw) as (d & l & _ & _ & _ & Hl & Hf); [lia|].
  assert (inner_link l) as Hil.
  { split; [apply (cf_out _ _ _ _ Hf l); set_solver|].
    destruct (cf_before _ _ _ _ Hf l) as (_ & e & Hd & _); [set_solver|]. by exists e. }
  pose proof (inner_known _ _ _ He Hil) as Hk.
  unfold isSat. rewrite Ho. cbn [Nat.eqb]. rewrite E. cbn [mbind option_bind]. rewrite Hl. cbn [mbind option_bind].
  rewrite (the_lit_some c l true Hk). cbn [mbind option_bind]. rewrite addClause_run. cbn [mbind option_bind].
  set (g := add_clauses [[the_lit c l true]] (solver c)).
  assert (∀ α, satisfies α g ↔ satisfies α (solver c) ∧ lval (c_val c α) l = true) as Hg.
  { intros α. pose proof (addClause_imposes [the_lit c l true] (solver c) (es_bounded _ _ _ He)) as Hi.
    assert (clause_true α [the_lit c l true] = lval (c_val c α) l) as Ec.
    { unfold clause_true. cbn [existsb]. rewrite the_lit_true, orb_false_r by done. apply xorb_false_r. }
    unfold g, satisfies. cbn [formula add_clauses]. split.
    - intros Hs. split; [intros cl Hcl; apply Hs; set_solver|]. rewrite <- Ec. apply Hs. set_solver.
    - intros [Hs Hv] cl Hcl. apply elem_of_app in Hcl as [Hcl|Hcl]; [by apply Hs|].
      apply list_elem_of_singleton in Hcl as ->. by rewrite Ec. }
  destruct (Solve.solve g) as [α|] eqn:Es.
  - apply solve_model, Hg in Es as [Hs Hv]. rewrite (model_inputs _ _ _ He). cbn [mbind option_bind].
    eexists. split; [reflexivity|]. right. split; [done|]. exists (in_values (c_val c α) s).
    split_all; [apply in_values_length| |done]. unfold sn_function. rewrite (out_values_single s _ l Ho Hl).
    by rewrite <- (inner_value _ _ _ _ He Hil Hs), Hv.
  - eexists. split; [reflexivity|]. left. split; [done|]. intros xs Hxs. unfold sn_function.
    rewrite (out_values_single s _ l Ho Hl). destruct (lval (sn_val s xs) l) eqn:Ev; [|done]. exfalso.
    destruct (es_complete _ _ _ He (λ _, false) xs (empty_satisfied _) Hxs) as (α & _ & Hs & Hval).
    apply (solve_none g α Es), Hg. split; [done|]. by rewrite (inner_extend _ _ _ _ _ He Hil Hval).
Qed.
End Sat.

(** ** Definitions *)

Section Steps.
Context `{TypeStore, SubnetStore, SatSolver}.

(** The states of a verifier of [s] with a new solver, and the properties with
    their meanings on the values of the cells. *)
Inductive verifier_state (depth : nat) (s : Subnet) : Context → list (Var * (valuation → bool)) → Prop :=
  | vs_make c : Verifier.make depth s empty_solver = Some c → verifier_state depth s c []
  | vs_value c ps lhs rhs p c' : verifier_state depth s c ps → inner_link s lhs →
      Verifier.makeEqualty_value lhs rhs c = Some (p, c') →
      verifier_state depth s c' ((p, λ v, eqb (lval v lhs) rhs) :: ps)
  | vs_links c ps lhs rhs p c' : verifier_state depth s c ps → inner_link s lhs → inner_link s rhs →
      Verifier.makeEqualty_links lhs rhs c = Some (p, c') →
      verifier_state depth s c' ((p, λ v, eqb (lval v lhs) (lval v rhs)) :: ps)
  | vs_always c ps p inv r c' : verifier_state depth s c ps →
      Verifier.checkAlways p inv c = Some (r, c') → verifier_state depth s c' ps
  | vs_eventually c ps p inv r c' : verifier_state depth s c ps →
      Verifier.checkEventually p inv c = Some (r, c') → verifier_state depth s c' ps.
End Steps.

(** The variable [p] stands for the property [F]. *)
Record stands_for (s : Subnet) (c : Context) (p : Var) (F : valuation → bool) : Prop := {
  sf_var : p < nVars (solver c);
  sf_formula : ∃ f, varToProp c !! p = Some f ∧ Forall (lits_below (nVars (solver c))) f ∧
    ∀ α, forallb (clause_true α) f = true ↔ negb (α p) = F (c_val c α);
  sf_unused : ∀ cl l, cl ∈ formula (solver c) → l ∈ cl → lit_var l ≠ p;
  sf_no_cell : ∀ k d, Net.getCell s k = Some d → Ctx.var c k 0 ≠ Some p;
  sf_cells : ∀ v w, (∀ k d, Net.getCell s k = Some d → v k 0 = w k 0) → F v = F w;
}.

Record verifying (s : Subnet) (c : Context) (ps : list (Var * (valuation → bool))) : Prop := {
  vf_enc : encodes_subnet s empty_solver c;
  vf_props : ∀ p F, (p, F) ∈ ps → stands_for s c p F;
}.

(** ** Properties are checked right *)

Lemma clause_unused α p b cl : (∀ l, l ∈ cl → lit_var l ≠ p) → clause_true (set_value α p b) cl = clause_true α cl.
Proof.
  unfold clause_true. induction cl as [|l cl IH]; intros Hl; [done|]. cbn. rewrite IH by (intros k Hk; apply Hl; set_solver).
  f_equal. unfold lit_true, set_value. rewrite (proj2 (Nat.eqb_neq (lit_var l) p)); [done|]. apply Hl. set_solver.
Qed.

Section Check.
Context `{TypeStore, SubnetStore} `{SolverLaws}.
Context (s : Subnet) (Hw : sn_wf s = true).

Definition with_property (f : list Clause) (p : Var) (i : bool) (g : Solver) : Solver :=
  add_clauses (f ++ [[makeLit p (negb i)]]) g.

Lemma st_for_clauses f : ∀ c, st_for f (λ cl, on_solver (Solve.addClause cl)) c =
  Some ((), set_solver_state (add_clauses f (solver c)) c).
Proof.
  induction f as [|cl f IH]; intros c; cbn [st_for].
  - destruct c as [[]]. unfold mret, st_ret, set_solver_state, add_clauses. cbn. by rewrite app_nil_r.
  - rewrite (bind_eval _ _ _ () (set_solver_state (add_clauses [cl] (solver c)) c)) by done.
    rewrite IH. cbn. unfold set_solver_state, add_clauses. cbn. by rewrite <- app_assoc.
Qed.

Lemma addProperty_run c p f i : Ctx.getProp c p = Some f →
  Verifier.addProperty p i c = Some ((), set_solver_state (with_property f p i (solver c)) c).
Proof.
  intros Hf. unfold Verifier.addProperty. rewrite (bind_eval _ _ c f c) by (unfold st_read; by rewrite Hf).
  rewrite (bind_eval _ _ _ _ _ (st_for_clauses f c)). unfold on_solver. rewrite addClause_run.
  cbn [solver set_solver_state]. rewrite add_clauses_app. done.
Qed.

Lemma with_property_sat α f p i g : satisfies α (with_property f p i g) ↔
  satisfies α g ∧ forallb (clause_true α) f = true ∧ negb (α p) = negb i.
Proof.
  unfold with_property, satisfies. cbn [formula add_clauses].
  assert (clause_true α [makeLit p (negb i)] = true ↔ negb (α p) = negb i) as E.
  { unfold clause_true. cbn [existsb]. rewrite lit_true_mk, orb_false_r. by destruct (α p), i. }
  rewrite forallb_forall. setoid_rewrite <- list_elem_of_In. split.
  - intros Hs. split_all; [intros; apply Hs; set_solver|intros; apply Hs; set_solver|].
    apply E, Hs. set_solver.
  - intros (K1 & K2 & K3) cl. rewrite !elem_of_app, list_elem_of_singleton. intros [Hc|[Hc| ->]]; auto. by apply E.
Qed.

(** The solver finds a model exactly if the property can have the value. *)
Lemma property_possible c ps p F i f : verifying s c ps → (p, F) ∈ ps → varToProp c !! p = Some f →
  is_Some (Solve.solve (with_property f p i (solver c))) ↔
    ∃ xs, length xs = sn_nIn s ∧ F (sn_val s xs) = negb i.
Proof.
  intros [He Hps] Hp Hf. destruct (Hps p F Hp) as [Hv (f' & Hf' & _ & HF) Hu Hn Hcell].
  assert (f' = f) as -> by congruence. split.
  - intros [α Hs]. apply solve_model, with_property_sat in Hs as (Hs & Hfs & Hpv).
    exists (in_values (c_val c α) s). split; [apply in_values_length|]. rewrite <- Hpv.
    rewrite (proj1 (HF α) Hfs). apply Hcell. intros k d Hd.
    destruct (es_sound _ _ _ He α Hs) as [_ Hval]. symmetry. exact (Hval k d Hd).
  - intros (xs & Hxs & HFx). destruct (es_complete _ _ _ He (λ _, false) xs (empty_satisfied _) Hxs) as (α & _ & Hs & Hval).
    destruct (Solve.solve (with_property f p i (solver c))) as [β|] eqn:Es; [by eexists|exfalso].
    set (α' := set_value α p i).
    assert (∀ k d, Net.getCell s k = Some d → c_val c α' k 0 = c_val c α k 0) as Ecv.
    { intros k d Hd. destruct (es_known _ _ _ He k d Hd) as (v & Hkv & _). change (Ctx.var c k 0 = Some v) in Hkv.
      rewrite !(c_val_var _ _ _ _ Hkv). unfold α', set_value. destruct (Nat.eqb_spec v p) as [->|]; [|done].
      by destruct (Hn k d Hd). }
    apply (solve_none _ α' Es), with_property_sat. split_all.
    + intros cl Hcl. unfold α'. rewrite clause_unused; [by apply Hs|]. intros l. by apply Hu.
    + apply HF. unfold α' at 1. rewrite set_value_same, <- HFx. apply Hcell. intros k d Hd.
      rewrite (Ecv k d Hd). symmetry. by apply (Hval k d).
    + unfold α'. by rewrite set_value_same.
Qed.

(** The context after a check. *)
Definition checked (c : Context) : Context :=
  mkContext (solver c) (solver c) (next c) (vars c) (varToProp c).

Lemma checkAlways_run c p i f : varToProp c !! p = Some f →
  Verifier.checkAlways p i c =
    Some (negb (bool_decide (is_Some (Solve.solve (with_property f p (negb i) (solver c))))), checked c).
Proof.
  intros Hf. unfold Verifier.checkAlways. rewrite (bind_eval _ _ _ () (checked c)) by done.
  rewrite (bind_eval _ _ _ _ _ (addProperty_run (checked c) p f (negb i) Hf)). done.
Qed.

Lemma checkEventually_run c p i f : varToProp c !! p = Some f →
  Verifier.checkEventually p i c =
    Some (bool_decide (is_Some (Solve.solve (with_property f p i (solver c)))), checked c).
Proof.
  intros Hf. unfold Verifier.checkEventually. rewrite (bind_eval _ _ _ () (checked c)) by done.
  rewrite (bind_eval _ _ _ _ _ (addProperty_run (checked c) p f i Hf)). done.
Qed.

(** ** The invariant *)

Lemma enc_solver g c c' : encodes_subnet s g c → bounded (solver c') → nVars (solver c) ≤ nVars (solver c') →
  formula (solver c') = formula (solver c) → (∀ k o, Ctx.var c' k o = Ctx.var c k o) → encodes_subnet s g c'.
Proof.
  intros [K1 K2 K3 K4 K5] Hb Hv Hf Hc.
  assert (∀ α, satisfies α (solver c') ↔ satisfies α (solver c)) as Hs by (intros α; unfold satisfies; by rewrite Hf).
  assert (∀ α k o, c_val c' α k o = c_val c α k o) as Ev by (intros α k o; unfold c_val; by rewrite Hc).
  assert (∀ α, in_values (c_val c' α) s = in_values (c_val c α) s) as Ei.
  { intros α. unfold in_values. apply list_fmap_ext. intros i k _. apply Ev. }
  split; [lia|done| | |].
  - intros k d Hd. destruct (K3 k d Hd) as (v & Hkv & Hlt). exists v. rewrite Hc. split; [done|lia].
  - intros α Hα. apply Hs in Hα. destruct (K4 α Hα) as [Hg Hval]. split; [done|]. intros k d Hd. rewrite Ev, Ei. by apply Hval with d.
  - intros α xs Hα Hxs. destruct (K5 α xs Hα Hxs) as (β & E & Hβ & Hval). exists β. split_all; [done|by apply Hs|].
    intros k d Hd. rewrite Ev. by apply Hval with d.
Qed.

(** A property added to the context. *)
Definition with_prop (f : list Clause) (c : Context) : Context :=
  mkContext (more_vars 1 (solver c)) (backupSolver c) (next c) (vars c) (<[nVars (solver c) := f]> (varToProp c)).

Lemma prop_kept c f p F : stands_for s c p F → stands_for s (with_prop f c) p F.
Proof.
  intros [K1 (f' & Hf & Hb & HF) K3 K4 K5]. split; [cbn; lia| |done|done|done].
  exists f'. split_all; [cbn; by rewrite lookup_insert_ne by lia| |done].
  eapply Forall_impl; [|exact Hb]. intros cl. apply Forall_impl. intros l. cbn. lia.
Qed.

Lemma prop_new c f F : encodes_subnet s empty_solver c → Forall (lits_below (S (nVars (solver c)))) f →
  (∀ α, forallb (clause_true α) f = true ↔ negb (α (nVars (solver c))) = F (c_val c α)) →
  (∀ v w, (∀ k d, Net.getCell s k = Some d → v k 0 = w k 0) → F v = F w) →
  stands_for s (with_prop f c) (nVars (solver c)) F.
Proof.
  intros He Hb HF Hc. split; [cbn; lia| | | |done].
  - exists f. split_all; [by cbn; rewrite lookup_insert_eq|done|done].
  - intros cl l Hcl Hl. cbn in Hcl. pose proof (es_bounded _ _ _ He) as Hbd. unfold bounded in Hbd.
    rewrite list.Forall_forall in Hbd. specialize (Hbd cl Hcl). unfold lits_below in Hbd. rewrite list.Forall_forall in Hbd.
    specialize (Hbd l Hl). cbn in Hbd. lia.
  - intros k d Hd E. change (Ctx.var c k 0 = Some (nVars (solver c))) in E.
    destruct (es_known _ _ _ He k d Hd) as (v & Hv & Hlt). change (Ctx.var c k 0 = Some v) in Hv. rewrite Hv in E.
    injection E as ->. lia.
Qed.

Lemma verifying_prop c ps f F : verifying s c ps → Forall (lits_below (S (nVars (solver c)))) f →
  (∀ α, forallb (clause_true α) f = true ↔ negb (α (nVars (solver c))) = F (c_val c α)) →
  (∀ v w, (∀ k d, Net.getCell s k = Some d → v k 0 = w k 0) → F v = F w) →
  verifying s (with_prop f c) ((nVars (solver c), F) :: ps).
Proof.
  intros [He Hps] Hb HF Hc. split.
  - eapply enc_solver; [exact He|by apply (bounded_vars 1), He|cbn; lia|done|done].
  - intros p G Hp. apply elem_of_cons in Hp as [E|Hp]; [injection E as -> ->; by apply prop_new|].
    by apply prop_kept, Hps.
Qed.

Lemma inner_lval l v w : inner_link s l → (∀ k d, Net.getCell s k = Some d → v k 0 = w k 0) → lval v l = lval w l.
Proof. intros (Ho & d & Hd) E. unfold lval. by rewrite Ho, (E _ d Hd). Qed.

(** The literal of a link among the clauses of a property. *)
Lemma prop_lit c l sign : known c l → 
  Ctx.link_lit (set_solver_state (more_vars 1 (solver c)) c) l sign = Some (the_lit c l sign) ∧
  lit_var (the_lit c l sign) < S (nVars (solver c)).
Proof. intros Hk. split; [by apply (the_lit_some c)|]. pose proof (the_lit_var c l sign Hk). lia. Qed.

Lemma makeEqualty_value_run c ps lhs rhs : verifying s c ps → inner_link s lhs →
  ∃ f, Verifier.makeEqualty_value lhs rhs c = Some (nVars (solver c), with_prop f c) ∧
    verifying s (with_prop f c) ((nVars (solver c), λ v, eqb (lval v lhs) rhs) :: ps).
Proof.
  intros Hv Hl. pose proof (inner_known _ _ _ _ (vf_enc _ _ _ Hv) Hl) as Hk.
  destruct (prop_lit c lhs rhs Hk) as [E1 L1]. set (p := nVars (solver c)). set (t := makeLit p true).
  exists [[the_lit c lhs rhs; lit_not t]; [lit_not (the_lit c lhs rhs); t]]. split.
  - unfold Verifier.makeEqualty_value, encodeEqual_value.
    rewrite (bind_eval _ _ c p (set_solver_state (more_vars 1 (solver c)) c)) by done.
    erewrite bind_eval by (unfold lit_link, st_read; rewrite E1; reflexivity). done.
  - apply verifying_prop; [done| | |].
    + assert (lit_var t < S p) as Lt by (unfold t, makeLit; rewrite mkLit_var; lia).
      repeat (apply list.Forall_cons; split); try (apply list.Forall_nil; exact I); rewrite ?lit_not_var; done.
    + intros α. unfold clause_true. cbn [forallb existsb]. rewrite !lit_true_not, the_lit_true by done.
      unfold t. rewrite lit_true_mk. fold p. destruct (α p), (lval (c_val c α) lhs), rhs; done.
    + intros v w E. f_equal. by apply inner_lval.
Qed.

Lemma makeEqualty_links_run c ps lhs rhs : verifying s c ps → inner_link s lhs → inner_link s rhs →
  ∃ f, Verifier.makeEqualty_links lhs rhs c = Some (nVars (solver c), with_prop f c) ∧
    verifying s (with_prop f c) ((nVars (solver c), λ v, eqb (lval v lhs) (lval v rhs)) :: ps).
Proof.
  intros Hv Hl Hr. pose proof (inner_known _ _ _ _ (vf_enc _ _ _ Hv) Hl) as Hk.
  pose proof (inner_known _ _ _ _ (vf_enc _ _ _ Hv) Hr) as Hk'.
  destruct (prop_lit c lhs true Hk) as [E1 L1], (prop_lit c rhs true Hk') as [E2 L2].
  set (p := nVars (solver c)). set (t := makeLit p true). set (a := the_lit c lhs true) in *. set (b := the_lit c rhs true) in *.
  exists [[a; b; t]; [a; lit_not b; lit_not t]; [lit_not a; b; lit_not t]; [lit_not a; lit_not b; t]]. split.
  - unfold Verifier.makeEqualty_links, encodeEqual_links.
    rewrite (bind_eval _ _ c p (set_solver_state (more_vars 1 (solver c)) c)) by done.
    erewrite bind_eval by (unfold lit_link, st_read; rewrite E1; reflexivity).
    erewrite bind_eval by (unfold lit_link, st_read; rewrite E2; reflexivity). done.
  - apply verifying_prop; [done| | |].
    + assert (lit_var t < S p) as Lt by (unfold t, makeLit; rewrite mkLit_var; lia).
      repeat (apply list.Forall_cons; split); try (apply list.Forall_nil; exact I); rewrite ?lit_not_var; done.
    + intros α. unfold clause_true. cbn [forallb existsb]. unfold a, b. rewrite !lit_true_not, !the_lit_true by done.
      unfold t. rewrite lit_true_mk. fold p. destruct (α p), (lval (c_val c α) lhs), (lval (c_val c α) rhs); done.
    + intros v w E. by rewrite !(inner_lval _ v w) by done.
Qed.

Lemma checked_verifying c ps : verifying s c ps → verifying s (checked c) ps.
Proof.
  intros [He Hps]. split; [by eapply enc_solver; [exact He|apply He|..]|]. intros p F Hp. by destruct (Hps p F Hp).
Qed.

Context (Hc : cnf_subnet s = true).

Lemma verifier_invariant depth c ps : verifier_state depth s c ps → verifying s c ps.
Proof.
  induction 1 as [c E|c ps lhs rhs p c' _ IH Hl E|c ps lhs rhs p c' _ IH Hl Hr E|c ps p i r c' _ IH E|c ps p i r c' _ IH E].
  - unfold Verifier.make in E. destruct (encode_spec depth s empty_solver Hw Hc empty_bounded) as (c' & E' & He).
    rewrite E' in E. injection E as <-. split; [done|]. intros p F Hp. by apply elem_of_nil in Hp.
  - destruct (makeEqualty_value_run c ps lhs rhs IH Hl) as (f & E' & Hv). rewrite E' in E. by injection E as <- <-.
  - destruct (makeEqualty_links_run c ps lhs rhs IH Hl Hr) as (f & E' & Hv). rewrite E' in E. by injection E as <- <-.
  - destruct (varToProp c !! p) as [f|] eqn:Ef.
    + rewrite (checkAlways_run c p i f Ef) in E. injection E as _ <-. by apply checked_verifying.
    + unfold Verifier.checkAlways, Verifier.addProperty, Ctx.getProp, mbind, st_bind, st_read in E. cbn in E. by rewrite Ef in E.
  - destruct (varToProp c !! p) as [f|] eqn:Ef.
    + rewrite (checkEventually_run c p i f Ef) in E. injection E as _ <-. by apply checked_verifying.
    + unfold Verifier.checkEventually, Verifier.addProperty, Ctx.getProp, mbind, st_bind, st_read in E. cbn in E. by rewrite Ef in E.
Qed.
End Check.
