(* ===== verification/MiterSpec.v ===== *)
(** * The miter

    [makeMiter] copies two subnets into a builder over common inputs and adds the
    exclusive or of the outputs; the subnet made from the builder has the value
    true exactly on the inputs where the two subnets differ. *)

From stdpp Require Import gmap strings.
From S2P Require Import Prelude CellType SubnetBase Builder BuilderInv BuilderAdd BuilderAlloc BuilderSpec BuilderEval.
From S2P Require Import Make MakeSpec SubnetEval AdderSum Synth MapperLaws Stays CnfSpec Checker.

(** ** Definitions *)

(** The cells that the copied subnets and the miter have. *)
Definition miter_cell (c : Cell) : bool :=
  cnf_cell c && forallb (λ l, out l =? 0) (getInPlaceLinks c).

#[export] Instance miter_property : CellProperty miter_cell.
Proof. done. Defined.

(** Subnets that can be copied: small cells, indices of 16 bits. *)
Definition copyable (s : Subnet) : bool :=
  forallb (λ e, match e with ECell c => arity c <=? InPlaceLinks | _ => true end) (sn_entries s) &&
  (N.of_nat (Net.size s) <=? 2 ^ 16)%N.

(** The outputs of a well-formed subnet. *)
Definition sn_outs (s : Subnet) (xs : list bool) : list bool :=
  (λ j, sn_val s xs (Net.size s - sn_nOut s + j) 0) <$> seq 0 (sn_nOut s).

Definition differ (s1 s2 : Subnet) (xs : list bool) : bool :=
  existsb id (zip_with xorb (sn_outs s1 xs) (sn_outs s2 xs)).

(** ** Runs that keep the cells *)

Lemma wp_only {A} P (m : st SubnetBuilder A) b Q : stays P m → only P b → wp m b Q → wp m b (λ a b', Q a b' ∧ only P b').
Proof. intros Hs Ho (a & b' & E & HQ). exists a, b'. split_all; [done|done|]. by apply (Hs b a b'). Qed.

Lemma copyable_index s i : copyable s = true → i < Net.size s → to_u16 i = i.
Proof.
  unfold copyable. rewrite andb_true_iff, N.leb_le. intros [_ Hs] Hi. apply to_u16_small. lia.
Qed.

Lemma copyable_cell s i c : copyable s = true → Net.getCell s i = Some c → arity c ≤ InPlaceLinks.
Proof.
  unfold copyable, Net.getCell. rewrite andb_true_iff, forallb_forall. intros [Hc _] Hd.
  destruct (sn_entries s !! i) as [e|] eqn:Ee; [|done]. cbn in Hd. destruct e; try done. injection Hd as ->.
  apply list_elem_of_lookup_2, list_elem_of_In in Ee. apply Hc in Ee. by apply Nat.leb_le.
Qed.

Lemma miter_allowed t ls : cnf_cell (mkCell (length ls) 0 0 t []) = true → length ls ≤ InPlaceLinks →
  Forall (λ l, out l = 0) ls → allowed miter_cell t ls.
Proof.
  intros Hc Hl Ho c E. unfold SubnetCell in E. destruct (bool_decide _); [|done]. injection E as <-.
  unfold miter_cell. rewrite andb_true_iff. split; [exact Hc|]. apply forallb_forall. intros l Hin.
  apply list_elem_of_In in Hin. apply Nat.eqb_eq. rewrite list.Forall_forall in Ho. apply Ho.
  unfold getInPlaceLinks, pad3 in Hin. cbn [arity links] in Hin.
  rewrite take_take, Nat.min_l in Hin by lia. rewrite Nat.min_l in Hin by lia.
  rewrite take_app_le, take_ge in Hin by lia. done.
Qed.

Lemma cnf_gate_ok s n : cnf_cell (mkCell n 0 0 (GateID s) []) = true → s ≠ IN → s ≠ OUT → gate_ok s n = true.
Proof.
  intros Hc Hi Ho. destruct s; try done; cbn in Hc.
  - apply Nat.eqb_eq in Hc as ->. done.
  - apply Nat.eqb_eq in Hc as ->. done.
  - apply Nat.eqb_eq in Hc as ->. done.
  - by destruct n.
  - by destruct n.
  - by destruct n.
  - rewrite orb_true_iff, !Nat.eqb_eq in Hc. by destruct Hc as [-> | ->].
Qed.

(** ** One subnet *)

Section Copy.
Context `{TypeStore}.
Context (s : Subnet) (Hw : sn_wf s = true) (Hc : cnf_subnet s = true) (Hp : copyable s = true).

(** The values of the inputs in the builder. *)
Definition in_vals (ins : list nat) (v : valuation) : list bool := (λ j, v j 0) <$> ins.

(** The cells before [i] have been copied: [m] has their links. *)
Definition copied (ins : list nat) (i : nat) (m : gmap nat Link) (b : SubnetBuilder) : Prop :=
  ∀ k c, k < i → Net.getCell s k = Some c → ∃ l, m !! k = Some l ∧ port b l ∧
    (type c ≠ GateID OUT → inv l = false) ∧
    ∀ v, consistent v b → lval v l = sn_val s (in_vals ins v) k 0.

Lemma copied_ext ins i m b b' : ext b b' → copied ins i m b → copied ins i m b'.
Proof.
  intros He Hm k c Hk Hd. destruct (Hm k c Hk Hd) as (l & E & Hl & Hi & Hv). exists l.
  split_all; [done|by eapply port_ext|done|]. intros v Hcv. apply Hv. by eapply consistent_ext.
Qed.

(** The new link of a link of the old cell. *)
Definition copy_link (m : gmap nat Link) (l : Link) : Link := SubnetLink (idx (map_at m (idx l))) (out l) (inv l).

Section Cell.
Context (ins : list nat) (i : nat) (m : gmap nat Link) (b : SubnetBuilder) (c : Cell) (ls : LinkList).
Context (Hm : copied ins i m b) (Hd : Net.getCell s i = Some c) (Hf : cell_fine s i c ls).

Lemma copy_link_port l : l ∈ ls → port b (copy_link m l).
Proof.
  intros Hl. destruct (cf_before _ _ _ _ Hf l Hl) as (Hlt & d & Hd' & Ht).
  destruct (Hm _ _ Hlt Hd') as (k & E & [(Hlive & _ & Hk) Ho] & _). unfold copy_link, map_at.
  rewrite E, (cf_out _ _ _ _ Hf l Hl). cbn. split; [|done]. unfold src. cbn. split_all; [done|lia|done].
Qed.

Lemma copy_link_value l v : l ∈ ls → consistent v b → lval v (copy_link m l) = lval (sn_val s (in_vals ins v)) l.
Proof.
  intros Hl Hv. destruct (cf_before _ _ _ _ Hf l Hl) as (Hlt & d & Hd' & Ht).
  destruct (Hm _ _ Hlt Hd') as (k & E & [_ Ho] & Hi & Hk). specialize (Hk v Hv). specialize (Hi Ht).
  unfold copy_link, map_at, lval in *. rewrite E, (cf_out _ _ _ _ Hf l Hl). cbn. rewrite Ho, Hi, xorb_false_r in Hk.
  by rewrite Hk.
Qed.

Lemma copy_links_ports : ports b (copy_link m <$> ls).
Proof. unfold ports. rewrite Forall_fmap. apply list.Forall_forall. intros l Hl. by apply copy_link_port. Qed.

Lemma copy_links_values v : consistent v b → lval v <$> (copy_link m <$> ls) = lval (sn_val s (in_vals ins v)) <$> ls.
Proof.
  intros Hv. rewrite <- list_fmap_compose. apply list_fmap_ext. intros j l Hl. apply list_elem_of_lookup_2 in Hl.
  by apply copy_link_value.
Qed.

Lemma copy_links_read : mapM (λ j, l ← Net.getLink s i j;
  Some (SubnetLink (idx (map_at m (idx l))) (out l) (inv l))) (seq 0 (arity c)) = Some (copy_link m <$> ls).
Proof.
  apply mapM_Some_2. apply Forall2_fmap_r. pose proof (mapM_Some_1 _ _ _ (cell_links s i c ls Hd Hf)) as HF.
  eapply Forall2_impl; [|exact HF]. intros j l E. cbn in E |- *. by rewrite E.
Qed.

Lemma copy_length : length (copy_link m <$> ls) = arity c.
Proof. rewrite length_fmap. by apply (cell_arity s i). Qed.
End Cell.

Lemma copied_insert ins i n m b c l : copied ins i m b → Net.getCell s i = Some c →
  (∀ k, i < k < n → Net.getCell s k = None) → port b l → (type c ≠ GateID OUT → inv l = false) →
  (∀ v, consistent v b → lval v l = sn_val s (in_vals ins v) i 0) → copied ins n (<[i := l]> m) b.
Proof.
  intros Hm Hd Hgap Hl Hi Hv k e Hk He. destruct (decide (k = i)) as [->|Hne].
  - exists l. rewrite lookup_insert_eq. assert (e = c) as -> by congruence. by split_all.
  - destruct (decide (i < k)); [by rewrite Hgap in He by lia|]. rewrite lookup_insert_ne by done.
    apply (Hm k e); [lia|done].
Qed.

Lemma buildCell_spec ins i n m b c ls : wf b ins [] → only miter_cell b → copied ins i m b →
  Net.getCell s i = Some c → cell_fine s i c ls → type c ≠ GateID IN → (∀ k, i < k < n → Net.getCell s k = None) →
  wp (buildCell (Net.getLink s) c i m) b (λ m' b', (wf b' ins [] ∧ ext b b' ∧ copied ins n m' b') ∧ only miter_cell b').
Proof.
  intros Hwf Ho Hm Hd Hf Hin Hgap. pose proof (getCell_size _ _ _ Hd) as Hi. unfold buildCell.
  rewrite (copyable_index s i Hp Hi). apply wp_bind. exists (copy_link m <$> ls), b. split.
  { unfold st_read. by rewrite (copy_links_read i m c ls Hd Hf). }
  pose proof (copy_links_ports ins i m b c ls Hm Hf) as Hps.
  pose proof (copy_length i m c ls Hd Hf) as Hlen. pose proof (copyable_cell s i c Hp Hd) as Hsmall.
  pose proof (cnf_subnet_cell s i c Hc Hd) as Hcnf.
  destruct (cell_is OUT c) eqn:Eo.
  - apply is_out_spec in Eo. pose proof (cf_type _ _ _ _ Hf) as Ht. rewrite Eo in Ht. destruct Ht as (_ & [l ->] & _).
    cbn in Hps. apply Forall_cons_1 in Hps as [Hl _]. apply wp_bind. exists (copy_link m l), b. split; [done|].
    apply wp_ret. split_all; [done|done| |done]. eapply copied_insert; [done|done|done|done|done|].
    intros v Hv. rewrite (copy_link_value ins i m b c [l] Hm Hf) by (done || set_solver).
    destruct (sn_val_cell s (in_vals ins v) i c Hw Hd) as (ls' & Hf' & ->).
    assert (ls' = [l]) as -> by (pose proof (cf_links _ _ _ _ Hf); pose proof (cf_links _ _ _ _ Hf'); congruence).
    unfold cell_value. by rewrite Eo.
  - assert (type c ≠ GateID OUT) as Hno by (intros E; apply is_out_spec in E; congruence).
    assert (∃ sym, type c = GateID sym) as [sym Et].
    { unfold cnf_cell in Hcnf. destruct (type c) as [|sym|]; [done|by exists sym|done]. }
    assert (cnf_cell (mkCell (length (copy_link m <$> ls)) 0 0 (GateID sym) []) = true) as Hcnf'.
    { rewrite Hlen. unfold cnf_cell in *. cbn [type arity]. by rewrite Et in Hcnf. }
    assert (gate_ok sym (length (copy_link m <$> ls)) = true) as Hok by (apply cnf_gate_ok; congruence).
    destruct (gate_ok_valid _ _ Hok) as (_ & _ & _ & _ & _ & _ & Hid).
    rewrite Et, <- Hid. change (addCell (getCellTypeID sym) (copy_link m <$> ls)) with (addGate sym (copy_link m <$> ls)).
    apply wp_bind. eapply wp_mono; [apply (wp_only miter_cell)|].
    + apply (addGate_stays miter_cell); [apply miter_allowed; [done|lia|]|done].
      eapply Forall_impl; [|exact Hps]. by intros l [_ ?].
    + done.
    + apply add_gate; [exact Hwf|done|lia|done].
    + intros r b' [(Hwf' & He & [Hr Hv] & Hinv) Ho']. apply wp_ret. split_all; [done|done| |done].
      eapply copied_insert; [by eapply copied_ext|done|done|done|done|]. intros v Hcv. specialize (Hv v Hcv).
      rewrite (copy_links_values ins i m b c ls Hm Hf) in Hv by by eapply consistent_ext.
      destruct (sn_val_cell s (in_vals ins v) i c Hw Hd) as (ls' & Hf' & ->).
      assert (ls' = ls) as -> by (pose proof (cf_links _ _ _ _ Hf); pose proof (cf_links _ _ _ _ Hf'); congruence).
      symmetry. apply cell_value_gate. rewrite Et. exact Hv.
Qed.

Lemma buildCells_spec ins : ∀ f fuel known i m b, f ≤ fuel → sn_check f s known i = true → sn_nIn s ≤ i →
  wf b ins [] → only miter_cell b → copied ins i m b →
  wp (buildCells fuel s i m) b (λ m' b', (wf b' ins [] ∧ ext b b' ∧ copied ins (Net.size s) m' b') ∧ only miter_cell b').
Proof.
  induction f as [|f IH]; intros fuel known i m b Hle Hk Hin Hwf Ho Hm; cbn [sn_check] in Hk;
    (destruct (Nat.leb_spec (Net.size s) i) as [Hi|Hi];
      [destruct fuel; cbn [buildCells]; rewrite (proj2 (Nat.leb_le _ _) Hi); apply wp_ret; split_all; try done;
        intros k c Hks Hd; apply (Hm k c); [lia|done|lia|done]|]); [done|].
  destruct fuel as [|fuel]; [lia|]. cbn [buildCells]. rewrite (proj2 (Nat.leb_gt _ _) Hi).
  destruct (Net.getCell s i) as [c|] eqn:Hd; [|done]. destruct (Net.getLinks s i) as [ls'|] eqn:Hls; [|done].
  apply andb_true_iff in Hk as [Hk Hrest]. destruct (wf_cell s i c Hw Hd) as [ls Hf].
  assert (type c ≠ GateID IN) as Ht.
  { intros E. pose proof (cf_type _ _ _ _ Hf) as Ht. rewrite E in Ht. lia. }
  eapply wp_read; [done|]. apply wp_bind.
  eapply wp_mono; [apply (buildCell_spec ins i (S i + more c) m b c ls); try done|].
  { intros k Hks. eapply (cell_check_skip s); [exact Hk|lia]. }
  intros m' b' [(Hwf' & He & Hm') Ho'].
  eapply wp_mono; [eapply (IH fuel _ (S i + more c) m' b'); [lia|exact Hrest|lia|done..]|].
  intros m'' b'' [(Hwf'' & He' & Hm'') Ho'']. split_all; [done|by etransitivity|done|done].
Qed.

(** The check passes the inputs one by one. *)
Lemma sn_check_inputs : ∀ f known i, sn_check f s known i = true → i ≤ sn_nIn s →
  ∃ f' known', f' ≤ f ∧ sn_check f' s known' (sn_nIn s) = true.
Proof.
  pose proof Hw as Hw'. unfold sn_wf in Hw'. apply andb_true_iff in Hw' as [Hs _]. apply Nat.leb_le in Hs.
  induction f as [|f IH]; intros known i Hk Hi; (destruct (decide (i = sn_nIn s)) as [->|Hne]; [by eexists _, known|]);
    cbn [sn_check] in Hk; rewrite (proj2 (Nat.leb_gt _ _)) in Hk by lia; [done|].
  destruct (Net.getCell s i) as [c|] eqn:Hd; [|done]. destruct (Net.getLinks s i) as [ls'|] eqn:Hls; [|done].
  apply andb_true_iff in Hk as [Hk Hrest]. pose proof (cell_check_type _ _ _ _ _ Hk) as Ht.
  assert (more c = 0) as Hm by (destruct (type c) as [|[]|]; cbn in Ht; destruct Ht as (Ht1 & Ht2); try lia; destruct Ht2; lia).
  destruct (IH _ (S i + more c) Hrest) as (f' & known' & Hf' & E); [lia|]. exists f', known'. split; [lia|done].
Qed.

(** The inputs of the subnet are the inputs of the builder. *)
Definition inputs_mapped (ins : list nat) (m : gmap nat Link) (b : SubnetBuilder) : Prop :=
  ∀ k j, ins !! k = Some j → m !! k = Some (LinkTo j) ∧ port b (LinkTo j).

Lemma copied_inputs ins m b : length ins = sn_nIn s → inputs_mapped ins m b → copied ins (sn_nIn s) m b.
Proof.
  intros Hlen Hm k c Hk Hd. destruct (lookup_lt_is_Some_2 ins k) as [j Hj]; [lia|]. destruct (Hm k j Hj) as [E Hp'].
  exists (LinkTo j). split_all; [done|done|done|]. intros v _.
  destruct (sn_val_cell s (in_vals ins v) k c Hw Hd) as (ls & Hf & ->). unfold cell_value.
  destruct (wf_input s k Hw Hk) as (c' & Hc' & Ht). assert (c' = c) as -> by congruence. rewrite Ht.
  unfold in_vals. rewrite list_lookup_fmap, Hj. cbn. unfold lval. cbn. by destruct (v j 0).
Qed.

Lemma copy_subnet ins m b : length ins = sn_nIn s → inputs_mapped ins m b → wf b ins [] → only miter_cell b →
  wp (buildCells (Net.size s) s (sn_nIn s) m) b
    (λ m' b', (wf b' ins [] ∧ ext b b' ∧ copied ins (Net.size s) m' b') ∧ only miter_cell b').
Proof.
  intros Hlen Hm Hwf Ho. pose proof Hw as Hw'. unfold sn_wf in Hw'. apply andb_true_iff in Hw' as [_ Hk].
  destruct (sn_check_inputs _ _ 0 Hk) as (f & known & Hf & Hk'); [lia|].
  eapply buildCells_spec; [exact Hf|exact Hk'|done|done|done|by apply copied_inputs].
Qed.

Lemma sn_outs_length xs : length (sn_outs s xs) = sn_nOut s.
Proof. unfold sn_outs. by rewrite length_fmap, length_seq. Qed.

Lemma sn_function_outs xs : sn_function s xs = Some (sn_outs s xs).
Proof.
  unfold sn_function, out_values, sn_outs. apply mapM_Some_2, Forall2_fmap_r, Forall_Forall2_diag.
  apply list.Forall_forall. intros j Hj. apply elem_of_seq in Hj.
  destruct (wf_output s j Hw) as (c & l & Hd & Ht & Hls & Ho & Hf); [lia|]. cbn. rewrite Ho. cbn. f_equal.
  destruct (sn_val_cell s xs _ c Hw Hd) as (ls & Hf' & ->).
  assert (ls = [l]) as -> by (pose proof (cf_links _ _ _ _ Hf'); congruence).
  unfold cell_value. by rewrite Ht.
Qed.

(** The copies of the outputs. *)
Lemma copied_output ins m b j : copied ins (Net.size s) m b → j < sn_nOut s →
  port b (map_at m (Net.size s + j - sn_nOut s)) ∧ ∀ v, consistent v b →
    lval v (map_at m (Net.size s + j - sn_nOut s)) = nth j (sn_outs s (in_vals ins v)) false.
Proof.
  intros Hm Hj. destruct (wf_output s j Hw Hj) as (c & l & Hd & _). pose proof (getCell_size _ _ _ Hd) as Hlt.
  pose proof Hw as Hw'. unfold sn_wf in Hw'. apply andb_true_iff in Hw' as [Hs _]. apply Nat.leb_le in Hs.
  replace (Net.size s + j - sn_nOut s) with (Net.size s - sn_nOut s + j) by lia.
  destruct (Hm _ c Hlt Hd) as (k & E & Hk & _ & Hv). unfold map_at. rewrite E. split; [done|]. intros v Hcv.
  rewrite Hv by done. unfold sn_outs.
  by rewrite (nth_lookup_Some _ _ _ (sn_val s (in_vals ins v) (Net.size s - sn_nOut s + j) 0)) by
    (rewrite list_lookup_fmap, lookup_seq_lt by done; done).
Qed.
End Copy.

(** ** The miter of two subnets *)

Section Miter.
Context `{TypeStore}.
Context (s1 s2 : Subnet).
Context (Hw1 : sn_wf s1 = true) (Hc1 : cnf_subnet s1 = true) (Hp1 : copyable s1 = true).
Context (Hw2 : sn_wf s2 = true) (Hc2 : cnf_subnet s2 = true) (Hp2 : copyable s2 = true).
Context (Hin : sn_nIn s2 = sn_nIn s1) (Hout : sn_nOut s2 = sn_nOut s1) (Hpos : 0 < sn_nOut s1).

Lemma copyable_size s : copyable s = true → Net.size s ≤ N.to_nat (2 ^ 16).
Proof. unfold copyable. rewrite andb_true_iff, N.leb_le. intros [_ ?]. lia. Qed.

Let mapping := default_mapping (sn_nIn s1) (sn_nOut s1) (Net.size s1) (Net.size s2).

Lemma nOut_small : sn_nIn s1 ≠ 0 ∨ Net.size s1 ≠ sn_nOut s1 → to_u16 (sn_nOut s1) = sn_nOut s1.
Proof.
  intros Hne. pose proof (wf_sizes s1 Hw1). pose proof (copyable_size s1 Hp1). apply to_u16_small. lia.
Qed.

(** An output needs a cell before it. *)
Lemma has_source : Net.size s1 ≠ sn_nOut s1.
Proof.
  intros E. destruct (wf_output s1 0 Hw1 Hpos) as (c & l & Hd & Ht & _ & _ & Hf).
  destruct (cf_before _ _ _ _ Hf l) as [Hlt _]; [set_solver|]. lia.
Qed.

Lemma mapping_output j : j < sn_nOut s1 →
  mapping !! (Net.size s1 + j - sn_nOut s1) = Some (Net.size s2 + j - sn_nOut s1).
Proof.
  intros Hj. pose proof (wf_sizes s1 Hw1) as Hs. unfold mapping, default_mapping.
  rewrite nOut_small by (right; apply has_source). rewrite lookup_union_l'.
  - apply elem_of_list_to_map_1.
    + rewrite <- list_fmap_compose. apply NoDup_fmap_2_strong; [|apply NoDup_seq].
      intros x y Hx Hy. rewrite elem_of_seq in Hx, Hy. cbn. lia.
    + apply list_elem_of_fmap. exists j. split; [done|]. apply elem_of_seq. lia.
  - exists (Net.size s2 + j - sn_nOut s1). apply elem_of_list_to_map_1.
    + rewrite <- list_fmap_compose. apply NoDup_fmap_2_strong; [|apply NoDup_seq].
      intros x y Hx Hy. rewrite elem_of_seq in Hx, Hy. cbn. lia.
    + apply list_elem_of_fmap. exists j. split; [done|]. apply elem_of_seq. lia.
Qed.

Lemma mapping_input k : k < sn_nIn s1 → mapping !! k = Some k.
Proof.
  intros Hk. pose proof (wf_sizes s1 Hw1) as Hs. unfold mapping, default_mapping.
  rewrite nOut_small by (right; apply has_source). rewrite lookup_union_r.
  - apply elem_of_list_to_map_1.
    + rewrite <- list_fmap_compose. apply NoDup_fmap_2_strong; [|apply NoDup_seq].
      intros x y Hx Hy. cbn. done.
    + apply list_elem_of_fmap. exists k. split; [done|]. apply elem_of_seq. lia.
  - apply not_elem_of_list_to_map_1. rewrite <- list_fmap_compose. intros Hx.
    apply list_elem_of_fmap in Hx as (j & E & Hj). apply elem_of_seq in Hj. cbn in E. lia.
Qed.

Lemma inputs_mapped_ext ins m b b' : ext b b' → inputs_mapped ins m b → inputs_mapped ins m b'.
Proof. intros He Hm k j Hj. destruct (Hm k j Hj) as [E Hp]. split; [done|by eapply port_ext]. Qed.

Lemma inputs_mapped_snoc ins m b j : inputs_mapped ins m b → port b (LinkTo j) →
  inputs_mapped (ins ++ [j]) (<[length ins := LinkTo j]> m) b.
Proof.
  intros Hm Hp k i Hk. apply lookup_snoc_Some in Hk as [[Hlt Hk]|[-> <-]].
  - rewrite lookup_insert_ne by lia. by apply Hm.
  - by rewrite lookup_insert_eq.
Qed.

Lemma miter_inputs_spec : ∀ n ins m1 m2 b, length ins + n ≤ sn_nIn s1 → wf b ins [] → input_ready b ins →
  only miter_cell b → inputs_mapped ins m1 b → inputs_mapped ins m2 b →
  wp (miter_inputs mapping (seq (length ins) n) (m1, m2)) b (λ ms b', ∃ ins', length ins' = length ins + n ∧
    wf b' ins' [] ∧ ext b b' ∧ only miter_cell b' ∧ inputs_mapped ins' ms.1 b' ∧ inputs_mapped ins' ms.2 b').
Proof.
  induction n as [|n IH]; intros ins m1 m2 b Hlen Hwf Hr Ho Hm1 Hm2; cbn [seq miter_inputs].
  - apply wp_ret. exists ins. rewrite Nat.add_0_r. by split_all.
  - apply wp_bind. exists (length ins), b. split; [unfold st_read; by rewrite mapping_input by lia|].
    apply wp_bind. eapply wp_mono; [apply (wp_only miter_cell); [|done|by apply addInput_spec]|].
    { apply (addGate_stays miter_cell); [|done]. apply miter_allowed; [done|cbn; unfold InPlaceLinks; lia|done]. }
    intros l b1 [(Hwf1 & He1 & Hl & El) Ho1].
    assert (port b1 (LinkTo (idx l))) as Hpl by (rewrite <- El; split; [done|by rewrite El]).
    rewrite El in Hl |- *. cbn [idx LinkTo SubnetLink].
    specialize (IH (ins ++ [idx l]) (<[length ins := LinkTo (idx l)]> m1) (<[length ins := LinkTo (idx l)]> m2) b1).
    rewrite length_app in IH. cbn [length] in IH. rewrite Nat.add_1_r in IH.
    eapply wp_mono; [apply IH; [lia|done|left; by destruct ins|done|..]|].
    + apply inputs_mapped_snoc; [by eapply inputs_mapped_ext|done].
    + apply inputs_mapped_snoc; [by eapply inputs_mapped_ext|done].
    + intros ms b2 (ins' & Hl' & Hwf2 & He2 & Ho2 & H1 & H2). exists ins'.
      split_all; [lia|done|by etransitivity|done|done|done].
Qed.

(** The exclusive ors of the outputs. *)
Lemma miter_xors_spec ins m1 m2 : ∀ js b, Forall (λ j, j < sn_nOut s1) js → wf b ins [] → only miter_cell b →
  copied s1 ins (Net.size s1) m1 b → copied s2 ins (Net.size s2) m2 b →
  wp (st_map (λ i, let idx1 := Net.size s1 + i - sn_nOut s1 in
      idx2 ← st_read (λ _, mapping !! idx1); addGate XOR [map_at m1 idx1; map_at m2 idx2]) js) b
    (λ ls b', wf b' ins [] ∧ ext b b' ∧ only miter_cell b' ∧ ports b' ls ∧ length ls = length js ∧
      ∀ v, consistent v b' → lval v <$> ls = (λ j, xorb (nth j (sn_outs s1 (in_vals ins v)) false)
        (nth j (sn_outs s2 (in_vals ins v)) false)) <$> js).
Proof.
  induction js as [|j js IH]; intros b Hj Hwf Ho Hm1 Hm2; cbn [st_map].
  { apply wp_ret. split_all; try done. constructor. }
  apply list.Forall_cons in Hj as [Hj Hjs].
  destruct (copied_output s1 Hw1 ins m1 b j Hm1 Hj) as [Hp1' Hv1].
  destruct (copied_output s2 Hw2 ins m2 b j Hm2 ltac:(lia)) as [Hp2' Hv2]. rewrite Hout in Hp2', Hv2.
  apply wp_bind, wp_bind. cbv zeta. eexists _, b. split; [unfold st_read; rewrite mapping_output by done; reflexivity|].
  eapply wp_mono; [apply (wp_only miter_cell); [|done|apply (add_gate XOR); [exact Hwf|by constructor; [|constructor; [|constructor]]|cbn; unfold InPlaceLinks; lia|done]]|].
  { apply (addGate_stays miter_cell); [|done]. apply miter_allowed; [done|cbn; unfold InPlaceLinks; lia|].
    constructor; [apply Hp1'|constructor; [apply Hp2'|constructor]]. }
  intros l b1 [(Hwf1 & He1 & [Hl Hv] & _) Ho1]. apply wp_bind.
  eapply wp_mono; [apply (IH b1); [done|done|done|by eapply copied_ext|by eapply copied_ext]|].
  intros ls b2 (Hwf2 & He2 & Ho2 & Hps & Hlen & Hvs). apply wp_ret.
  split_all; [done|by etransitivity|done|by constructor; [eapply port_ext|]|by cbn; f_equal|].
  intros v Hcv. cbn [fmap list_fmap]. rewrite <- Hvs by done. f_equal.
  assert (consistent v b1) as Hcv1 by by eapply consistent_ext. assert (consistent v b) as Hcv0 by by eapply consistent_ext.
  specialize (Hv v Hcv1). cbn in Hv. rewrite xorb_false_r, Hv1, Hv2 in Hv by done. by injection Hv.
Qed.

Lemma tree_loop_only : ∀ fuel rest b l b', Forall (λ l, out l = 0) rest →
  addCellTree_loop fuel OR 2 rest b = Some (l, b') → only miter_cell b → only miter_cell b'.
Proof.
  induction fuel as [|fuel IH]; intros [|x [|y rest]] b l b' Hf E Ho; try done; try (by injection E as <- <-).
  cbn [addCellTree_loop] in E. apply bind_Some_iff in E as (r & b1 & E1 & E).
  apply list.Forall_cons in Hf as [Hx Hf]. apply list.Forall_cons in Hf as [Hy Hf].
  eapply IH; [|exact E|].
  - cbn [drop]. rewrite drop_0. apply Forall_app. split; [done|]. constructor; [|constructor].
    by apply addCell_link in E1 as [? _].
  - eapply (addGate_stays miter_cell OR [x; y]); [|done|exact E1|exact Ho].
    apply miter_allowed; [done|cbn; unfold InPlaceLinks; lia|by repeat constructor].
Qed.

Lemma tree_only ls b l b' : ls ≠ [] → Forall (λ l, out l = 0) ls → addCellTree OR ls 2 b = Some (l, b') →
  only miter_cell b → only miter_cell b'.
Proof.
  intros Hne Hf E Ho. unfold addCellTree in E. change (MaxArity <? 2) with false in E. cbv iota beta in E.
  destruct (Nat.leb_spec (length ls) 2) as [Hle|Hgt].
  - eapply (addGate_stays miter_cell OR ls); [|done|exact E|exact Ho].
    apply miter_allowed; [by destruct ls|unfold InPlaceLinks; lia|done].
  - apply bind_Some_iff in E as (t & b1 & E1 & E). apply bind_Some_iff in E as ([] & b2 & E2 & E).
    assert (b1 = b) as -> by (unfold st_read in E1; destruct (getType _); [by injection E1|done]).
    assert (b2 = b) as -> by (unfold st_assert in E2; destruct (regroupable _); [by injection E2|done]).
    by eapply tree_loop_only.
Qed.

(** The link that becomes the output of the miter. *)
Lemma miter_or_spec ins ls b : wf b ins [] → only miter_cell b → ports b ls → ls ≠ [] →
  wp (if length ls =? 1 then st_read (λ _, head ls) else addCellTree OR ls 2) b (λ l b', wf b' ins [] ∧ ext b b' ∧
    only miter_cell b' ∧ port b' l ∧ ∀ v, consistent v b' → lval v l = existsb id (lval v <$> ls)).
Proof.
  intros Hwf Ho Hp Hne. destruct (Nat.eqb_spec (length ls) 1) as [E|E].
  - destruct ls as [|l [|]]; try done. apply Forall_cons_1 in Hp as [Hl _].
    exists l, b. split; [done|]. split_all; try done. intros v _. cbn. by rewrite orb_false_r.
  - destruct (getCellType OR) as [ty|] eqn:Ety; [|done].
    destruct (add_tree OR ty b ins [] ls Ety) as (l & b' & Er & Hwf' & He & Hl & Hv); [by injection Ety as <-|done|done| |].
    { destruct ls as [|x [|y ls]]; cbn in *; [done|lia|lia]. }
    exists l, b'. split; [done|]. split_all; [done|done| |done|].
    + eapply tree_only; [exact Hne| |exact Er|done]. eapply Forall_impl; [|exact Hp]. by intros x [_ ?].
    + intros v Hcv. specialize (Hv v Hcv). destruct ls as [|x ls]; [done|]. cbn in Hv |- *. by injection Hv.
Qed.

Lemma nth_xors (xs ys : list bool) : length xs = length ys →
  (λ j, xorb (nth j xs false) (nth j ys false)) <$> seq 0 (length xs) = zip_with xorb xs ys.
Proof.
  revert ys. induction xs as [|x xs IH]; intros [|y ys] E; try done. cbn [length seq fmap list_fmap zip_with nth].
  f_equal. rewrite <- IH by (cbn in E; lia). rewrite <- seq_shift. rewrite <- list_fmap_compose. done.
Qed.

(** The miter with its output. *)
Lemma makeMiter_spec : wp (makeMiter s1 s2 mapping) empty_builder
  (λ r b, (finished (sn_nIn s1) (λ xs, [differ s1 s2 xs]) r b ∧ b_nOut b = 1) ∧ only miter_cell b).
Proof.
  unfold makeMiter, makeNoOutMiter. apply wp_bind, wp_bind. exists (), empty_builder. split.
  { unfold st_assert. by rewrite bool_decide_eq_true_2. }
  apply wp_bind. eapply wp_mono; [apply (miter_inputs_spec (sn_nIn s1) [] ∅ ∅);
    [cbn; lia|apply wf_empty|apply ready_empty|by intros i c Hc|by intros k j Hk|by intros k j Hk]|].
  intros [m1 m2] b1 (ins & Hlen & Hwf1 & He1 & Ho1 & Hm1 & Hm2). cbn [length Nat.add fst snd] in *.
  apply wp_bind. eapply wp_mono; [apply (copy_subnet s1 Hw1 Hc1 Hp1 ins m1 b1 Hlen Hm1 Hwf1 Ho1)|].
  intros m1' b2 [(Hwf2 & He2 & Hk1) Ho2]. apply wp_bind.
  eapply wp_mono; [apply (copy_subnet s2 Hw2 Hc2 Hp2 ins m2 b2);
    [congruence|by eapply inputs_mapped_ext|done|done]|].
  intros m2' b3 [(Hwf3 & He3 & Hk2) Ho3]. apply wp_ret. apply wp_bind. unfold miter_xors. cbv zeta.
  rewrite nOut_small by (right; apply has_source). cbn [fst snd].
  eapply wp_mono; [apply (miter_xors_spec ins m1' m2'); [|done|done|by eapply copied_ext|done]|].
  { apply list.Forall_forall. intros j Hj. apply elem_of_seq in Hj. lia. }
  intros ls b4 (Hwf4 & He4 & Ho4 & Hps & Hll & Hv). rewrite length_seq in Hll.
  assert (ls ≠ []) as Hne by (intros ->; cbn in Hll; lia).
  destruct (miter_or_spec ins ls b4 Hwf4 Ho4 Hps Hne) as (l & b5 & E5 & Hwf5 & He5 & Ho5 & Hl5 & Hv5).
  assert (wp (addOutput l) b5 (λ r b', (wf b' ins [idx r] ∧ ext b5 b' ∧ out_link b' (idx r) l) ∧ only miter_cell b')) as Hout5.
  { apply (wp_only miter_cell); [|done|apply (addOutput_spec l b5 ins []); [done|apply Hl5]].
    apply (addGate_stays miter_cell); [|done]. apply miter_allowed; [done|cbn; unfold InPlaceLinks; lia|].
    constructor; [apply Hl5|constructor]. }
  assert (wp (makeMiterOutputs ls) b4 (λ r b', ∃ o, wf b' ins [o] ∧ ext b5 b' ∧ out_link b' o l ∧ only miter_cell b')) as Hfin.
  { destruct Hout5 as (r & b6 & E6 & (W & X & Y) & Z). exists (), b6. split; [|exists (idx r); by split_all].
    unfold makeMiterOutputs. destruct (length ls =? 1).
    - rewrite (bind_eval _ _ _ _ _ E5). by rewrite (bind_eval _ _ _ _ _ E6).
    - rewrite (bind_eval _ _ _ _ _ E5). by rewrite (bind_eval _ _ _ _ _ E6). }
  eapply wp_mono; [exact Hfin|]. intros [] b6 (o & Hwf6 & He6 & Hol & Ho6). split; [|done]. split.
  - exists ins, [o], [l]. split_all; [done| |done|done|by constructor; [|constructor]|].
    + repeat (etransitivity; [eassumption|]). done.
    + intros v Hcv. unfold word. cbn. assert (consistent v b5) as Hcv5 by by eapply consistent_ext.
      assert (consistent v b4) as Hcv4 by by eapply consistent_ext.
      rewrite Hv5, Hv by done. unfold differ. do 2 f_equal. change ((λ i, v i 0) <$> ins) with (in_vals ins v).
      rewrite <- nth_xors by (rewrite !sn_outs_length; congruence). by rewrite sn_outs_length.
  - destruct Hwf6 as [segs HW]. by destruct (wf_nums _ _ _ _ HW) as (_ & E & _).
Qed.
End Miter.
