(* ===== verification/CheckerCorrect.v ===== *)
(** * The encoder, the checker and the verifier are correct

    For every solver that answers right: the clauses of a subnet are its
    evaluations, [areEquivalent] decides the equality of functions, and the
    verifier decides its properties.  The counterexample of [isSat] is negated,
    and the miter of builders takes the last entries for the outputs. *)

From stdpp Require Import gmap strings.
From S2P Require Import Prelude CellType SubnetBase Builder BuilderInv BuilderSpec BuilderEval Make MakeSpec SubnetEval MakeWf.
From S2P Require Import BuilderCorrect Synth Stays.
From S2P Require Import Sat SatSpec Cnf CnfSpec Checker VerifierSpec MiterSpec.

(** ** The subnet of the miter *)

Section Made.
Context `{TypeStore}.

Lemma only_combinational b : only miter_cell b → combinational_builder b.
Proof.
  intros Ho i c _ Hc. specialize (Ho i c Hc). unfold miter_cell in Ho. apply andb_true_iff in Ho as [Hcnf Ho].
  rewrite forallb_forall in Ho. split.
  - intros l Hl. apply list_elem_of_In in Hl. by apply Nat.eqb_eq, Ho.
  - unfold cnf_cell in Hcnf. destruct (type c) as [|sym|]; [done| |done]. 
    destruct sym; try done; cbn in Hcnf; [by left|by right; left|right; right..]; cbn [cell_fun].
    + apply Nat.eqb_eq in Hcnf as ->. by eexists.
    + apply Nat.eqb_eq in Hcnf as ->. by eexists.
    + apply Nat.eqb_eq in Hcnf as ->. by eexists.
    + destruct (arity c); [done|by eexists].
    + destruct (arity c); [done|by eexists].
    + destruct (arity c); [done|by eexists].
    + rewrite orb_true_iff, !Nat.eqb_eq in Hcnf. destruct Hcnf as [-> | ->]; by eexists.
Qed.

Lemma made_cnf b o s : only miter_cell b → made b o s → cnf_subnet s = true.
Proof.
  intros Ho Hm. unfold cnf_subnet. apply forallb_forall. intros e He. apply list_elem_of_In, list_elem_of_lookup in He as [k Hk].
  destruct e as [c'| |]; [|done..]. pose proof (lookup_lt_Some _ _ _ Hk) as Hlt. change (k < Net.size s) in Hlt.
  rewrite (md_size _ _ _ Hm) in Hlt. destruct (lookup_lt_is_Some_2 o k Hlt) as [i Hi].
  destruct (md_cells _ _ _ Hm k i Hi) as (c & c'' & Hc & Hc'' & (E1 & E2 & _) & _).
  assert (c'' = c') as -> by (unfold Net.getCell in Hc''; rewrite Hk in Hc''; by injection Hc'').
  specialize (Ho i c Hc). unfold miter_cell in Ho. apply andb_true_iff in Ho as [Ho _].
  unfold cnf_cell in *. by rewrite E1, E2.
Qed.

(** What [make] gives for a finished builder of such cells. *)
Lemma finished_made n f r b : finished n f r b → only miter_cell b →
  ∃ s, make false b = Some s ∧ sn_wf s = true ∧ cnf_subnet s = true ∧ implements s n f ∧ sn_nOut s = b_nOut b.
Proof.
  intros (ins & outs & ls & [segs HW] & [_ (_ & He & Hf)] & <- & Hne & HF & Hv) Ho.
  specialize (He eq_refl).
  destruct (make_made b ins outs segs HW Hf He Hne) as (s & Hs & Hm). exists s. split; [done|].
  destruct (make_implements b ins outs ls f (ex_intro _ segs HW) He Hf Hne HF Hv) as (s' & Hs' & Hi & _).
  assert (s' = s) as -> by congruence.
  split_all; [|by eapply made_cnf|done|by destruct (md_nums _ _ _ Hm) as (_ & ? & _)].
  apply (made_wf b ins outs segs s HW); [by apply only_combinational|done].
Qed.
End Made.

(** Equal lists of booleans do not differ anywhere. *)
Lemma differ_false xs : ∀ ys, length xs = length ys → existsb id (zip_with xorb xs ys) = false ↔ xs = ys.
Proof.
  induction xs as [|x xs IH]; intros [|y ys] E; try done. cbn [zip_with existsb id].
  rewrite orb_false_iff, IH by (cbn in E; lia). split.
  - intros [Hx ->]. by destruct x, y.
  - intros [= -> ->]. by destruct y.
Qed.

Section Theorems.
Context `{TypeStore, SubnetStore} `{SolverLaws}.

(** C15 The encoder: for a well-formed subnet of inputs, outputs, constants,
    buffers, AND, OR, XOR of any arity and MAJ of one or three links, [encode]
    ends; an assignment that satisfies the solver gives all the cells the values of
    the evaluation of the subnet on the inputs that it encodes; and for every
    input vector, every model of the solver before extends to such an
    assignment.  (A variable stands for the negation of its cell.) *)
Theorem encode_correct depth s g : sn_wf s = true → cnf_subnet s = true → bounded g →
  ∃ c, encode depth s (Ctx.make s g) = Some ((), c) ∧
    (∀ α, satisfies α (solver c) → satisfies α g ∧ ∀ k d, Net.getCell s k = Some d →
      c_val c α k 0 = sn_val s (in_values (c_val c α) s) k 0) ∧
    (∀ α xs, satisfies α g → length xs = sn_nIn s → ∃ α', agree (nVars g) α α' ∧ satisfies α' (solver c) ∧
      ∀ k d, Net.getCell s k = Some d → c_val c α' k 0 = sn_val s xs k 0).
Proof.
  intros Hw Hc Hb. destruct (encode_spec depth s g Hw Hc Hb) as (c & E & [_ _ _ Hs Hcm]). by exists c.
Qed.

(** C17 The satisfiability check: for a single-output subnet, [isSat] says EQUAL
    exactly if the output is false on all the inputs; otherwise it says NOTEQUAL,
    and the counterexample that it gives is the negation of an input vector on
    which the output is true. *)
Theorem isSat_correct depth s : sn_wf s = true → cnf_subnet s = true → sn_nOut s = 1 →
  ∃ r, isSat depth s = Some r ∧
    ((status r = EQUAL ∧ ∀ xs, length xs = sn_nIn s → sn_function s xs = Some [false]) ∨
     (status r = NOTEQUAL ∧ ∃ xs, length xs = sn_nIn s ∧ sn_function s xs = Some [true] ∧ counterEx r = negb <$> xs)).
Proof. apply isSat_spec. Qed.

(** C4 The equivalence check: for two well-formed subnets of the supported
    gates with cells of at most three links, the same numbers of inputs and of
    outputs and at most [2 ^ 16] entries, [areEquivalent] ends and says EQUAL if
    the subnets compute the same function; otherwise it says NOTEQUAL, and the
    functions differ on the negation of the counterexample. *)
Theorem areEquivalent_correct depth s1 s2 : sn_wf s1 = true → cnf_subnet s1 = true → copyable s1 = true →
  sn_wf s2 = true → cnf_subnet s2 = true → copyable s2 = true →
  sn_nIn s2 = sn_nIn s1 → sn_nOut s2 = sn_nOut s1 → 0 < sn_nOut s1 →
  ∃ r, areEquivalent depth s1 s2 = Some r ∧
    ((status r = EQUAL ∧ ∀ xs, length xs = sn_nIn s1 → sn_function s1 xs = sn_function s2 xs) ∨
     (status r = NOTEQUAL ∧ ∃ xs, length xs = sn_nIn s1 ∧ sn_function s1 xs ≠ sn_function s2 xs ∧
        counterEx r = negb <$> xs)).
Proof.
  intros Hw1 Hc1 Hp1 Hw2 Hc2 Hp2 Hin Hout Hpos.
  destruct (makeMiter_spec s1 s2 Hw1 Hc1 Hp1 Hw2 Hc2 Hp2 Hin Hout Hpos) as ([] & b & E & [Hf Ho1] & Hb).
  destruct (finished_made _ _ _ b Hf Hb) as (s & Hs & Hw & Hc & Hi & Hn). rewrite Ho1 in Hn.
  apply (implements_eval s _ _ Hw) in Hi as [Hni Hi].
  destruct (isSat_spec depth s Hw Hc Hn) as (r & Hr & Hres). exists r. split.
  { unfold areEquivalent, makeDefaultMapping. rewrite bool_decide_eq_true_2 by done. cbn [mbind option_bind].
    unfold areEquivalent_mapping. rewrite E. cbn [mbind option_bind]. rewrite Hs. exact Hr. }
  rewrite Hni in Hres. setoid_rewrite (sn_function_outs s1 Hw1). setoid_rewrite (sn_function_outs s2 Hw2).
  assert (∀ xs, differ s1 s2 xs = false ↔ sn_outs s1 xs = sn_outs s2 xs) as Hd.
  { intros xs. apply differ_false. rewrite !sn_outs_length. congruence. }
  destruct Hres as [[Hst Hall]|(Hst & xs & Hxs & Hx & Hce)]; [left|right]; (split; [done|]).
  - intros xs Hxs. f_equal. apply Hd. specialize (Hall xs Hxs). rewrite Hi in Hall by done. by injection Hall.
  - exists xs. split_all; [done| |done]. rewrite Hi in Hx by done. injection Hx as Hx. intros [= E'].
    apply Hd in E'. congruence.
Qed.

(** C16 The verifier: in every state that a client reaches by making properties
    (a link equals a value or another link) and checking them, the checks of a
    property end; [checkAlways] says whether it has the asked value on all the
    inputs, [checkEventually] whether it has it on some. *)
Theorem verifier_correct depth s c ps p F inv : sn_wf s = true → cnf_subnet s = true →
  verifier_state depth s c ps → (p, F) ∈ ps →
  (∃ r c', Verifier.checkAlways p inv c = Some (r, c') ∧
    (r = true ↔ ∀ xs, length xs = sn_nIn s → F (sn_val s xs) = negb inv)) ∧
  (∃ r c', Verifier.checkEventually p inv c = Some (r, c') ∧
    (r = true ↔ ∃ xs, length xs = sn_nIn s ∧ F (sn_val s xs) = negb inv)).
Proof.
  intros Hw Hc Hv Hp. pose proof (verifier_invariant s Hw Hc depth c ps Hv) as Hinv.
  destruct (vf_props _ _ _ Hinv p F Hp) as [_ (f & Hf & _) _ _ _]. split.
  - eexists _, _. split; [by apply checkAlways_run|]. rewrite negb_true_iff, bool_decide_eq_false.
    rewrite (property_possible s Hw c ps p F _ f Hinv Hp Hf). rewrite negb_involutive. split.
    + intros Hn xs Hxs. destruct (F (sn_val s xs)) eqn:Ef, inv; try done; exfalso; apply Hn; by exists xs.
    + intros Hall (xs & Hxs & Ex). rewrite (Hall xs Hxs) in Ex. by destruct inv.
  - eexists _, _. split; [by apply checkEventually_run|]. rewrite bool_decide_eq_true.
    apply (property_possible s Hw c ps p F _ f Hinv Hp Hf).
Qed.
End Theorems.

(** ** Witnesses and closed runs *)

Section Witnesses.
#[local] Existing Instance no_types.
#[local] Instance no_subnets : SubnetStore := λ _, None.
#[local] Existing Instance brute_solver.
#[local] Existing Instance brute_laws.

(** A disjunction by De Morgan, and by the gate. *)
Definition or_subnet (by_and : bool) : Subnet :=
  let cell t ls := ECell (mkCell (length ls) 0 1 (GateID t) (pad3 ls)) in
  let l := LinkTo in
  mkSubnet 2 1 4 0
    [cell IN []; cell IN [];
     (if by_and then cell AND [link_not (l 0); link_not (l 1)] else cell OR [l 0; l 1]);
     cell OUT [SubnetLink 2 0 by_and]].

Lemma encode_correct_witness : ∃ c, encode 0 nand_subnet (Ctx.make nand_subnet empty_solver) = Some ((), c) ∧
  (∀ α, satisfies α (solver c) → satisfies α empty_solver ∧ ∀ k d, Net.getCell nand_subnet k = Some d →
    c_val c α k 0 = sn_val nand_subnet (in_values (c_val c α) nand_subnet) k 0) ∧
  (∀ α xs, satisfies α empty_solver → length xs = sn_nIn nand_subnet → ∃ α', agree 0 α α' ∧ satisfies α' (solver c) ∧
    ∀ k d, Net.getCell nand_subnet k = Some d → c_val c α' k 0 = sn_val nand_subnet xs k 0).
Proof. apply (encode_correct 0 nand_subnet empty_solver); [reflexivity|reflexivity|constructor]. Defined.

Lemma isSat_correct_witness : ∃ r, isSat 0 nand_subnet = Some r ∧
  ((status r = EQUAL ∧ ∀ xs, length xs = 2 → sn_function nand_subnet xs = Some [false]) ∨
   (status r = NOTEQUAL ∧ ∃ xs, length xs = 2 ∧ sn_function nand_subnet xs = Some [true] ∧ counterEx r = negb <$> xs)).
Proof. apply (isSat_correct 0 nand_subnet); reflexivity. Defined.

Lemma areEquivalent_correct_witness : ∃ r, areEquivalent 0 (or_subnet true) (or_subnet false) = Some r ∧
  ((status r = EQUAL ∧ ∀ xs, length xs = 2 → sn_function (or_subnet true) xs = sn_function (or_subnet false) xs) ∨
   (status r = NOTEQUAL ∧ ∃ xs, length xs = 2 ∧ sn_function (or_subnet true) xs ≠ sn_function (or_subnet false) xs ∧
      counterEx r = negb <$> xs)).
Proof. apply (areEquivalent_correct 0 (or_subnet true) (or_subnet false)); first [reflexivity | cbn; lia]. Defined.

(** The verifier of the NAND subnet with the property that input 0 is true. *)
Definition nand_verifier : Context := default (Ctx.make nand_subnet empty_solver) (Verifier.make 0 nand_subnet empty_solver).
Definition nand_property : Var * Context :=
  default (0, nand_verifier) (Verifier.makeEqualty_value (LinkTo 0) true nand_verifier).

Lemma verifier_correct_witness :
  (∃ r c', Verifier.checkAlways nand_property.1 false nand_property.2 = Some (r, c') ∧
    (r = true ↔ ∀ xs, length xs = 2 → eqb (lval (sn_val nand_subnet xs) (LinkTo 0)) true = true)) ∧
  (∃ r c', Verifier.checkEventually nand_property.1 false nand_property.2 = Some (r, c') ∧
    (r = true ↔ ∃ xs, length xs = 2 ∧ eqb (lval (sn_val nand_subnet xs) (LinkTo 0)) true = true)).
Proof.
  apply (verifier_correct 0 nand_subnet nand_property.2 [(nand_property.1, λ v, eqb (lval v (LinkTo 0)) true)]
    nand_property.1 (λ v, eqb (lval v (LinkTo 0)) true) false); [reflexivity|reflexivity| |apply list_elem_of_here].
  apply (vs_value 0 nand_subnet nand_verifier [] (LinkTo 0) true nand_property.1 nand_property.2).
  - apply vs_make. vm_compute. reflexivity.
  - split; [reflexivity|]. eexists. reflexivity.
  - vm_compute. reflexivity.
Defined.

(** Two builders that differ in the first output, which is not their last cell. *)
Definition two_outputs (t : CellSymbol) : SubnetBuilder :=
  default empty_builder (snd <$> (x ← addInput; y ← addInput; a ← addGate t [x; y]; addOutput a ;;
    e ← addGate XOR [x; y]; addOutput e) empty_builder).

Definition builders_miter : option Subnet :=
  mapping ← makeDefaultMapping_builders (two_outputs AND) (two_outputs OR);
  '(_, b) ← makeMiter_builders (two_outputs AND) (two_outputs OR) mapping empty_builder;
  make false b.

(** The miter of two builders takes the last entries for the outputs: it is
    false on all the inputs for two builders whose first outputs are a
    conjunction and a disjunction, because the second output comes after the
    cell that it carries. *)
Theorem builders_miter_wrong : ∃ s, builders_miter = Some s ∧
  (∀ x y, sn_function s [x; y] = Some [false]) ∧
  (∃ s1 s2, make false (two_outputs AND) = Some s1 ∧ make false (two_outputs OR) = Some s2 ∧
    sn_function s1 [true; false] ≠ sn_function s2 [true; false]).
Proof.
  eexists. split; [vm_compute; reflexivity|]. split; [intros [] []; vm_compute; reflexivity|].
  eexists _, _. split; [vm_compute; reflexivity|]. split; [vm_compute; reflexivity|]. vm_compute. discriminate.
Qed.
End Witnesses.
