(* ===== verification/Simulator.v ===== *)
(** * The simulator ([simulator/simulator.h], [simulator/simulator.cpp])

    A simulator compiles the cells of a builder to a program and runs it on words
    of 64 bits, one independent input vector per bit.  A word is a number below
    [2 ^ 64].  The state vector holds a word for every output of every cell (one
    for an output cell); [pos] and the data attached to the entries of the
    builder lead to its places.  A shift that C++ leaves undefined is [None]. *)

From stdpp Require Import gmap.
From S2P Require Import Prelude CellType SubnetBase Builder Make Cnf.

(** ** Operations on words *)

(** [~x] on [uint64_t]. *)
Definition not64 (x : N) : N := N.lxor x (N.ones 64).

Section Operations.

(** [value(link)], the value of a link in the state. *)
Context (value : Link → option N).

(* gate/simulator/simulator.h:177-179 [Simulator::opZero] *)
Definition opZero (ls : LinkList) : option N := Some 0%N.

(* gate/simulator/simulator.h:190-192 [Simulator::opOne] *)
Definition opOne (ls : LinkList) : option N := Some (N.ones 64).

(** [value(links[i])]. *)
Definition value_at (ls : LinkList) (i : nat) : option N := l ← ls !! i; value l.

(* gate/simulator/simulator.h:203-205 [Simulator::opBuf] *)
Definition opBuf (ls : LinkList) : option N := value_at ls 0.

(* gate/simulator/simulator.h:216-218 [Simulator::opNot] *)
Definition opNot (ls : LinkList) : option N := x ← value_at ls 0; Some (not64 x).

(* gate/simulator/simulator.h:229-231 [Simulator::opAnd2] *)
Definition opAnd2 (ls : LinkList) : option N :=
  x ← value_at ls 0; y ← value_at ls 1; Some (N.land x y).

(* gate/simulator/simulator.h:233-235 [Simulator::opAnd3] *)
Definition opAnd3 (ls : LinkList) : option N :=
  x ← value_at ls 0; y ← value_at ls 1; z ← value_at ls 2; Some (N.land (N.land x y) z).

(** The loop over the pairs of links and the last link of an odd list. *)
(* gate/simulator/simulator.h:240-246 [Simulator::opAndN] *)
Fixpoint pairs_loop (f : N → N → N) (result : N) (ls : LinkList) : option N :=
  match ls with
  | l1 :: l2 :: ls => x ← value l1; y ← value l2; pairs_loop f (f result (f x y)) ls
  | [l] => x ← value l; Some (f result x)
  | [] => Some result
  end.

(* gate/simulator/simulator.h:237-249 [Simulator::opAndN] *)
Definition opAndN (ls : LinkList) : option N := pairs_loop N.land (N.ones 64) ls.

(* gate/simulator/simulator.h:266-268 [Simulator::opOr2] *)
Definition opOr2 (ls : LinkList) : option N :=
  x ← value_at ls 0; y ← value_at ls 1; Some (N.lor x y).

(* gate/simulator/simulator.h:270-272 [Simulator::opOr3] *)
Definition opOr3 (ls : LinkList) : option N :=
  x ← value_at ls 0; y ← value_at ls 1; z ← value_at ls 2; Some (N.lor (N.lor x y) z).

(* gate/simulator/simulator.h:274-286 [Simulator::opOrN] *)
Definition opOrN (ls : LinkList) : option N := pairs_loop N.lor 0%N ls.

(* gate/simulator/simulator.h:303-305 [Simulator::opXor2] *)
Definition opXor2 (ls : LinkList) : option N :=
  x ← value_at ls 0; y ← value_at ls 1; Some (N.lxor x y).

(* gate/simulator/simulator.h:307-309 [Simulator::opXor3] *)
Definition opXor3 (ls : LinkList) : option N :=
  x ← value_at ls 0; y ← value_at ls 1; z ← value_at ls 2; Some (N.lxor (N.lxor x y) z).

(* gate/simulator/simulator.h:311-323 [Simulator::opXorN] *)
Definition opXorN (ls : LinkList) : option N := pairs_loop N.lxor 0%N ls.

(* gate/simulator/simulator.h:340-342 [Simulator::opNand2] *)
Definition opNand2 (ls : LinkList) : option N :=
  x ← value_at ls 0; y ← value_at ls 1; Some (not64 (N.land x y)).

(* gate/simulator/simulator.h:344-346 [Simulator::opNand3] *)
Definition opNand3 (ls : LinkList) : option N :=
  x ← value_at ls 0; y ← value_at ls 1; z ← value_at ls 2; Some (not64 (N.land (N.land x y) z)).

(* gate/simulator/simulator.h:348-360 [Simulator::opNandN] *)
Definition opNandN (ls : LinkList) : option N :=
  result ← pairs_loop N.land (N.ones 64) ls; Some (not64 result).

(* gate/simulator/simulator.h:377-379 [Simulator::opNor2] *)
Definition opNor2 (ls : LinkList) : option N :=
  x ← value_at ls 0; y ← value_at ls 1; Some (not64 (N.lor x y)).

(* gate/simulator/simulator.h:381-383 [Simulator::opNor3] *)
Definition opNor3 (ls : LinkList) : option N :=
  x ← value_at ls 0; y ← value_at ls 1; z ← value_at ls 2; Some (not64 (N.lor (N.lor x y) z)).

(* gate/simulator/simulator.h:385-397 [Simulator::opNorN] *)
Definition opNorN (ls : LinkList) : option N :=
  result ← pairs_loop N.lor 0%N ls; Some (not64 result).

(* gate/simulator/simulator.h:414-416 [Simulator::opXnor2] *)
Definition opXnor2 (ls : LinkList) : option N :=
  x ← value_at ls 0; y ← value_at ls 1; Some (not64 (N.lxor x y)).

(* gate/simulator/simulator.h:418-420 [Simulator::opXnor3] *)
Definition opXnor3 (ls : LinkList) : option N :=
  x ← value_at ls 0; y ← value_at ls 1; z ← value_at ls 2; Some (not64 (N.lxor (N.lxor x y) z)).

(* gate/simulator/simulator.h:422-434 [Simulator::opXnorN] *)
Definition opXnorN (ls : LinkList) : option N :=
  result ← pairs_loop N.lxor 0%N ls; Some (not64 result).

(* gate/simulator/simulator.h:451-457 [Simulator::opMaj3] *)
Definition opMaj3 (ls : LinkList) : option N :=
  x ← value_at ls 0; y ← value_at ls 1; z ← value_at ls 2;
  Some (N.lor (N.lor (N.land x y) (N.land x z)) (N.land y z)).

(** [(weight > k) << bit], added to a [uint64_t]: the shift is of an [int] of 32
    bits, whose highest bit is extended. *)
(* gate/simulator/simulator.h:480-480 [Simulator::opMajN] *)
Definition shifted_bool (x : bool) (bit : N) : option N :=
  if (bit <? 32)%N then
    Some (if x then (if (bit =? 31)%N then (2 ^ 64 - 2 ^ 31)%N else N.shiftl 1 bit) else 0%N)
  else None.

(** The number of words whose lowest bit is set. *)
(* gate/simulator/simulator.h:468-477 [Simulator::opMajN] *)
Definition weight_of (ws : list N) : N := foldl (λ n w, n + N.land w 1)%N 0%N ws.

(** The loop over the bits from [bit] on; [fuel] bounds the bits left.  The
    words are not shifted by 64 bits. *)
(* gate/simulator/simulator.h:463-481 [Simulator::opMajN] *)
Fixpoint majN_loop (fuel : nat) (ws : list N) (bit result : N) : option N :=
  match fuel with
  | 0 => Some result
  | S fuel =>
    if (bit <? 64)%N then
      let upperBits := (λ w, N.shiftr w bit) <$> ws in
      if forallb (λ w, w =? 0)%N upperBits then Some result
      else
        x ← shifted_bool (N.of_nat (length ws / 2) <? weight_of upperBits)%N bit;
        majN_loop fuel ws (bit + 1) (N.lor result x)
    else None
  end.

(** The last link comes first; the number of links is odd. *)
(* gate/simulator/simulator.h:459-484 [Simulator::opMajN] *)
Definition opMajN (ls : LinkList) : option N :=
  w ← value_at ls (length ls - 1);
  ws ← mapM value (take (length ls / 2 * 2) ls);
  majN_loop 65 (w :: ws) 0 0.

End Operations.

(** ** The functions of the cells *)

(** The function objects of the class. *)
Inductive SimFunction :=
  | fn_word (op : (Link → option N) → LinkList → option N)
  | fn_cell.

(** The operations that take their links as they are. *)
Definition fn_zero := fn_word (λ _, opZero).
Definition fn_one := fn_word (λ _, opOne).

(* gate/simulator/simulator.h:181-184 [Simulator::getZero] *)
Definition getZero (arity : nat) : option SimFunction :=
  if arity =? 0 then Some fn_zero else None.

(* gate/simulator/simulator.h:194-197 [Simulator::getOne] *)
Definition getOne (arity : nat) : option SimFunction :=
  if arity =? 0 then Some fn_one else None.

(* gate/simulator/simulator.h:207-210 [Simulator::getBuf] *)
Definition getBuf (arity : nat) : option SimFunction :=
  if arity =? 1 then Some (fn_word opBuf) else None.

(* gate/simulator/simulator.h:220-223 [Simulator::getNot] *)
Definition getNot (arity : nat) : option SimFunction :=
  if arity =? 1 then Some (fn_word opNot) else None.

(* gate/simulator/simulator.h:251-260 [Simulator::getAnd] *)
Definition getAnd (arity : nat) : option SimFunction :=
  match arity with
  | 0 => None
  | 1 => Some (fn_word opBuf)
  | 2 => Some (fn_word opAnd2)
  | 3 => Some (fn_word opAnd3)
  | _ => Some (fn_word opAndN)
  end.

(* gate/simulator/simulator.h:288-297 [Simulator::getOr] *)
Definition getOr (arity : nat) : option SimFunction :=
  match arity with
  | 0 => None
  | 1 => Some (fn_word opBuf)
  | 2 => Some (fn_word opOr2)
  | 3 => Some (fn_word opOr3)
  | _ => Some (fn_word opOrN)
  end.

(* gate/simulator/simulator.h:325-334 [Simulator::getXor] *)
Definition getXor (arity : nat) : option SimFunction :=
  match arity with
  | 0 => None
  | 1 => Some (fn_word opBuf)
  | 2 => Some (fn_word opXor2)
  | 3 => Some (fn_word opXor3)
  | _ => Some (fn_word opXorN)
  end.

(* gate/simulator/simulator.h:362-371 [Simulator::getNand] *)
Definition getNand (arity : nat) : option SimFunction :=
  match arity with
  | 0 => None
  | 1 => Some (fn_word opNot)
  | 2 => Some (fn_word opNand2)
  | 3 => Some (fn_word opNand3)
  | _ => Some (fn_word opNandN)
  end.

(* gate/simulator/simulator.h:399-408 [Simulator::getNor] *)
Definition getNor (arity : nat) : option SimFunction :=
  match arity with
  | 0 => None
  | 1 => Some (fn_word opNot)
  | 2 => Some (fn_word opNor2)
  | 3 => Some (fn_word opNor3)
  | _ => Some (fn_word opNorN)
  end.

(* gate/simulator/simulator.h:436-445 [Simulator::getXnor] *)
Definition getXnor (arity : nat) : option SimFunction :=
  match arity with
  | 0 => None
  | 1 => Some (fn_word opNot)
  | 2 => Some (fn_word opXnor2)
  | 3 => Some (fn_word opXnor3)
  | _ => Some (fn_word opXnorN)
  end.

(* gate/simulator/simulator.h:486-494 [Simulator::getMaj] *)
Definition getMaj (arity : nat) : option SimFunction :=
  if Nat.odd arity then
    match arity with
    | 1 => Some (fn_word opBuf)
    | 3 => Some (fn_word opMaj3)
    | _ => Some (fn_word opMajN)
    end
  else None.

(** ** The state *)

(** [op(entryID, links)]. *)
(* gate/simulator/simulator.h:150-158 [Simulator::Command] *)
Record Command := mkCommand {
  op : SimFunction;
  entryID : nat;
  cmd_links : LinkList;
}.

(** The builder of the subnet, the data that its entries carry (the simulator
    writes them), the inputs and outputs of the view. *)
(* gate/simulator/simulator.h:163-171 [Simulator] *)
Record Simulator := mkSimulator {
  program : list Command;
  state : list N;
  pos : list nat;
  sim_builder : SubnetBuilder;
  sim_data : gmap nat nat;
  inputs : LinkList;
  outputs : LinkList;
}.

Definition set_state (x : list N) (s : Simulator) : Simulator :=
  mkSimulator (program s) x (pos s) (sim_builder s) (sim_data s) (inputs s) (outputs s).
Definition set_pos (x : list nat) (s : Simulator) : Simulator :=
  mkSimulator (program s) (state s) x (sim_builder s) (sim_data s) (inputs s) (outputs s).
Definition set_data (x : gmap nat nat) (s : Simulator) : Simulator :=
  mkSimulator (program s) (state s) (pos s) (sim_builder s) x (inputs s) (outputs s).
Definition set_program (x : list Command) (s : Simulator) : Simulator :=
  mkSimulator x (state s) (pos s) (sim_builder s) (sim_data s) (inputs s) (outputs s).

(** The data of an entry are zero until they are set. *)
(* gate/model/subnet.h:442-447 [SubnetBuilder::getDataVal] *)
Definition getDataVal (s : Simulator) (i : nat) : option nat :=
  if i <? length (desc (sim_builder s)) then Some (default 0 (sim_data s !! i)) else None.

(* gate/model/subnet.h:449-454 [SubnetBuilder::setDataVal] *)
Definition setDataVal (i x : nat) : st Simulator unit := st_update (λ s,
  if i <? length (desc (sim_builder s)) then Some (set_data (<[i := x]> (sim_data s)) s) else None).

(* gate/simulator/simulator.h:142-145 [Simulator::index(EntryID)] *)
Definition index (s : Simulator) (i : nat) : option nat := k ← getDataVal s i; pos s !! k.

(* gate/simulator/simulator.h:138-140 [Simulator::index(Link)] *)
Definition index_link (s : Simulator) (l : Link) : option nat := p ← index s (idx l); Some (p + out l).

(* gate/simulator/simulator.h:122-124 [Simulator::access(Link)] *)
Definition access (s : Simulator) (l : Link) : option N := p ← index_link s l; state s !! p.

(** The assignment to [access(link)]. *)
(* gate/simulator/simulator.h:118-120 [Simulator::access(Link)] *)
Definition assign (l : Link) (x : N) : st Simulator unit := st_update (λ s,
  p ← index_link s l;
  if p <? length (state s) then Some (set_state (<[p := x]> (state s)) s) else None).

(* gate/simulator/simulator.h:134-136 [Simulator::value] *)
Definition value (s : Simulator) (l : Link) : option N :=
  x ← access s l; Some (if inv l then not64 x else x).

(* gate/simulator/simulator.h:104-108 [Simulator::setValue] *)
Definition setValue (i : nat) (x : N) : st Simulator unit := assign (LinkTo i) x.

(* gate/simulator/simulator.h:92-102 [Simulator::getValue] *)
Definition getValue (s : Simulator) (i : nat) : option N := value s (LinkTo i).

(** The index has 16 bits. *)
(* gate/simulator/simulator.h:78-83 [Simulator::setInput] *)
Definition setInput (i : nat) (x : N) : st Simulator unit :=
  l ← st_read (λ s, inputs s !! to_u16 i); setValue (idx l) x.

(* gate/simulator/simulator.h:85-90 [Simulator::getOutput] *)
Definition getOutput (s : Simulator) (i : nat) : option N :=
  l ← outputs s !! to_u16 i; getValue s (idx l).

(** The number of inputs is taken in 16 bits. *)
Definition in_num (s : Simulator) : nat := to_u16 (length (inputs s)).

(* gate/simulator/simulator.h:48-56 [Simulator::setInputs(DataVector)] *)
Definition setInputs (values : list N) : st Simulator unit :=
  nIn ← st_gets in_num;
  st_assert (length values =? nIn) ;;
  st_for (seq 0 nIn) (λ i, x ← st_read (λ _, values !! i); setInput i x).

(* gate/simulator/simulator.h:58-66 [Simulator::setInputs(uint64_t)] *)
Definition setInputs_bits (values : N) : st Simulator unit :=
  nIn ← st_gets in_num;
  st_assert (nIn <=? 64) ;;
  st_for (seq 0 nIn) (λ i, setInput i (N.land (N.shiftr values (N.of_nat i)) 1)).

(* gate/simulator/simulator.h:68-76 [Simulator::setInputs(std::vector<bool>)] *)
Definition setInputs_bools (values : list bool) : st Simulator unit :=
  nIn ← st_gets in_num;
  st_assert (length values =? nIn) ;;
  st_for (seq 0 nIn) (λ i, x ← st_read (λ _, values !! i); setInput i (N.b2n x)).

(** ** Construction *)

Section Compile.
Context `{TypeStore, SubnetStore}.

(** The number of words of a cell. *)
Definition cell_words (c : Cell) : option nat :=
  if cell_is OUT c then Some 1 else ty ← getType (type c); Some (N.to_nat (nOut ty)).

(** The loop over the order from [e] on; [fuel] bounds the cells left. *)
(* gate/simulator/simulator.cpp:15-22 [getStateSize] *)
Fixpoint getStateSize_loop (fuel : nat) (b : SubnetBuilder) (e : EntryID) (nBits : nat) : option nat :=
  if decide (e = upperBoundID) then Some nBits
  else
    match fuel, e with
    | S fuel, Idx i =>
      c ← getCell b i;
      n ← cell_words c;
      e ← nextCell b (S (more c)) e;
      getStateSize_loop fuel b e (nBits + n)
    | _, _ => None
    end.

(* gate/simulator/simulator.cpp:15-22 [getStateSize] *)
Definition getStateSize (b : SubnetBuilder) : option nat :=
  getStateSize_loop (length (entries b)) b (getSubnetBegin b) 0.

(* gate/model/subnetview.cpp:29-34 [SubnetView::SubnetView(builder)] *)
Fixpoint view_inputs (b : SubnetBuilder) (n : nat) (e : EntryID) : option LinkList :=
  match n, e with
  | 0, _ => Some []
  | S n, Idx i =>
    c ← getCell b i;
    if cell_is IN c then e ← getNext b e; ls ← view_inputs b n e; Some (LinkTo i :: ls) else None
  | _, _ => None
  end.

(** From the end on: [acc] holds the outputs found. *)
(* gate/model/subnetview.cpp:36-41 [SubnetView::SubnetView(builder)] *)
Fixpoint view_outputs (b : SubnetBuilder) (n : nat) (e : EntryID) (acc : LinkList) : option LinkList :=
  match n, e with
  | 0, _ => Some acc
  | S n, Idx i =>
    c ← getCell b i;
    if cell_is OUT c then e ← getPrev b e; view_outputs b n e (LinkTo i :: acc) else None
  | _, _ => None
  end.

(* gate/model/subnetview.cpp:21-42 [SubnetView::SubnetView(builder)] *)
Definition SubnetView (b : SubnetBuilder) : option (LinkList * LinkList) :=
  ins ← view_inputs b (b_nIn b) (getSubnetBegin b);
  last ← getPrev b upperBoundID;
  outs ← view_outputs b (b_nOut b) last [];
  Some (ins, outs).

(** The type of the entry must be implemented by a subnet of its size. *)
(* gate/simulator/simulator.h:519-529 [Simulator::getCell] *)
Definition getCellFunction (ty : CellType) (nIn nOut : nat) : option SimFunction :=
  inner ← getSubnet ty ≫= stored_subnet;
  if (sn_nIn inner =? nIn) && (sn_nOut inner =? nOut) then Some fn_cell else None.

(* gate/simulator/simulator.cpp:51-76 [Simulator::getFunction] *)
Definition getFunction (c : Cell) : option SimFunction :=
  ty ← getType (type c);
  let nIn := arity c in
  match symbol ty with
  | OUT => getBuf nIn
  | ZERO => getZero nIn
  | ONE => getOne nIn
  | BUF => getBuf nIn
  | NOT => getNot nIn
  | AND => getAnd nIn
  | OR => getOr nIn
  | XOR => getXor nIn
  | NAND => getNand nIn
  | NOR => getNor nIn
  | XNOR => getXnor nIn
  | MAJ => getMaj nIn
  | _ => getCellFunction ty nIn (N.to_nat (nOut ty))
  end.

(** [program.emplace_back(op, entryID, getLinks(entryID))]. *)
(* gate/simulator/simulator.cpp:35-38 [Simulator::Simulator] *)
Definition compile_cell (c : Cell) (i : nat) : st Simulator unit :=
  if cell_is IN c then mret ()
  else
    f ← st_read (λ _, getFunction c);
    ls ← st_read (λ s, getLinks (sim_builder s) i);
    st_modify (λ s, set_program (program s ++ [mkCommand f i ls]) s).

(** [k] is the number of the cell, [p] its place in the state. *)
(* gate/simulator/simulator.cpp:30-48 [Simulator::Simulator] *)
Fixpoint compile_loop (fuel : nat) (e : EntryID) (k p : nat) : st Simulator unit :=
  if decide (e = upperBoundID) then mret ()
  else
    match fuel, e with
    | S fuel, Idx i =>
      c ← st_read (λ s, getCell (sim_builder s) i);
      compile_cell c i ;;
      setDataVal i k ;;
      st_update (λ s, if k <? length (pos s) then Some (set_pos (<[k := p]> (pos s)) s) else None) ;;
      n ← st_read (λ _, cell_words c);
      e ← st_read (λ s, nextCell (sim_builder s) (S (more c)) e);
      compile_loop fuel e (S k) (p + n)
    | _, _ => st_fail
    end.

(** [d] are the data that the entries of the builder carry before. *)
(* gate/simulator/simulator.cpp:24-49 [Simulator::Simulator] *)
Definition make_simulator (b : SubnetBuilder) (d : gmap nat nat) : option Simulator :=
  size ← getStateSize b;
  '(ins, outs) ← SubnetView b;
  snd <$> compile_loop (length (entries b)) (getSubnetBegin b) 0 0
    (mkSimulator [] (replicate size 0%N) (replicate (nCell b) 0) b d ins outs).

(** ** Simulation *)

(** A cell that is a subnet is simulated by a simulator of its own, whose
    execution is [run]; the values of the outputs are those of the output links
    of the subnet. *)
(* gate/simulator/simulator.h:500-517 [Simulator::opCell] *)
Definition opCell (run : st Simulator unit) (i : nat) (ls : LinkList) : st Simulator unit :=
  c ← st_read (λ s, getCell (sim_builder s) i);
  sn ← st_read (λ _, ty ← getType (type c); id ← getSubnet ty; stored_subnet id);
  b ← st_read (λ _, snd <$> builder_of_subnet (λ _, 0%N) sn empty_builder);
  inner ← st_read (λ _, make_simulator b ∅);
  vs ← st_read (λ s, mapM (value_at (value s) ls) (seq 0 (sn_nIn sn)));
  inner ← st_read (λ _,
    snd <$> (st_for (zip (seq 0 (sn_nIn sn)) vs) (λ iv, setValue iv.1 iv.2) ;; run) inner);
  st_for (seq 0 (sn_nOut sn)) (λ j,
    x ← st_read (λ _, l ← Net.getOut sn j; value inner l);
    assign (SubnetLink i j false) x).

(* gate/simulator/simulator.h:112-114 [Simulator::simulate] *)
Definition execute (run : st Simulator unit) (cmd : Command) : st Simulator unit :=
  match op cmd with
  | fn_word f => x ← st_read (λ s, f (value s) (cmd_links cmd)); assign (LinkTo (entryID cmd)) x
  | fn_cell => opCell run (entryID cmd) (cmd_links cmd)
  end.

(** [depth] bounds the nesting of the subnets. *)
(* gate/simulator/simulator.h:110-115 [Simulator::simulate] *)
Fixpoint run_program (depth : nat) : st Simulator unit :=
  cmds ← st_gets program;
  st_for cmds (execute (match depth with 0 => st_fail | S d => run_program d end)).

(* gate/simulator/simulator.h:41-46 [Simulator::simulate(values)] *)
Definition simulate (depth : nat) (values : list N) : st Simulator unit :=
  setInputs values ;; run_program depth.

End Compile.
