(* ===== verification/SimOps.v ===== *)
(** * The operations of the simulator

    Every bit of the word that an operation evaluates is the function of the gate
    on the bits of the operands, whatever the number of links.  The majority of
    five or more links is right for words of 31 bits. *)

From stdpp Require Import gmap strings.
From S2P Require Import Prelude CellType SubnetBase Cnf Simulator.

(** ** Definitions *)

(** A value of [uint64_t]. *)
Definition word (x : N) : Prop := (x < 2 ^ 64)%N.

(** The bits of number [k]. *)
Definition bits (k : N) (ws : list N) : list bool := (λ w, N.testbit w k) <$> ws.

(** The links [ls] have the values [ws]. *)
Definition reads (val : Link → option N) (ls : LinkList) (ws : list N) : Prop :=
  Forall2 (λ l w, val l = Some w) ls ws.

(** The result is a word with the bits of the function [g] of the operands. *)
Definition evaluates (g : list bool → bool) (ws : list N) (r : option N) : Prop :=
  ∃ w, r = Some w ∧ word w ∧ ∀ k, (k < 64)%N → N.testbit w k = g (bits k ws).

(** The gates and words for which the operations are right. *)
Definition simulated (s : CellSymbol) (ws : list N) : bool :=
  bool_decide (is_Some (gate_fun s (replicate (length ws) false))) &&
  match s with
  | MAJ => Nat.odd (length ws) && ((length ws <=? 3) || forallb (λ w, w <? 2 ^ 31)%N ws)
  | _ => true
  end.

(** ** Words *)

Lemma word_high x k : word x → (64 ≤ k)%N → N.testbit x k = false.
Proof.
  intros Hx Hk. unfold word in Hx. rewrite <- (N.mod_small x (2 ^ 64)) by done.
  by apply N.mod_pow2_bits_high.
Qed.

Lemma high_small x n : (∀ k, (n ≤ k)%N → N.testbit x k = false) → (x < 2 ^ n)%N.
Proof.
  intros Hx. destruct (decide (x = 0%N)) as [->|Hne]; [apply N.neq_0_lt_0; by apply N.pow_nonzero|].
  apply N.log2_lt_pow2; [lia|]. apply N.nle_gt. intros Hle. pose proof (N.bit_log2 x Hne) as Hb.
  by rewrite Hx in Hb.
Qed.

Lemma high_word x : (∀ k, (64 ≤ k)%N → N.testbit x k = false) → word x.
Proof. apply high_small. Qed.

Lemma ones_bit k : (k < 64)%N → N.testbit (N.ones 64) k = true.
Proof. by apply N.ones_spec_low. Qed.

Lemma not64_bit x k : (k < 64)%N → N.testbit (not64 x) k = negb (N.testbit x k).
Proof. intros Hk. unfold not64. by rewrite N.lxor_spec, ones_bit, xorb_true_r. Qed.

Lemma not64_word x : word x → word (not64 x).
Proof.
  intros Hx. apply high_word. intros k Hk. unfold not64.
  by rewrite N.lxor_spec, (word_high x), N.ones_spec_high by done.
Qed.

Lemma ones_word : word (N.ones 64).
Proof. done. Qed.

Lemma zero_word : word 0.
Proof. done. Qed.

(** An operation on words that works bit by bit. *)
Record bitwise (f : N → N → N) (h : bool → bool → bool) : Prop := {
  bw_bit : ∀ x y k, N.testbit (f x y) k = h (N.testbit x k) (N.testbit y k);
  bw_zero : h false false = false;
  bw_assoc : ∀ x y z, h (h x y) z = h x (h y z);
}.

Lemma bitwise_land : bitwise N.land andb.
Proof. split; [apply N.land_spec|done|by intros [] [] []]. Qed.

Lemma bitwise_lor : bitwise N.lor orb.
Proof. split; [apply N.lor_spec|done|by intros [] [] []]. Qed.

Lemma bitwise_lxor : bitwise N.lxor xorb.
Proof. split; [apply N.lxor_spec|done|by intros [] [] []]. Qed.

#[export] Hint Resolve bitwise_land bitwise_lor bitwise_lxor ones_word zero_word not64_word : core.

Lemma bitwise_word f h x y : bitwise f h → word x → word y → word (f x y).
Proof.
  intros Hf Hx Hy. apply high_word. intros k Hk.
  by rewrite (bw_bit _ _ Hf), (word_high x), (word_high y), (bw_zero _ _ Hf).
Qed.

(** ** The operations *)

Section Ops.
Context (val : Link → option N).

Lemma reads_at ls ws i w : reads val ls ws → ws !! i = Some w → value_at val ls i = Some w.
Proof.
  intros Hr Hw. unfold value_at. destruct (Forall2_lookup_r _ _ _ _ _ Hr Hw) as (l & Hl & E). by rewrite Hl.
Qed.

(** The loop over the pairs folds the operation over all the operands. *)
Lemma pairs_loop_spec f h : bitwise f h → ∀ n ls ws r, length ls ≤ n → reads val ls ws → word r →
  Forall word ws →
  ∃ w, pairs_loop val f r ls = Some w ∧ word w ∧ ∀ k, N.testbit w k = foldl h (N.testbit r k) (bits k ws).
Proof.
  intros Hf. induction n as [|n IH]; intros ls ws r Hn Hr Hwr Hws.
  { destruct ls; [|cbn in Hn; lia]. inversion Hr; subst. by exists r. }
  destruct Hr as [|l1 w1 ls ws E1 Hr]; [by exists r|]. apply Forall_cons_1 in Hws as [Hw1 Hws].
  destruct Hr as [|l2 w2 ls ws E2 Hr]; cbn [pairs_loop]; rewrite E1; cbn [mbind option_bind].
  { exists (f r w1). split_all; [done|by eapply bitwise_word|]. intros k. cbn. apply Hf. }
  apply Forall_cons_1 in Hws as [Hw2 Hws]. rewrite E2. cbn [mbind option_bind].
  destruct (IH ls ws (f r (f w1 w2))) as (w & E & Hw & Hb); [cbn in Hn; lia|done| |done|].
  { eauto using bitwise_word. }
  exists w. split_all; [done|done|]. intros k. rewrite Hb, !(bw_bit _ _ Hf). cbn. by rewrite (bw_assoc _ _ Hf).
Qed.

(** The operation followed by nothing or by a negation. *)
Definition post (p : N → N) (q : bool → bool) : Prop :=
  ∀ x, word x → word (p x) ∧ ∀ k, (k < 64)%N → N.testbit (p x) k = q (N.testbit x k).

Lemma post_id : post id id.
Proof. done. Qed.

Lemma post_not : post not64 negb.
Proof. intros x Hx. split; [auto|]. apply not64_bit. Qed.

Section Fold.
Context (f : N → N → N) (h : bool → bool → bool) (Hf : bitwise f h) (p : N → N) (q : bool → bool) (Hp : post p q).
Context (e : bool) (g : list bool → bool) (He : ∀ x, h e x = x) (Hg : ∀ xs, foldl h e xs = g xs).

Lemma evaluates_post ws w : word w → (∀ k, (k < 64)%N → N.testbit w k = g (bits k ws)) →
  evaluates (λ xs, q (g xs)) ws (Some (p w)).
Proof.
  intros Hw Hb. destruct (Hp w Hw) as [Hw' Hb']. exists (p w). split_all; [done|done|].
  intros k Hk. by rewrite Hb', Hb.
Qed.

Lemma op2_spec ls ws : reads val ls ws → Forall word ws → length ws = 2 →
  evaluates (λ xs, q (g xs)) ws (x ← value_at val ls 0; y ← value_at val ls 1; Some (p (f x y))).
Proof.
  intros Hr Hw. destruct ws as [|w1 [|w2 [|]]]; try done. intros _.
  rewrite (reads_at ls _ 0 w1 Hr), (reads_at ls _ 1 w2 Hr) by done. cbn [mbind option_bind].
  repeat apply Forall_cons_1 in Hw as [? Hw]. apply evaluates_post; [by eapply bitwise_word|].
  intros k _. rewrite <- Hg. cbn. by rewrite He, (bw_bit _ _ Hf).
Qed.

Lemma op3_spec ls ws : reads val ls ws → Forall word ws → length ws = 3 →
  evaluates (λ xs, q (g xs)) ws
    (x ← value_at val ls 0; y ← value_at val ls 1; z ← value_at val ls 2; Some (p (f (f x y) z))).
Proof.
  intros Hr Hw. destruct ws as [|w1 [|w2 [|w3 [|]]]]; try done. intros _.
  rewrite (reads_at ls _ 0 w1 Hr), (reads_at ls _ 1 w2 Hr), (reads_at ls _ 2 w3 Hr) by done.
  cbn [mbind option_bind]. repeat apply Forall_cons_1 in Hw as [? Hw].
  apply evaluates_post; [eapply bitwise_word; [exact Hf|by eapply bitwise_word|done]|].
  intros k _. rewrite <- Hg. cbn. by rewrite He, !(bw_bit _ _ Hf).
Qed.

Lemma opN_spec ls ws r : reads val ls ws → Forall word ws → word r →
  (∀ k, (k < 64)%N → N.testbit r k = e) →
  evaluates (λ xs, q (g xs)) ws (x ← pairs_loop val f r ls; Some (p x)).
Proof.
  intros Hr Hw Hwr Hb. destruct (pairs_loop_spec f h Hf (length ls) ls ws r) as (w & -> & Hww & Hbw); [done..|].
  cbn [mbind option_bind]. apply evaluates_post; [done|]. intros k Hk. by rewrite Hbw, Hb, Hg.
Qed.
End Fold.

Lemma foldl_and a xs : foldl andb a xs = a && forallb id xs.
Proof. revert a; induction xs as [|x xs IH]; intros a; cbn; [by rewrite andb_true_r|]. by rewrite IH, andb_assoc. Qed.

Lemma foldl_or a xs : foldl orb a xs = a || existsb id xs.
Proof. revert a; induction xs as [|x xs IH]; intros a; cbn; [by rewrite orb_false_r|]. by rewrite IH, orb_assoc. Qed.

Lemma foldl_xor a xs : foldl xorb a xs = xorb a (xor_list xs).
Proof. revert a; induction xs as [|x xs IH]; intros a; cbn; [by rewrite xorb_false_r|]. by rewrite IH, xorb_assoc. Qed.

(** *** The majority *)

Lemma land_one w : N.land w 1 = N.b2n (N.testbit w 0).
Proof. change 1%N with (N.ones 1). rewrite N.land_ones. by rewrite N.bit0_mod. Qed.

Lemma count_true_cons x xs : count_true (x :: xs) = (if x then 1 else 0) + count_true xs.
Proof. unfold count_true. rewrite filter_cons. by destruct x. Qed.

Lemma weight_of_count ws bit :
  weight_of ((λ w, N.shiftr w bit) <$> ws) = N.of_nat (count_true (bits bit ws)).
Proof.
  unfold weight_of. enough (∀ n, foldl (λ n w, n + N.land w 1)%N n ((λ w, N.shiftr w bit) <$> ws) =
    (n + N.of_nat (count_true (bits bit ws)))%N) as E by by rewrite E.
  induction ws as [|w ws IH]; intros n; [cbn; lia|]. unfold bits. rewrite !fmap_cons, count_true_cons.
  cbn [foldl]. rewrite IH, land_one, N.shiftr_spec', N.add_0_l. unfold bits. destruct (N.testbit w bit); cbn [N.b2n]; lia.
Qed.

(** The majority of the bits of number [k]. *)
Definition maj_bit (ws : list N) (k : N) : bool := length ws / 2 <? count_true (bits k ws).

Lemma maj_bit_zero ws k : Forall (λ w, N.testbit w k = false) ws → maj_bit ws k = false.
Proof.
  intros Hz. unfold maj_bit. apply Nat.ltb_ge. enough (count_true (bits k ws) = 0) by lia.
  unfold count_true. induction Hz as [|w ws Hw _ IH]; [done|]. cbn. by rewrite Hw.
Qed.

Lemma shifted_zero ws bit k : forallb (λ w, w =? 0)%N ((λ w, N.shiftr w bit) <$> ws) = true → (bit ≤ k)%N →
  Forall (λ w, N.testbit w k = false) ws.
Proof.
  rewrite forallb_forall. intros Hz Hk. apply list.Forall_forall. intros w Hw.
  specialize (Hz (N.shiftr w bit)). rewrite N.eqb_eq in Hz.
  rewrite <- (N.sub_add bit k), <- N.shiftr_spec' by done. rewrite Hz; [apply N.bits_0|].
  apply list_elem_of_In, list_elem_of_fmap. by exists w.
Qed.

Lemma shifted_bool_bit x bit : (bit < 31)%N →
  ∃ y, shifted_bool x bit = Some y ∧ ∀ k, N.testbit y k = x && (k =? bit)%N.
Proof.
  intros Hb. unfold shifted_bool. rewrite (proj2 (N.ltb_lt _ _)) by lia. eexists. split; [done|].
  intros k. destruct x; [|apply N.bits_0]. rewrite (proj2 (N.eqb_neq bit 31)) by lia. cbn.
  rewrite N.shiftl_1_l, N.pow2_bits_eqb. apply N.eqb_sym.
Qed.

(** The words are below [2 ^ 31]: the loop ends before the bit 31. *)
Lemma majN_loop_spec ws : Forall (λ w, w < 2 ^ 31)%N ws → ∀ fuel bit result, (31 < bit + N.of_nat fuel)%N →
  (bit ≤ 31)%N → (∀ k, N.testbit result k = (k <? bit)%N && maj_bit ws k) →
  ∃ w, majN_loop fuel ws bit result = Some w ∧ ∀ k, N.testbit w k = maj_bit ws k.
Proof.
  intros Hw. induction fuel as [|fuel IH]; intros bit result Hfuel Hbit Hr; [lia|]. cbn [majN_loop].
  rewrite (proj2 (N.ltb_lt bit 64)) by lia.
  destruct (forallb _ _) eqn:Ez.
  - exists result. split; [done|]. intros k. rewrite Hr. destruct (N.ltb_spec k bit) as [Hk|Hk]; [done|].
    symmetry. by eapply maj_bit_zero, shifted_zero.
  - destruct (decide (bit = 31%N)) as [->|Hne].
    { apply not_true_iff_false in Ez. destruct Ez. apply forallb_forall. intros y Hy.
      apply list_elem_of_In, list_elem_of_fmap in Hy as (w & -> & Hin).
      rewrite list.Forall_forall in Hw. specialize (Hw w Hin). apply N.eqb_eq.
      rewrite N.shiftr_div_pow2. by apply N.div_small. }
    rewrite weight_of_count.
    assert ((N.of_nat (length ws / 2) <? N.of_nat (count_true (bits bit ws)))%N = maj_bit ws bit) as ->.
    { unfold maj_bit. apply eq_true_iff_eq. rewrite N.ltb_lt, Nat.ltb_lt. lia. }
    destruct (shifted_bool_bit (maj_bit ws bit) bit) as (y & -> & Hy); [lia|]. cbn [mbind option_bind].
    apply IH; [lia|lia|]. intros k. rewrite N.lor_spec, Hr, Hy.
    destruct (N.ltb_spec k bit), (N.eqb_spec k bit), (N.ltb_spec k (bit + 1)); subst; try lia;
      cbn; by rewrite ?andb_true_r, ?andb_false_r, ?orb_false_r.
Qed.

Lemma reads_app_inv ls l ws : reads val (ls ++ [l]) ws → ∃ us u, ws = us ++ [u] ∧ reads val ls us ∧ val l = Some u.
Proof.
  intros Hr. apply Forall2_app_inv_l in Hr as (us & us' & Hr & Hl & ->).
  inversion Hl as [|? u ? ? Hu Hnil]; subst. inversion Hnil; subst. by exists us, u.
Qed.

(** The words are read from the last link and the links before it. *)
Lemma opMajN_loop ls ws : reads val ls ws → Nat.odd (length ls) = true →
  ∃ us u, ws = us ++ [u] ∧ opMajN val ls = majN_loop 65 (u :: us) 0 0.
Proof.
  intros Hr Ho. unfold opMajN. destruct ls as [|l ls _] using rev_ind; [done|].
  destruct (reads_app_inv _ _ _ Hr) as (us & u & -> & Hr' & Hu). exists us, u. split; [done|].
  rewrite !length_app in *. cbn [length] in *. apply Nat.odd_spec in Ho as [m Ho].
  replace ((length ls + 1) / 2 * 2) with (length ls).
  2: { rewrite Ho, (Nat.mul_comm 2 m), Nat.div_add_l by done. cbn. lia. }
  unfold value_at. rewrite lookup_app_r, Nat.add_sub, Nat.sub_diag by lia. cbn [lookup list_lookup].
  cbn [head mbind option_bind]. rewrite Hu, take_app_length. cbn [mbind option_bind].
  by rewrite (mapM_Some_2 _ _ _ Hr').
Qed.

Lemma opMajN_spec ls ws : reads val ls ws → Nat.odd (length ws) = true → Forall (λ w, w < 2 ^ 31)%N ws →
  evaluates (λ xs, length xs / 2 <? count_true xs) ws (opMajN val ls).
Proof.
  intros Hr Ho Hw. rewrite <- (Forall2_length Hr) in Ho.
  destruct (opMajN_loop ls ws Hr Ho) as (us & u & -> & ->).
  assert (u :: us ≡ₚ us ++ [u]) as Hperm by apply Permutation_cons_append.
  destruct (majN_loop_spec (u :: us)) with (fuel := 65) (bit := 0%N) (result := 0%N) as (w & E & Hb).
  - by rewrite Hperm.
  - lia.
  - lia.
  - intros k. rewrite N.bits_0. by destruct k.
  - exists w. split; [done|]. assert (∀ k, N.testbit w k = (length (bits k (us ++ [u])) / 2 <? count_true (bits k (us ++ [u])))) as Hb'.
    { intros k. rewrite Hb. unfold maj_bit, bits. rewrite length_fmap, <- Hperm at 1.
      f_equal. apply count_true_perm. by rewrite Hperm. }
    split; [|auto]. apply high_word. intros k Hk. rewrite Hb. apply maj_bit_zero. rewrite Hperm.
    eapply list.Forall_impl; [exact Hw|]. intros x Hx. cbn beta in Hx. apply word_high; [|done]. unfold word. lia.
Qed.

Lemma opMaj3_spec ls ws : reads val ls ws → Forall word ws → length ws = 3 →
  evaluates (λ xs, length xs / 2 <? count_true xs) ws (opMaj3 val ls).
Proof.
  intros Hr Hw. destruct ws as [|x [|y [|z [|]]]]; try done. intros _. unfold opMaj3.
  rewrite (reads_at ls _ 0 x Hr), (reads_at ls _ 1 y Hr), (reads_at ls _ 2 z Hr) by done.
  cbn [mbind option_bind]. repeat apply Forall_cons_1 in Hw as [? Hw].
  eexists. split_all; [done|eauto 8 using bitwise_word|]. intros k _.
  rewrite !N.lor_spec, !N.land_spec. cbn [bits fmap list_fmap].
  by destruct (N.testbit x k), (N.testbit y k), (N.testbit z k).
Qed.

Lemma bind_some_id (r : option N) : (x ← r; Some (id x)) = r.
Proof. by destruct r. Qed.

(** A word operation of one link. *)
Lemma op1_spec p q ls ws : post p q → reads val ls ws → Forall word ws → length ws = 1 →
  evaluates (λ xs, q (default false (head xs))) ws (x ← value_at val ls 0; Some (p x)).
Proof.
  intros Hp Hr Hw. destruct ws as [|x [|]]; try done. intros _. rewrite (reads_at ls _ 0 x Hr) by done.
  apply Forall_cons_1 in Hw as [Hw _]. cbn [mbind option_bind]. destruct (Hp x Hw) as [Hw' Hb].
  exists (p x). split_all; [done|done|]. intros k Hk. by rewrite Hb.
Qed.

Lemma opBuf_spec ls ws : reads val ls ws → Forall word ws → length ws = 1 →
  evaluates (λ xs, default false (head xs)) ws (opBuf val ls).
Proof. intros. unfold opBuf. rewrite <- bind_some_id. by apply (op1_spec id id). Qed.

(** A function object whose operation computes [g]. *)
Definition function_right (ls : LinkList) (ws : list N) (g : list bool → bool) (r : option SimFunction) : Prop :=
  ∃ f, r = Some (fn_word f) ∧ evaluates g ws (f val ls).

(** The operations of a gate that folds an operation over its links. *)
Section Gate.
Context (f : N → N → N) (h : bool → bool → bool) (Hf : bitwise f h) (p : N → N) (q : bool → bool) (Hp : post p q).
Context (e : bool) (g : list bool → bool) (He : ∀ x, h e x = x) (Hg : ∀ xs, foldl h e xs = g xs).
Context (r : N) (Hr : word r) (Hb : ∀ k, (k < 64)%N → N.testbit r k = e).
Context (op1 op2 op3 opN : (Link → option N) → LinkList → option N).
Context (E1 : ∀ ls, op1 val ls = x ← value_at val ls 0; Some (p x))
  (E2 : ∀ ls, op2 val ls = x ← value_at val ls 0; y ← value_at val ls 1; Some (p (f x y)))
  (E3 : ∀ ls, op3 val ls =
    x ← value_at val ls 0; y ← value_at val ls 1; z ← value_at val ls 2; Some (p (f (f x y) z)))
  (EN : ∀ ls, opN val ls = x ← pairs_loop val f r ls; Some (p x)).

Lemma gate_spec ls ws : reads val ls ws → Forall word ws → ws ≠ [] →
  function_right ls ws (λ xs, q (g xs)) (match length ls with 0 => None | 1 => Some (fn_word op1)
    | 2 => Some (fn_word op2) | 3 => Some (fn_word op3) | _ => Some (fn_word opN) end).
Proof.
  intros Hl Hw Hne. pose proof (Forall2_length Hl) as Elen. rewrite Elen.
  destruct (length ws) as [|[|[|[|n]]]] eqn:Ew.
  - by apply nil_length_inv in Ew.
  - exists op1. split; [done|]. rewrite E1. destruct (op1_spec p q ls ws Hp Hl Hw Ew) as (w & E & Hww & Hbw).
    exists w. split_all; [done|done|]. intros k Hk. rewrite Hbw, <- Hg by done.
    destruct ws as [|x [|]]; try done. cbn. by rewrite He.
  - exists op2. split; [done|]. rewrite E2. by eapply op2_spec.
  - exists op3. split; [done|]. rewrite E3. by eapply op3_spec.
  - exists opN. split; [done|]. rewrite EN. by eapply opN_spec.
Qed.
End Gate.

Section Cells.
Context (ls : LinkList) (ws : list N) (Hl : reads val ls ws) (Hw : Forall word ws).

Lemma getAnd_right : ws ≠ [] → function_right ls ws (forallb id) (getAnd (length ls)).
Proof.
  apply (gate_spec N.land andb bitwise_land id id post_id true (forallb id) (λ _, eq_refl) (foldl_and true)
    (N.ones 64) ones_word ones_bit); try done; intros k; [symmetry; apply bind_some_id..].
Qed.

Lemma getOr_right : ws ≠ [] → function_right ls ws (existsb id) (getOr (length ls)).
Proof.
  apply (gate_spec N.lor orb bitwise_lor id id post_id false (existsb id) (λ _, eq_refl) (foldl_or false)
    0%N zero_word (λ k _, N.bits_0 k)); try done; intros k; [symmetry; apply bind_some_id..].
Qed.

Lemma getXor_right : ws ≠ [] → function_right ls ws xor_list (getXor (length ls)).
Proof.
  apply (gate_spec N.lxor xorb bitwise_lxor id id post_id false xor_list xorb_false_l (foldl_xor false)
    0%N zero_word (λ k _, N.bits_0 k)); try done; intros k; [symmetry; apply bind_some_id..].
Qed.

Lemma getNand_right : ws ≠ [] → function_right ls ws (λ xs, negb (forallb id xs)) (getNand (length ls)).
Proof.
  apply (gate_spec N.land andb bitwise_land not64 negb post_not true (forallb id) (λ _, eq_refl) (foldl_and true)
    (N.ones 64) ones_word ones_bit); done.
Qed.

Lemma getNor_right : ws ≠ [] → function_right ls ws (λ xs, negb (existsb id xs)) (getNor (length ls)).
Proof.
  apply (gate_spec N.lor orb bitwise_lor not64 negb post_not false (existsb id) (λ _, eq_refl) (foldl_or false)
    0%N zero_word (λ k _, N.bits_0 k)); done.
Qed.

Lemma getXnor_right : ws ≠ [] → function_right ls ws (λ xs, negb (xor_list xs)) (getXnor (length ls)).
Proof.
  apply (gate_spec N.lxor xorb bitwise_lxor not64 negb post_not false xor_list xorb_false_l (foldl_xor false)
    0%N zero_word (λ k _, N.bits_0 k)); done.
Qed.

Lemma getMaj_right : Nat.odd (length ws) = true → length ws ≤ 3 ∨ Forall (λ w, w < 2 ^ 31)%N ws →
  function_right ls ws (λ xs, length xs / 2 <? count_true xs) (getMaj (length ls)).
Proof.
  intros Ho Hsmall. pose proof (Forall2_length Hl) as Elen. rewrite Elen. unfold getMaj. rewrite Ho.
  destruct (length ws) as [|[|[|[|n]]]] eqn:Ew; try done.
  - exists opBuf. split; [done|]. destruct (opBuf_spec ls ws Hl Hw Ew) as (w & E & Hww & Hb).
    exists w. split_all; [done|done|]. intros k Hk. rewrite Hb by done. destruct ws as [|x [|]]; try done.
    cbn. unfold count_true. by destruct (N.testbit x k).
  - exists opMaj3. split; [done|]. by apply opMaj3_spec.
  - exists opMajN. split; [done|]. apply opMajN_spec; [done|by rewrite Ew|]. destruct Hsmall; [lia|done].
Qed.

Lemma getBuf_right : length ws = 1 → function_right ls ws (λ xs, default false (head xs)) (getBuf (length ls)).
Proof.
  intros E. rewrite (Forall2_length Hl), E. exists opBuf. split; [done|]. by apply opBuf_spec.
Qed.

Lemma getNot_right : length ws = 1 → function_right ls ws (λ xs, negb (default false (head xs))) (getNot (length ls)).
Proof.
  intros E. rewrite (Forall2_length Hl), E. exists opNot. split; [done|]. apply (op1_spec not64 negb); [apply post_not|done..].
Qed.

Lemma getZero_right : ws = [] → function_right ls ws (λ _, false) (getZero (length ls)).
Proof.
  intros ->. rewrite (Forall2_length Hl). exists (λ _, opZero). split; [done|]. exists 0%N. split_all; [done|done|].
  intros k _. apply N.bits_0.
Qed.

Lemma getOne_right : ws = [] → function_right ls ws (λ _, true) (getOne (length ls)).
Proof.
  intros ->. rewrite (Forall2_length Hl). exists (λ _, opOne). split; [done|]. exists (N.ones 64).
  split_all; [done|done|]. intros k. apply ones_bit.
Qed.
End Cells.
End Ops.

(** ** The functions of the cells *)

(** The function of the bits is that of the gate. *)
Lemma evaluates_gate s g ws r : (∀ k, gate_fun s (bits k ws) = Some (g (bits k ws))) → evaluates g ws r →
  ∃ w, r = Some w ∧ word w ∧ ∀ k, (k < 64)%N → gate_fun s (bits k ws) = Some (N.testbit w k).
Proof. intros Hg (w & E & Hw & Hb). exists w. split_all; [done|done|]. intros k Hk. by rewrite Hg, Hb. Qed.

Section Function.
Context `{TypeStore, SubnetStore}.

Lemma simulated_fun s ws : simulated s ws = true → is_Some (gate_fun s (replicate (length ws) false)).
Proof. unfold simulated. rewrite andb_true_iff, bool_decide_eq_true. by intros [? _]. Qed.


Lemma simulated_maj ws : simulated MAJ ws = true →
  Nat.odd (length ws) = true ∧ (length ws ≤ 3 ∨ Forall (λ w, w < 2 ^ 31)%N ws).
Proof.
  unfold simulated. rewrite !andb_true_iff, orb_true_iff, Nat.leb_le, forallb_forall. intros (_ & Ho & Hs).
  split; [done|]. destruct Hs as [Hs|Hs]; [by left|right]. apply list.Forall_forall. intros w Hw.
  apply N.ltb_lt, Hs. by apply list_elem_of_In.
Qed.

(** The function of a gate computes it bit by bit. *)
Lemma getFunction_spec val c s ls ws : type c = GateID s → arity c = length ls → reads val ls ws →
  Forall word ws → simulated s ws = true →
  ∃ f w, getFunction c = Some (fn_word f) ∧ f val ls = Some w ∧ word w ∧
    ∀ k, (k < 64)%N → gate_fun s (bits k ws) = Some (N.testbit w k).
Proof.
  intros Ht Ha Hr Hw Hs. pose proof (simulated_fun s ws Hs) as Hd. unfold getFunction. rewrite Ht, Ha.
  assert (∀ g r, function_right val ls ws g r → (∀ k, gate_fun s (bits k ws) = Some (g (bits k ws))) →
    ∃ f w, r = Some (fn_word f) ∧ f val ls = Some w ∧ word w ∧
      ∀ k, (k < 64)%N → gate_fun s (bits k ws) = Some (N.testbit w k)) as Hg.
  { intros g r (f & E & He) Hgf. destruct (evaluates_gate s g ws _ Hgf He) as (w & ? & ? & ?). by exists f, w. }
  destruct ws as [|w1 [|w2 ws]], s; try (by destruct Hd); cbn [getType getCellType];
    (eapply Hg; [first [eapply getAnd_right|eapply getOr_right|eapply getXor_right|eapply getNand_right
      |eapply getNor_right|eapply getXnor_right|eapply getBuf_right|eapply getNot_right|eapply getZero_right
      |eapply getOne_right|eapply getMaj_right]; try done|]); try (by intros k).
  all: by apply simulated_maj.
Qed.
End Function.

(** ** Wide words *)

Lemma majN_loop_wide ws w : w ∈ ws → (2 ^ 32 ≤ w)%N → ∀ fuel bit result, (bit ≤ 32)%N →
  (32 < bit + N.of_nat fuel)%N → majN_loop fuel ws bit result = None.
Proof.
  intros Hin Hw. induction fuel as [|fuel IH]; intros bit result Hbit Hfuel; [lia|]. cbn [majN_loop].
  rewrite (proj2 (N.ltb_lt bit 64)) by lia.
  assert (forallb (λ w, w =? 0)%N ((λ w, N.shiftr w bit) <$> ws) = false) as ->.
  { apply not_true_iff_false. rewrite forallb_forall. intros Hz. specialize (Hz (N.shiftr w bit)).
    rewrite N.eqb_eq, N.shiftr_div_pow2 in Hz.
    assert (w / 2 ^ bit = 0)%N as E by (apply Hz, list_elem_of_In, list_elem_of_fmap; rewrite <- N.shiftr_div_pow2; eauto).
    apply N.div_small_iff in E; [|by apply N.pow_nonzero].
    pose proof (N.pow_le_mono_r 2 bit 32). lia. }
  unfold shifted_bool. destruct (N.ltb_spec bit 32); [|done]. cbn [mbind option_bind]. apply IH; lia.
Qed.

(** The majority of an odd number of links shifts an [int]: its run is
    undefined as soon as a word has a bit of number 32 or more. *)
Theorem opMajN_wide val ls ws w : reads val ls ws → Nat.odd (length ls) = true → w ∈ ws →
  (2 ^ 32 ≤ w)%N → opMajN val ls = None.
Proof.
  intros Hr Ho Hin Hw. destruct (opMajN_loop val ls ws Hr Ho) as (us & u & -> & ->).
  apply (majN_loop_wide (u :: us) w); [set_solver|done|lia|lia].
Qed.

(** Five links with the value [2 ^ 32]. *)
Lemma opMajN_wide_witness : opMajN (λ _, Some 4294967296%N) (replicate 5 (LinkTo 0)) = None.
Proof.
  apply (opMajN_wide (λ _, Some 4294967296%N) (replicate 5 (LinkTo 0)) (replicate 5 4294967296%N) 4294967296%N).
  - unfold reads. repeat constructor.
  - reflexivity.
  - apply list_elem_of_here.
  - discriminate.
Defined.
