(* ===== verification/SimSpec.v ===== *)
(** * The simulator of a builder

    The simulator compiles the cells of a builder of gates in their order: the
    place of a cell in the state is its place in the order.  Running the program
    gives every cell, in every bit, the value that it has in the valuation of the
    builder with the bits of the inputs. *)

From stdpp Require Import gmap strings.
From S2P Require Import Prelude CellType SubnetBase Builder Order BuilderInv BuilderAdd BuilderEval MakeSpec MakeWf Cnf Simulator SimOps.

(** ** Definitions *)

(** The cells that the simulator runs: inputs, outputs and gates with an odd
    number of links for the majority. *)
Definition sim_cell (c : Cell) : bool :=
  forallb (λ l, out l =? 0) (getInPlaceLinks c) &&
  match type c with
  | GateID IN | GateID OUT => true
  | GateID s => simulated s (replicate (arity c) 0%N)
  | _ => false
  end.

(** The value of an entry: that of the link for an output. *)
Definition entry_value (b : SubnetBuilder) (v : valuation) (i : nat) : bool :=
  match getCell b i with
  | Some c => if cell_is OUT c then default false (lval v <$> head (getInPlaceLinks c)) else v i 0
  | None => false
  end.

(** The entry after the head of the rest [l] of the order. *)
Definition next_id (l : list nat) : EntryID := match l with [] => upperBoundID | i :: _ => Idx i end.

(** The command [cmd] computes the cell [i]. *)
Definition command_of `{TypeStore, SubnetStore} (b : SubnetBuilder) (i : nat) (cmd : Command) : Prop :=
  entryID cmd = i ∧ ∃ c, getCell b i = Some c ∧ getFunction c = Some (op cmd) ∧ cmd_links cmd = getInPlaceLinks c.

Definition no_input (b : SubnetBuilder) (i : nat) : bool := bool_decide (cell_type b i ≠ Some (GateID IN)).

Section Sim.
Context `{TypeStore, SubnetStore}.
Context (b : SubnetBuilder) (ins outs : list nat) (segs : list (list nat)) (HW : WF b ins outs segs).

Let o := order_of segs outs.

Context (Hcells : ∀ i c, i ∈ o → getCell b i = Some c → sim_cell c = true).

(** The state of the construction after the cells [l1]. *)
Record compiled (l1 : list nat) (s0 s : Simulator) : Prop := {
  cp_program : Forall2 (command_of b) (filter (λ i, no_input b i = true) l1) (program s);
  cp_index : ∀ k i, l1 !! k = Some i → sim_data s !! i = Some k ∧ pos s !! k = Some k;
  cp_pos : length (pos s) = length o;
  cp_state : state s = state s0;
  cp_builder : sim_builder s = b;
  cp_view : inputs s = inputs s0 ∧ outputs s = outputs s0;
}.

(** ** The cells *)

Lemma sim_order_cell i : i ∈ o → ∃ c, getCell b i = Some c ∧ cell_ok c ∧ sim_cell c = true.
Proof using HW Hcells.
  intros Hi. destruct (live_cell b ins outs segs i HW Hi) as (c & Hc & Hok). exists c.
  split_all; [done|done|]. by apply (Hcells i).
Qed.

Lemma next_cell l1 i l2 c : o = l1 ++ i :: l2 → getCell b i = Some c → cell_ok c →
  nextCell b (S (more c)) (Idx i) = Some (next_id l2).
Proof using HW Hcells.
  intros Eo Hc (-> & _). pose proof (wf_linked _ _ _ _ HW) as HL. fold o in HL. rewrite Eo in HL.
  cbn [nextCell]. rewrite (getNext_linked _ _ _ _ HL). by destruct l2.
Qed.

Lemma sim_words c : sim_cell c = true → cell_words c = Some 1.
Proof.
  unfold sim_cell, cell_words. rewrite andb_true_iff. intros [_ Ht].
  unfold cell_is. case_bool_decide as Eo; [done|]. destruct (type c) as [|s|]; [done| |done].
  destruct s; try done; apply simulated_fun in Ht; rewrite length_replicate in Ht;
    by destruct (arity c) as [|[|n]], Ht.
Qed.

(** The links of a cell are in place. *)
Lemma sim_links l1 i l2 c : o = l1 ++ i :: l2 → getCell b i = Some c → cell_ok c →
  getLinks b i = Some (getInPlaceLinks c).
Proof using HW Hcells.
  intros Eo Hc Hok. pose proof (wf_linked _ _ _ _ HW) as HL. fold o in HL. rewrite Eo in HL.
  unfold getLinks. rewrite Hc. cbn [mbind option_bind]. rewrite (getNext_linked _ _ _ _ HL).
  cbn [mbind option_bind]. destruct Hok as (_ & Ha & _).
  replace (arity c - InPlaceLinks) with 0 by (unfold InPlaceLinks in *; lia). cbn. by rewrite app_nil_r.
Qed.

Lemma gate_simulated s n ws : simulated s (replicate n 0%N) = true → length ws = n → n ≤ 3 → simulated s ws = true.
Proof.
  unfold simulated. rewrite length_replicate. intros Hs <- Hn. apply andb_true_iff in Hs as [-> Hs].
  destruct s; try done. apply andb_true_iff in Hs as [-> _]. cbn. by rewrite (proj2 (Nat.leb_le _ _) Hn).
Qed.

(** The function of a cell that is no input, on words. *)
Lemma sim_function c val ws : cell_ok c → sim_cell c = true → type c ≠ GateID IN →
  reads val (getInPlaceLinks c) ws → Forall word ws →
  ∃ f w, getFunction c = Some (fn_word f) ∧ f val (getInPlaceLinks c) = Some w ∧ word w ∧
    ∀ k, (k < 64)%N → match type c with
      | GateID OUT => Some (default false (head (bits k ws)))
      | t => cell_fun t (bits k ws) end = Some (N.testbit w k).
Proof.
  intros Hok Hs Hi Hr Hw. pose proof (inputs_length c Hok) as Hlen. pose proof (Forall2_length Hr) as Hl.
  destruct (decide (type c = GateID OUT)) as [Eo|Eo].
  - assert (arity c = 1) as Ha.
    { destruct Hok as (_ & _ & _ & Hv & _). unfold valid_type in Hv. rewrite Eo in Hv. by apply Nat.eqb_eq in Hv. }
    destruct (getBuf_right val (getInPlaceLinks c) ws Hr Hw) as (f & E & w & Ew & Hww & Hb); [lia|].
    exists f, w. unfold getFunction. rewrite Eo. cbn [getType getCellType]. rewrite Ha.
    rewrite Hlen, Ha in E. split_all; [exact E|done|done|]. intros k Hk. by rewrite Hb.
  - unfold sim_cell in Hs. apply andb_true_iff in Hs as [_ Hs]. destruct (type c) as [|s|u] eqn:Et; [done| |done].
    assert (simulated s ws = true) as Hsim.
    { apply (gate_simulated s (arity c)); [by destruct s|lia|apply Hok]. }
    destruct (getFunction_spec val c s (getInPlaceLinks c) ws) as (f & w & E1 & E2 & Hww & Hb); try done.
    exists f, w. split_all; [done..|]. intros k Hk. specialize (Hb k Hk). by destruct s.
Qed.
(** ** The size of the state and the view *)

Lemma order_split_cell l1 i l2 : o = l1 ++ i :: l2 → ∃ c, getCell b i = Some c ∧ cell_ok c ∧ sim_cell c = true ∧
  nextCell b (S (more c)) (Idx i) = Some (next_id l2).
Proof using HW Hcells.
  intros Eo. destruct (sim_order_cell i) as (c & Hc & Hok & Hs); [rewrite Eo; set_solver|].
  exists c. split_all; [done..|]. by eapply next_cell.
Qed.

Lemma order_fuel : length o ≤ length (entries b).
Proof using HW Hcells.
  pose proof (wf_perm _ _ _ _ HW) as Hp. apply Permutation_length in Hp.
  rewrite length_seq, length_app in Hp. unfold o. lia.
Qed.

Lemma state_size_loop l2 : ∀ l1 fuel n, o = l1 ++ l2 → length l2 ≤ fuel →
  getStateSize_loop fuel b (next_id l2) n = Some (n + length l2).
Proof using HW Hcells.
  induction l2 as [|i l2 IH]; intros l1 fuel n Eo Hf; [destruct fuel; cbn; by rewrite Nat.add_0_r|].
  destruct fuel as [|fuel]; [cbn in Hf; lia|]. cbn [getStateSize_loop next_id]. rewrite decide_False by done.
  destruct (order_split_cell l1 i l2 Eo) as (c & Hc & Hok & Hs & Hn). rewrite Hc. cbn [mbind option_bind].
  rewrite (sim_words c Hs). cbn [mbind option_bind]. rewrite Hn. cbn [mbind option_bind].
  rewrite (IH (l1 ++ [i])); [f_equal; cbn; lia|by rewrite <- app_assoc|cbn in Hf; lia].
Qed.

Lemma begin_next : o ≠ [] → getSubnetBegin b = next_id o.
Proof using HW Hcells.
  intros Hne. rewrite (getSubnetBegin_linked _ _ (wf_linked _ _ _ _ HW)). fold o. by destruct o.
Qed.

Lemma state_size : o ≠ [] → getStateSize b = Some (length o).
Proof using HW Hcells.
  intros Hne. unfold getStateSize. rewrite begin_next by done.
  rewrite (state_size_loop o [] _ 0); [done|done|apply order_fuel].
Qed.

Lemma view_inputs_spec l2 xs : ∀ l1, o = l1 ++ xs ++ l2 → (∀ i, i ∈ xs → cell_type b i = Some (GateID IN)) →
  view_inputs b (length xs) (next_id (xs ++ l2)) = Some (LinkTo <$> xs).
Proof using HW Hcells.
  induction xs as [|i xs IH]; intros l1 Eo Hin; [done|]. cbn [view_inputs length next_id app].
  pose proof (Hin i (list_elem_of_here _ _)) as Ht. unfold cell_type in Ht.
  destruct (getCell b i) as [c|] eqn:Hc; [|done]. injection Ht as Ht. cbn [mbind option_bind].
  unfold cell_is. rewrite bool_decide_eq_true_2 by done.
  pose proof (wf_linked _ _ _ _ HW) as HL. fold o in HL. rewrite Eo in HL. cbn [app] in HL.
  rewrite (getNext_linked _ _ _ _ HL). cbn [mbind option_bind].
  change (match xs ++ l2 with [] => upperBoundID | y :: _ => Idx y end) with (next_id (xs ++ l2)).
  rewrite (IH (l1 ++ [i])); [done|by rewrite <- app_assoc|]. intros j Hj. apply Hin. by right.
Qed.

(** The entry before the end of the part [l] of the order. *)
Definition prev_id (l : list nat) : EntryID := match list.last l with None => lowerBoundID | Some i => Idx i end.

Lemma view_outputs_spec xs : ∀ l1 l2 acc, o = l1 ++ xs ++ l2 → (∀ i, i ∈ xs → cell_type b i = Some (GateID OUT)) →
  view_outputs b (length xs) (prev_id (l1 ++ xs)) acc = Some ((LinkTo <$> xs) ++ acc).
Proof using HW Hcells.
  induction xs as [|i xs IH] using rev_ind; intros l1 l2 acc Eo Hout; [done|].
  rewrite length_app, Nat.add_comm, app_assoc. cbn [length Nat.add]. unfold prev_id at 1. rewrite last_snoc.
  cbn [view_outputs]. assert (cell_type b i = Some (GateID OUT)) as Ht by (apply Hout; set_solver).
  unfold cell_type in Ht. destruct (getCell b i) as [c|] eqn:Hc; [|done]. injection Ht as Ht. cbn [mbind option_bind].
  unfold cell_is. rewrite bool_decide_eq_true_2 by done.
  pose proof (wf_linked _ _ _ _ HW) as HL. fold o in HL. rewrite Eo, <- app_assoc, app_assoc in HL. cbn [app] in HL.
  rewrite (getPrev_linked _ _ _ _ HL). cbn [mbind option_bind].
  change (match list.last (l1 ++ xs) with None => lowerBoundID | Some y => Idx y end) with (prev_id (l1 ++ xs)).
  rewrite (IH l1 (i :: l2)); [by rewrite fmap_app, <- app_assoc|by rewrite Eo, <- app_assoc|].
  intros j Hj. apply Hout. set_solver.
Qed.

Lemma view_spec : o ≠ [] → SubnetView b = Some (LinkTo <$> ins, LinkTo <$> outs).
Proof using HW Hcells.
  intros Hne. unfold SubnetView. destruct (wf_nums _ _ _ _ HW) as (-> & -> & _).
  destruct (wf_ins _ _ _ _ HW) as (consts & Es & Hin & _). destruct (head_concat segs) as [rest Er].
  assert (o = ins ++ consts ++ rest ++ outs) as Eo.
  { unfold o, order_of. rewrite Er, Es. by rewrite <- !app_assoc. }
  rewrite begin_next, Eo, (view_inputs_spec _ ins [] Eo Hin) by done. cbn [mbind option_bind].
  assert (getPrev b upperBoundID = Some (prev_id o)) as ->.
  { pose proof (wf_linked _ _ _ _ HW) as HL. fold o in HL. unfold getPrev.
    rewrite (getSubnetBegin_linked _ _ HL), (getSubnetEnd_linked _ _ HL).
    rewrite decide_False by (by destruct o). unfold last_id, prev_id.
    destruct (list.last o) eqn:El; [done|]. by apply last_None in El. }
  cbn [mbind option_bind]. rewrite Eo, app_assoc, app_assoc.
  rewrite (view_outputs_spec outs _ []); [by rewrite app_nil_r| |].
  - by rewrite app_nil_r, Eo, <- !app_assoc.
  - intros i Hi. destruct (wf_outs _ _ _ _ HW i Hi) as (c & Hc & _ & Ht & _). unfold cell_type. by rewrite Hc, <- Ht.
Qed.
(** ** The program *)

Lemma compile_cell_spec l1 i l2 c s0 s : o = l1 ++ i :: l2 → getCell b i = Some c → cell_ok c → sim_cell c = true →
  compiled l1 s0 s → ∃ cmds, compile_cell c i s = Some ((), set_program (program s ++ cmds) s) ∧
    Forall2 (command_of b) (filter (λ i, no_input b i = true) [i]) cmds.
Proof using HW Hcells.
  intros Eo Hc Hok Hs HC. unfold compile_cell.
  assert (no_input b i = negb (cell_is IN c)) as Eni.
  { unfold no_input, cell_type, cell_is. rewrite Hc. cbn. rewrite <- bool_decide_not.
    apply bool_decide_ext. split; [intros Hne E; by rewrite E in Hne|intros Hne [=]; done]. }
  rewrite filter_cons, filter_nil. destruct (cell_is IN c) eqn:Ei.
  - rewrite decide_False by (by rewrite Eni). exists []. rewrite app_nil_r. split; [by destruct s|constructor].
  - rewrite decide_True by (by rewrite Eni).
    assert (type c ≠ GateID IN) as Hin by (intros E; unfold cell_is in Ei; by rewrite bool_decide_eq_true_2 in Ei).
    destruct (sim_function c (λ _, Some 0%N) (replicate (length (getInPlaceLinks c)) 0%N)) as (f & w & E & _);
      [done|done|done| |by apply Forall_replicate|].
    { unfold reads. apply Forall2_same_length_lookup. rewrite length_replicate. split; [done|].
      intros k l x _ Hx. apply lookup_replicate in Hx as [-> _]. done. }
    exists [mkCommand (fn_word f) i (getInPlaceLinks c)]. split.
    + unfold mbind, st_bind, st_read. rewrite E, (cp_builder _ _ _ HC), (sim_links l1 i l2 c Eo Hc Hok). done.
    + constructor; [|constructor]. split; [done|]. exists c. by split_all.
Qed.

Lemma compile_step l1 i l2 c cmds s0 s : o = l1 ++ i :: l2 → getCell b i = Some c → compiled l1 s0 s →
  Forall2 (command_of b) (filter (λ i, no_input b i = true) [i]) cmds →
  compiled (l1 ++ [i]) s0
    (set_pos (<[length l1 := length l1]> (pos s)) (set_data (<[i := length l1]> (sim_data s))
      (set_program (program s ++ cmds) s))).
Proof using HW Hcells.
  intros Eo Hc HC Hcmd. destruct HC as [C1 C2 C3 C4 C5 C6]. split; cbn; try done.
  - rewrite list.filter_app. by apply Forall2_app.
  - intros k j Hj. assert (i ∉ l1) as Hni.
    { pose proof (linked_nodup _ _ (wf_linked _ _ _ _ HW)) as Hnd. fold o in Hnd. rewrite Eo in Hnd.
      by destruct (NoDup_mid_notin _ _ _ Hnd). }
    assert (length l1 < length (pos s)) as Hl by (rewrite C3, Eo, length_app; cbn; lia).
    apply lookup_app_Some in Hj as [Hj|[Hk Hj]].
    + pose proof (list_elem_of_lookup_2 _ _ _ Hj) as Hin. pose proof (lookup_lt_Some _ _ _ Hj).
      rewrite lookup_insert_ne by congruence. rewrite list_lookup_insert_ne by lia. by apply C2.
    + apply list_lookup_singleton_Some in Hj as [Hk0 <-]. assert (k = length l1) as -> by lia.
      rewrite lookup_insert_eq. split; [done|]. by apply list_lookup_insert_eq.
  - by rewrite length_insert.
Qed.

Lemma compile_loop_spec s0 l2 : ∀ l1 fuel s, o = l1 ++ l2 → length l2 ≤ fuel → compiled l1 s0 s →
  ∃ s', compile_loop fuel (next_id l2) (length l1) (length l1) s = Some ((), s') ∧ compiled o s0 s'.
Proof using HW Hcells.
  induction l2 as [|i l2 IH]; intros l1 fuel s Eo Hf HC.
  { exists s. rewrite app_nil_r in Eo. rewrite <- Eo in HC. by destruct fuel. }
  destruct fuel as [|fuel]; [cbn in Hf; lia|]. cbn [compile_loop next_id]. rewrite decide_False by done.
  destruct (order_split_cell l1 i l2 Eo) as (c & Hc & Hok & Hs & Hn).
  destruct (compile_cell_spec l1 i l2 c s0 s Eo Hc Hok Hs HC) as (cmds & Ecmd & Hcmd).
  pose proof (compile_step l1 i l2 c cmds s0 s Eo Hc HC Hcmd) as HC'.
  pose proof (wf_linked _ _ _ _ HW) as HL. fold o in HL.
  assert (i < length (desc b)) as Hi by (rewrite (linked_desc _ _ HL); apply (linked_range _ _ HL); rewrite Eo; set_solver).
  assert (length l1 < length (pos s)) as Hl by (rewrite (cp_pos _ _ _ HC), Eo, length_app; cbn; lia).
  rewrite (bind_eval _ _ s c s) by (unfold st_read; by rewrite (cp_builder _ _ _ HC), Hc).
  rewrite (bind_eval _ _ _ _ _ Ecmd).
  rewrite (bind_eval _ _ _ () (set_data (<[i := length l1]> (sim_data s)) (set_program (program s ++ cmds) s))).
  2: { unfold setDataVal, st_update. cbn [sim_builder set_program]. by rewrite (cp_builder _ _ _ HC), (proj2 (Nat.ltb_lt _ _) Hi). }
  erewrite (bind_eval (st_update _)).
  2: { unfold st_update. cbn [pos set_program set_data]. by rewrite (proj2 (Nat.ltb_lt _ _) Hl). }
  rewrite (bind_eval _ _ _ 1 _) by (unfold st_read; by rewrite (sim_words c Hs)).
  erewrite (bind_eval (st_read _)).
  2: { unfold st_read. cbn [sim_builder set_pos set_data set_program]. by rewrite (cp_builder _ _ _ HC), Hn. }
  destruct (IH (l1 ++ [i]) fuel _ ltac:(by rewrite <- app_assoc) ltac:(cbn in Hf; lia) HC') as (s' & E & HC'').
  exists s'. split; [|done]. rewrite length_app in E. cbn [length] in E. rewrite <- E. f_equal; lia.
Qed.

(** The simulator of the builder. *)
Lemma make_simulator_spec d : o ≠ [] → ∃ s, make_simulator b d = Some s ∧
  compiled o (mkSimulator [] (replicate (length o) 0%N) [] b d (LinkTo <$> ins) (LinkTo <$> outs)) s.
Proof using HW Hcells.
  intros Hne. unfold make_simulator. rewrite state_size, view_spec, begin_next by done. cbn [mbind option_bind].
  destruct (compile_loop_spec (mkSimulator [] (replicate (length o) 0%N) [] b d (LinkTo <$> ins) (LinkTo <$> outs))
    o [] (length (entries b)) (mkSimulator [] (replicate (length o) 0%N) (replicate (nCell b) 0) b d
      (LinkTo <$> ins) (LinkTo <$> outs))) as (s & E & HC); [done|apply order_fuel| |].
  - split; cbn; try done. destruct (wf_nums _ _ _ _ HW) as (_ & _ & -> & _). by rewrite length_replicate.
  - cbn [length] in E. rewrite E. by exists s.
Qed.
End Sim.

(** * Running the simulator

    A run changes the state vector only.  One bit [k] of the words is followed:
    if the inputs have the bits of a valuation of the builder, then after the run
    every cell has them. *)

Lemma set_state_same s : set_state (state s) s = s.
Proof. by destruct s. Qed.

Section Run.
Context `{TypeStore, SubnetStore}.
Context (b : SubnetBuilder) (ins outs : list nat) (segs : list (list nat)) (HW : WF b ins outs segs).

Let o := order_of segs outs.

Context (Hcells : ∀ i c, i ∈ o → getCell b i = Some c → sim_cell c = true).
Context (s0 s : Simulator) (HC : compiled b outs segs o s0 s).
Context (k : N) (Hk : (k < 64)%N) (v : valuation) (Hv : consistent v b).

(** The entry [i] has its value in the state [x]. *)
Definition holds (x : list N) (i : nat) : Prop :=
  ∀ p, o !! p = Some i → ∃ w, x !! p = Some w ∧ word w ∧ N.testbit w k = entry_value b v i.

(** ** Access to the state *)

Lemma index_spec x p i : o !! p = Some i → index (set_state x s) i = Some p.
Proof.
  intros Hp. destruct (cp_index _ _ _ _ _ _ HC p i Hp) as [Hd Hpos].
  pose proof (wf_linked _ _ _ _ HW) as HL. fold o in HL.
  assert (i < length (desc b)) as Hi.
  { rewrite (linked_desc _ _ HL). apply (linked_range _ _ HL). by eapply list_elem_of_lookup_2. }
  unfold index, getDataVal. cbn [sim_builder set_state sim_data pos].
  rewrite (cp_builder _ _ _ _ _ _ HC), (proj2 (Nat.ltb_lt _ _) Hi), Hd. exact Hpos.
Qed.

Lemma access_spec x p i inv : o !! p = Some i → access (set_state x s) (mkLink i 0 inv) = x !! p.
Proof.
  intros Hp. unfold access, index_link. cbn [idx out]. rewrite (index_spec x p i Hp). cbn [mbind option_bind].
  by rewrite Nat.add_0_r.
Qed.

Lemma assign_spec x p i w : o !! p = Some i → length x = length o →
  assign (LinkTo i) w (set_state x s) = Some ((), set_state (<[p := w]> x) s).
Proof.
  intros Hp Hx. unfold assign, st_update, index_link. cbn [idx out LinkTo SubnetLink].
  rewrite (index_spec x p i Hp). cbn [mbind option_bind Nat.modulo Nat.divmod fst Nat.sub]. rewrite Nat.add_0_r.
  cbn [state set_state]. pose proof (lookup_lt_Some _ _ _ Hp) as Hlt. rewrite <- Hx in Hlt.
  by rewrite (proj2 (Nat.ltb_lt _ _) Hlt).
Qed.

Lemma value_spec x l c : out l = 0 → idx l ∈ o → getCell b (idx l) = Some c → type c ≠ GateID OUT →
  holds x (idx l) → ∃ w, value (set_state x s) l = Some w ∧ word w ∧ N.testbit w k = lval v l.
Proof.
  intros Ho Hi Hc Ht Hx. apply list_elem_of_lookup in Hi as [p Hp]. destruct (Hx p Hp) as (w & Hw & Hww & Hb).
  assert (entry_value b v (idx l) = v (idx l) 0) as E.
  { unfold entry_value. rewrite Hc. unfold cell_is. by rewrite bool_decide_eq_false_2 by done. }
  rewrite E in Hb. destruct l as [i q n]. cbn in Ho, Hp, Hb. subst q. unfold value.
  rewrite (access_spec x p i n Hp), Hw. cbn [mbind option_bind inv]. unfold lval. cbn [idx out inv]. destruct n.
  - exists (not64 w). split_all; [done|auto|]. by rewrite not64_bit, Hb, xorb_true_r.
  - exists w. split_all; [done|done|]. by rewrite Hb, xorb_false_r.
Qed.

(** ** One command *)

(** The links of the cell after the cells [l1]. *)
Lemma links_spec x l1 i l2 c : o = l1 ++ i :: l2 → getCell b i = Some c → sim_cell c = true →
  (∀ j, j ∈ l1 → holds x j) →
  ∃ ws, reads (value (set_state x s)) (getInPlaceLinks c) ws ∧ Forall word ws ∧
    bits k ws = lval v <$> getInPlaceLinks c.
Proof.
  intros Eo Hc Hs Hx.
  assert (Forall (λ l, ∃ w, value (set_state x s) l = Some w ∧ word w ∧ N.testbit w k = lval v l)
    (getInPlaceLinks c)) as Hall.
  { apply list.Forall_forall. intros l Hl.
    pose proof (segs_before b ins outs segs l1 i l2 c l HW Eo Hc Hl) as Hb.
    assert (idx l ∈ o) as Hin by (rewrite Eo; set_solver).
    destruct (live_cell b ins outs segs (idx l) HW Hin) as (d & Hd & _).
    apply (value_spec x l d); [|done|done| |by apply Hx].
    - unfold sim_cell in Hs. apply andb_true_iff in Hs as [Hs _]. rewrite forallb_forall in Hs.
      by apply Nat.eqb_eq, Hs, list_elem_of_In.
    - apply (source_no_output b ins outs segs i c l d HW); [|done|done|done]. fold o. rewrite Eo. set_solver. }
  induction (getInPlaceLinks c) as [|l ls IH]; [exists []; split_all; [constructor|constructor|done]|].
  apply Forall_cons_1 in Hall as [(w & E & Hw & Hb) Hall]. destruct (IH Hall) as (ws & Hr & Hws & Hbs).
  exists (w :: ws). split_all; [by constructor|by constructor|]. unfold bits in *. cbn. by rewrite Hb, Hbs.
Qed.
Lemma execute_spec run x l1 i l2 cmd : o = l1 ++ i :: l2 → command_of b i cmd → no_input b i = true →
  length x = length o → (∀ j, j ∈ l1 → holds x j) →
  ∃ w, execute run cmd (set_state x s) = Some ((), set_state (<[length l1 := w]> x) s) ∧
    word w ∧ N.testbit w k = entry_value b v i.
Proof.
  intros Eo (Ei & c & Hc & Hf & Hl) Hni Hx Hh. assert (i ∈ o) as Hi by (rewrite Eo; set_solver).
  destruct (live_cell b ins outs segs i HW Hi) as (c' & Hc' & Hok). assert (c' = c) as -> by congruence.
  pose proof (Hcells i c Hi Hc) as Hs. unfold no_input, cell_type in Hni. rewrite Hc in Hni. cbn in Hni.
  apply bool_decide_eq_true in Hni.
  destruct (links_spec x l1 i l2 c Eo Hc Hs Hh) as (ws & Hr & Hws & Hbits).
  destruct (sim_function c (value (set_state x s)) ws Hok Hs) as (f & w & Ef & Ew & Hww & Hb); [congruence|done|done|].
  exists w. assert (o !! length l1 = Some i) as Hp by (rewrite Eo; by apply list_lookup_middle).
  split_all; [|done|].
  - unfold execute. rewrite Ef in Hf. injection Hf as <-. rewrite Hl, Ei.
    rewrite (bind_eval _ _ _ w (set_state x s)) by (unfold st_read; by rewrite Ew).
    by apply assign_spec.
  - specialize (Hb k Hk). rewrite Hbits in Hb. unfold entry_value. rewrite Hc. unfold cell_is. case_bool_decide as Ht.
    + rewrite Ht in Hb. injection Hb as <-. by destruct (getInPlaceLinks c).
    + symmetry. apply (Hv i c); [by apply (live_order _ _ _ _ _ HW)|done|].
      destruct (type c) as [|[]|]; try done; by rewrite Hb.
Qed.

Lemma holds_insert x l1 i l2 w j : o = l1 ++ i :: l2 → length x = length o → word w →
  N.testbit w k = entry_value b v i → (j = i ∨ holds x j) → holds (<[length l1 := w]> x) j.
Proof.
  intros Eo Hx Hww Hb Hj p Hp. pose proof (linked_nodup _ _ (wf_linked _ _ _ _ HW)) as Hnd. fold o in Hnd.
  assert (o !! length l1 = Some i) as Hi by (rewrite Eo; by apply list_lookup_middle).
  pose proof (lookup_lt_Some _ _ _ Hi) as Hlt. destruct (decide (p = length l1)) as [->|Hne].
  - assert (j = i) as -> by congruence. exists w. split_all; [|done|done]. apply list_lookup_insert_eq. lia.
  - rewrite list_lookup_insert_ne by done. destruct Hj as [->|Hj]; [|by apply Hj].
    destruct Hne. by eapply NoDup_lookup.
Qed.

(** ** The program *)

Lemma run_commands run l2 : ∀ l1 x cmds, o = l1 ++ l2 → length x = length o →
  (∀ j, j ∈ o → j ∈ l1 ∨ no_input b j = false → holds x j) →
  Forall2 (command_of b) (filter (λ i, no_input b i = true) l2) cmds →
  ∃ x', st_for cmds (execute run) (set_state x s) = Some ((), set_state x' s) ∧ length x' = length o ∧
    ∀ j, j ∈ o → holds x' j.
Proof.
  induction l2 as [|i l2 IH]; intros l1 x cmds Eo Hx Hh Hc.
  { inversion Hc; subst. exists x. split_all; [done|done|]. intros j Hj. apply Hh; [done|].
    rewrite app_nil_r in Eo. left. by rewrite <- Eo. }
  rewrite filter_cons in Hc. destruct (decide (no_input b i = true)) as [Hni|Hni].
  - destruct cmds as [|cmd cmds]; [by inversion Hc|]. apply Forall2_cons_1 in Hc as [Hcmd Hc].
    destruct (execute_spec run x l1 i l2 cmd Eo Hcmd Hni Hx) as (w & E & Hww & Hb).
    { intros j Hj. apply Hh; [rewrite Eo; set_solver|by left]. }
    destruct (IH (l1 ++ [i]) (<[length l1 := w]> x) cmds) as (x' & E' & Hx' & Hh').
    + by rewrite <- app_assoc.
    + by rewrite length_insert.
    + intros j Hj Hor. eapply holds_insert; [done..|]. destruct (decide (j = i)); [by left|right].
      apply Hh; [done|]. set_solver.
    + done.
    + exists x'. split_all; [|done|done]. cbn [st_for]. by rewrite (bind_eval _ _ _ _ _ E).
  - apply (IH (l1 ++ [i])); [by rewrite <- app_assoc|done| |done]. intros j Hj [Hin|Hin]; [|by apply Hh; [|right]].
    apply elem_of_app in Hin as [Hin|Hin]; [by apply Hh; [|left]|]. apply list_elem_of_singleton in Hin as ->.
    apply Hh; [done|right]. by apply not_true_is_false.
Qed.

Lemma program_spec depth x : length x = length o → (∀ j, j ∈ o → no_input b j = false → holds x j) →
  ∃ x', run_program depth (set_state x s) = Some ((), set_state x' s) ∧ length x' = length o ∧
    ∀ j, j ∈ o → holds x' j.
Proof.
  intros Hx Hh.
  destruct (run_commands (match depth with 0 => st_fail | S d => run_program d end) o [] x (program s))
    as (x' & E & Hx' & Hh'); [done|done| |apply HC|].
  - intros j Hj [Hin|Hin]; [set_solver|by apply Hh].
  - exists x'. split_all; [|done|done]. rewrite <- E. by destruct depth.
Qed.
(** ** The inputs *)

(** The bits of the inputs are those of the words. *)
Definition input_bits (values : list N) : Prop :=
  ∀ j i x, ins !! j = Some i → values !! j = Some x → v i 0 = N.testbit x k.

Lemma setInput_spec x j i w : ins !! j = Some i → (N.of_nat (length ins) ≤ 2 ^ 16)%N → inputs s0 = LinkTo <$> ins → length x = length o →
  setInput j w (set_state x s) = Some ((), set_state (<[j := w]> x) s).
Proof.
  intros Hj Hsmall Hin Hx. pose proof (lookup_lt_Some _ _ _ Hj) as Hlt. unfold setInput.
  destruct (ins_first b ins outs segs HW j Hlt) as (i' & c & Ho & _ & _ & _ & Hj'). fold o in Ho.
  assert (i' = i) as -> by congruence.
  rewrite (bind_eval _ _ _ (LinkTo i) (set_state x s)).
  - unfold setValue. cbn [idx LinkTo SubnetLink]. by apply assign_spec.
  - unfold st_read. cbn [inputs set_state]. destruct (cp_view _ _ _ _ _ _ HC) as [-> _].
    by rewrite Hin, to_u16_small, list_lookup_fmap, Hj by lia.
Qed.

Lemma setInputs_loop values n : n ≤ length ins → length values = length ins → (N.of_nat (length ins) ≤ 2 ^ 16)%N →
  inputs s0 = LinkTo <$> ins → ∀ x, length x = length o →
  ∃ x', st_for (seq 0 n) (λ i, w ← st_read (λ _, values !! i); setInput i w) (set_state x s) =
      Some ((), set_state x' s) ∧ length x' = length o ∧ ∀ j, j < n → x' !! j = values !! j.
Proof.
  intros Hn Hl Hsmall Hin x Hx. induction n as [|n IH]; [exists x; split_all; [done|done|lia]|].
  destruct IH as (x' & E & Hx' & Hj); [lia|]. rewrite seq_S, st_for_app, (bind_eval _ _ _ _ _ E). cbn [Nat.add].
  destruct (lookup_lt_is_Some_2 values n) as [w Hw]; [lia|]. destruct (lookup_lt_is_Some_2 ins n) as [i Hi]; [lia|].
  exists (<[n := w]> x'). split_all.
  - cbn [st_for]. erewrite (bind_eval _ _ _ () _); [done|].
    rewrite (bind_eval _ _ _ w (set_state x' s)) by (unfold st_read; by rewrite Hw). by eapply setInput_spec.
  - by rewrite length_insert.
  - assert (length ins ≤ length o) as Hio.
    { destruct (lookup_lt_is_Some_2 ins n) as [? _]; [lia|]. unfold o, order_of. rewrite length_app.
      destruct (wf_ins _ _ _ _ HW) as (cs & Ei & _). destruct (head_concat segs) as [r ->].
      rewrite Ei, !length_app. lia. }
    intros j Hlt. destruct (decide (j = n)) as [->|Hne].
    + rewrite list_lookup_insert_eq by lia. done.
    + rewrite list_lookup_insert_ne by done. apply Hj. lia.
Qed.

Lemma setInputs_spec values x : length values = length ins → (N.of_nat (length ins) < 2 ^ 16)%N →
  inputs s0 = LinkTo <$> ins → length x = length o →
  ∃ x', setInputs values (set_state x s) = Some ((), set_state x' s) ∧ length x' = length o ∧
    ∀ j, j < length ins → x' !! j = values !! j.
Proof.
  intros Hl Hsmall Hin Hx. destruct (setInputs_loop values (length ins)) with (x := x) as (x' & E & Hx' & Hj); try done; [lia|].
  exists x'. split_all; [|done|done]. unfold setInputs.
  rewrite (bind_eval _ _ _ (length ins) (set_state x s)).
  - rewrite (bind_eval _ _ _ () (set_state x s)) by (unfold st_assert; by rewrite Hl, Nat.eqb_refl). exact E.
  - unfold st_gets, in_num. cbn [inputs set_state]. destruct (cp_view _ _ _ _ _ _ HC) as [-> _].
    by rewrite Hin, length_fmap, to_u16_small.
Qed.

(** ** The simulation *)

Lemma simulate_spec depth values x : length values = length ins → (N.of_nat (length ins) < 2 ^ 16)%N →
  inputs s0 = LinkTo <$> ins → length x = length o → Forall word values → input_bits values →
  ∃ x', simulate depth values (set_state x s) = Some ((), set_state x' s) ∧ length x' = length o ∧
    ∀ j, j ∈ o → holds x' j.
Proof.
  intros Hl Hsmall Hin Hx Hw Hb. destruct (setInputs_spec values x Hl Hsmall Hin Hx) as (x1 & E1 & Hx1 & Hj1).
  destruct (program_spec depth x1 Hx1) as (x2 & E2 & Hx2 & Hh2).
  - intros j Hj Hni p Hp. destruct (live_cell b ins outs segs j HW Hj) as (c & Hc & _).
    unfold no_input, cell_type in Hni. rewrite Hc in Hni. apply bool_decide_eq_false, dec_stable in Hni.
    injection Hni as Ht. pose proof (input_place b ins outs segs HW p j c Hp Hc Ht) as Hlt.
    destruct (ins_first b ins outs segs HW p Hlt) as (j' & _ & Hp' & _ & _ & _ & Hins).
    assert (j' = j) as -> by (fold o in Hp'; congruence).
    destruct (lookup_lt_is_Some_2 values p) as [w Hw']; [lia|]. exists w. rewrite Hj1 by done. split_all; [done| |].
    + rewrite list.Forall_forall in Hw. apply Hw. by eapply list_elem_of_lookup_2.
    + rewrite <- (Hb p j w Hins Hw'). unfold entry_value. rewrite Hc. unfold cell_is.
      rewrite bool_decide_eq_false_2 by (by rewrite Ht). done.
  - exists x2. split_all; [|done|done]. unfold simulate. by rewrite (bind_eval _ _ _ _ _ E1).
Qed.

Lemma getValue_spec x i : i ∈ o → holds x i → ∃ w, getValue (set_state x s) i = Some w ∧ word w ∧
  N.testbit w k = entry_value b v i.
Proof.
  intros Hi Hx. apply list_elem_of_lookup in Hi as [p Hp]. destruct (Hx p Hp) as (w & Hw & Hww & Hb).
  exists w. split_all; [|done|done]. unfold getValue. change (LinkTo i) with (mkLink i 0 false).
  unfold value. by rewrite (access_spec x p i false Hp), Hw.
Qed.
End Run.

(** ** The simulators of a builder *)

Section Simulators.
Context `{TypeStore, SubnetStore}.
Context (b : SubnetBuilder) (ins outs : list nat) (segs : list (list nat)) (HW : WF b ins outs segs).

Let o := order_of segs outs.

Context (Hcells : ∀ i c, i ∈ o → getCell b i = Some c → sim_cell c = true).
Context (Hsmall : (N.of_nat (length ins) < 2 ^ 16)%N).

(** A simulator of [b], after any runs. *)
Definition simulator_of (s : Simulator) : Prop :=
  ∃ s0 s1 x, compiled b outs segs o s0 s1 ∧ s = set_state x s1 ∧ length x = length o ∧
    inputs s0 = LinkTo <$> ins ∧ outputs s0 = LinkTo <$> outs.

(** The simulator has simulated the words [values]. *)
Definition simulated_on (values : list N) (s : Simulator) : Prop :=
  ∀ k v, (k < 64)%N → consistent v b → input_bits ins k v values →
    ∀ i, i ∈ o → ∃ w, getValue s i = Some w ∧ word w ∧ N.testbit w k = entry_value b v i.

Lemma simulator_made d : o ≠ [] → ∃ s, make_simulator b d = Some s ∧ simulator_of s.
Proof.
  intros Hne. destruct (make_simulator_spec b ins outs segs HW Hcells d Hne) as (s & E & HC). exists s. split; [done|].
  eexists _, s, (state s). split_all; [exact HC|by rewrite set_state_same| |done|done].
  rewrite (cp_state _ _ _ _ _ _ HC). cbn. by rewrite length_replicate.
Qed.

(** The valuation with the bits [k] of the words. *)
Definition word_values (values : list N) (k : N) : valuation :=
  eval b o (λ i _, N.testbit (default 0%N (values !! place ins i)) k).

Lemma word_values_bits values k : input_bits ins k (word_values values k) values.
Proof.
  intros j i x Hi Hx. unfold word_values. destruct (ins_first b ins outs segs HW j) as (i' & c & Ho & Hc & Ht & _ & Hi').
  { by eapply lookup_lt_Some. }
  assert (i' = i) as -> by congruence. rewrite (eval_free b ins outs segs); [|exact HW|done|].
  - by rewrite (place_at ins j i), Hx by (done || by eapply ins_nodup).
  - right. intros c' Hc'. assert (c' = c) as -> by congruence. by rewrite Ht.
Qed.

Lemma word_values_consistent values k : consistent (word_values values k) b.
Proof. by eapply eval_consistent. Qed.

Lemma simulate_of depth values s : simulator_of s → length values = length ins → Forall word values →
  ∃ s', simulate depth values s = Some ((), s') ∧ simulator_of s' ∧ simulated_on values s'.
Proof.
  intros (s0 & s1 & x & HC & -> & Hx & Hin & Hout) Hl Hw.
  assert (∀ k v, (k < 64)%N → consistent v b → input_bits ins k v values → ∃ x',
    simulate depth values (set_state x s1) = Some ((), set_state x' s1) ∧ length x' = length o ∧
    ∀ j, j ∈ o → holds b outs segs k v x' j) as Hrun.
  { intros k v Hk Hv Hb. by eapply simulate_spec. }
  destruct (Hrun 0%N (word_values values 0)) as (x' & E & Hx' & _);
    [done|apply word_values_consistent|apply word_values_bits|].
  exists (set_state x' s1). split_all; [done|by exists s0, s1, x'|].
  intros k v Hk Hv Hb i Hi. destruct (Hrun k v Hk Hv Hb) as (x2 & E2 & _ & Hh).
  rewrite E2 in E. injection E as ->.
  by eapply getValue_spec; [done|exact HC|done|apply Hh].
Qed.

Lemma getOutput_of s j i : simulator_of s → outs !! j = Some i → (N.of_nat j < 2 ^ 16)%N →
  getOutput s j = getValue s i.
Proof.
  intros (s0 & s1 & x & HC & -> & Hx & Hin & Hout) Hj Hjs. unfold getOutput. cbn [outputs set_state].
  destruct (cp_view _ _ _ _ _ _ HC) as [_ ->]. rewrite Hout, to_u16_small, list_lookup_fmap, Hj by done. done.
Qed.
End Simulators.
