(* ===== verification/CopySpec.v ===== *)
(** * Copying a subnet into a builder ([SubnetBuilder::addSubnet])

    [addSubnet] adds the cells of a subnet one by one, without sharing them with
    the cells of before, and returns links with the values of the outputs of the
    subnet on the values of the given links. *)

From stdpp Require Import gmap strings.
From S2P Require Import Prelude CellType SubnetBase Builder Order BuilderInv BuilderAdd BuilderAlloc BuilderSpec BuilderEval.
From S2P Require Import Make MakeSpec SubnetEval AdderSum Synth MapperLaws Stays CnfSpec MiterSpec.

(** ** Changes that the invariant does not see *)

Section Same.
Context `{TypeStore}.

(** The builders differ in weights, and [b'] may have forgotten hashed cells. *)
Record same_but (b b' : SubnetBuilder) : Prop := {
  sb_nums : b_nIn b' = b_nIn b ∧ b_nOut b' = b_nOut b ∧ nCell b' = nCell b ∧ nBuf b' = nBuf b;
  sb_entries : entries b' = entries b ∧ emptyEntryIDs b' = emptyEntryIDs b;
  sb_desc : (λ d, (prev d, next d, depth d)) <$> desc b' = (λ d, (prev d, next d, depth d)) <$> desc b;
  sb_order : subnetBegin b' = subnetBegin b ∧ subnetEnd b' = subnetEnd b ∧ isDisassembled b' = isDisassembled b;
  sb_bounds : depthBounds b' = depthBounds b ∧ fanoutsEnabled b' = fanoutsEnabled b;
  sb_strash : ∀ key i, strash b' !! key = Some i → strash b !! key = Some i;
}.

Context (b b' : SubnetBuilder) (Hb : same_but b b').

Lemma same_desc i : (λ d, (prev d, next d, depth d)) <$> desc b' !! i = (λ d, (prev d, next d, depth d)) <$> desc b !! i.
Proof. rewrite <- !list_lookup_fmap. by rewrite (sb_desc _ _ Hb). Qed.

Lemma same_getCell i : getCell b' i = getCell b i.
Proof. unfold getCell. by destruct (sb_entries _ _ Hb) as [-> _]. Qed.

Lemma same_depth i : getDepth b' i = getDepth b i.
Proof.
  unfold getDepth. pose proof (same_desc i) as E. destruct (desc b' !! i), (desc b !! i); cbn in *; congruence.
Qed.

Lemma same_linked x y : linked b' x y ↔ linked b x y.
Proof.
  assert (nextOf b' x = nextOf b x) as E1.
  { unfold nextOf. pose proof (same_desc x) as E. destruct (desc b' !! x), (desc b !! x); try done.
    injection E as _ E _. cbn. by rewrite E. }
  assert (prevOf b' y = prevOf b y) as E2.
  { unfold prevOf. pose proof (same_desc y) as E. destruct (desc b' !! y), (desc b !! y); try done.
    injection E as E _ _. cbn. by rewrite E. }
  unfold linked. by rewrite E1, E2.
Qed.

Lemma same_new_depth ls : new_depth b' ls = new_depth b ls.
Proof. apply (depth_from_ext b b' 0). intros l _. apply same_depth. Qed.

Lemma same_order o : Linked b o → Linked b' o.
Proof.
  intros [L1 L2 L3 L4 L5 L6]. destruct (sb_order _ _ Hb) as (E1 & E2 & _). destruct (sb_entries _ _ Hb) as [E3 _].
  split; try congruence.
  - unfold in_range in *. pose proof (f_equal length (sb_desc _ _ Hb)) as El. rewrite !length_fmap in El. congruence.
  - destruct o as [|x o]; [done|]. cbn in L4 |- *. eapply chain_ext; [|exact L4]. intros y z Hl _ _. by apply same_linked.
  - by rewrite E3.
Qed.

Lemma same_WF ins outs segs : WF b ins outs segs → WF b' ins outs segs.
Proof.
  intros [W1 W2 W3 W4 W5 W6 W7 W8 W9 W10].
  destruct (sb_entries _ _ Hb) as [E1 E2]. destruct (sb_bounds _ _ Hb) as [E3 _]. destruct (sb_nums _ _ Hb) as (N1 & N2 & N3 & N4).
  assert (∀ o i, refs b' o i = refs b o i) as Hrefs.
  { intros o i. unfold refs. induction o as [|j o IH]; [done|]. cbn. by rewrite IH, same_getCell. }
  split.
  - by apply same_order.
  - by rewrite E1, E2.
  - by rewrite E3.
  - intros d seg i Hs Hi. destruct (W4 d seg i Hs Hi) as (c & Hc & ? & ? & ? & ? & ?). exists c.
    rewrite same_getCell, same_depth, same_new_depth. by split_all.
  - intros i Hi. destruct (W5 i Hi) as (c & Hc & ? & ? & ? & d & ? & ? & ?). exists c.
    rewrite same_getCell. split_all; [done..|]. exists d. rewrite same_depth, same_new_depth. by split_all.
  - destruct W6 as (cs & ? & Hi & Hcs). exists cs. unfold cell_type in *. setoid_rewrite same_getCell. by split_all.
  - intros key i Hk. apply (sb_strash _ _ Hb) in Hk. rewrite same_getCell. by apply W7.
  - intros i c Hi Hc. rewrite same_getCell in Hc. rewrite Hrefs. by apply W8.
  - destruct W9 as (? & ? & ? & E). split_all; try congruence. rewrite N4, E. unfold count_bufs, cell_type.
    f_equal. apply list_filter_ext_in. intros i _. by rewrite same_getCell.
  - intros Hd d Hin. destruct (sb_order _ _ Hb) as (_ & _ & E). rewrite E in Hd. specialize (W10 Hd).
    apply list_elem_of_lookup in Hin as [i Hi]. pose proof (same_desc i) as Es. rewrite Hi in Es.
    destruct (desc b !! i) as [d0|] eqn:E0; [|done]. injection Es as -> -> _. apply W10. by eapply list_elem_of_lookup_2.
Qed.

Lemma same_wf ins outs : wf b ins outs → wf b' ins outs.
Proof. intros [segs HW]. exists segs. by apply same_WF. Qed.

Lemma same_live i : is_live b' i ↔ is_live b i.
Proof. unfold is_live. by destruct (sb_entries _ _ Hb) as [-> ->]. Qed.

Lemma same_ext : ext b b'.
Proof.
  destruct (sb_entries _ _ Hb) as [E1 E2]. destruct (sb_bounds _ _ Hb) as [_ E3]. split; [|unfold grows; split_all; [by rewrite E1|congruence|done]].
  intros i c Hl Hc. split; [by apply same_live|]. exists c. rewrite same_getCell. by split.
Qed.
End Same.

(** ** Forgetting a hashed cell, setting a weight *)

Section Forget.
Context `{TypeStore}.

Lemma destrash_spec t ls b ins outs ty : wf b ins outs → getType t = Some ty →
  ∃ b', destrash_key t ls b = Some b' ∧ same_but b b' ∧
    ∀ key, isEnabled t ls = true → makeKey t ls = Some key → strash b' !! key = None.
Proof.
  intros [segs HW] Hty. unfold destrash_key. destruct (isEnabled t ls) eqn:Ee.
  2: { exists b. split; [done|]. by split. }
  unfold makeKey. rewrite Ee, Hty. cbn [mbind option_bind].
  set (key := mkKey t (length ls) (pad3 (if commutative (props ty) then sort_links ls else ls))).
  destruct (strash b !! key) as [i|] eqn:Ei.
  2: { exists b. split; [done|]. split; [by split|]. by intros key' _ [= <-]. }
  destruct (wf_strash _ _ _ _ HW _ _ Ei) as [Hi Hk].
  destruct (live_cell b ins outs segs i HW) as (c & Ec & Hok); [unfold order_of; set_solver|].
  unfold destrashEntry. rewrite Ec in *. cbn [mbind option_bind] in *.
  assert (isEnabled_cell c = true) as ->.
  { unfold makeKey_cell, makeKey in Hk. destruct (isEnabled (type c) (getInPlaceLinks c)) eqn:E; [|done].
    unfold isEnabled in E. apply bool_decide_eq_true in E as (H1 & H2 & _).
    unfold isEnabled_cell, cell_is. rewrite !bool_decide_eq_false_2 by done.
    rewrite bool_decide_eq_true_2 by apply Hok. done. }
  rewrite Hk. cbn [mbind option_bind]. rewrite decide_True by done.
  exists (with_strash (delete key (strash b)) b). split; [done|]. split.
  - split; cbn; try done. intros key' j Hj. by apply lookup_delete_Some in Hj as [_ Hj].
  - intros key' _ [= <-]. apply lookup_delete_eq.
Qed.

Lemma setWeight_spec i w b : i < length (desc b) → ∃ b', setWeight i w b = Some ((), b') ∧ same_but b b'.
Proof.
  intros Hi. apply lookup_lt_is_Some_2 in Hi as [d Hd]. unfold setWeight, st_update, upd_desc. rewrite Hd.
  cbn [mbind option_bind]. eexists. split; [done|]. split; cbn; try done.
  rewrite list_fmap_insert. apply list_insert_id. rewrite list_lookup_fmap, Hd. by destruct d.
Qed.
End Forget.

(** ** Copying *)

(** The cells that are copied one entry to one: gates without inversion with at
    most three links. *)
Definition copy_cell (c : Cell) : bool :=
  (more c =? 0) && (arity c <=? InPlaceLinks) &&
  match type c with
  | GateID IN | GateID OUT => true
  | GateID s => gate_ok s (arity c)
  | _ => false
  end.

Definition copy_ready (s : Subnet) : bool :=
  forallb (λ e, match e with ECell c => copy_cell c | _ => true end) (sn_entries s).

Lemma copy_ready_cell s i c : copy_ready s = true → Net.getCell s i = Some c → copy_cell c = true.
Proof.
  unfold copy_ready, Net.getCell. rewrite forallb_forall. intros Hc Hd.
  destruct (sn_entries s !! i) as [e|] eqn:Ee; [|done]. cbn in Hd. destruct e; try done. injection Hd as ->.
  by apply list_elem_of_lookup_2, list_elem_of_In, Hc in Ee.
Qed.

Section Copy.
Context `{TypeStore}.
Context (s : Subnet) (Hw : sn_wf s = true) (Hc : copy_ready s = true).
Context (ls : LinkList) (Hls : length ls = sn_nIn s) (size : nat).

(** The link to the copy of the cell [k]. *)
Definition copy_of (k : nat) : Link :=
  match ls !! k with Some l => l | None => LinkTo (k + size - sn_nIn s) end.

(** The link [l] of a cell, renamed. *)
Definition new_link (l : Link) : Link :=
  let x := copy_of (idx l) in mkLink (idx x) (out x) (xorb (inv x) (inv l)).

(** The new links lead to first ports if the given links do. *)
Lemma new_link_plain l : Forall (λ l, out l = 0) ls → out (new_link l) = 0.
Proof.
  intros Hp. unfold new_link, copy_of. cbn. destruct (ls !! idx l) as [x|] eqn:E; [|done].
  rewrite list.Forall_forall in Hp. apply Hp. by eapply list_elem_of_lookup_2.
Qed.

(** The number of entries when the cells before [i] have been copied. *)
Definition copied_size (i : nat) : nat := size + (min i (Net.size s - sn_nOut s) - sn_nIn s).

(** The values of the cells of the subnet. *)
Definition cell_val (v : valuation) (k : nat) : bool := sn_val s (lval v <$> ls) k 0.

Record copied_to (i : nat) (b : SubnetBuilder) : Prop := {
  ct_size : length (entries b) = copied_size i;
  ct_empty : emptyEntryIDs b = [];
  ct_cells : ∀ k c, k < i → Net.getCell s k = Some c → type c ≠ GateID OUT →
    src b (copy_of k) ∧ ∀ v, consistent v b → lval v (copy_of k) = cell_val v k;
}.

(** The links to the outputs before [i]. *)
Definition copied_outs (i : nat) (outs : LinkList) (b : SubnetBuilder) : Prop :=
  srcs b outs ∧ (Forall (λ l, out l = 0) ls → Forall (λ l, out l = 0) outs) ∧
  length outs = i - (Net.size s - sn_nOut s) ∧
  ∀ v, consistent v b → lval v <$> outs = (λ j, cell_val v (Net.size s - sn_nOut s + j)) <$> seq 0 (length outs).

Lemma copied_outs_ext i outs b b' : ext b b' → copied_outs i outs b → copied_outs i outs b'.
Proof.
  intros He (H1 & H2 & H3 & H4). unfold copied_outs. split_all; [by eapply srcs_ext|done|done|]. intros v Hv. apply H4. by eapply consistent_ext.
Qed.

Section Cell.
Context (i : nat) (b : SubnetBuilder) (c : Cell) (old : LinkList).
Context (Hi : Net.getCell s i = Some c) (Hf : cell_fine s i c old) (Hin : sn_nIn s ≤ i) (Hb : copied_to i b).

Lemma map_link_new l : l ∈ old → map_link (sn_nIn s) size ls l = Some (new_link l).
Proof.
  intros Hl. unfold map_link, new_link, copy_of. case_bool_decide as Hlt.
  - destruct (lookup_lt_is_Some_2 ls (idx l)) as [x ->]; [lia|]. done.
  - rewrite lookup_ge_None_2 by lia. cbn. by rewrite (cf_out _ _ _ _ Hf l Hl).
Qed.

Lemma new_links_read : mapM (map_link (sn_nIn s) size ls) old = Some (new_link <$> old).
Proof.
  apply mapM_Some_2, Forall2_fmap_r, Forall_Forall2_diag. apply list.Forall_forall. intros l Hl. by apply map_link_new.
Qed.

Lemma new_link_src l : l ∈ old → src b (new_link l).
Proof.
  intros Hl. destruct (cf_before _ _ _ _ Hf l Hl) as (Hlt & d & Hd & Ht).
  destruct (ct_cells _ _ Hb _ _ Hlt Hd Ht) as [(H1 & H2 & H3) _]. unfold new_link, src. cbn. by split_all.
Qed.

Lemma new_link_value l v : l ∈ old → consistent v b → lval v (new_link l) = lval (sn_val s (lval v <$> ls)) l.
Proof.
  intros Hl Hv. destruct (cf_before _ _ _ _ Hf l Hl) as (Hlt & d & Hd & Ht).
  destruct (ct_cells _ _ Hb _ _ Hlt Hd Ht) as [_ Hk]. specialize (Hk v Hv). unfold cell_val in Hk.
  unfold new_link, lval in *. cbn. rewrite (cf_out _ _ _ _ Hf l Hl), <- Hk. by rewrite xorb_assoc.
Qed.

Lemma new_links_src : srcs b (new_link <$> old).
Proof. unfold srcs. rewrite Forall_fmap. apply list.Forall_forall. intros l Hl. by apply new_link_src. Qed.

Lemma new_links_value v : consistent v b →
  lval v <$> (new_link <$> old) = lval (sn_val s (lval v <$> ls)) <$> old.
Proof.
  intros Hv. rewrite <- list_fmap_compose. apply list_fmap_ext. intros j l Hl. apply list_elem_of_lookup_2 in Hl.
  by apply new_link_value.
Qed.

Lemma new_links_length : length (new_link <$> old) = arity c.
Proof. rewrite length_fmap. by apply (cell_arity s i). Qed.

Lemma cell_val_eq v : cell_val v i = cell_value (lval v <$> ls) (sn_val s (lval v <$> ls)) i c old.
Proof.
  unfold cell_val. destruct (sn_val_cell s (lval v <$> ls) i c Hw Hi) as (old' & Hf' & ->).
  assert (old' = old) as -> by (pose proof (cf_links _ _ _ _ Hf); pose proof (cf_links _ _ _ _ Hf'); congruence). done.
Qed.
End Cell.

(** *** One gate *)

Lemma copied_step i b b' l c : ext b b' → copied_to i b → i < Net.size s - sn_nOut s → sn_nIn s ≤ i →
  length (entries b') = S (length (entries b)) → Net.getCell s i = Some c → l = copy_of i → src b' l →
  (∀ v, consistent v b' → lval v l = cell_val v i) → copied_to (S i) b'.
Proof.
  intros He [C1 C2 C3] Hlt Hin Hlen Hi -> Hsrc Hv. split.
  - rewrite Hlen, C1. unfold copied_size. lia.
  - by destruct He as (_ & _ & -> & _).
  - intros k d Hk Hd Ht. destruct (decide (k = i)) as [->|Hne]; [by split|].
    destruct (C3 k d) as [H1 H2]; [lia|done|done|]. split; [by eapply src_ext|].
    intros v Hcv. apply H2. by eapply consistent_ext.
Qed.

(** The copied cells satisfy [P]. *)
Context (P : Cell → bool) `{!CellProperty P}.
Context (HP : ∀ i c old, Net.getCell s i = Some c → cell_fine s i c old → allowed P (type c) (new_link <$> old)).

(** What is known of a cell that is neither an input nor an output. *)
Lemma gate_facts i c old : Net.getCell s i = Some c → cell_fine s i c old → sn_nIn s ≤ i → type c ≠ GateID OUT →
  ∃ sym ty, type c = GateID sym ∧ getCellType sym = Some ty ∧ negative (props ty) = false ∧
    valid_type (GateID sym) (arity c) = true ∧ arity c ≤ InPlaceLinks ∧ sym ≠ IN ∧ sym ≠ OUT ∧
    i < Net.size s - sn_nOut s ∧ is_Some (cell_fun (GateID sym) (replicate (length old) false)).
Proof.
  intros Hi Hf Hin Ht. pose proof (cf_type _ _ _ _ Hf) as Hty.
  pose proof (copy_ready_cell s i c Hc Hi) as Hcc. unfold copy_cell in Hcc. rewrite !andb_true_iff in Hcc.
  destruct Hcc as [[_ Ha] Hg]. apply Nat.leb_le in Ha.
  assert (type c ≠ GateID IN) as Hni by (intros E; rewrite E in Hty; lia).
  destruct (type c) as [|sym|u]; [done| |done].
  assert (gate_ok sym (arity c) = true) as Hok by (by destruct sym). clear Hg.
  destruct (gate_ok_valid _ _ Hok) as (ty & Hget & Hneg & Hvalid & H1 & H2 & _).
  assert ((sn_nIn s ≤ i ∧ S i + more c ≤ Net.size s - sn_nOut s) ∧
    is_Some (cell_fun (GateID sym) (replicate (length old) false))) as [Hle Hd] by (by destruct sym).
  exists sym, ty. split_all; try done. lia.
Qed.

(** The value of the copy in the new builder. *)
Lemma copied_value i b b' c old sym k v : Net.getCell s i = Some c → cell_fine s i c old → copied_to i b → ext b b' →
  type c = GateID sym → is_Some (cell_fun (GateID sym) (replicate (length old) false)) → length old ≤ InPlaceLinks →
  is_live b' k → getCell b' k = Some (new_cell (GateID sym) (new_link <$> old)) → consistent v b' →
  lval v (LinkTo k) = cell_val v i.
Proof.
  intros Hi Hf Hb He Et Hd Ha Hl Hk Hv. rewrite (cell_val_eq i c old Hi Hf). symmetry. apply cell_value_gate. rewrite Et.
  pose proof (consistent_ext _ _ _ He Hv) as Hv0. rewrite <- (new_links_value i b c old Hf Hb v Hv0).
  assert (is_Some (cell_fun (GateID sym) (lval v <$> (new_link <$> old)))) as [y Hy].
  { eapply cell_fun_defined; [|exact Hd]. by rewrite length_replicate, !length_fmap. }
  rewrite Hy. f_equal. unfold lval at 1. cbn. rewrite xorb_false_r. symmetry.
  apply (Hv k _ y Hl Hk). rewrite new_cell_inputs by (by rewrite length_fmap). exact Hy.
Qed.

Lemma copy_gate i b c old w ins outs : Net.getCell s i = Some c → cell_fine s i c old → sn_nIn s ≤ i →
  type c ≠ GateID OUT → wf b ins outs → copied_to i b →
  ∃ b1 l rest b2 b3, destrash_key (type c) (new_link <$> old) b = Some b1 ∧
    addMultiOutputCell (type c) (new_link <$> old) b1 = Some (l :: rest, b2) ∧
    setWeight (idx l) w b2 = Some ((), b3) ∧
    wf b3 ins outs ∧ ext b b3 ∧ copied_to (S i) b3 ∧ (only P b → only P b3).
Proof.
  intros Hi Hf Hin Ht Hwf Hb.
  destruct (gate_facts i c old Hi Hf Hin Ht) as (sym & ty & Et & Hget & Hneg & Hvalid & Ha & Hni & Hno & Hlt & Hd).
  pose proof (new_links_length i c old Hi Hf) as Hlen. pose proof (new_links_src i b c old Hf Hb) as Hsrc.
  pose proof (HP i c old Hi Hf) as Hallowed. rewrite Et in *.
  destruct (destrash_spec (GateID sym) (new_link <$> old) b ins outs ty Hwf Hget) as (b1 & E1 & Hs1 & Hnone).
  pose proof (same_wf _ _ Hs1 _ _ Hwf) as Hwf1. pose proof (same_ext _ _ Hs1) as He1.
  destruct (addCell_new b1 ins outs (GateID sym) (new_link <$> old) ty) as (k & b2 & E2 & Hwf2 & He2 & Hl2 & Hc2 & Hk);
    [done|done|done|by rewrite Hlen|by rewrite Hlen|by eapply srcs_ext|by intros [= ->]|done|].
  unfold after_ins, after_outs in Hwf2. rewrite !decide_False in Hwf2 by congruence.
  destruct (sb_entries _ _ Hs1) as [En1 Em1]. destruct Hk as [Ek En2]; [rewrite Em1; apply Hb|].
  destruct (setWeight_spec k w b2) as (b3 & E3 & Hs3).
  { destruct Hwf2 as [segs2 HW2]. rewrite (linked_desc _ _ (wf_linked _ _ _ _ HW2)). apply Hl2. }
  pose proof (same_ext _ _ Hs3) as He3. destruct (sb_entries _ _ Hs3) as [En3 Em3].
  assert (ext b b2) as He12 by (by etransitivity). assert (ext b b3) as He by (by etransitivity).
  eexists b1, (LinkTo k), _, b2, b3. split; [done|]. split.
  { unfold addMultiOutputCell. rewrite (bind_eval _ _ _ ty b1) by (unfold st_read; cbn; by rewrite Hget).
    by rewrite (bind_eval _ _ _ _ _ E2). }
  split; [exact E3|]. split; [by eapply same_wf|]. split; [done|]. split.
  - apply (copied_step i b b3 (LinkTo k) c He Hb Hlt Hin); [by rewrite En3, En2, En1|done|..].
    + unfold copy_of. rewrite lookup_ge_None_2 by lia. rewrite Ek, En1, (ct_size _ _ Hb). f_equal.
      unfold copied_size. lia.
    + eapply src_ext; [exact He3|]. unfold src. cbn. split_all; [done|lia|].
      exists (new_cell (GateID sym) (new_link <$> old)). split; [done|]. by intros [= ->].
    + intros v Hv. apply (copied_value i b b2 c old sym k v); try done; [by rewrite <- (length_fmap new_link), Hlen|].
      by eapply consistent_ext.
  - intros Ho. eapply only_entries; [exact En3|]. eapply (addCell_stays P); [exact Hallowed|exact E2|].
    by eapply only_entries.
Qed.

(** *** The loop *)

Lemma copy_out i b c old outs : Net.getCell s i = Some c → cell_fine s i c old → type c = GateID OUT →
  copied_to i b → copied_outs i outs b → ∃ l, new_link <$> old = [l] ∧ copied_to (S i) b ∧ copied_outs (S i) (outs ++ [l]) b.
Proof.
  intros Hi Hf Ht Hb (Ho1 & Hop & Ho2 & Ho3). pose proof (cf_type _ _ _ _ Hf) as Hty. rewrite Ht in Hty.
  destruct Hty as (Hle & [l0 ->] & _). exists (new_link l0). split; [done|]. split.
  - destruct Hb as [C1 C2 C3]. split; [rewrite C1; unfold copied_size; lia|done|]. intros k d Hk Hd Htd.
    apply (C3 k d); [|done|done]. assert (k ≠ i) by (intros ->; congruence). lia.
  - unfold copied_outs. rewrite length_app. cbn [length]. split_all; [| |lia|].
    + apply Forall_app. split; [done|]. constructor; [|constructor]. eapply new_link_src; [exact Hf|done|set_solver].
    + intros Hp. apply Forall_app. split; [by apply Hop|]. constructor; [by apply new_link_plain|constructor].
    + intros v Hv. rewrite fmap_app, (Ho3 v Hv), Nat.add_1_r, seq_S, fmap_app. f_equal. cbn. f_equal.
      rewrite (new_link_value i b c [l0] Hf Hb l0 v) by (done || set_solver).
      replace (Net.size s - sn_nOut s + length outs) with i by lia.
      rewrite (cell_val_eq i c [l0] Hi Hf). unfold cell_value. by rewrite Ht.
Qed.

Lemma addSubnet_loop_spec w ins outs0 : ∀ f fuel known i b outs, f ≤ fuel → sn_check f s known i = true →
  sn_nIn s ≤ i ≤ Net.size s → wf b ins outs0 → copied_to i b → copied_outs i outs b →
  wp (addSubnet_loop addMultiOutputCell w s ls size fuel i outs) b (λ outs' b',
    wf b' ins outs0 ∧ ext b b' ∧ copied_to (Net.size s) b' ∧ copied_outs (Net.size s) outs' b' ∧
    (only P b → only P b')).
Proof.
  induction f as [|f IH]; intros fuel known i b outs Hle Hk Hi Hwf Hb Ho; cbn [sn_check] in Hk;
    (destruct (Nat.leb_spec (Net.size s) i) as [Hge|Hlt];
      [assert (i = Net.size s) as -> by lia; destruct fuel; cbn [addSubnet_loop]; rewrite bool_decide_eq_true_2 by done;
        apply wp_ret; by split_all|]); [done|].
  destruct fuel as [|fuel]; [lia|]. cbn [addSubnet_loop]. rewrite bool_decide_eq_false_2 by lia.
  destruct (Net.getCell s i) as [c|] eqn:Hd; [|done]. destruct (Net.getLinks s i) as [ls'|] eqn:Els; [|done].
  apply andb_true_iff in Hk as [_ Hrest]. destruct (wf_cell s i c Hw Hd) as [old Hf].
  rewrite (cf_links _ _ _ _ Hf) in Els. injection Els as <-.
  assert (more c = 0) as Hm.
  { pose proof (copy_ready_cell s i c Hc Hd) as Hcc. unfold copy_cell in Hcc. rewrite !andb_true_iff in Hcc.
    destruct Hcc as [[Hm _] _]. by apply Nat.eqb_eq. }
  rewrite Hm, Nat.add_0_r in Hrest.
  eapply wp_read; [done|]. eapply wp_read; [eapply new_links_read; [exact Hf|lia]|]. eapply wp_read; [done|].
  rewrite Hm, Nat.add_0_r.
  destruct (cell_is OUT c) eqn:Eo.
  - apply is_out_spec in Eo. destruct (copy_out i b c old outs Hd Hf Eo Hb Ho) as (l & El & Hb' & Ho').
    eapply wp_read; [by rewrite El|]. eapply IH; [lia|exact Hrest|lia|done..].
  - assert (type c ≠ GateID OUT) as Ht by (intros E; apply is_out_spec in E; congruence).
    destruct (copy_gate i b c old (w i) ins outs0 Hd Hf ltac:(lia) Ht Hwf Hb)
      as (b1 & l & rest & b2 & b3 & E1 & E2 & E3 & Hwf3 & He3 & Hb3 & Hp3).
    apply wp_bind. exists (), b1. split; [unfold st_update; by rewrite E1|]. apply wp_bind. exists (l :: rest), b2. split; [done|].
    eapply wp_read; [done|]. apply wp_bind. exists (), b3. split; [done|].
    assert (copied_outs (S i) outs b3) as Ho3.
    { destruct Ho as (O1 & Op & O2 & O3). destruct (gate_facts i c old Hd Hf ltac:(lia) Ht) as (_ & _ & _ & _ & _ & _ & _ & _ & _ & Hb0 & _).
      apply (copied_outs_ext _ _ b); [done|]. unfold copied_outs. split_all; [done|done|lia|done]. }
    eapply wp_mono; [eapply (IH fuel _ (S i) b3); [lia|exact Hrest|lia|done..]|].
    intros outs' b' (H1 & H2 & H3 & H4 & H5). split_all; [done|by etransitivity|done|done|auto].
Qed.
End Copy.

(** ** The whole subnet *)

Section Subnet.
Context `{TypeStore}.
Context (s : Subnet) (Hw : sn_wf s = true) (Hc : copy_ready s = true).

Lemma copied_start ls b : length ls = sn_nIn s → srcs b ls → emptyEntryIDs b = [] →
  copied_to s ls (length (entries b)) (sn_nIn s) b.
Proof.
  intros Hlen Hsrc Hem. split; [unfold copied_size; lia|done|]. intros k c Hk Hd _.
  destruct (lookup_lt_is_Some_2 ls k) as [l Hl]; [lia|]. unfold copy_of. rewrite Hl. split.
  - unfold srcs in Hsrc. rewrite list.Forall_forall in Hsrc. apply Hsrc. by eapply list_elem_of_lookup_2.
  - intros v _. unfold cell_val. destruct (sn_val_cell s (lval v <$> ls) k c Hw Hd) as (old & Hf & ->). unfold cell_value.
    destruct (wf_input s k Hw Hk) as (c' & Hc' & Ht). assert (c' = c) as -> by congruence. rewrite Ht.
    by rewrite list_lookup_fmap, Hl.
Qed.

Lemma addSubnet_spec (P : Cell → bool) `{!CellProperty P} w ls b ins outs : length ls = sn_nIn s → srcs b ls →
  emptyEntryIDs b = [] → wf b ins outs →
  (∀ i c old, Net.getCell s i = Some c → cell_fine s i c old →
    allowed P (type c) (new_link s ls (length (entries b)) <$> old)) →
  wp (addSubnet w s ls) b (λ os b', wf b' ins outs ∧ ext b b' ∧ emptyEntryIDs b' = [] ∧ srcs b' os ∧
    (Forall (λ l, out l = 0) ls → Forall (λ l, out l = 0) os) ∧
    length os = sn_nOut s ∧ (∀ v, consistent v b' → lval v <$> os = sn_outs s (lval v <$> ls)) ∧
    length (entries b') = length (entries b) + (Net.size s - sn_nOut s - sn_nIn s) ∧
    copied_to s ls (length (entries b)) (Net.size s) b' ∧ (only P b → only P b')).
Proof.
  intros Hlen Hsrc Hem Hwf HP. pose proof Hw as Hw'. unfold sn_wf in Hw'. apply andb_true_iff in Hw' as [Hsz Hk].
  apply Nat.leb_le in Hsz. destruct (sn_check_inputs s Hw _ _ 0 Hk) as (f & known & Hf & Hk'); [lia|].
  unfold addSubnet, addSubnet_with. apply wp_bind. exists (length (entries b)), b. split; [done|].
  eapply wp_mono; [eapply (addSubnet_loop_spec s Hw Hc ls Hlen (length (entries b)) P HP w ins outs f);
    [exact Hf|exact Hk'|lia|exact Hwf|by apply copied_start|]|].
  - unfold copied_outs. cbn. split_all; [constructor|constructor|lia|done].
  - intros os b' (H1 & H2 & H3 & (O1 & Op & O2 & O3) & H5). split_all; try done.
    + by destruct H2 as (_ & _ & -> & _).
    + lia.
    + intros v Hv. rewrite (O3 v Hv). unfold sn_outs, cell_val. by replace (length os) with (sn_nOut s) by lia.
    + rewrite (ct_size _ _ _ _ _ H3). unfold copied_size. lia.
Qed.

(** *** A builder with the subnet only *)

Lemma addInputs_stays (P : Cell → bool) `{!CellProperty P} n : allowed P (GateID IN) [] → stays P (addInputs n).
Proof.
  intros Hp. unfold addInputs. induction (seq 0 n) as [|x xs IH]; cbn [st_map]; [apply stays_ret|].
  apply stays_bind; [by apply (addGate_stays P)|intros l]. apply stays_bind; [done|intros; apply stays_ret].
Qed.

Lemma addOutputs_stays (P : Cell → bool) `{!CellProperty P} ls :
  (∀ l, l ∈ ls → allowed P (GateID OUT) [l]) → stays P (addOutputs ls).
Proof.
  unfold addOutputs. induction ls as [|l ls IH]; intros Hp; cbn [st_for]; [apply stays_ret|].
  apply stays_bind; [apply stays_bind; [apply (addGate_stays P); [apply Hp, list_elem_of_here|done]|intros; apply stays_ret]|].
  intros []. apply IH. intros l' Hl'. apply Hp. by right.
Qed.

Context (P : Cell → bool) `{!CellProperty P} (Pin : allowed P (GateID IN) []).
Context (Pout : ∀ l, out l = 0 → allowed P (GateID OUT) [l]).
Context (Pcell : ∀ i c ls, Net.getCell s i = Some c → type c ≠ GateID OUT → type c ≠ GateID IN → length ls = arity c →
  Forall (λ l, out l = 0) ls → allowed P (type c) ls).

Lemma copy_allowed ls size i c old : Forall (λ l, out l = 0) ls → Net.getCell s i = Some c → cell_fine s i c old →
  allowed P (type c) (new_link s ls size <$> old).
Proof.
  intros Hp Hi Hf. assert (Forall (λ l, out l = 0) (new_link s ls size <$> old)) as Hn.
  { rewrite Forall_fmap. apply Forall_true. intros l. by apply new_link_plain. }
  pose proof (cf_type _ _ _ _ Hf) as Ht. destruct (decide (type c = GateID OUT)) as [E|E].
  { rewrite E in Ht |- *. destruct Ht as (_ & [l ->] & _). apply Pout. by apply Forall_cons_1 in Hn as [? _]. }
  destruct (decide (type c = GateID IN)) as [E'|E']; [rewrite E' in Ht |- *; by destruct Ht as (_ & -> & _)|].
  apply (Pcell i); try done. rewrite length_fmap. by apply (cell_arity s i).
Qed.

Lemma builder_of_subnet_spec w : ∃ b ins outs ls, builder_of_subnet w s empty_builder = Some ((), b) ∧
  wf b ins outs ∧ emptyEntryIDs b = [] ∧ fanoutsEnabled b = false ∧
  length ins = sn_nIn s ∧ Forall2 (out_link b) outs ls ∧ length ls = sn_nOut s ∧
  (∀ v, consistent v b → lval v <$> ls = sn_outs s ((λ i, v i 0) <$> ins)) ∧ only P b.
Proof.
  destruct (addInputs_spec (sn_nIn s) empty_builder [] [] wf_empty) as (xs & b1 & E1 & Hwf1 & He1 & Hx & Hlx);
    [right; apply ready_empty|].
  assert (only P b1) as Ho1 by (eapply (addInputs_stays P); [done|exact E1|]; intros i c; done).
  assert (Forall (λ l, out l = 0) xs) as Hpx by (eapply list.Forall_impl; [exact Hx|]; by intros l [_ ->]).
  assert (emptyEntryIDs b1 = []) as Hem1 by (destruct He1 as (_ & _ & Hem & _); by apply Hem).
  destruct (addSubnet_spec P w xs b1 ([] ++ (idx <$> xs)) []) as (ls & b2 & E2 & Hwf2 & He2 & Hem2 & Hs2 & Hp2 & Hl2 & Hv2 & _ & _ & Ho2);
    [done| |done|done| |].
  { eapply list.Forall_impl; [exact Hx|]. by intros l [? _]. }
  { intros i c old. by apply copy_allowed. }
  destruct (addOutputs_spec ls b2 ([] ++ (idx <$> xs)) [] Hwf2 Hs2) as ([] & b3 & E3 & os & Hwf3 & He3 & Hos).
  exists b3, (idx <$> xs), os, ls. split.
  { unfold builder_of_subnet. rewrite (bind_eval _ _ _ _ _ E1), (bind_eval _ _ _ _ _ E2). exact E3. }
  assert (ext empty_builder b3) as He by (by do 2 (etransitivity; [eassumption|])).
  split_all; [done| | |by rewrite length_fmap|done|done| |].
  - destruct He as (_ & _ & Hem & _). by apply Hem.
  - by destruct He as (_ & _ & _ & ->).
  - intros v Hv. rewrite Hv2 by by eapply consistent_ext. f_equal. rewrite <- list_fmap_compose.
    apply list_fmap_ext. intros j l Hl. apply list_elem_of_lookup_2 in Hl.
    rewrite list.Forall_forall in Hx. destruct (Hx l Hl) as [_ ->]. unfold lval. cbn. by rewrite xorb_false_r.
  - eapply (addOutputs_stays P); [|exact E3|by apply Ho2]. intros l Hl. apply Pout.
    specialize (Hp2 Hpx). rewrite list.Forall_forall in Hp2. by apply Hp2.
Qed.
End Subnet.
