(* ===== verification/CopyCorrect.v ===== *)
(** * Subnets in builders

    The results of [CopySpec] for the builders that clients reach: a subnet that
    is added to a builder computes its function there, and the builder of a
    subnet makes a subnet with the same function. *)

From stdpp Require Import gmap strings.
From S2P Require Import Prelude CellType SubnetBase Builder BuilderInv BuilderAlloc BuilderSpec BuilderCorrect.
From S2P Require Import Make MakeSpec SubnetEval Stays MiterSpec CopySpec.

(** Every cell. *)
Definition any_cell (c : Cell) : bool := true.

#[export] Instance any_cell_property : CellProperty any_cell.
Proof. done. Defined.

Section Copies.
Context `{TypeStore}.

(** C11 [addSubnet] without inlining substitutes a subnet for its function: if a
    well-formed subnet of gates, each with at most three links, is added to a
    builder that was made by additions only, over links of the builder, it keeps
    the cells of the builder and returns links whose values are the function of
    the subnet on the values of those links. *)
Theorem addSubnet_correct b ins outs s ls w : reachable (b, ins, outs) → sn_wf s = true → copy_ready s = true →
  length ls = sn_nIn s → srcs b ls →
  ∃ os b', addSubnet w s ls b = Some (os, b') ∧ wf b' ins outs ∧ ext b b' ∧ srcs b' os ∧
    ∀ v, consistent v b' → sn_function s (lval v <$> ls) = Some (lval v <$> os).
Proof.
  intros Hr Hw Hc Hl Hs. destruct (steps_wf _ _ Hr wf_empty) as [Hwf (_ & _ & Hem & _)].
  destruct (addSubnet_spec s Hw Hc any_cell w ls b ins outs Hl Hs (Hem eq_refl) Hwf) as
    (os & b' & E & Hwf' & He & _ & Hs' & _ & _ & Hv & _); [done|].
  exists os, b'. split_all; [done..|]. intros v Hcv. by rewrite sn_function_outs, Hv.
Qed.

(** A subnet round trips through its builder: the builder made of a subnet
    makes a subnet with the same function. *)
Theorem subnet_roundtrip s w : sn_wf s = true → copy_ready s = true → sn_nOut s ≠ 0 →
  ∃ b s', builder_of_subnet w s empty_builder = Some ((), b) ∧ make false b = Some s' ∧
    sn_nOut s' = sn_nOut s ∧ implements s' (sn_nIn s) (sn_outs s).
Proof.
  intros Hw Hc Hn.
  destruct (builder_of_subnet_spec s Hw Hc any_cell) with (w := w) as
    (b & ins & outs & ls & E & Hwf & Hem & Hfan & Hli & Hos & Hlo & Hv & _); [done..|].
  destruct (make_implements b ins outs ls (sn_outs s) Hwf Hem Hfan) as (s' & E' & Hi & Ho); [|done|done|].
  { intros ->. apply Forall2_nil_inv_l in Hos as ->. cbn in Hlo. lia. }
  exists b, s'. rewrite Hli in Hi. split_all; [done|done|congruence|done].
Qed.
End Copies.

(** ** Examples *)

Section Examples.
#[local] Existing Instance no_types.

(** The inverted conjunction is added to the builder of the example. *)
Lemma addSubnet_correct_witness : ∃ os b',
  addSubnet (λ _, 0%N) nand_subnet [LinkTo 0; LinkTo 2] (demo 3) = Some (os, b') ∧
  wf b' [0; 1] [] ∧ ext (demo 3) b' ∧ srcs b' os ∧
  ∀ v, consistent v b' → sn_function nand_subnet (lval v <$> [LinkTo 0; LinkTo 2]) = Some (lval v <$> os).
Proof.
  apply (addSubnet_correct (demo 3) [0; 1] [] nand_subnet [LinkTo 0; LinkTo 2] (λ _, 0%N) demo3_reachable);
    [vm_compute; reflexivity..|]. apply Forall_cons_2; [|apply demo_srcs].
  by apply (demo_src 3 0 (GateID IN)); [vm_compute; reflexivity|].
Defined.

Lemma subnet_roundtrip_witness : ∃ b s',
  builder_of_subnet (λ _, 0%N) nand_subnet empty_builder = Some ((), b) ∧ make false b = Some s' ∧
  sn_nOut s' = 1 ∧ implements s' 2 (sn_outs nand_subnet).
Proof. apply (subnet_roundtrip nand_subnet (λ _, 0%N)); [vm_compute; reflexivity..|discriminate]. Defined.
End Examples.
