(* ===== verification/RndChecker.v ===== *)
(** * The checker by simulation ([debugger/rnd_checker.h, rnd_checker.cpp])

    The output of a subnet is simulated on random words, or on all the input
    vectors, 64 at a time.  [std::rand] is a parameter: [rand n] is the value of
    its [n]-th call. *)

From stdpp Require Import gmap.
From S2P Require Import Prelude CellType SubnetBase Builder Make Cnf Checker Simulator.

(* gate/debugger/rnd_checker.cpp:22-27 [getAllValues] *)
Definition set_bits (startValue i : N) (vec : list N) : list N :=
  imap (λ j w, if N.testbit i (N.of_nat j) then N.setbit w (i - startValue) else w) vec.

(** The number [count] is at most [2 ^ 26], so that nothing overflows;
    [bitset::test] fails for more than 64 inputs. *)
(* gate/debugger/rnd_checker.cpp:18-34 [getAllValues] *)
Definition getAllValues (nIn : nat) (count : N) : option (list N) :=
  let startValue := (count * 64)%N in
  if nIn <=? 64 then
    Some (foldl (λ vec k, set_bits startValue (startValue + N.of_nat k) vec) (replicate nIn 0%N) (seq 0 64))
  else None.

(** The bits of the first input vector on which the output is true. *)
(* gate/debugger/rnd_checker.cpp:36-49 [getCounterEx] *)
Fixpoint counter_loop (output : N) (values : list N) (js : list nat) : list bool :=
  match js with
  | [] => []
  | i :: js =>
    if N.testbit output (N.of_nat i) then (λ x, N.testbit x (N.of_nat i)) <$> values
    else counter_loop output values js
  end.

(* gate/debugger/rnd_checker.cpp:36-49 [getCounterEx] *)
Definition getCounterEx (output : N) (values : list N) : list bool := counter_loop output values (seq 0 64).

(* gate/debugger/rnd_checker.h:46-47 [RndChecker] *)
Record RndChecker := mkRndChecker {
  tries : nat;
  exhaustive : bool;
}.

(* gate/debugger/rnd_checker.h:29-29 [RndChecker::setTries] *)
Definition setTries (n : nat) (c : RndChecker) : RndChecker := mkRndChecker n (exhaustive c).

(* gate/debugger/rnd_checker.h:36-36 [RndChecker::setExhaustive] *)
Definition setExhaustive (x : bool) (c : RndChecker) : RndChecker := mkRndChecker (tries c) x.

(* gate/debugger/rnd_checker.h:44-44 [RndChecker::RndChecker()] *)
Definition RndChecker_default : RndChecker := mkRndChecker 1024 false.

Module Rnd.
Section Rnd.
Context `{TypeStore, SubnetStore}.
Context (rand : nat → N) (depth : nat).

(** The tries from number [t] on. *)
(* gate/debugger/rnd_checker.cpp:61-72 [RndChecker::isSat] *)
Fixpoint random_loop (n t inputNum : nat) (sim : Simulator) : option CheckerResult :=
  match n with
  | 0 => Some (result UNKNOWN)
  | S n =>
    let values := (λ i, rand (t * inputNum + i)) <$> seq 0 inputNum in
    '(_, sim) ← simulate depth values sim;
    output ← getOutput sim 0;
    if negb (output =? 0)%N then Some (mkResult NOTEQUAL (getCounterEx output values))
    else random_loop n (S t) inputNum sim
  end.

(** The iterations from number [i] on; [values] is the vector declared before. *)
(* gate/debugger/rnd_checker.cpp:84-92 [RndChecker::isSat] *)
Fixpoint exhaustive_loop (n : nat) (i : N) (inputNum : nat) (values : list N) (sim : Simulator)
    : option CheckerResult :=
  match n with
  | 0 => Some (result EQUAL)
  | S n =>
    inputs ← getAllValues inputNum i;
    '(_, sim) ← simulate depth inputs sim;
    output ← getOutput sim 0;
    if negb (output =? 0)%N then Some (mkResult NOTEQUAL (getCounterEx output values))
    else exhaustive_loop n (i + 1) inputNum values sim
  end.

(* gate/debugger/rnd_checker.cpp:81-83 [RndChecker::isSat] *)
Definition iterations (inputNum : nat) : nat :=
  let inputPower := N.shiftl 1 (N.of_nat inputNum) in
  N.to_nat (if (inputPower <=? 64)%N then 1 else N.shiftr inputPower 6).

(* gate/debugger/rnd_checker.cpp:51-96 [RndChecker::isSat] *)
Definition isSat (c : RndChecker) (s : Subnet) : option CheckerResult :=
  if sn_nOut s =? 1 then
    let inputNum := sn_nIn s in
    '(_, b) ← builder_of_subnet (λ _, 0%N) s empty_builder;
    sim ← make_simulator b ∅;
    if exhaustive c then
      if 32 <? inputNum then Some (result ERROR)
      else exhaustive_loop (iterations inputNum) 0 inputNum (replicate inputNum 0%N) sim
    else random_loop (tries c) 0 inputNum sim
  else None.

End Rnd.
End Rnd.
