(* ===== verification/RndSpec.v ===== *)
(** * The checker by simulation is right

    The words of [getAllValues] hold 64 successive input vectors, so that the
    exhaustive check simulates all of them. *)

From stdpp Require Import gmap strings.
From S2P Require Import Prelude CellType SubnetBase Builder Order BuilderInv BuilderAdd BuilderAlloc BuilderSpec BuilderEval.
From S2P Require Import Make MakeSpec MakeWf SubnetEval AdderSum Synth MapperLaws Stays Cnf CnfSpec Checker MiterSpec CopySpec.
From S2P Require Import Simulator SimOps SimSpec RndChecker.

(** ** Definitions *)

(** The cells that are copied and simulated. *)
Definition sim_gate (c : Cell) : bool :=
  match type c with
  | GateID IN | GateID OUT => true
  | GateID s => simulated s (replicate (arity c) 0%N)
  | _ => false
  end.

Definition sim_ready (s : Subnet) : bool :=
  copy_ready s && forallb (λ e, match e with ECell c => sim_gate c | _ => true end) (sn_entries s).

#[export] Instance sim_cell_property : CellProperty sim_cell.
Proof. done. Defined.

(** The input vector of number [m]. *)
Definition vec (n : nat) (m : N) : list bool := (λ j, N.testbit m (N.of_nat j)) <$> seq 0 n.

(** The value of the only output. *)
Definition sat_value (s : Subnet) (xs : list bool) : bool := nth 0 (sn_outs s xs) false.

(** ** Input vectors *)

Fixpoint N_of_bits (xs : list bool) : N :=
  match xs with [] => 0%N | x :: xs => (2 * N_of_bits xs + N.b2n x)%N end.

Lemma N_of_bits_bit xs : ∀ j, N.testbit (N_of_bits xs) (N.of_nat j) = nth j xs false.
Proof.
  induction xs as [|x xs IH]; intros j; cbn [N_of_bits]; [rewrite N.bits_0; by destruct j|].
  destruct j as [|j]; [apply N.testbit_0_r|]. rewrite Nat2N.inj_succ, N.testbit_succ_r. apply IH.
Qed.

Lemma N_of_bits_bound xs : (N_of_bits xs < 2 ^ N.of_nat (length xs))%N.
Proof.
  induction xs as [|x xs IH]; cbn [N_of_bits length]; [done|].
  rewrite Nat2N.inj_succ, N.pow_succ_r by lia. destruct x; cbn [N.b2n]; lia.
Qed.

Lemma vec_of_bits xs : vec (length xs) (N_of_bits xs) = xs.
Proof.
  unfold vec. apply list_eq. intros j. rewrite list_lookup_fmap. destruct (decide (j < length xs)) as [Hj|Hj].
  - rewrite lookup_seq_lt by done. cbn. rewrite N_of_bits_bit.
    destruct (lookup_lt_is_Some_2 xs j Hj) as [x Hx]. by rewrite Hx, (nth_lookup_Some _ _ _ _ Hx).
  - rewrite lookup_seq_ge by lia. symmetry. apply lookup_ge_None_2. lia.
Qed.

Lemma vec_length n m : length (vec n m) = n.
Proof. unfold vec. by rewrite length_fmap, length_seq. Qed.

(** ** The words of the input vectors *)

Section Words.
Context (start : N).

Let step (vec : list N) (k : nat) : list N := set_bits start (start + N.of_nat k) vec.

Lemma step_lookup vec k j : step vec k !! j =
  (λ w, if N.testbit (start + N.of_nat k) (N.of_nat j) then N.setbit w (N.of_nat k) else w) <$> vec !! j.
Proof.
  unfold step, set_bits. rewrite list_lookup_imap. destruct (vec !! j); [|done]. cbn.
  by replace (start + N.of_nat k - start)%N with (N.of_nat k) by lia.
Qed.

Lemma words_spec ks : ∀ ws j, ∀ w, ws !! j = Some w → ∃ w', foldl step ws ks !! j = Some w' ∧
  ∀ p, N.testbit w' p = N.testbit w p ||
    existsb (λ k, (p =? N.of_nat k)%N && N.testbit (start + N.of_nat k) (N.of_nat j)) ks.
Proof.
  induction ks as [|k ks IH]; intros ws j w Hw; cbn [foldl existsb].
  - exists w. split; [done|]. intros p. by rewrite orb_false_r.
  - destruct (IH (step ws k) j (if N.testbit (start + N.of_nat k) (N.of_nat j) then N.setbit w (N.of_nat k) else w))
      as (w' & E & Hb); [by rewrite step_lookup, Hw|].
    exists w'. split; [done|]. intros p. rewrite Hb, orb_assoc. f_equal.
    destruct (N.testbit (start + N.of_nat k) (N.of_nat j)); rewrite ?andb_true_r, ?andb_false_r, ?orb_false_r; [|done].
    rewrite N.setbit_eqb, N.eqb_sym. apply orb_comm.
Qed.

Lemma words_length ks : ∀ ws, length (foldl step ws ks) = length ws.
Proof.
  induction ks as [|k ks IH]; intros ws; [done|]. cbn [foldl]. rewrite IH. unfold step, set_bits. apply length_imap.
Qed.
End Words.

Lemma existsb_seq (f : nat → bool) n p : existsb (λ k, (p =? N.of_nat k)%N && f k) (seq 0 n) =
  (p <? N.of_nat n)%N && f (N.to_nat p).
Proof.
  apply eq_true_iff_eq. rewrite existsb_exists, andb_true_iff, N.ltb_lt. split.
  - intros (k & Hk & E). apply in_seq in Hk. apply andb_true_iff in E as [E Hf]. apply N.eqb_eq in E as ->.
    rewrite Nat2N.id. split; [lia|done].
  - intros [Hp Hf]. exists (N.to_nat p). split; [apply in_seq; lia|]. by rewrite N2Nat.id, N.eqb_refl.
Qed.

(** The words hold the input vectors from [64 * count] on. *)
Lemma getAllValues_spec n count : n ≤ 64 → ∃ ws, getAllValues n count = Some ws ∧ length ws = n ∧ Forall word ws ∧
  ∀ k, (k < 64)%N → bits k ws = vec n (count * 64 + k).
Proof.
  intros Hn. unfold getAllValues. rewrite (proj2 (Nat.leb_le _ _) Hn). eexists. split; [done|].
  assert (∀ j w, foldl (λ vec k, set_bits (count * 64) (count * 64 + N.of_nat k) vec) (replicate n 0%N) (seq 0 64) !! j = Some w →
    ∀ p, N.testbit w p = (p <? 64)%N && N.testbit (count * 64 + p) (N.of_nat j)) as Hb.
  { intros j w Hw. assert (replicate n 0%N !! j = Some 0%N) as H0.
    { apply lookup_replicate. split; [done|]. apply lookup_lt_Some in Hw. by rewrite words_length, length_replicate in Hw. }
    destruct (words_spec (count * 64) (seq 0 64) _ j _ H0) as (w' & E & Hw'). intros p. rewrite E in Hw. injection Hw as <-.
    rewrite Hw', N.bits_0, orb_false_l.
    rewrite (existsb_seq (λ k, N.testbit (count * 64 + N.of_nat k) (N.of_nat j))). by rewrite N2Nat.id. }
  set (ws := foldl _ _ _) in *. assert (length ws = n) as Hl by (unfold ws; by rewrite words_length, length_replicate).
  split_all; [done| |].
  - apply list.Forall_forall. intros w Hw. apply list_elem_of_lookup in Hw as [j Hj]. apply high_word. intros k Hk.
    by rewrite (Hb j w Hj), (proj2 (N.ltb_ge _ _) Hk).
  - intros k Hk. unfold bits, vec. apply list_eq. intros j. rewrite !list_lookup_fmap. destruct (decide (j < n)) as [Hj|Hj].
    + destruct (lookup_lt_is_Some_2 ws j) as [w Hw]; [lia|]. rewrite Hw, lookup_seq_lt by done. cbn.
      by rewrite (Hb j w Hw), (proj2 (N.ltb_lt _ _) Hk).
    + rewrite lookup_seq_ge, lookup_ge_None_2 by lia. done.
Qed.

(** ** The counterexample *)

Lemma counter_loop_spec output values js : (∃ i, i ∈ js ∧ N.testbit output (N.of_nat i) = true) →
  ∃ i, i ∈ js ∧ N.testbit output (N.of_nat i) = true ∧ counter_loop output values js = bits (N.of_nat i) values.
Proof.
  induction js as [|j js IH]; intros (i & Hi & Hb); [set_solver|]. cbn [counter_loop].
  destruct (N.testbit output (N.of_nat j)) eqn:E; [exists j; by split_all; [set_solver|..]|].
  destruct IH as (i' & Hi' & Hb' & E'); [exists i; split; [|done]; apply elem_of_cons in Hi as [->|?]; [congruence|done]|].
  exists i'. split_all; [set_solver|done|done].
Qed.

Lemma nonzero_bit w : word w → w ≠ 0%N → ∃ i, i ∈ seq 0 64 ∧ N.testbit w (N.of_nat i) = true.
Proof.
  intros Hw Hne. exists (N.to_nat (N.log2 w)). rewrite N2Nat.id. split; [|by apply N.bit_log2].
  apply elem_of_seq. assert (N.log2 w < 64)%N; [|lia]. apply N.log2_lt_pow2; [lia|done].
Qed.

(** The counterexample is the input vector of a bit of the output. *)
Lemma getCounterEx_spec output values : word output → output ≠ 0%N →
  ∃ k, (k < 64)%N ∧ N.testbit output k = true ∧ getCounterEx output values = bits k values.
Proof.
  intros Hw Hne. destruct (counter_loop_spec output values (seq 0 64)) as (i & Hi & Hb & E); [by apply nonzero_bit|].
  apply elem_of_seq in Hi. exists (N.of_nat i). split_all; [lia|done|exact E].
Qed.

(** ** The simulator of a subnet *)

Section Check.
Context `{TypeStore, SubnetStore}.
Context (s : Subnet) (Hw : sn_wf s = true) (Hr : sim_ready s = true) (Hout : sn_nOut s = 1).

Lemma sim_ready_copy : copy_ready s = true.
Proof. unfold sim_ready in Hr. by apply andb_true_iff in Hr as [? _]. Qed.

Lemma sim_ready_cell i c : Net.getCell s i = Some c → sim_gate c = true.
Proof.
  unfold sim_ready in Hr. apply andb_true_iff in Hr as [_ Hc]. rewrite forallb_forall in Hc. unfold Net.getCell.
  destruct (sn_entries s !! i) as [e|] eqn:Ee; [|done]. intros Hd. cbn in Hd. destruct e; try done. injection Hd as ->.
  by apply list_elem_of_lookup_2, list_elem_of_In, Hc in Ee.
Qed.

(** Cells with links to first ports. *)
Lemma sim_allowed t ls : sim_gate (mkCell (length ls) 0 0 t []) = true → length ls ≤ InPlaceLinks →
  Forall (λ l, out l = 0) ls → allowed sim_cell t ls.
Proof.
  intros Hg Hl Ho c E. unfold SubnetCell in E. destruct (bool_decide _); [|done]. injection E as <-.
  unfold sim_cell. apply andb_true_iff. split; [|exact Hg].
  change (getInPlaceLinks _) with (getInPlaceLinks (new_cell t ls)). rewrite new_cell_inputs by done.
  apply forallb_forall. intros l Hin. apply list_elem_of_In in Hin. apply Nat.eqb_eq.
  rewrite list.Forall_forall in Ho. by apply Ho.
Qed.

(** The builder and the simulator of the subnet. *)
Lemma subnet_simulator w d : ∃ b ins outs segs l sim, builder_of_subnet w s empty_builder = Some ((), b) ∧
  WF b ins outs segs ∧ length ins = sn_nIn s ∧ outs = [l] ∧
  (∀ i c, i ∈ order_of segs outs → getCell b i = Some c → sim_cell c = true) ∧
  (∀ v, consistent v b → entry_value b v l = sat_value s ((λ i, v i 0) <$> ins)) ∧
  make_simulator b d = Some sim ∧ simulator_of b ins outs segs sim.
Proof.
  destruct (builder_of_subnet_spec s Hw sim_ready_copy sim_cell) with (w := w) as
    (b & ins & outs & ls & E & [segs HW] & Hem & Hfan & Hli & Hos & Hlo & Hv & Ho).
  - by apply sim_allowed; [|cbn; lia|].
  - intros l Hl. apply sim_allowed; [done|cbn; unfold InPlaceLinks; lia|by constructor].
  - intros i c ls Hd Hno Hni Hlen Hout'. apply sim_allowed; [|rewrite Hlen|done].
    + pose proof (sim_ready_cell i c Hd) as Hg. unfold sim_gate in *. cbn [type arity]. by rewrite Hlen.
    + pose proof (copy_ready_cell s i c sim_ready_copy Hd) as Hcc. unfold copy_cell in Hcc.
      rewrite !andb_true_iff in Hcc. destruct Hcc as [[_ Ha] _]. by apply Nat.leb_le.
  - rewrite Hout in Hlo. destruct ls as [|l [|]]; try done. inversion Hos as [|o l' outs' ls' Hol Hnil]; subst.
    inversion Hnil; subst.
    assert (∀ i c, i ∈ order_of segs [o] → getCell b i = Some c → sim_cell c = true) as Hcells by (intros i c _; apply Ho).
    destruct (simulator_made b ins [o] segs HW Hcells d) as (sim & Es & Hs).
    { unfold order_of. by destruct (concat segs). }
    exists b, ins, [o], segs, o, sim. split_all; try done. intros v Hcv. specialize (Hv v Hcv).
    unfold sat_value. rewrite <- Hv. destruct Hol as (_ & _ & c & Hc & Ht & El). unfold entry_value. rewrite Hc.
    unfold cell_is. rewrite bool_decide_eq_true_2 by done. by rewrite El.
Qed.
End Check.

(** ** The loops *)

Section Loops.
Context `{TypeStore, SubnetStore}.
Context (s : Subnet) (b : SubnetBuilder) (ins : list nat) (segs : list (list nat)) (l : nat).
Context (HW : WF b ins [l] segs) (Hlen : length ins = sn_nIn s) (Hsmall : (N.of_nat (sn_nIn s) < 2 ^ 16)%N).
Context (Hcells : ∀ i c, i ∈ order_of segs [l] → getCell b i = Some c → sim_cell c = true).
Context (Hval : ∀ v, consistent v b → entry_value b v l = sat_value s ((λ i, v i 0) <$> ins)).

Lemma run_words depth ws sim : simulator_of b ins [l] segs sim → length ws = sn_nIn s → Forall word ws →
  ∃ sim' w, simulate depth ws sim = Some ((), sim') ∧ simulator_of b ins [l] segs sim' ∧
    getOutput sim' 0 = Some w ∧ word w ∧ ∀ k, (k < 64)%N → N.testbit w k = sat_value s (bits k ws).
Proof.
  intros Hsim Hws Hword.
  destruct (simulate_of b ins [l] segs HW Hcells ltac:(by rewrite Hlen) depth ws sim Hsim) as (sim' & E & Hsim' & Hon);
    [congruence|done|].
  assert (∀ k, (k < 64)%N → ∃ w, getValue sim' l = Some w ∧ word w ∧ N.testbit w k = sat_value s (bits k ws)) as Hk.
  { intros k Hk. destruct (Hon k (word_values b ins [l] segs ws k) Hk) with (i := l) as (w & Ew & Hw & Hb).
    - by apply word_values_consistent.
    - by apply word_values_bits.
    - unfold order_of. set_solver.
    - exists w. split_all; [done|done|]. rewrite Hb, Hval by by apply word_values_consistent. f_equal.
      apply list_eq. intros j. unfold bits. rewrite !list_lookup_fmap. destruct (decide (j < sn_nIn s)) as [Hj|Hj].
      + destruct (lookup_lt_is_Some_2 ins j) as [i Hi]; [lia|]. destruct (lookup_lt_is_Some_2 ws j) as [x Hx]; [lia|].
        rewrite Hi, Hx. cbn. f_equal. by eapply (word_values_bits b ins [l] segs HW ws k).
      + by rewrite !lookup_ge_None_2 by lia. }
  destruct (Hk 0%N) as (w & Ew & Hw & _); [done|]. exists sim', w. split_all; [done|done| |done|].
  - by rewrite (getOutput_of b ins [l] segs sim' 0 l Hsim').
  - intros k Hk'. destruct (Hk k Hk') as (w' & Ew' & _ & Hb). congruence.
Qed.

(** *** The exhaustive check *)

(** The vectors of the iterations [i], ..., [i + n - 1] give false. *)
Definition all_false (i : N) (n : nat) : Prop :=
  ∀ m, (i * 64 ≤ m < (i + N.of_nat n) * 64)%N → sat_value s (vec (sn_nIn s) m) = false.

Lemma all_false_cons i n : (∀ k, (k < 64)%N → sat_value s (vec (sn_nIn s) (i * 64 + k)) = false) →
  all_false (i + 1) n → all_false i (S n).
Proof.
  intros Hi Hn m Hm. destruct (decide (m < (i + 1) * 64)%N) as [Hlt|Hge].
  - replace m with (i * 64 + (m - i * 64))%N by lia. apply Hi. lia.
  - apply Hn. lia.
Qed.

Lemma exhaustive_loop_spec depth n : ∀ i sim, sn_nIn s ≤ 64 → simulator_of b ins [l] segs sim →
  (Rnd.exhaustive_loop depth n i (sn_nIn s) (replicate (sn_nIn s) 0%N) sim = Some (result EQUAL) ∧ all_false i n) ∨
  (Rnd.exhaustive_loop depth n i (sn_nIn s) (replicate (sn_nIn s) 0%N) sim =
      Some (mkResult NOTEQUAL (replicate (sn_nIn s) false)) ∧
    ∃ xs, length xs = sn_nIn s ∧ sat_value s xs = true).
Proof.
  induction n as [|n IH]; intros i sim Hn Hsim; cbn [Rnd.exhaustive_loop].
  { left. split; [done|]. intros m Hm. lia. }
  destruct (getAllValues_spec (sn_nIn s) i Hn) as (ws & -> & Hl & Hword & Hbits). cbn [mbind option_bind].
  destruct (run_words depth ws sim Hsim Hl Hword) as (sim' & w & E & Hsim' & Eo & Hw & Hb).
  rewrite E. cbn [mbind option_bind]. rewrite Eo. cbn [mbind option_bind].
  destruct (N.eqb_spec w 0) as [->|Hne]; cbn [negb].
  - assert (∀ k, (k < 64)%N → sat_value s (vec (sn_nIn s) (i * 64 + k)) = false) as Hz.
    { intros k Hk. by rewrite <- Hbits, <- Hb, N.bits_0. }
    destruct (IH (i + 1)%N sim' Hn Hsim') as [[-> Ha]|[-> Hx]]; [left|by right].
    split; [done|]. by apply all_false_cons.
  - right. destruct (getCounterEx_spec w (replicate (sn_nIn s) 0%N) Hw Hne) as (k & Hk & Hkb & ->). split.
    + do 2 f_equal. unfold bits. rewrite fmap_replicate. by rewrite N.bits_0.
    + exists (bits k ws). split; [unfold bits; by rewrite length_fmap|]. by rewrite <- Hb.
Qed.

(** The iterations cover all the input vectors. *)
Lemma all_false_all : all_false 0 (Rnd.iterations (sn_nIn s)) → ∀ xs, length xs = sn_nIn s → sat_value s xs = false.
Proof.
  intros Ha xs Hx. rewrite <- (vec_of_bits xs), Hx. apply Ha. pose proof (N_of_bits_bound xs) as Hb. rewrite Hx in Hb.
  unfold Rnd.iterations. rewrite N.shiftl_1_l. split; [lia|].
  destruct (N.leb_spec (2 ^ N.of_nat (sn_nIn s)) 64) as [Hle|Hgt]; rewrite N2Nat.id; [lia|].
  rewrite N.shiftr_div_pow2. assert (6 ≤ N.of_nat (sn_nIn s))%N as H6.
  { apply N.nlt_ge. intros Hlt. assert (2 ^ N.of_nat (sn_nIn s) ≤ 2 ^ 5)%N by (apply N.pow_le_mono_r; lia). lia. }
  rewrite <- N.pow_sub_r by done. cbn [N.add]. rewrite N.add_0_l.
  change 64%N with (2 ^ 6)%N. rewrite <- N.pow_add_r. by rewrite N.sub_add by done.
Qed.

(** *** The random check *)

(** Try number [t] takes the words with the numbers [t * n] and up, each bit
    position being an input vector. *)
Definition try_words (rand : nat → N) (n t : nat) : list N := (λ i, rand (t * n + i)) <$> seq 0 n.

Lemma random_loop_spec rand depth n : (∀ t, word (rand t)) → ∀ t sim, simulator_of b ins [l] segs sim →
  ∃ r, Rnd.random_loop rand depth n t (sn_nIn s) sim = Some r ∧
    (r = result UNKNOWN ∧
       (∀ t' k, t ≤ t' < t + n → (k < 64)%N → sat_value s (bits k (try_words rand (sn_nIn s) t')) = false) ∨
     status r = NOTEQUAL ∧ length (counterEx r) = sn_nIn s ∧ sat_value s (counterEx r) = true).
Proof.
  intros Hrand. induction n as [|n IH]; intros t sim Hsim; cbn [Rnd.random_loop].
  { eexists. split; [done|]. left. split; [done|]. intros t' k Ht. lia. }
  fold (try_words rand (sn_nIn s) t). set (ws := try_words rand (sn_nIn s) t).
  assert (length ws = sn_nIn s) as Hl by (unfold ws, try_words; by rewrite length_fmap, length_seq).
  assert (Forall word ws) as Hword by (unfold ws; apply Forall_fmap, Forall_true; intros i; apply Hrand).
  destruct (run_words depth ws sim Hsim Hl Hword) as (sim' & w & E & Hsim' & Eo & Hw & Hb).
  rewrite E. cbn [mbind option_bind]. rewrite Eo. cbn [mbind option_bind].
  destruct (N.eqb_spec w 0) as [->|Hne]; cbn [negb].
  - destruct (IH (S t) sim' Hsim') as (r & Er & [[-> Hn]|Hs]); eexists; (split; [exact Er|]); [left|by right].
    split; [done|]. intros t' k Ht Hk. destruct (decide (t' = t)) as [->|]; [|apply Hn; [lia|done]].
    by rewrite <- Hb, N.bits_0.
  - destruct (getCounterEx_spec w ws Hw Hne) as (k & Hk & Hkb & ->). eexists. split; [done|]. right.
    split_all; [done|unfold bits; cbn; by rewrite length_fmap|]. cbn [counterEx]. by rewrite <- Hb.
Qed.
End Loops.
