(* ===== verification/SimCorrect.v ===== *)
(** * The simulator is correct

    What the operations of the simulator compute, and what its runs compute on
    the builders that clients reach. *)

From stdpp Require Import gmap strings.
From S2P Require Import Prelude CellType SubnetBase Builder Order BuilderInv BuilderAdd BuilderAlloc BuilderSpec BuilderEval BuilderCorrect.
From S2P Require Import MakeSpec MakeCorrect Cnf Simulator SimOps SimSpec.

(** ** The operations *)

(** The numbers of links that a gate may have in the simulator. *)
Definition gate_arity (s : CellSymbol) (n : nat) : bool :=
  bool_decide (is_Some (gate_fun s (replicate n false))) && match s with MAJ => Nat.odd n | _ => true end.

(** The words on which the operation of the gate is right. *)
Definition gate_words (s : CellSymbol) (ws : list N) : Prop :=
  Forall word ws ∧ (s = MAJ → 3 < length ws → Forall (λ w, w < 2 ^ 31)%N ws).

Lemma gate_arity_simulated s ws : gate_arity s (length ws) = true → gate_words s ws → simulated s ws = true.
Proof.
  unfold gate_arity, simulated. rewrite !andb_true_iff. intros [-> Ho] [_ Hs]. split; [done|]. destruct s; try done.
  rewrite Ho. cbn. apply orb_true_iff. destruct (decide (length ws ≤ 3)) as [Hle|Hgt]; [left; by apply Nat.leb_le|right].
  specialize (Hs eq_refl ltac:(lia)). rewrite list.Forall_forall in Hs. apply forallb_forall. intros w Hw.
  apply N.ltb_lt, Hs. by apply list_elem_of_In.
Qed.

(** A cell of a wrong arity has no function. *)
Lemma getFunction_none `{TypeStore, SubnetStore} c s : type c = GateID s → s ≠ OUT → gate_arity s (arity c) = false →
  getFunction c = None.
Proof.
  intros Ht Ho Ha. unfold getFunction. rewrite Ht. unfold gate_arity in Ha.
  destruct s; try done; cbn [getType getCellType mbind option_bind] in *; destruct (arity c) as [|[|n]]; try done;
    apply andb_false_iff in Ha as [Ha|Ha]; try (by apply bool_decide_eq_false in Ha; destruct Ha; eexists).
  all: unfold row; cbn [symbol]; unfold getMaj; by rewrite ?Ha.
Qed.

Section Operations.
Context `{TypeStore, SubnetStore}.

(** The simulator has an operation for a standard gate exactly if the number
    of links is one that the gate may have (an odd one for the majority), and the
    operation computes the function of the gate in each of the 64 bits, for every
    number of links; a majority of more than three links does so on words below
    [2 ^ 31]. *)
Theorem getFunction_correct c s : type c = GateID s → s ≠ OUT →
  match getFunction c with
  | Some (fn_word f) => gate_arity s (arity c) = true ∧ ∀ val ls ws, length ls = arity c → reads val ls ws →
      gate_words s ws → ∃ w, f val ls = Some w ∧ word w ∧
        ∀ k, (k < 64)%N → gate_fun s (bits k ws) = Some (N.testbit w k)
  | Some fn_cell => False
  | None => gate_arity s (arity c) = false
  end.
Proof.
  intros Ht Ho. destruct (gate_arity s (arity c)) eqn:Ea; [|by rewrite (getFunction_none c s)].
  assert (∀ val ls ws, length ls = arity c → reads val ls ws → gate_words s ws → ∃ f w,
    getFunction c = Some (fn_word f) ∧ f val ls = Some w ∧ word w ∧
    ∀ k, (k < 64)%N → gate_fun s (bits k ws) = Some (N.testbit w k)) as Hg.
  { intros val ls ws Hl Hr Hw. apply getFunction_spec; [done|done|done|apply Hw|].
    apply gate_arity_simulated; [|done]. by rewrite <- (Forall2_length Hr), Hl. }
  destruct (Hg (λ _, Some 0%N) (replicate (arity c) (LinkTo 0)) (replicate (arity c) 0%N)) as (f & _ & Ef & _).
  - apply length_replicate.
  - unfold reads. apply Forall2_replicate. done.
  - split; [by apply Forall_replicate|]. intros _ _. by apply Forall_replicate.
  - rewrite Ef. split; [done|]. intros val ls ws Hl Hr Hw. destruct (Hg val ls ws Hl Hr Hw) as (f' & w & Ef' & H1 & H2 & H3).
    rewrite Ef in Ef'. injection Ef' as <-. by exists w.
Qed.
End Operations.

(** ** The runs *)

Section Runs.
Context `{TypeStore, SubnetStore}.

(** All the cells can be simulated. *)
Definition sim_builder_ok (b : SubnetBuilder) : Prop := ∀ i c, is_live b i → getCell b i = Some c → sim_cell c = true.

(** The simulators of [b]: one that has been made, and one that has simulated
    words for the inputs. *)
Inductive simulators (b : SubnetBuilder) (ins : list nat) (d : gmap nat nat) : Simulator → Prop :=
  | sim_made s : make_simulator b d = Some s → simulators b ins d s
  | sim_run s depth values s' : simulators b ins d s → length values = length ins → Forall word values →
      simulate depth values s = Some ((), s') → simulators b ins d s'.

Lemma simulators_of b ins outs segs d s : WF b ins outs segs → (∀ i c, i ∈ order_of segs outs → getCell b i = Some c → sim_cell c = true) →
  (N.of_nat (length ins) < 2 ^ 16)%N → order_of segs outs ≠ [] → simulators b ins d s → simulator_of b ins outs segs s.
Proof.
  intros HW Hc Hn Hne. induction 1 as [s E|s depth values s' _ IH Hl Hw E].
  - destruct (simulator_made b ins outs segs HW Hc d Hne) as (s' & E' & Hs). congruence.
  - destruct (simulate_of b ins outs segs HW Hc Hn depth values s IH Hl Hw) as (s2 & E2 & Hs2 & _). congruence.
Qed.

(** C10 The simulator of a reachable builder of gates with at most three links to
    first ports (an odd number for the majority) and fewer than [2 ^ 16] inputs is
    made, every run of it ends, whatever it has simulated before, and after the
    run each of the 64 bits of a cell and of an output is the value that the cell
    and the link of the output have in every consistent valuation of the builder
    with these bits of the inputs. *)
Theorem simulate_correct b ins outs d : reachable (b, ins, outs) → sim_builder_ok b → entries b ≠ [] →
  (N.of_nat (length ins) < 2 ^ 16)%N →
  is_Some (make_simulator b d) ∧
  ∀ s depth values, simulators b ins d s → length values = length ins → Forall word values →
    ∃ s', simulate depth values s = Some ((), s') ∧ ∀ k v, (k < 64)%N → consistent v b → input_bits ins k v values →
      (∀ i c, is_live b i → getCell b i = Some c → type c ≠ GateID OUT →
        ∃ w, getValue s' i = Some w ∧ N.testbit w k = v i 0) ∧
      (∀ j o l, outs !! j = Some o → out_link b o l → (N.of_nat j < 2 ^ 16)%N →
        ∃ w, getOutput s' j = Some w ∧ N.testbit w k = lval v l).
Proof.
  intros Hr Hok Hne Hn. destruct (steps_wf _ _ Hr wf_empty) as [[segs HW] (_ & _ & Hem & _)]. specialize (Hem eq_refl). cbn [fst snd] in HW, Hem.
  assert (∀ i c, i ∈ order_of segs outs → getCell b i = Some c → sim_cell c = true) as Hc.
  { intros i c Hi. apply Hok. by apply (live_order _ _ _ _ _ HW). }
  assert (order_of segs outs ≠ []) as Ho.
  { intros E. pose proof (order_length _ _ _ _ HW Hem) as El. rewrite E in El. destruct Hne. by apply nil_length_inv. }
  split; [destruct (simulator_made b ins outs segs HW Hc d Ho) as (s & -> & _); by eexists|].
  intros s depth values Hs Hl Hw. apply (simulators_of b ins outs segs d s HW Hc Hn Ho) in Hs.
  destruct (simulate_of b ins outs segs HW Hc Hn depth values s Hs Hl Hw) as (s' & E & Hs' & Hon).
  exists s'. split; [done|]. intros k v Hk Hv Hb. specialize (Hon k v Hk Hv Hb). split.
  - intros i c Hi Hci Ht. destruct (Hon i) as (w & Ew & _ & Hwb); [by apply (live_order _ _ _ _ _ HW)|].
    exists w. split; [done|]. rewrite Hwb. unfold entry_value. rewrite Hci. unfold cell_is.
    by rewrite bool_decide_eq_false_2 by done.
  - intros j o l Hj (Hlo & _ & c & Hc' & Ht & El) Hjs. rewrite (getOutput_of b ins outs segs s' j o Hs' Hj Hjs).
    destruct (Hon o) as (w & Ew & _ & Hwb); [by apply (live_order _ _ _ _ _ HW)|]. exists w. split; [done|].
    rewrite Hwb. unfold entry_value. rewrite Hc', El. unfold cell_is. by rewrite bool_decide_eq_true_2 by done.
Qed.
End Runs.

(** ** Examples *)

Section Examples.
#[local] Existing Instance no_types.

Definition no_store : SubnetStore := λ _, None.
#[local] Existing Instance no_store.

(** The conjunction of two inputs. *)
Lemma getFunction_correct_witness :
  let c := mkCell 2 0 0 (GateID AND) (pad3 [LinkTo 0; LinkTo 1]) in
  match getFunction c with
  | Some (fn_word f) => gate_arity AND (arity c) = true ∧ ∀ val ls ws, length ls = arity c → reads val ls ws →
      gate_words AND ws → ∃ w, f val ls = Some w ∧ word w ∧
        ∀ k, (k < 64)%N → gate_fun AND (bits k ws) = Some (N.testbit w k)
  | Some fn_cell => False
  | None => gate_arity AND (arity c) = false
  end.
Proof.
  intros c. apply (getFunction_correct c AND); [reflexivity|discriminate].
Defined.

(** All the input vectors of the example at once: the words 10 and 12. *)
Lemma simulate_correct_witness : is_Some (make_simulator (demo 4) ∅) ∧
  ∀ s depth values, simulators (demo 4) [0; 1] ∅ s → length values = 2 → Forall word values →
    ∃ s', simulate depth values s = Some ((), s') ∧
      ∀ k v, (k < 64)%N → consistent v (demo 4) → input_bits [0; 1] k v values →
      (∀ i c, is_live (demo 4) i → getCell (demo 4) i = Some c → type c ≠ GateID OUT →
        ∃ w, getValue s' i = Some w ∧ N.testbit w k = v i 0) ∧
      (∀ j o l, [3] !! j = Some o → out_link (demo 4) o l → (N.of_nat j < 2 ^ 16)%N →
        ∃ w, getOutput s' j = Some w ∧ N.testbit w k = lval v l).
Proof.
  apply (simulate_correct (demo 4) [0; 1] [3] ∅ demo4_reachable).
  - intros i c [Hi _] Hc. assert (i < 4) as Hi4 by exact Hi.
    destruct i as [|[|[|[|i]]]]; [vm_compute in Hc; injection Hc as <-; reflexivity..|lia].
  - intros E. apply (f_equal length) in E. vm_compute in E. discriminate.
  - reflexivity.
Defined.

Lemma simulate_demo : (s ← make_simulator (demo 4) ∅; '(_, s) ← simulate 0 [10%N; 12%N] s; getOutput s 0) = Some 8%N.
Proof. vm_compute. reflexivity. Qed.
End Examples.
