(* ===== verification/RndCorrect.v ===== *)
(** * The results of the checker by simulation

    The exhaustive check decides whether the output of a subnet can be true, the
    random check finds input vectors only. *)

From stdpp Require Import gmap strings.
From S2P Require Import Prelude CellType SubnetBase Builder BuilderInv BuilderCorrect SubnetEval MiterSpec CopySpec Cnf Checker.
From S2P Require Import Simulator SimOps SimSpec RndChecker RndSpec.

Section Correct.
Context `{TypeStore, SubnetStore}.

Lemma sat_value_function s xs y : sn_wf s = true → sn_nOut s = 1 → sat_value s xs = y → sn_function s xs = Some [y].
Proof.
  intros Hw Ho <-. rewrite sn_function_outs by done. unfold sat_value. pose proof (sn_outs_length s xs) as Hl. rewrite Ho in Hl.
  destruct (sn_outs s xs) as [|z [|]]; [discriminate|done|discriminate].
Qed.

Lemma random_isSat rand depth tries s : sn_wf s = true → sim_ready s = true → sn_nOut s = 1 →
  (N.of_nat (sn_nIn s) < 2 ^ 16)%N → (∀ t, word (rand t)) →
  ∃ r, Rnd.isSat rand depth (mkRndChecker tries false) s = Some r ∧
    (r = result UNKNOWN ∧
       (∀ t k, t < tries → (k < 64)%N → sat_value s (bits k (try_words rand (sn_nIn s) t)) = false) ∨
     status r = NOTEQUAL ∧ length (counterEx r) = sn_nIn s ∧ sn_function s (counterEx r) = Some [true]).
Proof.
  intros Hw Hr Ho Hn Hrand. destruct (subnet_simulator s Hw Hr Ho (λ _, 0%N) ∅) as
    (b & ins & outs & segs & l & sim & E & HW & Hl & -> & Hc & Hv & Es & Hs).
  destruct (random_loop_spec s b ins segs l HW Hl Hn Hc Hv rand depth tries Hrand 0 sim Hs) as (r & Er & Hres).
  exists r. split.
  - unfold Rnd.isSat. cbn [exhaustive RndChecker.tries]. rewrite Ho, E. cbn [Nat.eqb mbind option_bind]. rewrite Es. exact Er.
  - destruct Hres as [[-> Hno]|(H1 & H2 & H3)]; [left|right].
    + split; [done|]. intros t k Ht. apply Hno. lia.
    + split_all; [done|done|]. by apply sat_value_function.
Qed.

(** C12 The exhaustive check decides: on a subnet of gates with one output and at
    most 32 inputs it ends with EQUAL if the output is false for all inputs and
    with NOTEQUAL otherwise.  Its counterexample is the vector of zeros, whatever
    the inputs on which the output is true; more inputs are an ERROR. *)
Theorem rnd_exhaustive_decides rand depth tries s : sn_wf s = true → sim_ready s = true → sn_nOut s = 1 →
  (N.of_nat (sn_nIn s) < 2 ^ 16)%N →
  let r := Rnd.isSat rand depth (mkRndChecker tries true) s in
  if 32 <? sn_nIn s then r = Some (result ERROR)
  else
    (r = Some (result EQUAL) ∧ ∀ xs, length xs = sn_nIn s → sn_function s xs = Some [false]) ∨
    (r = Some (mkResult NOTEQUAL (replicate (sn_nIn s) false)) ∧
      ∃ xs, length xs = sn_nIn s ∧ sn_function s xs = Some [true]).
Proof.
  intros Hw Hr Ho Hn. destruct (subnet_simulator s Hw Hr Ho (λ _, 0%N) ∅) as
    (b & ins & outs & segs & l & sim & E & HW & Hl & -> & Hc & Hv & Es & Hs).
  unfold Rnd.isSat. cbn [exhaustive]. rewrite Ho, E. cbn [Nat.eqb mbind option_bind]. rewrite Es. cbn [mbind option_bind].
  destruct (Nat.ltb_spec 32 (sn_nIn s)) as [Hgt|Hle]; [done|].
  destruct (exhaustive_loop_spec s b ins segs l HW Hl Hn Hc Hv depth (Rnd.iterations (sn_nIn s)) 0 sim ltac:(lia) Hs)
    as [[-> Ha]|[-> (xs & Hx & Hsat)]]; [left|right]; (split; [done|]).
  - intros xs Hx. apply sat_value_function; [done..|]. by apply (all_false_all s ins Hl Hn Ha).
  - exists xs. split; [done|]. by apply sat_value_function.
Qed.

(** C13 The random check ends, and what it finds is right: if it says NOTEQUAL,
    then the output is true on the counterexample; otherwise it says UNKNOWN. *)
Theorem rnd_random_sound rand depth tries s : sn_wf s = true → sim_ready s = true → sn_nOut s = 1 →
  (N.of_nat (sn_nIn s) < 2 ^ 16)%N → (∀ t, word (rand t)) →
  ∃ r, Rnd.isSat rand depth (mkRndChecker tries false) s = Some r ∧
    (r = result UNKNOWN ∨
     status r = NOTEQUAL ∧ length (counterEx r) = sn_nIn s ∧ sn_function s (counterEx r) = Some [true]).
Proof.
  intros Hw Hr Ho Hn Hrand. destruct (random_isSat rand depth tries s Hw Hr Ho Hn Hrand) as (r & Er & [[-> _]|Hf]);
    eexists; (split; [exact Er|]); [by left|by right].
Qed.

(** C14 The random check finds eventually: if the source of random numbers brings
    at some try an input vector on which the output is true, then with
    enough tries the check says NOTEQUAL and returns such a vector. *)
Theorem rnd_random_finds rand depth s t k : sn_wf s = true → sim_ready s = true → sn_nOut s = 1 →
  (N.of_nat (sn_nIn s) < 2 ^ 16)%N → (∀ t, word (rand t)) → (k < 64)%N →
  sn_function s (bits k (try_words rand (sn_nIn s) t)) = Some [true] →
  ∃ enough, ∀ tries, enough ≤ tries → ∃ xs,
    Rnd.isSat rand depth (mkRndChecker tries false) s = Some (mkResult NOTEQUAL xs) ∧ sn_function s xs = Some [true].
Proof.
  intros Hw Hr Ho Hn Hrand Hk Hf. exists (S t). intros tries Ht.
  destruct (random_isSat rand depth tries s Hw Hr Ho Hn Hrand) as ([st xs] & Er & [[_ Hno]|(Hst & _ & Hx)]).
  - specialize (Hno t k Ht Hk). rewrite (sat_value_function _ _ _ Hw Ho Hno) in Hf. discriminate.
  - cbn in Hst. subst st. by exists xs.
Qed.
End Correct.

(** ** Examples *)

Section Examples.
#[local] Existing Instance no_types.

Definition no_stored : SubnetStore := λ _, None.
#[local] Existing Instance no_stored.

Lemma rnd_exhaustive_decides_witness :
  let r := Rnd.isSat (λ _, 0%N) 0 (mkRndChecker 0 true) nand_subnet in
  (r = Some (result EQUAL) ∧ ∀ xs, length xs = 2 → sn_function nand_subnet xs = Some [false]) ∨
  (r = Some (mkResult NOTEQUAL [false; false]) ∧ ∃ xs, length xs = 2 ∧ sn_function nand_subnet xs = Some [true]).
Proof. apply (rnd_exhaustive_decides (λ _, 0%N) 0 0 nand_subnet); vm_compute; reflexivity. Defined.

Lemma rnd_random_sound_witness : ∃ r, Rnd.isSat (λ n, N.of_nat n mod 2 ^ 31)%N 0 (mkRndChecker 2 false) nand_subnet = Some r ∧
  (r = result UNKNOWN ∨
   status r = NOTEQUAL ∧ length (counterEx r) = 2 ∧ sn_function nand_subnet (counterEx r) = Some [true]).
Proof.
  apply (rnd_random_sound (λ n, N.of_nat n mod 2 ^ 31)%N 0 2 nand_subnet); [vm_compute; reflexivity..|].
  intros t. unfold word. pose proof (N.mod_lt (N.of_nat t) (2 ^ 31) ltac:(discriminate)). 
  eapply N.lt_trans; [exact H|reflexivity].
Defined.

Lemma rnd_random_finds_witness : ∃ enough, ∀ tries, enough ≤ tries → ∃ xs,
  Rnd.isSat (λ n, if Nat.even n then 0 else 5)%N 0 (mkRndChecker tries false) nand_subnet = Some (mkResult NOTEQUAL xs) ∧
  sn_function nand_subnet xs = Some [true].
Proof.
  apply (rnd_random_finds (λ n, if Nat.even n then 0 else 5)%N 0 nand_subnet 3 2); [vm_compute; reflexivity..| | |].
  - intros n. unfold word. by destruct (Nat.even n).
  - vm_compute. reflexivity.
  - vm_compute. reflexivity.
Defined.

(** On the conjunction of the inputs the counterexample is no such input. *)
Definition and_subnet : Subnet :=
  mkSubnet 2 1 4 0
    [ECell (mkCell 0 0 1 (GateID IN) (pad3 [])); ECell (mkCell 0 0 1 (GateID IN) (pad3 []));
     ECell (mkCell 2 0 1 (GateID AND) (pad3 [LinkTo 0; LinkTo 1]));
     ECell (mkCell 1 0 0 (GateID OUT) (pad3 [LinkTo 2]))].

Lemma rnd_counterexample_wrong :
  Rnd.isSat (λ _, 0%N) 0 (mkRndChecker 0 true) and_subnet = Some (mkResult NOTEQUAL [false; false]) ∧
  sn_function and_subnet [false; false] = Some [false].
Proof. split; vm_compute; reflexivity. Qed.
End Examples.
