(* ===== verification/Comparison.v ===== *)
(** * Comparisons ([gate/synthesizer/operation/comparison.cpp])

    The subnets of the comparisons of two numbers, with and without sign. *)

From S2P Require Import Prelude CellType SubnetBase Builder BuilderInv BuilderSpec BuilderEval MakeSpec.
From S2P Require Import CellAttr Adder AdderSum AdderArith Synth SynthArith SynthBits.
From stdpp Require Import gmap strings.

(** ** Definitions *)

Section Routines.
Context `{TypeStore}.

Definition inverse_link (inverse : bool) (l : Link) : Link := if inverse then link_not l else l.

(** The indices have 16 bits: the second loop does not end for [2 ^ 16] links. *)
(* gate/synthesizer/operation/comparison.cpp:17-40 [generatePropagate] *)
Definition generatePropagate (inputsA inputsB : LinkList) (inverse : bool) : st SubnetBuilder LinkList :=
  let minSize := u16 (min (length inputsA) (length inputsB)) in
  low ← st_map (λ i,
    a ← link_at inputsA i; b ← link_at inputsB i;
    p ← addGate XOR [a; b]; mret (inverse_link inverse p)) (seq 0 minSize);
  let size := max (length inputsA) (length inputsB) in
  let bigger := if size =? length inputsA then inputsA else inputsB in
  st_assert (u16 size =? size) ;;
  mret (low ++ (inverse_link inverse <$> drop minSize bigger)).

(* gate/synthesizer/operation/comparison.cpp:43-54 [generateSignedComparison] *)
Definition generateSignedComparison (more signA signB : Link) : st SubnetBuilder Link :=
  firstAnd ← addGate AND [more; signB];
  secondAnd ← addGate AND [more; link_not signA];
  thirdAnd ← addGate AND [link_not signA; signB];
  addCellTree OR [firstAnd; secondAnd; thirdAnd] 2.

(** The variables of the two loops; [endP] is the position of the iterator in
    [propagate]. *)
Record Cascade := mkCascade {
  orResult : LinkList;
  currAnd : Link;
  endP : nat;
}.

(** The iterator moves back; after the first iteration the cascade starts. *)
(* gate/synthesizer/operation/comparison.cpp:155-162 [generateComparison] *)
Definition cascade_next (propagate : LinkList) (first : bool) (s : Cascade) : st SubnetBuilder Cascade :=
  let e := if endP s =? 0 then endP s else endP s - 1 in
  if first && negb (e =? length propagate) then
    c ← link_at propagate e; mret (mkCascade (orResult s) c e)
  else mret (mkCascade (orResult s) (currAnd s) e).

(** From the third iteration on the next link is put before the cascade. *)
(* gate/synthesizer/operation/comparison.cpp:142-144 [generateComparison] *)
Definition cascade_and (propagate : LinkList) (maxSize i : nat) (s : Cascade) : st SubnetBuilder Link :=
  if i <? maxSize - 2 then p ← link_at propagate (endP s); addGate AND [currAnd s; p]
  else mret (currAnd s).

(* gate/synthesizer/operation/comparison.cpp:108-129 [generateComparison] *)
Definition high_step (inputsA propagate : LinkList) (maxSize i : nat) (s : Cascade) : st SubnetBuilder Cascade :=
  let first := i =? maxSize - 1 in
  a ← link_at inputsA i;
  s ← (if first then r ← set_link (orResult s) i a; mret (mkCascade r (currAnd s) (endP s))
       else
         c ← cascade_and propagate maxSize i s;
         x ← addGate AND [c; a];
         r ← set_link (orResult s) i x; mret (mkCascade r c (endP s)));
  cascade_next propagate first s.

(* gate/synthesizer/operation/comparison.cpp:132-163 [generateComparison] *)
Definition low_step (inputsA inputsB propagate : LinkList) (maxSize i : nat) (s : Cascade) : st SubnetBuilder Cascade :=
  let first := i =? maxSize - 1 in
  c ← (if i <? maxSize - 1 then cascade_and propagate maxSize i s else mret (currAnd s));
  a ← link_at inputsA i;
  b ← link_at inputsB i;
  let andOperation := (if i <? maxSize - 1 then [c] else []) ++ [a; link_not b] in
  x ← (if 1 <? length andOperation then addCellTree AND andOperation 2 else back andOperation);
  r ← set_link (orResult s) i x;
  cascade_next propagate first (mkCascade r c (endP s)).

(** [for (i = hi - 1; i >= lo; --i)] *)
Fixpoint down_loop (step : nat → Cascade → st SubnetBuilder Cascade) (n lo : nat) (s : Cascade) : st SubnetBuilder Cascade :=
  match n with
  | 0 => mret s
  | S n => s ← step (lo + n) s; down_loop step n lo s
  end.

(** The cascade at the start: the part of [inputsB] above [inputsA]. *)
(* gate/synthesizer/operation/comparison.cpp:78-104 [generateComparison] *)
Definition cascade_start (propagate : LinkList) (sizeA delta : nat) (biggerIsA : bool) : st SubnetBuilder Cascade :=
  let orResult := replicate sizeA (LinkTo 0) in
  let endP := length propagate in
  if negb (delta =? 0) && negb biggerIsA then
    st_assert (delta <=? endP) ;;
    c ← (if 2 <? delta then addCellTree AND (drop (endP - delta + 1) propagate) 2 else back propagate);
    mret (mkCascade orResult c (endP - delta))
  else mret (mkCascade orResult (LinkTo 0) endP).

(** [inputsA > inputsB] and the links of the equal bits. *)
(* gate/synthesizer/operation/comparison.cpp:56-171 [generateComparison] *)
Definition generateComparison (inputsA inputsB : LinkList) (useEquality : bool)
    : st SubnetBuilder (Link * LinkList) :=
  let minSize := min (length inputsA) (length inputsB) in
  let maxSize := max (length inputsA) (length inputsB) in
  let biggerIsA := length inputsB <? length inputsA in
  let skip := if useEquality then 0 else 1 in
  propagate ← (if (skip <? length inputsA) || (skip <? length inputsB) then
                 st_assert ((skip <=? length inputsA) && (skip <=? length inputsB)) ;;
                 generatePropagate (drop skip inputsA) (drop skip inputsB) true
               else mret []);
  let delta := maxSize - minSize in
  s ← cascade_start propagate (length inputsA) delta biggerIsA;
  s ← (if biggerIsA then down_loop (high_step inputsA propagate maxSize) delta minSize s else mret s);
  s ← down_loop (low_step inputsA inputsB propagate maxSize) minSize 0 s;
  output ← (if 1 <? length (orResult s) then addCellTree OR (orResult s) 2 else back (orResult s));
  mret (output, propagate).

(** The widths have 16 bits, so that the loop over a 16-bit index ends. *)
(* gate/synthesizer/operation/comparison.cpp:175-187 [fillBySignum] *)
Definition fillBySignum (inputsA : LinkList) (signA : Link) (inputsB : LinkList) (signB : Link)
    : LinkList * LinkList :=
  if length inputsB <? length inputsA then
    (inputsA, inputsB ++ replicate (length inputsA - length inputsB) signB)
  else (inputsA ++ replicate (length inputsB - length inputsA) signA, inputsB).

(** [list.size() > 1 ? builder.addCellTree(symbol, list, 2) : list.back()] *)
Definition tree_or_back (symbol : CellSymbol) (ls : LinkList) : st SubnetBuilder Link :=
  if 1 <? length ls then addCellTree symbol ls 2 else back ls.

(* gate/synthesizer/operation/comparison.cpp:190-210 [synthXeqU] *)
Definition synthXeqU (attr : CellTypeAttr) (positive : bool) : option Subnet := run_make (
  wA ← in_width attr 0; inputsForA ← addInputs wA;
  wB ← in_width attr 1; inputsForB ← addInputs wB;
  propagate ← generatePropagate inputsForA inputsForB false;
  x ← tree_or_back OR propagate;
  let link := link_not x in
  addOutput (if positive then link else link_not link) ;;
  w ← out_width attr 0; extendOutput w false).

(* gate/synthesizer/operation/comparison.cpp:213-234 [synthXeqS] *)
Definition synthXeqS (attr : CellTypeAttr) (positive : bool) : option Subnet := run_make (
  wA ← in_width attr 0; inputsForA ← addInputs wA;
  wB ← in_width attr 1; inputsForB ← addInputs wB;
  signA ← back inputsForA; signB ← back inputsForB;
  let '(inputsForA, inputsForB) := fillBySignum inputsForA signA inputsForB signB in
  propagate ← generatePropagate inputsForA inputsForB false;
  x ← tree_or_back OR propagate;
  let link := link_not x in
  addOutput (if positive then link else link_not link) ;;
  w ← out_width attr 0; extendOutput w false).

Definition swap_operands {X} (makeSwap : bool) (a b : X) : X * X := if makeSwap then (b, a) else (a, b).

(* gate/synthesizer/operation/comparison.cpp:237-255 [synthXtU] *)
Definition synthXtU (attr : CellTypeAttr) (makeSwap : bool) : option Subnet := run_make (
  wA ← in_width attr 0; inputsForA ← addInputs wA;
  wB ← in_width attr 1; inputsForB ← addInputs wB;
  let '(inputsForA, inputsForB) := swap_operands makeSwap inputsForA inputsForB in
  r ← generateComparison inputsForA inputsForB false;
  addOutput r.1 ;;
  w ← out_width attr 0; extendOutput w false).

(** Inputs for a number with sign: all but the last bit and the last one.  The
    width is a positive number of 16 bits. *)
Definition signed_inputs (attr : CellTypeAttr) (i : N) : st SubnetBuilder (LinkList * Link) :=
  w ← in_width attr i;
  st_assert (0 <? w) ;;
  inputs ← addInputs (w - 1);
  sign ← addInput;
  mret (inputs, sign).

(** Both operands have one bit. *)
Definition one_bit (attr : CellTypeAttr) : option bool :=
  wA ← getInWidth attr 0; wB ← getInWidth attr 1; Some ((wA =? 1) && (wB =? 1))%N.

(* gate/synthesizer/operation/comparison.cpp:258-290 [synthXtS] *)
Definition synthXtS (attr : CellTypeAttr) (makeSwap : bool) : option Subnet :=
  one ← one_bit attr;
  if one : bool then synthXtU attr (negb makeSwap)
  else run_make (
    '(inputsForA, signA) ← signed_inputs attr 0;
    '(inputsForB, signB) ← signed_inputs attr 1;
    let '(inputsForA, inputsForB) := fillBySignum inputsForA signA inputsForB signB in
    let '(inputsForA, inputsForB) := swap_operands makeSwap inputsForA inputsForB in
    let '(signA, signB) := swap_operands makeSwap signA signB in
    r ← generateComparison inputsForA inputsForB false;
    x ← generateSignedComparison r.1 signA signB;
    addOutput x ;;
    w ← out_width attr 0; extendOutput w false).

(* gate/synthesizer/operation/comparison.cpp:293-319 [synthXteU] *)
Definition synthXteU (attr : CellTypeAttr) (makeSwap : bool) : option Subnet := run_make (
  wA ← in_width attr 0; inputsForA ← addInputs wA;
  wB ← in_width attr 1; inputsForB ← addInputs wB;
  let '(inputsForA, inputsForB) := swap_operands makeSwap inputsForA inputsForB in
  '(more, propagate) ← generateComparison inputsForA inputsForB true;
  equal ← tree_or_back AND propagate;
  x ← addGate OR [equal; more];
  addOutput x ;;
  w ← out_width attr 0; extendOutput w false).

(* gate/synthesizer/operation/comparison.cpp:322-366 [synthXteS] *)
Definition synthXteS (attr : CellTypeAttr) (makeSwap : bool) : option Subnet :=
  one ← one_bit attr;
  if one : bool then synthXteU attr (negb makeSwap)
  else run_make (
    '(inputsForA, signA) ← signed_inputs attr 0;
    '(inputsForB, signB) ← signed_inputs attr 1;
    let '(inputsForA, inputsForB) := fillBySignum inputsForA signA inputsForB signB in
    let '(inputsForA, inputsForB) := swap_operands makeSwap inputsForA inputsForB in
    let '(signA, signB) := swap_operands makeSwap signA signB in
    '(more, propagate) ← generateComparison inputsForA inputsForB true;
    p ← addGate XOR [signA; signB];
    equal ← tree_or_back AND (propagate ++ [link_not p]);
    more ← generateSignedComparison more signA signB;
    x ← addGate OR [equal; more];
    addOutput x ;;
    w ← out_width attr 0; extendOutput w false).

(* gate/synthesizer/operation/comparison.cpp:368-370 [synthEqS] *)
Definition synthEqS (attr : CellTypeAttr) := synthXeqS attr true.
(* gate/synthesizer/operation/comparison.cpp:372-374 [synthEqU] *)
Definition synthEqU (attr : CellTypeAttr) := synthXeqU attr true.
(* gate/synthesizer/operation/comparison.cpp:376-378 [synthNeqS] *)
Definition synthNeqS (attr : CellTypeAttr) := synthXeqS attr false.
(* gate/synthesizer/operation/comparison.cpp:380-382 [synthNeqU] *)
Definition synthNeqU (attr : CellTypeAttr) := synthXeqU attr false.
(* gate/synthesizer/operation/comparison.cpp:384-386 [synthLtS] *)
Definition synthLtS (attr : CellTypeAttr) := synthXtS attr true.
(* gate/synthesizer/operation/comparison.cpp:388-390 [synthLtU] *)
Definition synthLtU (attr : CellTypeAttr) := synthXtU attr true.
(* gate/synthesizer/operation/comparison.cpp:392-394 [synthLteS] *)
Definition synthLteS (attr : CellTypeAttr) := synthXteS attr true.
(* gate/synthesizer/operation/comparison.cpp:396-398 [synthLteU] *)
Definition synthLteU (attr : CellTypeAttr) := synthXteU attr true.
(* gate/synthesizer/operation/comparison.cpp:400-402 [synthGtU] *)
Definition synthGtU (attr : CellTypeAttr) := synthXtU attr false.
(* gate/synthesizer/operation/comparison.cpp:404-406 [synthGtS] *)
Definition synthGtS (attr : CellTypeAttr) := synthXtS attr false.
(* gate/synthesizer/operation/comparison.cpp:408-410 [synthGteS] *)
Definition synthGteS (attr : CellTypeAttr) := synthXteS attr false.
(* gate/synthesizer/operation/comparison.cpp:412-414 [synthGteU] *)
Definition synthGteU (attr : CellTypeAttr) := synthXteU attr false.
End Routines.
