(* ===== verification/ComparisonSpec.v ===== *)
(** * The comparator: the cascade of equal bits and the order of numbers *)

From S2P Require Import Prelude CellType SubnetBase Builder BuilderInv BuilderSpec BuilderEval MakeSpec.
From S2P Require Import CellAttr Adder AdderSum AdderArith Synth SynthArith SynthBits Comparison.
From stdpp Require Import gmap strings.

(** ** Numbers by their bits *)

Definition num (n : nat) (f : nat → bool) : Z := Z_of_bits (f <$> seq 0 n).

(** The bits from [i] on are equal. *)
Definition same_above (n : nat) (f g : nat → bool) (i : nat) : bool :=
  forallb (λ m, eqb (f m) (g m)) (seq i (n - i)).

(** The bit [j] is the highest in which the numbers differ, and is set in the first. *)
Definition greater_at (n : nat) (f g : nat → bool) (j : nat) : bool :=
  f j && negb (g j) && same_above n f g (S j).

Lemma num_S n f : num (S n) f = (num n f + 2 ^ Z.of_nat n * Z.b2z (f n))%Z.
Proof. unfold num. rewrite seq_S, fmap_app. cbn [fmap list_fmap Nat.add]. by rewrite Z_of_bits_snoc, length_fmap, length_seq. Qed.

Lemma num_bound n f : (0 ≤ num n f < 2 ^ Z.of_nat n)%Z.
Proof. unfold num. pose proof (Z_of_bits_bound (f <$> seq 0 n)) as Hb. by rewrite length_fmap, length_seq in Hb. Qed.

Lemma num_bits l n : length l ≤ n → Z_of_bits l = num n (bit l).
Proof.
  intros Hl. unfold num. replace (bit l <$> seq 0 n) with (l ++ replicate (n - length l) false).
  { by rewrite Z_of_bits_app, Z_of_bits_replicate_false, Z.mul_0_r, Z.add_0_r. }
  apply list_eq. intros i. rewrite list_lookup_fmap. unfold bit. destruct (decide (i < n)) as [Hi|Hi].
  - rewrite lookup_seq_lt by done. cbn. destruct (decide (i < length l)) as [Hil|Hil].
    + rewrite lookup_app_l by done. by destruct (lookup_lt_is_Some_2 l i Hil) as [? ->].
    + rewrite lookup_app_r, lookup_replicate_2 by lia. by rewrite lookup_ge_None_2 by lia.
  - rewrite lookup_ge_None_2 by (rewrite length_app, length_replicate; lia). by rewrite lookup_seq_ge by lia.
Qed.

Lemma forallb_ext_in {A} (f g : A → bool) l : (∀ x, x ∈ l → f x = g x) → forallb f l = forallb g l.
Proof. induction l as [|x l IH]; intros He; cbn; [done|]. rewrite He, IH by set_solver. done. Qed.

Lemma existsb_ext_in {A} (f g : A → bool) l : (∀ x, x ∈ l → f x = g x) → existsb f l = existsb g l.
Proof. induction l as [|x l IH]; intros He; cbn; [done|]. rewrite He, IH by set_solver. done. Qed.

Lemma existsb_const_false {A} (l : list A) : existsb (λ _, false) l = false.
Proof. by induction l. Qed.

Lemma existsb_andb {A} (f : A → bool) c l : existsb (λ x, f x && c) l = existsb f l && c.
Proof. induction l as [|x l IH]; cbn; [done|]. rewrite IH. by destruct (f x), c, (existsb f l). Qed.

Lemma same_above_S n f g i : i ≤ n → same_above (S n) f g i = same_above n f g i && eqb (f n) (g n).
Proof.
  intros Hi. unfold same_above. replace (S n - i) with (S (n - i)) by lia. rewrite seq_S, forallb_app. cbn.
  replace (i + (n - i)) with n by lia. by rewrite andb_true_r.
Qed.

Lemma same_above_step n f g i : i < n → same_above n f g i = eqb (f i) (g i) && same_above n f g (S i).
Proof. intros Hi. unfold same_above. by replace (n - i) with (S (n - S i)) by lia. Qed.

Lemma same_above_all n f g i : n ≤ i → same_above n f g i = true.
Proof. intros Hi. unfold same_above. by replace (n - i) with 0 by lia. Qed.

Lemma num_eqb n f g : (num n f =? num n g)%Z = same_above n f g 0.
Proof.
  induction n as [|n IH]; [done|]. rewrite same_above_S, <- IH, !num_S by lia.
  pose proof (num_bound n f). pose proof (num_bound n g). set (p := (2 ^ Z.of_nat n)%Z) in *.
  destruct (f n), (g n), (Z.eqb_spec (num n f) (num n g)); cbn [Z.b2z eqb andb]; lia.
Qed.

Lemma num_ltb n f g : (num n g <? num n f)%Z = existsb (greater_at n f g) (seq 0 n).
Proof.
  induction n as [|n IH]; [done|]. rewrite seq_S, existsb_app. cbn [existsb Nat.add].
  unfold greater_at at 2. rewrite same_above_all, orb_false_r, andb_true_r by lia.
  rewrite (existsb_ext_in _ (λ j, greater_at n f g j && eqb (f n) (g n))).
  2:{ intros j Hj. apply elem_of_seq in Hj. unfold greater_at. rewrite same_above_S by lia. by rewrite andb_assoc. }
  rewrite existsb_andb, <- IH, !num_S. pose proof (num_bound n f). pose proof (num_bound n g).
  set (p := (2 ^ Z.of_nat n)%Z) in *.
  destruct (f n), (g n), (Z.ltb_spec (num n g) (num n f)); cbn [Z.b2z eqb negb andb orb]; lia.
Qed.

(** ** Links that denote the bits of a function *)

Section Cells.
Context `{TypeStore}.

Lemma denotes_pointwise b ls n (g : valuation → nat → bool) : length ls = n →
  (∀ i l, ls !! i = Some l → denotes b l (λ v, g v i)) → denotes_all b ls (λ v, g v <$> seq 0 n).
Proof.
  intros <- Hd. apply denotes_all_map, Forall2_same_length_lookup. split; [by rewrite length_seq|].
  intros i x l Hx Hl. apply lookup_seq in Hx as [-> _]. by apply Hd.
Qed.

Lemma denotes_point b ls n (g : valuation → nat → bool) i : denotes_all b ls (λ v, g v <$> seq 0 n) →
  length ls = n → i < n → ∃ l, ls !! i = Some l ∧ denotes b l (λ v, g v i).
Proof.
  intros [Hs Hv] <- Hi. destruct (lookup_lt_is_Some_2 ls i Hi) as [l El]. exists l. split; [done|].
  split; [by eapply src_at|]. intros v Hc. specialize (Hv v Hc). apply (f_equal (λ w, w !! i)) in Hv.
  rewrite !list_lookup_fmap, El, lookup_seq_lt in Hv by done. by injection Hv.
Qed.

Lemma adds_assoc_l {A B C} ins outs b (m : st SubnetBuilder A) (f : A → st SubnetBuilder B)
    (g : B → st SubnetBuilder C) Q :
  adds ins outs b (m ≫= λ a, f a ≫= g) Q → adds ins outs b ((m ≫= f) ≫= g) Q.
Proof. intros (c & b' & E & HQ). exists c, b'. split; [|done]. by rewrite bind_assoc. Qed.

(** *** Trees and gates *)

Section Tree.
Context (s : CellSymbol) (ty : CellType).
Context (Hty : getCellType s = Some ty) (Hr : regroupable (props ty) = true).

Lemma tree_denotes ls f b ins outs : wf b ins outs → denotes_all b ls f → ls ≠ [] →
  adds ins outs b (addCellTree s ls 2) (λ b' l, denotes b' l (λ v, reduce s (f v))).
Proof using Hty Hr.
  intros Hw [Hs Hf] Hne. eapply adds_mono.
  { apply (addCellTree_spec s ty Hty Hr 2 ls b ins outs); [unfold InPlaceLinks; lia|done..]. }
  intros l b' He [Hl Hv]. split; [done|]. intros v Hc. unfold reduce.
  rewrite <- Hf by by eapply consistent_ext. by rewrite (Hv v Hc).
Qed.

Lemma tree_or_back_denotes ls f b ins outs : wf b ins outs → denotes_all b ls f → ls ≠ [] →
  adds ins outs b (tree_or_back s ls) (λ b' l, denotes b' l (λ v, reduce s (f v))).
Proof using Hty Hr.
  intros Hw D Hne. unfold tree_or_back. destruct (Nat.ltb_spec 1 (length ls)); [by apply tree_denotes|].
  destruct ls as [|l [|]]; [done| |cbn in *; lia]. exists l, b. split; [done|]. split_all; [done|done|].
  destruct D as [Hs Hv]. split; [by inversion Hs|]. intros v Hc. unfold reduce. rewrite <- Hv by done. cbn [fmap list_fmap].
  by rewrite (regroupable_single s ty Hty Hr).
Qed.
End Tree.

Lemma reduce_and xs : xs ≠ [] → reduce AND xs = forallb id xs.
Proof. by destruct xs. Qed.
Lemma reduce_or xs : xs ≠ [] → reduce OR xs = existsb id xs.
Proof. by destruct xs. Qed.

Lemma forallb_fmap {A} (f : A → bool) l : forallb id (f <$> l) = forallb f l.
Proof. induction l as [|x l IH]; cbn; [done|]. by rewrite IH. Qed.
Lemma existsb_fmap {A} (f : A → bool) l : existsb id (f <$> l) = existsb f l.
Proof. induction l as [|x l IH]; cbn; [done|]. by rewrite IH. Qed.
Lemma negb_existsb_fmap {A} (f : A → bool) l : negb (existsb id (f <$> l)) = forallb (λ x, negb (f x)) l.
Proof. induction l as [|x l IH]; cbn; [done|]. rewrite negb_orb, IH. done. Qed.

Lemma and_tree ls f b ins outs : wf b ins outs → denotes_all b ls f → ls ≠ [] → (∀ v, f v ≠ []) →
  adds ins outs b (addCellTree AND ls 2) (λ b' l, denotes b' l (λ v, forallb id (f v))).
Proof.
  intros Hw D Hne Hf. eapply adds_mono; [by eapply (tree_denotes AND)|]. intros l b' _ Dl.
  eapply denotes_eq; [|exact Dl]. intros v. by apply reduce_and.
Qed.

Lemma or_tree_or_back ls f b ins outs : wf b ins outs → denotes_all b ls f → ls ≠ [] → (∀ v, f v ≠ []) →
  adds ins outs b (tree_or_back OR ls) (λ b' l, denotes b' l (λ v, existsb id (f v))).
Proof.
  intros Hw D Hne Hf. eapply adds_mono; [by eapply (tree_or_back_denotes OR)|]. intros l b' _ Dl.
  eapply denotes_eq; [|exact Dl]. intros v. by apply reduce_or.
Qed.

Lemma and_tree_or_back ls f b ins outs : wf b ins outs → denotes_all b ls f → ls ≠ [] → (∀ v, f v ≠ []) →
  adds ins outs b (tree_or_back AND ls) (λ b' l, denotes b' l (λ v, forallb id (f v))).
Proof.
  intros Hw D Hne Hf. eapply adds_mono; [by eapply (tree_or_back_denotes AND)|]. intros l b' _ Dl.
  eapply denotes_eq; [|exact Dl]. intros v. by apply reduce_and.
Qed.
End Cells.

(** ** The links of the equal bits *)

Section Propagate.
Context `{TypeStore}.

Lemma inverse_denotes b l f inverse : denotes b l f → denotes b (inverse_link inverse l) (λ v, xorb inverse (f v)).
Proof.
  intros D. destruct inverse; cbn [inverse_link].
  - eapply denotes_eq; [|exact (denotes_not _ _ _ D)]. done.
  - eapply denotes_eq; [|exact D]. intros v. cbn. by destruct (f v).
Qed.

Lemma generatePropagate_spec x y inverse b ins outs :
  wf b ins outs → srcs b x → srcs b y → max (length x) (length y) < 2 ^ 16 →
  adds ins outs b (generatePropagate x y inverse) (λ b' r, length r = max (length x) (length y) ∧
    denotes_all b' r (λ v, (λ i, xorb inverse (xorb (bit (word v x) i) (bit (word v y) i))) <$>
      seq 0 (max (length x) (length y)))).
Proof.
  intros Hw Hx Hy Hl. unfold generatePropagate. rewrite !u16_small by lia. set (k := min (length x) (length y)).
  eapply adds_bind.
  { apply (adds_map ins outs _ (λ b' i l, denotes b' l (λ v, xorb inverse (xorb (bit (word v x) i) (bit (word v y) i))))
      (seq 0 k)); [|done|].
    { intros b1 b2 i l He D. eapply denotes_ext; [exact He|exact D]. }
    intros i b' Hi Hw' He. apply elem_of_seq in Hi.
    destruct (lookup_lt_is_Some_2 x i) as [lx Ex]; [lia|]. destruct (lookup_lt_is_Some_2 y i) as [ly Ey]; [lia|].
    eapply adds_read_bind; [exact Ex|]. eapply adds_read_bind; [exact Ey|].
    eapply adds_bind.
    { apply add_xor; [done|exact (denotes_at b' x lx i (srcs_ext _ _ _ He Hx) Ex)|exact (denotes_at b' y ly i (srcs_ext _ _ _ He Hy) Ey)]. }
    intros p b2 Hw2 _ Dp. apply adds_ret; [done|]. exact (inverse_denotes _ _ _ inverse Dp). }
  intros low b' Hw' He HF. rewrite Nat.eqb_refl. eapply adds_assert_bind; [done|]. apply adds_ret; [done|].
  assert (length low = k) as Ll by (rewrite <- (Forall2_length _ _ _ HF); apply length_seq).
  set (big := if max (length x) (length y) =? length x then x else y).
  assert (length big = max (length x) (length y)) as Lb.
  { unfold big. destruct (Nat.eqb_spec (max (length x) (length y)) (length x)); lia. }
  assert (length (low ++ (inverse_link inverse <$> drop k big)) = max (length x) (length y)) as Lr.
  { rewrite length_app, length_fmap, length_drop. lia. }
  split; [done|]. apply denotes_pointwise; [done|]. intros i l Hi. apply lookup_app_Some in Hi as [Hi|[Hge Hi]].
  - rewrite Forall2_lookup in HF. specialize (HF i). rewrite Hi in HF. inversion HF as [u ? D Eu|]; subst.
    symmetry in Eu. apply lookup_seq in Eu as [-> _]. exact D.
  - rewrite list_lookup_fmap, lookup_drop, Ll in Hi. replace (k + (i - k)) with i in Hi by lia.
    destruct (big !! i) as [m|] eqn:Em; [|done]. injection Hi as <-. apply inverse_denotes.
    apply lookup_lt_Some in Em as Him. rewrite Lb in Him. unfold big in Em.
    destruct (Nat.eqb_spec (max (length x) (length y)) (length x)) as [E|E].
    + eapply denotes_eq; [|exact (denotes_at b' x m i (srcs_ext _ _ _ He Hx) Em)]. intros v. cbn.
      rewrite (bit_high v y) by lia. by rewrite xorb_false_r.
    + eapply denotes_eq; [|exact (denotes_at b' y m i (srcs_ext _ _ _ He Hy) Em)]. intros v. cbn.
      rewrite (bit_high v x) by lia. by rewrite xorb_false_l.
Qed.
End Propagate.

(** ** The cascade *)

Section Cascade.
Context `{TypeStore}.
Context (x y propagate : LinkList) (o : nat) (ins outs : list nat).

Let n := max (length x) (length y).
Let fx (v : valuation) := bit (word v x).
Let fy (v : valuation) := bit (word v y).

(** The words, and the links of the equal bits from [o] on. *)
Definition operands (b : SubnetBuilder) : Prop :=
  srcs b x ∧ srcs b y ∧
  ∀ i, o ≤ i < n → ∃ l, propagate !! (i - o) = Some l ∧ denotes b l (λ v, eqb (fx v i) (fy v i)).

Definition found (b : SubnetBuilder) (r : LinkList) (k : nat) : Prop :=
  length r = length x ∧ ∀ j l, k ≤ j → r !! j = Some l → denotes b l (λ v, greater_at n (fx v) (fy v) j).

(** The bits [k - 1], ..., 0 are left. *)
Definition cascade_inv (k : nat) (b : SubnetBuilder) (s : Cascade) : Prop :=
  found b (orResult s) k ∧ (k = n → endP s = length propagate) ∧
  (0 < k < n → endP s + o = k ∧
     denotes b (currAnd s) (λ v, same_above n (fx v) (fy v) (min (k + 1) (n - 1)))).

Context (Ho : o ≤ 1) (Hlen : length propagate = n - o) (Hn : 0 < n).

Lemma operands_ext b b' : ext b b' → operands b → operands b'.
Proof.
  intros He (Hx & Hy & Hp). unfold operands. split_all; [by eapply srcs_ext|by eapply srcs_ext|].
  intros i Hi. destruct (Hp i Hi) as (l & El & D). exists l. split; [done|]. eapply denotes_ext; [exact He|exact D].
Qed.

Lemma found_ext b b' r k : ext b b' → found b r k → found b' r k.
Proof. intros He [Hl Hf]. split; [done|]. intros j l Hj El. eapply denotes_ext; [exact He|]. by apply Hf. Qed.

Lemma found_insert b r i l : found b r (S i) → denotes b l (λ v, greater_at n (fx v) (fy v) i) → found b (<[i := l]> r) i.
Proof.
  intros [Hl Hf] D. split; [by rewrite length_insert|]. intros j m Hj Em. destruct (decide (j = i)) as [->|Hne].
  - apply list_lookup_insert_Some in Em as [(_ & <- & _)|[? _]]; [exact D|done].
  - rewrite list_lookup_insert_ne in Em by done. apply (Hf j m); [lia|done].
Qed.

(** The link of a bit of [propagate]. *)
Lemma equal_link b i : operands b → o ≤ i < n → ∃ l, propagate !! (i - o) = Some l ∧
  denotes b l (λ v, eqb (fx v i) (fy v i)).
Proof. intros (_ & _ & Hp). apply Hp. Qed.

Lemma cascade_next_spec i s b : wf b ins outs → operands b → i < n → found b (orResult s) i →
  (i = n - 1 → endP s = length propagate) →
  (0 < i → i < n - 1 → endP s + o = i + 1 ∧ denotes b (currAnd s) (λ v, same_above n (fx v) (fy v) (i + 1))) →
  adds ins outs b (cascade_next propagate (i =? n - 1) s) (cascade_inv i).
Proof using Ho Hlen Hn.
  intros Hw Hop Hi Hf Hfirst Hlater. unfold cascade_next.
  set (e := if endP s =? 0 then endP s else endP s - 1).
  destruct (Nat.eqb_spec i (n - 1)) as [->|Hne]; cbn [andb].
  - assert (e = length propagate - 1) as Ee by (unfold e; rewrite Hfirst by done; destruct (Nat.eqb_spec (length propagate) 0); lia).
    destruct (Nat.eqb_spec e (length propagate)) as [E|E]; cbn [negb].
    + apply adds_ret; [done|]. unfold cascade_inv. split_all; [done|lia|]. intros Hk. lia.
    + destruct (equal_link b (n - 1) Hop) as (l & El & D); [lia|]. replace (n - 1 - o) with e in El by lia.
      eapply adds_read_bind; [exact El|]. apply adds_ret; [done|]. unfold cascade_inv. cbn [orResult currAnd endP].
      split_all; [done|lia|]. intros Hk. split; [lia|]. eapply denotes_eq; [|exact D]. intros v. cbv beta.
      replace (min (n - 1 + 1) (n - 1)) with (n - 1) by lia.
      rewrite same_above_step by lia. rewrite same_above_all by lia. by rewrite andb_true_r.
  - apply adds_ret; [done|]. unfold cascade_inv. cbn [orResult currAnd endP]. split_all; [done|lia|].
    intros Hk. destruct (Hlater ltac:(lia) ltac:(lia)) as [He D]. split; [unfold e; destruct (Nat.eqb_spec (endP s) 0); lia|].
    replace (min (i + 1) (n - 1)) with (i + 1) by lia. exact D.
Qed.

Lemma cascade_and_spec i s b : wf b ins outs → operands b → cascade_inv (S i) b s → i < n - 1 →
  adds ins outs b (cascade_and propagate n i s) (λ b' c, denotes b' c (λ v, same_above n (fx v) (fy v) (i + 1))).
Proof using Ho Hlen Hn.
  intros Hw Hop (_ & _ & Hk) Hi. destruct (Hk ltac:(lia)) as [He D]. unfold cascade_and.
  destruct (Nat.ltb_spec i (n - 2)).
  - destruct (equal_link b (i + 1) Hop) as (l & El & Dl); [lia|]. replace (i + 1 - o) with (endP s) in El by lia.
    eapply adds_read_bind; [exact El|]. eapply adds_mono; [apply add_and; [done|exact D|exact Dl]|].
    intros c b' _ Dc. eapply denotes_eq; [|exact Dc]. intros v. cbv beta.
    replace (min (S i + 1) (n - 1)) with (S (i + 1)) by lia. rewrite (same_above_step _ _ _ (i + 1)) by lia. apply andb_comm.
  - apply adds_ret; [done|]. replace (min (S i + 1) (n - 1)) with (i + 1) in D by lia. exact D.
Qed.

Lemma set_link_found b r i l : found b r (S i) → denotes b l (λ v, greater_at n (fx v) (fy v) i) → i < length x →
  ∃ r', set_link r i l b = Some (r', b) ∧ found b r' i.
Proof.
  intros Hf D Hi. exists (<[i := l]> r). split; [|by apply found_insert].
  unfold set_link, st_assert. unfold mbind, st_bind. destruct Hf as [-> _]. by rewrite (proj2 (Nat.ltb_lt _ _)).
Qed.

(** A step with a link that denotes whether the numbers differ first in bit [i]. *)
Lemma step_finish i s c l b : wf b ins outs → operands b → cascade_inv (S i) b s → i < length x →
  denotes b l (λ v, greater_at n (fx v) (fy v) i) →
  (i < n - 1 → denotes b c (λ v, same_above n (fx v) (fy v) (i + 1))) →
  adds ins outs b (r ← set_link (orResult s) i l; cascade_next propagate (i =? n - 1) (mkCascade r c (endP s))) (cascade_inv i).
Proof using Ho Hlen Hn.
  intros Hw Hop (Hf & Hfirst & Hk) Hi D Dc. destruct (set_link_found b (orResult s) i l Hf D Hi) as (r' & Er & Hr').
  apply wp_bind. exists r', b. split; [exact Er|]. apply cascade_next_spec; [done|done|lia|done| |].
  - intros Ei. apply Hfirst. lia.
  - intros H0 H1. destruct (Hk ltac:(lia)) as [He _]. split; [cbn; lia|by apply Dc].
Qed.

Lemma cascade_inv_ext b b' k s : ext b b' → cascade_inv k b s → cascade_inv k b' s.
Proof.
  intros He (Hf & H1 & H2). unfold cascade_inv. split_all; [by eapply found_ext|done|]. intros Hk.
  destruct (H2 Hk) as [E D]. split; [done|]. eapply denotes_ext; [exact He|exact D].
Qed.

Lemma high_step_spec i s b : wf b ins outs → operands b → cascade_inv (S i) b s → length y ≤ i < length x →
  adds ins outs b (high_step x propagate n i s) (cascade_inv i).
Proof using Ho Hlen Hn.
  intros Hw Hop Hs Hi. unfold high_step. destruct (lookup_lt_is_Some_2 x i) as [a Ea]; [lia|].
  eapply adds_read_bind; [exact Ea|]. pose proof (denotes_at b x a i (proj1 Hop) Ea) as Da.
  assert (∀ v, negb (fy v i) = true) as Hy by (intros v; unfold fy; by rewrite bit_high by lia).
  destruct (Nat.eqb_spec i (n - 1)) as [E|E].
  - rewrite <- (proj2 (Nat.eqb_eq i (n - 1)) E). apply adds_assoc_l.
    apply (step_finish i s (currAnd s) a); [done|done|done|lia| |lia].
    eapply denotes_eq; [|exact Da]. intros v. cbv beta. unfold greater_at. rewrite same_above_all, Hy by lia. by rewrite !andb_true_r.
  - rewrite <- (proj2 (Nat.eqb_neq i (n - 1)) E).
    eapply adds_assoc_l, adds_bind; [apply cascade_and_spec; [done..|lia]|]. intros c b1 Hw1 He1 Dc.
    eapply adds_assoc_l, adds_bind; [apply add_and; [done|exact Dc|eapply denotes_ext; [exact He1|exact Da]]|].
    intros l b2 Hw2 He2 Dl. apply adds_assoc_l. assert (ext b b2) as He by by etransitivity.
    apply step_finish; [done|by eapply operands_ext|by eapply cascade_inv_ext|lia| |].
    + eapply denotes_eq; [|exact Dl]. intros v. cbv beta. unfold greater_at. rewrite Hy, andb_true_r, Nat.add_1_r. apply andb_comm.
    + intros _. eapply denotes_ext; [exact He2|exact Dc].
Qed.

Lemma low_step_spec i s b : wf b ins outs → operands b → cascade_inv (S i) b s → i < length x → i < length y →
  adds ins outs b (low_step x y propagate n i s) (cascade_inv i).
Proof using Ho Hlen Hn.
  intros Hw Hop Hs Hix Hiy. unfold low_step.
  destruct (lookup_lt_is_Some_2 x i) as [a Ea]; [lia|]. destruct (lookup_lt_is_Some_2 y i) as [c Ec]; [lia|].
  eapply adds_bind with (P := λ b' c, i < n - 1 → denotes b' c (λ v, same_above n (fx v) (fy v) (i + 1))).
  { destruct (Nat.ltb_spec i (n - 1)); [|apply adds_ret; [done|lia]].
    eapply adds_mono; [by apply cascade_and_spec|]. auto. }
  intros k b1 Hw1 He1 Dk. eapply adds_read_bind; [exact Ea|]. eapply adds_read_bind; [exact Ec|].
  pose proof (operands_ext _ _ He1 Hop) as Hop1.
  pose proof (denotes_at b1 x a i (proj1 Hop1) Ea) as Da. pose proof (denotes_at b1 y c i (proj1 (proj2 Hop1)) Ec) as Dc.
  apply denotes_not in Dc. pose proof (denotes_all_cons _ _ _ _ _ Da (denotes_all_cons _ _ _ _ _ Dc (denotes_all_nil b1))) as D2.
  set (ops := (if i <? n - 1 then [k] else []) ++ [a; link_not c]).
  assert (denotes_all b1 ops (λ v, (if i <? n - 1 then [same_above n (fx v) (fy v) (i + 1)] else []) ++ [fx v i; negb (fy v i)])) as D.
  { unfold ops. destruct (Nat.ltb_spec i (n - 1)) as [Hlt|]; [|exact D2]. exact (denotes_all_cons _ _ _ _ _ (Dk Hlt) D2). }
  assert ((1 <? length ops) = true) as -> by (unfold ops; by destruct (i <? n - 1)).
  eapply adds_bind; [eapply and_tree; [done|exact D| |]|].
  { unfold ops. by destruct (i <? n - 1). } { intros v. by destruct (i <? n - 1). }
  intros l b2 Hw2 He2 Dl. assert (ext b b2) as He by by etransitivity.
  apply step_finish; [done|by eapply operands_ext|by eapply cascade_inv_ext|lia| |].
  - eapply denotes_eq; [|exact Dl]. intros v. cbv beta. unfold greater_at. rewrite Nat.add_1_r.
    destruct (Nat.ltb_spec i (n - 1)); cbn [app forallb]; unfold id.
    + rewrite andb_true_r. apply andb_comm.
    + rewrite same_above_all by lia. by rewrite !andb_true_r.
  - intros Hi. eapply denotes_ext; [exact He2|by apply Dk].
Qed.

Lemma down_loop_spec step m lo : ∀ s b, wf b ins outs → operands b → cascade_inv (lo + m) b s →
  (∀ i s b, lo ≤ i < lo + m → wf b ins outs → operands b → cascade_inv (S i) b s → adds ins outs b (step i s) (cascade_inv i)) →
  adds ins outs b (down_loop step m lo s) (cascade_inv lo).
Proof.
  induction m as [|m IH]; intros s b Hw Hop Hs Hstep; cbn [down_loop].
  - apply adds_ret; [done|]. by rewrite Nat.add_0_r in Hs.
  - eapply adds_bind; [apply Hstep; [lia|done|done|by rewrite <- Nat.add_succ_r]|]. intros s1 b1 Hw1 He1 Hs1.
    apply IH; [done|by eapply operands_ext|done|]. intros i s' b' Hi. apply Hstep. lia.
Qed.
End Cascade.

(** ** The comparator *)

Section Compare.
Context `{TypeStore}.
Context (x y : LinkList) (ins outs : list nat).

Let n := max (length x) (length y).
Let fx (v : valuation) := bit (word v x).
Let fy (v : valuation) := bit (word v y).

Context (Hx : 0 < length x < 2 ^ 16) (Hy : 0 < length y < 2 ^ 16).

(** The links of the equal bits from [o] on. *)
Definition equal_bits (o : nat) (v : valuation) : list bool := (λ i, eqb (fx v (o + i)) (fy v (o + i))) <$> seq 0 (n - o).

Lemma equal_bits_same o k v : o + k ≤ n → forallb id (drop k (equal_bits o v)) = same_above n (fx v) (fy v) (o + k).
Proof using.
  clear Hx Hy.
  intros Hk. unfold equal_bits, same_above. rewrite <- fmap_drop, drop_seq, forallb_fmap.
  replace (n - o - k) with (n - (o + k)) by lia. cbn [Nat.add]. rewrite <- (fmap_add_seq o k (n - (o + k))).
  generalize (seq k (n - (o + k))). intros l. induction l as [|i l IH]; cbn; [done|]. by rewrite IH.
Qed.

Lemma bit_drop (l : list bool) o i : bit (drop o l) i = bit l (o + i).
Proof. unfold bit. by rewrite lookup_drop. Qed.

Lemma word_drop v (l : LinkList) o : word v (drop o l) = drop o (word v l).
Proof. apply fmap_drop. Qed.

Lemma denotes_all_drop b ls f k : denotes_all b ls f → denotes_all b (drop k ls) (λ v, drop k (f v)).
Proof. intros [Hs Hf]. split; [by apply Forall_drop|]. intros v Hv. by rewrite fmap_drop, Hf. Qed.

Lemma propagate_spec o b : wf b ins outs → srcs b x → srcs b y → o ≤ 1 →
  adds ins outs b (if (o <? length x) || (o <? length y) then
      st_assert ((o <=? length x) && (o <=? length y)) ;; generatePropagate (drop o x) (drop o y) true
    else mret []) (λ b' p, length p = n - o ∧ denotes_all b' p (equal_bits o)).
Proof using Hx Hy.
  intros Hw Sx Sy Ho. destruct ((o <? length x) || (o <? length y)) eqn:Eo.
  - eapply adds_assert_bind; [apply andb_true_iff; split; apply Nat.leb_le; lia|].
    eapply adds_mono.
    { apply generatePropagate_spec; [done|by apply Forall_drop|by apply Forall_drop|rewrite !length_drop; lia]. }
    rewrite !length_drop. intros p b' _ [Lp D]. split; [unfold n; lia|]. eapply denotes_all_eq; [|exact D].
    intros v. cbv beta. unfold equal_bits. replace (max (length x - o) (length y - o)) with (n - o) by (unfold n; lia).
    apply list_fmap_ext. intros j i _. rewrite !word_drop, !bit_drop. fold (fx v (o + i)) (fy v (o + i)).
    by destruct (fx v (o + i)), (fy v (o + i)).
  - apply orb_false_iff in Eo as [E1%Nat.ltb_ge E2%Nat.ltb_ge]. apply adds_ret; [done|]. split; [cbn; unfold n; lia|].
    eapply denotes_all_eq; [|apply denotes_all_nil]. intros v. unfold equal_bits. replace (n - o) with 0 by (unfold n; lia). done.
Qed.

Lemma propagate_operands b p o : srcs b x → srcs b y → length p = n - o → denotes_all b p (equal_bits o) → operands x y p o b.
Proof using Hx Hy.
  intros Sx Sy Lp D. unfold operands. split_all; [done|done|]. intros i Hi.
  destruct (denotes_point b p (n - o) (λ v j, eqb (fx v (o + j)) (fy v (o + j))) (i - o) D Lp) as (l & El & Dl); [unfold n; lia|].
  exists l. split; [done|]. cbv beta in Dl. by replace (o + (i - o)) with i in Dl by lia.
Qed.

Lemma found_start b : found x y b (replicate (length x) (LinkTo 0)) (length x).
Proof.
  split; [apply length_replicate|]. intros j l Hj El. apply lookup_replicate in El as [_ ?]. lia.
Qed.

Lemma cascade_start_spec p o b : wf b ins outs → o ≤ 1 → length p = n - o → denotes_all b p (equal_bits o) →
  adds ins outs b (cascade_start p (length x) (n - min (length x) (length y)) (length y <? length x))
    (cascade_inv x y p o (length x)).
Proof using Hx Hy.
  intros Hw Ho Lp D. unfold cascade_start.
  assert (length x < length y ∨ length y ≤ length x) as [Hlt|Hge] by lia.
  - replace (n - min (length x) (length y)) with (n - length x) by lia.
    assert (n = length y) as En by (unfold n; lia).
    rewrite (proj2 (Nat.ltb_ge (length y) (length x))), (proj2 (Nat.eqb_neq (n - length x) 0)) by lia. cbn [negb andb].
    eapply adds_assert_bind; [apply Nat.leb_le; lia|].
    eapply adds_bind with (P := λ b' c, denotes b' c (λ v, same_above n (fx v) (fy v) (min (length x + 1) (n - 1)))).
    + destruct (Nat.ltb_spec 2 (n - length x)).
      * eapply adds_mono.
        { eapply (and_tree (drop (length p - (n - length x) + 1) p)); [done|apply denotes_all_drop, D| |].
          - intros E. apply (f_equal length) in E. rewrite length_drop in E. cbn in E. lia.
          - intros v E. apply (f_equal length) in E. rewrite length_drop in E. unfold equal_bits in E.
            rewrite length_fmap, length_seq in E. cbn in E. lia. }
        intros c b' _ Dc. eapply denotes_eq; [|exact Dc]. intros v. cbv beta. rewrite equal_bits_same by lia. f_equal. lia.
      * destruct (denotes_point b p (n - o) _ (length p - 1) D Lp) as (l & El & Dl); [lia|].
        exists l, b. split; [unfold back, st_read; by rewrite (proj2 (last_at p l) El)|]. split_all; [done|done|].
        eapply denotes_eq; [|exact Dl]. intros v. cbv beta.
        replace (o + (length p - 1)) with (n - 1) by lia. replace (min _ _) with (n - 1) by lia.
        rewrite same_above_step by lia. rewrite same_above_all by lia. by rewrite andb_true_r.
    + intros c b' Hw' He Dc. apply adds_ret; [done|]. unfold cascade_inv. cbn [orResult currAnd endP]. split_all.
      * eapply found_ext; [exact He|apply found_start].
      * fold n. lia.
      * intros Hk. split; [lia|exact Dc].
  - assert (n = length x) as En by (unfold n; lia).
    assert (negb (n - min (length x) (length y) =? 0) && negb (length y <? length x) = false) as ->.
    { destruct (Nat.eqb_spec (n - min (length x) (length y)) 0); [done|]. by rewrite (proj2 (Nat.ltb_lt _ _)) by lia. }
    apply adds_ret; [done|]. unfold cascade_inv. fold n. cbn [orResult currAnd endP]. split_all; [apply found_start|done|lia].
Qed.

Lemma cascade_output r b : wf b ins outs → found x y b r 0 →
  adds ins outs b (tree_or_back OR r) (λ b' l, denotes b' l (λ v, Z_of_bits (word v y) <? Z_of_bits (word v x))%Z).
Proof using Hx Hy.
  intros Hw [Lr Hf]. eapply adds_mono.
  { apply (or_tree_or_back r (λ v, greater_at n (fx v) (fy v) <$> seq 0 (length x))); [done| | |].
    - apply denotes_pointwise; [done|]. intros i l El. apply Hf; [lia|done].
    - intros ->. cbn in Lr. lia.
    - intros v E. apply (f_equal length) in E. rewrite length_fmap, length_seq in E. cbn in E. lia. }
  intros l b' _ D. eapply denotes_eq; [|exact D]. intros v. cbv beta. rewrite existsb_fmap.
  rewrite (num_bits (word v x) n), (num_bits (word v y) n) by (rewrite word_length; unfold n; lia).
  rewrite num_ltb. fold (fx v) (fy v). replace n with (length x + (n - length x)) at 3 by (unfold n; lia).
  rewrite seq_app, existsb_app. symmetry.
  rewrite (existsb_ext_in (greater_at n (fx v) (fy v)) (λ _, false) (seq _ (n - length x))).
  - by rewrite existsb_const_false, orb_false_r.
  - intros j Hj. apply elem_of_seq in Hj. unfold greater_at, fx. by rewrite (bit_high v x) by lia.
Qed.

(** The comparator ends and returns the link that denotes whether the first
    number is greater, and the links of the equal bits. *)
Lemma generateComparison_spec (useEquality : bool) b : wf b ins outs → srcs b x → srcs b y →
  let o := if useEquality then 0 else 1 in
  adds ins outs b (generateComparison x y useEquality) (λ b' r,
    denotes b' r.1 (λ v, Z_of_bits (word v y) <? Z_of_bits (word v x))%Z ∧
    length r.2 = n - o ∧ denotes_all b' r.2 (equal_bits o)).
Proof using Hx Hy.
  intros Hw Sx Sy o. unfold generateComparison. fold n o. assert (o ≤ 1) as Ho by (unfold o; destruct useEquality; lia).
  assert (0 < n) as Hn by (unfold n; lia).
  eapply adds_bind; [by apply propagate_spec|]. intros p b1 Hw1 E1 [Lp Dp].
  eapply adds_bind; [by apply (cascade_start_spec p o)|]. intros s b2 Hw2 E2 Is.
  assert (operands x y p o b2) as O2.
  { eapply operands_ext; [exact E2|]. apply propagate_operands; [by eapply srcs_ext|by eapply srcs_ext|done|done]. }
  eapply adds_bind with (P := cascade_inv x y p o (min (length x) (length y))).
  { destruct (Nat.ltb_spec (length y) (length x)) as [Hlt|Hge].
    - replace (min (length x) (length y)) with (length y) by lia.
      apply (down_loop_spec x y p o ins outs); [done|done|done|done|done| |].
      + replace (length y + (n - length y)) with (length x) by (unfold n; lia). done.
      + intros i s' b' Hi Hw' Ho' Hs'. apply (high_step_spec x y p o ins outs); [done|done|done|done|done|done|unfold n in Hi; lia].
    - apply adds_ret; [done|]. by replace (min (length x) (length y)) with (length x) by lia. }
  intros s1 b3 Hw3 E3 Is1.
  eapply adds_bind; [apply (down_loop_spec x y p o ins outs); [done|done|done|done|by eapply operands_ext|exact Is1|]|].
  { intros i s' b' Hi Hw' Ho' Hs'. apply (low_step_spec x y p o ins outs); [done|done|done|done|done|done|lia|lia]. }
  intros s2 b4 Hw4 E4 [Hf _]. eapply adds_bind; [by apply cascade_output|]. intros l b5 Hw5 E5 Dl.
  apply adds_ret; [done|]. cbn [fst snd]. split_all; [done|done|].
  eapply denotes_all_ext; [|exact Dp]. by do 3 (etransitivity; [eassumption|]).
Qed.
End Compare.
