(* ===== verification/ComparisonCorrect.v ===== *)
(** * The subnets of the comparisons *)

From S2P Require Import Prelude CellType SubnetBase Builder BuilderInv BuilderSpec BuilderEval MakeSpec.
From S2P Require Import CellAttr Adder AdderSum AdderArith Synth SynthArith SynthBits Comparison ComparisonSpec.
From stdpp Require Import gmap strings.

(** ** Numbers with sign *)

(** The number with the bits [l] below the sign [s]. *)
Definition with_sign (l : list bool) (s : bool) : Z := (Z_of_bits l - 2 ^ Z.of_nat (length l) * Z.b2z s)%Z.

Lemma with_sign_sbits l s : with_sign l s = Z_of_sbits (l ++ [s]).
Proof.
  unfold with_sign, Z_of_sbits, msb, bit. rewrite length_app, lookup_app_r, Z_of_bits_snoc by (cbn; lia). cbn [length].
  replace (length l + 1 - 1 - length l) with 0 by lia. cbn [lookup list_lookup default from_option id].
  rewrite Nat2Z.inj_add, Z.pow_add_r by lia. change (2 ^ Z.of_nat 1)%Z with 2%Z. lia.
Qed.

Lemma with_sign_fill l s n : with_sign (l ++ replicate n s) s = Z_of_sbits (l ++ [s]).
Proof.
  rewrite with_sign_sbits, <- (sign_extend_value (l ++ [s]) n) by (rewrite length_app; cbn; lia).
  assert (msb (l ++ [s]) = s) as ->.
  { unfold msb, bit. rewrite length_app, lookup_app_r by (cbn; lia). cbn [length].
    by replace (length l + 1 - 1 - length l) with 0 by lia. }
  f_equal. rewrite <- !app_assoc. f_equal. by rewrite <- replicate_cons_app.
Qed.

Lemma with_sign_ltb x y s t : length x = length y →
  (with_sign y t <? with_sign x s)%Z =
    (let more := Z_of_bits y <? Z_of_bits x in (more && t) || (more && negb s) || (negb s && t))%Z.
Proof.
  intros Hl. unfold with_sign. rewrite Hl. pose proof (Z_of_bits_bound x) as Hx. pose proof (Z_of_bits_bound y).
  rewrite Hl in Hx. set (p := (2 ^ Z.of_nat (length y))%Z) in *.
  destruct s, t, (Z.ltb_spec (Z_of_bits y) (Z_of_bits x)); cbn [Z.b2z negb andb orb];
    rewrite ?Z.mul_0_r, ?Z.mul_1_r; (apply Z.ltb_lt || apply Z.ltb_ge); lia.
Qed.

Lemma with_sign_eqb x y s t : length x = length y →
  (with_sign x s =? with_sign y t)%Z = (Z_of_bits x =? Z_of_bits y)%Z && eqb s t.
Proof.
  intros Hl. unfold with_sign. rewrite Hl. pose proof (Z_of_bits_bound x) as Hx. pose proof (Z_of_bits_bound y).
  rewrite Hl in Hx. set (p := (2 ^ Z.of_nat (length y))%Z) in *.
  destruct s, t, (Z.eqb_spec (Z_of_bits x) (Z_of_bits y)); cbn [Z.b2z eqb andb];
    rewrite ?Z.mul_0_r, ?Z.mul_1_r; (apply Z.eqb_eq || apply Z.eqb_neq); lia.
Qed.

Lemma leb_eq_lt a b : ((b =? a) || (a <? b))%Z = (a <=? b)%Z.
Proof. destruct (Z.eqb_spec b a), (Z.ltb_spec a b), (Z.leb_spec a b); lia. Qed.

Lemma sext_eqb x y : 0 < length x → 0 < length y → let n := max (length x) (length y) in
  (Z_of_bits (sext x n) =? Z_of_bits (sext y n))%Z = (Z_of_sbits x =? Z_of_sbits y)%Z.
Proof.
  intros Hx Hy n. rewrite <- (sext_value x n), <- (sext_value y n) by done.
  assert (length (sext x n) = length (sext y n)) as Hl by (rewrite !sext_length; unfold n; lia).
  destruct (Z.eqb_spec (Z_of_bits (sext x n)) (Z_of_bits (sext y n))) as [E|E].
  - apply Z_of_bits_inj in E; [|done]. rewrite E. symmetry. apply Z.eqb_refl.
  - symmetry. apply Z.eqb_neq. intros E'. apply E.
    rewrite <- (Z_of_word_mod true (sext x n)), <- (Z_of_word_mod true (sext y n)), Hl. cbn [Z_of_word]. by rewrite E'.
Qed.

(** ** Parts of the routines *)

Section Parts.
Context `{TypeStore}.

Lemma word_app v (x y : LinkList) : word v (x ++ y) = word v x ++ word v y.
Proof. apply fmap_app. Qed.

Lemma word_replicate v n (l : Link) : word v (replicate n l) = replicate n (lval v l).
Proof. apply fmap_replicate. Qed.

Lemma fill_spec b x y s t : srcs b x → srcs b y → src b s → src b t →
  ∃ x' y', fillBySignum x s y t = (x', y') ∧ srcs b x' ∧ srcs b y' ∧
    length x' = max (length x) (length y) ∧ length y' = max (length x) (length y) ∧
    (∀ v, word v x' = word v x ++ replicate (max (length x) (length y) - length x) (lval v s)) ∧
    (∀ v, word v y' = word v y ++ replicate (max (length x) (length y) - length y) (lval v t)).
Proof.
  intros Hx Hy Hs Ht. unfold fillBySignum. destruct (Nat.ltb_spec (length y) (length x)) as [Hlt|Hge].
  - replace (max (length x) (length y)) with (length x) by lia. rewrite Nat.sub_diag. eexists _, _. split_all; [done|done| |done| | |].
    + apply Forall_app. split; [done|]. by apply Forall_replicate.
    + rewrite length_app, length_replicate. lia.
    + intros v. by rewrite app_nil_r.
    + intros v. by rewrite word_app, word_replicate.
  - replace (max (length x) (length y)) with (length y) by lia. rewrite Nat.sub_diag. eexists _, _. split_all; [done| |done| |done| |].
    + apply Forall_app. split; [done|]. by apply Forall_replicate.
    + rewrite length_app, length_replicate. lia.
    + intros v. by rewrite word_app, word_replicate.
    + intros v. by rewrite app_nil_r.
Qed.

(** The tree over the unequal bits. *)
Lemma unequal_spec x y b ins outs : wf b ins outs → srcs b x → srcs b y →
  0 < max (length x) (length y) < 2 ^ 16 →
  adds ins outs b (p ← generatePropagate x y false; tree_or_back OR p)
    (λ b' l, denotes b' l (λ v, negb (Z_of_bits (word v x) =? Z_of_bits (word v y))%Z)).
Proof.
  intros Hw Hx Hy Hl. eapply adds_bind; [apply generatePropagate_spec; [done..|lia]|]. intros p b1 Hw1 E1 [Lp D].
  eapply adds_mono; [eapply or_tree_or_back; [done|exact D| |]|].
  { intros ->. cbn in Lp. lia. }
  { intros v E. apply (f_equal length) in E. rewrite length_fmap, length_seq in E. cbn in E. lia. }
  intros l b' _ Dl. eapply denotes_eq; [|exact Dl]. intros v. cbv beta. set (n := max (length x) (length y)) in *.
  rewrite (num_bits (word v x) n), (num_bits (word v y) n) by (rewrite word_length; unfold n; lia).
  rewrite num_eqb. unfold same_above. rewrite <- (negb_involutive (existsb _ _)), negb_existsb_fmap, Nat.sub_0_r.
  f_equal. apply forallb_ext_in. intros i _. by destruct (bit (word v x) i), (bit (word v y) i).
Qed.

(** The tree over the equal bits. *)
Lemma equal_spec x y p b ins outs : wf b ins outs → 0 < max (length x) (length y) → 
  length p = max (length x) (length y) - 0 → denotes_all b p (equal_bits x y 0) →
  adds ins outs b (tree_or_back AND p) (λ b' l, denotes b' l (λ v, Z_of_bits (word v x) =? Z_of_bits (word v y))%Z).
Proof.
  intros Hw Hn Lp D. eapply adds_mono; [eapply and_tree_or_back; [done|exact D| |]|].
  { intros ->. cbn in Lp. lia. }
  { intros v E. apply (f_equal length) in E. unfold equal_bits in E. rewrite length_fmap, length_seq in E. cbn in E. lia. }
  intros l b' _ Dl. eapply denotes_eq; [|exact Dl]. intros v. cbv beta.
  rewrite <- (drop_0 (equal_bits x y 0 v)), (equal_bits_same x y 0 0 v) by lia. set (n := max (length x) (length y)).
  rewrite (num_bits (word v x) n), (num_bits (word v y) n) by (rewrite word_length; unfold n; lia).
  by rewrite num_eqb.
Qed.

Lemma signed_comparison_spec m s t fm fs ft b ins outs : wf b ins outs →
  denotes b m fm → denotes b s fs → denotes b t ft →
  adds ins outs b (generateSignedComparison m s t) (λ b' l,
    denotes b' l (λ v, (fm v && ft v) || (fm v && negb (fs v)) || (negb (fs v) && ft v))).
Proof.
  intros Hw Dm Ds Dt. unfold generateSignedComparison. apply denotes_not in Ds.
  eapply adds_bind; [by apply (add_and _ _ _ _ _ fm ft)|]. intros l1 b1 Hw1 E1 D1.
  apply (denotes_ext _ _ _ _ E1) in Dm, Ds, Dt.
  eapply adds_bind; [by apply (add_and _ _ _ _ _ _ _ Hw1 Dm Ds)|]. intros l2 b2 Hw2 E2 D2.
  apply (denotes_ext _ _ _ _ E2) in Dm, Ds, Dt, D1.
  eapply adds_bind; [by apply (add_and _ _ _ _ _ _ _ Hw2 Ds Dt)|]. intros l3 b3 Hw3 E3 D3.
  apply (denotes_ext _ _ _ _ E3) in D1, D2.
  eapply adds_mono.
  { eapply (tree_denotes OR); [done|done|exact Hw3| |done].
    exact (denotes_all_cons _ _ _ _ _ D1 (denotes_all_cons _ _ _ _ _ D2 (denotes_all_cons _ _ _ _ _ D3 (denotes_all_nil b3)))). }
  intros l b4 _ D. eapply denotes_eq; [|exact D]. intros v. cbv beta. rewrite reduce_or by done. cbn [existsb]. unfold id.
  by rewrite orb_false_r, orb_assoc.
Qed.

(** The inputs of a number with sign. *)
Lemma wp_signed_inputs {B} attr i w (k : LinkList * Link → st SubnetBuilder B) b ins Q :
  open_builder b ins → getInWidth attr i = Some w → 0 < N.to_nat w →
  (∀ x s b', open_builder b' (ins ++ (idx <$> x ++ [s])) → ext b b' → srcs b' x → src b' s → length x = N.to_nat w - 1 →
     (∀ v, word v x ++ [lval v s] = (λ i, v i 0) <$> (idx <$> x ++ [s])) → wp (k (x, s)) b' Q) →
  wp (signed_inputs attr i ≫= k) b Q.
Proof.
  intros Ho Hw Hpos Hk. apply wp_bind. unfold signed_inputs. eapply wp_in_width; [exact Hw|].
  eapply wp_assert; [by apply Nat.ltb_lt|]. eapply wp_inputs_any; [exact Ho|]. intros x b1 Ho1 E1 Sx Lx Vx.
  eapply wp_input; [exact Ho1|]. intros s b2 Ho2 E2 Ss Vs. apply wp_ret. apply Hk.
  - by rewrite fmap_app, app_assoc.
  - by etransitivity.
  - by eapply srcs_ext.
  - done.
  - done.
  - intros v. rewrite !fmap_app, <- Vx. cbn. by rewrite Vs.
Qed.
End Parts.

(** ** The subnets *)

Section Subnets.
Context `{TypeStore}.
Context (attr : CellTypeAttr) (wA wB wO : N).
Context (HA : getInWidth attr 0 = Some wA) (HB : getInWidth attr 1 = Some wB) (HO : getOutWidth attr 0 = Some wO).
Context (RA : 0 < N.to_nat wA < 2 ^ 16) (RB : 0 < N.to_nat wB < 2 ^ 16) (RO : 0 < N.to_nat wO).

Let nA := N.to_nat wA.
Let nB := N.to_nat wB.
Let nO := N.to_nat wO.

(** The subnet compares the operands with [f]. *)
Definition compares (signed : bool) (f : Z → Z → bool) (r : option Subnet) : Prop := ∃ s, r = Some s ∧
  implements s (nA + nB) (λ xs, bits_of nO (Z.b2z (f (Z_of_word signed (take nA xs)) (Z_of_word signed (drop nA xs))))).

(** The inputs of two operands without sign. *)
Lemma wp_operands {B} (k : LinkList → LinkList → st SubnetBuilder B) Q :
  (∀ x y b ins, wf b ins [] → ext empty_builder b → length ins = nA + nB → srcs b x → srcs b y →
     length x = nA → length y = nB → (∀ v, word v x = take nA ((λ i, v i 0) <$> ins)) →
     (∀ v, word v y = drop nA ((λ i, v i 0) <$> ins)) → wp (k x y) b Q) →
  wp (wA ← in_width attr 0; x ← addInputs wA; wB ← in_width attr 1; y ← addInputs wB; k x y) empty_builder Q.
Proof using HA HB.
  intros Hk. eapply wp_in_width; [exact HA|]. eapply wp_inputs_any; [apply open_empty|]. intros x b Ho He Hx Lx Vx.
  eapply wp_in_width; [exact HB|]. eapply wp_inputs_any; [exact Ho|]. intros y b' [Hw He' _] He'' Hy Ly Vy.
  apply (Hk x y b' ((idx <$> x) ++ (idx <$> y))); try done.
  - by rewrite length_app, !length_fmap, Lx, Ly.
  - by eapply srcs_ext.
  - intros v. rewrite fmap_app, take_app_length'; [apply Vx|by rewrite !length_fmap, Lx].
  - intros v. rewrite fmap_app, drop_app_length'; [apply Vy|by rewrite !length_fmap, Lx].
Qed.

Lemma finish_compare signed f l g b ins : wf b ins [] → ext empty_builder b → length ins = nA + nB → denotes b l g →
  (∀ v, g v = f (Z_of_word signed (take nA ((λ i, v i 0) <$> ins))) (Z_of_word signed (drop nA ((λ i, v i 0) <$> ins)))) →
  wp (addOutput l ;; w ← out_width attr 0; extendOutput w false) b (finished (nA + nB) (λ xs,
    bits_of nO (Z.b2z (f (Z_of_word signed (take nA xs)) (Z_of_word signed (drop nA xs)))))).
Proof using HO RO.
  intros Hw He Hn D Hg.
  by apply (wp_finish_bit attr wO _ (λ xs, f (Z_of_word signed (take nA xs)) (Z_of_word signed (drop nA xs))) l g b ins).
Qed.

Lemma wp_assoc {A B C} b (m : st SubnetBuilder A) (f : A → st SubnetBuilder B) (g : B → st SubnetBuilder C) Q :
  wp ((m ≫= f) ≫= g) b Q → wp (m ≫= λ a, f a ≫= g) b Q.
Proof. intros (c & b' & E & HQ). exists c, b'. split; [|done]. by rewrite <- bind_assoc. Qed.

Lemma equal_positive b l f positive : denotes b l (λ v, negb (f v)) →
  denotes b (if positive : bool then link_not l else link_not (link_not l)) (λ v, xorb (negb positive) (f v)).
Proof.
  intros D. apply denotes_not in D as D1. destruct positive.
  - eapply denotes_eq; [|exact D1]. intros v. cbn. by destruct (f v).
  - eapply denotes_eq; [|exact (denotes_not _ _ _ D1)]. intros v. cbn. by destruct (f v).
Qed.

Lemma synthXeqU_spec positive : compares false (λ x y, xorb (negb positive) (x =? y)%Z) (synthXeqU attr positive).
Proof using HA HB HO RA RB RO.
  apply run_implements. apply wp_operands. intros x y b ins Hw He Hn Hx Hy Lx Ly Vx Vy.
  apply wp_assoc. eapply wp_adds; [done|apply unequal_spec; [done|done|done|lia]|]. intros l b1 Hw1 E1 _ D.
  apply (finish_compare false (λ x y, xorb (negb positive) (x =? y)%Z) _ _ b1 ins Hw1 E1 Hn (equal_positive _ _ _ positive D)).
  intros v. cbn [Z_of_word]. by rewrite <- Vx, <- Vy.
Qed.

Lemma synthXeqS_spec positive : compares true (λ x y, xorb (negb positive) (x =? y)%Z) (synthXeqS attr positive).
Proof using HA HB HO RA RB RO.
  apply run_implements. apply wp_operands. intros x y b ins Hw He Hn Hx Hy Lx Ly Vx Vy.
  destruct (denotes_back b x _ (denotes_all_word b x Hx)) as (s & Es & Ds); [lia|intros v; apply word_length|].
  destruct (denotes_back b y _ (denotes_all_word b y Hy)) as (t & Et & Dt); [lia|intros v; apply word_length|].
  eapply wp_read; [exact Es|]. eapply wp_read; [exact Et|].
  destruct (fill_spec b x y s t Hx Hy (proj1 Ds) (proj1 Dt)) as (x' & y' & -> & Sx & Sy & Lx' & Ly' & Vx' & Vy').
  apply wp_assoc. eapply wp_adds; [done|apply unequal_spec; [done|done|done|lia]|]. intros l b1 Hw1 E1 E2 D.
  apply (finish_compare true (λ x y, xorb (negb positive) (x =? y)%Z) _ (λ v, xorb (negb positive) (Z_of_sbits (word v x) =? Z_of_sbits (word v y))%Z) b1 ins Hw1 E1 Hn).
  - apply equal_positive. destruct D as [Sl D]. split; [done|]. intros v Hv. rewrite D, Vx', Vy' by done.
    assert (consistent v b) as Hvb by by eapply consistent_ext.
    rewrite (proj2 Ds v Hvb), (proj2 Dt v Hvb). pose proof (sext_eqb (word v x) (word v y)) as Hs.
    rewrite !word_length in Hs. rewrite <- Hs by lia. unfold sext. by rewrite !word_length.
  - intros v. cbn [Z_of_word]. by rewrite <- Vx, <- Vy.
Qed.

(** The two operands, in the order asked for. *)
Lemma swapped (f : Z → Z → bool) makeSwap (x y : Z) :
  (let '(a, b) := swap_operands makeSwap x y in f a b) = (if makeSwap then f y x else f x y).
Proof. by destruct makeSwap. Qed.

(** [x > y], or [y > x] for swapped operands. *)
Definition greater (makeSwap : bool) (x y : Z) : bool := (if makeSwap then x <? y else y <? x)%Z.
Definition greater_equal (makeSwap : bool) (x y : Z) : bool := (if makeSwap then x <=? y else y <=? x)%Z.

Lemma synthXtU_spec makeSwap : compares false (greater makeSwap) (synthXtU attr makeSwap).
Proof using HA HB HO RA RB RO.
  apply run_implements. apply wp_operands. intros x y b ins Hw He Hn Hx Hy Lx Ly Vx Vy.
  destruct makeSwap; cbn [swap_operands];
    (eapply wp_adds; [done|apply generateComparison_spec; [lia|lia|done..]|]); intros r b1 Hw1 E1 _ (D & _);
    (eapply (finish_compare false (greater _)); [exact Hw1|exact E1|exact Hn|exact D|]);
    intros v; cbn [Z_of_word greater]; by rewrite <- Vx, <- Vy.
Qed.

Lemma synthXteU_spec makeSwap : compares false (greater_equal makeSwap) (synthXteU attr makeSwap).
Proof using HA HB HO RA RB RO.
  apply run_implements. apply wp_operands. intros x y b ins Hw He Hn Hx Hy Lx Ly Vx Vy.
  destruct makeSwap; cbn [swap_operands];
    (eapply wp_adds; [done|apply generateComparison_spec; [lia|lia|done..]|]); intros [m p] b1 Hw1 E1 _ (D & Lp & Dp);
    cbn [fst snd] in D, Lp, Dp;
    (eapply wp_adds; [done|eapply equal_spec; [done| |exact Lp|exact Dp]; lia|]); intros e b2 Hw2 E2 E2' De;
    (eapply wp_adds; [done|apply add_or; [done|exact De|eapply denotes_ext; [exact E2'|exact D]]|]); intros l b3 Hw3 E3 _ Dl;
    (eapply (finish_compare false (greater_equal _)); [exact Hw3|exact E3|exact Hn|exact Dl|]);
    intros v; cbn [Z_of_word greater_equal]; rewrite leb_eq_lt; by rewrite <- Vx, <- Vy.
Qed.

(** The inputs of two operands with sign, extended to the same number of bits. *)
Lemma wp_signed_operands {B} (k : LinkList → LinkList → Link → Link → st SubnetBuilder B) Q : nA ≠ 1 ∨ nB ≠ 1 →
  (∀ x y s t b ins, wf b ins [] → ext empty_builder b → length ins = nA + nB → srcs b x → srcs b y → src b s → src b t →
     0 < length x < 2 ^ 16 → length y = length x →
     (∀ v, with_sign (word v x) (lval v s) = Z_of_sbits (take nA ((λ i, v i 0) <$> ins))) →
     (∀ v, with_sign (word v y) (lval v t) = Z_of_sbits (drop nA ((λ i, v i 0) <$> ins))) → wp (k x y s t) b Q) →
  wp ('(x, s) ← signed_inputs attr 0; '(y, t) ← signed_inputs attr 1;
      let '(x, y) := fillBySignum x s y t in k x y s t) empty_builder Q.
Proof using HA HB RA RB RO.
  intros Hne Hk. eapply wp_signed_inputs; [apply open_empty|exact HA|lia|]. intros x s b Ho He Sx Ss Lx Vx.
  eapply wp_signed_inputs; [exact Ho|exact HB|lia|]. intros y t b' [Hw He' _] He'' Sy St Ly Vy.
  apply (srcs_ext _ _ _ He'') in Sx. apply (src_ext _ _ _ He'') in Ss.
  destruct (fill_spec b' x y s t Sx Sy Ss St) as (x' & y' & -> & Sx' & Sy' & Lx' & Ly' & Vx' & Vy').
  fold nA nB in RA, RB, Lx, Ly |- *.
  apply (Hk x' y' s t b' ((idx <$> x ++ [s]) ++ (idx <$> y ++ [t]))); try done.
  - rewrite length_app, !length_fmap, !length_app. cbn. lia.
  - lia.
  - lia.
  - intros v. rewrite Vx', with_sign_fill, Vx, (fmap_app _ (idx <$> x ++ [s])), take_app_length'; [done|]. rewrite !length_fmap, length_app. cbn. lia.
  - intros v. rewrite Vy', with_sign_fill, Vy, (fmap_app _ (idx <$> x ++ [s])), drop_app_length'; [done|]. rewrite !length_fmap, length_app. cbn. lia.
Qed.

Lemma one_bit_eq : one_bit attr = Some ((wA =? 1) && (wB =? 1))%N.
Proof using HA HB. unfold one_bit. by rewrite HA, HB. Qed.

(** Of two one-bit numbers with sign the greater one is the smaller one without. *)
Lemma compares_one_bit f g r : nA = 1 → nB = 1 → (∀ x y : bool, f (Z.b2z x) (Z.b2z y) = g (- Z.b2z x)%Z (- Z.b2z y)%Z) →
  compares false f r → compares true g r.
Proof.
  intros EA EB Hfg (s & -> & H1 & H2 & H3). exists s. split; [done|]. split; [exact H1|]. split; [|exact H3].
  intros v Hv. rewrite (H2 v Hv). do 4 f_equal. assert (length (in_values v s) = 2) as Hl by (unfold in_values; rewrite length_fmap, length_seq; lia).
  rewrite EA. destruct (in_values v s) as [|x [|y [|]]]; try done. pose proof (Hfg x y) as E. destruct x, y; exact E.
Qed.

(** The signed comparison of links, with the lower bits compared before. *)
Lemma signed_greater_spec m x y s t b ins outs : wf b ins outs → length y = length x → src b s → src b t →
  denotes b m (λ v, Z_of_bits (word v y) <? Z_of_bits (word v x))%Z →
  adds ins outs b (generateSignedComparison m s t)
    (λ b' l, denotes b' l (λ v, with_sign (word v y) (lval v t) <? with_sign (word v x) (lval v s))%Z).
Proof.
  intros Hw Hl Ss St D. eapply adds_mono; [eapply signed_comparison_spec; [exact Hw|exact D|apply denotes_self, Ss|apply denotes_self, St]|].
  intros l b' _ Dl. eapply denotes_eq; [|exact Dl]. intros v. cbv beta. by rewrite with_sign_ltb by (by rewrite !word_length).
Qed.

Lemma synthXtS_spec makeSwap : compares true (greater makeSwap) (synthXtS attr makeSwap).
Proof using HA HB HO RA RB RO.
  unfold synthXtS. rewrite one_bit_eq. cbn [mbind option_bind]. destruct ((wA =? 1) && (wB =? 1))%N eqn:E1.
  { apply andb_true_iff in E1 as [EA%N.eqb_eq EB%N.eqb_eq].
    apply (compares_one_bit (greater (negb makeSwap))); [unfold nA; by rewrite EA|unfold nB; by rewrite EB| |apply synthXtU_spec].
    by intros [] []; destruct makeSwap. }
  assert (nA ≠ 1 ∨ nB ≠ 1) as Hne by (apply andb_false_iff in E1 as [E1%N.eqb_neq|E1%N.eqb_neq]; unfold nA, nB; lia).
  apply run_implements. apply (wp_signed_operands (λ x y s t,
    let '(x, y) := swap_operands makeSwap x y in let '(s, t) := swap_operands makeSwap s t in
    r ← generateComparison x y false; l ← generateSignedComparison r.1 s t;
    addOutput l ;; w ← out_width attr 0; extendOutput w false)); [exact Hne|].
  intros x y s t b ins Hw He Hn Hx Hy Hs Ht Lx Ly Vx Vy.
  destruct makeSwap; cbn [swap_operands];
    (eapply wp_adds; [done|apply generateComparison_spec; [lia|lia|done..]|]); intros r b1 Hw1 E2 E3 (D & _);
    apply (src_ext _ _ _ E3) in Hs, Ht;
    (eapply wp_adds; [done|eapply signed_greater_spec; [done| |eassumption|eassumption|exact D]; done|]);
    intros l b2 Hw2 E4 _ Dl;
    (eapply (finish_compare true (greater _)); [exact Hw2|exact E4|exact Hn|exact Dl|]);
    intros v; cbn [Z_of_word greater]; by rewrite <- Vx, <- Vy.
Qed.

(** The equal bits with the sign bits. *)
Lemma signed_equal_spec x y s t p b ins outs : wf b ins outs → length y = length x → 0 < length x → src b s → src b t →
  length p = max (length x) (length y) - 0 → denotes_all b p (equal_bits x y 0) →
  adds ins outs b (q ← addGate XOR [s; t]; tree_or_back AND (p ++ [link_not q]))
    (λ b' l, denotes b' l (λ v, with_sign (word v x) (lval v s) =? with_sign (word v y) (lval v t))%Z).
Proof.
  intros Hw Hl Hx Ss St Lp Dp. eapply adds_bind; [apply add_xor; [exact Hw|apply denotes_self, Ss|apply denotes_self, St]|].
  intros q b1 Hw1 E1 Dq. apply denotes_not in Dq.
  pose proof (denotes_all_app _ _ _ _ _ (denotes_all_ext _ _ _ _ E1 Dp) (denotes_all_cons _ _ _ _ _ Dq (denotes_all_nil b1))) as D.
  eapply adds_mono; [eapply and_tree_or_back; [done|exact D| |]|].
  { intros E. by apply app_eq_nil in E as [_ ?]. } { intros v E. by apply app_eq_nil in E as [_ ?]. }
  intros l b2 _ Dl. eapply denotes_eq; [|exact Dl]. intros v. cbv beta. rewrite forallb_app.
  rewrite <- (drop_0 (equal_bits x y 0 v)), (equal_bits_same x y 0 0 v) by lia. set (n := max (length x) (length y)).
  rewrite with_sign_eqb by (by rewrite !word_length).
  rewrite (num_bits (word v x) n), (num_bits (word v y) n) by (rewrite word_length; unfold n; lia).
  rewrite num_eqb. f_equal. cbn. unfold id. by destruct (lval v s), (lval v t).
Qed.

Lemma synthXteS_spec makeSwap : compares true (greater_equal makeSwap) (synthXteS attr makeSwap).
Proof using HA HB HO RA RB RO.
  unfold synthXteS. rewrite one_bit_eq. cbn [mbind option_bind]. destruct ((wA =? 1) && (wB =? 1))%N eqn:E1.
  { apply andb_true_iff in E1 as [EA%N.eqb_eq EB%N.eqb_eq].
    apply (compares_one_bit (greater_equal (negb makeSwap))); [unfold nA; by rewrite EA|unfold nB; by rewrite EB| |apply synthXteU_spec].
    by intros [] []; destruct makeSwap. }
  assert (nA ≠ 1 ∨ nB ≠ 1) as Hne by (apply andb_false_iff in E1 as [E1%N.eqb_neq|E1%N.eqb_neq]; unfold nA, nB; lia).
  apply run_implements. apply (wp_signed_operands (λ x y s t,
    let '(x, y) := swap_operands makeSwap x y in let '(s, t) := swap_operands makeSwap s t in
    '(more, propagate) ← generateComparison x y true; p ← addGate XOR [s; t];
    equal ← tree_or_back AND (propagate ++ [link_not p]); more ← generateSignedComparison more s t;
    l ← addGate OR [equal; more]; addOutput l ;; w ← out_width attr 0; extendOutput w false)); [exact Hne|].
  intros x y s t b ins Hw He Hn Hx Hy Hs Ht Lx Ly Vx Vy.
  destruct makeSwap; cbn [swap_operands];
    (eapply wp_adds; [done|apply generateComparison_spec; [lia|lia|done..]|]); intros [m p] b1 Hw1 E2 E3 (D & Lp & Dp);
    cbn [fst snd] in D, Lp, Dp; apply (src_ext _ _ _ E3) in Hs, Ht; apply wp_assoc;
    (eapply wp_adds; [done|(eapply signed_equal_spec; [done| | |exact Ht|exact Hs|exact Lp|exact Dp]; lia) ||
      (eapply signed_equal_spec; [done| | |exact Hs|exact Ht|exact Lp|exact Dp]; lia)|]);
    intros e b2 Hw2 E4 E5 De; apply (src_ext _ _ _ E5) in Hs, Ht; apply (denotes_ext _ _ _ _ E5) in D;
    (eapply wp_adds; [done|eapply signed_greater_spec; [done| |eassumption|eassumption|exact D]; done|]);
    intros g b3 Hw3 E6 E7 Dg;
    (eapply wp_adds; [done|apply add_or; [done|eapply denotes_ext; [exact E7|exact De]|exact Dg]|]); intros l b4 Hw4 E8 _ Dl;
    (eapply (finish_compare true (greater_equal _)); [exact Hw4|exact E8|exact Hn|exact Dl|]);
    intros v; cbn [Z_of_word greater_equal]; rewrite leb_eq_lt; by rewrite <- Vx, <- Vy.
Qed.
End Subnets.
