(* ===== verification/Shift.v ===== *)
(** * Shifts ([gate/synthesizer/operation/shift.cpp])

    The subnets of the shifts by a variable amount: a decoder of the amount and,
    for every output, a choice between the inputs that may reach it. *)

From S2P Require Import Prelude CellType SubnetBase Builder BuilderInv BuilderSpec BuilderEval MakeSpec.
From S2P Require Import CellAttr Adder AdderSum AdderArith Synth SynthArith SynthBits Comparison.
From stdpp Require Import gmap strings.

(** ** Definitions *)

(** Conversion to [int16_t]. *)
Definition i16 (z : Z) : Z := ((z + 2 ^ 15) mod 2 ^ 16 - 2 ^ 15)%Z.

Section Routines.
Context `{TypeStore}.

(** The inputs of the next value of the counter: those are inverted whose bits
    of the counter change.  The shift of a 64-bit mask is undefined for more
    than 64 inputs. *)
(* gate/synthesizer/operation/shift.cpp:41-49 [synthMuxForShift] *)
Definition next_inputs (iterCount : nat) (muxInputs : LinkList) : st SubnetBuilder LinkList :=
  st_assert (length muxInputs <=? 64) ;;
  mret (imap (λ i l,
    if xorb (Z.testbit (Z.of_nat iterCount) (Z.of_nat i)) (Z.testbit (Z.of_nat (iterCount + 1)) (Z.of_nat i))
    then link_not l else l) muxInputs).

(** The loop over the results; [n] are left. *)
(* gate/synthesizer/operation/shift.cpp:32-50 [synthMuxForShift] *)
Fixpoint mux_for_shift_loop (n iterCount : nat) (muxInputs : LinkList) : st SubnetBuilder LinkList :=
  match n with
  | 0 => mret []
  | S n =>
    x ← (if 1 <? length muxInputs then addGate AND muxInputs else back muxInputs);
    muxInputs ← next_inputs iterCount muxInputs;
    l ← mux_for_shift_loop n (iterCount + 1) muxInputs;
    mret (x :: l)
  end.

(* gate/synthesizer/operation/shift.cpp:17-53 [synthMuxForShift] *)
Definition synthMuxForShift (muxInputs : LinkList) (targetOutputsSize : nat) : st SubnetBuilder LinkList :=
  mux_for_shift_loop targetOutputsSize 0 (link_not <$> muxInputs).

(* gate/synthesizer/operation/shift.cpp:55-69 [addInvertedMux] *)
Definition addInvertedMux (orOperations : LinkList) (input : Link) (andOperationsForSigned : LinkList) (invert : bool)
    : st SubnetBuilder LinkList :=
  invMux ← tree_or_back OR andOperationsForSigned;
  x ← addGate AND [if invert then link_not invMux else invMux; input];
  mret (orOperations ++ [x]).

(** [std::min<uint64_t>(1ull << muxInputs.size(), size)], and [size] for more than
    63 inputs. *)
Definition mux_size (mux size : nat) : nat := if 63 <? mux then size else min (2 ^ mux) size.

(** The variables of the loops: positions of the iterators, number of pairs. *)
Record Window := mkWindow {
  iterInput : nat;
  iterAnd : nat;
  used : nat;
}.

(** [used] is not decremented at zero: no access would be left. *)
(* gate/synthesizer/operation/shift.cpp:114-118 [synthDefaultShiftL] *)
Definition next_used (out windowMinSize windowMaxSize used : nat) : st SubnetBuilder nat :=
  if windowMaxSize <=? out then st_assert (0 <? used) ;; mret (used - 1)
  else if used <? windowMinSize then mret (used + 1)
  else mret used.

Definition or_or_single (orOperations : LinkList) : st SubnetBuilder Link :=
  if 1 <? length orOperations then addCellTree OR orOperations 2 else link_at orOperations 0.

(** One output of the left shift. *)
(* gate/synthesizer/operation/shift.cpp:100-144 [synthDefaultShiftL] *)
Definition shiftl_bit (inputs andOperations : LinkList) (useSign : bool) (out : nat) (w : Window)
    : st SubnetBuilder (Link * Window) :=
  let windowMinSize := min (u16 (length inputs)) (u16 (length andOperations)) in
  let windowMaxSize := max (u16 (length inputs)) (u16 (length andOperations)) in
  let past n := (i16 (Z.of_nat n) <=? Z.of_nat out)%Z in
  let iI := if past (length andOperations) then iterInput w + 1 else iterInput w in
  let iA := if past (length inputs) then iterAnd w + 1 else iterAnd w in
  u ← next_used out windowMinSize windowMaxSize (used w);
  ors ← st_map (λ j,
    inp ← link_at inputs (iI + j); andOp ← link_at andOperations (iA + (u - 1 - j));
    addGate AND [inp; andOp]) (seq 0 u);
  ors ← (if useSign && past (length inputs) then
           sign ← back inputs;
           st_assert (iA <=? length andOperations) ;;
           addInvertedMux ors sign (take iA andOperations) false
         else mret ors);
  x ← or_or_single ors;
  mret (x, mkWindow iI iA u).

(** The outputs in the given order, each with the window of the one before. *)
Fixpoint window_loop (bit : nat → Window → st SubnetBuilder (Link * Window)) (outs : list nat) (w : Window)
    : st SubnetBuilder LinkList :=
  match outs with
  | [] => mret []
  | o :: outs => '(x, w) ← bit o w; l ← window_loop bit outs w; mret (x :: l)
  end.

(** The rest of the outputs: the sign or zero. *)
(* gate/synthesizer/operation/shift.cpp:145-152 [synthDefaultShiftL] *)
Definition fill_outputs (inputs : LinkList) (n : nat) (useSign : bool) (outputs : LinkList) : st SubnetBuilder LinkList :=
  if length outputs <? n then
    zeroCell ← (if useSign then back inputs else addGate ZERO []);
    mret (outputs ++ replicate (n - length outputs) zeroCell)
  else mret outputs.

(** The sizes and the index [out] have 16 bits. *)
(* gate/synthesizer/operation/shift.cpp:71-155 [synthDefaultShiftL] *)
Definition synthDefaultShiftL (inputs muxInputs : LinkList) (sizeOutput : nat) (useSign : bool) : st SubnetBuilder LinkList :=
  let muxOutputSize := mux_size (length muxInputs) sizeOutput in
  let maxOutSize := min (u16 (muxOutputSize + length inputs - 1)) (u16 sizeOutput) in
  andOperations ← synthMuxForShift muxInputs muxOutputSize;
  outputs ← window_loop (shiftl_bit inputs andOperations useSign) (seq 0 maxOutSize) (mkWindow 0 0 0);
  fill_outputs inputs sizeOutput useSign outputs.

(** One output of the right shift; [count] is the number of the step plus the
    number of skipped ones. *)
(* gate/synthesizer/operation/shift.cpp:188-222 [synthDefaultShiftR] *)
Definition shiftr_bit (inputs andOperations : LinkList) (useSign : bool) (count : nat) (w : Window)
    : st SubnetBuilder (Link * Window) :=
  let windowMinSize := min (u16 (length inputs)) (u16 (length andOperations)) in
  let windowMaxSize := max (u16 (length inputs)) (u16 (length andOperations)) in
  iI ← (if (i16 (Z.of_nat (length andOperations)) <=? Z.of_nat count)%Z
        then st_assert (0 <? iterInput w) ;; mret (iterInput w - 1) else mret (iterInput w));
  u ← next_used count windowMinSize windowMaxSize (used w);
  st_assert (u <=? iI) ;;
  ors ← st_map (λ j,
    inp ← link_at inputs (iI - u + j); andOp ← link_at andOperations j;
    addGate AND [inp; andOp]) (seq 0 u);
  ors ← (if useSign then sign ← back inputs; addInvertedMux ors sign (take u andOperations) true else mret ors);
  x ← or_or_single ors;
  mret (x, mkWindow iI 0 u).

(** The outputs are made from the last one on: [out] goes down while [count] goes
    up.  Both have 16 bits with sign: the model stops where they would wrap. *)
(* gate/synthesizer/operation/shift.cpp:157-232 [synthDefaultShiftR] *)
Definition synthDefaultShiftR (inputs muxInputs : LinkList) (sizeOutput : nat) (useSign : bool) : st SubnetBuilder LinkList :=
  let muxOutSize := mux_size (length muxInputs) (length inputs) in
  andOperations ← synthMuxForShift muxInputs muxOutSize;
  let size := min (u16 (length inputs)) (u16 sizeOutput) in
  let skip := Z.to_nat (Z.max 0 (i16 (Z.of_nat (length inputs) - Z.of_nat sizeOutput))) in
  st_assert (skip + size <=? 2 ^ 15) ;;
  let w := mkWindow (length inputs - Z.to_nat (Z.max 0 (i16 (Z.of_nat skip - Z.of_nat (length andOperations))))) 0
             (min (min (u16 (length inputs)) (u16 (length andOperations))) skip) in
  outputs ← window_loop (shiftr_bit inputs andOperations useSign) (seq skip size) w;
  fill_outputs inputs sizeOutput useSign (rev outputs).

(* gate/synthesizer/operation/shift.cpp:234-245 [synthShl] *)
Definition synthShl (attr : CellTypeAttr) (signExtend : bool) : option Subnet := run_make (
  wA ← in_width attr 0; arg0 ← addInputs wA;
  wB ← in_width attr 1; arg1 ← addInputs wB;
  size ← out_width attr 0;
  r ← synthDefaultShiftL arg0 arg1 size signExtend;
  addOutputs r).

(* gate/synthesizer/operation/shift.cpp:247-258 [synthShr] *)
Definition synthShr (attr : CellTypeAttr) (signExtend : bool) : option Subnet := run_make (
  wA ← in_width attr 0; arg0 ← addInputs wA;
  wB ← in_width attr 1; arg1 ← addInputs wB;
  size ← out_width attr 0;
  r ← synthDefaultShiftR arg0 arg1 size signExtend;
  addOutputs r).

(** The two shifts are arguments of one call: C++ does not fix which is made
    first, here it is the right one. *)
(* gate/synthesizer/operation/shift.cpp:261-277 [synthShift] *)
Definition synthShift (attr : CellTypeAttr) (signExtend : bool) : option Subnet := run_make (
  wA ← in_width attr 0; arg0 ← addInputs wA;
  wB ← in_width attr 1; arg1 ← addInputs wB;
  size ← out_width attr 0;
  shift ← absoluteValue arg1;
  sign ← back arg1;
  right ← synthDefaultShiftR arg0 shift size signExtend;
  left ← synthDefaultShiftL arg0 shift size signExtend;
  out ← addMux2_words sign right left;
  addOutputs out).

(* gate/synthesizer/operation/shift.cpp:279-281 [synthShlS] *)
Definition synthShlS (attr : CellTypeAttr) := synthShl attr true.
(* gate/synthesizer/operation/shift.cpp:283-285 [synthShlU] *)
Definition synthShlU (attr : CellTypeAttr) := synthShl attr false.
(* gate/synthesizer/operation/shift.cpp:287-289 [synthShrS] *)
Definition synthShrS (attr : CellTypeAttr) := synthShr attr true.
(* gate/synthesizer/operation/shift.cpp:291-293 [synthShrU] *)
Definition synthShrU (attr : CellTypeAttr) := synthShr attr false.
(* gate/synthesizer/operation/shift.cpp:295-297 [synthShiftS] *)
Definition synthShiftS (attr : CellTypeAttr) := synthShift attr true.
(* gate/synthesizer/operation/shift.cpp:299-301 [synthShiftU] *)
Definition synthShiftU (attr : CellTypeAttr) := synthShift attr false.
End Routines.
