(* ===== verification/ShiftSpec.v ===== *)
(** * The subnets of the shifts

    The decoder compares the amount with a counter; the pairs of an output are
    the ways in which an input may reach it. *)

From S2P Require Import Prelude CellType SubnetBase Builder BuilderInv BuilderSpec BuilderEval MakeSpec.
From S2P Require Import CellAttr Adder AdderSum AdderArith Synth SynthArith SynthBits Comparison ComparisonSpec ComparisonCorrect Shift.
From stdpp Require Import gmap strings.

(** ** Bits of shifted numbers *)

Lemma i16_small n : n < 2 ^ 15 → i16 (Z.of_nat n) = Z.of_nat n.
Proof.
  intros Hn. unfold i16. assert (Z.of_nat n < 2 ^ 15)%Z as Hz.
  { change (2 ^ 15)%Z with (Z.of_nat 2 ^ Z.of_nat 15)%Z. rewrite <- Nat2Z.inj_pow. lia. }
  rewrite Z.mod_small; lia.
Qed.

Lemma i16_small_Z z : (- 2 ^ 15 ≤ z < 2 ^ 15)%Z → i16 z = z.
Proof. intros Hz. unfold i16. rewrite Z.mod_small; lia. Qed.

(** At most one element of the list counts. *)
Lemma existsb_point (f c : nat → bool) u j0 : j0 < u → (∀ j, j < u → c j = bool_decide (j = j0)) →
  existsb (λ j, f j && c j) (seq 0 u) = f j0.
Proof.
  intros Hj Hc. rewrite (existsb_ext_in _ (λ j, f j && bool_decide (j = j0))).
  2:{ intros j Hj'. apply elem_of_seq in Hj'. by rewrite Hc by lia. }
  destruct (f j0) eqn:E.
  - apply existsb_exists. exists j0. split; [apply in_seq; lia|]. by rewrite E, bool_decide_eq_true_2.
  - apply not_true_is_false. intros (j & _ & [H1 H2%bool_decide_eq_true]%andb_true_iff)%existsb_exists. congruence.
Qed.

Lemma existsb_none (f c : nat → bool) u : (∀ j, j < u → c j = false) → existsb (λ j, f j && c j) (seq 0 u) = false.
Proof.
  intros Hc. rewrite (existsb_ext_in _ (λ _, false)); [apply existsb_const_false|].
  intros j Hj. apply elem_of_seq in Hj. by rewrite Hc, andb_false_r by lia.
Qed.

Lemma existsb_below s u : (0 ≤ s)%Z → existsb (λ k, s =? Z.of_nat k)%Z (seq 0 u) = (s <? Z.of_nat u)%Z.
Proof.
  intros Hs. destruct (Z.ltb_spec s (Z.of_nat u)) as [Hlt|Hge].
  - apply existsb_exists. exists (Z.to_nat s). split; [apply in_seq; lia|]. apply Z.eqb_eq. lia.
  - apply not_true_is_false. intros (k & Hk%in_seq & E%Z.eqb_eq)%existsb_exists. lia.
Qed.

(** The pairs of an input and a value of the amount at the output [out] of a
    left shift. *)
Lemma shiftl_testbit se x s nM out : 0 < length x → (0 ≤ s)%Z → out + 2 ≤ length x + nM →
  (s < Z.of_nat nM ∨ Z.of_nat out < s)%Z →
  let iI := out + 1 - nM in let iA := out + 1 - length x in
  let u := min (out + 1) (min (min (length x) nM) (length x + nM - (out + 1))) in
  existsb (λ j, bit x (iI + j) && (s =? Z.of_nat (iA + (u - 1 - j)))%Z) (seq 0 u) ||
    (se && (length x <=? out) && ((s <? Z.of_nat iA)%Z && msb x)) =
  Z.testbit (Z.shiftl (Z_of_word se x) s) (Z.of_nat out).
Proof.
  intros Hx Hs Ho Hc iI iA u. rewrite Z.shiftl_spec by lia.
  destruct (Z.leb_spec s (Z.of_nat out)) as [Hle|Hgt].
  - set (d := Z.to_nat (Z.of_nat out - s)). replace (Z.of_nat out - s)%Z with (Z.of_nat d) by lia.
    rewrite testbit_word by done. destruct (Nat.ltb_spec d (length x)) as [Hd|Hd].
    + rewrite (existsb_point _ _ u (d - iI)).
      * replace (iI + (d - iI)) with d by lia. rewrite (proj2 (Z.ltb_ge _ _)) by lia. by rewrite andb_false_r, orb_false_r.
      * lia.
      * intros j Hj. destruct (Z.eqb_spec s (Z.of_nat (iA + (u - 1 - j)))); case_bool_decide; [done|lia|lia|done].
    + rewrite existsb_none by (intros j Hj; apply Z.eqb_neq; lia).
      rewrite (proj2 (Nat.leb_le _ _)), (proj2 (Z.ltb_lt _ _)) by lia. by rewrite andb_true_r.
  - rewrite existsb_none by (intros j Hj; apply Z.eqb_neq; lia). rewrite (proj2 (Z.ltb_ge _ _)) by lia.
    rewrite Z.testbit_neg_r by lia. by rewrite andb_false_r.
Qed.

Lemma shiftr_testbit se x s nM out : 0 < length x → (0 ≤ s)%Z → out < length x → nM ≤ length x →
  (s < Z.of_nat nM ∨ nM = length x)%Z → let u := min nM (length x - out) in
  existsb (λ j, bit x (out + j) && (s =? Z.of_nat j)%Z) (seq 0 u) || (se && (negb (s <? Z.of_nat u)%Z && msb x)) =
  Z.testbit (Z.shiftr (Z_of_word se x) s) (Z.of_nat out).
Proof.
  intros Hx Hs Ho Hn Hc u. rewrite Z.shiftr_spec by lia. replace (Z.of_nat out + s)%Z with (Z.of_nat (out + Z.to_nat s)) by lia.
  rewrite testbit_word by done. destruct (Z.ltb_spec s (Z.of_nat u)) as [Hlt|Hge].
  - rewrite (existsb_point _ _ u (Z.to_nat s)).
    + rewrite (proj2 (Nat.ltb_lt _ _)) by lia. by rewrite andb_false_r, orb_false_r.
    + lia.
    + intros j Hj. destruct (Z.eqb_spec s (Z.of_nat j)); case_bool_decide; [done|lia|lia|done].
  - rewrite existsb_none by (intros j Hj; apply Z.eqb_neq; lia). by rewrite (proj2 (Nat.ltb_ge _ _)) by lia.
Qed.

(** ** The decoder of the amount *)

Section Decoder.
Context `{TypeStore}.
Context (ms : LinkList) (ins outs : list nat).
Context (Hms : 0 < length ms ≤ InPlaceLinks).

Definition amount (v : valuation) : Z := Z_of_bits (word v ms).

(** The bits of the amount that agree with the counter. *)
Let agree (c : nat) (v : valuation) (i : nat) : bool := eqb (bit (word v ms) i) (Z.testbit (Z.of_nat c) (Z.of_nat i)).

Lemma agree_amount c v : c < 2 ^ length ms → forallb id (agree c v <$> seq 0 (length ms)) = (amount v =? Z.of_nat c)%Z.
Proof using.
  clear Hms. intros Hc. rewrite forallb_fmap. unfold amount. rewrite (num_bits (word v ms) (length ms)) by (by rewrite word_length).
  assert (num (length ms) (λ i, Z.testbit (Z.of_nat c) (Z.of_nat i)) = Z.of_nat c) as <-.
  { unfold num. change ((λ i, Z.testbit (Z.of_nat c) (Z.of_nat i)) <$> seq 0 (length ms)) with (bits_of (length ms) (Z.of_nat c)).
    rewrite Z_of_bits_of. apply Z.mod_small. apply Nat2Z.inj_lt in Hc. rewrite Nat2Z.inj_pow in Hc. lia. }
  rewrite num_eqb. unfold same_above. by rewrite Nat.sub_0_r.
Qed.

Lemma next_inputs_spec c cur b : length cur = length ms →
  (∀ i l, cur !! i = Some l → denotes b l (λ v, agree c v i)) →
  ∃ cur', next_inputs c cur b = Some (cur', b) ∧ length cur' = length ms ∧
    ∀ i l, cur' !! i = Some l → denotes b l (λ v, agree (c + 1) v i).
Proof using Hms.
  intros Hl Hd. unfold next_inputs, st_assert. unfold mbind, st_bind. unfold InPlaceLinks in Hms.
  rewrite (proj2 (Nat.leb_le _ _)) by lia. eexists. split; [done|]. split; [by rewrite length_imap|].
  intros i l Hi. rewrite list_lookup_imap in Hi. destruct (cur !! i) as [k|] eqn:Ek; [|done]. injection Hi as <-.
  specialize (Hd i k Ek). unfold agree in *. destruct (xorb _ _) eqn:Ex.
  - eapply denotes_eq; [|exact (denotes_not _ _ _ Hd)]. intros v. cbv beta.
    destruct (bit (word v ms) i), (Z.testbit (Z.of_nat c) _), (Z.testbit (Z.of_nat (c + 1)) _); done.
  - eapply denotes_eq; [|exact Hd]. intros v. cbv beta.
    destruct (bit (word v ms) i), (Z.testbit (Z.of_nat c) _), (Z.testbit (Z.of_nat (c + 1)) _); done.
Qed.

Lemma and_inputs_spec c cur b : wf b ins outs → length cur = length ms → c < 2 ^ length ms →
  (∀ i l, cur !! i = Some l → denotes b l (λ v, agree c v i)) →
  adds ins outs b (if 1 <? length cur then addGate AND cur else back cur) (λ b' x, denotes b' x (λ v, amount v =? Z.of_nat c)%Z).
Proof using Hms.
  intros Hw Hl Hc Hd. pose proof (denotes_pointwise b cur (length ms) (agree c) Hl Hd) as D.
  destruct (Nat.ltb_spec 1 (length cur)) as [H1|H1].
  - apply (addGate_denotes AND cur (λ v, agree c v <$> seq 0 (length ms))); [done|done|lia| |].
    + by apply (regroupable_ok AND (row "and" 1 1 1 0 0 1 1 1 0 65535 1 AND)); [| |lia].
    + intros v. left. rewrite <- agree_amount by done. destruct ms as [|m ms']; [cbn in *; lia|done].
  - destruct cur as [|x [|]]; [cbn in *; lia| |cbn in *; lia]. exists x, b. split; [done|]. split_all; [done|done|].
    eapply denotes_eq; [|exact (Hd 0 x eq_refl)]. intros v. rewrite <- agree_amount by done. cbn [length] in Hl. rewrite <- Hl.
    cbn. by rewrite andb_true_r.
Qed.

Lemma mux_loop_decodes n : ∀ c cur b, wf b ins outs → length cur = length ms → c + n ≤ 2 ^ length ms →
  (∀ i l, cur !! i = Some l → denotes b l (λ v, agree c v i)) →
  adds ins outs b (mux_for_shift_loop n c cur) (λ b' r, length r = n ∧
    ∀ k l, r !! k = Some l → denotes b' l (λ v, amount v =? Z.of_nat (c + k))%Z).
Proof using Hms.
  induction n as [|n IH]; intros c cur b Hw Hl Hc Hd; cbn [mux_for_shift_loop]; [by apply adds_ret|].
  eapply adds_bind; [apply (and_inputs_spec c); [done|done|lia|exact Hd]|]. intros x b1 Hw1 E1 Dx.
  destruct (next_inputs_spec c cur b1 Hl) as (cur' & En & Hl' & Hd').
  { intros i l Hi. eapply denotes_ext; [exact E1|]. by apply Hd. }
  apply wp_bind. exists cur', b1. split; [exact En|].
  eapply adds_bind; [apply (IH (c + 1)); [done|done|lia|exact Hd']|]. intros r b2 Hw2 E2 [Lr Dr].
  apply adds_ret; [done|]. split; [cbn; lia|]. intros [|k] l Hk.
  - injection Hk as <-. rewrite Nat.add_0_r. eapply denotes_ext; [exact E2|exact Dx].
  - replace (c + S k) with (c + 1 + k) by lia. by apply Dr.
Qed.

(** The decoder: link [k] denotes whether the amount is [k]. *)
Definition decodes (b : SubnetBuilder) (r : LinkList) (n : nat) : Prop :=
  length r = n ∧ ∀ k l, r !! k = Some l → denotes b l (λ v, amount v =? Z.of_nat k)%Z.

Lemma synthMuxForShift_spec n b : wf b ins outs → srcs b ms → n ≤ 2 ^ length ms →
  adds ins outs b (synthMuxForShift ms n) (λ b' r, decodes b' r n).
Proof using Hms.
  intros Hw Hs Hn. unfold synthMuxForShift. apply mux_loop_decodes; [done|by rewrite length_fmap|lia|].
  intros i l Hi. rewrite list_lookup_fmap in Hi. destruct (ms !! i) as [k|] eqn:Ek; [|done]. injection Hi as <-.
  eapply denotes_eq; [|exact (denotes_not _ _ _ (denotes_at b ms k i Hs Ek))]. intros v. unfold agree. rewrite Z.testbit_0_l.
  by destruct (bit (word v ms) i).
Qed.

Lemma amount_bound v : (0 ≤ amount v < Z.of_nat (2 ^ length ms))%Z.
Proof using.
  clear Hms. unfold amount. pose proof (Z_of_bits_bound (word v ms)) as Hb. rewrite word_length in Hb. rewrite Nat2Z.inj_pow. done.
Qed.

Lemma decodes_ext b b' r n : ext b b' → decodes b r n → decodes b' r n.
Proof using. intros He [Hl Hd]. split; [done|]. intros k l Hk. eapply denotes_ext; [exact He|]. by apply Hd. Qed.
End Decoder.

(** ** Choices *)

Section Choice.
Context `{TypeStore}.
Context (ins outs : list nat).

(** Pairs of links, one gate for each. *)
Lemma pairs_spec u (f : nat → st SubnetBuilder Link) g b : wf b ins outs →
  (∀ j b', j < u → wf b' ins outs → ext b b' → adds ins outs b' (f j) (λ b'' l, denotes b'' l (λ v, g v j))) →
  adds ins outs b (st_map f (seq 0 u)) (λ b' ls, length ls = u ∧ denotes_all b' ls (λ v, g v <$> seq 0 u)).
Proof.
  intros Hw Hf. eapply adds_mono.
  - apply (adds_map ins outs f (λ b' j l, denotes b' l (λ v, g v j))); [|exact Hw|].
    + intros b1 b2 j l He D. eapply denotes_ext; [exact He|exact D].
    + intros j b' Hj Hw' He. apply elem_of_seq in Hj. apply Hf; [lia|done|done].
  - intros ls b' _ HF. split; [by rewrite <- (Forall2_length _ _ _ HF), length_seq|]. by apply denotes_all_map.
Qed.

Lemma or_or_single_spec ls f b : wf b ins outs → denotes_all b ls f → ls ≠ [] → (∀ v, f v ≠ []) →
  adds ins outs b (or_or_single ls) (λ b' l, denotes b' l (λ v, existsb id (f v))).
Proof.
  intros Hw D Hne Hf. assert (or_or_single ls b = tree_or_back OR ls b) as E.
  { unfold or_or_single, tree_or_back. destruct (Nat.ltb_spec 1 (length ls)); [done|]. by destruct ls as [|l [|]]; [done| |cbn in *; lia]. }
  unfold adds, wp. rewrite E. by apply or_tree_or_back.
Qed.

(** The choice of the sign. *)
Lemma addInvertedMux_spec ls f sign fs ds g invert b : wf b ins outs → denotes_all b ls f → denotes b sign fs →
  denotes_all b ds g → ds ≠ [] → (∀ v, g v ≠ []) →
  adds ins outs b (addInvertedMux ls sign ds invert) (λ b' r, length r = length ls + 1 ∧
    denotes_all b' r (λ v, f v ++ [xorb invert (existsb id (g v)) && fs v])).
Proof.
  intros Hw Df Ds Dg Hne Hg. unfold addInvertedMux.
  eapply adds_bind; [by apply or_tree_or_back|]. intros m b1 Hw1 E1 Dm.
  assert (denotes b1 (if invert then link_not m else m) (λ v, xorb invert (existsb id (g v)))) as Dx.
  { destruct invert; [|eapply denotes_eq; [|exact Dm]; intros v; cbn; by destruct (existsb id (g v))].
    eapply denotes_eq; [|exact (denotes_not _ _ _ Dm)]. done. }
  eapply adds_bind; [apply add_and; [done|exact Dx|eapply denotes_ext; [exact E1|exact Ds]]|]. intros x b2 Hw2 E2 D2.
  apply adds_ret; [done|]. split; [by rewrite length_app|]. apply denotes_all_app.
  - exact (denotes_all_ext _ _ _ _ E2 (denotes_all_ext _ _ _ _ E1 Df)).
  - apply denotes_all_cons; [exact D2|apply denotes_all_nil].
Qed.

Lemma rev_lookup_Some {A} (l : list A) i a : rev l !! i = Some a → i < length l ∧ l !! (length l - 1 - i) = Some a.
Proof.
  intros Hi. rewrite rev_alt in Hi. change (rev_append l []) with (reverse l) in Hi. apply reverse_lookup_Some in Hi as [E Hl]. split; [done|].
  by replace (length l - 1 - i) with (length l - S i) by lia.
Qed.

(** The loop over the outputs. *)
Lemma window_loop_spec (bit : nat → Window → st SubnetBuilder (Link * Window)) (W : nat → Window) F b0 k : ∀ a b,
  wf b ins outs → ext b0 b →
  (∀ o b, a ≤ o < a + k → wf b ins outs → ext b0 b →
     adds ins outs b (bit o (W o)) (λ b' r, denotes b' r.1 (F o) ∧ r.2 = W (S o))) →
  adds ins outs b (window_loop bit (seq a k) (W a)) (λ b' ls, length ls = k ∧
    ∀ i l, ls !! i = Some l → denotes b' l (F (a + i))).
Proof.
  induction k as [|k IH]; intros a b Hw He Hbit; cbn [seq window_loop]; [by apply adds_ret|].
  eapply adds_bind; [apply Hbit; [lia|done|done]|]. intros [x w] b1 Hw1 E1 [Dx Ew]. cbn [fst snd] in Dx, Ew. rewrite Ew.
  assert (ext b0 b1) by by etransitivity.
  eapply adds_bind; [apply IH; [done|done|]|].
  { intros o b2 Ho. apply Hbit. lia. }
  intros ls b2 Hw2 E2 [Ll Dl]. apply adds_ret; [done|]. split; [cbn; lia|]. intros [|i] l Hi.
  - injection Hi as <-. rewrite Nat.add_0_r. eapply denotes_ext; [exact E2|exact Dx].
  - replace (a + S i) with (S a + i) by lia. by apply Dl.
Qed.
End Choice.

(** ** The shifts *)

Section Shifts.
Context `{TypeStore}.
Context (xs ms : LinkList) (se : bool) (ins outs : list nat).
Context (Hxs : 0 < length xs < 2 ^ 14) (Hms : 0 < length ms ≤ InPlaceLinks).

Let nI := length xs.
Let x (v : valuation) : list bool := word v xs.
Let s (v : valuation) : Z := amount ms v.

(** The number of pairs before the output [out]. *)
Definition pairs_before (nM out : nat) : nat := min out (min (min nI nM) (nI + nM - out)).

Lemma next_used_spec nM out b : nI < 2 ^ 16 → nM < 2 ^ 16 → 0 < nM → out + 2 ≤ nI + nM →
  next_used out (min (u16 nI) (u16 nM)) (max (u16 nI) (u16 nM)) (pairs_before nM out) b = Some (pairs_before nM (out + 1), b).
Proof using Hxs Hms.
  intros H1 H2 H3 Ho. rewrite !u16_small by done. unfold next_used, pairs_before. fold nI in Hxs.
  destruct (Nat.leb_spec (max nI nM) out).
  - unfold st_assert. unfold mbind, st_bind. rewrite (proj2 (Nat.ltb_lt _ _)) by lia. unfold mret, st_ret. do 2 f_equal. lia.
  - destruct (Nat.ltb_spec (min out (min (min nI nM) (nI + nM - out))) (min nI nM)); unfold mret, st_ret; do 2 f_equal; lia.
Qed.

(** The window before the output [out] of a left shift. *)
Definition left_window (nM out : nat) : Window := mkWindow (out - nM) (out - nI) (pairs_before nM out).

Definition left_bit (out : nat) (v : valuation) : bool := Z.testbit (Z.shiftl (Z_of_word se (x v)) (s v)) (Z.of_nat out).

Lemma sign_link b : srcs b xs → ∃ l, (back xs b = Some (l, b)) ∧ denotes b l (λ v, msb (x v)).
Proof using Hxs Hms.
  intros Hs. destruct (denotes_back b xs _ (denotes_all_word b xs Hs)) as (l & El & D); [lia|intros v; apply word_length|].
  exists l. split; [|exact D]. unfold back, st_read. by rewrite El.
Qed.

Lemma shiftl_bit_spec ds nM out b : wf b ins outs → srcs b xs → decodes ms b ds nM → 0 < nM < 2 ^ 15 →
  out + 2 ≤ nI + nM → out < 2 ^ 15 → (∀ v, (s v < Z.of_nat nM)%Z ∨ (Z.of_nat out < s v)%Z) →
  adds ins outs b (shiftl_bit xs ds se out (left_window nM out)) (λ b' r,
    denotes b' r.1 (left_bit out) ∧ r.2 = left_window nM (S out)).
Proof using Hxs Hms.
  intros Hw Hs Hd Hn Ho Ho' Hc. destruct Hd as [Ld Hd]. unfold shiftl_bit. cbn [iterInput iterAnd used left_window].
  rewrite Ld. fold nI. fold nI in Hxs. assert (2 ^ 15 = 2 * 2 ^ 14 ∧ 2 ^ 16 = 4 * 2 ^ 14) as [H15 H16] by done.
  rewrite !i16_small by lia.
  assert (∀ n, (if (Z.of_nat n <=? Z.of_nat out)%Z then out - n + 1 else out - n) = out + 1 - n) as Hpos.
  { intros n. destruct (Z.leb_spec (Z.of_nat n) (Z.of_nat out)); lia. }
  rewrite !Hpos. set (u := pairs_before nM (out + 1)). set (iI := out + 1 - nM). set (iA := out + 1 - nI).
  apply wp_bind. exists u, b. split; [apply next_used_spec; lia|]. assert (0 < u) as Hu by (unfold u, pairs_before; lia).
  eapply adds_bind.
  { apply (pairs_spec ins outs u _ (λ v j, bit (x v) (iI + j) && (s v =? Z.of_nat (iA + (u - 1 - j)))%Z)); [done|].
    intros j b' Hj Hw' He. destruct (lookup_lt_is_Some_2 xs (iI + j)) as [a Ea]; [fold nI; unfold u, pairs_before in Hj; lia|].
    destruct (lookup_lt_is_Some_2 ds (iA + (u - 1 - j))) as [d Ed]; [unfold u, pairs_before in *; lia|].
    eapply adds_read_bind; [exact Ea|]. eapply adds_read_bind; [exact Ed|].
    apply add_and; [done|exact (denotes_at b' xs a _ (srcs_ext _ _ _ He Hs) Ea)|].
    eapply denotes_ext; [exact He|exact (Hd _ _ Ed)]. }
  intros ors b1 Hw1 E1 [Lo Do].
  set (c := se && (nI <=? out)).
  assert (se && (Z.of_nat nI <=? Z.of_nat out)%Z = c) as ->.
  { unfold c. f_equal. destruct (Nat.leb_spec nI out); [apply Z.leb_le|apply Z.leb_gt]; lia. }
  eapply adds_bind with (P := λ b' r, 0 < length r ∧ denotes_all b' r (λ v,
    ((λ j, bit (x v) (iI + j) && (s v =? Z.of_nat (iA + (u - 1 - j)))%Z) <$> seq 0 u) ++
    (if c then [(s v <? Z.of_nat iA)%Z && msb (x v)] else []))).
  { destruct c eqn:Ec.
    - apply andb_true_iff in Ec as [_ Hge%Nat.leb_le].
      destruct (sign_link b1 (srcs_ext _ _ _ E1 Hs)) as (l & El & Dl).
      apply wp_bind. exists l, b1. split; [exact El|]. eapply adds_assert_bind; [apply Nat.leb_le; lia|].
      eapply adds_mono.
      { eapply (addInvertedMux_spec ins outs ors _ l (λ v, msb (x v)) (take iA ds)
          (λ v, (λ k, s v =? Z.of_nat k)%Z <$> seq 0 iA)); [done|exact Do|exact Dl| | |].
        - apply (denotes_pointwise b1 (take iA ds) iA (λ v k, s v =? Z.of_nat k)%Z); [rewrite length_take; lia|].
          intros k d Hk. apply lookup_take_Some in Hk as [Hk _]. eapply denotes_ext; [exact E1|]. by apply Hd.
        - intros E. apply (f_equal length) in E. rewrite length_take in E. cbn in E. lia.
        - intros v E. apply (f_equal length) in E. rewrite length_fmap, length_seq in E. cbn in E. lia. }
      intros r b2 _ [Lr Dr]. split; [lia|]. eapply denotes_all_eq; [|exact Dr]. intros v. cbv beta.
      rewrite existsb_fmap, existsb_below by (apply amount_bound). by rewrite xorb_false_l.
    - apply adds_ret; [done|]. split; [lia|]. eapply denotes_all_eq; [|exact Do]. intros v. by rewrite app_nil_r. }
  intros r b2 Hw2 E2 [Lr Dr]. eapply adds_bind.
  { eapply (or_or_single_spec ins outs); [done|exact Dr|intros ->; cbn in Lr; lia|].
    intros v E. apply app_eq_nil in E as [E _]. apply (f_equal length) in E. rewrite length_fmap, length_seq in E. cbn in E. lia. }
  intros l b3 Hw3 E3 Dl. apply adds_ret; [done|]. cbn [fst snd]. split; [|unfold left_window; by rewrite <- Nat.add_1_r].
  eapply denotes_eq; [|exact Dl]. intros v. cbv beta. rewrite existsb_app, existsb_fmap. unfold left_bit.
  pose proof (amount_bound ms v) as [Hs0 _].
  rewrite <- (shiftl_testbit se (x v) (s v) nM out); [|unfold x; rewrite word_length; lia|done|unfold x; rewrite word_length; fold nI; lia|by apply Hc].
  unfold x. rewrite word_length. fold nI iI iA (x v). fold (pairs_before nM (out + 1)) u. fold c.
  f_equal. destruct c; cbn [existsb]; [|done]. unfold id. by rewrite orb_false_r.
Qed.

(** The window before step [count] of a right shift. *)
Definition right_window (nM count : nat) : Window := mkWindow (nI - (count - nM)) 0 (min nM count).

Definition right_bit (out : nat) (v : valuation) : bool := Z.testbit (Z.shiftr (Z_of_word se (x v)) (s v)) (Z.of_nat out).

Lemma shiftr_bit_spec ds nM count b : wf b ins outs → srcs b xs → decodes ms b ds nM → 0 < nM ≤ nI → count < nI →
  (∀ v, (s v < Z.of_nat nM)%Z ∨ nM = nI) →
  adds ins outs b (shiftr_bit xs ds se count (right_window nM count)) (λ b' r,
    denotes b' r.1 (right_bit (nI - 1 - count)) ∧ r.2 = right_window nM (S count)).
Proof using Hxs Hms.
  intros Hw Hs Hd Hn Ho Hc. destruct Hd as [Ld Hd]. unfold shiftr_bit. cbn [iterInput iterAnd used right_window].
  rewrite Ld. fold nI. fold nI in Hxs. assert (nI < 2 ^ 15 ∧ nI < 2 ^ 16) as [H15 H16].
  { change (2 ^ 15) with (2 * 2 ^ 14). change (2 ^ 16) with (4 * 2 ^ 14). lia. }
  rewrite i16_small, !u16_small by lia. set (u := min nM (count + 1)). set (out := nI - 1 - count).
  eapply adds_bind with (P := λ _ i, i = nI - (count + 1 - nM)).
  { destruct (Z.leb_spec (Z.of_nat nM) (Z.of_nat count)).
    - eapply adds_assert_bind; [apply Nat.ltb_lt; lia|]. apply adds_ret; [done|lia].
    - apply adds_ret; [done|lia]. }
  intros iI b0 Hw0 E0 ->. apply (srcs_ext _ _ _ E0) in Hs.
  assert (∀ k l, ds !! k = Some l → denotes b0 l (λ v, s v =? Z.of_nat k)%Z) as Hd0.
  { intros k l Hk. eapply denotes_ext; [exact E0|by apply Hd]. }
  apply wp_bind. exists u, b0. split.
  { unfold next_used. rewrite (proj2 (Nat.leb_gt _ _)) by lia. unfold u, mret, st_ret.
    destruct (Nat.ltb_spec (min nM count) (min nI nM)); do 2 f_equal; lia. }
  eapply adds_assert_bind; [apply Nat.leb_le; unfold u; lia|].
  replace (nI - (count + 1 - nM) - u) with out by (unfold out, u; lia).
  eapply adds_bind.
  { apply (pairs_spec ins outs u _ (λ v j, bit (x v) (out + j) && (s v =? Z.of_nat j)%Z)); [done|].
    intros j b' Hj Hw' He. destruct (lookup_lt_is_Some_2 xs (out + j)) as [a Ea]; [fold nI; unfold u, out in *; lia|].
    destruct (lookup_lt_is_Some_2 ds j) as [d Ed]; [unfold u in *; lia|].
    eapply adds_read_bind; [exact Ea|]. eapply adds_read_bind; [exact Ed|].
    apply add_and; [done|exact (denotes_at b' xs a _ (srcs_ext _ _ _ He Hs) Ea)|].
    eapply denotes_ext; [exact He|exact (Hd0 _ _ Ed)]. }
  intros ors b1 Hw1 E1 [Lo Do].
  eapply adds_bind with (P := λ b' r, 0 < length r ∧ denotes_all b' r (λ v,
    ((λ j, bit (x v) (out + j) && (s v =? Z.of_nat j)%Z) <$> seq 0 u) ++
    (if se then [negb (s v <? Z.of_nat u)%Z && msb (x v)] else []))).
  { destruct se.
    - destruct (sign_link b1 (srcs_ext _ _ _ E1 Hs)) as (l & El & Dl). apply wp_bind. exists l, b1. split; [exact El|].
      eapply adds_mono.
      { eapply (addInvertedMux_spec ins outs ors _ l (λ v, msb (x v)) (take u ds)
          (λ v, (λ k, s v =? Z.of_nat k)%Z <$> seq 0 u)); [done|exact Do|exact Dl| | |].
        - apply (denotes_pointwise b1 (take u ds) u (λ v k, s v =? Z.of_nat k)%Z); [rewrite length_take; unfold u; lia|].
          intros k d Hk. apply lookup_take_Some in Hk as [Hk _]. eapply denotes_ext; [exact E1|]. by apply Hd0.
        - intros E. apply (f_equal length) in E. rewrite length_take in E. unfold u in E. cbn in E. lia.
        - intros v E. apply (f_equal length) in E. rewrite length_fmap, length_seq in E. unfold u in E. cbn in E. lia. }
      intros r b2 _ [Lr Dr]. split; [lia|]. eapply denotes_all_eq; [|exact Dr]. intros v. cbv beta.
      rewrite existsb_fmap, existsb_below by (apply amount_bound). by rewrite xorb_true_l.
    - apply adds_ret; [done|]. split; [unfold u in *; lia|]. eapply denotes_all_eq; [|exact Do]. intros v. by rewrite app_nil_r. }
  intros r b2 Hw2 E2 [Lr Dr]. eapply adds_bind.
  { eapply (or_or_single_spec ins outs); [done|exact Dr|intros ->; cbn in Lr; lia|].
    intros v E. apply app_eq_nil in E as [E _]. apply (f_equal length) in E. rewrite length_fmap, length_seq in E. unfold u in E. cbn in E. lia. }
  intros l b3 Hw3 E3 Dl. apply adds_ret; [done|]. cbn [fst snd].
  split; [|unfold right_window, u; by rewrite (Nat.add_1_r count)].
  eapply denotes_eq; [|exact Dl]. intros v. cbv beta. rewrite existsb_app, existsb_fmap. unfold right_bit.
  pose proof (amount_bound ms v) as [Hs0 _]. assert (length (x v) = nI) as Lx by apply word_length.
  rewrite <- (shiftr_testbit se (x v) (s v) nM out); [|rewrite Lx; unfold out; lia|done|rewrite Lx; unfold out; lia|rewrite Lx; lia|rewrite Lx; apply Hc].
  rewrite Lx. replace (min nM (nI - out)) with u by (unfold u, out; lia).
  f_equal. destruct se; cbn [existsb]; [|done]. unfold id. by rewrite orb_false_r.
Qed.

(** The outputs above those made: the sign, or zero. *)
Lemma fill_outputs_spec n ls f b : wf b ins outs → srcs b xs →
  (∀ i l, ls !! i = Some l → denotes b l (λ v, f v i)) → length ls ≤ n →
  (∀ i v, length ls ≤ i < n → f v i = se && msb (x v)) →
  adds ins outs b (fill_outputs xs n se ls) (λ b' r, length r = n ∧ denotes_all b' r (λ v, f v <$> seq 0 n)).
Proof using Hxs Hms.
  intros Hw Hs Hd Hn Hf. unfold fill_outputs.
  assert (∀ b' r, length r = n → (∀ i l, r !! i = Some l → denotes b' l (λ v, f v i)) → 
    length r = n ∧ denotes_all b' r (λ v, f v <$> seq 0 n)) as Hend.
  { intros b' r Lr Hr. split; [done|]. by apply denotes_pointwise. }
  destruct (Nat.ltb_spec (length ls) n) as [Hlt|Hge]; [|apply adds_ret; [done|]; apply Hend; [lia|done]].
  eapply adds_bind with (P := λ b' l, denotes b' l (λ v, se && msb (x v))).
  { destruct se; [|by apply add_zero]. destruct (sign_link b Hs) as (l & El & Dl). exists l, b. by split. }
  intros z b' Hw' He Dz. apply adds_ret; [done|]. apply Hend; [rewrite length_app, length_replicate; lia|].
  intros i l Hi. apply lookup_app_Some in Hi as [Hi|[Hi1 Hi2]].
  - eapply denotes_ext; [exact He|by apply Hd].
  - apply lookup_replicate in Hi2 as [-> Hi2]. eapply denotes_eq; [|exact Dz]. intros v. symmetry. apply Hf. lia.
Qed.

Lemma mux_size_bound m n : m ≤ InPlaceLinks → mux_size m n = min (2 ^ m) n.
Proof. intros Hm. unfold mux_size. unfold InPlaceLinks in Hm. by rewrite (proj2 (Nat.ltb_ge 63 m)) by lia. Qed.

Lemma pow_small m : m ≤ InPlaceLinks → 0 < 2 ^ m ≤ 8.
Proof. unfold InPlaceLinks. intros Hm. destruct m as [|[|[|[|m]]]]; cbn; lia. Qed.

Lemma shift_sign i v : nI ≤ i → Z.testbit (Z_of_word se (x v)) (Z.of_nat i) = se && msb (x v).
Proof using Hxs Hms.
  intros Hi. assert (length (x v) = nI) as Lx by apply word_length. rewrite testbit_word by (rewrite Lx; unfold nI; lia).
  rewrite Lx. by rewrite (proj2 (Nat.ltb_ge _ _)).
Qed.

(** The left shift ends and returns links that denote the shifted number. *)
Lemma synthDefaultShiftL_spec n b : wf b ins outs → srcs b xs → srcs b ms → 0 < n < 2 ^ 14 →
  adds ins outs b (synthDefaultShiftL xs ms n se) (λ b' r, length r = n ∧
    denotes_all b' r (λ v, bits_of n (Z.shiftl (Z_of_word se (word v xs)) (Z_of_bits (word v ms))))).
Proof using Hxs Hms.
  intros Hw Hs Hm Hn. unfold synthDefaultShiftL. rewrite mux_size_bound by lia.
  pose proof (pow_small (length ms) ltac:(lia)) as Hp. set (nM := min (2 ^ length ms) n). fold nI. fold nI in Hxs.
  assert (nM + nI - 1 < 2 ^ 16 ∧ n < 2 ^ 16 ∧ nM < 2 ^ 15) as (H1 & H2 & H3).
  { change (2 ^ 15) with (2 * 2 ^ 14). change (2 ^ 16) with (4 * 2 ^ 14). unfold nM. lia. }
  rewrite !u16_small by done. set (k := min (nM + nI - 1) n).
  assert (∀ o, o < k → o < 2 ^ 15) as Hk by (intros o Ho; change (2 ^ 15) with (2 * 2 ^ 14); unfold k in Ho; lia).
  assert (∀ v, (s v < Z.of_nat nM)%Z ∨ nM = n ∧ (Z.of_nat n ≤ s v)%Z) as Hsv.
  { intros v. pose proof (amount_bound ms v) as [_ Hb]. fold (s v) in Hb. unfold nM. lia. }
  eapply adds_bind; [apply synthMuxForShift_spec; [done|done|done|unfold nM; lia]|]. intros ds b1 Hw1 E1 Hd.
  eapply adds_bind.
  { apply (window_loop_spec ins outs _ (left_window nM) left_bit b1 k 0); [done|done|].
    intros o b2 Ho Hw2 E2. apply shiftl_bit_spec; [done|apply (srcs_ext _ _ _ E2), (srcs_ext _ _ _ E1), Hs| | | | |].
    - eapply decodes_ext; [exact E2|exact Hd].
    - unfold nM. lia.
    - unfold k in Ho. lia.
    - apply Hk. lia.
    - intros v. destruct (Hsv v) as [?|[? ?]]; [by left|right]. unfold k in Ho. lia. }
  intros ls b2 Hw2 E2 [Ll Dl].
  apply (fill_outputs_spec n ls (λ v i, left_bit i v)); [done|apply (srcs_ext _ _ _ E2), (srcs_ext _ _ _ E1), Hs|exact Dl|unfold k in Ll; lia|].
  intros i v Hi. unfold left_bit. destruct (Hsv v) as [Hlt|[? ?]]; [|unfold k in Ll; lia].
  pose proof (amount_bound ms v) as [H0 _]. fold (s v) in H0. rewrite Z.shiftl_spec by lia.
  replace (Z.of_nat i - s v)%Z with (Z.of_nat (i - Z.to_nat (s v))) by (unfold k in Ll; lia). apply shift_sign. unfold k in Ll. lia.
Qed.

(** The right shift ends and returns links that denote the shifted number. *)
Lemma synthDefaultShiftR_spec n b : wf b ins outs → srcs b xs → srcs b ms → 0 < n < 2 ^ 14 →
  adds ins outs b (synthDefaultShiftR xs ms n se) (λ b' r, length r = n ∧
    denotes_all b' r (λ v, bits_of n (Z.shiftr (Z_of_word se (word v xs)) (Z_of_bits (word v ms))))).
Proof using Hxs Hms.
  intros Hw Hs Hm Hn. unfold synthDefaultShiftR. fold nI. fold nI in Hxs. rewrite mux_size_bound by lia.
  pose proof (pow_small (length ms) ltac:(lia)) as Hp. set (nM := min (2 ^ length ms) nI).
  assert (nI < 2 ^ 16 ∧ n < 2 ^ 16 ∧ nI + n ≤ 2 ^ 15) as (H1 & H2 & H3).
  { change (2 ^ 15) with (2 * 2 ^ 14). change (2 ^ 16) with (4 * 2 ^ 14). lia. }
  assert (Z.of_nat (2 ^ 14) = 2 ^ 14)%Z as H14 by (rewrite Nat2Z.inj_pow; done).
  eapply adds_bind; [apply synthMuxForShift_spec; [done|done|done|unfold nM; lia]|]. intros ds b1 Hw1 E1 Hd.
  rewrite (proj1 Hd). rewrite (i16_small_Z (Z.of_nat nI - Z.of_nat n)) by lia.
  replace (Z.to_nat (Z.max 0 (Z.of_nat nI - Z.of_nat n))) with (nI - n) by lia.
  assert (nM ≤ nI) as HnM by (unfold nM; lia).
  rewrite (i16_small_Z (Z.of_nat (nI - n) - Z.of_nat nM)) by lia. rewrite !u16_small by lia.
  set (k := min nI n). eapply adds_assert_bind; [apply Nat.leb_le; unfold k; lia|].
  replace (mkWindow _ _ _) with (right_window nM (nI - n)) by (unfold right_window; f_equal; lia).
  eapply adds_bind.
  { apply (window_loop_spec ins outs _ (right_window nM) (λ c, right_bit (nI - 1 - c)) b1 k (nI - n)); [done|done|].
    intros o b2 Ho Hw2 E2. apply shiftr_bit_spec; [done|apply (srcs_ext _ _ _ E2), (srcs_ext _ _ _ E1), Hs| | | |].
    - eapply decodes_ext; [exact E2|exact Hd].
    - unfold nM. lia.
    - unfold k in Ho. lia.
    - intros v. pose proof (amount_bound ms v) as [_ Hb]. fold (s v) in Hb. unfold nM. lia. }
  intros ls b2 Hw2 E2 [Ll Dl].
  apply (fill_outputs_spec n (rev ls) (λ v i, right_bit i v)); [done|apply (srcs_ext _ _ _ E2), (srcs_ext _ _ _ E1), Hs| |rewrite length_rev; unfold k in Ll; lia|].
  - intros i l Hi. apply rev_lookup_Some in Hi as [Hi1 Hi2]. specialize (Dl _ _ Hi2). unfold k in Ll.
    by replace (nI - 1 - (nI - n + (length ls - 1 - i))) with i in Dl by lia.
  - intros i v Hi. rewrite length_rev in Hi. unfold right_bit. pose proof (amount_bound ms v) as [H0 _]. fold (s v) in H0.
    rewrite Z.shiftr_spec by lia. replace (Z.of_nat i + s v)%Z with (Z.of_nat (i + Z.to_nat (s v))) by lia. apply shift_sign. unfold k in Ll. lia.
Qed.
End Shifts.

(** ** The subnets *)

Section Subnets.
Context `{TypeStore}.
Context (attr : CellTypeAttr) (wA wB wO : N) (se : bool).
Context (HA : getInWidth attr 0 = Some wA) (HB : getInWidth attr 1 = Some wB) (HO : getOutWidth attr 0 = Some wO).
Context (RA : 0 < N.to_nat wA < 2 ^ 14) (RB : 0 < N.to_nat wB ≤ InPlaceLinks) (RO : 0 < N.to_nat wO < 2 ^ 14).

Let nA := N.to_nat wA.
Let nB := N.to_nat wB.
Let nO := N.to_nat wO.

Lemma synthShl_spec : ∃ s, synthShl attr se = Some s ∧ implements s (nA + nB) (λ xs,
  bits_of nO (Z.shiftl (Z_of_word se (take nA xs)) (Z_of_bits (drop nA xs)))).
Proof.
  apply run_implements. apply (wp_operands attr wA wB HA HB). intros x y b ins Hw He Hn Hx Hy Lx Ly Vx Vy.
  eapply wp_out_width; [exact HO|]. fold nA in RA. fold nB in RB.
  eapply wp_adds; [done|apply (synthDefaultShiftL_spec x y se); [lia|lia|done|done|done|done]|].
  intros r b1 Hw1 E1 _ [Lr D]. eapply (wp_finish b1 ins r _ nO); [done|done|done|exact D|lia| |].
  - intros v. apply bits_of_length.
  - intros v. cbv beta. by rewrite <- Vx, <- Vy.
Qed.

Lemma synthShr_spec : ∃ s, synthShr attr se = Some s ∧ implements s (nA + nB) (λ xs,
  bits_of nO (Z.shiftr (Z_of_word se (take nA xs)) (Z_of_bits (drop nA xs)))).
Proof.
  apply run_implements. apply (wp_operands attr wA wB HA HB). intros x y b ins Hw He Hn Hx Hy Lx Ly Vx Vy.
  eapply wp_out_width; [exact HO|]. fold nA in RA. fold nB in RB.
  eapply wp_adds; [done|apply (synthDefaultShiftR_spec x y se); [lia|lia|done|done|done|done]|].
  intros r b1 Hw1 E1 _ [Lr D]. eapply (wp_finish b1 ins r _ nO); [done|done|done|exact D|lia| |].
  - intros v. apply bits_of_length.
  - intros v. cbv beta. by rewrite <- Vx, <- Vy.
Qed.

Lemma abs_bits (l : list bool) : 0 < length l → Z_of_bits (bits_of (length l) (Z.abs (Z_of_sbits l))) = Z.abs (Z_of_sbits l).
Proof.
  intros Hl. rewrite Z_of_bits_of. pose proof (Z_of_sbits_bound l Hl) as Hb. apply Z.mod_small.
  assert (2 ^ Z.of_nat (length l) = 2 * 2 ^ (Z.of_nat (length l) - 1))%Z as E.
  { rewrite <- Z.pow_succ_r by lia. f_equal. lia. }
  lia.
Qed.

(** The sign of the amount chooses the direction. *)
Lemma shift_direction z l : 0 < length l →
  (if msb l then Z.shiftl z (Z.abs (Z_of_sbits l)) else Z.shiftr z (Z.abs (Z_of_sbits l))) = Z.shiftr z (Z_of_sbits l).
Proof.
  intros Hl. unfold Z_of_sbits. pose proof (Z_of_bits_bound l) as Hb. destruct (msb l); cbn [Z.b2z].
  - rewrite Z.abs_neq by lia. by rewrite Z.shiftl_opp_r.
  - by rewrite Z.abs_eq by lia.
Qed.

(** The shift by a number with sign: to the right by a positive amount and to the
    left by a negative one. *)
Lemma synthShift_spec : ∃ s, synthShift attr se = Some s ∧ implements s (nA + nB) (λ xs,
  bits_of nO (Z.shiftr (Z_of_word se (take nA xs)) (Z_of_sbits (drop nA xs)))).
Proof.
  apply run_implements. apply (wp_operands attr wA wB HA HB). intros x y b ins Hw He Hn Hx Hy Lx Ly Vx Vy.
  eapply wp_out_width; [exact HO|]. fold nA in RA. fold nB in RB.
  eapply wp_adds; [done|apply absoluteValue_spec; [done|done|]|].
  { unfold InPlaceLinks in RB. pose proof (Nat.pow_gt_lin_r 2 15). lia. }
  intros sh b1 Hw1 E1 E1' Dsh.
  assert (length sh = length y) as Lsh by (eapply (denotes_all_length b1 ins []); [done|exact Dsh|intros v; apply bits_of_length]).
  destruct (denotes_back b y _ (denotes_all_word b y Hy)) as (sg & Esg & Dsg); [lia|intros v; apply word_length|].
  eapply wp_read; [exact Esg|].
  eapply wp_adds; [done|apply (synthDefaultShiftR_spec x sh se); [lia|lia|done|by eapply srcs_ext|apply Dsh|done]|].
  intros r b2 Hw2 E2 E2' [Lr Dr]. pose proof (srcs_ext _ _ _ E2' (proj1 Dsh)) as Hsh.
  assert (ext b b2) as E12 by by etransitivity.
  eapply wp_adds; [done|apply (synthDefaultShiftL_spec x sh se); [lia|lia|done|by eapply srcs_ext|done|done]|].
  intros l b3 Hw3 E3 E3' [Ll Dl]. apply (denotes_all_ext _ _ _ _ E3') in Dr.
  eapply wp_adds; [done|apply (addMux2_words_spec sg (λ v, msb (word v y))); [done| |apply Dr|apply Dl|lia]|].
  { eapply denotes_ext; [|exact Dsg]. by etransitivity. }
  intros o b4 Hw4 E4 E4' [Lo D].
  assert (denotes_all b4 o (λ v, bits_of nO (Z.shiftr (Z_of_word se (word v x)) (Z_of_sbits (word v y))))) as D'.
  { destruct D as [Ho D]. split; [done|]. intros v Hv. rewrite D by done.
    pose proof (consistent_ext _ _ _ E4' Hv) as Hv3. pose proof (consistent_ext _ _ _ E3' Hv3) as Hv2.
    rewrite (proj2 Dr v Hv3 : word v r = _), (proj2 Dl v Hv3 : word v l = _).
    rewrite (proj2 Dsh v (consistent_ext _ _ _ E2' Hv2) : word v sh = _).
    assert (length y = length (word v y)) as -> by (symmetry; apply word_length). rewrite abs_bits by (rewrite word_length; lia).
    rewrite <- shift_direction by (rewrite word_length; lia). by destruct (msb (word v y)). }
  eapply (wp_finish b4 ins o _ nO); [done|done|done|exact D'|lia| |].
  - intros v. apply bits_of_length.
  - intros v. cbv beta. by rewrite <- Vx, <- Vy.
Qed.
End Subnets.
