(* ===== verification/Multiplier.v ===== *)
(** * Multiplication ([gate/synthesizer/operation/multiplication.cpp])

    The matrix multiplier for short operands and Karatsuba's recursion over it. *)

From S2P Require Import Prelude CellType SubnetBase Builder BuilderInv BuilderSpec BuilderEval MakeSpec.
From S2P Require Import CellAttr Adder AdderSum AdderArith Synth SynthArith SynthBits.
From stdpp Require Import gmap strings.

(** ** Definitions *)

(** The conversion of the difference of two sizes to [uint16_t]. *)
Definition sub16 (m n : nat) : nat := Z.to_nat ((Z.of_nat m - Z.of_nat n) mod 2 ^ 16).

Section Routines.
Context `{TypeStore}.

(** The three AND cells are the arguments of one call: C++ does not fix their
    order, here they are added from left to right. *)
(* gate/synthesizer/operation/multiplication.cpp:59-74 [synthFullAdder] *)
Definition synthFullAdder (varA varB carryIn : Link) (noCarry : bool) : st SubnetBuilder (Link * Link) :=
  sum ← addGate XOR [varA; varB; carryIn];
  carryOut ← (if noCarry then mret (LinkTo 0)
    else
      ab ← addGate AND [varA; varB]; ac ← addGate AND [varA; carryIn]; cb ← addGate AND [carryIn; varB];
      addGate OR [ab; ac; cb]);
  mret (sum, carryOut).

(** The adders of a row from position [i] on; [n] are left.  Every step reads
    [andOperations] at [i] and writes it at [i - 1], so that the written links can
    be collected. *)
(* gate/synthesizer/operation/multiplication.cpp:122-138 [synthSimpleMultipyer] *)
Fixpoint row_adders (outIter factSize bitsToOutput : nat) (andOperations localAndOperations : LinkList)
    (n i : nat) (carry : Link) : st SubnetBuilder (LinkList * Link) :=
  match n with
  | 0 => mret ([], carry)
  | S n =>
    let nonCarrySum := (bitsToOutput <? factSize) && (i + 1 =? bitsToOutput) in
    b ← link_at localAndOperations i;
    if (outIter =? 1) && (i =? factSize - 1) then
      x ← addGate XOR [carry; b];
      c ← (if nonCarrySum then mret carry else addGate AND [carry; b]);
      mret ([x], c)
    else
      a ← link_at andOperations i;
      '(x, c) ← synthFullAdder a b carry nonCarrySum;
      '(xs, c) ← row_adders outIter factSize bitsToOutput andOperations localAndOperations n (i + 1) c;
      mret (x :: xs, c)
  end.

(** The outputs so far, the sums that are left and the numbers of bits. *)
Record Rows := mkRows {
  outputs : LinkList;
  andOperations : LinkList;
  bitsToOutput : nat;
  generatedSize : nat;
}.

(* gate/synthesizer/operation/multiplication.cpp:103-142 [synthSimpleMultipyer] *)
Definition add_row (inputsForA : LinkList) (factSize targetSize : nat) (b : Link) (s : Rows) : st SubnetBuilder Rows :=
  bits ← (if targetSize <? generatedSize s then st_assert (0 <? bitsToOutput s) ;; mret (bitsToOutput s - 1)
          else mret (bitsToOutput s));
  local ← st_map (λ i, a ← link_at inputsForA i; addGate AND [a; b]) (seq 0 bits);
  a0 ← link_at (andOperations s) 0;
  l0 ← link_at local 0;
  carry ← addGate AND [a0; l0];
  x0 ← addGate XOR [a0; l0];
  '(sums, carry) ← row_adders (length (outputs s)) factSize bits (andOperations s) local (bits - 1) 1 carry;
  mret (mkRows (outputs s ++ [x0]) (sums ++ [carry] ++ drop bits (andOperations s)) bits (generatedSize s + 1)).

(** The loop over the other links of the second operand. *)
(* gate/synthesizer/operation/multiplication.cpp:103-142 [synthSimpleMultipyer] *)
Fixpoint rows_loop (inputsForA : LinkList) (factSize targetSize : nat) (bs : LinkList) (s : Rows) : st SubnetBuilder Rows :=
  match bs with
  | [] => mret s
  | b :: bs =>
    if length (outputs s) <? factSize then
      s ← add_row inputsForA factSize targetSize b s; rows_loop inputsForA factSize targetSize bs s
    else mret s
  end.

(** The last entry of [andOperations] keeps the default link in the first row. *)
(* gate/synthesizer/operation/multiplication.cpp:76-165 [synthSimpleMultipyer] *)
Definition synthSimpleMultipyer (inputsForA inputsForB : LinkList) (outSize : nat) (useSign : bool) : st SubnetBuilder LinkList :=
  let factSize := min (u16 outSize) (u16 (length inputsForA)) in
  let targetSize := if useSign then u16 (length inputsForA) else outSize in
  st_assert (0 <? outSize) ;;
  b0 ← link_at inputsForB 0;
  a0 ← link_at inputsForA 0;
  o0 ← addGate AND [a0; b0];
  ands ← st_map (λ i, a ← link_at inputsForA i; addGate AND [a; b0]) (seq 1 (factSize - 1));
  s ← rows_loop inputsForA factSize targetSize (drop 1 inputsForB)
        (mkRows [o0] (ands ++ [LinkTo 0]) factSize (factSize + 1));
  let bits := if length (outputs s) =? 1 then bitsToOutput s - 1 else bitsToOutput s in
  let rest := take (targetSize - length (outputs s)) (take bits (andOperations s)) in
  let out := outputs s ++ rest in
  st_assert (length out <=? outSize) ;;
  if length out <? outSize then
    zeroCell ← (if useSign then back out else addGate ZERO []);
    mret (out ++ replicate (outSize - length out) zeroCell)
  else mret out.

(** The recursion; [fuel] bounds the size of the first operand. *)
(* gate/synthesizer/operation/multiplication.cpp:167-265 [synthKaratsubaMultiplyer] *)
Fixpoint synthKaratsubaMultiplyer_fuel (fuel : nat) (inputsForA inputsForB : LinkList) (outSize : nat) (useSign : bool)
    : st SubnetBuilder LinkList :=
  if outSize =? 1 then
    a ← back inputsForA; b ← back inputsForB; x ← addGate AND [a; b]; mret [x]
  else if length inputsForA <=? 4 then synthSimpleMultipyer inputsForA inputsForB outSize useSign
  else
    match fuel with
    | 0 => st_fail
    | S fuel =>
      let karatsuba a b n := synthKaratsubaMultiplyer_fuel fuel a b n false in
      let k := u16 (length inputsForA / 2 + length inputsForA mod 2) in
      let inputsLeftA := take k inputsForA in
      let inputsRightA := drop k inputsForA in
      let inputsLeftB := take (min k (u16 (length inputsForB))) inputsForB in
      let inputsRightB := drop k inputsForB in
      mulLeft ← karatsuba inputsLeftA inputsLeftB (min (u16 (length inputsLeftA + length inputsLeftB)) outSize);
      sumA ← synthLadnerFisherAdd inputsLeftA inputsRightA (min (u16 (k + 1)) (sub16 outSize k)) false false;
      '(sumB, mulRight) ←
        (if k <? length inputsForB then
           sumB ← synthLadnerFisherAdd inputsLeftB inputsRightB (min (u16 (k + 1)) (sub16 outSize k)) false false;
           mulRight ← karatsuba inputsRightA inputsRightB
             (min (u16 (length inputsRightA + length inputsRightB)) (sub16 outSize k));
           mret (sumB, mulRight)
         else mret (inputsLeftB, []));
      mulSum ← karatsuba sumA sumB (min (u16 (length sumA + length sumB)) (sub16 outSize k));
      negMul ← twosComplement mulLeft (length mulSum) false;
      mulSum ← synthLadnerFisherAdd mulSum negMul (length mulSum) true true;
      mulSum ← (if negb (length inputsRightB =? 0) then
                  negMul ← twosComplement mulRight (length mulSum) false;
                  synthLadnerFisherAdd mulSum negMul (length mulSum) true true
                else mret mulSum);
      zero ← addGate ZERO [];
      let zeroesK := replicate k zero in
      let mulSum := zeroesK ++ mulSum in
      let realInputSize := if useSign then u16 (length inputsForA) else u16 (2 * length inputsForA) in
      mulLeft ← (if negb (length mulRight =? 0) && (2 * k <? outSize) then
                   synthLadnerFisherAdd mulLeft (take realInputSize (zeroesK ++ zeroesK ++ mulRight))
                     (min realInputSize outSize) false false
                 else mret mulLeft);
      outputs ← synthLadnerFisherAdd mulLeft mulSum (min realInputSize outSize) false false;
      if length outputs <? outSize then
        x ← (if useSign then back outputs else mret zero);
        mret (outputs ++ replicate (outSize - length outputs) x)
      else mret outputs
    end.

(* gate/synthesizer/operation/multiplication.cpp:167-265 [synthKaratsubaMultiplyer] *)
Definition synthKaratsubaMultiplyer (inputsForA inputsForB : LinkList) (outSize : nat) (useSign : bool) : st SubnetBuilder LinkList :=
  synthKaratsubaMultiplyer_fuel (length inputsForA) inputsForA inputsForB outSize useSign.

(* gate/synthesizer/operation/multiplication.cpp:17-40 [synthMulS] *)
Definition synthMulS (attr : CellTypeAttr) : option Subnet := run_make (
  sizeA ← in_width attr 0; sizeB ← in_width attr 1; outSize ← out_width attr 0;
  inputsForA ← addInputs sizeA;
  inputsForB ← addInputs sizeB;
  let '(inputsForA, inputsForB) := if sizeA <? sizeB then (inputsForB, inputsForA) else (inputsForA, inputsForB) in
  let '(sizeA, sizeB) := if sizeA <? sizeB then (sizeB, sizeA) else (sizeA, sizeB) in
  inputsForA ← (if sizeA <? outSize then
                  s ← back inputsForA; mret (resize_links (min (u16 outSize) (u16 (2 * sizeA))) s inputsForA)
                else mret inputsForA);
  inputsForB ← (if negb (length inputsForA =? sizeB) then
                  s ← back inputsForB; mret (resize_links (length inputsForA) s inputsForB)
                else mret inputsForB);
  r ← synthKaratsubaMultiplyer inputsForA inputsForB outSize true;
  addOutputs r).

(* gate/synthesizer/operation/multiplication.cpp:42-57 [synthMulU] *)
Definition synthMulU (attr : CellTypeAttr) : option Subnet := run_make (
  sizeA ← in_width attr 0; sizeB ← in_width attr 1; outSize ← out_width attr 0;
  inputsForA ← addInputs sizeA;
  inputsForB ← addInputs sizeB;
  let '(inputsForA, inputsForB) := if sizeA <? sizeB then (inputsForB, inputsForA) else (inputsForA, inputsForB) in
  r ← synthKaratsubaMultiplyer inputsForA inputsForB outSize false;
  addOutputs r).
End Routines.
