(* ===== verification/MultiplierSpec.v ===== *)
(** * The matrix multiplier

    Row by row the outputs and the sums that are left are the bits of the product
    with the bits of the second operand so far. *)

From S2P Require Import Prelude CellAttr CellType SubnetBase Builder BuilderInv BuilderSpec BuilderEval MakeSpec Adder AdderSum AdderArith Synth SynthArith SynthBits ComparisonSpec ShiftSpec Multiplier.
From stdpp Require Import gmap strings.

(** ** Carries of a sum *)

(** The carry into bit [i] of the sum. *)
Definition carry_bit (p q : Z) (i : nat) : bool :=
  (2 ^ Z.of_nat i <=? p mod 2 ^ Z.of_nat i + q mod 2 ^ Z.of_nat i)%Z.

(** A word with its bits on both sides of bit [i]. *)
Lemma mod_pow2_S p (i : nat) : (p mod 2 ^ Z.of_nat (S i) = p mod 2 ^ Z.of_nat i + 2 ^ Z.of_nat i * Z.b2z (Z.testbit p (Z.of_nat i)))%Z.
Proof.
  rewrite Nat2Z.inj_succ, Z.pow_succ_r, (Z.mul_comm 2), Z.rem_mul_r by lia.
  by rewrite Z.testbit_spec' by lia.
Qed.

Lemma testbit_leb p (i : nat) : Z.testbit p (Z.of_nat i) = (2 ^ Z.of_nat i <=? p mod 2 ^ Z.of_nat (S i))%Z.
Proof.
  rewrite mod_pow2_S. assert (0 < 2 ^ Z.of_nat i)%Z by lia. pose proof (Z.mod_pos_bound p (2 ^ Z.of_nat i) ltac:(lia)).
  destruct (Z.testbit p (Z.of_nat i)); cbn [Z.b2z]; symmetry; [apply Z.leb_le|apply Z.leb_gt]; lia.
Qed.

Definition maj3 (x y z : bool) : bool := (x && y) || (x && z) || (z && y).

Lemma carry_bit_S p q i : carry_bit p q (S i) =
  maj3 (Z.testbit p (Z.of_nat i)) (Z.testbit q (Z.of_nat i)) (carry_bit p q i).
Proof.
  unfold carry_bit. rewrite !mod_pow2_S, Nat2Z.inj_succ, Z.pow_succ_r by lia.
  pose proof (Z.mod_pos_bound p (2 ^ Z.of_nat i) ltac:(lia)). pose proof (Z.mod_pos_bound q (2 ^ Z.of_nat i) ltac:(lia)).
  set (w := (2 ^ Z.of_nat i)%Z) in *. set (pm := (p mod w)%Z) in *. set (qm := (q mod w)%Z) in *.
  destruct (Z.testbit p _), (Z.testbit q _), (Z.leb_spec w (pm + qm)); cbn [Z.b2z]; unfold maj3; cbn [andb orb];
    (apply Z.leb_le || apply Z.leb_gt); lia.
Qed.

Lemma testbit_add p q i : Z.testbit (p + q) (Z.of_nat i) =
  xorb (xorb (Z.testbit p (Z.of_nat i)) (Z.testbit q (Z.of_nat i))) (carry_bit p q i).
Proof.
  rewrite (testbit_leb (p + q)). unfold carry_bit.
  rewrite Z.add_mod by lia. rewrite (mod_pow2_S p), (mod_pow2_S q), Nat2Z.inj_succ, Z.pow_succ_r by lia.
  pose proof (Z.mod_pos_bound p (2 ^ Z.of_nat i) ltac:(lia)). pose proof (Z.mod_pos_bound q (2 ^ Z.of_nat i) ltac:(lia)).
  set (w := (2 ^ Z.of_nat i)%Z) in *. set (pm := (p mod w)%Z) in *. set (qm := (q mod w)%Z) in *.
  set (bp := Z.testbit p _). set (bq := Z.testbit q _).
  assert (∀ z k, (0 ≤ z - 2 * w * k < 2 * w)%Z → (z mod (2 * w) = z - 2 * w * k)%Z) as Hmod.
  { intros z k Hk. symmetry. apply (Z.mod_unique_pos _ _ k); lia. }
  destruct bp, bq, (Z.leb_spec w (pm + qm)); cbn [Z.b2z xorb];
    first [rewrite (Hmod _ 0%Z) by lia | rewrite (Hmod _ 1%Z) by lia]; (apply Z.leb_le || apply Z.leb_gt); lia.
Qed.

(** The highest carry of two numbers of [n] bits. *)
Lemma carry_bit_top p q n : (0 ≤ p < 2 ^ Z.of_nat n)%Z → (0 ≤ q < 2 ^ Z.of_nat n)%Z →
  carry_bit p q n = Z.testbit (p + q) (Z.of_nat n).
Proof.
  intros Hp Hq. unfold carry_bit. rewrite !Z.mod_small, testbit_leb by lia.
  rewrite Z.mod_small; [done|]. rewrite Nat2Z.inj_succ, Z.pow_succ_r by lia. lia.
Qed.

Lemma carry_bit_1 p q : carry_bit p q 1 = Z.testbit p 0 && Z.testbit q 0.
Proof.
  rewrite (carry_bit_S p q 0). unfold carry_bit. change (Z.of_nat 0) with 0%Z. rewrite !Z.mod_1_r. change (2 ^ 0 <=? 0 + 0)%Z with false.
  unfold maj3. by destruct (Z.testbit p 0), (Z.testbit q 0).
Qed.

Lemma testbit_add_0 p q : Z.testbit (p + q) 0 = xorb (Z.testbit p 0) (Z.testbit q 0).
Proof.
  pose proof (testbit_add p q 0) as E. unfold carry_bit in E. change (Z.of_nat 0) with 0%Z in E. rewrite !Z.mod_1_r in E.
  change (2 ^ 0 <=? 0 + 0)%Z with false in E. by rewrite xorb_false_r in E.
Qed.

Lemma testbit_small p n i : (0 ≤ p < 2 ^ Z.of_nat n)%Z → n ≤ i → Z.testbit p (Z.of_nat i) = false.
Proof.
  intros Hp Hi. rewrite testbit_leb. apply Z.leb_gt.
  assert (2 ^ Z.of_nat n ≤ 2 ^ Z.of_nat i)%Z by (apply Z.pow_le_mono_r; lia).
  assert (2 ^ Z.of_nat i ≤ 2 ^ Z.of_nat (S i))%Z by (apply Z.pow_le_mono_r; lia).
  rewrite Z.mod_small by lia. lia.
Qed.

Lemma testbit_of_bits l i : Z.testbit (Z_of_bits l) (Z.of_nat i) = bit l i.
Proof.
  revert i. induction l as [|x l IH]; intros i; cbn [Z_of_bits].
  - rewrite Z.testbit_0_l. by destruct i.
  - destruct i as [|i].
    + cbn [Z.of_nat]. rewrite Z.add_comm, Z.testbit_0_r. done.
    + rewrite Nat2Z.inj_succ, Z.add_comm, Z.testbit_succ_r by lia. apply IH.
Qed.

(** ** A row of adders *)

Section Rows.
Context `{TypeStore}.
Context (ins outs : list nat).

Lemma full_adder_spec x y c fx fy fc noCarry b : wf b ins outs → denotes b x fx → denotes b y fy → denotes b c fc →
  adds ins outs b (synthFullAdder x y c noCarry) (λ b' r,
    denotes b' r.1 (λ v, xorb (xorb (fx v) (fy v)) (fc v)) ∧
    (noCarry = false → denotes b' r.2 (λ v, maj3 (fx v) (fy v) (fc v)))).
Proof.
  intros Hw Dx Dy Dc. unfold synthFullAdder.
  eapply adds_bind.
  { apply (add_gate3 XOR (λ x y z, xorb (xorb x y) z)); [done|by intros [] [] []|exact Hw|exact Dx|exact Dy|exact Dc]. }
  intros s b1 Hw1 E1 Ds. apply (denotes_ext _ _ _ _ E1) in Dx, Dy, Dc.
  destruct noCarry; [by apply adds_ret|].
  eapply adds_bind with (P := λ b' r, denotes b' r (λ v, maj3 (fx v) (fy v) (fc v))).
  2:{ intros r b2 Hw2 E2 Dr. apply adds_ret; [done|]. split; [eapply denotes_ext; [exact E2|exact Ds]|done]. }
  eapply adds_bind; [exact (add_and _ _ _ _ _ _ _ Hw1 Dx Dy)|]. intros l1 b2 Hw2 E2 D1.
  apply (denotes_ext _ _ _ _ E2) in Dx, Dy, Dc.
  eapply adds_bind; [exact (add_and _ _ _ _ _ _ _ Hw2 Dx Dc)|]. intros l2 b3 Hw3 E3 D2.
  apply (denotes_ext _ _ _ _ E3) in Dx, Dy, Dc, D1.
  eapply adds_bind; [exact (add_and _ _ _ _ _ _ _ Hw3 Dc Dy)|]. intros l3 b4 Hw4 E4 D3.
  apply (denotes_ext _ _ _ _ E4) in D1, D2.
  eapply adds_mono; [eapply (add_gate3 OR (λ x y z, x || y || z)); [done|by intros [] [] []|exact Hw4|exact D1|exact D2|exact D3]|].
  done.
Qed.

Context (f : nat) (p q : valuation → Z).

(** The links of the two summands at the positions from [i] on. *)
Definition summands (outIter bits : nat) (acc local : LinkList) (i : nat) (b : SubnetBuilder) : Prop :=
  ∀ j, i ≤ j < bits → ∃ y, local !! j = Some y ∧ denotes b y (λ v, Z.testbit (q v) (Z.of_nat j)) ∧
    if (outIter =? 1) && (j =? f - 1) then ∀ v, Z.testbit (p v) (Z.of_nat j) = false
    else ∃ x, acc !! j = Some x ∧ denotes b x (λ v, Z.testbit (p v) (Z.of_nat j)).

Lemma summands_ext b b' oi bits acc local i i' : ext b b' → i ≤ i' → summands oi bits acc local i b → summands oi bits acc local i' b'.
Proof.
  intros He Hi Hs j Hj. destruct (Hs j) as (y & Ey & Dy & Hx); [lia|]. exists y. split; [done|].
  split; [eapply denotes_ext; [exact He|exact Dy]|]. destruct (_ && _); [done|]. destruct Hx as (x & Ex & Dx).
  exists x. split; [done|]. eapply denotes_ext; [exact He|exact Dx].
Qed.

Lemma row_adders_spec oi bits acc local n : ∀ i carry b, wf b ins outs → i + n = bits → bits ≤ f → 0 < f →
  summands oi bits acc local i b → (0 < n ∨ bits = f → denotes b carry (λ v, carry_bit (p v) (q v) i)) →
  adds ins outs b (row_adders oi f bits acc local n i carry) (λ b' r,
    length r.1 = n ∧ (∀ k l, r.1 !! k = Some l → denotes b' l (λ v, Z.testbit (p v + q v) (Z.of_nat (i + k)))) ∧
    (bits = f → denotes b' r.2 (λ v, carry_bit (p v) (q v) bits))).
Proof.
  induction n as [|n IH]; intros i carry b Hw Hin Hb Hf Hs Hc; cbn [row_adders].
  { apply adds_ret; [done|]. cbn. split_all; [done|done|]. intros E. rewrite <- Hin, Nat.add_0_r. apply Hc. by right. }
  destruct (Hs i) as (y & Ey & Dy & Hx); [lia|]. eapply adds_read_bind; [exact Ey|].
  specialize (Hc (or_introl (Nat.lt_0_succ n))).
  destruct ((oi =? 1) && (i =? f - 1)) eqn:Eb.
  - apply andb_true_iff in Eb as [_ Ei%Nat.eqb_eq]. assert (n = 0 ∧ bits = f) as [-> ->] by lia.
    rewrite Nat.ltb_irrefl. cbn [andb].
    eapply adds_bind; [exact (add_xor _ _ _ _ _ _ _ Hw Hc Dy)|]. intros x b1 Hw1 E1 Dx.
    eapply adds_bind; [apply (add_and b1 ins outs carry y); [exact Hw1|eapply denotes_ext; [exact E1|exact Hc]|eapply denotes_ext; [exact E1|exact Dy]]|].
    intros c b2 Hw2 E2 Dc. apply adds_ret; [done|]. cbn [fst snd]. split_all; [done| |].
    + intros [|k] l Hl; [|done]. injection Hl as <-. eapply denotes_ext; [exact E2|]. eapply denotes_eq; [|exact Dx].
      intros v. cbv beta. by rewrite Nat.add_0_r, testbit_add, Hx, xorb_false_l, xorb_comm.
    + intros _. eapply denotes_eq; [|exact Dc]. intros v. cbv beta. rewrite <- Hin, Nat.add_1_r, carry_bit_S, Hx.
      unfold maj3. by destruct (Z.testbit (q v) _), (carry_bit _ _ _).
  - destruct Hx as (x & Ex & Dx). eapply adds_read_bind; [exact Ex|].
    eapply adds_bind; [exact (full_adder_spec _ _ _ _ _ _ _ _ Hw Dx Dy Hc)|]. intros [s c] b1 Hw1 E1 [Ds Dc]. cbn [fst snd] in Ds, Dc.
    eapply adds_bind.
    { apply (IH (i + 1) c b1); [done|lia|done|done|by eapply summands_ext; [exact E1| |exact Hs]; lia|].
      intros Hor. eapply denotes_eq; [|apply Dc].
      - intros v. cbv beta. by rewrite Nat.add_1_r, carry_bit_S.
      - apply andb_false_iff. destruct Hor as [Hn| ->]; [right; apply Nat.eqb_neq; lia|left; apply Nat.ltb_irrefl]. }
    intros [ss c'] b2 Hw2 E2 (Ls & Hss & Hc'). cbn [fst snd] in Ls, Hss, Hc'.
    apply adds_ret; [done|]. cbn [fst snd]. split_all; [cbn; lia| |done]. intros [|k] l Hl.
    + injection Hl as <-. eapply denotes_ext; [exact E2|]. eapply denotes_eq; [|exact Ds]. intros v. cbv beta.
      by rewrite Nat.add_0_r, testbit_add.
    + replace (i + S k) with (i + 1 + k) by lia. by apply Hss.
Qed.
End Rows.

(** ** The rows *)

Section Matrix.
Context `{TypeStore}.
Context (As xs ys : LinkList) (Hpre : xs `prefix_of` As) (T : nat) (ins outs : list nat).

Let f := length xs.
Let A (v : valuation) : Z := Z_of_bits (word v xs).

(** The product with the first [r] bits of the second operand. *)
Definition part_product (r : nat) (v : valuation) : Z := (A v * Z_of_bits (take r (word v ys)))%Z.

Context (HT : f ≤ T).

Lemma part_product_S r v : r < length ys → part_product (r + 1) v =
  (part_product r v + 2 ^ Z.of_nat r * (A v * Z.b2z (bit (word v ys) r)))%Z.
Proof using.
  clear HT. intros Hr. unfold part_product. rewrite Nat.add_1_r. destruct (lookup_lt_is_Some_2 (word v ys) r) as [y Ey]; [by rewrite word_length|].
  rewrite (take_S_r _ _ y Ey), Z_of_bits_snoc, length_take, word_length. replace (min r (length ys)) with r by lia.
  unfold bit. rewrite Ey. cbn. ring.
Qed.

Lemma part_product_bound r v : (0 ≤ part_product r v < 2 ^ Z.of_nat (f + r))%Z.
Proof using.
  clear HT. unfold part_product. pose proof (Z_of_bits_bound (word v xs)) as Ha. rewrite word_length in Ha. fold f (A v) in Ha.
  pose proof (Z_of_bits_bound (take r (word v ys))) as Hb.
  assert (2 ^ Z.of_nat (length (take r (word v ys))) ≤ 2 ^ Z.of_nat r)%Z.
  { apply Z.pow_le_mono_r; [lia|]. rewrite length_take. lia. }
  rewrite Nat2Z.inj_add, Z.pow_add_r by lia. nia.
Qed.

Lemma A_bound v : (0 ≤ A v < 2 ^ Z.of_nat f)%Z.
Proof using. pose proof (Z_of_bits_bound (word v xs)) as Ha. by rewrite word_length in Ha. Qed.

Lemma part_product_first v : (0 ≤ part_product 1 v < 2 ^ Z.of_nat f)%Z.
Proof using.
  clear HT. unfold part_product. pose proof (A_bound v). pose proof (Z_of_bits_bound (take 1 (word v ys))) as Hb.
  assert (2 ^ Z.of_nat (length (take 1 (word v ys))) ≤ 2 ^ 1)%Z.
  { apply Z.pow_le_mono_r; [lia|]. rewrite length_take. lia. }
  nia.
Qed.

(** The bits below [r] stay, those above are the sum with the new row. *)
Lemma part_product_low r i v : r < length ys → i < r →
  Z.testbit (part_product (r + 1) v) (Z.of_nat i) = Z.testbit (part_product r v) (Z.of_nat i).
Proof using.
  clear HT. intros Hr Hi. rewrite part_product_S by done.
  rewrite <- (Z.mod_pow2_bits_low _ (Z.of_nat r)), Z.mul_comm, Z_mod_plus_full by lia. apply Z.mod_pow2_bits_low. lia.
Qed.

Lemma part_product_high r j v : r < length ys →
  Z.testbit (part_product (r + 1) v) (Z.of_nat (r + j)) =
  Z.testbit (part_product r v / 2 ^ Z.of_nat r + A v * Z.b2z (bit (word v ys) r)) (Z.of_nat j).
Proof using.
  clear HT. intros Hr. rewrite part_product_S by done. rewrite Nat.add_comm, Nat2Z.inj_add, <- Z.div_pow2_bits by lia.
  f_equal. rewrite (Z.mul_comm (2 ^ Z.of_nat r)), Z.div_add by lia. done.
Qed.

(** The number of sums that are right after [r] rows. *)
Definition sums_left (r : nat) : nat := if r =? 1 then f - 1 else if f <=? T + 1 - r then f else T - r.

Record rows_inv (r : nat) (b : SubnetBuilder) (s : Rows) : Prop := {
  ri_outputs : length (outputs s) = r;
  ri_sums : length (andOperations s) = f;
  ri_bits : bitsToOutput s = min f (T + 1 - r);
  ri_generated : generatedSize s = f + r;
  ri_low : ∀ i l, outputs s !! i = Some l → denotes b l (λ v, Z.testbit (part_product r v) (Z.of_nat i));
  ri_high : ∀ j, j < sums_left r → ∃ l, andOperations s !! j = Some l ∧
    denotes b l (λ v, Z.testbit (part_product r v) (Z.of_nat (r + j)));
}.

Lemma row_bits s r b {B} (k : nat → st SubnetBuilder B) Q : rows_inv r b s → 1 ≤ r < f →
  adds ins outs b (k (min f (T - r))) Q →
  adds ins outs b ((if T <? generatedSize s then st_assert (0 <? bitsToOutput s) ;; mret (bitsToOutput s - 1)
          else mret (bitsToOutput s)) ≫= k) Q.
Proof using HT.
  intros Hs Hr Hk. rewrite (ri_bits _ _ _ Hs), (ri_generated _ _ _ Hs).
  destruct (Nat.ltb_spec T (f + r)).
  - rewrite (proj2 (Nat.ltb_lt _ _)) by lia. replace (min f (T - r)) with (min f (T + 1 - r) - 1) in Hk by lia. done.
  - replace (min f (T - r)) with (min f (T + 1 - r)) in Hk by lia. done.
Qed.

(** The new row: the bits of the first operand times a bit of the second. *)
Lemma local_row bits y b r : wf b ins outs → srcs b xs → bits ≤ f → ys !! r = Some y → srcs b ys →
  adds ins outs b (st_map (λ i, a ← link_at As i; addGate AND [a; y]) (seq 0 bits)) (λ b' ls, length ls = bits ∧
    ∀ j, j < bits → ∃ l, ls !! j = Some l ∧ denotes b' l (λ v, Z.testbit (A v * Z.b2z (bit (word v ys) r)) (Z.of_nat j))).
Proof using Hpre.
  clear HT. intros Hw Hx Hb Ey Hy. eapply adds_mono.
  { apply (pairs_spec ins outs bits _ (λ v j, Z.testbit (A v * Z.b2z (bit (word v ys) r)) (Z.of_nat j))); [done|].
    intros j b' Hj Hw' He. destruct (lookup_lt_is_Some_2 xs j) as [a Ea]; [fold f; lia|]. eapply adds_read_bind; [exact (prefix_lookup_Some _ _ _ _ Ea Hpre)|].
    eapply adds_mono; [exact (add_and b' ins outs a y _ _ Hw' (denotes_at b' xs a j (srcs_ext _ _ _ He Hx) Ea) (denotes_at b' ys y r (srcs_ext _ _ _ He Hy) Ey))|].
    intros l b2 _ D. eapply denotes_eq; [|exact D]. intros v. cbv beta. unfold A.
    destruct (bit (word v ys) r); cbn [Z.b2z]; [by rewrite andb_true_r, Z.mul_1_r, testbit_of_bits|].
    by rewrite andb_false_r, Z.mul_0_r, Z.testbit_0_l. }
  intros ls b' _ [Ll D]. split; [done|]. intros j Hj. by apply (denotes_point b' ls bits _ j D).
Qed.

Lemma add_row_spec r s y b : wf b ins outs → srcs b xs → srcs b ys → rows_inv r b s → 1 ≤ r < f → ys !! r = Some y →
  adds ins outs b (add_row As f T y s) (rows_inv (r + 1)).
Proof using HT Hpre.
  intros Hw Hx Hy Hs Hr Ey. pose proof (lookup_lt_Some _ _ _ Ey) as Hry. unfold add_row. apply (row_bits s r b); [done|done|].
  set (bits := min f (T - r)). assert (0 < bits ≤ f) as Hbits by (unfold bits; lia).
  eapply adds_bind; [apply (local_row bits y b r); [done|done|lia|done|done]|]. intros local b1 Hw1 E1 [Ll Dl].
  set (p := λ v, (part_product r v / 2 ^ Z.of_nat r)%Z). set (q := λ v, (A v * Z.b2z (bit (word v ys) r))%Z).
  assert (∀ j v, Z.testbit (p v) (Z.of_nat j) = Z.testbit (part_product r v) (Z.of_nat (r + j))) as Hp.
  { intros j v. unfold p. rewrite Z.div_pow2_bits by lia. f_equal. lia. }
  assert (summands f p q r bits (andOperations s) local 0 b1) as Hsum.
  { intros j Hj. destruct (Dl j) as (l & El & D); [lia|]. exists l. split; [done|]. split; [exact D|].
    destruct ((r =? 1) && (j =? f - 1)) eqn:Eb.
    - apply andb_true_iff in Eb as [E1r%Nat.eqb_eq Ej%Nat.eqb_eq]. intros v. rewrite Hp.
      rewrite E1r. apply (testbit_small _ f); [apply part_product_first|lia].
    - destruct (ri_high _ _ _ Hs j) as (a & Ea & Da).
      { unfold sums_left. apply andb_false_iff in Eb. destruct (Nat.eqb_spec r 1) as [->|].
        - destruct Eb as [?|?%Nat.eqb_neq]; [done|lia].
        - destruct (Nat.leb_spec f (T + 1 - r)); lia. }
      exists a. split; [done|]. eapply denotes_ext; [exact E1|]. eapply denotes_eq; [|exact Da]. intros v. by rewrite Hp. }
  assert ((r =? 1) && (0 =? f - 1) = false) as E0 by (destruct (Nat.eqb_spec 0 (f - 1)); [lia|apply andb_false_r]).
  destruct (Hsum 0 ltac:(lia)) as (l0 & El0 & Dl0 & Hx0). rewrite E0 in Hx0. destruct Hx0 as (a0 & Ea0 & Da0).
  eapply adds_read_bind; [exact Ea0|]. eapply adds_read_bind; [exact El0|].
  eapply adds_bind; [exact (add_and _ _ _ _ _ _ _ Hw1 Da0 Dl0)|]. intros c b2 Hw2 E2 Dc.
  eapply adds_bind; [exact (add_xor _ _ _ _ _ _ _ Hw2 (denotes_ext _ _ _ _ E2 Da0) (denotes_ext _ _ _ _ E2 Dl0))|]. intros x0 b3 Hw3 E3 Dx0.
  assert (ext b1 b3) as E13 by by etransitivity. rewrite (ri_outputs _ _ _ Hs).
  eapply adds_bind.
  { apply (row_adders_spec ins outs f p q r bits _ local (bits - 1) 1 c b3); [done|lia|lia|lia|by eapply summands_ext; [exact E13| |exact Hsum]; lia|].
    intros _. eapply denotes_ext; [exact E3|]. eapply denotes_eq; [|exact Dc]. intros v. cbv beta. by rewrite carry_bit_1. }
  intros [ss c'] b4 Hw4 E4 (Ls & Dss & Dc'). cbn [fst snd] in Ls, Dss, Dc'. apply adds_ret; [done|].
  assert (ext b b4) as E14 by (etransitivity; [exact E1|]; by etransitivity).
  assert (∀ j v, Z.testbit (p v + q v) (Z.of_nat j) = Z.testbit (part_product (r + 1) v) (Z.of_nat (r + j))) as Hpq.
  { intros j v. symmetry. by apply part_product_high. }
  split; cbn [outputs andOperations bitsToOutput generatedSize].
  - rewrite length_app, (ri_outputs _ _ _ Hs). done.
  - rewrite !length_app, length_drop, (ri_sums _ _ _ Hs). cbn. lia.
  - unfold bits. lia.
  - rewrite (ri_generated _ _ _ Hs). lia.
  - intros i l Hl. apply lookup_app_Some in Hl as [Hl|[Hge Hl]].
    + pose proof (lookup_lt_Some _ _ _ Hl) as Hi. rewrite (ri_outputs _ _ _ Hs) in Hi. eapply denotes_ext; [exact E14|].
      eapply denotes_eq; [|exact (ri_low _ _ _ Hs i l Hl)]. intros v. symmetry. by apply part_product_low.
    + rewrite (ri_outputs _ _ _ Hs) in Hge, Hl. apply list_lookup_singleton_Some in Hl as [Ei <-].
      eapply denotes_ext; [exact E4|]. eapply denotes_eq; [|exact Dx0]. intros v. cbv beta.
      rewrite <- testbit_add_0. replace i with (r + 0) by lia. by rewrite <- Hpq.
  - intros j Hj. unfold sums_left in Hj. rewrite (proj2 (Nat.eqb_neq (r + 1) 1)) in Hj by lia.
    destruct (decide (j < bits - 1)) as [Hlt|Hge].
    + destruct (lookup_lt_is_Some_2 ss j) as [l El]; [lia|]. exists l. split; [by rewrite lookup_app_l by lia|].
      eapply denotes_eq; [|exact (Dss j l El)]. intros v. cbv beta. rewrite Hpq. do 2 f_equal. lia.
    + assert (j = bits - 1 ∧ bits = f) as [-> Ebf] by (destruct (Nat.leb_spec f (T + 1 - (r + 1))); unfold bits in *; lia).
      exists c'. split; [by rewrite lookup_app_r, Ls, Nat.sub_diag by lia|].
      eapply denotes_eq; [|exact (Dc' Ebf)]. intros v. cbv beta. rewrite carry_bit_top.
      * rewrite Hpq. do 2 f_equal. lia.
      * unfold p. pose proof (part_product_bound r v) as Hb. rewrite Nat2Z.inj_add, Z.pow_add_r in Hb by lia. rewrite Ebf.
        split; [apply Z.div_pos; lia|]. apply Z.div_lt_upper_bound; lia.
      * unfold q. pose proof (A_bound v). rewrite Ebf. destruct (bit (word v ys) r); cbn [Z.b2z]; lia.
Qed.

Lemma rows_loop_spec bs : ∀ r s b, wf b ins outs → srcs b xs → srcs b ys → rows_inv r b s → 1 ≤ r ≤ f → bs = drop r ys →
  adds ins outs b (rows_loop As f T bs s) (rows_inv (max r (min f (length ys)))).
Proof using HT Hpre.
  induction bs as [|y bs IH]; intros r s b Hw Hx Hy Hs Hr Eb; cbn [rows_loop].
  - assert (length ys ≤ r) as Hl by (apply (f_equal length) in Eb; rewrite length_drop in Eb; cbn in Eb; lia).
    apply adds_ret; [done|]. by rewrite Nat.max_l by lia.
  - assert (ys !! r = Some y) as Ey by (rewrite <- (Nat.add_0_r r), <- lookup_drop, <- Eb; done).
    pose proof (lookup_lt_Some _ _ _ Ey) as Hlt. rewrite (ri_outputs _ _ _ Hs). destruct (Nat.ltb_spec r f) as [Hrf|Hrf].
    + eapply adds_bind; [apply (add_row_spec r s y b); (done || lia)|]. intros s' b1 Hw1 E1 Hs'.
      eapply adds_mono; [apply (IH (r + 1)); [done|by eapply srcs_ext|by eapply srcs_ext|done|lia|]|].
      * by rewrite <- drop_drop, <- Eb.
      * intros s2 b2 _ Hr2. by replace (max (r + 1) (min f (length ys))) with (max r (min f (length ys))) in Hr2 by lia.
    + apply adds_ret; [done|]. by rewrite Nat.max_l by lia.
Qed.

(** The first row. *)
Lemma first_row {B} b y (k : Rows → st SubnetBuilder B) Q : wf b ins outs → srcs b xs → srcs b ys → 0 < f → ys !! 0 = Some y →
  (∀ s b', wf b' ins outs → ext b b' → rows_inv 1 b' s → adds ins outs b' (k s) Q) →
  adds ins outs b (a0 ← link_at As 0; o0 ← addGate AND [a0; y];
    ands ← st_map (λ i, a ← link_at As i; addGate AND [a; y]) (seq 1 (f - 1));
    k (mkRows [o0] (ands ++ [LinkTo 0]) f (f + 1))) Q.
Proof using HT Hpre.
  intros Hw Hx Hy Hf Ey Hk. pose proof (lookup_lt_Some _ _ _ Ey) as Hly.
  assert (∀ i b', i < f → wf b' ins outs → ext b b' → adds ins outs b' (a ← link_at As i; addGate AND [a; y])
    (λ b2 l, denotes b2 l (λ v, Z.testbit (part_product 1 v) (Z.of_nat i)))) as Hand.
  { intros i b' Hi Hw' He. destruct (lookup_lt_is_Some_2 xs i Hi) as [a Ea].
    eapply adds_read_bind; [exact (prefix_lookup_Some _ _ _ _ Ea Hpre)|].
    eapply adds_mono; [exact (add_and b' ins outs a y _ _ Hw' (denotes_at b' xs a i (srcs_ext _ _ _ He Hx) Ea) (denotes_at b' ys y 0 (srcs_ext _ _ _ He Hy) Ey))|].
    intros l b2 _ D. eapply denotes_eq; [|exact D]. intros v. cbv beta. rewrite (part_product_S 0) by done.
    unfold part_product, A. change (Z.of_nat 0) with 0%Z. cbn [take Z_of_bits]. rewrite Z.mul_0_r, Z.add_0_l, Z.mul_1_l.
    destruct (bit (word v ys) 0); cbn [Z.b2z]; [by rewrite andb_true_r, Z.mul_1_r, testbit_of_bits|].
    by rewrite andb_false_r, Z.mul_0_r, Z.testbit_0_l. }
  eapply (adds_assoc ins outs b (link_at As 0)). eapply adds_bind; [apply (Hand 0 b Hf Hw); done|]. intros o0 b1 Hw1 E1 D0.
  eapply adds_bind.
  { apply (adds_map ins outs _ (λ b' i k, denotes b' k (λ v, Z.testbit (part_product 1 v) (Z.of_nat i)))).
    - intros b2 b3 i l He Hl. eapply denotes_ext; [exact He|exact Hl].
    - exact Hw1.
    - intros i b2 Hi%elem_of_seq Hw2 E2. apply (Hand i b2); [lia|done|by etransitivity]. }
  intros ands b2 Hw2 E2 HF. apply Hk; [done|by etransitivity|].
  pose proof (Forall2_length _ _ _ HF) as Hla. rewrite length_seq in Hla.
  split; cbn [outputs andOperations bitsToOutput generatedSize].
  - done.
  - rewrite length_app. cbn. lia.
  - lia.
  - lia.
  - intros [|i] l Hl; [|done]. injection Hl as <-. eapply denotes_ext; [exact E2|exact D0].
  - intros j Hj. cbn in Hj. destruct (lookup_lt_is_Some_2 ands j) as [l El]; [lia|]. exists l.
    split; [by rewrite lookup_app_l by lia|]. apply (Forall2_lookup_lr _ _ _ j (S j) l HF); [|done].
    by apply lookup_seq.
Qed.

(** The links after the last row. *)
Definition rows_output (s : Rows) : LinkList :=
  let bits := if length (outputs s) =? 1 then bitsToOutput s - 1 else bitsToOutput s in
  outputs s ++ take (T - length (outputs s)) (take bits (andOperations s)).

Lemma rows_output_spec r s b : rows_inv r b s → 1 ≤ r ≤ f →
  length (rows_output s) = (if r =? 1 then f else min T (r + f)) ∧
  denotes_all b (rows_output s) (λ v, bits_of (length (rows_output s)) (part_product r v)).
Proof using HT.
  intros Hs Hr. unfold rows_output. rewrite (ri_outputs _ _ _ Hs), (ri_bits _ _ _ Hs). split.
  - rewrite length_app, !length_take, (ri_sums _ _ _ Hs), (ri_outputs _ _ _ Hs).
    destruct (Nat.eqb_spec r 1); lia.
  - apply denotes_pointwise; [done|]. intros i l Hl. apply lookup_app_Some in Hl as [Hl|[Hge Hl]].
    + by apply (ri_low _ _ _ Hs).
    + rewrite (ri_outputs _ _ _ Hs) in Hge, Hl. pose proof (lookup_lt_Some _ _ _ Hl) as Hlt.
      rewrite !length_take, (ri_sums _ _ _ Hs) in Hlt. rewrite take_take in Hl. apply lookup_take_Some in Hl as [Hl _].
      destruct (ri_high _ _ _ Hs (i - r)) as (l' & El & D).
      { unfold sums_left. destruct (Nat.eqb_spec r 1); [lia|]. destruct (Nat.leb_spec f (T + 1 - r)); lia. }
      rewrite Hl in El. injection El as <-. eapply denotes_eq; [|exact D]. intros v. cbv beta. do 2 f_equal. lia.
Qed.
End Matrix.

(** * Numbers modulo powers of two as vectors of links

    What the parts of the multipliers compute: the matrix multiplier, and the
    additions and subtractions of Karatsuba's recursion. *)

Open Scope Z_scope.

(** ** Congruence modulo a power of two *)

Definition cong (n : nat) : Z → Z → Prop := Zdiv.eqm (2 ^ Z.of_nat n).

#[export] Instance cong_equivalence n : Equivalence (cong n).
Proof. split; unfold cong, Zdiv.eqm; [intros x|intros x y|intros x y z]; congruence. Qed.

#[export] Instance cong_add n : Proper (cong n ==> cong n ==> cong n) Z.add.
Proof. intros a a' Ha b b' Hb. unfold cong, Zdiv.eqm in *. by rewrite Z.add_mod, Ha, Hb, <- Z.add_mod by lia. Qed.

#[export] Instance cong_mul n : Proper (cong n ==> cong n ==> cong n) Z.mul.
Proof. intros a a' Ha b b' Hb. unfold cong, Zdiv.eqm in *. by rewrite Z.mul_mod, Ha, Hb, <- Z.mul_mod by lia. Qed.

#[export] Instance cong_sub n : Proper (cong n ==> cong n ==> cong n) Z.sub.
Proof. intros a a' Ha b b' Hb. unfold cong, Zdiv.eqm in *. by rewrite Zminus_mod, Ha, Hb, <- Zminus_mod. Qed.

#[export] Instance cong_opp n : Proper (cong n ==> cong n) Z.opp.
Proof. intros a a' Ha. change (cong n (0 - a) (0 - a')). by rewrite Ha. Qed.

Lemma cong_le n m a b : (n ≤ m)%nat → cong m a b → cong n a b.
Proof.
  intros Hn Hc. unfold cong, Zdiv.eqm in *.
  assert (2 ^ Z.of_nat n | 2 ^ Z.of_nat m) as Hd.
  { exists (2 ^ (Z.of_nat m - Z.of_nat n)). rewrite <- Z.pow_add_r by lia. f_equal. lia. }
  by rewrite <- (Z.mod_mod_divide a _ _ Hd), Hc, Z.mod_mod_divide.
Qed.

Lemma cong_mod n m a : (n ≤ m)%nat → cong n (a mod 2 ^ Z.of_nat m) a.
Proof. intros Hn. apply (cong_le n m); [done|]. apply Z.mod_mod. lia. Qed.

Lemma cong_shift n k a b : cong n a b → cong (k + n) (2 ^ Z.of_nat k * a) (2 ^ Z.of_nat k * b).
Proof.
  unfold cong, Zdiv.eqm. intros Hc. rewrite Nat2Z.inj_add, Z.pow_add_r by lia.
  rewrite !Z.mul_mod_distr_l by lia. by rewrite Hc.
Qed.

Lemma cong_shift_zero n k a : (n ≤ k)%nat → cong n (2 ^ Z.of_nat k * a) 0.
Proof.
  intros Hn. apply (cong_le n k); [done|]. unfold cong, Zdiv.eqm. by rewrite Z.mul_comm, Z.mod_mul by lia.
Qed.

(** A number of [n] bits is determined when it is congruent to a number of [n] bits. *)
Lemma cong_exact n o a z : 0 ≤ a < 2 ^ Z.of_nat n → 0 ≤ z < 2 ^ Z.of_nat n → cong n a z → cong o a z.
Proof. intros Ha Hz Hc. unfold cong, Zdiv.eqm in Hc. rewrite !Z.mod_small in Hc by done. by rewrite Hc. Qed.

(** ** Products as words *)

(** The bits of a product: of [w] bits with their sign, or of all [o]. *)
Definition product_word (useSign : bool) (w o : nat) (z : Z) : list bool :=
  if useSign then sext (bits_of w z) o else bits_of o z.

Lemma product_word_length useSign w o z : (w ≤ o)%nat → length (product_word useSign w o z) = o.
Proof. intros Hw. unfold product_word. destruct useSign; [|apply bits_of_length]. rewrite sext_length, bits_of_length. lia. Qed.

Lemma bits_of_zeros n o z : (n ≤ o)%nat → 0 ≤ z < 2 ^ Z.of_nat n → bits_of n z ++ replicate (o - n) false = bits_of o z.
Proof.
  intros Hn Hz. apply bits_of_eq; [rewrite length_app, length_replicate, bits_of_length; lia|].
  rewrite Z_of_bits_app, Z_of_bits_replicate_false, Z_of_bits_of.
  assert (2 ^ Z.of_nat n ≤ 2 ^ Z.of_nat o) by (apply Z.pow_le_mono_r; lia). rewrite !Z.mod_small; lia.
Qed.

Close Scope Z_scope.

Section Words.
Context `{TypeStore}.
Context (ins outs : list nat).

(** The number of [r] is congruent to [z] modulo [2 ^ o]. *)
Definition residue (b : SubnetBuilder) (r : LinkList) (o : nat) (z : valuation → Z) : Prop :=
  srcs b r ∧ ∀ v, consistent v b → cong o (Z_of_bits (word v r)) (z v).

Lemma residue_self b r o : srcs b r → residue b r o (λ v, Z_of_bits (word v r)).
Proof. done. Qed.

Lemma residue_ext b b' r o z : ext b b' → residue b r o z → residue b' r o z.
Proof. intros He [Hs Hz]. split; [by eapply srcs_ext|]. intros v Hv. apply Hz. by eapply consistent_ext. Qed.

Lemma residue_eq b r o z z' : (∀ v, consistent v b → cong o (z v) (z' v)) → residue b r o z → residue b r o z'.
Proof. intros E [Hs Hz]. split; [done|]. intros v Hv. rewrite (Hz v Hv). by apply E. Qed.

Lemma residue_le b r o o' z : o' ≤ o → residue b r o z → residue b r o' z.
Proof. intros Ho [Hs Hz]. split; [done|]. intros v Hv. eapply cong_le; [exact Ho|by apply Hz]. Qed.

Lemma residue_exact b r o z : (∀ v, consistent v b → 0 ≤ z v < 2 ^ Z.of_nat (length r))%Z → residue b r (length r) z → residue b r o z.
Proof.
  intros Hb [Hs Hz]. split; [done|]. intros v Hv. apply (cong_exact (length r)); [|by apply Hb|by apply Hz].
  rewrite <- (word_length v r). apply Z_of_bits_bound.
Qed.

Lemma residue_up b r t o z : length r = t → residue b r t z → (t = o ∨ ∀ v, 0 ≤ z v < 2 ^ Z.of_nat t)%Z → residue b r o z.
Proof. intros <- R [<-|Hb]; [done|]. by apply residue_exact. Qed.

(** Links that denote the bits of a number. *)
Lemma residue_of_bits b r n z : wf b ins outs → denotes_all b r (λ v, bits_of n (z v)) → length r = n ∧ residue b r n z.
Proof.
  intros Hw D. split; [eapply (denotes_all_length b ins outs); [done|exact D|intros v; apply bits_of_length]|].
  split; [apply D|]. intros v Hv. unfold word. rewrite (proj2 D v Hv), Z_of_bits_of. by apply cong_mod.
Qed.

Lemma residue_bits b r n z : length r = n → residue b r n z → denotes_all b r (λ v, bits_of n (z v)).
Proof.
  intros <- [Hs Hz]. split; [done|]. intros v Hv. apply bits_of_eq; [by rewrite length_fmap|].
  rewrite <- (Hz v Hv). symmetry. apply Z.mod_small.
  rewrite <- (word_length v r). apply Z_of_bits_bound.
Qed.

Lemma residue_take b r o n z : residue b r o z → o ≤ n → residue b (take n r) o z.
Proof.
  intros [Hs Hz] Ho. split; [by apply Forall_take|]. intros v Hv. rewrite <- (Hz v Hv). unfold word. rewrite fmap_take.
  destruct (decide (n ≤ length r)) as [Hn|Hn]; [|by rewrite take_ge by (rewrite length_fmap; lia)].
  rewrite <- (take_drop n (lval v <$> r)) at 2. rewrite Z_of_bits_app, length_take, length_fmap, Nat.min_l by done.
  rewrite (cong_shift_zero o n) by done. by rewrite Z.add_0_r.
Qed.

Lemma residue_shift b r o k l z : residue b r o z → denotes b l (λ _, false) →
  residue b (replicate k l ++ r) (k + o) (λ v, 2 ^ Z.of_nat k * z v)%Z.
Proof.
  intros [Hs Hz] [Hl Dl]. split; [apply Forall_app; split; [by apply Forall_replicate|done]|].
  intros v Hv. unfold word. rewrite fmap_app, fmap_replicate, (Dl v Hv), Z_of_bits_app, Z_of_bits_replicate_false, length_replicate.
  rewrite Z.add_0_l. apply cong_shift. by apply Hz.
Qed.

(** *** Sums *)

Lemma adds_mono_wf {A} b (m : st SubnetBuilder A) (P Q : SubnetBuilder → A → Prop) : adds ins outs b m P →
  (∀ a b', wf b' ins outs → ext b b' → P b' a → Q b' a) → adds ins outs b m Q.
Proof. intros Hm HPQ. eapply wp_mono; [exact Hm|]. intros a b' (Hw & He & HP). auto. Qed.

(** A sum whose carry is kept, or that is as wide as the modulus. *)
Lemma residue_sum b x y out o zx zy : wf b ins outs → residue b x o zx → residue b y o zy →
  0 < length x < 2 ^ 15 → 0 < length y < 2 ^ 15 → 0 < out < 2 ^ 16 →
  (o ≤ out ∨ max (length x) (length y) < out) →
  adds ins outs b (synthLadnerFisherAdd x y out false false) (λ b' r, length r = out ∧ residue b' r o (λ v, zx v + zy v)%Z).
Proof.
  intros Hw Rx Ry Lx Ly Ho Hor.
  eapply adds_mono_wf; [exact (adder_spec x y out false false b ins outs Hw (proj1 Rx) (proj1 Ry) Lx Ly Ho)|].
  intros r b' Hw' He D. cbv beta in D.
  destruct (residue_of_bits b' r out (λ v, Z_of_bits (word v x) + Z_of_bits (word v y))%Z Hw') as [Lr Rr].
  { eapply denotes_all_eq; [|exact D]. intros v. apply bits_of_eq; [apply add_words_length|apply add_words_unsigned]. }
  split; [done|]. apply (residue_eq b' r o (λ v, Z_of_bits (word v x) + Z_of_bits (word v y))%Z).
  { intros v Hv. apply (consistent_ext _ _ _ He) in Hv. by rewrite (proj2 Rx v Hv), (proj2 Ry v Hv). }
  destruct Hor as [Hor|Hor]; [by eapply residue_le|]. subst out. apply residue_exact; [|done].
  intros v _. pose proof (Z_of_bits_bound (word v x)) as Bx. pose proof (Z_of_bits_bound (word v y)) as By.
  rewrite word_length in Bx, By. pose proof (Z.pow_le_mono_r 2 (Z.of_nat (length x)) (Z.of_nat (length r) - 1)).
  pose proof (Z.pow_le_mono_r 2 (Z.of_nat (length y)) (Z.of_nat (length r) - 1)).
  assert (2 ^ Z.of_nat (length r) = 2 * 2 ^ (Z.of_nat (length r) - 1))%Z by (rewrite <- Z.pow_succ_r by lia; f_equal; lia).
  lia.
Qed.

(** The difference of words, modulo the width. *)
Lemma residue_difference b x y t zx zy : wf b ins outs → length x = t → residue b x t zx → residue b y t zy →
  0 < t < 2 ^ 15 → 0 < length y →
  adds ins outs b (n ← twosComplement y t false; synthLadnerFisherAdd x n t true true)
    (λ b' r, length r = t ∧ residue b' r t (λ v, zx v - zy v)%Z).
Proof.
  intros Hw Lx Rx Ry Ht Ly. assert (2 ^ 15 < 2 ^ 16) by (apply Nat.pow_lt_mono_r; lia).
  eapply adds_bind; [exact (twosComplement_spec y t false b ins outs Hw (proj1 Ry) Ly Ht)|].
  intros n b1 Hw1 E1 Dn. cbv beta in Dn. destruct (residue_of_bits b1 n t _ Hw1 Dn) as [Ln Rn].
  eapply adds_mono_wf.
  { apply (adder_spec x n t true true b1 ins outs Hw1); [exact (srcs_ext _ _ _ E1 (proj1 Rx))|exact (proj1 Rn)|lia..]. }
  intros r b2 Hw2 E2 D. cbv beta in D.
  destruct (residue_of_bits b2 r t (λ v, Z_of_bits (word v x) + Z_of_bits (word v n))%Z Hw2) as [Lr Rr].
  { eapply denotes_all_eq; [|exact D]. intros v. apply bits_of_eq; [apply add_words_length|].
    apply add_words_low; rewrite !word_length; lia. }
  split; [done|]. eapply residue_eq; [|exact Rr]. intros v Hv. cbv beta.
  apply (consistent_ext _ _ _ E2) in Hv. rewrite (proj2 Rn v Hv). apply (consistent_ext _ _ _ E1) in Hv.
  rewrite (proj2 Rx v Hv). cbn [Z_of_word].
  assert (cong t (Z_of_bits (take t (word v y))) (zy v)) as Ey.
  { unfold word. rewrite <- fmap_take. by apply (residue_take b y t t zy Ry). }
  by rewrite Ey, Z.add_opp_r.
Qed.

(** *** Extending the result *)

Lemma extend_product useSign out o w z (m : st SubnetBuilder Link) b : wf b ins outs → length out = w → residue b out w z →
  0 < w ≤ o → (useSign = false → w < o → ∀ v, consistent v b → (0 ≤ z v < 2 ^ Z.of_nat w)%Z) →
  adds ins outs b m (λ b' l, denotes b' l (λ v, if useSign then msb (bits_of w (z v)) else false)) →
  adds ins outs b (if length out <? o then x ← m; mret (out ++ replicate (o - length out) x) else mret out)
    (λ b' r, denotes_all b' r (λ v, product_word useSign w o (z v))).
Proof.
  intros Hw Lo Ro Hwo Hz Hm. pose proof (residue_bits b out w z Lo Ro) as D. rewrite Lo. destruct (Nat.ltb_spec w o) as [Hlt|Hge].
  - eapply adds_bind; [exact Hm|]. intros x b1 Hw1 E1 Dx. apply adds_ret; [done|].
    pose proof (denotes_all_app _ _ _ _ _ (denotes_all_ext _ _ _ _ E1 D) (denotes_all_replicate _ _ _ (o - w) Dx)) as [Hs Dr].
    split; [done|]. intros v Hv. rewrite Dr by done. unfold product_word, sext. rewrite bits_of_length. destruct useSign; [done|].
    apply bits_of_zeros; [lia|]. apply Hz; [done|done|]. by eapply consistent_ext.
  - apply adds_ret; [done|]. eapply denotes_all_eq; [|exact D]. intros v. cbv beta. assert (w = o) as <- by lia.
    unfold product_word, sext. rewrite bits_of_length, Nat.sub_diag, app_nil_r. by destruct useSign.
Qed.

Lemma back_of_product out w z b : wf b ins outs → length out = w → residue b out w z → 0 < w →
  adds ins outs b (back out) (λ b' l, b' = b ∧ denotes b' l (λ v, msb (bits_of w (z v)))).
Proof.
  intros Hw Lo Ro H0. pose proof (residue_bits b out w z Lo Ro) as D.
  destruct (denotes_back b out _ D) as (l & El & Dl); [lia|intros v; rewrite bits_of_length; lia|].
  exists l, b. split; [unfold back, st_read; by rewrite El|]. split_all; [done|done|done|done].
Qed.
End Words.
