(* ===== verification/MultiplierCorrect.v ===== *)
(** * The multipliers are correct

    The matrix multiplier, Karatsuba's recursion over it, and the subnets of the
    signed and unsigned multiplication. *)

From S2P Require Import Prelude CellType SubnetBase Builder BuilderInv BuilderSpec BuilderEval MakeSpec CellAttr.
From S2P Require Import Adder AdderSum AdderArith Synth SynthArith SynthBits ComparisonSpec ShiftSpec Multiplier MultiplierSpec.
From stdpp Require Import gmap strings.

Lemma small_widths : 2 * 2 ^ 14 ≤ 2 ^ 15 ∧ 2 * 2 ^ 15 ≤ 2 ^ 16.
Proof. split; [by rewrite (Nat.pow_succ_r' 2 14)|by rewrite (Nat.pow_succ_r' 2 15)]. Qed.

Section Multipliers.
Context `{TypeStore}.
Context (ins outs : list nat).

(** The operands of a multiplier and the width of its result: the first operand
    is the longer one and not longer than the result. *)
Record operands (As Bs : LinkList) (o : nat) (b : SubnetBuilder) : Prop := {
  op_A : srcs b As;
  op_B : srcs b Bs;
  op_pos : 0 < length As ∧ 0 < length Bs < 2 ^ 14;
  op_out : length As ≤ o < 2 ^ 14;
  op_longer : length Bs ≤ length As ∨ o ≤ length As;
  op_one : o = 1 → length Bs = 1;
}.

Definition product (As Bs : LinkList) (v : valuation) : Z := (Z_of_bits (word v As) * Z_of_bits (word v Bs))%Z.

(** The multiplier [m] returns the [o] bits of the product. *)
Definition multiplies (useSign : bool) (As Bs : LinkList) (o : nat) (b : SubnetBuilder) (m : st SubnetBuilder LinkList) : Prop :=
  adds ins outs b m (λ b' r, denotes_all b' r (λ v, product_word useSign (length As) o (product As Bs v))).

Lemma product_bound As Bs v n : length As + length Bs ≤ n → (0 ≤ product As Bs v < 2 ^ Z.of_nat n)%Z.
Proof.
  intros Hn. unfold product. pose proof (Z_of_bits_bound (word v As)) as Ba. pose proof (Z_of_bits_bound (word v Bs)) as Bb.
  rewrite word_length in Ba, Bb. assert (2 ^ Z.of_nat (length As) * 2 ^ Z.of_nat (length Bs) ≤ 2 ^ Z.of_nat n)%Z; [|nia].
  rewrite <- Z.pow_add_r by lia. apply Z.pow_le_mono_r; lia.
Qed.

Lemma product_bound_one As Bs v : length Bs = 1 → (0 ≤ product As Bs v < 2 ^ Z.of_nat (length As))%Z.
Proof.
  intros Hn. unfold product. pose proof (Z_of_bits_bound (word v As)) as Ba. pose proof (Z_of_bits_bound (word v Bs)) as Bb.
  rewrite word_length in Ba, Bb. rewrite Hn in Bb. change (2 ^ Z.of_nat 1)%Z with 2%Z in Bb. nia.
Qed.

Lemma part_product_cong As Bs r v n : (length Bs ≤ r ∨ n ≤ r) → cong n (part_product As Bs r v) (product As Bs v).
Proof.
  intros Hr. unfold part_product, product. rewrite <- (take_drop r (word v Bs)) at 2. rewrite Z_of_bits_app, length_take, word_length.
  destruct Hr as [Hr|Hr].
  - rewrite drop_ge by (rewrite word_length; lia). cbn [Z_of_bits]. by rewrite Z.mul_0_r, Z.add_0_r.
  - destruct (decide (r ≤ length Bs)).
    + rewrite Nat.min_l by done. rewrite (cong_shift_zero n r) by done. by rewrite Z.add_0_r.
    + rewrite drop_ge by (rewrite word_length; lia). cbn [Z_of_bits]. by rewrite Z.mul_0_r, Z.add_0_r.
Qed.

Lemma synthSimpleMultipyer_spec As Bs o useSign b : wf b ins outs → operands As Bs o b →
  multiplies useSign As Bs o b (synthSimpleMultipyer As Bs o useSign).
Proof.
  intros Hw [Ha Hb [La Lb] Ho Hlong Hone]. assert (2 ^ 14 < 2 ^ 16) by (apply Nat.pow_lt_mono_r; lia).
  unfold multiplies, synthSimpleMultipyer. rewrite !u16_small by lia. rewrite Nat.min_r by lia.
  set (n := length As) in *. set (T := if useSign then n else o). assert (n ≤ T ≤ o) as HT by (unfold T; destruct useSign; lia).
  eapply adds_assert_bind; [apply Nat.ltb_lt; lia|]. destruct (lookup_lt_is_Some_2 Bs 0 (proj1 Lb)) as [b0 E0].
  eapply adds_read_bind; [exact E0|].
  refine (first_row As As Bs (reflexivity As : As `prefix_of` As) T ins outs (proj1 HT) b b0 (λ s, rows_loop As n T (drop 1 Bs) s ≫= _) _ _ _ _ _ _ _); [done|done|done|done|done|].
  intros s1 b1 Hw1 E1 I1. eapply adds_bind.
  { apply (rows_loop_spec As As Bs (reflexivity As : As `prefix_of` As) T ins outs (proj1 HT) (drop 1 Bs) 1 s1 b1); [done|by eapply srcs_ext|by eapply srcs_ext|done|fold n; lia|done]. }
  intros s b2 Hw2 E2 I2. cbv beta in I2. fold n in I2. set (r := max 1 (min n (length Bs))) in *.
  destruct (rows_output_spec As Bs T (proj1 HT) r s b2 I2) as [Lout Dout]; [fold n; unfold r; lia|]. fold n in Lout.
  fold (rows_output T s). set (out := rows_output T s) in *.
  pose proof (proj2 (residue_of_bits ins outs b2 out _ _ Hw2 Dout)) as Rout. set (w := length out) in *.
  assert (r = min n (length Bs)) as Er by (unfold r; lia). assert (0 < w ≤ o) as Hwo by (destruct (Nat.eqb_spec r 1); lia).
  eapply adds_assert_bind; [apply Nat.leb_le; lia|].
  assert (useSign = true → w = n) as Hsign by (intros ->; cbn in T; destruct (Nat.eqb_spec r 1); lia).
  assert (∀ v, product_word useSign n o (product As Bs v) = product_word useSign w o (product As Bs v)) as Ew.
  { intros v. destruct useSign; [by rewrite Hsign|done]. }
  eapply adds_mono.
  - apply (extend_product ins outs useSign out o w (product As Bs)); [done|done| |done| |].
    + eapply residue_eq; [|exact Rout]. intros v _. apply part_product_cong. destruct useSign; [lia|].
      cbn in T. destruct (Nat.eqb_spec r 1); lia.
    + intros -> Hlt v _. cbn in T. destruct (Nat.eqb_spec r 1) as [E1r|].
      * rewrite Lout. apply product_bound_one. lia.
      * apply product_bound. fold n. lia.
    + destruct useSign; [|eapply adds_mono; [by apply add_zero|done]].
      eapply adds_mono; [apply (back_of_product ins outs out w (product As Bs)); [done|done| |lia]|].
      * eapply residue_eq; [|exact Rout]. intros v _. apply part_product_cong. lia.
      * intros l b3 _ [-> D]. exact D.
  - intros r' b3 _ D. eapply denotes_all_eq; [|exact D]. intros v. symmetry. apply Ew.
Qed.

(** *** A step of the recursion *)

Section Step.
Context (As Bs : LinkList) (o : nat) (K : LinkList → LinkList → nat → st SubnetBuilder LinkList).
Context (Hlong : 5 ≤ length As) (Ho : length As ≤ o < 2 ^ 14) (HB : 0 < length Bs < 2 ^ 14).
Context (Hor : length Bs ≤ length As ∨ o ≤ length As).
Context (IH : ∀ As' Bs' o' b, wf b ins outs → operands As' Bs' o' b → length As' < length As →
  multiplies false As' Bs' o' b (K As' Bs' o')).

Let n := length As.
Let m := length Bs.
Let k := n / 2 + n mod 2.
Let LA := take k As.
Let RA := drop k As.
Let LB := take (min k m) Bs.
Let RB := drop k Bs.
Let x0 v := Z_of_bits (word v LA).
Let x1 v := Z_of_bits (word v RA).
Let y0 v := Z_of_bits (word v LB).
Let y1 v := Z_of_bits (word v RB).

Lemma half : (2 * k = n ∨ 2 * k = n + 1) ∧ 3 ≤ k.
Proof using Hlong Ho HB Hor. unfold k. fold n in Hlong. pose proof (Nat.div_mod_eq n 2). pose proof (Nat.mod_upper_bound n 2). lia. Qed.

Lemma part_lengths : length LA = k ∧ length RA = n - k ∧ length LB = min k m ∧ length RB = m - k.
Proof using Hlong Ho HB Hor.
  destruct half. unfold LA, RA, LB, RB. rewrite !length_take, !length_drop. fold n m. clear - H0 H1. lia.
Qed.

(** A product whose width is bounded by the sum of the widths of the operands. *)
Lemma sub_product As' Bs' e b : wf b ins outs → srcs b As' → srcs b Bs' → 0 < length As' < n → 0 < length Bs' < 2 ^ 14 →
  length As' ≤ e < 2 ^ 14 → 1 < e → (length Bs' ≤ length As' ∨ e ≤ length As') →
  adds ins outs b (K As' Bs' (min (length As' + length Bs') e)) (λ b' r,
    length r = min (length As' + length Bs') e ∧ residue b' r e (product As' Bs')).
Proof using Hlong Ho HB Hor IH.
  clear Hlong Ho HB Hor. intros Hw Ha Hb La Lb He H1 Hl. eapply adds_mono_wf.
  { apply (IH As' Bs' (min (length As' + length Bs') e) b Hw); [|fold n; lia]. split; [done|done|lia|lia|lia|lia]. }
  intros r b' Hw' _ D. cbv beta in D. cbn [product_word] in D.
  destruct (residue_of_bits ins outs b' r _ _ Hw' D) as [Lr Rr]. split; [done|].
  apply (residue_up b' r _ e _ Lr Rr). destruct (decide (e ≤ length As' + length Bs')); [left; lia|right].
  intros v. apply product_bound. lia.
Qed.

Lemma y_values v : (Z_of_bits (word v Bs) = y0 v + 2 ^ Z.of_nat k * y1 v)%Z.
Proof using Hlong Ho HB Hor.
  clear. unfold y0, y1, LB, RB. rewrite <- (take_drop k Bs) at 1. unfold word. rewrite fmap_app, Z_of_bits_app, length_fmap, length_take.
  destruct (decide (k ≤ m)).
  - by rewrite !Nat.min_l by done.
  - rewrite (take_ge Bs k), (take_ge Bs (min k m)), (drop_ge Bs k) by (fold m; lia). cbn. by rewrite !Z.mul_0_r.
Qed.

Lemma x_values v : (Z_of_bits (word v As) = x0 v + 2 ^ Z.of_nat k * x1 v)%Z.
Proof using Hlong Ho HB Hor.
  destruct part_lengths as (L & _). unfold x0, x1. rewrite <- (take_drop k As) at 1. unfold word.
  fold LA RA. by rewrite fmap_app, Z_of_bits_app, length_fmap, L.
Qed.

(** The middle part of the product. *)
Definition cross (v : valuation) : Z := (x0 v * y1 v + x1 v * y0 v)%Z.

Lemma product_split v : product As Bs v = (x0 v * y0 v + 2 ^ Z.of_nat k * cross v + 2 ^ Z.of_nat k * 2 ^ Z.of_nat k * (x1 v * y1 v))%Z.
Proof using Hlong Ho HB Hor. unfold product. rewrite x_values, y_values. unfold cross. ring. Qed.

Lemma part_bounds v : (0 ≤ x0 v < 2 ^ Z.of_nat k ∧ 0 ≤ x1 v < 2 ^ Z.of_nat k ∧
  0 ≤ y0 v < 2 ^ Z.of_nat (min k m) ∧ 0 ≤ y1 v < 2 ^ Z.of_nat (m - k))%Z.
Proof using Hlong Ho HB Hor.
  destruct half as [Hk _], part_lengths as (L0 & L1 & L2 & L3).
  pose proof (Z_of_bits_bound (word v LA)) as B0. pose proof (Z_of_bits_bound (word v RA)) as B1.
  pose proof (Z_of_bits_bound (word v LB)) as B2. pose proof (Z_of_bits_bound (word v RB)) as B3.
  rewrite word_length in B0, B1, B2, B3. rewrite L0 in B0. rewrite L1 in B1. rewrite L2 in B2. rewrite L3 in B3.
  fold (x0 v) in B0. fold (x1 v) in B1. fold (y0 v) in B2. fold (y1 v) in B3.
  assert (2 ^ Z.of_nat (n - k) ≤ 2 ^ Z.of_nat k)%Z by (apply Z.pow_le_mono_r; lia). lia.
Qed.

Lemma parts_srcs b : srcs b As → srcs b Bs → srcs b LA ∧ srcs b RA ∧ srcs b LB ∧ srcs b RB.
Proof using. clear. intros Ha Hb. split_all; (by apply Forall_take) || (by apply Forall_drop). Qed.

(** The sum of the halves of the first operand. *)
Lemma sumA_spec b : wf b ins outs → srcs b As →
  adds ins outs b (synthLadnerFisherAdd LA RA (min (k + 1) (o - k)) false false) (λ b' r,
    length r = min (k + 1) (o - k) ∧ residue b' r (o - k) (λ v, x0 v + x1 v)%Z).
Proof using Hlong Ho HB Hor.
  intros Hw Ha. destruct half as [Hk H3], part_lengths as (L0 & L1 & _). fold n in Ho.
  destruct small_widths as [W15 W16].
  apply (residue_sum ins outs b LA RA _ (o - k) x0 x1 Hw); [split; [by apply Forall_take|done]|split; [by apply Forall_drop|done]|lia..].
Qed.

(** The sum of the halves of the second operand and the product of the higher
    halves, if the second operand has one. *)
Definition right_part : st SubnetBuilder (LinkList * LinkList) :=
  if k <? m then
    sumB ← synthLadnerFisherAdd LB RB (min (k + 1) (o - k)) false false;
    mulRight ← K RA RB (min (length RA + length RB) (o - k));
    mret (sumB, mulRight)
  else mret (LB, []).

Lemma right_part_spec b : wf b ins outs → srcs b As → srcs b Bs →
  adds ins outs b right_part (λ b' r, length r.1 = (if k <? m then min (k + 1) (o - k) else m) ∧
    residue b' r.1 (o - k) (λ v, y0 v + y1 v)%Z ∧
    length r.2 = (if k <? m then min (length RA + length RB) (o - k) else 0) ∧
    residue b' r.2 (o - k) (λ v, x1 v * y1 v)%Z).
Proof using Hlong Ho HB Hor IH.
  intros Hw Ha Hb. destruct half as [Hk H3], part_lengths as (L0 & L1 & L2 & L3), (parts_srcs b Ha Hb) as (S0 & S1 & S2 & S3).
  fold n in Ho. fold m in HB. fold n m in Hor. destruct small_widths as [W15 W16]. unfold right_part.
  destruct (Nat.ltb_spec k m) as [Hkm|Hkm].
  - eapply adds_bind; [apply (residue_sum ins outs b LB RB _ (o - k) y0 y1 Hw); [done|done|lia..]|].
    intros sumB b1 Hw1 E1 [LsB RsB].
    eapply adds_bind.
    { apply (sub_product RA RB (o - k) b1 Hw1 (srcs_ext _ _ _ E1 S1) (srcs_ext _ _ _ E1 S3)); lia. }
    intros mr b2 Hw2 E2 [Lm Rm]. apply adds_ret; [done|]. cbn [fst snd]. split_all; [done|by eapply residue_ext|done|exact Rm].
  - apply adds_ret; [done|]. cbn [fst snd]. assert (RB = []) as ERB by (apply nil_length_inv; lia).
    split_all; [lia| |done|].
    + split; [done|]. intros v _. unfold y1. rewrite ERB. cbn. by rewrite Z.add_0_r.
    + split; [constructor|]. intros v _. unfold y1. rewrite ERB. cbn. by rewrite Z.mul_0_r.
Qed.

(** The middle part: the product of the sums less the other two products. *)
Definition middle_part (mulLeft sumA sumB mulRight : LinkList) : st SubnetBuilder LinkList :=
  mulSum ← K sumA sumB (min (u16 (length sumA + length sumB)) (o - k));
  negMul ← twosComplement mulLeft (length mulSum) false;
  mulSum ← synthLadnerFisherAdd mulSum negMul (length mulSum) true true;
  if negb (length RB =? 0) then
    negMul ← twosComplement mulRight (length mulSum) false;
    synthLadnerFisherAdd mulSum negMul (length mulSum) true true
  else mret mulSum.

Lemma cross_bound v : (0 ≤ cross v ≤ (x0 v + x1 v) * (y0 v + y1 v))%Z.
Proof using Hlong Ho HB Hor. destruct (part_bounds v) as (B0 & B1 & B2 & B3). unfold cross. nia. Qed.

Lemma cross_small v : k + 1 ≤ o - k → (0 ≤ cross v < 2 ^ Z.of_nat ((k + 1) + (if k <? m then k + 1 else m))%nat)%Z.
Proof using Hlong Ho HB Hor.
  clear IH K. intros Hko. pose proof (cross_bound v) as Hc. destruct (part_bounds v) as (B0 & B1 & B2 & B3).
  destruct half as [Hk _]. fold n m in Hor. fold n in Ho.
  assert (2 ^ Z.of_nat (k + 1) = 2 * 2 ^ Z.of_nat k)%Z as E1 by (rewrite Nat.add_1_r, Nat2Z.inj_succ; apply Z.pow_succ_r; lia).
  rewrite Nat2Z.inj_add, Z.pow_add_r, E1 by lia.
  assert (y0 v + y1 v < 2 ^ Z.of_nat (if k <? m then k + 1 else m)%nat)%Z; [|nia].
  destruct (Nat.ltb_spec k m).
  - rewrite E1. rewrite Nat.min_l in B2 by lia. enough (y1 v < 2 ^ Z.of_nat k)%Z by lia.
    enough (2 ^ Z.of_nat (m - k) ≤ 2 ^ Z.of_nat k)%Z by lia. apply Z.pow_le_mono_r; lia.
  - rewrite Nat.min_r in B2 by lia. replace (m - k) with 0 in B3 by lia. change (2 ^ Z.of_nat 0)%Z with 1%Z in B3. lia.
Qed.

Lemma middle_part_spec b mulLeft sumA sumB mulRight : wf b ins outs →
  residue b mulLeft o (λ v, x0 v * y0 v)%Z → 0 < length mulLeft →
  length sumA = min (k + 1) (o - k) → residue b sumA (o - k) (λ v, x0 v + x1 v)%Z →
  length sumB = (if k <? m then min (k + 1) (o - k) else m) → residue b sumB (o - k) (λ v, y0 v + y1 v)%Z →
  (length RB ≠ 0 → 0 < length mulRight) → residue b mulRight (o - k) (λ v, x1 v * y1 v)%Z →
  adds ins outs b (middle_part mulLeft sumA sumB mulRight) (λ b' r, 0 < length r ≤ o - k ∧ residue b' r (o - k) cross).
Proof using Hlong Ho HB Hor IH.
  intros Hw Rl Ll LsA RsA LsB RsB Lr Rr. destruct half as [Hk H3], part_lengths as (L0 & L1 & L2 & L3), small_widths as [W15 W16].
  fold n in Ho. fold m in HB. fold n m in Hor. unfold middle_part.
  assert (0 < length sumB < 2 ^ 14) as PsB by (rewrite LsB; destruct (Nat.ltb_spec k m); lia).
  rewrite u16_small by lia. set (t := min (length sumA + length sumB) (o - k)). assert (0 < t ≤ o - k) as Ht by (unfold t; lia).
  eapply adds_bind; [apply (sub_product sumA sumB (o - k) b Hw (proj1 RsA) (proj1 RsB)); try lia|].
  { rewrite LsB, LsA. destruct (Nat.ltb_spec k m); lia. }
  fold t. intros ms b1 Hw1 E1 [Lm Rm]. rewrite Lm.
  apply (residue_le _ _ _ t) in Rm; [|lia].
  apply adds_assoc. eapply adds_bind.
  { apply (residue_difference ins outs b1 ms mulLeft t _ (λ v, x0 v * y0 v)%Z Hw1 Lm Rm); [|lia|done].
    apply (residue_le _ _ o); [lia|]. by eapply residue_ext. }
  intros d1 b2 Hw2 E2 [Ld1 Rd1]. rewrite Ld1.
  assert (adds ins outs b2 (if negb (length RB =? 0) then
      negMul ← twosComplement mulRight t false; synthLadnerFisherAdd d1 negMul t true true else mret d1)
    (λ b' r, length r = t ∧ residue b' r t (λ v, product sumA sumB v - x0 v * y0 v - x1 v * y1 v)%Z)) as Hlast.
  { destruct (Nat.eqb_spec (length RB) 0) as [E0|E0]; cbn [negb].
    - apply adds_ret; [done|]. split; [done|]. eapply residue_eq; [|exact Rd1]. intros v _. cbv beta.
      unfold y1. rewrite (nil_length_inv RB E0). cbn. by rewrite Z.mul_0_r, Z.sub_0_r.
    - apply (residue_difference ins outs b2 d1 mulRight t _ (λ v, x1 v * y1 v)%Z Hw2 Ld1 Rd1); [|lia|by apply Lr].
      apply (residue_le _ _ (o - k)); [lia|]. eapply residue_ext; [|exact Rr]. by etransitivity. }
  eapply adds_mono; [exact Hlast|]. intros r b3 E3 [Lr3 Rr3]. split; [lia|].
  assert (ext b b3) as E03 by (etransitivity; [exact E1|]; by etransitivity).
  apply (residue_up b3 r t (o - k) cross Lr3).
  - eapply residue_eq; [|exact Rr3]. intros v Hv. apply (consistent_ext _ _ _ E03) in Hv. cbv beta. unfold product.
    rewrite (cong_le t _ _ _ (proj2 Ht) (proj2 RsA v Hv)), (cong_le t _ _ _ (proj2 Ht) (proj2 RsB v Hv)).
    unfold cross. apply eq_subrelation; [apply _|]. ring.
  - destruct (decide (t = o - k)) as [|Hne]; [by left|]. right. intros v.
    assert (k + 1 ≤ o - k) as Hko by (unfold t in Hne; lia). 
    assert (t = (k + 1) + (if k <? m then k + 1 else m)) as -> by (unfold t in *; rewrite LsA, LsB in *; destruct (k <? m); lia).
    by apply cross_small.
Qed.

(** The shifted parts are added and the result is extended. *)
Definition final_part (useSign : bool) (mulLeft mulSum mulRight : LinkList) : st SubnetBuilder LinkList :=
  zero ← addGate ZERO [];
  let zeroesK := replicate k zero in
  let mulSum := zeroesK ++ mulSum in
  let realInputSize := if useSign then n else 2 * n in
  mulLeft ← (if negb (length mulRight =? 0) && (2 * k <? o) then
               synthLadnerFisherAdd mulLeft (take realInputSize (zeroesK ++ zeroesK ++ mulRight))
                 (min realInputSize o) false false
             else mret mulLeft);
  outputs ← synthLadnerFisherAdd mulLeft mulSum (min realInputSize o) false false;
  if length outputs <? o then
    x ← (if useSign then back outputs else mret zero);
    mret (outputs ++ replicate (o - length outputs) x)
  else mret outputs.

(** The sum of the lower and the higher product. *)
Lemma outer_sum_spec w rs b mulLeft mulRight zero : wf b ins outs → w ≤ o → w ≤ rs → 0 < w → 0 < rs < 2 ^ 15 →
  residue b mulLeft o (λ v, x0 v * y0 v)%Z → 0 < length mulLeft < 2 ^ 15 →
  (length mulRight = 0 → m ≤ k) → residue b mulRight (o - k) (λ v, x1 v * y1 v)%Z → denotes b zero (λ _, false) →
  adds ins outs b (if negb (length mulRight =? 0) && (2 * k <? o) then
      synthLadnerFisherAdd mulLeft (take rs (replicate k zero ++ replicate k zero ++ mulRight)) w false false
    else mret mulLeft)
    (λ b' r, 0 < length r < 2 ^ 15 ∧ residue b' r w (λ v, x0 v * y0 v + 2 ^ Z.of_nat k * 2 ^ Z.of_nat k * (x1 v * y1 v))%Z).
Proof using Hlong Ho HB Hor.
  clear IH. intros Hw Hwo Hwr H0 Hrs Rl Ll Lr Rr Dz. destruct half as [Hk H3], part_lengths as (_ & _ & _ & L3), small_widths as [W15 W16].
  fold n in Ho. pose proof (residue_le _ _ _ w _ Hwo Rl) as Rl'. destruct (_ && _) eqn:Ec.
  - apply andb_true_iff in Ec as [Em%negb_true_iff%Nat.eqb_neq Ek%Nat.ltb_lt].
    eapply adds_mono; [apply (residue_sum ins outs b mulLeft _ w w (λ v, x0 v * y0 v)%Z (λ v, 2 ^ Z.of_nat k * 2 ^ Z.of_nat k * (x1 v * y1 v))%Z Hw Rl')|].
    + pose proof (residue_shift b _ _ k zero _ (residue_shift b _ _ k zero _ Rr Dz) Dz) as Rs.
      apply (residue_take _ _ w rs); [|done]. eapply residue_le; [|eapply residue_eq; [|exact Rs]]; [lia|].
      intros v _. cbv beta. apply eq_subrelation; [apply _|]. ring.
    + done.
    + rewrite length_take, !length_app, length_replicate. lia.
    + lia.
    + by left.
    + intros r b' _ [Lr' R']. split; [lia|exact R'].
  - apply adds_ret; [done|]. split; [done|]. eapply residue_eq; [|exact Rl']. intros v _. cbv beta.
    enough (cong w (2 ^ Z.of_nat k * 2 ^ Z.of_nat k * (x1 v * y1 v)) 0) as -> by by rewrite Z.add_0_r.
    apply andb_false_iff in Ec as [Em%negb_false_iff%Nat.eqb_eq|Ek%Nat.ltb_ge].
    + specialize (Lr Em). unfold y1. rewrite (nil_length_inv RB) by lia. cbn. by rewrite !Z.mul_0_r.
    + rewrite <- Z.pow_add_r, <- Nat2Z.inj_add by lia. apply cong_shift_zero. lia.
Qed.

Lemma final_part_spec useSign b mulLeft mulSum mulRight : wf b ins outs →
  residue b mulLeft o (λ v, x0 v * y0 v)%Z → 0 < length mulLeft < 2 ^ 15 →
  0 < length mulSum ≤ o - k → residue b mulSum (o - k) cross →
  (length mulRight = 0 → m ≤ k) → residue b mulRight (o - k) (λ v, x1 v * y1 v)%Z →
  multiplies useSign As Bs o b (final_part useSign mulLeft mulSum mulRight).
Proof using Hlong Ho HB Hor.
  clear IH. intros Hw Rl Ll Lm Rm Lr Rr. destruct half as [Hk H3], small_widths as [W15 W16]. fold n in Ho. fold n m in Hor.
  unfold multiplies, final_part. fold n. set (rs := if useSign then n else 2 * n).
  assert (0 < rs < 2 ^ 15 ∧ n ≤ rs) as [Hrs Hnr] by (unfold rs; fold n in Hlong; destruct useSign; lia).
  set (w := min rs o). assert (0 < w ≤ o ∧ w ≤ rs) as [Hwo Hwr] by lia.
  eapply adds_bind; [by apply add_zero|]. intros zero b1 Hw1 E1 Dz.
  eapply adds_bind.
  { apply (outer_sum_spec w rs b1 mulLeft mulRight zero); try done; [lia|lia|by eapply residue_ext|by eapply residue_ext]. }
  intros ml b2 Hw2 E2 [Ll2 Rl2]. apply (denotes_ext _ _ _ _ E2) in Dz.
  assert (residue b2 mulSum (o - k) cross) as Rm2 by (eapply residue_ext; [|exact Rm]; by etransitivity).
  pose proof (residue_shift b2 _ _ k zero _ Rm2 Dz) as Rs.
  eapply adds_bind.
  { apply (residue_sum ins outs b2 ml (replicate k zero ++ mulSum) w w _ (λ v, 2 ^ Z.of_nat k * cross v)%Z Hw2 Rl2).
    - eapply residue_le; [|exact Rs]. lia.
    - lia.
    - rewrite length_app, length_replicate. lia.
    - lia.
    - by left. }
  intros r b3 Hw3 E3 [Lr3 Rr3].
  assert (residue b3 r w (product As Bs)) as Rp.
  { eapply residue_eq; [|exact Rr3]. intros v _. cbv beta. rewrite product_split. apply eq_subrelation; [apply _|]. ring. }
  assert (useSign = true → w = n) as Hsign by (intros E; unfold w, rs; rewrite E; lia).
  eapply adds_mono.
  - apply (extend_product ins outs useSign r o w (product As Bs)); [done|done|done|done| |].
    + intros E Hlt v _. apply product_bound. fold n m. unfold w, rs in *. rewrite E in *. lia.
    + destruct useSign.
      * eapply adds_mono; [apply (back_of_product ins outs r w (product As Bs)); (done || lia)|]. intros l b4 _ [-> D]. exact D.
      * apply adds_ret; [done|]. by apply (denotes_ext _ _ _ _ E3).
  - intros r' b4 _ D. eapply denotes_all_eq; [|exact D]. intros v. destruct useSign; [by rewrite Hsign|done].
Qed.
End Step.

(** *** The recursion *)

Lemma sub16_small a c : c ≤ a < 2 ^ 16 → sub16 a c = a - c.
Proof.
  intros Hc. unfold sub16. rewrite Z.mod_small; [lia|]. change (2 ^ 16)%Z with (Z.of_nat (2 ^ 16)). lia.
Qed.

(** The parts of a step in the order of the code. *)
Lemma karatsuba_step fuel As Bs o useSign b :
  let n := length As in let m := length Bs in let k := n / 2 + n mod 2 in
  let K a c e := synthKaratsubaMultiplyer_fuel fuel a c e false in
  5 ≤ n < 2 ^ 14 → n ≤ o < 2 ^ 14 → m < 2 ^ 14 →
  synthKaratsubaMultiplyer_fuel (S fuel) As Bs o useSign b =
  (mulLeft ← K (take k As) (take (min k m) Bs) (min (length (take k As) + length (take (min k m) Bs)) o);
   sumA ← synthLadnerFisherAdd (take k As) (drop k As) (min (k + 1) (o - k)) false false;
   r ← right_part As Bs o K;
   mulSum ← middle_part As Bs o K mulLeft sumA r.1 r.2;
   final_part As o useSign mulLeft mulSum r.2) b.
Proof.
  intros n m k K Hn Ho Hm. destruct small_widths as [W15 W16].
  assert (2 * k = n ∨ 2 * k = n + 1) as Hk.
  { unfold k. pose proof (Nat.div_mod_eq n 2). pose proof (Nat.mod_upper_bound n 2). lia. }
  cbn [synthKaratsubaMultiplyer_fuel]. fold n m k. rewrite (proj2 (Nat.eqb_neq o 1)), (proj2 (Nat.leb_gt n 4)) by lia.
  cbv zeta. rewrite (u16_small k), (u16_small m), (u16_small n), (u16_small (2 * n)), (u16_small (k + 1)), (sub16_small o k) by lia.
  rewrite (u16_small (length (drop k As) + length (drop k Bs))) by (rewrite !length_drop; fold n m; lia).
  rewrite (u16_small (length (take k As) + length (take (min k m) Bs))) by (rewrite !length_take; fold n m; lia).
  unfold right_part, middle_part, final_part, K. fold n m k. unfold mbind, mret, st_bind, st_ret. cbv beta iota zeta.
  do 2 (match goal with |- match ?x with _ => _ end = _ => destruct x as [[? ?]|]; [|done] end).
  match goal with |- match ?x with _ => _ end = _ => destruct x as [[[sumB mulRight] b1]|]; [|done] end. cbn [fst snd].
  do 3 (match goal with |- match ?x with _ => _ end = _ => destruct x as [[? ?]|]; [|done] end).
  match goal with |- match ?x with _ => _ end = _ => destruct x as [[? ?]|]; done end.
Qed.

Lemma product_bit x y v : product [x] [y] v = Z.b2z (lval v x && lval v y).
Proof. unfold product. cbn. by destruct (lval v x), (lval v y). Qed.

Lemma adds_run_eq {A} (m m' : st SubnetBuilder A) b Q : m b = m' b → adds ins outs b m' Q → adds ins outs b m Q.
Proof. unfold adds, wp. by intros ->. Qed.

(** Karatsuba's recursion ends within the fuel of the definition. *)
Lemma karatsuba_fuel_spec fuel : ∀ As Bs o useSign b, wf b ins outs → operands As Bs o b → length As ≤ fuel →
  multiplies useSign As Bs o b (synthKaratsubaMultiplyer_fuel fuel As Bs o useSign).
Proof.
  induction fuel as [|fuel IH]; intros As Bs o useSign b Hw Hop Hf; [pose proof (op_pos _ _ _ _ Hop); lia|].
  destruct (decide (o = 1)) as [->|H1].
  { destruct Hop as [Ha Hb [La Lb] Ho _ Hone]. specialize (Hone eq_refl).
    assert (length As = 1) as LA1 by lia. clear La Lb Ho.
    destruct As as [|x [|]]; [discriminate LA1| |discriminate LA1]. destruct Bs as [|y [|]]; [discriminate Hone| |discriminate Hone].
    assert (src b x ∧ src b y) as [Sx Sy] by (split; [by inversion Ha|by inversion Hb]). unfold multiplies. cbn [synthKaratsubaMultiplyer_fuel]. change (1 =? 1) with true.
    eapply adds_read_bind; [done|]. eapply adds_read_bind; [done|].
    eapply adds_bind; [exact (add_and b ins outs x y _ _ Hw (denotes_self _ _ Sx) (denotes_self _ _ Sy))|].
    intros l b1 Hw1 _ [Sl Dl]. apply adds_ret; [done|]. split; [by constructor|]. intros v Hv. cbn. rewrite (Dl v Hv), product_bit.
    by destruct useSign, (lval v x), (lval v y). }
  destruct (decide (length As ≤ 4)) as [H4|H4].
  { cbn [synthKaratsubaMultiplyer_fuel]. rewrite (proj2 (Nat.eqb_neq o 1)), (proj2 (Nat.leb_le _ 4)) by done.
    by apply synthSimpleMultipyer_spec. }
  destruct Hop as [Ha Hb [La Lb] Ho Hlong Hone]. assert (5 ≤ length As) as H5 by lia.
  unfold multiplies. eapply adds_run_eq; [apply karatsuba_step; lia|]. cbv zeta.
  set (K := λ a c e, synthKaratsubaMultiplyer_fuel fuel a c e false).
  assert (∀ As' Bs' o' b, wf b ins outs → operands As' Bs' o' b → length As' < length As → multiplies false As' Bs' o' b (K As' Bs' o')) as HK.
  { intros As' Bs' o' b' Hw' Hop' Hlt. apply IH; [done|done|lia]. }
  destruct (half As Bs o H5 Ho Lb Hlong) as [Hk H3], (part_lengths As Bs o H5 Ho Lb Hlong) as (L0 & L1 & L2 & L3).
  destruct (parts_srcs As Bs b Ha Hb) as (S0 & S1 & S2 & S3).
  set (k := length As / 2 + length As mod 2) in *. set (m := length Bs) in *.
  eapply adds_bind; [apply (sub_product As Bs o K H5 Ho Lb Hlong HK (take k As) (take (min k m) Bs) o b Hw S0 S2); lia|].
  intros mulLeft b1 Hw1 E1 [Ll Rl].
  eapply adds_bind; [exact (sumA_spec As Bs o H5 Ho Lb Hlong b1 Hw1 (srcs_ext _ _ _ E1 Ha))|].
  intros sumA b2 Hw2 E2 [LsA RsA]. assert (ext b b2) as E02 by by etransitivity.
  eapply adds_bind; [exact (right_part_spec As Bs o K H5 Ho Lb Hlong HK b2 Hw2 (srcs_ext _ _ _ E02 Ha) (srcs_ext _ _ _ E02 Hb))|].
  intros [sumB mulRight] b3 Hw3 E3 (LsB & RsB & Lr & Rr). cbn [fst snd] in *. fold k in LsA, LsB, Lr. fold m in LsB, Lr.
  assert (residue b3 mulLeft o (product (take k As) (take (min k m) Bs))) as Rl3 by (eapply residue_ext; [|exact Rl]; by etransitivity).
  assert (0 < length mulLeft < 2 ^ 15) as Pl by (destruct small_widths; lia).
  eapply adds_bind.
  { apply (middle_part_spec As Bs o K H5 Ho Lb Hlong HK b3 mulLeft sumA sumB mulRight Hw3 Rl3); [lia|done|by eapply residue_ext|done|done| |done].
    intros Hne. fold k in Hne. rewrite Lr. destruct (Nat.ltb_spec k m); lia. }
  intros mulSum b4 Hw4 E4 [Lm Rm].
  apply (final_part_spec As Bs o H5 Ho Lb Hlong useSign b4 mulLeft mulSum mulRight Hw4); [by eapply residue_ext|done|done|done| |by eapply residue_ext].
  fold m k. destruct (Nat.ltb_spec k m); lia.
Qed.

(** The multiplier returns the bits of the product of its operands. *)
Lemma synthKaratsubaMultiplyer_spec As Bs o useSign b : wf b ins outs → operands As Bs o b →
  multiplies useSign As Bs o b (synthKaratsubaMultiplyer As Bs o useSign).
Proof. intros Hw Hop. by apply karatsuba_fuel_spec. Qed.
End Multipliers.
