(* ===== verification/MultiplierSynth.v ===== *)
(** * The subnets of the multiplications

    The unsigned and the signed multiplication compute the product modulo two to the
    width of the result, when the result is not narrower than an operand. *)

From S2P Require Import Prelude CellType SubnetBase Builder BuilderInv BuilderSpec BuilderEval MakeSpec CellAttr.
From S2P Require Import BuilderCorrect Adder AdderSum AdderArith AdderCorrect Synth SynthArith SynthBits Multiplier MultiplierSpec MultiplierCorrect.
From stdpp Require Import gmap strings.

Lemma sext_bits_of n o z : 0 < n ≤ o → (- 2 ^ (Z.of_nat n - 1) ≤ z < 2 ^ (Z.of_nat n - 1))%Z →
  sext (bits_of n z) o = bits_of o z.
Proof.
  intros Hn Hz. set (l := bits_of n z). assert (length l = n) as Ll by apply bits_of_length.
  assert (Z_of_sbits l = z) as Es.
  { apply Z_of_sbits_small; [lia| |by rewrite Ll]. rewrite Ll. apply Z_of_bits_of. }
  apply bits_of_eq; [rewrite sext_length; lia|].
  assert (length (sext l o) = o) as Lo by (rewrite sext_length; lia).
  rewrite <- (Z_of_word_mod true (sext l o)). cbn [Z_of_word]. by rewrite sext_value, Es, Lo by lia.
Qed.

(** A signed product of [2 * m] bits. *)
Lemma sbits_product_bound x y m : 0 < length x ≤ m → 0 < length y ≤ m →
  (- 2 ^ (Z.of_nat (2 * m) - 1) ≤ Z_of_sbits x * Z_of_sbits y < 2 ^ (Z.of_nat (2 * m) - 1))%Z.
Proof.
  intros Hx Hy. pose proof (Z_of_sbits_bound x ltac:(lia)) as Bx. pose proof (Z_of_sbits_bound y ltac:(lia)) as By.
  assert (2 ^ (Z.of_nat (length x) - 1) ≤ 2 ^ (Z.of_nat m - 1))%Z by (apply Z.pow_le_mono_r; lia).
  assert (2 ^ (Z.of_nat (length y) - 1) ≤ 2 ^ (Z.of_nat m - 1))%Z by (apply Z.pow_le_mono_r; lia).
  assert (2 ^ (Z.of_nat (2 * m) - 1) = 2 * (2 ^ (Z.of_nat m - 1) * 2 ^ (Z.of_nat m - 1)))%Z as ->.
  { rewrite <- Z.pow_add_r, <- Z.pow_succ_r by lia. f_equal. lia. }
  set (h := (2 ^ (Z.of_nat m - 1))%Z) in *. assert (0 < h)%Z by (unfold h; lia). nia.
Qed.

(** The product of sign-extended words, modulo the width. *)
Lemma extended_product x y n : 0 < length x ≤ n → 0 < length y ≤ n →
  bits_of n (Z_of_bits (sext x n) * Z_of_bits (sext y n)) = bits_of n (Z_of_sbits x * Z_of_sbits y).
Proof.
  intros Hx Hy. apply bits_of_eq; [apply bits_of_length|]. rewrite Z_of_bits_of.
  assert (∀ l, 0 < length l ≤ n → cong n (Z_of_bits (sext l n)) (Z_of_sbits l)) as Hc.
  { intros l Hl. rewrite <- (sext_value l n) by lia. assert (length (sext l n) = n) as L by (rewrite sext_length; lia).
    rewrite <- (Z_of_word_mod true (sext l n)), L. cbn [Z_of_word]. by apply cong_mod. }
  change (cong n (Z_of_bits (sext x n) * Z_of_bits (sext y n)) (Z_of_sbits x * Z_of_sbits y)). by rewrite !Hc.
Qed.

Lemma wp_assoc3 {A B C D} b (m : st SubnetBuilder A) (f : A → st SubnetBuilder B) (h : A → B → st SubnetBuilder C)
    (g : C → st SubnetBuilder D) Q :
  wp ((m ≫= λ a, f a ≫= h a) ≫= g) b Q → wp (m ≫= λ a, f a ≫= λ c, h a c ≫= g) b Q.
Proof.
  intros (d & b' & E & HQ). exists d, b'. split; [|done]. revert E. unfold mbind, st_bind.
  destruct (m b) as [[a b1]|]; [|done]. by destruct (f a b1) as [[c b2]|].
Qed.

Section Signed.
Context `{TypeStore}.
Context (ins outs : list nat).

Lemma sext_adds x n c b : wf b ins outs → srcs b x → 0 < length x ≤ n → c = (length x <? n) →
  adds ins outs b (if c then s ← back x; mret (resize_links n s x) else mret x)
    (λ b' r, b' = b ∧ srcs b r ∧ length r = n ∧ ∀ v, word v r = sext (word v x) n).
Proof.
  intros Hw Hs Hl ->. destruct (sext_spec x n b ins outs Hw Hs) as (r & E & Hr & Lr & Vr); [lia|].
  exists r, b. split; [exact E|]. split_all; try done. lia.
Qed.

(** The operands of the signed multiplication, extended, and their product. *)
Lemma signed_product_spec x y o b : wf b ins outs → srcs b x → srcs b y → 0 < length y ≤ length x → length x ≤ o < 2 ^ 14 →
  adds ins outs b (
    inputsForA ← (if length x <? o then s ← back x; mret (resize_links (min (u16 o) (u16 (2 * length x))) s x) else mret x);
    inputsForB ← (if negb (length inputsForA =? length y) then
                    s ← back y; mret (resize_links (length inputsForA) s y) else mret y);
    synthKaratsubaMultiplyer inputsForA inputsForB o true)
  (λ b' r, denotes_all b' r (λ v, bits_of o (Z_of_sbits (word v x) * Z_of_sbits (word v y)))).
Proof.
  intros Hw Hx Hy Ly Lx. destruct small_widths as [W15 W16]. rewrite !u16_small by lia.
  set (n := min o (2 * length x)). assert (length x ≤ n ≤ o) as Hn by lia.
  eapply adds_bind; [apply (sext_adds x n _ b Hw Hx); [lia|]|].
  { destruct (Nat.ltb_spec (length x) o), (Nat.ltb_spec (length x) n); lia. }
  intros x' b1 Hw1 _ (-> & Hx' & Lx' & Vx').
  eapply adds_bind; [rewrite Lx'; apply (sext_adds y n _ b Hw Hy); [lia|]|].
  { destruct (Nat.eqb_spec n (length y)), (Nat.ltb_spec (length y) n); (done || lia). }
  intros y' b1 _ _ (-> & Hy' & Ly' & Vy').
  eapply adds_mono; [apply (synthKaratsubaMultiplyer_spec ins outs x' y' o true b Hw); split; (done || lia)|].
  intros r b' _ D. eapply denotes_all_eq; [|exact D]. intros v. cbn [product_word]. rewrite Lx'. unfold product. rewrite Vx', Vy'.
  rewrite extended_product by (rewrite word_length; lia). destruct (decide (n = o)) as [->|Hne].
  - unfold sext. by rewrite bits_of_length, Nat.sub_diag, app_nil_r.
  - assert (n = 2 * length x) as -> by lia. apply sext_bits_of; [lia|]. apply sbits_product_bound; rewrite word_length; lia.
Qed.
End Signed.

Section Subnets.
Context `{TypeStore}.
Context (attr : CellTypeAttr) (wA wB wO : N).
Context (HA : getInWidth attr 0 = Some wA) (HB : getInWidth attr 1 = Some wB).
Context (HO : getOutWidth attr 0 = Some wO).
Context (RA : 0 < N.to_nat wA ≤ N.to_nat wO) (RB : 0 < N.to_nat wB ≤ N.to_nat wO) (RO : N.to_nat wO < 2 ^ 14).

Let nA := N.to_nat wA.
Let nB := N.to_nat wB.
Let nO := N.to_nat wO.

Lemma synthMulU_spec : ∃ s, synthMulU attr = Some s ∧
  implements s (nA + nB) (λ xs, bits_of nO (Z_of_bits (take nA xs) * Z_of_bits (drop nA xs))).
Proof.
  apply run_implements. eapply wp_in_width; [exact HA|]. eapply wp_in_width; [exact HB|]. eapply wp_out_width; [exact HO|].
  fold nA nB nO in RA, RB, RO |- *. eapply wp_two_inputs; [lia|lia|].
  intros x y b ins Hw He Hn Hx Hy Lx Ly Vx Vy.
  set (As := if nA <? nB then y else x). set (Bs := if nA <? nB then x else y).
  assert (∀ {B} (k : LinkList → LinkList → st SubnetBuilder B),
    (let '(a, c) := if nA <? nB then (y, x) else (x, y) in k a c) = k As Bs) as E by (intros; unfold As, Bs; by destruct (nA <? nB)).
  rewrite E. assert (operands As Bs nO b) as Hop.
  { unfold As, Bs. destruct (Nat.ltb_spec nA nB); split; (done || lia). }
  eapply wp_adds; [done|by apply synthKaratsubaMultiplyer_spec|]. intros r b' Hw' He' _ D.
  eapply (wp_finish b' ins r _ nO); [done|done|done|exact D|lia| |].
  - intros v. apply product_word_length, Hop.
  - intros v. cbn [product_word]. f_equal. rewrite <- Vx, <- Vy. unfold product, As, Bs. destruct (nA <? nB); [apply Z.mul_comm|done].
Qed.

Lemma synthMulS_spec : ∃ s, synthMulS attr = Some s ∧
  implements s (nA + nB) (λ xs, bits_of nO (Z_of_sbits (take nA xs) * Z_of_sbits (drop nA xs))).
Proof.
  apply run_implements. eapply wp_in_width; [exact HA|]. eapply wp_in_width; [exact HB|]. eapply wp_out_width; [exact HO|].
  fold nA nB nO in RA, RB, RO |- *. eapply wp_two_inputs; [lia|lia|].
  intros x y b ins Hw He Hn Hx Hy Lx Ly Vx Vy.
  assert (∀ x y a c f, srcs b x → srcs b y → length x = a → length y = c → 0 < c ≤ a → a ≤ nO →
    (∀ v, bits_of nO (Z_of_sbits (word v x) * Z_of_sbits (word v y)) = f ((λ i, v i 0) <$> ins)) →
    wp (inputsForA ← (if a <? nO then s ← back x; mret (resize_links (min (u16 nO) (u16 (2 * a))) s x) else mret x);
        inputsForB ← (if negb (length inputsForA =? c) then
                    s ← back y; mret (resize_links (length inputsForA) s y) else mret y);
        r ← synthKaratsubaMultiplyer inputsForA inputsForB nO true; addOutputs r) b (finished (nA + nB) f)) as Hbody.
  { clear x y Hx Hy Lx Ly Vx Vy. intros x y a c f Hx Hy <- <- Hc Ha Hf.
    apply (wp_assoc3 b _ (λ inputsForA, if negb (length inputsForA =? length y) then _ else _)
      (λ inputsForA inputsForB, synthKaratsubaMultiplyer inputsForA inputsForB nO true)).
    eapply wp_adds; [done|exact (signed_product_spec ins [] x y nO b Hw Hx Hy Hc (conj Ha RO))|].
    intros r b' Hw' He' _ D. eapply (wp_finish b' ins r _ nO); [done|done|done|exact D|lia| |].
    - intros v. apply bits_of_length.
    - intros v. apply Hf. }
  destruct (Nat.ltb_spec nA nB).
  - apply Hbody; [done|done|done|done|lia|lia|]. intros v. rewrite <- Vx, <- Vy. by rewrite Z.mul_comm.
  - apply Hbody; [done|done|done|done|lia|lia|]. intros v. by rewrite <- Vx, <- Vy.
Qed.
End Subnets.

(** ** The multipliers on a builder *)

Section Theorems.
Context `{TypeStore}.

(** Karatsuba's multiplier ends on every reachable builder and returns [o] links
    that denote the product of the operands modulo [2 ^ o], for results that
    are not narrower than an operand. *)
Theorem karatsuba_multiplies b ins outs x y o : reachable (b, ins, outs) → srcs b x → srcs b y →
  0 < length y ≤ length x → length x ≤ o < 2 ^ 14 →
  ∃ r b', synthKaratsubaMultiplyer x y o false b = Some (r, b') ∧ ext b b' ∧
    denotes_number b' r o (λ v, (Z_of_bits (word v x) * Z_of_bits (word v y))%Z).
Proof.
  intros Hr Hx Hy Ly Lx. pose proof (reachable_wf _ _ _ Hr) as Hw.
  destruct (synthKaratsubaMultiplyer_spec ins outs x y o false b Hw) as (r & b' & E & Hw' & He & D); [split; (done || lia)|].
  exists r, b'. split_all; [done|done|]. by apply (denotes_all_number b' ins outs).
Qed.

Lemma adder_no_width x y us sub b : length x < 2 ^ 16 → synthLadnerFisherAdd x y 0 us sub b = None.
Proof. intros _. unfold synthLadnerFisherAdd. by destruct (order_operands x y) as [p q]. Qed.

(** Products of exactly half the width of the longer operand (rounded up) are
    not built: the recursion adds the halves of the operand to no bits at all. *)
Theorem narrow_product_fails x y useSign b : 5 ≤ length x < 2 ^ 14 →
  synthKaratsubaMultiplyer x y (length x / 2 + length x mod 2) useSign b = None.
Proof.
  intros Hx. unfold synthKaratsubaMultiplyer. destruct (length x) as [|n] eqn:En; [lia|].
  set (k := S n / 2 + S n mod 2). assert (2 * k = S n ∨ 2 * k = S n + 1) as Hk.
  { unfold k. pose proof (Nat.div_mod_eq (S n) 2). pose proof (Nat.mod_upper_bound (S n) 2). lia. }
  cbn [synthKaratsubaMultiplyer_fuel]. rewrite En, (proj2 (Nat.eqb_neq k 1)), (proj2 (Nat.leb_gt _ 4)) by lia. fold k.
  destruct small_widths as [W15 W16]. cbv zeta. rewrite (u16_small k), (sub16_small k k), Nat.sub_diag, (Nat.min_0_r (u16 (k + 1))) by lia.
  unfold mbind, st_bind. destruct (synthKaratsubaMultiplyer_fuel n (take k x) _ _ _ b) as [[mulLeft b1]|]; [|done].
  rewrite adder_no_width; [done|]. rewrite length_take. lia.
Qed.

Lemma one_bit_product x y useSign b ins outs : wf b ins outs → srcs b x → srcs b y → 0 < length x → 0 < length y →
  adds ins outs b (synthKaratsubaMultiplyer x y 1 useSign) (λ b' r, denotes_all b' r (λ v, [msb (word v x) && msb (word v y)])).
Proof.
  intros Hw Hx Hy Lx Ly.
  destruct (denotes_back b x _ (denotes_all_word b x Hx)) as (p & Ep & Dp); [done|intros; apply word_length|].
  destruct (denotes_back b y _ (denotes_all_word b y Hy)) as (q & Eq & Dq); [done|intros; apply word_length|].
  unfold synthKaratsubaMultiplyer. destruct (length x) as [|n]; [lia|]. cbn [synthKaratsubaMultiplyer_fuel].
  change (1 =? 1) with true. cbv iota. eapply adds_read_bind; [exact Ep|]. eapply adds_read_bind; [exact Eq|].
  eapply adds_bind; [exact (add_and b ins outs p q _ _ Hw Dp Dq)|]. intros l b1 Hw1 _ [Sl Dl]. apply adds_ret; [done|].
  split; [by constructor|]. intros v Hv. cbn. by rewrite (Dl v Hv).
Qed.

(** The one bit of a product of one bit is the product of the highest bits of
    the operands, not of the lowest ones. *)
Theorem synthMulU_one_bit attr wA wB : getInWidth attr 0 = Some wA → getInWidth attr 1 = Some wB → getOutWidth attr 0 = Some 1%N →
  0 < N.to_nat wA → 0 < N.to_nat wB →
  ∃ s, synthMulU attr = Some s ∧ implements s (N.to_nat wA + N.to_nat wB) (λ xs,
    [msb (take (N.to_nat wA) xs) && msb (drop (N.to_nat wA) xs)]).
Proof.
  intros HA HB HO RA RB. apply run_implements. eapply wp_in_width; [exact HA|]. eapply wp_in_width; [exact HB|]. eapply wp_out_width; [exact HO|].
  eapply wp_two_inputs; [done|done|]. intros x y b ins Hw He Hn Hx Hy Lx Ly Vx Vy.
  set (As := if N.to_nat wA <? N.to_nat wB then y else x). set (Bs := if N.to_nat wA <? N.to_nat wB then x else y).
  assert (∀ {B} (k : LinkList → LinkList → st SubnetBuilder B),
    (let '(a, c) := if N.to_nat wA <? N.to_nat wB then (y, x) else (x, y) in k a c) = k As Bs) as E by (intros; unfold As, Bs; by destruct (_ <? _)).
  rewrite E. assert (srcs b As ∧ srcs b Bs ∧ 0 < length As ∧ 0 < length Bs) as (Ha & Hb & La & Lb).
  { unfold As, Bs. destruct (_ <? _); split_all; (done || lia). }
  change (N.to_nat 1) with 1. eapply wp_adds; [done|by apply one_bit_product|]. intros r b' Hw' He' _ D.
  eapply (wp_finish b' ins r _ 1); [done|done|done|exact D|lia|done|].
  intros v. cbv beta. rewrite <- Vx, <- Vy. unfold As, Bs. destruct (_ <? _); [by rewrite andb_comm|done].
Qed.
End Theorems.

(** ** Witnesses *)

Section Witnesses.
#[local] Existing Instance no_types.

Lemma karatsuba_multiplies_witness : ∃ r b',
  synthKaratsubaMultiplyer [LinkTo 0; LinkTo 1] [LinkTo 1] 4 false (demo 2) = Some (r, b') ∧ ext (demo 2) b' ∧
  denotes_number b' r 4 (λ v, (Z_of_bits (word v [LinkTo 0; LinkTo 1]) * Z_of_bits (word v [LinkTo 1]))%Z).
Proof.
  destruct demo_word as [S _]. apply (karatsuba_multiplies _ _ _ _ _ 4 demo2_reachable S); [|cbn [length]; lia|].
  - apply Forall_cons_1 in S as [_ S]. exact S.
  - cbn [length]. pose proof (Nat.pow_gt_lin_r 2 14). lia.
Defined.

Lemma narrow_product_fails_witness : synthKaratsubaMultiplyer (replicate 5 (LinkTo 0)) [LinkTo 1; LinkTo 0] 3 false (demo 2) = None.
Proof.
  apply (narrow_product_fails (replicate 5 (LinkTo 0))). cbn [length replicate]. pose proof (Nat.pow_gt_lin_r 2 14). lia.
Defined.

Lemma synthMulU_one_bit_witness : ∃ s, synthMulU (attr_of [2; 2] [1]) = Some s ∧
  implements s 4 (λ xs, [msb (take 2 xs) && msb (drop 2 xs)]).
Proof. apply (synthMulU_one_bit (attr_of [2; 2] [1]) 2%N 2%N eq_refl eq_refl eq_refl); apply Nat.lt_0_2. Defined.
End Witnesses.
