(* ===== verification/Synthesizer.v ===== *)
(** * The synthesizer of soft blocks ([gate/synthesizer/synthesizer.cpp])

    The choice of the routine by the symbol of a cell type, and what the subnet
    of every numeric operation computes. *)

From S2P Require Import Prelude ObjectId CellType SubnetBase Builder BuilderInv BuilderSpec BuilderEval MakeSpec CellAttr Adder AdderSum.
From S2P Require Import AdderArith Synth SynthArith SynthBits Comparison ComparisonCorrect Shift ShiftSpec Multiplier MultiplierSpec MultiplierCorrect MultiplierSynth.
From stdpp Require Import gmap strings.

(** ** Definitions *)

(** The result [OBJ_NULL_ID] of an unsupported operation is [Some None]; a failed
    assertion is [None]. *)
Section Routines.
Context `{TypeStore}.

Definition made (r : option Subnet) : option (option Subnet) := Some <$> r.

(* gate/synthesizer/operation/division.cpp:13-15 [synthDivS] *)
Definition synthDivS (attr : CellTypeAttr) : option (option Subnet) := Some None.
(* gate/synthesizer/operation/division.cpp:17-19 [synthDivU] *)
Definition synthDivU (attr : CellTypeAttr) : option (option Subnet) := Some None.
(* gate/synthesizer/operation/division.cpp:21-23 [synthRemS] *)
Definition synthRemS (attr : CellTypeAttr) : option (option Subnet) := Some None.
(* gate/synthesizer/operation/division.cpp:25-27 [synthRemU] *)
Definition synthRemU (attr : CellTypeAttr) : option (option Subnet) := Some None.
(* gate/synthesizer/operation/division.cpp:29-31 [synthModS] *)
Definition synthModS (attr : CellTypeAttr) : option (option Subnet) := Some None.

(* gate/synthesizer/synthesizer.cpp:28-90 [synthImpl] *)
Definition synthImpl (type : CellType) : option (option Subnet) :=
  a ← attr type;
  match symbol type with
  | BNOTs => made (synthBNotS a)
  | BNOTu => made (synthBNotU a)
  | BANDs => made (synthBAndS a)
  | BANDu => made (synthBAndU a)
  | BORs => made (synthBOrS a)
  | BORu => made (synthBOrU a)
  | BXORs => made (synthBXorS a)
  | BXORu => made (synthBXorU a)
  | BNANDs => made (synthBNandS a)
  | BNANDu => made (synthBNandU a)
  | BNORs => made (synthBNorS a)
  | BNORu => made (synthBNorU a)
  | BXNORs => made (synthBXnorS a)
  | BXNORu => made (synthBXnorU a)
  | RAND => made (synthRAnd a)
  | ROR => made (synthROr a)
  | RXOR => made (synthRXor a)
  | RNAND => made (synthRNand a)
  | RNOR => made (synthRNor a)
  | RXNOR => made (synthRXnor a)
  | BMUX => made (synthBMux a)
  | MUX2 => made (synthMux2 a)
  | MUX => made (synthMux a)
  | BDEMUX => made (synthBDemux a)
  | DEMUX2 => made (synthDemux2 a)
  | DEMUX => made (synthDemux a)
  | SHLs => made (synthShlS a)
  | SHLu => made (synthShlU a)
  | SHRs => made (synthShrS a)
  | SHRu => made (synthShrU a)
  | SHIFTs => made (synthShiftS a)
  | SHIFTu => made (synthShiftU a)
  | EQs => made (synthEqS a)
  | EQu => made (synthEqU a)
  | NEQs => made (synthNeqS a)
  | NEQu => made (synthNeqU a)
  | LTs => made (synthLtS a)
  | LTu => made (synthLtU a)
  | LTEs => made (synthLteS a)
  | LTEu => made (synthLteU a)
  | GTs => made (synthGtS a)
  | GTu => made (synthGtU a)
  | GTEs => made (synthGteS a)
  | GTEu => made (synthGteU a)
  | NEGs => made (synthNegS a)
  | NEGu => made (synthNegU a)
  | ADDs => made (synthAddS a)
  | ADDu => made (synthAddU a)
  | SUBs => made (synthSubS a)
  | SUBu => made (synthSubU a)
  | MULs => made (synthMulS a)
  | MULu => made (synthMulU a)
  | DIVs => synthDivS a
  | DIVu => synthDivU a
  | REMs => synthRemS a
  | REMu => synthRemU a
  | MODs => synthModS a
  | _ => Some None
  end.
End Routines.

(** ** The operations as functions of numbers *)

(** The signs of the two operands and the operation. *)
Definition binary_op (s : CellSymbol) : option (bool * bool * (Z → Z → Z)) :=
  let compare r := λ a b, Z.b2z (r a b) in
  match s with
  | BANDs => Some (true, true, Z.land) | BANDu => Some (false, false, Z.land)
  | BORs => Some (true, true, Z.lor) | BORu => Some (false, false, Z.lor)
  | BXORs => Some (true, true, Z.lxor) | BXORu => Some (false, false, Z.lxor)
  | BNANDs => Some (true, true, λ a b, Z.lnot (Z.land a b)) | BNANDu => Some (false, false, λ a b, Z.lnot (Z.land a b))
  | BNORs => Some (true, true, λ a b, Z.lnot (Z.lor a b)) | BNORu => Some (false, false, λ a b, Z.lnot (Z.lor a b))
  | BXNORs => Some (true, true, λ a b, Z.lnot (Z.lxor a b)) | BXNORu => Some (false, false, λ a b, Z.lnot (Z.lxor a b))
  | SHLs => Some (true, false, Z.shiftl) | SHLu => Some (false, false, Z.shiftl)
  | SHRs => Some (true, false, Z.shiftr) | SHRu => Some (false, false, Z.shiftr)
  | SHIFTs => Some (true, true, Z.shiftr) | SHIFTu => Some (false, true, Z.shiftr)
  | EQs => Some (true, true, compare Z.eqb) | EQu => Some (false, false, compare Z.eqb)
  | NEQs => Some (true, true, compare (λ a b, negb (a =? b)%Z)) | NEQu => Some (false, false, compare (λ a b, negb (a =? b)%Z))
  | LTs => Some (true, true, compare Z.ltb) | LTu => Some (false, false, compare Z.ltb)
  | LTEs => Some (true, true, compare Z.leb) | LTEu => Some (false, false, compare Z.leb)
  | GTs => Some (true, true, compare (λ a b, b <? a)%Z) | GTu => Some (false, false, compare (λ a b, b <? a)%Z)
  | GTEs => Some (true, true, compare (λ a b, b <=? a)%Z) | GTEu => Some (false, false, compare (λ a b, b <=? a)%Z)
  | ADDs => Some (true, true, Z.add) | ADDu => Some (false, false, Z.add)
  | SUBs => Some (true, true, Z.sub)
  | MULs => Some (true, true, Z.mul) | MULu => Some (false, false, Z.mul)
  | _ => None
  end.

(** The operation on the bits of the only operand. *)
Definition unary_op (s : CellSymbol) : option (list bool → Z) :=
  match s with
  | BNOTs => Some (λ x, Z.lnot (Z_of_sbits x)) | BNOTu => Some (λ x, Z.lnot (Z_of_bits x))
  | NEGs => Some (λ x, - Z_of_sbits x)%Z | NEGu => Some (λ x, - Z_of_bits x)%Z
  | RAND => Some (λ x, Z.b2z (forallb id x)) | RNAND => Some (λ x, Z.b2z (negb (forallb id x)))
  | ROR => Some (λ x, Z.b2z (existsb id x)) | RNOR => Some (λ x, Z.b2z (negb (existsb id x)))
  | RXOR => Some (λ x, Z.b2z (xor_list x)) | RXNOR => Some (λ x, Z.b2z (negb (xor_list x)))
  | _ => None
  end.

(** The widths the theorems cover: shift amounts of at most three bits, products
    that are not narrower than an operand. *)
Definition widths_ok (s : CellSymbol) (nA nB nO : nat) : Prop :=
  match s with
  | SHLs | SHLu | SHRs | SHRu | SHIFTs | SHIFTu => nB ≤ InPlaceLinks
  | MULs | MULu => nA ≤ nO ∧ nB ≤ nO
  | _ => True
  end.

Section Theorems.
Context `{TypeStore}.

Lemma made_some r (P : Subnet → Prop) : (∃ s, r = Some s ∧ P s) → ∃ s, made r = Some (Some s) ∧ P s.
Proof. intros (s & -> & HP). by exists s. Qed.

Lemma implements_eq s n f g : (∀ xs, length xs = n → f xs = g xs) → implements s n f → implements s n g.
Proof.
  intros E (Hn & Hc & Hx). split; [done|]. split; [|done]. intros v Hv. rewrite (Hc v Hv), E; [done|].
  unfold in_values. by rewrite length_fmap, length_seq.
Qed.

(** The number of the low bits. *)
Lemma bits_of_low se n x : bits_of n (- Z_of_word se (take n x)) = bits_of n (- Z_of_word se x).
Proof.
  destruct (decide (length x ≤ n)) as [Hn|Hn]; [by rewrite take_ge by done|].
  apply bits_of_eq; [apply bits_of_length|]. rewrite Z_of_bits_of.
  assert (∀ y, n ≤ length y → cong n (Z_of_word se y) (Z_of_bits y)) as Hc.
  { intros y Hy. rewrite <- (Z_of_word_mod se y). symmetry. by apply cong_mod. }
  change (cong n (- Z_of_word se (take n x)) (- Z_of_word se x)).
  rewrite !Hc by (rewrite ?length_take; lia). rewrite <- (take_drop n x) at 2.
  rewrite Z_of_bits_app, length_take, Nat.min_l, (cong_shift_zero n n), Z.add_0_r by lia. done.
Qed.

Lemma and_bits a b i : Z.testbit (Z.land a b) (Z.of_nat i) = Z.testbit a (Z.of_nat i) && Z.testbit b (Z.of_nat i).
Proof. apply Z.land_spec. Qed.
Lemma or_bits a b i : Z.testbit (Z.lor a b) (Z.of_nat i) = Z.testbit a (Z.of_nat i) || Z.testbit b (Z.of_nat i).
Proof. apply Z.lor_spec. Qed.
Lemma xor_bits a b i : Z.testbit (Z.lxor a b) (Z.of_nat i) = xorb (Z.testbit a (Z.of_nat i)) (Z.testbit b (Z.of_nat i)).
Proof. apply Z.lxor_spec. Qed.

Lemma and_gate x y : gate_fun AND [x; y] = Some (x && y).
Proof. by destruct x, y. Qed.
Lemma or_gate x y : gate_fun OR [x; y] = Some (x || y).
Proof. by destruct x, y. Qed.
Lemma xor_gate x y : gate_fun XOR [x; y] = Some (xorb x y).
Proof. by destruct x, y. Qed.

(** The subnet of a cell type with two operands, of the given widths. *)
Definition computes2 (r : option Subnet) (nA nB nO : nat) (sa sb : bool) (op : Z → Z → Z) : Prop := ∃ s, r = Some s ∧
  implements s (nA + nB) (λ xs, bits_of nO (op (Z_of_word sa (take nA xs)) (Z_of_word sb (drop nA xs)))).

Section Binary.
Context (type : CellType) (a : CellTypeAttr) (wA wB wO : N).
Context (Ha : attr type = Some a).
Context (HA : getInWidth a 0 = Some wA) (HB : getInWidth a 1 = Some wB) (HO : getOutWidth a 0 = Some wO).
Context (RA : 0 < N.to_nat wA < 2 ^ 14) (RB : 0 < N.to_nat wB < 2 ^ 14) (RO : 0 < N.to_nat wO < 2 ^ 14).

Lemma bitwise_computes symbol bop zop sg positive : gate_ok symbol 2 = true → (∀ x y, gate_fun symbol [x; y] = Some (bop x y)) →
  (∀ a b i, Z.testbit (zop a b) (Z.of_nat i) = bop (Z.testbit a (Z.of_nat i)) (Z.testbit b (Z.of_nat i))) →
  computes2 (synthBOp2 symbol a sg positive) (N.to_nat wA) (N.to_nat wB) (N.to_nat wO) sg sg (λ x y, Z_positive positive (zop x y)).
Proof using HA HB HO RA RB RO.
  intros Hok Hg Hz. exact (synthBOp2_spec symbol bop zop Hok Hg Hz a wA wB wO sg positive HA HB HO (proj1 RA) (proj1 RB) (proj1 RO)).
Qed.

Lemma compares_computes sg f r : compares wA wB wO sg f r →
  computes2 r (N.to_nat wA) (N.to_nat wB) (N.to_nat wO) sg sg (λ x y, Z.b2z (f x y)).
Proof. done. Qed.

Lemma widths16 n : 0 < n < 2 ^ 14 → 0 < n < 2 ^ 16.
Proof. intros Hn. pose proof (Nat.pow_lt_mono_r 2 14 16). lia. Qed.

(** The theorem of every routine, by its name. *)
Ltac routine_spec Hok :=
  match goal with
  | |- computes2 (synthAddS _) _ _ _ _ _ _ => exact (synthAddS_spec a wA wB wO HA HB HO RA RB RO)
  | |- computes2 (synthAddU _) _ _ _ _ _ _ => exact (synthAddU_spec a wA wB wO HA HB HO RA RB RO)
  | |- computes2 (synthSubS _) _ _ _ _ _ _ => exact (synthSubS_spec a wA wB wO HA HB HO RA RB RO)
  | |- computes2 (synthBOp2 AND _ _ _) _ _ _ _ _ _ => exact (bitwise_computes AND andb Z.land _ _ eq_refl and_gate and_bits)
  | |- computes2 (synthBOp2 OR _ _ _) _ _ _ _ _ _ => exact (bitwise_computes OR orb Z.lor _ _ eq_refl or_gate or_bits)
  | |- computes2 (synthBOp2 XOR _ _ _) _ _ _ _ _ _ => exact (bitwise_computes XOR xorb Z.lxor _ _ eq_refl xor_gate xor_bits)
  | |- computes2 (synthXeqS _ _) _ _ _ _ _ _ => exact (synthXeqS_spec a wA wB wO HA HB HO (widths16 _ RA) (widths16 _ RB) (proj1 RO) _)
  | |- computes2 (synthXeqU _ _) _ _ _ _ _ _ => exact (synthXeqU_spec a wA wB wO HA HB HO (widths16 _ RA) (widths16 _ RB) (proj1 RO) _)
  | |- computes2 (synthXtS _ _) _ _ _ _ _ _ => exact (synthXtS_spec a wA wB wO HA HB HO (widths16 _ RA) (widths16 _ RB) (proj1 RO) _)
  | |- computes2 (synthXtU _ _) _ _ _ _ _ _ => exact (synthXtU_spec a wA wB wO HA HB HO (widths16 _ RA) (widths16 _ RB) (proj1 RO) _)
  | |- computes2 (synthXteS _ _) _ _ _ _ _ _ => exact (synthXteS_spec a wA wB wO HA HB HO (widths16 _ RA) (widths16 _ RB) (proj1 RO) _)
  | |- computes2 (synthXteU _ _) _ _ _ _ _ _ => exact (synthXteU_spec a wA wB wO HA HB HO (widths16 _ RA) (widths16 _ RB) (proj1 RO) _)
  | |- computes2 (synthShl _ _) _ _ _ _ _ _ => exact (synthShl_spec a wA wB wO _ HA HB HO RA (conj (proj1 RB) Hok) RO)
  | |- computes2 (synthShr _ _) _ _ _ _ _ _ => exact (synthShr_spec a wA wB wO _ HA HB HO RA (conj (proj1 RB) Hok) RO)
  | |- computes2 (synthShift _ _) _ _ _ _ _ _ => exact (synthShift_spec a wA wB wO _ HA HB HO RA (conj (proj1 RB) Hok) RO)
  | |- computes2 (synthMulS _) _ _ _ _ _ _ =>
      exact (synthMulS_spec a wA wB wO HA HB HO (conj (proj1 RA) (proj1 Hok)) (conj (proj1 RB) (proj2 Hok)) (proj2 RO))
  | |- computes2 (synthMulU _) _ _ _ _ _ _ =>
      exact (synthMulU_spec a wA wB wO HA HB HO (conj (proj1 RA) (proj1 Hok)) (conj (proj1 RB) (proj2 Hok)) (proj2 RO))
  | |- computes2 ?r _ _ _ _ _ _ => let r' := eval red in r in change r with r'; routine_spec Hok
  end.

Lemma binary_computes sa sb op : binary_op (symbol type) = Some (sa, sb, op) →
  widths_ok (symbol type) (N.to_nat wA) (N.to_nat wB) (N.to_nat wO) →
  ∃ r, synthImpl type = made r ∧ computes2 r (N.to_nat wA) (N.to_nat wB) (N.to_nat wO) sa sb op.
Proof using Ha HA HB HO RA RB RO.
  intros Hop Hok. unfold synthImpl. rewrite Ha.
  cbn [mbind option_bind]. destruct (symbol type); try discriminate Hop; injection Hop as <- <- <-; (eexists; split; [reflexivity|]); routine_spec Hok.
Qed.
End Binary.

(** The subnet of a cell type with one operand. *)
Definition computes1 (r : option Subnet) (nA nO : nat) (op : list bool → Z) : Prop := ∃ s, r = Some s ∧
  implements s nA (λ xs, bits_of nO (op xs)).

Lemma computes1_eq r nA nO f g : (∀ xs, length xs = nA → bits_of nO (f xs) = bits_of nO (g xs)) →
  computes1 r nA nO f → computes1 r nA nO g.
Proof. intros E (s & Hr & Hs). exists s. split; [done|]. exact (implements_eq s nA _ _ E Hs). Qed.

Section Unary.
Context (type : CellType) (a : CellTypeAttr) (wA wO : N).
Context (Ha : attr type = Some a) (HA : getInWidth a 0 = Some wA) (HO : getOutWidth a 0 = Some wO).
Context (RA : 0 < N.to_nat wA < 2 ^ 14) (RO : 0 < N.to_nat wO < 2 ^ 14).

Lemma neg_computes sg : computes1 (synthNeg a sg) (N.to_nat wA) (N.to_nat wO) (λ x, - Z_of_word sg x)%Z.
Proof using HA HO RA RO.
  destruct small_widths as [W15 _].
  eapply computes1_eq; [|exact (synthNeg_spec a wA wO sg HA HO (proj1 RA) ltac:(lia))]. intros xs _. apply bits_of_low.
Qed.

Lemma reduction_computes symbol ty positive g : getCellType symbol = Some ty → regroupable (props ty) = true →
  (∀ x l, gate_fun symbol (x :: l) = Some (g (x :: l))) →
  computes1 (synthROp symbol a positive) (N.to_nat wA) (N.to_nat wO) (λ x, Z.b2z (xorb (negb positive) (g x))).
Proof using HA HO RA RO.
  intros Ht Hr Hg. eapply computes1_eq; [|exact (synthROp_spec symbol ty Ht Hr a wA wO positive HA HO (proj1 RA) (proj1 RO))].
  intros [|x l] Hl; [cbn in Hl; lia|]. unfold reduce. by rewrite Hg.
Qed.

(** The theorem of every routine with one operand. *)
Ltac routine1_spec :=
  match goal with
  | |- computes1 (synthBNot _ _) _ _ _ => exact (synthBNot_spec a wA wO _ HA HO (proj1 RA) (proj1 RO))
  | |- computes1 (synthNeg _ _) _ _ _ => exact (neg_computes _)
  | |- computes1 (synthROp ?g _ _) _ _ _ =>
      match g with
      | AND => exact (reduction_computes AND _ _ (forallb id) eq_refl eq_refl (λ _ _, eq_refl))
      | OR => exact (reduction_computes OR _ _ (existsb id) eq_refl eq_refl (λ _ _, eq_refl))
      | XOR => exact (reduction_computes XOR _ _ xor_list eq_refl eq_refl (λ _ _, eq_refl))
      end
  | |- computes1 ?r _ _ _ => let r' := eval red in r in change r with r'; routine1_spec
  end.

Lemma unary_computes op : unary_op (symbol type) = Some op →
  ∃ r, synthImpl type = made r ∧ computes1 r (N.to_nat wA) (N.to_nat wO) op.
Proof using Ha HA HO RA RO.
  intros Hop. unfold synthImpl. rewrite Ha. cbn [mbind option_bind].
  destruct (symbol type); try discriminate Hop; injection Hop as <-; (eexists; split; [reflexivity|]); routine1_spec.
Qed.
End Unary.

(** ** The synthesizer is correct *)


(** C30 For every supported cell type with one operand (complement, negations and
    reductions), of widths below [2 ^ 14], [synthImpl] ends with a subnet that
    computes the bits of the operation on the operand. *)
Theorem synthImpl_unary type a wA wO op : attr type = Some a → getInWidth a 0 = Some wA → getOutWidth a 0 = Some wO →
  0 < N.to_nat wA < 2 ^ 14 → 0 < N.to_nat wO < 2 ^ 14 → unary_op (symbol type) = Some op →
  ∃ s, synthImpl type = Some (Some s) ∧ implements s (N.to_nat wA) (λ xs, bits_of (N.to_nat wO) (op xs)).
Proof.
  intros Ha HA HO RA RO Hop.
  destruct (unary_computes type a wA wO Ha HA HO RA RO op Hop) as (r & -> & Hr). by apply made_some.
Qed.
End Theorems.

(** ** Witnesses *)

(** The type of a soft block with the given symbol and widths of operands and results. *)
Definition soft_type (s : CellSymbol) (ins outs : list nat) : CellType :=
  mkCellType "soft" OBJ_NULL_ID (Some (attr_of ins outs)) s (mkProps false false true false false false false false false)
    (N.of_nat (sum_list ins)) (N.of_nat (sum_list outs)).

Section Witnesses.
#[local] Instance witness_types : TypeStore := λ _, None.


Lemma synthImpl_unary_witness : ∃ s, synthImpl (soft_type RNAND [4] [2]) = Some (Some s) ∧
  implements s 4 (λ xs, bits_of 2 (Z.b2z (negb (forallb id xs)))).
Proof.
  apply (synthImpl_unary (soft_type RNAND [4] [2]) (attr_of [4] [2]) 4%N 2%N (λ x, Z.b2z (negb (forallb id x))) eq_refl eq_refl eq_refl);
    [apply width_lt; lia..|reflexivity].
Defined.
End Witnesses.
