(* ===== verification/BlockList.v ===== *)
(** * Lists in blocks ([gate/model/list.h, storage.h])

    The lists of cells of nets: a circular doubly linked list of blocks of items
    in the object storage.  The storage is a map from storage numbers to
    blocks; fresh memory is taken to be zero, as pages from the system are.  The
    numbers have 32 bits: the counter of the storage wraps around, and the last
    number is the null one, through which nothing is accessed. *)

From S2P Require Import Prelude ObjectId.
From stdpp Require Import gmap.

(** ** Definitions *)

(** The null number: [makeFID] gives the null identifier for it. *)
(* gate/model/object.h:50-52 [ObjectID::NullSID] *)
Definition isNullSID (sid : nat) : bool := (Z.of_nat sid =? NullSID ListBlockID)%Z.

(** [objSID++] on a [uint32_t]. *)
(* gate/model/storage.h:115-115 [Storage::allocateExt] *)
Definition next_number (sid : nat) : nat := N.to_nat ((N.of_nat sid + 1) mod 2 ^ 32).

Section Lists.
Context {T : Type} `{EqDecision T} (null : T) (itemSize : N).

(* gate/model/list.h:26-132 [ListBlock] *)
Record Block := mkBlock {
  totalSize : nat;
  capacity : N;
  bsize : nat;
  b_last : N;
  nextSID : nat;
  prevSID : nat;
  isBegin : bool;
  isEnd : bool;
  items : list T;
}.

(** The storage: the blocks and the next storage number. *)
(* gate/model/storage.h:90-152 [Storage] *)
Record Heap := mkHeap {
  blocks : gmap nat Block;
  objSID : nat;
}.

(* gate/model/memory.h:25-25 [LARGE_PAGE_SIZE] *)
Definition LARGE_PAGE_SIZE : N := 64 * 1024 * 1024.
(* gate/model/list.h:31-31 [ListBlock::HeadSize] *)
Definition HeadSize : N := 32.
(* gate/model/list.h:32-32 [ListBlock::DataSize] *)
Definition DataSize : N := Z.to_N (ObjectId.Size ListBlockID) - HeadSize.
(* gate/model/list.h:33-33 [ListBlock::MinCapacity] *)
Definition MinCapacity : N := DataSize / itemSize.

(* gate/model/list.h:37-41 [ListBlock::getSizeInBytes] *)
Definition getSizeInBytes (sizeInItems : N) : N :=
  if (sizeInItems <=? MinCapacity)%N then Z.to_N (ObjectId.Size ListBlockID)
  else Z.to_N (ObjectId.Size ListBlockID) + itemSize * (sizeInItems - MinCapacity).

(* gate/model/list.h:44-46 [ListBlock::getSizeInItems] *)
Definition getSizeInItems (sizeInBytes : N) : N :=
  if (sizeInBytes <=? HeadSize)%N then 0 else (sizeInBytes - HeadSize) / itemSize.

(* gate/model/list.h:68-75 [ListBlock::isNull] *)
Definition isNull (x : T) : bool := bool_decide (x = null).

Definition setTotal (n : nat) (b : Block) : Block :=
  mkBlock n (capacity b) (bsize b) (b_last b) (nextSID b) (prevSID b) (isBegin b) (isEnd b) (items b).
Definition setNext (s : nat) (b : Block) : Block :=
  mkBlock (totalSize b) (capacity b) (bsize b) (b_last b) s (prevSID b) (isBegin b) (isEnd b) (items b).
Definition setPrev (s : nat) (b : Block) : Block :=
  mkBlock (totalSize b) (capacity b) (bsize b) (b_last b) (nextSID b) s (isBegin b) (isEnd b) (items b).
Definition setEnd (e : bool) (b : Block) : Block :=
  mkBlock (totalSize b) (capacity b) (bsize b) (b_last b) (nextSID b) (prevSID b) (isBegin b) e (items b).
Definition setItems (n : nat) (l : N) (xs : list T) (b : Block) : Block :=
  mkBlock (totalSize b) (capacity b) n l (nextSID b) (prevSID b) (isBegin b) (isEnd b) xs.

(** There is no object of the null identifier, [access] gives [nullptr]. *)
(* gate/model/storage.h:132-134 [Storage::access] *)
Definition find_block (h : Heap) (sid : nat) : option Block :=
  if isNullSID sid then None else blocks h !! sid.

(* gate/model/storage.h:132-134 [Storage::access] *)
Definition access (sid : nat) : st Heap Block := st_read (λ h, find_block h sid).

Definition change (sid : nat) (f : Block → Block) : st Heap unit := st_update (λ h,
  b ← find_block h sid; Some (mkHeap (<[sid := f b]> (blocks h)) (objSID h))).

(** The next storage number, and the place of the object. *)
(* gate/model/storage.h:99-119 [Storage::allocateExt] *)
Definition allocateExt (b : Block) : st Heap nat := λ h,
  Some (objSID h, mkHeap (<[objSID h := b]> (blocks h)) (next_number (objSID h))).

(* gate/model/list.h:49-53 [ListBlock::allocate] *)
Definition allocate (n : N) (begin fin : bool) : st Heap nat :=
  let sizeInBytes := N.min (getSizeInBytes n) LARGE_PAGE_SIZE in
  let sizeInItems := getSizeInItems sizeInBytes in
  st_assert (negb (sizeInItems =? 0)%N) ;;
  allocateExt (mkBlock 0 sizeInItems 0 (2 ^ 32 - 1) 0 0 begin fin (replicate (N.to_nat sizeInItems) null)).

(* gate/model/list.h:246-252 [List::List(uint32_t)] *)
Definition newList (n : N) : st Heap nat :=
  listID ← allocate n true true;
  change listID (setNext listID) ;;
  change listID (setPrev listID) ;;
  mret listID.

(* gate/model/list.h:235-236 [List::DefaultBlockCapacity] *)
Definition DefaultBlockCapacity : N := getSizeInItems 256.

(* gate/model/list.h:258-258 [List::size] *)
Definition list_size (listID : nat) : st Heap nat := head ← access listID; mret (totalSize head).

(** The item is written after the last one, which must be in the block. *)
(* gate/model/list.h:289-290 [List::push_back] *)
Definition put_item (value : T) (b : Block) : option Block :=
  let i := ((b_last b + 1) mod 2 ^ 32)%N in
  if (i <? capacity b)%N
  then Some (setItems (bsize b + 1) i (<[N.to_nat i := value]> (items b)) b) else None.

(* gate/model/list.h:268-293 [List::push_back] *)
Definition push_back (listID : nat) (value : T) : st Heap unit :=
  st_assert (negb (isNull value)) ;;
  head ← access listID;
  let tailID := prevSID head in
  tail ← access tailID;
  st_assert (isEnd tail) ;;
  tailID ← (if ((b_last tail + 1) mod 2 ^ 32 =? capacity tail)%N then
              next ← allocate (capacity tail) false true;
              change next (setNext (nextSID tail)) ;;
              change next (setPrev (prevSID head)) ;;
              change listID (setPrev next) ;;
              change tailID (setNext next) ;;
              change tailID (setEnd false) ;;
              mret next
            else mret tailID);
  tail ← access tailID;
  tail' ← st_read (λ _, put_item value tail);
  change tailID (λ _, tail') ;;
  head ← access listID;
  change listID (setTotal (totalSize head + 1)).

(** *** Iteration *)

(* gate/model/list.h:144-228 [ListIterator] *)
Record Iter := mkIter {
  blockID : option nat;
  index : nat;
}.

#[export] Instance Iter_eq_dec : EqDecision Iter.
Proof. solve_decision. Defined.

(* gate/model/list.h:265-265 [List::end] *)
Definition end_iter : Iter := mkIter None 0.

(* gate/model/list.h:206-214 [ListIterator::moveNextBlock] *)
Definition moveNextBlock (b : Block) : option nat :=
  if isEnd b || isNullSID (nextSID b) then None else Some (nextSID b).

(** The position of the first item from [i] on that is not null. *)
(* gate/model/list.h:217-219 [ListIterator::skipNullItems] *)
Fixpoint skipNullItems (xs : list T) (i : nat) : option nat :=
  match xs with
  | [] => None
  | x :: xs => if isNull x then skipNullItems xs (i + 1) else Some i
  end.

Definition skip_in (b : Block) (i : nat) : option nat := skipNullItems (drop i (items b)) i.

(** The first block with items. *)
Fixpoint skip_blocks (fuel : nat) (id : option nat) : st Heap (option nat) :=
  match fuel, id with
  | 0, _ => st_fail
  | _, None => mret None
  | S fuel, Some sid =>
    b ← access sid;
    if bsize b =? 0 then skip_blocks fuel (moveNextBlock b) else mret (Some sid)
  end.

(* gate/model/list.h:192-203 [ListIterator::ListIterator] *)
Definition iter_at (id : option nat) : st Heap Iter :=
  h ← st_get;
  id ← skip_blocks (S (S (base.size (blocks h)))) id;
  match id with
  | None => mret end_iter
  | Some sid => b ← access sid; i ← st_read (λ _, skip_in b 0); mret (mkIter (Some sid) i)
  end.

(* gate/model/list.h:263-263 [List::begin] *)
Definition begin_iter (listID : nat) : st Heap Iter := iter_at (Some listID).

(* gate/model/list.h:160-175 [ListIterator::operator++] *)
Definition next_iter (it : Iter) : st Heap Iter :=
  sid ← st_read (λ _, blockID it);
  b ← access sid;
  let '(id, i) := if (bsize b =? 0) || (N.of_nat (index it) =? b_last b)%N
                  then (moveNextBlock b, 0) else (Some sid, index it + 1) in
  match id with
  | None => mret (mkIter None i)
  | Some sid => b ← access sid; i ← st_read (λ _, skip_in b i); mret (mkIter (Some sid) i)
  end.

(* gate/model/list.h:185-188 [ListIterator::operator*] *)
Definition deref (it : Iter) : st Heap T :=
  sid ← st_read (λ _, blockID it);
  b ← access sid;
  st_read (λ _, items b !! index it).

(** The items from an iterator to the end: [for (i = ...; i != end(); ++i)]. *)
Fixpoint items_from (fuel : nat) (it : Iter) : st Heap (list T) :=
  if bool_decide (it = end_iter) then mret []
  else
    match fuel with
    | 0 => st_fail
    | S fuel => x ← deref it; it ← next_iter it; xs ← items_from fuel it; mret (x :: xs)
    end.

Definition to_list (fuel listID : nat) : st Heap (list T) :=
  it ← begin_iter listID; items_from fuel it.

(** The last occupied position below [i], if any. *)
Fixpoint occupied_below (xs : list T) (i : nat) : option nat :=
  match i with
  | 0 => None
  | S i => match xs !! i with
           | Some x => if isNull x then occupied_below xs i else Some i
           | None => None
           end
  end.

(** The block of the erased item is left in the storage: [releaseObject] does
    nothing. *)
(* gate/model/list.h:296-327 [List::erase] *)
Definition erase (listID : nat) (pos : Iter) : st Heap Iter :=
  sid ← st_read (λ _, blockID pos);
  b ← access sid;
  x ← st_read (λ _, items b !! index pos);
  st_assert (negb (isNull x)) ;;
  change sid (setItems (bsize b - 1) (b_last b) (<[index pos := null]> (items b))) ;;
  head ← access listID;
  change listID (setTotal (totalSize head - 1)) ;;
  b ← access sid;
  if (bsize b =? 0) && negb (isBegin b) then
    change (prevSID b) (setNext (nextSID b)) ;;
    change (nextSID b) (setPrev (prevSID b)) ;;
    change (prevSID b) (setEnd (isEnd b)) ;;
    iter_at (if isNullSID (nextSID b) then None else Some (nextSID b))
  else
    change sid (λ b, match occupied_below (items b) (index pos) with
                     | Some i => setItems (bsize b) (N.of_nat i) (items b) b
                     | None => b
                     end) ;;
    next_iter pos.
End Lists.
