(* ===== verification/BlockListSpec.v ===== *)
(** * The lists in blocks are lists

    A list in the storage is a chain of blocks, all but the last one full.  Adding
    an item appends it to the contents and leaves other lists alone; iteration
    ends and visits the contents in order. *)

From S2P Require Import Prelude ObjectId BlockList.
From stdpp Require Import gmap.

(** ** Steps *)

Lemma change_eval {T} s f h b : isNullSID s = false → blocks h !! s = Some b →
  change (T:=T) s f h = Some ((), mkHeap (<[s := f b]> (blocks h)) (objSID h)).
Proof. intros Hs Hb. unfold change, st_update, find_block. by rewrite Hs, Hb. Qed.

Lemma access_eval {T} s h b : isNullSID s = false → blocks h !! s = Some b → access (T:=T) s h = Some (b, h).
Proof. intros Hs Hb. unfold access, st_read, find_block. by rewrite Hs, Hb. Qed.

(** The numbers below the null one, and the counter below its bound. *)
Lemma number_live s : (N.of_nat s < 2 ^ 32 - 1)%N → isNullSID s = false.
Proof.
  change (2 ^ 32 - 1)%N with 4294967295%N. intros Hs. apply Z.eqb_neq.
  change (NullSID ListBlockID) with 4294967295%Z. lia.
Qed.

Lemma next_number_small s : (N.of_nat (s + 1) < 2 ^ 32)%N → next_number s = s + 1.
Proof. intros Hs. unfold next_number. rewrite N.mod_small by lia. lia. Qed.

Ltac heap_lookups := repeat first [rewrite lookup_insert_eq | rewrite lookup_insert_ne by congruence].
Ltac heap_here := first [assumption | cbn [blocks objSID]; heap_lookups; first [reflexivity | eassumption]].
Ltac heap_step := erewrite bind_eval by first [apply access_eval; heap_here | apply change_eval; heap_here].
Ltac heap_end := erewrite change_eval by heap_here.

(** ** Chains *)

Section Chains.
Context {T : Type} `{EqDecision T} (null : T) (itemSize : N).

Abbreviation Chain := (list (nat * list T)).

Definition contents (chain : Chain) : list T := concat (snd <$> chain).

(** The number of the block [i], counted around the circle. *)
Definition sid_at (chain : Chain) (i : nat) : nat := default 0 (fst <$> chain !! (i mod length chain)).

Definition last_index (xs : list T) : N := ((N.of_nat (length xs) + (2 ^ 32 - 1)) mod 2 ^ 32)%N.

(** The block [i] of the chain. *)
Definition block_at (cap : nat) (chain : Chain) (i : nat) (xs : list T) : Block (T:=T) :=
  mkBlock (if i =? 0 then length (contents chain) else 0) (N.of_nat cap) (length xs) (last_index xs)
    (sid_at chain (i + 1)) (sid_at chain (i + length chain - 1)) (i =? 0) (i =? length chain - 1)
    (xs ++ replicate (cap - length xs) null).

Record rep (h : Heap) (cap : nat) (chain : Chain) : Prop := {
  rep_cap : (0 < cap)%nat ∧ (N.of_nat cap < 2 ^ 32)%N;
  rep_chain : chain ≠ [];
  rep_nodup : NoDup (fst <$> chain);
  rep_fresh : ∀ s, s ∈ fst <$> chain → s < objSID h;
  rep_number : (N.of_nat (objSID h) < 2 ^ 32)%N;
  rep_blocks : ∀ i s xs, chain !! i = Some (s, xs) → blocks h !! s = Some (block_at cap chain i xs);
  rep_full : ∀ i s xs, chain !! i = Some (s, xs) → length xs ≤ cap ∧ (i + 1 < length chain → length xs = cap) ∧ (0 < i → xs ≠ []);
  rep_items : Forall (λ x, x ≠ null) (contents chain);
}.

(** The blocks of a chain are not null. *)
Lemma rep_live h cap chain i s xs : rep h cap chain → chain !! i = Some (s, xs) → isNullSID s = false.
Proof.
  intros Hr Hi. apply number_live. pose proof (rep_number _ _ _ Hr) as Hn. change (2 ^ 32)%N with 4294967296%N in *.
  enough (s < objSID h) by lia. apply (rep_fresh _ _ _ Hr), (list_elem_of_fmap_2 fst _ (s, xs)). by eapply list_elem_of_lookup_2.
Qed.

Lemma sid_at_lookup chain i s xs : chain !! i = Some (s, xs) → sid_at chain i = s.
Proof. intros Hi. unfold sid_at. apply lookup_lt_Some in Hi as Hl. by rewrite Nat.mod_small, Hi. Qed.

(** The fresh block of [allocate]; the storage rounds the capacity up. *)
Definition granted (n : N) : N := getSizeInItems itemSize (N.min (getSizeInBytes itemSize n) LARGE_PAGE_SIZE).

Definition fresh_block (cap : N) (begin fin : bool) : Block :=
  mkBlock 0 cap 0 (2 ^ 32 - 1) 0 0 begin fin (replicate (N.to_nat cap) null).

Lemma allocate_eval n begin fin h : (0 < granted n)%N →
  allocate null itemSize n begin fin h =
    Some (objSID h, mkHeap (<[objSID h := fresh_block (granted n) begin fin]> (blocks h)) (next_number (objSID h))).
Proof.
  intros Hg. unfold allocate. fold (granted n). unfold st_assert.
  destruct (N.eqb_spec (granted n) 0); [lia|]. done.
Qed.

Lemma last_index_nonempty xs : xs ≠ [] → (N.of_nat (length xs) < 2 ^ 32)%N → last_index xs = N.of_nat (length xs - 1).
Proof.
  intros Hx Hl. unfold last_index. destruct xs as [|x xs]; [done|]. cbn [length] in *.
  replace (N.of_nat (S (length xs)) + (2 ^ 32 - 1))%N with (N.of_nat (S (length xs) - 1) + 1 * 2 ^ 32)%N by lia.
  rewrite N.Div0.mod_add. apply N.mod_small. lia.
Qed.

Lemma last_index_next xs : (N.of_nat (length xs) < 2 ^ 32)%N → ((last_index xs + 1) mod 2 ^ 32 = N.of_nat (length xs))%N.
Proof.
  intros Hl. unfold last_index. rewrite N.Div0.add_mod_idemp_l.
  replace (N.of_nat (length xs) + (2 ^ 32 - 1) + 1)%N with (N.of_nat (length xs) + 1 * 2 ^ 32)%N by lia.
  rewrite N.Div0.mod_add. by apply N.mod_small.
Qed.

(** *** A new list *)

Lemma newList_spec n h : (0 < granted n < 2 ^ 32)%N → (N.of_nat (objSID h + 1) < 2 ^ 32)%N →
  ∃ h', newList null itemSize n h = Some (objSID h, h') ∧ rep h' (N.to_nat (granted n)) [(objSID h, [])] ∧
    objSID h' = objSID h + 1 ∧ ∀ s, s < objSID h → blocks h' !! s = blocks h !! s.
Proof.
  intros Hg Hn. unfold newList. assert (isNullSID (objSID h) = false) as Hl by (apply number_live; lia).
  erewrite bind_eval by (apply allocate_eval; lia). rewrite next_number_small by done.
  erewrite bind_eval by (apply change_eval, lookup_insert_eq; done). erewrite bind_eval by (apply change_eval, lookup_insert_eq; done).
  eexists. split; [done|]. cbn [objSID blocks]. split.
  - split; cbn [objSID blocks fmap list_fmap fst].
    + lia.
    + done.
    + apply NoDup_singleton.
    + intros s ->%list_elem_of_singleton. cbn. lia.
    + lia.
    + intros [|i] s xs Hi; [|done]. injection Hi as <- <-. rewrite lookup_insert_eq. f_equal.
      unfold block_at, setNext, setPrev, sid_at, fresh_block, last_index. cbn. f_equal; [lia|]. by rewrite Nat.sub_0_r.
    + intros [|i] s xs Hi; [|done]. injection Hi as <- <-. cbn. split_all; lia.
    + constructor.
  - split; [done|]. intros s Hs. by rewrite !lookup_insert_ne by lia.
Qed.

(** The counter reaches the null number: the new list has no head. *)
Lemma newList_exhausted n h : (0 < granted n)%N → (N.of_nat (objSID h) = 2 ^ 32 - 1)%N → newList null itemSize n h = None.
Proof.
  intros Hg Hn. unfold newList. erewrite bind_eval by (by apply allocate_eval).
  assert (isNullSID (objSID h) = true) as Hl.
  { apply Z.eqb_eq. change (2 ^ 32 - 1)%N with 4294967295%N in Hn. change (NullSID ListBlockID) with 4294967295%Z. lia. }
  unfold change, st_update, find_block. cbv [mbind st_bind]. by rewrite Hl.
Qed.

(** *** Adding an item *)

Lemma sid_at_fst chain chain' i : fst <$> chain = fst <$> chain' → sid_at chain i = sid_at chain' i.
Proof.
  intros E. unfold sid_at. assert (length chain = length chain') as ->.
  { apply (f_equal length) in E. by rewrite !length_fmap in E. }
  by rewrite <- !list_lookup_fmap, E.
Qed.

Lemma contents_snoc pre t ys x : contents (pre ++ [(t, ys ++ [x])]) = contents (pre ++ [(t, ys)]) ++ [x].
Proof. unfold contents. rewrite !fmap_app, !concat_app. cbn. by rewrite !app_nil_r, app_assoc. Qed.

Lemma contents_new chain t x : contents (chain ++ [(t, [x])]) = contents chain ++ [x].
Proof. unfold contents. by rewrite fmap_app, concat_app. Qed.

Lemma lookup_chain_inj (chain : Chain) i j s xs ys : NoDup (fst <$> chain) → chain !! i = Some (s, xs) → chain !! j = Some (s, ys) → i = j.
Proof. intros Hn Hi Hj. apply (NoDup_lookup _ i j s Hn); by rewrite list_lookup_fmap, ?Hi, ?Hj. Qed.

Lemma put_item_spec cap ys x b : length ys < cap → (N.of_nat cap < 2 ^ 32)%N → capacity b = N.of_nat cap → bsize b = length ys →
  b_last b = last_index ys → items b = ys ++ replicate (cap - length ys) null →
  put_item x b = Some (setItems (length (ys ++ [x])) (last_index (ys ++ [x])) ((ys ++ [x]) ++ replicate (cap - length (ys ++ [x])) null) b).
Proof.
  intros Hl Hc Ec Es El Ei. unfold put_item. rewrite El, last_index_next, Ec by lia.
  rewrite (proj2 (N.ltb_lt _ _)) by lia. rewrite Es, Ei, Nat2N.id. do 2 f_equal.
  - by rewrite length_app.
  - rewrite last_index_nonempty; [|by destruct ys|rewrite length_app; cbn; lia]. rewrite length_app. cbn. f_equal. lia.
  - rewrite <- (Nat.add_0_r (length ys)) at 1. rewrite insert_app_r, length_app. cbn [length].
    replace (cap - length ys) with (S (cap - (length ys + 1))) by lia. cbn. by rewrite <- app_assoc.
Qed.

Lemma block_at_other cap chain chain' i xs : fst <$> chain = fst <$> chain' → i ≠ 0 →
  block_at cap chain i xs = block_at cap chain' i xs.
Proof.
  intros Ef Hi. assert (length chain = length chain') as El by (apply (f_equal length) in Ef; by rewrite !length_fmap in Ef).
  unfold block_at. rewrite !(sid_at_fst chain chain') by done. rewrite El. by destruct i.
Qed.

Lemma block_at_head cap chain chain' xs : fst <$> chain = fst <$> chain' →
  setTotal (length (contents chain')) (block_at cap chain 0 xs) = block_at cap chain' 0 xs.
Proof.
  intros Ef. assert (length chain = length chain') as El by (apply (f_equal length) in Ef; by rewrite !length_fmap in Ef).
  unfold block_at, setTotal. cbn [nextSID prevSID isBegin isEnd items capacity bsize b_last].
  rewrite !(sid_at_fst chain chain') by done. by rewrite El.
Qed.

Lemma push_room h cap pre t ys x : rep h cap (pre ++ [(t, ys)]) → length ys < cap → x ≠ null →
  ∃ h', push_back null itemSize (sid_at (pre ++ [(t, ys)]) 0) x h = Some ((), h') ∧ rep h' cap (pre ++ [(t, ys ++ [x])]) ∧
    objSID h' = objSID h ∧ ∀ s, s ∉ fst <$> (pre ++ [(t, ys)]) → blocks h' !! s = blocks h !! s.
Proof.
  intros Hr Hl Hx. set (chain := pre ++ [(t, ys)]) in *. set (chain' := pre ++ [(t, ys ++ [x])]).
  assert (fst <$> chain = fst <$> chain') as Ef by (unfold chain, chain'; by rewrite !fmap_app).
  assert (length chain = length chain') as El by (unfold chain, chain'; by rewrite !length_app).
  assert (length chain = length pre + 1) as En by (unfold chain; by rewrite length_app).
  assert (chain !! length pre = Some (t, ys)) as Et by (unfold chain; by rewrite lookup_app_r, Nat.sub_diag by lia).
  destruct (lookup_lt_is_Some_2 chain 0) as [[hd xs0] E0]; [lia|]. rewrite (sid_at_lookup _ _ _ _ E0).
  pose proof (rep_blocks _ _ _ Hr _ _ _ E0) as B0. pose proof (rep_blocks _ _ _ Hr _ _ _ Et) as Bt.
  pose proof (rep_live _ _ _ _ _ _ Hr E0) as L0. pose proof (rep_live _ _ _ _ _ _ Hr Et) as Lt.
  destruct (rep_cap _ _ _ Hr) as [Hc0 Hc]. unfold push_back.
  assert (isNull null x = false) as -> by (unfold isNull; by apply bool_decide_eq_false). cbn [negb].
  erewrite bind_eval by done. erewrite bind_eval by (apply access_eval; [done|exact B0]).
  assert (prevSID (block_at cap chain 0 xs0) = t) as ->.
  { cbn. rewrite <- (sid_at_lookup _ _ _ _ Et). f_equal. lia. }
  erewrite bind_eval by (apply access_eval; [done|exact Bt]).
  assert (isEnd (block_at cap chain (length pre) ys) = true) as -> by (cbn; apply Nat.eqb_eq; lia).
  erewrite bind_eval by done. cbn [b_last block_at capacity]. rewrite last_index_next by lia.
  rewrite (proj2 (N.eqb_neq _ _)) by lia. erewrite bind_eval by done. erewrite bind_eval by (apply access_eval; [done|exact Bt]).
  erewrite bind_eval; [|unfold st_read; rewrite (put_item_spec cap ys x) by done; done].
  erewrite bind_eval by (apply change_eval; [done|exact Bt]).
  set (zs := ys ++ [x]). change (setItems (length zs) (last_index zs) (zs ++ replicate (cap - length zs) null) (block_at cap chain (length pre) ys))
    with (block_at cap chain (length pre) zs).
  set (head := if decide (hd = t) then block_at cap chain 0 zs else block_at cap chain 0 xs0).
  assert (hd = t ↔ length pre = 0) as Hhd.
  { split; [intros ->; symmetry; exact (lookup_chain_inj _ _ _ _ _ _ (rep_nodup _ _ _ Hr) E0 Et)|].
    intros E. rewrite E, E0 in Et. by injection Et. }
  assert (<[t := block_at cap chain (length pre) zs]> (blocks h) !! hd = Some head) as Bh.
  { unfold head. destruct (decide (hd = t)) as [Eq|Ne].
    - apply Hhd in Eq as Ep. rewrite Eq, Ep. by rewrite lookup_insert_eq.
    - by rewrite lookup_insert_ne by congruence. }
  erewrite bind_eval by exact (access_eval hd (mkHeap _ (objSID h)) head L0 Bh).
  rewrite (change_eval hd _ (mkHeap _ (objSID h)) head L0 Bh). cbn [blocks objSID]. eexists. split; [done|].
  assert (totalSize head + 1 = length (contents chain')) as ->.
  { unfold chain', zs. rewrite contents_snoc, length_app. cbn [length]. fold chain. unfold head. by destruct (decide _). }
  split; [|split; [done|]].
  - split.
    + done.
    + unfold chain'. by destruct pre.
    + rewrite <- Ef. apply Hr.
    + intros s Hs. rewrite <- Ef in Hs. by apply (rep_fresh _ _ _ Hr).
    + apply (rep_number _ _ _ Hr).
    + intros i s xs Hi. cbn [blocks]. unfold chain' in Hi. apply lookup_app_Some in Hi as [Hi|[Hge Hi]].
      * apply lookup_lt_Some in Hi as Hlt. assert (chain !! i = Some (s, xs)) as Ei by (unfold chain; by rewrite lookup_app_l).
        assert (s ≠ t) as Nt by (intros ->; pose proof (lookup_chain_inj _ _ _ _ _ _ (rep_nodup _ _ _ Hr) Ei Et); lia).
        destruct (decide (i = 0)) as [->|Hi0].
        -- rewrite E0 in Ei. injection Ei as <- <-. rewrite lookup_insert_eq. unfold head.
           destruct (decide (hd = t)); [done|]. f_equal. by apply block_at_head.
        -- rewrite !lookup_insert_ne; [|done|].
           ++ rewrite (rep_blocks _ _ _ Hr _ _ _ Ei). f_equal. by apply block_at_other.
           ++ intros ->. by pose proof (lookup_chain_inj _ _ _ _ _ _ (rep_nodup _ _ _ Hr) E0 Ei).
      * apply list_lookup_singleton_Some in Hi as [Hi [= <- <-]]. destruct (decide (hd = t)) as [->|Nt].
        -- apply proj1 in Hhd. specialize (Hhd eq_refl). assert (i = 0) as -> by lia. rewrite lookup_insert_eq.
           unfold head. f_equal. by apply block_at_head.
        -- rewrite lookup_insert_ne, lookup_insert_eq by done. assert (i ≠ 0) by (intros ->; apply Nt, Hhd; lia).
           f_equal. replace i with (length pre) by lia. apply block_at_other; [done|lia].
    + intros i s xs Hi. rewrite <- El. unfold chain' in Hi. apply lookup_app_Some in Hi as [Hi|[Hge Hi]].
      * apply (rep_full _ _ _ Hr i s). unfold chain. by rewrite lookup_app_l by (by apply lookup_lt_Some in Hi).
      * apply list_lookup_singleton_Some in Hi as [Hi [= <- <-]]. unfold zs. rewrite length_app. cbn [length].
        split_all; [lia|lia|]. intros _. by destruct ys.
    + unfold chain', zs. rewrite contents_snoc. apply Forall_app. split; [apply Hr|by constructor].
  - intros s Hs. cbn [blocks]. rewrite !lookup_insert_ne; [done|..]; intros <-; apply Hs.
    + apply (list_elem_of_fmap_2 fst _ (t, ys)). by eapply list_elem_of_lookup_2.
    + apply (list_elem_of_fmap_2 fst _ (hd, xs0)). by eapply list_elem_of_lookup_2.
Qed.

(** The neighbours of the blocks when a block is linked at the end. *)
Lemma block_at_extend cap chain n x i xs : chain ≠ [] → i < length chain →
  block_at cap (chain ++ [(n, [x])]) i xs =
    (let b := block_at cap chain i xs in
     mkBlock (if i =? 0 then totalSize b + 1 else totalSize b) (capacity b) (bsize b) (b_last b)
       (if i =? length chain - 1 then n else nextSID b) (if i =? 0 then n else prevSID b) (isBegin b) false (items b)).
Proof.
  intros Hc Hi. unfold block_at, sid_at. cbn [totalSize capacity bsize b_last nextSID prevSID isBegin items].
  rewrite !length_app. cbn [length]. f_equal.
  - destruct (i =? 0); [|done]. rewrite contents_new, length_app. done.
  - rewrite Nat.mod_small by lia. destruct (Nat.eqb_spec i (length chain - 1)) as [->|Hn].
    + rewrite lookup_app_r, Nat.sub_add, Nat.sub_diag by lia. done.
    + rewrite lookup_app_l, Nat.mod_small by lia. done.
  - destruct (Nat.eqb_spec i 0) as [->|Hn].
    + rewrite Nat.mod_small, lookup_app_r by lia. by replace (0 + (length chain + 1) - 1 - length chain) with 0 by lia.
    + replace (i + (length chain + 1) - 1) with (i - 1 + 1 * (length chain + 1)) by lia.
      replace (i + length chain - 1) with (i - 1 + 1 * length chain) by lia.
      rewrite !Nat.Div0.mod_add, !Nat.mod_small, lookup_app_l by lia. done.
  - apply Nat.eqb_neq. lia.
Qed.

(** A chain with one more block, given its blocks. *)
Lemma rep_extend h h' cap chain x : rep h cap chain → x ≠ null →
  (∀ i s xs, chain !! i = Some (s, xs) → i + 1 = length chain → length xs = cap) →
  (N.of_nat (objSID h + 1) < 2 ^ 32)%N → objSID h' = objSID h + 1 →
  blocks h' !! objSID h = Some (block_at cap (chain ++ [(objSID h, [x])]) (length chain) [x]) →
  (∀ i s xs, chain !! i = Some (s, xs) → blocks h' !! s = Some (block_at cap (chain ++ [(objSID h, [x])]) i xs)) →
  rep h' cap (chain ++ [(objSID h, [x])]).
Proof.
  intros Hr Hx Hl Hm Ho Hn Hb. split.
  - apply Hr.
  - by destruct chain.
  - rewrite fmap_app. apply NoDup_app. split_all; [apply Hr| |apply NoDup_singleton].
    intros s Hs ->%list_elem_of_singleton. apply (rep_fresh _ _ _ Hr) in Hs. cbn in Hs. lia.
  - intros s Hs. rewrite fmap_app in Hs. apply elem_of_app in Hs as [Hs| ->%list_elem_of_singleton]; [|cbn; lia].
    apply (rep_fresh _ _ _ Hr) in Hs. lia.
  - by rewrite Ho.
  - intros i s xs [Hi|[Hge Hi]]%lookup_app_Some; [by apply Hb|].
    apply list_lookup_singleton_Some in Hi as [Hi [= <- <-]]. by replace i with (length chain) by lia.
  - intros i s xs Hi. rewrite length_app. cbn [length]. apply lookup_app_Some in Hi as [Hi|[Hge Hi]].
    + destruct (rep_full _ _ _ Hr _ _ _ Hi) as (?&Hf&?). apply lookup_lt_Some in Hi as Hlt. split_all; [done| |done].
      intros _. destruct (decide (i + 1 = length chain)) as [E|E]; [by apply (Hl _ _ _ Hi)|apply Hf; lia].
    + apply list_lookup_singleton_Some in Hi as [Hi [= <- <-]]. destruct (rep_cap _ _ _ Hr). cbn. split_all; [lia|lia|done].
  - rewrite contents_new. apply Forall_app. split; [apply Hr|by constructor].
Qed.

Lemma block_at_new cap chain n x hd t xs ys : (0 < cap)%nat → chain !! 0 = Some (hd, xs) → chain !! (length chain - 1) = Some (t, ys) →
  setItems (length ([] ++ [x])) (last_index ([] ++ [x])) (([] ++ [x]) ++ replicate (cap - length ([] ++ [x])) null)
    (setPrev t (setNext hd (fresh_block (N.of_nat cap) false true))) =
  block_at cap (chain ++ [(n, [x])]) (length chain) [x].
Proof.
  intros Hc H0 Ht. apply lookup_lt_Some in H0 as Hl. unfold block_at, sid_at. rewrite !length_app. cbn [length].
  rewrite (proj2 (Nat.eqb_neq (length chain) 0)) by lia. rewrite Nat.add_sub, Nat.eqb_refl. unfold setItems, setPrev, setNext. cbn. f_equal.
  - rewrite Nat.Div0.mod_same. by rewrite lookup_app_l, H0.
  - replace (length chain + (length chain + 1) - 1) with (length chain - 1 + 1 * (length chain + 1)) by lia.
    by rewrite Nat.Div0.mod_add, Nat.mod_small, lookup_app_l, Ht by lia.
Qed.

Lemma push_full h cap pre t ys x : rep h cap (pre ++ [(t, ys)]) → length ys = cap → x ≠ null →
  granted (N.of_nat cap) = N.of_nat cap → (N.of_nat (objSID h + 1) < 2 ^ 32)%N →
  ∃ h', push_back null itemSize (sid_at (pre ++ [(t, ys)]) 0) x h = Some ((), h') ∧
    rep h' cap ((pre ++ [(t, ys)]) ++ [(objSID h, [x])]) ∧ objSID h' = objSID h + 1 ∧
    ∀ s, s ∉ fst <$> (pre ++ [(t, ys)]) → s ≠ objSID h → blocks h' !! s = blocks h !! s.
Proof.
  intros Hr Hl Hx Hg Hm. assert (isNullSID (objSID h) = false) as Ln by (apply number_live; lia). set (chain := pre ++ [(t, ys)]) in *.
  assert (length chain = length pre + 1) as En by (unfold chain; by rewrite length_app).
  assert (chain !! length pre = Some (t, ys)) as Et by (unfold chain; by rewrite lookup_app_r, Nat.sub_diag by lia).
  destruct (lookup_lt_is_Some_2 chain 0) as [[hd xs0] E0]; [lia|]. rewrite (sid_at_lookup _ _ _ _ E0).
  pose proof (rep_blocks _ _ _ Hr _ _ _ E0) as B0. pose proof (rep_blocks _ _ _ Hr _ _ _ Et) as Bt.
  pose proof (rep_live _ _ _ _ _ _ Hr E0) as L0. pose proof (rep_live _ _ _ _ _ _ Hr Et) as Lt.
  destruct (rep_cap _ _ _ Hr) as [Hc0 Hc].
  assert (∀ i s xs, chain !! i = Some (s, xs) → s ≠ objSID h) as Hfr.
  { intros i s xs Hi ->. enough (objSID h < objSID h) by lia. apply (rep_fresh _ _ _ Hr).
    apply (list_elem_of_fmap_2 fst _ (objSID h, xs)). by eapply list_elem_of_lookup_2. }
  pose proof (Hfr _ _ _ E0) as N0. pose proof (Hfr _ _ _ Et) as Nt.
  assert (prevSID (block_at cap chain 0 xs0) = t) as Hp.
  { cbn. rewrite <- (sid_at_lookup _ _ _ _ Et). f_equal. lia. }
  assert (nextSID (block_at cap chain (length pre) ys) = hd) as Hn.
  { cbn. rewrite <- En. unfold sid_at. rewrite Nat.Div0.mod_same. by rewrite E0. }
  unfold push_back. assert (isNull null x = false) as -> by (unfold isNull; by apply bool_decide_eq_false). cbn [negb].
  erewrite bind_eval by done. erewrite bind_eval by (apply access_eval; [done|exact B0]). rewrite Hp.
  erewrite bind_eval by (apply access_eval; [done|exact Bt]).
  assert (isEnd (block_at cap chain (length pre) ys) = true) as -> by (cbn; apply Nat.eqb_eq; lia).
  erewrite bind_eval by done. cbn [b_last block_at capacity]. rewrite last_index_next by lia.
  rewrite (proj2 (N.eqb_eq _ _)) by lia. fold (block_at cap chain (length pre) ys). rewrite Hn.
  destruct (decide (hd = t)) as [->|Nht].
  - (* The only block. *)
    assert (length pre = 0) as Ep by (symmetry; exact (lookup_chain_inj _ _ _ _ _ _ (rep_nodup _ _ _ Hr) E0 Et)).
    assert (xs0 = ys) as -> by (rewrite Ep, E0 in Et; by injection Et).
    erewrite bind_eval.
    2:{ erewrite bind_eval by (apply allocate_eval; lia). rewrite Hg, next_number_small by done. repeat heap_step. reflexivity. }
    heap_step. erewrite bind_eval; [|unfold st_read; cbn; rewrite (put_item_spec cap [] x) by first [done|lia|cbn; f_equal; lia]; done].
    heap_step. heap_step. heap_end. eexists. split; [done|]. split; [|split; [done|]].
    + eapply rep_extend; try done; cbn [blocks objSID].
      * intros i s xs Hi Hlt. apply lookup_lt_Some in Hi as ?. assert (i = length pre) as -> by lia. rewrite Et in Hi. by injection Hi as <- <-.
      * heap_lookups. f_equal. apply (block_at_new _ _ _ _ _ _ ys ys); [done|done|]. by replace (length chain - 1) with (length pre) by lia.
      * intros i s xs Hi. apply lookup_lt_Some in Hi as ?. assert (i = 0) as -> by lia. rewrite E0 in Hi. injection Hi as <- <-.
        heap_lookups. f_equal. rewrite block_at_extend by first [lia|by destruct pre].
        rewrite Ep, (proj2 (Nat.eqb_eq 0 (length chain - 1))) by lia. done.
    + cbn [blocks]. intros s Hs Hsn. assert (s ≠ t) by (intros ->; by apply Hs, (list_elem_of_fmap_2 fst _ (t, ys)), list_elem_of_lookup_2 with (length pre)).
      heap_lookups. done.
  - assert (length pre ≠ 0) as Ep by (intros Ep; rewrite Ep, E0 in Et; by injection Et).
    erewrite bind_eval.
    2:{ erewrite bind_eval by (apply allocate_eval; lia). rewrite Hg, next_number_small by done. repeat heap_step. reflexivity. }
    heap_step. erewrite bind_eval; [|unfold st_read; cbn; rewrite (put_item_spec cap [] x) by first [done|lia|cbn; f_equal; lia]; done].
    heap_step. heap_step. heap_end. eexists. split; [done|]. split; [|split; [done|]].
    + eapply rep_extend; try done; cbn [blocks objSID].
      * intros i s xs Hi Hlt. apply lookup_lt_Some in Hi as ?. assert (i = length pre) as -> by lia. rewrite Et in Hi. by injection Hi as <- <-.
      * heap_lookups. f_equal. apply (block_at_new _ _ _ _ _ _ xs0 ys); [done|done|]. by replace (length chain - 1) with (length pre) by lia.
      * intros i s xs Hi. apply lookup_lt_Some in Hi as ?.
        assert (s ≠ objSID h) by (by eapply Hfr). rewrite block_at_extend by first [lia|by destruct pre].
        destruct (decide (s = hd)) as [->|?]; [|destruct (decide (s = t)) as [->|?]].
        -- assert (i = 0) as -> by (by eapply (lookup_chain_inj _ _ _ _ _ _ (rep_nodup _ _ _ Hr)); [exact Hi|exact E0]).
           rewrite E0 in Hi. injection Hi as <-. heap_lookups. f_equal. 
           unfold block_at, setTotal, setPrev. destruct (length chain - 1) eqn:El; [lia|done].
        -- assert (i = length pre) as -> by (by eapply (lookup_chain_inj _ _ _ _ _ _ (rep_nodup _ _ _ Hr)); [exact Hi|exact Et]).
           rewrite Et in Hi. injection Hi as <-. heap_lookups. f_equal.
           rewrite (proj2 (Nat.eqb_eq (length pre) (length chain - 1))) by lia.
           rewrite (proj2 (Nat.eqb_neq (length pre) 0)) by done. done.
        -- heap_lookups. rewrite (rep_blocks _ _ _ Hr _ _ _ Hi). f_equal.
           assert (i ≠ 0) by (intros ->; rewrite E0 in Hi; by injection Hi).
           assert (i ≠ length pre) by (intros ->; rewrite Et in Hi; by injection Hi).
           rewrite (proj2 (Nat.eqb_neq i (length chain - 1))), (proj2 (Nat.eqb_neq i 0)) by lia. unfold block_at.
           rewrite (proj2 (Nat.eqb_neq i (length chain - 1))), (proj2 (Nat.eqb_neq i 0)) by lia. done.
    + cbn [blocks]. intros s Hs Hsn. assert (s ≠ t) by (intros ->; by apply Hs, (list_elem_of_fmap_2 fst _ (t, ys)), list_elem_of_lookup_2 with (length pre)).
      assert (s ≠ hd) by (intros ->; by apply Hs, (list_elem_of_fmap_2 fst _ (hd, xs0)), list_elem_of_lookup_2 with 0).
      heap_lookups. done.
Qed.

(** The storage grants at least a minimum and at most a page. *)
Lemma granted_eq n : (itemSize = 8 ∨ itemSize = 16 ∨ itemSize = 32)%N →
  granted n = N.min (N.max n (32 / itemSize)) ((LARGE_PAGE_SIZE - 32) / itemSize).
Proof.
  unfold granted, getSizeInBytes, getSizeInItems, MinCapacity, DataSize, LARGE_PAGE_SIZE, HeadSize. cbn [ObjectId.Size ListBlockID ObjectID].
  change (Z.to_N 64) with 64%N.
  change (64 - 32)%N with 32%N. change (64 * 1024 * 1024)%N with 67108864%N.
  intros [->|[->| ->]];
    [change (32 / 8)%N with 4%N; change ((67108864 - 32) / 8)%N with 8388604%N
    |change (32 / 16)%N with 2%N; change ((67108864 - 32) / 16)%N with 4194302%N
    |change (32 / 32)%N with 1%N; change ((67108864 - 32) / 32)%N with 2097151%N];
    (match goal with |- context [(n <=? ?c)%N] => destruct (N.leb_spec n c) end);
    (match goal with |- context [(?a <=? 32)%N] => destruct (N.leb_spec a 32) end);
    zify; Z.to_euclidean_division_equations; lia.
Qed.

Lemma granted_idem n : (itemSize = 8 ∨ itemSize = 16 ∨ itemSize = 32)%N →
  granted (granted n) = granted n ∧ (0 < granted n < 2 ^ 32)%N.
Proof.
  intros Hi. rewrite !(granted_eq _ Hi). destruct Hi as [->|[->| ->]]; unfold LARGE_PAGE_SIZE;
    [change (32 / 8)%N with 4%N; change ((64 * 1024 * 1024 - 32) / 8)%N with 8388604%N
    |change (32 / 16)%N with 2%N; change ((64 * 1024 * 1024 - 32) / 16)%N with 4194302%N
    |change (32 / 32)%N with 1%N; change ((64 * 1024 * 1024 - 32) / 32)%N with 2097151%N];
    change (2 ^ 32)%N with 4294967296%N; lia.
Qed.
(** *** Iteration *)

Lemma skip_here xs n j : Forall (λ x, x ≠ null) xs → j < length xs →
  skipNullItems null (drop j (xs ++ replicate n null)) j = Some j.
Proof.
  intros Hx Hj. destruct (lookup_lt_is_Some_2 xs j Hj) as [x Ex].
  rewrite (drop_S _ x j) by (by rewrite lookup_app_l). cbn. unfold isNull.
  rewrite bool_decide_eq_false_2; [done|]. by apply (Forall_lookup_1 _ _ _ _ Hx Ex).
Qed.

Lemma chain_items h cap chain i s xs : rep h cap chain → chain !! i = Some (s, xs) → Forall (λ x, x ≠ null) xs.
Proof.
  intros Hr Hi. pose proof (rep_items _ _ _ Hr) as Hx. unfold contents in Hx.
  rewrite <- (take_drop_middle _ _ _ Hi), fmap_app, concat_app in Hx. apply Forall_app in Hx as [_ Hx].
  cbn in Hx. by apply Forall_app in Hx as [Hx _].
Qed.

Lemma chain_end h cap chain i s xs : rep h cap chain → chain !! i = Some (s, xs) →
  moveNextBlock (block_at cap chain i xs) = fst <$> chain !! (i + 1).
Proof.
  intros Hr Hi. apply lookup_lt_Some in Hi as Hl. unfold moveNextBlock. cbn.
  destruct (Nat.eqb_spec i (length chain - 1)) as [->|Hn].
  - by rewrite lookup_ge_None_2 by lia.
  - destruct (lookup_lt_is_Some_2 chain (i + 1)) as [[s' xs'] E]; [lia|]. by rewrite (sid_at_lookup _ _ _ _ E), E, (rep_live _ _ _ _ _ _ Hr E).
Qed.

(** The items from a position of a chain on. *)
Definition rest (chain : Chain) (i j : nat) : list T :=
  match chain !! i with Some (_, xs) => drop j xs ++ contents (drop (i + 1) chain) | None => [] end.

Definition position (chain : Chain) (i j : nat) : Iter :=
  match chain !! i with Some (s, _) => mkIter (Some s) j | None => end_iter end.

Lemma rest_block chain i : rest chain i 0 = contents (drop i chain).
Proof.
  unfold rest. destruct (chain !! i) as [[s xs]|] eqn:E.
  - rewrite (drop_S _ _ _ E). unfold contents. cbn. by replace (S i) with (i + 1) by lia.
  - rewrite drop_ge; [done|]. by apply lookup_ge_None.
Qed.

Lemma next_iter_spec h cap chain i j s xs : rep h cap chain → chain !! i = Some (s, xs) → j < length xs →
  ∃ i' j', next_iter null (mkIter (Some s) j) h = Some (position chain i' j', h) ∧
    rest chain i j = (default null (xs !! j) :: rest chain i' j') ∧ (∀ s' xs', chain !! i' = Some (s', xs') → j' < length xs').
Proof.
  intros Hr Hi Hj. unfold next_iter. pose proof (rep_blocks _ _ _ Hr _ _ _ Hi) as Hb. pose proof (rep_live _ _ _ _ _ _ Hr Hi) as Hlive.
  destruct (rep_full _ _ _ Hr _ _ _ Hi) as (Hcl&Hf&_). destruct (rep_cap _ _ _ Hr) as [_ Hc].
  erewrite bind_eval by done. erewrite bind_eval by (apply access_eval; [done|exact Hb]). cbn [index].
  assert (bsize (block_at cap chain i xs) =? 0 = false) as -> by (cbn; apply Nat.eqb_neq; lia).
  change (b_last (block_at cap chain i xs)) with (last_index xs).
  rewrite last_index_nonempty by first [lia|by destruct xs; [cbn in Hj; lia|]]. cbn [orb].
  assert (rest chain i j = default null (xs !! j) :: drop (S j) xs ++ contents (drop (i + 1) chain)) as Hrest.
  { unfold rest. rewrite Hi. destruct (lookup_lt_is_Some_2 xs j Hj) as [x Ex]. by rewrite (drop_S _ _ _ Ex), Ex. }
  destruct (N.eqb_spec (N.of_nat j) (N.of_nat (length xs - 1))) as [Ej|Ej].
  - exists (i + 1), 0. rewrite rest_block, Hrest, (chain_end h _ _ _ s) by done.
    rewrite (drop_ge xs (S j)) by lia. cbn [app]. unfold position.
    destruct (chain !! (i + 1)) as [[s' xs']|] eqn:E; cbn [fmap option_fmap option_map fst]; [|done].
    destruct (rep_full _ _ _ Hr _ _ _ E) as (_&_&Hne). assert (0 < length xs') by (destruct xs'; [by destruct Hne; [lia|]|cbn; lia]).
    erewrite bind_eval by (apply access_eval; [by eapply rep_live|exact (rep_blocks _ _ _ Hr _ _ _ E)]).
    unfold st_read at 1, skip_in. cbn [items block_at]. erewrite bind_eval; [|rewrite skip_here; [done|by eapply chain_items|done]].
    split_all; [done..|]. by intros ? ? [= <- <-].
  - exists i, (j + 1). rewrite Hrest. unfold position, rest. rewrite Hi. erewrite bind_eval by (apply access_eval; [done|exact Hb]).
    unfold st_read at 1, skip_in. cbn [items block_at]. erewrite bind_eval; [|rewrite skip_here; [done|by eapply chain_items|lia]].
    split_all; [done|by rewrite (Nat.add_1_r j)|]. intros ? ? [= <- <-]. lia.
Qed.

Lemma items_from_spec h cap chain fuel : rep h cap chain → ∀ i j, (∀ s xs, chain !! i = Some (s, xs) → j < length xs) →
  length (rest chain i j) ≤ fuel → items_from null fuel (position chain i j) h = Some (rest chain i j, h).
Proof.
  intros Hr. induction fuel as [|fuel IH]; intros i j Hj Hf.
  all: destruct (chain !! i) as [[s xs]|] eqn:E; [|unfold position, rest; rewrite E; done].
  all: specialize (Hj _ _ eq_refl); destruct (next_iter_spec _ _ _ _ _ _ _ Hr E Hj) as (i'&j'&Hn&Hrest&Hj'); rewrite Hrest in *; cbn in Hf; try lia.
  unfold position. rewrite E. cbn [items_from]. rewrite bool_decide_eq_false_2 by done.
  destruct (lookup_lt_is_Some_2 xs j Hj) as [x Ex].
  erewrite (bind_eval (deref _)).
  2:{ unfold deref. erewrite bind_eval by done. erewrite bind_eval by (apply access_eval; [by eapply rep_live|exact (rep_blocks _ _ _ Hr _ _ _ E)]).
      unfold st_read. cbn. rewrite lookup_app_l, Ex by done. done. }
  erewrite bind_eval by exact Hn. erewrite bind_eval by (apply IH; [exact Hj'|lia]). by rewrite Ex.
Qed.

Lemma to_list_spec h cap chain fuel : rep h cap chain → length (contents chain) ≤ fuel →
  to_list null fuel (sid_at chain 0) h = Some (contents chain, h).
Proof.
  intros Hr Hf. unfold to_list, begin_iter, iter_at.
  destruct (chain !! 0) as [[s xs]|] eqn:E; [|by destruct chain; [destruct (rep_chain _ _ _ Hr)|]].
  rewrite (sid_at_lookup _ _ _ _ E). pose proof (rep_blocks _ _ _ Hr _ _ _ E) as Hb. pose proof (rep_live _ _ _ _ _ _ Hr E) as Hlive.
  assert (rest chain 0 0 = contents chain) as Hrest by (by rewrite rest_block).
  destruct (decide (xs = [])) as [->|Hx].
  - (* An empty list has one block. *)
    assert (length chain = 1) as Hl.
    { destruct (rep_full _ _ _ Hr _ _ _ E) as (_&Hfull&_). destruct (rep_cap _ _ _ Hr). apply lookup_lt_Some in E.
      destruct (decide (length chain = 1)); [done|]. cbn in Hfull. lia. }
    assert (contents chain = []) as Hnil by (destruct chain as [|p [|]]; [done| |done]; cbn in E; by injection E as ->).
    rewrite Hnil. erewrite bind_eval; [|erewrite bind_eval by done; erewrite bind_eval].
    3:{ cbn [skip_blocks]. erewrite bind_eval by (apply access_eval; [done|exact Hb]). change (bsize (block_at cap chain 0 []) =? 0) with true. cbv iota.
        rewrite (chain_end h _ _ _ s) by done. rewrite lookup_ge_None_2 by lia. done. }
    2: done. by destruct fuel.
  - assert (0 < length xs) by (by destruct xs; [|cbn; lia]).
    erewrite bind_eval; [|erewrite bind_eval by done; erewrite bind_eval].
    3:{ cbn [skip_blocks]. erewrite bind_eval by (apply access_eval; [done|exact Hb]). change (bsize (block_at cap chain 0 xs)) with (length xs).
        by rewrite (proj2 (Nat.eqb_neq _ 0)) by lia. }
    2:{ cbv iota. erewrite bind_eval by (apply access_eval; [done|exact Hb]). unfold st_read, skip_in. cbn [items block_at].
        erewrite bind_eval; [done|]. rewrite (skip_here xs _ 0); [done|by eapply chain_items|done]. }
    rewrite <- Hrest. pose proof (items_from_spec h cap chain fuel Hr 0 0) as Hi. unfold position in Hi. rewrite E in Hi.
    apply Hi; [by intros ? ? [= <- <-]|by rewrite Hrest].
Qed.

Lemma list_size_spec h cap chain : rep h cap chain → list_size (sid_at chain 0) h = Some (length (contents chain), h).
Proof.
  intros Hr. destruct (chain !! 0) as [[s xs]|] eqn:E; [|by destruct chain; [destruct (rep_chain _ _ _ Hr)|]].
  rewrite (sid_at_lookup _ _ _ _ E). unfold list_size. by erewrite bind_eval by (apply access_eval; [by eapply rep_live|exact (rep_blocks _ _ _ Hr _ _ _ E)]).
Qed.
End Chains.
