(* ===== verification/BlockListCorrect.v ===== *)
(** * Lists of the storage refine lists

    Any mix of creating lists and of adding items to them runs, whatever the
    storage holds before, and leaves each list with its own items in order. *)

From S2P Require Import Prelude ObjectId BlockList BlockListSpec.
From stdpp Require Import gmap.

(** ** Operations on several lists *)

Section Ops.
Context {T : Type} `{EqDecision T} (null : T) (itemSize : N).

(** Lists are named by the order of their creation. *)
Inductive ListOp :=
  | New (n : N)
  | Push (k : nat) (x : T).

Definition run_op (o : ListOp) (heads : list nat) : st (Heap (T:=T)) (list nat) :=
  match o with
  | New n => l ← newList null itemSize n; mret (heads ++ [l])
  | Push k x => l ← st_read (λ _, heads !! k); push_back null itemSize l x ;; mret heads
  end.

Fixpoint run_ops (ops : list ListOp) (heads : list nat) : st (Heap (T:=T)) (list nat) :=
  match ops with
  | [] => mret heads
  | o :: ops => heads ← run_op o heads; run_ops ops heads
  end.

(** What the operations are to do. *)
Definition spec_op (o : ListOp) (ls : list (list T)) : option (list (list T)) :=
  match o with
  | New _ => Some (ls ++ [[]])
  | Push k x => xs ← ls !! k; guard (x ≠ null);; Some (<[k := xs ++ [x]]> ls)
  end.

Fixpoint spec_ops (ops : list ListOp) (ls : list (list T)) : option (list (list T)) :=
  match ops with
  | [] => Some ls
  | o :: ops => ls ← spec_op o ls; spec_ops ops ls
  end.

(** ** Simulation *)

Abbreviation Chain := (list (nat * list T)).

Record sim (h : Heap) (heads : list nat) (ls : list (list T)) (cs : list (nat * Chain)) : Prop := {
  sim_rep : Forall (λ c, rep null h c.1 c.2 ∧ granted itemSize (N.of_nat c.1) = N.of_nat c.1) cs;
  sim_heads : heads = (λ c, sid_at c.2 0) <$> cs;
  sim_lists : ls = (λ c, contents c.2) <$> cs;
  sim_apart : ∀ j k c d s, cs !! j = Some c → cs !! k = Some d → s ∈ fst <$> c.2 → s ∈ fst <$> d.2 → j = k;
}.

Lemma rep_frame h h' cap (chain : Chain) : rep null h cap chain → objSID h ≤ objSID h' → (N.of_nat (objSID h') < 2 ^ 32)%N →
  (∀ s, s ∈ fst <$> chain → blocks h' !! s = blocks h !! s) → rep null h' cap chain.
Proof.
  intros Hr Ho Hn Hb. destruct Hr as [? ? ? Hf ? Hbl ? ?]. split; try done.
  - intros s Hs%Hf. lia.
  - intros i s xs Hi. rewrite Hb; [by apply Hbl|]. apply (list_elem_of_fmap_2 fst _ (s, xs)). by eapply list_elem_of_lookup_2.
Qed.

(** Adding an item, whether the last block has room for it or not. *)
Lemma push_back_spec h cap (chain : Chain) x : rep null h cap chain → x ≠ null → granted itemSize (N.of_nat cap) = N.of_nat cap →
  (N.of_nat (objSID h + 1) < 2 ^ 32)%N →
  ∃ h' chain', push_back null itemSize (sid_at chain 0) x h = Some ((), h') ∧ rep null h' cap chain' ∧
    sid_at chain' 0 = sid_at chain 0 ∧ contents chain' = contents chain ++ [x] ∧ objSID h ≤ objSID h' ≤ objSID h + 1 ∧
    (∀ s, s ∈ fst <$> chain' → s ∈ fst <$> chain ∨ s = objSID h) ∧
    (∀ s, s ∉ fst <$> chain → s < objSID h → blocks h' !! s = blocks h !! s).
Proof.
  intros Hr Hx Hg Hm.
  destruct (exists_last (rep_chain _ _ _ _ Hr)) as (pre&[t ys]&->).
  destruct (rep_full _ _ _ _ Hr (length pre) t ys) as (Hl&_&_); [by rewrite lookup_app_r, Nat.sub_diag by lia|].
  destruct (decide (length ys = cap)) as [Hc|Hc].
  - destruct (push_full null itemSize h cap pre t ys x) as (h'&Hp&Hr'&Ho&Hf); try done.
    exists h', ((pre ++ [(t, ys)]) ++ [(objSID h, [x])]). split_all; try done.
    + unfold sid_at. rewrite !Nat.Div0.mod_0_l, lookup_app_l; [done|]. rewrite length_app. cbn. lia.
    + apply contents_new.
    + lia.
    + lia.
    + intros s. rewrite fmap_app. intros [Hs| ->%list_elem_of_singleton]%elem_of_app; [by left|by right].
    + intros s Hs Hlt. apply Hf; [done|lia].
  - destruct (push_room null itemSize h cap pre t ys x) as (h'&Hp&Hr'&Ho&Hf); try done; [lia|].
    exists h', (pre ++ [(t, ys ++ [x])]). split_all; try done.
    + apply sid_at_fst. by rewrite !fmap_app.
    + apply contents_snoc.
    + lia.
    + lia.
    + intros s. rewrite !fmap_app. by left.
    + intros s Hs _. by apply Hf.
Qed.

Lemma sim_new h heads ls cs n : sim h heads ls cs → (itemSize = 8 ∨ itemSize = 16 ∨ itemSize = 32)%N →
  (N.of_nat (objSID h + 1) < 2 ^ 32)%N →
  ∃ heads' h' cs', run_op (New n) heads h = Some (heads', h') ∧ sim h' heads' (ls ++ [[]]) cs' ∧ objSID h' ≤ objSID h + 1.
Proof.
  intros [Hrep -> -> Hap] Hi Hm. destruct (granted_idem itemSize n Hi) as [Hg Hb].
  destruct (newList_spec null itemSize n h Hb Hm) as (h'&Hn&Hr&Ho&Hf). cbn [run_op].
  erewrite bind_eval by exact Hn. eexists _, h', (cs ++ [(N.to_nat (granted itemSize n), [(objSID h, [])])]).
  split; [done|]. split; [|lia]. assert (∀ c s, c ∈ cs → s ∈ fst <$> c.2 → s < objSID h) as Hlt.
  { intros c s Hc. rewrite Forall_forall in Hrep. apply (rep_fresh _ _ _ _ (proj1 (Hrep c Hc))). }
  split.
  - apply Forall_app. split; [|constructor; [|done]; split; [exact Hr|cbn; by rewrite N2Nat.id]].
    rewrite Forall_forall in Hrep |- *. intros c Hc. destruct (Hrep c Hc) as [Hrc Hgc]. split; [|done].
    eapply rep_frame; [exact Hrc|lia|by rewrite Ho|]. intros s Hs. apply Hf. by apply (Hlt c).
  - rewrite fmap_app. cbn. unfold sid_at. done.
  - rewrite fmap_app. done.
  - intros j k c d s Hj Hk Hsc Hsd.
    apply lookup_app_Some in Hj as [Hj|[Hgj Hj]], Hk as [Hk|[Hgk Hk]].
    + by eapply Hap.
    + apply list_lookup_singleton_Some in Hk as [_ <-]. cbn in Hsd. apply list_elem_of_singleton in Hsd as ->. apply list_elem_of_lookup_2 in Hj.
      specialize (Hlt _ _ Hj Hsc). cbn in Hlt. lia.
    + apply list_lookup_singleton_Some in Hj as [_ <-]. cbn in Hsc. apply list_elem_of_singleton in Hsc as ->. apply list_elem_of_lookup_2 in Hk.
      specialize (Hlt _ _ Hk Hsd). cbn in Hlt. lia.
    + apply list_lookup_singleton_Some in Hj as [Hj _], Hk as [Hk _]. lia.
Qed.

Lemma sim_push h heads ls cs k x xs : sim h heads ls cs → ls !! k = Some xs → x ≠ null →
  (N.of_nat (objSID h + 1) < 2 ^ 32)%N →
  ∃ heads' h' cs', run_op (Push k x) heads h = Some (heads', h') ∧ sim h' heads' (<[k := xs ++ [x]]> ls) cs' ∧
    objSID h' ≤ objSID h + 1.
Proof.
  intros [Hrep -> -> Hap] Hk Hx Hm. rewrite list_lookup_fmap in Hk. destruct (cs !! k) as [[cap chain]|] eqn:Ek; [|done].
  injection Hk as <-. rewrite Forall_lookup in Hrep. destruct (Hrep _ _ Ek) as [Hr Hg]. cbn [fst snd] in *.
  destruct (push_back_spec h cap chain x Hr Hx Hg Hm) as (h'&chain'&Hp&Hr'&Hs&Hc&Ho&Hin&Hf).
  exists ((λ c, sid_at c.2 0) <$> cs), h', (<[k := (cap, chain')]> cs). apply lookup_lt_Some in Ek as Hkl. split.
  { cbn [run_op]. unfold st_read at 1. erewrite bind_eval by (by rewrite list_lookup_fmap, Ek).
    cbn [snd]. by erewrite bind_eval by exact Hp. }
  assert (∀ j c s, cs !! j = Some c → s ∈ fst <$> c.2 → s < objSID h) as Hlt.
  { intros j c s Hj. apply (rep_fresh _ _ _ _ (proj1 (Hrep _ _ Hj))). }
  assert (∀ j c s, j ≠ k → cs !! j = Some c → s ∈ fst <$> c.2 → s ∉ fst <$> chain') as Hnew.
  { intros j c s Hjk Hj Hsc Hsd. destruct (Hin s Hsd) as [Hsk| ->].
    - by apply Hjk, (Hap _ _ _ _ s Hj Ek).
    - specialize (Hlt _ _ _ Hj Hsc). cbn in Hlt. lia. }
  split; [|lia]. split.
  - apply Forall_lookup. intros j c. rewrite list_lookup_insert_Some. intros [(->&<-&_)|[Hjk Hj]]; [done|].
    destruct (Hrep _ _ Hj) as [Hrc Hgc]. split; [|done]. eapply rep_frame; [exact Hrc|lia|lia|]. intros s Hsc.
    apply Hf; [|by apply (Hlt _ _ _ Hj)]. intros Hsd. by apply Hjk, (Hap _ _ _ _ s Ek Hj).
  - rewrite list_fmap_insert. cbn [snd]. rewrite Hs. symmetry. apply list_insert_id. by rewrite list_lookup_fmap, Ek.
  - rewrite list_fmap_insert. cbn [snd]. by rewrite Hc.
  - intros i j c d s. rewrite !list_lookup_insert_Some. intros [(->&<-&_)|[Hi Ei]] [(->&<-&_)|[Hj Ej]] Hsc Hsd.
    + done.
    + by destruct (Hnew j d s).
    + by destruct (Hnew i c s).
    + by eapply Hap.
Qed.

Lemma sim_ops ops : (itemSize = 8 ∨ itemSize = 16 ∨ itemSize = 32)%N → ∀ h heads ls cs ls', sim h heads ls cs → spec_ops ops ls = Some ls' →
  (N.of_nat (objSID h + length ops) < 2 ^ 32)%N →
  ∃ heads' h' cs', run_ops ops heads h = Some (heads', h') ∧ sim h' heads' ls' cs'.
Proof.
  intros Hi. induction ops as [|o ops IH]; intros h heads ls cs ls' Hsim Hs Hm.
  { injection Hs as <-. by exists heads, h, cs. }
  cbn in Hs, Hm. apply bind_Some in Hs as (ls1&Ho&Hs).
  assert (∃ heads' h' cs', run_op o heads h = Some (heads', h') ∧ sim h' heads' ls1 cs' ∧ objSID h' ≤ objSID h + 1) as (heads1&h1&cs1&Hr&H1&Hle).
  { destruct o as [n|k x]; cbn in Ho.
    - injection Ho as <-. apply (sim_new _ _ _ cs); [done|done|lia].
    - apply bind_Some in Ho as (xs&Hk&Ho). case_guard; [|done]. injection Ho as <-. apply (sim_push _ _ _ cs); [done|done|done|lia]. }
  destruct (IH _ _ _ _ _ H1 Hs) as (heads2&h2&cs2&Hr2&H2); [lia|]. exists heads2, h2, cs2. split; [|done].
  cbn [run_ops]. by erewrite bind_eval by exact Hr.
Qed.

(** C36 Lists in blocks refine lists.  Creating any number of lists and adding
    items that are not null to lists that were created, in any order and from
    whatever contents of the storage, succeeds as long as the storage has
    numbers left: each operation takes at most one of its [2 ^ 32 - 1] numbers,
    the counter wraps around after them and the null number comes next.
    Afterwards the size of each list is the number of the items added to it, and
    iterating over the list ends and visits these items in the order they were
    added.  In particular the lists do not disturb each other when the storage
    gives them further blocks. *)
Theorem lists_refined h ops ls : (itemSize = 8 ∨ itemSize = 16 ∨ itemSize = 32)%N → spec_ops ops [] = Some ls →
  (N.of_nat (objSID h + length ops) < 2 ^ 32)%N →
  ∃ heads h', run_ops ops [] h = Some (heads, h') ∧ length heads = length ls ∧
    ∀ k l xs, heads !! k = Some l → ls !! k = Some xs →
      list_size l h' = Some (length xs, h') ∧ to_list null (length xs) l h' = Some (xs, h').
Proof.
  intros Hi Hs Hm. assert (sim h [] [] []) as H0 by (by split; [constructor|..]).
  destruct (sim_ops ops Hi _ _ _ _ _ H0 Hs Hm) as (heads&h'&cs&Hr&[Hrep -> -> Hap]). eexists _, h'. split; [exact Hr|].
  split; [by rewrite !length_fmap|]. intros k l xs. rewrite !list_lookup_fmap.
  destruct (cs !! k) as [[cap chain]|] eqn:Ek; [|done]. intros [= <-] [= <-]. cbn [snd].
  rewrite Forall_lookup in Hrep. destruct (Hrep _ _ Ek) as [Hc _]. split; [|by eapply to_list_spec].
  by apply (list_size_spec null _ cap).
Qed.

(** ** Erasing *)

(** Iteration in the last block of a list stops at the index noted as the last. *)
Lemma items_from_upto h s b n : isNullSID s = false → blocks h !! s = Some b → bsize b ≠ 0 → isEnd b = true → b_last b = N.of_nat n →
  S n ≤ length (items b) → Forall (λ x, x ≠ null) (take (S n) (items b)) →
  ∀ fuel j, j ≤ n → n - j < fuel → items_from null fuel (mkIter (Some s) j) h = Some (drop j (take (S n) (items b)), h).
Proof.
  intros Hlive Hb Hs He Hlast Hlen Hx fuel. induction fuel as [|fuel IH]; intros j Hj Hf; [lia|].
  destruct (lookup_lt_is_Some_2 (take (S n) (items b)) j) as [x Ex]; [rewrite length_take; lia|].
  assert (items b !! j = Some x) as Eb by (rewrite lookup_take_Some in Ex; tauto).
  rewrite (drop_S _ _ _ Ex). cbn [items_from]. rewrite bool_decide_eq_false_2 by done.
  erewrite bind_eval; [|unfold deref; erewrite bind_eval by done; erewrite bind_eval by (apply access_eval; [done|exact Hb]); unfold st_read; cbn [index]; by rewrite Eb].
  unfold next_iter. cbn [index].
  destruct (N.eqb_spec (N.of_nat j) (N.of_nat n)) as [E|E].
  - apply Nat2N.inj in E as ->. erewrite bind_eval.
    2:{ erewrite bind_eval by done. erewrite bind_eval by (apply access_eval; [done|exact Hb]).
        rewrite (proj2 (Nat.eqb_neq (bsize b) 0) Hs), Hlast, N.eqb_refl by done. unfold moveNextBlock. cbn [orb]. rewrite He. done. }
    rewrite drop_ge by (rewrite length_take; lia). by destruct fuel.
  - erewrite bind_eval.
    2:{ erewrite bind_eval by done. erewrite bind_eval by (apply access_eval; [done|exact Hb]).
        rewrite (proj2 (Nat.eqb_neq (bsize b) 0) Hs), Hlast, (proj2 (N.eqb_neq _ _)) by done. cbn [orb].
        erewrite bind_eval by (apply access_eval; [done|exact Hb]). unfold st_read, skip_in.
        destruct (lookup_lt_is_Some_2 (take (S n) (items b)) (j + 1)) as [y Ey]; [rewrite length_take; lia|].
        assert (items b !! (j + 1) = Some y) as Eby by (rewrite lookup_take_Some in Ey; tauto).
        erewrite bind_eval; [done|]. rewrite (drop_S _ _ _ Eby). cbn. unfold isNull.
        by rewrite bool_decide_eq_false_2 by apply (Forall_lookup_1 _ _ _ _ Hx Ey). }
    erewrite bind_eval by (apply IH; lia). by rewrite Nat.add_1_r.
Qed.

Lemma to_list_upto h s b n fuel : isNullSID s = false → blocks h !! s = Some b → bsize b ≠ 0 → isEnd b = true → b_last b = N.of_nat n →
  S n ≤ length (items b) → Forall (λ x, x ≠ null) (take (S n) (items b)) → n < fuel →
  to_list null fuel s h = Some (take (S n) (items b), h).
Proof.
  intros Hlive Hb Hs He Hlast Hlen Hx Hf. unfold to_list, begin_iter, iter_at.
  assert (skip_in null b 0 = Some 0) as Hskip.
  { destruct (lookup_lt_is_Some_2 (items b) 0) as [x Ex]; [lia|]. unfold skip_in. rewrite (drop_S _ _ _ Ex). cbn. unfold isNull.
    rewrite bool_decide_eq_false_2; [done|]. apply (Forall_lookup_1 _ _ 0 _ Hx). by rewrite lookup_take_lt by lia. }
  erewrite bind_eval.
  2:{ erewrite bind_eval by done. erewrite bind_eval.
      2:{ cbn [skip_blocks]. erewrite bind_eval by (apply access_eval; [done|exact Hb]). by rewrite (proj2 (Nat.eqb_neq _ 0) Hs). }
      cbv iota. erewrite bind_eval by (apply access_eval; [done|exact Hb]). unfold st_read. erewrite bind_eval by (by rewrite Hskip). done. }
  by apply (items_from_upto h s b n Hlive Hb Hs He Hlast Hlen Hx fuel 0); lia.
Qed.

Lemma occupied_before (l : list T) i x : l !! i = Some x → x ≠ null → occupied_below null l (S i) = Some i.
Proof. intros Hl Hx. cbn. rewrite Hl. unfold isNull. by rewrite bool_decide_eq_false_2. Qed.

(** C37 Erasing an item in the middle of a block cuts the list: the index of the
    last item is set to the one before the erased item although items follow, so
    the size is right but iteration stops there and the items after it are lost. *)
Theorem erase_middle_cuts h cap s xs i : rep null h cap [(s, xs)] → (0 < i)%nat → i + 1 < length xs →
  ∃ h', erase null s (mkIter (Some s) i) h = Some (mkIter (Some s) (i + 1), h') ∧
    list_size s h' = Some (length xs - 1, h') ∧ to_list null (length xs) s h' = Some (take i xs, h').
Proof.
  intros Hr Hi Hl. pose proof (rep_blocks _ _ _ _ Hr 0 s xs eq_refl) as Hb. pose proof (rep_live _ _ _ _ 0 s xs Hr eq_refl) as Hlive.
  destruct (rep_full _ _ _ _ Hr 0 s xs eq_refl) as (Hcl&_&_). pose proof (chain_items _ _ _ _ 0 s xs Hr eq_refl) as Hx.
  set (b0 := block_at null cap [(s, xs)] 0 xs) in *. set (its := <[i := null]> (items b0)).
  set (b1 := mkBlock (length xs - 1) (N.of_nat cap) (length xs - 1) (N.of_nat (i - 1)) s s true true its).
  assert (∀ j, j < length xs → ∃ x, items b0 !! j = Some x ∧ xs !! j = Some x ∧ x ≠ null) as Hits.
  { intros j Hj. destruct (lookup_lt_is_Some_2 xs j Hj) as [x Ex]. exists x. split_all; [|done|by apply (Forall_lookup_1 _ _ _ _ Hx Ex)].
    unfold b0. cbn. by rewrite lookup_app_l. }
  assert (erase null s (mkIter (Some s) i) h = Some (mkIter (Some s) (i + 1), mkHeap (<[s := b1]> (blocks h)) (objSID h))) as He.
  { destruct (Hits i) as (x&Ei&_&Hxi); [lia|]. destruct (Hits (i - 1)) as (y&Ep&_&Hy); [lia|]. destruct (Hits (i + 1)) as (z&En&_&Hz); [lia|].
    unfold erase. erewrite bind_eval by done. heap_step. unfold st_read at 1. cbn [index]. erewrite bind_eval by (by rewrite Ei).
    unfold isNull at 1. rewrite bool_decide_eq_false_2 by done. erewrite bind_eval by done. heap_step. heap_step. heap_step. heap_step.
    match goal with |- context [isBegin ?b] => set (b2 := b) end. change (isBegin b2) with true. change (items b2) with its.
    rewrite andb_false_r. heap_step. unfold next_iter. erewrite bind_eval by done. heap_step. change (items b2) with its.
    assert (its !! (i - 1) = Some y ∧ its !! (i + 1) = Some z) as [Ey Ez] by (unfold its; rewrite !list_lookup_insert_ne by lia; done).
    pose proof (occupied_before its (i - 1) y Ey Hy) as Ho. replace (S (i - 1)) with i in Ho by lia. rewrite Ho.
    assert (setItems (bsize b2) (N.of_nat (i - 1)) its b2 = b1) as -> by (unfold b1, b2, b0; cbn; by rewrite app_nil_r).
    cbn [index bsize b1 b_last]. rewrite (proj2 (Nat.eqb_neq (length xs - 1) 0)), (proj2 (N.eqb_neq _ _)) by lia. cbn [orb].
    heap_step. unfold st_read, skip_in. cbn [items b1]. erewrite bind_eval.
    2:{ rewrite (drop_S _ _ _ Ez). cbn. unfold isNull. by rewrite bool_decide_eq_false_2. }
    by rewrite !insert_insert_eq. }
  assert (take (S (i - 1)) its = take i xs) as Ht.
  { replace (S (i - 1)) with i by lia. unfold its. rewrite take_insert_ge by lia. unfold b0. cbn. by rewrite take_app_le by lia. }
  eexists. split; [exact He|]. split.
  - unfold list_size. erewrite bind_eval by (apply access_eval; [done|apply lookup_insert_eq]). done.
  - rewrite <- Ht. apply (to_list_upto _ s b1 (i - 1)); try done; cbn [blocks items b1].
    + apply lookup_insert_eq.
    + cbn. lia.
    + unfold its, b0. cbn. rewrite length_insert, length_app. lia.
    + rewrite Ht. by apply Forall_take.
    + lia.
Qed.
End Ops.

(** ** Witnesses *)

(** Two lists, the first of which outgrows its first block. *)
Definition demo_ops : list ListOp :=
  [New 1; New 1; Push 0 1; Push 1 9; Push 0 2; Push 0 3; Push 0 4; Push 0 5; Push 1 8].

Lemma lists_refined_witness :
  spec_ops 0 demo_ops [] = Some [[1; 2; 3; 4; 5]; [9; 8]] ∧ (N.of_nat (0 + length demo_ops) < 2 ^ 32)%N ∧
  ∃ heads h', run_ops 0 8 demo_ops [] (mkHeap ∅ 0) = Some (heads, h') ∧ length heads = 2 ∧
    ∀ k l xs, heads !! k = Some l → [[1; 2; 3; 4; 5]; [9; 8]] !! k = Some xs →
      list_size l h' = Some (length xs, h') ∧ to_list 0 (length xs) l h' = Some (xs, h').
Proof.
  split; [vm_compute; reflexivity|]. split; [reflexivity|].
  exact (lists_refined 0 8 (mkHeap ∅ 0) demo_ops [[1; 2; 3; 4; 5]; [9; 8]] (or_introl eq_refl) eq_refl eq_refl).
Defined.

Definition demo_heap : Heap (T:=nat) := mkHeap {[ 0 := block_at 0 4 [(0, [1; 2; 3])] 0 [1; 2; 3] ]} 1.

Lemma demo_heap_rep : rep 0 demo_heap 4 [(0, [1; 2; 3])].
Proof.
  split.
  - lia.
  - done.
  - apply NoDup_singleton.
  - intros s ->%list_elem_of_singleton. cbn. lia.
  - done.
  - intros [|i] s xs Hi; [|done]. injection Hi as <- <-. apply lookup_singleton_eq.
  - intros [|i] s xs Hi; [|done]. injection Hi as <- <-. cbn. split_all; [lia|lia|done].
  - repeat constructor; done.
Qed.

Lemma erase_middle_cuts_witness :
  rep 0 demo_heap 4 [(0, [1; 2; 3])] ∧
  ∃ h', erase 0 0 (mkIter (Some 0) 1) demo_heap = Some (mkIter (Some 0) 2, h') ∧
    list_size 0 h' = Some (2, h') ∧ to_list 0 3 0 h' = Some ([1], h').
Proof.
  split; [apply demo_heap_rep|].
  apply (erase_middle_cuts 0 demo_heap 4 0 [1; 2; 3] 1 demo_heap_rep); [lia|cbn; lia].
Defined.
