(* ===== verification/Nets.v ===== *)
(** * Nets ([gate/model/cell.h, cell.cpp, net.h, net.cpp, array.h])

    Cells of nets with their packed links, the storage of the cells, and the
    builder of nets.  The lists of the builder are lists in blocks; by
    [lists_refined] they are taken here for the lists of their items. *)

From S2P Require Import Prelude ObjectId CellType SubnetBase BlockList.
From stdpp Require Import gmap strings.

(** ** Definitions *)

Module Nets.

Section Nets.
Context `{TypeStore}.

(** A cell; [links] is the array of packed links, if there is one. *)
(* gate/model/cell.h:31-92 [Cell] *)
Record Cell := mkCell {
  typeID : TypeID;
  fanin : N;
  fanout : N;
  array : option (list Z);
}.

(* gate/model/cell.h:39-39 [Cell::MaxFanin] *)
Definition MaxFanin : N := (2 ^ 23 - 1)%N.
(* gate/model/cell.h:40-40 [Cell::MaxFanout] *)
Definition MaxFanout : N := (2 ^ 32 - 1)%N.

(* gate/model/net.h:100-116 [NetBuilder] *)
Record NetBuilder := mkLists {
  inputs : list Z;
  outputs : list Z;
  combCells : list Z;
  flipFlops : list Z;
  hardBlocks : list Z;
  softBlocks : list Z;
}.

(** The cells by their storage numbers, the next number, and a builder. *)
Record State := mkState {
  cells : gmap Z Cell;
  cellSID : Z;
  builder : NetBuilder;
}.

(** The lists of a net are those of its builder. *)
(* gate/model/net.h:22-92 [Net] *)
Record Net := mkNet {
  lists : NetBuilder;
  nInputs : N;
  nOutputs : N;
  nCells : N;
}.

(** *** Cells *)

(* gate/model/storage.h:175-178 [Object::get] *)
Definition get (s : State) (cellID : Z) : option Cell :=
  if (cellID =? OBJ_NULL_ID)%Z then None else cells s !! makeSID CellID cellID.

Definition put (cellID : Z) (c : Cell) (s : State) : State :=
  mkState (<[makeSID CellID cellID := c]> (cells s)) (cellSID s) (builder s).

(* gate/model/cell.h:57-59 [Cell::getTypeID, Cell::getType] *)
Definition cellType (c : Cell) : option CellType := getType (typeID c).

(** The capacity of the array that is allocated for [n] items. *)
(* gate/model/array.h:95-98 [Array::Array(uint32_t)] *)
Definition newArray (n : N) : option N :=
  let cap := getSizeInItems 8 (N.min (getSizeInBytes 8 n) LARGE_PAGE_SIZE) in
  if (cap =? 0)%N then None else if (n <=? cap)%N then Some cap else None.

(* gate/model/cell.cpp:16-25 [Cell::Cell(CellTypeID, LinkList)] *)
Definition Cell_links (type : TypeID) (links : list Z) : option Cell :=
  match links with
  | [] => Some (mkCell type 0 0 None)
  | _ => _ ← newArray (N.of_nat (length links));
         Some (mkCell type (N.of_nat (length links) mod 2 ^ 32)%N 0 (Some (pack <$> links)))
  end.

(* gate/model/cell.h:75-75 [Cell::Cell(CellTypeID)] *)
Definition Cell_type (type : TypeID) : Cell := mkCell type 0 0 None.

(* gate/model/cell.cpp:27-39 [Cell::getLinks] *)
Definition getLinks (c : Cell) : option (list Z) :=
  if (fanin c =? 0)%N then Some []
  else a ← array c; mapM (λ i, unpack <$> a !! i) (seq 0 (N.to_nat (fanin c))).

(* gate/model/cell.cpp:41-44 [Cell::getLink] *)
Definition getLink (c : Cell) (port : nat) : option Z := a ← array c; unpack <$> a !! port.

(* gate/model/cell.cpp:46-51 [Cell::setLink] *)
Definition setLink (c : Cell) (port : nat) (source : Z) : option Cell :=
  if (N.of_nat port <? fanin c)%N then
    a ← array c; old ← a !! port;
    if isValid (unpack old) then None
    else Some (mkCell (typeID c) (fanin c) (fanout c) (Some (<[port := pack source]> a)))
  else None.

(* gate/model/cell.h:107-112 [makeCell(CellTypeID, LinkList)] *)
Definition makeCell (type : TypeID) (links : list Z) : st State Z :=
  st_assert (negb (bool_decide (type = NullTypeID))) ;;
  c ← st_read (λ _, Cell_links type links);
  s ← st_get;
  st_put (mkState (<[cellSID s := c]> (cells s)) ((cellSID s + 1) mod 2 ^ 32)%Z (builder s)) ;;
  st_assert (negb (makeFID CellID (cellSID s) =? OBJ_NULL_ID)%Z) ;;
  mret (makeFID CellID (cellSID s)).

(* gate/model/cell.h:100-105 [makeCell(CellTypeID)] *)
Definition makeCell_type (type : TypeID) : st State Z := makeCell type [].

(* gate/model/cell.h:114-137 [makeCell(CellSymbol, ...)] *)
Definition makeCell_symbol (symbol : CellSymbol) (links : list Z) : st State Z :=
  makeCell (getCellTypeID symbol) links.

(* gate/model/cell.h:144-165 [makeCell(CellSymbol, CellID, ...)] *)
Definition makeCell_cells (symbol : CellSymbol) (ids : list Z) : st State Z :=
  makeCell_symbol symbol ((λ id, LinkEnd id 0%Z) <$> ids).

(** *** The builder *)

(* gate/model/net.cpp:16-20 [NetBuilder::incRefCount] *)
Definition incRefCount (link : Z) : st State unit := st_update (λ s,
  c ← get s (getCellID link);
  if (fanout c =? MaxFanout)%N then None
  else Some (put (getCellID link) (mkCell (typeID c) (fanin c) (fanout c + 1) (array c)) s)).

Inductive CellClass := InCell | OutCell | SoftBlock | HardBlock | CombCell | FlipFlop.

#[export] Instance CellClass_eq_dec : EqDecision CellClass.
Proof. solve_decision. Defined.

(* gate/model/net.cpp:28-40 [NetBuilder::addCell] *)
Definition classify (t : CellType) : CellClass :=
  if isSym IN t then InCell
  else if isSym OUT t then OutCell
  else if isSoft t then SoftBlock
  else if isHard t then HardBlock
  else if combinational (props t) then CombCell
  else FlipFlop.

Definition push (k : CellClass) (id : Z) (b : NetBuilder) : NetBuilder :=
  let add k' l := if bool_decide (k = k') then l ++ [id] else l in
  mkLists (add InCell (inputs b)) (add OutCell (outputs b)) (add CombCell (combCells b))
    (add FlipFlop (flipFlops b)) (add HardBlock (hardBlocks b)) (add SoftBlock (softBlocks b)).

(* gate/model/net.cpp:22-50 [NetBuilder::addCell] *)
Definition addCell (cellID : Z) : st State unit :=
  st_assert (negb (cellID =? OBJ_NULL_ID)%Z) ;;
  c ← st_read (λ s, get s cellID);
  t ← st_read (λ _, cellType c);
  st_update (λ s, Some (mkState (cells s) (cellSID s) (push (classify t) cellID (builder s)))) ;;
  links ← st_read (λ _, getLinks c);
  st_for links (λ link, if isValid link then incRefCount link else mret ()).

(** The port is an [uint16_t]. *)
(* gate/model/net.cpp:52-57 [NetBuilder::connect] *)
Definition connect (cellID : Z) (port : nat) (source : Z) : st State unit :=
  st_assert (negb (cellID =? OBJ_NULL_ID)%Z) ;;
  c ← st_read (λ s, get s cellID);
  c ← st_read (λ _, setLink c (to_u16 port) source);
  st_update (λ s, Some (put cellID c s)) ;;
  incRefCount source.

Definition list_len (l : list Z) : option N :=
  let n := N.of_nat (length l) in if (n <? 2 ^ 32)%N then Some n else None.

(* gate/model/net.cpp:59-88 [NetBuilder::make] *)
Definition make (s : State) : option Net :=
  let b := builder s in
  nInputs ← list_len (inputs b); nOutputs ← list_len (outputs b); nCombCells ← list_len (combCells b);
  nFlipFlops ← list_len (flipFlops b); nHardBlocks ← list_len (hardBlocks b); nSoftBlocks ← list_len (softBlocks b);
  Some (mkNet b nInputs nOutputs
    ((nInputs + nOutputs + nCombCells + nFlipFlops + nHardBlocks + nSoftBlocks) mod 2 ^ 32)%N).

(** *** Nets *)

(* gate/model/net.h:37-37 [Net::getInNum] *)
Definition getInNum (n : Net) : N := nInputs n.
(* gate/model/net.h:39-39 [Net::getOutNum] *)
Definition getOutNum (n : Net) : N := nOutputs n.
(* gate/model/net.h:41-41 [Net::getCellNum] *)
Definition getCellNum (n : Net) : N := nCells n.
(* gate/model/net.h:44-44 [Net::getCombNum] *)
Definition getCombNum (n : Net) : N := (N.of_nat (length (combCells (lists n))) mod 2 ^ 32)%N.
(* gate/model/net.h:46-46 [Net::getFlipNum] *)
Definition getFlipNum (n : Net) : N := (N.of_nat (length (flipFlops (lists n))) mod 2 ^ 32)%N.
(* gate/model/net.h:48-48 [Net::getHardNum] *)
Definition getHardNum (n : Net) : N := (N.of_nat (length (hardBlocks (lists n))) mod 2 ^ 32)%N.
(* gate/model/net.h:50-50 [Net::getSoftNum] *)
Definition getSoftNum (n : Net) : N := (N.of_nat (length (softBlocks (lists n))) mod 2 ^ 32)%N.

Definition empty_net : NetBuilder := mkLists [] [] [] [] [] [].

(** All the cells that have been added, list by list. *)
Definition all_cells (b : NetBuilder) : list Z :=
  inputs b ++ outputs b ++ combCells b ++ flipFlops b ++ hardBlocks b ++ softBlocks b.

End Nets.
End Nets.
