(* ===== verification/NetSpec.v ===== *)
(** * The builder of nets is correct

    In every state that clients reach, each list of the builder has the added
    cells of its class in the order of their addition, and the fanout of a cell is
    the number of the links of added cells that lead to it. *)

From S2P Require Import Prelude ObjectId CellType SubnetBase BlockList BlockListSpec Nets.
From stdpp Require Import gmap strings.
Import Nets.

(** ** Definitions *)

Section NetSpec.
Context `{TypeStore}.

(** Links that clients can have: the null link, and links to cells. *)
Definition good_link (w : Z) : Prop :=
  w = LinkEnd_null ∨
  ∃ sid port, (0 ≤ sid < NullSID CellID)%Z ∧ (0 ≤ port ≤ PortMask)%Z ∧ w = LinkEnd (makeFID CellID sid) port.

(** The number of the cell that a link leads to. *)
Definition source (w : Z) : Z := makeSID CellID (getCellID w).

Definition points (k w : Z) : bool := isValid w && (source w =? k)%Z.

Definition count (k : Z) (ls : list Z) : nat := length (filter (λ w, points k w = true) ls).

Definition cell_links (c : Cell) : list Z := default [] (array c).

Definition links_of (cs : gmap Z Cell) (id : Z) : list Z := default [] (cell_links <$> cs !! makeSID CellID id).

(** The number of links to the cell [k] from the cells [added]. *)
Definition refs (cs : gmap Z Cell) (added : list Z) (k : Z) : nat := sum_list_with (λ id, count k (links_of cs id)) added.

Definition class_of (cs : gmap Z Cell) (id : Z) : option CellClass :=
  c ← cs !! makeSID CellID id; classify <$> cellType c.

Definition of_class (cs : gmap Z Cell) (added : list Z) (k : CellClass) : list Z :=
  filter (λ id, class_of cs id = Some k) added.

Definition lists_of (cs : gmap Z Cell) (added : list Z) : NetBuilder :=
  mkLists (of_class cs added InCell) (of_class cs added OutCell) (of_class cs added CombCell)
    (of_class cs added FlipFlop) (of_class cs added HardBlock) (of_class cs added SoftBlock).

(** *** Clients *)

Inductive Request :=
  | RMake (type : TypeID) (links : list Z)
  | RAdd (cellID : Z)
  | RConnect (cellID : Z) (port : nat) (link : Z).

Definition run (r : Request) : st State unit :=
  match r with
  | RMake type links => makeCell type links ;; mret ()
  | RAdd cellID => addCell cellID
  | RConnect cellID port link => connect cellID port link
  end.

Definition added_by (r : Request) (added : list Z) : list Z :=
  match r with RAdd cellID => added ++ [cellID] | _ => added end.

Definition leads (cs : gmap Z Cell) (w : Z) : Prop := isValid w = true → is_Some (cs !! source w).

(** What clients may ask: cells of known types with links to cells that exist,
    adding a cell once, and connecting a port of an added cell that is free.  The
    port is taken modulo [2 ^ 16], as the code does. *)
Definition allowed (s : State) (added : list Z) (r : Request) : Prop :=
  match r with
  | RMake type links => is_Some (getType type) ∧ Forall (λ w, good_link w ∧ leads (cells s) w) links ∧
      (N.of_nat (length links) ≤ 8388604)%N ∧ (cellSID s + 1 < 2 ^ 32)%Z
  | RAdd cellID => ∃ k c, cellID = makeFID CellID k ∧ cells s !! k = Some c ∧ cellID ∉ added ∧
      ∀ j d, cells s !! j = Some d → (fanout d + N.of_nat (count j (cell_links c)) ≤ MaxFanout)%N
  | RConnect cellID port link => ∃ k c d, cellID = makeFID CellID k ∧ cellID ∈ added ∧ cells s !! k = Some c ∧
      good_link link ∧ isValid link = true ∧ cells s !! source link = Some d ∧ (fanout d < MaxFanout)%N ∧
      cell_links c !! to_u16 port = Some LinkEnd_null
  end.

Inductive net_reachable : State → list Z → Prop :=
  | net_start : net_reachable (mkState ∅ 0 empty_net) []
  | net_step s added r s' : net_reachable s added → allowed s added r → run r s = Some ((), s') →
      net_reachable s' (added_by r added).

(** ** The invariant *)

Record cell_ok (cs : gmap Z Cell) (c : Cell) : Prop := {
  ok_fanin : fanin c = N.of_nat (length (cell_links c));
  ok_array : cell_links c ≠ [] → array c = Some (cell_links c);
  ok_small : (fanin c < 2 ^ 32)%N;
  ok_links : Forall (λ w, good_link w ∧ leads cs w) (cell_links c);
  ok_type : is_Some (cellType c);
}.

Record net_inv (s : State) (added : list Z) : Prop := {
  inv_sid : (0 ≤ cellSID s < 2 ^ 32)%Z;
  inv_below : ∀ k c, cells s !! k = Some c → (0 ≤ k < cellSID s)%Z;
  inv_dense : ∀ k, (0 ≤ k < cellSID s)%Z → is_Some (cells s !! k);
  inv_cells : ∀ k c, cells s !! k = Some c → cell_ok (cells s) c;
  inv_added : ∀ id, id ∈ added → ∃ k c, id = makeFID CellID k ∧ cells s !! k = Some c;
  inv_nodup : NoDup added;
  inv_lists : builder s = lists_of (cells s) added;
  inv_fanout : ∀ k c, cells s !! k = Some c → fanout c = N.of_nat (refs (cells s) added k);
}.

(** *** Identifiers and links *)

Lemma sid_range k n : (0 ≤ k < n)%Z → (n < 2 ^ 32)%Z → (0 ≤ k < NullSID CellID)%Z.
Proof. intros Hk Hn. unfold NullSID. cbn [Bits CellID ObjectID]. change (2 ^ 32)%Z with 4294967296%Z in Hn. change (2 ^ 40)%Z with 1099511627776%Z. lia. Qed.

Lemma sid_of k : (0 ≤ k < NullSID CellID)%Z → makeSID CellID (makeFID CellID k) = k.
Proof. intros Hk. apply makeSID_makeFID; [done|reflexivity|lia]. Qed.

Lemma fid_not_null k : (0 ≤ k < NullSID CellID)%Z → (makeFID CellID k =? OBJ_NULL_ID)%Z = false.
Proof.
  intros Hk. apply Z.eqb_neq. intros E. pose proof (checkTag_makeFID CellID CellID k eq_refl) as Ht.
  rewrite E in Ht. specialize (Ht ltac:(vm_compute; discriminate) ltac:(lia)). change (checkTag CellID OBJ_NULL_ID) with false in Ht.
  rewrite (proj2 (Z.eqb_neq k (NullSID CellID))) in Ht by lia. done.
Qed.

Lemma get_fid s k c : (0 ≤ k < NullSID CellID)%Z → cells s !! k = Some c → get s (makeFID CellID k) = Some c.
Proof. intros Hk Hc. unfold get. by rewrite fid_not_null, sid_of. Qed.

Lemma good_unpack w : good_link w → unpack w = w.
Proof.
  intros [->|(sid&port&Hs&Hp&->)]; [done|].
  destruct (link_end_roundtrip sid port ltac:(lia) Hp) as (_&_&_&Hu&_). exact Hu.
Qed.

Lemma good_cell w : good_link w → isValid w = true → (0 ≤ source w < NullSID CellID)%Z ∧ getCellID w = makeFID CellID (source w).
Proof.
  intros [->|(sid&port&Hs&Hp&->)] Hv; [done|].
  destruct (link_end_roundtrip sid port ltac:(lia) Hp) as (Hc&_&_&_&_). unfold source. rewrite Hc, sid_of by done. done.
Qed.

Lemma getLinks_ok cs c : cell_ok cs c → getLinks c = Some (cell_links c).
Proof.
  intros [Hf Ha Hl Hg _]. unfold getLinks. rewrite Hf. destruct (cell_links c) as [|w ws] eqn:E; [done|].
  rewrite (proj2 (N.eqb_neq _ _)) by (cbn; lia). rewrite Ha by done. cbn [mbind option_bind]. rewrite Nat2N.id.
  apply mapM_Some. apply Forall2_same_length_lookup_2; [by rewrite length_seq|]. intros i j w' Hj Hi.
  apply lookup_seq in Hj as [-> _]. rewrite Nat.add_0_l, Hi. cbn. f_equal. apply good_unpack.
  by apply (Forall_lookup_1 _ _ _ _ Hg Hi).
Qed.

(** *** Counting references *)

Definition with_fanout (n : N) (c : Cell) : Cell := mkCell (typeID c) (fanin c) n (array c).

(** The state [s'] is [s] with [f k] more references to the cell [k]. *)
Record bumped (s s' : State) (f : Z → nat) : Prop := {
  bp_sid : cellSID s' = cellSID s;
  bp_builder : builder s' = builder s;
  bp_cells : ∀ k, cells s' !! k = (λ c, with_fanout (fanout c + N.of_nat (f k)) c) <$> cells s !! k;
}.

Lemma with_fanout_same c : with_fanout (fanout c + N.of_nat 0) c = c.
Proof. unfold with_fanout. rewrite N.add_0_r. by destruct c. Qed.

Lemma bumped_none s : bumped s s (λ _, 0).
Proof. split; try done. intros k. destruct (cells s !! k) as [c|]; [|done]. cbn [fmap option_fmap option_map]. by rewrite with_fanout_same. Qed.

Lemma incRefCount_spec s w c : good_link w → isValid w = true → cells s !! source w = Some c → (fanout c < MaxFanout)%N →
  ∃ s', incRefCount w s = Some ((), s') ∧ bumped s s' (λ k, count k [w]).
Proof.
  intros Hg Hv Hc Hm. destruct (good_cell w Hg Hv) as [Hr E]. unfold incRefCount, st_update. rewrite E, (get_fid s _ c Hr Hc).
  cbn [mbind option_bind]. rewrite (proj2 (N.eqb_neq _ _)) by lia. eexists. split; [done|]. split; [done..|].
  intros k. unfold put. cbn [cells]. rewrite sid_of by done. assert (points k w = (source w =? k)%Z) as Hp by (unfold points; by rewrite Hv). unfold count.
  destruct (Z.eq_dec (source w) k) as [<-|Hk].
  - rewrite lookup_insert_eq, Hc. rewrite filter_cons_True by (by rewrite Hp, Z.eqb_refl). done.
  - rewrite lookup_insert_ne by done. rewrite filter_cons_False by (by rewrite Hp, (proj2 (Z.eqb_neq _ _))).
    destruct (cells s !! k) as [d|]; [|done]. cbn [fmap option_fmap option_map]. by rewrite with_fanout_same.
Qed.

Lemma count_cons k w ls : count k (w :: ls) = count k [w] + count k ls.
Proof. unfold count. rewrite (filter_app _ [w] ls), length_app. done. Qed.

Lemma count_invalid k w : isValid w = false → count k [w] = 0.
Proof. intros Hv. unfold count. rewrite filter_cons_False; [done|]. unfold points. by rewrite Hv. Qed.

Lemma count_source w : isValid w = true → count (source w) [w] = 1.
Proof. intros Hv. unfold count. rewrite filter_cons_True; [done|]. unfold points. by rewrite Hv, Z.eqb_refl. Qed.

(** The loop of [addCell] over the links. *)
Lemma count_links ls : ∀ s, Forall (λ w, good_link w ∧ leads (cells s) w) ls →
  (∀ j d, cells s !! j = Some d → (fanout d + N.of_nat (count j ls) ≤ MaxFanout)%N) →
  ∃ s', st_for ls (λ link, if isValid link then incRefCount link else mret ()) s = Some ((), s') ∧ bumped s s' (λ k, count k ls).
Proof.
  induction ls as [|w ls IH]; intros s Hg Hm; [exists s; split; [done|apply bumped_none]|].
  inversion Hg as [|?? [Hw Hl] Hls]; subst. cbn [st_for].
  assert (∃ s1, (if isValid w then incRefCount w else mret ()) s = Some ((), s1) ∧ bumped s s1 (λ k, count k [w])) as (s1&H1&[Es Eb Ec]).
  { destruct (isValid w) eqn:Hv.
    - destruct (Hl Hv) as [c Hc]. apply (incRefCount_spec s w c Hw Hv Hc). specialize (Hm _ _ Hc).
      rewrite (count_cons _ w ls), count_source in Hm by done. lia.
    - exists s. split; [done|]. destruct (bumped_none s) as [? ? Hb]. split; [done..|]. intros k. by rewrite count_invalid. }
  erewrite bind_eval by exact H1. destruct (IH s1) as (s2&H2&[Es2 Eb2 Ec2]).
  - eapply Forall_impl; [exact Hls|]. intros x [Hx Hlx]. split; [done|]. intros Hv. rewrite Ec. destruct (Hlx Hv) as [c ->]. by eexists.
  - intros j d. rewrite Ec. destruct (cells s !! j) as [c|] eqn:Ej; [|done]. intros [= <-]. cbn [fanout with_fanout].
    specialize (Hm j c Ej). rewrite (count_cons j w ls) in Hm. lia.
  - exists s2. split; [exact H2|]. split; [congruence|congruence|]. intros k. rewrite Ec2, Ec, (count_cons k w ls).
    destruct (cells s !! k) as [c|]; [|done]. cbn [fmap option_fmap option_map]. unfold with_fanout. cbn [fanout typeID fanin array]. f_equal. f_equal. lia.
Qed.

(** *** The steps keep the invariant *)

Lemma leads_mono cs cs' w : (∀ k, is_Some (cs !! k) → is_Some (cs' !! k)) → leads cs w → leads cs' w.
Proof. intros Hd Hl Hv. by apply Hd, Hl. Qed.

Lemma cell_ok_fanout cs cs' n c : (∀ k, is_Some (cs !! k) → is_Some (cs' !! k)) → cell_ok cs c → cell_ok cs' (with_fanout n c).
Proof.
  intros Hd [Hf Ha Hs Hl Ht]. split; try done. eapply Forall_impl; [exact Hl|]. intros w [Hg Hw]. split; [done|by eapply leads_mono].
Qed.

Lemma with_fanout_id c : with_fanout (fanout c) c = c.
Proof. by destruct c. Qed.

Lemma cell_ok_mono cs cs' c : (∀ k, is_Some (cs !! k) → is_Some (cs' !! k)) → cell_ok cs c → cell_ok cs' c.
Proof. intros Hd Hc. rewrite <- (with_fanout_id c). by eapply cell_ok_fanout. Qed.

Lemma refs_ext cs cs' added k : (∀ id, id ∈ added → links_of cs' id = links_of cs id) → refs cs' added k = refs cs added k.
Proof.
  intros Hl. unfold refs. induction added as [|id added IH]; [done|]. cbn. rewrite Hl by constructor. rewrite IH; [done|].
  intros j Hj. apply Hl. by constructor.
Qed.

Lemma net_refs_snoc cs added id k : refs cs (added ++ [id]) k = refs cs added k + count k (links_of cs id).
Proof. unfold refs. rewrite sum_list_with_app. cbn. lia. Qed.

Lemma of_class_ext cs cs' added k : (∀ id, id ∈ added → class_of cs' id = class_of cs id) → of_class cs' added k = of_class cs added k.
Proof.
  intros Hl. unfold of_class. induction added as [|id added IH]; [done|]. rewrite !filter_cons, Hl by constructor.
  rewrite IH by (intros j Hj; apply Hl; by constructor). done.
Qed.

Lemma lists_of_ext cs cs' added : (∀ id, id ∈ added → class_of cs' id = class_of cs id) → lists_of cs' added = lists_of cs added.
Proof. intros Hl. unfold lists_of. by rewrite !(of_class_ext cs cs') by done. Qed.

(** Adding an identifier to the list of its class. *)
Lemma push_lists cs added id k : class_of cs id = Some k → push k id (lists_of cs added) = lists_of cs (added ++ [id]).
Proof.
  intros Hk. unfold lists_of, push, of_class. cbn [inputs outputs combCells flipFlops hardBlocks softBlocks].
  rewrite !filter_app. f_equal; case_bool_decide as E; rewrite ?filter_cons, ?filter_nil, Hk;
    match goal with |- context [decide ?P] => destruct (decide P) end; rewrite ?app_nil_r; (done || congruence).
Qed.

Lemma newArray_room n : (n ≤ 8388604)%N → is_Some (newArray n).
Proof.
  intros Hn. unfold newArray. change (getSizeInItems 8 (N.min (getSizeInBytes 8 n) LARGE_PAGE_SIZE)) with (granted 8 n).
  rewrite granted_eq by (by left). change (32 / 8)%N with 4%N. change ((LARGE_PAGE_SIZE - 32) / 8)%N with 8388604%N.
  rewrite (proj2 (N.eqb_neq _ _)), (proj2 (N.leb_le _ _)) by lia. by eexists.
Qed.

Lemma new_cell type links : (N.of_nat (length links) ≤ 8388604)%N → ∃ c, Cell_links type links = Some c ∧ fanout c = 0%N ∧
  cell_links c = links ∧ typeID c = type ∧ (links ≠ [] → array c = Some links) ∧ fanin c = N.of_nat (length links).
Proof.
  intros Hlen. destruct links as [|w ws]; [by eexists|]. set (ls := w :: ws) in *. cbn [Cell_links].
  unfold Cell_links. fold ls. destruct (newArray_room _ Hlen) as [cap Hcap]. change (w :: ws) with ls. rewrite Hcap.
  assert (pack <$> ls = ls) as -> by (unfold pack; apply list_fmap_id).
  eexists. split; [done|]. cbn [fanout array typeID fanin]. rewrite N.mod_small by lia. done.
Qed.

Lemma count_none k ls : Forall (λ w, points k w = false) ls → count k ls = 0.
Proof. unfold count. induction 1 as [|w ls Hw _ IH]; [done|]. rewrite filter_cons_False; [done|]. by rewrite Hw. Qed.

(** No link leads to a cell that does not exist. *)
Lemma net_refs_fresh cs added k : cs !! k = None → (∀ id, id ∈ added → Forall (λ w, good_link w ∧ leads cs w) (links_of cs id)) →
  refs cs added k = 0.
Proof.
  intros Hk Hl. unfold refs. induction added as [|id added IH]; [done|]. cbn. rewrite IH by (intros j Hj; apply Hl; by constructor).
  specialize (Hl id ltac:(by constructor)). rewrite count_none; [done|]. apply Forall_forall. intros w Hw. rewrite Forall_forall in Hl. destruct (Hl w Hw) as [_ Hlw]. unfold points, leads in *.
  destruct (isValid w); [|done]. cbn. apply Z.eqb_neq. intros Hs. subst k. destruct Hlw as [? Hd]; [done|]. congruence.
Qed.

Lemma inv_make s added type links : net_inv s added → allowed s added (RMake type links) →
  ∃ s', run (RMake type links) s = Some ((), s') ∧ net_inv s' added.
Proof.
  intros [Hsid Hbelow Hdense Hcells Hadd Hnd Hli Hfan] (Ht&Hl&Hlen&Hmax). pose proof (sid_range (cellSID s) (cellSID s + 1) ltac:(lia) Hmax) as Hr.
  cbn [run]. unfold makeCell. assert (type ≠ NullTypeID) as Hne by (intros ->; by destruct Ht).
  destruct (new_cell type links Hlen) as (c&Hc&Hf0&Hcl&Hty&Harr&Hfi).
  erewrite bind_eval.
  2:{ rewrite bool_decide_eq_false_2 by done. erewrite bind_eval by done. erewrite bind_eval by (unfold st_read; by rewrite Hc).
      erewrite bind_eval by done. erewrite bind_eval by done. rewrite fid_not_null by lia. done. }
  eexists. split; [done|]. assert (cells s !! cellSID s = None) as Hnew.
  { destruct (cells s !! cellSID s) as [d|] eqn:E; [|done]. apply Hbelow in E. lia. }
  assert (∀ k, is_Some (cells s !! k) → is_Some (<[cellSID s:=c]> (cells s) !! k)) as Hdom.
  { intros k Hk. destruct (Z.eq_dec (cellSID s) k) as [<-|Hn]; [rewrite lookup_insert_eq; by eexists|by rewrite lookup_insert_ne]. }
  assert (∀ id, id ∈ added → <[cellSID s:=c]> (cells s) !! makeSID CellID id = cells s !! makeSID CellID id) as Hold.
  { intros id Hid. apply lookup_insert_ne. destruct (Hadd id Hid) as (k&d&->&Hk). apply Hbelow in Hk as Hkb.
    rewrite sid_of by (eapply (sid_range k (cellSID s)); lia). lia. }
  rewrite Z.mod_small by lia. split; cbn [cells cellSID builder].
  - lia.
  - intros k d. rewrite lookup_insert_Some. intros [[<- _]|[_ Hk]]; [lia|]. apply Hbelow in Hk. lia.
  - intros k Hk. destruct (Z.eq_dec (cellSID s) k) as [<-|Hn]; [rewrite lookup_insert_eq; by eexists|apply Hdom, Hdense; lia].
  - intros k d. rewrite lookup_insert_Some. intros [[_ <-]|[_ Hk]]; [|by eapply cell_ok_mono, Hcells].
    split; rewrite ?Hcl; [done|done|lia| |unfold cellType; by rewrite Hty].
    eapply Forall_impl; [exact Hl|]. intros w [Hw Hlw]. split; [done|by eapply leads_mono].
  - intros id Hid. destruct (Hadd id Hid) as (k&d&->&Hk). exists k, d. split; [done|]. rewrite lookup_insert_ne; [done|].
    apply Hbelow in Hk. lia.
  - done.
  - rewrite Hli. symmetry. apply lists_of_ext. intros id Hid. unfold class_of. by rewrite Hold.
  - intros k d Hk. rewrite (refs_ext (cells s)) by (intros id Hid; unfold links_of; by rewrite Hold).
    rewrite lookup_insert_Some in Hk. destruct Hk as [[<- <-]|[_ Hk]]; [|by apply Hfan].
    rewrite Hf0, net_refs_fresh; [done|done|]. intros id Hid. destruct (Hadd id Hid) as (k&e&->&Hk). apply Hbelow in Hk as Hkb.
    unfold links_of. rewrite sid_of by (eapply (sid_range k (cellSID s)); lia). rewrite Hk. apply (Hcells _ _ Hk).
Qed.

Section Bumped.
Context (s s' : State) (f : Z → nat) (Hb : bumped s s' f).

Lemma bumped_class id : class_of (cells s') id = class_of (cells s) id.
Proof. unfold class_of. rewrite (bp_cells _ _ _ Hb). by destruct (cells s !! makeSID CellID id). Qed.

Lemma bumped_links id : links_of (cells s') id = links_of (cells s) id.
Proof. unfold links_of. rewrite (bp_cells _ _ _ Hb). by destruct (cells s !! makeSID CellID id). Qed.

Lemma bumped_dom k : is_Some (cells s !! k) → is_Some (cells s' !! k).
Proof. rewrite (bp_cells _ _ _ Hb). intros [c ->]. by eexists. Qed.

Lemma bumped_cell k c : cells s' !! k = Some c → ∃ d, cells s !! k = Some d ∧ c = with_fanout (fanout d + N.of_nat (f k)) d.
Proof. rewrite (bp_cells _ _ _ Hb). destruct (cells s !! k) as [d|]; [|done]. intros [= <-]. by exists d. Qed.

(** What the fanouts are after [f k] new references to each cell [k]. *)
Lemma bumped_inv added' : (0 ≤ cellSID s < 2 ^ 32)%Z →
  (∀ k c, cells s !! k = Some c → (0 ≤ k < cellSID s)%Z ∧ cell_ok (cells s) c) → (∀ k, (0 ≤ k < cellSID s)%Z → is_Some (cells s !! k)) →
  (∀ id, id ∈ added' → ∃ k c, id = makeFID CellID k ∧ cells s !! k = Some c) → NoDup added' →
  builder s = lists_of (cells s) added' →
  (∀ k c, cells s !! k = Some c → (fanout c + N.of_nat (f k))%N = N.of_nat (refs (cells s) added' k)) →
  net_inv s' added'.
Proof.
  intros Hsid Hcells Hdense Hadd Hnd Hli Hfan. split.
  - by rewrite (bp_sid _ _ _ Hb).
  - intros k c (d&Hd&->)%bumped_cell. rewrite (bp_sid _ _ _ Hb). by apply (Hcells _ _ Hd).
  - intros k. rewrite (bp_sid _ _ _ Hb). intros Hk. by apply bumped_dom, Hdense.
  - intros k c (d&Hd&->)%bumped_cell. eapply cell_ok_fanout; [apply bumped_dom|]. by apply (Hcells _ _ Hd).
  - intros id Hid. destruct (Hadd id Hid) as (k&c&->&Hk). destruct (bumped_dom k) as [d Hd]; [by rewrite Hk|]. by exists k, d.
  - done.
  - rewrite (bp_builder _ _ _ Hb), Hli. symmetry. apply lists_of_ext. intros id _. apply bumped_class.
  - intros k c (d&Hd&->)%bumped_cell. cbn [fanout with_fanout]. rewrite Hfan by done.
    f_equal. symmetry. apply refs_ext. intros id _. apply bumped_links.
Qed.
End Bumped.

Lemma inv_add s added cellID : net_inv s added → allowed s added (RAdd cellID) →
  ∃ s', run (RAdd cellID) s = Some ((), s') ∧ net_inv s' (added ++ [cellID]).
Proof.
  intros [Hsid Hbelow Hdense Hcells Hadd Hnd Hli Hfan] (k&c&->&Hc&Hnew&Hmax).
  assert (0 ≤ k < NullSID CellID)%Z as Hr by (apply (sid_range k (cellSID s)); [by eapply Hbelow|lia]).
  pose proof (Hcells _ _ Hc) as Hok. destruct (ok_type _ _ Hok) as [t Ht].
  assert (class_of (cells s) (makeFID CellID k) = Some (classify t)) as Hcl by (unfold class_of; rewrite sid_of, Hc by done; cbn; by rewrite Ht).
  cbn [run]. unfold addCell. rewrite fid_not_null by done. erewrite bind_eval by done.
  erewrite bind_eval by (unfold st_read; by rewrite (get_fid s k c)). erewrite bind_eval by (unfold st_read; by rewrite Ht).
  erewrite bind_eval by done. erewrite bind_eval by (unfold st_read; by rewrite (getLinks_ok (cells s))).
  set (s1 := mkState (cells s) (cellSID s) (push (classify t) (makeFID CellID k) (builder s))).
  destruct (count_links (cell_links c) s1) as (s2&H2&Hb); [apply Hok|exact Hmax|].
  exists s2. split; [exact H2|]. apply (bumped_inv s1 s2 _ Hb); cbn [s1 cells cellSID builder].
  - done.
  - intros j d Hj. split; [by eapply Hbelow|by eapply Hcells].
  - done.
  - intros id [Hid| ->%list_elem_of_singleton]%elem_of_app; [by apply Hadd|by exists k, c].
  - apply NoDup_app. split_all; [done| |apply NoDup_singleton]. intros id Hid ->%list_elem_of_singleton. done.
  - rewrite Hli. by apply push_lists.
  - intros j d Hj. rewrite net_refs_snoc, (Hfan _ _ Hj). unfold links_of. rewrite sid_of, Hc by done. change (default [] (cell_links <$> Some c)) with (cell_links c). lia.
Qed.

Lemma count_app k ls ms : count k (ls ++ ms) = count k ls + count k ms.
Proof. unfold count. by rewrite filter_app, length_app. Qed.

(** Filling a free place of the links. *)
Lemma count_insert k w ls port : ls !! port = Some LinkEnd_null → count k (<[port := w]> ls) = count k ls + count k [w].
Proof.
  intros Hp. apply lookup_lt_Some in Hp as Hlt. rewrite insert_take_drop by done.
  assert (count k ls = count k (take port ls) + (count k [LinkEnd_null] + count k (drop (S port) ls))) as ->
    by (rewrite <- count_cons, <- count_app; by rewrite (take_drop_middle _ _ _ Hp)).
  rewrite count_app, (count_cons k w).
  rewrite (count_invalid k LinkEnd_null) by done. lia.
Qed.

(** One of the added cells gets another reference. *)
Lemma refs_update cs cs' added id k n : NoDup added → id ∈ added → (∀ j, j ∈ added → j ≠ id → links_of cs' j = links_of cs j) →
  count k (links_of cs' id) = count k (links_of cs id) + n → refs cs' added k = refs cs added k + n.
Proof.
  intros Hnd (l1&l2&->)%list_elem_of_split Ho Hc. apply NoDup_app in Hnd as (_&Hd&Hnd). apply NoDup_cons in Hnd as [Hid _].
  assert (∀ l, (∀ j, j ∈ l → j ∈ l1 ++ id :: l2 ∧ j ≠ id) → refs cs' l k = refs cs l k) as Hl.
  { intros l Hl. apply refs_ext. intros j Hj. by apply Ho; apply Hl. }
  unfold refs in *. rewrite !sum_list_with_app. cbn. rewrite Hc, (Hl l1), (Hl l2); [lia|..]; intros j Hj.
  - split; [set_solver|]. by intros ->.
  - split; [set_solver|]. intros ->. by apply (Hd id Hj); constructor.
Qed.

Lemma fid_inj j k : (0 ≤ j < NullSID CellID)%Z → (0 ≤ k < NullSID CellID)%Z → makeFID CellID j = makeFID CellID k → j = k.
Proof. intros Hj Hk E. by rewrite <- (sid_of j), <- (sid_of k), E. Qed.

Lemma setLink_spec cs c port link : cell_ok cs c → cell_links c !! port = Some LinkEnd_null →
  setLink c port link = Some (mkCell (typeID c) (fanin c) (fanout c) (Some (<[port := link]> (cell_links c)))).
Proof.
  intros Hok Hp. apply lookup_lt_Some in Hp as Hlt. unfold setLink. rewrite (ok_fanin _ _ Hok), (proj2 (N.ltb_lt _ _)) by lia.
  rewrite (ok_array _ _ Hok) by (intros E; rewrite E in Hlt; cbn in Hlt; lia). cbn [mbind option_bind]. rewrite Hp. done.
Qed.

Lemma inv_connect s added cellID port link : net_inv s added → allowed s added (RConnect cellID port link) →
  ∃ s', run (RConnect cellID port link) s = Some ((), s') ∧ net_inv s' added.
Proof.
  intros [Hsid Hbelow Hdense Hcells Hadd Hnd Hli Hfan] (k&c&d&->&Hin&Hc&Hg&Hv&Hd&Hmax&Hp).
  assert (∀ j e, cells s !! j = Some e → (0 ≤ j < NullSID CellID)%Z) as Hrange.
  { intros j e Hj. apply (sid_range j (cellSID s)); [by eapply Hbelow|lia]. }
  pose proof (Hrange _ _ Hc) as Hr. pose proof (Hcells _ _ Hc) as Hok.
  cbn [run]. unfold connect. rewrite fid_not_null by done. erewrite bind_eval by done.
  erewrite bind_eval by (unfold st_read; by rewrite (get_fid s k c)).
  erewrite bind_eval by (unfold st_read; by rewrite (setLink_spec (cells s) c (to_u16 port) link Hok Hp)). erewrite bind_eval by done.
  set (c' := mkCell (typeID c) (fanin c) (fanout c) (Some (<[to_u16 port := link]> (cell_links c)))).
  assert (put (makeFID CellID k) c' s = mkState (<[k := c']> (cells s)) (cellSID s) (builder s)) as -> by (unfold put; by rewrite sid_of).
  set (s1 := mkState (<[k := c']> (cells s)) (cellSID s) (builder s)).
  assert (∃ d', cells s1 !! source link = Some d' ∧ (fanout d' < MaxFanout)%N) as (d'&Hd'&Hm').
  { cbn [s1 cells]. destruct (Z.eq_dec k (source link)) as [E|Hn]; [rewrite <- E in *; exists c'; rewrite lookup_insert_eq; rewrite Hc in Hd; by injection Hd as ->|].
    exists d. by rewrite lookup_insert_ne. }
  destruct (incRefCount_spec s1 link d' Hg Hv Hd' Hm') as (s2&H2&Hb). exists s2. split; [exact H2|].
  assert (∀ j, is_Some (cells s !! j) → is_Some (cells s1 !! j)) as Hdom.
  { intros j Hj. cbn [s1 cells]. destruct (Z.eq_dec k j) as [<-|Hn]; [rewrite lookup_insert_eq; by eexists|by rewrite lookup_insert_ne]. }
  assert (∀ id, id ∈ added → id ≠ makeFID CellID k → cells s1 !! makeSID CellID id = cells s !! makeSID CellID id) as Hother.
  { intros id Hid Hne. destruct (Hadd id Hid) as (j&e&->&Hj). rewrite sid_of by (by eapply Hrange). apply lookup_insert_ne. by intros <-. }
  assert (∀ id, class_of (cells s1) id = class_of (cells s) id) as Hclass.
  { intros id. unfold class_of. cbn [s1 cells]. destruct (Z.eq_dec k (makeSID CellID id)) as [<-|Hn]; [by rewrite lookup_insert_eq, Hc|by rewrite lookup_insert_ne]. }
  apply (bumped_inv s1 s2 _ Hb); cbn [s1 cellSID builder].
  - done.
  - intros j e. cbn [s1 cells]. rewrite lookup_insert_Some. intros [[<- <-]|[_ Hj]].
    + split; [by eapply Hbelow|]. destruct Hok as [Hf Ha Hs Hl Ht]. split; unfold cell_links, cellType; cbn [c' fanin array default typeID].
      * rewrite Hf. cbn. by rewrite length_insert.
      * done.
      * done.
      * cbn. apply Forall_insert; [|split; [done|]].
        -- eapply Forall_impl; [exact Hl|]. intros w [Hw Hlw]. split; [done|by eapply leads_mono].
        -- intros _. apply Hdom. by rewrite Hd.
      * done.
    + split; [by eapply Hbelow|]. by eapply cell_ok_mono, Hcells.
  - intros j Hj. by apply Hdom, Hdense.
  - intros id Hid. destruct (Hadd id Hid) as (j&e&->&Hj). destruct (Hdom j) as [e' He']; [by rewrite Hj|]. by exists j, e'.
  - done.
  - rewrite Hli. symmetry. apply lists_of_ext. intros id _. apply Hclass.
  - intros j e Hj. rewrite (refs_update (cells s) _ added (makeFID CellID k) j (count j [link]) Hnd Hin).
    + cbn [cells s1] in Hj. rewrite lookup_insert_Some in Hj. destruct Hj as [[<- <-]|[_ Hj]]; cbn [fanout c'].
      * rewrite (Hfan _ _ Hc). lia.
      * rewrite (Hfan _ _ Hj). lia.
    + intros id Hid Hne. unfold links_of. by rewrite Hother.
    + unfold links_of. rewrite sid_of by done. cbn [s1 cells]. rewrite lookup_insert_eq, Hc. cbn. by apply count_insert.
Qed.
End NetSpec.

(** ** The theorems *)

Section NetCorrect.
Context `{TypeStore}.

Lemma net_step_inv s added r : net_inv s added → allowed s added r → ∃ s', run r s = Some ((), s') ∧ net_inv s' (added_by r added).
Proof. destruct r; cbn [added_by]; [apply inv_make|apply inv_add|apply inv_connect]. Qed.

Lemma reachable_inv s added : net_reachable s added → net_inv s added.
Proof.
  induction 1 as [|s added r s' _ IH Ha Hr]; [|destruct (net_step_inv _ _ _ IH Ha) as (s1&H1&Hi); congruence].
  split; cbn [cells cellSID].
  - done.
  - intros k c. by rewrite lookup_empty.
  - intros k Hk. lia.
  - intros k c. by rewrite lookup_empty.
  - intros id Hid. by apply not_elem_of_nil in Hid.
  - constructor.
  - done.
  - intros k c. by rewrite lookup_empty.
Qed.

Lemma filter_partition {A K} `{EqDecision K} (f : A → option K) (ks : list K) (xs : list A) :
  NoDup ks → (∀ x, x ∈ xs → ∃ k, k ∈ ks ∧ f x = Some k) →
  concat ((λ k, filter (λ x, f x = Some k) xs) <$> ks) ≡ₚ xs.
Proof.
  intros Hnd. induction xs as [|x xs IH]; intros Hx.
  { clear. induction ks as [|k ks IH]; [done|]. cbn. exact IH. }
  destruct (Hx x ltac:(by constructor)) as (k&Hk&Hfx). etransitivity; [|apply Permutation_skip, IH; intros y Hy; apply Hx; by constructor]. clear IH Hx.
  apply list_elem_of_split in Hk as (l1&l2&->). apply NoDup_app in Hnd as (_&Hd&Hnd). apply NoDup_cons in Hnd as [Hk2 _].
  rewrite !fmap_app, !fmap_cons, !concat_app. cbn [concat]. rewrite filter_cons_True by done.
  assert (∀ l : list K, k ∉ l → (λ k, filter (λ x, f x = Some k) (x :: xs)) <$> l = (λ k, filter (λ x, f x = Some k) xs) <$> l) as Hl.
  { intros l Hl. apply list_fmap_ext. intros i k' Hi. rewrite filter_cons_False; [done|]. rewrite Hfx. intros [= ->].
    by apply Hl, list_elem_of_lookup_2 with i. }
  rewrite (Hl l1), (Hl l2); [|done|intros Hi; by apply (Hd k Hi); constructor]. cbn. symmetry. apply Permutation_middle.
Qed.

Definition classes : list CellClass := [InCell; OutCell; CombCell; FlipFlop; HardBlock; SoftBlock].

Lemma all_cells_added cs added : (∀ id, id ∈ added → is_Some (class_of cs id)) → all_cells (lists_of cs added) ≡ₚ added.
Proof.
  intros Hc. etransitivity; [|apply (filter_partition (class_of cs) classes added)].
  - unfold all_cells, lists_of. cbn. unfold of_class. by rewrite app_nil_r.
  - unfold classes. apply (bool_decide_unpack _). vm_compute. exact I.
  - intros id Hid. destruct (Hc id Hid) as [k Hk]. exists k. split; [|done]. unfold classes. destruct k; set_solver.
Qed.

Lemma inv_class s added id : net_inv s added → id ∈ added → is_Some (class_of (cells s) id).
Proof.
  intros Hi Hid. destruct (inv_added _ _ Hi id Hid) as (k&c&->&Hk). unfold class_of.
  rewrite sid_of by (apply (sid_range k (cellSID s)); [by eapply (inv_below _ _ Hi)|apply (inv_sid _ _ Hi)]). rewrite Hk. cbn.
  destruct (ok_type _ _ (inv_cells _ _ Hi _ _ Hk)) as [t ->]. by eexists.
Qed.

(** ** Theorems *)

(** C34 The builder of nets keeps its books.  In every state that clients reach,
    each of the six lists has exactly the added cells of its class, in the order
    in which they were added; and the fanout of a cell is the number of links of
    added cells that lead to it, whether they were there when the cell was
    added or were connected afterwards. *)
Theorem net_books s added : net_reachable s added →
  builder s = lists_of (cells s) added ∧ all_cells (builder s) ≡ₚ added ∧
  ∀ k c, cells s !! k = Some c → fanout c = N.of_nat (refs (cells s) added k).
Proof.
  intros Hr%reachable_inv. split_all; [apply Hr| |apply Hr].
  rewrite (inv_lists _ _ Hr). apply all_cells_added. intros id Hid. by eapply inv_class.
Qed.

(** C35 No valid request to the builder of nets fails: making a cell with links to
    existing cells, adding a cell that has not been added and connecting a port
    all succeed, where the port [connect] sees is the low 16 bits of the one
    given, which must be free; and a net can be made, which counts all the added
    cells. *)
Theorem net_total s added r : net_reachable s added → allowed s added r → (N.of_nat (length added) < 2 ^ 32)%N →
  (∃ s', run r s = Some ((), s')) ∧
  ∃ n, make s = Some n ∧ getCellNum n = N.of_nat (length added) ∧ lists n = builder s ∧
    getInNum n = N.of_nat (length (inputs (builder s))) ∧ getOutNum n = N.of_nat (length (outputs (builder s))).
Proof.
  intros Hr%reachable_inv Ha Hlen. split; [destruct (net_step_inv _ _ _ Hr Ha) as (s'&Hs&_); by exists s'|].
  assert (all_cells (builder s) ≡ₚ added) as Hp.
  { rewrite (inv_lists _ _ Hr). apply all_cells_added. intros id Hid. by eapply inv_class. }
  apply Permutation_length in Hp. unfold all_cells in Hp. rewrite !length_app in Hp. unfold make, list_len.
  rewrite !(proj2 (N.ltb_lt _ _)) by lia. cbn [mbind option_bind]. eexists. split; [done|]. cbn. split_all; [|done..].
  rewrite <- Hp. rewrite N.mod_small by lia. lia.
Qed.
End NetCorrect.

(** ** Witnesses *)

Section Witnesses.
#[local] Instance witness_types : TypeStore := λ _, None.

Definition cell_id (k : Z) : Z := makeFID CellID k.

(** An input and a buffer that is connected to it after both have been added. *)
Definition demo_requests : list Request :=
  [RMake (GateID IN) []; RMake (GateID BUF) [LinkEnd_null]; RAdd (cell_id 0); RAdd (cell_id 1);
   RConnect (cell_id 1) 0 (LinkEnd (cell_id 0) 0)].

Definition run_all (rs : list Request) : State :=
  foldl (λ s r, match run r s with Some (_, s) => s | None => s end) (mkState ∅ 0 empty_net) rs.

Definition after (n : nat) : State := run_all (take n demo_requests).

Lemma demo_step n added r : demo_requests !! n = Some r → net_reachable (after n) added → allowed (after n) added r →
  (∃ s', run r (after n) = Some ((), s')) → net_reachable (after (S n)) (added_by r added).
Proof.
  intros Hn Hr Ha [s' Hs]. assert (after (S n) = s') as ->; [|by eapply net_step].
  unfold after, run_all. rewrite (take_S_r _ _ _ Hn), foldl_app. cbn [foldl]. fold (run_all (take n demo_requests)). fold (after n). by rewrite Hs.
Qed.

Lemma demo_fanouts n c : forallb (λ p, bool_decide (fanout p.2 + N.of_nat (Z.to_nat 0 + count p.1 (cell_links c)) ≤ MaxFanout)%N) (map_to_list (cells (after n))) = true →
  ∀ j d, cells (after n) !! j = Some d → (fanout d + N.of_nat (count j (cell_links c)) ≤ MaxFanout)%N.
Proof.
  rewrite forallb_forall. intros Hf j d Hj. specialize (Hf (j, d)). apply bool_decide_eq_true in Hf; [exact Hf|].
  by apply list_elem_of_In, elem_of_map_to_list.
Qed.

Lemma demo_reachable : net_reachable (after 5) [cell_id 0; cell_id 1].
Proof.
  apply (demo_step 4 [cell_id 0; cell_id 1] (RConnect (cell_id 1) 0 (LinkEnd (cell_id 0) 0)) eq_refl); [|shelve|eexists; vm_compute; reflexivity].
  apply (demo_step 3 [cell_id 0] (RAdd (cell_id 1)) eq_refl); [|shelve|eexists; vm_compute; reflexivity].
  apply (demo_step 2 [] (RAdd (cell_id 0)) eq_refl); [|shelve|eexists; vm_compute; reflexivity].
  apply (demo_step 1 [] (RMake (GateID BUF) [LinkEnd_null]) eq_refl); [|shelve|eexists; vm_compute; reflexivity].
  apply (demo_step 0 [] (RMake (GateID IN) []) eq_refl); [constructor|shelve|eexists; vm_compute; reflexivity].
  Unshelve.
  - exists 1%Z, (mkCell (GateID BUF) 1 0 (Some [LinkEnd_null])), (mkCell (GateID IN) 0 0 None).
    split_all; [done|set_solver|vm_compute; reflexivity| |vm_compute; reflexivity..].
    right. exists 0%Z, 0%Z. by vm_compute.
  - exists 1%Z, (mkCell (GateID BUF) 1 0 (Some [LinkEnd_null])). split_all; [done|vm_compute; reflexivity| |].
    + intros E%list_elem_of_singleton. vm_compute in E. done.
    + apply demo_fanouts. vm_compute. reflexivity.
  - exists 0%Z, (mkCell (GateID IN) 0 0 None). split_all; [done|vm_compute; reflexivity|by intros ?%not_elem_of_nil|].
    apply demo_fanouts. vm_compute. reflexivity.
  - split; [by eexists|]. split; [apply Forall_singleton; split; [by left|done]|]. by vm_compute.
  - split; [by eexists|]. split; [constructor|]. by vm_compute.
Qed.

Lemma net_books_witness : builder (after 5) = lists_of (cells (after 5)) [cell_id 0; cell_id 1] ∧
  all_cells (builder (after 5)) ≡ₚ [cell_id 0; cell_id 1] ∧
  ∀ k c, cells (after 5) !! k = Some c → fanout c = N.of_nat (refs (cells (after 5)) [cell_id 0; cell_id 1] k).
Proof. apply (net_books (after 5) [cell_id 0; cell_id 1] demo_reachable). Defined.

Lemma net_total_witness : (∃ s', run (RMake (GateID ZERO) []) (after 5) = Some ((), s')) ∧
  ∃ n, make (after 5) = Some n ∧ getCellNum n = 2%N ∧ lists n = builder (after 5) ∧
    getInNum n = N.of_nat (length (inputs (builder (after 5)))) ∧ getOutNum n = N.of_nat (length (outputs (builder (after 5)))).
Proof.
  apply (net_total (after 5) [cell_id 0; cell_id 1] (RMake (GateID ZERO) []) demo_reachable); [|done].
  split; [by eexists|]. split; [constructor|]. by vm_compute.
Defined.
End Witnesses.
