(* ===== verification/Validator.v ===== *)
(** * Validator ([gate/model/validator.cpp])

    The checks of cell types, nets and subnets, with the errors and warnings
    they log.  The grouping of the messages in the log is left out. *)

From S2P Require Import Prelude ObjectId CellAttr CellType SubnetBase Builder Cnf Nets.
From stdpp Require Import gmap strings.

(** ** Definitions *)

Inductive Message :=
  | InPins (n expected : N) | OutPins (n expected : N) | InPinsGe (n bound : N)
  | InPorts (n expected : N) | OutPorts (n expected : N)
  | InWidth (port w expected : N) | OutWidth (port w expected : N)
  | InInWidths (i j : N) | OutOutWidths (i j : N) | InOutWidths (i j : N)
  | ZeroPortWidth | TooManyPorts | TooManyPins
  | NoAttributes | NetInPins | NetOutPins | SubnetInPins | SubnetOutPins
  | UnknownSymbol | NullType
  | UnconnectedSource | SourcePin (port n : N) | CellInputs (n expected : N) | CellLinks (n expected : N)
  | NoInputs | NoOutputs | NullNet
  | CellInPins (n expected : N) | CellOutPins (n expected : N)
  | TechConstant | TechCell (mapped : bool) | TechInverter (i : nat) | NullSubnet.

Inductive Diag := Error (m : Message) | Warning (m : Message).

#[export] Instance Message_eq_dec : EqDecision Message.
Proof. solve_decision. Defined.

#[export] Instance Diag_eq_dec : EqDecision Diag.
Proof. solve_decision. Defined.

(** Inside a check: the flag [passed] and the log; a check as a whole returns the flag. *)
Definition Checks := st (bool * list Diag) unit.
Definition Validation := st (list Diag) bool.

(* gate/model/validator.cpp:13-14 [VALIDATE_BEGIN, VALIDATE_END] *)
Definition validation (c : Checks) : Validation := λ log,
  r ← c (true, log); Some r.2.

(* gate/model/validator.cpp:16-20 [VALIDATE] *)
Definition VALIDATE (prop : bool) (msg : Message) : Checks := λ '(passed, log),
  Some ((), if prop then (passed, log) else (false, log ++ [Error msg])).

(* gate/model/validator.cpp:22-25 [VALIDATE_WARN] *)
Definition VALIDATE_WARN (prop : bool) (msg : Message) : Checks := λ '(passed, log),
  Some ((), (passed, if prop then log else log ++ [Warning msg])).

(* gate/model/validator.cpp:27-28 [VALIDATE_QUIET] *)
Definition VALIDATE_QUIET (v : Validation) : Checks := λ '(passed, log),
  r ← v log; Some ((), (passed && r.1, r.2)).

Definition known {A} (x : option A) : st (bool * list Diag) A := st_read (λ _, x).

(** *** Checks of pins, ports and widths *)

(* gate/model/validator.cpp:36-39 [VALIDATE_CELLTYPE_IN_PINS] *)
Definition IN_PINS (t : CellType) (expected : N) : Checks := VALIDATE (nIn t =? expected)%N (InPins (nIn t) expected).

(* gate/model/validator.cpp:41-44 [VALIDATE_CELLTYPE_OUT_PINS] *)
Definition OUT_PINS (t : CellType) (expected : N) : Checks := VALIDATE (nOut t =? expected)%N (OutPins (nOut t) expected).

(* gate/model/validator.cpp:46-49 [VALIDATE_CELLTYPE_IN_PINS_ge] *)
Definition IN_PINS_ge (t : CellType) (bound : N) : Checks :=
  VALIDATE (negb (isInNumFixed t) || (bound <=? nIn t)%N) (InPinsGe (nIn t) bound).

(* gate/model/validator.cpp:51-54 [VALIDATE_CELLTYPE_IN_PORTS] *)
Definition IN_PORTS (t : CellType) (expected : N) : Checks :=
  a ← known (attr t); VALIDATE (nInPort a =? expected)%N (InPorts (nInPort a) expected).

(* gate/model/validator.cpp:56-59 [VALIDATE_CELLTYPE_OUT_PORTS] *)
Definition OUT_PORTS (t : CellType) (expected : N) : Checks :=
  a ← known (attr t); VALIDATE (nOutPort a =? expected)%N (OutPorts (nOutPort a) expected).

Definition in_width (t : CellType) (i : N) : st (bool * list Diag) N := a ← known (attr t); known (getInWidth a i).
Definition out_width (t : CellType) (i : N) : st (bool * list Diag) N := a ← known (attr t); known (getOutWidth a i).

(* gate/model/validator.cpp:61-64 [VALIDATE_CELLTYPE_IN_WIDTH] *)
Definition IN_WIDTH (t : CellType) (port width : N) : Checks :=
  w ← in_width t port; VALIDATE (w =? width)%N (InWidth port w width).

(* gate/model/validator.cpp:66-69 [VALIDATE_CELLTYPE_OUT_WIDTH] *)
Definition OUT_WIDTH (t : CellType) (port width : N) : Checks :=
  w ← out_width t port; VALIDATE (w =? width)%N (OutWidth port w width).

(* gate/model/validator.cpp:71-74 [VALIDATE_CELLTYPE_IN_IN_WIDTHS] *)
Definition IN_IN_WIDTHS (t : CellType) (i j : N) : Checks :=
  wi ← in_width t i; wj ← in_width t j; VALIDATE (wi =? wj)%N (InInWidths i j).

(* gate/model/validator.cpp:76-79 [VALIDATE_CELLTYPE_OUT_OUT_WIDTHS] *)
Definition OUT_OUT_WIDTHS (t : CellType) (i j : N) : Checks :=
  wi ← out_width t i; wj ← out_width t j; VALIDATE (wi =? wj)%N (OutOutWidths i j).

(* gate/model/validator.cpp:81-84 [VALIDATE_CELLTYPE_IN_OUT_WIDTHS] *)
Definition IN_OUT_WIDTHS (t : CellType) (i j : N) : Checks :=
  wi ← in_width t i; wj ← out_width t j; VALIDATE (wi =? wj)%N (InOutWidths i j).

(** *** Cell types *)

(* gate/model/validator.cpp:97-102 [validateIn] *)
Definition validateIn (t : CellType) : Validation := validation (IN_PINS t 0 ;; OUT_PINS t 1).

(* gate/model/validator.cpp:105-110 [validateOut] *)
Definition validateOut (t : CellType) : Validation := validation (IN_PINS t 1 ;; OUT_PINS t 0).

(* gate/model/validator.cpp:113-118 [validateConst] *)
Definition validateConst (t : CellType) : Validation := validation (IN_PINS t 0 ;; OUT_PINS t 1).

(* gate/model/validator.cpp:121-126 [validateLogic1] *)
Definition validateLogic1 (t : CellType) : Validation := validation (IN_PINS t 1 ;; OUT_PINS t 1).

(* gate/model/validator.cpp:129-134 [validateLogic2plus] *)
Definition validateLogic2plus (t : CellType) : Validation := validation (IN_PINS_ge t 2 ;; OUT_PINS t 1).

(* gate/model/validator.cpp:137-142 [validateLogicMaj] *)
Definition validateLogicMaj (t : CellType) : Validation := validation (IN_PINS_ge t 3 ;; OUT_PINS t 1).

(* gate/model/validator.cpp:145-152 [validateDff] *)
Definition validateDff (t : CellType) : Validation := validation (IN_PINS t 2 ;; OUT_PINS t 1).

(* gate/model/validator.cpp:155-162 [validateSDff] *)
Definition validateSDff (t : CellType) : Validation := validation (IN_PINS t 3 ;; OUT_PINS t 1).

(* gate/model/validator.cpp:165-172 [validateADff] *)
Definition validateADff (t : CellType) : Validation := validation (IN_PINS t 3 ;; OUT_PINS t 1).

(* gate/model/validator.cpp:175-182 [validateDffRs] *)
Definition validateDffRs (t : CellType) : Validation := validation (IN_PINS t 4 ;; OUT_PINS t 1).

(* gate/model/validator.cpp:185-192 [validateDLatch] *)
Definition validateDLatch (t : CellType) : Validation := validation (IN_PINS t 2 ;; OUT_PINS t 1).

(* gate/model/validator.cpp:195-202 [validateADLatch] *)
Definition validateADLatch (t : CellType) : Validation := validation (IN_PINS t 3 ;; OUT_PINS t 1).

(* gate/model/validator.cpp:205-212 [validateDLatchRs] *)
Definition validateDLatchRs (t : CellType) : Validation := validation (IN_PINS t 4 ;; OUT_PINS t 1).

(* gate/model/validator.cpp:215-222 [validateLatchRs] *)
Definition validateLatchRs (t : CellType) : Validation := validation (IN_PINS t 2 ;; OUT_PINS t 1).

(* gate/model/validator.cpp:225-234 [validateBitwise1] *)
Definition validateBitwise1 (t : CellType) : Validation := validation (IN_PORTS t 1 ;; OUT_PORTS t 1).

(* gate/model/validator.cpp:237-247 [validateBitwise2] *)
Definition validateBitwise2 (t : CellType) : Validation := validation (IN_PORTS t 2 ;; OUT_PORTS t 1).

(* gate/model/validator.cpp:250-259 [validateReduce] *)
Definition validateReduce (t : CellType) : Validation := validation (IN_PORTS t 1 ;; OUT_PORTS t 1).

(* gate/model/validator.cpp:262-272 [validateBMux] *)
Definition validateBMux (t : CellType) : Validation := validation (
  IN_PORTS t 3 ;;
  OUT_PORTS t 1 ;;
  IN_IN_WIDTHS t 1 2 ;;
  IN_IN_WIDTHS t 0 1 ;;
  IN_OUT_WIDTHS t 0 0).

(* gate/model/validator.cpp:275-285 [validateMux2] *)
Definition validateMux2 (t : CellType) : Validation := validation (
  IN_PORTS t 3 ;;
  OUT_PORTS t 1 ;;
  IN_WIDTH t 0 1 ;;
  IN_IN_WIDTHS t 1 2 ;;
  IN_OUT_WIDTHS t 1 0).

(** The shift of a [uint32_t]: by the width of the type or more it is undefined. *)
Definition shift32 (x n : N) : option N := if (n <? 32)%N then Some (N.shiftl x n mod 2 ^ 32)%N else None.

(* gate/model/validator.cpp:288-297 [validateMux] *)
Definition validateMux (t : CellType) : Validation := validation (
  IN_PORTS t 2 ;;
  OUT_PORTS t 1 ;;
  wo ← out_width t 0; ws ← in_width t 0; w ← known (shift32 wo ws);
  IN_WIDTH t 1 w).

(* gate/model/validator.cpp:300-310 [validateBDemux] *)
Definition validateBDemux (t : CellType) : Validation := validation (
  IN_PORTS t 2 ;;
  OUT_PORTS t 2 ;;
  IN_IN_WIDTHS t 0 1 ;;
  IN_OUT_WIDTHS t 0 0 ;;
  OUT_OUT_WIDTHS t 0 1).

(* gate/model/validator.cpp:313-323 [validateDemux2] *)
Definition validateDemux2 (t : CellType) : Validation := validation (
  IN_PORTS t 2 ;;
  OUT_PORTS t 2 ;;
  IN_WIDTH t 0 1 ;;
  IN_OUT_WIDTHS t 1 0 ;;
  OUT_OUT_WIDTHS t 0 1).

(* gate/model/validator.cpp:326-335 [validateDemux] *)
Definition validateDemux (t : CellType) : Validation := validation (
  IN_PORTS t 2 ;;
  OUT_PORTS t 1 ;;
  wx ← in_width t 1; ws ← in_width t 0; w ← known (shift32 wx ws);
  OUT_WIDTH t 0 w).

(* gate/model/validator.cpp:338-343 [validateShift] *)
Definition validateShift (t : CellType) : Validation := validation (IN_PORTS t 2 ;; OUT_PORTS t 1).

(* gate/model/validator.cpp:346-355 [validateCompare] *)
Definition validateCompare (t : CellType) : Validation := validation (IN_PORTS t 2 ;; OUT_PORTS t 1).

(* gate/model/validator.cpp:358-363 [validateArith1] *)
Definition validateArith1 (t : CellType) : Validation := validation (IN_PORTS t 1 ;; OUT_PORTS t 1).

(* gate/model/validator.cpp:366-371 [validateArith2] *)
Definition validateArith2 (t : CellType) : Validation := validation (IN_PORTS t 2 ;; OUT_PORTS t 1).

(* gate/model/validator.cpp:374-400 [validateUndef] *)
Definition validateUndef (t : CellType) : Validation := validation (
  a ← known (attr t);
  ports ← known (getOrderedPorts a);
  st_for ports (λ p, VALIDATE (0 <? p_width p)%N ZeroPortWidth) ;;
  let ins := filter (λ p, p_input p = true) ports in
  let outs := filter (λ p, p_input p = false) ports in
  let nI := vlen ins in let nO := vlen outs in
  let wI := sum_widths ins in let wO := sum_widths outs in
  IN_PORTS t nI ;;
  OUT_PORTS t nO ;;
  IN_PINS t wI ;;
  OUT_PINS t wO ;;
  VALIDATE (nI + nO <=? MaxPortNum)%N TooManyPorts ;;
  VALIDATE (wI + wO <=? MaxBitWidth)%N TooManyPins).

(** The first case with the given code. *)
Fixpoint switch (z : Z) (cases : list (list Z * (CellType → Validation))) (default : CellType → Validation) : CellType → Validation :=
  match cases with
  | [] => default
  | (zs, v) :: cases => if bool_decide (z ∈ zs) then v else switch z cases default
  end.

(* gate/model/validator.cpp:425-529 [validateCellType] *)
Definition symbol_cases : list (list Z * (CellType → Validation)) := [
  ([code IN], validateIn);
  ([code OUT], validateOut);
  ([code ZERO; code ONE], validateConst);
  ([code BUF; code NOT], validateLogic1);
  ([code AND; code OR; code XOR; code NAND; code NOR; code XNOR], validateLogic2plus);
  ([code MAJ], validateLogicMaj);
  ([DFF_code], validateDff);
  ([sDFF_code], validateSDff);
  ([aDFF_code], validateADff);
  ([DFFrs_code], validateDffRs);
  ([DLATCH_code], validateDLatch);
  ([aDLATCH_code], validateADLatch);
  ([DLATCHrs_code], validateDLatchRs);
  ([LATCHrs_code], validateLatchRs);
  ([code BNOTu], validateBitwise1);
  ([code BANDu; code BORu; code BXORu; code BNANDu; code BNORu; code BXNORu], validateBitwise2);
  ([code RAND; code ROR; code RXOR; code RNAND; code RNOR; code RXNOR], validateReduce);
  ([code BMUX], validateBMux);
  ([code MUX2], validateMux2);
  ([code MUX], validateMux);
  ([code BDEMUX], validateBDemux);
  ([code DEMUX2], validateDemux2);
  ([code DEMUX], validateDemux);
  ([code SHLs; code SHLu; code SHRs; code SHRu; code SHIFTs; code SHIFTu], validateShift);
  ([code EQs; code EQu; code NEQs; code NEQu; code EQXs; code EQXu; code NEQXs; code NEQXu; code LTs; code LTu;
    code LTEs; code LTEu; code GTs; code GTu; code GTEs; code GTEu], validateCompare);
  ([code NEGu], validateArith1);
  ([code ADDs; code ADDu; code SUBs; code SUBu; code MULs; code MULu; code DIVs; code DIVu; code REMs; code REMu;
    code MODs], validateArith2);
  ([code UNDEF], validateUndef)].

Definition validateSymbol (t : CellType) : Validation :=
  switch (Z.ldiff (code (symbol t)) FLGMASK) symbol_cases (λ _, validation (VALIDATE false UnknownSymbol)) t.

(** The nets stored at run time, by their identifiers. *)
Class NetStore := stored_net : Z → option Nets.Net.

Section Validator.
Context `{TypeStore, SubnetStore, NetStore} (store : Nets.State).

Section Nested.
Context (validateType : CellType → Validation).

(** *** Nets *)

(* gate/model/validator.cpp:562-579 [validateLinkSource] *)
Definition validateLinkSource (source : Z) (i : nat) : Validation := validation (
  VALIDATE (isValid source && negb (getCellID source =? OBJ_NULL_ID)%Z) UnconnectedSource ;;
  c ← known (Nets.get store (getCellID source));
  t ← known (Nets.cellType c);
  VALIDATE (ObjectId.getPort source <? Z.of_N (nOut t))%Z (SourcePin (Z.to_N (ObjectId.getPort source)) (nOut t))).

(** The loop over the links counts in 16 bits: it does not end if there are
    [2 ^ 16] or more. *)
(* gate/model/validator.cpp:581-603 [validateCell(CellID)] *)
Definition validateNetCell (cellID : Z) : Validation := validation (
  c ← known (Nets.get store cellID);
  t ← known (Nets.cellType c);
  VALIDATE_QUIET (validateType t) ;;
  VALIDATE (negb (isInNumFixed t) || (Nets.fanin c =? nIn t)%N) (CellInputs (Nets.fanin c) (nIn t)) ;;
  links ← known (Nets.getLinks c);
  VALIDATE (N.of_nat (length links) =? Nets.fanin c)%N (CellLinks (N.of_nat (length links)) (Nets.fanin c)) ;;
  if (N.of_nat (length links) <? 2 ^ 16)%N
  then st_for (imap pair links) (λ p, VALIDATE_QUIET (validateLinkSource p.2 p.1))
  else st_fail).

(* gate/model/validator.cpp:605-611 [validateCells] *)
Definition validateCells (ids : list Z) : Validation := validation (
  st_for ids (λ id, VALIDATE_QUIET (validateNetCell id))).

(* gate/model/validator.cpp:613-629 [validateNet] *)
Definition validateNet_with (net : Nets.Net) : Validation := validation (
  VALIDATE (0 <? Nets.getInNum net)%N NoInputs ;;
  VALIDATE (0 <? Nets.getOutNum net)%N NoOutputs ;;
  VALIDATE_QUIET (validateCells (Nets.inputs (Nets.lists net))) ;;
  VALIDATE_QUIET (validateCells (Nets.outputs (Nets.lists net))) ;;
  VALIDATE_QUIET (validateCells (Nets.combCells (Nets.lists net))) ;;
  VALIDATE_QUIET (validateCells (Nets.flipFlops (Nets.lists net))) ;;
  VALIDATE_QUIET (validateCells (Nets.softBlocks (Nets.lists net))) ;;
  VALIDATE_QUIET (validateCells (Nets.hardBlocks (Nets.lists net)))).

(** *** Subnets *)

(* gate/model/subnet_base.h:99-100 [SubnetCell::getInNum, SubnetCell::getOutNum] *)
Definition cellOutNum (c : Cell) : option N := nOut <$> getType (type c).

(* gate/model/validator.cpp:659-678 [validateCell(Subnet::Cell, size_t)] *)
Definition validateCell (c : Cell) : Validation := validation (
  t ← known (getType (type c));
  VALIDATE_QUIET (validateType t) ;;
  VALIDATE (negb (isInNumFixed t) || (N.of_nat (arity c) =? nIn t)%N) (CellInPins (N.of_nat (arity c)) (nIn t)) ;;
  n ← known (cellOutNum c);
  VALIDATE (negb (isOutNumFixed t) || (n =? nOut t)%N) (CellOutPins n (nOut t))).

(* gate/model/validator.cpp:680-712 [validateCell(Subnet::Cell, size_t, LinkList, bool)] *)
Definition validateCell_links (c : Cell) (links : LinkList) (isTechMapped : bool) : Validation := validation (
  VALIDATE_QUIET (validateCell c) ;;
  t ← known (getType (type c));
  (if negb (isSym IN t) && negb (isSym OUT t) then
     if isSym ZERO t || isSym ONE t then VALIDATE_WARN (negb isTechMapped) TechConstant
     else VALIDATE (Bool.eqb (isHard t || isCell t) isTechMapped) (TechCell isTechMapped)
   else mret ()) ;;
  st_for (imap pair links) (λ p, VALIDATE (negb isTechMapped || negb (inv p.2)) (TechInverter p.1))).

(** The loop of [validateSubnet]: the link entries of a cell are passed over. *)
(* gate/model/validator.cpp:721-726 [validateSubnet] *)
Fixpoint validateEntries (fuel : nat) (s : Subnet) (mapped : bool) (i : nat) : Checks :=
  if Net.size s <=? i then mret ()
  else
    match fuel with
    | 0 => st_fail
    | S fuel =>
      c ← known (Net.getCell s i);
      links ← known (Net.getLinks s i);
      VALIDATE_QUIET (validateCell_links c links mapped) ;;
      validateEntries fuel s mapped (S i + more c)
    end.

(* gate/model/validator.cpp:714-730 [validateSubnet(Subnet)] *)
Definition validateSubnet_with (s : Subnet) : Validation := validation (
  mapped ← known (Net.isTechMapped s);
  validateEntries (Net.size s) s mapped 0).

(** *** The check of a type with its implementation *)

(* gate/model/validator.cpp:402-535 [validateCellType(CellType)] *)
Definition validateCellType_with (t : CellType) : Validation := validation (
  VALIDATE (isGate t || bool_decide (is_Some (attr t))) NoAttributes ;;
  (if isNet t then
     net ← known (getNet t ≫= stored_net);
     VALIDATE (Nets.getInNum net =? nIn t)%N NetInPins ;;
     VALIDATE (Nets.getOutNum net =? nOut t)%N NetOutPins ;;
     VALIDATE_QUIET (validateNet_with net)
   else if isSubnet t then
     s ← known (getSubnet t ≫= stored_subnet);
     VALIDATE (N.of_nat (sn_nIn s) =? nIn t)%N SubnetInPins ;;
     VALIDATE (N.of_nat (sn_nOut s) =? nOut t)%N SubnetOutPins ;;
     VALIDATE_QUIET (validateSubnet_with s)
   else mret ()) ;;
  VALIDATE_QUIET (validateSymbol t)).
End Nested.

(** Types, nets and subnets contain each other; [depth] bounds their nesting. *)
Fixpoint validateCellType (depth : nat) (t : CellType) : Validation :=
  match depth with
  | 0 => st_fail
  | S depth => validateCellType_with (validateCellType depth) t
  end.

(* gate/model/validator.cpp:537-542 [validateCellType(CellTypeID)] *)
Definition validateCellType_id (depth : nat) (typeID : TypeID) : Validation := validation (
  VALIDATE (negb (bool_decide (typeID = NullTypeID))) NullType ;;
  t ← known (getType typeID);
  VALIDATE_QUIET (validateCellType depth t)).

Definition validateNet (depth : nat) (net : Nets.Net) : Validation := validateNet_with (validateCellType depth) net.

(* gate/model/validator.cpp:631-636 [validateNet(NetID)] *)
Definition validateNet_id (depth : nat) (netID : Z) : Validation := validation (
  VALIDATE (negb (netID =? OBJ_NULL_ID)%Z) NullNet ;;
  net ← known (stored_net netID);
  VALIDATE_QUIET (validateNet depth net)).

Definition validateSubnet (depth : nat) (s : Subnet) : Validation := validateSubnet_with (validateCellType depth) s.

(* gate/model/validator.cpp:748-753 [validateSubnet(SubnetID)] *)
Definition validateSubnet_id (depth : nat) (subnetID : Z) : Validation := validation (
  VALIDATE (negb (subnetID =? OBJ_NULL_ID)%Z) NullSubnet ;;
  s ← known (stored_subnet subnetID);
  VALIDATE_QUIET (validateSubnet depth s)).
End Validator.
