(* ===== verification/ValidatorSpec.v ===== *)
(** * What the validator checks

    A check passes exactly if it logs no error; the standard gates, the well-formed
    subnets and the connected nets of gates pass silently. *)

From S2P Require Import Prelude ObjectId CellAttr CellType SubnetBase Builder BuilderEval SubnetEval Cnf Nets Validator.
From stdpp Require Import gmap strings.

(** ** Logs and results *)

Definition is_error (d : Diag) : bool := match d with Error _ => true | Warning _ => false end.
Definition no_errors (log : list Diag) : bool := forallb (λ d, negb (is_error d)) log.

(** Inside a check the flag falls exactly with the errors that are logged. *)
Definition logs {A} (c : st (bool * list Diag) A) : Prop := ∀ b log a s,
  c (b, log) = Some (a, s) → ∃ new, s = (b && no_errors new, log ++ new).

Definition reports (v : Validation) : Prop := ∀ log r log',
  v log = Some (r, log') → ∃ new, log' = log ++ new ∧ r = no_errors new.

Create HintDb validator.

Lemma logs_ret {A} (a : A) : logs (mret a).
Proof. intros b log a' s [= <- <-]. exists []. by rewrite andb_true_r, app_nil_r. Qed.

Lemma logs_fail {A} : logs (A:=A) st_fail.
Proof. by intros b log a s. Qed.

Lemma logs_known {A} (x : option A) : logs (known x).
Proof. intros b log a s. unfold known, st_read. destruct x; [|done]. intros [= <- <-]. exists []. by rewrite andb_true_r, app_nil_r. Qed.

Lemma logs_bind {A B} (c : st (bool * list Diag) A) (f : A → st (bool * list Diag) B) : logs c → (∀ a, logs (f a)) → logs (c ≫= f).
Proof.
  intros Hc Hf b log a s (x&s1&H1&H2)%bind_Some_iff. destruct (Hc _ _ _ _ H1) as [n1 ->].
  destruct (Hf _ _ _ _ _ H2) as [n2 ->]. exists (n1 ++ n2). unfold no_errors. by rewrite forallb_app, andb_assoc, app_assoc.
Qed.

Lemma logs_validate p m : logs (VALIDATE p m).
Proof.
  intros b log a s. cbn. intros [= <- <-]. destruct p; [exists []|exists [Error m]]; by rewrite ?andb_true_r, ?andb_false_r, ?app_nil_r.
Qed.

Lemma logs_warn p m : logs (VALIDATE_WARN p m).
Proof.
  intros b log a s. cbn. intros [= <- <-]. destruct p; [exists []|exists [Warning m]]; by rewrite ?andb_true_r, ?app_nil_r.
Qed.

Lemma logs_quiet v : reports v → logs (VALIDATE_QUIET v).
Proof.
  intros Hv b log a s. cbn. destruct (v log) as [[r log']|] eqn:E; [|done]. cbn. intros [= <- <-].
  destruct (Hv _ _ _ E) as (new&->&->). by exists new.
Qed.

Lemma logs_for {X} (xs : list X) (f : X → Checks) : (∀ x, logs (f x)) → logs (st_for xs f).
Proof. intros Hf. induction xs as [|x xs IH]; cbn; [apply logs_ret|]. by apply logs_bind. Qed.

Lemma reports_validation c : logs c → reports (validation c).
Proof.
  intros Hc log r log'. unfold validation. destruct (c (true, log)) as [[u s]|] eqn:E; [|done]. cbn.
  destruct (Hc _ _ _ _ E) as [new ->]. intros [= <- <-]. by exists new.
Qed.

#[export] Hint Resolve logs_ret logs_fail logs_known logs_bind logs_validate logs_warn logs_quiet logs_for reports_validation : validator.
#[export] Hint Extern 1 (logs (if ?b then _ else _)) => destruct b : validator.

Ltac logging_with tac := repeat (
  match goal with |- ∀ _, logs _ => intro | |- ∀ _, reports _ => intro | _ => fail end || tac || apply reports_validation || apply logs_bind ||
  apply logs_quiet || apply logs_for || apply logs_known || apply logs_validate || apply logs_warn || apply logs_ret || apply logs_fail || case_match).
Ltac logging := logging_with fail.

Lemma reports_switch z cases d t : Forall (λ c : list Z * (CellType → Validation), reports (c.2 t)) cases → reports (d t) → reports (switch z cases d t).
Proof. induction 1 as [|[zs v] cs Hv _ IH]; intros Hd; cbn; [done|]. case_bool_decide; [done|by apply IH]. Qed.

Lemma reports_symbol t : reports (validateSymbol t).
Proof.
  unfold validateSymbol. apply reports_switch; [|logging]. unfold symbol_cases.
  repeat (apply Forall_cons; split; [cbn [snd]; unfold validateIn, validateOut, validateConst, validateLogic1, validateLogic2plus,
    validateLogicMaj, validateDff, validateSDff, validateADff, validateDffRs, validateDLatch, validateADLatch, validateDLatchRs,
    validateLatchRs, validateBitwise1, validateBitwise2, validateReduce, validateBMux, validateMux2, validateMux, validateBDemux,
    validateDemux2, validateDemux, validateShift, validateCompare, validateArith1, validateArith2, validateUndef,
    IN_PINS, OUT_PINS, IN_PINS_ge, IN_PORTS, OUT_PORTS, IN_WIDTH, OUT_WIDTH, IN_IN_WIDTHS, OUT_OUT_WIDTHS, IN_OUT_WIDTHS, in_width, out_width; logging|]).
  constructor.
Qed.

Section Reports.
Context `{TypeStore, SubnetStore, NetStore} (store : Nets.State).

Section Nested.
Context (vt : CellType → Validation) (Hvt : ∀ t, reports (vt t)).

Lemma reports_net_cell id : reports (validateNetCell store vt id).
Proof using Hvt. unfold validateNetCell, validateLinkSource. logging_with ltac:(apply Hvt). Qed.

Lemma reports_net n : reports (validateNet_with store vt n).
Proof using Hvt. unfold validateNet_with, validateCells. logging_with ltac:(apply reports_net_cell). Qed.

Lemma reports_cell_links c ls m : reports (validateCell_links vt c ls m).
Proof using Hvt. unfold validateCell_links, validateCell. logging_with ltac:(apply Hvt). Qed.

Lemma logs_entries fuel s m i : logs (validateEntries vt fuel s m i).
Proof using Hvt.
  revert i. induction fuel as [|fuel IH]; intros i; cbn [validateEntries]; (destruct (_ <=? i); [apply logs_ret|]); [apply logs_fail|].
  logging_with ltac:(apply reports_cell_links || apply IH).
Qed.

Lemma reports_subnet s : reports (validateSubnet_with vt s).
Proof using Hvt. unfold validateSubnet_with. logging_with ltac:(apply logs_entries). Qed.

Lemma reports_type t : reports (validateCellType_with store vt t).
Proof using Hvt.
  unfold validateCellType_with. logging_with ltac:(apply reports_net || apply reports_subnet || apply reports_symbol).
Qed.
End Nested.

Lemma reports_cell_type depth t : reports (validateCellType store depth t).
Proof. revert t. induction depth as [|depth IH]; intros t; [by intros log r log'|]. cbn. by apply reports_type. Qed.
End Reports.

(** ** Silent checks *)

Definition passes {A} (c : st (bool * list Diag) A) (a : A) : Prop := ∀ s, c s = Some (a, s).
Definition accepts (v : Validation) : Prop := ∀ log, v log = Some (true, log).

Lemma passes_bind {A B} (c : st (bool * list Diag) A) (f : A → st (bool * list Diag) B) a b : passes c a → passes (f a) b → passes (c ≫= f) b.
Proof. intros Hc Hf s. erewrite bind_eval by apply Hc. apply Hf. Qed.

Lemma passes_known {A} (x : option A) a : x = Some a → passes (known x) a.
Proof. by intros -> s. Qed.

Lemma passes_validate p m : p = true → passes (VALIDATE p m) ().
Proof. by intros -> []. Qed.

Lemma passes_warn p m : p = true → passes (VALIDATE_WARN p m) ().
Proof. by intros -> []. Qed.

Lemma passes_quiet v : accepts v → passes (VALIDATE_QUIET v) ().
Proof. intros Hv [b log]. cbn. rewrite Hv. cbn. by rewrite andb_true_r. Qed.

Lemma passes_ret {A} (a : A) : passes (mret a) a.
Proof. done. Qed.

Lemma passes_for {X} (xs : list X) (f : X → Checks) : (∀ x, x ∈ xs → passes (f x) ()) → passes (st_for xs f) ().
Proof.
  induction xs as [|x xs IH]; intros Hf; cbn; [apply passes_ret|]. eapply passes_bind; [apply Hf; constructor|].
  apply IH. intros y Hy. apply Hf. by constructor.
Qed.

Lemma accepts_validation c : passes c () → accepts (validation c).
Proof. intros Hc log. unfold validation. by rewrite Hc. Qed.

(** A whole check passes if each of its parts does. *)
Lemma validate_false p m b log : p = false → VALIDATE p m (b, log) = Some ((), (false, log ++ [Error m])).
Proof. by intros ->. Qed.

Section Gates.
Context `{TypeStore, SubnetStore, NetStore} (store : Nets.State).

Lemma gate_no_impl s t : getCellType s = Some t → isNet t = false ∧ isSubnet t = false.
Proof. destruct s; try discriminate; intros [= <-]; done. Qed.

(** The standard gates pass. *)
Lemma gate_accepted depth s t : getCellType s = Some t → accepts (validateCellType store (S depth) t).
Proof.
  intros Ht. destruct (gate_no_impl s t Ht) as [Hn Hs]. cbn [validateCellType]. unfold validateCellType_with.
  apply accepts_validation. eapply passes_bind; [apply passes_validate|].
  { destruct s; try discriminate; by injection Ht as <-. }
  eapply passes_bind; [rewrite Hn, Hs; apply passes_ret|]. apply passes_quiet.
  destruct s; try discriminate; injection Ht as <-; intros log; reflexivity.
Qed.
End Gates.

(** ** Well-formed subnets *)

(** Cells are followed by as many link entries as they need. *)
Definition packed (s : Subnet) : bool :=
  forallb (λ e, match e with ECell c => more c =? (arity c + (InEntryLinks - 1) - InPlaceLinks) / InEntryLinks | _ => true end) (sn_entries s).

Lemma packed_cell s i c : packed s = true → Net.getCell s i = Some c → more c = (arity c + (InEntryLinks - 1) - InPlaceLinks) / InEntryLinks.
Proof.
  unfold packed, Net.getCell. rewrite forallb_forall. intros Hp Hc. destruct (sn_entries s !! i) as [e|] eqn:Ee; [|done].
  cbn in Hc. destruct e; try done. injection Hc as ->. apply list_elem_of_lookup_2, list_elem_of_In, Hp in Ee. by apply Nat.eqb_eq.
Qed.

Lemma links_arity s i c ls : Net.getCell s i = Some c → Net.getLinks s i = Some ls → length ls = arity c.
Proof. unfold Net.getLinks. intros ->. cbn. intros Hl%length_mapM. by rewrite length_seq in Hl. Qed.

(** The type of a cell of a well-formed subnet is a gate with the right number of inputs. *)
Lemma wf_gate s i c : sn_wf s = true → Net.getCell s i = Some c → ∃ sym t, type c = GateID sym ∧ getCellType sym = Some t ∧
  negb (isInNumFixed t) || (N.of_nat (arity c) =? nIn t)%N = true ∧ symbol t = sym ∧ isOutNumFixed t = true.
Proof.
  intros Hw Hc. destruct (wf_cell s i c Hw Hc) as (ls&Hf). pose proof (links_arity s i c ls Hc (cf_links _ _ _ _ Hf)) as Ha.
  pose proof (cf_type _ _ _ _ Hf) as Ht. rewrite <- Ha. destruct (type c) as [|sym|u]; [by destruct Ht as [_ [? ?]]| |by destruct Ht as [_ [? ?]]].
  exists sym. destruct sym; try (destruct Ht as [_ [? Hg]]; cbn in Hg; first [discriminate Hg | destruct (replicate _ _); discriminate Hg]); (eexists; split; [done|]; split; [done|]; split; [|done]).
  1: by destruct Ht as (_&->&_).
  1: by destruct Ht as (_&[l ->]&_).
  all: destruct Ht as [_ [y Hg]]; destruct ls as [|l1 [|l2 ls]]; try discriminate Hg; reflexivity.
Qed.

Section Subnets.
Context `{TypeStore, SubnetStore, NetStore} (store : Nets.State).
Context (s : Subnet) (Hw : sn_wf s = true) (Hp : packed s = true).

Lemma wf_type i c : Net.getCell s i = Some c → ∃ sym t, type c = GateID sym ∧ getType (type c) = Some t ∧ getCellType sym = Some t.
Proof using Hw. intros Hc. destruct (wf_gate s i c Hw Hc) as (sym&t&E&Ht&_). exists sym, t. rewrite E. done. Qed.

Lemma cell_accepted depth i c ls : Net.getCell s i = Some c → accepts (validateCell_links (validateCellType store (S depth)) c ls false).
Proof using Hw.
  intros Hc. destruct (wf_gate s i c Hw Hc) as (sym&t&E&Ht&Ha&Hs&Ho). unfold validateCell_links.
  assert (getType (type c) = Some t) as Hty by (by rewrite E).
  apply accepts_validation. eapply passes_bind; [apply passes_quiet|].
  { unfold validateCell. apply accepts_validation. eapply passes_bind; [by apply passes_known|].
    eapply passes_bind; [by apply passes_quiet, (gate_accepted store depth sym)|].
    eapply passes_bind; [by apply passes_validate|]. eapply passes_bind; [apply passes_known; unfold cellOutNum; by rewrite Hty|].
    apply passes_validate. by rewrite N.eqb_refl, orb_true_r. }
  eapply passes_bind; [by apply passes_known|]. eapply passes_bind.
  { destruct (negb (isSym IN t) && negb (isSym OUT t)); [|apply passes_ret]. destruct (isSym ZERO t || isSym ONE t); [by apply passes_warn|]. apply passes_validate.
    destruct sym; try discriminate; by injection Ht as <-. }
  apply passes_for. intros x _. by apply passes_validate.
Qed.

Lemma entries_accepted depth fuel : ∀ known i, sn_check fuel s known i = true →
  passes (validateEntries (validateCellType store (S depth)) fuel s false i) ().
Proof using Hw.
  induction fuel as [|fuel IH]; intros known i Hk; cbn [validateEntries]; cbn [sn_check] in Hk; destruct (Net.size s <=? i); try apply passes_ret; [done|].
  destruct (Net.getCell s i) as [c|] eqn:Ec; [|done]. destruct (Net.getLinks s i) as [ls|] eqn:El; [|done].
  apply andb_true_iff in Hk as [_ Hk]. eapply passes_bind; [by apply passes_known|]. eapply passes_bind; [by apply passes_known|].
  eapply passes_bind; [apply passes_quiet; by eapply cell_accepted|]. by eapply IH.
Qed.

(** The walk of the check from the inputs on. *)
Lemma check_from k : k ≤ sn_nIn s → ∃ fuel known, sn_check fuel s known k = true.
Proof using Hw.
  induction k as [|k IH]; intros Hk.
  - pose proof Hw as Hw'. unfold sn_wf in Hw'. apply andb_true_iff in Hw' as [_ Hc]. by exists (Net.size s), [].
  - destruct IH as (fuel&known&Hc); [lia|]. pose proof (wf_sizes s Hw) as Hs. destruct fuel as [|fuel]; cbn [sn_check] in Hc;
      rewrite (proj2 (Nat.leb_gt _ _)) in Hc by lia; [done|].
    destruct (Net.getCell s k) as [c|] eqn:Ec; [|done]. destruct (Net.getLinks s k) as [ls|] eqn:El; [|done].
    apply andb_true_iff in Hc as [Hc Hr]. apply cell_check_type in Hc.
    assert (more c = 0) as Hm.
    { destruct (type c) as [|[]|]; try (by destruct Hc as (_&_&?)); destruct Hc as [[? _] _]; lia. }
    rewrite Hm, Nat.add_0_r in Hr. by eexists _, _.
Qed.

Lemma not_mapped_loop n : ∀ i fuel known, sn_check fuel s known i = true → n = Net.size s - sn_nOut s - i → sn_nIn s ≤ i →
  Net.isTechMapped_loop s i n = Some false.
Proof using Hw Hp.
  induction n as [|n IH]; intros i fuel known Hc En Hi; [done|]. cbn [Net.isTechMapped_loop].
  destruct fuel as [|fuel]; cbn [sn_check] in Hc; rewrite (proj2 (Nat.leb_gt _ _)) in Hc by lia; [done|].
  destruct (Net.getCell s i) as [c|] eqn:Ec; [|done]. destruct (Net.getLinks s i) as [ls|] eqn:El; [|done].
  apply andb_true_iff in Hc as [Hc Hr]. cbn [mbind option_bind]. destruct (cell_is ZERO c || cell_is ONE c) eqn:Ek.
  - assert (more c = 0) as Hm.
    { rewrite (packed_cell s i c Hp Ec), <- (links_arity s i c ls Ec El). apply cell_check_type in Hc.
      apply orb_true_iff in Ek. unfold cell_is in Ek. rewrite !bool_decide_eq_true in Ek.
      destruct Ek as [E|E]; rewrite E in Hc; destruct Hc as [_ [y Hg]]; by destruct ls. }
    rewrite Hm, Nat.add_0_r in Hr. eapply IH; [exact Hr|lia|lia].
  - destruct (wf_type i c Ec) as (sym&t&E&->&Ht). cbn. f_equal. destruct sym; try discriminate; by injection Ht as <-.
Qed.

Lemma not_mapped : Net.isTechMapped s = Some false.
Proof using Hw Hp.
  unfold Net.isTechMapped. destruct (Net.isTrivial s); [done|]. destruct (check_from (sn_nIn s)) as (fuel&known&Hc); [done|].
  eapply not_mapped_loop; [exact Hc|lia|done].
Qed.

Lemma subnet_accepted depth : accepts (validateSubnet store (S depth) s).
Proof using Hw Hp.
  unfold validateSubnet, validateSubnet_with. apply accepts_validation. eapply passes_bind; [apply passes_known, not_mapped|].
  pose proof Hw as Hw'. unfold sn_wf in Hw'. apply andb_true_iff in Hw' as [_ Hc]. by eapply entries_accepted.
Qed.
End Subnets.
