(* ===== verification/ValidatorCorrect.v ===== *)
(** * The validator is right

    The theorems about the validator and its composition with the builders and
    the synthesizer. *)

From S2P Require Import PremapCorrect Prelude ObjectId CellAttr CellType SubnetBase Builder BuilderInv BuilderAdd BuilderEval MakeSpec SubnetEval Make MakeWf BuilderCorrect MakeCorrect Synth SynthArith Synthesizer Cnf Nets NetSpec Validator ValidatorSpec.
From stdpp Require Import gmap strings.

(** ** Deciding checks *)

Definition checks {A} (c : st (bool * list Diag) A) (a : A) (P : Prop) : Prop := ∀ b log, ∃ b' log',
  c (b, log) = Some (a, (b', log')) ∧ (b' = true ↔ b = true ∧ P).

Definition decides (v : Validation) (P : Prop) : Prop := ∀ log, ∃ r log', v log = Some (r, log') ∧ (r = true ↔ P).

Lemma checks_bind {A B} (c : st (bool * list Diag) A) (f : A → st (bool * list Diag) B) a b P Q : checks c a P → checks (f a) b Q → checks (c ≫= f) b (P ∧ Q).
Proof.
  intros Hc Hf b0 log. destruct (Hc b0 log) as (b1&log1&H1&E1). destruct (Hf b1 log1) as (b2&log2&H2&E2).
  exists b2, log2. erewrite bind_eval by exact H1. split; [exact H2|]. tauto.
Qed.

Lemma checks_iff {A} (c : st (bool * list Diag) A) a P Q : (P ↔ Q) → checks c a P → checks c a Q.
Proof. intros HPQ Hc b log. destruct (Hc b log) as (b'&log'&H&E). exists b', log'. split; [done|]. tauto. Qed.

Lemma checks_known {A} (x : option A) a : x = Some a → checks (known x) a True.
Proof. intros -> b log. exists b, log. split; [done|tauto]. Qed.

Lemma checks_ret {A} (a : A) : checks (mret a) a True.
Proof. intros b log. exists b, log. split; [done|tauto]. Qed.

Lemma checks_validate p m : checks (VALIDATE p m) () (p = true).
Proof. intros b log. destruct p; eexists _, _; (split; [done|]); [tauto|]. split; [done|]. by intros [_ ?]. Qed.

Lemma checks_quiet v P : decides v P → checks (VALIDATE_QUIET v) () P.
Proof.
  intros Hv b log. destruct (Hv log) as (r&log'&H&E). cbn. rewrite H. eexists _, _. split; [done|]. cbn. rewrite andb_true_iff. tauto.
Qed.

Lemma bind_stuck {S A B} (m : st S A) (f : A → st S B) s : (∀ a s', f a s' = None) → (m ≫= f) s = None.
Proof. intros Hf. unfold mbind, st_bind. destruct (m s) as [[a s']|]; [apply Hf|done]. Qed.

Lemma decides_validation c P : checks c () P → decides (validation c) P.
Proof.
  intros Hc log. destruct (Hc true log) as (b'&log'&H&E). exists b', log'. unfold validation. rewrite H. split; [done|]. tauto.
Qed.

Lemma decides_iff v P Q : (P ↔ Q) → decides v P → decides v Q.
Proof. intros HPQ Hv log. destruct (Hv log) as (r&log'&H&E). exists r, log'. split; [done|]. tauto. Qed.

Lemma accepts_decides v : accepts v → decides v True.
Proof. intros Hv log. exists true, log. split; [apply Hv|done]. Qed.

Lemma checks_for {X} (xs : list X) (f : X → Checks) (P : X → Prop) : (∀ x, x ∈ xs → checks (f x) () (P x)) →
  checks (st_for xs f) () (∀ x, x ∈ xs → P x).
Proof.
  induction xs as [|x xs IH]; intros Hf; cbn.
  - eapply checks_iff; [|apply checks_ret]. split; [|done]. by intros _ x ?%not_elem_of_nil.
  - eapply checks_iff; [|eapply checks_bind; [apply Hf; constructor|apply IH; intros y Hy; apply Hf; by constructor]].
    split; [|intros Hx; split; [apply Hx; constructor|intros y Hy; apply Hx; by constructor]].
    intros [Hx Hxs] y [->|Hy]%elem_of_cons; [done|by apply Hxs].
Qed.

(** ** Nets *)

Section NetChecks.
Context `{TypeStore, SubnetStore, NetStore} (st : Nets.State) (added : list Z) (Hr : net_inv st added).

(** A link to an output that its source has. *)
Definition link_fits (w : Z) : Prop := isValid w = true ∧ ∃ c t, Nets.cells st !! source w = Some c ∧ Nets.cellType c = Some t ∧
  (ObjectId.getPort w < Z.of_N (nOut t))%Z.

(** A cell with the right number of links, each of which fits. *)
Definition cell_fits (c : Nets.Cell) : Prop := ∃ t, Nets.cellType c = Some t ∧ (isInNumFixed t = true → Nets.fanin c = nIn t) ∧
  Forall link_fits (cell_links c).

Lemma link_source_decides k c w i : Nets.cells st !! k = Some c → w ∈ cell_links c → decides (validateLinkSource st w i) (link_fits w).
Proof using Hr.
  intros Hk Hw. pose proof (inv_cells _ _ Hr _ _ Hk) as Hok. destruct (proj1 (Forall_forall _ _) (ok_links _ _ Hok) w Hw) as [Hg Hl].
  assert (∃ j d, getCellID w = makeFID CellID j ∧ (0 ≤ j < NullSID CellID)%Z ∧ Nets.cells st !! j = Some d ∧ (isValid w = true → j = source w)) as (j&d&Ej&Rj&Hj&Es).
  { destruct (isValid w) eqn:Hv.
    - destruct (good_cell w Hg Hv) as [Hrg E]. destruct (Hl Hv) as [d Hd]. by exists (source w), d.
    - assert (w = LinkEnd_null) as ->.
      { destruct Hg as [->|(sid&port&Hs&Hp&->)]; [done|]. destruct (link_end_roundtrip sid port ltac:(lia) Hp) as (_&_&Hv'&_). congruence. }
      destruct (inv_dense _ _ Hr 0%Z) as [d Hd]; [pose proof (inv_below _ _ Hr _ _ Hk); lia|]. exists 0%Z, d. done. }
  destruct (ok_type _ _ (inv_cells _ _ Hr _ _ Hj)) as [t Ht]. unfold validateLinkSource. rewrite Ej.
  apply decides_validation. eapply checks_iff; [|eapply checks_bind; [apply checks_validate|eapply checks_bind; [apply checks_known; by eapply get_fid|
    eapply checks_bind; [apply checks_known; exact Ht|apply checks_validate]]]].
  rewrite fid_not_null by done. rewrite andb_true_r, Z.ltb_lt. unfold link_fits. split.
  - intros (Hv&_&_&Hp). split; [done|]. exists d, t. by rewrite <- Es.
  - intros (Hv&d'&t'&Hd&Ht'&Hp). rewrite <- Es in Hd by done. split_all; [done..|]. congruence.
Qed.

Lemma elem_of_indexed {A} (ls : list A) (x : A) : x ∈ ls ↔ ∃ i, (i, x) ∈ imap pair ls.
Proof.
  split.
  - intros [i Hi]%list_elem_of_lookup. exists i. apply list_elem_of_lookup. exists i. by rewrite list_lookup_imap, Hi.
  - intros [i [j Hj]%list_elem_of_lookup]. rewrite list_lookup_imap in Hj. destruct (ls !! j) as [y|] eqn:Ej; [|done].
    injection Hj as <- <-. by eapply list_elem_of_lookup_2.
Qed.

Context (vt : CellType → Validation) (Hvt : ∀ k c t, Nets.cells st !! k = Some c → Nets.cellType c = Some t → accepts (vt t))
  (Hfew : ∀ k c, Nets.cells st !! k = Some c → (Nets.fanin c < 2 ^ 16)%N).

Definition id_fits (id : Z) : Prop := ∃ c, Nets.get st id = Some c ∧ cell_fits c.

Lemma net_cell_decides id : id ∈ added → decides (validateNetCell st vt id) (id_fits id).
Proof using Hr Hvt Hfew.
  intros Hid. destruct (inv_added _ _ Hr id Hid) as (k&c&->&Hk). pose proof (inv_cells _ _ Hr _ _ Hk) as Hok.
  assert (0 ≤ k < NullSID CellID)%Z as Rk.
  { apply (sid_range k (Nets.cellSID st)); [by eapply (inv_below _ _ Hr)|apply (inv_sid _ _ Hr)]. }
  destruct (ok_type _ _ Hok) as [t Ht]. unfold validateNetCell.
  assert ((N.of_nat (length (cell_links c)) <? 2 ^ 16)%N = true) as Hsmall by (rewrite <- (ok_fanin _ _ Hok); by eapply N.ltb_lt, Hfew).
  apply decides_validation.
  eapply checks_iff; [|eapply checks_bind; [apply checks_known, get_fid; [done|exact Hk]|eapply checks_bind; [apply checks_known; exact Ht|
    eapply checks_bind; [by apply checks_quiet, accepts_decides, (Hvt k c)|eapply checks_bind; [apply checks_validate|
    eapply checks_bind; [apply checks_known; by eapply getLinks_ok|eapply checks_bind; [apply checks_validate|
    rewrite Hsmall; apply (checks_for _ _ (λ p, link_fits p.2)); intros [i w] Hw; cbn [fst snd]; apply checks_quiet; apply (link_source_decides k c); [done|apply elem_of_indexed; by exists i]]]]]]]].
  rewrite <- (ok_fanin _ _ Hok), N.eqb_refl. unfold id_fits, cell_fits. split.
  - intros (_&_&_&Hin&_&_&Hls). exists c. split; [by apply get_fid|]. exists t. split_all; [done| |].
    + intros Hfx. rewrite Hfx in Hin. by apply N.eqb_eq.
    + apply Forall_forall. intros w [i Hi]%elem_of_indexed. by apply (Hls (i, w)).
  - intros (c'&Hc'&t'&Ht'&Hin&Hls). rewrite (get_fid st k c Rk Hk) in Hc'. injection Hc' as <-. rewrite Ht in Ht'. injection Ht' as <-.
    split_all; try done.
    + destruct (isInNumFixed t); [by rewrite Hin, N.eqb_refl|done].
    + intros [i w] Hw. cbn. rewrite Forall_forall in Hls. apply Hls, elem_of_indexed. by exists i.
Qed.

Lemma net_cells_decides ids : (∀ id, id ∈ ids → id ∈ added) → decides (validateCells st vt ids) (∀ id, id ∈ ids → id_fits id).
Proof using Hr Hvt Hfew.
  intros Hin. unfold validateCells. apply decides_validation, checks_for. intros id Hid. by apply checks_quiet, net_cell_decides, Hin.
Qed.

Lemma net_decides n : Nets.make st = Some n → Nets.all_cells (Nets.builder st) ≡ₚ added → (N.of_nat (length added) < 2 ^ 32)%N →
  decides (validateNet_with st vt n)
    (Nets.inputs (Nets.builder st) ≠ [] ∧ Nets.outputs (Nets.builder st) ≠ [] ∧ ∀ id, id ∈ added → id_fits id).
Proof using Hr Hvt Hfew.
  intros Hm Hp Hlen. assert (Nets.lists n = Nets.builder st ∧ Nets.getInNum n = N.of_nat (length (Nets.inputs (Nets.builder st))) ∧
    Nets.getOutNum n = N.of_nat (length (Nets.outputs (Nets.builder st)))) as (El&Ei&Eo).
  { apply Permutation_length in Hp as Hpl. unfold Nets.all_cells in Hpl. rewrite !length_app in Hpl.
    unfold Nets.make, Nets.list_len in Hm. rewrite !(proj2 (N.ltb_lt _ _)) in Hm by lia. cbn [mbind option_bind] in Hm. by injection Hm as <-. }
  assert (∀ id, id ∈ added ↔ id ∈ Nets.all_cells (Nets.builder st)) as Hin by (intros id; by rewrite Hp).
  unfold Nets.all_cells in Hin. setoid_rewrite elem_of_app in Hin. unfold validateNet_with. rewrite El, Ei, Eo.
  apply decides_validation. eapply checks_iff; [|repeat first [eapply checks_bind | apply checks_validate |
    apply checks_quiet, net_cells_decides; intros id Hid; apply Hin; rewrite ?elem_of_app; tauto]].
  rewrite !N.ltb_lt. setoid_rewrite Hin. repeat setoid_rewrite elem_of_app.
  assert (∀ l : list Z, (0 < N.of_nat (length l))%N ↔ l ≠ []) as Hne by (intros [|]; cbn; split; (done || lia)).
  rewrite !Hne. split.
  - intros (K1&K2&K3&K4&K5&K6&K7&K8). split_all; [done..|]. intros id [?|[?|[?|[?|[?|?]]]]]; auto.
  - intros (K1&K2&K3). split_all; [done..| | | | | |]; intros id Hid; apply K3; tauto.
Qed.
End NetChecks.

(** ** Made subnets *)

Lemma made_packed `{TypeStore} b ins outs segs s : WF b ins outs segs → MakeSpec.made b (order_of segs outs) s → packed s = true.
Proof.
  intros HW Hm. unfold packed. apply forallb_forall. intros e He. apply list_elem_of_In, list_elem_of_lookup in He as [k Hk].
  apply lookup_lt_Some in Hk as Hlt. change (length (sn_entries s)) with (Net.size s) in Hlt. rewrite (md_size _ _ _ Hm) in Hlt.
  destruct (lookup_lt_is_Some_2 _ k Hlt) as [i Hi]. destruct (md_cells _ _ _ Hm k i Hi) as (c & c' & Hci & Hc' & (_ & S2 & S3 & _) & _).
  unfold Net.getCell in Hc'. rewrite Hk in Hc'. cbn in Hc'. destruct e as [d| |]; try done. injection Hc' as ->.
  destruct (live_cell b ins outs segs i HW) as (c0 & Hc0 & Hmore & Ha & _); [by eapply list_elem_of_lookup_2|].
  assert (c0 = c) as -> by congruence. apply Nat.eqb_eq. rewrite S2, S3, Hmore. unfold InPlaceLinks, InEntryLinks in *.
  symmetry. apply Nat.div_small. lia.
Qed.

(** ** Soft types *)

Section SoftTypes.
Context `{TypeStore, SubnetStore, NetStore} (store : Nets.State).

(** The symbols that have no case in the validator although the synthesizer has one. *)
Definition no_case (s : CellSymbol) : bool :=
  bool_decide (s ∈ [BNOTs; BANDs; BORs; BXORs; BNANDs; BNORs; BXNORs; NEGs]).

(** The number of operands of the operations on numbers. *)
Definition operands_of (s : CellSymbol) : option N :=
  match binary_op s, unary_op s with Some _, _ => Some 2%N | _, Some _ => Some 1%N | _, _ => None end.

Lemma ports_decides t a i o : attr t = Some a → decides (validation (IN_PORTS t i ;; OUT_PORTS t o)) (nInPort a = i ∧ nOutPort a = o).
Proof.
  intros Ha. apply decides_validation. eapply checks_iff; [|eapply checks_bind; eapply checks_bind;
    [apply checks_known; exact Ha|apply checks_validate|apply checks_known; exact Ha|apply checks_validate]].
  rewrite !N.eqb_eq. tauto.
Qed.

Lemma symbol_decides t a n : attr t = Some a → operands_of (symbol t) = Some n →
  decides (validateSymbol t) (no_case (symbol t) = false ∧ nInPort a = n ∧ nOutPort a = 1%N).
Proof.
  intros Ha Hn. unfold validateSymbol. destruct (symbol t) eqn:Hs; try discriminate Hn; injection Hn as <-;
    (eapply decides_iff; [|first [exact (ports_decides t a 2 1 Ha) | exact (ports_decides t a 1 1 Ha) |
      apply (decides_validation _ (false = true)); apply checks_validate]]); vm_compute (no_case _); tauto || (split; [done|by intros [? _]]).
Qed.

Lemma soft_type_parts sym name ins outs t : makeSoftType_widths sym name OBJ_NULL_ID ins outs = Some t →
  ∃ a, attr t = Some a ∧ CellTypeAttr_widths ins outs = Some a ∧ symbol t = sym ∧ implID t = OBJ_NULL_ID ∧
    nInPort a = vlen ins ∧ nOutPort a = vlen outs.
Proof.
  unfold makeSoftType_widths. intros (a&Ha&Ht)%bind_Some. apply bind_Some in Ht as (i&_&Ht). apply bind_Some in Ht as (o&_&Ht).
  injection Ht as <-. exists a. split_all; try done; unfold CellTypeAttr_widths in Ha; apply bind_Some in Ha as (v&_&Ha); by injection Ha as <-.
Qed.

Lemma soft_type_decides depth sym name ins outs t n : makeSoftType_widths sym name OBJ_NULL_ID ins outs = Some t → operands_of sym = Some n →
  decides (validateCellType store (S depth) t) (no_case sym = false ∧ vlen ins = n ∧ vlen outs = 1%N).
Proof.
  intros Ht Hn. destruct (soft_type_parts _ _ _ _ _ Ht) as (a&Ha&_&<-&Hi&Ei&Eo). cbn [validateCellType]. unfold validateCellType_with.
  assert (isNet t = false ∧ isSubnet t = false) as [-> ->] by (unfold isNet, isSubnet; by rewrite Hi).
  apply decides_validation. eapply checks_iff; [|eapply checks_bind; [apply checks_validate|eapply checks_bind; [apply checks_ret|
    apply checks_quiet; by eapply symbol_decides]]].
  rewrite Ha, bool_decide_eq_true_2, orb_true_r by by eexists. rewrite Ei, Eo. tauto.
Qed.

(** The widths of the ports of a type with one result. *)
Lemma convert_loop_widths ws input n l : convert_widths_loop ws input n = Some l → p_width <$> l = ws.
Proof.
  revert n l. induction ws as [|w ws IH]; intros n l; cbn; [by intros [= <-]|]. destruct (w =? 0)%N; [done|].
  intros (l'&Hl&Hn)%bind_Some. injection Hn as <-. cbn. f_equal. by eapply IH.
Qed.

Lemma type_widths ws w a : CellTypeAttr_widths ws [w] = Some a → (vlen ws < 2 ^ 16 - 1)%N →
  (∀ i x, ws !! i = Some x → getInWidth a (N.of_nat i) = Some x) ∧ getOutWidth a 0 = Some w.
Proof.
  unfold CellTypeAttr_widths, convert_widths. intros (v&Hv&Ha)%bind_Some Hlen. injection Ha as <-.
  destruct (_ <=? _)%N; [|done]. apply bind_Some in Hv as (l&Hl&Hv). apply bind_Some in Hv as (k&Hk&Hv). injection Hv as <-.
  apply convert_loop_widths in Hl, Hk. unfold getInWidth, getOutWidth, getOutPort, getPort, hasPortInfo, vget. cbn [nInPort nOutPort ports].
  assert (negb (vlen ws =? Unknown)%N && negb (vlen [w] =? Unknown)%N = true) as ->.
  { apply andb_true_iff. split; [|done]. apply negb_true_iff, N.eqb_neq. unfold Unknown. lia. }
  split.
  - intros i x Hx. rewrite Nat2N.id. rewrite <- list_lookup_fmap, fmap_app, Hl. by apply lookup_app_l_Some.
  - rewrite <- list_lookup_fmap, fmap_app, Hl, Hk. unfold vlen. replace (N.to_nat (N.of_nat (length ws) + 0)) with (length ws) by lia.
    by rewrite lookup_app_r, Nat.sub_diag by lia.
Qed.
End SoftTypes.

(** ** Theorems *)

Section Theorems.
Context `{TypeStore, SubnetStore, NetStore} (store : Nets.State).

(** The validator passes exactly what it has no error about: whatever the
    nesting, if the validation of a type, a net or a subnet ends, it has only
    added messages to the log, and it returns true exactly if none of them is an
    error (warnings do not count). *)
Theorem validation_reports depth t n s log r log' :
  validateCellType store depth t log = Some (r, log') ∨ validateNet store depth n log = Some (r, log') ∨
    validateSubnet store depth s log = Some (r, log') →
  ∃ new, log' = log ++ new ∧ (r = true ↔ ∀ m, Error m ∉ new).
Proof.
  intros Hv. assert (∃ new, log' = log ++ new ∧ r = no_errors new) as (new&->&->).
  { destruct Hv as [Hv|[Hv|Hv]]; [by eapply reports_cell_type|by eapply (reports_net store _ (reports_cell_type store depth))|
      by eapply (reports_subnet _ (reports_cell_type store depth))]. }
  exists new. split; [done|]. unfold no_errors. rewrite forallb_forall. split.
  - intros Hn m Hm. apply list_elem_of_In, Hn in Hm. done.
  - intros Hn [m|m] Hm; [|done]. by apply list_elem_of_In, Hn in Hm.
Qed.

(** C31 Subnets that builders make validate: for every builder of gates that
    clients reach, the subnet that [make] returns passes the validator without
    an error or a warning. *)
Theorem made_validates depth b ins outs log : reachable (b, ins, outs) → outs ≠ [] → combinational_builder b →
  ∃ s, Make.make false b = Some s ∧ validateSubnet store (S depth) s log = Some (true, log).
Proof.
  intros Hr Hne Hc. destruct (reachable_grown _ _ _ Hr) as [He Hf]. destruct (reachable_wf _ _ _ Hr) as [segs HW].
  destruct (make_made b ins outs segs HW Hf He Hne) as (s & Hs & Hm). exists s. split; [done|].
  apply subnet_accepted; [by eapply made_wf|by eapply made_packed].
Qed.

(** C32 Nets that builders make validate exactly if they are connected: the
    validation of a net that clients have built, from cells whose types
    validate and that have fewer than [2 ^ 16] links (the counter of the loop
    over the links has 16 bits), ends and returns true exactly if the net has an
    input and an output and every cell has as many links as its type asks for,
    each of them connected to an output that its source has. *)
Theorem net_validates depth added n log : net_reachable store added → Nets.make store = Some n → (N.of_nat (length added) < 2 ^ 32)%N →
  (∀ k c t, Nets.cells store !! k = Some c → Nets.cellType c = Some t → accepts (validateCellType store depth t)) →
  (∀ k c, Nets.cells store !! k = Some c → (Nets.fanin c < 2 ^ 16)%N) →
  ∃ r log', validateNet store depth n log = Some (r, log') ∧
    (r = true ↔ Nets.inputs (Nets.builder store) ≠ [] ∧ Nets.outputs (Nets.builder store) ≠ [] ∧
       ∀ id, id ∈ added → ∃ c, Nets.get store id = Some c ∧ cell_fits store c).
Proof.
  intros Hr%reachable_inv Hm Hlen Ht Hf. apply (net_decides store added Hr _ Ht Hf n Hm); [|done].
  rewrite (inv_lists _ _ Hr). apply all_cells_added. intros id Hid. by eapply inv_class.
Qed.

(** The loop over the links of a cell with more of them does not end. *)
Theorem net_cell_endless vt id c t log : Nets.get store id = Some c → Nets.cellType c = Some t → Nets.getLinks c = Some (cell_links c) →
  (2 ^ 16 ≤ N.of_nat (length (cell_links c)))%N → validateNetCell store vt id log = None.
Proof.
  intros Hc Ht Hl Hm. unfold validateNetCell, validation. rewrite Hc.
  erewrite bind_eval by done. rewrite Ht. erewrite bind_eval by done. rewrite bind_stuck; [done|]. intros _ s1. apply bind_stuck. intros _ s2.
  rewrite Hl. erewrite bind_eval by done. apply bind_stuck. intros _ s3. by rewrite (proj2 (N.ltb_ge _ _) Hm).
Qed.


(** The signed bitwise operations and the signed negation are rejected: the
    switch of the validator has only the unsigned symbols (for which BNOT, BAND, ..., NEG are
    other names), so that a soft type with a signed one and the right ports gets the error
    that its symbol is unknown, although the synthesizer supports it. *)
Theorem signed_rejected depth sym name ins outs t log : makeSoftType_widths sym name OBJ_NULL_ID ins outs = Some t →
  no_case sym = true → is_Some (operands_of sym) ∧ validateCellType store (S depth) t log = Some (false, log ++ [Error UnknownSymbol]).
Proof.
  intros Ht Hn. assert (is_Some (operands_of sym) ∧ ∀ t', symbol t' = sym → validateSymbol t' = validation (VALIDATE false UnknownSymbol)) as [Ho Hv].
  { unfold no_case in Hn. apply bool_decide_eq_true in Hn. rewrite !elem_of_cons, elem_of_nil in Hn.
    destruct Hn as [->|[->|[->|[->|[->|[->|[->|[->|[]]]]]]]]]; (split; [by eexists|intros t' Hs; unfold validateSymbol; by rewrite Hs]). }
  split; [done|]. destruct (soft_type_parts _ _ _ _ _ Ht) as (a&Ha&_&Hs&Hi&_). cbn [validateCellType]. unfold validateCellType_with.
  assert (isNet t = false ∧ isSubnet t = false) as [-> ->] by (unfold isNet, isSubnet; by rewrite Hi).
  rewrite Ha, bool_decide_eq_true_2, orb_true_r, (Hv t Hs) by by eexists. done.
Qed.
End Theorems.

(** ** Witnesses *)

Section Witnesses.
#[local] Instance witness_types : TypeStore := λ _, None.
#[local] Instance witness_subnets : SubnetStore := λ _, None.
#[local] Instance witness_nets : NetStore := λ _, None.

Definition no_cells : Nets.State := Nets.mkState ∅ 0 Nets.empty_net.

Definition typed (sym : CellSymbol) (ins outs : list N) : CellType :=
  default (soft_type sym [] []) (makeSoftType_widths sym "operation" OBJ_NULL_ID ins outs).

Lemma validation_reports_witness : ∃ new, [Error UnknownSymbol] = [] ++ new ∧ (false = true ↔ ∀ m, Error m ∉ new).
Proof.
  apply (validation_reports no_cells 1 (typed BANDs [3; 2]%N [4]%N) (Nets.mkNet Nets.empty_net 0 0 0) (mkSubnet 0 0 0 0 []) [] false).
  left. vm_compute. reflexivity.
Defined.

Lemma made_validates_witness : ∃ s, Make.make false (demo 4) = Some s ∧ validateSubnet no_cells 1 s [] = Some (true, []).
Proof.
  apply (made_validates no_cells 0 (demo 4) [0; 1] [3] [] demo4_reachable); [done|].
  exact (premappable_combinational _ _ _ (reachable_wf _ _ _ demo4_reachable) demo_premappable).
Defined.

Lemma net_validates_witness : ∃ r log', validateNet (after 5) 1 (Nets.mkNet (Nets.builder (after 5)) 1 0 2) [] = Some (r, log') ∧
  (r = true ↔ Nets.inputs (Nets.builder (after 5)) ≠ [] ∧ Nets.outputs (Nets.builder (after 5)) ≠ [] ∧
     ∀ id, id ∈ [cell_id 0; cell_id 1] → ∃ c, Nets.get (after 5) id = Some c ∧ cell_fits (after 5) c).
Proof.
  apply (net_validates (after 5) 1 [cell_id 0; cell_id 1] _ [] demo_reachable); [vm_compute; reflexivity|done| |].
  2:{ intros k c Hk. enough (forallb (λ p, Nets.fanin p.2 <? 2 ^ 16)%N (map_to_list (Nets.cells (after 5))) = true) as Hf.
      - rewrite forallb_forall in Hf. apply N.ltb_lt, (Hf (k, c)), list_elem_of_In. by apply elem_of_map_to_list.
      - vm_compute. reflexivity. }
  intros k c t _ Ht. unfold Nets.cellType in Ht. destruct (Nets.typeID c) as [|sym|u]; [done| |done]. by apply (gate_accepted _ 0 sym).
Defined.


Lemma signed_rejected_witness : is_Some (operands_of BANDs) ∧
  validateCellType no_cells 1 (typed BANDs [3; 2]%N [4]%N) [] = Some (false, [Error UnknownSymbol]).
Proof.
  apply (signed_rejected no_cells 0 BANDs "operation" [3; 2]%N [4]%N (typed BANDs [3; 2]%N [4]%N) []); [vm_compute; reflexivity|reflexivity].
Defined.
End Witnesses.
