(* ===== verification/Bits.v ===== *)
(** * Counting units ([util/bits.h])

    The four routines count the units of a word by adding neighbouring groups of bits; they
    are proved against the number of the bits that are set. *)

From S2P Require Import Prelude.

(** ** Definitions *)

#[local] Open Scope Z_scope.

(* util/bits.h:16-21 [count_units(uint8_t)] *)
Definition count_units8 (x : Z) : Z :=
  let x := (x - Z.land (Z.shiftr x 1) 0x55) mod 2 ^ 8 in
  let x := (Z.land x 0x33 + Z.land (Z.shiftr x 2) 0x33) mod 2 ^ 8 in
  let x := Z.land (x + Z.shiftr x 4) 0x0F mod 2 ^ 8 in
  (x * 0x01) mod 2 ^ 8.

(* util/bits.h:25-30 [count_units(uint16_t)] *)
Definition count_units16 (x : Z) : Z :=
  let x := (x - Z.land (Z.shiftr x 1) 0x5555) mod 2 ^ 16 in
  let x := (Z.land x 0x3333 + Z.land (Z.shiftr x 2) 0x3333) mod 2 ^ 16 in
  let x := Z.land (x + Z.shiftr x 4) 0x0F0F mod 2 ^ 16 in
  let x := (x * 0x0101) mod 2 ^ 16 in
  Z.shiftr x 8 mod 2 ^ 8.

(* util/bits.h:34-39 [count_units(uint32_t)] *)
Definition count_units32 (x : Z) : Z :=
  let x := (x - Z.land (Z.shiftr x 1) 0x55555555) mod 2 ^ 32 in
  let x := (Z.land x 0x33333333 + Z.land (Z.shiftr x 2) 0x33333333) mod 2 ^ 32 in
  let x := Z.land (x + Z.shiftr x 4) 0x0F0F0F0F mod 2 ^ 32 in
  let x := (x * 0x01010101) mod 2 ^ 32 in
  Z.shiftr x 24 mod 2 ^ 8.

(* util/bits.h:43-48 [count_units(uint64_t)] *)
Definition count_units64 (x : Z) : Z :=
  let x := (x - Z.land (Z.shiftr x 1) 0x5555555555555555) mod 2 ^ 64 in
  let x := (Z.land x 0x3333333333333333 + Z.land (Z.shiftr x 2) 0x3333333333333333) mod 2 ^ 64 in
  let x := Z.land (x + Z.shiftr x 4) 0xF0F0F0F0F0F0F0F mod 2 ^ 64 in
  let x := (x * 0x101010101010101) mod 2 ^ 64 in
  Z.shiftr x 56 mod 2 ^ 8.

(** ** Specification *)

(** The number of the units among the lowest [n] bits. *)
Fixpoint units (n : nat) (x : Z) : Z :=
  match n with 0%nat => 0 | S n => Z.b2z (Z.odd x) + units n (Z.div2 x) end.

(** ** Words of bytes, the lowest first *)

Fixpoint bytes (n : nat) (x : Z) : list Z :=
  match n with 0%nat => [] | S n => x mod 256 :: bytes n (x / 256) end.

Fixpoint word (bs : list Z) : Z :=
  match bs with [] => 0 | b :: bs => b + 256 * word bs end.

Definition byte (b : Z) : Prop := 0 <= b < 256.

Lemma word_bytes n x : 0 <= x < 256 ^ Z.of_nat n → word (bytes n x) = x.
Proof.
  revert x. induction n as [|n IH]; intros x Hx; cbn [word bytes].
  - change (256 ^ Z.of_nat 0) with 1 in Hx. lia.
  - rewrite Nat2Z.inj_succ, Z.pow_succ_r in Hx by lia. rewrite IH; [pose proof (Z.div_mod x 256); lia|].
    split; [apply Z.div_pos; lia|apply Z.div_lt_upper_bound; lia].
Qed.

Lemma bytes_byte n x : Forall byte (bytes n x).
Proof. revert x. induction n as [|n IH]; intros x; constructor; [apply Z.mod_pos_bound; lia|apply IH]. Qed.

Lemma length_bytes n x : length (bytes n x) = n.
Proof. revert x. induction n as [|n IH]; intros x; cbn; [done|]. by rewrite IH. Qed.


Lemma units_split n x : 0 <= x → units (8 + n) x = units 8 (x mod 256) + units n (x / 256).
Proof.
  intros Hx. assert (∀ k m y, units (k + m) y = units k (y mod 2 ^ Z.of_nat k) + units m (y / 2 ^ Z.of_nat k)) as Hs.
  { intros k m. induction k as [|k IH]; intros y.
    - change (2 ^ Z.of_nat 0) with 1. by rewrite Z.div_1_r.
    - cbn [units Nat.add]. rewrite IH, Z.add_assoc, Nat2Z.inj_succ, Z.pow_succ_r by lia.
      pose proof (Z.pow_pos_nonneg 2 (Z.of_nat k) ltac:(lia) ltac:(lia)) as Hq. generalize dependent (2 ^ Z.of_nat k).
      intros q _ Hq. rewrite !Z.div2_div, Z.div_div, Z.rem_mul_r by lia.
      replace ((y mod 2 + 2 * ((y / 2) mod q)) / 2) with ((y / 2) mod q)
        by (apply (Z.div_unique _ _ _ (y mod 2)); pose proof (Z.mod_pos_bound y 2); lia).
      do 3 f_equal. rewrite Z.odd_add, Z.odd_mul. cbn [Z.odd andb]. rewrite xorb_false_r, Zmod_odd. by destruct (Z.odd y). }
  apply (Hs 8%nat).
Qed.

Lemma units_bytes n x : 0 <= x → units (8 * n) x = foldr Z.add 0 (units 8 <$> bytes n x).
Proof.
  revert x. induction n as [|n IH]; intros x Hx; [done|]. replace (8 * S n)%nat with (8 + 8 * n)%nat by lia.
  cbn [bytes fmap list_fmap foldr]. by rewrite units_split, IH by (try apply Z.div_pos; lia).
Qed.

(** ** Operations on words are operations on their bytes *)

Lemma byte_testbit b w i : byte b → 0 <= i →
  Z.testbit (b + 256 * w) i = if i <? 8 then Z.testbit b i else Z.testbit w (i - 8).
Proof.
  intros Hb Hi. change 256 with (2 ^ 8). rewrite (Z.add_comm b), (Z.mul_comm (2 ^ 8)), <- lor_shiftl_add by (unfold byte in Hb; lia).
  rewrite Z.lor_spec, Z.shiftl_spec by lia. destruct (Z.ltb_spec i 8).
  - by rewrite Z.testbit_neg_r by lia.
  - rewrite (Z.bits_above_log2 b i); [by rewrite orb_false_r|unfold byte in Hb; lia|].
    destruct (decide (b = 0)) as [->|]; [cbn; lia|]. apply Z.log2_lt_pow2; [unfold byte in Hb; lia|].
    apply (Z.lt_le_trans _ (2 ^ 8)); [unfold byte in Hb; lia|apply Z.pow_le_mono_r; lia].
Qed.

Lemma land_byte a m : 0 <= m < 256 → byte (Z.land a m).
Proof.
  intros Hm. split; [apply Z.land_nonneg; lia|]. destruct (decide (Z.land a m = 0)) as [->|Hn]; [lia|].
  change 256 with (2 ^ 8). apply Z.log2_lt_pow2; [pose proof (Z.land_nonneg a m); lia|].
  destruct (Z.lt_ge_cases (Z.log2 (Z.land a m)) 8) as [|Hge]; [done|].
  pose proof (Z.bit_log2 (Z.land a m) ltac:(pose proof (Z.land_nonneg a m); lia)) as Hb.
  rewrite Z.land_spec, (Z.bits_above_log2 m), andb_false_r in Hb; [done|lia|].
  destruct (decide (m = 0)) as [->|]; [cbn; lia|].
  apply (Z.lt_le_trans _ 8); [apply Z.log2_lt_pow2; lia|lia].
Qed.

Lemma land_word b w k m r : byte b → 0 <= k <= 8 → 0 <= m < 2 ^ (8 - k) →
  Z.land (Z.shiftr (b + 256 * w) k) (m + 256 * r) = Z.land (Z.shiftr b k) m + 256 * Z.land (Z.shiftr w k) r.
Proof.
  intros Hb Hk Hm. assert (0 <= m < 256) as Hm'.
  { split; [lia|]. apply (Z.lt_le_trans _ (2 ^ (8 - k))); [lia|]. change 256 with (2 ^ 8). apply Z.pow_le_mono_r; lia. }
  apply Z.bits_inj'. intros i Hi. rewrite Z.land_spec, Z.shiftr_spec by lia.
  rewrite !byte_testbit by (done || lia || by apply land_byte). rewrite !Z.land_spec, Z.shiftr_spec by lia.
  destruct (Z.ltb_spec i 8), (Z.ltb_spec (i + k) 8); try lia.
  - done.
  - rewrite <- (Z.mod_small m (2 ^ (8 - k))) by lia. rewrite Z.mod_pow2_bits_high by lia. by rewrite !andb_false_r.
  - rewrite Z.shiftr_spec by lia. f_equal. f_equal. lia.
Qed.

(** A mask that is the same in every byte. *)
Lemma land_mask bs k m : Forall byte bs → 0 <= k <= 8 → 0 <= m < 2 ^ (8 - k) →
  Z.land (Z.shiftr (word bs) k) (word (replicate (length bs) m)) =
  word ((λ b, Z.land (Z.shiftr b k) m) <$> bs).
Proof.
  intros Hbs Hk Hm. induction Hbs as [|b bs Hb _ IH]; cbn [word length replicate fmap list_fmap].
  - by rewrite Z.land_0_r.
  - by rewrite land_word, IH.
Qed.

Lemma word_map2 (g : Z → Z → Z) (f1 f2 : Z → Z) bs :
  (∀ a b c d, g (a + 256 * b) (c + 256 * d) = g a c + 256 * g b d) → g 0 0 = 0 →
  g (word (f1 <$> bs)) (word (f2 <$> bs)) = word ((λ b, g (f1 b) (f2 b)) <$> bs).
Proof. intros Hg H0. induction bs as [|b bs IH]; cbn [word fmap list_fmap]; [done|]. by rewrite Hg, IH. Qed.

Lemma word_bound bs : Forall byte bs → 0 <= word bs < 256 ^ Z.of_nat (length bs).
Proof.
  induction 1 as [|b bs Hb _ IH]; cbn [word length]; [done|].
  rewrite Nat2Z.inj_succ, Z.pow_succ_r by lia. unfold byte in Hb. lia.
Qed.

(** The bytes after the second step: two counters of at most 4. *)
Definition nibbles (b : Z) : bool := (0 <=? b) && (b mod 16 <=? 4) && (b / 16 <=? 4).

Lemma nibbles_spec b : nibbles b = true → 0 <= b ∧ b mod 16 <= 4 ∧ b / 16 <= 4.
Proof. unfold nibbles. rewrite !andb_true_iff, !Z.leb_le. tauto. Qed.

Lemma add_nibbles bs : Forall (λ b, nibbles b = true) bs →
  Z.land (word bs + Z.shiftr (word bs) 4) (word (replicate (length bs) 15)) =
  word ((λ b, Z.land (b + Z.shiftr b 4) 15) <$> bs).
Proof.
  induction 1 as [|b bs Hb Hbs IH]; cbn [word length replicate fmap list_fmap]; [by rewrite Z.land_0_r|].
  apply nibbles_spec in Hb as (H0 & Hlo & Hhi). rewrite <- IH. clear IH.
  assert (0 <= word bs ∧ word bs mod 16 <= 4) as [Hw Hwm].
  { destruct Hbs as [|c bs Hc Hbs]; cbn [word]; [done|]. apply nibbles_spec in Hc as (? & ? & ?). split.
    - assert (0 <= word bs); [|lia]. clear - Hbs. induction Hbs as [|b bs Hb Hbs IH]; cbn [word]; [done|].
      apply nibbles_spec in Hb. lia.
    - replace (c + 256 * word bs) with (c + (16 * word bs) * 16) by lia. by rewrite Z_mod_plus_full. }
  rewrite !Z.shiftr_div_pow2 by lia. change (2 ^ 4) with 16.
  assert ((b + 256 * word bs) / 16 = b / 16 + 16 * word bs) as ->.
  { replace (b + 256 * word bs) with (b + (16 * word bs) * 16) by lia. apply Z.div_add. lia. }
  replace (b + 256 * word bs + (b / 16 + 16 * word bs)) with
    ((b + b / 16 + 16 * (word bs mod 16)) + 256 * (word bs + word bs / 16))
    by (pose proof (Z.div_mod (word bs) 16); lia).
  rewrite <- (Z.shiftr_0_r (_ + 256 * (_ + _))), land_word; [rewrite !Z.shiftr_0_r| |lia|lia].
  - f_equal. change 15 with (Z.ones 4). rewrite !Z.land_ones by lia. change (2 ^ 4) with 16.
    rewrite (Z.mul_comm 16), Z_mod_plus_full. done.
  - pose proof (Z.div_mod b 16). unfold byte. pose proof (Z.div_pos b 16). pose proof (Z.mod_pos_bound (word bs) 16). lia.
Qed.

(** ** The steps on a byte *)

Definition step1 (b : Z) : Z := b - Z.land (Z.shiftr b 1) 0x55.
Definition step2 (b : Z) : Z := Z.land b 0x33 + Z.land (Z.shiftr b 2) 0x33.
Definition step3 (b : Z) : Z := Z.land (b + Z.shiftr b 4) 0x0F.

Lemma steps_byte b : byte b →
  byte (step1 b) ∧ nibbles (step2 (step1 b)) = true ∧ step3 (step2 (step1 b)) = units 8 b.
Proof.
  intros Hb. assert (forallb (λ b, (0 <=? step1 b) && (step1 b <? 256) && nibbles (step2 (step1 b)) &&
    (step3 (step2 (step1 b)) =? units 8 b)) (Z.of_nat <$> seq 0 256) = true) as Hc by by vm_compute.
  rewrite forallb_forall in Hc. specialize (Hc b). rewrite !andb_true_iff, Z.leb_le, Z.ltb_lt, Z.eqb_eq in Hc.
  unfold byte. apply and_assoc. apply Hc. apply list_elem_of_In. apply list_elem_of_fmap. exists (Z.to_nat b).
  unfold byte in Hb. split; [lia|]. apply elem_of_seq. lia.
Qed.

(** The three steps that the routines share, on a word of bytes. *)
Definition steps (x m1 m2 m3 B : Z) : Z :=
  let x := (x - Z.land (Z.shiftr x 1) m1) mod B in
  let x := (Z.land x m2 + Z.land (Z.shiftr x 2) m2) mod B in
  Z.land (x + Z.shiftr x 4) m3 mod B.

Lemma units_bound n x : 0 <= units n x <= Z.of_nat n.
Proof.
  revert x. induction n as [|n IH]; intros x; cbn [units]; [lia|].
  specialize (IH (Z.div2 x)). destruct (Z.odd x); cbn [Z.b2z]; lia.
Qed.

Lemma units_byte b : 0 <= units 8 b <= 8.
Proof. apply (units_bound 8). Qed.

Lemma steps_word bs : Forall byte bs → let M m := word (replicate (length bs) m) in
  steps (word bs) (M 0x55) (M 0x33) (M 0x0F) (256 ^ Z.of_nat (length bs)) = word (units 8 <$> bs).
Proof.
  intros Hbs M. unfold steps.
  assert (Forall byte (step1 <$> bs)) as H1 by (apply Forall_fmap; revert Hbs; apply Forall_impl; apply steps_byte).
  assert (Forall (λ b, nibbles b = true) (step2 <$> (step1 <$> bs))) as H2.
  { apply Forall_fmap, Forall_fmap. revert Hbs; apply Forall_impl; apply steps_byte. }
  assert (Forall byte (step2 <$> (step1 <$> bs))) as H2b.
  { revert H2; apply Forall_impl. intros b (? & ? & ?)%nibbles_spec. pose proof (Z.div_mod b 16). unfold byte. lia. }
  replace (word bs - Z.land (Z.shiftr (word bs) 1) (M 85)) with (word (step1 <$> bs)).
  2: { unfold M. rewrite land_mask by (done || lia). rewrite <- (list_fmap_id bs) at 2. symmetry.
    apply (word_map2 Z.sub); [intros; lia|done]. }
  rewrite (Z.mod_small (word (step1 <$> bs))) by (pose proof (word_bound _ H1) as Hw; by rewrite length_fmap in Hw).
  replace (Z.land (word (step1 <$> bs)) (M 51) + Z.land (Z.shiftr (word (step1 <$> bs)) 2) (M 51))
    with (word (step2 <$> (step1 <$> bs))).
  2: { unfold M. rewrite <- (length_fmap step1 bs). rewrite land_mask by (done || lia).
    rewrite <- (Z.shiftr_0_r (word (step1 <$> bs))) at 1. rewrite land_mask by (done || lia). symmetry.
    etrans; [apply (word_map2 Z.add); [intros; lia|done]|]. f_equal. }
  rewrite (Z.mod_small (word (step2 <$> (step1 <$> bs)))) by (pose proof (word_bound _ H2b) as Hw; by rewrite !length_fmap in Hw).
  unfold M. replace (length bs) with (length (step2 <$> (step1 <$> bs))) at 1 by by rewrite !length_fmap.
  rewrite add_nibbles by done. rewrite <- !list_fmap_compose.
  replace (_ <$> bs) with (units 8 <$> bs); [apply Z.mod_small|].
  - rewrite <- (length_fmap (units 8) bs). apply word_bound. apply Forall_fmap.
    revert Hbs; apply Forall_impl. intros b _. pose proof (units_byte b). unfold compose, byte. lia.
  - apply list_fmap_ext. intros i b Hb. symmetry. apply steps_byte. by eapply Forall_lookup_1 in Hb.
Qed.

(** The first three steps on a number of [n] bytes. *)
Lemma steps_spec n x : 0 <= x < 256 ^ Z.of_nat n → let M m := word (replicate n m) in
  steps x (M 0x55) (M 0x33) (M 0x0F) (256 ^ Z.of_nat n) = word (units 8 <$> bytes n x).
Proof.
  intros Hx M. pose proof (steps_word (bytes n x) (bytes_byte n x)) as H. cbn zeta in H.
  by rewrite length_bytes, word_bytes in H.
Qed.

(** The product with [0x01...01] has the sum of the bytes in its top byte. *)
Definition ones (n : nat) : Z := word (replicate n 1).
Definition sum (cs : list Z) : Z := foldr Z.add 0 cs.

Lemma ones_last n : ones (S n) = ones n + 256 ^ Z.of_nat n.
Proof.
  unfold ones. induction n as [|n IH]; [done|]. cbn [replicate word] in *.
  rewrite Nat2Z.inj_succ, Z.pow_succ_r by lia. lia.
Qed.

Lemma ones_bound n : 0 <= ones n ∧ 255 * ones n < 256 ^ Z.of_nat n.
Proof.
  induction n as [|n IH]; [done|]. rewrite ones_last, Nat2Z.inj_succ, Z.pow_succ_r by lia. lia.
Qed.

Lemma mul_ones c cs : let n := length cs in 0 <= c → Forall (λ c, 0 <= c) cs →
  ∃ A B, word (c :: cs) * ones (S n) = A + 256 ^ Z.of_nat n * sum (c :: cs) + 256 ^ Z.of_nat (S n) * B ∧
    0 <= A <= sum (c :: cs) * ones n.
Proof.
  cbn zeta. intros Hc Hcs. revert c Hc. induction Hcs as [|d cs Hd Hcs IH]; intros c Hc.
  - exists 0, 0. cbn. lia.
  - destruct (IH d Hd) as (A & B & E & HA).
    cbn [length] in *. set (n := length cs) in *. set (W := word (d :: cs)) in *. set (T := sum (d :: cs)) in *.
    change (word (c :: d :: cs)) with (c + 256 * W). change (sum (c :: d :: cs)) with (c + T).
    rewrite (ones_last (S n)), (Nat2Z.inj_succ (S n)), (Z.pow_succ_r 256 (Z.of_nat (S n))) by lia.
    assert (256 ^ Z.of_nat (S n) = 256 * 256 ^ Z.of_nat n) as Hq by (rewrite Nat2Z.inj_succ, Z.pow_succ_r; lia).
    exists (c * ones (S n) + 256 * A), (B + W). split; [rewrite Hq in *; nia|].
    assert (ones (S n) = 1 + 256 * ones n) as Ho by done. pose proof (ones_bound n).
    assert (0 <= T) by (unfold T; clear - Hd Hcs; cbn [sum foldr]; induction Hcs; cbn [foldr]; lia).
    rewrite Ho. nia.
Qed.

Lemma top_byte n (cs : list Z) : length cs = S n → Forall (λ c, 0 <= c) cs → sum cs < 256 →
  Z.shiftr ((word cs * ones (S n)) mod 256 ^ Z.of_nat (S n)) (8 * Z.of_nat n) mod 2 ^ 8 = sum cs.
Proof.
  intros Hn Hcs Hs. destruct Hcs as [|c cs Hc Hcs]; [done|]. injection Hn as <-.
  destruct (mul_ones c cs Hc Hcs) as (A & B & E & HA). rewrite E. clear E.
  assert (0 <= sum (c :: cs)) as H0 by (cbn [sum foldr]; clear - Hc Hcs; induction Hcs; cbn [foldr]; lia).
  pose proof (ones_bound (length cs)) as Ho. rewrite Nat2Z.inj_succ, Z.pow_succ_r in * by lia.
  replace (2 ^ 8) with 256 by done. rewrite Z.shiftr_div_pow2, Z.pow_mul_r by lia. change (2 ^ 8) with 256.
  set (q := 256 ^ Z.of_nat (length cs)) in *. set (T := sum (c :: cs)) in *.
  assert (T * ones (length cs) <= 255 * ones (length cs)) by (apply Z.mul_le_mono_nonneg_r; lia).
  assert (q * T <= q * 255) by (apply Z.mul_le_mono_nonneg_l; lia). assert (0 <= q * T) by (apply Z.mul_nonneg_nonneg; lia).
  rewrite (Z.mul_comm (256 * q)), Z_mod_plus_full, (Z.mod_small (A + q * T)) by lia.
  rewrite (Z.mul_comm q), Z.div_add, Z.div_small, Z.mod_small by lia. lia.
Qed.

Lemma sum_units bs : 0 <= sum (units 8 <$> bs) <= 8 * Z.of_nat (length bs).
Proof.
  induction bs as [|b bs IH]; [done|]. pose proof (units_byte b).
  change (sum (units 8 <$> b :: bs)) with (units 8 b + sum (units 8 <$> bs)). cbn [length]. lia.
Qed.

(** All the steps of a routine with more than one byte. *)
Lemma count_spec n x : (n < 31)%nat → 0 <= x < 256 ^ Z.of_nat (S n) → let M m := word (replicate (S n) m) in
  Z.shiftr ((steps x (M 0x55) (M 0x33) (M 0x0F) (256 ^ Z.of_nat (S n)) * M 1) mod 256 ^ Z.of_nat (S n)) (8 * Z.of_nat n) mod 2 ^ 8
  = units (8 * S n) x.
Proof.
  intros Hn Hx M. unfold M. rewrite (steps_spec (S n) x Hx). change (word (replicate (S n) 1)) with (ones (S n)).
  pose proof (sum_units (bytes (S n) x)) as Hs. rewrite length_bytes in Hs.
  rewrite top_byte; [by rewrite units_bytes by lia|by rewrite length_fmap, length_bytes| |lia].
  apply Forall_fmap. pose proof (bytes_byte (S n) x) as Hb. revert Hb. apply Forall_impl.
  intros b _. unfold compose. pose proof (units_byte b). lia.
Qed.

(** ** The routines *)

Lemma count_units8_spec x : 0 <= x < 2 ^ 8 → count_units8 x = units 8 x.
Proof.
  intros Hx. change (units 8 x) with (units (8 * 1) x). rewrite <- (count_spec 0 x) by (done || lia). unfold count_units8. change (8 * Z.of_nat 0) with 0.
  rewrite Z.shiftr_0_r. symmetry. apply Z.mod_mod. lia.
Qed.

Lemma count_units16_spec x : 0 <= x < 2 ^ 16 → count_units16 x = units 16 x.
Proof. intros Hx. exact (count_spec 1 x ltac:(lia) Hx). Qed.

Lemma count_units32_spec x : 0 <= x < 2 ^ 32 → count_units32 x = units 32 x.
Proof. intros Hx. exact (count_spec 3 x ltac:(lia) Hx). Qed.

Lemma count_units64_spec x : 0 <= x < 2 ^ 64 → count_units64 x = units 64 x.
Proof. intros Hx. exact (count_spec 7 x ltac:(lia) Hx). Qed.

(** ** Counting the units of unions *)

Lemma units_lor n x y : units n (Z.lor x y) <= units n x + units n y.
Proof.
  revert x y. induction n as [|n IH]; intros x y; cbn [units]; [lia|].
  rewrite !Z.div2_spec, Z.shiftr_lor, <- !Z.div2_spec, <- !Z.bit0_odd, Z.lor_spec. specialize (IH (Z.div2 x) (Z.div2 y)).
  destruct (Z.testbit x 0), (Z.testbit y 0); cbn [Z.b2z orb]; lia.
Qed.

Lemma units_0 n : units n 0 = 0.
Proof. induction n as [|n IH]; [done|]. cbn [units Z.div2]. by rewrite IH. Qed.

Lemma units_pow2 n k : 0 <= k → units n (2 ^ k) <= 1.
Proof.
  intros Hk. revert n. pattern k. apply natlike_ind; [| |done].
  - intros [|n]; [done|]. change (2 ^ 0) with 1. cbn [units Z.div2]. rewrite units_0. done.
  - intros m Hm IH [|n]; [done|]. cbn [units]. rewrite Z.pow_succ_r, Z.div2_div, Z.odd_mul by lia.
    rewrite (Z.mul_comm 2), Z.div_mul by lia. cbn [Z.odd andb Z.b2z]. specialize (IH n). lia.
Qed.

(** ** The theorem *)

(** C40 Each of the four routines returns the number of the bits that are set in its argument, for every
    argument of its width: the groups of bits that it adds do not carry into each other, and the sum
    fits into the byte that is returned. *)
Theorem count_units_correct x :
  (0 <= x < 2 ^ 8 → count_units8 x = units 8 x) ∧ (0 <= x < 2 ^ 16 → count_units16 x = units 16 x) ∧
  (0 <= x < 2 ^ 32 → count_units32 x = units 32 x) ∧ (0 <= x < 2 ^ 64 → count_units64 x = units 64 x).
Proof.
  split_all; [apply count_units8_spec|apply count_units16_spec|apply count_units32_spec|apply count_units64_spec].
Qed.

Lemma count_units_correct_witness : count_units8 0xB5 = units 8 0xB5 ∧ count_units64 0xB5 = units 64 0xB5 ∧ units 64 0xB5 = 5.
Proof.
  destruct (count_units_correct 0xB5) as (H8 & _ & _ & H64). split_all; [apply H8; lia|apply H64; lia|reflexivity].
Defined.
