(* ===== verification/BoundedSet.v ===== *)
(** * Bounded sets ([util/bounded_set.h])

    A set of at most [maxSize] numbers in an increasing array with a signature of 64 bits,
    one per element (modulo 64).  The two halves of the buffer that [merge] swaps are
    left out: every operation reads the current half only.  The element
    past the end that [find] reads does not matter, for the place it gives is the end. *)

From S2P Require Import Prelude Bits.

(** ** The set *)

(* util/bounded_set.h:36-46 [BoundedSet] *)
Record BoundedSet := mkBoundedSet {
  maxSize : nat;
  isImmutable : bool;
  elems : list nat;
  signature : Z;
}.

(* util/bounded_set.h:73-73 [BoundedSet::size] *)
Definition setSize (s : BoundedSet) : nat := length (elems s).

(* util/bounded_set.h:75-75 [BoundedSet::empty] *)
Definition empty (s : BoundedSet) : bool := setSize s =? 0.

(* util/bounded_set.h:71-71 [BoundedSet::capacity] *)
Definition capacity (s : BoundedSet) : nat := maxSize s.

(* util/bounded_set.h:83-83 [BoundedSet::minValue] *)
Definition minValue (s : BoundedSet) : option nat := elems s !! 0.

(* util/bounded_set.h:85-85 [BoundedSet::maxValue] *)
Definition maxValue (s : BoundedSet) : option nat := elems s !! (setSize s - 1).

(* util/bounded_set.h:146-149 [getSignature] *)
Definition getSignature (elem : nat) : Z := (2 ^ Z.of_nat (elem mod 64))%Z.

(* util/bounded_set.h:171-180 [BoundedSet::BoundedSet(SizeType, bool)] *)
Definition emptySet (max : nat) (imm : bool) : option BoundedSet :=
  if bool_decide (0 < max) then Some (mkBoundedSet max imm [] 0) else None.

(* util/bounded_set.h:182-193 [BoundedSet::BoundedSet(SizeType, NumType, bool)] *)
Definition singleSet (max elem : nat) (imm : bool) : option BoundedSet :=
  if bool_decide (0 < max) then Some (mkBoundedSet max imm [elem] (getSignature elem)) else None.

(** [std::lower_bound]: the first place whose element is not less. *)
Fixpoint lower_bound (l : list nat) (num : nat) : nat :=
  match l with
  | x :: l => if x <? num then S (lower_bound l num) else 0
  | [] => 0
  end.

(** The place of an element, or the end. *)
(* util/bounded_set.h:371-377 [BoundedSet::find] *)
Definition find (s : BoundedSet) (num : nat) : nat :=
  let r := lower_bound (elems s) num in
  if bool_decide (elems s !! r = Some num) then r else setSize s.

(** The loop that looks for the place of a new element. *)
(* util/bounded_set.h:347-349 [BoundedSet::insertRaw] *)
Fixpoint insert_place (l : list nat) (x : nat) : nat :=
  match l with
  | y :: l => if y <? x then S (insert_place l x) else 0
  | [] => 0
  end.

(* util/bounded_set.h:342-362 [BoundedSet::insertRaw] *)
Definition insertRaw (newElement : nat) (isChecked : bool) : st BoundedSet bool :=
  s ← st_get;
  if (setSize s + 1 <=? maxSize s) && (isChecked || (find s newElement =? setSize s)) then
    let i := insert_place (elems s) newElement in
    st_put (mkBoundedSet (maxSize s) (isImmutable s)
      (take i (elems s) ++ newElement :: drop i (elems s))
      (Z.lor (signature s) (getSignature newElement)));;
    mret true
  else mret false.

(* util/bounded_set.h:364-369 [BoundedSet::insert] *)
Definition insert (newElement : nat) (isChecked : bool) : st BoundedSet bool :=
  s ← st_get; st_assert (negb (isImmutable s));; insertRaw newElement isChecked.

(** [set] holds the elements of the unordered set in the order of its iteration. *)
(* util/bounded_set.h:195-211 [BoundedSet::BoundedSet(SizeType, const std::unordered_set &, bool)] *)
Definition setOf (max : nat) (set : list nat) (imm : bool) : option BoundedSet :=
  if bool_decide (0 < max ∧ length set ≤ max) then
    snd <$> st_for set (λ e, insertRaw e true;; mret ()) (mkBoundedSet max imm [] 0)
  else None.

(* util/bounded_set.h:238-261 [BoundedSet::contains] *)
Definition contains (s other : BoundedSet) : bool :=
  if setSize s <? setSize other then false
  else if negb (signature s =? Z.lor (signature s) (signature other))%Z then false
  else forallb (λ elem, negb (find s elem =? setSize s)) (elems other).

(** ** Unions *)

(** The loop over two arrays; every round takes the least of the two heads. *)
(* util/bounded_set.h:276-294 [BoundedSet::merge] *)
Fixpoint merge_elems (l1 l2 : list nat) : list nat :=
  let fix go (l2 : list nat) : list nat :=
    match l1, l2 with
    | [], _ => l2
    | _, [] => l1
    | x :: l1', y :: l2' =>
      if x =? y then x :: merge_elems l1' l2'
      else if x <? y then x :: merge_elems l1' l2
      else y :: go l2'
    end in
  go l2.

(** The same loop, which only counts. *)
(* util/bounded_set.h:322-337 [BoundedSet::unionCheck] *)
Fixpoint union_count (l1 l2 : list nat) (k : nat) : nat :=
  let fix go (l2 : list nat) (k : nat) : nat :=
    match l1, l2 with
    | x :: l1', y :: l2' =>
      if x =? y then union_count l1' l2' (to_u16 (k + 1))
      else if x <? y then union_count l1' l2 (to_u16 (k + 1))
      else go l2' (to_u16 (k + 1))
    | _, _ => to_u16 (k + (length l1 + length l2))
    end in
  go l2 k.

(* util/bounded_set.h:303-340 [BoundedSet::unionCheck] *)
Definition unionCheck (s other : BoundedSet) : bool :=
  if setSize s + setSize other <=? maxSize s then true
  else if (Z.land (signature s) (signature other) =? 0)%Z then false
  else if (Z.of_nat (maxSize s) <? count_units64 (Z.lor (signature s) (signature other)))%Z then false
  else union_count (elems s) (elems other) 0 <=? maxSize s.

(* util/bounded_set.h:263-301 [BoundedSet::merge] *)
Definition merge (other : BoundedSet) : st BoundedSet bool :=
  s ← st_get; st_assert (negb (isImmutable s));;
  if unionCheck s other then
    st_put (mkBoundedSet (maxSize s) (isImmutable s) (merge_elems (elems s) (elems other))
      (Z.lor (signature s) (signature other)));;
    mret true
  else mret false.

(* util/bounded_set.h:398-416 [BoundedSet::operator==] *)
Definition equal (s other : BoundedSet) : bool :=
  if negb (setSize s =? setSize other) then false
  else if negb (signature s =? signature other)%Z then false
  else forallb (λ '(x, y), x =? y) (combine (elems s) (elems other)).

(* util/bounded_set.h:420-426 [std::hash<BoundedSet>] *)
Definition hash (s : BoundedSet) : Z := signature s.
