(* ===== verification/BoundedSetSpec.v ===== *)
(** * Bounded sets are finite sets with a bound

    [bs_wf] is the invariant: an increasing array of at most [maxSize] elements with its
    signature.  [elts] is the finite set that a bounded set represents; the lemmas relate every
    operation to the operation of finite sets. *)

From S2P Require Import Prelude Bits.
From stdpp Require Import gmap sorting.
From S2P Require Import BoundedSet.

(** ** The invariant and the set *)

(** The signature of the elements [l]. *)
Fixpoint sig_of (l : list nat) : Z :=
  match l with [] => 0 | e :: l => Z.lor (getSignature e) (sig_of l) end.

Record bs_wf (s : BoundedSet) : Prop := {
  bw_max : 0 < maxSize s;
  bw_sorted : StronglySorted lt (elems s);
  bw_size : setSize s ≤ maxSize s;
  bw_sig : signature s = sig_of (elems s);
}.

Definition elts (s : BoundedSet) : gset nat := list_to_set (elems s).

Lemma elem_of_elts s x : x ∈ elts s ↔ x ∈ elems s.
Proof. apply elem_of_list_to_set. Qed.

(** ** Increasing lists *)

Lemma sorted_NoDup (l : list nat) : StronglySorted lt l → NoDup l.
Proof.
  induction 1 as [|x l _ IH Hx]; constructor; [|done]. intros Hin.
  rewrite Forall_forall in Hx. specialize (Hx x Hin). lia.
Qed.

Lemma size_sorted (l : list nat) : StronglySorted lt l → size (list_to_set (C := gset nat) l) = length l.
Proof. intros Hl. by apply size_list_to_set, sorted_NoDup. Qed.

#[local] Instance lt_antisymm : AntiSymm (=) lt.
Proof. intros x y. lia. Qed.

(** An increasing list is determined by its elements. *)
Lemma sorted_unique (l k : list nat) : StronglySorted lt l → StronglySorted lt k →
  (∀ x, x ∈ l ↔ x ∈ k) → l = k.
Proof.
  intros Hl Hk E. apply (StronglySorted_unique lt); [done..|].
  apply NoDup_Permutation; [by apply sorted_NoDup..|done].
Qed.

Lemma sorted_cons_lt x y l : StronglySorted lt (x :: l) → y ∈ l → x < y.
Proof. inversion_clear 1 as [|? ? _ Hx]. rewrite Forall_forall in Hx. apply Hx. Qed.

Lemma sorted_cons_inv x l : StronglySorted lt (x :: l) → StronglySorted lt l.
Proof. by inversion_clear 1. Qed.

#[local] Hint Resolve sorted_cons_inv : core.

(** ** Searching *)

(** The place that both loops look for: what is before is less, what is after is not. *)
Lemma lower_bound_spec (l : list nat) x : StronglySorted lt l →
  lower_bound l x ≤ length l ∧ (∀ y, y ∈ take (lower_bound l x) l → y < x) ∧
  (∀ y, y ∈ drop (lower_bound l x) l → x ≤ y).
Proof.
  induction 1 as [|y l Hl (H1 & H2 & H3) Hy]; cbn [lower_bound].
  - cbn. split_all; [lia|set_solver..].
  - destruct (Nat.ltb_spec y x).
    + cbn [length take drop]. split_all; [lia| |done]. intros z [->|Hz]%elem_of_cons; auto.
    + cbn [take drop]. split_all; [lia|set_solver|]. rewrite Forall_forall in Hy.
      intros z [->|Hz]%elem_of_cons; [done|]. specialize (Hy z Hz). lia.
Qed.

Lemma find_spec s x : StronglySorted lt (elems s) →
  if decide (x ∈ elems s) then elems s !! find s x = Some x ∧ find s x < setSize s else find s x = setSize s.
Proof.
  intros Hs. destruct (lower_bound_spec (elems s) x Hs) as (H1 & H2 & H3). unfold find.
  destruct (decide (x ∈ elems s)) as [Hx|Hx].
  - assert (elems s !! lower_bound (elems s) x = Some x) as E.
    { rewrite <- (take_drop (lower_bound (elems s) x) (elems s)) in Hx.
      apply elem_of_app in Hx as [Hx|Hx]; [specialize (H2 x Hx); lia|].
      destruct (drop (lower_bound (elems s) x) (elems s)) as [|y r] eqn:Ed; [by apply not_elem_of_nil in Hx|].
      assert (elems s !! lower_bound (elems s) x = Some y) as Ey.
      { rewrite <- (Nat.add_0_r (lower_bound _ _)), <- lookup_drop, Ed. done. }
      rewrite Ey. f_equal. specialize (H3 y (list_elem_of_here _ _)).
      apply elem_of_cons in Hx as [->|Hx]; [done|].
      assert (StronglySorted lt (y :: r)) as Hr.
      { rewrite <- Ed. rewrite <- (take_drop (lower_bound (elems s) x) (elems s)) in Hs. by apply StronglySorted_app in Hs as (_ & _ & Hs). }
      pose proof (sorted_cons_lt _ _ _ Hr Hx). lia. }
    rewrite bool_decide_true by done. split; [done|]. by apply lookup_lt_Some in E.
  - rewrite bool_decide_false; [done|]. intros E. apply Hx. by apply list_elem_of_lookup_2 in E.
Qed.

Lemma find_end s x : StronglySorted lt (elems s) → find s x = setSize s ↔ x ∉ elems s.
Proof.
  intros Hs. pose proof (find_spec s x Hs) as Hf. case_decide; [|done]. split; [lia|done].
Qed.

(** ** Signatures *)

Lemma getSignature_testbit e i : (0 ≤ i)%Z →
  Z.testbit (getSignature e) i = bool_decide (i = Z.of_nat (e mod 64)).
Proof.
  intros Hi. unfold getSignature. rewrite Z.pow2_bits_eqb by lia.
  destruct (Z.eqb_spec (Z.of_nat (e mod 64)) i); [by rewrite bool_decide_true|by rewrite bool_decide_false by congruence].
Qed.

Lemma sig_testbit l i : (0 ≤ i)%Z →
  Z.testbit (sig_of l) i = true ↔ ∃ e, e ∈ l ∧ i = Z.of_nat (e mod 64).
Proof.
  intros Hi. induction l as [|e l IH]; cbn [sig_of].
  - rewrite Z.bits_0. split; [done|]. intros (e & He & _). by apply not_elem_of_nil in He.
  - rewrite Z.lor_spec, orb_true_iff, getSignature_testbit, bool_decide_eq_true, IH by done.
    setoid_rewrite elem_of_cons. naive_solver.
Qed.

Lemma lor_lt a b n : (0 ≤ n → 0 ≤ a < 2 ^ n → 0 ≤ b < 2 ^ n → 0 ≤ Z.lor a b < 2 ^ n)%Z.
Proof.
  intros Hn Ha Hb. assert (Z.lor a b = Z.lor a b mod 2 ^ n)%Z as ->; [|apply Z.mod_pos_bound; lia].
  rewrite <- Z.land_ones, Z.land_lor_distr_l, !Z.land_ones, !Z.mod_small by lia. done.
Qed.

Lemma sig_bound l : (0 ≤ sig_of l < 2 ^ 64)%Z.
Proof.
  induction l as [|e l IH]; cbn [sig_of]; [done|]. apply lor_lt; [done| |done]. unfold getSignature.
  pose proof (Nat.mod_upper_bound e 64). split; [apply Z.pow_nonneg; lia|apply Z.pow_lt_mono_r; lia].
Qed.

Lemma sig_lor l k m : (∀ x, x ∈ m ↔ x ∈ l ∨ x ∈ k) → Z.lor (sig_of l) (sig_of k) = sig_of m.
Proof.
  intros E. apply Z.bits_inj'. intros i Hi. apply eq_bool_prop_intro. rewrite Z.lor_spec, !Is_true_true, orb_true_iff, !sig_testbit by done.
  setoid_rewrite E. naive_solver.
Qed.

Lemma sig_disjoint l k x : Z.land (sig_of l) (sig_of k) = 0%Z → x ∈ l → x ∈ k → False.
Proof.
  intros E Hl Hk. assert (0 ≤ Z.of_nat (x mod 64))%Z as Hi by lia.
  assert (Z.testbit (Z.land (sig_of l) (sig_of k)) (Z.of_nat (x mod 64)) = true) as Ht.
  { rewrite Z.land_spec, andb_true_iff, !sig_testbit by done. split; by exists x. }
  rewrite E, Z.bits_0 in Ht. done.
Qed.

(** The signature has at most as many units as there are elements. *)
Lemma sig_units l : (count_units64 (sig_of l) ≤ Z.of_nat (length l))%Z.
Proof.
  rewrite count_units64_spec by apply sig_bound. induction l as [|e l IH]; cbn [sig_of length].
  - by rewrite units_0.
  - etrans; [apply units_lor|]. pose proof (units_pow2 64 (Z.of_nat (e mod 64))) as Hu. unfold getSignature. lia.
Qed.

(** ** Merging *)

Lemma merge_elems_nil_r l : merge_elems l [] = l.
Proof. by destruct l. Qed.

Lemma merge_elems_nil_l l : merge_elems [] l = l.
Proof. by destruct l. Qed.

Lemma merge_elems_cons x l1 y l2 : merge_elems (x :: l1) (y :: l2) =
  if x =? y then x :: merge_elems l1 l2
  else if x <? y then x :: merge_elems l1 (y :: l2) else y :: merge_elems (x :: l1) l2.
Proof. done. Qed.

Lemma union_count_cons x l1 y l2 k : union_count (x :: l1) (y :: l2) k =
  if x =? y then union_count l1 l2 (to_u16 (k + 1))
  else if x <? y then union_count l1 (y :: l2) (to_u16 (k + 1)) else union_count (x :: l1) l2 (to_u16 (k + 1)).
Proof. done. Qed.

(** An induction for both loops. *)
Lemma merge_ind (P : list nat → list nat → Prop) :
  (∀ l, P [] l) → (∀ l, P l []) →
  (∀ x l1 y l2, P l1 l2 → P l1 (y :: l2) → P (x :: l1) l2 → P (x :: l1) (y :: l2)) → ∀ l1 l2, P l1 l2.
Proof.
  intros H1 H2 H3. induction l1 as [|x l1 IH1]; [done|]. induction l2 as [|y l2 IH2]; auto.
Qed.

Lemma elem_of_merge l1 l2 x : x ∈ merge_elems l1 l2 ↔ x ∈ l1 ∨ x ∈ l2.
Proof.
  revert l1 l2. apply merge_ind; [intros l; rewrite merge_elems_nil_l|intros l; rewrite merge_elems_nil_r|].
  1,2: rewrite elem_of_nil; tauto.
  - intros y l1 z l2 IH1 IH2 IH3. rewrite merge_elems_cons.
    destruct (Nat.eqb_spec y z); [subst|destruct (y <? z)];
      rewrite !elem_of_cons, ?IH1, ?IH2, ?IH3, ?elem_of_cons; tauto.
Qed.

Lemma merge_sorted l1 l2 : StronglySorted lt l1 → StronglySorted lt l2 → StronglySorted lt (merge_elems l1 l2).
Proof.
  revert l1 l2. apply (merge_ind (λ l1 l2, StronglySorted lt l1 → StronglySorted lt l2 → StronglySorted lt (merge_elems l1 l2)));
    [intros l; by rewrite merge_elems_nil_l|intros l; by rewrite merge_elems_nil_r|].
  intros x l1 y l2 IH1 IH2 IH3 Hx Hy. rewrite merge_elems_cons.
  assert (∀ z, z ∈ l1 → x < z) as Hx1 by (intros z; by apply sorted_cons_lt).
  assert (∀ z, z ∈ l2 → y < z) as Hy1 by (intros z; by apply sorted_cons_lt).
  destruct (Nat.eqb_spec x y) as [->|Hne]; [|destruct (Nat.ltb_spec x y)]; constructor; eauto;
    apply Forall_forall; intros z; rewrite elem_of_merge, ?elem_of_cons; intros Hz.
  - naive_solver.
  - destruct Hz as [?|[->|Hz]]; [auto|lia|specialize (Hy1 z Hz); lia].
  - destruct Hz as [[->|Hz]|?]; [lia|specialize (Hx1 z Hz); lia|auto].
Qed.

Lemma length_merge l1 l2 : length (merge_elems l1 l2) ≤ length l1 + length l2.
Proof.
  revert l1 l2. apply merge_ind; [intros l; by rewrite merge_elems_nil_l|intros l; rewrite merge_elems_nil_r; lia|].
  intros x l1 y l2 H1 H2 H3. rewrite merge_elems_cons.
  destruct (x =? y); [|destruct (x <? y)]; cbn [length] in *; lia.
Qed.

(** The counting loop counts the union, up to [2 ^ 16]. *)
Lemma union_count_spec l1 l2 k : k + length l1 + length l2 < Z.to_nat (2 ^ 16) →
  union_count l1 l2 k = k + length (merge_elems l1 l2).
Proof.
  revert k. revert l1 l2.
  assert (∀ i, i < Z.to_nat (2 ^ 16) → to_u16 i = i) as Hu by (intros i Hi; apply to_u16_small; lia).
  apply (merge_ind (λ l1 l2, ∀ k, k + length l1 + length l2 < Z.to_nat (2 ^ 16) →
    union_count l1 l2 k = k + length (merge_elems l1 l2))).
  - intros l k Hk. rewrite merge_elems_nil_l. destruct l; cbn [union_count length Nat.add] in *; rewrite Hu by lia; lia.
  - intros l k Hk. rewrite merge_elems_nil_r. destruct l as [|x l]; cbn [union_count length] in *; rewrite Hu by lia; lia.
  - intros x l1 y l2 H1 H2 H3 k Hk. rewrite merge_elems_cons, union_count_cons. cbn [length] in *.
    destruct (x =? y); [|destruct (x <? y)]; rewrite Hu by lia; cbn [length];
      [rewrite H1|rewrite H2|rewrite H3]; cbn [length]; lia.
Qed.

(** ** The operations *)

Lemma emptySet_spec max imm : 0 < max →
  ∃ s, emptySet max imm = Some s ∧ bs_wf s ∧ maxSize s = max ∧ isImmutable s = imm ∧ elts s = ∅.
Proof.
  intros Hm. unfold emptySet. rewrite bool_decide_true by done. eexists. split_all; [done| |done..].
  split; [done|constructor|cbn; lia|done].
Qed.

Lemma singleSet_spec max x imm : 0 < max →
  ∃ s, singleSet max x imm = Some s ∧ bs_wf s ∧ maxSize s = max ∧ isImmutable s = imm ∧ elts s = {[x]}.
Proof.
  intros Hm. unfold singleSet. rewrite bool_decide_true by done. eexists. split_all; [done| |done..|].
  - split; [done|repeat constructor|cbn; lia|]. cbn. by rewrite Z.lor_0_r.
  - unfold elts. cbn. set_solver.
Qed.

Lemma setSize_elts s : bs_wf s → setSize s = size (elts s).
Proof. intros Hs. unfold elts. by rewrite size_sorted by apply Hs. Qed.

(** The signatures are absorbed, so the early answers are right. *)
Lemma contains_spec s t : bs_wf s → bs_wf t → contains s t = true ↔ elts t ⊆ elts s.
Proof.
  intros Hs Ht. assert (elts t ⊆ elts s ↔ ∀ x, x ∈ elems t → x ∈ elems s) as ->.
  { unfold elts. set_solver. }
  assert (forallb (λ elem, negb (find s elem =? setSize s)) (elems t) = true ↔ ∀ x, x ∈ elems t → x ∈ elems s) as Hf.
  { rewrite forallb_forall. setoid_rewrite <- list_elem_of_In. setoid_rewrite negb_true_iff.
    setoid_rewrite Nat.eqb_neq. setoid_rewrite find_end; [|apply Hs].
    split; intros H x Hx; [|by auto]. destruct (decide (x ∈ elems s)); [done|]. exfalso. by apply (H x Hx). }
  unfold contains. destruct (Nat.ltb_spec (setSize s) (setSize t)) as [Hlt|Hge].
  { split; [done|]. intros Hsub. exfalso. rewrite !setSize_elts in Hlt by done.
    assert (elts t ⊆ elts s) as Hts by (unfold elts; set_solver). apply subseteq_size in Hts. lia. }
  destruct (Z.eqb_spec (signature s) (Z.lor (signature s) (signature t))) as [E|Hne]; cbn [negb]; [done|].
  split; [done|]. intros Hsub. exfalso. apply Hne. rewrite (bw_sig _ Hs), (bw_sig _ Ht). symmetry.
  apply sig_lor. naive_solver.
Qed.

Lemma sets_equal_spec s t : bs_wf s → bs_wf t → equal s t = true ↔ elts s = elts t.
Proof.
  intros Hs Ht. assert (elts s = elts t ↔ elems s = elems t) as ->.
  { unfold elts. split; [|by intros ->]. intros E. apply sorted_unique; [apply Hs|apply Ht|]. set_solver. }
  assert (∀ l k, length l = length k → forallb (λ '(x, y), x =? y) (combine l k) = true ↔ l = k) as Hf.
  { induction l as [|x l IH]; intros [|y k] Hl; try done. injection Hl as Hl. cbn [combine forallb].
    rewrite andb_true_iff, Nat.eqb_eq, IH by done. naive_solver. }
  unfold equal, setSize. destruct (Nat.eqb_spec (length (elems s)) (length (elems t))) as [El|Hl]; cbn [negb];
    [|split; [done|]; intros E; by rewrite E in Hl].
  destruct (Z.eqb_spec (signature s) (signature t)) as [|Hne]; cbn [negb]; [by apply Hf|].
  split; [done|]. intros E. exfalso. apply Hne. by rewrite (bw_sig _ Hs), (bw_sig _ Ht), E.
Qed.

Lemma elts_union s t l : (∀ x, x ∈ l ↔ x ∈ elems s ∨ x ∈ elems t) → list_to_set l = elts s ∪ elts t.
Proof. intros E. unfold elts. apply set_eq. intros x. rewrite elem_of_union, !elem_of_list_to_set. apply E. Qed.

(** The union check decides whether the union fits: neither the signatures nor the
    number of their units refuses a union that does. *)
Lemma unionCheck_spec s t : bs_wf s → bs_wf t → setSize s + setSize t < Z.to_nat (2 ^ 16) →
  unionCheck s t = bool_decide (size (elts s ∪ elts t) ≤ maxSize s).
Proof.
  intros Hs Ht Hb. pose proof (merge_sorted _ _ (bw_sorted _ Hs) (bw_sorted _ Ht)) as Hm.
  rewrite <- (elts_union s t (merge_elems (elems s) (elems t))) by apply elem_of_merge.
  rewrite size_sorted by done. unfold unionCheck.
  destruct (Nat.leb_spec (setSize s + setSize t) (maxSize s)) as [Hle|Hgt].
  { rewrite bool_decide_true; [done|]. pose proof (length_merge (elems s) (elems t)). unfold setSize in *. lia. }
  rewrite (bw_sig _ Hs), (bw_sig _ Ht).
  destruct (Z.eqb_spec (Z.land (sig_of (elems s)) (sig_of (elems t))) 0) as [E|_].
  { rewrite bool_decide_false; [done|]. rewrite <- size_sorted by done.
    rewrite (elts_union s t) by apply elem_of_merge. rewrite size_union, <- !setSize_elts by (done || intros x;
      rewrite !elem_of_elts; by apply sig_disjoint). lia. }
  destruct (Z.ltb_spec (Z.of_nat (maxSize s)) (count_units64 (Z.lor (sig_of (elems s)) (sig_of (elems t))))) as [Hlt|_].
  { rewrite bool_decide_false; [done|].
    rewrite (sig_lor _ _ (merge_elems (elems s) (elems t))) in Hlt by apply elem_of_merge.
    pose proof (sig_units (merge_elems (elems s) (elems t))). lia. }
  rewrite union_count_spec by (unfold setSize in Hb; lia). cbn [Nat.add].
  destruct (Nat.leb_spec (length (merge_elems (elems s) (elems t))) (maxSize s));
    [by rewrite bool_decide_true|rewrite bool_decide_false by lia; done].
Qed.

(** What [merge] does to the set. *)
Record merged (s t : BoundedSet) (b : bool) (s' : BoundedSet) : Prop := {
  mg_ok : b = bool_decide (size (elts s ∪ elts t) ≤ maxSize s);
  mg_wf : bs_wf s';
  mg_max : maxSize s' = maxSize s;
  mg_imm : isImmutable s' = isImmutable s;
  mg_elts : elts s' = if b then elts s ∪ elts t else elts s;
}.

Lemma merge_spec s t : bs_wf s → bs_wf t → isImmutable s = false → setSize s + setSize t < Z.to_nat (2 ^ 16) →
  ∃ b s', merge t s = Some (b, s') ∧ merged s t b s'.
Proof.
  intros Hs Ht Hi Hb. pose proof (unionCheck_spec s t Hs Ht Hb) as Hu. unfold merge.
  rewrite (bind_eval st_get _ _ s s) by done. rewrite Hi.
  rewrite (bind_eval (st_assert _) _ s () s) by done. rewrite Hu.
  case_bool_decide as Hsz.
  - do 2 eexists. split; [done|]. pose proof (merge_sorted _ _ (bw_sorted _ Hs) (bw_sorted _ Ht)) as Hm.
    assert (list_to_set (merge_elems (elems s) (elems t)) = elts s ∪ elts t) as E by apply elts_union, elem_of_merge.
    split; [by rewrite bool_decide_true| |done|done|done].
    split; [apply Hs|done| |].
    + unfold setSize. cbn [elems maxSize]. by rewrite <- size_sorted, E.
    + cbn [signature elems]. rewrite (bw_sig _ Hs), (bw_sig _ Ht). apply sig_lor, elem_of_merge.
  - exists false, s. split; [done|]. split; [by rewrite bool_decide_false|done..].
Qed.

Lemma insert_place_eq l x : insert_place l x = lower_bound l x.
Proof. induction l as [|y l IH]; cbn; [done|]. by rewrite IH. Qed.

(** What an insertion does to the set. *)
Record inserted (s : BoundedSet) (x : nat) (b : bool) (s' : BoundedSet) : Prop := {
  in_ok : b = bool_decide (x ∉ elts s ∧ size (elts s) < maxSize s);
  in_wf : bs_wf s';
  in_max : maxSize s' = maxSize s;
  in_imm : isImmutable s' = isImmutable s;
  in_elts : elts s' = if b then elts s ∪ {[x]} else elts s;
}.

Lemma sorted_insert l x : StronglySorted lt l → x ∉ l →
  StronglySorted lt (take (lower_bound l x) l ++ x :: drop (lower_bound l x) l).
Proof.
  intros Hl Hx. destruct (lower_bound_spec l x Hl) as (_ & H1 & H2).
  pose proof Hl as Hl'. rewrite <- (take_drop (lower_bound l x) l) in Hl'.
  apply StronglySorted_app in Hl' as (H12 & Hs1 & Hs2). apply StronglySorted_app. split_all; [|done|].
  - intros y z Hy [->|Hz]%elem_of_cons; [by apply H1|by apply H12].
  - constructor; [done|]. apply Forall_forall. intros y Hy. specialize (H2 y Hy).
    assert (x ≠ y) as Hne; [|lia]. intros ->. apply Hx. rewrite <- (take_drop (lower_bound l y) l).
    apply elem_of_app. by right.
Qed.

Lemma elem_of_insert_at {A} (l : list A) i x y : y ∈ take i l ++ x :: drop i l ↔ y = x ∨ y ∈ l.
Proof.
  rewrite <- (take_drop i l) at 3. rewrite !elem_of_app, elem_of_cons. tauto.
Qed.

Lemma insertRaw_spec s x c : bs_wf s → (c = true → x ∉ elts s) →
  ∃ b s', insertRaw x c s = Some (b, s') ∧ inserted s x b s'.
Proof.
  intros Hs Hc. unfold insertRaw. rewrite (bind_eval st_get _ _ s s) by done.
  assert (((setSize s + 1 <=? maxSize s) && (c || (find s x =? setSize s))) =
    bool_decide (x ∉ elts s ∧ size (elts s) < maxSize s)) as ->.
  { rewrite <- (setSize_elts s Hs). apply eq_bool_prop_intro. rewrite !Is_true_true, bool_decide_eq_true, andb_true_iff, orb_true_iff,
      Nat.leb_le, Nat.eqb_eq, (find_end s x (bw_sorted _ Hs)), elem_of_elts in *. split; [|intuition lia].
    intros [? [?|?]]; (split; [|lia]); [by apply Hc|done]. }
  case_bool_decide as Hx.
  - do 2 eexists. split; [done|]. rewrite insert_place_eq. destruct Hx as [Hx Hsz]. rewrite elem_of_elts in Hx.
    pose proof (sorted_insert _ _ (bw_sorted _ Hs) Hx) as Hso.
    split; [rewrite bool_decide_true; [done|by rewrite elem_of_elts]| |done|done|].
    + split; [apply Hs|done| |].
      * rewrite <- (setSize_elts s Hs) in Hsz. unfold setSize in *. cbn [elems maxSize].
        rewrite length_app. cbn [length]. rewrite length_take, length_drop. lia.
      * cbn [signature elems]. rewrite (bw_sig _ Hs). rewrite <- (Z.lor_0_r (getSignature x)).
        apply (sig_lor _ [x]). intros y. rewrite elem_of_insert_at, list_elem_of_singleton. tauto.
    + unfold elts. cbn [elems]. apply set_eq. intros y.
      rewrite elem_of_union, elem_of_singleton, !elem_of_list_to_set, elem_of_insert_at. tauto.
  - exists false, s. split; [done|]. split; [by rewrite bool_decide_false|done..].
Qed.

(** A set made of other elements holds them, in whatever order they come. *)
Lemma setOf_spec max l imm : 0 < max → length l ≤ max → NoDup l →
  ∃ s, setOf max l imm = Some s ∧ bs_wf s ∧ maxSize s = max ∧ isImmutable s = imm ∧ elts s = list_to_set l.
Proof.
  intros Hm Hl Hnd. unfold setOf. rewrite bool_decide_true by done.
  assert (∀ l s, bs_wf s → NoDup l → (∀ x, x ∈ l → x ∉ elts s) → setSize s + length l ≤ maxSize s →
    ∃ s', st_for l (λ e, insertRaw e true;; mret ()) s = Some ((), s') ∧ bs_wf s' ∧ maxSize s' = maxSize s ∧
      isImmutable s' = isImmutable s ∧ elts s' = elts s ∪ list_to_set l) as Hloop.
  { clear. induction l as [|x l IH]; intros s Hs Hnd Hd Hsz.
    - exists s. split_all; [done..|]. cbn. set_solver.
    - apply NoDup_cons in Hnd as [Hx Hnd]. cbn [st_for length] in *.
      destruct (insertRaw_spec s x true Hs) as (b & s1 & E & [Hb H1 H2 H3 H4]); [intros _; apply Hd; by left|].
      rewrite bool_decide_true in Hb by (split; [apply Hd; by left|rewrite <- setSize_elts by done; lia]). subst b.
      rewrite (bind_eval _ _ s () s1) by by rewrite (bind_eval _ _ s true s1).
      destruct (IH s1 H1 Hnd) as (s' & E' & G1 & G2 & G3 & G4).
      + intros y Hy. rewrite H4, elem_of_union, elem_of_singleton. intros [Hy'| ->]; [|done].
        by apply (Hd y); [right|].
      + rewrite setSize_elts, H2, H4, size_union, size_singleton, <- setSize_elts by (done ||
          (intros y Hy ->%elem_of_singleton; apply (Hd x); [by left|done])). lia.
      + exists s'. split_all; [done..|congruence|congruence|]. rewrite G4, H4. cbn. set_solver. }
  destruct (Hloop l (mkBoundedSet max imm [] 0)) as (s & E & H1 & H2 & H3 & H4); [|done|set_solver|done|].
  - split; [done|constructor|cbn; lia|done].
  - exists s. rewrite E. split_all; [done..|]. rewrite H4. unfold elts. cbn. set_solver.
Qed.

(** ** The theorem *)

(** C21 Bounded sets refine finite sets with a bound: inclusion and equality are those of the sets,
    [merge] replaces a set by the union exactly if this has at most [maxSize] elements and leaves it as it is
    otherwise, [insert] adds an element that is new exactly if there is a place, and a set made of other
    elements holds them.  The signatures only save work, and every operation keeps the array increasing. *)
Theorem bounded_sets_refined s t : bs_wf s → bs_wf t →
  (contains s t = true ↔ elts t ⊆ elts s) ∧ (equal s t = true ↔ elts s = elts t) ∧
  (isImmutable s = false → setSize s + setSize t < Z.to_nat (2 ^ 16) →
    ∃ b s', merge t s = Some (b, s') ∧ merged s t b s') ∧
  (∀ x c, isImmutable s = false → (c = true → x ∉ elts s) → ∃ b s', insert x c s = Some (b, s') ∧ inserted s x b s') ∧
  (∀ max l imm, 0 < max → length l ≤ max → NoDup l →
    ∃ s', setOf max l imm = Some s' ∧ bs_wf s' ∧ elts s' = list_to_set l).
Proof.
  intros Hs Ht. split_all.
  - by apply contains_spec.
  - by apply sets_equal_spec.
  - by apply merge_spec.
  - intros x c Hi Hx. unfold insert. rewrite (bind_eval st_get _ s s s) by done. rewrite Hi.
    rewrite (bind_eval (st_assert _) _ s () s) by done. by apply insertRaw_spec.
  - intros max l imm Hm Hl Hnd. destruct (setOf_spec max l imm Hm Hl Hnd) as (s' & E & H & _ & _ & He). by exists s'.
Qed.

Definition set_of_35 : BoundedSet := mkBoundedSet 3 false [3; 5] (Z.lor (2 ^ 3) (2 ^ 5)).
Definition set_of_57 : BoundedSet := mkBoundedSet 3 false [5; 7] (Z.lor (2 ^ 5) (2 ^ 7)).

Lemma set_of_35_wf : bs_wf set_of_35.
Proof. split; [cbn; lia|repeat constructor|cbn; lia|reflexivity]. Qed.

Lemma set_of_57_wf : bs_wf set_of_57.
Proof. split; [cbn; lia|repeat constructor|cbn; lia|reflexivity]. Qed.

Lemma bounded_sets_refined_witness :
  (∃ b s', merge set_of_57 set_of_35 = Some (b, s') ∧ merged set_of_35 set_of_57 b s') ∧
  (contains set_of_35 set_of_57 = true ↔ elts set_of_57 ⊆ elts set_of_35).
Proof.
  destruct (bounded_sets_refined _ _ set_of_35_wf set_of_57_wf) as (H1 & _ & H3 & _).
  split; [apply H3; [reflexivity|cbn; lia]|exact H1].
Defined.
