(* ===== verification/Cuts.v ===== *)
(** * Cuts ([gate/optimizer/cut.h], [cut_extractor.h], [cut_extractor.cpp])

    A cut of a cell is a set of at most [k] cells through which every path from
    the sources to the cell leads.  The extractor goes over the cells of a subnet
    or a builder and makes the cuts of a cell from the unions of one cut per link,
    which it numbers in a mixed radix of 64 bits; dominated cuts are marked and
    dropped. *)

From S2P Require Import Prelude CellType SubnetBase Builder Bits BoundedSet.

(** ** Cuts *)

(* gate/optimizer/cut.h:24-72 [Cut] *)
Record Cut := mkCut { rootID : nat; leafIDs : BoundedSet }.

(* gate/optimizer/cut.h:36-37 [Cut::Cut(uint16_t, EntryID, bool)] *)
Definition trivialCut (k root : nat) (imm : bool) : option Cut :=
  mkCut root <$> singleSet k root imm.

(* gate/optimizer/cut.h:30-34 [Cut::Cut(uint16_t, EntryID, const std::unordered_set &, bool)] *)
Definition cutOf (k root : nat) (leaves : list nat) (imm : bool) : option Cut :=
  mkCut root <$> setOf k leaves imm.

(* gate/optimizer/cut.h:40-42 [Cut::operator==] *)
Definition cut_equal (c other : Cut) : bool :=
  (rootID c =? rootID other) && equal (leafIDs c) (leafIDs other).

(* gate/optimizer/cut.h:45-47 [Cut::size] *)
Definition cut_size (c : Cut) : nat := setSize (leafIDs c).

(* gate/optimizer/cut.h:50-52 [Cut::getK] *)
Definition getK (c : Cut) : nat := capacity (leafIDs c).

(* gate/optimizer/cut.h:55-57 [Cut::isTrivial] *)
Definition cut_isTrivial (c : Cut) : bool :=
  (cut_size c =? 1) && negb (BoundedSet.find (leafIDs c) (rootID c) =? setSize (leafIDs c)).

(* gate/optimizer/cut.h:60-62 [Cut::merge] *)
Definition cut_merge (other : Cut) : st Cut bool := λ c,
  '(b, s) ← merge (leafIDs other) (leafIDs c); Some (b, mkCut (rootID c) s).

(* gate/optimizer/cut.h:65-68 [Cut::dominates] *)
Definition dominates (c other : Cut) : bool :=
  (cut_size c <? cut_size other) && contains (leafIDs other) (leafIDs c).

Abbreviation CutsList := (list Cut).

(** The candidates for a cell with their flags: [false] marks a dominated cut. *)
Abbreviation RawCutsList := (list (Cut * bool)).

(** ** The extractor *)

(** What the cuts are extracted from. *)
(* gate/optimizer/cut_extractor.h:107-108 [CutExtractor::subnet, CutExtractor::builder] *)
Inductive source := FromSubnet (s : Subnet) | FromBuilder (b : SubnetBuilder).

(* gate/optimizer/cut_extractor.h:106-111 [CutExtractor] *)
Record CutExtractor := mkExtractor {
  src : source;
  entriesCuts : list CutsList;
  k_max : nat;
}.

Definition with_cuts (l : list CutsList) (e : CutExtractor) : CutExtractor :=
  mkExtractor (src e) l (k_max e).

(** The links of a cell without a buffer for them.  A subnet returns the array
    of the cell, which goes on in the entries that follow. *)
(* gate/model/subnet.cpp:52-58 [Subnet::getLinks(EntryID, Link *, uint16_t &)] *)
Definition subnet_links (s : Subnet) (i : nat) : option LinkList := Net.getLinks s i.

(** A builder has to copy more than three links, here to a null pointer. *)
(* gate/model/subnet.cpp:230-260 [SubnetBuilder::getLinks(EntryID, Link *, uint16_t &)] *)
Definition builder_links (b : SubnetBuilder) (i : nat) : option LinkList :=
  c ← getCell b i;
  if bool_decide (arity c ≤ InPlaceLinks) then Some (getInPlaceLinks c) else None.

(* gate/optimizer/cut_extractor.h:77-81 [CutExtractor::getLinks] *)
Definition ex_links (e : CutExtractor) (i : nat) : option LinkList :=
  match src e with FromSubnet s => subnet_links s i | FromBuilder b => builder_links b i end.

(* gate/optimizer/cut_extractor.h:57-59 [CutExtractor::getCutNum] *)
Definition getCutNum (e : CutExtractor) (i : nat) : option nat := length <$> entriesCuts e !! i.

(* gate/optimizer/cut_extractor.h:62-64 [CutExtractor::getCuts] *)
Definition getCuts (e : CutExtractor) (i : nat) : option CutsList := entriesCuts e !! i.

(* gate/optimizer/cut_extractor.cpp:44-51 [CutExtractor::setCuts] *)
Definition setCuts (i : nat) (cuts : CutsList) : st CutExtractor unit :=
  st_update (λ e, if bool_decide (i < length (entriesCuts e))
    then Some (with_cuts (<[i := cuts]> (entriesCuts e)) e) else None).

(* gate/optimizer/cut_extractor.cpp:53-60 [CutExtractor::getCutsEntries] *)
Definition getCutsEntries (e : CutExtractor) (i : nat) : option (list BoundedSet) :=
  cs ← getCuts e i; Some (map leafIDs cs).

(** *** Dominance *)

(** Whether no cut of the list dominates [cut].  The cuts that [cut] dominates are
    marked on the way, up to the first one that dominates it. *)
(* gate/optimizer/cut_extractor.cpp:137-150 [CutExtractor::cutNotDominated] *)
Fixpoint cutNotDominated (cut : Cut) (cuts : RawCutsList) : bool * RawCutsList :=
  match cuts with
  | [] => (true, [])
  | (c, v) :: cuts =>
    if dominates c cut then (false, (c, v) :: cuts)
    else
      let v := if v then negb (dominates cut c) else false in
      let r := cutNotDominated cut cuts in
      (r.1, (c, v) :: r.2)
  end.

(** The cuts whose flag is set, in order. *)
(* gate/optimizer/cut_extractor.cpp:130-134 [CutExtractor::addViableCuts] *)
Definition viable (cuts : RawCutsList) : CutsList := fst <$> List.filter snd cuts.

(* gate/optimizer/cut_extractor.cpp:125-135 [CutExtractor::addViableCuts] *)
Definition addViableCuts (cuts : RawCutsList) (i : nat) : st CutExtractor unit := setCuts i (viable cuts).

(** *** Combinations of cuts *)

(** The products of the numbers of cuts from each link to the last, in 64 bits. *)
(* gate/optimizer/cut_extractor.cpp:82-87 [CutExtractor::findCuts] *)
Fixpoint suffixes (sizes : list N) : list N :=
  match sizes with
  | [] => []
  | n :: sizes => let r := suffixes sizes in (default 1 (head r) * n) mod 2 ^ 64 :: r
  end%N.

(** The number of the cut of a link, and the number of the cuts of the links after it. *)
(* gate/optimizer/cut_extractor.cpp:109-114 [CutExtractor::addCut] *)
Definition split_number (suff : list N) (c : N) : option (N * N) :=
  match head suff with
  | None => Some (c, c)
  | Some n => if (n =? 0)%N then None else Some (c / n, c mod n)%N
  end.

(** The cuts with the number [c] are merged link by link, until one does not fit;
    [suff] holds the products from the links on. *)
(* gate/optimizer/cut_extractor.cpp:108-119 [CutExtractor::addCut] *)
Fixpoint mergeCuts (cuts : list CutsList) (ls : LinkList) (suff : list N) (c : N) : st Cut bool :=
  match ls with
  | [] => mret true
  | l :: ls =>
    let suff := tail suff in
    '(index, c) ← st_read (λ _, split_number suff c);
    cut ← st_read (λ _, cuts !! idx l ≫= λ cs, cs !! N.to_nat index);
    ok ← cut_merge cut;
    if (ok : bool) then mergeCuts cuts ls suff c else mret false
  end.

(* gate/optimizer/cut_extractor.cpp:99-123 [CutExtractor::addCut] *)
Definition addCut (k : nat) (cuts : list CutsList) (i : nat) (ls : LinkList) (suff : list N) (c : N)
    : st RawCutsList unit :=
  s ← st_read (λ _, emptySet k false);
  '(ok, newCut) ← st_read (λ _, mergeCuts cuts ls suff c (mkCut i s));
  if (ok : bool) then
    b ← (λ added, Some (cutNotDominated newCut added));
    if (b : bool) then st_modify (λ added, added ++ [(newCut, true)]) else mret ()
  else mret ().

(* gate/optimizer/cut_extractor.cpp:70-97 [CutExtractor::findCuts] *)
Definition findCuts (i : nat) : st CutExtractor unit :=
  e ← st_get;
  ls ← st_read (λ _, ex_links e i);
  trivial ← st_read (λ _, trivialCut (k_max e) i true);
  if length ls =? 0 then addViableCuts [(trivial, true)] i
  else
    sizes ← st_read (λ _, mapM (λ l, N.of_nat ∘ length <$> entriesCuts e !! idx l) ls);
    let suff := suffixes sizes in
    '(_, cuts) ← st_read (λ _,
      st_for (N.of_nat <$> seq 0 (N.to_nat (default 1%N (head suff))))
        (addCut (k_max e) (entriesCuts e) i ls suff) [(trivial, true)]);
    addViableCuts cuts i.

(* gate/optimizer/cut_extractor.cpp:62-68 [CutExtractor::recomputeCuts] *)
Definition recomputeCuts (i : nat) : st CutExtractor unit :=
  st_modify (λ e, with_cuts (entriesCuts e ++ replicate (S i - length (entriesCuts e)) []) e);;
  setCuts i [];;
  findCuts i.

(** *** Construction *)

(** The loop over the cells of a subnet: [n] entries are left. *)
(* gate/optimizer/cut_extractor.cpp:21-24 [CutExtractor::CutExtractor(const Subnet *, uint16_t)] *)
Fixpoint extract_loop (s : Subnet) (n i : nat) : st CutExtractor unit :=
  if Net.size s <=? i then mret ()
  else
    match n with
    | 0 => st_fail
    | S n =>
      findCuts i;;
      c ← st_read (λ _, Net.getCell s i);
      extract_loop s n (S (i + more c))
    end.

(* gate/optimizer/cut_extractor.cpp:13-25 [CutExtractor::CutExtractor(const Subnet *, uint16_t)] *)
Definition extractor (s : Subnet) (k : nat) : option CutExtractor :=
  snd <$> extract_loop s (Net.size s) 0 (mkExtractor (FromSubnet s) (replicate (Net.size s) []) k).

(** The loop over the cells of a builder in its order. *)
(* gate/optimizer/cut_extractor.cpp:38-40 [CutExtractor::CutExtractor(const SubnetBuilder *, uint16_t, bool)] *)
Fixpoint extract_order (b : SubnetBuilder) (n : nat) (i : EntryID) : st CutExtractor unit :=
  if decide (i = upperBoundID) then mret ()
  else
    match n, i with
    | S n, Idx x =>
      findCuts x;;
      c ← st_read (λ _, getCell b x);
      i ← st_read (λ _, nextCell b (S (more c)) i);
      extract_order b n i
    | _, _ => st_fail
    end.

(* gate/optimizer/cut_extractor.cpp:27-42 [CutExtractor::CutExtractor(const SubnetBuilder *, uint16_t, bool)] *)
Definition builder_extractor (b : SubnetBuilder) (k : nat) (extractNow : bool) : option CutExtractor :=
  if extractNow then
    snd <$> extract_order b (S (length (entries b))) (getSubnetBegin b)
      (mkExtractor (FromBuilder b) (replicate (length (entries b)) []) k)
  else Some (mkExtractor (FromBuilder b) [] k).
