(* ===== verification/CutsSpec.v ===== *)
(** * Cuts as finite sets

    [cell_cuts] defines the cuts of a cell by the cuts of its links, without numbers,
    flags and signatures: the trivial cut and the unions of one cut per link with at
    most [k] leaves, in the order of the combinations, less those that strictly contain
    another.  The lemmas show that [findCuts] computes it. *)

From S2P Require Import Prelude CellType SubnetBase Builder Bits.
From stdpp Require Import gmap sorting.
From S2P Require Import BoundedSet BoundedSetSpec Cuts.

(** ** Definitions *)

(** One element per list, the last list varies fastest. *)
Fixpoint cart {A} (ls : list (list A)) : list (list A) :=
  match ls with
  | [] => [[]]
  | l :: ls => concat ((λ x, cons x <$> cart ls) <$> l)
  end.

(** The sets of a list that contain no other strictly. *)
Definition minimal (l : list (gset nat)) : list (gset nat) :=
  filter (λ X, ¬ Exists (λ Y, Y ⊂ X) l) l.

Definition candidates (k : nat) (ins : list (list (gset nat))) : list (gset nat) :=
  filter (λ X, size X ≤ k) (union_list <$> cart ins).

Definition cell_cuts (k i : nat) (ins : list (list (gset nat))) : list (gset nat) :=
  if bool_decide (ins = []) then [ {[i]} ] else minimal ({[i]} :: candidates k ins).

(** The set of a cut, and the cuts of the cell [i]. *)
Definition leaves (c : Cut) : gset nat := elts (leafIDs c).

Record cut_wf (k i : nat) (c : Cut) : Prop := {
  cw_root : rootID c = i;
  cw_wf : bs_wf (leafIDs c);
  cw_max : maxSize (leafIDs c) = k;
}.

(** ** Dominance *)

Lemma subset_size (X Y : gset nat) : X ⊂ Y ↔ X ⊆ Y ∧ size X < size Y.
Proof.
  split; [intros H; split; [set_solver|by apply subset_size]|].
  intros [H1 H2]. split; [done|]. intros H3%subseteq_size. lia.
Qed.

Lemma cut_size_leaves k i c : cut_wf k i c → cut_size c = size (leaves c).
Proof. intros Hc. apply setSize_elts, Hc. Qed.

Lemma leaves_bound k i c : cut_wf k i c → size (leaves c) ≤ k.
Proof. intros Hc. rewrite <- (cut_size_leaves k i c Hc), <- (cw_max _ _ _ Hc). apply Hc. Qed.

Lemma dominates_spec k i c d : cut_wf k i c → cut_wf k i d → dominates c d = true ↔ leaves c ⊂ leaves d.
Proof.
  intros Hc Hd. unfold dominates. rewrite andb_true_iff, Nat.ltb_lt, (contains_spec _ _ (cw_wf _ _ _ Hd) (cw_wf _ _ _ Hc)).
  rewrite (cut_size_leaves k i c Hc), (cut_size_leaves k i d Hd), subset_size. tauto.
Qed.

(** ** Minimal sets *)

Lemma Exists_snoc {A} (P : A → Prop) l x : Exists P (l ++ [x]) ↔ Exists P l ∨ P x.
Proof. by rewrite Exists_app, Exists_cons, Exists_nil; tauto. Qed.

Lemma minimal_snoc S X : minimal (S ++ [X]) =
  filter (λ Z, ¬ X ⊂ Z) (minimal S) ++ (if bool_decide (Exists (λ Y, Y ⊂ X) S) then [] else [X]).
Proof.
  unfold minimal. rewrite filter_app, list_filter_filter. f_equal.
  - apply list_filter_ext_in. intros Z _. pose proof (Exists_snoc (λ Y, Y ⊂ Z) S X). tauto.
  - rewrite filter_cons, filter_nil. pose proof (Exists_snoc (λ Y, Y ⊂ X) S X) as He.
    assert (¬ X ⊂ X) by set_solver. case_bool_decide; case_decide; tauto.
Qed.

Lemma filter_same {A} (P : A → Prop) `{!∀ x, Decision (P x)} (l : list A) : (∀ x, x ∈ l → P x) → filter P l = l.
Proof.
  induction l as [|x l IH]; intros Hl; [done|].
  rewrite filter_cons_True by (apply Hl; by left). f_equal. apply IH. intros y Hy. apply Hl. by right.
Qed.

(** Every set contains a minimal one. *)
Lemma minimal_below S X : X ∈ S → ∃ Y, Y ∈ minimal S ∧ Y ⊆ X.
Proof.
  assert (∀ n X, size X < n → X ∈ S → ∃ Y, Y ∈ minimal S ∧ Y ⊆ X) as Hn; [|eauto].
  induction n as [|n IH]; intros Z HZ HS; [lia|].
  destruct (decide (Exists (λ Y, Y ⊂ Z) S)) as [HE|HE].
  - apply Exists_exists in HE as (Y & HY & Hsub). pose proof (proj1 (subset_size _ _) Hsub) as [? ?].
    destruct (IH Y) as (W & HW & Hs); [lia|done|]. exists W. split; [done|]. set_solver.
  - exists Z. split; [|done]. apply list_elem_of_filter. done.
Qed.

Lemma minimal_subset S X : X ∈ minimal S → X ∈ S.
Proof. unfold minimal. rewrite list_elem_of_filter. tauto. Qed.

(** ** The list of candidates *)

(** What the list of candidates is to the sets [S] that have been tried. *)
Record tracks (k i : nat) (added : RawCutsList) (S : list (gset nat)) : Prop := {
  tk_wf : Forall (cut_wf k i) added.*1;
  tk_viable : leaves <$> viable added = minimal S;
  tk_in : ∀ c, c ∈ added.*1 → leaves c ∈ S;
  tk_below : ∀ X, X ∈ S → ∃ c, c ∈ added.*1 ∧ leaves c ⊆ X;
}.

Section dominance.

Context (k i : nat).

Lemma scan_cuts cut added : (cutNotDominated cut added).2.*1 = added.*1.
Proof.
  induction added as [|[c v] added IH]; [done|]. cbn [cutNotDominated].
  destruct (dominates c cut); [done|]. cbn. by rewrite IH.
Qed.

Lemma scan_result cut added : cut_wf k i cut → Forall (cut_wf k i) added.*1 →
  (cutNotDominated cut added).1 = negb (bool_decide (Exists (λ c, leaves c ⊂ leaves cut) added.*1)).
Proof.
  intros Hcut. induction added as [|[c v] added IH]; [done|]. intros Hwf. cbn [fmap list_fmap] in *.
  apply list.Forall_cons in Hwf as [Hc Hwf]. cbn [cutNotDominated].
  pose proof (dominates_spec k i c cut Hc Hcut) as Hd. destruct (dominates c cut).
  - rewrite bool_decide_true; [done|]. left. by apply Hd.
  - cbn. rewrite IH by done. f_equal. apply bool_decide_ext. rewrite Exists_cons.
    assert (¬ leaves c ⊂ leaves cut) by (rewrite <- Hd; done). cbn. tauto.
Qed.

(** The marks: the viable cuts that the new one does not dominate stay, up to a dominator. *)
Lemma scan_viable cut added : cut_wf k i cut → Forall (cut_wf k i) added.*1 →
  (cutNotDominated cut added).1 = true ∨ (∀ c, c ∈ viable added → ¬ leaves cut ⊂ leaves c) →
  viable (cutNotDominated cut added).2 = filter (λ c, ¬ leaves cut ⊂ leaves c) (viable added).
Proof.
  intros Hcut. induction added as [|[c v] added IH]; [done|]. intros Hwf Hor. cbn [fmap list_fmap] in *.
  apply list.Forall_cons in Hwf as [Hc Hwf]. cbn [cutNotDominated] in *.
  destruct (dominates c cut).
  { destruct Hor as [Hor|Hor]; [done|]. cbn [snd]. symmetry. by apply filter_same. }
  cbn [fst snd] in *. pose proof (dominates_spec k i cut c Hcut Hc) as Hd. unfold viable in *. destruct v.
  - cbn [List.filter snd]. cbn [fmap list_fmap]. rewrite filter_cons. cbn [fst].
    rewrite <- IH; [|done|destruct Hor as [Hor|Hor]; [by left|right; intros d Hin; apply Hor; by right]].
    destruct (dominates cut c); cbn [negb].
    + rewrite decide_False; [done|]. intros Hn. by apply Hn, Hd.
    + rewrite decide_True; [done|]. by rewrite <- Hd.
  - cbn [List.filter snd]. apply IH; [done|]. destruct Hor as [Hor|Hor]; [by left|by right].
Qed.

Lemma viable_app a b : viable (a ++ b) = viable a ++ viable b.
Proof. unfold viable. by rewrite List.filter_app, fmap_app. Qed.

Lemma viable_in c added : c ∈ viable added → c ∈ added.*1.
Proof.
  unfold viable. rewrite !list_elem_of_fmap. intros (x & -> & Hx). exists x. split; [done|].
  rewrite list_elem_of_In in *. by apply List.filter_In in Hx as [Hx _].
Qed.

Lemma fmap_filter_leaves X (l : list Cut) :
  leaves <$> filter (λ c, ¬ X ⊂ leaves c) l = filter (λ Z, ¬ X ⊂ Z) (leaves <$> l).
Proof.
  induction l as [|c l IH]; [done|]. cbn [fmap list_fmap]. rewrite !filter_cons.
  case_decide; cbn [fmap list_fmap]; [f_equal|]; apply IH.
Qed.

(** One more candidate. *)
Lemma tracks_snoc cut added S : cut_wf k i cut → tracks k i added S →
  let r := cutNotDominated cut added in
  tracks k i (if r.1 then r.2 ++ [(cut, true)] else r.2) (S ++ [leaves cut]).
Proof.
  intros Hcut [Hwf Hv Hin Hb] r. pose proof (scan_cuts cut added) as Hsc. fold r in Hsc.
  pose proof (scan_result cut added Hcut Hwf) as Hr. fold r in Hr.
  assert (Exists (λ c, leaves c ⊂ leaves cut) added.*1 ↔ Exists (λ Y, Y ⊂ leaves cut) S) as HE.
  { rewrite !Exists_exists. split.
    - intros (c & Hc & Hs). exists (leaves c). split; [by apply Hin|done].
    - intros (Y & HY & Hs). destruct (Hb Y HY) as (c & Hc & Hs'). exists c. split; [done|set_solver]. }
  rewrite (bool_decide_ext _ _ HE) in Hr.
  assert (viable r.2 = filter (λ c, ¬ leaves cut ⊂ leaves c) (viable added)) as Hm.
  { apply scan_viable; [done..|]. fold r. destruct r.1; [by left|right]. intros c Hc Hs.
    symmetry in Hr. apply negb_false_iff, bool_decide_eq_true, Exists_exists in Hr as (Y & HY & HYs).
    assert (leaves c ∈ minimal S) as Hmin by (rewrite <- Hv; by apply list_elem_of_fmap_2).
    unfold minimal in Hmin. apply list_elem_of_filter in Hmin as [Hmin _]. apply Hmin, Exists_exists.
    exists Y. split; [done|set_solver]. }
  assert (leaves <$> viable r.2 = filter (λ Z, ¬ leaves cut ⊂ Z) (minimal S)) as Hm'.
  { by rewrite Hm, fmap_filter_leaves, Hv. }
  destruct (bool_decide (Exists (λ Y, Y ⊂ leaves cut) S)) eqn:Eb; rewrite Hr; cbn [negb]; split.
  - by rewrite Hsc.
  - by rewrite minimal_snoc, Eb, app_nil_r.
  - rewrite Hsc. intros c Hc. apply elem_of_app. left. by apply Hin.
  - rewrite Hsc. intros X [HX|HX]%elem_of_app; [by apply Hb|]. apply list_elem_of_singleton in HX as ->.
    apply bool_decide_eq_true in Eb. apply HE, Exists_exists in Eb as (c & Hc & Hs). exists c. split; [done|set_solver].
  - rewrite fmap_app, Hsc. apply Forall_app. split; [done|]. cbn. by apply Forall_singleton.
  - rewrite viable_app, fmap_app, Hm', minimal_snoc, Eb. done.
  - rewrite fmap_app, Hsc. intros c [Hc|Hc]%elem_of_app; apply elem_of_app; [left; by apply Hin|right].
    cbn in Hc. apply list_elem_of_singleton in Hc as ->. by left.
  - rewrite fmap_app, Hsc. intros X [HX|HX]%elem_of_app.
    + destruct (Hb X HX) as (c & Hc & Hs). exists c. split; [apply elem_of_app; by left|done].
    + apply list_elem_of_singleton in HX as ->. exists cut. split; [apply elem_of_app; right; by left|done].
Qed.

End dominance.

(** ** Combinations *)

Lemma length_cart {A} (ls : list (list A)) : length (cart ls) = foldr (λ l n, length l * n) 1 ls.
Proof.
  induction ls as [|l ls IH]; [done|]. cbn [cart foldr]. rewrite <- IH. clear IH.
  induction l as [|x l IH]; [done|]. cbn [fmap list_fmap concat length Nat.mul].
  by rewrite length_app, length_fmap, IH.
Qed.

Lemma cart_lookup {A} (l : list A) ls a b : b < length (cart ls) →
  cart (l :: ls) !! (a * length (cart ls) + b) = x ← l !! a; cons x <$> cart ls !! b.
Proof.
  intros Hb. cbn [cart]. revert a. induction l as [|x l IH]; intros a; [done|].
  cbn [fmap list_fmap concat]. destruct a as [|a].
  - cbn [lookup list_lookup Nat.mul Nat.add]. rewrite lookup_app_l by by rewrite length_fmap.
    by rewrite list_lookup_fmap.
  - rewrite lookup_app_r by (rewrite length_fmap; lia). rewrite length_fmap.
    replace (S a * length (cart ls) + b - length (cart ls)) with (a * length (cart ls) + b) by lia. apply IH.
Qed.

(** The sizes of the lists of cuts, and their product. *)
Definition nsizes {A} (ls : list (list A)) : list N := N.of_nat ∘ length <$> ls.

Definition combinations {A} (ls : list (list A)) : N := N.of_nat (length (cart ls)).

Lemma combinations_cons {A} (l : list A) ls : combinations (l :: ls) = (N.of_nat (length l) * combinations ls)%N.
Proof. unfold combinations. rewrite !length_cart. cbn [foldr]. lia. Qed.

Lemma combinations_pos {A} (ls : list (list A)) : Forall (λ l, l ≠ []) ls → (0 < combinations ls)%N.
Proof.
  induction 1 as [|l ls Hl _ IH]; [done|]. rewrite combinations_cons. destruct l; [done|]. cbn [length]. lia.
Qed.

Lemma combinations_tail {A} (l : list A) ls m : l ≠ [] → (combinations (l :: ls) < m)%N → (combinations ls < m)%N.
Proof.
  intros Hl. rewrite combinations_cons. apply N.le_lt_trans. destruct l as [|x l]; [done|]. cbn [length].
  rewrite Nat2N.inj_succ, N.mul_succ_l. lia.
Qed.

(** Without an overflow the code's products are the numbers of combinations. *)
Lemma suffixes_head {A} (ls : list (list A)) : Forall (λ l, l ≠ []) ls → (combinations ls < 2 ^ 64)%N →
  default 1%N (head (suffixes (nsizes ls))) = combinations ls.
Proof.
  induction 1 as [|l ls Hl Hls IH]; intros Hc; [done|]. pose proof (combinations_tail _ _ _ Hl Hc) as Ht.
  unfold nsizes in *. cbn [fmap list_fmap suffixes head default]. rewrite IH by done.
  rewrite combinations_cons in *. rewrite (N.mul_comm (combinations ls)). by apply N.mod_small.
Qed.

(** ** Merging the cuts of the links *)

Section merging.

Context (k i : nat) (Hk : k < Z.to_nat (2 ^ 15)).

Lemma cut_merge_spec c d j : cut_wf k i c → isImmutable (leafIDs c) = false → cut_wf k j d →
  ∃ b c', cut_merge d c = Some (b, c') ∧ cut_wf k i c' ∧ isImmutable (leafIDs c') = false ∧
    b = bool_decide (size (leaves c ∪ leaves d) ≤ k) ∧ (b = true → leaves c' = leaves c ∪ leaves d).
Proof using Hk.
  intros Hc Hi Hd. destruct (merge_spec (leafIDs c) (leafIDs d)) as (b & s & E & [H1 H2 H3 H4 H5]); [apply Hc|apply Hd|done| |].
  - pose proof (leaves_bound _ _ _ Hc). pose proof (leaves_bound _ _ _ Hd).
    pose proof (cut_size_leaves _ _ _ Hc). pose proof (cut_size_leaves _ _ _ Hd). unfold cut_size in *. lia.
  - exists b, (mkCut (rootID c) s). unfold cut_merge. rewrite E. rewrite (cw_max _ _ _ Hc) in *.
    split_all; [done| |cbn; congruence|done|].
    + split; cbn; [apply Hc|done|congruence].
    + intros ->. unfold leaves. cbn [leafIDs]. by rewrite H5.
Qed.

Lemma union_too_big (X Y Z : gset nat) : ¬ size X ≤ k → X ⊆ Z → bool_decide (size (Z ∪ Y) ≤ k) = false.
Proof using Hk.
  intros HX Hs. apply bool_decide_false. intros HZ. apply HX.
  assert (X ⊆ Z ∪ Y) as Hsub by set_solver. apply subseteq_size in Hsub. lia.
Qed.

(** The cuts with a number are the combination with this number, their union
    is kept if it fits. *)
Lemma mergeCuts_spec cuts ls lists :
  Forall2 (λ l cs, cuts !! idx l = Some cs ∧ Forall (cut_wf k (idx l)) cs) ls lists →
  Forall (λ l, l ≠ []) lists → (combinations lists < 2 ^ 64)%N →
  ∀ c new, (c < combinations lists)%N → cut_wf k i new → isImmutable (leafIDs new) = false →
  ∃ picks b c', cart lists !! N.to_nat c = Some picks ∧
    mergeCuts cuts ls (suffixes (nsizes lists)) c new = Some (b, c') ∧ cut_wf k i c' ∧
    b = bool_decide (size (leaves new ∪ ⋃ (leaves <$> picks)) ≤ k) ∧
    (b = true → leaves c' = leaves new ∪ ⋃ (leaves <$> picks)).
Proof using Hk.
  induction 1 as [|l cs ls lists [Hcs Hwf] Hall IH]; intros Hne Hlt c new Hc Hnew Hi.
  { exists [], true, new. assert (c = 0%N) as -> by (unfold combinations in Hc; cbn in Hc; lia).
    assert (leaves new ∪ ∅ = leaves new) as E by set_solver. cbn. rewrite E. split_all; [done|done|done| |done].
    symmetry. apply bool_decide_true. exact (leaves_bound _ _ _ Hnew). }
  apply list.Forall_cons in Hne as [Hcs0 Hne]. pose proof (combinations_tail _ _ _ Hcs0 Hlt) as Ht.
  pose proof (combinations_pos _ Hne) as Hp. pose proof (suffixes_head lists Hne Ht) as Hsh.
  rewrite combinations_cons in Hc. set (P := combinations lists) in *.
  assert (P = N.of_nat (length (cart lists))) as HP by done.
  assert ((c / P < N.of_nat (length cs)) ∧ c mod P < P)%N as [Hq Hr].
  { split; [apply N.Div0.div_lt_upper_bound; lia|apply N.mod_lt; lia]. }
  assert (∃ x, cs !! N.to_nat (c / P) = Some x) as [x Hx] by (apply lookup_lt_is_Some_2; lia).
  assert (∀ c', c' = (c mod P)%N ∨ ls = [] → ∀ new', cut_wf k i new' → isImmutable (leafIDs new') = false →
    ∃ picks b d, cart lists !! N.to_nat (c mod P) = Some picks ∧
      mergeCuts cuts ls (suffixes (nsizes lists)) c' new' = Some (b, d) ∧ cut_wf k i d ∧
      b = bool_decide (size (leaves new' ∪ ⋃ (leaves <$> picks)) ≤ k) ∧
      (b = true → leaves d = leaves new' ∪ ⋃ (leaves <$> picks))) as Hrest.
  { intros c' Hc' new' Hn' Hi'. destruct (IH Hne Ht (c mod P)%N new' Hr Hn' Hi') as (picks & b & d & E1 & E2 & ? & ? & ?).
    exists picks, b, d. split_all; [done| |done..]. destruct Hc' as [->| ->]; done. }
  assert (split_number (suffixes (nsizes lists)) c = Some ((c / P)%N, if ls then c else (c mod P)%N)) as Hsplit.
  { unfold split_number. destruct Hall as [|? ? ? ? _ _]; [|].
    - assert (P = 1%N) as -> by done. by rewrite N.div_1_r.
    - destruct (head (suffixes (nsizes _))) as [n|] eqn:Eh; [|done]. change (n = P) in Hsh. rewrite Hsh.
      by rewrite (proj2 (N.eqb_neq P 0)) by lia. }
  assert (cut_wf k (idx l) x) as Hxw by (by eapply Forall_lookup_1 in Hx).
  destruct (cut_merge_spec new x (idx l) Hnew Hi Hxw) as (b & new' & Em & Hn' & Hi' & Hb & Hl).
  assert (∃ picks, cart lists !! N.to_nat (c mod P) = Some picks) as [picks Hpk].
  { apply lookup_lt_is_Some_2. lia. }
  assert (cart (cs :: lists) !! N.to_nat c = Some (x :: picks)) as Hcart.
  { replace (N.to_nat c) with (N.to_nat (c / P) * length (cart lists) + N.to_nat (c mod P)).
    - rewrite cart_lookup by lia. by rewrite Hx, Hpk.
    - pose proof (N.div_mod c P ltac:(lia)) as Hdm. nia. }
  assert (∀ X : gset nat, leaves new ∪ ⋃ (leaves <$> x :: picks) = (leaves new ∪ leaves x) ∪ ⋃ (leaves <$> picks)) as Hun.
  { intros _. cbn. set_solver. }
  specialize (Hun ∅). cbn [mergeCuts]. change (tail (suffixes (nsizes (cs :: lists)))) with (suffixes (nsizes lists)).
  exists (x :: picks). rewrite Hun. rewrite (bind_eval _ _ new ((c / P)%N, if ls then c else (c mod P)%N) new)
    by (unfold st_read; by rewrite Hsplit).
  rewrite (bind_eval (st_read _) _ new x new) by (unfold st_read; rewrite Hcs; cbn [mbind option_bind]; by rewrite Hx).
  rewrite (bind_eval _ _ new b new') by done. destruct b.
  - destruct (Hrest (if ls then c else (c mod P)%N)) with (new' := new') as (picks' & b' & d & E1 & E2 & Hd & Hb' & Hl');
      [destruct ls; [by right|by left]|done|done|]. rewrite E1 in Hpk. injection Hpk as ->.
    rewrite Hl in Hb', Hl' by done. exists b', d. split_all; done.
  - exists false, new'. split_all; [done..| |done]. symmetry. symmetry in Hb. apply bool_decide_eq_false in Hb.
    apply (union_too_big (leaves new ∪ leaves x)); [done|set_solver].
Qed.

(** ** The cuts of a cell *)

Context (Hk0 : 0 < k).
Context (cuts : list CutsList) (ls : LinkList) (lists : list CutsList).
Context (Hlists : Forall2 (λ l cs, cuts !! idx l = Some cs ∧ Forall (cut_wf k (idx l)) cs) ls lists).
Context (Hne : Forall (λ l, l ≠ []) lists) (Hlt : (combinations lists < 2 ^ 64)%N).

Definition union_of (picks : list Cut) : gset nat := ⋃ (leaves <$> picks).

Lemma addCut_spec n picks added S : cart lists !! n = Some picks → tracks k i added S →
  ∃ added', addCut k cuts i ls (suffixes (nsizes lists)) (N.of_nat n) added = Some ((), added') ∧
    tracks k i added' (S ++ filter (λ X, size X ≤ k) [union_of picks]).
Proof using All.
  intros Hn Htr. destruct (emptySet_spec k false Hk0) as (s & Es & Hs & Hsm & Hsi & Hse).
  assert (cut_wf k i (mkCut i s)) as Hnew by by split.
  assert (N.of_nat n < combinations lists)%N as Hlt'.
  { apply lookup_lt_Some in Hn. unfold combinations. lia. }
  destruct (mergeCuts_spec cuts ls lists Hlists Hne Hlt (N.of_nat n) (mkCut i s) Hlt' Hnew Hsi)
    as (picks' & b & c & Ep & Em & Hc & Hb & Hl).
  rewrite Nat2N.id, Hn in Ep. injection Ep as <-.
  assert (leaves (mkCut i s) ∪ ⋃ (leaves <$> picks) = union_of picks) as Eu.
  { unfold leaves at 1. cbn [leafIDs]. rewrite Hse. unfold union_of. set_solver. }
  rewrite Eu in Hb, Hl. unfold addCut.
  rewrite (bind_eval (st_read _) _ added s added) by (unfold st_read; by rewrite Es).
  rewrite (bind_eval (st_read _) _ added (b, c) added) by (unfold st_read; by rewrite Em). cbn beta iota.
  rewrite filter_cons, filter_nil. destruct b.
  - symmetry in Hb. apply bool_decide_eq_true in Hb. rewrite decide_True by done.
    pose proof (tracks_snoc k i c added S Hc Htr) as Ht. cbn zeta in Ht. rewrite Hl in Ht by done.
    destruct (cutNotDominated c added) as [[] added'] eqn:Ed; cbn [fst snd] in Ht;
      (eexists; split; [unfold mbind, st_bind; rewrite Ed; reflexivity|done]).
  - symmetry in Hb. apply bool_decide_eq_false in Hb. rewrite decide_False by done. rewrite app_nil_r.
    by exists added.
Qed.

Lemma addCuts_spec m : ∀ n added S, n + m = length (cart lists) → tracks k i added S →
  ∃ added', st_for (N.of_nat <$> seq n m) (addCut k cuts i ls (suffixes (nsizes lists))) added = Some ((), added') ∧
    tracks k i added' (S ++ filter (λ X, size X ≤ k) (union_of <$> drop n (cart lists))).
Proof using All.
  induction m as [|m IH]; intros n added S Hn Htr.
  - exists added. rewrite drop_ge by lia. cbn. by rewrite app_nil_r.
  - assert (is_Some (cart lists !! n)) as [picks Hp] by (apply lookup_lt_is_Some_2; lia).
    destruct (addCut_spec n picks added S Hp Htr) as (added1 & E1 & H1).
    destruct (IH (Datatypes.S n) added1 _ ltac:(lia) H1) as (added2 & E2 & H2).
    exists added2. cbn [seq fmap list_fmap st_for]. rewrite (bind_eval _ _ _ () added1) by done.
    split; [exact E2|]. erewrite (drop_S (cart lists)) by done. cbn [fmap list_fmap].
    change (union_of picks :: (union_of <$> drop (Datatypes.S n) (cart lists))) with
      ([union_of picks] ++ (union_of <$> drop (Datatypes.S n) (cart lists))).
    by rewrite filter_app, app_assoc.
Qed.

End merging.

Lemma cart_fmap {A B} (f : A → B) (ls : list (list A)) : cart (fmap (M:=list) f <$> ls) = fmap (M:=list) f <$> cart ls.
Proof.
  induction ls as [|l ls IH]; [done|]. cbn [fmap list_fmap cart]. rewrite IH. clear IH.
  induction l as [|x l IH]; [done|]. cbn [fmap list_fmap concat]. rewrite fmap_app. f_equal; [|apply IH].
  by rewrite <- !list_fmap_compose.
Qed.

Lemma candidates_cuts k (lists : list CutsList) :
  candidates k (fmap (M:=list) leaves <$> lists) = filter (λ X, size X ≤ k) (union_of <$> cart lists).
Proof. unfold candidates. rewrite cart_fmap, <- list_fmap_compose. done. Qed.

Lemma cell_cuts_nonempty k i ins : cell_cuts k i ins ≠ [].
Proof.
  unfold cell_cuts. case_bool_decide; [done|]. intros E.
  destruct (minimal_below ({[i]} :: candidates k ins) {[i]}) as (Y & HY & _); [by left|].
  rewrite E in HY. by apply not_elem_of_nil in HY.
Qed.

Lemma tracks_single k i c : cut_wf k i c → tracks k i [(c, true)] [leaves c].
Proof.
  intros Hc. split.
  - by apply Forall_singleton.
  - change ([leaves c] = minimal [leaves c]). unfold minimal. symmetry. apply filter_same.
    intros X HX. apply list_elem_of_singleton in HX as ->. rewrite Exists_cons, Exists_nil. set_solver.
  - intros d Hd. cbn in Hd. apply list_elem_of_singleton in Hd as ->. by left.
  - intros X HX. apply list_elem_of_singleton in HX as ->. exists c. by split; [left|].
Qed.

Lemma mapM_sizes (cuts : list CutsList) ls (lists : list CutsList) (Q : Link → CutsList → Prop) :
  Forall2 (λ l cs, cuts !! idx l = Some cs ∧ Q l cs) ls lists →
  mapM (λ l, N.of_nat ∘ length <$> cuts !! idx l) ls = Some (nsizes lists).
Proof.
  intros H. apply mapM_Some. unfold nsizes. apply Forall2_fmap_r. eapply Forall2_impl; [exact H|].
  intros l cs [E _]. cbn. by rewrite E.
Qed.

(** What [findCuts] finds for a cell whose links have their cuts. *)
Lemma findCuts_spec e i ls lists : 0 < k_max e < Z.to_nat (2 ^ 15) → i < length (entriesCuts e) →
  ex_links e i = Some ls →
  Forall2 (λ l cs, entriesCuts e !! idx l = Some cs ∧ Forall (cut_wf (k_max e) (idx l)) cs) ls lists →
  Forall (λ l, l ≠ []) lists → (combinations lists < 2 ^ 64)%N →
  ∃ cuts, findCuts i e = Some ((), with_cuts (<[i := cuts]> (entriesCuts e)) e) ∧
    Forall (cut_wf (k_max e) i) cuts ∧ leaves <$> cuts = cell_cuts (k_max e) i (fmap (M:=list) leaves <$> lists).
Proof.
  intros [Hk0 Hk] Hi Els Hlists Hne Hlt. set (k := k_max e) in *.
  destruct (singleSet_spec k i true Hk0) as (s & Es & Hs & Hsm & _ & Hse). set (t := mkCut i s).
  assert (cut_wf k i t) as Ht by by split. assert (leaves t = {[i]}) as Elt by done.
  assert (∀ cs, setCuts i cs e = Some ((), with_cuts (<[i := cs]> (entriesCuts e)) e)) as Hset.
  { intros cs. unfold setCuts, st_update. by rewrite bool_decide_true. }
  unfold findCuts. rewrite (bind_eval st_get _ e e e) by done.
  rewrite (bind_eval (st_read _) _ e ls e) by (unfold st_read; by rewrite Els).
  rewrite (bind_eval (st_read _) _ e t e) by (unfold st_read, trivialCut; fold k; by rewrite Es).
  destruct (Nat.eqb_spec (length ls) 0) as [E0|E0].
  - apply nil_length_inv in E0 as ->. apply list.Forall2_nil_inv_l in Hlists as ->.
    exists [t]. split_all; [apply Hset|by apply Forall_singleton|]. cbn. by rewrite Elt.
  - rewrite (bind_eval (st_read _) _ e (nsizes lists) e)
      by (unfold st_read; by rewrite (mapM_sizes _ _ _ _ Hlists)). cbn zeta.
    destruct (addCuts_spec k i Hk Hk0 (entriesCuts e) ls lists Hlists Hne Hlt (length (cart lists)) 0 [(t, true)] [leaves t]
      eq_refl (tracks_single _ _ _ Ht)) as (added & Ea & Hadd).
    rewrite suffixes_head by done. unfold combinations at 1. rewrite Nat2N.id. fold k.
    rewrite (bind_eval (st_read _) _ e ((), added) e) by (unfold st_read; by rewrite Ea).
    exists (viable added). split_all; [apply Hset| |].
    + apply Forall_forall. intros c Hc%viable_in. pose proof (tk_wf _ _ _ _ Hadd) as Hw.
      rewrite Forall_forall in Hw. by apply Hw.
    + rewrite (tk_viable _ _ _ _ Hadd), drop_0, Elt. unfold cell_cuts. rewrite bool_decide_false, candidates_cuts; [done|].
      destruct lists; [|done]. inversion Hlists. by subst ls.
Qed.

(** ** The cuts of a net *)

(** The cuts of the cells [o] one after another, by the cuts of their links. *)
Fixpoint net_cuts (lk : nat → option LinkList) (k : nat) (o : list nat) (R : list (list (gset nat)))
    : list (list (gset nat)) :=
  match o with
  | [] => R
  | i :: o =>
    net_cuts lk k o (<[i := cell_cuts k i ((λ l, default [] (R !! idx l)) <$> default [] (lk i))]> R)
  end.

(** Every cell has its links before it. *)
Fixpoint topo (lk : nat → option LinkList) (known o : list nat) : Prop :=
  match o with
  | [] => True
  | i :: o => (∃ ls, lk i = Some ls ∧ ∀ l, l ∈ ls → idx l ∈ known) ∧ i ∉ known ∧ topo lk (i :: known) o
  end.

(** No cell has [2 ^ 64] combinations of cuts or more. *)
Definition fits (lk : nat → option LinkList) (o : list nat) (R : list (list (gset nat))) : bool :=
  forallb (λ i, N.ltb (combinations ((λ l, default [] (R !! idx l)) <$> default [] (lk i))) (2 ^ 64)) o.

(** The cuts of the extractor are the sets [R]. *)
Record extracted (e : CutExtractor) (R : list (list (gset nat))) : Prop := {
  ex_length : length R = length (entriesCuts e);
  ex_wf : ∀ i cs, entriesCuts e !! i = Some cs → Forall (cut_wf (k_max e) i) cs;
  ex_sets : ∀ i cs, entriesCuts e !! i = Some cs → R !! i = Some (leaves <$> cs);
}.

Section run.

Context (lk : nat → option LinkList) (k : nat) (Hk : 0 < k < Z.to_nat (2 ^ 15)).

Lemma topo_fresh known o j : topo lk known o → j ∈ known → j ∉ o.
Proof.
  revert known. induction o as [|i o IH]; intros known; [intros; apply not_elem_of_nil|].
  intros (_ & Hi & Ht) Hj. rewrite elem_of_cons. intros [->|Hin]; [done|].
  by apply (IH (i :: known) Ht); [right|].
Qed.

Lemma net_cuts_other o R j : j ∉ o → net_cuts lk k o R !! j = R !! j.
Proof.
  revert R. induction o as [|i o IH]; intros R Hj; [done|]. rewrite not_elem_of_cons in Hj.
  destruct Hj as [Hji Hj]. cbn [net_cuts]. rewrite IH by done. by apply list_lookup_insert_ne.
Qed.

Lemma net_cuts_length o R : length (net_cuts lk k o R) = length R.
Proof. revert R. induction o as [|i o IH]; intros R; [done|]. cbn [net_cuts]. by rewrite IH, length_insert. Qed.

(** The cuts of the links, from the final result as from any before. *)
Lemma link_cuts known o R (ls : LinkList) : topo lk known o → (∀ l, l ∈ ls → idx l ∈ known) →
  (λ l, default [] (net_cuts lk k o R !! idx l)) <$> ls = (λ l, default [] (R !! idx l)) <$> ls.
Proof.
  intros Ht Hls. induction ls as [|l ls IH]; [done|]. cbn [fmap list_fmap].
  rewrite net_cuts_other by (apply (topo_fresh known); [done|]; apply Hls; by left).
  f_equal. apply IH. intros l' Hl'. apply Hls. by right.
Qed.

Lemma topo_in known o i : topo lk known o → i ∈ o → ∃ ls, lk i = Some ls ∧ ∀ l, l ∈ ls → idx l ∈ known ∨ idx l ∈ o.
Proof.
  revert known. induction o as [|j o IH]; intros known; [intros _ Hi; by apply not_elem_of_nil in Hi|].
  intros ((ls & El & Hls) & _ & Ht) [->|Hi]%elem_of_cons.
  - exists ls. split; [done|]. intros l Hl. left. by apply Hls.
  - destruct (IH _ Ht Hi) as (ls' & E & H). exists ls'. split; [done|]. intros l Hl.
    destruct (H l Hl) as [[->|?]%elem_of_cons|?]; [right; by left|by left|right; by right].
Qed.

(** The equation of the final cuts. *)
Lemma net_cuts_cell known o R i : topo lk known o → i ∈ o → i < length R →
  net_cuts lk k o R !! i =
    Some (cell_cuts k i ((λ l, default [] (net_cuts lk k o R !! idx l)) <$> default [] (lk i))).
Proof.
  revert known R. induction o as [|j o IH]; intros known R; [intros _ Hi; by apply not_elem_of_nil in Hi|].
  intros ((ls & El & Hls) & Hj & Ht) Hi Hlen. cbn [net_cuts]. destruct (decide (i = j)) as [->|Hne].
  - rewrite net_cuts_other by (apply (topo_fresh (j :: known)); [done|by left]).
    rewrite list_lookup_insert_eq by done. do 2 f_equal. rewrite El. cbn [default from_option id].
    rewrite (link_cuts (j :: known)); [|done|intros l Hl; right; by apply Hls].
    apply list_fmap_ext. intros n l Hl. rewrite list_lookup_insert_ne; [done|].
    intros ->. by apply Hj, Hls, (list_elem_of_lookup_2 _ n).
  - apply elem_of_cons in Hi as [->|Hi]; [done|]. apply (IH (j :: known)); [done..|]. by rewrite length_insert.
Qed.

Lemma Forall2_self {A B} (f : A → B) (Q : A → B → Prop) (l : list A) : (∀ x, x ∈ l → Q x (f x)) → Forall2 Q l (f <$> l).
Proof.
  induction l as [|x l IH]; intros H; [constructor|]. cbn [fmap list_fmap].
  constructor; [apply H; by left|]. apply IH. intros y Hy. apply H. by right.
Qed.

Lemma combinations_fmap {A B} (f : A → B) (ls : list (list A)) : combinations (fmap (M:=list) f <$> ls) = combinations ls.
Proof. unfold combinations. by rewrite cart_fmap, length_fmap. Qed.

(** The extractor goes over the cells in order and finds the cuts of the definition. *)
Lemma run_cuts known o e R : ex_links e = lk → k_max e = k → extracted e R → topo lk known o →
  (∀ i, i ∈ known ∨ i ∈ o → i < length R) → (∀ i, i ∈ known → default [] (R !! i) ≠ []) →
  fits lk o (net_cuts lk k o R) = true →
  ∃ e', st_for o findCuts e = Some ((), e') ∧ src e' = src e ∧ k_max e' = k ∧ extracted e' (net_cuts lk k o R).
Proof using Hk.
  revert known e R. induction o as [|i o IH]; intros known e R Hlk Hke Hex Htop Hlen Hne Hfit.
  { by exists e. }
  pose proof Htop as Htop'. destruct Htop as ((ls & El & Hls) & Hi & Ht).
  pose proof (link_cuts known (i :: o) R ls Htop' Hls) as Hlinks.
  set (lists := (λ l, default [] (entriesCuts e !! idx l)) <$> ls).
  assert (∀ j, j ∈ known → ∃ cs, entriesCuts e !! j = Some cs ∧ R !! j = Some (leaves <$> cs)) as Hget.
  { intros j Hj. assert (is_Some (entriesCuts e !! j)) as [cs Hcs].
    { apply lookup_lt_is_Some_2. rewrite <- (ex_length _ _ Hex). apply Hlen. by left. }
    exists cs. split; [done|]. by apply (ex_sets _ _ Hex). }
  assert (fmap (M:=list) leaves <$> lists = (λ l, default [] (R !! idx l)) <$> ls) as Hsets.
  { unfold lists. rewrite <- list_fmap_compose. apply list_fmap_ext. intros n l Hl. cbn.
    destruct (Hget (idx l)) as (cs & -> & ->); [|done]. apply Hls. by eapply list_elem_of_lookup_2. }
  cbn [fits forallb] in Hfit. apply andb_true_iff in Hfit as [Hfi Hfo].
  rewrite El in Hfi. cbn [default from_option id] in Hfi. rewrite Hlinks, <- Hsets, combinations_fmap in Hfi.
  apply N.ltb_lt in Hfi.
  destruct (findCuts_spec e i ls lists) as (cuts & Ef & Hcw & Hcs).
  - by rewrite Hke.
  - rewrite <- (ex_length _ _ Hex). apply Hlen. right. by left.
  - by rewrite Hlk.
  - apply Forall2_self. intros l Hl. destruct (Hget (idx l)) as (cs & E & _); [by apply Hls|]. rewrite E.
    split; [done|]. by apply (ex_wf _ _ Hex).
  - apply Forall_fmap, Forall_forall. intros l Hl. cbn. destruct (Hget (idx l)) as (cs & E & E'); [by apply Hls|].
    rewrite E. cbn. intros ->. specialize (Hne (idx l) (Hls l Hl)). by rewrite E' in Hne.
  - done.
  - rewrite Hke, Hsets in Hcs. cbn [st_for]. rewrite (bind_eval _ _ e () _ Ef). cbn [net_cuts] in *. rewrite El in *.
    cbn [default from_option id] in *.
    set (R1 := <[i := cell_cuts k i ((λ l, default [] (R !! idx l)) <$> ls)]> R) in *.
    set (e1 := with_cuts (<[i := cuts]> (entriesCuts e)) e).
    assert (i < length R) as HiR by (apply Hlen; right; by left).
    destruct (IH (i :: known) e1 R1) as (e2 & E2 & Hs2 & Hk2 & Hx2).
    + done.
    + done.
    + split; unfold e1, R1; cbn [entriesCuts k_max with_cuts].
      * rewrite !length_insert. apply Hex.
      * intros j cs. rewrite list_lookup_insert. destruct (decide (i = j ∧ i < length (entriesCuts e))) as [[<- _]|Hn].
        { by intros [= <-]. }
        apply (ex_wf _ _ Hex).
      * intros j cs. rewrite !list_lookup_insert, (ex_length _ _ Hex).
        destruct (decide (i = j ∧ i < length (entriesCuts e))) as [[<- _]|Hn]; [|apply (ex_sets _ _ Hex)].
        intros [= <-]. by rewrite Hcs.
    + done.
    + intros j Hj. unfold R1. rewrite length_insert. apply Hlen. rewrite !elem_of_cons in *. tauto.
    + intros j Hj. unfold R1. rewrite list_lookup_insert. case_decide as Hd; [apply cell_cuts_nonempty|].
      apply elem_of_cons in Hj as [->|Hj]; [exfalso; by apply Hd|by apply Hne].
    + done.
    + exists e2. split_all; done.
Qed.

End run.
