(* ===== verification/CutsCorrect.v ===== *)
(** * Cut extraction is correct

    The extractor ends on every well-formed subnet (and on every reachable builder) and
    computes the cuts of the definition; these cover their cells, determine their values,
    subsume every cover of at most [k] cells, and none contains another strictly. *)

From S2P Require Import Prelude CellAttr CellType SubnetBase Builder Order BuilderAdd BuilderInv BuilderEval BuilderCorrect Make MakeSpec SubnetEval Bits.
From stdpp Require Import gmap sorting.
From S2P Require Import BoundedSet BoundedSetSpec Cuts CutsSpec.

(** ** Definitions *)

(** The cells of a subnet from entry [i] on. *)
Fixpoint cells_from (fuel : nat) (s : Subnet) (i : nat) : list nat :=
  match fuel with
  | 0 => []
  | S fuel =>
    match Net.getCell s i with
    | Some c => i :: cells_from fuel s (S (i + more c))
    | None => []
    end
  end.

Definition sn_cells (s : Subnet) : list nat := cells_from (Net.size s) s 0.

(** The cuts of the cells of a subnet. *)
Definition sn_cuts (s : Subnet) (k : nat) : list (list (gset nat)) :=
  net_cuts (Net.getLinks s) k (sn_cells s) (replicate (Net.size s) []).

(** [X] cuts the cell [i] off: all paths to it lead through [X]. *)
Inductive covers (lk : nat → option LinkList) (X : gset nat) : nat → Prop :=
  | covers_leaf i : i ∈ X → covers lk X i
  | covers_node i ls : lk i = Some ls → ls ≠ [] → (∀ l, l ∈ ls → covers lk X (idx l)) → covers lk X i.

(** The value of a cell, for an output that of its link. *)
Definition value_at (s : Subnet) (v : valuation) (i : nat) : bool :=
  match Net.getCell s i with
  | Some c => if cell_is OUT c then default false (lval v <$> (Net.getLinks s i ≫= head)) else v i 0
  | None => false
  end.

(** What makes [cuts] the cuts of the cell [i]. *)
Record cuts_of (lk : nat → option LinkList) (k i : nat) (cuts : list (gset nat)) : Prop := {
  co_small : ∀ X, X ∈ cuts → size X ≤ k;
  co_covers : ∀ X, X ∈ cuts → covers lk X i;
  co_complete : ∀ X, covers lk X i → size X ≤ k → ∃ Y, Y ∈ cuts ∧ Y ⊆ X;
  co_minimal : ∀ X Y, X ∈ cuts → Y ∈ cuts → ¬ Y ⊂ X;
}.

(** ** The cuts of the definition *)

Lemma elem_of_cart {A} (ls : list (list A)) picks : picks ∈ cart ls ↔ Forall2 (λ x l, x ∈ l) picks ls.
Proof.
  revert picks. induction ls as [|l ls IH]; intros picks; cbn [cart].
  - rewrite list_elem_of_singleton. split; [by intros ->|by inversion 1].
  - rewrite elem_of_concat. split.
    + intros (r & Hr & (x & -> & Hx)%list_elem_of_fmap). apply list_elem_of_fmap in Hr as (p & -> & Hp).
      constructor; [done|]. by apply IH.
    + inversion_clear 1 as [|x ? p ? Hx Hp]. exists (cons x <$> cart ls). split.
      * apply list_elem_of_fmap. exists p. split; [done|]. by apply IH.
      * apply list_elem_of_fmap. by exists x.
Qed.

Lemma covers_mono lk (X Y : gset nat) i : X ⊆ Y → covers lk X i → covers lk Y i.
Proof.
  intros Hs. induction 1 as [i Hi|i ls El Hn _ IH]; [apply covers_leaf; set_solver|by eapply covers_node].
Qed.

Lemma minimal_strict S X Y : X ∈ minimal S → Y ∈ minimal S → ¬ Y ⊂ X.
Proof.
  unfold minimal. rewrite !list_elem_of_filter, Exists_exists. intros [HX _] [_ HY] Hs. apply HX. by exists Y.
Qed.

Section definition.

Context (lk : nat → option LinkList) (k : nat) (Hk : 0 < k).
Context (o : list nat) (R0 : list (list (gset nat))) (Htop : topo lk [] o).
Context (Hlen : ∀ i, i ∈ o → i < length R0).

Let R := net_cuts lk k o R0.

Lemma cuts_equation i : i ∈ o → ∃ ls, lk i = Some ls ∧ (∀ l, l ∈ ls → idx l ∈ o) ∧
  R !! i = Some (cell_cuts k i ((λ l, default [] (R !! idx l)) <$> ls)).
Proof using Htop Hlen.
  intros Hi. destruct (topo_in lk [] o i Htop Hi) as (ls & El & Hls). exists ls.
  split_all; [done| |].
  - intros l Hl. destruct (Hls l Hl) as [Hn|]; [by apply not_elem_of_nil in Hn|done].
  - unfold R. rewrite (net_cuts_cell lk k [] o R0 i Htop Hi) by by apply Hlen. by rewrite El.
Qed.

(** The order is an induction principle. *)
Lemma order_ind (P : nat → Prop) : (∀ i ls, i ∈ o → lk i = Some ls → (∀ l, l ∈ ls → P (idx l)) → P i) → ∀ i, i ∈ o → P i.
Proof using Htop.
  intros HP. assert (∀ known o', topo lk known o' → (∀ j, j ∈ o' → j ∈ o) → (∀ j, j ∈ known → P j) → ∀ j, j ∈ o' → P j) as Hgen.
  { intros known o'. revert known. induction o' as [|i o' IH]; intros known; [intros _ _ _ j Hj; by apply not_elem_of_nil in Hj|].
    intros ((ls & El & Hls) & _ & Ht) Hin Hkn. assert (P i) as Hi.
    { apply (HP i ls); [apply Hin; by left|done|]. intros l Hl. by apply Hkn, Hls. }
    intros j [->|Hj]%elem_of_cons; [done|]. apply (IH (i :: known)); [done| | |done].
    - intros x Hx. apply Hin. by right.
    - intros x [->|Hx]%elem_of_cons; [done|]. by apply Hkn. }
  apply (Hgen [] o); [done|done|]. intros j Hj. by apply not_elem_of_nil in Hj.
Qed.

Lemma fmap_nil_iff {A B} (f : A → B) (l : list A) : f <$> l = [] ↔ l = [].
Proof. by destruct l. Qed.

Lemma candidate_union (ins : list (list (gset nat))) X : X ∈ candidates k ins ↔
  size X ≤ k ∧ ∃ picks, Forall2 (λ x l, x ∈ l) picks ins ∧ X = ⋃ picks.
Proof.
  unfold candidates. rewrite list_elem_of_filter, list_elem_of_fmap. setoid_rewrite elem_of_cart. naive_solver.
Qed.

Lemma elem_of_pick (picks : list (gset nat)) x : x ∈ ⋃ picks ↔ ∃ X, X ∈ picks ∧ x ∈ X.
Proof. by rewrite elem_of_union_list. Qed.

Lemma cell_cuts_in i ls X : X ∈ cell_cuts k i ((λ l, default [] (R !! idx l)) <$> ls) →
  X = {[i]} ∨ ls ≠ [] ∧ X ∈ candidates k ((λ l, default [] (R !! idx l)) <$> ls).
Proof.
  unfold cell_cuts. case_bool_decide as Hn.
  - intros ->%list_elem_of_singleton. by left.
  - intros [->|HX]%minimal_subset%elem_of_cons; [by left|]. right. split; [|done].
    intros ->. by apply Hn.
Qed.

(** Every cell of a net has its cuts. *)
Lemma definition_cuts i : i ∈ o → ∃ cuts, R !! i = Some cuts ∧ cuts_of lk k i cuts.
Proof using All.
  revert i. apply order_ind. intros i ls Hi El IH. destruct (cuts_equation i Hi) as (ls' & El' & Hls & E).
  rewrite El in El'. injection El' as <-. eexists. split; [exact E|].
  set (ins := (λ l, default [] (R !! idx l)) <$> ls) in *.
  assert (∀ l, l ∈ ls → cuts_of lk k (idx l) (default [] (R !! idx l))) as IH'.
  { intros l Hl. destruct (IH l Hl) as (cs & Ec & Hc). by rewrite Ec. }
  clear IH. split.
  - intros X [->|[_ HX]]%cell_cuts_in; [rewrite size_singleton; lia|]. by apply candidate_union in HX as [HX _].
  - intros X [->|[Hne HX]]%cell_cuts_in; [apply covers_leaf; set_solver|].
    apply candidate_union in HX as (_ & picks & Hp & ->). apply (covers_node _ _ _ ls); [done..|].
    intros l [n Hn]%list_elem_of_lookup. assert (ins !! n = Some (default [] (R !! idx l))) as Hin.
    { unfold ins. by rewrite list_lookup_fmap, Hn. }
    destruct (Forall2_lookup_r _ _ _ _ _ Hp Hin) as (Y & HY & HYin).
    apply (covers_mono lk Y); [|apply (co_covers _ _ _ _ (IH' l ltac:(by eapply list_elem_of_lookup_2))); done].
    intros x Hx. apply elem_of_pick. exists Y. split; [by eapply list_elem_of_lookup_2|done].
  - intros X Hcov HX. unfold cell_cuts. case_bool_decide as Hn.
    + exists {[i]}. split; [by left|]. destruct Hcov as [i Hx|i ls' El' Hne _]; [set_solver|].
      rewrite El in El'. injection El' as <-. by apply fmap_nil_iff in Hn.
    + destruct Hcov as [i Hx|i ls' El' Hne Hc].
      { destruct (minimal_below ({[i]} :: candidates k ins) {[i]}) as (Y & HY & Hs); [by left|].
        exists Y. split; [done|]. set_solver. }
      rewrite El in El'. injection El' as <-.
      assert (∃ picks, Forall2 (λ x l, x ∈ l) picks ins ∧ ∀ Y, Y ∈ picks → Y ⊆ X) as (picks & Hp & Hsub).
      { assert (∀ l, l ∈ ls → ∃ Y, Y ∈ default [] (R !! idx l) ∧ Y ⊆ X) as Hl.
        { intros l Hl. by apply (co_complete _ _ _ _ (IH' l Hl)); [apply Hc|]. }
        unfold ins. clear - Hl. induction ls as [|l ls IH]; [exists []; split; [constructor|set_solver]|].
        destruct (Hl l ltac:(by left)) as (Y & HY & Hs). destruct IH as (picks & Hp & Hsub); [intros; apply Hl; by right|].
        exists (Y :: picks). split; [by constructor|]. intros Z [->|HZ]%elem_of_cons; auto. }
      assert (⋃ picks ⊆ X) as Hu by (intros x (Y & HY & Hx)%elem_of_pick; by apply (Hsub Y)).
      destruct (minimal_below ({[i]} :: candidates k ins) (⋃ picks)) as (Y & HY & Hs).
      * right. apply candidate_union. split; [|eauto]. apply subseteq_size in Hu. lia.
      * exists Y. split; [done|]. by trans (⋃ picks).
  - intros X Y. unfold cell_cuts. case_bool_decide; [|apply minimal_strict].
    intros ->%list_elem_of_singleton ->%list_elem_of_singleton. set_solver.
Qed.

End definition.

(** ** The cells of a subnet *)

Lemma cells_from_ge fuel s i j : j ∈ cells_from fuel s i → i ≤ j < Net.size s ∧ is_Some (Net.getCell s j).
Proof.
  revert i. induction fuel as [|fuel IH]; intros i; cbn [cells_from]; [intros Hj; by apply not_elem_of_nil in Hj|].
  destruct (Net.getCell s i) as [c|] eqn:Ec; [|intros Hj; by apply not_elem_of_nil in Hj].
  intros [->|Hj]%elem_of_cons.
  - split; [split; [done|by eapply getCell_size]|by rewrite Ec].
  - apply IH in Hj as [? ?]. split; [lia|done].
Qed.

Lemma topo_weaken lk known known' o : topo lk known o → (∀ j, j ∈ known → j ∈ known') →
  (∀ j, j ∈ o → j ∉ known') → topo lk known' o.
Proof.
  revert known known'. induction o as [|i o IH]; intros known known'; [done|].
  intros ((ls & El & Hls) & Hi & Ht) Hs Hd. cbn [topo]. split_all.
  - exists ls. split; [done|]. auto.
  - apply Hd. by left.
  - apply (IH (i :: known)); [done|set_solver|]. intros j Hj. rewrite not_elem_of_cons.
    split; [|apply Hd; by right]. intros ->. by apply (topo_fresh lk (i :: known) o i Ht); [left|].
Qed.

Lemma sn_check_topo s : ∀ fuel known i, sn_check fuel s known i = true → (∀ j, j ∈ known → j < i) →
  topo (Net.getLinks s) known (cells_from fuel s i) ∧
  ∀ e, extract_loop s fuel i e = st_for (cells_from fuel s i) findCuts e.
Proof.
  induction fuel as [|fuel IH]; intros known i Hc Hk; cbn [sn_check cells_from extract_loop] in *.
  { destruct (Net.size s <=? i); [|done]. by split. }
  destruct (Nat.leb_spec (Net.size s) i) as [Hle|Hlt].
  { assert (Net.getCell s i = None) as ->; [|by split].
    destruct (Net.getCell s i) eqn:E; [|done]. apply getCell_size in E. lia. }
  destruct (Net.getCell s i) as [c|] eqn:Ec; [|done]. destruct (Net.getLinks s i) as [ls|] eqn:El; [|done].
  apply andb_true_iff in Hc as [Hc Hrest].
  destruct (IH _ _ Hrest) as [Ht He].
  { intros j. destruct (cell_is OUT c); [intros Hj; specialize (Hk j Hj); lia|].
    intros [->|Hj]%elem_of_cons; [lia|]. specialize (Hk j Hj). lia. }
  split.
  - cbn [topo]. split_all.
    + exists ls. split; [done|]. intros l Hl. by apply (lk_in _ _ _ _ (cell_check_links _ _ _ _ _ Hc)).
    + intros Hi. specialize (Hk i Hi). lia.
    + apply (topo_weaken _ _ _ _ Ht).
      * intros j Hj. destruct (cell_is OUT c); [by right|done].
      * intros j [Hj _]%cells_from_ge. rewrite not_elem_of_cons. split; [lia|].
        intros Hn. specialize (Hk j Hn). lia.
  - intros e. cbn [st_for]. destruct (findCuts i e) as [[[] e1]|] eqn:Ef.
    + rewrite !(bind_eval _ _ e () e1) by done.
      rewrite (bind_eval (st_read _) _ e1 c e1) by done. apply He.
    + by rewrite !Prelude.bind_None by done.
Qed.

Lemma sn_check_cells s : ∀ fuel known i k, sn_check fuel s known i = true →
  i ≤ k → is_Some (Net.getCell s k) → k ∈ cells_from fuel s i.
Proof.
  induction fuel as [|fuel IH]; intros known i k Hc Hik [d Hd]; pose proof (getCell_size _ _ _ Hd) as Hs;
    cbn [sn_check cells_from] in *; rewrite (proj2 (Nat.leb_gt _ _)) in Hc by lia; [done|].
  destruct (Net.getCell s i) as [c|] eqn:Ec; [|done]. destruct (Net.getLinks s i) as [ls|] eqn:El; [|done].
  apply andb_true_iff in Hc as [Hc Hrest]. destruct (decide (k = i)) as [->|Hne]; [by left|right].
  eapply IH; [exact Hrest| |by exists d]. destruct (decide (k ≤ i + more c)) as [Hle|]; [|lia].
  rewrite (cell_check_skip _ _ _ _ _ k Hc) in Hd by lia. done.
Qed.

Section subnet.

Context (s : Subnet) (Hw : sn_wf s = true).

Lemma wf_check : sn_check (Net.size s) s [] 0 = true.
Proof using Hw. by apply andb_true_iff in Hw as [_ Hw']. Qed.

Lemma sn_topo : topo (Net.getLinks s) [] (sn_cells s).
Proof using Hw. apply (sn_check_topo s _ _ _ wf_check). intros j Hj. by apply not_elem_of_nil in Hj. Qed.

Lemma elem_of_cells i : i ∈ sn_cells s ↔ is_Some (Net.getCell s i).
Proof using Hw.
  split; [by intros [_ ?]%cells_from_ge|]. intros Hi. eapply sn_check_cells; [exact wf_check|lia|done].
Qed.

Lemma cells_size i : i ∈ sn_cells s → i < length (replicate (Net.size s) (@nil (gset nat))).
Proof using Hw. rewrite length_replicate. intros [? _]%cells_from_ge. lia. Qed.

(** The extractor ends with the cuts of the definition. *)
Lemma extractor_spec k : 0 < k < Z.to_nat (2 ^ 15) → fits (Net.getLinks s) (sn_cells s) (sn_cuts s k) = true →
  ∃ e, extractor s k = Some e ∧ k_max e = k ∧ extracted e (sn_cuts s k).
Proof using Hw.
  intros Hk Hfit. destruct (sn_check_topo s _ _ _ wf_check) as [_ Hloop]; [intros j Hj; by apply not_elem_of_nil in Hj|].
  set (e0 := mkExtractor (FromSubnet s) (replicate (Net.size s) []) k).
  destruct (run_cuts (Net.getLinks s) k Hk [] (sn_cells s) e0 (replicate (Net.size s) [])) as (e & Ee & _ & Hke & Hx).
  - done.
  - done.
  - split; cbn [e0 entriesCuts].
    + by rewrite !length_replicate.
    + intros i cs [-> _]%lookup_replicate. constructor.
    + intros i cs [-> Hi]%lookup_replicate. by apply lookup_replicate.
  - apply sn_topo.
  - intros i [Hi|Hi]; [by apply not_elem_of_nil in Hi|by apply cells_size].
  - intros i Hi. by apply not_elem_of_nil in Hi.
  - done.
  - exists e. split_all; [|done..]. unfold extractor. rewrite Hloop. fold (sn_cells s). fold e0. by rewrite Ee.
Qed.

(** A cover determines the value of its cell. *)
Lemma value_at_link v l c : Net.getCell s (idx l) = Some c → type c ≠ GateID OUT → out l = 0 →
  lval v l = xorb (value_at s v (idx l)) (inv l).
Proof.
  intros Hc Ht Ho. unfold lval, value_at. rewrite Hc, Ho. destruct (cell_is OUT c) eqn:E; [|done].
  by apply is_out_spec in E.
Qed.

Lemma covers_value v w (X : gset nat) i : sn_consistent v s → sn_consistent w s →
  (∀ j, j ∈ X → value_at s v j = value_at s w j) → covers (Net.getLinks s) X i →
  is_Some (Net.getCell s i) → value_at s v i = value_at s w i.
Proof using Hw.
  intros Hv Hw' HX. induction 1 as [i Hi|i ls El Hne Hls IH]; [intros _; by apply HX|]. intros [c Hc].
  destruct (SubnetEval.wf_cell s i c Hw Hc) as (ls' & Hf).
  rewrite (cf_links _ _ _ _ Hf) in El. injection El as ->.
  assert (∀ l, l ∈ ls → lval v l = lval w l) as Hl.
  { intros l Hl. destruct (cf_before _ _ _ _ Hf l Hl) as (_ & d & Hd & Ht). pose proof (cf_out _ _ _ _ Hf l Hl) as Ho.
    rewrite !(value_at_link _ l d) by done. f_equal. apply IH; [done|by rewrite Hd]. }
  assert (lval v <$> ls = lval w <$> ls) as Hls'.
  { apply list_fmap_ext. intros n l Hn. apply Hl. by eapply list_elem_of_lookup_2. }
  unfold value_at. rewrite Hc. destruct (cell_is OUT c) eqn:Eo.
  - rewrite (cf_links _ _ _ _ Hf). destruct ls as [|l ls]; [done|]. cbn. apply Hl. by left.
  - assert (is_Some (cell_fun (type c) (lval v <$> ls))) as [y Hy].
    { pose proof (cf_type _ _ _ _ Hf) as Ht.
      apply (cell_fun_defined _ (replicate (length ls) false)); [by rewrite length_replicate, length_fmap|].
      unfold cell_is in Eo. destruct (type c) as [|[]|]; try (apply Ht); try done; by destruct Ht as (_ & -> & _). }
    rewrite (Hv i c ls y Hc (cf_links _ _ _ _ Hf) Hy). rewrite Hls' in Hy.
    by rewrite (Hw' i c ls y Hc (cf_links _ _ _ _ Hf) Hy).
Qed.

End subnet.

(** ** The cells of a builder *)

Definition builder_cuts (b : SubnetBuilder) (o : list nat) (k : nat) : list (list (gset nat)) :=
  net_cuts (builder_links b) k o (replicate (length (entries b)) []).

Section builder.

Context `{TypeStore} (b : SubnetBuilder) (ins outs : list nat) (segs : list (list nat)) (HW : WF b ins outs segs).

Let o := order_of segs outs.

Lemma order_links i : i ∈ o → ∃ c, getCell b i = Some c ∧ more c = 0 ∧ builder_links b i = Some (getInPlaceLinks c).
Proof using HW.
  intros Hi. destruct (live_cell _ _ _ _ _ HW Hi) as (c & Hc & Hok). exists c. destruct Hok as (Hm & Ha & _).
  split_all; [done..|]. unfold builder_links. rewrite Hc. cbn [mbind option_bind]. by rewrite bool_decide_true.
Qed.

Lemma elem_of_rev {A} (l : list A) x : x ∈ rev l ↔ x ∈ l.
Proof. rewrite !list_elem_of_In. symmetry. apply in_rev. Qed.

Lemma order_topo o1 o2 : o = o1 ++ o2 → topo (builder_links b) (rev o1) o2.
Proof using HW.
  revert o1. induction o2 as [|i o2 IH]; intros o1 Eo; [done|]. cbn [topo].
  assert (i ∈ o) as Hi by (rewrite Eo; apply elem_of_app; right; by left).
  destruct (order_links i Hi) as (c & Hc & _ & El). split_all.
  - exists (getInPlaceLinks c). split; [done|]. intros l Hl. apply elem_of_rev.
    by eapply segs_before.
  - intros Hr. rewrite elem_of_rev in Hr. pose proof (linked_nodup _ _ (wf_linked _ _ _ _ HW)) as Hnd.
    fold o in Hnd. rewrite Eo in Hnd. by apply NoDup_mid_notin in Hnd as [Hn _].
  - specialize (IH (o1 ++ [i])). rewrite rev_app_distr in IH. apply IH. by rewrite Eo, <- app_assoc.
Qed.

(** The loop over the order runs through the list. *)
Lemma extract_order_for o1 o2 e : o = o1 ++ o2 → ∀ n, length o2 < n →
  extract_order b n (match o2 with [] => upperBoundID | i :: _ => Idx i end) e = st_for o2 findCuts e.
Proof using HW.
  revert o1 e. induction o2 as [|i o2 IH]; intros o1 e Eo n Hn; (destruct n as [|n]; [cbn in Hn; lia|]).
  { cbn. done. }
  assert (i ∈ o) as Hi by (rewrite Eo; apply elem_of_app; right; by left).
  destruct (order_links i Hi) as (c & Hc & Hm & _).
  cbn [extract_order st_for]. rewrite decide_False by done.
  destruct (findCuts i e) as [[[] e1]|] eqn:Ef; [|by rewrite !Prelude.bind_None by done].
  rewrite !(bind_eval _ _ e () e1) by done.
  rewrite (bind_eval (st_read _) _ e1 c e1) by (unfold st_read; by rewrite Hc). rewrite Hm.
  pose proof (wf_linked _ _ _ _ HW) as HL. fold o in HL. rewrite Eo in HL.
  rewrite (bind_eval (st_read _) _ e1 (match o2 with [] => upperBoundID | i :: _ => Idx i end) e1).
  - apply (IH (o1 ++ [i])); [by rewrite Eo, <- app_assoc|cbn in Hn; lia].
  - unfold st_read. cbn [nextCell]. by rewrite (getNext_linked b o1 i o2 HL).
Qed.

Lemma order_bound : length o ≤ length (entries b).
Proof using HW.
  pose proof (wf_linked _ _ _ _ HW) as HL. fold o in HL.
  rewrite <- (length_seq (length (entries b)) 0). apply submseteq_length, NoDup_submseteq; [apply HL|].
  intros x Hx. apply elem_of_seq. pose proof (linked_range _ _ HL x Hx). lia.
Qed.

Lemma builder_extractor_spec k : o ≠ [] → 0 < k < Z.to_nat (2 ^ 15) → fits (builder_links b) o (builder_cuts b o k) = true →
  ∃ e, builder_extractor b k true = Some e ∧ k_max e = k ∧ extracted e (builder_cuts b o k).
Proof using HW.
  intros Hne Hk Hfit. pose proof (wf_linked _ _ _ _ HW) as HL. fold o in HL.
  set (e0 := mkExtractor (FromBuilder b) (replicate (length (entries b)) []) k).
  destruct (run_cuts (builder_links b) k Hk [] o e0 (replicate (length (entries b)) [])) as (e & Ee & _ & Hke & Hx).
  - done.
  - done.
  - split; cbn [e0 entriesCuts].
    + by rewrite !length_replicate.
    + intros i cs [-> _]%lookup_replicate. constructor.
    + intros i cs [-> Hi]%lookup_replicate. by apply lookup_replicate.
  - by apply (order_topo []).
  - intros i [Hi|Hi]; [by apply not_elem_of_nil in Hi|]. rewrite length_replicate. by apply HL.
  - intros i Hi. by apply not_elem_of_nil in Hi.
  - done.
  - exists e. split_all; [|done..]. unfold builder_extractor. rewrite (getSubnetBegin_linked _ _ HL). fold e0.
    replace (head_id o) with (match o with [] => upperBoundID | i :: _ => Idx i end) by by destruct o.
    rewrite (extract_order_for [] o e0 eq_refl) by (pose proof order_bound; lia). by rewrite Ee.
Qed.

End builder.

(** ** The theorems *)

(** C19 The extractor ends on every well-formed subnet none of whose cells has [2 ^ 64] combinations
    of cuts, and its cuts are those of the definition: for a cell without links the
    trivial cut, for the others the trivial cut and the unions of one cut per link with at most [k] leaves, in the
    order of their numbers, less those that strictly contain another.  Neither the flags,
    nor the signatures, nor the numbering in a mixed radix make a difference. *)
Theorem cuts_extracted s k : sn_wf s = true → 0 < k < Z.to_nat (2 ^ 15) →
  fits (Net.getLinks s) (sn_cells s) (sn_cuts s k) = true →
  (∃ e, extractor s k = Some e ∧ extracted e (sn_cuts s k)) ∧
  ∀ i, is_Some (Net.getCell s i) → ∃ ls, Net.getLinks s i = Some ls ∧
    sn_cuts s k !! i = Some (cell_cuts k i ((λ l, default [] (sn_cuts s k !! idx l)) <$> ls)).
Proof.
  intros Hw Hk Hfit. split.
  - destruct (extractor_spec s Hw k Hk Hfit) as (e & He & _ & Hx). by exists e.
  - intros i Hi. destruct (cuts_equation (Net.getLinks s) k (sn_cells s) (replicate (Net.size s) []) (sn_topo s Hw)
      (cells_size s Hw) i) as (ls & El & _ & E); [by apply elem_of_cells|]. by exists ls.
Qed.

(** C18 The extracted cuts of a cell are right: they have at most [k] leaves and cut the cell off from the
    sources, every set of at most [k] cells that cuts it off contains one of them, and
    none strictly contains another.  Two valuations of the subnet that agree on the
    leaves of a cut agree on its root, so that the root is a function of the leaves. *)
Theorem cuts_correct s k : sn_wf s = true → 0 < k < Z.to_nat (2 ^ 15) →
  fits (Net.getLinks s) (sn_cells s) (sn_cuts s k) = true →
  ∃ e, extractor s k = Some e ∧ ∀ i, is_Some (Net.getCell s i) → ∃ cs, getCuts e i = Some cs ∧
    Forall (cut_wf k i) cs ∧ cuts_of (Net.getLinks s) k i (leaves <$> cs) ∧
    ∀ c v w, c ∈ cs → sn_consistent v s → sn_consistent w s →
      (∀ j, j ∈ leaves c → value_at s v j = value_at s w j) → value_at s v i = value_at s w i.
Proof.
  intros Hw Hk Hfit. destruct (extractor_spec s Hw k Hk Hfit) as (e & He & Hke & Hx). exists e. split; [done|].
  intros i Hi. pose proof (proj2 (elem_of_cells s Hw i) Hi) as Hin.
  destruct (definition_cuts (Net.getLinks s) k (proj1 Hk) (sn_cells s) (replicate (Net.size s) []) (sn_topo s Hw)
    (cells_size s Hw) i Hin) as (cuts & Ec & Hof). fold (sn_cuts s k) in Ec.
  assert (is_Some (getCuts e i)) as [cs Hcs].
  { apply lookup_lt_is_Some_2. rewrite <- (ex_length _ _ Hx). by apply lookup_lt_Some in Ec. }
  exists cs. split; [done|]. pose proof (ex_wf _ _ Hx i cs Hcs) as Hwf. rewrite Hke in Hwf.
  rewrite (ex_sets _ _ Hx i cs Hcs) in Ec. injection Ec as <-. split_all; [done..|].
  intros c v w Hc Hv Hw' Hag. apply (covers_value s Hw v w (leaves c)); [done..| |done].
  apply (co_covers _ _ _ _ Hof). by apply list_elem_of_fmap_2.
Qed.

(** C20 Extraction from builders: it ends on every reachable builder that has a cell, with the cuts
    of the definition, which are right in the same sense.  But it fails for cells with more
    than three links, for the links are to be copied to a null pointer, and the loop over the cells
    of an empty builder starts past its end. *)
Theorem builder_cuts_right `{TypeStore} k : 0 < k < Z.to_nat (2 ^ 15) →
  (∀ b ins outs, reachable (b, ins, outs) → ∃ o, Linked b o ∧
    (o ≠ [] → fits (builder_links b) o (builder_cuts b o k) = true →
     ∃ e, builder_extractor b k true = Some e ∧ extracted e (builder_cuts b o k) ∧
       ∀ i, i ∈ o → ∃ cs, getCuts e i = Some cs ∧ cuts_of (builder_links b) k i (leaves <$> cs))) ∧
  (∀ b e i c, src e = FromBuilder b → getCell b i = Some c → InPlaceLinks < arity c → findCuts i e = None) ∧
  builder_extractor empty_builder k true = None.
Proof.
  intros Hk. split_all.
  - intros b ins outs Hr. destruct (reachable_wf _ _ _ Hr) as [segs HW]. exists (order_of segs outs).
    pose proof (wf_linked _ _ _ _ HW) as HL. split; [done|]. intros Hne Hfit.
    destruct (builder_extractor_spec b ins outs segs HW k Hne Hk Hfit) as (e & He & Hke & Hx).
    exists e. split_all; [done..|]. intros i Hi.
    destruct (definition_cuts (builder_links b) k (proj1 Hk) (order_of segs outs) (replicate (length (entries b)) [])
      (order_topo b ins outs segs HW [] _ eq_refl)) with (i := i) as (cuts & Ec & Hof); [|done|].
    { intros j Hj. rewrite length_replicate. by apply HL. }
    fold (builder_cuts b (order_of segs outs) k) in Ec. assert (is_Some (getCuts e i)) as [cs Hcs].
    { apply lookup_lt_is_Some_2. rewrite <- (ex_length _ _ Hx). by apply lookup_lt_Some in Ec. }
    exists cs. split; [done|]. rewrite (ex_sets _ _ Hx i cs Hcs) in Ec. by injection Ec as <-.
  - intros b e i c Hs Hc Ha. unfold findCuts. rewrite (bind_eval st_get _ e e e) by done.
    apply Prelude.bind_None. unfold st_read, ex_links, builder_links. rewrite Hs, Hc. cbn [mbind option_bind].
    by rewrite bool_decide_false by lia.
  - done.
Qed.

(** ** Witnesses *)

Definition cut_cell (t : CellSymbol) (ls : LinkList) : Entry :=
  match SubnetCell (GateID t) ls with Some c => ECell c | None => EUninit end.

(** The subnet of the test [Domination]. *)
Definition domination : Subnet := mkSubnet 2 1 6 1
  [cut_cell IN []; cut_cell IN []; cut_cell AND [LinkTo 0; LinkTo 1]; cut_cell BUF [LinkTo 2];
   cut_cell AND [LinkTo 2; LinkTo 3]; cut_cell OUT [LinkTo 4]].

Example domination_cuts : map (map elements) (sn_cuts domination 10) =
  [[[0]]; [[1]]; [[2]; [1; 0]]; [[3]; [2]; [1; 0]]; [[4]; [2]; [1; 0]]; [[5]; [4]; [2]; [1; 0]]].
Proof. vm_compute. reflexivity. Qed.

Lemma cuts_extracted_witness :
  (∃ e, extractor domination 10 = Some e ∧ extracted e (sn_cuts domination 10)) ∧
  ∀ i, is_Some (Net.getCell domination i) → ∃ ls, Net.getLinks domination i = Some ls ∧
    sn_cuts domination 10 !! i = Some (cell_cuts 10 i ((λ l, default [] (sn_cuts domination 10 !! idx l)) <$> ls)).
Proof. apply (cuts_extracted domination 10); [vm_compute; reflexivity|lia|vm_compute; reflexivity]. Defined.

Lemma cuts_correct_witness :
  ∃ e, extractor domination 10 = Some e ∧ ∀ i, is_Some (Net.getCell domination i) → ∃ cs, getCuts e i = Some cs ∧
    Forall (cut_wf 10 i) cs ∧ cuts_of (Net.getLinks domination) 10 i (leaves <$> cs) ∧
    ∀ c v w, c ∈ cs → sn_consistent v domination → sn_consistent w domination →
      (∀ j, j ∈ leaves c → value_at domination v j = value_at domination w j) →
      value_at domination v i = value_at domination w i.
Proof. apply (cuts_correct domination 10); [vm_compute; reflexivity|lia|vm_compute; reflexivity]. Defined.

Lemma builder_cuts_right_witness : 0 < 6 < Z.to_nat (2 ^ 15) ∧ @builder_extractor empty_builder 6 true = None.
Proof. split; [lia|]. apply (@builder_cuts_right (λ _, None) 6). lia. Defined.

(** *** An overflow *)

(** A cell with 32 links to the end of a chain of three buffers: it has [4 ^ 32] combinations,
    which the 64-bit product takes for none. *)
Definition chain32 : Subnet := mkSubnet 1 1 6 3
  ([cut_cell IN []; cut_cell BUF [LinkTo 0]; cut_cell BUF [LinkTo 1]; cut_cell BUF [LinkTo 2];
    cut_cell AND (replicate 32 (LinkTo 3))] ++ replicate 8 (LinkEntry (replicate 4 (LinkTo 3)) 0) ++ [cut_cell OUT [LinkTo 4]]).

(** The source of the chain cuts the cell off, but only the trivial cut is found. *)
Example combinations_overflow : sn_wf chain32 = true ∧
  covers (Net.getLinks chain32) {[0]} 4 ∧
  map (λ c, elements (leaves c)) <$> (extractor chain32 1 ≫= λ e, getCuts e 4) = Some [[4]].
Proof.
  split; [vm_compute; reflexivity|]. split; [|vm_compute; reflexivity].
  assert (covers (Net.getLinks chain32) {[0]} 0) as H0 by (apply covers_leaf; set_solver).
  assert (∀ n, covers (Net.getLinks chain32) {[0]} n → n < 3 → covers (Net.getLinks chain32) {[0]} (S n)) as Hs.
  { intros n Hn Hlt. apply (covers_node _ _ _ [LinkTo n]); [|done|].
    - destruct n as [|[|[|n]]]; [reflexivity..|lia].
    - by intros l ->%list_elem_of_singleton. }
  apply (covers_node _ _ _ (replicate 32 (LinkTo 3))); [vm_compute; reflexivity|done|].
  intros l [-> _]%elem_of_replicate. apply Hs; [|lia]. apply Hs; [|lia]. apply Hs; [done|lia].
Qed.
