(* ===== verification/Decomposer.v ===== *)
(** * Decomposition of nets ([gate/model/decomposer/net_decomposer.h, .cpp])

    A net is decomposed into subnets, the connected parts between its inputs, outputs,
    flip-flops and blocks, by a depth-first traversal from the outputs that
    merges the components it runs into; a list of subnets is composed into a net.
    The cells are in their storage ([Nets.State]), the subnets in a storage of theirs.

    The order in which the elements of an unordered set or map are visited is a parameter. *)

From S2P Require Import Prelude ObjectId CellType SubnetBase Builder Make BlockList Nets.
From stdpp Require Import gmap sorting strings.
Import Nets.

(** ** Definitions *)

(** The order of iteration over the elements of an unordered container. *)
Class HashOrder := {
  visit : ∀ {A}, list A → list A;
  visit_perm : ∀ A (l : list A), visit l ≡ₚ l;
}.

(** A link of a net: its source and its target. *)
Abbreviation NetLink := (Z * Z)%type.

(* gate/model/decomposer/net_decomposer.h:27-33 [NetDecomposer::SignalType] *)
Inductive SignalType := DATA | CLOCK | RESET | SET | ENABLE.

#[export] Instance SignalType_eq_dec : EqDecision SignalType.
Proof. solve_decision. Defined.

(* gate/model/decomposer/net_decomposer.h:41-45 [NetDecomposer::EntryDesc] *)
Record EntryDesc := mkEntryDesc {
  connectionDesc : SignalType;
  flipFlop : bool;
  flipFlopID : Z;
}.

(* gate/model/decomposer/net_decomposer.h:58-63 [NetDecomposer::CellMapping] *)
Record CellMapping := mkMapping {
  m_size : nat;
  m_inputs : gmap NetLink nat;
  m_inners : gmap Z LinkList;
  m_outputs : gmap NetLink nat;
}.

(* gate/model/decomposer/net_decomposer.h:66-75 [NetDecomposer::SubnetDesc] *)
Record SubnetDesc := mkSubnetDesc {
  sd_subnetID : Z;
  sd_mapping : CellMapping;
  sd_entries : gmap nat EntryDesc;
}.

(* gate/model/decomposer/net_decomposer.h:78-82 [NetDecomposer::Result] *)
Record Result := mkResult {
  r_inputs : list Z;
  r_outputs : list Z;
  r_subnets : list SubnetDesc;
}.

(** The cells and the subnets that have been allocated; the short identifier of a
    subnet is its place. *)
Record World := mkWorld {
  w_net : State;
  w_subnets : list Subnet;
}.

(** [Subnet::get(subnetID)]. *)
Definition subnet_get (w : World) (id : Z) : option Subnet :=
  if (id =? OBJ_NULL_ID)%Z then None else w_subnets w !! Z.to_nat (makeSID SubnetID id).

(** [Subnet::allocate(subnet)]. *)
Definition subnet_new (s : Subnet) : st World Z := λ w,
  Some (makeFID SubnetID (Z.of_nat (length (w_subnets w))), mkWorld (w_net w) (w_subnets w ++ [s])).

(** An operation on the cells. *)
Definition on_net {A} (m : st State A) : st World A := λ w,
  '(a, s) ← m (w_net w); Some (a, mkWorld s (w_subnets w)).

(* gate/model/decomposer/net_decomposer.cpp:628-635 [CellDescriptor] *)
Inductive CellDescriptor := DInput (link : NetLink) | DOutput (link : NetLink) | DInner (cellID : Z).

(** An input, inner or output entry; the descriptors are of inputs with null links at first. *)
Abbreviation InverseCellMapping := (list CellDescriptor).
Abbreviation InOutCellMapping := (gmap Z Z).

Section Decomposer.
Context `{TypeStore} `{HashOrder}.

(** *** Common *)

(* gate/model/decomposer/net_decomposer.cpp:48-59 [getCellInfo] *)
Definition getCellInfo (s : State) (cellID : Z) : option (Cell * CellType) :=
  c ← get s cellID; t ← cellType c; Some (c, t).

(* gate/model/decomposer/net_decomposer.cpp:61-64 [dffPinout] *)
Definition dffPinout (t : CellType) : bool :=
  is_base DFF_code t || is_base sDFF_code t || is_base aDFF_code t || is_base DFFrs_code t.

(* gate/model/decomposer/net_decomposer.cpp:66-69 [dlatchPinout] *)
Definition dlatchPinout (t : CellType) : bool :=
  is_base DLATCH_code t || is_base aDLATCH_code t || is_base DLATCHrs_code t.

(* gate/model/decomposer/net_decomposer.cpp:71-74 [latchRsPinout] *)
Definition latchRsPinout (t : CellType) : bool := is_base LATCHrs_code t.

(* gate/model/decomposer/net_decomposer.cpp:76-107 [getSignalType] *)
Definition getSignalType (t : CellType) (j : nat) : option SignalType :=
  if isSym IN t || isSym OUT t then Some DATA
  else if dffPinout t then [DATA; CLOCK; RESET; SET] !! j
  else if dlatchPinout t then [DATA; ENABLE; RESET; SET] !! j
  else if latchRsPinout t then [RESET; SET] !! j
  else Some DATA.

(** *** Links and mappings *)

(* gate/model/decomposer/net_decomposer.cpp:113-116 [makeInputLink] *)
Definition makeInputLink (link : NetLink) : NetLink :=
  (LinkEnd (getCellID link.1) (getPort link.1), LinkEnd OBJ_NULL_ID 0).

(* gate/model/decomposer/net_decomposer.cpp:118-121 [makeOutputLink] *)
Definition makeOutputLink (link : NetLink) : NetLink := link.

(* gate/model/decomposer/net_decomposer.cpp:131-145 [makeLink] *)
Definition makeLink (source : Z) (m : CellMapping) : option Link :=
  match m_inners m !! getCellID source with
  | Some ls => ls !! Z.to_nat (getPort source)
  | None =>
    j ← m_inputs m !! (LinkEnd (getCellID source) (getPort source), LinkEnd OBJ_NULL_ID 0);
    Some (SubnetLink j 0 false)
  end.

(* gate/model/decomposer/net_decomposer.cpp:147-155 [makeLinkList] *)
Definition makeLinkList (c : Cell) (m : CellMapping) : option LinkList :=
  ls ← Nets.getLinks c; mapM (λ l, makeLink l m) ls.

(* gate/model/decomposer/net_decomposer.cpp:157-164 [isInputLink] *)
Definition isInputLink (s : State) (link : NetLink) : option bool :=
  '(_, t) ← getCellInfo s (getCellID link.1);
  Some (isSym IN t || isSeqGate t || isHard t || isSoft t && negb (isSubnet t)).

(** The loop counts in 16 bits and does not end for more links. *)
(* gate/model/decomposer/net_decomposer.cpp:170-185 [fillLinks(CellID)] *)
Definition getCellLinks (s : State) (cellID : Z) (desc : option SignalType)
    : option (list (NetLink * SignalType)) :=
  '(c, t) ← getCellInfo s cellID;
  links ← Nets.getLinks c;
  if bool_decide (length links < Z.to_nat (2 ^ 16)) then
    mapM (λ '(j, l),
      sig ← (if isSeqGate t && bool_decide (desc = None) then getSignalType t j else Some (default DATA desc));
      Some ((l, LinkEnd cellID (Z.of_nat j)), sig)) (imap pair links)
  else None.

(** Soft blocks that have a subnet are left out. *)
(* gate/model/decomposer/net_decomposer.cpp:191-201 [fillLinks(List)] *)
Definition fillLinks (s : State) (cells : list Z) : option (list (NetLink * SignalType)) :=
  ls ← mapM (λ id,
    '(_, t) ← getCellInfo s id;
    if isSoft t && isSubnet t then Some [] else getCellLinks s id None) cells;
  Some (concat ls).

(* gate/model/decomposer/net_decomposer.cpp:212-223 [extractOutputs] *)
Definition extractOutputs (s : State) (n : Net) : option (list (NetLink * SignalType)) :=
  a ← fillLinks s (outputs (lists n));
  b ← fillLinks s (flipFlops (lists n));
  c ← fillLinks s (softBlocks (lists n));
  d ← fillLinks s (hardBlocks (lists n));
  Some (a ++ b ++ c ++ d).

(** *** Components *)

(* gate/model/decomposer/net_decomposer.cpp:226-262 [NetComponent] *)
Record NetComponent := mkComponent {
  c_inputs : gset NetLink;
  c_inputsDesc : gmap NetLink SignalType;
  c_inners : list Z;
  c_outputs : gset NetLink;
  c_outputsDesc : gmap NetLink SignalType;
}.

(* gate/model/decomposer/net_decomposer.cpp:246-252 [NetComponent::clear] *)
Definition noComponent : NetComponent := mkComponent ∅ ∅ [] ∅ ∅.

(* gate/model/decomposer/net_decomposer.cpp:241-243 [NetComponent::empty] *)
Definition component_empty (c : NetComponent) : bool := bool_decide (c_outputs c = ∅).

(** Entries that are there are not replaced by those of the other component. *)
(* gate/model/decomposer/net_decomposer.cpp:255-261 [NetComponent::merge] *)
Definition component_merge (c rhs : NetComponent) : NetComponent :=
  mkComponent (c_inputs c ∪ c_inputs rhs) (c_inputsDesc c ∪ c_inputsDesc rhs) (c_inners c ++ c_inners rhs)
    (c_outputs c ∪ c_outputs rhs) (c_outputsDesc c ∪ c_outputsDesc rhs).

(* gate/model/decomposer/net_decomposer.cpp:265-283 [NetTraversalEntry] *)
Record TraversalEntry := mkEntry {
  t_cellID : Z;
  t_links : list (NetLink * SignalType);
  t_index : nat;
}.

(* gate/model/decomposer/net_decomposer.cpp:269-269 [NetTraversalEntry::isOutput] *)
Definition isOutputEntry (e : TraversalEntry) : bool := (t_cellID e =? OBJ_NULL_ID)%Z.

(* gate/model/decomposer/net_decomposer.cpp:271-271 [NetTraversalEntry::isPassed] *)
Definition isPassed (e : TraversalEntry) : bool := length (t_links e) <=? t_index e.

(* gate/model/decomposer/net_decomposer.cpp:290-409 [NetTraversalContext] *)
Record Context := mkContext {
  components : list NetComponent;
  belongsTo : gmap Z nat;
  merging : gset nat;
  component : NetComponent;
  componentCells : gset Z;
  stack : list TraversalEntry;
}.

Definition with_component (f : NetComponent → NetComponent) (x : Context) : Context :=
  mkContext (components x) (belongsTo x) (merging x) (f (component x)) (componentCells x) (stack x).

Definition with_stack (f : list TraversalEntry → list TraversalEntry) (x : Context) : Context :=
  mkContext (components x) (belongsTo x) (merging x) (component x) (componentCells x) (f (stack x)).

(* gate/model/decomposer/net_decomposer.cpp:292-305 [NetTraversalContext::NetTraversalContext] *)
Definition newContext (outputs : list (NetLink * SignalType)) : Context :=
  mkContext [] ∅ ∅ noComponent ∅ (match outputs with [] => [] | _ => [mkEntry OBJ_NULL_ID outputs 0] end).

(* gate/model/decomposer/net_decomposer.cpp:315-327 [NetTraversalContext::push] *)
Definition push (s : State) (cellID : Z) (desc : SignalType) : st Context unit :=
  x ← st_get;
  match belongsTo x !! cellID with
  | Some i => st_put (mkContext (components x) (belongsTo x) (merging x ∪ {[i]}) (component x) (componentCells x) (stack x))
  | None =>
    if bool_decide (cellID ∈ componentCells x) then mret ()
    else
      links ← st_read (λ _, getCellLinks s cellID (Some desc));
      st_put (mkContext (components x) (belongsTo x) (merging x) (component x)
        (componentCells x ∪ {[cellID]}) (mkEntry cellID links 0 :: stack x))
  end.

(* gate/model/decomposer/net_decomposer.cpp:330-334 [NetTraversalContext::addInput] *)
Definition addInput (link : NetLink) (desc : SignalType) : st Context unit := st_modify (with_component (λ c,
  mkComponent (c_inputs c ∪ {[link]}) (<[link := desc]> (c_inputsDesc c)) (c_inners c) (c_outputs c) (c_outputsDesc c))).

(* gate/model/decomposer/net_decomposer.cpp:337-339 [NetTraversalContext::addInner] *)
Definition addInner (cellID : Z) : st Context unit := st_modify (with_component (λ c,
  mkComponent (c_inputs c) (c_inputsDesc c) (c_inners c ++ [cellID]) (c_outputs c) (c_outputsDesc c))).

(* gate/model/decomposer/net_decomposer.cpp:342-345 [NetTraversalContext::addOutput] *)
Definition addOutput (link : NetLink) (desc : SignalType) : st Context unit := st_modify (with_component (λ c,
  mkComponent (c_inputs c) (c_inputsDesc c) (c_inners c) (c_outputs c ∪ {[link]}) (<[link := desc]> (c_outputsDesc c)))).

Definition belong (cells : list Z) (index : nat) (b : gmap Z nat) : gmap Z nat :=
  foldl (λ b id, <[id := index]> b) b cells.

(* gate/model/decomposer/net_decomposer.cpp:353-364 [NetTraversalContext::mergeComponents] *)
Definition mergeNext (index i : nat) : st Context unit :=
  if bool_decide (i = index) then mret ()
  else
    x ← st_get;
    root ← st_read (λ _, components x !! index);
    next ← st_read (λ _, components x !! i);
    st_put (mkContext (<[i := noComponent]> (<[index := component_merge root next]> (components x)))
      (belong (c_inners next) index (belongsTo x)) (merging x) (component x) (componentCells x) (stack x)).

(** The elements of a set of indices in increasing order. *)
Definition increasing (l : gset nat) : list nat := merge_sort Nat.le (elements l).

(* gate/model/decomposer/net_decomposer.cpp:369-387 [NetTraversalContext::makeComponent] *)
Definition makeComponent : st Context unit :=
  x ← st_get;
  index ← (match increasing (merging x) with
    | [] =>
      st_put (mkContext (components x ++ [component x]) (belongsTo x) (merging x) (component x)
        (componentCells x) (stack x));;
      mret (length (components x))
    | index :: _ =>
      st_for (increasing (merging x)) (mergeNext index);;
      y ← st_get;
      root ← st_read (λ _, components y !! index);
      st_put (mkContext (<[index := component_merge root (component y)]> (components y)) (belongsTo y) (merging y)
        (component y) (componentCells y) (stack y));;
      mret index
    end);
  st_modify (λ y, mkContext (components y) (belong (c_inners (component y)) index (belongsTo y)) ∅ noComponent ∅ (stack y)).

(* gate/model/decomposer/net_decomposer.cpp:390-392 [NetTraversalContext::nextLink] *)
Definition nextLink : st Context unit := st_modify (with_stack (λ es,
  match es with e :: es => mkEntry (t_cellID e) (t_links e) (S (t_index e)) :: es | [] => [] end)).

(* gate/model/decomposer/net_decomposer.cpp:312-312 [NetTraversalContext::pop] *)
Definition pop : st Context unit := st_modify (with_stack (drop 1)).

(** A link of the top entry is followed. *)
(* gate/model/decomposer/net_decomposer.cpp:429-446 [extractComponents] *)
Definition followLink (s : State) (e : TraversalEntry) : st Context unit :=
  '(link, desc) ← st_read (λ _, t_links e !! t_index e);
  isInput ← st_read (λ _, isInputLink s link);
  (if isOutputEntry e then addOutput (makeOutputLink link) desc else mret ());;
  (if isInput : bool then addInput (makeInputLink link) desc else mret ());;
  nextLink;;
  (if isInput : bool then mret () else push s (getCellID link.1) desc).

(** The traversal; the fuel bounds the number of rounds. *)
(* gate/model/decomposer/net_decomposer.cpp:415-452 [extractComponents] *)
Fixpoint extract_loop (s : State) (fuel : nat) : st Context unit :=
  x ← st_get;
  match stack x, fuel with
  | [], _ => mret ()
  | _, 0 => st_fail
  | e :: _, S fuel =>
    (if isOutputEntry e && (0 <? t_index e) then makeComponent else mret ());;
    if isOutputEntry e && (0 <? t_index e) && isPassed e then pop
    else if negb (isPassed e) then followLink s e;; extract_loop s fuel
    else addInner (t_cellID e);; pop;; extract_loop s fuel
  end.

(** Every round passes a link or leaves a cell, and every cell is entered once. *)
Definition rounds (s : State) (outputs : list (NetLink * SignalType)) : nat :=
  length outputs + map_fold (λ _ c n, S (N.to_nat (fanin c)) + n) 1 (cells s).

(* gate/model/decomposer/net_decomposer.cpp:412-455 [extractComponents] *)
Definition extractComponents (s : State) (n : Net) : option (list NetComponent) :=
  outputs ← extractOutputs s n;
  '(_, x) ← extract_loop s (rounds s outputs) (newContext outputs);
  Some (components x).

(** *** From components to subnets *)

Definition add_input (i : NetLink) (idx : nat) (m : CellMapping) : CellMapping :=
  mkMapping (m_size m) (if m_inputs m !! i then m_inputs m else <[i := idx]> (m_inputs m)) (m_inners m) (m_outputs m).

Definition add_inner (id : Z) (ls : LinkList) (m : CellMapping) : CellMapping :=
  mkMapping (m_size m) (m_inputs m) (if m_inners m !! id then m_inners m else <[id := ls]> (m_inners m)) (m_outputs m).

Definition add_output (o : NetLink) (idx : nat) (m : CellMapping) : CellMapping :=
  mkMapping (m_size m) (m_inputs m) (m_inners m) (if m_outputs m !! o then m_outputs m else <[o := idx]> (m_outputs m)).

(** The descriptor of an entry: whether it is on the boundary to a flip-flop or a block. *)
(* gate/model/decomposer/net_decomposer.cpp:474-486 [makeSubnet] *)
Definition entry_desc (desc : SignalType) (t : CellType) (cellID : Z) : EntryDesc :=
  if combinational (props t) then mkEntryDesc desc false (2 ^ 64 - 1)
  else mkEntryDesc desc true (makeSID CellID cellID).

(* gate/model/decomposer/net_decomposer.cpp:467-487 [makeSubnet] *)
Definition subnet_input (s : State) (c : NetComponent) (input : NetLink) (p : CellMapping * gmap nat EntryDesc)
    : st SubnetBuilder (CellMapping * gmap nat EntryDesc) :=
  '(_, t) ← st_read (λ _, getCellInfo s (getCellID input.1));
  link ← Builder.addInput;
  desc ← st_read (λ _, c_inputsDesc c !! input);
  mret (add_input (makeInputLink input) (idx link) p.1,
        <[idx link := entry_desc desc t (getCellID input.1)]> p.2).

(** A soft block is inlined, buffers and inverters are links, and a cell with a negated
    output is the opposite cell with its link inverted. *)
(* gate/model/decomposer/net_decomposer.cpp:489-515 [makeSubnet] *)
Definition subnet_inner (sub : Z → option Subnet) (s : State) (inner : Z) (m : CellMapping)
    : st SubnetBuilder CellMapping :=
  '(c, t) ← st_read (λ _, getCellInfo s inner);
  ilinks ← st_read (λ _, makeLinkList c m);
  olinks ← (if isSoft t then
      sn ← st_read (λ _, CellType.getSubnet t ≫= sub);
      Make.addSubnet (λ _, 0%N) sn ilinks
    else
      let neg := negative (props t) in
      let sym := symbol t in
      olink ← (if bool_decide (sym = BUF ∨ sym = NOT) then
          st_read (λ _, l ← Nets.getLink c 0; makeLink l m)
        else
          sym ← st_read (λ _, if neg then getNegSymbol sym else Some sym);
          Builder.addGate sym ilinks);
      mret [if neg then link_not olink else olink]);
  mret (add_inner inner olinks m).

(* gate/model/decomposer/net_decomposer.cpp:518-540 [makeSubnet] *)
Definition subnet_output (s : State) (c : NetComponent) (output : NetLink) (p : CellMapping * gmap nat EntryDesc)
    : st SubnetBuilder (CellMapping * gmap nat EntryDesc) :=
  '(_, t) ← st_read (λ _, getCellInfo s (getCellID output.2));
  ilink ← st_read (λ _, makeLink output.1 p.1);
  olink ← Builder.addOutput ilink;
  desc ← st_read (λ _, c_outputsDesc c !! output);
  mret (add_output (makeOutputLink output) (idx olink) p.1,
        <[idx olink := entry_desc desc t (getCellID output.2)]> p.2).

Fixpoint st_fold {S A X} (f : X → A → st S A) (xs : list X) (a : A) : st S A :=
  match xs with
  | [] => mret a
  | x :: xs => a ← f x a; st_fold f xs a
  end.

(* gate/model/decomposer/net_decomposer.cpp:461-549 [makeSubnet] *)
Definition makeSubnet (sub : Z → option Subnet) (s : State) (c : NetComponent)
    : option (Subnet * CellMapping * gmap nat EntryDesc) :=
  '((m, d), b) ← (
    '(m, d) ← st_fold (subnet_input s c) (visit (elements (c_inputs c))) (mkMapping 0 ∅ ∅ ∅, ∅);
    m ← st_fold (subnet_inner sub s) (c_inners c) m;
    st_assert (negb (bool_decide (c_outputs c = ∅)));;
    st_fold (subnet_output s c) (visit (elements (c_outputs c))) (m, d)) empty_builder;
  sn ← Make.make false b;
  Some (sn, mkMapping (Net.size sn) (m_inputs m) (m_inners m) (m_outputs m), d).

(** Empty components are left out. *)
(* gate/model/decomposer/net_decomposer.cpp:564-577 [NetDecomposer::decompose] *)
Definition decompose_component (c : NetComponent) (r : list SubnetDesc) : st World (list SubnetDesc) :=
  if component_empty c then mret r
  else
    w ← st_get;
    '(sn, m, d) ← st_read (λ _, makeSubnet (subnet_get w) (w_net w) c);
    id ← subnet_new sn;
    mret (r ++ [mkSubnetDesc id m d]).

(* gate/model/decomposer/net_decomposer.cpp:551-580 [NetDecomposer::decompose(NetID)] *)
Definition decompose (n : Net) : st World Result :=
  w ← st_get;
  cs ← st_read (λ _, extractComponents (w_net w) n);
  ds ← st_fold decompose_component cs [];
  mret (mkResult (inputs (lists n)) (outputs (lists n)) ds).

(** *** A net of a single subnet *)

(* gate/model/decomposer/net_decomposer.cpp:592-603 [NetDecomposer::decompose(SubnetID)] *)
Definition decompose_input (i : nat) (p : list Z * CellMapping * gmap nat EntryDesc)
    : st State (list Z * CellMapping * gmap nat EntryDesc) :=
  let '(ids, m, d) := p in
  cellID ← makeCell (GateID IN) [];
  '(_, t) ← st_read (λ s, getCellInfo s cellID);
  sig ← st_read (λ _, getSignalType t 0);
  mret (ids ++ [cellID], add_input (LinkEnd cellID 0, LinkEnd OBJ_NULL_ID 0) i m,
        <[i := mkEntryDesc sig false (2 ^ 64 - 1)]> d).

(* gate/model/decomposer/net_decomposer.cpp:605-616 [NetDecomposer::decompose(SubnetID)] *)
Definition decompose_output (sn : Subnet) (i : nat) (p : list Z * CellMapping * gmap nat EntryDesc)
    : st State (list Z * CellMapping * gmap nat EntryDesc) :=
  let '(ids, m, d) := p in
  cellID ← makeCell (GateID OUT) [LinkEnd_null];
  '(_, t) ← st_read (λ s, getCellInfo s cellID);
  sig ← st_read (λ _, getSignalType t 0);
  mret (ids ++ [cellID], add_output (LinkEnd OBJ_NULL_ID 0, LinkEnd cellID 0) (Net.size sn - sn_nOut sn + i) m,
        <[Net.getOutIdx sn i := mkEntryDesc sig false (2 ^ 64 - 1)]> d).

(* gate/model/decomposer/net_decomposer.cpp:582-621 [NetDecomposer::decompose(SubnetID)] *)
Definition decompose_subnet (subnetID : Z) : st World Result :=
  w ← st_get;
  sn ← st_read (λ _, subnet_get w subnetID);
  '(ins, m, d) ← on_net (st_fold decompose_input (seq 0 (sn_nIn sn)) ([], mkMapping (Net.size sn) ∅ ∅ ∅, ∅));
  '(outs, m, d) ← on_net (st_fold (decompose_output sn) (seq 0 (sn_nOut sn)) ([], m, d));
  mret (mkResult ins outs [mkSubnetDesc subnetID m d]).

(** *** From subnets to nets *)

Definition noDescriptor : CellDescriptor := DInput (LinkEnd_null, LinkEnd_null).

(* gate/model/decomposer/net_decomposer.cpp:648-652 [makeLinkEnd] *)
Definition source_of (link : Link) (inverse : InverseCellMapping) : option Z :=
  d ← inverse !! idx link;
  Some (match d with
    | DInner cellID => LinkEnd cellID (Z.of_nat (out link))
    | DInput l | DOutput l => l.1
    end).

(* gate/model/decomposer/net_decomposer.cpp:642-660 [makeLinkEnd] *)
Definition makeLinkEnd (link : Link) (inverse : InverseCellMapping) : st State Z :=
  source ← st_read (λ _, source_of link inverse);
  if negb (inv link) then mret source
  else
    cellID ← makeCell (GateID NOT) [source];
    addCell cellID;;
    mret (LinkEnd cellID 0).

(* gate/model/decomposer/net_decomposer.cpp:676-694 [makeCell] *)
Definition makeBoundary (oldCellID : Z) (inout : InOutCellMapping) : st State (Z * InOutCellMapping) :=
  match inout !! oldCellID with
  | Some cellID => mret (cellID, inout)
  | None =>
    old ← st_read (λ s, get s oldCellID);
    cellID ← makeCell (typeID old) (replicate (N.to_nat (fanin old)) LinkEnd_null);
    addCell cellID;;
    mret (cellID, <[oldCellID := cellID]> inout)
  end.

(* gate/model/decomposer/net_decomposer.cpp:697-709 [makeCell] *)
Definition makeInner (sn : Subnet) (i : nat) (inverse : InverseCellMapping) : st State Z :=
  c ← st_read (λ _, Net.getCell sn i);
  ls ← st_read (λ _, Net.getLinks sn i);
  links ← st_map (λ l, makeLinkEnd l inverse) ls;
  cellID ← makeCell (type c) links;
  addCell cellID;;
  mret cellID.

(* gate/model/decomposer/net_decomposer.cpp:719-730 [makeCellsForInputs] *)
Definition inverse_input (sn : Subnet) (p : NetLink * nat) (r : InverseCellMapping * InOutCellMapping)
    : st State (InverseCellMapping * InOutCellMapping) :=
  st_assert (p.2 <? sn_nIn sn);;
  '(cellID, inout) ← makeBoundary (getCellID p.1.1) r.2;
  st_assert (p.2 <? length r.1);;
  mret (<[p.2 := DInput (LinkEnd cellID (getPort p.1.1), LinkEnd OBJ_NULL_ID 0)]> r.1, inout).

(* gate/model/decomposer/net_decomposer.cpp:712-731 [makeCellsForInputs] *)
Definition makeCellsForInputs (sn : Subnet) (m : CellMapping) (r : InverseCellMapping * InOutCellMapping)
    : st State (InverseCellMapping * InOutCellMapping) :=
  st_assert (sn_nIn sn =? size (m_inputs m));;
  st_fold (inverse_input sn) (visit (map_to_list (m_inputs m))) r.

(** The loop over the inner cells; [n] entries are left. *)
(* gate/model/decomposer/net_decomposer.cpp:743-749 [makeCellsForInners] *)
Fixpoint inners_loop (sn : Subnet) (n i : nat) (inverse : InverseCellMapping) : st State InverseCellMapping :=
  if Net.size sn - sn_nOut sn <=? i then mret inverse
  else
    match n with
    | 0 => st_fail
    | S n =>
      c ← st_read (λ _, Net.getCell sn i);
      cellID ← makeInner sn i inverse;
      inners_loop sn n (S (i + more c)) (<[i := DInner cellID]> inverse)
    end.

(* gate/model/decomposer/net_decomposer.cpp:734-750 [makeCellsForInners] *)
Definition makeCellsForInners (sn : Subnet) (inverse : InverseCellMapping) : st State InverseCellMapping :=
  inners_loop sn (Net.size sn) (sn_nIn sn) inverse.

(* gate/model/decomposer/net_decomposer.cpp:760-781 [makeCellsForOutputs] *)
Definition inverse_output (sn : Subnet) (m : CellMapping) (p : NetLink * nat) (r : InverseCellMapping * InOutCellMapping)
    : st State (InverseCellMapping * InOutCellMapping) :=
  st_assert (m_size m <=? p.2 + Net.size sn);;
  let newIdx := p.2 + Net.size sn - m_size m in
  st_assert (Net.size sn <=? newIdx + sn_nOut sn);;
  link ← st_read (λ _, Net.getLink sn newIdx 0);
  source ← makeLinkEnd link r.1;
  '(cellID, inout) ← makeBoundary (getCellID p.1.2) r.2;
  connect cellID (Z.to_nat (getPort p.1.2)) source;;
  st_assert (newIdx <? length r.1);;
  mret (<[newIdx := DOutput (source, LinkEnd cellID (getPort p.1.2))]> r.1, inout).

(* gate/model/decomposer/net_decomposer.cpp:753-782 [makeCellsForOutputs] *)
Definition makeCellsForOutputs (sn : Subnet) (m : CellMapping) (r : InverseCellMapping * InOutCellMapping)
    : st State (InverseCellMapping * InOutCellMapping) :=
  st_assert (sn_nOut sn =? size (m_outputs m));;
  st_fold (inverse_output sn m) (visit (map_to_list (m_outputs m))) r.

(* gate/model/decomposer/net_decomposer.cpp:785-795 [addSubnet] *)
Definition compose_subnet (sub : Z → option Subnet) (d : SubnetDesc) (inout : InOutCellMapping) : st State InOutCellMapping :=
  sn ← st_read (λ _, sub (sd_subnetID d));
  '(inverse, inout) ← makeCellsForInputs sn (sd_mapping d) (replicate (Net.size sn) noDescriptor, inout);
  inverse ← makeCellsForInners sn inverse;
  '(_, inout) ← makeCellsForOutputs sn (sd_mapping d) (inverse, inout);
  mret inout.

(** The composition runs with a builder of its own. *)
(* gate/model/decomposer/net_decomposer.cpp:797-819 [NetDecomposer::compose] *)
Definition compose_cells (sub : Z → option Subnet) (r : Result) : st State unit :=
  inout ← st_fold (λ id inout, p ← makeBoundary id inout; mret p.2) (r_inputs r) ∅;
  inout ← st_fold (λ id inout, p ← makeBoundary id inout; mret p.2) (r_outputs r) inout;
  _ ← st_fold (compose_subnet sub) (r_subnets r) inout;
  mret ().

(* gate/model/decomposer/net_decomposer.cpp:797-819 [NetDecomposer::compose] *)
Definition compose (r : Result) : st World Net := λ w,
  let s := w_net w in
  '(_, s') ← compose_cells (subnet_get w) r (mkState (cells s) (cellSID s) empty_net);
  n ← Nets.make s';
  Some (n, mkWorld (mkState (cells s') (cellSID s') (builder s)) (w_subnets w)).

End Decomposer.
