(* ===== verification/ComposeSpec.v ===== *)
(** * The net of a subnet

    The valuations of a net, and the composition of a subnet cell by cell: every
    entry of the subnet has a link end in the net whose value is that of the entry. *)

From S2P Require Import Prelude ObjectId CellType SubnetBase Builder BuilderEval MakeSpec SubnetEval MiterSpec BlockList Nets NetSpec Decomposer.
From stdpp Require Import gmap sorting strings.
Import Nets.

(** ** Definitions *)

(** A valuation of a net: the values of the ports of the cells. *)
Abbreviation nval := (Z → Z → bool).

Definition link_val (nv : nval) (w : Z) : bool := nv (NetSpec.source w) (getPort w).

(** The cells with numbers from [b] on have the values of their functions. *)
Definition consistent_from (b : Z) (cs : gmap Z Cell) (nv : nval) : Prop :=
  ∀ k c y, (b ≤ k)%Z → cs !! k = Some c → cell_fun (typeID c) (link_val nv <$> cell_links c) = Some y → nv k 0%Z = y.

(** The cells of a net have the values of their functions. *)
Definition net_consistent (s : State) (n : Net) (nv : nval) : Prop :=
  ∀ id c y, id ∈ all_cells (lists n) → get s id = Some c →
    cell_fun (typeID c) (link_val nv <$> cell_links c) = Some y → nv (makeSID CellID id) 0%Z = y.

Definition net_in (nv : nval) (n : Net) : list bool := (λ id, nv (makeSID CellID id) 0%Z) <$> inputs (lists n).

Definition net_out (s : State) (nv : nval) (n : Net) : option (list bool) :=
  mapM (λ id, c ← get s id; l ← Nets.getLink c 0; Some (link_val nv l)) (outputs (lists n)).

(** The net [n] has [i] inputs, and its outputs are the function [f] of them. *)
Definition net_implements (s : State) (n : Net) (i : nat) (f : list bool → list bool) : Prop :=
  length (inputs (lists n)) = i ∧
  (∀ nv, net_consistent s n nv → net_out s nv n = Some (f (net_in nv n))) ∧
  ∀ xs, length xs = i → ∃ nv, net_consistent s n nv ∧ net_in nv n = xs.

(** ** New cells *)

Section Compose.
Context `{TypeStore}.
Context (b : Z).

(** The cells made since the number [b] are those of the builder; [u] bounds their number
    and the fanouts. *)
Record built (s : State) (u : nat) : Prop := {
  bt_sid : (0 ≤ b ≤ cellSID s ∧ cellSID s ≤ b + Z.of_nat u)%Z;
  bt_below : ∀ k c, cells s !! k = Some c → (0 ≤ k < cellSID s)%Z;
  bt_fan : ∀ k c, cells s !! k = Some c → (fanout c ≤ MaxFanout)%N;
  bt_new : ∀ k, (b ≤ k < cellSID s)%Z → is_Some (cells s !! k);
  bt_cell : ∀ k c, (b ≤ k)%Z → cells s !! k = Some c → cell_ok (cells s) c ∧ (fanout c ≤ N.of_nat u)%N;
  bt_links : ∀ k c w, (b ≤ k)%Z → cells s !! k = Some c → typeID c ≠ GateID OUT → w ∈ cell_links c →
    isValid w = true ∧ (b ≤ NetSpec.source w < k)%Z;
  bt_lists : ∀ id, id ∈ all_cells (builder s) ↔ ∃ k, (b ≤ k < cellSID s)%Z ∧ id = makeFID CellID k;
  bt_length : (Z.of_nat (length (all_cells (builder s))) ≤ cellSID s - b)%Z;
}.

(** There are numbers for [u] cells. *)
Definition room (u : nat) : Prop := (b + Z.of_nat u < 2 ^ 32)%Z.

Lemma built_mono s u u' : built s u → u ≤ u' → built s u'.
Proof.
  intros [Hs Hb Hf Hn Hc Hl Hli Hle] Hu. split; [lia|done|done|done| |done|done|done].
  intros k c Hk Hkc. destruct (Hc k c Hk Hkc). split; [done|lia].
Qed.

Lemma room_mono u u' : room u' → u ≤ u' → room u.
Proof. unfold room. lia. Qed.

Lemma room_fan u : (0 ≤ b)%Z → room u → (N.of_nat u ≤ MaxFanout)%N.
Proof. unfold room, MaxFanout. change (2 ^ 32)%Z with 4294967296%Z. change (2 ^ 32 - 1)%N with 4294967295%N. lia. Qed.

Lemma number_range s u k : built s u → room u → (0 ≤ k < cellSID s)%Z → (0 ≤ k < NullSID CellID)%Z.
Proof. intros Hb Hr Hk. pose proof (bt_sid _ _ Hb). apply (sid_range k (cellSID s)); unfold room in Hr; lia. Qed.

(** The cells that were there stay, up to their fanouts. *)
Definition keeps (s s' : State) : Prop :=
  ∀ k c, cells s !! k = Some c → ∃ c', cells s' !! k = Some c' ∧ typeID c' = typeID c ∧ fanin c' = fanin c ∧ cell_links c' = cell_links c.

#[global] Instance keeps_preorder : PreOrder keeps.
Proof.
  split; [intros s k c Hc; by exists c|]. intros s1 s2 s3 H1 H2 k c Hc.
  destruct (H1 k c Hc) as (c2 & Hc2 & E1 & E2 & E3). destruct (H2 k c2 Hc2) as (c3 & Hc3 & E4 & E5 & E6).
  exists c3. split_all; [done|congruence..].
Qed.

Lemma keeps_consistent s s' nv : keeps s s' → consistent_from b (cells s') nv → consistent_from b (cells s) nv.
Proof.
  intros Hk Hc k c y Hb Hl Hf. destruct (Hk k c Hl) as (c' & Hc' & Et & _ & El).
  apply (Hc k c' y Hb Hc'). by rewrite Et, El.
Qed.

Lemma elem_of_push k id (bu : NetBuilder) x : x ∈ all_cells (push k id bu) ↔ x = id ∨ x ∈ all_cells bu.
Proof.
  unfold all_cells, push. cbn [inputs outputs combCells flipFlops hardBlocks softBlocks].
  destruct k; repeat (case_bool_decide; try done); rewrite !elem_of_app, ?elem_of_cons, ?list_elem_of_singleton, ?elem_of_nil; tauto.
Qed.

Lemma length_push k id (bu : NetBuilder) : length (all_cells (push k id bu)) = S (length (all_cells bu)).
Proof.
  unfold all_cells, push. cbn [inputs outputs combCells flipFlops hardBlocks softBlocks].
  destruct k; repeat (case_bool_decide; try done); rewrite !length_app; cbn; lia.
Qed.

(** A link to a new cell, if it is valid. *)
Definition new_link (s : State) (w : Z) : Prop :=
  good_link w ∧ (isValid w = true → (b ≤ NetSpec.source w < cellSID s)%Z).

Lemma new_links_old s links k : Forall (new_link s) links → (k < b)%Z → count k links = 0.
Proof.
  intros Hl Hk. apply count_none. eapply Forall_impl; [exact Hl|]. intros w [_ Hw]. unfold points.
  destruct (isValid w); [|done]. cbn. apply Z.eqb_neq. specialize (Hw eq_refl). lia.
Qed.

(** The state in which a new cell is stored. *)
Definition stored (s : State) (c : Cell) : State := mkState (<[cellSID s := c]> (cells s)) (cellSID s + 1) (builder s).

Lemma make_new s u ty links : built s u → room (u + 1) → ty ≠ NullTypeID → length links ≤ MaxArity →
  ∃ c, makeCell ty links s = Some (makeFID CellID (cellSID s), stored s c) ∧
    fanout c = 0%N ∧ cell_links c = links ∧ typeID c = ty ∧ (links ≠ [] → array c = Some links) ∧ fanin c = N.of_nat (length links).
Proof.
  intros Hb Hr Hty Hlen. destruct (bt_sid _ _ Hb) as [? ?]. unfold room in Hr. unfold MaxArity in Hlen.
  destruct (new_cell ty links ltac:(lia)) as (c & Hc & Hf0 & Hcl & Hcty & Harr & Hfi). exists c. split; [|done].
  unfold makeCell. rewrite bool_decide_eq_false_2 by done. rewrite (bind_eval _ _ _ () s) by done.
  rewrite (bind_eval (st_read _) _ s c s) by (unfold st_read; by rewrite Hc).
  rewrite (bind_eval st_get _ s s s) by done. rewrite Z.mod_small by lia. fold (stored s c).
  rewrite (bind_eval (st_put _) _ s () (stored s c)) by done.
  rewrite (bind_eval (st_assert _) _ (stored s c) () (stored s c)); [done|].
  unfold st_assert. by rewrite fid_not_null by (apply (sid_range _ (cellSID s + 1)); lia).
Qed.

Lemma stored_cell s c j d : cells (stored s c) !! j = Some d → j = cellSID s ∧ d = c ∨ j ≠ cellSID s ∧ cells s !! j = Some d.
Proof. cbn [stored cells]. intros [[<- <-]|[H1 H2]]%lookup_insert_Some; [by left|right]. by split. Qed.

Lemma stored_dom s c j : is_Some (cells s !! j) → is_Some (cells (stored s c) !! j).
Proof.
  intros Hj. cbn [stored cells]. destruct (Z.eq_dec (cellSID s) j) as [<-|Hn]; [by rewrite lookup_insert_eq|by rewrite lookup_insert_ne].
Qed.

(** The state in which a stored cell is in the list of its class. *)
Definition listed (s : State) (c : Cell) (t : CellType) : State :=
  mkState (cells (stored s c)) (cellSID s + 1) (Nets.push (classify t) (makeFID CellID (cellSID s)) (builder s)).

Lemma listed_built s u c t links s' : built s u → cell_ok (cells (stored s c)) c → fanout c = 0%N → cell_links c = links →
  Forall (new_link s) links → (typeID c ≠ GateID OUT → Forall (λ w, isValid w = true) links) → room (u + S (length links)) →
  bumped (listed s c t) s' (λ k, count k links) → built s' (u + S (length links)).
Proof.
  intros Hb Hok Hf0 Hcl Hl Hv Hr Hbp. pose proof (bt_sid _ _ Hb) as [Hb0 Hb1]. set (k := cellSID s) in *.
  assert (∀ j d, cells s' !! j = Some d → ∃ e, cells (stored s c) !! j = Some e ∧ d = with_fanout (fanout e + N.of_nat (count j links)) e) as Hback.
  { intros j d Hd. by apply (bumped_cell (listed s c t) s' _ Hbp) in Hd. }
  assert (∀ j, is_Some (cells (stored s c) !! j) → is_Some (cells s' !! j)) as Hdom by (intros j; exact (bumped_dom _ _ _ Hbp j)).
  assert (∀ j, count j links ≤ length links) as Hcount by (intros j; apply length_filter).
  assert (cellSID s' = (k + 1)%Z) as Es by apply (bp_sid _ _ _ Hbp).
  pose proof (room_fan _ ltac:(lia) Hr) as Hrf. split.
  - rewrite Es. lia.
  - intros j d (e & He & ->)%Hback. rewrite Es. apply stored_cell in He as [[-> _]|[_ He]]; [fold k; lia|].
    apply (bt_below _ _ Hb) in He. fold k in He. lia.
  - intros j d (e & He & ->)%Hback. cbn [with_fanout fanout]. specialize (Hcount j).
    apply stored_cell in He as [[-> ->]|[_ He]]; [rewrite Hf0; lia|]. destruct (decide (b ≤ j)%Z) as [Hbj|Hbj].
    + destruct (bt_cell _ _ Hb j e Hbj He). lia.
    + rewrite (new_links_old s) by (done || lia). apply (bt_fan _ _ Hb) in He. lia.
  - intros j. rewrite Es. intros Hj. apply Hdom. destruct (Z.eq_dec k j) as [<-|Hjk].
    + cbn [stored cells]. by rewrite lookup_insert_eq.
    + apply stored_dom, (bt_new _ _ Hb). fold k. lia.
  - intros j d Hbj (e & He & ->)%Hback. specialize (Hcount j). apply stored_cell in He as [[-> ->]|[_ He]].
    + split; [by apply (cell_ok_fanout (cells (stored s c)))|]. cbn [with_fanout fanout]. rewrite Hf0. lia.
    + destruct (bt_cell _ _ Hb j e Hbj He) as [Hoke Hfe]. split; [|cbn [with_fanout fanout]; lia].
      apply (cell_ok_fanout (cells s)); [intros i Hi; by apply Hdom, stored_dom|done].
  - intros j d w Hbj (e & He & ->)%Hback Hty Hw. change (cell_links (with_fanout _ e)) with (cell_links e) in Hw.
    apply stored_cell in He as [[-> ->]|[_ He]]; [|by apply (bt_links _ _ Hb j e)].
    rewrite Hcl in Hw. rewrite Forall_forall in Hl, Hv. specialize (Hv Hty w Hw). split; [done|]. by apply (Hl w Hw).
  - intros id. rewrite (bp_builder _ _ _ Hbp), Es. cbn [listed builder]. rewrite elem_of_push, (bt_lists _ _ Hb). fold k. split.
    + intros [->|(j & Hj & ->)]; [exists k; split; [lia|done]|exists j; split; [lia|done]].
    + intros (j & Hj & ->). destruct (decide (j = k)) as [->|Hjk]; [by left|right; exists j; split; [lia|done]].
  - rewrite (bp_builder _ _ _ Hbp), Es. cbn [listed builder]. rewrite length_push. pose proof (bt_length _ _ Hb) as Hlen. fold k in Hlen. lia.
Qed.

(** Adding a stored cell. *)
Lemma add_stored s u c t : built s u → room (u + S (length (cell_links c))) → cell_ok (cells (stored s c)) c → fanout c = 0%N →
  cellType c = Some t → Forall (new_link s) (cell_links c) →
  ∃ s', addCell (makeFID CellID (cellSID s)) (stored s c) = Some ((), s') ∧ bumped (listed s c t) s' (λ k, count k (cell_links c)).
Proof.
  intros Hb Hr Hok Hf0 Ht Hl. pose proof (bt_sid _ _ Hb) as [Hb0 Hb1]. set (k := cellSID s) in *.
  assert (0 ≤ k < NullSID CellID)%Z as Hrg by (unfold room in Hr; apply (sid_range k (k + 1)); lia).
  assert (∀ j, count j (cell_links c) ≤ length (cell_links c)) as Hcount by (intros j; apply length_filter).
  destruct (count_links (cell_links c) (listed s c t)) as (s' & E & Hbp); [apply Hok| |].
  { intros j d Hj%stored_cell. specialize (Hcount j). pose proof (room_fan _ ltac:(lia) Hr).
    destruct Hj as [[-> ->]|[_ Hj]]; [rewrite Hf0; lia|]. destruct (decide (b ≤ j)%Z) as [Hbj|Hbj].
    - destruct (bt_cell _ _ Hb j d Hbj Hj). lia.
    - rewrite (new_links_old s) by (done || lia). apply (bt_fan _ _ Hb) in Hj. lia. }
  exists s'. split; [|done]. unfold addCell. fold k. rewrite fid_not_null by done.
  rewrite (bind_eval (st_assert _) _ _ () (stored s c)) by done.
  assert (get (stored s c) (makeFID CellID k) = Some c) as Hget.
  { apply (get_fid _ k c Hrg). cbn [stored cells]. fold k. by rewrite lookup_insert_eq. }
  rewrite (bind_eval (st_read _) _ _ c (stored s c)) by (unfold st_read; by rewrite Hget).
  rewrite (bind_eval (st_read _) _ _ t (stored s c)) by (unfold st_read; by rewrite Ht).
  rewrite (bind_eval (st_update _) _ _ () (listed s c t)) by done.
  rewrite (bind_eval (st_read _) _ _ (cell_links c) (listed s c t)) by (unfold st_read; by rewrite (getLinks_ok _ _ Hok)). exact E.
Qed.

(** Making a cell and adding it. *)
Lemma add_new s u ty links t : built s u → getType ty = Some t → Forall (new_link s) links →
  (ty ≠ GateID OUT → Forall (λ w, isValid w = true) links) → length links ≤ MaxArity → room (u + S (length links)) →
  ∃ s1 s' c, makeCell ty links s = Some (makeFID CellID (cellSID s), s1) ∧
    addCell (makeFID CellID (cellSID s)) s1 = Some ((), s') ∧
    built s' (u + S (length links)) ∧ keeps s s' ∧ cellSID s' = (cellSID s + 1)%Z ∧
    cells s' !! cellSID s = Some c ∧ typeID c = ty ∧ cell_links c = links ∧
    builder s' = Nets.push (classify t) (makeFID CellID (cellSID s)) (builder s).
Proof.
  intros Hb Ht Hl Hv Hlen Hr. assert (ty ≠ NullTypeID) as Hne by (intros ->; done).
  destruct (make_new s u ty links Hb) as (c & Emake & Hf0 & Hcl & Hty & Harr & Hfi); [apply (room_mono _ _ Hr); lia|done..|].
  assert (cell_ok (cells (stored s c)) c) as Hok.
  { split; rewrite ?Hcl; [done|by intros; apply Harr|unfold MaxArity in Hlen; lia| |unfold cellType; by rewrite Hty, Ht].
    eapply Forall_impl; [exact Hl|]. intros w [Hg Hw]. split; [done|]. intros Hvw. apply stored_dom, (bt_new _ _ Hb). by apply Hw. }
  destruct (add_stored s u c t) as (s' & Eadd & Hbp); [done|by rewrite Hcl|done|done|unfold cellType; by rewrite Hty|by rewrite Hcl|].
  rewrite Hcl in Hbp. exists (stored s c), s', (with_fanout (fanout c + N.of_nat (count (cellSID s) links)) c). split_all.
  - exact Emake.
  - exact Eadd.
  - eapply listed_built; try done. by rewrite Hty.
  - intros j d Hd. assert (j ≠ cellSID s) as Hj by (intros ->; apply (bt_below _ _ Hb) in Hd; lia).
    exists (with_fanout (fanout d + N.of_nat (count j links)) d). split; [|done]. rewrite (bp_cells _ _ _ Hbp).
    cbn [listed stored cells]. by rewrite lookup_insert_ne, Hd by done.
  - apply (bp_sid _ _ _ Hbp).
  - rewrite (bp_cells _ _ _ Hbp). cbn [listed stored cells]. by rewrite lookup_insert_eq.
  - done.
  - done.
  - apply (bp_builder _ _ _ Hbp).
Qed.

(** ** Link ends *)

(** A link end that leads to a new cell. *)
Definition good_end (s : State) (w : Z) : Prop :=
  good_link w ∧ isValid w = true ∧ (b ≤ NetSpec.source w < cellSID s)%Z.

(** What stays: the old cells, and the inputs and outputs of the builder. *)
Record grows (s s' : State) : Prop := {
  gr_keeps : keeps s s';
  gr_sid : (cellSID s ≤ cellSID s')%Z;
  gr_inputs : inputs (builder s') = inputs (builder s);
  gr_outputs : outputs (builder s') = outputs (builder s);
}.

#[global] Instance grows_preorder : PreOrder grows.
Proof.
  split; [intros s; split; done || lia|]. intros s1 s2 s3 [K1 L1 I1 O1] [K2 L2 I2 O2].
  split; [by etransitivity|lia|congruence..].
Qed.

Lemma good_end_sid s s' w : (cellSID s ≤ cellSID s')%Z → good_end s w → good_end s' w.
Proof. intros Hs (H1 & H2 & H3). unfold good_end. split_all; [done|done|lia|lia]. Qed.

Lemma end_facts k port : (0 ≤ k < NullSID CellID)%Z → (0 ≤ port ≤ PortMask)%Z →
  let w := LinkEnd (makeFID CellID k) port in
  good_link w ∧ isValid w = true ∧ NetSpec.source w = k ∧ getPort w = port ∧ getCellID w = makeFID CellID k.
Proof.
  intros Hk Hp w. destruct (link_end_roundtrip k port ltac:(lia) Hp) as (Hc & Hpo & Hv & _). fold w in Hc, Hpo, Hv.
  split_all; try done.
  - right. by exists k, port.
  - unfold NetSpec.source. rewrite Hc. by apply sid_of.
Qed.

Lemma end_zero k : (0 ≤ k < NullSID CellID)%Z → let w := LinkEnd (makeFID CellID k) 0 in
  good_link w ∧ isValid w = true ∧ NetSpec.source w = k ∧ getPort w = 0%Z ∧ getCellID w = makeFID CellID k.
Proof. intros Hk. apply end_facts; [done|]. vm_compute. split; discriminate. Qed.

Lemma end_new s u k : built s u → room u → (b ≤ k < cellSID s)%Z → good_end s (LinkEnd (makeFID CellID k) 0).
Proof.
  intros Hb Hr Hk. pose proof (bt_sid _ _ Hb). destruct (end_zero k) as (H1 & H2 & H3 & _); [apply (number_range s u k Hb Hr); lia|].
  unfold good_end. split_all; [done|done|rewrite H3; lia|rewrite H3; lia].
Qed.

Lemma link_val_end nv k : (0 ≤ k < NullSID CellID)%Z → link_val nv (LinkEnd (makeFID CellID k) 0) = nv k 0%Z.
Proof. intros Hk. destruct (end_zero k Hk) as (_ & _ & H3 & H4 & _). unfold link_val. by rewrite H3, H4. Qed.

(** A gate with a function is put into the list of the combinational cells. *)
Lemma gate_class ty n : is_Some (cell_fun ty (replicate n false)) →
  ∃ t, getType ty = Some t ∧ classify t = CombCell ∧ ty ≠ GateID OUT.
Proof.
  intros [y Hy]. destruct ty as [|sym|]; [done| |done]. destruct sym; try done; (eexists; split_all; [reflexivity|reflexivity|done]).
Qed.

(** Adding a gate over link ends. *)
Lemma add_net_gate s u ty links : built s u → is_Some (cell_fun ty (replicate (length links) false)) →
  Forall (good_end s) links → length links ≤ MaxArity → room (u + S (length links)) →
  ∃ s1 s', makeCell ty links s = Some (makeFID CellID (cellSID s), s1) ∧
    addCell (makeFID CellID (cellSID s)) s1 = Some ((), s') ∧ built s' (u + S (length links)) ∧ grows s s' ∧
    good_end s' (LinkEnd (makeFID CellID (cellSID s)) 0) ∧
    ∀ nv, consistent_from b (cells s') nv →
      cell_fun ty (link_val nv <$> links) = Some (link_val nv (LinkEnd (makeFID CellID (cellSID s)) 0)).
Proof.
  intros Hb Hf Hl Hlen Hr. destruct (gate_class _ _ Hf) as (t & Ht & Hcl & Hno).
  destruct (add_new s u ty links t Hb Ht) as (s1 & s' & c & E1 & E2 & Hb' & Hk & Hsid & Hc & Hty & Hcell & Hbu); [| |done|done|].
  { eapply Forall_impl; [exact Hl|]. by intros w (? & _ & ?). }
  { intros _. eapply Forall_impl; [exact Hl|]. by intros w (_ & ? & _). }
  destruct (bt_sid _ _ Hb) as [Hb0 Hb1].
  assert (0 ≤ cellSID s < NullSID CellID)%Z as Hrg by (apply (number_range s' (u + S (length links))); [done|done|lia]).
  exists s1, s'. split_all; [done|done|done| | |].
  - split; [done|lia|..]; rewrite Hbu, Hcl; done.
  - apply (end_new s' _ _ Hb'); [done|lia].
  - intros nv Hnv. rewrite link_val_end by done.
    assert (is_Some (cell_fun ty (link_val nv <$> links))) as [y Hy].
    { eapply (cell_fun_defined ty (replicate (length links) false)); [by rewrite length_replicate, length_fmap|done]. }
    rewrite Hy. f_equal. symmetry. apply (Hnv (cellSID s) c y); [lia|done|]. by rewrite Hty, Hcell.
Qed.

(** The valuation of the entries of a subnet by their link ends. *)
Definition entry_val (nv : nval) (iv : InverseCellMapping) : valuation := λ i o,
  match source_of (mkLink i o false) iv with Some w => link_val nv w | None => false end.

Lemma lval_entry nv iv (l : Link) w : source_of l iv = Some w → lval (entry_val nv iv) l = xorb (link_val nv w) (inv l).
Proof. intros E. unfold lval, entry_val. change (source_of (mkLink (idx l) (out l) false) iv) with (source_of l iv). by rewrite E. Qed.

(** The link has a link end. *)
Definition has_end (s : State) (iv : InverseCellMapping) (l : Link) : Prop := ∃ w, source_of l iv = Some w ∧ good_end s w.

Lemma has_end_sid s s' iv l : (cellSID s ≤ cellSID s')%Z → has_end s iv l → has_end s' iv l.
Proof. intros Hs (w & Hw & Hg). exists w. split; [done|by eapply good_end_sid]. Qed.

Lemma makeLinkEnd_spec s u iv l : built s u → has_end s iv l → room (u + 2) →
  ∃ s' w, makeLinkEnd l iv s = Some (w, s') ∧ built s' (u + 2) ∧ grows s s' ∧ good_end s' w ∧
    ∀ nv, consistent_from b (cells s') nv → link_val nv w = lval (entry_val nv iv) l.
Proof.
  intros Hb (w & Hs & He) Hr. unfold makeLinkEnd. rewrite (bind_eval (st_read _) _ s w s) by (unfold st_read; by rewrite Hs).
  destruct (inv l) eqn:El; cbn [negb].
  - destruct (add_net_gate s u (GateID NOT) [w] Hb) as (s1 & s' & E1 & E2 & Hb' & Hg & He' & Hv);
      [by eexists|by apply Forall_singleton|unfold MaxArity; cbn; lia|done|].
    exists s', (LinkEnd (makeFID CellID (cellSID s)) 0). split_all; [|done..|].
    + by rewrite (bind_eval _ _ _ _ _ E1), (bind_eval _ _ _ _ _ E2).
    + intros nv Hnv. rewrite (lval_entry nv iv l w Hs), El, xorb_true_r. specialize (Hv nv Hnv).
      cbn in Hv. by injection Hv as <-.
  - exists s, w. split_all; [done|apply (built_mono _ u); [done|lia]|done|done|].
    intros nv _. by rewrite (lval_entry nv iv l w Hs), El, xorb_false_r.
Qed.

Lemma grows_consistent s s' nv : grows s s' → consistent_from b (cells s') nv → consistent_from b (cells s) nv.
Proof. intros Hg. apply keeps_consistent, Hg. Qed.

Lemma makeLinkEnds_spec iv (ls : LinkList) : ∀ s u, built s u → Forall (has_end s iv) ls → room (u + 2 * length ls) →
  ∃ s' ws, st_map (λ l, makeLinkEnd l iv) ls s = Some (ws, s') ∧ built s' (u + 2 * length ls) ∧ grows s s' ∧
    Forall (good_end s') ws ∧ length ws = length ls ∧
    ∀ nv, consistent_from b (cells s') nv → map (link_val nv) ws = map (lval (entry_val nv iv)) ls.
Proof.
  induction ls as [|l ls IH]; intros s u Hb He Hr.
  { exists s, []. split_all; [done|apply (built_mono _ u); [done|cbn; lia]|done..]. }
  apply Forall_cons in He as [Hl He]. cbn [length] in Hr. cbn [st_map].
  destruct (makeLinkEnd_spec s u iv l Hb Hl) as (s1 & w & E1 & Hb1 & Hg1 & Hw & Hv1); [apply (room_mono _ _ Hr); lia|].
  destruct (IH s1 (u + 2) Hb1) as (s2 & ws & E2 & Hb2 & Hg2 & Hws & Hlen & Hv2).
  { eapply Forall_impl; [exact He|]. intros x. apply has_end_sid, Hg1. }
  { apply (room_mono _ _ Hr). lia. }
  exists s2, (w :: ws). split_all.
  - by rewrite (bind_eval _ _ _ _ _ E1), (bind_eval _ _ _ _ _ E2).
  - apply (built_mono _ (u + 2 + 2 * length ls)); [done|cbn; lia].
  - by etransitivity.
  - constructor; [|done]. by eapply good_end_sid, Hw; apply Hg2.
  - cbn. by rewrite Hlen.
  - intros nv Hnv. cbn [map]. rewrite (Hv2 nv Hnv). f_equal. apply Hv1. by eapply grows_consistent.
Qed.

(** ** Inner cells *)

(** No cell has more links than its field for the arity can say. *)
Definition small (sn : Subnet) : Prop := ∀ i ls, Net.getLinks sn i = Some ls → length ls ≤ MaxArity.

(** The cells for an entry: its own, and one for each of its links. *)
Definition entry_cost : nat := 190.

(** The entries before [i] have link ends, with the values of their functions. *)
Record mapped (sn : Subnet) (s : State) (iv : InverseCellMapping) (i : nat) : Prop := {
  mp_len : length iv = Net.size sn;
  mp_end : ∀ j c, j < i → Net.getCell sn j = Some c → type c ≠ GateID OUT → has_end s iv (LinkTo j);
  mp_val : ∀ nv j c ls y, consistent_from b (cells s) nv → j < i → Net.getCell sn j = Some c →
    Net.getLinks sn j = Some ls → cell_fun (type c) (map (lval (entry_val nv iv)) ls) = Some y → entry_val nv iv j 0 = y;
}.

Lemma entry_val_insert nv iv i d j o : j ≠ i → entry_val nv (<[i := d]> iv) j o = entry_val nv iv j o.
Proof. intros Hj. unfold entry_val, source_of. cbn [idx]. by rewrite list_lookup_insert_ne. Qed.

Lemma lvals_insert nv iv i d (ls : LinkList) : (∀ l, l ∈ ls → idx l ≠ i) →
  map (lval (entry_val nv (<[i := d]> iv))) ls = map (lval (entry_val nv iv)) ls.
Proof.
  intros Hl. apply map_ext_in. intros l Hin%list_elem_of_In. unfold lval. by rewrite entry_val_insert by by apply Hl.
Qed.

Lemma has_end_insert s iv i d l : idx l ≠ i → has_end s iv l → has_end s (<[i := d]> iv) l.
Proof. intros Hl (w & Hw & Hg). exists w. split; [|done]. unfold source_of in *. by rewrite list_lookup_insert_ne. Qed.

(** The links of a cell lead to entries with link ends. *)
Lemma links_ends sn s iv i c ls : mapped sn s iv i → cell_fine sn i c ls → Forall (has_end s iv) ls.
Proof.
  intros Hm Hf. apply list.Forall_forall. intros l Hl. destruct (cf_before _ _ _ _ Hf l Hl) as (Hlt & d & Hd & Ht).
  destruct (mp_end _ _ _ _ Hm _ d Hlt Hd Ht) as (w & Hw & Hg). exists w. split; [|done].
  unfold source_of in *. cbn in Hw. by rewrite (cf_out _ _ _ _ Hf l Hl).
Qed.

Lemma makeInner_spec sn s u iv i c ls : built s u → mapped sn s iv i → small sn → Net.getCell sn i = Some c →
  cell_fine sn i c ls → is_Some (cell_fun (type c) (replicate (length ls) false)) → room (u + entry_cost) →
  ∃ s' k, makeInner sn i iv s = Some (makeFID CellID k, s') ∧ built s' (u + entry_cost) ∧ grows s s' ∧
    good_end s' (LinkEnd (makeFID CellID k) 0) ∧
    ∀ nv, consistent_from b (cells s') nv →
      cell_fun (type c) (map (lval (entry_val nv iv)) ls) = Some (link_val nv (LinkEnd (makeFID CellID k) 0)).
Proof.
  intros Hb Hm Hsm Hc Hf Hfun Hr. pose proof (cf_links _ _ _ _ Hf) as Hls. pose proof (Hsm _ _ Hls) as Hlen.
  unfold MaxArity, entry_cost in *. destruct (makeLinkEnds_spec iv ls s u Hb) as (s1 & ws & E1 & Hb1 & Hg1 & Hws & Hwl & Hv1).
  { by eapply links_ends. }
  { apply (room_mono _ _ Hr). lia. }
  destruct (add_net_gate s1 _ (type c) ws Hb1) as (s2 & s3 & E2 & E3 & Hb3 & Hg3 & He3 & Hv3).
  { by rewrite Hwl. }
  { done. }
  { unfold MaxArity. lia. }
  { apply (room_mono _ _ Hr). lia. }
  exists s3, (cellSID s1). split_all.
  - unfold makeInner. rewrite (bind_eval (st_read _) _ s c s) by (unfold st_read; by rewrite Hc).
    rewrite (bind_eval (st_read _) _ s ls s) by (unfold st_read; by rewrite Hls).
    by rewrite (bind_eval _ _ _ _ _ E1), (bind_eval _ _ _ _ _ E2), (bind_eval _ _ _ _ _ E3).
  - eapply built_mono; [exact Hb3|lia].
  - by etransitivity.
  - done.
  - intros nv Hnv. rewrite <- (Hv1 nv) by (by eapply grows_consistent). by apply Hv3.
Qed.

Lemma mapped_inner sn s s' iv i c ls k : sn_wf sn = true → mapped sn s iv i → grows s s' → i < Net.size sn → Net.getCell sn i = Some c →
  cell_fine sn i c ls → good_end s' (LinkEnd (makeFID CellID k) 0) → (∀ j, i < j ≤ i + more c → Net.getCell sn j = None) →
  (∀ nv, consistent_from b (cells s') nv →
    cell_fun (type c) (map (lval (entry_val nv iv)) ls) = Some (link_val nv (LinkEnd (makeFID CellID k) 0))) →
  mapped sn s' (<[i := DInner (makeFID CellID k)]> iv) (S (i + more c)).
Proof.
  intros Hw Hm Hg Hi Hc Hf He Hskip Hv. pose proof (mp_len _ _ _ _ Hm) as Hlen. set (w := LinkEnd (makeFID CellID k) 0) in *.
  assert (∀ l, idx l = i → out l = 0 → source_of l (<[i := DInner (makeFID CellID k)]> iv) = Some w) as Hsrc.
  { intros l <- Ho. unfold source_of. rewrite list_lookup_insert_eq by lia. by rewrite Ho. }
  assert (∀ j d, j < S (i + more c) → Net.getCell sn j = Some d → j = i ∨ j < i) as Hcase.
  { intros j d Hj Hd. destruct (decide (j ≤ i)); [lia|]. rewrite Hskip in Hd by lia. done. }
  split.
  - by rewrite length_insert.
  - intros j d Hj Hd Ht. destruct (Hcase j d Hj Hd) as [->|Hlt]; [by exists w; split; [apply Hsrc|]|].
    apply has_end_insert; [cbn; lia|]. eapply has_end_sid; [apply Hg|]. by eapply mp_end.
  - intros nv j d ls' y Hnv Hj Hd Hls Hy. destruct (Hcase j d Hj Hd) as [->|Hlt].
    + assert (d = c) as -> by congruence. rewrite (cf_links _ _ _ _ Hf) in Hls. injection Hls as <-.
      rewrite lvals_insert in Hy by (intros l Hl; pose proof (cf_before _ _ _ _ Hf l Hl); lia).
      unfold entry_val. rewrite Hsrc by done. rewrite Hv in Hy by done. by injection Hy.
    + rewrite entry_val_insert by lia. eapply mp_val; [exact Hm|by eapply grows_consistent|done..|].
      rewrite lvals_insert in Hy; [done|]. destruct (wf_cell sn j d Hw Hd) as [ls2 Hf2].
      rewrite (cf_links _ _ _ _ Hf2) in Hls. injection Hls as <-. intros l Hl. pose proof (cf_before _ _ _ _ Hf2 l Hl). lia.
Qed.

(** The loop over the inner cells. *)
Lemma inners_spec sn : sn_wf sn = true → small sn → ∀ f n known i s u iv, sn_check f sn known i = true → f ≤ n →
  sn_nIn sn ≤ i ≤ Net.size sn - sn_nOut sn → built s u → mapped sn s iv i → room (u + entry_cost * f) →
  ∃ s' iv', inners_loop sn n i iv s = Some (iv', s') ∧ built s' (u + entry_cost * f) ∧ grows s s' ∧
    mapped sn s' iv' (Net.size sn - sn_nOut sn) ∧ ∀ j, j < i → iv' !! j = iv !! j.
Proof.
  intros Hw Hsm. pose proof (wf_sizes sn Hw) as Hsz.
  induction f as [|f IH]; intros n known i s u iv Hk Hn Hi Hb Hm Hr;
    (destruct (decide (Net.size sn - sn_nOut sn ≤ i)) as [Hge|Hlt];
      [assert (i = Net.size sn - sn_nOut sn) as -> by lia; exists s, iv; split_all;
        [destruct n; cbn [inners_loop]; by rewrite (proj2 (Nat.leb_le _ _))|apply (built_mono _ u); [done|lia]|done..]|]);
    cbn [sn_check] in Hk; rewrite (proj2 (Nat.leb_gt _ _)) in Hk by lia; [done|].
  destruct n as [|n]; [lia|]. cbn [inners_loop]. rewrite (proj2 (Nat.leb_gt _ _)) by lia.
  destruct (Net.getCell sn i) as [c|] eqn:Hc; [|done]. destruct (Net.getLinks sn i) as [ls|] eqn:Hls; [|done].
  apply andb_true_iff in Hk as [Hk Hrest]. destruct (wf_cell sn i c Hw Hc) as [ls' Hf].
  assert (ls' = ls) as -> by (pose proof (cf_links _ _ _ _ Hf); congruence). pose proof (cf_type _ _ _ _ Hf) as Ht.
  assert (S (i + more c) ≤ Net.size sn - sn_nOut sn ∧ is_Some (cell_fun (type c) (replicate (length ls) false))) as [Hmore Hfun].
  { destruct (type c) as [|[]|]; cbn in Ht; try (destruct Ht as ((? & ?) & ?); done); destruct Ht as (? & ?); lia. }
  destruct (makeInner_spec sn s u iv i c ls Hb Hm Hsm Hc Hf Hfun) as (s1 & k & E1 & Hb1 & Hg1 & He1 & Hv1);
    [apply (room_mono _ _ Hr); lia|].
  rewrite (bind_eval (st_read _) _ s c s) by done. rewrite (bind_eval _ _ _ _ _ E1).
  destruct (IH n (if cell_is OUT c then known else i :: known) (S (i + more c)) s1 (u + entry_cost) (<[i := DInner (makeFID CellID k)]> iv))
    as (s2 & iv2 & E2 & Hb2 & Hg2 & Hm2 & Hiv).
  - exact Hrest.
  - lia.
  - lia.
  - done.
  - eapply mapped_inner; try done; [lia|]. intros j Hj. by apply (cell_check_skip _ _ _ _ _ j Hk).
  - apply (room_mono _ _ Hr). lia.
  - exists s2, iv2. split_all; [exact E2|eapply built_mono; [exact Hb2|lia]|by etransitivity|done|].
    intros j Hj. rewrite Hiv by lia. by rewrite list_lookup_insert_ne by lia.
Qed.

(** ** Inputs and outputs *)

Definition bound_cell (sym : CellSymbol) (n : nat) (s : State) (id : Z) : Prop :=
  ∃ k c, id = makeFID CellID k ∧ (0 ≤ k < NullSID CellID)%Z ∧ cells s !! k = Some c ∧ typeID c = GateID sym ∧ fanin c = N.of_nat n.

(** The new cell [id] of the boundary. *)
Definition new_bound (sym : CellSymbol) (n : nat) (s : State) (id : Z) : Prop :=
  ∃ k c, id = makeFID CellID k ∧ (b ≤ k < cellSID s)%Z ∧ cells s !! k = Some c ∧ typeID c = GateID sym ∧
    cell_links c = replicate n LinkEnd_null.

Definition in_sym (sym : CellSymbol) (n : nat) : Prop := sym = IN ∧ n = 0 ∨ sym = OUT ∧ n = 1.

(** The list of the cells of the kind. *)
Definition io_list (sym : CellSymbol) (bu : NetBuilder) : list Z := if bool_decide (sym = IN) then inputs bu else outputs bu.

Lemma bound_cell_keeps sym n s s' id : keeps s s' → bound_cell sym n s id → bound_cell sym n s' id.
Proof.
  intros Hk (k & c & -> & Hr & Hc & Ht & Hf). destruct (Hk k c Hc) as (c' & Hc' & Et & Ef & _).
  exists k, c'. split_all; [done|lia|lia|done|congruence|congruence].
Qed.

Lemma new_bound_keeps sym n s s' id : keeps s s' → (cellSID s ≤ cellSID s')%Z → new_bound sym n s id → new_bound sym n s' id.
Proof.
  intros Hk Hs (k & c & -> & Hr & Hc & Ht & Hl). destruct (Hk k c Hc) as (c' & Hc' & Et & _ & El).
  exists k, c'. split_all; [done|lia|lia|done|congruence|congruence].
Qed.

Lemma makeBoundary_new sym n s u id inout : in_sym sym n → built s u → bound_cell sym n s id → inout !! id = None → room (u + 2) →
  let new := makeFID CellID (cellSID s) in
  ∃ s', makeBoundary id inout s = Some ((new, <[id := new]> inout), s') ∧ built s' (u + 2) ∧ keeps s s' ∧
    (cellSID s < cellSID s')%Z ∧ new_bound sym n s' new ∧
    ∀ k, k = IN ∨ k = OUT → io_list k (builder s') = io_list k (builder s) ++ (if bool_decide (k = sym) then [new] else []).
Proof.
  intros Hsym Hb (k & c & -> & Hr & Hc & Ht & Hf) Hno Hroom new.
  assert (∃ t, getType (GateID sym) = Some t ∧ classify t = (if bool_decide (sym = IN) then InCell else OutCell)) as (t & Hgt & Hcl).
  { destruct Hsym as [[-> _]|[-> _]]; eexists; split; reflexivity. }
  destruct (add_new s u (GateID sym) (replicate n LinkEnd_null) t Hb Hgt) as (s1 & s2 & c2 & E1 & E2 & Hb2 & Hk2 & Hs2 & Hc2 & Ht2 & Hl2 & Hbu2).
  { apply Forall_replicate. split; [by left|done]. }
  { destruct Hsym as [[-> ->]|[-> ->]]; [constructor|done]. }
  { rewrite length_replicate. unfold MaxArity. destruct Hsym as [[_ ->]|[_ ->]]; lia. }
  { rewrite length_replicate. apply (room_mono _ _ Hroom). destruct Hsym as [[_ ->]|[_ ->]]; lia. }
  rewrite length_replicate in Hb2. exists s2. split_all.
  - unfold makeBoundary. rewrite Hno. rewrite (bind_eval (st_read _) _ s c s) by (unfold st_read; by rewrite (get_fid s k c)).
    rewrite Ht, Hf, Nat2N.id. by rewrite (bind_eval _ _ _ _ _ E1), (bind_eval _ _ _ _ _ E2).
  - apply (built_mono _ _ _ Hb2). destruct Hsym as [[_ ->]|[_ ->]]; lia.
  - done.
  - lia.
  - exists (cellSID s), c2. pose proof (bt_sid _ _ Hb). split_all; done || lia.
  - intros j Hj. rewrite Hbu2, Hcl. unfold io_list, Nets.push.
    destruct Hsym as [[-> _]|[-> _]], Hj as [->| ->]; cbn; by rewrite ?app_nil_r.
Qed.

(** The loop over the inputs or the outputs. *)
Lemma bounds_spec sym n : in_sym sym n → ∀ ids s u inout, built s u → NoDup ids →
  (∀ id, id ∈ ids → bound_cell sym n s id ∧ inout !! id = None) → room (u + 2 * length ids) →
  ∃ s' inout' news, st_fold (λ id inout, p ← makeBoundary id inout; mret p.2) ids inout s = Some (inout', s') ∧
    built s' (u + 2 * length ids) ∧ keeps s s' ∧ (cellSID s ≤ cellSID s')%Z ∧
    (NoDup news ∧ Forall (λ new, ∃ k, new = makeFID CellID k ∧ cellSID s ≤ k < cellSID s')%Z news) ∧
    Forall (new_bound sym n s') news ∧ Forall2 (λ id new, inout' !! id = Some new) ids news ∧
    (∀ id, id ∉ ids → inout' !! id = inout !! id) ∧
    ∀ k, k = IN ∨ k = OUT → io_list k (builder s') = io_list k (builder s) ++ (if bool_decide (k = sym) then news else []).
Proof.
  intros Hsym. induction ids as [|id ids IH]; intros s u inout Hb Hnd Hids Hr.
  { exists s, inout, []. split_all; [done|apply (built_mono _ u); [done|lia]|done|done|constructor|constructor|constructor|constructor|done|].
    intros k _. case_bool_decide; by rewrite app_nil_r. }
  apply NoDup_cons in Hnd as [Hni Hnd]. cbn [length] in Hr. destruct (Hids id) as [Hbc Hno]; [by constructor|].
  destruct (makeBoundary_new sym n s u id inout Hsym Hb Hbc Hno) as (s1 & E1 & Hb1 & Hk1 & Hs1 & Hn1 & Hl1);
    [apply (room_mono _ _ Hr); lia|].
  set (new := makeFID CellID (cellSID s)) in *.
  destruct (IH s1 (u + 2) (<[id := new]> inout) Hb1 Hnd) as (s2 & io & news & E2 & Hb2 & Hk2 & Hs2 & (Hd2 & Hr2) & Hn2 & Hio & Hout & Hl2).
  { intros x Hx. destruct (Hids x) as [Hbx Hxo]; [by constructor|]. split; [by eapply bound_cell_keeps|].
    rewrite lookup_insert_ne; [done|]. by intros ->. }
  { apply (room_mono _ _ Hr). lia. }
  exists s2, io, (new :: news). split_all.
  - cbn [st_fold]. by rewrite (bind_eval _ _ s (<[id := new]> inout) s1) by (by rewrite (bind_eval _ _ _ _ _ E1)).
  - eapply built_mono; [exact Hb2|cbn; lia].
  - by etransitivity.
  - lia.
  - constructor; [|done]. intros Hin. rewrite Forall_forall in Hr2. destruct (Hr2 _ Hin) as (k & Ek & Hk).
    pose proof (bt_sid _ _ Hb). apply fid_inj in Ek; [lia|..]; apply (number_range _ _ _ Hb2); try lia; apply (room_mono _ _ Hr); lia.
  - constructor; [exists (cellSID s); split; [done|lia]|]. eapply Forall_impl; [exact Hr2|]. intros x (k & -> & Hk). exists k. split; [done|lia].
  - constructor; [|done]. eapply new_bound_keeps; [exact Hk2|lia|done].
  - constructor; [|done]. rewrite Hout by done. by rewrite lookup_insert_eq.
  - intros x Hx. apply not_elem_of_cons in Hx as [Hne Hx]. rewrite Hout by done. by rewrite lookup_insert_ne.
  - intros k Hk. rewrite Hl2, Hl1 by done. rewrite <- app_assoc. f_equal. by case_bool_decide.
Qed.

(** The keys of the boundary cells in the mappings of a subnet. *)
Definition in_key (id : Z) : NetLink := (LinkEnd id 0, LinkEnd OBJ_NULL_ID 0).
Definition out_key (id : Z) : NetLink := (LinkEnd OBJ_NULL_ID 0, LinkEnd id 0).

(** The boundary cells [olds] and the new ones for them. *)
Definition renewed (inout : InOutCellMapping) (olds news : list Z) : Prop :=
  Forall2 (λ id new, inout !! id = Some new) olds news ∧ Forall (λ id, ∃ k, id = makeFID CellID k ∧ (0 ≤ k < NullSID CellID)%Z) olds.

Lemma makeBoundary_old (inout : InOutCellMapping) id new s : inout !! id = Some new → makeBoundary id inout s = Some ((new, inout), s).
Proof. intros E. unfold makeBoundary. by rewrite E. Qed.

Definition input_of (news : list Z) (j : nat) : CellDescriptor := DInput (LinkEnd (default 0%Z (news !! j)) 0, LinkEnd OBJ_NULL_ID 0).

Lemma inverse_inputs sn inout olds news s : renewed inout olds news → length olds = sn_nIn sn →
  ∀ (L : list (NetLink * nat)) iv, sn_nIn sn ≤ length iv → (∀ p, p ∈ L → ∃ id, olds !! p.2 = Some id ∧ p.1 = in_key id) →
  ∃ iv', st_fold (inverse_input sn) L (iv, inout) s = Some ((iv', inout), s) ∧ length iv' = length iv ∧
    (∀ j, j ∈ map snd L → iv' !! j = Some (input_of news j)) ∧ ∀ j, j ∉ map snd L → iv' !! j = iv !! j.
Proof.
  intros [Hio Hfid] Hlen. induction L as [|[key j] L IH]; intros iv Hiv HL; [exists iv; split_all; [done|done|set_solver|done]|].
  destruct (HL (key, j)) as (id & Hid & Hkey); [by constructor|]. cbn [fst snd] in Hid, Hkey. subst key.
  destruct (Forall2_lookup_l _ _ _ _ _ Hio Hid) as (new & Hnew & Hin).
  destruct (Forall_lookup_1 _ _ _ _ Hfid Hid) as (k & -> & Hk). destruct (end_zero k Hk) as (_ & _ & _ & Hport & Hcell).
  pose proof (lookup_lt_Some _ _ _ Hid) as Hj. cbn [st_fold].
  destruct (IH (<[j := input_of news j]> iv)) as (iv' & E & Hlen' & Hin' & Hout').
  { by rewrite length_insert. }
  { intros p Hp. apply HL. by constructor. }
  exists iv'. split_all.
  - rewrite (bind_eval _ _ s (<[j := input_of news j]> iv, inout) s); [done|]. unfold inverse_input. cbn [fst snd in_key].
    rewrite (bind_eval (st_assert _) _ s () s) by (unfold st_assert; by rewrite (proj2 (Nat.ltb_lt _ _)) by lia).
    rewrite Hcell, (bind_eval _ _ _ _ _ (makeBoundary_old inout _ new s Hin)).
    rewrite (bind_eval (st_assert _) _ s () s) by (unfold st_assert; by rewrite (proj2 (Nat.ltb_lt _ _)) by lia).
    unfold input_of. by rewrite Hport, Hnew.
  - by rewrite Hlen', length_insert.
  - intros i Hi. cbn [map snd] in Hi. destruct (decide (i ∈ map snd L)) as [Hl|Hl]; [by apply Hin'|].
    rewrite Hout' by done. apply elem_of_cons in Hi as [->|Hi]; [|done]. by rewrite list_lookup_insert_eq by lia.
  - intros i Hi. cbn [map snd] in Hi. apply not_elem_of_cons in Hi as [Hne Hi]. rewrite Hout' by done. by rewrite list_lookup_insert_ne.
Qed.

(** *** Connecting an output *)

(** The numbers of the cells and the valuations stay. *)
Record extends (s s' : State) : Prop := {
  ex_sid : (cellSID s ≤ cellSID s')%Z;
  ex_types : ∀ k c, cells s !! k = Some c → ∃ c', cells s' !! k = Some c' ∧ typeID c' = typeID c;
  ex_consistent : ∀ nv, consistent_from b (cells s') nv → consistent_from b (cells s) nv;
  ex_inputs : inputs (builder s') = inputs (builder s);
  ex_outputs : outputs (builder s') = outputs (builder s);
}.

#[global] Instance extends_preorder : PreOrder extends.
Proof.
  split; [intros s; split; try (done || lia); intros k c Hc; by exists c|]. intros s1 s2 s3 [K1 T1 L1 I1 O1] [K2 T2 L2 I2 O2].
  split; [lia| |intros nv Hnv; by apply L1, L2|congruence..]. intros k c Hc. destruct (T1 k c Hc) as (c1 & Hc1 & E1).
  destruct (T2 k c1 Hc1) as (c2 & Hc2 & E2). exists c2. split; [done|congruence].
Qed.

Lemma grows_extends s s' : grows s s' → extends s s'.
Proof.
  intros Hg. split; [apply Hg| |intros nv; by apply grows_consistent|apply Hg|apply Hg].
  intros k c Hc. destruct (gr_keeps _ _ Hg k c Hc) as (c' & Hc' & Et & _). by exists c'.
Qed.

Lemma mapped_extends sn s s' iv i : extends s s' → mapped sn s iv i → mapped sn s' iv i.
Proof.
  intros He [Hl Hm Hv]. split; [done| |].
  - intros j c Hj Hc Ht. eapply has_end_sid; [apply He|by eapply Hm].
  - intros nv j c ls y Hnv. apply Hv. by apply He.
Qed.

(** The cell with its first link set. *)
Definition linked (c : Cell) (w : Z) : Cell := mkCell (typeID c) (fanin c) (fanout c) (Some (<[0 := w]> (cell_links c))).

Definition linked_state (s : State) (k : Z) (c : Cell) (w : Z) : State :=
  mkState (<[k := linked c w]> (cells s)) (cellSID s) (builder s).

Lemma linked_cell s k c w j d : cells s !! k = Some c → cells (linked_state s k c w) !! j = Some d →
  ∃ e, cells s !! j = Some e ∧ fanout d = fanout e ∧ typeID d = typeID e ∧ (j = k ∧ d = linked c w ∧ e = c ∨ j ≠ k ∧ d = e).
Proof.
  intros Hc. cbn [linked_state cells]. intros [[<- <-]|[Hn Hd]]%lookup_insert_Some; [exists c|exists d]; split_all; try done; [by left|right; by split].
Qed.

Lemma linked_dom s k c w j : is_Some (cells s !! j) → is_Some (cells (linked_state s k c w) !! j).
Proof.
  intros Hj. cbn [linked_state cells]. destruct (Z.eq_dec k j) as [<-|Hn]; [by rewrite lookup_insert_eq|by rewrite lookup_insert_ne].
Qed.

Section Connect.
Context (s : State) (u : nat) (k : Z) (c : Cell) (w : Z).
Context (Hb : built s u) (Hr : room (u + 1)) (Hk : (b ≤ k < cellSID s)%Z) (Hc : cells s !! k = Some c).
Context (Ht : typeID c = GateID OUT) (Hl : cell_links c = [LinkEnd_null]) (He : good_end s w).

Lemma connect_state : ∃ s', connect (makeFID CellID k) 0 w s = Some ((), s') ∧ bumped (linked_state s k c w) s' (λ j, count j [w]).
Proof using Hb Hr Hk Hc Hl He.
  pose proof (bt_sid _ _ Hb) as [Hb0 Hb1]. destruct He as (Hg & Hv & Hw).
  assert (0 ≤ k < NullSID CellID)%Z as Hrg by (apply (number_range s u k Hb); [apply (room_mono _ _ Hr); lia|lia]).
  destruct (bt_cell _ _ Hb k c (proj1 Hk) Hc) as [Hok Hfc]. unfold connect. change (to_u16 0) with 0. rewrite fid_not_null by done.
  rewrite (bind_eval (st_assert _) _ s () s) by done.
  rewrite (bind_eval (st_read _) _ s c s) by (unfold st_read; by rewrite (get_fid s k c)).
  rewrite (bind_eval (st_read _) _ s (linked c w) s) by (unfold st_read; by rewrite (setLink_spec (cells s) c 0 w Hok) by by rewrite Hl).
  rewrite (bind_eval (st_update _) _ s () (linked_state s k c w)) by (unfold st_update, put; by rewrite sid_of).
  destruct (bt_new _ _ Hb _ Hw) as [d Hd]. destruct (linked_dom s k c w _ (mk_is_Some _ _ Hd)) as [d1 Hd1].
  apply (incRefCount_spec _ w d1 Hg Hv Hd1). destruct (linked_cell _ _ _ _ _ _ Hc Hd1) as (e & Hde & -> & _).
  destruct (bt_cell _ _ Hb _ _ (proj1 Hw) Hde) as [_ Hfe]. pose proof (room_fan _ (proj1 Hb0) Hr). lia.
Qed.

Context (s' : State) (Hbp : bumped (linked_state s k c w) s' (λ j, count j [w])).

Lemma connect_cell j d : cells s' !! j = Some d → ∃ e, cells s !! j = Some e ∧ fanout d = (fanout e + N.of_nat (count j [w]))%N ∧
  typeID d = typeID e ∧ (j = k ∧ d = with_fanout (fanout d) (linked c w) ∧ e = c ∨ j ≠ k ∧ d = with_fanout (fanout d) e).
Proof using Hc Hbp.
  intros (d1 & Hd1 & ->)%(bumped_cell _ _ _ Hbp). destruct (linked_cell _ _ _ _ _ _ Hc Hd1) as (e & Hde & Hf & Hty & Hor).
  exists e. split_all; [done|cbn; by rewrite Hf|done|]. destruct Hor as [(-> & -> & ->)|[Hn ->]]; [by left|by right].
Qed.

Lemma connect_old j d : j ≠ k → cells s !! j = Some d → cells s' !! j = Some (with_fanout (fanout d + N.of_nat (count j [w])) d).
Proof using Hbp. intros Hj Hd. rewrite (bp_cells _ _ _ Hbp). cbn [linked_state cells]. by rewrite lookup_insert_ne, Hd by done. Qed.

Lemma connect_dom j : is_Some (cells s !! j) → is_Some (cells s' !! j).
Proof using Hbp. intros Hj. by apply (bumped_dom _ _ _ Hbp), linked_dom. Qed.

Lemma linked_ok : cell_ok (cells s) c → cell_ok (cells s) (linked c w).
Proof using Hb Hl He.
  destruct He as (Hg & Hv & Hw). intros Hok. split; unfold cell_links; cbn [linked fanin array default].
  - rewrite (ok_fanin _ _ Hok), Hl. done.
  - done.
  - apply Hok.
  - cbn. rewrite Hl. cbn. constructor; [|done]. split; [done|]. intros _. by apply (bt_new _ _ Hb).
  - apply Hok.
Qed.

Lemma connect_built : built s' (u + 1).
Proof using Hb Hr Hk Hc Ht Hl He Hbp.
  pose proof (bp_sid _ _ _ Hbp) as Es. cbn [linked_state cellSID] in Es. pose proof (bt_sid _ _ Hb) as [Hb0 Hb1].
  pose proof (bp_builder _ _ _ Hbp) as Ebu. cbn [linked_state builder] in Ebu. pose proof (room_fan _ (proj1 Hb0) Hr) as Hrf.
  assert (∀ j, count j [w] ≤ 1) as Hcount by (intros j; apply (length_filter (λ x, points j x = true) [w])). split.
  - rewrite Es. lia.
  - intros j d (e & Hde & _)%connect_cell. rewrite Es. by eapply (bt_below _ _ Hb).
  - intros j d (e & Hde & -> & _)%connect_cell. specialize (Hcount j). destruct (decide (b ≤ j)%Z) as [Hbj|Hbj].
    + destruct (bt_cell _ _ Hb j e Hbj Hde). lia.
    + destruct He as (_ & _ & Hw). rewrite (count_none j [w]); [apply (bt_fan _ _ Hb) in Hde; lia|].
      apply Forall_singleton. unfold points. rewrite (proj2 (Z.eqb_neq _ _)) by lia. apply andb_false_r.
  - intros j. rewrite Es. intros Hj. by apply connect_dom, (bt_new _ _ Hb).
  - intros j d Hbj (e & Hde & Hfd & _ & Hor)%connect_cell. specialize (Hcount j).
    destruct (bt_cell _ _ Hb j e Hbj Hde) as [Hok Hfe]. split; [|lia].
    destruct Hor as [(-> & -> & ->)|[Hn ->]]; (eapply cell_ok_fanout; [exact connect_dom|]); [by apply linked_ok|done].
  - intros j d x Hbj (e & Hde & _ & Hty & Hor)%connect_cell Hno Hx. destruct Hor as [(_ & _ & ->)|[Hn E]]; [by rewrite Hty in Hno|].
    rewrite E in Hx. rewrite Hty in Hno. by apply (bt_links _ _ Hb j e).
  - intros id. rewrite Ebu, Es. apply (bt_lists _ _ Hb).
  - rewrite Ebu, Es. apply (bt_length _ _ Hb).
Qed.

Lemma connect_extends : extends s s'.
Proof using Hc Ht Hbp.
  pose proof (bp_builder _ _ _ Hbp) as Ebu. cbn [linked_state builder] in Ebu. split; [|intros j d Hd|intros nv Hnv|by rewrite Ebu..].
  - rewrite (bp_sid _ _ _ Hbp). cbn [linked_state cellSID]. lia.
  - destruct (connect_dom j (mk_is_Some _ _ Hd)) as [d' Hd']. exists d'. split; [done|].
    destruct (connect_cell j d' Hd') as (e & Hde & _ & Hty & _). congruence.
  - intros j d y Hj Hd Hy. destruct (decide (j = k)) as [->|Hn].
    + assert (d = c) as -> by congruence. by rewrite Ht in Hy.
    + apply (Hnv j _ y Hj (connect_old j d Hn Hd)). exact Hy.
Qed.

Lemma connect_out : ∃ c', cells s' !! k = Some c' ∧ typeID c' = GateID OUT ∧ cell_links c' = [w].
Proof using Hc Ht Hl Hbp.
  exists (with_fanout (fanout c + N.of_nat (count k [w])) (linked c w)). split_all; [|done|].
  - rewrite (bp_cells _ _ _ Hbp). cbn [linked_state cells]. by rewrite lookup_insert_eq.
  - unfold cell_links at 1. cbn. by rewrite Hl.
Qed.
End Connect.

(** *** The outputs of a subnet *)

Section Outputs.
Context (sn : Subnet) (Hw : sn_wf sn = true) (m : CellMapping) (Hm : sn_nOut sn ≤ m_size m).
Context (inout : InOutCellMapping) (olds news : list Z) (Hrn : renewed inout olds news).
Context (Hlen : length olds = sn_nOut sn) (Hnd : NoDup news) (iv0 : InverseCellMapping).

Definition inner_end : nat := Net.size sn - sn_nOut sn.

(** The cell of the output [j], before and after it is connected. *)
Definition out_cell (s : State) (j : nat) (done : bool) (c : Cell) : Prop :=
  if done then ∃ w l, cell_links c = [w] ∧ good_end s w ∧ Net.getOut sn j = Some l ∧
    ∀ nv, consistent_from b (cells s) nv → link_val nv w = lval (entry_val nv iv0) l
  else cell_links c = [LinkEnd_null].

(** The outputs [todo] are not connected yet. *)
Record out_state (s : State) (iv : InverseCellMapping) (todo : list nat) : Prop := {
  os_map : mapped sn s iv0 inner_end;
  os_len : length iv = Net.size sn;
  os_iv : ∀ j, j < inner_end → iv !! j = iv0 !! j;
  os_cell : ∀ j new, news !! j = Some new → ∃ k c, new = makeFID CellID k ∧ (b ≤ k < cellSID s)%Z ∧
    cells s !! k = Some c ∧ typeID c = GateID OUT ∧ out_cell s j (bool_decide (j ∉ todo)) c;
}.

Lemma out_cell_extends s s' j d c c' : extends s s' → cell_links c' = cell_links c → out_cell s j d c → out_cell s' j d c'.
Proof.
  intros He Hl. unfold out_cell. rewrite Hl. destruct d; [|done]. intros (w & l & H1 & H2 & H3 & H4).
  exists w, l. split_all; [done|by eapply good_end_sid, H2; apply He|done|]. intros nv Hnv. by apply H4, He.
Qed.

Lemma out_state_grows s s' iv todo : grows s s' → out_state s iv todo → out_state s' iv todo.
Proof using.
  clear Hm Hlen. intros Hg [H1 H2 H3 H4]. pose proof (grows_extends _ _ Hg) as He. split; [by eapply mapped_extends|done|done|].
  intros j new Hj. destruct (H4 j new Hj) as (k & c & -> & Hk & Hc & Ht & Ho).
  destruct (gr_keeps _ _ Hg k c Hc) as (c' & Hc' & Et & _ & El). exists k, c'. pose proof (ex_sid _ _ He).
  split_all; [done|lia|lia|done|congruence|by eapply out_cell_extends].
Qed.

(** The link of an output leads to an entry with a link end. *)
Lemma output_end s iv j : mapped sn s iv0 inner_end → (∀ i, i < inner_end → iv !! i = iv0 !! i) → j < sn_nOut sn →
  ∃ l, Net.getOut sn j = Some l ∧ Net.getLink sn (inner_end + j) 0 = Some l ∧ has_end s iv l ∧
    ∀ nv, lval (entry_val nv iv) l = lval (entry_val nv iv0) l.
Proof using Hw.
  clear Hm Hlen. intros Hmp Hiv Hj. destruct (wf_output sn j Hw Hj) as (c & l & Hc & Ht & Hls & Ho & Hf). fold inner_end in Hc, Hls, Hf.
  assert (l ∈ [l]) as Hin by (by apply list_elem_of_singleton). destruct (cf_before _ _ _ _ Hf l Hin) as (Hlt & d & Hd & Htd).
  assert (idx l < inner_end) as Hlo.
  { destruct (decide (idx l < inner_end)) as [|Hge]; [done|]. destruct (wf_output sn (idx l - inner_end) Hw) as (d' & _ & Hd' & Htd' & _); [lia|].
    fold inner_end in Hd'. replace (inner_end + (idx l - inner_end)) with (idx l) in Hd' by lia. congruence. }
  assert (∀ o v, source_of (mkLink (idx l) o v) iv = source_of (mkLink (idx l) o v) iv0) as Hsrc.
  { intros o v. unfold source_of. cbn [idx]. by rewrite Hiv. }
  exists l. split_all; [done| | |].
  - unfold Net.getOut in Ho. rewrite bool_decide_eq_true_2 in Ho by done. fold inner_end in Ho.
    unfold Net.getLink. rewrite Hc in *. cbn [mbind option_bind] in *. by rewrite bool_decide_eq_true_2 by (unfold InPlaceLinks; lia).
  - destruct (mp_end _ _ _ _ Hmp (idx l) d Hlo Hd Htd) as (w & Hw' & Hg). exists w. split; [|done].
    rewrite <- Hw'. unfold source_of. rewrite (Hiv _ Hlo), (cf_out _ _ _ _ Hf l Hin). done.
  - intros nv. unfold lval, entry_val. by rewrite Hsrc.
Qed.

Lemma out_state_connect s s' iv j todo new k c w l d : out_state s iv (j :: todo) → j ∉ todo → extends s s' →
  news !! j = Some new → new = makeFID CellID k → (b ≤ k < cellSID s)%Z →
  cells s' !! k = Some c → typeID c = GateID OUT → cell_links c = [w] → good_end s' w → Net.getOut sn j = Some l →
  (∀ nv, consistent_from b (cells s') nv → link_val nv w = lval (entry_val nv iv0) l) →
  (∀ i e, i ≠ k → cells s !! i = Some e → ∃ e', cells s' !! i = Some e' ∧ typeID e' = typeID e ∧ cell_links e' = cell_links e) →
  out_state s' (<[inner_end + j := d]> iv) todo.
Proof using Hnd.
  clear Hm Hlen. intros [H1 H2 H3 H4] Hj He Hnew -> Hk Hc Ht Hl Hg Ho Hv Hold. split.
  - by eapply mapped_extends.
  - by rewrite length_insert.
  - intros i Hi. rewrite list_lookup_insert_ne by lia. by apply H3.
  - intros i new Hi. destruct (decide (i = j)) as [->|Hne].
    + exists k, c. pose proof (ex_sid _ _ He). rewrite bool_decide_eq_true_2 by done. split_all; [congruence|lia|lia|done|done|].
      exists w, l. by split_all.
    + destruct (H4 i new Hi) as (k' & e & -> & Hk' & Hce & Hte & Hoe).
      assert (k' ≠ k) as Hkk. { intros ->. apply Hne. by eapply NoDup_lookup. }
      destruct (Hold k' e Hkk Hce) as (e' & Hce' & Hte' & Hle'). exists k', e'. pose proof (ex_sid _ _ He).
      split_all; [done|lia|lia|done|congruence|].
      assert (bool_decide (i ∉ todo) = bool_decide (i ∉ j :: todo)) as ->; [|by eapply out_cell_extends].
      apply bool_decide_ext. rewrite not_elem_of_cons. tauto.
Qed.

Lemma inverse_output_spec s u iv j todo id : built s u → room (u + 3) → out_state s iv (j :: todo) → j ∉ todo → olds !! j = Some id →
  ∃ s' iv', inverse_output sn m (out_key id, m_size m - sn_nOut sn + j) (iv, inout) s = Some ((iv', inout), s') ∧
    built s' (u + 3) ∧ extends s s' ∧ out_state s' iv' todo.
Proof using Hw Hm Hrn Hlen Hnd.
  intros Hb Hr Hos Hj Hid. pose proof (lookup_lt_Some _ _ _ Hid) as Hlt. rewrite Hlen in Hlt. pose proof (wf_sizes sn Hw) as Hsz.
  destruct Hrn as [Hio Hfid]. destruct (Forall2_lookup_l _ _ _ _ _ Hio Hid) as (new & Hnew & Hin).
  destruct (Forall_lookup_1 _ _ _ _ Hfid Hid) as (ko & Eid & Hko). destruct (end_zero ko Hko) as (_ & _ & _ & Hport & Hcell).
  rewrite <- Eid in Hport, Hcell.
  destruct (output_end s iv j (os_map _ _ _ Hos) (os_iv _ _ _ Hos) Hlt) as (l & Ho & Hgl & Hhe & Hlv).
  destruct (makeLinkEnd_spec s u iv l Hb Hhe) as (s1 & w & E1 & Hb1 & Hg1 & Hgw & Hv1); [apply (room_mono _ _ Hr); lia|].
  pose proof (out_state_grows _ _ _ _ Hg1 Hos) as Hos1. destruct (os_cell _ _ _ Hos1 j new Hnew) as (k & c & En & Hk & Hc & Ht & Hoc).
  rewrite bool_decide_eq_false_2 in Hoc by (rewrite not_elem_of_cons; tauto). cbn [out_cell] in Hoc. rewrite En in Hin.
  assert (room (u + 2 + 1)) as Hr' by (apply (room_mono _ _ Hr); lia).
  destruct (connect_state s1 (u + 2) k c w Hb1 Hr' Hk Hc Hoc Hgw) as (s2 & E2 & Hbp).
  pose proof (connect_extends s1 k c w Hc Ht s2 Hbp) as He2. destruct (connect_out s1 k c w Hc Ht Hoc s2 Hbp) as (c2 & Hc2 & Ht2 & Hl2).
  exists s2, (<[inner_end + j := DOutput (w, LinkEnd (makeFID CellID k) 0)]> iv). split_all.
  - unfold inverse_output. cbn [fst snd out_key].
    replace (m_size m - sn_nOut sn + j + Net.size sn - m_size m) with (inner_end + j) by (unfold inner_end; lia).
    rewrite (bind_eval (st_assert _) _ s () s) by (unfold st_assert; by rewrite (proj2 (Nat.leb_le _ _)) by lia).
    rewrite (bind_eval (st_assert _) _ s () s) by (unfold st_assert, inner_end; by rewrite (proj2 (Nat.leb_le _ _)) by lia).
    rewrite (bind_eval (st_read _) _ s l s) by (unfold st_read; by rewrite Hgl).
    rewrite (bind_eval _ _ _ _ _ E1), Hcell, Hport, (bind_eval _ _ _ _ _ (makeBoundary_old inout _ _ s1 Hin)).
    change (Z.to_nat 0) with 0. rewrite (bind_eval _ _ _ _ _ E2).
    rewrite (bind_eval (st_assert _) _ s2 () s2); [done|].
    unfold st_assert. rewrite (os_len _ _ _ Hos1). unfold inner_end. by rewrite (proj2 (Nat.ltb_lt _ _)) by lia.
  - replace (u + 3) with (u + 2 + 1) by lia. by eapply connect_built.
  - etransitivity; [by apply grows_extends|done].
  - eapply out_state_connect; try done.
    + by eapply good_end_sid, Hgw; apply He2.
    + intros nv Hnv. rewrite (Hv1 nv) by by apply He2. apply Hlv.
    + intros i e Hi Hce. eexists. split; [by eapply connect_old|done].
Qed.

Lemma inverse_outputs : ∀ (L : list (NetLink * nat)) s u iv todo, built s u → room (u + 3 * length L) → out_state s iv todo → NoDup todo →
  Forall2 (λ p j, ∃ id, olds !! j = Some id ∧ p = (out_key id, m_size m - sn_nOut sn + j)) L todo →
  ∃ s' iv', st_fold (inverse_output sn m) L (iv, inout) s = Some ((iv', inout), s') ∧ built s' (u + 3 * length L) ∧
    extends s s' ∧ out_state s' iv' [].
Proof using Hw Hm Hrn Hlen Hnd.
  induction L as [|p L IH]; intros s u iv todo Hb Hr Hos Htd HL.
  { apply Forall2_nil_inv_l in HL as ->. exists s, iv. split_all; [done|apply (built_mono _ u); [done|lia]|done|done]. }
  apply Forall2_cons_inv_l in HL as (j & todo' & (id & Hid & ->) & HL & ->). apply NoDup_cons in Htd as [Hj Htd].
  cbn [length] in Hr. destruct (inverse_output_spec s u iv j todo' id Hb) as (s1 & iv1 & E1 & Hb1 & He1 & Hos1);
    [apply (room_mono _ _ Hr); lia|done..|].
  destruct (IH s1 (u + 3) iv1 todo' Hb1) as (s2 & iv2 & E2 & Hb2 & He2 & Hos2); [apply (room_mono _ _ Hr); lia|done..|].
  exists s2, iv2. split_all; [|eapply built_mono; [exact Hb2|cbn; lia]|by etransitivity|done].
  cbn [st_fold]. by rewrite (bind_eval _ _ _ _ _ E1).
Qed.
End Outputs.

(** ** A subnet *)

(** The mapping of a subnet of the size [m_size] between the boundary cells. *)
Record maps_io (m : CellMapping) (ins outs : list Z) : Prop := {
  mi_ins : map_to_list (m_inputs m) ≡ₚ imap (λ j id, (in_key id, j)) ins;
  mi_outs : map_to_list (m_outputs m) ≡ₚ imap (λ j id, (out_key id, m_size m - length outs + j)) outs;
  mi_size : length outs ≤ m_size m;
}.

Lemma length_mapping {K A} `{Countable K} (m : gmap K A) (l : list (K * A)) : map_to_list m ≡ₚ l → size m = length l.
Proof. intros E. rewrite <- E. symmetry. apply length_map_to_list. Qed.

Lemma in_imap_iff {A B} (f : nat → A → B) (l : list A) y : y ∈ imap f l ↔ ∃ j x, l !! j = Some x ∧ y = f j x.
Proof.
  split.
  - intros [j Hj]%list_elem_of_lookup. rewrite list_lookup_imap in Hj. destruct (l !! j) as [x|] eqn:E; [|done].
    injection Hj as <-. by exists j, x.
  - intros (j & x & Hx & ->). apply list_elem_of_lookup. exists j. by rewrite list_lookup_imap, Hx.
Qed.

(** The visited entries by the numbers of their outputs. *)
Lemma visited_outs `{HashOrder} {K A} `{Countable K} (f : nat → A → K * nat) (m : gmap K nat) (ids : list A) :
  map_to_list m ≡ₚ imap f ids → ∃ todo, NoDup todo ∧ (∀ j, j ∈ todo ↔ j < length ids) ∧
    Forall2 (λ p j, ∃ id, ids !! j = Some id ∧ p = f j id) (visit (map_to_list m)) todo.
Proof.
  intros Hm. assert (visit (map_to_list m) ≡ₚ imap f ids) as Hp by (etransitivity; [apply visit_perm|done]). clear Hm.
  assert (Forall2 (λ p j, ∃ id, ids !! j = Some id ∧ p = f j id) (imap f ids) (seq 0 (length ids))) as Hall.
  { apply Forall2_same_length_lookup_2; [by rewrite length_imap, length_seq|]. intros i p j Hip Hj.
    apply lookup_seq in Hj as [-> Hj]. rewrite list_lookup_imap in Hip. destruct (ids !! i) as [id|] eqn:E; [|done].
    injection Hip as <-. by exists id. }
  assert (∃ todo, seq 0 (length ids) ≡ₚ todo ∧ Forall2 (λ p j, ∃ id, ids !! j = Some id ∧ p = f j id) (visit (map_to_list m)) todo)
    as (todo & Hpt & Hf).
  { symmetry in Hp. revert Hp Hall. generalize (seq 0 (length ids)) as js. generalize (imap f ids) as ps. generalize (visit (map_to_list m)) as qs.
    intros qs ps js Hp Hall. destruct (Permutation_Forall2 Hp Hall) as (js' & ? & ?). by exists js'. }
  exists todo. split_all; [rewrite <- Hpt; apply NoDup_seq| |done]. intros j. rewrite <- Hpt, elem_of_seq. lia.
Qed.

(** The inputs have link ends at the cells of the boundary. *)
Lemma mapped_inputs sn s u iv news : sn_wf sn = true → built s u → room u → length iv = Net.size sn →
  Forall (new_bound IN 0 s) news → length news = sn_nIn sn → (∀ j, j < sn_nIn sn → iv !! j = Some (input_of news j)) →
  mapped sn s iv (sn_nIn sn).
Proof.
  intros Hw Hb Hr Hlen Hnews Hn Hiv. split; [done| |].
  - intros j c Hj _ _. destruct (lookup_lt_is_Some_2 news j) as [new Hnew]; [lia|].
    destruct (Forall_lookup_1 _ _ _ _ Hnews Hnew) as (k & d & -> & Hk & _). exists (LinkEnd (makeFID CellID k) 0).
    split; [|by eapply end_new]. unfold source_of. cbn [idx LinkTo SubnetLink]. rewrite Hiv by done. cbn. by rewrite Hnew.
  - intros nv j c ls y _ Hj Hc _ Hy. destruct (wf_input sn j Hw Hj) as (d & Hd & Ht). assert (d = c) as -> by congruence.
    by rewrite Ht in Hy.
Qed.

Definition subnet_cost (sn : Subnet) : nat := entry_cost * Net.size sn + 3 * sn_nOut sn.

(** The composition of a subnet between boundary cells. *)
Lemma compose_subnet_spec `{HashOrder} sub d sn s u inout iolds inews oolds onews :
  sub (sd_subnetID d) = Some sn → sn_wf sn = true → small sn → maps_io (sd_mapping d) iolds oolds →
  length iolds = sn_nIn sn → length oolds = sn_nOut sn → renewed inout iolds inews → renewed inout oolds onews →
  built s u → Forall (new_bound IN 0 s) inews → Forall (new_bound OUT 1 s) onews → NoDup onews → room (u + subnet_cost sn) →
  ∃ s' iv0 iv, compose_subnet sub d inout s = Some (inout, s') ∧ built s' (u + subnet_cost sn) ∧ extends s s' ∧
    out_state sn onews iv0 s' iv [] ∧ ∀ j, j < sn_nIn sn → iv0 !! j = Some (input_of inews j).
Proof.
  intros Hsub Hw Hsm [Hmi Hmo Hms] Hli Hlo Hri Hro Hb Hni Hno Hnd Hr. pose proof (wf_sizes sn Hw) as Hsz.
  unfold subnet_cost in Hr. pose proof Hw as Hw'. unfold sn_wf in Hw'. apply andb_true_iff in Hw' as [_ Hck].
  destruct (inverse_inputs sn inout iolds inews s Hri Hli (visit (map_to_list (m_inputs (sd_mapping d)))) (replicate (Net.size sn) noDescriptor))
    as (iv1 & E1 & Hl1 & Hin1 & _).
  { rewrite length_replicate. lia. }
  { intros p. rewrite visit_perm, Hmi. intros (j & id & Hid & ->)%in_imap_iff. by exists id. }
  rewrite length_replicate in Hl1.
  assert (∀ j, j < sn_nIn sn → iv1 !! j = Some (input_of inews j)) as Hiv1.
  { intros j Hj. apply Hin1. destruct (lookup_lt_is_Some_2 iolds j) as [id Hid]; [lia|].
    apply (list_elem_of_fmap_2' snd _ (in_key id, j)); [|done]. rewrite visit_perm, Hmi. apply in_imap_iff. by exists j, id. }
  assert (mapped sn s iv1 (sn_nIn sn)) as Hm1.
  { eapply mapped_inputs; try done; [apply (room_mono _ _ Hr); lia|]. rewrite <- Hli. symmetry. apply (Forall2_length _ _ _ (proj1 Hri)). }
  destruct (sn_check_inputs sn Hw _ _ 0 Hck) as (f & known & Hf & Hk); [lia|].
  destruct (inners_spec sn Hw Hsm f (Net.size sn) known (sn_nIn sn) s u iv1 Hk Hf) as (s2 & iv0 & E2 & Hb2 & Hg2 & Hm2 & Hiv2);
    [lia|done|done|apply (room_mono _ _ Hr); nia|].
  destruct (visited_outs (λ j id, (out_key id, m_size (sd_mapping d) - length oolds + j)) _ _ Hmo) as (todo & Htd & Hall & HL).
  rewrite Hlo in HL, Hms.
  assert (length (visit (map_to_list (m_outputs (sd_mapping d)))) = sn_nOut sn) as Hlv.
  { rewrite (Permutation_length (visit_perm _ _)), length_map_to_list, (length_mapping _ _ Hmo), length_imap. done. }
  destruct (inverse_outputs sn Hw (sd_mapping d) Hms inout oolds onews Hro Hlo Hnd iv0 (visit (map_to_list (m_outputs (sd_mapping d))))
    s2 (u + entry_cost * f) iv0 todo Hb2) as (s3 & iv3 & E3 & Hb3 & He3 & Hos3).
  { rewrite Hlv. apply (room_mono _ _ Hr). nia. }
  { split; [done|apply Hm2|done|]. intros j new Hnew.
    destruct (Forall_lookup_1 _ _ _ _ Hno Hnew) as (k & c & -> & Hk' & Hc & Ht & Hl).
    destruct (gr_keeps _ _ Hg2 k c Hc) as (c' & Hc' & Et & _ & El). exists k, c'. pose proof (gr_sid _ _ Hg2).
    split_all; [done|lia|lia|done|congruence|]. rewrite bool_decide_eq_false_2; [cbn [out_cell]; by rewrite El, Hl|].
    intros Hj. apply Hj, Hall. rewrite (Forall2_length _ _ _ (proj1 Hro)). by eapply lookup_lt_Some. }
  { done. }
  { done. }
  exists s3, iv0, iv3. split_all.
  - unfold compose_subnet. rewrite (bind_eval (st_read _) _ s sn s) by (unfold st_read; by rewrite Hsub).
    rewrite (bind_eval (makeCellsForInputs _ _ _) _ s (iv1, inout) s).
    2:{ unfold makeCellsForInputs. rewrite (bind_eval (st_assert _) _ s () s); [done|].
        unfold st_assert. by rewrite (length_mapping _ _ Hmi), length_imap, Hli, Nat.eqb_refl. }
    unfold makeCellsForInners. rewrite (bind_eval _ _ _ _ _ E2).
    rewrite (bind_eval (makeCellsForOutputs _ _ _) _ s2 (iv3, inout) s3); [done|].
    unfold makeCellsForOutputs. rewrite (bind_eval (st_assert _) _ s2 () s2); [done|].
    unfold st_assert. by rewrite (length_mapping _ _ Hmo), length_imap, Hlo, Nat.eqb_refl.
  - eapply built_mono; [exact Hb3|]. rewrite Hlv. unfold subnet_cost. nia.
  - etransitivity; [by apply grows_extends|done].
  - done.
  - intros j Hj. rewrite Hiv2 by done. by apply Hiv1.
Qed.

(** ** The values of the composed cells *)

(** The new input [id]. *)
Definition new_input (s : State) (id : Z) : Prop :=
  ∃ k c, id = makeFID CellID k ∧ (b ≤ k < cellSID s)%Z ∧ cells s !! k = Some c ∧ typeID c = GateID IN.

Lemma new_input_extends s s' id n : extends s s' → new_bound IN n s id → new_input s' id.
Proof.
  intros He (k & c & -> & Hk & Hc & Ht & _). destruct (ex_types _ _ He k c Hc) as (c' & Hc' & Et). pose proof (ex_sid _ _ He).
  exists k, c'. split_all; [done|lia|lia|done|congruence].
Qed.

Section Values.
Context (sn : Subnet) (Hw : sn_wf sn = true) (s : State) (u : nat) (Hb : built s u) (Hr : room u).
Context (inews onews : list Z) (iv0 iv : InverseCellMapping) (Hos : out_state sn onews iv0 s iv []).
Context (Hon : length onews = sn_nOut sn) (Hin : length inews = sn_nIn sn).
Context (Hnew : Forall (new_input s) inews) (Hiv : ∀ j, j < sn_nIn sn → iv0 !! j = Some (input_of inews j)).

Lemma composed_consistent nv : consistent_from b (cells s) nv → sn_consistent (entry_val nv iv0) sn.
Proof using Hw Hos.
  clear Hon Hin. intros Hnv k c ls y Hc Hls Hy. destruct (decide (k < inner_end sn)) as [Hk|Hk].
  - by eapply (mp_val _ _ _ _ (os_map _ _ _ _ _ _ Hos)).
  - pose proof (getCell_size _ _ _ Hc) as Hsz. unfold inner_end in Hk.
    destruct (wf_output sn (k - inner_end sn) Hw) as (d & _ & Hd & Ht & _); [unfold inner_end; lia|]. unfold inner_end in Hd.
    replace (Net.size sn - sn_nOut sn + (k - (Net.size sn - sn_nOut sn))) with k in Hd by lia.
    assert (d = c) as -> by congruence. by rewrite Ht in Hy.
Qed.

Lemma new_number k : (b ≤ k < cellSID s)%Z → (0 ≤ k < NullSID CellID)%Z.
Proof using Hb Hr. clear Hon Hin. intros Hk. pose proof (bt_sid _ _ Hb). apply (number_range s u k Hb Hr). lia. Qed.

Lemma composed_inputs nv : in_values (entry_val nv iv0) sn = map (λ id, nv (makeSID CellID id) 0%Z) inews.
Proof using Hb Hr Hin Hnew Hiv.
  clear Hon. unfold in_values. apply list_eq. intros j. change (map ?f inews) with (f <$> inews). rewrite !list_lookup_fmap.
  destruct (decide (j < sn_nIn sn)) as [Hj|Hj].
  - rewrite lookup_seq_lt by done. destruct (lookup_lt_is_Some_2 inews j) as [new Hn]; [lia|]. rewrite Hn. cbn. f_equal.
    destruct (Forall_lookup_1 _ _ _ _ Hnew Hn) as (k & c & -> & Hk & _). pose proof (new_number k Hk) as Hrg.
    unfold entry_val, source_of, Net.getInIdx. cbn [idx]. rewrite Hiv by done. cbn. rewrite Hn. cbn [default].
    change (id (makeFID CellID k)) with (makeFID CellID k). by rewrite link_val_end, sid_of.
  - rewrite lookup_seq_ge by lia. by rewrite lookup_ge_None_2 by lia.
Qed.

Lemma composed_outputs nv ys : consistent_from b (cells s) nv → out_values (entry_val nv iv0) sn = Some ys →
  mapM (λ id, c ← get s id; l ← Nets.getLink c 0; Some (link_val nv l)) onews = Some ys.
Proof using Hb Hr Hos Hon.
  clear Hin. intros Hnv Hys. unfold out_values in Hys. apply mapM_Some in Hys. pose proof (Forall2_length _ _ _ Hys) as Hl. rewrite length_seq in Hl.
  apply mapM_Some. apply Forall2_same_length_lookup_2; [lia|]. intros j new y Hj Hy.
  assert (seq 0 (sn_nOut sn) !! j = Some j) as Hsj by (apply lookup_seq_lt; apply lookup_lt_Some in Hj; lia).
  pose proof (Forall2_lookup_lr _ _ _ _ _ _ Hys Hsj Hy) as Hyl. cbn in Hyl.
  destruct (os_cell _ _ _ _ _ _ Hos j new Hj) as (k & c & -> & Hk & Hc & Ht & Ho).
  rewrite bool_decide_eq_true_2 in Ho by apply not_elem_of_nil. destruct Ho as (w & l & Hcl & (Hg & _) & Hl' & Hv).
  rewrite (get_fid s k c (new_number k Hk) Hc). cbn [mbind option_bind].
  destruct (bt_cell _ _ Hb k c (proj1 Hk) Hc) as [Hok _]. unfold Nets.getLink.
  rewrite (ok_array _ _ Hok) by by rewrite Hcl. cbn [mbind option_bind]. rewrite Hcl. cbn. rewrite good_unpack by done.
  rewrite Hl' in Hyl. cbn in Hyl. injection Hyl as <-. f_equal. by apply Hv.
Qed.

(** *** A valuation for given inputs *)

Context (inp : Z → bool).

Fixpoint cell_val (f : nat) (k : Z) : bool :=
  match f with
  | 0 => false
  | S f =>
    match cells s !! k with
    | Some c => default (inp k) (cell_fun (typeID c) (map (λ w, cell_val f (NetSpec.source w)) (cell_links c)))
    | None => false
    end
  end.

Lemma cell_val_fuel : ∀ f g k, (b ≤ k)%Z → Z.to_nat (k - b) < f → Z.to_nat (k - b) < g → cell_val f k = cell_val g k.
Proof using Hb.
  clear Hon Hin. induction f as [|f IH]; intros [|g] k Hk Hf Hg; [lia..|]. cbn [cell_val]. destruct (cells s !! k) as [c|] eqn:Hc; [|done].
  destruct (decide (typeID c = GateID OUT)) as [Ht|Ht]; [by rewrite Ht|]. f_equal. f_equal. apply map_ext_in.
  intros w Hin%list_elem_of_In. destruct (bt_links _ _ Hb k c w Hk Hc Ht Hin) as [_ Hs]. apply IH; lia.
Qed.

Definition the_val : nval := λ k _, cell_val (S (Z.to_nat (cellSID s - b))) k.

Lemma the_val_consistent : consistent_from b (cells s) the_val.
Proof using Hb.
  clear Hon Hin. intros k c y Hk Hc Hy. pose proof (bt_below _ _ Hb k c Hc) as Hlt. unfold the_val. cbn [cell_val]. rewrite Hc.
  destruct (decide (typeID c = GateID OUT)) as [Ht|Ht]; [by rewrite Ht in Hy|].
  assert (map (link_val the_val) (cell_links c) = map (λ w, cell_val (Z.to_nat (cellSID s - b)) (NetSpec.source w)) (cell_links c)) as E.
  { apply map_ext_in. intros w Hin%list_elem_of_In. destruct (bt_links _ _ Hb k c w Hk Hc Ht Hin) as [_ Hs].
    apply cell_val_fuel; lia. }
  change (link_val the_val <$> cell_links c) with (map (link_val the_val) (cell_links c)) in Hy. rewrite E in Hy. by rewrite Hy.
Qed.

Lemma the_val_input k c : cells s !! k = Some c → typeID c = GateID IN → the_val k 0%Z = inp k.
Proof using. clear Hon Hin. intros Hc Ht. unfold the_val. cbn [cell_val]. by rewrite Hc, Ht. Qed.
End Values.

Lemma composed_values sn s u inews onews iv0 iv : sn_wf sn = true → built s u → room u → out_state sn onews iv0 s iv [] →
  length onews = sn_nOut sn → length inews = sn_nIn sn → Forall (new_input s) inews → NoDup inews →
  (∀ j, j < sn_nIn sn → iv0 !! j = Some (input_of inews j)) → inputs (builder s) = inews → outputs (builder s) = onews →
  ∀ n f, implements sn n f → ∀ net, lists net = builder s → net_implements s net n f.
Proof.
  intros Hw Hb Hr Hos Hon Hin Hnew Hnd Hiv Ein Eout n f (Hn & Hf & _) net Hnet.
  assert (∀ nv, net_consistent s net nv ↔ consistent_from b (cells s) nv) as Hcons.
  { intros nv. unfold net_consistent. rewrite Hnet. split.
    - intros Hnv k c y Hk Hc Hy. pose proof (bt_below _ _ Hb k c Hc) as Hlt. assert (0 ≤ k < NullSID CellID)%Z as Hrg by (apply (number_range s u); [done..|lia]).
      rewrite <- (sid_of k Hrg). apply (Hnv (makeFID CellID k) c y); [|by apply get_fid|done]. apply (bt_lists _ _ Hb). exists k. split; [lia|done].
    - intros Hnv id c y (k & Hk & ->)%(bt_lists _ _ Hb) Hc Hy. assert (0 ≤ k < NullSID CellID)%Z as Hrg by (eapply new_number; done).
      rewrite sid_of by done. unfold get in Hc. rewrite fid_not_null, sid_of in Hc by done. by apply (Hnv k c y); [lia|..]. }
  unfold net_implements. split_all.
  - rewrite Hnet, Ein. congruence.
  - intros nv Hnv%Hcons. unfold net_out, net_in. rewrite Hnet, Ein, Eout. eapply composed_outputs; [done..|].
    rewrite Hf by (by eapply composed_consistent). f_equal. f_equal. by eapply composed_inputs.
  - intros xs Hxs. set (inp := λ k, default false ((list_to_map (zip inews xs) : gmap Z bool) !! makeFID CellID k)).
    exists (the_val s inp). split; [by apply Hcons, the_val_consistent with (u := u)|].
    unfold net_in. rewrite Hnet, Ein. apply list_eq. intros j. rewrite list_lookup_fmap. destruct (inews !! j) as [new|] eqn:Ej.
    + destruct (Forall_lookup_1 _ _ _ _ Hnew Ej) as (k & c & -> & Hk & Hc & Ht). destruct (lookup_lt_is_Some_2 xs j) as [x Hx].
      { apply lookup_lt_Some in Ej. lia. }
      cbn [fmap option_fmap option_map]. rewrite sid_of by (by eapply new_number). rewrite (the_val_input s inp k c Hc Ht), Hx. f_equal. unfold inp.
      rewrite (elem_of_list_to_map_1 _ _ x); [done|rewrite fst_zip; [done|lia]|]. apply list_elem_of_lookup. exists j.
      rewrite lookup_zip_with, Ej. cbn. by rewrite Hx.
    + apply lookup_ge_None in Ej. symmetry. apply lookup_ge_None. lia.
Qed.

End Compose.

(** ** Composition and decomposition of a single subnet *)

Section Whole.
Context `{TypeStore} `{HashOrder}.

(** The numbers of the stored cells are below the next one, and the fanouts in their range. *)
Record cells_stored (s : State) : Prop := {
  cs_below : (0 ≤ cellSID s)%Z ∧ ∀ k c, cells s !! k = Some c → (0 ≤ k < cellSID s)%Z;
  cs_fanout : ∀ k c, cells s !! k = Some c → (fanout c ≤ MaxFanout)%N;
}.

(** A description of a net by one subnet. *)
Record describes (w : World) (r : Result) (d : SubnetDesc) : Prop := {
  ds_subnets : r_subnets r = [d];
  ds_maps : maps_io (sd_mapping d) (r_inputs r) (r_outputs r);
  ds_nodup : NoDup (r_inputs r ++ r_outputs r);
  ds_ins : Forall (bound_cell IN 0 (w_net w)) (r_inputs r);
  ds_outs : Forall (bound_cell OUT 1 (w_net w)) (r_outputs r);
}.

Lemma built_start s : cells_stored s → built (cellSID s) (mkState (cells s) (cellSID s) empty_net) 0.
Proof.
  intros [[Hb0 Hb] Hf]. split; cbn [cells cellSID builder]; try lia; try done.
  - intros k c Hk Hc. apply Hb in Hc. lia.
  - intros k c w Hk Hc. apply Hb in Hc. lia.
  - intros id. split; [by intros ?%elem_of_nil|]. intros (k & Hk & _). lia.
  - cbn. lia.
Qed.

Lemma list_len_small (l : list Z) : (Z.of_nat (length l) < 2 ^ 32)%Z → list_len l = Some (N.of_nat (length l)).
Proof. intros Hl. unfold list_len. rewrite (proj2 (N.ltb_lt _ _)); [done|lia]. Qed.

(** The lists of the builder are short enough for a net. *)
Lemma make_built b s u : built b s u → room b u → ∃ n, Nets.make s = Some n ∧ lists n = builder s.
Proof.
  intros Hb Hr. pose proof (bt_length _ _ _ Hb) as Hl. pose proof (bt_sid _ _ _ Hb) as [[Hb0 _] Hb1]. unfold room in Hr.
  unfold all_cells in Hl. rewrite !length_app in Hl. unfold Nets.make. rewrite !list_len_small by lia.
  by eexists.
Qed.

Lemma renewed_of sym n s (inout : InOutCellMapping) olds news : Forall (bound_cell sym n s) olds →
  Forall2 (λ id new, inout !! id = Some new) olds news → renewed inout olds news.
Proof.
  intros Ho Hn. split; [done|]. eapply Forall_impl; [exact Ho|]. intros id (k & c & -> & Hk & _). by exists k.
Qed.

(** The composition of the description makes a net of the function of the subnet. *)
Lemma compose_one w r d sn n f : cells_stored (w_net w) → describes w r d → subnet_get w (sd_subnetID d) = Some sn →
  sn_wf sn = true → small sn → length (r_inputs r) = sn_nIn sn → length (r_outputs r) = sn_nOut sn → implements sn n f →
  room (cellSID (w_net w)) (2 * sn_nIn sn + 2 * sn_nOut sn + subnet_cost sn) →
  ∃ net w', Decomposer.compose r w = Some (net, w') ∧ net_implements (w_net w') net n f ∧ w_subnets w' = w_subnets w.
Proof.
  intros Hst [Hsub Hmaps Hnd Hins Houts] Hsn Hw Hsm Hli Hlo Himp Hr. set (b := cellSID (w_net w)) in *.
  set (s0 := mkState (cells (w_net w)) b empty_net). pose proof (built_start _ Hst : built b s0 0) as Hb0.
  apply NoDup_app in Hnd as (Hndi & Hdis & Hndo).
  destruct (bounds_spec b IN 0 (or_introl (conj eq_refl eq_refl)) (r_inputs r) s0 0 ∅ Hb0 Hndi)
    as (s1 & io1 & inews & E1 & Hb1 & Hk1 & Hs1 & (Hdn1 & _) & Hn1 & Hio1 & Hout1 & Hl1).
  { intros id Hid. split; [|apply lookup_empty]. rewrite Forall_forall in Hins. by apply Hins. }
  { apply (room_mono _ _ _ Hr). lia. }
  destruct (bounds_spec b OUT 1 (or_intror (conj eq_refl eq_refl)) (r_outputs r) s1 _ io1 Hb1 Hndo)
    as (s2 & io2 & onews & E2 & Hb2 & Hk2 & Hs2 & (Hdn2 & _) & Hn2 & Hio2 & Hout2 & Hl2).
  { intros id Hid. rewrite Forall_forall in Houts. split; [eapply bound_cell_keeps; [exact Hk1|by apply Houts]|].
    rewrite Hout1; [apply lookup_empty|]. intros Hi. by apply (Hdis id). }
  { apply (room_mono _ _ _ Hr). lia. }
  assert (Forall2 (λ id new, io2 !! id = Some new) (r_inputs r) inews) as Hio1'.
  { apply Forall2_same_length_lookup_2; [by eapply Forall2_length|]. intros i id new Hid Hnew.
    rewrite Hout2; [by eapply (Forall2_lookup_lr _ _ _ _ _ _ Hio1)|]. apply Hdis. by eapply list_elem_of_lookup_2. }
  pose proof (Forall2_length _ _ _ Hio1) as Hil. pose proof (Forall2_length _ _ _ Hio2) as Hol.
  destruct (compose_subnet_spec b (subnet_get w) d sn s2 (0 + 2 * length (r_inputs r) + 2 * length (r_outputs r)) io2
    (r_inputs r) inews (r_outputs r) onews Hsn Hw Hsm Hmaps Hli Hlo) as (s3 & iv0 & iv & E3 & Hb3 & He3 & Hos3 & Hiv3).
  { by eapply renewed_of. }
  { by eapply renewed_of. }
  { done. }
  { eapply Forall_impl; [exact Hn1|]. intros x. by apply new_bound_keeps. }
  { done. }
  { done. }
  { apply (room_mono _ _ _ Hr). lia. }
  assert (room b (0 + 2 * length (r_inputs r) + 2 * length (r_outputs r) + subnet_cost sn)) as Hr3 by (apply (room_mono _ _ _ Hr); lia).
  destruct (make_built b s3 _ Hb3 Hr3) as (net & Hnet & Hlists).
  exists net, (mkWorld (mkState (cells s3) (cellSID s3) (builder (w_net w))) (w_subnets w)). split_all; [| |done].
  - unfold Decomposer.compose, compose_cells. fold b s0. rewrite (bind_eval _ _ _ _ _ E1), (bind_eval _ _ _ _ _ E2), Hsub.
    cbn [st_fold]. rewrite (bind_eval _ _ s2 io2 s3) by (by rewrite (bind_eval _ _ _ _ _ E3)).
    unfold mret, st_ret. cbn [mbind option_bind]. by rewrite Hnet.
  - assert (net_implements s3 net n f) as Hni.
    { eapply (composed_values b sn s3 _ inews onews iv0 iv Hw Hb3 Hr3 Hos3); try done; try congruence.
      - eapply Forall_impl; [exact Hn1|]. intros x Hx. eapply new_input_extends; [exact He3|by eapply new_bound_keeps].
      - rewrite (ex_inputs _ _ _ He3). pose proof (Hl1 IN (or_introl eq_refl)) as L1. pose proof (Hl2 IN (or_introl eq_refl)) as L2.
        change (inputs (builder s1) = inews) in L1. change (inputs (builder s2) = inputs (builder s1) ++ []) in L2.
        rewrite app_nil_r in L2. congruence.
      - rewrite (ex_outputs _ _ _ He3). pose proof (Hl1 OUT (or_intror eq_refl)) as L1. pose proof (Hl2 OUT (or_intror eq_refl)) as L2.
        change (outputs (builder s1) = []) in L1. change (outputs (builder s2) = outputs (builder s1) ++ onews) in L2.
        rewrite L1 in L2. exact L2. }
    exact Hni.
Qed.

(** *** The description of a subnet *)

Lemma make_stored s ty links : cells_stored s → (cellSID s + 1 < 2 ^ 32)%Z → ty ≠ NullTypeID → length links ≤ MaxArity →
  ∃ c, makeCell ty links s = Some (makeFID CellID (cellSID s), stored s c) ∧ cells_stored (stored s c) ∧
    typeID c = ty ∧ fanin c = N.of_nat (length links).
Proof.
  intros [[Hb0 Hb] Hf] Hn Hty Hlen. unfold MaxArity in Hlen.
  destruct (new_cell ty links ltac:(lia)) as (c & Hc & Hf0 & _ & Hcty & _ & Hfi). exists c. split_all.
  - unfold makeCell. rewrite bool_decide_eq_false_2 by done. rewrite (bind_eval _ _ _ () s) by done.
    rewrite (bind_eval (st_read _) _ s c s) by (unfold st_read; by rewrite Hc).
    rewrite (bind_eval st_get _ s s s) by done. rewrite Z.mod_small by lia. fold (stored s c).
    rewrite (bind_eval (st_put _) _ s () (stored s c)) by done.
    rewrite (bind_eval (st_assert _) _ (stored s c) () (stored s c)); [done|].
    unfold st_assert. by rewrite fid_not_null by (apply (sid_range _ (cellSID s + 1)); lia).
  - split; [split; [cbn; lia|]|].
    + intros k d Hd%stored_cell. cbn [stored cellSID]. destruct Hd as [[-> _]|[_ Hd]]; [lia|]. apply Hb in Hd. lia.
    + intros k d Hd%stored_cell. destruct Hd as [[_ ->]|[_ Hd]]; [rewrite Hf0; by vm_compute|by eapply Hf].
  - done.
  - done.
Qed.

Lemma bound_cell_stored sym n s c id : cells_stored s → bound_cell sym n s id → bound_cell sym n (stored s c) id.
Proof.
  intros Hs (k & d & -> & Hk & Hd & Ht). exists k, d. apply (cs_below _ Hs) in Hd as Hlt. destruct Ht as [Ht Hf].
  split_all; [done|lia|lia| |done|done]. cbn [stored cells]. by rewrite lookup_insert_ne by lia.
Qed.

Definition fresh_ids (s : State) (n : nat) : list Z := map (λ i, makeFID CellID (cellSID s + Z.of_nat i)) (seq 0 n).

Lemma fresh_ids_S s n c : fresh_ids s (S n) = makeFID CellID (cellSID s) :: fresh_ids (stored s c) n.
Proof.
  unfold fresh_ids. cbn [seq map]. rewrite Z.add_0_r. f_equal. rewrite <- seq_shift, map_map. apply map_ext.
  intros i. f_equal. cbn [stored cellSID]. lia.
Qed.

(** The entries of the boundary carry data, and no flip-flop. *)
Definition data_entry : EntryDesc := mkEntryDesc DATA false (2 ^ 64 - 1).

(** The steps of the two loops: a new cell, its key in a part of the mapping. *)
Section Describe.
Context (sym : CellSymbol) (n base : nat) (key : Z → NetLink) (part other : CellMapping → gmap NetLink nat).
Context (F : nat → list Z * CellMapping * gmap nat EntryDesc → st State (list Z * CellMapping * gmap nat EntryDesc)).

Context (HF : ∀ i ids m d s, cells_stored s → (cellSID s + 1 < 2 ^ 32)%Z → part m !! key (makeFID CellID (cellSID s)) = None →
  ∃ c m', F i (ids, m, d) s = Some ((ids ++ [makeFID CellID (cellSID s)], m', <[base + i := data_entry]> d), stored s c) ∧
    cells_stored (stored s c) ∧ typeID c = GateID sym ∧ fanin c = N.of_nat n ∧
    part m' = <[key (makeFID CellID (cellSID s)) := base + i]> (part m) ∧ other m' = other m ∧ m_size m' = m_size m).
Context (Hkey : ∀ j k, (0 ≤ j < NullSID CellID)%Z → (0 ≤ k < NullSID CellID)%Z → key (makeFID CellID j) = key (makeFID CellID k) → j = k).

Lemma describe_loop : ∀ len i ids m d s, cells_stored s → (cellSID s + Z.of_nat len < 2 ^ 32)%Z →
  (∀ k, (cellSID s ≤ k < NullSID CellID)%Z → part m !! key (makeFID CellID k) = None) →
  ∃ m' d' s', st_fold F (seq i len) (ids, m, d) s = Some ((ids ++ fresh_ids s len, m', d'), s') ∧ cells_stored s' ∧
    cellSID s' = (cellSID s + Z.of_nat len)%Z ∧ (∀ sy a id, bound_cell sy a s id → bound_cell sy a s' id) ∧
    Forall (bound_cell sym n s') (fresh_ids s len) ∧
    map_to_list (part m') ≡ₚ map_to_list (part m) ++ imap (λ j id, (key id, base + i + j)) (fresh_ids s len) ∧
    other m' = other m ∧ m_size m' = m_size m ∧
    (∀ j, j < len → d' !! (base + i + j) = Some data_entry) ∧
    (∀ k x, d' !! k = Some x → d !! k = Some x ∨ x = data_entry) ∧ (∀ k, is_Some (d !! k) → is_Some (d' !! k)).
Proof using HF Hkey.
  induction len as [|len IH]; intros i ids m d s Hs Hn Hfresh.
  { exists m, d, s. cbn. rewrite !app_nil_r. split_all; first [done|lia|by constructor|by left|intros; lia]. }
  pose proof (cs_below _ Hs) as [Hb0 _].
  assert (∀ k, (0 ≤ k < cellSID s + Z.of_nat (S len))%Z → (0 ≤ k < NullSID CellID)%Z) as Hrg by (intros k Hk; by apply (sid_range k (cellSID s + Z.of_nat (S len)))).
  destruct (HF i ids m d s Hs) as (c & m1 & E1 & Hs1 & Ht & Hf & Hp1 & Ho1 & Hz1); [lia|apply Hfresh; pose proof (Hrg (cellSID s)); lia|].
  destruct (IH (S i) (ids ++ [makeFID CellID (cellSID s)]) m1 (<[base + i := data_entry]> d) (stored s c) Hs1)
    as (m2 & d2 & s2 & E2 & Hs2 & Hsid & Hk2 & Hb2 & Hp2 & Ho2 & Hz2 & He2 & Hx2 & Hm2).
  { cbn [stored cellSID]. lia. }
  { intros k Hk. cbn [stored cellSID] in Hk. rewrite Hp1, lookup_insert_ne; [apply Hfresh; lia|]. intros E.
    apply Hkey in E; [lia|apply Hrg; lia|lia]. }
  exists m2, d2, s2. rewrite (fresh_ids_S s len c). split_all.
  - cbn [seq st_fold]. rewrite (bind_eval _ _ _ _ _ E1), E2. by rewrite <- app_assoc.
  - done.
  - rewrite Hsid. cbn [stored cellSID]. lia.
  - intros sy a id Hid. apply Hk2. by apply bound_cell_stored.
  - constructor; [|done]. apply Hk2. exists (cellSID s), c. pose proof (Hrg (cellSID s)).
    split_all; [done|lia|lia| |done|done]. cbn [stored cells]. by rewrite lookup_insert_eq.
  - rewrite Hp2, Hp1, map_to_list_insert by (apply Hfresh; pose proof (Hrg (cellSID s)); lia). rewrite imap_cons. cbn [app].
    rewrite <- Permutation_middle, Nat.add_0_r. apply perm_skip. apply Permutation_app_head.
    erewrite imap_ext; [reflexivity|]. intros j x _. cbn. f_equal. lia.
  - congruence.
  - congruence.
  - intros j Hj. destruct j as [|j].
    + rewrite Nat.add_0_r. destruct (Hm2 (base + i)) as [x Hx]; [by rewrite lookup_insert_eq|]. rewrite Hx. f_equal.
      destruct (Hx2 _ _ Hx) as [E|E]; [|done]. rewrite lookup_insert_eq in E. by injection E as <-.
    + rewrite <- (He2 j) by lia. f_equal. lia.
  - intros k x Hx. destruct (Hx2 k x Hx) as [E|E]; [|by right]. apply lookup_insert_Some in E as [[_ <-]|[_ E]]; [by right|by left].
  - intros k Hk. apply Hm2. destruct (decide (base + i = k)) as [<-|Hne]; [by rewrite lookup_insert_eq|by rewrite lookup_insert_ne].
Qed.
End Describe.

Lemma stored_info s c t : cells_stored s → (cellSID s + 1 < 2 ^ 32)%Z → cellType c = Some t →
  getCellInfo (stored s c) (makeFID CellID (cellSID s)) = Some (c, t).
Proof.
  intros Hs Hn Ht. pose proof (cs_below _ Hs) as [Hb0 _]. unfold getCellInfo.
  rewrite (get_fid (stored s c) (cellSID s) c); [cbn; by rewrite Ht|apply (sid_range _ (cellSID s + 1)); lia|].
  cbn [stored cells]. by rewrite lookup_insert_eq.
Qed.

Lemma decompose_input_step i ids m d s : cells_stored s → (cellSID s + 1 < 2 ^ 32)%Z →
  m_inputs m !! in_key (makeFID CellID (cellSID s)) = None →
  ∃ c m', decompose_input i (ids, m, d) s =
      Some ((ids ++ [makeFID CellID (cellSID s)], m', <[0 + i := data_entry]> d), stored s c) ∧
    cells_stored (stored s c) ∧ typeID c = GateID IN ∧ fanin c = N.of_nat 0 ∧
    m_inputs m' = <[in_key (makeFID CellID (cellSID s)) := 0 + i]> (m_inputs m) ∧ m_outputs m' = m_outputs m ∧ m_size m' = m_size m.
Proof.
  intros Hs Hn Hno. destruct (make_stored s (GateID IN) [] Hs Hn ltac:(done) ltac:(cbn; lia)) as (c & Emake & Hs' & Ht & Hf).
  destruct (getType (GateID IN)) as [t|] eqn:Et; [|done]. assert (getSignalType t 0 = Some DATA) as Hsig by (by injection Et as <-).
  exists c. eexists. split_all; [|done|done|done|..].
  - unfold decompose_input. rewrite (bind_eval _ _ _ _ _ Emake).
    rewrite (bind_eval (st_read _) _ _ (c, t) (stored s c)) by (unfold st_read; rewrite (stored_info s c t Hs Hn); [done|unfold cellType; by rewrite Ht]).
    cbn [snd]. rewrite (bind_eval (st_read _) _ _ DATA (stored s c)) by (unfold st_read; by rewrite Hsig). reflexivity.
  - cbn [add_input m_inputs]. unfold in_key in Hno. by rewrite Hno.
  - done.
  - done.
Qed.

Lemma decompose_output_step sn i ids m d s : cells_stored s → (cellSID s + 1 < 2 ^ 32)%Z →
  m_outputs m !! out_key (makeFID CellID (cellSID s)) = None →
  ∃ c m', decompose_output sn i (ids, m, d) s =
      Some ((ids ++ [makeFID CellID (cellSID s)], m', <[Net.size sn - sn_nOut sn + i := data_entry]> d), stored s c) ∧
    cells_stored (stored s c) ∧ typeID c = GateID OUT ∧ fanin c = N.of_nat 1 ∧
    m_outputs m' = <[out_key (makeFID CellID (cellSID s)) := Net.size sn - sn_nOut sn + i]> (m_outputs m) ∧
    m_inputs m' = m_inputs m ∧ m_size m' = m_size m.
Proof.
  intros Hs Hn Hno. destruct (make_stored s (GateID OUT) [LinkEnd_null] Hs Hn ltac:(done) ltac:(cbn; unfold MaxArity; lia)) as (c & Emake & Hs' & Ht & Hf).
  destruct (getType (GateID OUT)) as [t|] eqn:Et; [|done]. assert (getSignalType t 0 = Some DATA) as Hsig by (by injection Et as <-).
  exists c. eexists. split_all; [|done|done|done|..].
  - unfold decompose_output. rewrite (bind_eval _ _ _ _ _ Emake).
    rewrite (bind_eval (st_read _) _ _ (c, t) (stored s c)) by (unfold st_read; rewrite (stored_info s c t Hs Hn); [done|unfold cellType; by rewrite Ht]).
    cbn [snd]. rewrite (bind_eval (st_read _) _ _ DATA (stored s c)) by (unfold st_read; by rewrite Hsig). reflexivity.
  - cbn [add_output m_outputs]. unfold out_key in Hno. by rewrite Hno.
  - done.
  - done.
Qed.

Lemma end_inj j k : (0 ≤ j < NullSID CellID)%Z → (0 ≤ k < NullSID CellID)%Z →
  LinkEnd (makeFID CellID j) 0 = LinkEnd (makeFID CellID k) 0 → j = k.
Proof.
  intros Hj Hk E. destruct (end_zero j Hj) as (_ & _ & E1 & _). destruct (end_zero k Hk) as (_ & _ & E2 & _).
  by rewrite <- E1, <- E2, E.
Qed.

Lemma in_key_inj j k : (0 ≤ j < NullSID CellID)%Z → (0 ≤ k < NullSID CellID)%Z →
  in_key (makeFID CellID j) = in_key (makeFID CellID k) → j = k.
Proof. intros Hj Hk E. apply (end_inj j k Hj Hk). exact (f_equal fst E). Qed.

Lemma out_key_inj j k : (0 ≤ j < NullSID CellID)%Z → (0 ≤ k < NullSID CellID)%Z →
  out_key (makeFID CellID j) = out_key (makeFID CellID k) → j = k.
Proof. intros Hj Hk E. apply (end_inj j k Hj Hk). exact (f_equal snd E). Qed.

Lemma fresh_NoDup s n : (0 ≤ cellSID s)%Z → (cellSID s + Z.of_nat n < 2 ^ 32)%Z → NoDup (fresh_ids s n).
Proof.
  intros H1 H2. unfold fresh_ids. apply NoDup_alt. intros i j x Hi Hj. change (map ?f ?l) with (f <$> l) in *.
  rewrite list_lookup_fmap in Hi, Hj. apply fmap_Some in Hi as (i' & Hi & ->). apply fmap_Some in Hj as (j' & Hj & E).
  apply lookup_seq in Hi as [-> Hi], Hj as [-> Hj]. apply fid_inj in E; [lia|..]; apply (sid_range _ (cellSID s + Z.of_nat n)); lia.
Qed.

(** A subnet is described between new cells. *)
Lemma describe_subnet w id sn : cells_stored (w_net w) → subnet_get w id = Some sn → sn_nOut sn ≤ Net.size sn →
  (cellSID (w_net w) + Z.of_nat (sn_nIn sn + sn_nOut sn) < 2 ^ 32)%Z →
  ∃ r w' d, decompose_subnet id w = Some (r, w') ∧ w_subnets w' = w_subnets w ∧ cells_stored (w_net w') ∧
    cellSID (w_net w') = (cellSID (w_net w) + Z.of_nat (sn_nIn sn + sn_nOut sn))%Z ∧ describes w' r d ∧
    sd_subnetID d = id ∧ length (r_inputs r) = sn_nIn sn ∧ length (r_outputs r) = sn_nOut sn ∧ m_size (sd_mapping d) = Net.size sn ∧
    (∀ j, j < sn_nIn sn → is_Some (sd_entries d !! j)) ∧
    (∀ j, j < sn_nOut sn → sd_entries d !! Net.getOutIdx sn j = Some data_entry).
Proof.
  intros Hs Hsn Hsz Hn. set (s := w_net w) in *. pose proof (cs_below _ Hs) as [Hb0 _]. rewrite Nat2Z.inj_add in Hn.
  destruct (describe_loop IN 0 0 in_key m_inputs m_outputs decompose_input (λ i ids m d s', decompose_input_step i ids m d s') in_key_inj
    (sn_nIn sn) 0 [] (mkMapping (Net.size sn) ∅ ∅ ∅) ∅ s Hs) as (m1 & d1 & s1 & E1 & Hs1 & Hsid1 & Hk1 & Hb1 & Hp1 & Ho1 & Hz1 & He1 & _ & Hm1); [lia|done|].
  destruct (describe_loop OUT 1 (Net.size sn - sn_nOut sn) out_key m_outputs m_inputs (decompose_output sn)
    (λ i ids m d s', decompose_output_step sn i ids m d s') out_key_inj
    (sn_nOut sn) 0 [] m1 d1 s1 Hs1) as (m2 & d2 & s2 & E2 & Hs2 & Hsid2 & Hk2 & Hb2 & Hp2 & Ho2 & Hz2 & He2 & Hx2 & Hm2); [lia|by rewrite Ho1|].
  assert (∀ s' k, length (fresh_ids s' k) = k) as Hlen by (intros s' k; unfold fresh_ids; by rewrite length_map, length_seq).
  exists (mkResult (fresh_ids s (sn_nIn sn)) (fresh_ids s1 (sn_nOut sn)) [mkSubnetDesc id m2 d2]), (mkWorld s2 (w_subnets w)), (mkSubnetDesc id m2 d2).
  cbn [w_subnets w_net sd_subnetID sd_mapping r_inputs r_outputs m_size]. split_all.
  - unfold decompose_subnet. rewrite (bind_eval st_get _ w w w) by done.
    rewrite (bind_eval (st_read _) _ w sn w) by (unfold st_read; by rewrite Hsn).
    rewrite (bind_eval (on_net _) _ w (fresh_ids s (sn_nIn sn), m1, d1) (mkWorld s1 (w_subnets w))) by (unfold on_net; fold s; by rewrite E1).
    cbn [fst snd].
    rewrite (bind_eval (on_net _) _ _ (fresh_ids s1 (sn_nOut sn), m2, d2) (mkWorld s2 (w_subnets w))) by (unfold on_net; cbn [w_net w_subnets]; by rewrite E2).
    done.
  - done.
  - done.
  - lia.
  - split; cbn [r_subnets r_inputs r_outputs sd_mapping w_net].
    + done.
    + split.
      * rewrite Ho2, Hp1. cbn [m_inputs]. by rewrite map_to_list_empty.
      * rewrite Hp2, Ho1. cbn [m_outputs]. rewrite map_to_list_empty, Hlen, Hz2, Hz1. cbn [app m_size].
        erewrite imap_ext; [reflexivity|]. intros j x _. cbn. f_equal. lia.
      * rewrite Hlen, Hz2, Hz1. done.
    + rewrite NoDup_app. split_all; [apply fresh_NoDup; lia| |apply fresh_NoDup; lia].
      intros x Hi Hj. unfold fresh_ids in Hi, Hj. apply list_elem_of_fmap in Hi as (i & -> & Hi), Hj as (j & E & Hj).
      apply elem_of_seq in Hi, Hj. apply fid_inj in E; [lia|..]; apply (sid_range _ (cellSID s1 + Z.of_nat (sn_nOut sn))); lia.
    + eapply Forall_impl; [exact Hb1|]. intros x. apply Hk2.
    + done.
  - done.
  - apply Hlen.
  - apply Hlen.
  - by rewrite Hz2, Hz1.
  - intros j Hj. cbn [sd_entries]. apply Hm2. specialize (He1 j Hj). cbn in He1. by rewrite He1.
  - intros j Hj. cbn [sd_entries]. specialize (He2 j Hj). rewrite Nat.add_0_r in He2. exact He2.
Qed.

End Whole.
