(* ===== verification/DecomposerSpec.v ===== *)
(** * The components of a net

    What the decomposition of a net promises: the components are the connected parts
    between the outputs and the inputs, each with its cells in topological order.
    The traversal keeps the finished components and the cone of the current
    output apart, until the output is connected to the components that it met. *)

From S2P Require Import Prelude ObjectId CellType SubnetBase Builder BlockList Nets NetSpec Decomposer.
From stdpp Require Import gmap sorting strings.
Import Nets.

(** ** Definitions *)

Section Components.
Context `{TypeStore}.
Context (s : State).

(** The links into a cell. *)
Definition links_into (id : Z) : list NetLink :=
  imap (λ j l, (l, LinkEnd id (Z.of_nat j))) (default [] (cell_links <$> get s id)).

(** The link comes from an input, a flip-flop or a block. *)
Definition is_input (l : NetLink) : bool := default false (isInputLink s l).

Definition src (l : NetLink) : Z := getCellID l.1.

(** The cell [id] is in the cone of the output link [o]. *)
Inductive in_cone (o : NetLink) : Z → Prop :=
  | cone_start : is_input o = false → in_cone o (src o)
  | cone_step id l : in_cone o id → l ∈ links_into id → is_input l = false → in_cone o (src l).

Definition canonical (id : Z) : Prop := id = makeFID CellID (makeSID CellID id).

(** The source of the link is a cell. *)
Definition has_source (l : Z) : Prop := is_Some (get s (getCellID l)) ∧ canonical (getCellID l).

(** The cells have known types and links that lead to cells. *)
Definition cells_ready : Prop := ∀ id c, get s id = Some c →
  is_Some (cellType c) ∧ getLinks c = Some (cell_links c) ∧ fanin c = N.of_nat (length (cell_links c)) ∧
  length (cell_links c) < Z.to_nat (2 ^ 16) ∧ Forall has_source (cell_links c).

(** The ranks grow along the links within components. *)
Definition ranked (rank : Z → nat) : Prop :=
  ∀ id l, l ∈ links_into id → is_input l = false → rank (src l) < rank id.

Context (outs : list NetLink).

(** The cones of two output links share a cell. *)
Definition share (o o' : NetLink) : Prop :=
  o ∈ outs ∧ o' ∈ outs ∧ ∃ id, in_cone o id ∧ in_cone o' id.

Definition link_of (c : NetComponent) (l : NetLink) : Prop :=
  l ∈ c_outputs c ∨ ∃ id, id ∈ c_inners c ∧ l ∈ links_into id.

(** The component, without the cells of [base]. *)
Record part (base : list Z) (c : NetComponent) : Prop := {
  pt_cone : ∀ id, id ∈ c_inners c → ∃ o, o ∈ c_outputs c ∧ in_cone o id;
  pt_closed : ∀ l, link_of c l → is_input l = false → src l ∈ base ++ c_inners c;
  pt_nodup : NoDup (c_inners c);
  pt_inputs : ∀ i, i ∈ c_inputs c ↔ ∃ l, link_of c l ∧ is_input l = true ∧ i = makeInputLink l;
  pt_connected : ∀ o o', o ∈ c_outputs c → o' ∈ c_outputs c → rtc share o o';
  pt_outs : ∀ o, o ∈ c_outputs c → o ∈ outs;
  pt_descs : dom (c_inputsDesc c) = c_inputs c ∧ dom (c_outputsDesc c) = c_outputs c;
  pt_order : ∀ rank k id l, ranked rank → c_inners c !! k = Some id → l ∈ links_into id → is_input l = false →
    src l ∈ base ++ take k (c_inners c);
}.

(** The components for the output links [done]. *)
Record parts (cs : list NetComponent) (done : list NetLink) (b : gmap Z nat) : Prop := {
  ps_parts : Forall (part []) cs;
  ps_outs : ∀ o, o ∈ done ↔ ∃ i c, cs !! i = Some c ∧ o ∈ c_outputs c;
  ps_apart : ∀ i j c c' o, cs !! i = Some c → cs !! j = Some c' → o ∈ c_outputs c → o ∈ c_outputs c' → i = j;
  ps_belongs : ∀ id i, b !! id = Some i ↔ ∃ c, cs !! i = Some c ∧ id ∈ c_inners c;
}.

(** What the decomposition promises of the components. *)
Record component_right (c : NetComponent) : Prop := {
  cr_inners : ∀ id, id ∈ c_inners c ↔ ∃ o, o ∈ c_outputs c ∧ in_cone o id;
  cr_nodup : NoDup (c_inners c);
  cr_inputs : ∀ i, i ∈ c_inputs c ↔ ∃ l, link_of c l ∧ is_input l = true ∧ i = makeInputLink l;
  cr_descs : dom (c_inputsDesc c) = c_inputs c ∧ dom (c_outputsDesc c) = c_outputs c;
  cr_order : ∀ rank k id l, ranked rank → c_inners c !! k = Some id → l ∈ links_into id → is_input l = false →
    src l ∈ take k (c_inners c);
}.

(** Each output link is in one component, two are in the same if a chain of
    overlapping cones joins them, and no cell is in two components. *)
Record decomposed (cs : list NetComponent) : Prop := {
  dc_right : Forall component_right cs;
  dc_outs : ∀ o, o ∈ outs → ∃ i c, cs !! i = Some c ∧ o ∈ c_outputs c;
  dc_same : ∀ i j c c' o o', cs !! i = Some c → cs !! j = Some c' → o ∈ c_outputs c → o' ∈ c_outputs c' →
    i = j ↔ rtc share o o';
  dc_only : ∀ c o, c ∈ cs → o ∈ c_outputs c → o ∈ outs;
  dc_apart : ∀ i j c c' id, cs !! i = Some c → cs !! j = Some c' → id ∈ c_inners c → id ∈ c_inners c' → i = j;
}.

(** ** Components *)

#[local] Instance share_symm : Symmetric share.
Proof. intros o o' (Ho & Ho' & id & H1 & H2). split; [done|]. split; [done|]. by exists id. Qed.

Lemma share_flip o o' : rtc share o o' → rtc share o' o.
Proof. induction 1 as [|x y z Hxy _ IH]; [done|]. eapply rtc_r; [exact IH|by symmetry]. Qed.

Lemma link_of_none l : ¬ link_of noComponent l.
Proof. intros [Hl|(id & Hid & _)]; cbn in *; set_solver. Qed.

Lemma part_none : part [] noComponent.
Proof.
  split; cbn; try set_solver.
  - by intros l Hl%link_of_none.
  - constructor.
  - intros i. split; [set_solver|]. by intros (l & Hl%link_of_none & _).
Qed.

Lemma link_of_merge c c' l : link_of (component_merge c c') l ↔ link_of c l ∨ link_of c' l.
Proof. unfold link_of. cbn. rewrite elem_of_union. setoid_rewrite elem_of_app. naive_solver. Qed.

(** Merging two parts that a chain joins; the second may need the cells of the first. *)
Lemma part_merge base base' c c' : part base c → part base' c' → base' ⊆ base ++ c_inners c →
  (∀ id, id ∈ c_inners c → id ∉ c_inners c') →
  (∀ o o', o ∈ c_outputs c → o' ∈ c_outputs c' → rtc share o o') →
  part base (component_merge c c').
Proof.
  intros P P' Hb Hd Hj. split.
  - intros id. cbn. rewrite elem_of_app. intros [Hi|Hi]; [destruct (pt_cone _ _ P id Hi)|destruct (pt_cone _ _ P' id Hi)]; set_solver.
  - intros l [Hl|Hl]%link_of_merge Hi; cbn.
    + apply (pt_closed _ _ P) in Hl; [|done]. set_solver.
    + apply (pt_closed _ _ P') in Hl; [|done]. set_solver.
  - cbn. apply NoDup_app. split_all; [apply P|done|apply P'].
  - intros i. cbn. rewrite elem_of_union, (pt_inputs _ _ P), (pt_inputs _ _ P'). setoid_rewrite link_of_merge. naive_solver.
  - intros o o'. cbn. rewrite !elem_of_union. intros [Ho|Ho] [Ho'|Ho'].
    + by apply (pt_connected _ _ P).
    + by apply Hj.
    + by apply share_flip, Hj.
    + by apply (pt_connected _ _ P').
  - intros o. cbn. rewrite elem_of_union. intros [Ho|Ho]; [by apply (pt_outs _ _ P)|by apply (pt_outs _ _ P')].
  - cbn. rewrite !dom_union_L. destruct (pt_descs _ _ P) as [-> ->], (pt_descs _ _ P') as [-> ->]. done.
  - intros rank k id l Hr Hk Hl Hi. cbn in *. rewrite take_app. apply lookup_app_Some in Hk as [Hk|[Hlen Hk]].
    + pose proof (pt_order _ _ P rank k id l Hr Hk Hl Hi). set_solver.
    + pose proof (pt_order _ _ P' rank _ id l Hr Hk Hl Hi) as Ho. rewrite (take_ge (c_inners c)) by done. set_solver.
Qed.

Lemma part_right c : part [] c → component_right c.
Proof.
  intros P. split; [|apply P|apply P|apply P|apply P]. intros id. split; [apply P|]. intros (o & Ho & Hc).
  induction Hc as [Hi|id l Hc IH Hl Hi].
  - apply (pt_closed _ _ P); [by left|done].
  - apply (pt_closed _ _ P); [right; by exists id|done].
Qed.

Lemma parts_decomposed cs b : parts cs outs b → decomposed cs.
Proof.
  intros [HP Ho Ha Hb]. assert (∀ i c, cs !! i = Some c → part [] c) as HPi by (intros i c Hc; by apply (Forall_lookup_1 _ _ _ _ HP Hc)).
  assert (∀ i j c c' id, cs !! i = Some c → cs !! j = Some c' → id ∈ c_inners c → id ∈ c_inners c' → i = j) as Hap.
  { intros i j c c' id H1 H2 H3 H4. assert (b !! id = Some i) as E1 by (apply Hb; by exists c).
    assert (b !! id = Some j) as E2 by (apply Hb; by exists c'). congruence. }
  split.
  - eapply Forall_impl; [exact HP|]. apply part_right.
  - intros o. apply Ho.
  - intros i j c c' o o' Hi Hj Hco Hco'. split.
    + intros <-. assert (c = c') as <- by congruence. by apply (pt_connected _ _ (HPi _ _ Hi)).
    + intros Hr. revert i c Hi Hco. induction Hr as [o|o o1 o' (Hin & Hin1 & id & Hl & Hl1) _ IH]; intros i c Hi Hco.
      * by eapply Ha.
      * apply Ho in Hin1 as (k & d & Hk & Hd). etrans; [|by eapply (IH Hco' k d)].
        apply (Hap i k c d id); [done..| |].
        -- apply (cr_inners _ (part_right _ (HPi _ _ Hi))). by exists o.
        -- apply (cr_inners _ (part_right _ (HPi _ _ Hk))). by exists o1.
  - intros c o [i Hi]%list_elem_of_lookup Hc. by apply (pt_outs _ _ (HPi _ _ Hi)).
  - exact Hap.
Qed.

(** ** Making a component *)

Lemma belong_lookup cells i b id : belong cells i b !! id = if bool_decide (id ∈ cells) then Some i else b !! id.
Proof.
  unfold belong. revert b. induction cells as [|k cells IH]; intros b; [by rewrite bool_decide_eq_false_2 by set_solver|].
  cbn [foldl]. rewrite IH. repeat case_bool_decide; try set_solver.
  - assert (id = k) as -> by set_solver. by rewrite lookup_insert_eq.
  - rewrite lookup_insert_ne; [done|set_solver].
Qed.

Lemma elem_of_increasing x (m : gset nat) : x ∈ increasing m ↔ x ∈ m.
Proof. unfold increasing. rewrite merge_sort_Permutation. apply elem_of_elements. Qed.

Lemma increasing_NoDup (m : gset nat) : NoDup (increasing m).
Proof. unfold increasing. rewrite merge_sort_Permutation. apply NoDup_elements. Qed.

(** The component [i] has an output that a chain joins with [o]. *)
Definition joins (o : NetLink) (cs : list NetComponent) (i : nat) : Prop :=
  ∃ c o', cs !! i = Some c ∧ o' ∈ c_outputs c ∧ rtc share o o'.

(** All the outputs of such a component are joined with [o]. *)
Lemma joins_all o cs i c o' : Forall (part []) cs → joins o cs i → cs !! i = Some c → o' ∈ c_outputs c → rtc share o o'.
Proof.
  intros HP (c1 & o1 & E & Ho1 & Hr) Hc Ho'. assert (c1 = c) as -> by congruence. etrans; [done|].
  by apply (pt_connected _ _ (Forall_lookup_1 _ _ _ _ HP Hc)).
Qed.

Lemma parts_merge o cs done b index i root next : parts cs done b → i ≠ index → joins o cs index → joins o cs i →
  cs !! index = Some root → cs !! i = Some next →
  parts (<[i := noComponent]> (<[index := component_merge root next]> cs)) done (belong (c_inners next) index b).
Proof.
  intros [HP Ho Ha Hb] Hne Hr Hi Er En. pose proof (lookup_lt_Some _ _ _ Er). pose proof (lookup_lt_Some _ _ _ En).
  set (cs' := <[i := _]> _).
  assert (∀ k c, cs' !! k = Some c → (k = i ∧ c = noComponent) ∨ (k ≠ i ∧ k = index ∧ c = component_merge root next) ∨ (k ≠ i ∧ k ≠ index ∧ cs !! k = Some c)) as Hcs.
  { intros k c. unfold cs'. destruct (decide (k = i)) as [->|]; [rewrite list_lookup_insert_eq by (rewrite length_insert; lia); intros [= <-]; auto|].
    rewrite list_lookup_insert_ne by done. destruct (decide (k = index)) as [->|]; [rewrite list_lookup_insert_eq by done; intros [= <-]; auto|].
    rewrite list_lookup_insert_ne by done. auto. }
  assert (cs' !! index = Some (component_merge root next)) as Eindex by (unfold cs'; rewrite list_lookup_insert_ne, list_lookup_insert_eq; done).
  assert (∀ k, k ≠ i → k ≠ index → cs' !! k = cs !! k) as Eold by (intros k Hk1 Hk2; unfold cs'; by rewrite !list_lookup_insert_ne).
  split.
  - assert (part [] root) as Pr by (by eapply Forall_lookup_1). assert (part [] next) as Pn by (by eapply Forall_lookup_1).
    apply Forall_lookup_2. intros k c [[-> ->]|[(_ & -> & ->)|(_ & _ & Hk)]]%Hcs.
    + apply part_none.
    + eapply part_merge; [done|done|set_solver| |].
      * intros id I1 I2. assert (b !! id = Some index) as E1 by (apply Hb; by exists root).
        assert (b !! id = Some i) as E2 by (apply Hb; by exists next). congruence.
      * intros o1 o2 I1 I2. etrans; [apply share_flip; by apply (joins_all o cs index root)|by apply (joins_all o cs i next)].
    + by eapply Forall_lookup_1.
  - intros o1. rewrite Ho. split.
    + intros (k & c & Hk & Hc). destruct (decide (k = i)) as [->|]; [|destruct (decide (k = index)) as [->|]].
      * exists index, (component_merge root next). split; [done|]. cbn. assert (c = next) as -> by congruence. set_solver.
      * exists index, (component_merge root next). split; [done|]. cbn. assert (c = root) as -> by congruence. set_solver.
      * exists k, c. by rewrite Eold.
    + intros (k & c & [[-> ->]|[(_ & -> & ->)|(_ & _ & Hk)]]%Hcs & Hc); cbn in Hc; [set_solver| |by eauto].
      apply elem_of_union in Hc as [Hc|Hc]; eauto.
  - intros k k' c c' o1 Hk Hk' Hc Hc'.
    assert (∀ k c, cs' !! k = Some c → o1 ∈ c_outputs c → ∃ j d, cs !! j = Some d ∧ o1 ∈ c_outputs d ∧ (k = j ∧ j ≠ i ∨ j = i ∧ k = index)) as Hone.
    { clear -Hcs Er En Hne. intros k c [[-> ->]|[(_ & -> & ->)|(? & _ & Hk)]]%Hcs Hc; cbn in Hc; [set_solver| |naive_solver].
      apply elem_of_union in Hc as [Hc|Hc]; [exists index, root|exists i, next]; naive_solver. }
    destruct (Hone k c Hk Hc) as (j & d & Hj & Hd & E). destruct (Hone k' c' Hk' Hc') as (j' & d' & Hj' & Hd' & E').
    pose proof (Ha j j' d d' o1 Hj Hj' Hd Hd') as ->. naive_solver.
  - intros id k. rewrite belong_lookup. case_bool_decide as Hin.
    + split.
      * intros [= <-]. exists (component_merge root next). split; [done|]. cbn. set_solver.
      * intros (c & [[-> ->]|[(_ & -> & ->)|(? & ? & Hk)]]%Hcs & Hc); cbn in Hc; [set_solver|done|].
        assert (b !! id = Some k) as E1 by (apply Hb; by exists c). assert (b !! id = Some i) as E2 by (apply Hb; by exists next). congruence.
    + rewrite Hb. split.
      * intros (c & Hk & Hc). assert (k ≠ i) by (intros ->; congruence).
        destruct (decide (k = index)) as [->|]; [|exists c; by rewrite Eold].
        exists (component_merge root next). split; [done|]. cbn. assert (c = root) as -> by congruence. set_solver.
      * intros (c & [[-> ->]|[(_ & -> & ->)|(? & ? & Hk)]]%Hcs & Hc); cbn in Hc; [set_solver| |by eauto].
        exists root. split; [done|]. set_solver.
Qed.

(** The current component is added to the component [index]. *)
Lemma parts_add cs done b index root cur o base : parts cs done b → cs !! index = Some root → part base cur →
  base ⊆ c_inners root → (∀ o', o' ∈ c_outputs root → rtc share o' o) → c_outputs cur = {[o]} → o ∉ done →
  (∀ id, id ∈ c_inners cur → b !! id = None) →
  parts (<[index := component_merge root cur]> cs) (done ++ [o]) (belong (c_inners cur) index b).
Proof.
  intros [HP Ho Ha Hb] Er Pc Hbase Hj Eo Hno Hnb. pose proof (lookup_lt_Some _ _ _ Er). set (cs' := <[index := _]> cs).
  assert (∀ k c, cs' !! k = Some c → (k = index ∧ c = component_merge root cur) ∨ (k ≠ index ∧ cs !! k = Some c)) as Hcs.
  { intros k c. unfold cs'. destruct (decide (k = index)) as [->|]; [rewrite list_lookup_insert_eq by done; intros [= <-]; auto|].
    rewrite list_lookup_insert_ne by done. auto. }
  assert (cs' !! index = Some (component_merge root cur)) as Eindex by (unfold cs'; by rewrite list_lookup_insert_eq).
  assert (∀ k, k ≠ index → cs' !! k = cs !! k) as Eold by (intros k Hk; unfold cs'; by rewrite list_lookup_insert_ne).
  split.
  - assert (part [] root) as Pr by (by eapply Forall_lookup_1).
    apply Forall_lookup_2. intros k c [[-> ->]|[_ Hk]]%Hcs; [|by eapply Forall_lookup_1].
    eapply part_merge; [done|done|done| |].
    + intros id I1 I2. assert (b !! id = Some index) as E1 by (apply Hb; by exists root). by rewrite Hnb in E1.
    + intros o1 o2 I1. rewrite Eo. intros ->%elem_of_singleton. by apply Hj.
  - intros o1. rewrite elem_of_app, list_elem_of_singleton, Ho. split.
    + intros [(k & c & Hk & Hc)| ->].
      * destruct (decide (k = index)) as [->|]; [|exists k, c; by rewrite Eold].
        exists index, (component_merge root cur). split; [done|]. cbn. assert (c = root) as -> by congruence. set_solver.
      * exists index, (component_merge root cur). split; [done|]. cbn. rewrite Eo. set_solver.
    + intros (k & c & [[-> ->]|[_ Hk]]%Hcs & Hc); [|left; by eauto].
      cbn in Hc. rewrite Eo in Hc. apply elem_of_union in Hc as [Hc| ->%elem_of_singleton]; [left; eauto|by right].
  - assert (∀ k c o1, cs' !! k = Some c → o1 ∈ c_outputs c → o1 = o ∧ k = index ∨ o1 ≠ o ∧ ∃ d, cs !! k = Some d ∧ o1 ∈ c_outputs d) as Hone.
    { intros k c o1 Hk Hc. assert (∀ j d, cs !! j = Some d → o1 ∈ c_outputs d → o1 ≠ o) as Hne by (intros j d Hjd Hd ->; apply Hno, Ho; eauto).
      destruct (Hcs k c Hk) as [[-> ->]|[_ Hk']]; [|right; eauto].
      cbn in Hc. rewrite Eo in Hc. apply elem_of_union in Hc as [Hc| ->%elem_of_singleton]; [right; eauto|by left]. }
    intros k k' c c' o1 Hk Hk' Hc Hc'. destruct (Hone k c o1 Hk Hc) as [[-> ->]|(Hne & d & Hd & Hod)].
    + by destruct (Hone k' c' o Hk' Hc') as [[_ ->]|[? _]].
    + destruct (Hone k' c' o1 Hk' Hc') as [[-> _]|(_ & d' & Hd' & Hod')]; [done|]. by eapply Ha.
  - intros id k. rewrite belong_lookup. case_bool_decide as Hin.
    + split.
      * intros [= <-]. exists (component_merge root cur). split; [done|]. cbn. set_solver.
      * intros (c & [[-> ->]|[_ Hk]]%Hcs & Hc); [done|].
        assert (b !! id = Some k) as E1 by (apply Hb; by exists c). by rewrite Hnb in E1.
    + rewrite Hb. split.
      * intros (c & Hk & Hc). destruct (decide (k = index)) as [->|]; [|exists c; by rewrite Eold].
        exists (component_merge root cur). split; [done|]. cbn. assert (c = root) as -> by congruence. set_solver.
      * intros (c & [[-> ->]|[_ Hk]]%Hcs & Hc); [|by eauto]. cbn in Hc. exists root. split; [done|]. set_solver.
Qed.

Lemma parts_empty cs done b : parts cs done b → parts (cs ++ [noComponent]) done b.
Proof.
  intros [HP Ho Ha Hb].
  assert (∀ k c, (cs ++ [noComponent]) !! k = Some c → cs !! k = Some c ∨ c = noComponent) as Hcs.
  { intros k c [Hk|[_ Hk]]%lookup_app_Some; [by left|]. apply list_lookup_singleton_Some in Hk as [_ <-]. by right. }
  assert (∀ k c, cs !! k = Some c → (cs ++ [noComponent]) !! k = Some c) as Hcs' by (intros k c Hk; by apply lookup_app_l_Some).
  split.
  - apply Forall_app. split; [done|]. constructor; [apply part_none|done].
  - intros o. rewrite Ho. split; intros (i & c & Hi & Hc); [by eauto|]. destruct (Hcs _ _ Hi) as [?| ->]; [by eauto|set_solver].
  - intros i j c c' o Hi Hj Hc Hc'. destruct (Hcs _ _ Hi) as [?| ->]; [|set_solver]. destruct (Hcs _ _ Hj) as [?| ->]; [|set_solver]. by eapply Ha.
  - intros id i. rewrite Hb. split; intros (c & Hi & Hc); [by eauto|]. destruct (Hcs _ _ Hi) as [?| ->]; [by eauto|cbn in Hc; set_solver].
Qed.

(** The loop that merges components into the first. *)
Lemma merge_loop o done index l : ∀ x, parts (components x) done (belongsTo x) → NoDup l → joins o (components x) index →
  (∀ i, i ∈ l → joins o (components x) i) →
  ∃ cs b, st_for l (mergeNext index) x = Some ((), mkContext cs b (merging x) (component x) (componentCells x) (stack x)) ∧
    parts cs done b ∧ joins o cs index ∧
    (∀ id i, belongsTo x !! id = Some i → b !! id = Some (if bool_decide (i ∈ l) then index else i)) ∧
    (∀ id, belongsTo x !! id = None → b !! id = None).
Proof.
  induction l as [|i l IH]; intros x HP Hnd Hindex Hl.
  { exists (components x), (belongsTo x). split; [by destruct x|]. split_all; done. }
  apply NoDup_cons in Hnd as [Hi Hnd]. cbn [st_for]. destruct (decide (i = index)) as [->|Hne].
  - erewrite bind_eval by (unfold mergeNext; by rewrite bool_decide_eq_true_2).
    destruct (IH x HP Hnd Hindex) as (cs & b & E & HP' & Hj & Hb & Hn); [set_solver|]. exists cs, b. split_all; [done..| |done].
    intros id k Hk. rewrite (Hb id k Hk). do 2 case_bool_decide; set_solver.
  - pose proof Hindex as (root & o1 & Er & _). destruct (Hl i) as (next & o2 & En & Ho2 & Hr2); [set_solver|].
    assert (parts (<[i := noComponent]> (<[index := component_merge root next]> (components x))) done (belong (c_inners next) index (belongsTo x))) as HP1
      by (eapply parts_merge; [done..| |done|done]; by exists next, o2).
    set (x1 := mkContext (<[i := noComponent]> (<[index := component_merge root next]> (components x))) (belong (c_inners next) index (belongsTo x))
      (merging x) (component x) (componentCells x) (stack x)).
    assert (mergeNext index i x = Some ((), x1)) as E1.
    { unfold mergeNext. rewrite bool_decide_eq_false_2 by done. unfold st_get, st_read, st_put, mbind, st_bind. by rewrite Er, En. }
    rewrite (bind_eval _ _ _ _ _ E1).
    assert (∀ k, k ≠ i → joins o (components x) k → joins o (components x1) k) as Hstay.
    { intros k Hk (c & o3 & Ec & Ho3 & Hr3). unfold joins, x1. cbn [components]. rewrite list_lookup_insert_ne by done.
      destruct (decide (k = index)) as [->|]; [|rewrite list_lookup_insert_ne by done; by eauto].
      rewrite list_lookup_insert_eq by (by eapply lookup_lt_Some). eexists _, o3. split; [done|]. cbn. split; [|done]. set_solver. }
    destruct (IH x1 HP1 Hnd) as (cs & b & E & HP' & Hj & Hb & Hn); [by apply Hstay|intros k Hk; apply Hstay; set_solver|].
    exists cs, b. split; [done|]. split; [done|]. split; [done|].
    assert (∀ id, id ∈ c_inners next ↔ belongsTo x !! id = Some i) as Hnext.
    { intros id. rewrite (ps_belongs _ _ _ HP). split; [by eauto|]. intros (c & Ec & Hc). by assert (c = next) as -> by congruence. }
    split.
    + intros id k Hk. assert (belongsTo x1 !! id = Some (if bool_decide (k = i) then index else k)) as Hk1.
      { unfold x1. cbn [belongsTo]. rewrite belong_lookup. repeat case_bool_decide; try done; naive_solver. }
      rewrite (Hb _ _ Hk1). repeat case_bool_decide; set_solver.
    + intros id Hk. apply Hn. unfold x1. cbn [belongsTo]. rewrite belong_lookup, bool_decide_eq_false_2; [done|]. naive_solver.
Qed.

Lemma merge_with_none c : component_merge noComponent c = c.
Proof. destruct c. unfold component_merge. cbn. by rewrite !(left_id_L ∅ (∪)). Qed.

Lemma makeComponent_spec x o done base : parts (components x) done (belongsTo x) → part base (component x) →
  c_outputs (component x) = {[o]} → o ∉ done → (∀ i, i ∈ merging x → joins o (components x) i) →
  (∀ id, id ∈ base → ∃ i, i ∈ merging x ∧ belongsTo x !! id = Some i) →
  (∀ id, id ∈ c_inners (component x) → belongsTo x !! id = None) →
  ∃ cs b, makeComponent x = Some ((), mkContext cs b ∅ noComponent ∅ (stack x)) ∧ parts cs (done ++ [o]) b ∧
    (∀ id, b !! id = None → belongsTo x !! id = None ∧ id ∉ c_inners (component x)).
Proof.
  intros HP Pc Eo Hno Hm Hbase Hnb. unfold makeComponent. rewrite (bind_eval st_get _ x x x) by done.
  destruct (increasing (merging x)) as [|index l] eqn:El.
  - assert (∀ i, i ∉ merging x) as Hempty by (intros i; rewrite <- elem_of_increasing, El; set_solver).
    assert (base = []) as -> by (destruct base as [|id base]; [done|]; destruct (Hbase id) as (i & Hi & _); [set_solver|by apply Hempty in Hi]).
    eexists _, _. split; [reflexivity|]. cbn [belongsTo component components].
    pose proof (parts_add _ _ _ (length (components x)) noComponent (component x) o [] (parts_empty _ _ _ HP)) as Hadd.
    rewrite lookup_app_r, Nat.sub_diag in Hadd by done. specialize (Hadd eq_refl Pc). rewrite merge_with_none in Hadd.
    rewrite insert_app_r_alt, Nat.sub_diag in Hadd by done. cbn [insert list_insert] in Hadd. split.
    + apply Hadd; [set_solver|set_solver|done..].
    + intros id. rewrite belong_lookup. by case_bool_decide.
  - assert (index ∈ merging x) as Hindex by (rewrite <- elem_of_increasing, El; set_solver).
    destruct (merge_loop o done index (index :: l) x) as (cs & b & E & HP' & Hj & Hb & Hn); [done| |by apply Hm| |].
    { rewrite <- El. apply increasing_NoDup. }
    { intros i Hi. apply Hm. by rewrite <- elem_of_increasing, El. }
    pose proof Hj as (root & o1 & Er & Ho1 & Hr1).
    set (x1 := mkContext cs b (merging x) (component x) (componentCells x) (stack x)) in *.
    assert (∀ id, b !! id = None → belongsTo x !! id = None) as Hnone by (intros id Hid; destruct (belongsTo x !! id) as [i|] eqn:Ei; [by rewrite (Hb _ _ Ei) in Hid|done]).
    eexists _, _. split.
    { rewrite bind_assoc, (bind_eval _ _ _ _ _ E), bind_assoc, (bind_eval st_get _ x1 x1 x1) by done. rewrite bind_assoc.
      rewrite (bind_eval (st_read _) _ x1 root x1) by (unfold st_read; cbn [components x1]; by rewrite Er). reflexivity. }
    cbn [belongsTo component components x1]. split.
    + eapply parts_add; [done..| | |done|done|].
      * intros id Hid. destruct (Hbase id Hid) as (i & Hi & Hbi). assert (b !! id = Some index) as E1.
        { rewrite (Hb _ _ Hbi), bool_decide_eq_true_2; [done|]. by rewrite <- El, elem_of_increasing. }
        apply (ps_belongs _ _ _ HP') in E1 as (c & Ec & Hc). by assert (c = root) as -> by congruence.
      * intros o' Ho'. apply share_flip. by apply (joins_all o cs index root o' (ps_parts _ _ _ HP') Hj).
      * intros id Hid. by apply Hn, Hnb.
    + intros id. rewrite belong_lookup. case_bool_decide; [done|]. intros Hid. by split; [apply Hnone|].
Qed.

(** ** The traversal *)

(** *** Links *)

Lemma mapM_fmap_Some_pure {A B} (f : A → B) l : mapM (λ x, Some (f x)) l = Some (f <$> l).
Proof. induction l as [|x l IH]; [done|]. cbn. by rewrite IH. Qed.

Lemma ready_links id c : cells_ready → get s id = Some c → links_into id = imap (λ j l, (l, LinkEnd id (Z.of_nat j))) (cell_links c).
Proof. intros _ Hc. unfold links_into. by rewrite Hc. Qed.

Lemma link_source id l : cells_ready → is_Some (get s id) → l ∈ links_into id → has_source l.1.
Proof.
  intros Hr [c Hc] Hl. rewrite (ready_links _ _ Hr Hc) in Hl. apply elem_of_lookup_imap in Hl as (j & w & -> & Hw).
  destruct (Hr _ _ Hc) as (_ & _ & _ & _ & HF). by apply (Forall_lookup_1 _ _ _ _ HF Hw).
Qed.

Lemma isInputLink_ready l : cells_ready → has_source l.1 → isInputLink s l = Some (is_input l).
Proof.
  intros Hr ([c Hc] & _). destruct (Hr _ _ Hc) as ([t Ht] & _). unfold is_input, isInputLink, getCellInfo. by rewrite Hc; cbn; rewrite Ht.
Qed.

Lemma getCellLinks_ready id desc : cells_ready → is_Some (get s id) → ∃ ls, getCellLinks s id (Some desc) = Some ls ∧ ls.*1 = links_into id.
Proof.
  intros Hr [c Hc]. destruct (Hr _ _ Hc) as ([t Ht] & Hl & _ & Hlen & _). rewrite (ready_links _ _ Hr Hc).
  exists ((λ p : nat * Z, ((p.2, LinkEnd id (Z.of_nat p.1)), desc)) <$> imap pair (cell_links c)). split.
  - unfold getCellLinks, getCellInfo. rewrite Hc. cbn [mbind option_bind]. rewrite Ht. cbn [mbind option_bind]. rewrite Hl.
    cbn [mbind option_bind]. rewrite bool_decide_eq_true_2 by done. rewrite (bool_decide_eq_false_2 (Some desc = None)) by done.
    rewrite andb_false_r. cbn [default]. rewrite (mapM_ext _ (λ p : nat * Z, Some ((p.2, LinkEnd id (Z.of_nat p.1)), desc))) by (by intros [j l]).
    apply mapM_fmap_Some_pure.
  - rewrite <- list_fmap_compose, fmap_imap. by apply imap_ext.
Qed.

(** *** The state of the traversal *)

Context (outsS : list (NetLink * SignalType)).

(** The cells that have not been entered are in [L], with their fanins. *)
Definition waiting (L : list (Z * nat)) (x : Context) : Prop := ∀ id c, get s id = Some c → canonical id →
  id ∉ componentCells x → belongsTo x !! id = None → (id, length (cell_links c)) ∈ L.

Definition weight (L : list (Z * nat)) (es : list TraversalEntry) : nat :=
  sum_list_with (λ p, S p.2) L + sum_list_with (λ e, S (length (t_links e) - t_index e)) es.

(** Entries of the stack that are cells. *)
Record entry_ok (e : TraversalEntry) : Prop := {
  eo_cell : is_Some (get s (t_cellID e));
  eo_canonical : canonical (t_cellID e);
  eo_links : (t_links e).*1 = links_into (t_cellID e);
  eo_index : t_index e ≤ length (t_links e);
}.

Definition passed (e : TraversalEntry) : list NetLink := take (t_index e) (t_links e).*1.

(** The links that have been passed in the cone of [o]. *)
Definition seen (o : NetLink) (inners : list Z) (es : list TraversalEntry) (l : NetLink) : Prop :=
  l = o ∨ (∃ id, id ∈ inners ∧ l ∈ links_into id) ∨ ∃ e, e ∈ es ∧ l ∈ passed e.

Definition met (x : Context) (id : Z) : Prop := ∃ i, i ∈ merging x ∧ belongsTo x !! id = Some i.

(** The [k]-th output link [o] is followed, with the entries [es] on the stack; the
    source of the link [skip] is yet to be entered. *)
Record walk (k : nat) (o : NetLink) (es : list TraversalEntry) (skip : option NetLink) (x : Context) : Prop := {
  wk_stack : stack x = es ++ [mkEntry OBJ_NULL_ID outsS k];
  wk_parts : parts (components x) (take (k - 1) outs) (belongsTo x);
  wk_entries : Forall entry_ok es;
  wk_cells : ∀ id, id ∈ componentCells x ↔ id ∈ c_inners (component x) ∨ id ∈ t_cellID <$> es;
  wk_nodup : NoDup ((t_cellID <$> es) ++ c_inners (component x));
  wk_new : ∀ id, id ∈ componentCells x → belongsTo x !! id = None;
  wk_cone : ∀ id, id ∈ componentCells x → in_cone o id;
  wk_merging : ∀ i, i ∈ merging x → joins o (components x) i;
  wk_outputs : c_outputs (component x) = {[o]};
  wk_descs : dom (c_inputsDesc (component x)) = c_inputs (component x) ∧ dom (c_outputsDesc (component x)) = c_outputs (component x);
  wk_inputs : ∀ i, i ∈ c_inputs (component x) ↔
    ∃ l, seen o (c_inners (component x)) es l ∧ is_input l = true ∧ i = makeInputLink l;
  wk_closed : ∀ l, seen o (c_inners (component x)) es l → is_input l = false → skip ≠ Some l →
    src l ∈ componentCells x ∨ met x (src l);
  wk_sorted : ∀ rank, ranked rank → StronglySorted (λ e e', rank (t_cellID e) < rank (t_cellID e')) es;
  wk_order : ∀ rank j id l, ranked rank → c_inners (component x) !! j = Some id → l ∈ links_into id → is_input l = false →
    src l ∈ take j (c_inners (component x)) ∨ met x (src l);
}.

(** No output link is followed; the first [k] are done. *)
Record idle (k : nat) (x : Context) : Prop := {
  id_stack : stack x = [mkEntry OBJ_NULL_ID outsS k];
  id_parts : parts (components x) (take k outs) (belongsTo x);
  id_clear : merging x = ∅ ∧ component x = noComponent ∧ componentCells x = ∅;
}.

(** *** The steps *)

(** A link that is an input needs no source. *)
Lemma walk_input k o es l x : walk k o es (Some l) x → is_input l = true → walk k o es None x.
Proof. intros [] Hi. split; try done. intros l' Hs Hi' _. apply wk_closed0; [done..|]. intros [= <-]. congruence. Qed.

(** The source of the skipped link is there. *)
Lemma walk_met k o es l x : walk k o es (Some l) x → src l ∈ componentCells x ∨ met x (src l) → walk k o es None x.
Proof.
  intros [] Hi. split; try done. intros l' Hs Hi' _. destruct (decide (l = l')) as [<-|]; [done|].
  apply wk_closed0; [done..|congruence].
Qed.

Lemma seen_enter o inners es id ls l : seen o inners (mkEntry id ls 0 :: es) l ↔ seen o inners es l.
Proof.
  unfold seen. split; (intros [?|[?|(e & He & Hl)]]; [by left|right; by left|right; right]).
  - apply elem_of_cons in He as [->|He]; [|by exists e]. unfold passed in Hl. cbn in Hl. set_solver.
  - exists e. split; [set_solver|done].
Qed.

Lemma weight_enter L L' es id n ls : L ≡ₚ (id, n) :: L' → length ls = n → weight L' (mkEntry id ls 0 :: es) = weight L es.
Proof.
  intros HL Hn. unfold weight. assert (sum_list_with (λ p : Z * nat, S p.2) L = S n + sum_list_with (λ p : Z * nat, S p.2) L') as ->.
  { rewrite HL. done. }
  cbn. lia.
Qed.

Lemma push_walk k o es l d L x : cells_ready → walk k o es (Some l) x → waiting L x → is_input l = false → has_source l.1 →
  in_cone o (src l) → o ∈ outs → (∀ rank e, ranked rank → e ∈ es → rank (src l) < rank (t_cellID e)) →
  ∃ x' es' L', Decomposer.push s (src l) d x = Some ((), x') ∧ walk k o es' None x' ∧ waiting L' x' ∧ weight L' es' ≤ weight L es.
Proof.
  intros Hr W HL Hi ([c Hc] & Hcan) Hcone Hout Hrank. pose proof W as [Hst HP He Hcells Hnd Hnew Hco Hm Ho Hd Hin Hcl Hso Hor].
  unfold Decomposer.push. rewrite (bind_eval st_get _ x x x) by done. destruct (belongsTo x !! src l) as [i|] eqn:Eb.
  - eexists _, es, L. split; [reflexivity|]. split; [|by split]. apply (walk_met _ _ _ l).
    2: { right. exists i. cbn. split; [by apply elem_of_union_r, elem_of_singleton|done]. }
    assert (∀ id, met x id → met (mkContext (components x) (belongsTo x) (merging x ∪ {[i]}) (component x) (componentCells x) (stack x)) id) as Hmet
      by (intros id (j & Hj & Ej); exists j; cbn; split; [by apply elem_of_union_l|done]).
    split; cbn [components belongsTo merging component componentCells stack]; try done.
    + intros j [Hj| ->%elem_of_singleton]%elem_of_union; [by apply Hm|].
      apply (ps_belongs _ _ _ HP) in Eb as (c1 & Ec1 & Hc1). pose proof (Forall_lookup_1 _ _ _ _ (ps_parts _ _ _ HP) Ec1) as Pc1.
      destruct (pt_cone _ _ Pc1 _ Hc1) as (o' & Ho' & Hcone'). exists c1, o'. split_all; [done..|]. apply rtc_once.
      split; [done|]. split; [by apply (pt_outs _ _ Pc1)|by exists (src l)].
    + intros l' Hs Hi' Hne. destruct (Hcl l' Hs Hi' Hne); [by left|right; by apply Hmet].
    + intros rank j id l' Hrk Hj Hl' Hi'. destruct (Hor rank j id l' Hrk Hj Hl' Hi'); [by left|right; by apply Hmet].
  - case_bool_decide as Hcell.
    { eexists x, es, L. split; [done|]. split; [|by split]. apply (walk_met _ _ _ l); [done|by left]. }
    destruct (getCellLinks_ready (src l) d Hr) as (ls & Els & Hls); [by exists c|].
    assert ((src l, length (cell_links c)) ∈ L) as [L' HL']%elem_of_Permutation by (by apply HL).
    eexists _, (mkEntry (src l) ls 0 :: es), L'. split.
    { rewrite (bind_eval (st_read _) _ x ls x) by (unfold st_read; by rewrite Els). reflexivity. }
    split; [|split].
    + assert (∀ l', seen o (c_inners (component x)) (mkEntry (src l) ls 0 :: es) l' ↔ seen o (c_inners (component x)) es l') as Hseen
        by (intros; apply seen_enter).
      assert (src l ∉ c_inners (component x) ∧ src l ∉ t_cellID <$> es) as [Hn1 Hn2] by (split; intros Hx; apply Hcell, Hcells; auto).
      split; cbn [components belongsTo merging component componentCells stack]; try done.
      * by rewrite Hst.
      * constructor; [|done]. split; cbn; [by exists c|done|done|lia].
      * intros id. rewrite elem_of_union, Hcells, fmap_cons, elem_of_cons, elem_of_singleton. cbn. tauto.
      * rewrite fmap_cons. cbn. apply NoDup_cons. split; [rewrite elem_of_app; tauto|done].
      * intros id [Hid| ->%elem_of_singleton]%elem_of_union; [by apply Hnew|done].
      * intros id [Hid| ->%elem_of_singleton]%elem_of_union; [by apply Hco|done].
      * intros i. rewrite Hin. setoid_rewrite Hseen. done.
      * intros l' Hs%Hseen Hi' _. destruct (decide (l = l')) as [<-|]; [left; by apply elem_of_union_r, elem_of_singleton|].
        destruct (Hcl l' Hs Hi'); [congruence|left; by apply elem_of_union_l|by right].
      * intros rank Hrk. constructor; [by apply Hso|]. apply Forall_forall. intros e. by apply Hrank.
    + intros id c' Hc' Hcan' Hid Hb. cbn in Hid, Hb. assert ((id, length (cell_links c')) ∈ (src l, length (cell_links c)) :: L') as Hl
        by (rewrite <- HL'; apply HL; [done|done| |done]; intros Hx; by apply Hid, elem_of_union_l).
      apply elem_of_cons in Hl as [[= E1 _]|Hl]; [|done]. destruct Hid. rewrite E1. by apply elem_of_union_r, elem_of_singleton.
    + erewrite weight_enter; [done|exact HL'|]. rewrite <- (length_fmap fst), Hls, (ready_links _ c) by done. apply length_imap.
Qed.

(** The component after the link [l] to the output [out] or to a cell. *)
Definition passing (isOut isIn : bool) (l : NetLink) (d : SignalType) (c : NetComponent) : NetComponent :=
  let c := if isOut then mkComponent (c_inputs c) (c_inputsDesc c) (c_inners c) (c_outputs c ∪ {[makeOutputLink l]})
    (<[makeOutputLink l := d]> (c_outputsDesc c)) else c in
  if isIn then mkComponent (c_inputs c ∪ {[makeInputLink l]}) (<[makeInputLink l := d]> (c_inputsDesc c)) (c_inners c) (c_outputs c) (c_outputsDesc c)
  else c.

Lemma followLink_eval e es l d x : cells_ready → has_source l.1 → t_links e !! t_index e = Some (l, d) → stack x = e :: es →
  followLink s e x = (let x1 := mkContext (components x) (belongsTo x) (merging x) (passing (isOutputEntry e) (is_input l) l d (component x))
      (componentCells x) (mkEntry (t_cellID e) (t_links e) (S (t_index e)) :: es) in
    if is_input l then Some ((), x1) else Decomposer.push s (src l) d x1).
Proof.
  intros Hr Hs Hl Hst. unfold followLink. rewrite (bind_eval (st_read _) _ x (l, d) x) by (unfold st_read; by rewrite Hl).
  rewrite (bind_eval (st_read _) _ x (is_input l) x) by (unfold st_read; by rewrite isInputLink_ready).
  destruct x as [cs b m c cc st]; cbn in Hst; subst st. destruct c. destruct (isOutputEntry e), (is_input l); reflexivity.
Qed.

Lemma inputs_next (P : NetLink → Prop) isOut l d c i : (∀ i, i ∈ c_inputs c ↔ ∃ l, P l ∧ is_input l = true ∧ i = makeInputLink l) →
  i ∈ c_inputs (passing isOut (is_input l) l d c) ↔ ∃ l0, (P l0 ∨ l0 = l) ∧ is_input l0 = true ∧ i = makeInputLink l0.
Proof.
  intros Hc. assert (c_inputs (passing isOut (is_input l) l d c) = if is_input l then c_inputs c ∪ {[makeInputLink l]} else c_inputs c) as ->
    by (by destruct isOut, (is_input l)).
  clear isOut. destruct (is_input l) eqn:El; [rewrite elem_of_union, elem_of_singleton|]; rewrite Hc; split.
  - intros [(l0 & ? & ? & ?)| ->]; [exists l0|exists l]; auto.
  - intros (l0 & [?| ->] & ? & ?); [left; exists l0|right]; auto.
  - intros (l0 & ? & ? & ?). exists l0; auto.
  - intros (l0 & [?| ->] & ? & ?); [exists l0; auto|congruence].
Qed.

Lemma descs_next isOut isIn l d c : dom (c_inputsDesc c) = c_inputs c ∧ dom (c_outputsDesc c) = c_outputs c →
  let c' := passing isOut isIn l d c in dom (c_inputsDesc c') = c_inputs c' ∧ dom (c_outputsDesc c') = c_outputs c'.
Proof.
  intros [H1 H2] c'. unfold c', passing. destruct isOut, isIn; cbn; rewrite ?dom_insert_L, ?H1, ?H2; clear; set_solver.
Qed.

Lemma seen_next o inners e es l l' : (t_links e).*1 !! t_index e = Some l →
  seen o inners (mkEntry (t_cellID e) (t_links e) (S (t_index e)) :: es) l' ↔ seen o inners (e :: es) l' ∨ l' = l.
Proof.
  intros Hl. unfold seen. setoid_rewrite elem_of_cons. unfold passed.
  assert (l' ∈ take (S (t_index e)) (t_links e).*1 ↔ l' ∈ take (t_index e) (t_links e).*1 ∨ l' = l) as Hp
    by (rewrite (take_S_r _ _ l) by done; by rewrite elem_of_app, list_elem_of_singleton).
  split.
  - intros [?|[?|(e1 & [->|He1] & Hl1)]]; [by auto|by auto| |by eauto 7]. apply Hp in Hl1 as [?|?]; eauto 8.
  - intros [[?|[?|(e1 & [->|He1] & Hl1)]]| ->]; [by auto|by auto| |by eauto 7|]; right; right; eexists; (split; [by left|]); apply Hp; auto.
Qed.

(** A link of the cell on top is followed. *)
Lemma followLink_walk k o e es L x : cells_ready → walk k o (e :: es) None x → waiting L x → o ∈ outs → t_index e < length (t_links e) →
  ∃ x' es' L', followLink s e x = Some ((), x') ∧ walk k o es' None x' ∧ waiting L' x' ∧ weight L' es' < weight L (e :: es).
Proof.
  intros Hr W HL Hout Hlt. pose proof W as [Hst HP He Hcells Hnd Hnew Hco Hm Ho Hd Hin Hcl Hso Hor].
  destruct (lookup_lt_is_Some_2 _ _ Hlt) as [[l d] El]. apply Forall_cons_1 in He as [Hee He]. pose proof Hee as [Hec Hecan Hels Hei].
  set (e' := mkEntry (t_cellID e) (t_links e) (S (t_index e))).
  assert ((t_links e).*1 !! t_index e = Some l) as Elf by (by rewrite list_lookup_fmap, El).
  assert (l ∈ links_into (t_cellID e)) as Hl by (rewrite <- Hels; by eapply list_elem_of_lookup_2).
  assert (has_source l.1) as Hsrc by (by eapply link_source).
  assert (isOutputEntry e = false) as Enot.
  { unfold isOutputEntry. destruct Hec as [c Hc]. unfold get in Hc. by destruct (t_cellID e =? OBJ_NULL_ID)%Z. }
  rewrite (followLink_eval e (es ++ [mkEntry OBJ_NULL_ID outsS k]) l d x Hr Hsrc El Hst), Enot. fold e'.
  set (x1 := mkContext _ _ _ _ _ _).
  assert (∀ l', seen o (c_inners (component x)) (e' :: es) l' ↔ seen o (c_inners (component x)) (e :: es) l' ∨ l' = l) as Hseen
    by (intros; by apply seen_next).
  assert (c_inners (component x1) = c_inners (component x) ∧ c_outputs (component x1) = c_outputs (component x) ∧ c_outputsDesc (component x1) = c_outputsDesc (component x)) as (Ei & Eo & Ed)
    by (unfold x1; cbn; by destruct (is_input l)).
  assert (walk k o (e' :: es) (Some l) x1) as W1.
  { split; rewrite ?Ei, ?Eo, ?Ed; cbn [components belongsTo merging componentCells stack x1]; try done.
    - constructor; [|done]. split; cbn; [done..|lia].
    - rewrite <- Ed, <- Eo. by apply descs_next.
    - intros i. setoid_rewrite Hseen. apply inputs_next, Hin.
    - intros l' [Hs| ->]%Hseen Hi Hne; [|done]. by apply Hcl.
    - intros rank Hrk. apply Hso in Hrk. inversion Hrk; subst. by constructor. }
  assert (weight L (e' :: es) < weight L (e :: es)) as Hw by (unfold weight, e'; cbn; lia).
  destruct (is_input l) eqn:Eil.
  { exists x1, (e' :: es), L. split; [done|]. split; [by eapply walk_input|]. by split. }
  destruct (push_walk k o (e' :: es) l d L x1) as (x' & es' & L' & E & W' & HL' & Hw'); [done..| |done| |].
  - eapply cone_step; [|done..]. apply Hco, Hcells. right. by left.
  - intros rank e1 Hrk Hin1. assert (rank (src l) < rank (t_cellID e)) as Hlt1 by (by apply Hrk).
    apply elem_of_cons in Hin1 as [->|Hin1]; [done|]. apply Hso in Hrk. inversion Hrk as [|?? _ HF]; subst.
    pose proof (proj1 (Forall_forall _ _) HF e1 Hin1) as Hlt2. cbn in Hlt2. lia.
  - exists x', es', L'. split_all; [done..|lia].
Qed.

(** The cell on top has been passed. *)
Lemma passed_seen e l : entry_ok e → length (t_links e) ≤ t_index e → l ∈ passed e ↔ l ∈ links_into (t_cellID e).
Proof. intros He Hp. unfold passed. rewrite take_ge by (rewrite length_fmap; lia). by rewrite (eo_links _ He). Qed.

Lemma seen_leave o inners e es l : entry_ok e → length (t_links e) ≤ t_index e →
  seen o (inners ++ [t_cellID e]) es l ↔ seen o inners (e :: es) l.
Proof.
  intros He Hp. pose proof (passed_seen e l He Hp) as Hl. unfold seen. setoid_rewrite elem_of_app. setoid_rewrite elem_of_cons. split.
  - intros [?|[(id & [?|Hid] & ?)|(e1 & ? & ?)]]; [by auto|by eauto| |by eauto 7].
    destruct Hid as [->|[]%elem_of_nil]. right; right. exists e. split; [by left|by apply Hl].
  - intros [?|[(id & ? & ?)|(e1 & [->|?] & ?)]]; [by auto|by eauto 7| |by eauto].
    right; left. exists (t_cellID e). split; [right; left; done|by apply Hl].
Qed.

Definition left_cell (id : Z) (st : list TraversalEntry) (x : Context) : Context :=
  mkContext (components x) (belongsTo x) (merging x) (mkComponent (c_inputs (component x)) (c_inputsDesc (component x))
    (c_inners (component x) ++ [id]) (c_outputs (component x)) (c_outputsDesc (component x))) (componentCells x) st.

Lemma leave_walk k o e es x : walk k o (e :: es) None x → length (t_links e) ≤ t_index e →
  walk k o es None (left_cell (t_cellID e) (es ++ [mkEntry OBJ_NULL_ID outsS k]) x).
Proof.
  intros W Hp. pose proof W as [Hst HP He Hcells Hnd Hnew Hco Hm Ho Hd Hin Hcl Hso Hor].
  apply Forall_cons_1 in He as [Hee He].
  assert (∀ l, seen o (c_inners (component x) ++ [t_cellID e]) es l ↔ seen o (c_inners (component x)) (e :: es) l) as Hseen
    by (intros; by apply seen_leave).
  split; cbn [left_cell components belongsTo merging component componentCells stack c_inputs c_inputsDesc c_inners c_outputs c_outputsDesc]; try done.
  - intros id. rewrite Hcells, fmap_cons, elem_of_cons, elem_of_app, list_elem_of_singleton. tauto.
  - rewrite app_assoc, Permutation_app_comm. exact Hnd.
  - intros i. setoid_rewrite Hseen. apply Hin.
  - intros l Hs%Hseen. by apply Hcl.
  - intros rank Hrk%Hso. by inversion Hrk.
  - intros rank j id l Hrk Hj Hl Hi. apply lookup_app_Some in Hj as [Hj|[Hlen Hj]].
    + rewrite take_app. destruct (Hor rank j id l Hrk Hj Hl Hi); [left; apply elem_of_app; by left|by right].
    + apply list_lookup_singleton_Some in Hj as [Hj <-]. rewrite take_app_le, take_ge by lia.
      assert (seen o (c_inners (component x)) (e :: es) l) as Hs.
      { right; right. exists e. split; [by left|]. by apply (passed_seen e l Hee Hp). }
      destruct (Hcl l Hs Hi) as [Hc|Hc]; [done| |by right]. apply Hcells in Hc as [Hc|Hc]; [by left|]. exfalso.
      assert (rank (src l) < rank (t_cellID e)) as Hlt by (by apply Hrk).
      rewrite fmap_cons in Hc. apply elem_of_cons in Hc as [Hc|Hc]; [rewrite Hc in Hlt; lia|].
      apply list_elem_of_fmap in Hc as (e1 & Ee1 & He1). apply Hso in Hrk. inversion Hrk as [|?? _ HF]; subst.
      pose proof (proj1 (Forall_forall _ _) HF e1 He1) as Hlt2. cbn in Hlt2. rewrite <- Ee1 in Hlt2. lia.
Qed.

(** An output link is followed. *)
Lemma followLink_idle k o L x : cells_ready → outsS.*1 = outs → idle k x → outs !! k = Some o → has_source o.1 → waiting L x →
  ∃ x' es' L', followLink s (mkEntry OBJ_NULL_ID outsS k) x = Some ((), x') ∧ walk (S k) o es' None x' ∧ waiting L' x' ∧
    weight L' es' ≤ weight L [].
Proof.
  intros Hr Eouts [Hst HP (Hm & Hc & Hcc)] Hk Hsrc HL. rewrite <- Eouts, list_lookup_fmap in Hk.
  destruct (outsS !! k) as [[o' d]|] eqn:El; [|done]. injection Hk as ->.
  rewrite (followLink_eval (mkEntry OBJ_NULL_ID outsS k) [] o d x Hr Hsrc El Hst). set (x1 := mkContext _ _ _ _ _ _).
  assert (∀ l, seen o [] [] l ↔ False ∨ l = o) as Hseen.
  { intros l. unfold seen. split; [|by intros [?| ->]; [|left]]. intros [?|[(id & Hid & _)|(e & He & _)]]; [by right|by apply elem_of_nil in Hid|by apply elem_of_nil in He]. }
  assert (o ∈ outs) as Hout by (rewrite <- Eouts; apply (list_elem_of_lookup_2 _ k); by rewrite list_lookup_fmap, El).
  assert (c_inners (component x1) = [] ∧ c_outputs (component x1) = {[o]}) as (Ei & Eo).
  { unfold x1, passing. cbn. rewrite Hc. destruct (is_input o); cbn; split; (done || apply (left_id_L ∅ (∪))). }
  assert (walk (S k) o [] (Some o) x1) as W1.
  { split; rewrite ?Ei, ?Eo; cbn [components belongsTo merging componentCells stack x1].
    - done.
    - by rewrite Nat.sub_succ, Nat.sub_0_r.
    - constructor.
    - intros id. rewrite Hcc. clear. set_solver.
    - constructor.
    - intros id. by rewrite Hcc.
    - intros id. by rewrite Hcc.
    - intros i. by rewrite Hm.
    - done.
    - rewrite <- Eo. apply descs_next. by rewrite Hc.
    - intros i. setoid_rewrite Hseen. apply inputs_next. rewrite Hc. intros i'. cbn. split; [by intros ?%elem_of_empty|by intros (? & [] & _)].
    - intros l [[]| ->]%Hseen; congruence.
    - intros rank _. constructor.
    - done. }
  assert (waiting L x1) as HL1 by exact HL.
  destruct (is_input o) eqn:Eil.
  { exists x1, [], L. split; [done|]. split; [by eapply walk_input|]. by split. }
  destruct (push_walk (S k) o [] o d L x1) as (x' & es' & L' & E & W' & HL' & Hw'); [done..|by apply cone_start|done|by intros rank e _ ?%elem_of_nil|].
  exists x', es', L'. by split_all.
Qed.

(** The component of an output link is made. *)
Lemma makeComponent_walk k o L x : NoDup outs → outs !! k = Some o → walk (S k) o [] None x → waiting L x →
  ∃ x', makeComponent x = Some ((), x') ∧ idle (S k) x' ∧ waiting L x'.
Proof.
  intros Hnd Hk W HL. pose proof W as [Hst HP He Hcells Hnd' Hnew Hco Hm Ho Hd Hin Hcl Hso Hor].
  rewrite Nat.sub_succ, Nat.sub_0_r in HP. set (base := (map_to_list (filter (λ p : Z * nat, p.2 ∈ merging x) (belongsTo x))).*1).
  assert (∀ id, id ∈ base ↔ met x id) as Hbase.
  { intros id. unfold base. rewrite list_elem_of_fmap. split.
    - intros ([id' i] & -> & (Hb & Hi)%elem_of_map_to_list%map_lookup_filter_Some). by exists i.
    - intros (i & Hi & Hb). exists (id, i). split; [done|]. by apply elem_of_map_to_list, map_lookup_filter_Some. }
  assert (∀ id, id ∈ componentCells x ↔ id ∈ c_inners (component x)) as Hcells'.
  { intros id. rewrite Hcells. cbn. split; [intros [?|?%elem_of_nil]; done|by left]. }
  assert (∀ l, link_of (component x) l ↔ seen o (c_inners (component x)) [] l) as Hlink.
  { intros l. unfold link_of, seen. rewrite Ho, elem_of_singleton. split; [tauto|]. intros [?|[?|(e & ?%elem_of_nil & _)]]; tauto. }
  assert (o ∈ outs) as Hout by (by eapply list_elem_of_lookup_2).
  assert (part base (component x)) as Pc.
  { split.
    - intros id Hid. exists o. rewrite Ho. split; [by apply elem_of_singleton|]. by apply Hco, Hcells'.
    - intros l Hl%Hlink Hi. rewrite elem_of_app, Hbase, <- Hcells'. destruct (Hcl l Hl Hi); [done|by right|by left].
    - done.
    - intros i. setoid_rewrite Hlink. apply Hin.
    - rewrite Ho. intros o1 o2 ->%elem_of_singleton ->%elem_of_singleton. done.
    - rewrite Ho. by intros o1 ->%elem_of_singleton.
    - done.
    - intros rank j id l Hrk Hj Hl Hi. rewrite elem_of_app, Hbase. destruct (Hor rank j id l Hrk Hj Hl Hi); auto. }
  assert (o ∉ take k outs) as Hno.
  { rewrite <- (take_drop_middle _ _ _ Hk) in Hnd. by apply NoDup_mid_notin in Hnd as [? _]. }
  destruct (makeComponent_spec x o (take k outs) base) as (cs & b & E & HP' & Hb); [done..|by intros id; rewrite Hbase|intros id Hid; by apply Hnew, Hcells'|].
  eexists. split; [exact E|]. split.
  - split; cbn; [done| |done]. by rewrite (take_S_r _ _ _ Hk).
  - intros id c Hc Hcan _ Hid. apply Hb in Hid as [Hb1 Hb2]. apply HL; [done..| |done]. by rewrite Hcells'.
Qed.

(** *** The loop *)

Definition running (L : list (Z * nat)) (x : Context) (fuel : nat) : Prop :=
  (idle 0 x ∧ outs ≠ [] ∧ weight L [] + length outs < fuel) ∨
  ∃ k o es, outs !! k = Some o ∧ walk (S k) o es None x ∧ weight L es + (length outs - S k) < fuel.

Lemma extract_ends fuel : cells_ready → outsS.*1 = outs → NoDup outs → (∀ o, o ∈ outs → has_source o.1) →
  ∀ L x, running L x fuel → waiting L x →
  ∃ x', extract_loop s fuel x = Some ((), x') ∧ parts (components x') outs (belongsTo x').
Proof.
  intros Hr Eouts Hnd Hsrc. assert (length outsS = length outs) as Elen by (rewrite <- Eouts; by rewrite length_fmap).
  induction fuel as [|fuel IH]; intros L x [(Hid & Hne & Hf)|(k & o & es & Hk & W & Hf)] HL; [lia|lia| |].
  - pose proof (id_stack _ _ Hid) as Hst. destruct (lookup_lt_is_Some_2 outs 0) as [o Hk]; [destruct outs; cbn in *; [done|lia]|].
    cbn [extract_loop]. rewrite (bind_eval st_get _ x x x), Hst by done.
    assert (isPassed (mkEntry OBJ_NULL_ID outsS 0) = false) as Ep by (unfold isPassed; cbn [t_links t_index]; apply Nat.leb_gt; destruct outs; cbn in *; [done|lia]).
    change (isOutputEntry (mkEntry OBJ_NULL_ID outsS 0) && (0 <? t_index (mkEntry OBJ_NULL_ID outsS 0))) with false.
    cbn [andb]. rewrite (bind_eval (mret ()) _ x () x) by done. rewrite Ep. cbn [negb].
    destruct (followLink_idle 0 o L x Hr Eouts Hid Hk) as (x' & es' & L' & E & W' & HL' & Hw); [apply Hsrc; by eapply list_elem_of_lookup_2|done|].
    rewrite (bind_eval _ _ _ _ _ E). apply (IH L'); [|done]. right. exists 0, o, es'. apply lookup_lt_Some in Hk as Hlt. split_all; [done..|lia].
  - assert (o ∈ outs) as Hout by (by eapply list_elem_of_lookup_2). pose proof (lookup_lt_Some _ _ _ Hk) as Hklt.
    pose proof (wk_stack _ _ _ _ _ W) as Hst. destruct es as [|e es].
    + cbn in Hst. cbn [extract_loop]. rewrite (bind_eval st_get _ x x x), Hst by done.
      destruct (makeComponent_walk k o L x Hnd Hk W HL) as (x1 & E1 & Hid & HL1).
      change (isOutputEntry (mkEntry OBJ_NULL_ID outsS (S k)) && (0 <? t_index (mkEntry OBJ_NULL_ID outsS (S k)))) with true.
      rewrite (bind_eval _ _ _ _ _ E1). cbn [andb]. destruct (decide (S k < length outs)) as [Hlt|Hge].
      * assert (isPassed (mkEntry OBJ_NULL_ID outsS (S k)) = false) as Ep by (unfold isPassed; cbn [t_links t_index]; apply Nat.leb_gt; lia).
        rewrite Ep. cbn [negb]. destruct (lookup_lt_is_Some_2 _ _ Hlt) as [o1 Hk1].
        destruct (followLink_idle (S k) o1 L x1 Hr Eouts Hid Hk1) as (x' & es' & L' & E & W' & HL' & Hw); [apply Hsrc; by eapply list_elem_of_lookup_2|done|].
        rewrite (bind_eval _ _ _ _ _ E). apply (IH L'); [|done]. right. exists (S k), o1, es'. split_all; [done..|lia].
      * assert (isPassed (mkEntry OBJ_NULL_ID outsS (S k)) = true) as -> by (unfold isPassed; cbn [t_links t_index]; apply Nat.leb_le; lia).
        eexists. split; [reflexivity|]. cbn. pose proof (id_parts _ _ Hid) as HP. by rewrite take_ge in HP by lia.
    + pose proof (wk_entries _ _ _ _ _ W) as [Hee _]%Forall_cons_1. assert (isOutputEntry e = false) as Enot.
      { unfold isOutputEntry. destruct (eo_cell _ Hee) as [c Hc]. unfold get in Hc. by destruct (t_cellID e =? OBJ_NULL_ID)%Z. }
      cbn [extract_loop]. rewrite (bind_eval st_get _ x x x), Hst by done. cbn [app]. rewrite Enot. cbn [andb].
      rewrite (bind_eval (mret ()) _ x () x) by done. unfold isPassed. destruct (Nat.leb_spec (length (t_links e)) (t_index e)) as [Hp|Hp]; cbn [negb].
      * pose proof (leave_walk _ _ _ _ _ W Hp) as W'. set (x' := left_cell _ _ _) in W'.
        assert ((addInner (t_cellID e);; pop) x = Some ((), x')) as E.
        { unfold addInner, pop, st_modify, mbind, st_bind, with_component, with_stack. cbn [components belongsTo merging component componentCells stack].
          rewrite Hst. reflexivity. }
        rewrite <- bind_assoc, (bind_eval _ _ _ _ _ E). apply (IH L); [|done]. right. exists k, o, es. split_all; [done..|].
        unfold weight in *. cbn in Hf. lia.
      * destruct (followLink_walk (S k) o e es L x Hr W HL Hout Hp) as (x' & es' & L' & E & W' & HL' & Hw).
        rewrite (bind_eval _ _ _ _ _ E). apply (IH L'); [|done]. right. exists k, o, es'. split_all; [done..|lia].
Qed.

(** The traversal from the beginning, with the fuel of the code's measure. *)
Lemma extract_parts : cells_ready → outsS.*1 = outs → NoDup outs → (∀ o, o ∈ outs → has_source o.1) →
  (∀ k c, cells s !! k = Some c → fanin c = N.of_nat (length (cell_links c))) →
  ∃ x, extract_loop s (rounds s outsS) (newContext outsS) = Some ((), x) ∧ parts (components x) outs (belongsTo x).
Proof.
  intros Hr Eouts Hnd Hsrc Hfan. assert (parts [] [] ∅) as HP0.
  { split; [constructor| | |].
    - intros o. split; [by intros ?%elem_of_nil|by intros (i & c & ? & _)].
    - by intros i j c c' o ?.
    - intros id i. rewrite lookup_empty. split; [done|by intros (c & ? & _)]. }
  destruct (decide (outs = [])) as [E0|Hne].
  { assert (outsS = []) as E by (by apply (fmap_nil_inv fst); rewrite Eouts). rewrite E, E0.
    exists (newContext []). split; [|done]. by destruct (rounds s []). }
  assert (outsS ≠ []) as HneS by (intros E; apply Hne; by rewrite <- Eouts, E).
  set (L := (λ p : Z * Cell, (makeFID CellID p.1, length (cell_links p.2))) <$> map_to_list (cells s)).
  apply (extract_ends (rounds s outsS) Hr Eouts Hnd Hsrc L).
  - left. split; [|split; [done|]].
    + assert (∀ l, l ≠ [] → stack (newContext l) = [mkEntry OBJ_NULL_ID l 0]) as Hs by (by intros []).
      split; [by apply Hs|exact HP0|by split_all].
    + assert (length outsS = length outs) as Elen by (rewrite <- Eouts; by rewrite length_fmap).
      unfold rounds, weight, L. rewrite map_fold_foldr, Elen. cbn [sum_list_with].
      assert (∀ l, (∀ p, p ∈ l → fanin p.2 = N.of_nat (length (cell_links p.2))) →
        sum_list_with (λ p, S p.2) ((λ p : Z * Cell, (makeFID CellID p.1, length (cell_links p.2))) <$> l) + 1 =
        foldr (uncurry (λ (_ : Z) c n, S (N.to_nat (fanin c)) + n)) 1 l) as Hsum.
      { induction l as [|[k c] l IH]; intros Hl; [done|]. rewrite fmap_cons. cbn [sum_list_with foldr uncurry fst snd].
        rewrite <- IH by (intros p Hp; apply Hl; by right). pose proof (Hl (k, c) (list_elem_of_here _ _)) as E. cbn in E. rewrite E. lia. }
      rewrite <- Hsum; [lia|]. intros [k c] Hkc%elem_of_map_to_list. by eapply Hfan.
  - intros id c Hc Hcan _ _. unfold L. apply list_elem_of_fmap. exists (makeSID CellID id, c). cbn. split; [f_equal; exact Hcan|].
    apply elem_of_map_to_list. unfold get in Hc. by destruct (id =? OBJ_NULL_ID)%Z.
Qed.

End Components.

(** ** The components of a net *)

Section NetComponents.
Context `{TypeStore}.

(** The links at which the traversal starts: those of the outputs, the flip-flops and the blocks
    that are not to be expanded. *)
Definition expanded (s : State) (id : Z) : bool :=
  match getCellInfo s id with Some (_, t) => isSoft t && isSubnet t | None => false end.

Definition ends (n : Net) : list Z := outputs (lists n) ++ flipFlops (lists n) ++ softBlocks (lists n) ++ hardBlocks (lists n).

Definition net_outputs (s : State) (n : Net) : list NetLink :=
  concat ((λ id, if expanded s id then [] else links_into s id) <$> ends n).

(** A net can be decomposed: all its ports are connected, there are not too many of
    them at a cell, and each has a kind. *)
Record decomposable (s : State) : Prop := {
  dn_valid : ∀ k c w, cells s !! k = Some c → w ∈ cell_links c → isValid w = true;
  dn_small : ∀ k c, cells s !! k = Some c → length (cell_links c) < Z.to_nat (2 ^ 16);
  dn_signals : ∀ k c t j, cells s !! k = Some c → cellType c = Some t → isSeqGate t = true →
    j < length (cell_links c) → is_Some (getSignalType t j);
}.

Lemma get_cell s id c : get s id = Some c → cells s !! makeSID CellID id = Some c.
Proof. unfold get. by destruct (id =? OBJ_NULL_ID)%Z. Qed.

Lemma inv_source s added k c w : net_inv s added → decomposable s → cells s !! k = Some c → w ∈ cell_links c → has_source s w.
Proof.
  intros HI HD Hc Hw. pose proof (ok_links _ _ (inv_cells _ _ HI _ _ Hc)) as HF. rewrite Forall_forall in HF.
  destruct (HF w Hw) as [Hg Hl]. pose proof (dn_valid _ HD _ _ _ Hc Hw) as Hv. destruct (good_cell w Hg Hv) as [Hr E].
  destruct (Hl Hv) as [d Hd]. split; [|exact E]. exists d. rewrite E. by apply get_fid.
Qed.

Lemma inv_ready s added : net_inv s added → decomposable s → cells_ready s.
Proof.
  intros HI HD id c Hc%get_cell. pose proof (inv_cells _ _ HI _ _ Hc) as Hok. split_all.
  - apply Hok.
  - by eapply getLinks_ok.
  - apply Hok.
  - by eapply dn_small.
  - apply Forall_forall. intros w Hw. by eapply inv_source.
Qed.

Lemma getCellLinks_end s added id : net_inv s added → decomposable s → is_Some (get s id) →
  ∃ ls, getCellLinks s id None = Some ls ∧ ls.*1 = links_into s id.
Proof.
  intros HI HD [c Hc]. pose proof (inv_ready _ _ HI HD _ _ Hc) as ([t Ht] & Hl & _ & Hlen & _).
  rewrite (ready_links _ _ _ (inv_ready _ _ HI HD) Hc).
  set (sig := λ j, if isSeqGate t then default DATA (getSignalType t j) else DATA).
  exists ((λ p : nat * Z, ((p.2, LinkEnd id (Z.of_nat p.1)), sig p.1)) <$> imap pair (cell_links c)). split.
  - unfold getCellLinks, getCellInfo. rewrite Hc. cbn [mbind option_bind]. rewrite Ht. cbn [mbind option_bind]. rewrite Hl.
    cbn [mbind option_bind]. rewrite bool_decide_eq_true_2 by done. rewrite (bool_decide_eq_true_2 (None = None)) by done.
    rewrite andb_true_r. apply mapM_Some. apply Forall2_fmap_r, Forall_Forall2_diag, Forall_forall.
    intros [j w] (j' & w' & [= <- <-] & Hj)%elem_of_lookup_imap. unfold sig. cbn. destruct (isSeqGate t) eqn:Es; [|done].
    destruct (dn_signals _ HD _ c t j (get_cell _ _ _ Hc) Ht Es) as [g Hg]; [by eapply lookup_lt_Some|]. by rewrite Hg.
  - rewrite <- list_fmap_compose, fmap_imap. by apply imap_ext.
Qed.

Lemma fillLinks_spec s added ids : net_inv s added → decomposable s → (∀ id, id ∈ ids → is_Some (get s id)) →
  ∃ ls, fillLinks s ids = Some ls ∧ ls.*1 = concat ((λ id, if expanded s id then [] else links_into s id) <$> ids).
Proof.
  intros HI HD. unfold fillLinks. induction ids as [|id ids IH]; intros Hids; [by exists []|].
  destruct IH as (ls & E & Els); [intros; apply Hids; by right|]. destruct (Hids id) as [c Hc]; [by left|].
  pose proof (inv_ready _ _ HI HD _ _ Hc) as ([t Ht] & _).
  destruct (getCellLinks_end s added id HI HD) as (ks & Ek & Eks); [by exists c|].
  assert (getCellInfo s id = Some (c, t)) as Ei by (unfold getCellInfo; by rewrite Hc; cbn; rewrite Ht).
  exists ((if expanded s id then [] else ks) ++ ls). rewrite fmap_cons. cbn [mapM concat]. rewrite fmap_app, Els. split.
  - unfold expanded. rewrite Ei. cbn [mbind option_bind]. destruct (mapM _ ids) as [l|]; [|done]. injection E as <-.
    destruct (isSoft t && isSubnet t); [done|]. by rewrite Ek.
  - f_equal. by destruct (expanded s id).
Qed.

Lemma extractOutputs_spec s added n : net_inv s added → decomposable s → (∀ id, id ∈ ends n → is_Some (get s id)) →
  ∃ ls, extractOutputs s n = Some ls ∧ ls.*1 = net_outputs s n.
Proof.
  intros HI HD. unfold ends. intros Hids.
  destruct (fillLinks_spec s added (outputs (lists n)) HI HD) as (l1 & E1 & F1); [intros; apply Hids; rewrite !elem_of_app; auto|].
  destruct (fillLinks_spec s added (flipFlops (lists n)) HI HD) as (l2 & E2 & F2); [intros; apply Hids; rewrite !elem_of_app; auto|].
  destruct (fillLinks_spec s added (softBlocks (lists n)) HI HD) as (l3 & E3 & F3); [intros; apply Hids; rewrite !elem_of_app; auto|].
  destruct (fillLinks_spec s added (hardBlocks (lists n)) HI HD) as (l4 & E4 & F4); [intros; apply Hids; rewrite !elem_of_app; auto|].
  exists (l1 ++ l2 ++ l3 ++ l4). unfold extractOutputs. rewrite E1, E2, E3, E4. split; [done|].
  unfold net_outputs, ends. rewrite !fmap_app, !concat_app. by rewrite F1, F2, F3, F4.
Qed.

(** *** The output links differ *)

Lemma links_into_target s added id l : net_inv s added → decomposable s → id ∈ added → l ∈ links_into s id →
  ∃ j, (0 ≤ j ≤ PortMask)%Z ∧ l.2 = LinkEnd id j ∧ getCellID l.2 = id ∧ getPort l.2 = j.
Proof.
  intros HI HD Hid Hl. destruct (inv_added _ _ HI _ Hid) as (k & c & -> & Hc).
  pose proof (inv_below _ _ HI _ _ Hc) as Hk. pose proof (inv_sid _ _ HI) as Hsid.
  assert (0 ≤ k < NullSID CellID)%Z as Hr by (apply (sid_range k (cellSID s)); lia).
  unfold links_into in Hl. rewrite (get_fid s k c Hr Hc) in Hl. cbn in Hl.
  apply elem_of_lookup_imap in Hl as (j & w & -> & Hj). apply lookup_lt_Some in Hj.
  pose proof (dn_small _ HD _ _ Hc) as Hlen. assert (Z.of_nat j < 2 ^ 16)%Z as Hj16 by lia.
  assert (0 ≤ Z.of_nat j ≤ PortMask)%Z as Hp by (change (2 ^ 16)%Z with 65536%Z in Hj16; change PortMask with 8388607%Z; lia).
  exists (Z.of_nat j). destruct (link_end_roundtrip k (Z.of_nat j) ltac:(lia) Hp) as (E1 & E2 & _). by split; [|split_all].
Qed.

Lemma links_into_NoDup s added id : net_inv s added → decomposable s → id ∈ added → NoDup (links_into s id).
Proof.
  intros HI HD Hid. apply NoDup_alt. intros i j l Hi Hj.
  assert (∀ i, links_into s id !! i = Some l → Z.of_nat i = getPort l.2) as Hport.
  { clear i j Hi Hj. intros i Hi. destruct (inv_added _ _ HI _ Hid) as (k & c & -> & Hc).
    pose proof (inv_below _ _ HI _ _ Hc) as Hk. pose proof (inv_sid _ _ HI) as Hsid.
    assert (0 ≤ k < NullSID CellID)%Z as Hr by (apply (sid_range k (cellSID s)); lia).
    unfold links_into in Hi. rewrite (get_fid s k c Hr Hc) in Hi. cbn in Hi. rewrite list_lookup_imap in Hi.
    destruct (cell_links c !! i) as [w|] eqn:Ew; [|done]. injection Hi as <-. apply lookup_lt_Some in Ew.
    pose proof (dn_small _ HD _ _ Hc) as Hlen. assert (Z.of_nat i < 2 ^ 16)%Z as Hj16 by lia.
    assert (0 ≤ Z.of_nat i ≤ PortMask)%Z as Hp by (change (2 ^ 16)%Z with 65536%Z in Hj16; change PortMask with 8388607%Z; lia).
    by destruct (link_end_roundtrip k (Z.of_nat i) ltac:(lia) Hp) as (_ & E & _). }
  apply Hport in Hi, Hj. lia.
Qed.

Lemma net_outputs_NoDup s added n : net_inv s added → decomposable s → NoDup (ends n) → (∀ id, id ∈ ends n → id ∈ added) →
  NoDup (net_outputs s n).
Proof.
  intros HI HD. unfold net_outputs. induction (ends n) as [|id ids IH]; intros Hnd Hin; [constructor|].
  apply NoDup_cons in Hnd as [Hid Hnd]. rewrite fmap_cons. cbn [concat]. apply NoDup_app. split_all.
  - destruct (expanded s id); [constructor|]. eapply links_into_NoDup; [done..|]. apply Hin. by left.
  - intros l Hl (ls & Hls & (id' & -> & Hid')%list_elem_of_fmap)%elem_of_concat.
    destruct (expanded s id); [by apply elem_of_nil in Hl|]. destruct (expanded s id'); [by apply elem_of_nil in Hls|].
    destruct (links_into_target s added id l HI HD) as (j & _ & _ & E & _); [apply Hin; by left|done|].
    destruct (links_into_target s added id' l HI HD) as (j' & _ & _ & E' & _); [apply Hin; by right|done|]. congruence.
  - apply IH; [done|]. intros; apply Hin. by right.
Qed.

Lemma net_ends s added n : net_inv s added → Nets.make s = Some n →
  NoDup (ends n) ∧ (∀ id, id ∈ ends n → id ∈ added) ∧ ∀ id, id ∈ ends n → is_Some (get s id).
Proof.
  intros HI Hm. assert (lists n = builder s) as El.
  { unfold Nets.make in Hm. repeat (apply bind_Some in Hm as (? & _ & Hm)). by injection Hm as <-. }
  assert (∀ id, id ∈ added → is_Some (class_of (cells s) id)) as Hclass.
  { intros id Hid. destruct (inv_added _ _ HI _ Hid) as (k & c & -> & Hc).
    pose proof (inv_below _ _ HI _ _ Hc) as Hk. pose proof (inv_sid _ _ HI) as Hsid.
    assert (0 ≤ k < NullSID CellID)%Z as Hr by (apply (sid_range k (cellSID s)); lia).
    unfold class_of. rewrite sid_of, Hc by done. cbn. destruct (ok_type _ _ (inv_cells _ _ HI _ _ Hc)) as [t ->]. by eexists. }
  assert (all_cells (lists n) ≡ₚ added) as Hp by (rewrite El, (inv_lists _ _ HI); by apply all_cells_added).
  assert (∀ id, id ∈ ends n → id ∈ added) as Hin.
  { intros id Hid. rewrite <- Hp. unfold ends, all_cells in *. rewrite !elem_of_app in *. tauto. }
  split_all; [|done|].
  - pose proof (inv_nodup _ _ HI) as Hnd. rewrite <- Hp in Hnd. unfold all_cells in Hnd. unfold ends.
    apply NoDup_app in Hnd as (_ & _ & Hnd). apply NoDup_app in Hnd as (Ho & Hd1 & Hnd). apply NoDup_app in Hnd as (_ & _ & Hnd).
    apply NoDup_app. split; [done|]. split; [|by rewrite (Permutation_app_comm (softBlocks _))].
    intros id Hid. specialize (Hd1 id Hid). rewrite !elem_of_app in *. tauto.
  - intros id Hid%Hin. destruct (inv_added _ _ HI _ Hid) as (k & c & -> & Hc).
    pose proof (inv_below _ _ HI _ _ Hc) as Hk. pose proof (inv_sid _ _ HI) as Hsid.
    exists c. apply get_fid; [|done]. apply (sid_range k (cellSID s)); lia.
Qed.

(** The traversal of a net ends and gives its components. *)
Lemma components_spec s added n : net_inv s added → Nets.make s = Some n → decomposable s →
  ∃ cs b, extractComponents s n = Some cs ∧ parts s (net_outputs s n) cs (net_outputs s n) b.
Proof.
  intros HI Hm HD. destruct (net_ends s added n HI Hm) as (Hnd & Hin & Hget).
  destruct (extractOutputs_spec s added n HI HD Hget) as (outsS & Eo & Es).
  destruct (extract_parts s (net_outputs s n) outsS) as (x & Ex & HP).
  - by eapply inv_ready.
  - done.
  - by eapply net_outputs_NoDup.
  - intros o (ls & Hl & (id & -> & Hid)%list_elem_of_fmap)%elem_of_concat. destruct (expanded s id); [by apply elem_of_nil in Hl|].
    eapply (link_source s id); [by eapply inv_ready|by apply Hget|done].
  - intros k c Hc. apply (inv_cells _ _ HI _ _ Hc).
  - exists (components x), (belongsTo x). split; [|done]. unfold extractComponents. rewrite Eo. cbn [mbind option_bind]. by rewrite Ex.
Qed.

End NetComponents.
