(* ===== verification/DecomposerCorrect.v ===== *)
(** * Decomposing a net

    The subnet of a component computes, from the sources of its input links, the
    values of the sources of its output links in every valuation of the net. *)

From S2P Require Import Prelude ObjectId CellType SubnetBase Builder Order BuilderInv BuilderAdd BuilderAlloc BuilderSpec Make MakeSpec.
From S2P Require Import BlockList Nets NetSpec Decomposer ComposeSpec DecomposerSpec.
From stdpp Require Import gmap sorting strings.
Import Nets.

(** ** Definitions *)

(** A gate with at most three links. *)
Definition plain_gate (sym : CellSymbol) (n : nat) : bool :=
  (n <=? InPlaceLinks) && bool_decide (is_Some (gate_fun sym (replicate n false))).

Section Split.
Context `{TypeStore} `{HashOrder}.
Context (s : State) (c : NetComponent).

Definition link_port (w : Z) : bool := (getPort w =? 0)%Z.

(** The cell is a small gate whose links to other gates lead to their outputs. *)
Definition plain_links (ls : list NetLink) : bool :=
  forallb (λ l : NetLink, is_input s l || link_port l.1) ls.

Definition plain_cell (id : Z) : bool :=
  match get s id with
  | Some d => match typeID d with GateID sym => plain_gate sym (length (cell_links d)) | _ => false end
  | None => false
  end && plain_links (links_into s id).

(** The component is of small gates. *)
Definition plain_component : bool := forallb plain_cell (c_inners c) && plain_links (elements (c_outputs c)).

(** The cells of the component have their values in [nv]. *)
Definition component_consistent (nv : nval) : Prop := ∀ id d y, id ∈ c_inners c → get s id = Some d →
  cell_fun (typeID d) (link_val nv <$> cell_links d) = Some y → nv (makeSID CellID id) 0%Z = y.

(** The subnet [sn] with the mapping [m] computes the component. *)
Record subnet_right (sn : Subnet) (m : CellMapping) (il ol : list NetLink) : Prop := {
  sr_in : ∀ k i, il !! k = Some i → m_inputs m !! i = Some k;
  sr_out : ∀ k o, ol !! k = Some o → m_outputs m !! o = Some (Net.size sn - sn_nOut sn + k);
  sr_size : m_size m = Net.size sn ∧ sn_nOut sn = length ol;
  sr_fun : ∃ f, implements sn (length il) f ∧
    ∀ nv, component_consistent nv → f ((λ i : NetLink, link_val nv i.1) <$> il) = (λ o : NetLink, link_val nv o.1) <$> ol;
}.

(** ** Gates *)

(** What [makeSubnet] does with a gate: a link, or the gate or its opposite. *)
Lemma plain_gate_type sym n : plain_gate sym n = true → ∃ t, getType (GateID sym) = Some t ∧ isSoft t = false ∧ symbol t = sym ∧
  ((sym = BUF ∨ sym = NOT) ∧ n = 1 ∧ (∀ x, gate_fun sym [x] = Some (xorb (negative (props t)) x)) ∨
   ¬ (sym = BUF ∨ sym = NOT) ∧ ∃ sym', (if negative (props t) then getNegSymbol sym else Some sym) = Some sym' ∧ gate_ok sym' n = true ∧
     ∀ xs y, length xs = n → gate_fun sym' xs = Some y → gate_fun sym xs = Some (xorb (negative (props t)) y)).
Proof.
  unfold plain_gate. rewrite andb_true_iff, Nat.leb_le. intros [Hn Hf%bool_decide_eq_true].
  destruct sym; try (by destruct Hf); (eexists; split; [reflexivity|]; split; [reflexivity|]; split; [reflexivity|]).
  3, 4: left; (split; [auto|]); destruct n as [|[|n]]; [by destruct Hf|split; [done|by intros []]|by destruct Hf].
  all: right; (split; [intros [?|?]; discriminate|]); eexists; (split; [reflexivity|]); split;
    [unfold gate_ok; cbn -[gate_fun]; apply bool_decide_eq_true; destruct n; (done || by destruct Hf)|].
  all: intros xs y Hlen Hy; destruct xs as [|x xs]; try discriminate Hy; cbn in Hy |- *; injection Hy as <-; by rewrite ?xorb_false_l.
Qed.

(** ** Inputs *)

Lemma wp_st {A B} (r : option A) (f : A → st SubnetBuilder B) b Q x : r = Some x → wp (f x) b Q → wp (st_read (λ _, r) ≫= f) b Q.
Proof. intros ->. done. Qed.

(** Additions leave no holes and keep the order of the entries. *)
Definition grown (b : SubnetBuilder) : Prop := emptyEntryIDs b = [] ∧ fanoutsEnabled b = false.

Lemma grown_ext b b' : ext b b' → grown b → grown b'.
Proof. intros [_ (_ & He & Hf)] [E F]. split; [by apply He|congruence]. Qed.

(** Inputs and outputs are new entries at the end. *)
Lemma add_port t ls b ins outs ty : wf b ins outs → grown b → t = GateID IN ∧ ls = [] ∧ input_ready b ins ∨ t = GateID OUT ∧ length ls = 1 →
  getType t = Some ty → srcs b ls →
  ∃ b', Builder.addCell t ls b = Some (LinkTo (length (entries b)), b') ∧
    wf b' (after_ins ins t (length (entries b))) (after_outs outs t (length (entries b))) ∧ ext b b' ∧
    is_cell b' t ls (LinkTo (length (entries b))) ∧ length (entries b') = S (length (entries b)).
Proof.
  intros Hw [Hem Hfan] Ht Hty Hs.
  destruct (addCell_new b ins outs t ls ty) as (i & b' & E & Hw' & He & Hl & Hc & Hfresh); [done|done| | | |done| | |].
  - destruct Ht as [(-> & _)|(-> & _)]; by injection Hty as <-.
  - destruct Ht as [(_ & -> & _)|(_ & ->)]; unfold InPlaceLinks; cbn; lia.
  - destruct Ht as [(-> & -> & _)|(-> & ->)]; reflexivity.
  - intros ->. destruct Ht as [(_ & _ & ?)|(? & _)]; done.
  - intros key He. exfalso. unfold isEnabled in He. apply bool_decide_eq_true in He. destruct Ht as [(-> & _)|(-> & _)]; tauto.
  - destruct (Hfresh Hem) as [-> Hlen]. exists b'. split_all; [done..| |done]. eapply is_cell_new; [done| |done|done].
    destruct Ht as [(_ & -> & _)|(_ & ->)]; unfold InPlaceLinks; cbn; lia.
Qed.

Lemma addInput_new b ins : wf b ins [] → grown b → input_ready b ins →
  wp Builder.addInput b (λ l b', l = LinkTo (length (entries b)) ∧ wf b' (ins ++ [idx l]) [] ∧ ext b b' ∧ BuilderSpec.is_input b' l ∧
    length (entries b') = S (length (entries b))).
Proof.
  intros Hw Hg Hr. unfold Builder.addInput, addGate. cbn [getCellTypeID getCellType].
  destruct (add_port (GateID IN) [] b ins [] (row "in" 1 1 0 0 0 0 0 0 0 0 1 IN) Hw Hg) as (b' & E & Hw' & He & Hc & Hlen); [left; auto|done|constructor|].
  exists (LinkTo (length (entries b))), b'. split; [done|]. split; [done|]. split; [done|]. split; [done|]. split; [|done].
  destruct Hc as (Ho & Hi & Hl & d & ty & Hcell & Ht & _). split; [|done].
  split; [done|]. split; [cbn; lia|]. exists d. split; [done|]. rewrite Ht. by intros [=].
Qed.

(** A link of the net that comes into the component. *)
Definition input_fine (i : NetLink) : Prop :=
  makeInputLink i = i ∧ is_Some (getCellInfo s (getCellID i.1)) ∧ is_Some (c_inputsDesc c !! i).

(** The fold over the input links: the [k]-th is the input with the number [k]. *)
Lemma inputs_fold il : ∀ b m d ins, wf b ins [] → grown b → (il = [] ∨ input_ready b ins) → NoDup il →
  (∀ i, i ∈ il → input_fine i ∧ m_inputs m !! i = None) → ins = seq 0 (length (entries b)) →
  Forall (BuilderSpec.is_input b) (LinkTo <$> ins) →
  wp (st_fold (subnet_input s c) il (m, d)) b (λ p b', wf b' (seq 0 (length (entries b'))) [] ∧ grown b' ∧
    length (entries b') = length ins + length il ∧ Forall (BuilderSpec.is_input b') (LinkTo <$> seq 0 (length (entries b'))) ∧
    m_inners p.1 = m_inners m ∧ m_outputs p.1 = m_outputs m ∧
    (∀ k i, il !! k = Some i → m_inputs p.1 !! i = Some (length ins + k)) ∧ (∀ i, i ∉ il → m_inputs p.1 !! i = m_inputs m !! i)).
Proof.
  induction il as [|i il IH]; intros b m d ins Hw Hg Hr Hnd Hil Eins Hins; cbn [st_fold].
  { apply wp_ret. cbn. rewrite <- Eins, Nat.add_0_r. assert (length ins = length (entries b)) as -> by (rewrite Eins at 1; apply length_seq).
    split_all; done. }
  apply NoDup_cons in Hnd as [Hi Hnd]. destruct (Hil i) as [(Emk & [[cl t] Hinfo] & [sg Hsg]) Hfree]; [by left|].
  destruct Hr as [|Hr]; [done|]. apply wp_bind. unfold subnet_input. eapply (wp_st _ _ _ _ (cl, t)); [exact Hinfo|].
  apply wp_bind. eapply wp_mono; [by apply (addInput_new b ins)|]. intros l b1 (-> & Hw1 & He1 & Hl & Hlen1).
  eapply (wp_st _ _ _ _ sg); [exact Hsg|]. apply wp_ret.
  change (idx (LinkTo (length (entries b)))) with (length (entries b)) in *. cbn [fst snd].
  assert (length ins = length (entries b)) as Elen by (rewrite Eins at 1; apply length_seq).
  assert (add_input (makeInputLink i) (length (entries b)) m = mkMapping (m_size m) (<[i := length (entries b)]> (m_inputs m)) (m_inners m) (m_outputs m)) as ->
    by (unfold add_input; rewrite Emk, Hfree; done).
  eapply wp_mono.
  - eapply (IH b1 _ _ (ins ++ [length (entries b)])); [done|by eapply grown_ext| |done| | |].
    + right. left. by destruct ins.
    + intros j Hj. destruct (Hil j) as [Hf Hn]; [by right|]. split; [done|]. cbn [m_inputs]. rewrite lookup_insert_ne; [done|].
      by intros ->.
    + rewrite Hlen1, seq_S, <- Eins. done.
    + rewrite fmap_app. apply Forall_app. split; [|by constructor].
      eapply Forall_impl; [exact Hins|]. intros k [Hk1 Hk2]. split; [by eapply src_ext|done].
  - intros p b2 (Hw2 & Hg2 & Hlen2 & Hins2 & E1 & E2 & Hk & Hn). cbn [m_inners m_outputs m_inputs] in *.
    rewrite length_app in Hlen2, Hk. cbn [length] in *. split_all; try done; [lia| |].
    + intros [|k] j Hj; cbn in Hj.
      * injection Hj as <-. rewrite Hn by done. rewrite lookup_insert_eq. f_equal. lia.
      * rewrite (Hk k j Hj). f_equal. lia.
    + intros j Hj. apply not_elem_of_cons in Hj as [Hj1 Hj2]. rewrite Hn by done. by rewrite lookup_insert_ne.
Qed.

(** ** Values *)

Context (il : list NetLink) (sub : Z → option Subnet).

Definition input_vals (nv : nval) : list bool := (λ i : NetLink, link_val nv i.1) <$> il.

(** The link has in the builder the value that [g] has in the net. *)
Definition sem (b : SubnetBuilder) (l : Link) (g : nval → bool) : Prop :=
  BuilderInv.src b l ∧ ∃ F, (∀ v, consistent v b → lval v l = F ((λ i, v i 0) <$> seq 0 (length il))) ∧
    ∀ nv, component_consistent nv → F (input_vals nv) = g nv.

Lemma sem_ext b b' l g : ext b b' → sem b l g → sem b' l g.
Proof. intros He [Hs (F & H1 & H2)]. split; [by eapply src_ext|]. exists F. split; [|done]. intros v Hv. apply H1. by eapply consistent_ext. Qed.

Lemma sem_eq b l g g' : (∀ nv, component_consistent nv → g nv = g' nv) → sem b l g → sem b l g'.
Proof. intros E [Hs (F & H1 & H2)]. split; [done|]. exists F. split; [done|]. intros nv Hnv. rewrite H2; auto. Qed.

Lemma sem_not b l g x : sem b l g → sem b (if x : bool then link_not l else l) (λ nv, xorb x (g nv)).
Proof.
  intros [Hs (F & H1 & H2)]. destruct x.
  - pose proof Hs as (Hl & Ho & Hcell). assert (out (link_not l) = out l) as Eo by (apply Nat.mod_small; lia).
    split; [unfold BuilderInv.src; rewrite Eo; by split_all|].
    exists (λ xs, negb (F xs)). split; [intros v Hv; rewrite lval_not by done; by rewrite H1|].
    intros nv Hnv. by rewrite H2.
  - apply (sem_eq _ _ g); [by intros; rewrite xorb_false_l|]. split; [done|by exists F].
Qed.

(** Lists of links. *)
Lemma sems b ls gs : Forall2 (sem b) ls gs → srcs b ls ∧ ∃ F,
  (∀ v, consistent v b → lval v <$> ls = F ((λ i, v i 0) <$> seq 0 (length il))) ∧
  ∀ nv, component_consistent nv → F (input_vals nv) = (λ g, g nv) <$> gs.
Proof.
  induction 1 as [|l g ls gs [Hs (F & H1 & H2)] _ [IHs (Fs & I1 & I2)]]; [split; [constructor|by exists (λ _, [])]|].
  split; [by constructor|]. exists (λ xs, F xs :: Fs xs). split.
  - intros v Hv. rewrite fmap_cons. by rewrite H1, I1.
  - intros nv Hnv. rewrite fmap_cons. by rewrite H2, I2.
Qed.

Lemma sem_input b k i : BuilderSpec.is_input b (LinkTo k) → il !! k = Some i → sem b (LinkTo k) (λ nv, link_val nv i.1).
Proof.
  intros [Hs _] Hk. split; [done|]. exists (λ xs, nth k xs false). pose proof (lookup_lt_Some _ _ _ Hk) as Hlt. split.
  - intros v _. unfold lval. cbn. rewrite xorb_false_r. symmetry. apply nth_lookup_Some. by rewrite list_lookup_fmap, lookup_seq_lt.
  - intros nv _. apply nth_lookup_Some. unfold input_vals. by rewrite list_lookup_fmap, Hk.
Qed.

(** A gate on links whose values are known. *)
Lemma gate_sem sym ls gs b ins outs : wf b ins outs → Forall2 (sem b) ls gs → length ls ≤ InPlaceLinks → gate_ok sym (length ls) = true →
  adds ins outs b (addGate sym ls) (λ b' l, sem b' l (λ nv, default false (gate_fun sym ((λ g, g nv) <$> gs)))).
Proof.
  intros Hw Hls Hlen Hok. destruct (sems _ _ _ Hls) as [Hs (F & H1 & H2)].
  eapply wp_mono; [by apply (addGate_spec sym ls b ins outs)|]. intros l b' (Hw' & He & Hl & Hv). split; [done|]. split; [done|].
  split; [done|]. exists (λ xs, default false (gate_fun sym (F xs))). split.
  - intros v Hc. rewrite <- H1 by (by eapply consistent_ext). by rewrite Hv.
  - intros nv Hnv. by rewrite H2.
Qed.

(** ** The cells of the component *)

Context (outs : list NetLink) (rank : Z → nat).
Context (Hready : cells_ready s) (Hrank : ranked s rank) (Hc : part s outs [] c) (Hplain : plain_component = true).
Context (Houts : ∀ o, o ∈ c_outputs c → has_source s o.1).
Context (Hgood : ∀ l, link_of s c l → LinkEnd (getCellID l.1) (getPort l.1) = l.1).
Context (Hil : il ≡ₚ elements (c_inputs c)).

Lemma cone_source o id : has_source s o.1 → in_cone s o id → is_Some (get s id) ∧ canonical id ∧ ∀ l : NetLink, getCellID l.1 = id → DecomposerSpec.is_input s l = false.
Proof.
  assert (∀ l l' : NetLink, getCellID l'.1 = getCellID l.1 → DecomposerSpec.is_input s l = false → DecomposerSpec.is_input s l' = false) as Hsame.
  { intros l l' E. unfold DecomposerSpec.is_input, isInputLink. by rewrite E. }
  intros Ho. induction 1 as [Hi|id l Hcone IH Hl Hi].
  - destruct Ho as [Hg Hcan]. split; [done|]. split; [done|]. intros l E. by apply (Hsame o).
  - destruct IH as (Hg & _). destruct (link_source s id l Hready Hg Hl) as [Hg' Hcan']. split; [done|]. split; [done|].
    intros l' E. by apply (Hsame l).
Qed.

Lemma inner_source id : id ∈ c_inners c → is_Some (get s id) ∧ canonical id ∧ ∀ l : NetLink, getCellID l.1 = id → DecomposerSpec.is_input s l = false.
Proof. intros (o & Ho & Hcone)%(pt_cone _ _ _ _ Hc). eapply cone_source; [by apply Houts|exact Hcone]. Qed.

Lemma component_source l : link_of s c l → has_source s l.1.
Proof. intros [Ho|(id & Hid & Hl)]; [by apply Houts|]. destruct (inner_source id Hid) as [Hg _]. by eapply link_source. Qed.

Lemma component_input i : i ∈ il ↔ i ∈ c_inputs c.
Proof. by rewrite Hil, elem_of_elements. Qed.

Lemma input_link l : link_of s c l → makeInputLink l = (l.1, LinkEnd OBJ_NULL_ID 0).
Proof. intros Hl. unfold makeInputLink. by rewrite Hgood. Qed.

Lemma inputs_fine i : i ∈ il → input_fine i.
Proof.
  intros Hi%component_input. pose proof Hi as (l & Hl & _ & ->)%(pt_inputs _ _ _ _ Hc). split; [|split].
  - rewrite (input_link l Hl). unfold makeInputLink. cbn. by rewrite Hgood.
  - rewrite (input_link l Hl). cbn. destruct (component_source l Hl) as [[d Hd] _]. destruct (Hready _ _ Hd) as ([t Ht] & _).
    unfold getCellInfo. rewrite Hd. cbn. rewrite Ht. by eexists.
  - apply elem_of_dom. by rewrite (proj1 (pt_descs _ _ _ _ Hc)).
Qed.

(** The mapping of the inputs and of the cells that have been made. *)
Record mapped (b : SubnetBuilder) (m : CellMapping) (made : list Z) : Prop := {
  mp_input : ∀ k i, il !! k = Some i → m_inputs m !! i = Some k;
  mp_inputs : Forall (BuilderSpec.is_input b) (LinkTo <$> seq 0 (length il));
  mp_inner : ∀ id, id ∈ made → ∃ l, m_inners m !! id = Some [l] ∧ sem b l (λ nv, nv (makeSID CellID id) 0%Z);
  mp_none : ∀ id, id ∉ made → m_inners m !! id = None;
}.

Lemma mapped_ext b b' m made : ext b b' → mapped b m made → mapped b' m made.
Proof.
  intros He [M1 M2 M3 M4]. split; [done| | |done].
  - eapply Forall_impl; [exact M2|]. intros l [Hs Hl]. split; [by eapply src_ext|done].
  - intros id Hid. destruct (M3 id Hid) as (l & Hl & Hs). exists l. split; [done|]. by eapply sem_ext.
Qed.

Lemma makeLink_sem b m made l : mapped b m made → made ⊆ c_inners c → link_of s c l → 
  (DecomposerSpec.is_input s l = false → getCellID l.1 ∈ made ∧ getPort l.1 = 0%Z) →
  ∃ k, makeLink l.1 m = Some k ∧ sem b k (λ nv, link_val nv l.1).
Proof.
  intros [M1 M2 M3 M4] Hincl Hl Hmade. unfold makeLink. destruct (DecomposerSpec.is_input s l) eqn:Ei.
  - assert (getCellID l.1 ∉ made) as Hn.
    { intros Hin%Hincl. destruct (inner_source _ Hin) as (_ & _ & Hf). by rewrite (Hf l) in Ei. }
    rewrite (M4 _ Hn), Hgood by done. assert (makeInputLink l ∈ il) as [k Hk]%list_elem_of_lookup.
    { apply component_input, (pt_inputs _ _ _ _ Hc). by exists l. }
    pose proof (M1 _ _ Hk) as Em. rewrite (input_link l Hl) in Em. rewrite Em. cbn [mbind option_bind]. exists (LinkTo k). split; [done|].
    rewrite (input_link l Hl) in Hk. apply (sem_input b k (l.1, LinkEnd OBJ_NULL_ID 0)); [|exact Hk].
    apply (Forall_lookup_1 _ _ k _ M2). rewrite list_lookup_fmap, lookup_seq_lt; [done|by eapply lookup_lt_Some].
  - destruct (Hmade eq_refl) as [Hin Hp]. destruct (M3 _ Hin) as (k & Ek & Hk). rewrite Ek, Hp. exists k. split; [done|].
    eapply sem_eq; [|exact Hk]. intros nv _. unfold link_val. by rewrite Hp.
Qed.

(** The links of a gate of the component, or those of its outputs. *)
Lemma makeLinks_sem b m made ls : mapped b m made → made ⊆ c_inners c → (∀ l, l ∈ ls → link_of s c l ∧
  (DecomposerSpec.is_input s l = false → getCellID l.1 ∈ made ∧ getPort l.1 = 0%Z)) →
  ∃ ks, mapM (λ w, makeLink w m) ls.*1 = Some ks ∧ Forall2 (sem b) ks ((λ (l : NetLink) nv, link_val nv l.1) <$> ls).
Proof.
  intros Hm Hi. induction ls as [|l ls IH]; intros Hls; [exists []; split; [done|constructor]|].
  destruct IH as (ks & E & HF); [intros; apply Hls; by right|]. destruct (Hls l) as [Hl Hl']; [by left|].
  destruct (makeLink_sem b m made l Hm Hi Hl Hl') as (k & Ek & Hk). exists (k :: ks). rewrite !fmap_cons. cbn [mapM].
  rewrite Ek. cbn [mbind option_bind]. rewrite E. split; [done|by constructor].
Qed.

Lemma plain_link ls l : plain_links ls = true → l ∈ ls → DecomposerSpec.is_input s l = false → getPort l.1 = 0%Z.
Proof.
  unfold plain_links. rewrite forallb_forall. intros Hp Hl Hi. specialize (Hp l). rewrite Hi in Hp. cbn in Hp.
  by apply Z.eqb_eq, Hp, list_elem_of_In.
Qed.

(** What is known of a cell of the component. *)
Lemma inner_cell id : id ∈ c_inners c → ∃ d sym, get s id = Some d ∧ typeID d = GateID sym ∧ plain_gate sym (length (cell_links d)) = true ∧
  Nets.getLinks d = Some (cell_links d) ∧ (links_into s id).*1 = cell_links d ∧ plain_links (links_into s id) = true.
Proof.
  intros Hid. pose proof Hplain as Hp. unfold plain_component in Hp. apply andb_true_iff in Hp as [Hp _].
  rewrite forallb_forall in Hp. specialize (Hp id ltac:(by apply list_elem_of_In)). unfold plain_cell in Hp.
  destruct (inner_source id Hid) as ([d Hd] & _). rewrite Hd in Hp. apply andb_true_iff in Hp as [Hp1 Hp2].
  destruct (typeID d) as [|sym|] eqn:Et; try done. exists d, sym. destruct (Hready _ _ Hd) as (_ & Hls & _). split_all; try done.
  rewrite (ready_links s _ _ Hready Hd). rewrite fmap_imap. apply list_eq. intros k. rewrite list_lookup_imap. by destruct (cell_links d !! k).
Qed.

Lemma first_link d w ws : Nets.getLinks d = Some (w :: ws) → Nets.getLink d 0 = Some w.
Proof.
  unfold Nets.getLinks, Nets.getLink. destruct (fanin d =? 0)%N eqn:Ef; [done|]. destruct (array d) as [a|]; [|done].
  cbn [mbind option_bind]. intros E%mapM_Some. apply N.eqb_neq in Ef. destruct (N.to_nat (fanin d)) as [|n] eqn:En; [lia|].
  cbn [seq] in E. by inversion E.
Qed.

(** A cell is made after its sources. *)
Lemma inner_step id k b m : c_inners c !! k = Some id → wf b (seq 0 (length il)) [] → mapped b m (take k (c_inners c)) →
  adds (seq 0 (length il)) [] b (subnet_inner sub s id m) (λ b' m', mapped b' m' (take (S k) (c_inners c)) ∧ m_inputs m' = m_inputs m ∧ m_outputs m' = m_outputs m).
Proof.
  intros Hk Hw Hm. assert (id ∈ c_inners c) as Hid by (by eapply list_elem_of_lookup_2).
  destruct (inner_cell id Hid) as (d & sym & Hd & Et & Hp & Hls & Els & Hpl).
  destruct (plain_gate_type _ _ Hp) as (t & Ht & Hsoft & Hsym & Hgate).
  assert (getCellInfo s id = Some (d, t)) as Hinfo by (unfold getCellInfo, cellType; rewrite Hd; cbn; by rewrite Et, Ht).
  assert (id ∉ take k (c_inners c)) as Hnew.
  { pose proof (pt_nodup _ _ _ _ Hc) as Hnd. rewrite <- (take_drop_middle _ _ _ Hk) in Hnd. by apply NoDup_mid_notin in Hnd as [? _]. }
  assert (∀ l, l ∈ links_into s id → link_of s c l ∧
    (DecomposerSpec.is_input s l = false → getCellID l.1 ∈ take k (c_inners c) ∧ getPort l.1 = 0%Z)) as Hlinks.
  { intros l Hl. split; [right; by exists id|]. intros Hi. split; [|by eapply plain_link].
    by apply (pt_order _ _ _ _ Hc rank k id l Hrank Hk Hl Hi). }
  destruct (makeLinks_sem b m _ _ Hm ltac:(intros x (? & ? & _)%elem_of_take; by eapply list_elem_of_lookup_2) Hlinks) as (ks & Eks & Hks).
  rewrite Els in Eks.
  assert (∀ b' l, ext b b' → sem b' l (λ nv, nv (makeSID CellID id) 0%Z) →
    let m' := add_inner id [l] m in mapped b' m' (take (S k) (c_inners c)) ∧ m_inputs m' = m_inputs m ∧ m_outputs m' = m_outputs m) as Hadd.
  { intros b' l He Hl m'. destruct (mapped_ext b b' m _ He Hm) as [M1 M2 M3 M4]. split; [|done].
    assert (m_inners m' = <[id := [l]]> (m_inners m)) as Em by (unfold m', add_inner; by rewrite M4).
    rewrite (take_S_r _ _ _ Hk). split; [done..| |]; rewrite Em.
    - intros id' [Hid'| ->%list_elem_of_singleton]%elem_of_app.
      + rewrite lookup_insert_ne by (intros ->; done). by apply M3.
      + exists l. by rewrite lookup_insert_eq.
    - intros id' [H1 H2]%not_elem_of_app. rewrite lookup_insert_ne; [by apply M4|]. intros ->. apply H2. by left. }
  unfold subnet_inner. apply (wp_st _ _ _ _ (d, t) Hinfo).
  assert (makeLinkList d m = Some ks) as El by (unfold makeLinkList; rewrite Hls; exact Eks). apply (wp_st _ _ _ _ ks El).
  assert (length ks = length (cell_links d)) as Elen by (rewrite <- Els, length_fmap; apply Forall2_length in Hks; by rewrite length_fmap in Hks).
  assert (∀ nv, component_consistent nv → ∀ y, gate_fun sym (link_val nv <$> cell_links d) = Some y → nv (makeSID CellID id) 0%Z = y) as Hval.
  { intros nv Hnv y Hy. apply (Hnv id d y Hid Hd). by rewrite Et. }
  rewrite Hsoft. cbn zeta. rewrite Hsym.
  apply (adds_bind _ _ _ _ _ (λ b' ols, ∃ l, ols = [l] ∧ sem b' l (λ nv, nv (makeSID CellID id) 0%Z))).
  2: { intros ols b' Hw' He (l & -> & Hl). apply adds_ret; [done|by apply Hadd]. }
  apply (adds_bind _ _ _ _ _ (λ b' l, sem b' (if negative (props t) then link_not l else l) (λ nv, nv (makeSID CellID id) 0%Z))).
  2: { intros l b' Hw' _ Hl. apply adds_ret; [done|by eexists]. }
  destruct Hgate as [(Hbn & Hn1 & Hfun)|(Hbn & sym' & Esym & Hok & Hfun)].
  - rewrite bool_decide_eq_true_2 by done. destruct (cell_links d) as [|w [|]] eqn:Ecl; try done.
    destruct (links_into s id) as [|l [|]] eqn:Eli; try done. injection Els as Ew. apply Forall2_cons_inv_r in Hks as (k0 & ks0 & Hk0 & Hnil & ->).
    apply Forall2_nil_inv_r in Hnil as ->. cbn in Eks. destruct (makeLink w m) as [k1|] eqn:Ek; [|done]. injection Eks as ->.
    assert ((l ← Nets.getLink d 0; makeLink l m) = Some k0) as E by (rewrite (first_link _ _ _ Hls); exact Ek).
    exists k0, b. unfold st_read. rewrite E. split; [done|]. split; [done|]. split; [done|].
    eapply sem_eq; [|by apply sem_not]. intros nv Hnv. cbn. symmetry. apply (Hval nv Hnv). cbn. rewrite Ew. apply Hfun.
  - rewrite bool_decide_eq_false_2 by done. apply (adds_read_bind _ _ _ _ sym' _ _ Esym).
    unfold plain_gate in Hp. apply andb_true_iff in Hp as [Hlen _]. apply Nat.leb_le in Hlen.
    eapply adds_mono; [apply (gate_sem sym' ks _ _ _ _ Hw Hks); [lia|by rewrite Elen]|].
    intros l b' _ Hl. eapply sem_eq; [|apply sem_not; exact Hl]. intros nv Hnv. cbn beta. symmetry. apply (Hval nv Hnv).
    assert ((λ g : nval → bool, g nv) <$> ((λ (l : NetLink) nv, link_val nv l.1) <$> links_into s id) = link_val nv <$> cell_links d) as ->
      by (rewrite <- Els, <- !list_fmap_compose; done).
    apply Hfun; [by rewrite length_fmap|]. unfold gate_ok in Hok. destruct (getCellType sym'); [|done].
    apply andb_true_iff in Hok as [_ Hd'%bool_decide_eq_true]. 
    destruct (gate_fun_defined sym' (replicate (length (cell_links d)) false) (link_val nv <$> cell_links d)) as [y Hy];
      [by rewrite length_replicate, length_fmap|done|by rewrite Hy].
Qed.

Lemma inners_fold l : ∀ k b m, drop k (c_inners c) = l → wf b (seq 0 (length il)) [] → mapped b m (take k (c_inners c)) →
  adds (seq 0 (length il)) [] b (st_fold (subnet_inner sub s) l m) (λ b' m', mapped b' m' (c_inners c) ∧ m_inputs m' = m_inputs m ∧ m_outputs m' = m_outputs m).
Proof.
  induction l as [|id l IH]; intros k b m Hd Hw Hm; cbn [st_fold].
  { apply adds_ret; [done|]. split; [|done]. apply (f_equal length) in Hd. rewrite length_drop in Hd. cbn in Hd. by rewrite take_ge in Hm by lia. }
  assert (c_inners c !! k = Some id) as Hk by (rewrite <- (Nat.add_0_r k), <- lookup_drop; by rewrite Hd).
  eapply adds_bind; [by apply (inner_step id k)|]. intros m1 b1 Hw1 He1 (Hm1 & E1 & E2).
  eapply adds_mono; [apply (IH (S k)); [|done|done]|].
  - rewrite <- Nat.add_1_r, <- drop_drop, Hd. done.
  - intros m2 b2 _ (Hm2 & E3 & E4). split; [done|]. split; congruence.
Qed.

(** ** Outputs *)

Context (Htargets : ∀ o, o ∈ c_outputs c → is_Some (getCellInfo s (getCellID o.2))).

Lemma addOutput_new l b ins outs' : wf b ins outs' → grown b → BuilderInv.src b l →
  wp (Builder.addOutput l) b (λ r b', idx r = length (entries b) ∧ wf b' ins (outs' ++ [idx r]) ∧ ext b b' ∧ out_link b' (idx r) l ∧
    length (entries b') = S (length (entries b))).
Proof.
  intros Hw Hg Hl. unfold Builder.addOutput, addGate. cbn [getCellTypeID getCellType].
  destruct (add_port (GateID OUT) [l] b ins outs' (row "out" 1 1 0 0 0 0 0 0 0 1 0 OUT) Hw Hg) as (b' & E & Hw' & He & Hcell & Hlen);
    [right; auto|done|by constructor|].
  exists (LinkTo (length (entries b))), b'. split; [done|]. split; [done|]. split; [done|]. split; [done|]. split; [|done].
  destruct Hcell as (Ho & Hi & Hlive & d & ty & Hd & Ht & Hty & Hls).
  unfold out_link. split; [done|]. split; [by eapply src_ext|]. exists d. split; [done|]. split; [done|].
  destruct Hls as [->|[_ Hp]]; [done|]. by apply Permutation_singleton_r.
Qed.

Lemma outputs_fold ol : ∀ b m d outs', wf b (seq 0 (length il)) outs' → grown b → mapped b m (c_inners c) → NoDup ol →
  (∀ o, o ∈ ol → o ∈ c_outputs c ∧ m_outputs m !! o = None) →
  wp (st_fold (subnet_output s c) ol (m, d)) b (λ p b', ∃ outs'' ls, wf b' (seq 0 (length il)) (outs' ++ outs'') ∧ grown b' ∧ ext b b' ∧
    Forall2 (out_link b') outs'' ls ∧ Forall2 (sem b') ls ((λ (o : NetLink) nv, link_val nv o.1) <$> ol) ∧
    m_inputs p.1 = m_inputs m ∧ length (entries b') = length (entries b) + length ol ∧
    (∀ k o, ol !! k = Some o → m_outputs p.1 !! o = Some (length (entries b) + k)) ∧ (∀ o, o ∉ ol → m_outputs p.1 !! o = m_outputs m !! o)).
Proof.
  induction ol as [|o ol IH]; intros b m d outs' Hw Hg Hm Hnd Hol; cbn [st_fold].
  { apply wp_ret. exists [], []. rewrite app_nil_r. split_all; (done || constructor || cbn; lia). }
  apply NoDup_cons in Hnd as [Ho Hnd]. destruct (Hol o) as [Hoc Hfree]; [by left|].
  destruct (Htargets o Hoc) as [[cl t] Hinfo]. assert (is_Some (c_outputsDesc c !! o)) as [sg Hsg] by (apply elem_of_dom; by rewrite (proj2 (pt_descs _ _ _ _ Hc))).
  destruct (makeLink_sem b m (c_inners c) o Hm) as (l & El & Hl); [done|by left| |].
  { intros Hi. split; [by apply (pt_closed _ _ _ _ Hc); [left|]|]. pose proof Hplain as Hp. unfold plain_component in Hp.
    apply andb_true_iff in Hp as [_ Hp]. eapply (plain_link _ o Hp); [by apply elem_of_elements|done]. }
  apply wp_bind. unfold subnet_output at 1. eapply (wp_st _ _ _ _ (cl, t)); [exact Hinfo|]. cbn [fst snd].
  eapply (wp_st _ _ _ _ l); [exact El|]. apply wp_bind.
  eapply wp_mono; [by apply (addOutput_new l b (seq 0 (length il)) outs'), Hl|]. intros r b1 (Er & Hw1 & He1 & Hout & Hlen1).
  eapply (wp_st _ _ _ _ sg); [exact Hsg|]. apply wp_ret. unfold makeOutputLink.
  assert (add_output o (idx r) m = mkMapping (m_size m) (m_inputs m) (m_inners m) (<[o := length (entries b)]> (m_outputs m))) as ->
    by (unfold add_output; by rewrite Hfree, Er).
  eapply wp_mono.
  - apply (IH b1 _ _ _ Hw1); [by eapply grown_ext| |done|].
    + destruct (mapped_ext b b1 m _ He1 Hm) as [M1 M2 M3 M4]. by split.
    + intros o' Ho'. destruct (Hol o') as [? Hn]; [by right|]. split; [done|]. cbn [m_outputs]. rewrite lookup_insert_ne; [done|by intros ->].
  - intros p b2 (outs'' & ls & Hw2 & Hg2 & He2 & HF1 & HF2 & E1 & Hlen2 & Hk & Hn). cbn [m_inputs m_outputs] in *.
    exists (idx r :: outs''), (l :: ls). split; [by rewrite <- app_assoc in Hw2|]. split; [done|]. split; [by etrans|].
    split; [constructor; [by eapply out_link_ext|done]|]. split; [rewrite fmap_cons; constructor; [|done]; eapply sem_ext; [|exact Hl]; by etrans|].
    split; [done|]. split; [cbn; lia|]. split.
    + intros [|k] o' Ho'; cbn in Ho'.
      * injection Ho' as <-. rewrite Hn by done. rewrite lookup_insert_eq. f_equal. lia.
      * rewrite (Hk k o' Ho'). f_equal. lia.
    + intros o' [H1 H2]%not_elem_of_cons. rewrite Hn by done. by rewrite lookup_insert_ne.
Qed.

(** ** The subnet *)

Lemma builder_spec : il = visit (elements (c_inputs c)) → c_outputs c ≠ ∅ → let ol := visit (elements (c_outputs c)) in
  wp (p ← st_fold (subnet_input s c) il (mkMapping 0 ∅ ∅ ∅, ∅);
      m ← st_fold (subnet_inner sub s) (c_inners c) p.1;
      st_assert (negb (bool_decide (c_outputs c = ∅)));;
      st_fold (subnet_output s c) ol (m, p.2)) empty_builder
    (λ p b, ∃ outs' ls, wf b (seq 0 (length il)) outs' ∧ grown b ∧ Forall2 (out_link b) outs' ls ∧
      Forall2 (sem b) ls ((λ (o : NetLink) nv, link_val nv o.1) <$> ol) ∧
      (∀ k i, il !! k = Some i → m_inputs p.1 !! i = Some k) ∧
      ∀ k o, ol !! k = Some o → m_outputs p.1 !! o = Some (length (entries b) - length ol + k)).
Proof.
  intros Eil Hne ol. assert (NoDup il) as Hndi by (rewrite Hil; apply NoDup_elements).
  assert (NoDup ol) as Hndo by (unfold ol; rewrite visit_perm; apply NoDup_elements).
  apply wp_bind. eapply wp_mono.
  { apply (inputs_fold il empty_builder _ _ []); [apply wf_empty|done|right; apply ready_empty|done| |done|constructor].
    intros i Hi. split; [by apply inputs_fine|done]. }
  intros p b1 (Hw1 & Hg1 & Hlen1 & Hins1 & E1 & E2 & Hk1 & _). cbn [length Nat.add m_inners m_outputs] in *.
  assert (mapped b1 p.1 []) as Hm1.
  { split; [exact Hk1|by rewrite <- Hlen1|by intros id Hid%elem_of_nil|]. intros id _. by rewrite E1. }
  rewrite Hlen1 in Hw1. apply wp_bind. eapply wp_mono; [apply (inners_fold (c_inners c) 0 b1 p.1); [apply drop_0|done|by rewrite take_0]|].
  intros m2 b2 (Hw2 & He2 & Hm2 & E3 & E4). rewrite bool_decide_eq_false_2 by done. apply wp_bind. exists (), b2. split; [done|].
  eapply wp_mono; [apply (outputs_fold ol b2 m2 p.2 [] Hw2); [by eapply grown_ext|done|done|]|].
  { intros o Ho. unfold ol in Ho. rewrite visit_perm, elem_of_elements in Ho. split; [done|]. by rewrite E4, E2. }
  intros q b3 (outs' & ls & Hw3 & Hg3 & _ & HF1 & HF2 & E5 & Hlen3 & Hk3 & _). exists outs', ls. split; [done|]. split; [done|].
  split; [done|]. split; [done|]. split.
  - intros k i Hi. rewrite E5, E3. by apply Hk1.
  - intros k o Ho. rewrite (Hk3 k o Ho). f_equal. lia.
Qed.

Lemma makeSubnet_spec : il = visit (elements (c_inputs c)) → c_outputs c ≠ ∅ →
  ∃ sn m d, makeSubnet sub s c = Some (sn, m, d) ∧ subnet_right sn m il (visit (elements (c_outputs c))).
Proof.
  intros Eil Hne. destruct (builder_spec Eil Hne) as ([m d] & b & E & outs' & ls & [segs HW] & [Hem Hfan] & HF1 & HF2 & Hmi & Hmo).
  set (ol := visit (elements (c_outputs c))) in *. cbn [fst] in Hmi, Hmo.
  assert (length ls = length ol) as Els by (apply Forall2_length in HF2; by rewrite length_fmap in HF2).
  assert (length outs' = length ls) as Eouts by (by apply Forall2_length in HF1).
  assert (outs' ≠ []) as Hout.
  { intros ->. cbn in Eouts. assert (ol = []) as Eol by (apply length_zero_iff_nil; lia). apply Hne. apply set_eq. intros o.
    split; [|by intros ?%elem_of_empty]. rewrite <- elem_of_elements, <- (visit_perm _ (elements (c_outputs c))). fold ol. rewrite Eol. by intros ?%elem_of_nil. }
  destruct (sems b ls _ HF2) as [_ (F & F1 & F2)].
  destruct (make_implements_del false b _ _ segs ls F HW Hem Hfan ltac:(by intros ?) Hout HF1) as (sn & Esn & Hmade & Himp & Hno).
  { intros v Hv. by apply F1. }
  exists sn, (mkMapping (Net.size sn) (m_inputs m) (m_inners m) (m_outputs m)), d. split.
  - unfold makeSubnet. rewrite <- Eil. fold ol.
    assert ((('(m, d) ← st_fold (subnet_input s c) il (mkMapping 0 ∅ ∅ ∅, ∅); m ← st_fold (subnet_inner sub s) (c_inners c) m;
      st_assert (negb (bool_decide (c_outputs c = ∅)));; st_fold (subnet_output s c) ol (m, d)) empty_builder) = Some ((m, d), b)) as ->.
    { rewrite <- E. unfold mbind, st_bind. by destruct (st_fold (subnet_input s c) il _ _) as [[[] ]|]. }
    cbn [mbind option_bind]. by rewrite Esn.
  - pose proof (order_length b _ _ segs HW Hem) as Hlen. pose proof (md_size _ _ _ Hmade) as Hsz. split.
    + exact Hmi.
    + intros k o Ho. cbn [m_outputs]. rewrite (Hmo k o Ho). f_equal. lia.
    + split; [done|congruence].
    + exists F. rewrite length_seq in Himp. split; [done|]. intros nv Hnv. fold (input_vals nv). rewrite F2 by done.
      rewrite <- list_fmap_compose. done.
Qed.

End Split.

(** ** Nets *)

Section Decompose.
Context `{TypeStore} `{HashOrder}.

(** The cells in the cones of the outputs are small gates. *)
Definition plain_net (s : State) (n : Net) : Prop :=
  plain_links s (net_outputs s n) = true ∧ ∀ o id, o ∈ net_outputs s n → in_cone s o id → plain_cell s id = true.

Lemma net_output_end s n o : o ∈ net_outputs s n → ∃ id, id ∈ ends n ∧ o ∈ links_into s id.
Proof.
  intros (ls & Hl & (id & -> & Hid)%list_elem_of_fmap)%elem_of_concat. destruct (expanded s id); [by apply elem_of_nil in Hl|].
  by exists id.
Qed.

Lemma good_again s added id l : net_inv s added → decomposable s → l ∈ links_into s id → LinkEnd (getCellID l.1) (getPort l.1) = l.1.
Proof.
  intros HI HD Hl. unfold links_into in Hl. destruct (get s id) as [d|] eqn:Hd; [|by apply elem_of_nil in Hl].
  cbn in Hl. apply elem_of_lookup_imap in Hl as (j & w & -> & Hw). apply list_elem_of_lookup_2 in Hw.
  pose proof (ok_links _ _ (inv_cells _ _ HI _ _ (get_cell _ _ _ Hd))) as HF. rewrite Forall_forall in HF.
  destruct (HF w Hw) as [Hg _]. pose proof (dn_valid _ HD _ _ _ (get_cell _ _ _ Hd) Hw) as Hv. cbn.
  pose proof (good_unpack w Hg) as E. unfold unpack in E. unfold isValid in Hv. cbn zeta in E. rewrite Hv in E. exact E.
Qed.

(** The subnet of a component of a net. *)
Lemma component_subnet s added n cs b c rank sub : net_inv s added → Nets.make s = Some n → decomposable s → ranked s rank → plain_net s n →
  parts s (net_outputs s n) cs (net_outputs s n) b → c ∈ cs → c_outputs c ≠ ∅ →
  ∃ sn m d, makeSubnet sub s c = Some (sn, m, d) ∧
    subnet_right s c sn m (visit (elements (c_inputs c))) (visit (elements (c_outputs c))).
Proof.
  intros HI Hm HD Hrank [Hp1 Hp2] HP Hc Hne. pose proof (proj1 (Forall_forall _ _) (ps_parts _ _ _ _ _ HP) c Hc) as Pc.
  destruct (net_ends s added n HI Hm) as (_ & Hin & Hget).
  assert (∀ o, o ∈ c_outputs c → ∃ id, id ∈ ends n ∧ o ∈ links_into s id) as Hends by (intros o Ho%(pt_outs _ _ _ _ Pc); by apply net_output_end).
  apply (makeSubnet_spec s c (visit (elements (c_inputs c))) sub (net_outputs s n) rank); try done.
  - by eapply inv_ready.
  - unfold plain_component. apply andb_true_iff. split; apply forallb_forall.
    + intros id Hid%list_elem_of_In. destruct (pt_cone _ _ _ _ Pc id Hid) as (o & Ho & Hcone). eapply Hp2; [|exact Hcone].
      by apply (pt_outs _ _ _ _ Pc).
    + intros o Ho%list_elem_of_In%elem_of_elements%(pt_outs _ _ _ _ Pc). unfold plain_links in Hp1. rewrite forallb_forall in Hp1.
      by apply Hp1, list_elem_of_In.
  - intros o Ho. destruct (Hends o Ho) as (id & Hid & Hl). eapply (link_source s id); [by eapply inv_ready|by apply Hget|done].
  - intros l [Ho|(id & _ & Hl)]; [destruct (Hends l Ho) as (id & _ & Hl)|]; by eapply good_again.
  - by rewrite visit_perm.
  - intros o Ho. destruct (Hends o Ho) as (id & Hid & Hl). destruct (links_into_target s added id o HI HD (Hin _ Hid) Hl) as (j & _ & _ & -> & _).
    destruct (Hget _ Hid) as [d Hd]. destruct (inv_ready _ _ HI HD _ _ Hd) as ([t Ht] & _). unfold getCellInfo. rewrite Hd. cbn. rewrite Ht. by eexists.
Qed.

Definition nonempty (cs : list NetComponent) : list NetComponent := filter (λ c, component_empty c = false) cs.

(** The [k]-th subnet [sn], described by [d], is that of the component [c]; [u] subnets were there. *)
Definition describes (s : State) (u : nat) (c : NetComponent) (k : nat) (d : SubnetDesc) (sn : Subnet) : Prop :=
  sd_subnetID d = makeFID SubnetID (Z.of_nat (u + k)) ∧
  subnet_right s c sn (sd_mapping d) (visit (elements (c_inputs c))) (visit (elements (c_outputs c))).

Lemma decompose_loop s cs : (∀ sub c, c ∈ cs → c_outputs c ≠ ∅ → ∃ sn m d, makeSubnet sub s c = Some (sn, m, d) ∧
    subnet_right s c sn m (visit (elements (c_inputs c))) (visit (elements (c_outputs c)))) →
  ∀ subnets ds0, ∃ ds sns, st_fold decompose_component cs ds0 (mkWorld s subnets) = Some (ds0 ++ ds, mkWorld s (subnets ++ sns)) ∧
    length ds = length (nonempty cs) ∧ length sns = length (nonempty cs) ∧
    ∀ k c, nonempty cs !! k = Some c → ∃ d sn, ds !! k = Some d ∧ sns !! k = Some sn ∧ describes s (length subnets) c k d sn.
Proof.
  induction cs as [|c cs IH]; intros Hcs subnets ds0; cbn [st_fold].
  { exists [], []. rewrite !app_nil_r. split_all; done. }
  assert (∀ sub c', c' ∈ cs → c_outputs c' ≠ ∅ → ∃ sn m d, makeSubnet sub s c' = Some (sn, m, d) ∧
    subnet_right s c' sn m (visit (elements (c_inputs c'))) (visit (elements (c_outputs c')))) as Hcs' by (intros; apply Hcs; [by right|done]).
  unfold nonempty. rewrite filter_cons. destruct (component_empty c) eqn:Ec.
  { assert (decompose_component c ds0 (mkWorld s subnets) = Some (ds0, mkWorld s subnets)) as E0 by (unfold decompose_component; by rewrite Ec).
    rewrite decide_False by done. rewrite (bind_eval _ _ _ _ _ E0). apply (IH Hcs'). }
  rewrite decide_True by done. pose proof Ec as Ec'. unfold component_empty in Ec'. apply bool_decide_eq_false in Ec'.
  destruct (Hcs (subnet_get (mkWorld s subnets)) c (list_elem_of_here _ _) Ec') as (sn & m & d & E & Hr).
  set (d0 := mkSubnetDesc (makeFID SubnetID (Z.of_nat (length subnets))) m d).
  assert (decompose_component c ds0 (mkWorld s subnets) = Some (ds0 ++ [d0], mkWorld s (subnets ++ [sn]))) as E0.
  { unfold decompose_component. rewrite Ec. unfold st_get, st_read, mbind, st_bind. cbn [w_net]. rewrite E. reflexivity. }
  destruct (IH Hcs' (subnets ++ [sn]) (ds0 ++ [d0])) as (ds & sns & E' & L1 & L2 & Hk). exists (d0 :: ds), (sn :: sns). split.
  - rewrite (bind_eval _ _ _ _ _ E0). rewrite E'. by rewrite <- !app_assoc.
  - cbn [length]. unfold nonempty in *. split; [lia|]. split; [lia|]. intros [|k] c' Hc'; cbn in Hc'.
    + injection Hc' as <-. exists d0, sn. split; [done|]. split; [done|]. split; [cbn; by rewrite Nat.add_0_r|done].
    + destruct (Hk k c' Hc') as (d' & sn' & H1 & H2 & H3 & H4). exists d', sn'. split; [done|]. split; [done|]. split; [|done].
      rewrite H3, length_app. cbn [length]. do 2 f_equal. lia.
Qed.

(** ** Theorems *)



(** A port that is not connected is followed like a link to the cell with the number zero:
    nothing asks whether links are valid. *)
Lemma unconnected_reads_first_cell s target :
  isInputLink s (LinkEnd_null, target) = isInputLink s (LinkEnd (makeFID CellID 0) 0, target) ∧
  src (LinkEnd_null, target) = makeFID CellID 0.
Proof. split; reflexivity. Qed.

End Decompose.

(** ** Witnesses *)

Section Witnesses.
#[local] Instance witness_types : TypeStore := λ _, None.
#[local] Instance listed_order : HashOrder := {| visit _ l := l; visit_perm _ l := Permutation_refl l |}.

(** Making cells with links and adding them, as requests that are allowed. *)
Definition good_check (s : State) (w : Z) : bool :=
  let sid := NetSpec.source w in
  (0 <=? sid)%Z && (sid <? NullSID CellID)%Z && (0 <=? getPort w)%Z && (getPort w <=? PortMask)%Z &&
  (w =? LinkEnd (makeFID CellID sid) (getPort w))%Z && bool_decide (is_Some (cells s !! sid)).

Definition allow_check (s : State) (added : list Z) (r : Request) : bool :=
  match r with
  | RMake type links => bool_decide (is_Some (getType type)) && forallb (good_check s) links &&
      (N.of_nat (length links) <=? 8388604)%N && (cellSID s + 1 <? 2 ^ 32)%Z
  | RAdd id =>
      match cells s !! makeSID CellID id with
      | Some c => (id =? makeFID CellID (makeSID CellID id))%Z && bool_decide (id ∉ added) &&
          forallb (λ p, (fanout p.2 + N.of_nat (count p.1 (cell_links c)) <=? MaxFanout)%N) (map_to_list (cells s))
      | None => false
      end
  | RConnect _ _ _ => false
  end.

Lemma allow_check_sound s added r : allow_check s added r = true → allowed s added r.
Proof.
  destruct r as [type links|id|]; cbn [allow_check allowed]; [| |done].
  - rewrite !andb_true_iff, forallb_forall. intros [[[Ht%bool_decide_eq_true Hl] Hn%N.leb_le] Hs%Z.ltb_lt].
    split; [done|]. split; [|done]. apply Forall_forall. intros w Hw. specialize (Hl w ltac:(by apply list_elem_of_In)).
    unfold good_check in Hl. cbn zeta in Hl. rewrite !andb_true_iff in Hl.
    destruct Hl as [[[[[H1%Z.leb_le H2%Z.ltb_lt] H3%Z.leb_le] H4%Z.leb_le] H5%Z.eqb_eq] H6%bool_decide_eq_true].
    split; [|by intros _]. right. exists (NetSpec.source w), (getPort w). split; [lia|]. split; [lia|done].
  - destruct (cells s !! makeSID CellID id) as [c|] eqn:Ec; [|done]. rewrite !andb_true_iff, forallb_forall.
    intros [[He%Z.eqb_eq Hn%bool_decide_eq_true] Hf]. exists (makeSID CellID id), c. split; [done|]. split; [done|]. split; [done|].
    intros j d Hj. specialize (Hf (j, d)). apply N.leb_le. apply Hf, list_elem_of_In. by apply elem_of_map_to_list.
Qed.

Fixpoint run_checked (rs : list Request) (s : State) (added : list Z) : option (State * list Z) :=
  match rs with
  | [] => Some (s, added)
  | r :: rs => if allow_check s added r then '(_, s) ← run r s; run_checked rs s (added_by r added) else None
  end.

Lemma run_checked_reachable rs : ∀ s added s' added', net_reachable s added → run_checked rs s added = Some (s', added') → net_reachable s' added'.
Proof.
  induction rs as [|r rs IH]; intros s added s' added' Hr E; cbn in E; [by injection E as <- <-|].
  destruct (allow_check s added r) eqn:Ea; [|done]. destruct (run r s) as [[[] s1]|] eqn:Er; [|done].
  eapply IH; [|exact E]. eapply net_step; [exact Hr|by apply allow_check_sound|exact Er].
Qed.

Definition cell_no (k : Z) : Z := makeFID CellID k.
Definition out_of (k : Z) : Z := LinkEnd (cell_no k) 0.

(** A gate whose value and the opposite are outputs, and an input that is an output. *)
Definition split_cells : list (TypeID * list Z) :=
  [(GateID IN, []); (GateID IN, []); (GateID NAND, [out_of 0; out_of 1]); (GateID NOT, [out_of 2]);
   (GateID OUT, [out_of 3]); (GateID OUT, [out_of 2]); (GateID IN, []); (GateID OUT, [out_of 6])].

Definition split_requests : list Request :=
  ((λ p, RMake p.1 p.2) <$> split_cells) ++ (RAdd ∘ cell_no <$> [0; 1; 2; 3; 4; 5; 6; 7]%Z).

Definition split_run : State * list Z := default (mkState ∅ 0 empty_net, []) (run_checked split_requests (mkState ∅ 0 empty_net) []).
Definition split_state : State := split_run.1.
Definition split_net : Net := default (mkNet empty_net 0 0 0) (Nets.make split_state).
Definition split_rank (id : Z) : nat := Z.to_nat (makeSID CellID id).

Lemma split_reachable : net_reachable split_state split_run.2.
Proof.
  apply (run_checked_reachable split_requests (mkState ∅ 0 empty_net) []); [constructor|]. unfold split_state, split_run.
  assert (is_Some (run_checked split_requests (mkState ∅ 0 empty_net) [])) as [[s a] ->]; [|done]. vm_compute. by eexists.
Qed.

(** A condition on all the cells. *)
Lemma all_cells_check (cs : gmap Z Cell) (P : Z → Cell → bool) : forallb (λ p, P p.1 p.2) (map_to_list cs) = true →
  ∀ k c, cs !! k = Some c → P k c = true.
Proof. rewrite forallb_forall. intros HP k c Hc. apply (HP (k, c)), list_elem_of_In. by apply elem_of_map_to_list. Qed.

Lemma split_decomposable : decomposable split_state.
Proof.
  split.
  - intros k c w Hc Hw. pose proof (all_cells_check (cells split_state) (λ _ c, forallb isValid (cell_links c)) ltac:(vm_compute; reflexivity) k c Hc) as Hv.
    cbn in Hv. rewrite forallb_forall in Hv. by apply Hv, list_elem_of_In.
  - intros k c Hc. pose proof (all_cells_check (cells split_state) (λ _ c, length (cell_links c) <=? 2) ltac:(vm_compute; reflexivity) k c Hc) as Hv.
    cbn in Hv. apply Nat.leb_le in Hv. change (2 ^ 16)%Z with 65536%Z. lia.
  - intros k c t j Hc Ht _ Hj.
    pose proof (all_cells_check (cells split_state) (λ _ c, match cellType c with
      | Some t => forallb (λ j, if getSignalType t j is Some _ then true else false) (seq 0 (length (cell_links c)))
      | None => true end) ltac:(vm_compute; reflexivity) k c Hc) as Hv.
    cbn beta in Hv. rewrite Ht, forallb_forall in Hv. specialize (Hv j ltac:(apply in_seq; lia)). by destruct (getSignalType t j).
Qed.

Lemma split_ranked : ranked split_state split_rank.
Proof.
  intros id l Hl Hi. unfold links_into in Hl. destruct (get split_state id) as [c|] eqn:Hc; [|by apply elem_of_nil in Hl].
  apply get_cell in Hc. cbn in Hl. apply elem_of_lookup_imap in Hl as (j & w & -> & Hw). apply list_elem_of_lookup_2 in Hw.
  pose proof (all_cells_check (cells split_state) (λ k c, forallb (λ w, Z.to_nat (NetSpec.source w) <? Z.to_nat k) (cell_links c)) ltac:(vm_compute; reflexivity) _ c Hc) as Hv.
  cbn in Hv. rewrite forallb_forall in Hv. specialize (Hv w ltac:(by apply list_elem_of_In)). by apply Nat.ltb_lt in Hv.
Qed.

(** The links that are no inputs lead to the two gates. *)
Definition from_gates (l : NetLink) : bool := is_input split_state l || existsb (Z.eqb (src l)) [cell_no 2; cell_no 3].

Lemma from_gates_source ls l : forallb from_gates ls = true → l ∈ ls → is_input split_state l = false → src l = cell_no 2 ∨ src l = cell_no 3.
Proof.
  rewrite forallb_forall. intros Hf Hl Hi. specialize (Hf l ltac:(by apply list_elem_of_In)). unfold from_gates in Hf.
  rewrite Hi in Hf. cbn [orb existsb] in Hf. rewrite orb_false_r, orb_true_iff, !Z.eqb_eq in Hf. exact Hf.
Qed.

Lemma split_plain : plain_net split_state split_net.
Proof.
  split; [vm_compute; reflexivity|]. intros o id Ho Hcone. assert (id = cell_no 2 ∨ id = cell_no 3) as Hid.
  { induction Hcone as [Hi|id l _ IH Hl Hi].
    - eapply from_gates_source; [|exact Ho|done]. vm_compute. reflexivity.
    - eapply from_gates_source; [|exact Hl|done]. destruct IH as [->| ->]; vm_compute; reflexivity. }
  destruct Hid as [->| ->]; vm_compute; reflexivity.
Qed.


Definition split_world : World := mkWorld split_state [].


(** The net has two components, the gates and the input that is an output. *)
Example split_components : map (λ c, (c_inners c, size (c_inputs c), size (c_outputs c))) (default [] (extractComponents split_state split_net)) =
  [([cell_no 2; cell_no 3], 2, 2); ([], 1, 1)].
Proof. vm_compute. reflexivity. Qed.

End Witnesses.
