(* ===== verification/Design.v ===== *)
(** * Designs ([gate/model/design.h, design.cpp], [gate/synthesizer/synthesizer.cpp])

    A design is a net in parts: the decomposition of a net into subnets, and for every
    subnet an entry with the subnet or a builder that is to replace it, and the check
    points to which it can be rolled back.  Builders are shared objects: an entry holds
    a pointer, and [make] moves the entries out of the builder, which leaves the heap. *)

From S2P Require Import Prelude ObjectId CellType SubnetBase Builder Make BlockList Nets Synthesizer Decomposer.
From stdpp Require Import gmap strings.
Import Nets.

(** ** Definitions *)

(** *** Implementations of the soft blocks *)

(** The types after [type.setSubnet(subnetID)]. *)
Definition implement_type (types : TypeStore) (id : TypeID) (subnetID : Z) : TypeStore := λ m,
  if bool_decide (id = UserID m) then (λ t, setSubnet t subnetID) <$> types m else types m.

(** A block without implementation is left for a hard one. *)
(* gate/synthesizer/synthesizer.cpp:97-108 [synthSoftBlocks] *)
Definition synthSoftBlock (cellID : Z) (types : TypeStore) : st World TypeStore :=
  w ← st_get;
  c ← st_read (λ _, get (w_net w) cellID);
  t ← st_read (λ _, @cellType types c);
  r ← st_read (λ _, @synthImpl types t);
  match r with
  | None => mret types
  | Some sn => subnetID ← subnet_new sn; mret (implement_type types (typeID c) subnetID)
  end.

(* gate/synthesizer/synthesizer.cpp:93-109 [synthSoftBlocks] *)
Definition synthSoftBlocks (n : Net) (types : TypeStore) : st World TypeStore :=
  st_fold synthSoftBlock (softBlocks (lists n)) types.

(** *** The data *)

(* gate/model/design.h:23-38 [Domain] *)
Record Domain := mkDomain { sourceID : Z; domainFlipFlops : list Z }.

(* gate/model/design.h:47-48 [DesignBuilder::PISubnetEntryIdx] *)
Definition PISubnetEntryIdx : Z := (2 ^ 64 - 1)%Z.
(* gate/model/design.h:49-50 [DesignBuilder::POSubnetEntryIdx] *)
Definition POSubnetEntryIdx : Z := (2 ^ 64 - 2)%Z.
(* gate/model/design.h:53-54 [DesignBuilder::DeleteBuffers] *)
Definition DeleteBuffers : bool := true.
(* gate/model/design.h:55-56 [DesignBuilder::DefaultName] *)
Definition DefaultName : string := "Design".

(** The arc to the primary inputs or outputs has a descriptor if there is one. *)
(* gate/model/design.h:136-153 [DesignBuilder::SubnetEntry] *)
Record SubnetEntry := mkSubnetEntry {
  e_points : gmap string Z;
  e_subnetID : Z;
  e_builder : option nat;
  e_arcs : gset Z;
  e_arcToDesc : gmap Z SignalType;
  e_PI : option SignalType;
  e_PO : option SignalType;
}.

(* gate/model/design.h:448-467 [DesignBuilder] *)
Record Design := mkDesign {
  d_name : string;
  d_typeID : TypeID;
  d_netID : Z;
  d_clockDomains : list Domain;
  d_resetDomains : list Domain;
  d_points : list string;
  d_entries : list SubnetEntry;
  d_result : Result;
  d_nIn : N;
  d_nOut : N;
}.

(** The objects stored, the builders by their addresses, and the design. *)
Record System := mkSystem {
  y_world : World;
  y_builders : gmap nat SubnetBuilder;
  y_next : nat;
  y_design : Design;
}.

Definition with_world (w : World) (y : System) : System := mkSystem w (y_builders y) (y_next y) (y_design y).
Definition with_design (d : Design) (y : System) : System := mkSystem (y_world y) (y_builders y) (y_next y) d.

Definition with_entries (es : list SubnetEntry) (d : Design) : Design :=
  mkDesign (d_name d) (d_typeID d) (d_netID d) (d_clockDomains d) (d_resetDomains d) (d_points d) es (d_result d) (d_nIn d) (d_nOut d).

Definition with_points (ps : list string) (d : Design) : Design :=
  mkDesign (d_name d) (d_typeID d) (d_netID d) (d_clockDomains d) (d_resetDomains d) ps (d_entries d) (d_result d) (d_nIn d) (d_nOut d).

Definition with_result (r : Result) (d : Design) : Design :=
  mkDesign (d_name d) (d_typeID d) (d_netID d) (d_clockDomains d) (d_resetDomains d) (d_points d) (d_entries d) r (d_nIn d) (d_nOut d).

(** The subnet of an entry is replaced, or its builder. *)
Definition with_subnet (id : Z) (b : option nat) (e : SubnetEntry) : SubnetEntry :=
  mkSubnetEntry (e_points e) id b (e_arcs e) (e_arcToDesc e) (e_PI e) (e_PO e).

Definition on_world {A} (m : st World A) : st System A := λ y,
  '(a, w) ← m (y_world y); Some (a, with_world w y).

(** The arcs into every subnet, and their descriptors. *)
Abbreviation Arcs := (list (gset Z) * list (gmap Z SignalType))%type.

Section Design.
Context `{TypeStore} `{HashOrder}.

(** *** Entries *)

(* gate/model/design.h:74-87 [DesignBuilder::SubnetEntry::SubnetEntry] *)
Definition addArc (arcToDesc : gmap Z SignalType) (arc : Z) (e : SubnetEntry) : option SubnetEntry :=
  desc ← arcToDesc !! arc;
  Some (
    if (arc =? PISubnetEntryIdx)%Z then
      mkSubnetEntry (e_points e) (e_subnetID e) (e_builder e) (e_arcs e) (e_arcToDesc e) (Some desc) (e_PO e)
    else if (arc =? POSubnetEntryIdx)%Z then
      mkSubnetEntry (e_points e) (e_subnetID e) (e_builder e) (e_arcs e) (e_arcToDesc e) (e_PI e) (Some desc)
    else
      mkSubnetEntry (e_points e) (e_subnetID e) (e_builder e) (e_arcs e ∪ {[arc]}) (<[arc := desc]> (e_arcToDesc e))
        (e_PI e) (e_PO e)).

(* gate/model/design.h:68-88 [DesignBuilder::SubnetEntry::SubnetEntry] *)
Definition newEntry (subnetID : Z) (arcs : gset Z) (arcToDesc : gmap Z SignalType) : option SubnetEntry :=
  foldl (λ e arc, e ← e; addArc arcToDesc arc e) (Some (mkSubnetEntry ∅ subnetID None ∅ ∅ None None)) (visit (elements arcs)).

(* gate/model/design.h:94-96 [DesignBuilder::SubnetEntry::hasArc] *)
Definition hasArc (e : SubnetEntry) (i : Z) : bool := bool_decide (i ∈ e_arcs e).
(* gate/model/design.h:102-104 [DesignBuilder::SubnetEntry::hasPIArc] *)
Definition hasPIArc (e : SubnetEntry) : bool := bool_decide (is_Some (e_PI e)).
(* gate/model/design.h:110-112 [DesignBuilder::SubnetEntry::hasPOArc] *)
Definition hasPOArc (e : SubnetEntry) : bool := bool_decide (is_Some (e_PO e)).
(* gate/model/design.h:115-117 [DesignBuilder::SubnetEntry::getInArcs] *)
Definition getInArcs (e : SubnetEntry) : gset Z := e_arcs e.
(* gate/model/design.h:120-124 [DesignBuilder::SubnetEntry::getArcDesc] *)
Definition getArcDesc (e : SubnetEntry) (i : Z) : option SignalType := e_arcToDesc e !! i.
(* gate/model/design.h:126-129 [DesignBuilder::SubnetEntry::getPIArcDesc] *)
Definition getPIArcDesc (e : SubnetEntry) : option SignalType := e_PI e.
(* gate/model/design.h:131-134 [DesignBuilder::SubnetEntry::getPOArcDesc] *)
Definition getPOArcDesc (e : SubnetEntry) : option SignalType := e_PO e.

(* gate/model/design.h:217-226 [DesignBuilder::getEntry] *)
Definition getEntry (i : nat) : st System SubnetEntry := st_read (λ y, d_entries (y_design y) !! i).

(** The entry is referred to: changes go to the list. *)
Definition putEntry (i : nat) (e : SubnetEntry) : st System unit :=
  st_modify (λ y, with_design (with_entries (<[i := e]> (d_entries (y_design y))) (y_design y)) y).

(* gate/model/design.h:212-214 [DesignBuilder::getSubnetNum] *)
Definition getSubnetNum (d : Design) : nat := length (d_entries d).

(* gate/model/design.h:175-177 [DesignBuilder::setName] *)
Definition setName (name : string) : st System unit := st_modify (λ y,
  let d := y_design y in
  with_design (mkDesign name (d_typeID d) (d_netID d) (d_clockDomains d) (d_resetDomains d) (d_points d) (d_entries d)
    (d_result d) (d_nIn d) (d_nOut d)) y).

(* gate/model/design.h:180-182 [DesignBuilder::hasType] *)
Definition hasType (d : Design) : bool := bool_decide (d_typeID d ≠ NullTypeID).
(* gate/model/design.h:190-193 [DesignBuilder::getType] *)
Definition getDesignType (d : Design) : option CellType := if hasType d then getType (d_typeID d) else None.
(* gate/model/design.h:196-198 [DesignBuilder::hasNet] *)
Definition hasNet (d : Design) : bool := negb (d_netID d =? OBJ_NULL_ID)%Z.

(** *** Subnets and builders *)

(** [builder->make(DeleteBuffers)]: the subnet is stored, the builder is used up. *)
Definition make_builder (p : nat) : st System Z :=
  sn ← st_read (λ y, b ← y_builders y !! p; Make.make DeleteBuffers b);
  st_modify (λ y, mkSystem (y_world y) (delete p (y_builders y)) (y_next y) (y_design y));;
  on_world (subnet_new sn).

(** A builder is allocated. *)
Definition new_builder (b : SubnetBuilder) : st System nat := λ y,
  Some (y_next y, mkSystem (y_world y) (<[y_next y := b]> (y_builders y)) (S (y_next y)) (y_design y)).

(* gate/model/design.h:242-250 [DesignBuilder::setSubnetID] *)
Definition setSubnetID (i : nat) (subnetID : Z) : st System unit :=
  st_assert (negb (subnetID =? OBJ_NULL_ID)%Z);;
  e ← getEntry i;
  putEntry i (with_subnet subnetID None e).

(* gate/model/design.h:229-239 [DesignBuilder::getSubnetID] *)
Definition getSubnetID (i : nat) : st System Z :=
  e ← getEntry i;
  if negb (e_subnetID e =? OBJ_NULL_ID)%Z then mret (e_subnetID e)
  else
    p ← st_read (λ _, e_builder e);
    id ← make_builder p;
    setSubnetID i id;;
    e ← getEntry i;
    mret (e_subnetID e).

(* gate/model/design.h:253-264 [DesignBuilder::getSubnetBuilder] *)
Definition getSubnetBuilder (i : nat) : st System nat :=
  e ← getEntry i;
  match e_builder e with
  | Some p => mret p
  | None =>
    st_assert (negb (e_subnetID e =? OBJ_NULL_ID)%Z);;
    b ← st_read (λ y, sn ← subnet_get (y_world y) (e_subnetID e);
      '(_, b) ← Make.builder_of_subnet (λ _, 0%N) sn empty_builder; Some b);
    p ← new_builder b;
    putEntry i (with_subnet OBJ_NULL_ID (Some p) e);;
    mret p
  end.

(* gate/model/design.h:267-271 [DesignBuilder::setSubnetBuilder] *)
Definition setSubnetBuilder (i : nat) (builder : option nat) : st System unit :=
  e ← getEntry i;
  putEntry i (with_subnet OBJ_NULL_ID builder e).

(** The differences are of 64 bits. *)
(* gate/model/design.cpp:58-79 [DesignBuilder::getCellNum] *)
Definition getEntryCellNum (y : System) (i : nat) (withBufs : bool) : option (Z * Z * Z) :=
  e ← d_entries (y_design y) !! i;
  '(nI, nO, nC, nB) ← (
    if negb (e_subnetID e =? OBJ_NULL_ID)%Z then
      sn ← subnet_get (y_world y) (e_subnetID e);
      Some (sn_nIn sn, sn_nOut sn, sn_nCell sn, sn_nBuf sn)
    else
      p ← e_builder e; b ← y_builders y !! p;
      Some (b_nIn b, b_nOut b, nCell b, nBuf b));
  let nB := if withBufs then 0 else nB in
  Some (Z.of_nat nI, Z.of_nat nO, (Z.of_nat nC - Z.of_nat nI - Z.of_nat nO - Z.of_nat nB) mod 2 ^ 64)%Z.

(* gate/model/design.h:284-290 [DesignBuilder::getCellNum] *)
Definition getDesignCellNum (y : System) (withBufs : bool) : option (N * N * Z) :=
  ns ← mapM (λ i, getEntryCellNum y i withBufs) (seq 0 (length (d_entries (y_design y))));
  Some (d_nIn (y_design y), d_nOut (y_design y), foldl (λ a n, (a + n.2) mod 2 ^ 64)%Z 0%Z ns).

(* gate/model/design.h:293-300 [DesignBuilder::makeSubnets] *)
Definition makeSubnets : st System unit :=
  n ← st_read (λ y, Some (length (d_entries (y_design y))));
  st_for (seq 0 n) (λ i,
    e ← getEntry i;
    match e_builder e with
    | Some p => id ← make_builder p; setSubnetID i id
    | None => mret ()
    end).

(** *** Check points *)

(* gate/model/design.h:308-310 [DesignBuilder::hasPoint] *)
Definition hasPoint (point : string) (d : Design) : bool := bool_decide (point ∈ d_points d).

(** [emplace] leaves a point that is there. *)
(* gate/model/design.h:313-316 [DesignBuilder::save] *)
Definition save_entry (i : nat) (point : string) : st System unit :=
  _ ← getEntry i;
  id ← getSubnetID i;
  e ← getEntry i;
  putEntry i (mkSubnetEntry (if e_points e !! point then e_points e else <[point := id]> (e_points e))
    (e_subnetID e) (e_builder e) (e_arcs e) (e_arcToDesc e) (e_PI e) (e_PO e)).

(* gate/model/design.h:319-327 [DesignBuilder::save] *)
Definition save (point : string) : st System unit :=
  n ← st_read (λ y, Some (length (d_entries (y_design y))));
  st_for (seq 0 n) (λ i, save_entry i point);;
  st_modify (λ y, if hasPoint point (y_design y) then y
    else with_design (with_points (d_points (y_design y) ++ [point]) (y_design y)) y).

(* gate/model/design.h:344-351 [DesignBuilder::getSubnetID] *)
Definition getPointSubnetID (i : nat) (point : string) : st System Z :=
  e ← getEntry i; st_read (λ _, e_points e !! point).

(* gate/model/design.h:330-334 [DesignBuilder::rollback] *)
Definition rollback_entry (i : nat) (point : string) : st System unit :=
  e ← getEntry i;
  id ← getPointSubnetID i point;
  putEntry i (with_subnet id None e).

(* gate/model/design.h:337-341 [DesignBuilder::rollback] *)
Definition rollback (point : string) : st System unit :=
  n ← st_read (λ y, Some (length (d_entries (y_design y))));
  st_for (seq 0 n) (λ i, rollback_entry i point).

(* gate/model/design.h:359-370 [DesignBuilder::isTechMapped] *)
Definition isDesignTechMapped : st System bool :=
  n ← st_read (λ y, Some (length (d_entries (y_design y))));
  if n =? 0 then mret false
  else
    id ← getSubnetID 0;
    st_read (λ y, sn ← subnet_get (y_world y) id; Net.isTechMapped sn).

(** *** Nets *)

(* gate/model/design.h:414-414 [DesignBuilder::updateSubnets] *)
Definition set_result (i : nat) (id : Z) (y : System) : option System :=
  let r := d_result (y_design y) in
  d ← r_subnets r !! i;
  Some (with_design (with_result (mkResult (r_inputs r) (r_outputs r)
    (<[i := mkSubnetDesc id (sd_mapping d) (sd_entries d)]> (r_subnets r))) (y_design y)) y).

(* gate/model/design.h:412-416 [DesignBuilder::updateSubnets] *)
Definition updateSubnets : st System unit :=
  n ← st_read (λ y, Some (length (d_entries (y_design y))));
  st_for (seq 0 n) (λ i, id ← getSubnetID i; st_update (set_result i id)).

(* gate/model/design.h:418-422 [DesignBuilder::updateSubnets] *)
Definition updatePointSubnets (point : string) : st System unit :=
  n ← st_read (λ y, Some (length (d_entries (y_design y))));
  st_for (seq 0 n) (λ i, id ← getPointSubnetID i point; st_update (set_result i id)).

(* gate/model/design.h:373-376 [DesignBuilder::make] *)
Definition makeNet : st System Net :=
  updateSubnets;;
  r ← st_read (λ y, Some (d_result (y_design y)));
  on_world (Decomposer.compose r).

(* gate/model/design.h:379-382 [DesignBuilder::make] *)
Definition makePointNet (point : string) : st System Net :=
  updatePointSubnets point;;
  r ← st_read (λ y, Some (d_result (y_design y)));
  on_world (Decomposer.compose r).

(** *** Replacing a cell *)

(** Both new ends are read from the lists of the ports, even if one is not used. *)
(* gate/model/design.cpp:90-106 [replace] *)
Definition replace_link (oldCellID newCellID : Z) (newInputs newOutputs : list Z) (p : NetLink * nat)
    (s : gset NetLink * gmap NetLink nat) : option (gset NetLink * gmap NetLink nat) :=
  let '(oldSource, oldTarget) := p.1 in
  let isOldSource := (getCellID oldSource =? oldCellID)%Z in
  let isOldTarget := (getCellID oldTarget =? oldCellID)%Z in
  if isOldSource || isOldTarget then
    outPort ← newOutputs !! Z.to_nat (getPort oldSource);
    inPort ← newInputs !! Z.to_nat (getPort oldTarget);
    let newLink := (if isOldSource then LinkEnd newCellID outPort else oldSource,
                    if isOldTarget then LinkEnd newCellID inPort else oldTarget) in
    Some (s.1 ∪ {[p.1]}, if s.2 !! newLink then s.2 else <[newLink := p.2]> s.2)
  else Some s.

(** Links that are in the map are not replaced by the new ones. *)
(* gate/model/design.cpp:81-114 [replace] *)
Definition replace_links (oldCellID newCellID : Z) (newInputs newOutputs : list Z) (linkMap : gmap NetLink nat)
    : option (gmap NetLink nat) :=
  if (oldCellID =? newCellID)%Z then None
  else
    '(removeSet, insertMap) ← foldl (λ s p, s ← s; replace_link oldCellID newCellID newInputs newOutputs p s)
      (Some (∅, ∅)) (visit (map_to_list linkMap));
    Some (filter (λ p, p.1 ∉ removeSet) linkMap ∪ insertMap).

Definition replace_desc (oldCellID newCellID : Z) (newInputs newOutputs : list Z) (d : SubnetDesc) : option SubnetDesc :=
  let m := sd_mapping d in
  ins ← replace_links oldCellID newCellID newInputs newOutputs (m_inputs m);
  outs ← replace_links oldCellID newCellID newInputs newOutputs (m_outputs m);
  Some (mkSubnetDesc (sd_subnetID d) (mkMapping (m_size m) ins (m_inners m) outs) (sd_entries d)).

(* gate/model/design.cpp:116-125 [DesignBuilder::replaceCell] *)
Definition replaceCell (oldCellID newCellID : Z) (newInputs newOutputs : list Z) : st System unit := st_update (λ y,
  let r := d_result (y_design y) in
  ds ← mapM (replace_desc oldCellID newCellID newInputs newOutputs) (r_subnets r);
  Some (with_design (with_result (mkResult (r_inputs r) (r_outputs r) ds) (y_design y)) y)).

(** *** The graph of the subnets *)

(** The first visited link whose cell has the type. *)
Fixpoint find_connection (s : State) (type : TypeID) (cell : NetLink → Z) (ls : list (NetLink * nat)) : option (option nat) :=
  match ls with
  | [] => Some None
  | (link, idx) :: ls =>
    c ← get s (cell link);
    if bool_decide (typeID c = type) then Some (Some idx) else find_connection s type cell ls
  end.

(* gate/model/design.h:390-399 [DesignBuilder::getPIConnectionEntry] *)
Definition getPIConnectionEntry (s : State) (d : SubnetDesc) : option (option nat) :=
  find_connection s (GateID IN) (λ l, getCellID l.1) (visit (map_to_list (m_inputs (sd_mapping d)))).

(* gate/model/design.h:401-410 [DesignBuilder::getPOConnectionEntry] *)
Definition getPOConnectionEntry (s : State) (d : SubnetDesc) : option (option nat) :=
  find_connection s (GateID OUT) (λ l, getCellID l.2) (visit (map_to_list (m_outputs (sd_mapping d)))).

(* gate/model/design.cpp:202-212 [DesignBuilder::findFlipFlopPIs] *)
Definition flipFlopPIs_of (w : World) (d : SubnetDesc) : option (gset Z) :=
  sn ← subnet_get w (sd_subnetID d);
  descs ← mapM (λ inN, sd_entries d !! Net.getInIdx sn inN) (seq 0 (sn_nIn sn));
  Some (list_to_set (flipFlopID <$> filter (λ e, flipFlop e = true) descs)).

(* gate/model/design.cpp:197-214 [DesignBuilder::findFlipFlopPIs] *)
Definition findFlipFlopPIs (w : World) (r : Result) : option (list (gset Z)) := mapM (flipFlopPIs_of w) (r_subnets r).

(* gate/model/design.cpp:248-249 [DesignBuilder::findArcs] *)
Definition addArcTo (j : nat) (arc : Z) (desc : SignalType) : st Arcs unit := st_update (λ a,
  arcs ← a.1 !! j; descs ← a.2 !! j;
  Some (<[j := arcs ∪ {[arc]}]> a.1, <[j := <[arc := desc]> descs]> a.2)).

(* gate/model/design.cpp:230-241 [DesignBuilder::findArcs] *)
Definition addBoundaryArc (i : nat) (d : SubnetDesc) (arc : Z) (linking : option nat) : st Arcs unit :=
  match linking with
  | Some idx => desc ← st_read (λ _, sd_entries d !! idx); addArcTo i arc (connectionDesc desc)
  | None => mret ()
  end.

(* gate/model/design.cpp:228-251 [DesignBuilder::findArcs] *)
Definition output_arcs (w : World) (flipFlopPIs : list (gset Z)) (i : nat) (d : SubnetDesc) (sn : Subnet) (outN : nat) : st Arcs unit :=
  outDesc ← st_read (λ _, sd_entries d !! Net.getOutIdx sn outN);
  pi ← st_read (λ _, getPIConnectionEntry (w_net w) d);
  po ← st_read (λ _, getPOConnectionEntry (w_net w) d);
  addBoundaryArc i d PISubnetEntryIdx pi;;
  addBoundaryArc i d POSubnetEntryIdx po;;
  if flipFlop outDesc then
    st_for (imap pair flipFlopPIs) (λ '(j, ffs),
      if bool_decide (flipFlopID outDesc ∈ ffs) then addArcTo j (Z.of_nat i) (connectionDesc outDesc) else mret ())
  else mret ().

(** The outputs are counted in 16 bits: the loop does not end for more. *)
(* gate/model/design.cpp:216-255 [DesignBuilder::findArcs] *)
Definition findArcs (w : World) (r : Result) (flipFlopPIs : list (gset Z)) : option Arcs :=
  let n := length (r_subnets r) in
  '(_, a) ← st_for (imap pair (r_subnets r)) (λ '(i, d),
    sn ← st_read (λ _, subnet_get w (sd_subnetID d));
    st_assert (bool_decide (sn_nOut sn < Z.to_nat (2 ^ 16)));;
    st_for (seq 0 (sn_nOut sn)) (output_arcs w flipFlopPIs i d sn)) (replicate n ∅, replicate n ∅);
  Some a.

(* gate/model/design.cpp:257-263 [DesignBuilder::setAdjList] *)
Definition setAdjList (w : World) (r : Result) : option Arcs := ffs ← findFlipFlopPIs w r; findArcs w r ffs.

(* gate/model/design.h:424-433 [DesignBuilder::setEntries] *)
Definition setEntries (r : Result) (a : Arcs) : option (list SubnetEntry) :=
  mapM (λ '(i, d), arcs ← a.1 !! i; descs ← a.2 !! i; newEntry (sd_subnetID d) arcs descs) (imap pair (r_subnets r)).

(** *** Construction *)

(* gate/model/design.cpp:139-160 [identifyClockAndResetDomains] *)
Definition identifyDomain (s : State) (id : Z) (p : gmap Z nat * list Domain) : option (gmap Z nat * list Domain) :=
  '(c, t) ← getCellInfo s id;
  if dffPinout t then
    source ← Nets.getLink c 1;
    let clock := getCellID source in
    let '(clocks, domains, index) := match p.1 !! clock with
      | Some index => (p.1, p.2, index)
      | None => (<[clock := size p.1]> p.1, p.2 ++ [mkDomain clock []], size p.1)
      end in
    domain ← domains !! index;
    Some (clocks, <[index := mkDomain (sourceID domain) (domainFlipFlops domain ++ [id])]> domains)
  else Some p.

(* gate/model/design.cpp:131-161 [identifyClockAndResetDomains] *)
Definition identifyClockDomains (s : State) (n : Net) : option (list Domain) :=
  snd <$> foldl (λ p id, p ← p; identifyDomain s id p) (Some (∅, [])) (flipFlops (lists n)).

(** The entries of a decomposition. *)
(* gate/model/design.cpp:190-194 [DesignBuilder::initialize(SubnetID)] *)
Definition make_entries (w : World) (r : Result) : option (list SubnetEntry) := a ← setAdjList w r; setEntries r a.

(* gate/model/design.cpp:183-195 [DesignBuilder::initialize(SubnetID)] *)
Definition initialize_subnet (name : string) (type : TypeID) (subnetID : Z) : st World Design :=
  st_assert (negb (subnetID =? OBJ_NULL_ID)%Z);;
  sn ← st_read (λ w, subnet_get w subnetID);
  r ← decompose_subnet subnetID;
  es ← st_read (λ w, make_entries w r);
  mret (mkDesign name type OBJ_NULL_ID [] [] [] es r (N.of_nat (sn_nIn sn)) (N.of_nat (sn_nOut sn))).

End Design.

(** The soft blocks get their implementations before the decomposition. *)
(* gate/model/design.cpp:163-181 [DesignBuilder::initialize(NetID)] *)
Definition initialize_net `{HashOrder} (name : string) (type : TypeID) (netID : Z) (n : Net) (types : TypeStore)
    : st World (Design * TypeStore) :=
  st_assert (negb (netID =? OBJ_NULL_ID)%Z);;
  clocks ← st_read (λ w, @identifyClockDomains types (w_net w) n);
  types ← synthSoftBlocks n types;
  r ← @decompose types _ n;
  es ← st_read (λ w, make_entries w r);
  mret (mkDesign name type netID clocks [] [] es r (getInNum n) (getOutNum n), types).

Section Constructors.
Context `{HashOrder} (net_get : Z → option Net).

(* gate/model/design.cpp:27-33 [DesignBuilder::DesignBuilder(NetID)] *)
Definition design_of_net (name : string) (netID : Z) (types : TypeStore) : st World (Design * TypeStore) :=
  n ← st_read (λ _, net_get netID); initialize_net name NullTypeID netID n types.

(* gate/model/design.cpp:35-41 [DesignBuilder::DesignBuilder(SubnetID)] *)
Definition design_of_subnet `{TypeStore} (name : string) (subnetID : Z) : st World Design :=
  initialize_subnet name NullTypeID subnetID.

(* gate/model/design.cpp:19-25 [getCellTypeNetID] *)
Definition getCellTypeNetID (t : CellType) : Z := if isNet t then CellType.getNetID t else OBJ_NULL_ID.

(* gate/model/design.cpp:43-56 [DesignBuilder::DesignBuilder(CellTypeID)] *)
Definition design_of_type (name : string) (type : TypeID) (types : TypeStore) : st World (Design * TypeStore) :=
  t ← st_read (λ _, @getType types type);
  st_assert (hasImpl t);;
  if isNet t then
    n ← st_read (λ _, net_get (CellType.getNetID t));
    initialize_net name type (getCellTypeNetID t) n types
  else d ← @initialize_subnet types _ name type (CellType.getSubnetID t); mret (d, types).

(** A new design in the world. *)
Definition system_of (w : World) (d : Design) : System := mkSystem w ∅ 0 d.

(* gate/model/design.h:470-474 [makeSubnet] *)
Definition subnet_of_net (netID : Z) (types : TypeStore) : st World Z := λ w,
  '((d, types), w) ← design_of_net DefaultName netID types w;
  if getSubnetNum d =? 1 then '(id, y) ← getSubnetID 0 (system_of w d); Some (id, y_world y) else None.

(* gate/model/design.h:476-479 [makeNet] *)
Definition net_of_subnet `{TypeStore} (subnetID : Z) : st World Net := λ w,
  '(d, w) ← design_of_subnet DefaultName subnetID w;
  '(n, y) ← makeNet (system_of w d); Some (n, y_world y).

End Constructors.
