(* ===== verification/DesignSpec.v ===== *)
(** * Designs refine functions with check points

    What a design means: a function of the inputs for every entry, and for every check
    point the function that was saved.  The requests of clients keep the relation
    between a design and its meaning, and the net that is made computes it. *)

From stdpp Require Import gmap strings.
From S2P Require Import Prelude ObjectId Nets NetSpec Decomposer ComposeSpec Design.
From S2P Require Import CellType SubnetBase Builder Order BuilderInv BuilderAdd BuilderAlloc BuilderSpec BuilderEval.
From S2P Require Import Make MakeSpec SubnetEval MakeWf Stays MiterSpec CopySpec BuilderCorrect.

(** ** Definitions *)

(** Cells that are copied one to one, and that no [make] deletes. *)
Definition design_cell (c : Cell) : bool :=
  copy_cell c && negb (cell_is BUF c) && forallb (λ l, out l =? 0) (getInPlaceLinks c).

#[export] Instance design_cell_property : CellProperty design_cell.
Proof. done. Defined.

(** The subnets of designs: well-formed, of small gates, without buffers. *)
Definition tidy (s : Subnet) : bool :=
  sn_wf s && copy_ready s && forallb (λ e, match e with ECell c => negb (cell_is BUF c) | _ => true end) (sn_entries s) &&
  (0 <? sn_nOut s).

Section Meaning.
Context `{TypeStore}.

(** The subnet has [n] inputs and [m] outputs, which are [f] of the inputs. *)
Definition subnet_means (s : Subnet) (n m : nat) (f : list bool → list bool) : Prop :=
  tidy s = true ∧ sn_nOut s = m ∧ implements s n f.

Definition id_means (w : World) (id : Z) (n m : nat) (f : list bool → list bool) : Prop :=
  ∃ s, subnet_get w id = Some s ∧ subnet_means s n m f.

(** The builder makes such a subnet. *)
Definition builder_means (b : SubnetBuilder) (n m : nat) (f : list bool → list bool) : Prop :=
  ∃ s, Make.make DeleteBuffers b = Some s ∧ subnet_means s n m f.

(** The meaning of an entry. *)
Record Meaning := mkMeaning {
  m_in : nat;
  m_out : nat;
  m_fun : list bool → list bool;
  m_points : gmap string (list bool → list bool);
}.

(** An entry has either a subnet or a builder. *)
Record entry_means (w : World) (bs : gmap nat SubnetBuilder) (e : SubnetEntry) (a : Meaning) : Prop := {
  em_now : match e_builder e with
    | None => id_means w (e_subnetID e) (m_in a) (m_out a) (m_fun a)
    | Some p => e_subnetID e = OBJ_NULL_ID ∧ ∃ b, bs !! p = Some b ∧ builder_means b (m_in a) (m_out a) (m_fun a)
    end;
  em_points : ∀ point, match e_points e !! point, m_points a !! point with
    | Some id, Some f => id_means w id (m_in a) (m_out a) f
    | None, None => True
    | _, _ => False
    end;
}.

(** The pointers of the entries lead to different builders. *)
Record design_means (y : System) (ms : list Meaning) : Prop := {
  dm_entries : Forall2 (entry_means (y_world y) (y_builders y)) (d_entries (y_design y)) ms;
  dm_own : ∀ i j e e' p, d_entries (y_design y) !! i = Some e → d_entries (y_design y) !! j = Some e' →
    e_builder e = Some p → e_builder e' = Some p → i = j;
  dm_next : ∀ p, is_Some (y_builders y !! p) → p < y_next y;
}.
End Meaning.

(** ** Builders and subnets *)

Section Tidy.
Context `{TypeStore}.

Lemma tidy_parts s : tidy s = true ↔ sn_wf s = true ∧ copy_ready s = true ∧
  (∀ i c, Net.getCell s i = Some c → type c ≠ GateID BUF) ∧ 0 < sn_nOut s.
Proof.
  unfold tidy. rewrite !andb_true_iff, Nat.ltb_lt, forallb_forall. split.
  - intros [[[? ?] Hb] ?]. split_all; [done..| |done]. intros i c Hc Ht. unfold Net.getCell in Hc.
    destruct (sn_entries s !! i) as [e|] eqn:Ee; [|done]. destruct e as [c'| |]; try done. injection Hc as ->.
    apply list_elem_of_lookup_2, list_elem_of_In, Hb in Ee. unfold cell_is in Ee. by rewrite bool_decide_eq_true_2 in Ee.
  - intros (? & ? & Hb & ?). split_all; [done..| |done]. intros e He. apply list_elem_of_In, list_elem_of_lookup in He as [i Hi].
    destruct e as [c| |]; try done. unfold cell_is. rewrite bool_decide_eq_false_2; [done|].
    apply (Hb i). unfold Net.getCell. by rewrite Hi.
Qed.

Lemma design_cell_parts c : design_cell c = true ↔ copy_cell c = true ∧ type c ≠ GateID BUF ∧ ∀ l, l ∈ getInPlaceLinks c → out l = 0.
Proof.
  unfold design_cell, cell_is. rewrite !andb_true_iff, negb_true_iff, bool_decide_eq_false, forallb_forall.
  setoid_rewrite Nat.eqb_eq. setoid_rewrite <- list_elem_of_In. tauto.
Qed.

Lemma design_combinational b : only design_cell b → combinational_builder b.
Proof.
  intros Ho i c _ Hc. apply (Ho i), design_cell_parts in Hc as (Hc & _ & Hl). split; [done|].
  unfold copy_cell in Hc. rewrite !andb_true_iff in Hc. destruct Hc as [_ Hc].
  destruct (type c) as [|sym|]; [done| |done].
  destruct (decide (sym = IN)) as [->|]; [by left|]. destruct (decide (sym = OUT)) as [->|]; [by right; left|right; right].
  assert (gate_ok sym (arity c) = true) as Hg by (by destruct sym). unfold gate_ok in Hg.
  destruct (getCellType sym); [|done]. rewrite !andb_true_iff in Hg. destruct Hg as [_ Hg].
  apply bool_decide_eq_true in Hg. exact Hg.
Qed.

Lemma made_tidy b ins outs segs s : WF b ins outs segs → outs ≠ [] → only design_cell b → made b (order_of segs outs) s → tidy s = true.
Proof.
  intros HW Hne Ho Hm. destruct (made_sizes b ins outs segs s HW Hm) as (_ & _ & Eo & _).
  assert (∀ k c', Net.getCell s k = Some c' → ∃ c, copy_cell c = true ∧ type c ≠ GateID BUF ∧ same_renamed (order_of segs outs) c c') as Hcell.
  { intros k c' Hk. pose proof (getCell_size _ _ _ Hk) as Hlt. rewrite (md_size _ _ _ Hm) in Hlt.
    destruct (lookup_lt_is_Some_2 _ k Hlt) as [i Hi]. destruct (md_cells _ _ _ Hm k i Hi) as (c & c'' & Hc & Hc'' & Hs & _).
    assert (c'' = c') as -> by congruence. apply (Ho i), design_cell_parts in Hc as (? & ? & _). by exists c. }
  apply tidy_parts. split_all.
  - apply (made_wf b ins outs segs s HW); [by apply design_combinational|done].
  - unfold copy_ready. apply forallb_forall. intros e He. apply list_elem_of_In, list_elem_of_lookup in He as [k Hk].
    destruct e as [c'| |]; try done. destruct (Hcell k c') as (c & Hc & _ & (E1 & E2 & E3 & _)); [unfold Net.getCell; by rewrite Hk|].
    unfold copy_cell in *. by rewrite E1, E2, E3.
  - intros k c' Hk. destruct (Hcell k c' Hk) as (c & _ & Hb & (E1 & _)). by rewrite E1.
  - rewrite Eo. destruct outs; [done|cbn; lia].
Qed.

(** What [make] gives for a builder of such cells. *)
Lemma builder_means_made b ins outs segs ls f : WF b ins outs segs → emptyEntryIDs b = [] → fanoutsEnabled b = false →
  outs ≠ [] → Forall2 (out_link b) outs ls → (∀ v, consistent v b → lval v <$> ls = f ((λ i, v i 0) <$> ins)) →
  only design_cell b → builder_means b (length ins) (length ls) f.
Proof.
  intros HW He Hf Hne HF Hv Ho.
  destruct (make_implements_del DeleteBuffers b ins outs segs ls f HW He Hf) as (s & Hs & Hm & Hi & Hn); [|done..|].
  { intros _ i c Hc. by apply (Ho i), design_cell_parts in Hc as (_ & ? & _). }
  exists s. split; [done|]. split; [by eapply made_tidy|done].
Qed.

Lemma design_allowed t ls : copy_cell (mkCell (length ls) 0 0 t []) = true → t ≠ GateID BUF → Forall (λ l, out l = 0) ls →
  allowed design_cell t ls.
Proof.
  intros Hg Hb Ho c E. unfold SubnetCell in E. destruct (bool_decide _); [|done]. injection E as <-.
  assert (length ls ≤ InPlaceLinks) as Hl.
  { unfold copy_cell in Hg. rewrite !andb_true_iff in Hg. destruct Hg as [[_ Hg] _]. by apply Nat.leb_le. }
  apply design_cell_parts. split_all; [|done|].
  - unfold InPlaceLinks in Hl. destruct ls as [|? [|? [|? [|]]]]; [exact Hg..|cbn in Hl; lia].
  - change (getInPlaceLinks _) with (getInPlaceLinks (new_cell t ls)). rewrite new_cell_inputs by done.
    intros l Hin. rewrite list.Forall_forall in Ho. by apply Ho.
Qed.

(** A subnet in a builder means what it meant. *)
Lemma builder_of_means s n m f : subnet_means s n m f →
  ∃ b, Make.builder_of_subnet (λ _, 0%N) s empty_builder = Some ((), b) ∧ builder_means b n m f.
Proof.
  intros (Ht & Hm & Hi). apply tidy_parts in Ht as (Hw & Hc & Hb & Hpos).
  destruct (builder_of_subnet_spec s Hw Hc design_cell) with (w := λ _ : nat, 0%N) as
    (b & ins & outs & ls & E & [segs HW] & Hem & Hfan & Hli & Hos & Hlo & Hv & Ho).
  - by apply design_allowed.
  - intros l Hl. apply design_allowed; [done|done|by constructor].
  - intros i c ls Hd Hno Hni Hlen Hout. apply design_allowed; [|by apply (Hb i)|done].
    pose proof (copy_ready_cell s i c Hc Hd) as Hcc. unfold copy_cell in *. cbn [more arity type]. rewrite Hlen.
    rewrite !andb_true_iff in Hcc |- *. by destruct Hcc as [[_ ?] ?].
  - exists b. split; [done|]. destruct Hi as (Hn & Hf & Hex). rewrite <- Hn, <- Hli, <- Hm, <- Hlo.
    apply (builder_means_made b ins outs segs ls f HW Hem Hfan); [|done| |done].
    { intros ->. apply Forall2_nil_inv_l in Hos as ->. cbn in Hlo. lia. }
    intros v Hcv. rewrite Hv by done. pose proof (sn_function_outs s Hw ((λ i, v i 0) <$> ins)) as Ef.
    assert (implements s n f) as Hi by done. apply (implements_eval s n f Hw) in Hi as [_ Hi].
    rewrite Hi in Ef by (rewrite length_fmap; congruence). by injection Ef.
Qed.
End Tidy.

(** ** Operations of designs *)

From S2P Require Import Design.

Section Steps.
Context `{TypeStore} `{HashOrder}.

(** The stored subnets stay, and at most [k] are added. *)
Record world_ext (w w' : World) (k : nat) : Prop := {
  we_net : w_net w' = w_net w;
  we_get : ∀ id s, subnet_get w id = Some s → subnet_get w' id = Some s;
  we_num : length (w_subnets w') ≤ length (w_subnets w) + k;
}.

Definition subnet_room (w : World) (k : nat) : Prop := (Z.of_nat (length (w_subnets w) + k) < 2 ^ 32 - 1)%Z.

Lemma world_ext_refl w k : world_ext w w k.
Proof. split; [done..|lia]. Qed.

Lemma world_ext_trans w1 w2 w3 j k : world_ext w1 w2 j → world_ext w2 w3 k → world_ext w1 w3 (j + k).
Proof. intros [N1 G1 L1] [N2 G2 L2]. split; [congruence|auto|lia]. Qed.

Lemma subnet_id k : (0 ≤ k < 2 ^ 32 - 1)%Z → (makeFID SubnetID k =? OBJ_NULL_ID)%Z = false ∧ makeSID SubnetID (makeFID SubnetID k) = k.
Proof.
  intros Hk. change (2 ^ 32 - 1)%Z with 4294967295%Z in Hk. assert (0 ≤ k ≤ NullSID SubnetID)%Z as Hr.
  { unfold NullSID. cbn [Bits SubnetID ObjectID]. change (2 ^ 32)%Z with 4294967296%Z. lia. }
  split; [|apply makeSID_makeFID; [done|reflexivity|done]]. apply Z.eqb_neq. intros E. pose proof (checkTag_makeFID SubnetID SubnetID k eq_refl) as Ht.
  rewrite E in Ht. specialize (Ht ltac:(vm_compute; discriminate) Hr). change (checkTag SubnetID OBJ_NULL_ID) with false in Ht.
  rewrite (proj2 (Z.eqb_neq k (NullSID SubnetID))) in Ht; [done|].
  unfold NullSID. cbn [Bits SubnetID ObjectID]. change (2 ^ 32)%Z with 4294967296%Z. lia.
Qed.

Lemma subnet_new_spec w s : subnet_room w 1 → ∃ id w', subnet_new s w = Some (id, w') ∧ world_ext w w' 1 ∧
  subnet_get w' id = Some s.
Proof.
  intros Hr. unfold subnet_room in Hr. destruct (subnet_id (Z.of_nat (length (w_subnets w))) ltac:(lia)) as [Hn Hs].
  eexists _, _. split; [done|]. split; [split|].
  - done.
  - unfold subnet_get. intros id s'. destruct (id =? OBJ_NULL_ID)%Z; [done|]. intros Hs'. cbn [w_subnets]. by apply lookup_app_l_Some.
  - cbn [w_subnets]. rewrite length_app. cbn. lia.
  - unfold subnet_get. rewrite Hn, Hs, Nat2Z.id. cbn [w_subnets]. rewrite lookup_app_r, Nat.sub_diag by lia. done.
Qed.

Lemma id_means_ext w w' k id n m f : world_ext w w' k → id_means w id n m f → id_means w' id n m f.
Proof. intros He (s & Hs & Hm). exists s. split; [by apply (we_get _ _ _ He)|done]. Qed.

Lemma id_means_null w id n m f : id_means w id n m f → (id =? OBJ_NULL_ID)%Z = false.
Proof. intros (s & Hs & _). unfold subnet_get in Hs. by destruct (id =? OBJ_NULL_ID)%Z. Qed.

(** What no request for subnets and builders changes. *)
Record frame (y y' : System) (k : nat) : Prop := {
  fr_world : world_ext (y_world y) (y_world y') k;
  fr_result : d_result (y_design y') = d_result (y_design y);
}.

Lemma frame_refl y k : frame y y k.
Proof. split; [apply world_ext_refl|done]. Qed.

Lemma frame_trans y1 y2 y3 j k : frame y1 y2 j → frame y2 y3 k → frame y1 y3 (j + k).
Proof. intros [W1 R1] [W2 R2]. split; [by eapply world_ext_trans|congruence]. Qed.

(** Entries after a step that changes the entry [i]. *)
Lemma design_step y y' ms i e' a' k : design_means y ms → world_ext (y_world y) (y_world y') k →
  d_entries (y_design y') = <[i := e']> (d_entries (y_design y)) →
  (∀ p, is_Some (y_builders y' !! p) → p < y_next y') →
  (∀ j e p, j ≠ i → d_entries (y_design y) !! j = Some e → e_builder e = Some p →
    y_builders y' !! p = y_builders y !! p ∧ e_builder e' ≠ Some p) →
  entry_means (y_world y') (y_builders y') e' a' → design_means y' (<[i := a']> ms).
Proof.
  intros [He Ho Hn] Hw Hes Hn' Hoth Hnew. split; [| |done]; rewrite Hes.
  - apply Forall2_same_length_lookup_2; [rewrite !length_insert; by eapply Forall2_length|].
    intros j e a Hj Ha. apply list_lookup_insert_Some in Hj as [(<- & <- & Hlt)|[Hne Hj]].
    + rewrite list_lookup_insert_eq in Ha by (rewrite <- (list.Forall2_length _ _ _ He); done). by injection Ha as <-.
    + rewrite list_lookup_insert_ne in Ha by done. destruct (Forall2_lookup_lr _ _ _ _ _ _ He Hj Ha) as [H1 H2]. split.
      * destruct (e_builder e) as [p|] eqn:Ep; [|by eapply id_means_ext].
        destruct (Hoth j e p (not_eq_sym Hne) Hj Ep) as [-> _]. done.
      * intros point. specialize (H2 point). destruct (e_points e !! point), (m_points a !! point); try done.
        by eapply id_means_ext.
  - intros j1 j2 e1 e2 p H1 H2 E1 E2.
    apply list_lookup_insert_Some in H1 as [(<- & <- & _)|[Hn1 H1]], H2 as [(<- & <- & _)|[Hn2 H2]]; [done| | |by eapply Ho].
    + destruct (Hoth j2 e2 p (not_eq_sym Hn2) H2 E2). done.
    + destruct (Hoth j1 e1 p (not_eq_sym Hn1) H1 E1). done.
Qed.

Lemma make_builder_spec y p b n m f : y_builders y !! p = Some b → builder_means b n m f → subnet_room (y_world y) 1 →
  ∃ id w, make_builder p y = Some (id, mkSystem w (delete p (y_builders y)) (y_next y) (y_design y)) ∧
    world_ext (y_world y) w 1 ∧ id_means w id n m f.
Proof.
  intros Hp (s & Hs & Hm) Hr. destruct (subnet_new_spec (y_world y) s Hr) as (id & w & E & He & Hg). exists id, w.
  split; [|split; [done|by exists s]]. unfold make_builder.
  rewrite (bind_eval (st_read _) _ y s y) by (unfold st_read; rewrite Hp; cbn; by rewrite Hs).
  rewrite (bind_eval (st_modify _) _ y () (mkSystem (y_world y) (delete p (y_builders y)) (y_next y) (y_design y))) by done.
  unfold on_world. cbn [y_world]. by rewrite E.
Qed.

Lemma getEntry_eval y i e : d_entries (y_design y) !! i = Some e → getEntry i y = Some (e, y).
Proof. intros He. unfold getEntry, st_read. by rewrite He. Qed.

Definition put_entry (i : nat) (e : SubnetEntry) (y : System) : System :=
  with_design (with_entries (<[i := e]> (d_entries (y_design y))) (y_design y)) y.

Lemma putEntry_eval y i e : putEntry i e y = Some ((), put_entry i e y).
Proof. done. Qed.

(** The entry and the meaning of the index. *)
Lemma design_entry y ms i a : design_means y ms → ms !! i = Some a →
  ∃ e, d_entries (y_design y) !! i = Some e ∧ entry_means (y_world y) (y_builders y) e a.
Proof. intros Hd Ha. exact (Forall2_lookup_r _ _ _ _ _ (dm_entries _ _ Hd) Ha). Qed.

(** A meaning with another function. *)
Definition now (f : list bool → list bool) (a : Meaning) : Meaning := mkMeaning (m_in a) (m_out a) f (m_points a).

Lemma now_same a : now (m_fun a) a = a.
Proof. by destruct a. Qed.

Lemma same_meaning (ms : list Meaning) i a : ms !! i = Some a → <[i := a]> ms = ms.
Proof. apply list_insert_id. Qed.

(** The pointer of another entry. *)
Lemma other_pointer y ms i j e e' p q : design_means y ms → d_entries (y_design y) !! i = Some e →
  d_entries (y_design y) !! j = Some e' → j ≠ i → e_builder e = Some p → e_builder e' = Some q → q ≠ p.
Proof. intros Hd Hi Hj Hne Hp Hq ->. apply Hne. by eapply (dm_own _ _ Hd). Qed.

(** The builder of an entry is made. *)
Lemma make_entry y ms i e a p : design_means y ms → ms !! i = Some a → d_entries (y_design y) !! i = Some e →
  e_builder e = Some p → subnet_room (y_world y) 1 →
  ∃ id y1, make_builder p y = Some (id, y1) ∧ id_means (y_world y1) id (m_in a) (m_out a) (m_fun a) ∧ frame y y1 1 ∧
    y_design y1 = y_design y ∧ design_means (put_entry i (with_subnet id None e) y1) ms.
Proof.
  intros Hd Ha He Hp Hr. destruct (design_entry y ms i a Hd Ha) as (e0 & He0 & [Hnow Hpts]). assert (e0 = e) as -> by congruence.
  rewrite Hp in Hnow. destruct Hnow as (_ & b & Hb & Hm).
  destruct (make_builder_spec y p b _ _ _ Hb Hm Hr) as (id & w & E & Hw & Hid). exists id. eexists. split; [exact E|].
  split; [done|]. split; [by split|]. split; [done|]. rewrite <- (same_meaning ms i a Ha).
  eapply (design_step _ _ _ _ (with_subnet id None e) a 1 Hd); [exact Hw|done| | |].
  - intros q. cbn. intros Hq. apply (dm_next _ _ Hd). destruct (decide (p = q)) as [<-|Hne]; [by exists b|].
    by rewrite lookup_delete_ne in Hq.
  - intros j e' q Hj Hje Hq. cbn. split; [|done]. rewrite lookup_delete_ne; [done|].
    intros ->. by eapply (other_pointer y ms i j e e' q q).
  - split; cbn; [done|]. intros point. specialize (Hpts point).
    destruct (e_points e !! point), (m_points a !! point); try done. by eapply id_means_ext.
Qed.

Lemma setSubnetID_eval y i e id : d_entries (y_design y) !! i = Some e → (id =? OBJ_NULL_ID)%Z = false →
  setSubnetID i id y = Some ((), put_entry i (with_subnet id None e) y).
Proof.
  intros He Hid. unfold setSubnetID. rewrite (bind_eval (st_assert _) _ y () y) by (unfold st_assert; by rewrite Hid).
  by rewrite (bind_eval _ _ _ _ _ (getEntry_eval y i e He)).
Qed.

Lemma put_entry_design y i e : d_entries (y_design (put_entry i e y)) = <[i := e]> (d_entries (y_design y)).
Proof. done. Qed.

Lemma frame_put_entry y y' i e k : frame y y' k → frame y (put_entry i e y') k.
Proof. by intros [Hw Hr]. Qed.

(** The subnet of an entry, made if there is a builder. *)
Lemma getSubnetID_spec y ms i a : design_means y ms → ms !! i = Some a → subnet_room (y_world y) 1 →
  ∃ id y', getSubnetID i y = Some (id, y') ∧ design_means y' ms ∧ frame y y' 1 ∧ id_means (y_world y') id (m_in a) (m_out a) (m_fun a) ∧
    ∃ e, d_entries (y_design y) !! i = Some e ∧ d_entries (y_design y') = <[i := with_subnet id None e]> (d_entries (y_design y)).
Proof.
  intros Hd Ha Hr. destruct (design_entry y ms i a Hd Ha) as (e & He & [Hnow Hpts]). unfold getSubnetID.
  rewrite (bind_eval _ _ _ _ _ (getEntry_eval y i e He)). destruct (e_builder e) as [p|] eqn:Ep.
  - destruct Hnow as (-> & _). cbn [negb Z.eqb]. change (negb (OBJ_NULL_ID =? OBJ_NULL_ID)%Z) with false. cbn [mbind option_bind].
    destruct (make_entry y ms i e a p Hd Ha He Ep Hr) as (id & y1 & E1 & Hid & Hf & Hdes & Hd1).
    pose proof (id_means_null _ _ _ _ _ Hid) as Hnn.
    assert (d_entries (y_design y1) !! i = Some e) as He1 by (by rewrite Hdes).
    exists id, (put_entry i (with_subnet id None e) y1). split.
    { rewrite (bind_eval (st_read _) _ y p y) by done. rewrite (bind_eval _ _ _ _ _ E1).
      rewrite (bind_eval _ _ _ _ _ (setSubnetID_eval y1 i e id He1 Hnn)).
      rewrite (bind_eval _ _ _ _ _ (getEntry_eval _ i (with_subnet id None e)
        ltac:(rewrite put_entry_design; apply list_lookup_insert_eq; by eapply lookup_lt_Some))). done. }
    split; [done|]. split; [by apply frame_put_entry|]. split; [done|]. exists e. split; [done|]. by rewrite put_entry_design, Hdes.
  - rewrite (id_means_null _ _ _ _ _ Hnow). cbn [negb]. exists (e_subnetID e), y.
    split; [done|]. split; [done|]. split; [apply frame_refl|]. split; [done|]. exists e. split; [done|]. symmetry. apply list_insert_id.
    rewrite He. f_equal. destruct e. cbn in *. unfold with_subnet. cbn. by subst.
Qed.

(** The entry [i] is changed, and nothing else. *)
Lemma put_means y ms i e a e' a' : design_means y ms → ms !! i = Some a → d_entries (y_design y) !! i = Some e →
  entry_means (y_world y) (y_builders y) e' a' →
  (∀ j d p, j ≠ i → d_entries (y_design y) !! j = Some d → e_builder d = Some p → e_builder e' ≠ Some p) →
  design_means (put_entry i e' y) (<[i := a']> ms).
Proof.
  intros Hd Ha He Hm Hp. eapply (design_step y _ ms i e' a' 0 Hd); [apply world_ext_refl|done|apply (dm_next _ _ Hd)| |done].
  intros j d p Hj Hjd Hdp. split; [done|]. by eapply Hp.
Qed.

(** The builder of an entry, copied from the subnet if there is none. *)
Lemma getSubnetBuilder_spec y ms i a : design_means y ms → ms !! i = Some a →
  ∃ p y' e, getSubnetBuilder i y = Some (p, y') ∧ design_means y' ms ∧ frame y y' 0 ∧
    d_entries (y_design y') !! i = Some e ∧ e_builder e = Some p.
Proof.
  intros Hd Ha. destruct (design_entry y ms i a Hd Ha) as (e & He & [Hnow Hpts]). unfold getSubnetBuilder.
  rewrite (bind_eval _ _ _ _ _ (getEntry_eval y i e He)). destruct (e_builder e) as [p|] eqn:Ep.
  { exists p, y, e. split; [done|]. split; [done|]. split; [apply frame_refl|done]. }
  pose proof (id_means_null _ _ _ _ _ Hnow) as Hnn. destruct Hnow as (s & Hs & Hm).
  destruct (builder_of_means s _ _ _ Hm) as (b & Hb & Hbm).
  set (p := y_next y). set (y1 := mkSystem (y_world y) (<[p := b]> (y_builders y)) (S p) (y_design y)).
  exists p, (put_entry i (with_subnet OBJ_NULL_ID (Some p) e) y1), (with_subnet OBJ_NULL_ID (Some p) e). split.
  { rewrite (bind_eval (st_assert _) _ y () y) by (unfold st_assert; by rewrite Hnn).
    rewrite (bind_eval (st_read _) _ y b y) by (unfold st_read; rewrite Hs; cbn [mbind option_bind]; by rewrite Hb).
    rewrite (bind_eval (new_builder b) _ y p y1) by done. by rewrite (bind_eval _ _ _ _ _ (putEntry_eval y1 i _)). }
  assert (∀ q, is_Some (y_builders y !! q) → q ≠ p) as Hold by (intros q Hq; apply (dm_next _ _ Hd) in Hq; unfold p; lia).
  split; [|split; [split; [apply world_ext_refl|done]|split; [apply list_lookup_insert_eq; by eapply lookup_lt_Some|done]]].
  rewrite <- (same_meaning ms i a Ha).
  eapply (design_step y _ ms i (with_subnet OBJ_NULL_ID (Some p) e) a 0 Hd); [apply world_ext_refl|done| | |].
  - intros q Hq. cbn [put_entry with_design y_builders y1 y_next] in *. destruct (decide (p = q)) as [<-|Hne]; [lia|].
    rewrite lookup_insert_ne in Hq by done. apply (dm_next _ _ Hd) in Hq. unfold p. lia.
  - intros j d q Hj Hjd Hdq. destruct (Forall2_lookup_l _ _ _ _ _ (dm_entries _ _ Hd) Hjd) as (a' & _ & [Hnow' _]).
    rewrite Hdq in Hnow'. destruct Hnow' as (_ & b' & Hb' & _). assert (q ≠ p) as Hqp by (apply Hold; by exists b').
    cbn [put_entry with_design y_builders y1 with_subnet e_builder]. split; [by rewrite lookup_insert_ne|congruence].
  - split; [|exact Hpts]. cbn [with_subnet e_builder e_subnetID put_entry with_design y_builders y1]. split; [done|].
    exists b. split; [apply lookup_insert_eq|done].
Qed.

Lemma setSubnetID_spec y ms i a id f : design_means y ms → ms !! i = Some a → id_means (y_world y) id (m_in a) (m_out a) f →
  ∃ y', setSubnetID i id y = Some ((), y') ∧ design_means y' (<[i := now f a]> ms) ∧ frame y y' 0.
Proof.
  intros Hd Ha Hid. destruct (design_entry y ms i a Hd Ha) as (e & He & [_ Hpts]).
  exists (put_entry i (with_subnet id None e) y). split; [apply setSubnetID_eval; [done|by eapply id_means_null]|].
  split; [|apply frame_put_entry, frame_refl]. eapply put_means; [done..| |done]. by split.
Qed.

Lemma setSubnetBuilder_spec y ms i a p b f : design_means y ms → ms !! i = Some a → y_builders y !! p = Some b →
  builder_means b (m_in a) (m_out a) f → (∀ j e, d_entries (y_design y) !! j = Some e → e_builder e ≠ Some p) →
  ∃ y', setSubnetBuilder i (Some p) y = Some ((), y') ∧ design_means y' (<[i := now f a]> ms) ∧ frame y y' 0.
Proof.
  intros Hd Ha Hp Hm Hfree. destruct (design_entry y ms i a Hd Ha) as (e & He & [_ Hpts]).
  exists (put_entry i (with_subnet OBJ_NULL_ID (Some p) e) y). split.
  { unfold setSubnetBuilder. by rewrite (bind_eval _ _ _ _ _ (getEntry_eval y i e He)). }
  split; [|apply frame_put_entry, frame_refl]. eapply put_means; [done..| |].
  - split; [|done]. cbn. split; [done|by exists b].
  - intros j d q _ Hj Hq. cbn. intros [= ->]. by eapply Hfree.
Qed.

(** The builder of an entry is edited through the pointer. *)
Definition edit_builder (i : nat) (b : SubnetBuilder) : st System unit :=
  e ← getEntry i;
  p ← st_read (λ _, e_builder e);
  st_modify (λ y, mkSystem (y_world y) (<[p := b]> (y_builders y)) (y_next y) (y_design y)).

Lemma edit_builder_spec y ms i a e p b f : design_means y ms → ms !! i = Some a → d_entries (y_design y) !! i = Some e →
  e_builder e = Some p → builder_means b (m_in a) (m_out a) f →
  ∃ y', edit_builder i b y = Some ((), y') ∧ design_means y' (<[i := now f a]> ms) ∧ frame y y' 0.
Proof.
  intros Hd Ha He Hp Hm. destruct (design_entry y ms i a Hd Ha) as (e0 & He0 & [Hnow Hpts]). assert (e0 = e) as -> by congruence.
  rewrite Hp in Hnow. destruct Hnow as (Hnull & b0 & Hb0 & _).
  exists (mkSystem (y_world y) (<[p := b]> (y_builders y)) (y_next y) (y_design y)). split.
  { unfold edit_builder. rewrite (bind_eval _ _ _ _ _ (getEntry_eval y i e He)).
    by rewrite (bind_eval (st_read _) _ y p y) by (unfold st_read; by rewrite Hp). }
  split; [|split; [apply world_ext_refl|done]].
  eapply (design_step y _ ms i e (now f a) 0 Hd); [apply world_ext_refl|by symmetry; apply list_insert_id| | |].
  - intros q Hq. cbn [y_builders y_next] in *. apply (dm_next _ _ Hd). destruct (decide (p = q)) as [<-|Hne]; [by exists b0|].
    by rewrite lookup_insert_ne in Hq.
  - intros j d q Hj Hjd Hdq. assert (q ≠ p) as Hne by (by eapply (other_pointer y ms i j e d p q)).
    cbn. rewrite lookup_insert_ne by done. split; [done|]. rewrite Hp. congruence.
  - split; [|exact Hpts]. rewrite Hp. cbn [now m_in m_out m_fun y_builders]. split; [done|]. exists b. by rewrite lookup_insert_eq.
Qed.

(** *** Check points *)

(** The check point is the function now, unless there is one of the name. *)
Definition saved (point : string) (a : Meaning) : Meaning :=
  mkMeaning (m_in a) (m_out a) (m_fun a)
    (match m_points a !! point with Some _ => m_points a | None => <[point := m_fun a]> (m_points a) end).

Definition rolled_back (point : string) (a : Meaning) : Meaning := now (default (m_fun a) (m_points a !! point)) a.

Lemma save_entry_spec y ms i a point : design_means y ms → ms !! i = Some a → subnet_room (y_world y) 1 →
  ∃ y', save_entry i point y = Some ((), y') ∧ design_means y' (<[i := saved point a]> ms) ∧ frame y y' 1.
Proof.
  intros Hd Ha Hr. destruct (design_entry y ms i a Hd Ha) as (e0 & He0 & _).
  destruct (getSubnetID_spec y ms i a Hd Ha Hr) as (id & y1 & E1 & Hd1 & Hf1 & Hid & e & He & Hes).
  destruct (design_entry y1 ms i a Hd1 Ha) as (e1 & He1 & [Hnow Hpts]).
  set (e' := mkSubnetEntry (if e_points e1 !! point then e_points e1 else <[point := id]> (e_points e1))
    (e_subnetID e1) (e_builder e1) (e_arcs e1) (e_arcToDesc e1) (e_PI e1) (e_PO e1)).
  exists (put_entry i e' y1). split.
  { unfold save_entry. rewrite (bind_eval _ _ _ _ _ (getEntry_eval y i e0 He0)), (bind_eval _ _ _ _ _ E1).
    by rewrite (bind_eval _ _ _ _ _ (getEntry_eval y1 i e1 He1)). }
  split; [|by apply frame_put_entry]. eapply put_means; [done..| |].
  - split; [exact Hnow|]. intros q. cbn [e' e_points saved m_points m_in m_out]. pose proof (Hpts point) as Hp. pose proof (Hpts q) as Hq.
    destruct (e_points e1 !! point) eqn:Ep, (m_points a !! point) eqn:Em; try done.
    destruct (decide (point = q)) as [<-|Hne]; [by rewrite !lookup_insert_eq|by rewrite !lookup_insert_ne].
  - intros j d q Hj Hjd Hdq. cbn. intros Hp. apply Hj. by eapply (dm_own _ _ Hd1).
Qed.

Lemma rollback_entry_spec y ms i a point : design_means y ms → ms !! i = Some a → is_Some (m_points a !! point) →
  ∃ y', rollback_entry i point y = Some ((), y') ∧ design_means y' (<[i := rolled_back point a]> ms) ∧ frame y y' 0.
Proof.
  intros Hd Ha [f Hf]. destruct (design_entry y ms i a Hd Ha) as (e & He & [Hnow Hpts]).
  pose proof (Hpts point) as Hp. rewrite Hf in Hp. destruct (e_points e !! point) as [id|] eqn:Ep; [|done].
  exists (put_entry i (with_subnet id None e) y). split.
  { unfold rollback_entry, getPointSubnetID. rewrite (bind_eval _ _ _ _ _ (getEntry_eval y i e He)).
    rewrite (bind_eval _ _ y id y); [done|]. rewrite (bind_eval _ _ _ _ _ (getEntry_eval y i e He)). unfold st_read. by rewrite Ep. }
  split; [|apply frame_put_entry, frame_refl]. eapply put_means; [done..| |done].
  unfold rolled_back. rewrite Hf. by split.
Qed.

(** *** Loops over the entries *)

Lemma frame_le y y' j k : frame y y' j → j ≤ k → frame y y' k.
Proof. intros [[W1 W2 W3] R] Hle. split; [split; [done|done|lia]|done]. Qed.

Lemma room_step y y' j k : frame y y' j → subnet_room (y_world y) (j + k) → subnet_room (y_world y') k.
Proof. intros [[_ _ Hl] _] Hr. unfold subnet_room in *. lia. Qed.

(** A loop that changes the entries one after the other. *)
Lemma entries_loop (F : nat → st System unit) (g : Meaning → Meaning) (ok : Meaning → Prop) :
  (∀ y ms i a, design_means y ms → ms !! i = Some a → ok a → subnet_room (y_world y) 1 →
    ∃ y', F i y = Some ((), y') ∧ design_means y' (<[i := g a]> ms) ∧ frame y y' 1) →
  ∀ post pre y, design_means y (pre ++ post) → Forall ok post → subnet_room (y_world y) (length post) →
  ∃ y', st_for (seq (length pre) (length post)) F y = Some ((), y') ∧ design_means y' (pre ++ map g post) ∧ frame y y' (length post).
Proof.
  intros HF. induction post as [|a post IH]; intros pre y Hd Hok Hr; [exists y; split; [done|split; [done|apply frame_refl]]|].
  apply list.Forall_cons in Hok as [Ha Hok]. cbn [length seq st_for] in *.
  destruct (HF y (pre ++ a :: post) (length pre) a Hd) as (y1 & E1 & Hd1 & Hf1); [by apply list_lookup_middle|done| |].
  { unfold subnet_room in *. lia. }
  rewrite insert_app_r_alt, Nat.sub_diag in Hd1 by lia. cbn [list_insert insert] in Hd1.
  destruct (IH (pre ++ [g a]) y1) as (y2 & E2 & Hd2 & Hf2); [by rewrite <- app_assoc|done|by apply (room_step y y1 1)|].
  rewrite length_app, Nat.add_1_r in E2. exists y2. split; [by rewrite (bind_eval _ _ _ _ _ E1)|].
  split; [by rewrite <- app_assoc in Hd2|]. by apply (frame_trans y y1 y2 1).
Qed.

Lemma all_entries (F : nat → st System unit) (g : Meaning → Meaning) (ok : Meaning → Prop) y ms :
  (∀ y ms i a, design_means y ms → ms !! i = Some a → ok a → subnet_room (y_world y) 1 →
    ∃ y', F i y = Some ((), y') ∧ design_means y' (<[i := g a]> ms) ∧ frame y y' 1) →
  design_means y ms → Forall ok ms → subnet_room (y_world y) (length ms) →
  ∃ y', (n ← st_read (λ y, Some (length (d_entries (y_design y)))); st_for (seq 0 n) F) y = Some ((), y') ∧
    design_means y' (map g ms) ∧ frame y y' (length ms).
Proof.
  intros HF Hd Hok Hr. destruct (entries_loop F g ok HF ms [] y Hd Hok Hr) as (y' & E & Hd' & Hf). exists y'.
  split; [|done]. rewrite (bind_eval (st_read _) _ y (length ms) y); [done|].
  unfold st_read. by rewrite (list.Forall2_length _ _ _ (dm_entries _ _ Hd)).
Qed.

Lemma makeSubnets_spec y ms : design_means y ms → subnet_room (y_world y) (length ms) →
  ∃ y', makeSubnets y = Some ((), y') ∧ design_means y' ms ∧ frame y y' (length ms).
Proof.
  intros Hd Hr. destruct (all_entries (λ i, e ← getEntry i;
    match e_builder e with Some p => id ← make_builder p; setSubnetID i id | None => mret () end) (λ a, a) (λ _, True) y ms)
    as (y' & E & Hd' & Hf); [|done|by apply list.Forall_true|done|].
  - clear y ms Hd Hr. intros y ms i a Hd Ha _ Hr. destruct (design_entry y ms i a Hd Ha) as (e & He & [Hnow _]).
    rewrite (bind_eval _ _ _ _ _ (getEntry_eval y i e He)). rewrite (same_meaning ms i a Ha).
    destruct (e_builder e) as [p|] eqn:Ep; [|exists y; split; [done|split; [done|apply frame_refl]]].
    destruct (make_entry y ms i e a p Hd Ha He Ep Hr) as (id & y1 & E1 & Hid & Hf & Hdes & Hd1).
    exists (put_entry i (with_subnet id None e) y1). split; [|split; [done|by apply frame_put_entry]].
    rewrite (bind_eval _ _ _ _ _ E1). apply setSubnetID_eval; [by rewrite Hdes|by eapply id_means_null].
  - rewrite map_id in Hd'. by exists y'.
Qed.

Lemma with_points_means y ms ps : design_means y ms → design_means (with_design (with_points ps (y_design y)) y) ms.
Proof. by intros [He Ho Hn]. Qed.

Lemma save_spec y ms point : design_means y ms → subnet_room (y_world y) (length ms) →
  ∃ y', save point y = Some ((), y') ∧ design_means y' (map (saved point) ms) ∧ frame y y' (length ms).
Proof.
  intros Hd Hr. destruct (all_entries (λ i, save_entry i point) (saved point) (λ _, True) y ms) as (y1 & E1 & Hd1 & Hf1);
    [|done|by apply list.Forall_true|done|].
  { clear y ms Hd Hr. intros y ms i a Hd Ha _ Hr. by apply save_entry_spec. }
  exists (if hasPoint point (y_design y1) then y1 else with_design (with_points (d_points (y_design y1) ++ [point]) (y_design y1)) y1).
  split; [|destruct (hasPoint point (y_design y1)); [done|split; [by apply with_points_means|by destruct Hf1]]].
  unfold save. rewrite (bind_eval (st_read _) _ y (length (d_entries (y_design y))) y) by done.
  rewrite (bind_eval (st_read _) _ y (length (d_entries (y_design y))) y) in E1 by done.
  by rewrite (bind_eval _ _ _ _ _ E1).
Qed.

Lemma rollback_spec y ms point : design_means y ms → Forall (λ a, is_Some (m_points a !! point)) ms → subnet_room (y_world y) (length ms) →
  ∃ y', rollback point y = Some ((), y') ∧ design_means y' (map (rolled_back point) ms) ∧ frame y y' (length ms).
Proof.
  intros Hd Hok Hr. eapply all_entries; [|done|exact Hok|done].
  clear y ms Hd Hr Hok. intros y ms i a Hd Ha Hok _. destruct (rollback_entry_spec y ms i a point Hd Ha Hok) as (y' & E & Hd' & Hf).
  exists y'. split; [done|]. split; [done|]. apply (frame_le _ _ 0); [done|lia].
Qed.

(** ** Sessions *)

(** What clients ask of a design; [REdit] is the work on the builder of an entry. *)
Inductive DesignRequest :=
  | RStore (s : Subnet)
  | RBuilder (b : SubnetBuilder)
  | RGetSubnet (i : nat)
  | RSetSubnet (i : nat) (id : Z)
  | RGetBuilder (i : nat)
  | RSetBuilder (i p : nat)
  | REdit (i : nat) (b : SubnetBuilder)
  | RMakeSubnets
  | RSave (point : string)
  | RSaveEntry (i : nat) (point : string)
  | RRollback (point : string)
  | RRollbackEntry (i : nat) (point : string).

Definition run_request (r : DesignRequest) : st System unit :=
  match r with
  | RStore s => on_world (subnet_new s);; mret ()
  | RBuilder b => new_builder b;; mret ()
  | RGetSubnet i => getSubnetID i;; mret ()
  | RSetSubnet i id => setSubnetID i id
  | RGetBuilder i => getSubnetBuilder i;; mret ()
  | RSetBuilder i p => setSubnetBuilder i (Some p)
  | REdit i b => edit_builder i b
  | RMakeSubnets => makeSubnets
  | RSave point => save point
  | RSaveEntry i point => save_entry i point
  | RRollback point => rollback point
  | RRollbackEntry i point => rollback_entry i point
  end.

(** What the request may be, and what it does to the meanings. *)
Definition request_means (y : System) (ms : list Meaning) (r : DesignRequest) (ms' : list Meaning) : Prop :=
  match r with
  | RStore _ | RBuilder _ | RMakeSubnets => ms' = ms
  | RGetSubnet i | RGetBuilder i => i < length ms ∧ ms' = ms
  | RSetSubnet i id => ∃ a f, ms !! i = Some a ∧ id_means (y_world y) id (m_in a) (m_out a) f ∧ ms' = <[i := now f a]> ms
  | RSetBuilder i p => ∃ a b f, ms !! i = Some a ∧ y_builders y !! p = Some b ∧ builder_means b (m_in a) (m_out a) f ∧
      (∀ j e, d_entries (y_design y) !! j = Some e → e_builder e ≠ Some p) ∧ ms' = <[i := now f a]> ms
  | REdit i b => ∃ a e p f, ms !! i = Some a ∧ d_entries (y_design y) !! i = Some e ∧ e_builder e = Some p ∧
      builder_means b (m_in a) (m_out a) f ∧ ms' = <[i := now f a]> ms
  | RSave point => ms' = map (saved point) ms
  | RSaveEntry i point => ∃ a, ms !! i = Some a ∧ ms' = <[i := saved point a]> ms
  | RRollback point => Forall (λ a, is_Some (m_points a !! point)) ms ∧ ms' = map (rolled_back point) ms
  | RRollbackEntry i point => ∃ a, ms !! i = Some a ∧ is_Some (m_points a !! point) ∧ ms' = <[i := rolled_back point a]> ms
  end.

(** There is room for the subnets that a request may store. *)
Definition request_room (y : System) : Prop := subnet_room (y_world y) (S (length (d_entries (y_design y)))).

Inductive session (y0 : System) (ms0 : list Meaning) : System → list Meaning → Prop :=
  | session_start : session y0 ms0 y0 ms0
  | session_step y ms r y' ms' : session y0 ms0 y ms → request_room y → request_means y ms r ms' →
      run_request r y = Some ((), y') → session y0 ms0 y' ms'.

Lemma means_length y ms : design_means y ms → length (d_entries (y_design y)) = length ms.
Proof. intros Hd. apply (list.Forall2_length _ _ _ (dm_entries _ _ Hd)). Qed.

Lemma store_means y ms w k : design_means y ms → world_ext (y_world y) w k → design_means (with_world w y) ms.
Proof.
  intros [He Ho Hn] Hw. split; [|done|done]. cbn. eapply list.Forall2_impl; [exact He|]. intros e a [H1 H2]. split.
  - destruct (e_builder e); [done|by eapply id_means_ext].
  - intros q. specialize (H2 q). destruct (e_points e !! q), (m_points a !! q); try done. by eapply id_means_ext.
Qed.

Lemma new_builder_means y ms b : design_means y ms →
  design_means (mkSystem (y_world y) (<[y_next y := b]> (y_builders y)) (S (y_next y)) (y_design y)) ms.
Proof.
  intros [He Ho Hn]. split; [|done|].
  - cbn. eapply list.Forall2_impl; [exact He|]. intros e a [H1 H2]. split; [|done]. destruct (e_builder e) as [p|]; [|done].
    destruct H1 as (E & b' & Hb & Hm). split; [done|]. exists b'. split; [|done]. rewrite lookup_insert_ne; [done|].
    intros <-. specialize (Hn (y_next y) ltac:(by exists b')). lia.
  - intros p. cbn. intros Hp. destruct (decide (y_next y = p)) as [<-|Hne]; [lia|]. rewrite lookup_insert_ne in Hp by done.
    specialize (Hn p Hp). lia.
Qed.

(** Every request that is allowed ends, and has its effect on the meanings. *)
Lemma request_ends y ms r ms' : design_means y ms → request_room y → request_means y ms r ms' →
  ∃ y', run_request r y = Some ((), y') ∧ design_means y' ms' ∧ frame y y' (S (length ms)).
Proof.
  intros Hd Hr Hm. unfold request_room in Hr. rewrite (means_length y ms Hd) in Hr.
  assert (subnet_room (y_world y) 1) as Hr1 by (unfold subnet_room in *; lia).
  assert (subnet_room (y_world y) (length ms)) as Hrn by (unfold subnet_room in *; lia).
  assert (∀ k y', k ≤ S (length ms) → frame y y' k → frame y y' (S (length ms))) as Hle by (intros; by eapply frame_le).
  destruct r; cbn [request_means run_request] in *.
  - subst. destruct (subnet_new_spec (y_world y) s Hr1) as (id & w & E & Hw & _). exists (with_world w y).
    split; [by rewrite (bind_eval (on_world _) _ y id (with_world w y)) by (unfold on_world; by rewrite E)|].
    split; [by eapply store_means|]. apply (Hle 1); [lia|by split].
  - subst. eexists. split; [done|]. split; [by apply new_builder_means|]. apply (Hle 0); [lia|]. split; [apply world_ext_refl|done].
  - destruct Hm as [Hi ->]. destruct (lookup_lt_is_Some_2 ms i Hi) as [a Ha].
    destruct (getSubnetID_spec y ms i a Hd Ha Hr1) as (id & y' & E & Hd' & Hf & _). exists y'.
    split; [by rewrite (bind_eval _ _ _ _ _ E)|]. split; [done|]. apply (Hle 1); [lia|done].
  - destruct Hm as (a & f & Ha & Hid & ->). destruct (setSubnetID_spec y ms i a id f Hd Ha Hid) as (y' & E & Hd' & Hf).
    exists y'. split; [done|]. split; [done|]. apply (Hle 0); [lia|done].
  - destruct Hm as [Hi ->]. destruct (lookup_lt_is_Some_2 ms i Hi) as [a Ha].
    destruct (getSubnetBuilder_spec y ms i a Hd Ha) as (p & y' & e & E & Hd' & Hf & _). exists y'.
    split; [by rewrite (bind_eval _ _ _ _ _ E)|]. split; [done|]. apply (Hle 0); [lia|done].
  - destruct Hm as (a & b & f & Ha & Hp & Hb & Hfree & ->).
    destruct (setSubnetBuilder_spec y ms i a p b f Hd Ha Hp Hb Hfree) as (y' & E & Hd' & Hf).
    exists y'. split; [done|]. split; [done|]. apply (Hle 0); [lia|done].
  - destruct Hm as (a & e & p & f & Ha & He & Hp & Hb & ->).
    destruct (edit_builder_spec y ms i a e p b f Hd Ha He Hp Hb) as (y' & E & Hd' & Hf).
    exists y'. split; [done|]. split; [done|]. apply (Hle 0); [lia|done].
  - subst. destruct (makeSubnets_spec y ms Hd Hrn) as (y' & E & Hd' & Hf). exists y'. split; [done|]. split; [done|].
    apply (Hle (length ms)); [lia|done].
  - subst. destruct (save_spec y ms point Hd Hrn) as (y' & E & Hd' & Hf). exists y'. split; [done|]. split; [done|].
    apply (Hle (length ms)); [lia|done].
  - destruct Hm as (a & Ha & ->). destruct (save_entry_spec y ms i a point Hd Ha Hr1) as (y' & E & Hd' & Hf).
    exists y'. split; [done|]. split; [done|]. apply (Hle 1); [lia|done].
  - destruct Hm as (Hok & ->). destruct (rollback_spec y ms point Hd Hok Hrn) as (y' & E & Hd' & Hf).
    exists y'. split; [done|]. split; [done|]. apply (Hle (length ms)); [lia|done].
  - destruct Hm as (a & Ha & Hp & ->). destruct (rollback_entry_spec y ms i a point Hd Ha Hp) as (y' & E & Hd' & Hf).
    exists y'. split; [done|]. split; [done|]. apply (Hle 0); [lia|done].
Qed.

Lemma session_means y0 ms0 y ms : design_means y0 ms0 → session y0 ms0 y ms → design_means y ms ∧
  d_result (y_design y) = d_result (y_design y0) ∧ w_net (y_world y) = w_net (y_world y0).
Proof.
  intros Hd0. induction 1 as [|y ms r y' ms' _ (Hd & Hres & Hnet) Hr Hm E]; [done|].
  destruct (request_ends y ms r ms' Hd Hr Hm) as (y'' & E' & Hd' & [[Hn _ _] Hres']). rewrite E in E'. injection E' as <-.
  split_all; [done|congruence|congruence].
Qed.

(** ** The design of a subnet *)

Lemma find_connection_spec s ty cell (L : list (NetLink * nat)) : (∀ p, p ∈ L → is_Some (Nets.get s (cell p.1))) →
  ∃ r, find_connection s ty cell L = Some r ∧ ∀ j, r = Some j → ∃ l, (l, j) ∈ L.
Proof.
  induction L as [|[l j] L IH]; intros HL; [by exists None|]. destruct (HL (l, j)) as [c Hc]; [by constructor|].
  cbn [find_connection]. cbn [fst] in Hc. rewrite Hc. cbn [mbind option_bind]. case_bool_decide.
  - exists (Some j). split; [done|]. intros j' [= ->]. exists l. by constructor.
  - destruct IH as (r & E & Hr); [intros p Hp; apply HL; by constructor|]. exists r. split; [done|].
    intros j' Hj. destruct (Hr j' Hj) as [l' Hl']. exists l'. by constructor.
Qed.

(** One subnet, and every arc has a descriptor. *)
Definition arcs_ok (a : Arcs) : Prop := ∃ arcs descs, a = ([arcs], [descs]) ∧ ∀ arc, arc ∈ arcs → is_Some (descs !! arc).

Lemma addBoundaryArc_spec d arc linking a : arcs_ok a → (∀ j, linking = Some j → is_Some (sd_entries d !! j)) →
  ∃ a', addBoundaryArc 0 d arc linking a = Some ((), a') ∧ arcs_ok a'.
Proof.
  intros (arcs & descs & -> & Ha) Hl. destruct linking as [j|]; [|by exists ([arcs], [descs]); split; [|exists arcs, descs]].
  destruct (Hl j eq_refl) as [desc Hdesc]. cbn [addBoundaryArc].
  rewrite (bind_eval (st_read _) _ _ desc ([arcs], [descs])) by (unfold st_read; by rewrite Hdesc).
  eexists. split; [done|]. eexists _, _. split; [done|]. intros arc' Hin. destruct (decide (arc = arc')) as [<-|Hne]; [by rewrite lookup_insert_eq|].
  rewrite lookup_insert_ne by done. apply Ha. set_solver.
Qed.

Section Single.
Context (w : World) (r : Result) (d : SubnetDesc) (sn : Subnet).
Context (Hds : describes w r d) (Hsn : subnet_get w (sd_subnetID d) = Some sn).
Context (Hli : length (r_inputs r) = sn_nIn sn) (Hlo : length (r_outputs r) = sn_nOut sn) (Hsz : m_size (sd_mapping d) = Net.size sn).
Context (Hei : ∀ j, j < sn_nIn sn → is_Some (sd_entries d !! j)).
Context (Heo : ∀ j, j < sn_nOut sn → sd_entries d !! Net.getOutIdx sn j = Some data_entry).
Context (Hsmall : (Z.of_nat (sn_nOut sn) < 2 ^ 16)%Z).

Lemma bound_key sym n ids id : Forall (bound_cell sym n (w_net w)) ids → id ∈ ids →
  ∃ c, Nets.get (w_net w) id = Some c ∧ getCellID (LinkEnd id 0) = id.
Proof using.
  intros Hb Hid. rewrite list.Forall_forall in Hb. destruct (Hb id Hid) as (k & c & -> & Hk & Hc & _). exists c.
  split; [by apply get_fid|]. by destruct (end_zero k Hk) as (_ & _ & _ & _ & ?).
Qed.

Lemma getPI_spec : ∃ pi, getPIConnectionEntry (w_net w) d = Some pi ∧ ∀ j, pi = Some j → is_Some (sd_entries d !! j).
Proof using Hds Hli Hei.
  assert (∀ p, p ∈ visit (map_to_list (m_inputs (sd_mapping d))) → ∃ j id, r_inputs r !! j = Some id ∧ p = (in_key id, j)) as Hv.
  { intros p. rewrite visit_perm, (mi_ins _ _ _ (ds_maps _ _ _ Hds)). apply in_imap_iff. }
  destruct (find_connection_spec (w_net w) (GateID IN) (λ l, getCellID l.1) (visit (map_to_list (m_inputs (sd_mapping d))))) as (pi & E & Hpi).
  - intros p Hp. destruct (Hv p Hp) as (j & id & Hid & ->). apply list_elem_of_lookup_2 in Hid.
    destruct (bound_key IN 0 (r_inputs r) id (ds_ins _ _ _ Hds) Hid) as (c & Hc & E). cbn. rewrite E, Hc. by eexists.
  - exists pi. split; [exact E|]. intros j Hj. destruct (Hpi j Hj) as [l Hl]. destruct (Hv _ Hl) as (j' & id & Hid & [= -> <-]).
    apply Hei. rewrite <- Hli. by eapply lookup_lt_Some.
Qed.

Lemma getPO_spec : ∃ po, getPOConnectionEntry (w_net w) d = Some po ∧ ∀ j, po = Some j → is_Some (sd_entries d !! j).
Proof using Hds Hlo Hsz Heo.
  assert (∀ p, p ∈ visit (map_to_list (m_outputs (sd_mapping d))) →
    ∃ j id, r_outputs r !! j = Some id ∧ p = (out_key id, m_size (sd_mapping d) - length (r_outputs r) + j)) as Hv.
  { intros p. rewrite visit_perm, (mi_outs _ _ _ (ds_maps _ _ _ Hds)).
    apply (in_imap_iff (λ j id, (out_key id, m_size (sd_mapping d) - length (r_outputs r) + j))). }
  destruct (find_connection_spec (w_net w) (GateID OUT) (λ l, getCellID l.2) (visit (map_to_list (m_outputs (sd_mapping d))))) as (po & E & Hpo).
  - intros p Hp. destruct (Hv p Hp) as (j & id & Hid & ->). apply list_elem_of_lookup_2 in Hid.
    destruct (bound_key OUT 1 (r_outputs r) id (ds_outs _ _ _ Hds) Hid) as (c & Hc & E). cbn. rewrite E, Hc. by eexists.
  - exists po. split; [exact E|]. intros j Hj. destruct (Hpo j Hj) as [l Hl]. destruct (Hv _ Hl) as (j' & id & Hid & [= -> ->]).
    rewrite Hsz, Hlo. specialize (Heo j'). unfold Net.getOutIdx in Heo. rewrite Heo; [by eexists|]. rewrite <- Hlo. by eapply lookup_lt_Some.
Qed.

Lemma output_arcs_spec ffs j a : arcs_ok a → j < sn_nOut sn → ∃ a', output_arcs w ffs 0 d sn j a = Some ((), a') ∧ arcs_ok a'.
Proof using Hds Hli Hlo Hsz Hei Heo.
  intros Ha Hj. destruct getPI_spec as (pi & Epi & Hpi). destruct getPO_spec as (po & Epo & Hpo). unfold output_arcs.
  rewrite (bind_eval (st_read _) _ a data_entry a) by (unfold st_read; by rewrite Heo).
  rewrite (bind_eval (st_read _) _ a pi a) by (unfold st_read; by rewrite Epi).
  rewrite (bind_eval (st_read _) _ a po a) by (unfold st_read; by rewrite Epo).
  destruct (addBoundaryArc_spec d PISubnetEntryIdx pi a Ha Hpi) as (a1 & E1 & Ha1). rewrite (bind_eval _ _ _ _ _ E1).
  destruct (addBoundaryArc_spec d POSubnetEntryIdx po a1 Ha1 Hpo) as (a2 & E2 & Ha2). rewrite (bind_eval _ _ _ _ _ E2).
  by exists a2.
Qed.

Lemma arcs_loop ffs : ∀ len j a, arcs_ok a → j + len ≤ sn_nOut sn →
  ∃ a', st_for (seq j len) (output_arcs w ffs 0 d sn) a = Some ((), a') ∧ arcs_ok a'.
Proof using Hds Hli Hlo Hsz Hei Heo.
  induction len as [|len IH]; intros j a Ha Hle; [by exists a|]. cbn [seq st_for].
  destruct (output_arcs_spec ffs j a Ha) as (a1 & E1 & Ha1); [lia|]. rewrite (bind_eval _ _ _ _ _ E1). by apply IH; [|lia].
Qed.

Lemma newEntry_spec id arcs descs : (∀ arc, arc ∈ arcs → is_Some (descs !! arc)) →
  ∃ e, newEntry id arcs descs = Some e ∧ e_points e = ∅ ∧ e_subnetID e = id ∧ e_builder e = None.
Proof using.
  intros Ha. unfold newEntry. assert (∀ arc, arc ∈ visit (elements arcs) → is_Some (descs !! arc)) as Hv.
  { intros arc. rewrite visit_perm, elem_of_elements. apply Ha. }
  revert Hv. generalize (visit (elements arcs)) as l. intros l Hv.
  assert (∀ e0, e_points e0 = ∅ ∧ e_subnetID e0 = id ∧ e_builder e0 = None →
    ∃ e, foldl (λ e arc, e ← e; addArc descs arc e) (Some e0) l = Some e ∧ e_points e = ∅ ∧ e_subnetID e = id ∧ e_builder e = None) as Hf;
    [|by apply Hf].
  induction l as [|arc l IH]; intros e0 He0; [by exists e0|]. cbn [foldl mbind option_bind].
  destruct (Hv arc) as [desc Hd]; [by constructor|]. unfold addArc at 2. rewrite Hd. cbn [mbind option_bind].
  apply IH; [intros x Hx; apply Hv; by constructor|]. by destruct (arc =? PISubnetEntryIdx)%Z, (arc =? POSubnetEntryIdx)%Z.
Qed.

Lemma make_entries_spec : ∃ e, make_entries w r = Some [e] ∧ e_points e = ∅ ∧ e_subnetID e = sd_subnetID d ∧ e_builder e = None.
Proof using All.
  unfold make_entries, setAdjList, findFlipFlopPIs, findArcs. rewrite (ds_subnets _ _ _ Hds).
  assert (is_Some (mapM (λ inN, sd_entries d !! Net.getInIdx sn inN) (seq 0 (sn_nIn sn)))) as [descs Hdescs].
  { apply mapM_is_Some_2. apply list.Forall_forall. intros j Hj. apply elem_of_seq in Hj. unfold Net.getInIdx. apply Hei. lia. }
  assert (flipFlopPIs_of w d = Some (list_to_set (flipFlopID <$> filter (λ e, flipFlop e = true) descs))) as Hffs.
  { unfold flipFlopPIs_of. rewrite Hsn. cbn [mbind option_bind]. by rewrite Hdescs. }
  cbn [mapM]. rewrite Hffs. cbn [mbind option_bind mret option_ret]. change (mapM ?f []) with (Some (@nil (gset Z))). cbn [mbind option_bind].
  cbn [imap length replicate st_for]. set (ffs := [_]).
  destruct (arcs_loop ffs (sn_nOut sn) 0 ([∅], [∅])) as (a & E & arcs & ds & -> & Ha); [by exists ∅, ∅|lia|].
  erewrite bind_eval.
  2:{ rewrite (bind_eval (st_read _) _ _ sn _) by (unfold st_read; by rewrite Hsn).
      rewrite (bind_eval (st_assert _) _ _ () ([∅], [∅])) by (unfold st_assert; by rewrite bool_decide_eq_true_2 by lia). exact E. }
  cbn [mbind option_bind]. unfold mret, st_ret. cbn [mbind option_bind].
  destruct (newEntry_spec (sd_subnetID d) arcs ds Ha) as (e & Ee & He). exists e. split; [|done].
  unfold setEntries. rewrite (ds_subnets _ _ _ Hds). cbn. by rewrite Ee.
Qed.
End Single.

(** ** The nets of designs *)

Lemma tidy_small s : tidy s = true → small s.
Proof.
  intros (_ & Hc & _)%tidy_parts i ls Hl. unfold Net.getLinks in Hl. apply bind_Some in Hl as (c & Hd & Hl).
  apply length_mapM in Hl. rewrite length_seq in Hl. pose proof (copy_ready_cell s i c Hc Hd) as Hcc. unfold copy_cell in Hcc.
  rewrite !andb_true_iff, Nat.leb_le in Hcc. unfold InPlaceLinks, MaxArity in *. lia.
Qed.

(** The numbers that the cells of a net take. *)
Definition net_cost (s : Subnet) : nat := 2 * sn_nIn s + 2 * sn_nOut s + subnet_cost s.

(** There are numbers for the cells of the net of a subnet. *)
Definition net_room (y : System) (id : Z) : Prop :=
  ∀ s, subnet_get (y_world y) id = Some s → (Nets.cellSID (w_net (y_world y)) + Z.of_nat (net_cost s) < 2 ^ 32)%Z.

(** The design is of a single subnet with [n] inputs and [m] outputs. *)
Record single (y : System) (d : SubnetDesc) (n m : nat) : Prop := {
  sg_cells : cells_stored (w_net (y_world y));
  sg_describes : describes (y_world y) (d_result (y_design y)) d;
  sg_ins : length (r_inputs (d_result (y_design y))) = n;
  sg_outs : length (r_outputs (d_result (y_design y))) = m;
}.

Lemma single_same y y' d n m : d_result (y_design y') = d_result (y_design y) → w_net (y_world y') = w_net (y_world y) →
  single y d n m → single y' d n m.
Proof.
  intros Hr Hn [H1 [D1 D2 D3 D4 D5] H3 H4]. split; rewrite ?Hr, ?Hn; try done. split; rewrite ?Hr, ?Hn; done.
Qed.

(** Composition after the subnet has been set. *)
Lemma compose_single y d n m id f : single y d n m → id_means (y_world y) id n m f → net_room y id →
  ∃ y1 net y2, st_update (set_result 0 id) y = Some ((), y1) ∧
    on_world (Decomposer.compose (d_result (y_design y1))) y1 = Some (net, y2) ∧ net_implements (w_net (y_world y2)) net n f.
Proof.
  intros [Hc [D1 D2 D3 D4 D5] Hi Ho] (s & Hs & Ht & Hm & Himp) Hroom. specialize (Hroom s Hs). set (r := d_result (y_design y)) in *.
  set (d' := mkSubnetDesc id (sd_mapping d) (sd_entries d)). set (r' := mkResult (r_inputs r) (r_outputs r) [d']).
  set (y1 := with_design (with_result r' (y_design y)) y). pose proof (proj1 Himp) as Hn.
  destruct (compose_one (y_world y) r' d' s n f) as (net & w & E & Hni & _).
  { done. }
  { by split. }
  { done. }
  { by apply tidy_parts in Ht as (? & _). }
  { by apply tidy_small. }
  { cbn. congruence. }
  { cbn. congruence. }
  { done. }
  { unfold room, net_cost in *. lia. }
  exists y1, net, (with_world w y1). split_all; [|unfold on_world; cbn [y1 with_design y_design with_result d_result y_world]; by rewrite E|done].
  unfold st_update, set_result. fold r. rewrite D1. done.
Qed.

Lemma makeNet_spec y d a : design_means y [a] → single y d (m_in a) (m_out a) → subnet_room (y_world y) 1 →
  (∀ id y1, getSubnetID 0 y = Some (id, y1) → net_room y1 id) →
  ∃ net y', makeNet y = Some (net, y') ∧ net_implements (w_net (y_world y')) net (m_in a) (m_fun a).
Proof.
  intros Hd Hs Hr Hfit. destruct (getSubnetID_spec y [a] 0 a Hd eq_refl Hr) as (id & y1 & E1 & Hd1 & [Hw1 Hr1] & Hid & _).
  pose proof (single_same y y1 d _ _ Hr1 (we_net _ _ _ Hw1) Hs) as Hs1.
  destruct (compose_single y1 d _ _ id (m_fun a) Hs1 Hid (Hfit id y1 E1)) as (y2 & net & y3 & E2 & E3 & Hni).
  exists net, y3. split; [|done]. unfold makeNet. rewrite (bind_eval updateSubnets _ y () y2).
  - by rewrite (bind_eval (st_read _) _ y2 (d_result (y_design y2)) y2) by done.
  - unfold updateSubnets. rewrite (bind_eval (st_read _) _ y 1 y) by (unfold st_read; by rewrite (means_length y [a] Hd)).
    cbn [seq st_for]. rewrite (bind_eval _ _ y () y2); [done|]. by rewrite (bind_eval _ _ _ _ _ E1).
Qed.

Lemma makePointNet_spec y d a point f : design_means y [a] → single y d (m_in a) (m_out a) → m_points a !! point = Some f →
  (∀ id, getPointSubnetID 0 point y = Some (id, y) → net_room y id) →
  ∃ net y', makePointNet point y = Some (net, y') ∧ net_implements (w_net (y_world y')) net (m_in a) f.
Proof.
  intros Hd Hs Hp Hfit. destruct (design_entry y [a] 0 a Hd eq_refl) as (e & He & [_ Hpts]). specialize (Hpts point). rewrite Hp in Hpts.
  destruct (e_points e !! point) as [id|] eqn:Ep; [|done].
  assert (getPointSubnetID 0 point y = Some (id, y)) as E1.
  { unfold getPointSubnetID. rewrite (bind_eval _ _ _ _ _ (getEntry_eval y 0 e He)). unfold st_read. by rewrite Ep. }
  destruct (compose_single y d _ _ id f Hs Hpts (Hfit id E1)) as (y2 & net & y3 & E2 & E3 & Hni).
  exists net, y3. split; [|done]. unfold makePointNet. rewrite (bind_eval (updatePointSubnets point) _ y () y2).
  - by rewrite (bind_eval (st_read _) _ y2 (d_result (y_design y2)) y2) by done.
  - unfold updatePointSubnets. rewrite (bind_eval (st_read _) _ y 1 y) by (unfold st_read; by rewrite (means_length y [a] Hd)).
    cbn [seq st_for]. rewrite (bind_eval _ _ y () y2); [done|]. by rewrite (bind_eval _ _ _ _ _ E1).
Qed.

(** The design of a stored subnet. *)
Lemma design_of_subnet_spec w id s n m f name : cells_stored (w_net w) → subnet_get w id = Some s → subnet_means s n m f →
  (Z.of_nat m < 2 ^ 16)%Z → (Nets.cellSID (w_net w) + Z.of_nat (n + m) < 2 ^ 32)%Z →
  ∃ d w1 sd, design_of_subnet name id w = Some (d, w1) ∧ design_means (system_of w1 d) [mkMeaning n m f ∅] ∧
    single (system_of w1 d) sd n m ∧ w_subnets w1 = w_subnets w.
Proof.
  intros Hc Hs Hmean Hm16 Hroom. pose proof Hmean as (Ht & Hm & Hi). pose proof (proj1 Hi) as Hn.
  apply tidy_parts in Ht as (Hw & _). pose proof (wf_sizes s Hw) as Hsz.
  destruct (describe_subnet w id s Hc Hs) as (r & w1 & sd & E & Hsub & Hc1 & _ & Hds & Hid & Hli & Hlo & Hms & Hei & Heo);
    [lia|by rewrite Hn, Hm|].
  assert (subnet_get w1 (sd_subnetID sd) = Some s) as Hs1 by (unfold subnet_get in *; by rewrite Hid, Hsub).
  destruct (make_entries_spec w1 r sd s Hds Hs1 Hli Hlo Hms Hei Heo) as (e & Ee & Hpts & Hsid & Hbu); [by rewrite Hm|].
  eexists _, w1, sd. split; [|split; [|split; [|done]]].
  - unfold design_of_subnet, initialize_subnet.
    assert ((id =? OBJ_NULL_ID)%Z = false) as Hnn by (unfold subnet_get in Hs; by destruct (id =? OBJ_NULL_ID)%Z).
    rewrite (bind_eval (st_assert _) _ w () w) by (unfold st_assert; by rewrite Hnn).
    rewrite (bind_eval (st_read _) _ w s w) by (unfold st_read; by rewrite Hs).
    rewrite (bind_eval _ _ _ _ _ E). rewrite (bind_eval (st_read _) _ w1 [e] w1) by (unfold st_read; by rewrite Ee). reflexivity.
  - split.
    + constructor; [|constructor]. split; cbn.
      * rewrite Hbu, Hsid. exists s. by split.
      * intros point. by rewrite Hpts, !lookup_empty.
    + intros [|i] [|j] e1 e2 p H1 H2; cbn in *; by try done.
    + intros p Hp. cbn in Hp. by destruct Hp.
  - split; cbn [system_of y_world y_design d_result]; [done|done|congruence|congruence].
Qed.

Lemma session_sizes y0 ms0 y ms : session y0 ms0 y ms → map (λ a, (m_in a, m_out a)) ms = map (λ a, (m_in a, m_out a)) ms0.
Proof.
  assert (∀ (ms : list Meaning) i a a', ms !! i = Some a → (m_in a', m_out a') = (m_in a, m_out a) →
    map (λ a, (m_in a, m_out a)) (<[i := a']> ms) = map (λ a, (m_in a, m_out a)) ms) as Hins.
  { intros l i a a' Ha E. change (map ?f ?x) with (f <$> x). rewrite list_fmap_insert. apply list_insert_id.
    by rewrite list_lookup_fmap, Ha, E. }
  induction 1 as [|y ms r y' ms' _ IH _ Hm _]; [done|]. rewrite <- IH.
  destruct r; cbn [request_means] in Hm; subst; try done; try by destruct Hm as [_ ->].
  - destruct Hm as (a & f & Ha & _ & ->). by eapply Hins.
  - destruct Hm as (a & b & f & Ha & _ & _ & _ & ->). by eapply Hins.
  - destruct Hm as (a & e & p & f & Ha & _ & _ & _ & ->). by eapply Hins.
  - by rewrite map_map.
  - destruct Hm as (a & Ha & ->). by eapply Hins.
  - destruct Hm as (_ & ->). by rewrite map_map.
  - destruct Hm as (a & Ha & _ & ->). by eapply Hins.
Qed.

(** ** Theorems *)

(** C6 A design refines its meaning: from a design whose entries mean functions,
    in every state of a session, each request that is allowed ends without a failed
    assertion, and the entries then mean what the request says: reading, copying
    and making keep the function, a replaced subnet or an edited builder brings
    its own, [save] keeps the function under the name if it is new, [rollback]
    brings it back. *)
Theorem design_refined y0 ms0 y ms r ms' : design_means y0 ms0 → session y0 ms0 y ms →
  request_room y → request_means y ms r ms' →
  ∃ y', run_request r y = Some ((), y') ∧ design_means y' ms' ∧ session y0 ms0 y' ms'.
Proof.
  intros Hd Hs Hr Hm. destruct (session_means _ _ _ _ Hd Hs) as (Hd' & _).
  destruct (request_ends y ms r ms' Hd' Hr Hm) as (y' & E & Hd'' & _). exists y'. split_all; [done|done|by eapply session_step].
Qed.

(** C5 The net of a design computes its meaning: the design of a well-formed subnet
    is made, and after any session the net that [make] composes has at its outputs
    the function that the entry means then, whatever the subnets and builders were
    that carried it; the net of a check point has the function of the check point. *)
Theorem design_net_right w id s n m f name : cells_stored (w_net w) → subnet_get w id = Some s → subnet_means s n m f →
  (Z.of_nat m < 2 ^ 16)%Z → (Nets.cellSID (w_net w) + Z.of_nat (n + m) < 2 ^ 32)%Z →
  ∃ d w1, design_of_subnet name id w = Some (d, w1) ∧
    ∀ y a, session (system_of w1 d) [mkMeaning n m f ∅] y [a] → subnet_room (y_world y) 1 →
      ((∀ id y1, getSubnetID 0 y = Some (id, y1) → net_room y1 id) →
        ∃ net y', makeNet y = Some (net, y') ∧ net_implements (w_net (y_world y')) net n (m_fun a)) ∧
      ∀ point g, m_points a !! point = Some g → (∀ id, getPointSubnetID 0 point y = Some (id, y) → net_room y id) →
        ∃ net y', makePointNet point y = Some (net, y') ∧ net_implements (w_net (y_world y')) net n g.
Proof.
  intros Hc Hs Hmean Hm Hroom. destruct (design_of_subnet_spec w id s n m f name Hc Hs Hmean Hm Hroom) as (d & w1 & sd & E & Hd & Hsg & _).
  exists d, w1. split; [done|]. intros y a Hsess Hr. destruct (session_means _ _ _ _ Hd Hsess) as (Hd' & Hres & Hnet).
  pose proof (session_sizes _ _ _ _ Hsess) as Hsz. injection Hsz as Hn Hmm.
  pose proof (single_same _ y sd n m Hres Hnet Hsg) as Hsg'. rewrite <- Hn, <- Hmm in Hsg'. rewrite <- Hn. split.
  - intros Hfit. by eapply makeNet_spec.
  - intros point g Hg Hfit. by eapply makePointNet_spec.
Qed.

(** *** Check points stay *)

Definition points_kept (y y' : System) : Prop := ∀ i e point id, d_entries (y_design y) !! i = Some e → e_points e !! point = Some id →
  ∃ e', d_entries (y_design y') !! i = Some e' ∧ e_points e' !! point = Some id.

#[global] Instance points_kept_preorder : PreOrder points_kept.
Proof.
  split; [intros y i e point id He Hp; by exists e|]. intros y1 y2 y3 H12 H23 i e point id He Hp.
  destruct (H12 i e point id He Hp) as (e2 & He2 & Hp2). by apply (H23 i e2).
Qed.

Definition keeps_points {A} (m : st System A) : Prop := ∀ y a y', m y = Some (a, y') → points_kept y y'.

Lemma keeps_bind {A B} (m : st System A) (k : A → st System B) : keeps_points m → (∀ a, keeps_points (k a)) → keeps_points (a ← m; k a).
Proof.
  intros Hm Hk y b y' E. apply bind_Some_iff in E as (a & y1 & E1 & E2). etransitivity; [by eapply Hm|by eapply Hk].
Qed.

Lemma keeps_same {A} (m : st System A) : (∀ y a y', m y = Some (a, y') → d_entries (y_design y') = d_entries (y_design y)) → keeps_points m.
Proof. intros Hm y a y' E i e point id He Hp. exists e. by rewrite (Hm y a y' E). Qed.

Lemma keeps_read {A} (f : System → option A) : keeps_points (st_read f).
Proof. apply keeps_same. intros y a y' E. unfold st_read in E. destruct (f y); [|done]. by injection E as _ <-. Qed.

Lemma keeps_ret {A} (a : A) : keeps_points (mret a).
Proof. apply keeps_same. intros y b y' E. by injection E as _ <-. Qed.

Lemma keeps_for {A} (F : A → st System unit) (xs : list A) : (∀ x, keeps_points (F x)) → keeps_points (st_for xs F).
Proof. intros HF. induction xs as [|x xs IH]; cbn [st_for]; [apply keeps_ret|]. by apply keeps_bind. Qed.

(** An entry is replaced by one that has its points. *)
Lemma keeps_put y i e e' : d_entries (y_design y) !! i = Some e → (∀ point id, e_points e !! point = Some id → e_points e' !! point = Some id) →
  points_kept y (put_entry i e' y).
Proof.
  intros He Hp j d point id Hj Hd. rewrite put_entry_design. destruct (decide (i = j)) as [<-|Hne].
  - assert (d = e) as -> by congruence. exists e'. split; [apply list_lookup_insert_eq; by eapply lookup_lt_Some|by apply Hp].
  - exists d. by rewrite list_lookup_insert_ne.
Qed.

Lemma keeps_modify i (g : SubnetEntry → SubnetEntry) : (∀ e point id, e_points e !! point = Some id → e_points (g e) !! point = Some id) →
  keeps_points (e ← getEntry i; putEntry i (g e)).
Proof.
  intros Hg y [] y' E. apply bind_Some_iff in E as (e & y1 & E1 & E2). unfold getEntry, st_read in E1.
  destruct (d_entries (y_design y) !! i) as [e0|] eqn:He; [|done]. injection E1 as <- <-. injection E2 as <-.
  eapply keeps_put; [exact He|apply Hg].
Qed.

Lemma keeps_make_builder p : keeps_points (make_builder p).
Proof.
  apply keeps_same. intros y a y' E. unfold make_builder in E. apply bind_Some_iff in E as (sn & y1 & E1 & E).
  unfold st_read in E1. destruct (_ ≫= _); [|done]. injection E1 as _ <-.
  apply bind_Some_iff in E as ([] & y2 & E2 & E). injection E2 as <-. by injection E as _ <-.
Qed.

Lemma keeps_setSubnetID i id : keeps_points (setSubnetID i id).
Proof.
  unfold setSubnetID. apply keeps_bind; [|intros []; by apply (keeps_modify i (with_subnet id None))].
  apply keeps_same. intros y a y' E. unfold st_assert in E. destruct (negb _); [|done]. by injection E as _ <-.
Qed.

Lemma keeps_getEntry i : keeps_points (getEntry i).
Proof. apply keeps_read. Qed.

Lemma keeps_getSubnetID i : keeps_points (getSubnetID i).
Proof.
  unfold getSubnetID. apply keeps_bind; [apply keeps_getEntry|intros e]. destruct (negb _); [apply keeps_ret|].
  apply keeps_bind; [apply keeps_read|intros p]. apply keeps_bind; [apply keeps_make_builder|intros id].
  apply keeps_bind; [apply keeps_setSubnetID|intros []]. apply keeps_bind; [apply keeps_getEntry|intros e']. apply keeps_ret.
Qed.

Lemma keeps_getSubnetBuilder i : keeps_points (getSubnetBuilder i).
Proof.
  intros y p y' E. unfold getSubnetBuilder in E. apply bind_Some_iff in E as (e & y1 & E1 & E). unfold getEntry, st_read in E1.
  destruct (d_entries (y_design y) !! i) as [e0|] eqn:He; [|done]. injection E1 as <- <-.
  destruct (e_builder e0); [by injection E as _ <-|].
  apply bind_Some_iff in E as ([] & y2 & E2 & E). unfold st_assert in E2. destruct (negb _); [|done]. injection E2 as <-.
  apply bind_Some_iff in E as (b & y3 & E3 & E). unfold st_read in E3.
  match type of E3 with match ?x with _ => _ end = _ => destruct x; [|done] end. injection E3 as _ <-.
  apply bind_Some_iff in E as (q & y4 & E4 & E). injection E4 as <- <-. apply bind_Some_iff in E as ([] & y5 & E5 & E).
  injection E5 as <-. injection E as _ <-.
  apply (keeps_put (mkSystem (y_world y) (<[y_next y := b]> (y_builders y)) (S (y_next y)) (y_design y)) i e0); [exact He|done].
Qed.

Lemma keeps_save_entry i point : keeps_points (save_entry i point).
Proof.
  unfold save_entry. apply keeps_bind; [apply keeps_getEntry|intros _]. apply keeps_bind; [apply keeps_getSubnetID|intros id].
  apply (keeps_modify i (λ e, mkSubnetEntry (if e_points e !! point then e_points e else <[point := id]> (e_points e))
    (e_subnetID e) (e_builder e) (e_arcs e) (e_arcToDesc e) (e_PI e) (e_PO e))).
  intros e q id' Hq. cbn. destruct (e_points e !! point) eqn:Ep; [done|]. rewrite lookup_insert_ne; [done|]. intros ->. congruence.
Qed.

Lemma keeps_rollback_entry i point : keeps_points (rollback_entry i point).
Proof.
  intros y [] y' E. unfold rollback_entry in E. apply bind_Some_iff in E as (e & y1 & E1 & E). unfold getEntry, st_read in E1.
  destruct (d_entries (y_design y) !! i) as [e0|] eqn:He; [|done]. injection E1 as <- <-.
  apply bind_Some_iff in E as (id & y2 & E2 & E). assert (y2 = y) as ->.
  { unfold getPointSubnetID, getEntry in E2. apply bind_Some_iff in E2 as (e1 & y3 & E3 & E4). unfold st_read in E3, E4.
    destruct (d_entries (y_design y) !! i); [|done]. injection E3 as <- <-. destruct (e_points s !! point); [|done]. by injection E4 as _ <-. }
  injection E as <-. by eapply keeps_put.
Qed.

(** C7 A check point stays: whatever a request does, a subnet that has been saved
    under a name is there under the name afterwards, so that a second [save] with
    the name does not replace it. *)
Theorem points_stay y r y' i e point id : run_request r y = Some ((), y') →
  d_entries (y_design y) !! i = Some e → e_points e !! point = Some id →
  ∃ e', d_entries (y_design y') !! i = Some e' ∧ e_points e' !! point = Some id.
Proof.
  revert y y' i e point id. assert (keeps_points (run_request r)) as Hr; [|intros y y' i e point id E; by apply (Hr y () y' E)].
  destruct r; cbn [run_request].
  - apply keeps_bind; [|intros; apply keeps_ret]. apply keeps_same. intros y a y' E. unfold on_world, subnet_new in E. by injection E as _ <-.
  - apply keeps_bind; [|intros; apply keeps_ret]. apply keeps_same. intros y a y' E. by injection E as _ <-.
  - apply keeps_bind; [apply keeps_getSubnetID|intros; apply keeps_ret].
  - apply keeps_setSubnetID.
  - apply keeps_bind; [apply keeps_getSubnetBuilder|intros; apply keeps_ret].
  - by apply (keeps_modify i (with_subnet OBJ_NULL_ID (Some p))).
  - apply keeps_bind; [apply keeps_getEntry|intros e]. apply keeps_bind; [apply keeps_read|intros p].
    apply keeps_same. intros y a y' E. by injection E as _ <-.
  - apply keeps_bind; [apply keeps_read|intros n]. apply keeps_for. intros i. apply keeps_bind; [apply keeps_getEntry|intros e].
    destruct (e_builder e); [|apply keeps_ret]. apply keeps_bind; [apply keeps_make_builder|intros id]. apply keeps_setSubnetID.
  - apply keeps_bind; [apply keeps_read|intros n]. apply keeps_bind; [apply keeps_for; intros i; apply keeps_save_entry|intros []].
    apply keeps_same. intros y a y' E. injection E as <- <-. by destruct (hasPoint point (y_design y)).
  - apply keeps_save_entry.
  - apply keeps_bind; [apply keeps_read|intros n]. apply keeps_for. intros i. apply keeps_rollback_entry.
  - apply keeps_rollback_entry.
Qed.

End Steps.

(** ** Examples *)

Section Examples.
#[local] Existing Instance no_types.

(** The elements in the order of the list. *)
#[local] Instance listed_order : HashOrder := {| visit _ l := l; visit_perm _ l := Permutation_refl l |}.

Definition nand (xs : list bool) : list bool := [negb (forallb id xs)].
Definition nand_id (k : Z) : Z := makeFID SubnetID k.
Definition nand_world : World := mkWorld (Nets.mkState ∅ 0 Nets.empty_net) [nand_subnet; nand_subnet].

Lemma nand_means : subnet_means nand_subnet 2 1 nand.
Proof.
  split; [vm_compute; reflexivity|]. split; [done|]. apply (implements_eval nand_subnet 2 nand); [vm_compute; reflexivity|].
  split; [done|]. intros xs Hxs. destruct xs as [|[] [|[] [|]]]; done.
Qed.

Lemma nand_stored : cells_stored (w_net nand_world).
Proof. by split. Qed.

(** An entry whose subnet is the second, and the first is saved. *)
Definition nand_system : System := system_of nand_world (mkDesign "nand" NullTypeID OBJ_NULL_ID [] [] ["first"]
  [mkSubnetEntry {["first" := nand_id 0]} (nand_id 1) None ∅ ∅ None None] (mkResult [] [] []) 2 1).

Definition nand_meaning : Meaning := mkMeaning 2 1 nand {["first" := nand]}.

Lemma nand_system_means : design_means nand_system [nand_meaning].
Proof.
  assert (∀ k s, subnet_get nand_world (nand_id k) = Some s → s = nand_subnet → id_means nand_world (nand_id k) 2 1 nand) as Hid.
  { intros k s Hs ->. exists nand_subnet. split; [done|apply nand_means]. }
  split; [|by intros [|i] [|j] e e' p H1 H2; cbn in *|by intros p [b Hb]].
  constructor; [|constructor]. split; cbn [m_in m_out m_fun m_points nand_meaning e_builder e_subnetID e_points].
  - by apply (Hid 1%Z nand_subnet).
  - intros point. destruct (decide (point = "first")) as [->|Hne]; [rewrite !lookup_singleton_eq; by apply (Hid 0%Z nand_subnet)|].
    by rewrite !lookup_singleton_ne.
Qed.

Lemma design_refined_witness : ∃ y', run_request (RSave "second") nand_system = Some ((), y') ∧
  design_means y' [saved "second" nand_meaning] ∧ session nand_system [nand_meaning] y' [saved "second" nand_meaning].
Proof.
  apply (design_refined nand_system [nand_meaning] nand_system [nand_meaning] (RSave "second")
    [saved "second" nand_meaning] nand_system_means (session_start _ _)); [|reflexivity].
  unfold request_room, subnet_room. vm_compute. reflexivity.
Defined.

Lemma design_net_right_witness : ∃ d w1, design_of_subnet DefaultName (nand_id 0) nand_world = Some (d, w1) ∧
  ∀ y a, session (system_of w1 d) [mkMeaning 2 1 nand ∅] y [a] → subnet_room (y_world y) 1 →
    ((∀ id y1, getSubnetID 0 y = Some (id, y1) → net_room y1 id) →
      ∃ net y', makeNet y = Some (net, y') ∧ net_implements (w_net (y_world y')) net 2 (m_fun a)) ∧
    ∀ point g, m_points a !! point = Some g → (∀ id, getPointSubnetID 0 point y = Some (id, y) → net_room y id) →
      ∃ net y', makePointNet point y = Some (net, y') ∧ net_implements (w_net (y_world y')) net 2 g.
Proof.
  apply (design_net_right nand_world (nand_id 0) nand_subnet 2 1 nand DefaultName nand_stored); [reflexivity|apply nand_means|reflexivity..].
Defined.

(** The second [save] under the name of the first leaves the first. *)
Lemma points_stay_witness : ∃ y' e', run_request (RSave "first") nand_system = Some ((), y') ∧
  d_entries (y_design y') !! 0 = Some e' ∧ e_subnetID e' = nand_id 1 ∧ e_points e' !! "first" = Some (nand_id 0).
Proof.
  destruct (run_request (RSave "first") nand_system) as [[[] y']|] eqn:E; [|by vm_compute in E].
  destruct (points_stay nand_system (RSave "first") y' 0 _ "first" (nand_id 0) E eq_refl) as (e' & He' & Hp); [reflexivity|].
  exists y', e'. split_all; [done|done| |done]. vm_compute in E. injection E as <-. cbn in He'. by injection He' as <-.
Defined.

(** The net of the design is made. *)
Example nand_net_made : is_Some ('(d, w) ← design_of_subnet DefaultName (nand_id 0) nand_world; makeNet (system_of w d)).
Proof. vm_compute. by eexists. Qed.

(** [replaceCell] reads the ports of the new cell at the port of the other end of a
    link: a flip-flop with one output cannot be replaced if its data come from the
    second port of a cell. *)
Example replaceCell_reads_other_port : let q k := makeFID CellID k in
  replace_links (q 5%Z) (q 6%Z) [0%Z] [0%Z] {[(LinkEnd (q 2%Z) 1, LinkEnd (q 5%Z) 0) := 0]} = None ∧
  is_Some (replace_links (q 5%Z) (q 6%Z) [0%Z] [0%Z] {[(LinkEnd (q 2%Z) 0, LinkEnd (q 5%Z) 0) := 0]}).
Proof. vm_compute. split; [done|by eexists]. Qed.
End Examples.
