(* ===== verification/Defects.v ===== *)
(** * Runs that the builder does not survive

    Closed runs of the model on which the code leaves its own contract: an
    out-of-range access or a failed assertion ([None] in the model). *)

From S2P Require Import Prelude CellType SubnetBase Builder Make BuilderCorrect SynthBits.
From stdpp Require Import gmap strings.

#[local] Existing Instance no_types.

(** A constant, then an input. *)
Definition input_after_constant : option (Link * SubnetBuilder) :=
  (addGate ZERO [] ;; addInput) empty_builder.

(** An input cannot be added to a builder that holds constants only: the
    search for the place of the input runs over the begin of the order and reads
    the entry [lowerBoundID]. *)
Theorem input_after_constant_fails : input_after_constant = None.
Proof. vm_compute. reflexivity. Qed.

(** The links of a cell with eight inputs, all at once and one by one. *)
Definition eight_links : option (LinkList * list (option Link)) :=
  fst <$> (xs ← addInputs 8; l ← addGate AND xs;
           ls ← st_read (λ b, getLinks b (idx l));
           js ← st_gets (λ b, (λ j, getLink b (idx l) j) <$> seq 0 8);
           mret (ls, js)) empty_builder.

(** Of a cell with eight links [getLinks] returns all of them, while
    [getLink] reads the last one past the end of a link entry. *)
Theorem getLink_out_of_range : eight_links =
  Some (LinkTo <$> seq 0 8, (Some <$> (LinkTo <$> seq 0 7)) ++ [None]).
Proof. vm_compute. reflexivity. Qed.

(** Two conjunctions are added and deleted, then an output is added. *)
Definition after_deletion : option SubnetBuilder :=
  snd <$> (x ← addInput; y ← addInput; k ← addGate AND [x; y]; m ← addGate AND [k; x];
           st_update (deleteCell (idx m)) ;; addOutput x) empty_builder.

(** After the cells at the end of the order have been deleted, [make]
    may fail on a builder with a valid output: the order is still the normal one,
    so that the entries are taken as they are, a deleted one among them. *)
Theorem make_after_deletion_fails :
  ∃ b, after_deletion = Some b ∧ b_nOut b = 1 ∧ isDisassembled b = false ∧
    emptyEntryIDs b = [3] ∧ make false b = None.
Proof.
  assert (match after_deletion with
          | Some b => b_nOut b = 1 ∧ isDisassembled b = false ∧ emptyEntryIDs b = [3] ∧
              match make false b with Some _ => False | None => True end
          | None => False end) as Hb by (vm_compute; by split_all).
  destruct after_deletion as [b|]; [|done]. exists b. destruct Hb as (? & ? & ? & Hm).
  split_all; [done..|]. by destruct (make false b).
Qed.
